(* ===== verification/_CoqProject ===== *)
-Q . S2P
Prelude.v
Sequence.v
Frame.v
Dedup.v
Inbound.v
Outbox.v
Exchange.v
Replay.v
Text.v
Numerals.v
DebugFmt.v
Ordered.v
Calendar.v
Instants.v
NetworkPolicy.v
SseFraming.v
LoginLimiter.v
LoginFacts.v
LoginSafety.v
Fencing.v
Transaction.v
Accounts.v
AuthSession.v
AuthFacts.v
AuthRuns.v
AuthSafety.v
Ledger.v
LedgerFacts.v
DeviceOutbox.v
Daemon.v
Occupancy.v
ProductSession.v
Binding.v
Routing.v
Fingerprint.v
RoutingFacts.v
PublicationFacts.v
Publication.v
PublicationLedger.v
PublicationRuns.v
PublicationSafety.v
StateKeys.v
StateStore.v
StateFacts.v
StateInvariant.v
StateRuns.v
StateProgress.v
StateSafety.v
Instances.v
InstanceFacts.v
InstanceRuns.v
InstanceSafety.v
Queue.v
QueueFacts.v
QueueRuns.v
QueueFixture.v
QueueSafety.v
QueuePages.v
JobCommit.v
ModelPool.v
PoolFacts.v
PoolInvariant.v
PoolMoves.v
PoolRuns.v
PoolStreams.v
PoolRestore.v
PoolSafety.v
PublicationStore.v
PublicationShared.v
AuditTypes.v
AuditTables.v
AuditFacts.v
AuditChain.v
AuditRuns.v
AuditFixture.v
AuditSafety.v
Governance.v
GovernanceSafety.v
AuditExport.v
ExportSafety.v
