(* ===== verification/Prelude.v ===== *)
(** * WinWinCode: a verification of its core protocols and state machines

    WinWinCode runs coding agents for a team.  A browser client talks to a server; the
    server keeps its durable state in a control plane; devices run a daemon that connects
    to the server over the ClientControlPort and launches workers, which report over the
    ExecutionPort; workers call model providers through a common network policy.  This
    library models the parts of the Rust sources (under [src/crates]) that decide what is
    delivered, accepted, resent, authorised or resolved, and proves that they do so
    correctly.

    ** Conventions

    A Rust integer is a [Z] with its bounds written where the code checks them
    ([u64_max], [checked_add_u64], [max_safe_integer]); [String]s are their UTF-8 bytes in
    [string]; a [HashMap] or [BTreeMap] is a [gmap]; [Result] is [result], a monad in which
    [?] is the bind and [if c { return Err(e) }] is [refuse c e]; a method on [&mut self] is
    a function to the new state and the method's result; a trait is a type class, and what
    its callers rely on is a second class of laws.  Third-party code (serde_json, SHA-256,
    the Unicode tables of core, the clock and random source) is an argument of the
    definitions that use it.

    ** Files

    - [Prelude]: results, machine integers, sequences of numbers, tactics ([inv_result],
      [split_bools]) and lemmas shared by all files.
    - [Text], [Numerals], [DebugFmt], [Ordered]: what the sources use of Rust's library for
      text, numbers, [{:?}] printing and slices.  [Numerals] also has the wire form of the
      fencing token ([winwincode-client-port/src/wire.rs]).
    - [Sequence], [Frame], [Dedup], [Inbound], [Outbox], [Exchange]: the ClientControlPort
      exchange ([winwincode-client-port/src/exchange/]).  [Sequence] numbers frames,
      [Frame] is the codec, [Dedup] and [Inbound] the receiver ([InboundStream::ingest]),
      [Outbox] the sender ([OutboxSession] over the trait [FrameOutbox] and the laws its
      implementations keep, with [InMemoryOutbox] as one), and [Exchange] the two over a
      network that loses, repeats and reorders messages.
    - [DeviceOutbox]: the other implementation of [FrameOutbox], the table [client_outbox]
      of a device's SQLite store ([winwincode-device-client/src/store.rs]), with restarts and
      the adoption of a stream after enrolment.
    - [Transaction]: the state and error monads of a database transaction and of a method
      on [&mut self], what holds after one, and actions that keep a relation.
    - [Calendar], [Instants]: day arithmetic, instants as texts and as milliseconds, offsets
      and windows (copied in many crates; modelled from
      [winwincode-server/src/client_occupancy.rs],
      [winwincode-storage/src/artifact/metering.rs] and [client_connect.rs], and
      [winwincode-publication/src/coordinator.rs]).
    - [Replay]: the runtime event log of the ExecutionPort
      ([winwincode-execution-port/src/replay.rs]), over the traits [ReplayStore],
      [ReplayAcknowledgementStore] and [ReplayAuthority].
    - [Fencing]: the occupancy guard of a device
      ([winwincode-device-client/src/fencing.rs]) with the durable mirror and the release
      intents it relies on ([store.rs]).
    - [Ledger], [LedgerFacts]: the server's ledger of device occupancy leases
      ([winwincode-storage/src/client_occupancy.rs]) and its properties.
    - [Daemon], [Occupancy]: the device daemon's occupancy handlers
      ([winwincode-device-client/src/daemon.rs]), and ledger, unreliable delivery and daemon
      composed.
    - [NetworkPolicy]: failure classes, retry decision and retry loop
      ([winwincode-network/src/policy.rs], [lib.rs], [diagnostic.rs]).
    - [SseFraming]: the event-stream parser of the provider adapters
      ([winwincode-provider/src/provider_sse_framing.rs]).
    - [ProductSession], [Binding]: the life cycle of a chat session and its binding to the
      execution that serves it ([winwincode-session/src/product_session.rs], [binding.rs]).
    - [Routing], [Fingerprint], [RoutingFacts]: the interaction router
      ([winwincode-session/src/interaction_routing.rs]), the injectivity of the printed
      fingerprints by which it recognises a repeated request, and its properties.
    - [PublicationFacts], [Publication], [PublicationLedger], [PublicationRuns],
      [PublicationSafety]: the publication of an approved delivery at a code host
      ([winwincode-publication/src]: [facts.rs], [operation.rs], [policy.rs], [storage.rs],
      [coordinator.rs]).  The first two hold the definitions; [PublicationLedger] has the
      storage trait's contract and the invariant of its tables, [PublicationRuns] the
      provider port's contract and the invariant of runs, [PublicationSafety] the theorems
      with an in-memory storage and a provider as witnesses.
    - [StateKeys], [StateStore], [StateFacts], [StateInvariant], [StateRuns],
      [StateProgress], [StateSafety]: the product state storage
      ([winwincode-storage/src/lib.rs]): the keys of its tables, the commit of a state with
      its events, journal entries, audit records and receipt, the projections and their
      cursors, and the event outbox.
    - [Instances], [InstanceFacts], [InstanceRuns], [InstanceSafety]: the leases of control
      plane processes and the claims of commands
      ([winwincode-storage/src/control_plane_instances.rs]).
    - [Queue], [QueueFacts], [QueueRuns], [QueueFixture], [QueueSafety], [QueuePages]: the
      execution queue with its dependencies, leases, cancellations and listings
      ([winwincode-storage/src/execution_queue.rs]); [JobCommit] composes it with a commit of
      the product state ([lib.rs], [commit_with_execution_job]).
    - [PublicationStore], [PublicationShared]: the adapter that keeps publications in the
      product state storage ([winwincode-storage/src/publication.rs]), and the publication
      coordinator over that storage while others write to it.
    - [LoginLimiter], [LoginFacts], [LoginSafety]: the login rate limiter
      ([winwincode-server/src/login_rate_limiter.rs]).
    - [Accounts]: the owner account ([winwincode-domain/src/user_account.rs],
      [winwincode-storage/src/user_accounts.rs], [winwincode-server/src/user_accounts.rs],
      [password_hash.rs]).
    - [AuthSession], [AuthFacts], [AuthRuns], [AuthSafety]: browser sessions
      over the limiter and the account ([winwincode-server/src/auth_session.rs],
      [transport.rs]).  A read of a session is two statements, and [AuthRuns] lets other
      calls come between them.
    - [ModelPool], [PoolFacts], [PoolInvariant], [PoolMoves], [PoolRuns], [PoolStreams],
      [PoolRestore], [PoolSafety]: the pool of requests to model providers
      ([winwincode-control-plane/src/model_request_pool.rs]).  [ModelPool] has the
      definitions; the next two the invariant of records, routes and the pool; [PoolMoves]
      the abstract steps that the operations refine; the others what runs, reads and
      restarts keep.
    - [AuditTypes], [AuditTables], [AuditFacts], [AuditChain], [AuditRuns],
      [AuditFixture], [AuditSafety]: audit events and the hash-chained store that keeps them
      ([winwincode-audit/src/event.rs], [store.rs]).  The first two have the definitions,
      [AuditChain] the invariant of the tables, [AuditRuns] the abstract log that the store
      implements, the simulation between them, and what a digest fixes.
    - [Governance], [GovernanceSafety]: the retention, residency and legal-hold policy and
      the deletions that are audited before they are carried out
      ([winwincode-audit/src/governance.rs]).
    - [AuditExport], [ExportSafety]: the export of an organisation's audit events, page by
      page over a checkpoint, and the verifier that needs no store
      ([winwincode-audit/src/export.rs]).  It stands on [AuditTables] and [Governance].

    ** What the theorems show

    - Exchange: over any schedule of an unreliable network the receiver accepts exactly a
      prefix of the frames sent, in order, and what it lacks is still retained
      ([exchange_exactly_once]); enough rounds catch up ([exchange_catches_up]); a command
      takes effect at most once per idempotency key ([inbound_run_commands]) and only from
      the bound device instance ([inbound_run_fenced]); every run over any store that keeps
      its contract preserves the snapshot's validity, which is characterised exactly
      ([outbox_run_durable], [validate_iff_wf]); the end of the sequence space is covered
      ([allocate_run_consecutive], [last_sequence_corrupts]).  The device's table keeps the
      contract and reads back byte for byte after any run and restart
      ([device_outbox_reads_back]); an adopted stream resumes where the server left it
      ([adoption_resumes]).
    - Occupancy: leases of a device exclude one another and fencing tokens only grow
      ([ledger_run_exclusive]), each operation is exactly its move of the life cycle
      ([lease_op_refines], [claim_exact], [lease_op_repeat], [ledger_run_lifecycle]), and
      over unreliable delivery, failing handlers and restarts no command of a superseded
      lease is authorised ([occupancy_fenced], [daemon_mirror_coherent]).
    - Time: the day arithmetic is the Gregorian calendar ([civil_from_days_gregorian]),
      instants and their texts are in bijection ([instant_round_trip]), and a deadline passes,
      compared as a text, when its time has passed ([deadline_passes_on_time]).
    - Replay: acceptance refines a four-way contract over every lawful store, with the
      complete list of its failures ([accept_refines]); resuming returns exactly the next
      events ([resume_exact]); runs keep streams valid and append-only
      ([replay_run_sound]).
    - Fencing: the mirror only moves forward ([mirror_monotone]), so a ticket is honoured
      exactly while nothing has superseded it ([ticket_valid_while_current]); a release is
      recorded once per key ([release_intent_recorded_once]).
    - Network: no unsafe resend ([decide_no_unsafe_resend]), bounded waits and attempts
      ([decide_delay_bounds], [retry_budget]) and termination of the blocking loop
      ([run_blocking_terminates]).
    - Event streams: rendering and parsing are inverse ([parse_render]); limits hold on any
      input ([parse_within_limits], [parse_prefix_truncates]).
    - Sessions: the operations refine a transition table on every branch
      ([apply_op_refines], [session_ops_wf], [session_run_guarantee]); bindings are
      write-once and can be rebuilt from their stored form ([binding_write_once],
      [reachable_binding_rebuilds]).
    - Routing: an interaction is resolved at most once ([interaction_resolved_once]), by the
      registered actor with a registered choice ([respond_registered]); a repeat is answered
      from the record exactly when it is the same request ([respond_replay_exact],
      [cancel_replay_exact]); a cancellation reaches every registered execution
      ([cancel_routes_complete]).
    - Publication: whatever fails, the provider carries out each operation at most once and
      in order, and published means that all were carried out
      ([publication_writes_once_in_order]); what is stored loads again as a history of valid
      transitions ([stored_publication_loads]); resuming returns ([resume_returns]) and does
      nothing without the policy's recorded leave ([policy_gates_resume]).  All of this holds
      over the product state storage while others commit to it
      ([publication_over_shared_store]).
    - Product state: the commits of any run are a serial history of their streams
      ([store_serial_history]), a command is answered once whatever is retried
      ([commit_answered_once]), a commit does on success all that it promises
      ([commit_performed]), a projection's cursor never skips or repeats an event
      ([projection_cursor_stable]), and an event stays pending until it is published
      ([event_pending_until_published]).
    - Control plane instances: at most one live instance has a lease ([lease_excludes]), a
      claim that was taken over never commits ([superseded_claim_never_commits],
      [retired_authority_powerless]), what is committed under claims is a serial history
      ([claimed_commits_serial]), and a failover can be completed ([failover_completes]).
    - Execution queue: a job runs only after its dependencies ([dependencies_gate]), moves
      only forward ([job_moves_forward]) and is not stuck ([queue_never_stuck]); requests are
      answered once ([request_answered_once], [job_committed_once]); the pages of a listing
      are the listing ([pages_are_the_listing]).
    - Logins and sessions: an accepted cookie is that of a session issued to the owner and
      not revoked ([session_authentic]) and an issued one is accepted
      ([issued_session_authenticates]); a lockout stands ([lockout_stands]) and a rejection
      is justified ([rejection_justified], [saturation_cache_exact]); the server is
      initialised once ([initialized_once]).  [expired_session_revived] is the race by which
      a session survives the revocation of all sessions of its user.
    - Model requests: the pool stays within its limits, keeps its slots busy and its indexes
      consistent ([pool_within_limits]); slots are handed on in order ([grants_in_order]); a
      client reads the stream as it was written ([stream_read_in_order]) and can always get
      a paused stream going ([paused_stream_resumes]).  What a restart restores is
      characterised exactly ([restore_exact]); a cancelled exchange with unread frames is
      outside of it ([cancelled_pool_lost]).
    - Audit: every chain verifies and confirms every checkpoint taken of it
      ([audit_chain_verifies]); the store implements a log in which an accepted event keeps
      its place for ever ([audit_log_kept]) and whose pages show a reader what its scope
      covers ([audit_pages_read]); a database that is accepted under a checkpoint records the
      events it was taken over, unless the hash has a collision among the messages at hand
      ([tampering_detected]).
    - Governance: data is deleted only when the policy lets it go, with the authorisation on
      the audit chain for ever ([deletions_governed]).
    - Export: the pages of an export are accepted in order, whatever comes to the store
      between them, show every event as the query asks, and are made whenever every event can
      be shown ([export_accepted]); pages that are accepted up to a checkpoint, whoever made
      them, show the events of the store ([accepted_export_genuine]).  What governance records
      of a redaction is the decision that an export asks for ([redaction_is_decision]).

    ** Bounds and fuel

    Most functions are structural.  [Numerals] prints with fuel [log2 n + 1], which no
    radix above one exhausts; [Ordered]'s binary search and [DebugFmt]'s decoder recurse
    on the length of their input, and their lemmas show that this is enough.  The retry
    loop of [NetworkPolicy] takes its fuel as an argument; [run_blocking_terminates] shows
    that [max_attempts] turns, and waits bounded by the longest [Duration], always give a
    result.  The loop of [Publication.resume] has fuel 5, one turn for each of the four
    steps and one to finish, and [resume_returns] shows that it is never exhausted.
    [QueuePages] follows a listing's cursors with one turn more than there are jobs, and
    [pages_are_the_listing] shows that the listing is then complete.  No theorem speaks only
    of runs that happen to return.

    ** What is not modelled

    SQLite itself, HTTP, processes and the file system: the modelled operations are the
    decisions and the table rows they read and write, and a transaction happens entirely or
    not at all; a method that is several statements outside a transaction is several steps.
    The GitHub client behind the publication port is represented by the port's contract.
    The worker, the adapter of the vendored agent, the server's endpoints, the command line
    and the generated contracts are left out as effects or glue.  Left out for their size,
    and not because they could not be modelled in the same way: the application services of
    the control plane above the storage and the pool, launch grants and worker slots, the
    typed transport of the ExecutionPort above [Replay], the rules of the delivery workflow
    and the fusion planner. *)

From Stdlib Require Import ZArith Lia.
From Stdlib Require Strings.Byte.
From stdpp Require Export prelude numbers strings gmap list.

(** ** Results

    Rust's [Result<A, E>].  The type is a monad in its success argument, so the
    [?] operator of the source becomes stdpp's [x ← c; k]. *)

Inductive result (E A : Type) : Type :=
| Ok (a : A)
| Err (e : E).

Arguments Ok {E A} a.
Arguments Err {E A} e.

#[global] Instance result_eq_dec {E A} `{!EqDecision E, !EqDecision A} :
  EqDecision (result E A).
Proof. solve_decision. Defined.

#[global] Instance result_ret {E} : MRet (result E) := λ A a, Ok a.
#[global] Instance result_bind {E} : MBind (result E) :=
  λ A B f m, match m with Ok a => f a | Err e => Err e end.
#[global] Instance result_fmap {E} : FMap (result E) :=
  λ A B f m, match m with Ok a => Ok (f a) | Err e => Err e end.

(** [Result::map_err]. *)
Definition map_err {E F A} (f : E → F) (m : result E A) : result F A :=
  match m with Ok a => Ok a | Err e => Err (f e) end.

(** [Option::ok_or]. *)
Definition ok_or {E A} (o : option A) (e : E) : result E A :=
  match o with Some a => Ok a | None => Err e end.

(** The early return [if b { return Err(e); }]. *)
Definition refuse {E} (b : bool) (e : E) : result E () :=
  if b then Err e else Ok tt.

(** [Result::is_ok]. *)
Definition is_ok {E A} (m : result E A) : bool :=
  match m with Ok _ => true | Err _ => false end.

(** A loop [for x in xs { check(x)?; }]. *)
Fixpoint check_all {E A} (check : A → result E ()) (xs : list A) : result E () :=
  match xs with
  | [] => Ok tt
  | x :: xs => check x ;; check_all check xs
  end.

#[global] Arguments Z.min : simpl never.
#[global] Arguments Z.max : simpl never.
#[global] Arguments Z.of_nat : simpl never.
#[global] Arguments Z.to_nat : simpl never.

#[global] Instance byte_eq_dec : EqDecision Byte.byte.
Proof. intros x y. destruct (Byte.byte_eq_dec x y); [by left|by right]. Defined.

(** ** Machine integers

    Integers are kept in [Z]; the width is explicit in every operation that can
    leave it. *)

Definition u64_max : Z := 18446744073709551615.
Definition u32_max : Z := 4294967295.
Definition i64_max : Z := 9223372036854775807.

(** [9_007_199_254_740_991], the largest integer JSON carries exactly. *)
Definition max_safe_integer : Z := 9007199254740991.

Definition in_u64 (z : Z) : Prop := (0 ≤ z ≤ u64_max)%Z.
Definition in_u32 (z : Z) : Prop := (0 ≤ z ≤ u32_max)%Z.

(** [u64::checked_add]. *)
Definition checked_add_u64 (a b : Z) : option Z :=
  if (a + b <=? u64_max)%Z then Some (a + b)%Z else None.

(** [u64::saturating_add] and [u32::saturating_add]. *)
Definition saturating_add_u64 (a b : Z) : Z := Z.min (a + b) u64_max.
Definition saturating_add_u32 (a b : Z) : Z := Z.min (a + b) u32_max.

(** [u32::saturating_sub]. *)
Definition saturating_sub (a b : Z) : Z := Z.max 0 (a - b).

(** [i64::saturating_add] and [i64::saturating_sub]. *)
Definition i64_min : Z := -9223372036854775808.
Definition saturating_add_i64 (a b : Z) : Z := Z.max i64_min (Z.min (a + b) i64_max).
Definition saturating_sub_i64 (a b : Z) : Z := Z.max i64_min (Z.min (a - b) i64_max).

(** ** Generic lemmas on results *)

Section result_lemmas.
Context {E : Type}.

Lemma bind_Ok {A B} (m : result E A) (f : A → result E B) b :
  (m ≫= f) = Ok b ↔ ∃ a, m = Ok a ∧ f a = Ok b.
Proof. destruct m; naive_solver. Qed.

Lemma bind_Err {A B} (m : result E A) (f : A → result E B) e :
  (m ≫= f) = Err e ↔ m = Err e ∨ ∃ a, m = Ok a ∧ f a = Err e.
Proof. destruct m; naive_solver. Qed.

(** A check that passes is skipped. *)
Lemma refuse_run {B} c (e : E) (k : result E B) : c = false → (refuse c e ;; k) = k.
Proof. by intros ->. Qed.

Lemma refuse_Ok b (e : E) u : refuse b e = Ok u ↔ b = false.
Proof. destruct b, u; naive_solver. Qed.

Lemma refuse_Err b (e e' : E) : refuse b e = Err e' ↔ b = true ∧ e = e'.
Proof. destruct b; naive_solver. Qed.

Lemma ok_or_Ok {A} (o : option A) (e : E) a : ok_or o e = Ok a ↔ o = Some a.
Proof. destruct o; naive_solver. Qed.

Lemma ok_or_Err {A} (o : option A) (e e' : E) :
  ok_or o e = Err e' ↔ o = None ∧ e = e'.
Proof. destruct o; naive_solver. Qed.

Lemma check_all_Ok {A} (check : A → result E ()) xs u :
  check_all check xs = Ok u ↔ Forall (λ x, check x = Ok tt) xs.
Proof.
  destruct u. induction xs as [|x xs IH]; simpl; [by split|].
  rewrite Forall_cons, bind_Ok, <-IH. split; [by intros ([] & ? & ?)|].
  intros [? ?]. by exists tt.
Qed.

Lemma map_err_Ok {F A} (f : E → F) (m : result E A) a :
  map_err f m = Ok a ↔ m = Ok a.
Proof. destruct m; naive_solver. Qed.

Lemma map_err_Err {F A} (f : E → F) (m : result E A) e :
  map_err f m = Err e ↔ ∃ e0, m = Err e0 ∧ e = f e0.
Proof. destruct m; naive_solver. Qed.
End result_lemmas.

Lemma checked_add_u64_Some a b c :
  checked_add_u64 a b = Some c ↔ c = (a + b)%Z ∧ (a + b ≤ u64_max)%Z.
Proof. unfold checked_add_u64. case_match; naive_solver lia. Qed.

Lemma checked_add_u64_None a b :
  checked_add_u64 a b = None ↔ (u64_max < a + b)%Z.
Proof. unfold checked_add_u64. case_match; naive_solver lia. Qed.

(** ** Consecutive integers *)

Lemma seqZ_snoc (m n : Z) :
  (0 ≤ n)%Z → seqZ m n ++ [(m + n)%Z] = seqZ m (n + 1).
Proof. intros. by rewrite (seqZ_app m n 1) by lia. Qed.

Section filters.
Context {A : Type} (P : A → Prop) `{!∀ x, Decision (P x)}.

Lemma filter_all (l : list A) : Forall P l → filter P l = l.
Proof.
  induction 1 as [|x l Hx _ IH]; [done|]. by rewrite filter_cons_True, IH.
Qed.

Lemma filter_none (l : list A) : Forall (λ x, ¬ P x) l → filter P l = [].
Proof.
  induction 1 as [|x l Hx _ IH]; [done|]. by rewrite filter_cons_False.
Qed.

Lemma Forall_filter (Q : A → Prop) (l : list A) : Forall Q l → Forall Q (filter P l).
Proof. intros HQ. apply Forall_forall. intros x [_ Hx]%list_elem_of_filter.
  by apply (proj1 (Forall_forall _ _) HQ). Qed.

Lemma filter_fmap {B} (f : B → A) (l : list B) :
  filter P (f <$> l) = f <$> filter (λ x, P (f x)) l.
Proof.
  induction l as [|x l IH]; [done|]. simpl.
  destruct (decide (P (f x))).
  - rewrite !filter_cons_True by done. simpl. by f_equal.
  - by rewrite !filter_cons_False.
Qed.
End filters.

(** The elements above [a] of an interval that reaches down to [a + 1] are an
    interval that starts at [a + 1]. *)
Lemma filter_gt_seqZ (m n a : Z) :
  (0 ≤ n)%Z → (m ≤ a + 1 ≤ m + n)%Z →
  filter (λ x, a < x)%Z (seqZ m n) = seqZ (a + 1) (m + n - (a + 1)).
Proof.
  intros Hn Ha.
  replace n with ((a + 1 - m) + (m + n - (a + 1)))%Z at 1 by lia.
  rewrite seqZ_app, filter_app by lia.
  rewrite filter_none, filter_all; simpl.
  - f_equal; lia.
  - apply Forall_forall. intros x Hx%elem_of_seqZ. lia.
  - apply Forall_forall. intros x Hx%elem_of_seqZ. lia.
Qed.

(** In a list numbered consecutively from [a], the elements above [b] are a suffix. *)
Lemma filter_numbered {A} (f : A → Z) (l : list A) (a b : Z) :
  f <$> l = seqZ a (Z.of_nat (length l)) →
  filter (λ x, b < f x)%Z l = drop (Z.to_nat (b + 1 - a)) l.
Proof.
  revert a. induction l as [|x l IH]; intros a Hseq; [by rewrite drop_nil|].
  replace (Z.of_nat (length (x :: l))) with (1 + Z.of_nat (length l))%Z in Hseq by (simpl; lia).
  rewrite seqZ_cons in Hseq by lia. injection Hseq as Hx Hl.
  replace (Z.pred (1 + Z.of_nat (length l)))%Z with (Z.of_nat (length l)) in Hl by lia.
  destruct (decide (b < a)%Z).
  - replace (Z.to_nat (b + 1 - a)) with 0%nat by lia. apply filter_all.
    constructor; [lia|]. apply Forall_forall. intros y Hy.
    assert (f y ∈ seqZ (Z.succ a) (Z.of_nat (length l))) as H.
    { rewrite <-Hl. by apply list_elem_of_fmap_2. }
    apply elem_of_seqZ in H. lia.
  - rewrite filter_cons_False by lia.
    replace (Z.to_nat (b + 1 - a)) with (S (Z.to_nat (b + 1 - Z.succ a))) by lia. by apply IH.
Qed.

Lemma take_seqZ (m n : Z) (k : nat) :
  take k (seqZ m n) = seqZ m (Z.min (Z.of_nat k) n).
Proof.
  apply list_eq. intros i. rewrite lookup_take. apply option_eq. intros x.
  case_decide; rewrite ?lookup_seqZ; [lia|].
  split; [done|]. intros [? ?]. lia.
Qed.

(** A list numbered consecutively, seen from its two ends. *)
Lemma seqZ_ends {A} (f : A → Z) (l : list A) (a : Z) :
  f <$> l = seqZ a (Z.of_nat (length l)) → l ≠ [] →
  f <$> head l = Some a ∧ f <$> last l = Some (a + Z.of_nat (length l) - 1)%Z.
Proof.
  intros Hseq Hne. split.
  - destruct l as [|x l]; [done|]. simpl in Hseq |- *.
    rewrite seqZ_cons in Hseq by lia. by injection Hseq as ->.
  - rewrite <-fmap_last, Hseq. destruct l as [|x l]; [done|]. simpl.
    replace (Z.of_nat (S (length l))) with (Z.of_nat (length l) + 1)%Z by lia.
    rewrite <-seqZ_snoc, last_snoc by lia. f_equal. lia.
Qed.

(** A comparison of equals does not refuse. *)
Lemma differs_refl {A} `{!EqDecision A} (x : A) : bool_decide (x ≠ x) = false.
Proof. apply bool_decide_eq_false. intros H. by apply H. Qed.

(** ** Automation *)

Create HintDb wwc discriminated.
#[export] Hint Constants Opaque : wwc.

(** Rewrites a hypothesis that says a monadic computation succeeded (or failed
    at a known step) into the facts it rests on. *)
Ltac inv_result :=
  repeat match goal with
  | H : Ok _ = Ok _ |- _ => injection H as H; subst
  | H : Err _ = Err _ |- _ => injection H as H; subst
  | H : Ok _ = Err _ |- _ => discriminate H
  | H : Err _ = Ok _ |- _ => discriminate H
  | H : (_ ≫= _) = Ok _ |- _ => apply bind_Ok in H as (? & ? & H)
  | H : refuse _ _ = Ok _ |- _ => apply refuse_Ok in H
  | H : ok_or _ _ = Ok _ |- _ => apply ok_or_Ok in H
  | H : map_err _ _ = Ok _ |- _ => apply map_err_Ok in H
  | H : checked_add_u64 _ _ = Some _ |- _ => apply checked_add_u64_Some in H as [? ?]
  | H : checked_add_u64 _ _ = None |- _ => apply checked_add_u64_None in H
  end; simplify_eq.

(** Splits every [if] and [match] of the goal, keeping the equations. *)
Ltac split_cases :=
  repeat (case_match; simplify_eq/=).

(** Splits the boolean connectives of the hypotheses. *)
Ltac split_bools :=
  repeat match goal with
  | H : _ && _ = true |- _ => apply andb_true_iff in H as [? ?]
  | H : _ || _ = false |- _ => apply orb_false_iff in H as [? ?]
  | H : negb _ = true |- _ => apply negb_true_iff in H
  | H : negb _ = false |- _ => apply negb_false_iff in H
  | H : bool_decide _ = true |- _ => apply bool_decide_eq_true in H
  | H : bool_decide _ = false |- _ => apply bool_decide_eq_false in H
  | H : ¬ _ ≠ _ |- _ => apply dec_stable in H
  end.
