(* ===== verification/Sequence.v ===== *)
(** * Sequence numbers of the ClientControlPort exchange

    Models [crates/winwincode-client-port/src/exchange/sequence.rs]: the
    allocator that numbers outgoing frames and the acknowledgement cursor that
    accepts incoming ones.  Both work on [u64], so the end of the sequence space
    is part of the model. *)

From S2P Require Import Prelude.
Local Open Scope Z_scope.

(** ** Data *)

Inductive SequenceError : Type := ZeroSequence | Overflow.

Record SequenceAllocator : Type := { next : Z }.

Record AckCursor : Type := { cursor_ack : Z }.

Inductive SequenceVerdict : Type :=
| Accept
| Duplicate
| Gap (replay_from_sequence : Z)
| Zero.

Inductive AckAdvanceError : Type :=
| AdvanceOverflow
| NotContiguous (ack_sequence sequence : Z).

#[global] Instance SequenceError_eq_dec : EqDecision SequenceError.
Proof. solve_decision. Defined.
#[global] Instance SequenceVerdict_eq_dec : EqDecision SequenceVerdict.
Proof. solve_decision. Defined.
#[global] Instance AckAdvanceError_eq_dec : EqDecision AckAdvanceError.
Proof. solve_decision. Defined.

(** ** The allocator *)

Definition allocator_new : SequenceAllocator := {| next := 1 |}.

Definition from_next (n : Z) : result SequenceError SequenceAllocator :=
  if n =? 0 then Err ZeroSequence else Ok {| next := n |}.

Definition peek_next (a : SequenceAllocator) : Z := next a.

(** [allocate] returns the allocated number and moves [next]; the last [u64] is
    never handed out, because its successor does not exist. *)
Definition allocate (a : SequenceAllocator) : SequenceAllocator * result SequenceError Z :=
  let allocated := next a in
  match checked_add_u64 (next a) 1 with
  | Some n => ({| next := n |}, Ok allocated)
  | None => (a, Err Overflow)
  end.

(** ** The acknowledgement cursor *)

Definition cursor_new : AckCursor := {| cursor_ack := 0 |}.

Definition from_ack (ack : Z) : AckCursor := {| cursor_ack := ack |}.

Definition cursor_next_expected (c : AckCursor) : option Z :=
  checked_add_u64 (cursor_ack c) 1.

Definition observe (c : AckCursor) (sequence : Z) : SequenceVerdict :=
  if sequence =? 0 then Zero else
  match cursor_next_expected c with
  | Some expected =>
      if sequence =? expected then Accept
      else if expected <? sequence then Gap expected
      else Duplicate
  | None => Duplicate
  end.

Definition advance (c : AckCursor) (sequence : Z) :
    AckCursor * result AckAdvanceError () :=
  match cursor_next_expected c with
  | None => (c, Err AdvanceOverflow)
  | Some expected =>
      if sequence =? expected then ({| cursor_ack := sequence |}, Ok tt)
      else (c, Err (NotContiguous (cursor_ack c) sequence))
  end.

(** ** Runs of the allocator *)

(** [n] successive calls of [allocate], and the numbers they returned. *)
Fixpoint allocate_run (n : nat) (a : SequenceAllocator) :
    SequenceAllocator * list (result SequenceError Z) :=
  match n with
  | O => (a, [])
  | S n =>
      let '(a1, r) := allocate a in
      let '(a2, rs) := allocate_run n a1 in
      (a2, r :: rs)
  end.

(** ** Lemmas *)

Lemma allocate_ok a a' s :
  allocate a = (a', Ok s) ↔ s = next a ∧ next a' = s + 1 ∧ s < u64_max.
Proof.
  unfold allocate. destruct a as [n], a' as [n']; simpl.
  destruct (checked_add_u64 n 1) eqn:E; inv_result; simpl in *.
  - split; [intros [= <- <-]; lia|by intros (-> & -> & _)].
  - split; [done|lia].
Qed.

(** The verdict of [observe] decides what [advance] does on the same cursor. *)
Lemma observe_Accept c s :
  0 ≤ cursor_ack c →
  observe c s = Accept ↔ s = cursor_ack c + 1 ∧ cursor_ack c < u64_max.
Proof.
  intros Hc. unfold observe, cursor_next_expected.
  destruct (checked_add_u64 _ _) eqn:E; inv_result; split_cases; split; try done; lia.
Qed.

Lemma observe_Gap c s r :
  0 ≤ cursor_ack c →
  observe c s = Gap r ↔ r = cursor_ack c + 1 ∧ r < s ∧ cursor_ack c < u64_max.
Proof.
  intros Hc. unfold observe, cursor_next_expected.
  destruct (checked_add_u64 _ _) eqn:E; inv_result; split_cases; split;
    try done; try lia; intros; simplify_eq; try (f_equal; lia); lia.
Qed.

Lemma observe_Duplicate c s :
  0 ≤ cursor_ack c → 0 ≤ s ≤ u64_max → cursor_ack c ≤ u64_max →
  observe c s = Duplicate ↔ 0 < s ≤ cursor_ack c.
Proof.
  intros Hc Hs Hm. unfold observe, cursor_next_expected.
  destruct (checked_add_u64 _ _) eqn:E; inv_result; split_cases; split; try done; lia.
Qed.

Lemma observe_advance c s :
  0 ≤ cursor_ack c →
  observe c s = Accept ↔ advance c s = ({| cursor_ack := s |}, Ok tt).
Proof.
  intros Hc. unfold observe, advance, cursor_next_expected.
  destruct (checked_add_u64 _ _) eqn:E; inv_result; split_cases; split; try done; lia.
Qed.

Lemma advance_accept c s :
  0 ≤ cursor_ack c → observe c s = Accept →
  advance c s = ({| cursor_ack := s |}, Ok tt).
Proof. intros Hc. by apply observe_advance. Qed.

#[export] Hint Resolve advance_accept : wwc.

(** ** Properties *)

Lemma allocate_step a :
  1 ≤ next a ≤ u64_max →
  allocate a = if next a =? u64_max then (a, Err Overflow)
               else ({| next := next a + 1 |}, Ok (next a)).
Proof.
  intros Ha. unfold allocate, checked_add_u64. split_cases; try done; lia.
Qed.

(** [SequenceAllocator::allocate], called [n] times, hands out the consecutive
    numbers from [next] on, each once, stops before [u64::MAX], and from then on
    answers [Overflow] on every call without moving. *)
Theorem allocate_run_consecutive (n : nat) (a : SequenceAllocator) :
  1 ≤ next a ≤ u64_max →
  (allocate_run n a).2 =
    (Ok <$> seqZ (next a) (Z.min (Z.of_nat n) (u64_max - next a))) ++
    replicate (Z.to_nat (Z.of_nat n - (u64_max - next a))) (Err Overflow) ∧
  next (allocate_run n a).1 = Z.min (next a + Z.of_nat n) u64_max.
Proof.
  revert a. induction n as [|n IH]; intros a Ha.
  { simpl. rewrite seqZ_nil by lia. split; [|lia]. by destruct (u64_max - next a) eqn:E; simpl; try lia. }
  simpl. rewrite allocate_step by done. destruct (Z.eqb_spec (next a) u64_max) as [Heq|Hne].
  - specialize (IH a Ha) as [IH1 IH2]. destruct (allocate_run n a) as [a2 rs]; simpl in *. subst rs.
    rewrite !seqZ_nil by lia. simpl. split; [|lia].
    by replace (Z.to_nat (Z.of_nat (S n) - (u64_max - next a))) with (S (Z.to_nat (Z.of_nat n - (u64_max - next a)))) by lia.
  - specialize (IH {| next := next a + 1 |}). simpl in IH. specialize (IH ltac:(lia)) as [IH1 IH2].
    destruct (allocate_run n _) as [a2 rs]; simpl in *. subst rs. split; [|lia].
    rewrite (seqZ_cons (next a) (Z.min (Z.of_nat (S n)) _)) by lia. simpl.
    f_equal. f_equal; [do 2 f_equal; lia|f_equal; lia].
Qed.

(** Three calls two numbers before the end: two numbers, then the refusal. *)
Lemma allocate_run_consecutive_witness :
  (allocate_run 3 {| next := u64_max - 2 |}).2 =
    [Ok (u64_max - 2); Ok (u64_max - 1); Err Overflow].
Proof.
  rewrite (proj1 (allocate_run_consecutive 3 {| next := u64_max - 2 |} ltac:(unfold u64_max; simpl; lia))).
  vm_compute. reflexivity.
Defined.
