(* ===== verification/Frame.v ===== *)
(** * Frames and the frame codec of the exchange

    Models [crates/winwincode-client-port/src/exchange/frame.rs] and the
    [Envelope] of [messages.rs].  The JSON serialiser ([serde_json]) and SHA-256
    ([sha2]) are crates outside the repository: they are arguments of the codec,
    and what the codec relies on is stated as hypotheses of the section. *)

From Stdlib Require Import Strings.Byte.
From S2P Require Import Prelude.

Local Open Scope Z_scope.

(** ** Data *)

Record FrameIdentity : Type := {
  fi_message_id : string;
  fi_sequence : Z;
  fi_payload_digest : string
}.

Record StoredFrame : Type := {
  sf_message_id : string;
  sf_sequence : Z;
  sf_payload_digest : string;
  sf_frame : list byte
}.

Definition identity (f : StoredFrame) : FrameIdentity :=
  {| fi_message_id := sf_message_id f;
     fi_sequence := sf_sequence f;
     fi_payload_digest := sf_payload_digest f |}.

Inductive FrameCodecError : Type :=
| EmptyFrame
| TooLarge (size max_frame_bytes : Z)
| Serialization (message : string)
| Deserialization (message : string).

Record FrameCodec : Type := { max_frame_bytes : Z }.

Definition DEFAULT_MAX_FRAME_BYTES : Z := 256 * 1024.

Definition codec_default : FrameCodec := {| max_frame_bytes := DEFAULT_MAX_FRAME_BYTES |}.

Definition CLIENT_CONTROL_PORT_SCHEMA_VERSION : string := "winwincode/v1".

Record Envelope (M : Type) : Type := {
  schema_version : string;
  message_id : string;
  client_node_id : string;
  client_instance_id : string;
  sequence : Z;
  occurred_at : string;
  message : M
}.

Arguments schema_version {M} _.
Arguments message_id {M} _.
Arguments client_node_id {M} _.
Arguments client_instance_id {M} _.
Arguments sequence {M} _.
Arguments occurred_at {M} _.
Arguments message {M} _.

#[global] Instance FrameIdentity_eq_dec : EqDecision FrameIdentity.
Proof. solve_decision. Defined.
#[global] Instance StoredFrame_eq_dec : EqDecision StoredFrame.
Proof. solve_decision. Defined.
#[global] Instance FrameCodecError_eq_dec : EqDecision FrameCodecError.
Proof. solve_decision. Defined.

(** ** The codec *)

Definition check_bound (c : FrameCodec) (size : Z) : result FrameCodecError () :=
  if size =? 0 then Err EmptyFrame
  else if max_frame_bytes c <? size then Err (TooLarge size (max_frame_bytes c))
  else Ok tt.

(** What [serde_json] provides for one type: [to_vec] and [from_slice], each with
    the text of its error. *)
Record Json (T : Type) : Type := {
  to_vec : T → result string (list byte);
  from_slice : list byte → result string T
}.
Arguments to_vec {T} _ _.
Arguments from_slice {T} _ _.

Definition encode {T} (json : Json T) (c : FrameCodec) (value : T) :
    result FrameCodecError (list byte) :=
  frame ← map_err Serialization (to_vec json value);
  check_bound c (Z.of_nat (length frame)) ;;
  Ok frame.

Definition decode {T} (json : Json T) (c : FrameCodec) (bytes : list byte) :
    result FrameCodecError T :=
  check_bound c (Z.of_nat (length bytes)) ;;
  map_err Deserialization (from_slice json bytes).

Section codec.
Context {M : Type}.
(** The hexadecimal SHA-256 of a byte string. *)
Context (sha256_hex : list byte → string).
Context (json_message : Json M) (json_envelope : Json (Envelope M)).

Definition payload_digest (bytes : list byte) : string :=
  "sha256:" +:+ sha256_hex bytes.

Definition envelope_identity (e : Envelope M) : result FrameCodecError FrameIdentity :=
  payload ← map_err Serialization (to_vec json_message (message e));
  Ok {| fi_message_id := message_id e;
        fi_sequence := sequence e;
        fi_payload_digest := payload_digest payload |}.

Definition encode_envelope (c : FrameCodec) (e : Envelope M) :
    result FrameCodecError StoredFrame :=
  identity ← envelope_identity e;
  frame ← encode json_envelope c e;
  Ok {| sf_message_id := fi_message_id identity;
        sf_sequence := fi_sequence identity;
        sf_payload_digest := fi_payload_digest identity;
        sf_frame := frame |}.

Definition decode_envelope (c : FrameCodec) (bytes : list byte) :
    result FrameCodecError (Envelope M) :=
  decode json_envelope c bytes.
End codec.

(** ** Properties *)

Lemma check_bound_Ok c n u :
  check_bound c n = Ok u ↔ n ≠ 0 ∧ n ≤ max_frame_bytes c.
Proof. unfold check_bound. destruct u. split_cases; split; try done; lia. Qed.

Section codec_properties.
Context {M : Type} (sha256_hex : list byte → string).
Context (json_message : Json M) (json_envelope : Json (Envelope M)).

(** What the codec relies on of [serde_json]: parsing what was printed gives the
    value back. *)
Definition json_round_trip {T} (j : Json T) : Prop :=
  ∀ v bytes, to_vec j v = Ok bytes → from_slice j bytes = Ok v.

(** A frame sealed by [FrameCodec::encode_envelope] decodes to the envelope it
    was sealed from, carries exactly the identity [envelope_identity] derives
    for that envelope, and has between one and [max_frame_bytes] bytes. *)
Theorem sealed_frame_round_trip c e f :
  json_round_trip json_envelope →
  encode_envelope sha256_hex json_message json_envelope c e = Ok f →
  decode_envelope json_envelope c (sf_frame f) = Ok e ∧
  envelope_identity sha256_hex json_message e = Ok (identity f) ∧
  1 ≤ Z.of_nat (length (sf_frame f)) ≤ max_frame_bytes c.
Proof.
  intros Hjson. unfold encode_envelope, encode.
  intros (id & Hid & (frame & (bytes & Hvec & ([] & Hbound & [= ->])%bind_Ok)%bind_Ok
    & [= <-])%bind_Ok)%bind_Ok.
  apply map_err_Ok in Hvec.
  pose proof (proj1 (check_bound_Ok _ _ _) Hbound) as [? ?].
  unfold decode_envelope, decode. simpl. split_and!; [| |lia|lia].
  - rewrite Hbound. simpl. by rewrite (Hjson _ _ Hvec).
  - rewrite Hid. by destruct id.
Qed.

(** [FrameCodec::decode] refuses an empty or oversized input before the parser
    sees it: its answer does not depend on the parser, and every accepted input
    is within the bound. *)
Theorem decode_checks_bound_first {T} (j j' : Json T) c bytes :
  (bytes = [] ∨ max_frame_bytes c < Z.of_nat (length bytes) →
     decode j c bytes = decode j' c bytes ∧ is_ok (decode j c bytes) = false) ∧
  (is_ok (decode j c bytes) = true →
     1 ≤ Z.of_nat (length bytes) ≤ max_frame_bytes c).
Proof.
  unfold decode. split.
  - intros Hbad. destruct (check_bound c _) as [u|e] eqn:E; [|done].
    apply check_bound_Ok in E as [? ?]. destruct Hbad as [-> |?]; simpl in *; lia.
  - destruct (check_bound c _) as [u|e] eqn:E; [|done].
    apply check_bound_Ok in E as [? ?]. lia.
Qed.
End codec_properties.

(** A serialiser for envelopes without payload, with one byte per envelope. *)
Definition unit_json : Json () :=
  {| to_vec := λ _, Ok [x6e]; from_slice := λ _, Ok tt |}.

Definition sample_envelope : Envelope () :=
  {| schema_version := "v1"; message_id := "msg-7"; client_node_id := "node";
     client_instance_id := "inst"; sequence := 7; occurred_at := "now";
     message := tt |}.

Definition sample_envelope_json : Json (Envelope ()) :=
  {| to_vec := λ e, if decide (message_id e = "msg-7" ∧ schema_version e = "v1" ∧
                               client_node_id e = "node" ∧ client_instance_id e = "inst" ∧
                               sequence e = 7 ∧ occurred_at e = "now")
                    then Ok [x7b; x7d] else Err "unsupported";
     from_slice := λ _, Ok sample_envelope |}.

Lemma sealed_frame_round_trip_witness :
  ∃ f, encode_envelope (λ _, "00") unit_json sample_envelope_json codec_default
         sample_envelope = Ok f ∧
       decode_envelope sample_envelope_json codec_default (sf_frame f) = Ok sample_envelope.
Proof.
  eexists. split; [vm_compute; reflexivity|].
  refine (proj1 (sealed_frame_round_trip (λ _, "00") unit_json sample_envelope_json
                   codec_default sample_envelope _ _ _)); [|vm_compute; reflexivity].
  intros [? ? ? ? ? ? []] bytes. simpl. case_decide; [|done]. naive_solver.
Defined.

Lemma decode_checks_bound_first_witness :
  decode unit_json {| max_frame_bytes := 1 |} [x7b; x7d] =
  decode {| to_vec := λ _, Err "never"; from_slice := λ _, Err "never" |}
    {| max_frame_bytes := 1 |} [x7b; x7d].
Proof.
  refine (proj1 (proj1 (decode_checks_bound_first unit_json _ {| max_frame_bytes := 1 |}
                          [x7b; x7d]) _)).
  right. reflexivity.
Defined.

(** A serialiser for the values of a table, which prints the position of a value. *)
Definition table_json {T} `{EqDecision T} (l : list T) : Json T :=
  {| to_vec := λ v, match list_find (v =.) l with
                    | Some (i, _) => match Byte.of_nat i with Some b => Ok [b] | None => Err "full" end
                    | None => Err "unknown"
                    end;
     from_slice := λ bytes, match bytes with
                            | [b] => ok_or (l !! Byte.to_nat b) "unknown"
                            | _ => Err "unknown"
                            end |}%string.

Lemma table_json_round_trip {T} `{EqDecision T} (l : list T) : json_round_trip (table_json l).
Proof.
  intros v bytes. simpl. destruct (list_find _ l) as [[i w]|] eqn:E; [|done].
  apply list_find_Some in E as (Hi & -> & _). destruct (Byte.of_nat i) as [b|] eqn:Eb; [|done].
  intros [= <-]. by rewrite (Byte.to_of_nat i Eb), Hi.
Qed.
