(* ===== verification/Dedup.v ===== *)
(** * Deduplication register of the exchange

    Models [crates/winwincode-client-port/src/exchange/dedup.rs]: the two hash
    maps that remember which frames and which idempotent commands a stream has
    already accepted. *)

From S2P Require Import Prelude Frame.
Local Open Scope Z_scope.

(** ** Data *)

Record CommandIdentity : Type := {
  idempotency_key : string;
  command_digest : string
}.

Inductive DedupVerdict : Type := New | Duplicate | Conflict.

Record FrameKey : Type := { key_message_id : string; key_sequence : Z }.

#[global] Instance CommandIdentity_eq_dec : EqDecision CommandIdentity.
Proof. solve_decision. Defined.
#[global] Instance DedupVerdict_eq_dec : EqDecision DedupVerdict.
Proof. solve_decision. Defined.
#[global] Instance FrameKey_eq_dec : EqDecision FrameKey.
Proof. solve_decision. Defined.
#[global] Instance FrameKey_countable : Countable FrameKey.
Proof.
  apply (inj_countable' (λ k, (key_message_id k, key_sequence k))
           (λ p, {| key_message_id := p.1; key_sequence := p.2 |})).
  by intros [].
Defined.

Record DedupRegister : Type := {
  frames : gmap FrameKey string;
  commands : gmap string string
}.

Definition register_new : DedupRegister := {| frames := ∅; commands := ∅ |}.

(** ** Operations *)

Definition frame_key (id : FrameIdentity) : FrameKey :=
  {| key_message_id := fi_message_id id; key_sequence := fi_sequence id |}.

(** The verdict both checks share: absent, present with the same digest, present
    with another one. *)
Definition verdict (known : option string) (digest : string) : DedupVerdict :=
  match known with
  | None => New
  | Some d => if bool_decide (d = digest) then Duplicate else Conflict
  end.

Definition check_frame (r : DedupRegister) (id : FrameIdentity) : DedupVerdict :=
  verdict (frames r !! frame_key id) (fi_payload_digest id).

Definition record_frame (r : DedupRegister) (id : FrameIdentity) : DedupRegister :=
  {| frames := <[frame_key id := fi_payload_digest id]> (frames r);
     commands := commands r |}.

Definition check_command (r : DedupRegister) (c : CommandIdentity) : DedupVerdict :=
  verdict (commands r !! idempotency_key c) (command_digest c).

Definition record_command (r : DedupRegister) (c : CommandIdentity) : DedupRegister :=
  {| frames := frames r;
     commands := <[idempotency_key c := command_digest c]> (commands r) |}.

(** [retain] keeps the identities above the sequence; the result is the number of
    removed entries. *)
Definition compact_frames_through (r : DedupRegister) (sequence : Z) :
    DedupRegister * nat :=
  let kept := filter (λ kv, sequence < key_sequence kv.1) (frames r) in
  ({| frames := kept; commands := commands r |}, (size (frames r) - size kept)%nat).

Definition retained_frames (r : DedupRegister) : nat := size (frames r).

Definition retained_commands (r : DedupRegister) : nat := size (commands r).

(** ** Lemmas *)

Lemma verdict_New o d : verdict o d = New ↔ o = None.
Proof. unfold verdict. destruct o; [case_bool_decide|]; naive_solver. Qed.

Lemma verdict_Duplicate o d : verdict o d = Duplicate ↔ o = Some d.
Proof. unfold verdict. destruct o; [case_bool_decide|]; naive_solver. Qed.

Lemma verdict_Conflict o d : verdict o d = Conflict ↔ ∃ d', o = Some d' ∧ d' ≠ d.
Proof. unfold verdict. destruct o; [case_bool_decide|]; naive_solver. Qed.

Lemma compact_lookup r n k :
  frames (compact_frames_through r n).1 !! k =
    if bool_decide (n < key_sequence k) then frames r !! k else None.
Proof.
  simpl. apply option_eq. intros d. rewrite map_lookup_filter_Some. simpl.
  case_bool_decide; naive_solver.
Qed.

Lemma compact_count r n :
  (retained_frames (compact_frames_through r n).1 + (compact_frames_through r n).2 =
     retained_frames r)%nat.
Proof.
  unfold retained_frames. simpl.
  pose proof (map_subseteq_size _ _
    (map_filter_subseteq (λ kv : FrameKey * string, n < key_sequence kv.1) (frames r))).
  lia.
Qed.

(** ** Properties *)

(** Recording a frame makes exactly that (messageId, sequence) pair known: it is
    then a duplicate with the recorded digest, a conflict with any other digest,
    and no other frame's verdict and no command's verdict changes. *)
Theorem record_frame_verdicts r id id' c :
  check_frame (record_frame r id) id' =
    (if bool_decide (frame_key id = frame_key id')
     then if bool_decide (fi_payload_digest id = fi_payload_digest id')
          then Duplicate else Conflict
     else check_frame r id') ∧
  check_command (record_frame r id) c = check_command r c.
Proof.
  split; [|done]. unfold check_frame, record_frame. simpl.
  rewrite lookup_insert. case_decide; case_bool_decide; naive_solver.
Qed.
