(* ===== verification/Inbound.v ===== *)
(** * Inbound half of the exchange

    Models [crates/winwincode-client-port/src/exchange/inbound.rs]: the instance
    tracker and the stream that decides, for every incoming frame, whether it is
    accepted, a duplicate, a gap, a conflict, malformed, or from a superseded
    device instance. *)

From S2P Require Import Prelude Frame Dedup.
From S2P Require Sequence.
Local Open Scope Z_scope.

(** ** Data *)

Inductive CommandOutcome : Type := Fresh | IdempotentReplay.

Inductive IngestDecision : Type :=
| Accepted (ack_sequence : Z) (command : CommandOutcome)
| DuplicateFrame (ack_sequence : Z)
| RejectedConflict (ack_sequence : Z)
| RejectedMalformed (ack_sequence : Z)
| GapFound (ack_sequence replay_from_sequence : Z)
| ReacquireRequired (ack_sequence : Z).

#[global] Instance CommandOutcome_eq_dec : EqDecision CommandOutcome.
Proof. solve_decision. Defined.
#[global] Instance IngestDecision_eq_dec : EqDecision IngestDecision.
Proof. solve_decision. Defined.

Definition decision_ack (d : IngestDecision) : Z :=
  match d with
  | Accepted a _ | DuplicateFrame a | RejectedConflict a | RejectedMalformed a
  | GapFound a _ | ReacquireRequired a => a
  end.

Definition replay_from_sequence (d : IngestDecision) : option Z :=
  match d with GapFound _ r => Some r | _ => None end.

Definition accepted (d : IngestDecision) : bool :=
  match d with Accepted _ _ => true | _ => false end.

Record InstanceTracker : Type := { current : option string }.

Inductive InstanceVerdict : Type :=
| FirstInstance
| Resumed
| Replaced (superseded : string).

Definition tracker_observe (t : InstanceTracker) (instance : string) :
    InstanceTracker * InstanceVerdict :=
  match current t with
  | None => ({| current := Some instance |}, FirstInstance)
  | Some c =>
      if bool_decide (c = instance) then ({| current := Some c |}, Resumed)
      else ({| current := Some instance |}, Replaced c)
  end.

Record InboundStream : Type := {
  instances : InstanceTracker;
  ack : Sequence.AckCursor;
  dedup : DedupRegister;
  instance_guard : bool
}.

Definition stream_new : InboundStream :=
  {| instances := {| current := None |}; ack := Sequence.cursor_new;
     dedup := register_new; instance_guard := true |}.

Definition with_instance (instance : string) : InboundStream :=
  {| instances := {| current := Some instance |}; ack := ack stream_new;
     dedup := dedup stream_new; instance_guard := instance_guard stream_new |}.

Definition without_instance_guard (s : InboundStream) : InboundStream :=
  {| instances := instances s; ack := ack s; dedup := dedup s; instance_guard := false |}.

Definition observe_instance (s : InboundStream) (instance : string) :
    InboundStream * InstanceVerdict :=
  let '(t, v) := tracker_observe (instances s) instance in
  ({| instances := t; ack := ack s; dedup := dedup s;
      instance_guard := instance_guard s |}, v).

Definition ack_sequence (s : InboundStream) : Z := Sequence.cursor_ack (ack s).

Definition compact_dedup_through (s : InboundStream) (sequence : Z) :
    InboundStream * nat :=
  let '(r, n) := compact_frames_through (dedup s) sequence in
  ({| instances := instances s; ack := ack s; dedup := r;
      instance_guard := instance_guard s |}, n).

(** ** [ingest] *)

(** A frame without a sequence, a message identity or a digest. *)
Definition malformed (id : FrameIdentity) : bool :=
  (fi_sequence id =? 0) || bool_decide (fi_message_id id = "")
  || bool_decide (fi_payload_digest id = "").

(** The instance guard: [None] is the early return for a foreign instance,
    [Some t] the tracker after a first frame may have bound it. *)
Definition guard_instance (s : InboundStream) (instance : string) :
    option InstanceTracker :=
  if instance_guard s then
    match current (instances s) with
    | None => Some (tracker_observe (instances s) instance).1
    | Some c => if bool_decide (c ≠ instance) then None else Some (instances s)
    end
  else Some (instances s).

(** The arm for the next expected sequence: the command is checked before the
    frame, and only then are both recorded and the cursor advanced. *)
Definition accept_frame (s : InboundStream) (id : FrameIdentity)
    (command : option CommandIdentity) : InboundStream * IngestDecision :=
  let conflict := (s, RejectedConflict (ack_sequence s)) in
  let continue outcome :=
    if bool_decide (check_frame (dedup s) id = Conflict) then conflict else
    let r := record_frame (dedup s) id in
    let r := match command with Some c => record_command r c | None => r end in
    let cursor := (Sequence.advance (ack s) (fi_sequence id)).1 in
    ({| instances := instances s; ack := cursor; dedup := r;
        instance_guard := instance_guard s |},
     Accepted (Sequence.cursor_ack cursor) outcome) in
  match command with
  | None => continue Fresh
  | Some c =>
      match check_command (dedup s) c with
      | Conflict => conflict
      | Duplicate => continue IdempotentReplay
      | New => continue Fresh
      end
  end.

Definition ingest (s : InboundStream) (instance : string) (id : FrameIdentity)
    (command : option CommandIdentity) : InboundStream * IngestDecision :=
  let a := ack_sequence s in
  if malformed id then (s, RejectedMalformed a) else
  match guard_instance s instance with
  | None => (s, ReacquireRequired a)
  | Some t =>
      let s := {| instances := t; ack := ack s; dedup := dedup s;
                  instance_guard := instance_guard s |} in
      match Sequence.observe (ack s) (fi_sequence id) with
      | Sequence.Zero => (s, RejectedMalformed (ack_sequence s))
      | Sequence.Gap r => (s, GapFound a r)
      | Sequence.Duplicate =>
          match check_frame (dedup s) id with
          | Conflict => (s, RejectedConflict a)
          | Duplicate | New => (s, DuplicateFrame a)
          end
      | Sequence.Accept => accept_frame s id command
      end
  end.

(** ** Runs *)

Inductive InboundOp : Type :=
| OpIngest (instance : string) (id : FrameIdentity) (command : option CommandIdentity)
| OpCompact (sequence : Z)
| OpObserve (instance : string).

(** The state after one operation, and the decision of an [ingest]. *)
Definition inbound_step (s : InboundStream) (op : InboundOp) :
    InboundStream * option IngestDecision :=
  match op with
  | OpIngest i id c => let '(s', d) := ingest s i id c in (s', Some d)
  | OpCompact n => ((compact_dedup_through s n).1, None)
  | OpObserve i => ((observe_instance s i).1, None)
  end.

(** A run of operations with the decision of each. *)
Fixpoint inbound_run (s : InboundStream) (ops : list InboundOp) :
    InboundStream * list (InboundOp * option IngestDecision) :=
  match ops with
  | [] => (s, [])
  | op :: ops =>
      let '(s1, d) := inbound_step s op in
      let '(s2, ds) := inbound_run s1 ops in
      (s2, (op, d) :: ds)
  end.

(** The frames of a run that were accepted, oldest first. *)
Definition accepted_entry (e : InboundOp * option IngestDecision) :
    option (string * FrameIdentity * option CommandIdentity * CommandOutcome) :=
  match e with
  | (OpIngest i id c, Some (Accepted _ o)) => Some (i, id, c, o)
  | _ => None
  end.

Definition accepted_frames (tr : list (InboundOp * option IngestDecision)) :=
  omap accepted_entry tr.

(** The use an accepted frame makes of one idempotency key: digest and outcome. *)
Definition command_use (key : string)
    (e : string * FrameIdentity * option CommandIdentity * CommandOutcome) :
    option (string * CommandOutcome) :=
  let '(_, _, c, o) := e in
  match c with
  | Some c => if bool_decide (idempotency_key c = key)
              then Some (command_digest c, o) else None
  | None => None
  end.

Definition command_uses (key : string) (tr : list (InboundOp * option IngestDecision)) :
    list (string * CommandOutcome) :=
  omap (command_use key) (accepted_frames tr).

(** ** Invariant *)

(** The cursor is a [u64], and no frame above it has been recorded. *)
Definition inbound_wf (s : InboundStream) : Prop :=
  0 ≤ ack_sequence s ≤ u64_max ∧
  ∀ k d, frames (dedup s) !! k = Some d → key_sequence k ≤ ack_sequence s.

(** ** Lemmas on [ingest] *)

(** The outcome a command admits against the register; [None] is a conflict. *)
Definition command_verdict (r : DedupRegister) (c : option CommandIdentity) :
    option CommandOutcome :=
  match c with
  | None => Some Fresh
  | Some c => match check_command r c with
              | Conflict => None
              | Duplicate => Some IdempotentReplay
              | New => Some Fresh
              end
  end.

(** The register after accepting a frame with its command. *)
Definition record_accepted (r : DedupRegister) (id : FrameIdentity)
    (c : option CommandIdentity) : DedupRegister :=
  let r := record_frame r id in
  match c with Some c => record_command r c | None => r end.

Lemma check_frame_above s id :
  inbound_wf s → ack_sequence s < fi_sequence id → check_frame (dedup s) id = New.
Proof.
  intros [_ Hwf] Hlt. apply verdict_New.
  destruct (frames (dedup s) !! frame_key id) as [d|] eqn:E; [|done].
  apply Hwf in E. simpl in E. lia.
Qed.

(** Under the invariant the arm for the next sequence is decided by the command
    alone: the frame check in it never conflicts. *)
Lemma accept_frame_eq s id c :
  inbound_wf s → fi_sequence id = ack_sequence s + 1 → ack_sequence s < u64_max →
  accept_frame s id c =
    match command_verdict (dedup s) c with
    | None => (s, RejectedConflict (ack_sequence s))
    | Some o => ({| instances := instances s; ack := Sequence.from_ack (fi_sequence id);
                    dedup := record_accepted (dedup s) id c;
                    instance_guard := instance_guard s |},
                 Accepted (fi_sequence id) o)
    end.
Proof.
  intros Hwf Hseq Hmax. unfold accept_frame.
  rewrite check_frame_above by (done || lia).
  rewrite Sequence.advance_accept; [|by destruct Hwf as [[? _] _]|].
  - unfold command_verdict, record_accepted. split_cases; done.
  - apply Sequence.observe_Accept; [by destruct Hwf as [[? _] _]|done].
Qed.

(** Every answer of [ingest], as one equation. *)
Lemma ingest_eq s i id c :
  inbound_wf s → in_u64 (fi_sequence id) →
  ingest s i id c =
    if malformed id then (s, RejectedMalformed (ack_sequence s)) else
    match guard_instance s i with
    | None => (s, ReacquireRequired (ack_sequence s))
    | Some t =>
        let s1 := {| instances := t; ack := ack s; dedup := dedup s;
                     instance_guard := instance_guard s |} in
        if fi_sequence id <=? ack_sequence s then
          (s1, match check_frame (dedup s) id with
               | Conflict => RejectedConflict (ack_sequence s)
               | _ => DuplicateFrame (ack_sequence s)
               end)
        else if fi_sequence id =? ack_sequence s + 1 then
          match command_verdict (dedup s) c with
          | None => (s1, RejectedConflict (ack_sequence s))
          | Some o => ({| instances := t; ack := Sequence.from_ack (fi_sequence id);
                          dedup := record_accepted (dedup s) id c;
                          instance_guard := instance_guard s |},
                       Accepted (fi_sequence id) o)
          end
        else (s1, GapFound (ack_sequence s) (ack_sequence s + 1))
    end.
Proof.
  intros Hwf Hid. unfold ingest. destruct (malformed id) eqn:Hm; [done|].
  destruct (guard_instance s i) as [t|]; [|done]. simpl.
  set (s1 := {| instances := t |}).
  assert (Hwf1 : inbound_wf s1) by exact Hwf.
  unfold malformed in Hm. split_bools. destruct Hwf as [Hack _]. unfold in_u64 in Hid.
  destruct (Sequence.observe (ack s) (fi_sequence id)) as [| |r|] eqn:Hobs.
  - apply Sequence.observe_Accept in Hobs as [Hs Hx]; [|apply Hack].
    destruct (Z.leb_spec (fi_sequence id) (ack_sequence s)); [unfold ack_sequence in *; lia|].
    rewrite (proj2 (Z.eqb_eq (fi_sequence id) (ack_sequence s + 1)) Hs). by rewrite accept_frame_eq.
  - apply Sequence.observe_Duplicate in Hobs; [|unfold ack_sequence in *; lia..].
    rewrite (proj2 (Z.leb_le _ _)) by apply Hobs. by split_cases.
  - apply Sequence.observe_Gap in Hobs as (-> & Hlt & Hx); [|apply Hack].
    destruct (Z.leb_spec (fi_sequence id) (ack_sequence s)); [unfold ack_sequence in *; lia|].
    destruct (Z.eqb_spec (fi_sequence id) (ack_sequence s + 1)); [unfold ack_sequence in *; lia|].
    done.
  - unfold Sequence.observe in Hobs. split_cases; lia.
Qed.

(** Either the frame is the next one and is recorded, or cursor and register are
    left alone. *)
Lemma ingest_outcome s i id c s' d :
  inbound_wf s → in_u64 (fi_sequence id) → ingest s i id c = (s', d) →
  (∃ o, d = Accepted (ack_sequence s + 1) o ∧ fi_sequence id = ack_sequence s + 1 ∧
        ack_sequence s' = ack_sequence s + 1 ∧
        command_verdict (dedup s) c = Some o ∧
        dedup s' = record_accepted (dedup s) id c) ∨
  (accepted d = false ∧ decision_ack d = ack_sequence s ∧
   ack s' = ack s ∧ dedup s' = dedup s).
Proof.
  intros Hwf Hid. rewrite ingest_eq by done.
  destruct (malformed id); [intros; simplify_eq; by right|].
  destruct (guard_instance s i) as [t|]; [|intros; simplify_eq; by right]. simpl.
  destruct (Z.leb_spec (fi_sequence id) (ack_sequence s)).
  { intros; simplify_eq; right. by split_cases. }
  destruct (Z.eqb_spec (fi_sequence id) (ack_sequence s + 1)) as [E|];
    [|intros; simplify_eq; by right].
  destruct (command_verdict (dedup s) c) as [o|] eqn:Ho; intros; simplify_eq; [|by right].
  left. exists o. unfold ack_sequence in *. simpl. by rewrite E.
Qed.

Definition op_valid (op : InboundOp) : Prop :=
  match op with OpIngest _ id _ => in_u64 (fi_sequence id) | _ => True end.

Lemma record_accepted_frames r id c :
  frames (record_accepted r id c) = <[frame_key id := fi_payload_digest id]> (frames r).
Proof. unfold record_accepted. by destruct c. Qed.

Lemma record_accepted_commands r id c :
  commands (record_accepted r id c) =
    match c with
    | Some c => <[idempotency_key c := command_digest c]> (commands r)
    | None => commands r
    end.
Proof. unfold record_accepted. by destruct c. Qed.

Lemma inbound_step_wf s op :
  inbound_wf s → op_valid op → inbound_wf (inbound_step s op).1.
Proof.
  intros Hwf Hop. destruct op as [i id c|n|i]; simpl in *.
  - destruct (ingest s i id c) as [s' d] eqn:E. simpl.
    destruct (ingest_outcome _ _ _ _ _ _ Hwf Hop E)
      as [(o & _ & Hs & Ha & _ & Hd)|(_ & _ & Ha & Hd)].
    + unfold in_u64 in Hop. destruct Hwf as [Hack Hfr]. split; [lia|].
      intros k dg. rewrite Hd, record_accepted_frames. rewrite lookup_insert.
      case_decide; [intros _; subst; simpl; lia|]. intros Hk%Hfr. lia.
    + unfold inbound_wf, ack_sequence in *. by rewrite Ha, Hd.
  - destruct Hwf as [Hack Hfr]. split; [exact Hack|]. intros k d. simpl.
    rewrite map_lookup_filter_Some. intros [Hk _]. by apply Hfr in Hk.
  - unfold observe_instance. destruct (tracker_observe _ _). exact Hwf.
Qed.

Lemma accepted_frames_cons e tr :
  accepted_frames (e :: tr) =
    match accepted_entry e with
    | Some x => x :: accepted_frames tr
    | None => accepted_frames tr
    end.
Proof. done. Qed.

(** The invariant of the inbound stream, a cursor within [u64] and no recorded
    frame above it, holds initially and after any run of [ingest], compaction and
    instance observation; in every such state a frame conflict can only be found
    below the cursor, so a next-in-sequence frame is refused for its command or
    not at all. *)
Theorem inbound_run_wf s ops :
  inbound_wf s → Forall op_valid ops →
  let s' := (inbound_run s ops).1 in
  inbound_wf s' ∧
  ∀ id, check_frame (dedup s') id = Conflict → fi_sequence id ≤ ack_sequence s'.
Proof.
  intros Hwf Hops. cut (inbound_wf (inbound_run s ops).1).
  { intros Hwf'. split; [done|]. intros id Hc.
    destruct (decide (fi_sequence id ≤ ack_sequence (inbound_run s ops).1)) as [|Hgt]; [done|].
    rewrite check_frame_above in Hc by (done || lia). done. }
  revert s Hwf. induction Hops as [|op ops Hop _ IH]; intros s Hwf; [done|]. simpl.
  pose proof (inbound_step_wf s op Hwf Hop) as Hs. destruct (inbound_step s op) as [s1 d].
  specialize (IH s1 Hs). by destruct (inbound_run s1 ops).
Qed.

(** Exactly once and in order: whatever frames arrive, in any order, repeated,
    forged or from another instance, the accepted ones carry exactly the
    consecutive sequences after the initial cursor, and the final cursor is the
    last of them. *)
Theorem inbound_run_in_order s ops :
  inbound_wf s → Forall op_valid ops →
  let '(s', tr) := inbound_run s ops in
  (λ '(_, id, _, _), fi_sequence id) <$> accepted_frames tr =
    seqZ (ack_sequence s + 1) (ack_sequence s' - ack_sequence s) ∧
  ack_sequence s ≤ ack_sequence s'.
Proof.
  intros Hwf Hops. revert s Hwf. induction Hops as [|op ops Hop _ IH]; intros s Hwf; simpl.
  { split; [|lia]. by rewrite Z.sub_diag. }
  pose proof (inbound_step_wf s op Hwf Hop) as Hwf1.
  destruct (inbound_step s op) as [s1 d] eqn:Es. simpl in Hwf1. specialize (IH s1 Hwf1).
  destruct (inbound_run s1 ops) as [s2 tr]. destruct IH as [IH Hle].
  assert (Hskip : accepted_entry (op, d) = None → ack_sequence s1 = ack_sequence s →
    (λ '(_, id, _, _), fi_sequence id) <$> accepted_frames ((op, d) :: tr) =
      seqZ (ack_sequence s + 1) (ack_sequence s2 - ack_sequence s) ∧
    ack_sequence s ≤ ack_sequence s2).
  { intros He Ha. rewrite accepted_frames_cons, He, <-Ha. done. }
  destruct op as [i id c|n|i]; simpl in Es.
  - destruct (ingest s i id c) as [s'' d'] eqn:E. simplify_eq.
    destruct (ingest_outcome _ _ _ _ _ _ Hwf Hop E)
      as [(o & -> & Hs & Ha & _)|(Hd & _ & Ha & _)].
    + split; [|lia]. rewrite accepted_frames_cons.
      change (fi_sequence id :: ((λ '(_, id, _, _), fi_sequence id) <$> accepted_frames tr) =
              seqZ (ack_sequence s + 1) (ack_sequence s2 - ack_sequence s)).
      rewrite IH, Ha, Hs.
      rewrite (seqZ_cons (ack_sequence s + 1)) by lia. f_equal. f_equal; lia.
    + apply Hskip; [by destruct d'|]. unfold ack_sequence. by rewrite Ha.
  - simplify_eq. by apply Hskip.
  - apply Hskip; unfold observe_instance in Es; destruct (tracker_observe _ _); by simplify_eq.
Qed.

(** *** Commands *)

Lemma command_uses_cons key e tr :
  command_uses key (e :: tr) =
    match accepted_entry e ≫= command_use key with
    | Some x => x :: command_uses key tr
    | None => command_uses key tr
    end.
Proof.
  unfold command_uses. rewrite accepted_frames_cons.
  by destruct (accepted_entry e).
Qed.

(** How one step treats one idempotency key: it either leaves the key's entry alone
    and uses no command with it, or accepts a command with it against the entry
    and leaves that command's digest there. *)
Lemma inbound_step_command key s op s1 d :
  inbound_wf s → op_valid op → inbound_step s op = (s1, d) →
  (accepted_entry (op, d) ≫= command_use key = None ∧
   commands (dedup s1) !! key = commands (dedup s) !! key) ∨
  (∃ dg o, accepted_entry (op, d) ≫= command_use key = Some (dg, o) ∧
   commands (dedup s1) !! key = Some dg ∧
   (commands (dedup s) !! key = None ∧ o = Fresh ∨
    commands (dedup s) !! key = Some dg ∧ o = IdempotentReplay)).
Proof.
  intros Hwf Hop. destruct op as [i id c|n|i]; simpl.
  - destruct (ingest s i id c) as [s' d'] eqn:E. intros; simplify_eq/=.
    destruct (ingest_outcome _ _ _ _ _ _ Hwf Hop E)
      as [(o & -> & _ & _ & Hc & Hd)|(Hd' & _ & _ & Hd)];
      [|left; rewrite Hd; by destruct d'].
    simpl. rewrite Hd, record_accepted_commands. destruct c as [c|]; [|by left].
    case_bool_decide as Hk; [|left; by rewrite lookup_insert_ne].
    right. exists (command_digest c), o. subst key. rewrite lookup_insert_eq. split_and!; [done..|].
    unfold command_verdict, check_command in Hc. destruct (verdict _ _) eqn:Hv; simplify_eq.
    + left. by apply verdict_New in Hv.
    + right. by apply verdict_Duplicate in Hv.
  - intros; simplify_eq/=. by left.
  - unfold observe_instance. destruct (tracker_observe _ _). intros; simplify_eq/=. by left.
Qed.

(** A command is executed at most once per idempotency key: in any run, the
    accepted uses of a key all carry one digest (the one already recorded, if any),
    the first use of a key not yet recorded is [Fresh], and every other one is an
    [IdempotentReplay]. *)
Theorem inbound_run_commands key s ops :
  inbound_wf s → Forall op_valid ops →
  let uses := command_uses key (inbound_run s ops).2 in
  match commands (dedup s) !! key with
  | Some dg => ∃ n, uses = replicate n (dg, IdempotentReplay)
  | None => uses = [] ∨ ∃ dg n, uses = (dg, Fresh) :: replicate n (dg, IdempotentReplay)
  end.
Proof.
  intros Hwf Hops. revert s Hwf. induction Hops as [|op ops Hop _ IH]; intros s Hwf; simpl.
  { case_match; [by exists O|by left]. }
  pose proof (inbound_step_wf s op Hwf Hop) as Hwf1.
  destruct (inbound_step s op) as [s1 d] eqn:Es. specialize (IH s1 Hwf1).
  destruct (inbound_run s1 ops) as [s2 tr]. cbn [snd] in *.
  rewrite command_uses_cons.
  destruct (inbound_step_command key _ _ _ _ Hwf Hop Es)
    as [[-> Hk]|(dg & o & -> & Hk & Ho)].
  { by rewrite <-Hk. }
  rewrite Hk in IH. destruct IH as [n ->].
  destruct Ho as [[-> ->]|[-> ->]]; [right; by exists dg, n|by exists (S n)].
Qed.

(** *** Instances *)

Definition observes_instance (op : InboundOp) : Prop :=
  match op with OpObserve _ => True | _ => False end.

Lemma inbound_step_instance s op s1 d i0 :
  instance_guard s = true → current (instances s) = Some i0 → ¬ observes_instance op →
  inbound_step s op = (s1, d) →
  instance_guard s1 = true ∧ current (instances s1) = Some i0 ∧
  ∀ i id c o, accepted_entry (op, d) = Some (i, id, c, o) → i = i0.
Proof.
  intros Hg Hc Hop. destruct op as [i id c|n|i]; simpl in *; [|intros; by simplify_eq/=|done].
  unfold ingest, guard_instance. rewrite Hg, Hc.
  destruct (malformed id); [intros; by simplify_eq/=|].
  case_bool_decide as Hi; [intros; by simplify_eq/=|]. subst i.
  unfold accept_frame. intros. split_cases; naive_solver.
Qed.

(** Fencing of superseded instances: while the guard is on and no new instance is
    observed, every accepted frame comes from the bound instance, however the
    frames are mixed; the binding does not move. *)
Theorem inbound_run_fenced s ops i0 :
  instance_guard s = true → current (instances s) = Some i0 →
  Forall (λ op, ¬ observes_instance op) ops →
  let '(s', tr) := inbound_run s ops in
  Forall (λ '(i, _, _, _), i = i0) (accepted_frames tr) ∧
  current (instances s') = Some i0.
Proof.
  intros Hg Hc Hops. revert s Hg Hc. induction Hops as [|op ops Hop _ IH]; intros s Hg Hc; [by split|].
  simpl. destruct (inbound_step s op) as [s1 d] eqn:Es.
  destruct (inbound_step_instance _ _ _ _ _ Hg Hc Hop Es) as (Hg1 & Hc1 & Hacc).
  specialize (IH s1 Hg1 Hc1). destruct (inbound_run s1 ops) as [s2 tr]. destruct IH as [IH ?].
  split; [|done]. rewrite accepted_frames_cons.
  destruct (accepted_entry (op, d)) as [[[[i id] c] o]|] eqn:E; [|done].
  constructor; [|done]. by eapply Hacc.
Qed.

(** ** Witnesses *)

Definition sample_id (n : Z) (id : string) : FrameIdentity :=
  {| fi_message_id := id; fi_sequence := n; fi_payload_digest := "sha256:" +:+ id |}.

Definition sample_command : CommandIdentity :=
  {| idempotency_key := "idem-1"; command_digest := "sha256:aa" |}.

(** Frame 2 too early, 1 with a command, a repeat of 1, a forged instance, then 2 with
    the same command. *)
Definition sample_ops : list InboundOp :=
  [OpIngest "inst-1" (sample_id 2 "msg-2") None;
   OpIngest "inst-1" (sample_id 1 "msg-1") (Some sample_command);
   OpIngest "inst-1" (sample_id 1 "msg-1") (Some sample_command);
   OpIngest "inst-2" (sample_id 2 "msg-2") None;
   OpCompact 1;
   OpIngest "inst-1" (sample_id 2 "msg-2") (Some sample_command)].

Lemma stream_new_wf : inbound_wf stream_new.
Proof. split; [done|]. intros k d Hk. exfalso. exact (lookup_empty_Some (M := gmap FrameKey) k d Hk). Qed.

Lemma sample_ops_valid : Forall op_valid sample_ops.
Proof. repeat constructor; vm_compute; try done; intros [=]. Qed.

Lemma inbound_run_wf_witness :
  inbound_wf (inbound_run stream_new sample_ops).1 ∧
  ack_sequence (inbound_run stream_new sample_ops).1 = 2.
Proof.
  split; [|vm_compute; reflexivity].
  exact (proj1 (inbound_run_wf stream_new sample_ops stream_new_wf sample_ops_valid)).
Defined.

Lemma inbound_run_in_order_witness :
  (λ '(_, id, _, _), fi_sequence id) <$>
    accepted_frames (inbound_run stream_new sample_ops).2 = [1; 2].
Proof.
  pose proof (inbound_run_in_order stream_new sample_ops stream_new_wf sample_ops_valid) as H.
  vm_compute in H. vm_compute. apply H.
Defined.

Lemma inbound_run_commands_witness :
  command_uses "idem-1" (inbound_run stream_new sample_ops).2 =
    [("sha256:aa", Fresh); ("sha256:aa", IdempotentReplay)] ∧
  (command_uses "idem-1" (inbound_run stream_new sample_ops).2 = [] ∨
   ∃ dg n, command_uses "idem-1" (inbound_run stream_new sample_ops).2 =
     (dg, Fresh) :: replicate n (dg, IdempotentReplay)).
Proof.
  split; [vm_compute; reflexivity|].
  exact (inbound_run_commands "idem-1" stream_new sample_ops stream_new_wf sample_ops_valid).
Defined.

Lemma inbound_run_fenced_witness :
  current (instances (inbound_run (with_instance "inst-1") sample_ops).1) = Some "inst-1" ∧
  length (accepted_frames (inbound_run (with_instance "inst-1") sample_ops).2) = 2%nat.
Proof.
  split; [|vm_compute; reflexivity].
  pose proof (inbound_run_fenced (with_instance "inst-1") sample_ops "inst-1" eq_refl eq_refl
    ltac:(repeat constructor; intros [])) as H.
  destruct (inbound_run (with_instance "inst-1") sample_ops). exact (proj2 H).
Defined.
