(* ===== verification/Outbox.v ===== *)
(** * Outbound half of the exchange: the durable frame outbox

    Models [crates/winwincode-client-port/src/exchange/outbox.rs].  The store behind
    the outbox is the trait [FrameOutbox] (and [CompactingOutbox]); it is a type
    class here, with the contract the session code relies on as a second class.
    The theorems about [OutboxSession] are proved against that contract, and
    [InMemoryOutbox] discharges it. *)

From S2P Require Import Prelude Frame.
Local Open Scope Z_scope.

(** ** Data *)

Record OutboxSnapshot : Type := {
  snap_ack : Z;
  snap_highest : Z;
  snap_frames : list StoredFrame
}.

Definition snapshot_default : OutboxSnapshot :=
  {| snap_ack := 0; snap_highest := 0; snap_frames := [] |}.

Inductive OutboxStateError : Type :=
| StateZeroSequence
| StateEmptyMessageId
| StateEmptyDigest
| StateEmptyFrame
| StateDuplicateMessageId (id : string)
| NonContiguous (expected found : Z)
| HighestMismatch (stored derived : Z)
| AckExceedsHighest (acknowledged highest : Z)
| SequenceOverflow.

Inductive OutboxInputError : Type :=
| InputEmptyMessageId
| InputZeroSequence
| InputEmptyDigest
| InputEmptyFrame
| InputDuplicateMessageId (id : string)
| ZeroMaxFrames.

Inductive OutboxError (E : Type) : Type :=
| Store (e : E)
| InvalidInput (e : OutboxInputError)
| CorruptState (e : OutboxStateError)
| SequenceMismatch (expected found : Z)
| SequenceExhausted
| CursorAhead (requested highest : Z)
| AckAhead (requested highest : Z)
| AckRegression (requested acknowledged : Z).
Arguments Store {E} e.
Arguments InvalidInput {E} e.
Arguments CorruptState {E} e.
Arguments SequenceMismatch {E} expected found.
Arguments SequenceExhausted {E}.
Arguments CursorAhead {E} requested highest.
Arguments AckAhead {E} requested highest.
Arguments AckRegression {E} requested acknowledged.

Record OutboxBatch : Type := {
  batch_ack : Z;
  batch_highest : Z;
  batch_frames : list StoredFrame
}.

#[global] Instance OutboxSnapshot_eq_dec : EqDecision OutboxSnapshot.
Proof. solve_decision. Defined.

(** ** [OutboxSnapshot::validate] *)

(** The loop over the retained frames, with the running expectation and the message
    identities seen so far; the result is the expectation after the last frame. *)
Fixpoint validate_frames (expected : Z) (seen : gset string) (fs : list StoredFrame) :
    result OutboxStateError Z :=
  match fs with
  | [] => Ok expected
  | f :: fs =>
      refuse (sf_sequence f =? 0) StateZeroSequence ;;
      refuse (bool_decide (sf_message_id f = "")) StateEmptyMessageId ;;
      refuse (bool_decide (sf_payload_digest f = "")) StateEmptyDigest ;;
      refuse (bool_decide (sf_frame f = [])) StateEmptyFrame ;;
      refuse (bool_decide (sf_message_id f ∈ seen)) (StateDuplicateMessageId (sf_message_id f)) ;;
      refuse (negb (sf_sequence f =? expected)) (NonContiguous expected (sf_sequence f)) ;;
      expected' ← ok_or (checked_add_u64 expected 1) SequenceOverflow;
      validate_frames expected' ({[sf_message_id f]} ∪ seen) fs
  end.

Definition first_sequence (s : OutboxSnapshot) : Z :=
  default 1 (sf_sequence <$> head (snap_frames s)).

Definition derived_highest (s : OutboxSnapshot) : Z :=
  default (snap_ack s) (sf_sequence <$> last (snap_frames s)).

Definition validate (s : OutboxSnapshot) : result OutboxStateError () :=
  refuse (snap_highest s <? snap_ack s) (AckExceedsHighest (snap_ack s) (snap_highest s)) ;;
  validate_frames (first_sequence s) ∅ (snap_frames s) ;;
  refuse (match checked_add_u64 (snap_ack s) 1 with
          | Some first_unacknowledged => first_unacknowledged <? first_sequence s
          | None => false
          end)
    (NonContiguous (saturating_add_u64 (snap_ack s) 1) (first_sequence s)) ;;
  refuse (negb (snap_highest s =? derived_highest s))
    (HighestMismatch (snap_highest s) (derived_highest s)).

(** ** The store interface *)

(** The traits [FrameOutbox] and [CompactingOutbox]: operations on a store of type
    [S] that can fail with an [E].  Every method takes [&mut self]. *)
Class FrameOutbox (S E : Type) : Type := {
  load : S → S * result E (option OutboxSnapshot);
  append : S → Z → StoredFrame → S * result E ();
  record_acknowledgement : S → Z → Z → S * result E ()
}.

Class CompactingOutbox (S E : Type) `{!FrameOutbox S E} : Type :=
  compact_through : S → Z → S * result E nat.

(** ** The session *)

Section session.
Context {S E : Type} `{!FrameOutbox S E} `{!CompactingOutbox S E}.

Definition snapshot_of (store : S) : S * result (OutboxError E) OutboxSnapshot :=
  let '(store, r) := load store in
  (store,
   loaded ← map_err Store r;
   let snapshot := default snapshot_default loaded in
   map_err CorruptState (validate snapshot) ;;
   Ok snapshot).

Definition validate_frame_shape (f : StoredFrame) : result OutboxInputError () :=
  refuse (sf_sequence f =? 0) InputZeroSequence ;;
  refuse (bool_decide (sf_message_id f = "")) InputEmptyMessageId ;;
  refuse (bool_decide (sf_payload_digest f = "")) InputEmptyDigest ;;
  refuse (bool_decide (sf_frame f = [])) InputEmptyFrame.

Definition next_sequence (store : S) : S * result (OutboxError E) Z :=
  let '(store, r) := snapshot_of store in
  (store, snapshot ← r; ok_or (checked_add_u64 (snap_highest snapshot) 1) SequenceExhausted).

Definition enqueue (store : S) (expected_next_sequence : Z) (f : StoredFrame) :
    S * result (OutboxError E) Z :=
  match (map_err InvalidInput (validate_frame_shape f) ;;
         refuse (negb (sf_sequence f =? expected_next_sequence))
           (SequenceMismatch expected_next_sequence (sf_sequence f)))
  with
  | Err e => (store, Err e)
  | Ok _ =>
      let '(store, r) := snapshot_of store in
      match (snapshot ← r;
             stream_expected ←
               ok_or (checked_add_u64 (snap_highest snapshot) 1) SequenceExhausted;
             refuse (negb (sf_sequence f =? stream_expected))
               (SequenceMismatch stream_expected (sf_sequence f)) ;;
             refuse (existsb (λ retained, bool_decide (sf_message_id retained = sf_message_id f))
                       (snap_frames snapshot))
               (InvalidInput (InputDuplicateMessageId (sf_message_id f))))
      with
      | Err e => (store, Err e)
      | Ok _ =>
          let '(store, r) := append store (sf_sequence f - 1) f in
          (store, map_err Store r ;; Ok (sf_sequence f))
      end
  end.

Definition deliverable (store : S) (after_sequence : Z) (max_frames : nat) :
    S * result (OutboxError E) OutboxBatch :=
  if bool_decide (max_frames = O) then (store, Err (InvalidInput ZeroMaxFrames)) else
  let '(store, r) := snapshot_of store in
  (store,
   snapshot ← r;
   refuse (snap_highest snapshot <? after_sequence)
     (CursorAhead after_sequence (snap_highest snapshot)) ;;
   Ok {| batch_ack := snap_ack snapshot;
         batch_highest := snap_highest snapshot;
         batch_frames :=
           take max_frames (filter (λ f, after_sequence < sf_sequence f)
                              (snap_frames snapshot)) |}).

Definition acknowledge (store : S) (ack_sequence : Z) : S * result (OutboxError E) Z :=
  let '(store, r) := snapshot_of store in
  match (snapshot ← r;
         refuse (snap_highest snapshot <? ack_sequence)
           (AckAhead ack_sequence (snap_highest snapshot)) ;;
         refuse (ack_sequence <? snap_ack snapshot)
           (AckRegression ack_sequence (snap_ack snapshot)) ;;
         Ok snapshot)
  with
  | Err e => (store, Err e)
  | Ok snapshot =>
      if ack_sequence =? snap_ack snapshot then (store, Ok ack_sequence) else
      let '(store, r) := record_acknowledgement store (snap_ack snapshot) ack_sequence in
      (store, map_err Store r ;; Ok ack_sequence)
  end.

Definition compact_confirmed (store : S) : S * result (OutboxError E) nat :=
  let '(store, r) := snapshot_of store in
  match r with
  | Err e => (store, Err e)
  | Ok snapshot =>
      let '(store, r) := compact_through store (snap_ack snapshot) in
      (store, map_err Store r)
  end.
End session.

(** ** The in-memory store *)

Record InMemoryOutbox : Type := { state : option OutboxSnapshot }.

Definition memory_new : InMemoryOutbox := {| state := None |}.

Definition from_snapshot (s : OutboxSnapshot) : InMemoryOutbox := {| state := Some s |}.

(** [append] creates the snapshot on first use ([get_or_insert_with]); the
    [debug_assert] of the source is not part of release behaviour. *)
Definition memory_append (m : InMemoryOutbox) (f : StoredFrame) : InMemoryOutbox :=
  let s := default snapshot_default (state m) in
  {| state := Some {| snap_ack := snap_ack s; snap_highest := sf_sequence f;
                      snap_frames := snap_frames s ++ [f] |} |}.

Definition memory_record_ack (m : InMemoryOutbox) (ack_sequence : Z) : InMemoryOutbox :=
  {| state := (λ s, {| snap_ack := ack_sequence; snap_highest := snap_highest s;
                       snap_frames := snap_frames s |}) <$> state m |}.

Definition memory_compact (m : InMemoryOutbox) (ack_sequence : Z) : InMemoryOutbox * nat :=
  match state m with
  | None => (m, O)
  | Some s =>
      let kept := filter (λ f, ack_sequence < sf_sequence f) (snap_frames s) in
      ({| state := Some {| snap_ack := snap_ack s; snap_highest := snap_highest s;
                           snap_frames := kept |} |},
       (length (snap_frames s) - length kept)%nat)
  end.

(** The error type of the in-memory store is [Infallible]. *)
#[global] Instance memory_outbox : FrameOutbox InMemoryOutbox Empty_set := {
  load m := (m, Ok (state m));
  append m _ f := (memory_append m f, Ok tt);
  record_acknowledgement m _ a := (memory_record_ack m a, Ok tt)
}.

#[global] Instance memory_compacting : CompactingOutbox InMemoryOutbox Empty_set :=
  λ m a, let '(m, n) := memory_compact m a in (m, Ok n).

(** ** What a valid snapshot is *)

Definition frame_shape (f : StoredFrame) : Prop :=
  sf_sequence f ≠ 0 ∧ sf_message_id f ≠ "" ∧ sf_payload_digest f ≠ "" ∧ sf_frame f ≠ [].

Definition frame_count (s : OutboxSnapshot) : Z := Z.of_nat (length (snap_frames s)).

(** The retained frames are the last [frame_count] of the stream, without a hole, and
    everything that is not acknowledged is among them. *)
Record snapshot_wf (s : OutboxSnapshot) : Prop := {
  wf_ack : 0 ≤ snap_ack s ≤ snap_highest s;
  wf_highest : snap_highest s ≤ u64_max;
  wf_frames : sf_sequence <$> snap_frames s =
                seqZ (snap_highest s - frame_count s + 1) (frame_count s);
  wf_retained : 0 ≤ snap_highest s - frame_count s ≤ snap_ack s;
  wf_room : snap_frames s ≠ [] → snap_highest s < u64_max;
  wf_shape : Forall frame_shape (snap_frames s);
  wf_unique : NoDup (sf_message_id <$> snap_frames s)
}.

(** The ranges the Rust types give. *)
Definition snapshot_typed (s : OutboxSnapshot) : Prop :=
  in_u64 (snap_ack s) ∧ in_u64 (snap_highest s) ∧
  Forall (λ f, in_u64 (sf_sequence f)) (snap_frames s).

Lemma validate_frames_Ok expected seen fs e :
  validate_frames expected seen fs = Ok e ↔
  e = expected + Z.of_nat (length fs) ∧
  (fs ≠ [] → expected + Z.of_nat (length fs) ≤ u64_max) ∧
  sf_sequence <$> fs = seqZ expected (Z.of_nat (length fs)) ∧
  Forall frame_shape fs ∧ NoDup (sf_message_id <$> fs) ∧
  Forall (λ f, sf_message_id f ∉ seen) fs.
Proof.
  revert expected seen e. induction fs as [|f fs IH]; intros expected seen e; simpl.
  { split; [intros [= <-]|by intros (-> & _); rewrite Z.add_0_r].
    rewrite Z.add_0_r. split_and!; try done; constructor. }
  assert (Hlen : Z.of_nat (S (length fs)) = 1 + Z.of_nat (length fs)) by lia.
  rewrite Hlen, (seqZ_cons expected (1 + _)) by lia.
  rewrite !Forall_cons, NoDup_cons. unfold frame_shape at 1. split.
  - intros H. inv_result. apply IH in H as (-> & Hmax & Hseq & Hshape & Hnd & Hseen).
    split_bools. split_and!; try done; try lia.
    + destruct fs; [simpl; lia|]. intros _. specialize (Hmax ltac:(done)). lia.
    + f_equal; [lia|]. etrans; [exact Hseq|]. f_equal; lia.
    + intros (g & Hg & Hin)%list_elem_of_fmap.
      apply (proj1 (Forall_forall _ _) Hseen) in Hin. set_solver.
    + eapply Forall_impl; [exact Hseen|]. set_solver.
  - intros (-> & Hmax & Hseq & ((? & ? & ? & ?) & Hshape) & (Hnin & Hnd) & (? & Hseen)).
    injection Hseq as Hs Hseq. specialize (Hmax ltac:(done)).
    rewrite !bool_decide_eq_false_2 by done. simpl.
    rewrite (proj2 (Z.eqb_neq (sf_sequence f) 0)) by done. simpl.
    rewrite (proj2 (Z.eqb_eq (sf_sequence f) expected)) by done. simpl.
    unfold checked_add_u64. rewrite (proj2 (Z.leb_le _ _)) by lia. simpl.
    apply IH. split_and!; try done; try lia.
    + etrans; [exact Hseq|]. f_equal; lia.
    + apply Forall_forall. intros g Hg.
      apply (proj1 (Forall_forall _ _) Hseen) in Hg as Hg'.
      assert (sf_message_id g ≠ sf_message_id f); [|set_solver].
      intros Heq. apply Hnin. rewrite <-Heq. by apply list_elem_of_fmap_2.
Qed.

(** The retained frames of a snapshot whose loop passed, seen from its last frame. *)
Lemma contiguous_last (fs : list StoredFrame) (a : Z) :
  sf_sequence <$> fs = seqZ a (Z.of_nat (length fs)) → fs ≠ [] →
  sf_sequence <$> head fs = Some a ∧
  sf_sequence <$> last fs = Some (a + Z.of_nat (length fs) - 1).
Proof. apply seqZ_ends. Qed.

Lemma validate_wf s : snapshot_typed s → validate s = Ok tt → snapshot_wf s.
Proof.
  intros (Hack & Hhi & Hfs) H. unfold validate in H. inv_result.
  split_bools.
  match goal with H : validate_frames _ _ _ = _ |- _ =>
    apply validate_frames_Ok in H as (_ & Hroom & Hseq & Hshape & Hnd & _) end.
  unfold in_u64 in *. destruct (decide (snap_frames s = [])) as [Hnil|Hne].
  - unfold derived_highest, first_sequence in *. rewrite Hnil in *. simpl in *.
    split; unfold frame_count; rewrite ?Hnil; simpl; try done; try lia; constructor.
  - destruct (contiguous_last _ _ Hseq Hne) as [Hh Hl]. specialize (Hroom Hne).
    assert (Hf : 1 ≤ first_sequence s).
    { unfold first_sequence. destruct (snap_frames s) as [|f fs]; [done|]. simpl.
      apply Forall_cons in Hshape as [[? _] _]. apply Forall_cons in Hfs as [? _]. lia. }
    unfold derived_highest, checked_add_u64 in *. rewrite Hl in *. simpl in *.
    split; unfold frame_count; try done; try lia.
    + rewrite Hseq. f_equal; lia.
    + destruct (Z.leb_spec (snap_ack s + 1) u64_max); simpl in *; lia.
Qed.

Lemma wf_validate s : snapshot_wf s → validate s = Ok tt.
Proof.
  intros [Hack Hhi Hseq Hret Hroom Hshape Hnd]. unfold frame_count in *.
  unfold validate. rewrite (proj2 (Z.ltb_ge _ _)) by lia. simpl.
  assert (Hfirst : snap_frames s ≠ [] →
    first_sequence s = snap_highest s - Z.of_nat (length (snap_frames s)) + 1 ∧
    derived_highest s = snap_highest s).
  { intros Hne. destruct (contiguous_last _ _ Hseq Hne) as [Hh Hl].
    unfold first_sequence, derived_highest. rewrite Hh, Hl. simpl. lia. }
  assert (Hloop : validate_frames (first_sequence s) ∅ (snap_frames s) =
    Ok (first_sequence s + Z.of_nat (length (snap_frames s)))).
  { apply validate_frames_Ok.
    destruct (decide (snap_frames s = [])) as [Hnil|Hne].
    - rewrite Hnil. simpl. split_and!; try done; constructor.
    - destruct (Hfirst Hne) as [-> _]. specialize (Hroom Hne). split_and!; try done; [lia|].
      apply Forall_forall. set_solver. }
  rewrite Hloop. simpl.
  destruct (decide (snap_frames s = [])) as [Hnil|Hne].
  - unfold first_sequence, derived_highest in *. rewrite Hnil in *. simpl in *.
    rewrite (proj2 (Z.eqb_eq (snap_highest s) (snap_ack s))) by lia.
    unfold checked_add_u64. destruct (Z.leb_spec (snap_ack s + 1) u64_max); simpl;
      [rewrite (proj2 (Z.ltb_ge _ _)) by lia|]; done.
  - destruct (Hfirst Hne) as [-> ->]. rewrite Z.eqb_refl. simpl.
    unfold checked_add_u64. destruct (Z.leb_spec (snap_ack s + 1) u64_max); simpl;
      [rewrite (proj2 (Z.ltb_ge _ _)) by lia|]; done.
Qed.

(** ** The store contract *)

Definition push_frame (s : OutboxSnapshot) (f : StoredFrame) : OutboxSnapshot :=
  {| snap_ack := snap_ack s; snap_highest := sf_sequence f;
     snap_frames := snap_frames s ++ [f] |}.

Definition set_ack (s : OutboxSnapshot) (a : Z) : OutboxSnapshot :=
  {| snap_ack := a; snap_highest := snap_highest s; snap_frames := snap_frames s |}.

Definition drop_through (s : OutboxSnapshot) (a : Z) : OutboxSnapshot :=
  {| snap_ack := snap_ack s; snap_highest := snap_highest s;
     snap_frames := filter (λ f, a < sf_sequence f) (snap_frames s) |}.

(** [v'] is [v] acknowledged through [a]; the store may drop the frames up to [a] at once
    or wait for the compaction. *)
Definition acknowledged (v : OutboxSnapshot) (a : Z) (v' : OutboxSnapshot) : Prop :=
  v' = set_ack v a ∨ v' = drop_through (set_ack v a) a.

(** What a store promises the session: it holds one snapshot ([view]), [load] reads
    it, and each write either happens entirely or, when it reports an error, not
    at all.  The promise is about valid stores and the calls the session makes; a frame is
    [storable] when the store keeps it byte for byte. *)
Class FrameOutboxLaws (S E : Type) `{!FrameOutbox S E, !CompactingOutbox S E} : Type := {
  view : S → OutboxSnapshot;
  storable : StoredFrame → Prop;
  load_view : ∀ st, view (load st).1 = view st ∧
    ∀ o, (load st).2 = Ok o → default snapshot_default o = view st;
  append_view : ∀ st f, snapshot_wf (view st) → storable f →
    sf_sequence f = snap_highest (view st) + 1 →
    view (append st (snap_highest (view st)) f).1 =
      if is_ok (append st (snap_highest (view st)) f).2 then push_frame (view st) f else view st;
  record_view : ∀ st a, snapshot_wf (view st) → snap_ack (view st) < a ≤ snap_highest (view st) →
    if is_ok (record_acknowledgement st (snap_ack (view st)) a).2
    then acknowledged (view st) a (view (record_acknowledgement st (snap_ack (view st)) a).1)
    else view (record_acknowledgement st (snap_ack (view st)) a).1 = view st;
  compact_view : ∀ st a, snapshot_wf (view st) → a ≤ snap_ack (view st) →
    view (compact_through st a).1 =
      (if is_ok (compact_through st a).2 then drop_through (view st) a else view st) ∧
    ∀ n, (compact_through st a).2 = Ok n →
      n = (length (snap_frames (view st)) - length (snap_frames (drop_through (view st) a)))%nat
}.

#[global] Instance memory_laws : FrameOutboxLaws InMemoryOutbox Empty_set.
Proof.
  refine {| view := λ m, default snapshot_default (state m); storable := λ _, True |}; simpl.
  - intros m. naive_solver.
  - done.
  - intros [[s|]] a; simpl; [by left|lia].
  - intros [[s|]] a; simpl; split; try done; intros n; simpl; naive_solver.
Defined.

(** ** The session against the contract *)

Lemma push_frame_wf s f :
  snapshot_wf s → frame_shape f → sf_sequence f = snap_highest s + 1 →
  sf_sequence f < u64_max → sf_message_id f ∉ (sf_message_id <$> snap_frames s) →
  snapshot_wf (push_frame s f).
Proof.
  intros [Hack Hhi Hseq Hret Hroom Hshape Hnd] Hf Hnext Hmax Hnew.
  unfold frame_count in *.
  split; unfold frame_count; simpl; rewrite ?fmap_app, ?length_app, ?Hseq; simpl; try lia.
  - rewrite Hnext. replace (Z.of_nat (length (snap_frames s) + 1))
      with (Z.of_nat (length (snap_frames s)) + 1) by lia.
    rewrite <-seqZ_snoc by lia. f_equal; [f_equal; lia|f_equal; lia].
  - apply Forall_app. auto.
  - apply NoDup_app. split_and!; [done| |apply NoDup_singleton]. set_solver.
Qed.

Lemma set_ack_wf s a :
  snapshot_wf s → snap_ack s ≤ a ≤ snap_highest s → snapshot_wf (set_ack s a).
Proof.
  intros [Hack Hhi Hseq Hret Hroom Hshape Hnd] Ha. unfold frame_count in *.
  split; unfold frame_count; simpl; try done; lia.
Qed.

(** The frames above a point of the retained range. *)
Lemma frames_above s a :
  snapshot_wf s → snap_highest s - frame_count s ≤ a ≤ snap_highest s →
  sf_sequence <$> filter (λ f, a < sf_sequence f) (snap_frames s) =
    seqZ (a + 1) (snap_highest s - a).
Proof.
  intros Hwf Ha. pose proof (wf_frames s Hwf) as Hseq. unfold frame_count in *.
  rewrite <-(filter_fmap (λ x, a < x) sf_sequence), Hseq, filter_gt_seqZ by lia.
  f_equal; lia.
Qed.

(** In a contiguous list, the frames above a point are what is left after dropping
    the ones up to it. *)
Lemma filter_above_drop (fs : list StoredFrame) (m a : Z) :
  sf_sequence <$> fs = seqZ m (Z.of_nat (length fs)) → m ≤ a + 1 →
  filter (λ f, a < sf_sequence f) fs = drop (Z.to_nat (a + 1 - m)) fs.
Proof.
  revert m. induction fs as [|f fs IH]; intros m Hseq Hm; [by rewrite drop_nil|].
  simpl in Hseq. rewrite seqZ_cons in Hseq by lia. injection Hseq as Hf Hseq.
  replace (Z.pred (Z.of_nat (S (length fs)))) with (Z.of_nat (length fs)) in Hseq by lia.
  destruct (decide (m ≤ a)) as [Hle|Hgt].
  - rewrite filter_cons_False by lia. rewrite (IH (Z.succ m)) by (done || lia).
    by replace (Z.to_nat (a + 1 - m)) with (S (Z.to_nat (a + 1 - Z.succ m))) by lia.
  - replace (Z.to_nat (a + 1 - m)) with O by lia. simpl drop. apply filter_all.
    constructor; [lia|]. apply (Forall_fmap sf_sequence (λ z, a < z) fs).
    apply Forall_forall. intros z Hz. change (z ∈ list_fmap _ _ sf_sequence fs) in Hz.
    rewrite Hseq in Hz. apply elem_of_seqZ in Hz. lia.
Qed.

Lemma drop_through_suffix s :
  snapshot_wf s → snap_frames (drop_through s (snap_ack s)) `suffix_of` snap_frames s.
Proof.
  intros Hwf. pose proof Hwf as [Hack Hhi Hseq Hret _ _ _]. simpl. unfold frame_count in *.
  rewrite (filter_above_drop _ _ _ Hseq) by lia. eexists. symmetry. apply take_drop.
Qed.

Lemma drop_through_wf s :
  snapshot_wf s → snapshot_wf (drop_through s (snap_ack s)).
Proof.
  intros Hwf. pose proof Hwf as [Hack Hhi Hseq Hret Hroom Hshape Hnd].
  pose proof (frames_above s (snap_ack s) Hwf ltac:(lia)) as Habove.
  assert (Hlen : Z.of_nat (length (filter (λ f, snap_ack s < sf_sequence f) (snap_frames s)))
            = snap_highest s - snap_ack s).
  { rewrite <-(length_fmap sf_sequence), Habove, length_seqZ. lia. }
  split; unfold frame_count; simpl; rewrite ?Hlen; try done; try lia.
  - rewrite Habove. f_equal; lia.
  - intros Hne. apply Hroom. intros Hnil. by rewrite Hnil in Hne.
  - by apply Forall_filter.
  - eapply sublist_NoDup; [exact Hnd|]. apply fmap_sublist, sublist_filter.
Qed.

Lemma acknowledged_wf s a s' :
  snapshot_wf s → snap_ack s ≤ a ≤ snap_highest s → acknowledged s a s' →
  snapshot_wf s' ∧ snap_ack s' = a ∧ snap_highest s' = snap_highest s ∧
  snap_frames s' `suffix_of` snap_frames s.
Proof.
  intros Hwf Ha Hv. pose proof (set_ack_wf s a Hwf Ha) as Hs. destruct Hv as [->| ->]; [done|].
  split_and!; [apply (drop_through_wf _ Hs)|done|done|apply (drop_through_suffix _ Hs)].
Qed.

Section session_spec.
Context {S E : Type} `{!FrameOutbox S E, !CompactingOutbox S E, !FrameOutboxLaws S E}.
Implicit Types st : S.

(** [snapshot_of] leaves the store's content alone; from a valid store it can only
    fail in [load]. *)
Lemma snapshot_of_spec st :
  snapshot_wf (view st) →
  view (snapshot_of st).1 = view st ∧
  match (snapshot_of st).2 with
  | Ok s => s = view st
  | Err e => ∃ e0, e = Store e0 ∧ (load st).2 = Err e0
  end.
Proof.
  intros Hwf. unfold snapshot_of. destruct (load_view st) as [Hv Hl].
  destruct (load st) as [st' [o|e]]; simpl in *; split; try done.
  - rewrite (Hl o eq_refl), wf_validate by done. done.
  - by exists e.
Qed.

Lemma validate_frame_shape_Ok f u :
  validate_frame_shape f = Ok u ↔ frame_shape f.
Proof.
  unfold validate_frame_shape, frame_shape. destruct u.
  split.
  - intros H. inv_result. split_bools. split_and!; try done; lia.
  - intros (? & ? & ? & ?). rewrite (proj2 (Z.eqb_neq (sf_sequence f) 0)) by done.
    by rewrite !bool_decide_eq_false_2.
Qed.

Lemma existsb_message_id (fs : list StoredFrame) (id : string) :
  existsb (λ g, bool_decide (sf_message_id g = id)) fs = false ↔
  id ∉ (sf_message_id <$> fs).
Proof.
  rewrite <-not_true_iff_false, existsb_exists, list_elem_of_fmap.
  apply not_iff_compat. split.
  - intros (g & Hg & <-%bool_decide_eq_true). exists g. split; [done|].
    by apply list_elem_of_In.
  - intros (g & -> & Hg). exists g. split; [by apply list_elem_of_In|].
    by apply bool_decide_eq_true.
Qed.

Lemma enqueue_spec st expected f :
  snapshot_wf (view st) → storable f →
  match (enqueue st expected f).2 with
  | Ok n => n = sf_sequence f ∧ n = expected ∧ n = snap_highest (view st) + 1 ∧
            n ≤ u64_max ∧ frame_shape f ∧
            (sf_message_id f ∉ (sf_message_id <$> snap_frames (view st))) ∧
            view (enqueue st expected f).1 = push_frame (view st) f
  | Err e => view (enqueue st expected f).1 = view st ∧ ∀ e0, e ≠ CorruptState e0
  end.
Proof.
  intros Hwf Hst. unfold enqueue.
  destruct (_ ≫= _) as [u|e] eqn:Hin.
  2: { simpl. split; [done|]. intros e0 ->. apply bind_Err in Hin as [Hin|(? & _ & Hin)].
       - by apply map_err_Err in Hin as (? & _ & [=]).
       - by apply refuse_Err in Hin as [_ [=]]. }
  inv_result. split_bools. apply validate_frame_shape_Ok in H.
  destruct (snapshot_of_spec st Hwf) as [Hv Hr].
  destruct (snapshot_of st) as [st1 r]; simpl in *.
  destruct r as [s|e]; simpl.
  2: { destruct Hr as (e0 & -> & _). by split. }
  subst s. destruct (ok_or _ _ ≫= _) as [u'|e] eqn:Hchk; simpl.
  2: { split; [done|]. intros e0 ->. apply bind_Err in Hchk as [Hchk|(? & _ & Hchk)].
       - by apply ok_or_Err in Hchk as [_ [=]].
       - apply bind_Err in Hchk as [Hchk|(? & _ & Hchk)];
         by apply refuse_Err in Hchk as [_ [=]]. }
  inv_result. split_bools. apply existsb_message_id in Hchk.
  rewrite <-Hv in Hwf. pose proof (append_view st1 f Hwf Hst ltac:(rewrite Hv; lia)) as Ha.
  replace (snap_highest (view st1)) with (sf_sequence f - 1) in Ha by (rewrite Hv; lia).
  destruct (append st1 _ f) as [st2 [u''|e]]; simpl in *; rewrite Hv in Ha.
  - split_and!; try done; lia.
  - by split.
Qed.

Lemma acknowledge_spec st a :
  snapshot_wf (view st) →
  match (acknowledge st a).2 with
  | Ok b => b = a ∧ snap_ack (view st) ≤ a ≤ snap_highest (view st) ∧
            acknowledged (view st) a (view (acknowledge st a).1)
  | Err e => view (acknowledge st a).1 = view st ∧ ∀ e0, e ≠ CorruptState e0
  end.
Proof.
  intros Hwf. unfold acknowledge. destruct (snapshot_of_spec st Hwf) as [Hv Hr].
  destruct (snapshot_of st) as [st1 r]; simpl in *. destruct r as [s|e]; simpl.
  2: { destruct Hr as (e0 & -> & _). by split. }
  subst s. destruct (Z.ltb_spec (snap_highest (view st)) a); simpl; [by split|].
  destruct (Z.ltb_spec a (snap_ack (view st))); simpl; [by split|].
  destruct (Z.eqb_spec a (snap_ack (view st))) as [->|Hne]; simpl.
  - split_and!; try done; try lia. left. rewrite Hv. by destruct (view st).
  - pose proof (record_view st1 a ltac:(by rewrite Hv) ltac:(rewrite Hv; lia)) as Ha. rewrite Hv in Ha.
    destruct (record_acknowledgement st1 _ a) as [st2 [u|e]]; simpl in *; [|by split].
    split_and!; try done; lia.
Qed.

Lemma compact_confirmed_spec st :
  snapshot_wf (view st) →
  match (compact_confirmed st).2 with
  | Ok n => view (compact_confirmed st).1 = drop_through (view st) (snap_ack (view st)) ∧
      Z.of_nat n = frame_count (view st) - (snap_highest (view st) - snap_ack (view st))
  | Err e => view (compact_confirmed st).1 = view st ∧ ∀ e0, e ≠ CorruptState e0
  end.
Proof.
  intros Hwf. unfold compact_confirmed. destruct (snapshot_of_spec st Hwf) as [Hv Hr].
  destruct (snapshot_of st) as [st1 r]; simpl in *. destruct r as [s|e]; simpl.
  2: { destruct Hr as (e0 & -> & _). by split. }
  subst s. destruct (compact_view st1 (snap_ack (view st))) as [Hc Hn]; [by rewrite Hv|rewrite Hv; lia|].
  rewrite Hv in *.
  destruct (compact_through st1 _) as [st2 [n|e]]; simpl in *; [|by split].
  split; [done|]. rewrite (Hn n eq_refl). simpl.
  pose proof (frames_above (view st) (snap_ack (view st)) Hwf) as Habove.
  destruct Hwf as [Hack Hhi Hseq Hret _ _ _]. specialize (Habove ltac:(lia)).
  apply (f_equal length) in Habove. rewrite length_fmap, length_seqZ in Habove.
  rewrite Habove. unfold frame_count in *. lia.
Qed.

Lemma deliverable_spec st after n :
  snapshot_wf (view st) →
  view (deliverable st after n).1 = view st ∧
  match (deliverable st after n).2 with
  | Ok b => batch_ack b = snap_ack (view st) ∧ batch_highest b = snap_highest (view st) ∧
            batch_frames b = take n (filter (λ f, after < sf_sequence f)
                                       (snap_frames (view st))) ∧
            after ≤ snap_highest (view st) ∧ n ≠ O
  | Err e => ∀ e0, e ≠ CorruptState e0
  end.
Proof.
  intros Hwf. unfold deliverable. case_bool_decide; [done|].
  destruct (snapshot_of_spec st Hwf) as [Hv Hr].
  destruct (snapshot_of st) as [st1 r]; simpl in *. split; [done|].
  destruct r as [s|e]; simpl; [|by destruct Hr as (e0 & -> & _)].
  subst s. destruct (Z.ltb_spec (snap_highest (view st)) after); simpl; done.
Qed.
End session_spec.

(** ** Runs of the session *)

Inductive OutboxOp : Type :=
| OpNext
| OpEnqueue (expected : Z) (f : StoredFrame)
| OpDeliver (after : Z) (max_frames : nat)
| OpAcknowledge (a : Z)
| OpCompactConfirmed.

Section session_run.
Context {S E : Type} `{!FrameOutbox S E, !CompactingOutbox S E}.

Definition failure {A} (r : result (OutboxError E) A) : option (OutboxError E) :=
  match r with Ok _ => None | Err e => Some e end.

(** The store after one operation, and the operation's error. *)
Definition outbox_step (st : S) (op : OutboxOp) : S * option (OutboxError E) :=
  match op with
  | OpNext => let '(st, r) := next_sequence st in (st, failure r)
  | OpEnqueue x f => let '(st, r) := enqueue st x f in (st, failure r)
  | OpDeliver a n => let '(st, r) := deliverable st a n in (st, failure r)
  | OpAcknowledge a => let '(st, r) := acknowledge st a in (st, failure r)
  | OpCompactConfirmed => let '(st, r) := compact_confirmed st in (st, failure r)
  end.

Fixpoint outbox_run (st : S) (ops : list OutboxOp) : S * list (option (OutboxError E)) :=
  match ops with
  | [] => (st, [])
  | op :: ops =>
      let '(st1, e) := outbox_step st op in
      let '(st2, es) := outbox_run st1 ops in
      (st2, e :: es)
  end.
End session_run.

(** What the store's own operations keep, the session's keep. *)
Lemma outbox_step_keeps {S E} `{!FrameOutbox S E, !CompactingOutbox S E} (P : S → Prop) (st : S) op :
  (∀ st, P st → P (load st).1) →
  (∀ x f st, op = OpEnqueue x f → P st → P (append st (sf_sequence f - 1) f).1) →
  (∀ st a a', P st → P (record_acknowledgement st a a').1) →
  (∀ st a, P st → P (compact_through st a).1) →
  P st → P (outbox_step st op).1.
Proof.
  intros Hl Ha Hr Hc Hst.
  assert (Hs : P (snapshot_of st).1).
  { unfold snapshot_of. specialize (Hl st Hst). by destruct (load st). }
  destruct op as [|x f|a n|a|]; simpl;
    unfold next_sequence, enqueue, deliverable, acknowledge, compact_confirmed.
  - by destruct (snapshot_of st).
  - destruct (_ ≫= _) as [u|e]; [|done]. destruct (snapshot_of st) as [st1 r]. simpl in Hs.
    destruct (r ≫= _); [|done]. specialize (Ha x f st1 eq_refl Hs). by destruct (append st1 _ f).
  - case_bool_decide; [done|]. by destruct (snapshot_of st).
  - destruct (snapshot_of st) as [st1 r]. simpl in Hs. destruct (r ≫= _) as [s|e]; [|done].
    destruct (_ =? _); [done|]. specialize (Hr st1 (snap_ack s) a Hs).
    by destruct (record_acknowledgement st1 _ a).
  - destruct (snapshot_of st) as [st1 [s|e]]; [|done]. simpl in Hs. specialize (Hc st1 (snap_ack s) Hs).
    by destruct (compact_through st1 _).
Qed.



(** The error, if any, is not [CorruptState]. *)
Definition not_corrupt {E} (e : option (OutboxError E)) : Prop :=
  ∀ e0, e ≠ Some (CorruptState e0).

Section session_run_spec.
Context {S E : Type} `{!FrameOutbox S E, !CompactingOutbox S E, !FrameOutboxLaws S E}.

(** The operation enqueues only what the store can keep, and not the last number of the
    [u64] range. *)
Definition below_limit (op : OutboxOp) : Prop :=
  match op with OpEnqueue _ f => sf_sequence f < u64_max ∧ storable f | _ => True end.

(** One operation from a valid store: the store stays valid, the cursors only move
    up, everything unacknowledged stays, and the store is not found corrupt. *)
Lemma outbox_step_spec (st : S) op :
  snapshot_wf (view st) → below_limit op →
  snapshot_wf (view (outbox_step st op).1) ∧
  snap_ack (view st) ≤ snap_ack (view (outbox_step st op).1) ∧
  snap_highest (view st) ≤ snap_highest (view (outbox_step st op).1) ∧
  not_corrupt (outbox_step st op).2.
Proof.
  intros Hwf Hop. unfold not_corrupt. destruct op as [|x f|a n|a|]; simpl in *.
  - unfold next_sequence. destruct (snapshot_of_spec st Hwf) as [Hv Hr].
    destruct (snapshot_of st) as [st1 [s|e]]; simpl in *; rewrite Hv.
    + destruct (ok_or _ _) as [|e] eqn:Ho; simpl; split_and!; try done; try lia.
      apply ok_or_Err in Ho as [_ <-]. done.
    + destruct Hr as (e0 & -> & _). split_and!; try done; lia.
  - destruct Hop as [Hlt Hst]. pose proof (enqueue_spec st x f Hwf Hst) as H. destruct (enqueue st x f) as [st1 [n|e]];
      simpl in *; [|destruct H as [-> ?]; split_and!; [done|lia..|naive_solver]].
    destruct H as (-> & _ & Hn & _ & Hsh & Hid & ->). simpl.
    split_and!; try done; try lia. by apply push_frame_wf.
  - pose proof (deliverable_spec st a n Hwf) as [Hv H].
    destruct (deliverable st a n) as [st1 [b|e]]; simpl in *; rewrite Hv;
      split_and!; try done; try lia; naive_solver.
  - pose proof (acknowledge_spec st a Hwf) as H. destruct (acknowledge st a) as [st1 [b|e]];
      simpl in *; [|destruct H as [-> ?]; split_and!; [done|lia..|naive_solver]].
    destruct H as (-> & Ha & Hv). destruct (acknowledged_wf _ _ _ Hwf Ha Hv) as (? & ? & ? & _).
    split_and!; try done; lia.
  - pose proof (compact_confirmed_spec st Hwf) as H.
    destruct (compact_confirmed st) as [st1 [n|e]];
      simpl in *; [|destruct H as [-> ?]; split_and!; [done|lia..|naive_solver]].
    destruct H as [-> _]. simpl. split_and!; try done; try lia. by apply drop_through_wf.
Qed.

(** Durability of the outbox over any store that keeps the contract: from a valid
    store, any run of next, enqueue, deliver, acknowledge and compact leaves a valid
    store (the retained frames are contiguous up to the highest sequence and contain
    every unacknowledged one), never moves a cursor back, and never meets a store it
    considers corrupt. *)
Theorem outbox_run_durable (st : S) ops :
  snapshot_wf (view st) → Forall below_limit ops →
  let '(st', es) := outbox_run st ops in
  snapshot_wf (view st') ∧
  snap_ack (view st) ≤ snap_ack (view st') ∧
  snap_highest (view st) ≤ snap_highest (view st') ∧
  Forall not_corrupt es.
Proof.
  intros Hwf Hops. revert st Hwf.
  induction Hops as [|op ops Hop _ IH]; intros st Hwf; simpl.
  { split_and!; try done; lia. }
  pose proof (outbox_step_spec st op Hwf Hop) as (Hwf1 & Ha & Hh & He).
  destruct (outbox_step st op) as [st1 e]; simpl in *. specialize (IH st1 Hwf1).
  destruct (outbox_run st1 ops) as [st2 es]. destruct IH as (Hwf2 & Ha2 & Hh2 & Hes).
  split_and!; try done; try lia. by constructor.
Qed.

(** [OutboxSession::deliverable], asked for frames after a cursor the sender has
    confirmed, returns exactly the next frames of the stream in order, as many as
    asked for and as there are, and changes nothing. *)
Theorem deliverable_next_frames (st : S) after n b :
  snapshot_wf (view st) → snap_ack (view st) ≤ after →
  (deliverable st after n).2 = Ok b →
  sf_sequence <$> batch_frames b =
    seqZ (after + 1) (Z.min (Z.of_nat n) (snap_highest (view st) - after)) ∧
  Forall (λ f, f ∈ snap_frames (view st)) (batch_frames b) ∧
  view (deliverable st after n).1 = view st.
Proof.
  intros Hwf Hafter Hb. pose proof (deliverable_spec st after n Hwf) as [Hv H].
  rewrite Hb in H. destruct H as (_ & _ & Hfs & Hle & _). rewrite Hfs.
  destruct (Hwf) as [_ _ _ Hret _ _ _].
  split_and!; [|apply Forall_take, Forall_filter, Forall_forall; naive_solver|done].
  rewrite fmap_take, frames_above, take_seqZ by (done || lia). done.
Qed.
End session_run_spec.

(** [OutboxSnapshot::validate] accepts exactly the snapshots whose retained frames
    are well-formed, carry distinct message identities and consecutive sequences
    that end at the highest sequence, with nothing unacknowledged missing. *)
Theorem validate_iff_wf s :
  snapshot_typed s → validate s = Ok tt ↔ snapshot_wf s.
Proof. intros Ht. split; [by apply validate_wf|apply wf_validate]. Qed.




(** ** Witnesses *)

Definition sample_frame (id : string) (n : Z) : StoredFrame :=
  {| sf_message_id := id; sf_sequence := n; sf_payload_digest := "sha256:" +:+ id;
     sf_frame := [Byte.x7b] |}.

(** Three frames, the first two acknowledged and compacted away, one more enqueue. *)
Definition sample_outbox_ops : list OutboxOp :=
  [OpEnqueue 1 (sample_frame "a" 1); OpEnqueue 2 (sample_frame "b" 2);
   OpEnqueue 9 (sample_frame "z" 9); OpEnqueue 3 (sample_frame "c" 3);
   OpDeliver 0 2; OpAcknowledge 2; OpCompactConfirmed; OpAcknowledge 1;
   OpEnqueue 4 (sample_frame "d" 4)].

Lemma default_snapshot_wf : snapshot_wf snapshot_default.
Proof.
  apply validate_wf; [|reflexivity]. unfold snapshot_typed, in_u64, u64_max. simpl.
  split_and!; (lia || constructor).
Qed.

Definition sample_snapshot : OutboxSnapshot :=
  {| snap_ack := 1; snap_highest := 3;
     snap_frames := [sample_frame "b" 2; sample_frame "c" 3] |}.

Lemma sample_snapshot_typed : snapshot_typed sample_snapshot.
Proof.
  unfold snapshot_typed, in_u64, u64_max. simpl.
  split_and!; first [lia|repeat constructor; simpl; lia].
Qed.

Lemma outbox_run_durable_witness :
  snapshot_wf (view (outbox_run memory_new sample_outbox_ops).1) ∧
  snap_frames (view (outbox_run memory_new sample_outbox_ops).1) =
    [sample_frame "c" 3; sample_frame "d" 4].
Proof.
  split; [|vm_compute; reflexivity].
  pose proof (outbox_run_durable memory_new sample_outbox_ops default_snapshot_wf
    ltac:(repeat constructor)) as H.
  destruct (outbox_run memory_new sample_outbox_ops). exact (proj1 H).
Defined.

Lemma deliverable_next_frames_witness :
  ∃ b, (deliverable (from_snapshot sample_snapshot) 1 5).2 = Ok b ∧
       sf_sequence <$> batch_frames b = [2; 3].
Proof.
  eexists. split; [vm_compute; reflexivity|].
  refine (proj1 (deliverable_next_frames (from_snapshot sample_snapshot) 1 5 _ _ _ _)).
  - apply validate_wf; [exact sample_snapshot_typed|vm_compute; reflexivity].
  - vm_compute. intros [=].
  - vm_compute. reflexivity.
Defined.

Lemma validate_iff_wf_witness : snapshot_wf sample_snapshot.
Proof.
  apply (proj1 (validate_iff_wf sample_snapshot sample_snapshot_typed)).
  vm_compute. reflexivity.
Defined.


