(* ===== verification/Exchange.v ===== *)
(** * The exchange end to end

    Composes the outbound and inbound halves over a network that may lose, repeat
    and reorder frames and acknowledgements, the way the device daemon and the
    server's client exchange use them ([exchange_one_direction] in
    [crates/winwincode-client-port/src/exchange/mod.rs] is one round of it).  The
    sender's store is any implementation of the store contract of [Outbox]. *)

From S2P Require Import Prelude Frame Dedup Inbound Outbox.
Local Open Scope Z_scope.

(** ** The system *)

(** [log] is everything the sender ever enqueued and [received] everything the
    receiver ever accepted, oldest first; both only serve the statements.  A frame or
    an acknowledgement put on the wire stays available for delivery, once, many
    times, in any order, or never. *)
Record ExchangeState (St : Type) : Type := {
  sender : St;
  receiver : InboundStream;
  wire_frames : list StoredFrame;
  wire_acks : list Z;
  log : list StoredFrame;
  received : list FrameIdentity
}.
Arguments sender {St} _.
Arguments receiver {St} _.
Arguments wire_frames {St} _.
Arguments wire_acks {St} _.
Arguments log {St} _.
Arguments received {St} _.

Inductive ExchangeLabel : Type :=
| LEnqueue (expected : Z) (f : StoredFrame)
| LSend (after : Z) (max_frames : nat)
| LDeliver (k : nat) (instance : string) (command : option CommandIdentity)
| LAcknowledge (k : nat)
| LCompactOutbox
| LCompactDedup (sequence : Z)
| LObserve (instance : string).

Section exchange.
Context {St E : Type} `{!FrameOutbox St E, !CompactingOutbox St E}.

Definition exchange_step (x : ExchangeState St) (l : ExchangeLabel) : ExchangeState St :=
  match l with
  | LEnqueue expected f =>
      let '(st, r) := enqueue (sender x) expected f in
      {| sender := st; receiver := receiver x;
         wire_frames := wire_frames x; wire_acks := wire_acks x;
         log := if is_ok r then log x ++ [f] else log x; received := received x |}
  | LSend after n =>
      let '(st, r) := deliverable (sender x) after n in
      {| sender := st; receiver := receiver x;
         wire_frames := match r with
                        | Ok b => wire_frames x ++ batch_frames b
                        | Err _ => wire_frames x
                        end;
         wire_acks := wire_acks x; log := log x; received := received x |}
  | LDeliver k instance command =>
      match wire_frames x !! k with
      | None => x
      | Some f =>
          let '(rcv, d) := ingest (receiver x) instance (identity f) command in
          {| sender := sender x; receiver := rcv; wire_frames := wire_frames x;
             wire_acks := wire_acks x ++ [decision_ack d]; log := log x;
             received := if accepted d then received x ++ [identity f]
                         else received x |}
      end
  | LAcknowledge k =>
      match wire_acks x !! k with
      | None => x
      | Some a =>
          {| sender := (acknowledge (sender x) a).1; receiver := receiver x;
             wire_frames := wire_frames x; wire_acks := wire_acks x; log := log x;
             received := received x |}
      end
  | LCompactOutbox =>
      {| sender := (compact_confirmed (sender x)).1; receiver := receiver x;
         wire_frames := wire_frames x; wire_acks := wire_acks x; log := log x;
         received := received x |}
  | LCompactDedup n =>
      {| sender := sender x; receiver := (compact_dedup_through (receiver x) n).1;
         wire_frames := wire_frames x; wire_acks := wire_acks x; log := log x;
         received := received x |}
  | LObserve instance =>
      {| sender := sender x; receiver := (observe_instance (receiver x) instance).1;
         wire_frames := wire_frames x; wire_acks := wire_acks x; log := log x;
         received := received x |}
  end.

Definition exchange_run (x : ExchangeState St) (ls : list ExchangeLabel) :
    ExchangeState St := foldl exchange_step x ls.
End exchange.

(** ** Invariant *)

Section exchange_invariant.
Context {St E : Type} `{!FrameOutbox St E, !CompactingOutbox St E, !FrameOutboxLaws St E}.
Implicit Types x : ExchangeState St.

(** Sequence numbers come from the allocator, which never hands out the last one, and the
    sender's store can keep the frame. *)
Definition label_valid (l : ExchangeLabel) : Prop :=
  match l with LEnqueue _ f => sf_sequence f < u64_max ∧ storable f | _ => True end.

Record exchange_wf (x : ExchangeState St) : Prop := {
  x_sender : snapshot_wf (view (sender x));
  x_receiver : inbound_wf (receiver x);
  x_log : sf_sequence <$> log x = seqZ 1 (Z.of_nat (length (log x)));
  x_highest : snap_highest (view (sender x)) = Z.of_nat (length (log x));
  x_retained : snap_frames (view (sender x)) `suffix_of` log x;
  x_confirmed : snap_ack (view (sender x)) ≤ ack_sequence (receiver x);
  x_received : received x = identity <$> take (Z.to_nat (ack_sequence (receiver x))) (log x);
  x_cursor : ack_sequence (receiver x) ≤ Z.of_nat (length (log x));
  x_frames : Forall (λ f, f ∈ log x) (wire_frames x);
  x_acks : Forall (λ a, a ≤ ack_sequence (receiver x)) (wire_acks x)
}.

(** The position of a frame in the log is its sequence number. *)
Lemma log_lookup x f :
  exchange_wf x → f ∈ log x →
  log x !! Z.to_nat (sf_sequence f - 1) = Some f ∧
  1 ≤ sf_sequence f ≤ Z.of_nat (length (log x)).
Proof.
  intros Hx [i Hi]%list_elem_of_lookup.
  assert (Hs : (sf_sequence <$> log x) !! i = Some (sf_sequence f))
    by by rewrite list_lookup_fmap, Hi.
  rewrite (x_log x Hx) in Hs. apply lookup_seqZ in Hs as [Hs Hlt].
  split; [|lia]. rewrite <-Hi. f_equal. lia.
Qed.

(** The sender's own operations: the content is unchanged, or changes as the outbox
    contract says. *)
Lemma sender_wf x st :
  exchange_wf x → snapshot_wf (view st) →
  snap_highest (view st) = snap_highest (view (sender x)) →
  snap_frames (view st) `suffix_of` snap_frames (view (sender x)) →
  snap_ack (view st) ≤ ack_sequence (receiver x) →
  exchange_wf {| sender := st; receiver := receiver x; wire_frames := wire_frames x;
                 wire_acks := wire_acks x; log := log x; received := received x |}.
Proof.
  intros Hx Hwf Hhi Hfs Hack. destruct Hx. split; simpl; try done; [congruence|].
  by etrans.
Qed.

Lemma enqueue_wf x expected f :
  exchange_wf x → sf_sequence f < u64_max ∧ storable f →
  exchange_wf (exchange_step x (LEnqueue expected f)).
Proof.
  intros Hx [Hlim Hst]. simpl.
  pose proof (enqueue_spec (sender x) expected f (x_sender x Hx) Hst) as H.
  destruct (enqueue (sender x) expected f) as [st [n|e]]; simpl in *.
  - destruct H as (-> & _ & Hn & _ & Hsh & Hid & Hv). destruct Hx.
    assert (Hlen : sf_sequence f = 1 + Z.of_nat (length (log x))) by lia.
    split; simpl; rewrite ?Hv; simpl; try done.
    + by apply push_frame_wf.
    + rewrite fmap_app, length_app, x_log0. simpl.
      replace (Z.of_nat (length (log x) + 1)) with (Z.of_nat (length (log x)) + 1) by lia.
      rewrite <-seqZ_snoc by lia. by rewrite Hlen.
    + rewrite length_app. simpl. lia.
    + destruct x_retained0 as [k ->]. exists k. by rewrite app_assoc.
    + rewrite take_app_le by lia. done.
    + rewrite length_app. lia.
    + eapply Forall_impl; [done|]. set_solver.
  - destruct H as [Hv _]. apply sender_wf; rewrite ?Hv; try done; apply Hx.
Qed.

Lemma send_wf x after n :
  exchange_wf x → exchange_wf (exchange_step x (LSend after n)).
Proof.
  intros Hx. simpl. destruct (deliverable_spec (sender x) after n (x_sender x Hx)) as [Hv H].
  destruct (deliverable (sender x) after n) as [st [b|e]]; simpl in *.
  - destruct H as (_ & _ & Hfs & _ & _). destruct Hx.
    split; simpl; rewrite ?Hv; try done. apply Forall_app. split; [done|]. rewrite Hfs.
    apply Forall_take, Forall_filter, Forall_forall. intros f Hf.
    destruct x_retained0 as [k ->]. set_solver.
  - apply sender_wf; rewrite ?Hv; try done; apply Hx.
Qed.

Lemma deliver_wf x k instance command :
  exchange_wf x → exchange_wf (exchange_step x (LDeliver k instance command)).
Proof.
  intros Hx. simpl. destruct (wire_frames x !! k) as [f|] eqn:Hk; [|done].
  assert (Hf : f ∈ log x).
  { eapply (proj1 (Forall_forall _ _) (x_frames x Hx)), list_elem_of_lookup_2, Hk. }
  destruct (log_lookup x f Hx Hf) as [Hlog Hseq].
  destruct (ingest (receiver x) instance (identity f) command) as [rcv d] eqn:Ed.
  pose proof (inbound_step_wf (receiver x) (OpIngest instance (identity f) command)
    (x_receiver x Hx)) as Hwf. simpl in Hwf. rewrite Ed in Hwf. simpl in Hwf.
  assert (Hu : in_u64 (sf_sequence f)).
  { pose proof (wf_highest _ (x_sender x Hx)). rewrite (x_highest x Hx) in *.
    unfold in_u64. lia. }
  specialize (Hwf Hu).
  destruct (ingest_outcome _ _ (identity f) _ _ _ (x_receiver x Hx) Hu Ed)
    as [(o & -> & Hs & Ha & _ & _)|(Hd & Hda & Ha & _)]; simpl in *.
  - destruct Hx. destruct x_receiver0 as [Hack _]. split; simpl; try done; try lia.
    + rewrite Ha, x_received0. rewrite Hs in Hlog.
      replace (Z.to_nat (ack_sequence (receiver x) + 1))
        with (S (Z.to_nat (ack_sequence (receiver x)))) by lia.
      erewrite take_S_r; [by rewrite fmap_app|]. rewrite <-Hlog. f_equal. lia.
    + apply Forall_app. split; [|constructor; [lia|constructor]].
      eapply Forall_impl; [done|]. simpl. lia.
  - rewrite Hd. assert (Hac : ack_sequence rcv = ack_sequence (receiver x))
      by (unfold ack_sequence; by rewrite Ha).
    destruct Hx. split; simpl; rewrite ?Hac; try done.
    apply Forall_app. split; [done|constructor; [lia|constructor]].
Qed.

Lemma acknowledge_wf x k :
  exchange_wf x → exchange_wf (exchange_step x (LAcknowledge k)).
Proof.
  intros Hx. simpl. destruct (wire_acks x !! k) as [a|] eqn:Hk; [|done].
  assert (Ha : a ≤ ack_sequence (receiver x)).
  { eapply (proj1 (Forall_forall _ _) (x_acks x Hx)), list_elem_of_lookup_2, Hk. }
  pose proof (acknowledge_spec (sender x) a (x_sender x Hx)) as H.
  destruct (acknowledge (sender x) a) as [st [b|e]]; simpl in *.
  - destruct H as (_ & Hb & Hv).
    destruct (acknowledged_wf _ _ _ (x_sender x Hx) Hb Hv) as (? & Hac & ? & ?).
    apply sender_wf; try done. by rewrite Hac.
  - destruct H as [Hv _]. apply sender_wf; rewrite ?Hv; try done; apply Hx.
Qed.

Lemma compact_wf x :
  exchange_wf x → exchange_wf (exchange_step x LCompactOutbox).
Proof.
  intros Hx. simpl. pose proof (compact_confirmed_spec (sender x) (x_sender x Hx)) as H.
  destruct (compact_confirmed (sender x)) as [st [n|e]]; simpl in *; destruct H as [Hv _].
  - apply sender_wf; rewrite ?Hv; try done; try apply Hx.
    + apply drop_through_wf, Hx.
    + apply drop_through_suffix, Hx.
  - apply sender_wf; rewrite ?Hv; try done; apply Hx.
Qed.

(** The receiver's housekeeping does not touch cursor or wire. *)
Lemma housekeeping_wf x op :
  exchange_wf x → match op with OpIngest _ _ _ => False | _ => True end →
  exchange_wf {| sender := sender x; receiver := (inbound_step (receiver x) op).1;
                 wire_frames := wire_frames x; wire_acks := wire_acks x; log := log x;
                 received := received x |}.
Proof.
  intros Hx Hop.
  assert (Hwf : inbound_wf (inbound_step (receiver x) op).1)
    by (apply inbound_step_wf; [apply Hx|by destruct op]).
  assert (Hack : ack (inbound_step (receiver x) op).1 = ack (receiver x)).
  { destruct op; [done|done|]. simpl. unfold observe_instance. by destruct (tracker_observe _ _). }
  unfold ack_sequence in *. destruct Hx; split; unfold ack_sequence in *; simpl;
    rewrite ?Hack; done.
Qed.

Lemma exchange_step_wf x l :
  exchange_wf x → label_valid l → exchange_wf (exchange_step x l).
Proof.
  intros Hx Hl. destruct l; [by apply enqueue_wf|by apply send_wf|by apply deliver_wf
    |by apply acknowledge_wf|by apply compact_wf| |].
  - by apply (housekeeping_wf x (OpCompact sequence)).
  - by apply (housekeeping_wf x (OpObserve instance)).
Qed.

Lemma exchange_run_wf x ls :
  exchange_wf x → Forall label_valid ls → exchange_wf (exchange_run x ls).
Proof.
  intros Hx Hls. revert x Hx. induction Hls as [|l ls Hl _ IH]; intros x Hx; [done|].
  simpl. by apply IH, exchange_step_wf.
Qed.
End exchange_invariant.

(** ** Safety *)

Definition exchange_init {St} (st : St) (rcv : InboundStream) : ExchangeState St :=
  {| sender := st; receiver := rcv; wire_frames := []; wire_acks := [];
     log := []; received := [] |}.

(** A receiver that has accepted nothing yet. *)
Definition fresh_receiver (rcv : InboundStream) : Prop :=
  ack_sequence rcv = 0 ∧ frames (dedup rcv) = ∅.

Lemma exchange_init_wf {St E} `{!FrameOutbox St E, !CompactingOutbox St E, !FrameOutboxLaws St E}
    (st : St) rcv :
  view st = snapshot_default → fresh_receiver rcv → exchange_wf (exchange_init st rcv).
Proof.
  intros Hst [Hack Hfr]. unfold exchange_init.
  split; simpl; rewrite ?Hst, ?Hack; simpl; try done; try lia.
  - split; unfold frame_count; simpl; try done; try (unfold u64_max; lia); try constructor.
  - split; [unfold u64_max; lia|]. intros k d. by rewrite Hfr, lookup_empty.
Qed.

(** C1. Exactly-once, in-order delivery over an unreliable network: from an empty outbox
    and a fresh receiver, after any interleaving of enqueues, (re)transmissions,
    deliveries of any frame on the wire in any order and number, acknowledgements old or
    new, compactions and instance changes, what the receiver has accepted is exactly the
    first [ack_sequence] frames ever enqueued, in order; the sender's confirmed cursor
    never passes the receiver's; and every frame the receiver still lacks is retained in
    the sender's store. *)
Theorem exchange_exactly_once
    {St E} `{!FrameOutbox St E, !CompactingOutbox St E, !FrameOutboxLaws St E}
    (st : St) rcv ls :
  view st = snapshot_default → fresh_receiver rcv → Forall label_valid ls →
  let x := exchange_run (exchange_init st rcv) ls in
  received x = identity <$> take (Z.to_nat (ack_sequence (receiver x))) (log x) ∧
  length (received x) = Z.to_nat (ack_sequence (receiver x)) ∧
  snap_ack (view (sender x)) ≤ ack_sequence (receiver x) ∧
  ∀ f, f ∈ log x → ack_sequence (receiver x) < sf_sequence f →
       f ∈ snap_frames (view (sender x)).
Proof.
  intros Hst Hrcv Hls x.
  assert (Hx : exchange_wf x) by (by apply exchange_run_wf; [apply exchange_init_wf|]).
  pose proof (x_receiver x Hx) as [Hack _]. pose proof (x_cursor x Hx) as Hc.
  split_and!; [apply Hx| |apply Hx|].
  - rewrite (x_received x Hx), length_fmap, length_take. lia.
  - intros f Hf Hlt. destruct (log_lookup x f Hx Hf) as [Hlog Hseq].
    pose proof (x_sender x Hx) as [_ _ _ Hret _ _ _]. unfold frame_count in Hret.
    rewrite (x_highest x Hx) in Hret. pose proof (x_confirmed x Hx).
    destruct (x_retained x Hx) as [k Hk].
    assert (length (log x) = length k + length (snap_frames (view (sender x))))%nat
      by (rewrite Hk at 1; by rewrite length_app).
    rewrite Hk, lookup_app_r in Hlog by lia. by eapply list_elem_of_lookup_2.
Qed.

(** ** Progress *)

(** Ingesting a batch in order, without commands; the answers are collected. *)
Fixpoint ingest_all (rcv : InboundStream) (instance : string) (fs : list StoredFrame) :
    InboundStream * list IngestDecision :=
  match fs with
  | [] => (rcv, [])
  | f :: fs =>
      let '(rcv, d) := ingest rcv instance (identity f) None in
      let '(rcv, ds) := ingest_all rcv instance fs in
      (rcv, d :: ds)
  end.

(** One round of the exchange: fetch a batch after the receiver's cursor, ingest it,
    acknowledge the last answer. *)
Definition exchange_one_direction (outbox : InMemoryOutbox) (inbound : InboundStream)
    (sender_instance : string) (after_sequence : Z) (max_frames : nat) :
    InMemoryOutbox * InboundStream * result (OutboxError Empty_set) Z :=
  let '(outbox, r) := deliverable outbox after_sequence max_frames in
  match r with
  | Err e => (outbox, inbound, Err e)
  | Ok batch =>
      let '(inbound, ds) := ingest_all inbound sender_instance (batch_frames batch) in
      let acked := default after_sequence (decision_ack <$> last ds) in
      let '(outbox, r) := acknowledge outbox acked in
      (outbox, inbound, r)
  end.

(** [k] rounds, each starting at the receiver's current cursor. *)
Fixpoint exchange_rounds (k : nat) (outbox : InMemoryOutbox) (inbound : InboundStream)
    (instance : string) (max_frames : nat) : InMemoryOutbox * InboundStream :=
  match k with
  | O => (outbox, inbound)
  | S k =>
      let '(outbox, inbound, _) :=
        exchange_one_direction outbox inbound instance (ack_sequence inbound) max_frames in
      exchange_rounds k outbox inbound instance max_frames
  end.

(** The receiver takes frames from this instance. *)
Definition admits (rcv : InboundStream) (instance : string) : Prop :=
  instance_guard rcv = false ∨ current (instances rcv) = None ∨
  current (instances rcv) = Some instance.

Lemma ingest_next rcv instance f :
  inbound_wf rcv → admits rcv instance → frame_shape f → in_u64 (sf_sequence f) →
  sf_sequence f = ack_sequence rcv + 1 →
  let '(rcv', d) := ingest rcv instance (identity f) None in
  d = Accepted (sf_sequence f) Fresh ∧ ack_sequence rcv' = sf_sequence f ∧
  inbound_wf rcv' ∧ admits rcv' instance.
Proof.
  intros Hwf Hadm (Hz & Hm & Hd & _) Hu Hs.
  pose proof (inbound_step_wf rcv (OpIngest instance (identity f) None) Hwf Hu) as Hwf'.
  simpl in Hwf'. rewrite ingest_eq in Hwf' |- * by done.
  assert (malformed (identity f) = false) as Hmal.
  { unfold malformed. simpl. rewrite (proj2 (Z.eqb_neq (sf_sequence f) 0)) by done.
    by rewrite !bool_decide_eq_false_2. }
  assert (∃ t, guard_instance rcv instance = Some t ∧
    (instance_guard rcv = false ∨ current t = Some instance)) as (t & Hg & Ht).
  { unfold guard_instance. destruct (instance_guard rcv) eqn:Hg; [|by eauto].
    destruct Hadm as [?|[Hn|Hn]]; [congruence| |]; rewrite Hn.
    - unfold tracker_observe. rewrite Hn. eauto.
    - rewrite bool_decide_eq_false_2 by (intros Hx; by apply Hx). eauto. }
  rewrite Hmal, Hg in Hwf' |- *. simpl in *.
  rewrite (proj2 (Z.leb_gt (sf_sequence f) _)), (proj2 (Z.eqb_eq (sf_sequence f) _)) in Hwf' |- * by lia.
  simpl in *. split_and!; try done. unfold admits. simpl. naive_solver.
Qed.

Lemma ingest_all_spec rcv instance fs :
  inbound_wf rcv → admits rcv instance → Forall frame_shape fs →
  ack_sequence rcv + Z.of_nat (length fs) ≤ u64_max →
  sf_sequence <$> fs = seqZ (ack_sequence rcv + 1) (Z.of_nat (length fs)) →
  let '(rcv', ds) := ingest_all rcv instance fs in
  inbound_wf rcv' ∧ admits rcv' instance ∧
  ack_sequence rcv' = ack_sequence rcv + Z.of_nat (length fs) ∧
  ds = (λ n, Accepted n Fresh) <$> seqZ (ack_sequence rcv + 1) (Z.of_nat (length fs)).
Proof.
  revert rcv. induction fs as [|f fs IH]; intros rcv Hwf Hadm Hsh Hmax Hseq; simpl in *.
  { split_and!; try done; lia. }
  apply Forall_cons in Hsh as [Hf Hsh].
  rewrite seqZ_cons in Hseq |- * by lia. injection Hseq as Hs Hseq.
  assert (Hu : in_u64 (sf_sequence f)) by (destruct Hwf as [? _]; unfold in_u64; lia).
  pose proof (ingest_next rcv instance f Hwf Hadm Hf Hu Hs) as H.
  destruct (ingest rcv instance (identity f) None) as [rcv1 d].
  destruct H as (-> & Ha & Hwf1 & Hadm1). specialize (IH rcv1 Hwf1 Hadm1 Hsh).
  rewrite Ha, Hs in IH.
  replace (Z.pred (Z.of_nat (S (length fs)))) with (Z.of_nat (length fs)) in * by lia.
  specialize (IH ltac:(lia) Hseq). destruct (ingest_all rcv1 instance fs) as [rcv2 ds].
  destruct IH as (? & ? & Ha2 & ->). split_and!; try done; [lia|]. simpl. by rewrite Hs.
Qed.

Lemma memory_snapshot_of (m : InMemoryOutbox) :
  snapshot_wf (view m) → snapshot_of m = (m, Ok (view m)).
Proof.
  intros Hwf. unfold snapshot_of. simpl.
  by rewrite (wf_validate (default snapshot_default (state m)) Hwf).
Qed.

Lemma memory_acknowledge (m : InMemoryOutbox) a :
  snapshot_wf (view m) → snap_ack (view m) ≤ a ≤ snap_highest (view m) →
  (acknowledge m a).2 = Ok a ∧ view (acknowledge m a).1 = set_ack (view m) a.
Proof.
  intros Hwf Ha. unfold acknowledge. rewrite (memory_snapshot_of m Hwf). cbn [mbind result_bind].
  rewrite (proj2 (Z.ltb_ge (snap_highest _) a)), (proj2 (Z.ltb_ge a _)) by lia.
  cbn [refuse mbind result_bind]. destruct (Z.eqb_spec a (snap_ack (view m))) as [->|Hne].
  - split; [done|]. simpl. by destruct (default _ _).
  - split; [done|]. destruct m as [[s|]]; simpl in *; [done|lia].
Qed.

Lemma memory_deliverable (m : InMemoryOutbox) after n :
  snapshot_wf (view m) → snap_ack (view m) ≤ after ≤ snap_highest (view m) → n ≠ O →
  ∃ b, deliverable m after n = (m, Ok b) ∧
    sf_sequence <$> batch_frames b =
      seqZ (after + 1) (Z.min (Z.of_nat n) (snap_highest (view m) - after)) ∧
    Forall frame_shape (batch_frames b).
Proof.
  intros Hwf Ha Hn. unfold deliverable. rewrite bool_decide_eq_false_2 by done.
  rewrite (memory_snapshot_of m Hwf). cbn [mbind result_bind].
  rewrite (proj2 (Z.ltb_ge (snap_highest _) after)) by lia.
  cbn [refuse mbind result_bind]. eexists. split; [done|]. cbn [batch_frames].
  destruct (Hwf) as [_ _ _ Hret _ Hsh _]. split.
  - rewrite fmap_take, frames_above, take_seqZ by (done || lia). done.
  - by apply Forall_take, Forall_filter.
Qed.

(** What one round does. *)
Lemma exchange_one_direction_spec m rcv instance n :
  snapshot_wf (view m) → inbound_wf rcv → admits rcv instance → n ≠ O →
  snap_ack (view m) ≤ ack_sequence rcv ≤ snap_highest (view m) →
  let '(m', rcv', r) := exchange_one_direction m rcv instance (ack_sequence rcv) n in
  let acked := Z.min (ack_sequence rcv + Z.of_nat n) (snap_highest (view m)) in
  r = Ok acked ∧ ack_sequence rcv' = acked ∧ view m' = set_ack (view m) acked ∧
  inbound_wf rcv' ∧ admits rcv' instance.
Proof.
  intros Hwf Hin Hadm Hn Hr. unfold exchange_one_direction.
  destruct (memory_deliverable m (ack_sequence rcv) n Hwf Hr Hn) as (b & -> & Hseq & Hsh).
  pose proof (wf_highest _ Hwf).
  assert (Hlen : Z.of_nat (length (batch_frames b)) =
            Z.min (Z.of_nat n) (snap_highest (view m) - ack_sequence rcv)).
  { rewrite <-(length_fmap sf_sequence), Hseq, length_seqZ. lia. }
  rewrite <-Hlen in Hseq.
  pose proof (ingest_all_spec rcv instance (batch_frames b) Hin Hadm Hsh ltac:(lia) Hseq) as H'.
  destruct (ingest_all rcv instance (batch_frames b)) as [rcv' ds].
  destruct H' as (Hin' & Hadm' & Ha' & Hds).
  assert (Hacked : default (ack_sequence rcv) (decision_ack <$> last ds) =
            ack_sequence rcv + Z.of_nat (length (batch_frames b))).
  { subst ds. rewrite fmap_last. destruct (decide (length (batch_frames b) = O)) as [Hz|Hz].
    - rewrite Hz. simpl. lia.
    - replace (Z.of_nat (length (batch_frames b)))
        with (Z.of_nat (length (batch_frames b) - 1) + 1) by lia.
      rewrite <-seqZ_snoc, last_snoc by lia. simpl. lia. }
  rewrite Hacked, Hlen.
  replace (Z.min (ack_sequence rcv + Z.of_nat n) (snap_highest (view m)))
    with (ack_sequence rcv + Z.min (Z.of_nat n) (snap_highest (view m) - ack_sequence rcv)) by lia.
  pose proof (memory_acknowledge m (ack_sequence rcv +
    Z.min (Z.of_nat n) (snap_highest (view m) - ack_sequence rcv)) Hwf) as HH. destruct (HH ltac:(lia)) as [H1 H2].
  destruct (acknowledge m _) as [m2 r2]. cbn [fst snd] in H1, H2. rewrite <-Hlen, <-Ha'. rewrite <-Hlen, <-Ha' in H1, H2.
  by split_and!.
Qed.

(** Progress of the exchange: when the receiver takes the sender's instance and lags
    it, every round accepts a full batch, and enough rounds (a batch size times the
    number of rounds covering the lag) bring the receiver and the sender's confirmed
    cursor to the end of the stream. *)
Theorem exchange_catches_up k m rcv instance n :
  snapshot_wf (view m) → inbound_wf rcv → admits rcv instance → n ≠ O →
  snap_ack (view m) ≤ ack_sequence rcv ≤ snap_highest (view m) →
  snap_highest (view m) - ack_sequence rcv ≤ Z.of_nat k * Z.of_nat n →
  (snap_ack (view m) = ack_sequence rcv ∨ k ≠ O) →
  let '(m', rcv') := exchange_rounds k m rcv instance n in
  ack_sequence rcv' = snap_highest (view m) ∧
  snap_ack (view m') = snap_highest (view m) ∧
  snap_highest (view m') = snap_highest (view m).
Proof.
  revert m rcv. induction k as [|k IH]; intros m rcv Hwf Hin Hadm Hn Hr Hk Hor; cbn [exchange_rounds].
  { change (Z.of_nat 0) with 0 in Hk. destruct Hor as [Heq|?]; [|done]. split_and!; [lia|lia|done]. }
  pose proof (exchange_one_direction_spec m rcv instance n Hwf Hin Hadm Hn Hr) as H.
  destruct (exchange_one_direction m rcv instance (ack_sequence rcv) n) as [[m1 rcv1] r].
  destruct H as (_ & Ha & Hv & Hin1 & Hadm1).
  assert (Hwf1 : snapshot_wf (view m1)) by (rewrite Hv; apply set_ack_wf; [done|lia]).
  specialize (IH m1 rcv1 Hwf1 Hin1 Hadm1 Hn). rewrite Hv in IH. cbn [snap_ack snap_highest set_ack] in IH.
  apply IH; [lia|nia|left; lia].
Qed.

(** ** Witnesses *)

(** Three frames sent twice, delivered out of order and repeated; an old and a new
    acknowledgement; compaction in between. *)
Definition sample_run : list ExchangeLabel :=
  [LEnqueue 1 (sample_frame "a" 1); LEnqueue 2 (sample_frame "b" 2);
   LEnqueue 3 (sample_frame "c" 3); LSend 0 3;
   LDeliver 1 "inst" None; LDeliver 0 "inst" None; LDeliver 0 "inst" None;
   LDeliver 1 "inst" None; LAcknowledge 2; LCompactOutbox; LAcknowledge 3;
   LSend 1 8; LCompactDedup 1].

Lemma exchange_exactly_once_witness :
  received (exchange_run (exchange_init memory_new stream_new) sample_run) =
    [identity (sample_frame "a" 1); identity (sample_frame "b" 2)].
Proof.
  assert (Hnew : view memory_new = snapshot_default) by reflexivity.
  rewrite (proj1 (exchange_exactly_once memory_new stream_new sample_run Hnew
    (conj eq_refl eq_refl) ltac:(repeat constructor))).
  vm_compute. reflexivity.
Defined.

Lemma exchange_catches_up_witness :
  let '(m', rcv') := exchange_rounds 2 (from_snapshot sample_snapshot)
                       (inbound_run stream_new [OpIngest "inst" (sample_id 1 "a") None]).1
                       "inst" 1 in
  ack_sequence rcv' = 3 ∧ snap_ack (view m') = 3.
Proof.
  pose proof (exchange_catches_up 2 (from_snapshot sample_snapshot)
    (inbound_run stream_new [OpIngest "inst" (sample_id 1 "a") None]).1 "inst" 1) as H.
  destruct (exchange_rounds _ _ _ _ _) as [m' rcv'].
  destruct H as (H1 & H2 & _).
  - apply validate_wf; [exact sample_snapshot_typed|vm_compute; reflexivity].
  - apply (inbound_step_wf stream_new (OpIngest "inst" (sample_id 1 "a") None) stream_new_wf).
    vm_compute. split; intros [=].
  - right. right. vm_compute. reflexivity.
  - done.
  - vm_compute. split; intros [=].
  - vm_compute. intros [=].
  - right. done.
  - split; [exact H1|exact H2].
Defined.
