(* ===== verification/Replay.v ===== *)
(** * Replay of a worker's events

    Models [crates/winwincode-execution-port/src/replay.rs]: the state machine that takes
    the numbered events of a worker's stream into a store, replays them and records the
    acknowledgement.  The traits [ReplayStore], [ReplayAcknowledgementStore] and
    [ReplayAuthority] are type classes; what the state machine may assume of a store is
    the class [ReplayStoreLaws], which the in-memory store of
    [crates/winwincode-execution-port/tests/runtime_replay.rs] satisfies. *)

From Stdlib Require Import String.
From S2P Require Import Prelude.
Local Open Scope Z_scope.

(** ** Data *)

Record ReplayFrame : Type := {
  event_id : string;
  sequence : Z;
  digest : string;
  frame : list Byte.byte
}.

#[global] Instance ReplayFrame_eq_dec : EqDecision ReplayFrame.
Proof. solve_decision. Defined.

Record ReplaySnapshot : Type := {
  ack_sequence : Z;
  highest_sequence : Z;
  events : list ReplayFrame
}.

Definition snapshot_default : ReplaySnapshot :=
  {| ack_sequence := 0; highest_sequence := 0; events := [] |}.

Inductive ReplayStateError : Type :=
| StateZeroSequence
| StateEmptyEventId
| StateEmptyDigest
| NonContiguous (expected found : Z)
| DuplicateEventId (event_id : string)
| HighestMismatch (stored derived : Z)
| AckExceedsHighest (acknowledged highest : Z)
| SequenceOverflow.

Inductive ReplayInputError : Type :=
| EmptyStream
| EmptyEventId
| ZeroSequence
| EmptyDigest
| ZeroMaxEvents.

Inductive ReplayError (AuthorityError StoreError : Type) : Type :=
| Authority (e : AuthorityError)
| Store (e : StoreError)
| InvalidInput (e : ReplayInputError)
| CorruptState (e : ReplayStateError)
| CursorAhead (requested highest : Z)
| AckAhead (requested highest : Z)
| AckRegression (requested acknowledged : Z).

Arguments Authority {AuthorityError StoreError} e.
Arguments Store {AuthorityError StoreError} e.
Arguments InvalidInput {AuthorityError StoreError} e.
Arguments CorruptState {AuthorityError StoreError} e.
Arguments CursorAhead {AuthorityError StoreError} requested highest.
Arguments AckAhead {AuthorityError StoreError} requested highest.
Arguments AckRegression {AuthorityError StoreError} requested acknowledged.

Inductive ReplayDecision : Type :=
| Accepted (highest : Z)
| Duplicate (highest : Z) (original : ReplayFrame)
| Gap (highest replay_from_sequence : Z)
| Conflict (highest : Z).

Record ReplayBatch : Type := {
  batch_ack_sequence : Z;
  batch_highest_sequence : Z;
  batch_events : list ReplayFrame
}.

Inductive ReplayReadQuery : Type :=
| Watermarks
| QueryConflict (event_id : string) (sequence : Z)
| After (sequence : Z) (max_events : nat).

Definition same_event_identity_and_digest (a b : ReplayFrame) : bool :=
  bool_decide (event_id a = event_id b) && (sequence a =? sequence b) &&
  bool_decide (digest a = digest b).

(** ** Snapshots *)

Definition event_by_id (s : ReplaySnapshot) (i : string) : option ReplayFrame :=
  List.find (λ e, bool_decide (event_id e = i)) (events s).

Definition event_by_sequence (s : ReplaySnapshot) (n : Z) : option ReplayFrame :=
  List.find (λ e, sequence e =? n) (events s).

(** The loop of [validate] over the events. *)
Fixpoint validate_events (expected : Z) (seen : gset string) (es : list ReplayFrame) :
    result ReplayStateError () :=
  match es with
  | [] => Ok tt
  | e :: es =>
      refuse (sequence e =? 0) StateZeroSequence ;;
      refuse (bool_decide (event_id e = ""%string)) StateEmptyEventId ;;
      refuse (bool_decide (digest e = ""%string)) StateEmptyDigest ;;
      refuse (bool_decide (event_id e ∈ seen)) (DuplicateEventId (event_id e)) ;;
      refuse (negb (sequence e =? expected)) (NonContiguous expected (sequence e)) ;;
      expected' ← ok_or (checked_add_u64 expected 1) SequenceOverflow;
      validate_events expected' ({[event_id e]} ∪ seen) es
  end.

Definition first_sequence (s : ReplaySnapshot) : Z := default 1 (sequence <$> head (events s)).

Definition derived_highest (s : ReplaySnapshot) : Z :=
  default (ack_sequence s) (sequence <$> last (events s)).

Definition validate (s : ReplaySnapshot) : result ReplayStateError () :=
  refuse (highest_sequence s <? ack_sequence s)
    (AckExceedsHighest (ack_sequence s) (highest_sequence s)) ;;
  validate_events (first_sequence s) ∅ (events s) ;;
  refuse (match checked_add_u64 (ack_sequence s) 1 with
          | Some first_unacknowledged => first_unacknowledged <? first_sequence s
          | None => false
          end) (NonContiguous (saturating_add_u64 (ack_sequence s) 1) (first_sequence s)) ;;
  refuse (negb (highest_sequence s =? derived_highest s))
    (HighestMismatch (highest_sequence s) (derived_highest s)).

(** ** The traits *)

Class ReplayStore (S E : Type) : Type := {
  load : S → string → S * result E (option ReplaySnapshot);
  load_indexed : S → string → ReplayReadQuery → S * result E (option ReplaySnapshot);
  append : S → string → Z → ReplayFrame → S * result E ()
}.

Class ReplayAcknowledgementStore (S E : Type) `{!ReplayStore S E} : Type :=
  record_acknowledgement : S → string → Z → Z → S * result E ().

Class ReplayAuthority (A Context E : Type) : Type :=
  validate_active_lease : A → string → Context → result E ().

(** ** The state machine *)

Section machine.
Context {S SE A C AE : Type} `{!ReplayStore S SE, !ReplayAcknowledgementStore S SE}.
Context `{!ReplayAuthority A C AE}.

Abbreviation error := (ReplayError AE SE).

Definition validate_frame (stream : string) (f : ReplayFrame) : result ReplayInputError () :=
  refuse (bool_decide (stream = ""%string)) EmptyStream ;;
  refuse (bool_decide (event_id f = ""%string)) EmptyEventId ;;
  refuse (sequence f =? 0) ZeroSequence ;;
  refuse (bool_decide (digest f = ""%string)) EmptyDigest.

Definition load_snapshot (store : S) (stream : string) : S * result error ReplaySnapshot :=
  let '(store, r) := load store stream in
  (store,
   loaded ← map_err Store r;
   let snapshot := default snapshot_default loaded in
   map_err CorruptState (validate snapshot) ;;
   Ok snapshot).

Definition load_selected (store : S) (stream : string) (query : ReplayReadQuery) :
    S * result error ReplaySnapshot :=
  let '(store, r) := load_indexed store stream query in
  match r with
  | Err e => (store, Err (Store e))
  | Ok None => load_snapshot store stream
  | Ok (Some snapshot) =>
      (store,
       refuse (highest_sequence snapshot <? ack_sequence snapshot)
         (CorruptState (AckExceedsHighest (ack_sequence snapshot) (highest_sequence snapshot))) ;;
       Ok snapshot)
  end.

(** [ReplayStore::load_watermarks], the trait's provided method. *)
Definition load_watermarks (store : S) (stream : string) : S * result SE ReplaySnapshot :=
  let '(store, r) := load_indexed store stream Watermarks in
  match r with
  | Err e => (store, Err e)
  | Ok (Some snapshot) => (store, Ok snapshot)
  | Ok None =>
      let '(store, r) := load store stream in
      (store, default snapshot_default <$> r)
  end.

(** What [accept] decides from the snapshot, up to the append. *)
Definition decide_frame (s : ReplaySnapshot) (f : ReplayFrame) :
    result ReplayStateError (option ReplayDecision) :=
  expected ← ok_or (checked_add_u64 (highest_sequence s) 1) SequenceOverflow;
  match event_by_id s (event_id f) with
  | Some original =>
      if same_event_identity_and_digest original f
      then Ok (Some (Duplicate (highest_sequence s) original))
      else Ok (Some (Conflict (highest_sequence s)))
  | None =>
      if event_by_sequence s (sequence f) is Some _ then Ok (Some (Conflict (highest_sequence s)))
      else if expected <? sequence f then Ok (Some (Gap (highest_sequence s) expected))
      else if sequence f <? expected then Ok (Some (Conflict (highest_sequence s)))
      else Ok None
  end.

Definition accept (store : S) (authority : A) (stream : string) (context : C) (f : ReplayFrame) :
    S * result error ReplayDecision :=
  match (map_err Authority (validate_active_lease authority stream context) ;;
         map_err InvalidInput (validate_frame stream f)) with
  | Err e => (store, Err e)
  | Ok _ =>
      let '(store, r) :=
        load_selected store stream (QueryConflict (event_id f) (sequence f)) in
      match r with
      | Err e => (store, Err e)
      | Ok snapshot =>
          match decide_frame snapshot f with
          | Err e => (store, Err (CorruptState e))
          | Ok (Some decision) => (store, Ok decision)
          | Ok None =>
              let '(store, r) := append store stream (highest_sequence snapshot) f in
              (store, map_err Store r ;; Ok (Accepted (sequence f)))
          end
      end
  end.

Definition resume (store : S) (authority : A) (stream : string) (context : C)
    (after_sequence : Z) (max_events : nat) : S * result error ReplayBatch :=
  match (map_err Authority (validate_active_lease authority stream context) ;;
         refuse (max_events =? 0)%nat (InvalidInput ZeroMaxEvents)) with
  | Err e => (store, Err e)
  | Ok _ =>
      let '(store, r) := load_selected store stream (After after_sequence max_events) in
      (store,
       snapshot ← r;
       refuse (highest_sequence snapshot <? after_sequence)
         (CursorAhead after_sequence (highest_sequence snapshot)) ;;
       Ok {| batch_ack_sequence := ack_sequence snapshot;
             batch_highest_sequence := highest_sequence snapshot;
             batch_events := take max_events
               (filter (λ e, after_sequence < sequence e) (events snapshot)) |})
  end.

Definition acknowledge (store : S) (authority : A) (stream : string) (context : C) (ack : Z) :
    S * result error Z :=
  match (map_err Authority (validate_active_lease authority stream context) ;;
         refuse (bool_decide (stream = ""%string)) (InvalidInput EmptyStream)) with
  | Err e => (store, Err e)
  | Ok _ =>
      let '(store, r) := load_selected store stream Watermarks in
      match (snapshot ← r;
             refuse (highest_sequence snapshot <? ack) (AckAhead ack (highest_sequence snapshot)) ;;
             refuse (ack <? ack_sequence snapshot) (AckRegression ack (ack_sequence snapshot)) ;;
             Ok snapshot) with
      | Err e => (store, Err e)
      | Ok snapshot =>
          if ack =? ack_sequence snapshot then (store, Ok ack)
          else
            let '(store, r) := record_acknowledgement store stream (ack_sequence snapshot) ack in
            (store, map_err Store r ;; Ok ack)
      end
  end.
End machine.

(** ** What a store promises *)

(** A partial snapshot that answers a query about [v] as [v] does. *)
Definition selects (q : ReplayReadQuery) (v s : ReplaySnapshot) : Prop :=
  ack_sequence s = ack_sequence v ∧ highest_sequence s = highest_sequence v ∧
  match q with
  | Watermarks => True
  | QueryConflict i n =>
      event_by_id s i = event_by_id v i ∧ event_by_sequence s n = event_by_sequence v n
  | After a m =>
      take m (filter (λ e, a < sequence e) (events s)) =
      take m (filter (λ e, a < sequence e) (events v))
  end.

Definition push_event (v : ReplaySnapshot) (f : ReplayFrame) : ReplaySnapshot :=
  {| ack_sequence := ack_sequence v; highest_sequence := highest_sequence v + 1;
     events := events v ++ [f] |}.

Definition set_ack (v : ReplaySnapshot) (a : Z) : ReplaySnapshot :=
  {| ack_sequence := a; highest_sequence := highest_sequence v; events := events v |}.

(** [store'] holds the streams of [store] but [stream], which holds [v]. *)
Definition updates {S} (view : S → string → ReplaySnapshot) (store : S) (stream : string)
    (v : ReplaySnapshot) (store' : S) : Prop :=
  view store' stream = v ∧ ∀ k, k ≠ stream → view store' k = view store k.

Class ReplayStoreLaws (S E : Type) `{!ReplayStore S E, !ReplayAcknowledgementStore S E} : Type := {
  view : S → string → ReplaySnapshot;
  load_law s k :
    (∀ k', view (load s k).1 k' = view s k') ∧
    ∀ o, (load s k).2 = Ok o → default snapshot_default o = view s k;
  load_indexed_law s k q :
    (∀ k', view (load_indexed s k q).1 k' = view s k') ∧
    ∀ o, (load_indexed s k q).2 = Ok (Some o) → selects q (view s k) o;
  append_law s k h f :
    match (append s k h f).2 with
    | Ok _ => highest_sequence (view s k) = h ∧
              updates view s k (push_event (view s k) f) (append s k h f).1
    | Err _ => updates view s k (view s k) (append s k h f).1
    end;
  record_law s k a n :
    match (record_acknowledgement s k a n).2 with
    | Ok _ => ack_sequence (view s k) = a ∧
              updates view s k (set_ack (view s k) n) (record_acknowledgement s k a n).1
    | Err _ => updates view s k (view s k) (record_acknowledgement s k a n).1
    end
}.

(** ** The invariant of a stream *)

Definition event_shape (e : ReplayFrame) : Prop :=
  event_id e ≠ ""%string ∧ digest e ≠ ""%string.

Definition event_count (s : ReplaySnapshot) : Z := Z.of_nat (length (events s)).

(** The retained events are numbered consecutively up to the highest sequence, reach down
    to the first unacknowledged one and have distinct ids. *)
Record snapshot_wf (s : ReplaySnapshot) : Prop := {
  wf_ack : 0 ≤ ack_sequence s ≤ highest_sequence s;
  wf_sequences :
    sequence <$> events s = seqZ (highest_sequence s - event_count s + 1) (event_count s);
  wf_retained : 0 ≤ highest_sequence s - event_count s ≤ ack_sequence s;
  wf_room : events s ≠ [] → highest_sequence s < u64_max;
  wf_range : highest_sequence s ≤ u64_max;
  wf_shape : Forall event_shape (events s);
  wf_ids : NoDup (event_id <$> events s)
}.

Lemma validate_events_Ok expected seen es u :
  validate_events expected seen es = Ok u ↔
  (es ≠ [] → expected + Z.of_nat (length es) ≤ u64_max) ∧
  sequence <$> es = seqZ expected (Z.of_nat (length es)) ∧
  Forall (λ e, sequence e ≠ 0 ∧ event_shape e) es ∧ NoDup (event_id <$> es) ∧
  Forall (λ e, event_id e ∉ seen) es.
Proof.
  destruct u. revert expected seen. induction es as [|e es IH]; intros expected seen; simpl.
  { split; [intros _|done]. split_and!; try done; constructor. }
  assert (Hlen : Z.of_nat (S (length es)) = 1 + Z.of_nat (length es)) by lia.
  rewrite Hlen, (seqZ_cons expected (1 + _)) by lia.
  rewrite !Forall_cons, NoDup_cons. unfold event_shape at 1. split.
  - intros H. inv_result. apply IH in H as (Hmax & Hseq & Hshape & Hnd & Hseen). split_bools.
    repeat match goal with H : (_ =? _) = _ |- _ => rewrite ?Z.eqb_eq, ?Z.eqb_neq in H end.
    split_and!; try done; try lia.
    + intros _. destruct es; [simpl; lia|]. specialize (Hmax ltac:(done)). lia.
    + f_equal; [lia|]. etrans; [exact Hseq|]. f_equal; lia.
    + intros (g & Hg & Hin)%list_elem_of_fmap.
      apply (proj1 (Forall_forall _ _) Hseen) in Hin. set_solver.
    + eapply Forall_impl; [exact Hseen|]. set_solver.
  - intros (Hmax & Hseq & ((? & ? & ?) & Hshape) & (Hnin & Hnd) & (? & Hseen)).
    injection Hseq as Hs Hseq. specialize (Hmax ltac:(done)).
    rewrite !bool_decide_eq_false_2 by done. simpl.
    rewrite (proj2 (Z.eqb_neq (sequence e) 0)) by done. simpl.
    rewrite (proj2 (Z.eqb_eq (sequence e) expected)) by done. simpl.
    unfold checked_add_u64. rewrite (proj2 (Z.leb_le _ _)) by lia. simpl.
    apply IH. split_and!; try done; try lia.
    + etrans; [exact Hseq|]. f_equal; lia.
    + apply Forall_forall. intros g Hg.
      apply (proj1 (Forall_forall _ _) Hseen) in Hg as Hg'.
      assert (event_id g ≠ event_id e); [|set_solver].
      intros Heq. apply Hnin. rewrite <-Heq. by apply list_elem_of_fmap_2.
Qed.

(** The numbers of a snapshot are [u64]s. *)
Definition snapshot_typed (s : ReplaySnapshot) : Prop :=
  in_u64 (ack_sequence s) ∧ in_u64 (highest_sequence s) ∧
  Forall (λ e, in_u64 (sequence e)) (events s).

Lemma first_derived s :
  events s ≠ [] → sequence <$> events s = seqZ (first_sequence s) (event_count s) →
  derived_highest s = first_sequence s + event_count s - 1.
Proof.
  intros Hne Hseq. destruct (seqZ_ends sequence (events s) _ Hseq Hne) as [_ Hl].
  unfold derived_highest. rewrite Hl. done.
Qed.

Lemma validate_Ok_wf s : snapshot_typed s → validate s = Ok tt → snapshot_wf s.
Proof.
  intros ([Ha1 Ha2] & [Hh1 Hh2] & Hev) H. unfold validate in H. inv_result.
  match goal with H : validate_events _ _ _ = _ |- _ =>
    apply validate_events_Ok in H as (Hroom & Hseq & Hshape & Hnd & _) end.
  split_bools. repeat match goal with H : (_ =? _) = _ |- _ => apply Z.eqb_eq in H
    | H : (_ <? _) = _ |- _ => apply Z.ltb_ge in H end.
  match goal with H : context [checked_add_u64] |- _ => rename H into Hfirst end.
  match goal with H : highest_sequence s = _ |- _ => rename H into Hhigh end.
  fold (event_count s) in Hseq, Hroom.
  destruct (decide (events s = [])) as [E|Hne].
  - unfold derived_highest in Hhigh. rewrite E in Hhigh. simpl in Hhigh.
    constructor; unfold event_count in *; rewrite ?E; simpl; try lia; try constructor.
    intros []; done.
  - pose proof (first_derived s Hne Hseq) as Hd. specialize (Hroom Hne).
    destruct (events s) as [|e es] eqn:Ee; [done|]. unfold first_sequence in *.
    rewrite Ee in *. simpl in *. apply Forall_cons in Hshape as [[Hnz ?] ?].
    apply Forall_cons in Hev as [[? ?] ?].
    assert (Hle : sequence e ≤ ack_sequence s + 1).
    { unfold checked_add_u64 in Hfirst. destruct (Z.leb_spec (ack_sequence s + 1) u64_max); [|lia].
      apply Z.ltb_ge in Hfirst. lia. }
    constructor; rewrite ?Ee; try done; try lia.
    + rewrite fmap_cons. etrans; [exact Hseq|]. f_equal. lia.
    + constructor; [done|]. eapply Forall_impl; [done|]. by intros ? [_ ?].
Qed.

Lemma wf_validate_Ok s : snapshot_wf s → validate s = Ok tt.
Proof.
  intros [Hack Hseq Hret Hroom Hrange Hshape Hids]. unfold validate.
  rewrite (proj2 (Z.ltb_ge _ _)) by lia. simpl.
  destruct (decide (events s = [])) as [E|Hne].
  - assert (event_count s = 0) as Hn by (unfold event_count; by rewrite E).
    unfold first_sequence, derived_highest. rewrite E. simpl.
    assert (highest_sequence s = ack_sequence s) as -> by lia. rewrite Z.eqb_refl.
    unfold checked_add_u64. destruct (ack_sequence s + 1 <=? u64_max); [|done].
    by rewrite (proj2 (Z.ltb_ge (ack_sequence s + 1) 1)) by lia.
  - destruct (seqZ_ends sequence (events s) _ Hseq Hne) as [Hh Hl]. fold (event_count s) in Hl.
    unfold first_sequence, derived_highest. rewrite Hh, Hl. simpl. specialize (Hroom Hne).
    rewrite (proj2 (validate_events_Ok _ _ _ tt)).
    2: { fold (event_count s). split_and!; [lia|done| |done|].
         - apply Forall_forall. intros e He. split; [|by apply (proj1 (Forall_forall _ _) Hshape)].
           assert (sequence e ∈ seqZ (highest_sequence s - event_count s + 1) (event_count s)) as H.
           { rewrite <-Hseq. by apply list_elem_of_fmap_2. }
           apply elem_of_seqZ in H. lia.
         - apply Forall_forall. set_solver. }
    simpl. unfold checked_add_u64.
    rewrite (proj2 (Z.leb_le _ _)), (proj2 (Z.ltb_ge _ _)), (proj2 (Z.eqb_eq _ _)) by lia. done.
Qed.

(** ** The decision, stated on the stream *)

Definition spec_decision (v : ReplaySnapshot) (f : ReplayFrame) : ReplayDecision :=
  match event_by_id v (event_id f) with
  | Some original =>
      if same_event_identity_and_digest original f then Duplicate (highest_sequence v) original
      else Conflict (highest_sequence v)
  | None =>
      if sequence f =? highest_sequence v + 1 then Accepted (sequence f)
      else if highest_sequence v + 1 <? sequence f
      then Gap (highest_sequence v) (highest_sequence v + 1)
      else Conflict (highest_sequence v)
  end.

Lemma find_none_Forall {A} (p : A → bool) l : List.find p l = None ↔ Forall (λ x, p x = false) l.
Proof.
  induction l as [|x l IH]; simpl; [by split; [constructor|]|]. rewrite Forall_cons.
  destruct (p x); naive_solver.
Qed.

(** A sequence above the highest is not stored. *)
Lemma event_by_sequence_above v n :
  snapshot_wf v → highest_sequence v < n → event_by_sequence v n = None.
Proof.
  intros Hwf Hn. apply find_none_Forall, Forall_forall. intros e He. apply Z.eqb_neq.
  assert (sequence e ∈ seqZ (highest_sequence v - event_count v + 1) (event_count v)) as H.
  { rewrite <-(wf_sequences _ Hwf). by apply list_elem_of_fmap_2. }
  apply elem_of_seqZ in H. lia.
Qed.

(** The code's tests, on any snapshot that answers the query as the stream does. *)
Lemma decide_frame_spec v s f d :
  snapshot_wf v → selects (QueryConflict (event_id f) (sequence f)) v s →
  decide_frame s f = Ok d →
  match d with
  | Some d => d = spec_decision v f ∧ ∀ n, d ≠ Accepted n
  | None => spec_decision v f = Accepted (sequence f) ∧ sequence f = highest_sequence v + 1 ∧
            event_by_id v (event_id f) = None
  end.
Proof.
  intros Hwf (_ & Hhigh & Hid & Hseq). unfold decide_frame, spec_decision.
  rewrite Hhigh, Hid, Hseq. intros H. inv_result.
  match goal with H : _ + 1 ≤ u64_max |- _ => rename H into Hroom end.
  destruct (event_by_id v (event_id f)) as [o|].
  { destruct (same_event_identity_and_digest o f); inv_result; done. }
  destruct (Z.eqb_spec (sequence f) (highest_sequence v + 1)) as [E|E].
  - rewrite event_by_sequence_above in H by (done || lia).
    rewrite !(proj2 (Z.ltb_ge _ _)) in H by lia. inv_result. done.
  - destruct (Z.ltb_spec (highest_sequence v + 1) (sequence f)).
    + rewrite event_by_sequence_above in H by (done || lia). inv_result. done.
    + rewrite (proj2 (Z.ltb_lt _ _)) in H by lia.
      destruct (event_by_sequence v (sequence f)); inv_result; done.
Qed.

Lemma decide_frame_error s f e :
  decide_frame s f = Err e → e = SequenceOverflow ∧ u64_max < highest_sequence s + 1.
Proof.
  unfold decide_frame, checked_add_u64. destruct (Z.leb_spec (highest_sequence s + 1) u64_max); simpl.
  - intros H1. repeat (case_match; simplify_eq/=).
  - by intros [= <-].
Qed.

Lemma push_event_wf v f :
  snapshot_wf v → event_shape f → event_by_id v (event_id f) = None →
  sequence f = highest_sequence v + 1 → sequence f < u64_max → snapshot_wf (push_event v f).
Proof.
  intros [Hack Hseq Hret Hroom Hrange Hshape Hids] Hf Hid Hs Hmax.
  assert (Hc : event_count (push_event v f) = event_count v + 1).
  { unfold event_count. simpl. rewrite length_app. simpl. lia. }
  constructor; rewrite ?Hc; simpl; try lia.
  - rewrite fmap_app, Hseq. simpl. rewrite Hs.
    replace (highest_sequence v + 1 - (event_count v + 1) + 1)
      with (highest_sequence v - event_count v + 1) by lia.
    rewrite <-seqZ_snoc by (unfold event_count; lia). do 2 f_equal. lia.
  - apply Forall_app. split; [done|]. by constructor.
  - rewrite fmap_app. apply NoDup_app. split_and!; [done| |].
    + intros i (e & -> & He)%list_elem_of_fmap. simpl. intros Hi%list_elem_of_singleton.
      apply find_none_Forall, (proj1 (Forall_forall _ _)) with (x := e) in Hid; [|done].
      by apply bool_decide_eq_false in Hid.
    + apply NoDup_singleton.
Qed.

Lemma set_ack_snapshot_wf v a :
  snapshot_wf v → ack_sequence v ≤ a ≤ highest_sequence v → snapshot_wf (set_ack v a).
Proof.
  intros [Hack Hseq Hret Hroom Hrange Hshape Hids] Ha.
  constructor; unfold event_count in *; simpl in *; (done || lia).
Qed.

Lemma default_wf : snapshot_wf snapshot_default.
Proof. constructor; unfold event_count, u64_max; simpl; try lia; try done; constructor. Qed.

(** ** The state machine over any lawful store *)

Section machine_facts.
Context {S SE A C AE : Type} `{!ReplayStore S SE, !ReplayAcknowledgementStore S SE}.
Context `{!ReplayStoreLaws S SE, !ReplayAuthority A C AE}.

Definition same_view (s s' : S) : Prop := ∀ k, view s' k = view s k.

Lemma load_selected_law (s : S) k q :
  same_view s (load_selected (AE := AE) s k q).1 ∧
  ∀ o, (load_selected (AE := AE) s k q).2 = Ok o → selects q (view s k) o.
Proof.
  unfold load_selected. destruct (load_indexed_law s k q) as [Hv Ho].
  destruct (load_indexed s k q) as [s1 [[o|]|e]]; simpl in *; [| |by split].
  - split; [done|]. intros o' H. inv_result. by apply Ho.
  - unfold load_snapshot. destruct (load_law s1 k) as [Hv1 Ho1].
    destruct (load s1 k) as [s2 r]. simpl in *. split; [intros k'; by rewrite Hv1|].
    intros o H. inv_result. erewrite <-Hv, <-Ho1 by done.
    destruct q; unfold selects; split_and!; done.
Qed.

(** A valid stream is never reported corrupt: only the store's own failures are errors. *)
Lemma load_selected_error (s : S) k q e :
  snapshot_wf (view s k) → (load_selected (AE := AE) s k q).2 = Err e → ∃ x, e = Store x.
Proof.
  intros Hwf. unfold load_selected. destruct (load_indexed_law s k q) as [Hv Ho].
  destruct (load_indexed s k q) as [s1 [[o|]|x]]; simpl in *; [| |intros [= <-]; by eexists].
  - destruct (Ho o eq_refl) as (-> & -> & _). pose proof (wf_ack _ Hwf).
    by rewrite (proj2 (Z.ltb_ge _ _)) by lia.
  - unfold load_snapshot. destruct (load_law s1 k) as [_ Ho1].
    destruct (load s1 k) as [s2 [o|x]]; simpl in *; [|intros [= <-]; by eexists].
    rewrite (Ho1 o eq_refl), Hv, (wf_validate_Ok _ Hwf). done.
Qed.

(** Why [accept] fails. *)
Definition accept_error_reason (v : ReplaySnapshot) auth k ctx f (e : ReplayError AE SE) : Prop :=
  match e with
  | Authority x => validate_active_lease auth k ctx = Err x
  | InvalidInput x => validate_active_lease auth k ctx = Ok tt ∧ validate_frame k f = Err x
  | CorruptState x => x = SequenceOverflow ∧ highest_sequence v = u64_max
  | Store _ => True
  | _ => False
  end.

Lemma accept_cases (s : S) auth k ctx f s' r :
  snapshot_wf (view s k) → accept (AE := AE) s auth k ctx f = (s', r) →
  match r with
  | Ok (Accepted n) =>
      validate_active_lease auth k ctx = Ok tt ∧ validate_frame k f = Ok tt ∧
      Accepted n = spec_decision (view s k) f ∧ n = highest_sequence (view s k) + 1 ∧
      n = sequence f ∧ event_by_id (view s k) (event_id f) = None ∧
      updates view s k (push_event (view s k) f) s'
  | Ok d => d = spec_decision (view s k) f ∧ same_view s s'
  | Err e => same_view s s' ∧ accept_error_reason (view s k) auth k ctx f e
  end.
Proof.
  intros Hwf. unfold accept. destruct (validate_active_lease auth k ctx) as [[]|e] eqn:El;
    [|by intros [= <- <-]]. simpl.
  destruct (validate_frame k f) as [[]|e] eqn:Ef; [|by intros [= <- <-]]. simpl.
  destruct (load_selected_law s k (QueryConflict (event_id f) (sequence f))) as [Hv Ho].
  pose proof (load_selected_error s k (QueryConflict (event_id f) (sequence f))) as He.
  destruct (load_selected s k _) as [s1 [sn|e]]; simpl in Hv, Ho, He;
    [|destruct (He e Hwf eq_refl) as [x ->]; by intros [= <- <-]].
  specialize (Ho sn eq_refl).
  destruct (decide_frame sn f) as [[d|]|e] eqn:Ed; [| |].
  - intros [= <- <-]. apply (decide_frame_spec _ _ _ _ Hwf Ho) in Ed as [-> Hna].
    destruct (spec_decision (view s k) f); try done. by destruct (Hna highest).
  - apply (decide_frame_spec _ _ _ _ Hwf Ho) in Ed as (Hsp & Hseq & Hid).
    pose proof (append_law s1 k (highest_sequence sn) f) as Happ.
    destruct (append s1 k (highest_sequence sn) f) as [s2 [[]|e]]; simpl in *.
    + intros [= <- <-]. destruct Happ as (_ & Hup & Hoth). rewrite Hv in Hup.
      split_and!; try done. split; [done|]. intros k' Hk'. by rewrite Hoth, Hv.
    + intros [= <- <-]. destruct Happ as [Hup Hoth]. split; [|done]. intros k'.
      destruct (decide (k' = k)) as [->|Hne]; [by rewrite Hup, Hv|by rewrite Hoth, Hv].
  - intros [= <- <-]. split; [done|]. apply decide_frame_error in Ed as [-> Hh].
    destruct Ho as (_ & Hsn & _). split; [done|]. rewrite Hsn in Hh.
    pose proof (wf_range _ Hwf). pose proof (wf_ack _ Hwf). lia.
Qed.

(** C34. Acceptance refines the stream's contract, whatever index the store answers from:
    an event is accepted exactly when it carries a new id and the next sequence number, and
    is then appended to its stream and to no other; an event already stored with the same
    id, sequence and digest is a duplicate, a later sequence a gap from the next one, and
    anything else a conflict, all without a change.  A refused lease, a malformed event, the
    store's own failure and a stream at the last sequence number are the only errors, and
    they change nothing. *)
Theorem accept_refines (s : S) auth k ctx f s' r :
  snapshot_wf (view s k) → accept (AE := AE) s auth k ctx f = (s', r) →
  match r with
  | Ok d => d = spec_decision (view s k) f ∧
      match d with
      | Accepted _ => updates view s k (push_event (view s k) f) s'
      | _ => same_view s s'
      end
  | Err e => same_view s s' ∧ accept_error_reason (view s k) auth k ctx f e
  end.
Proof.
  intros Hwf Ha. apply (accept_cases _ _ _ _ _ _ _ Hwf) in Ha.
  destruct r as [[]|]; naive_solver.
Qed.

(** The events of a stream numbered from [after + 1], at most [max] of them. *)
Definition next_events (v : ReplaySnapshot) (after : Z) (max : nat) (es : list ReplayFrame) : Prop :=
  es `prefix_of` drop (Z.to_nat (after - (highest_sequence v - event_count v))) (events v) ∧
  sequence <$> es = seqZ (after + 1) (Z.min (Z.of_nat max) (highest_sequence v - after)).

Lemma next_events_filter v after max :
  snapshot_wf v → ack_sequence v ≤ after ≤ highest_sequence v →
  next_events v after max (take max (filter (λ e, after < sequence e) (events v))).
Proof.
  intros Hwf Hafter. pose proof (wf_sequences _ Hwf) as Hseq. pose proof (wf_retained _ Hwf) as Hret.
  assert (Hfilter : filter (λ e, after < sequence e) (events v) =
    drop (Z.to_nat (after - (highest_sequence v - event_count v))) (events v)).
  { rewrite (filter_numbered _ _ _ _ Hseq). do 2 f_equal. lia. }
  split.
  - rewrite Hfilter. apply prefix_take.
  - rewrite fmap_take, <-(filter_fmap (λ n, after < n) sequence), Hseq.
    rewrite filter_gt_seqZ, take_seqZ by (unfold event_count in *; lia). f_equal. lia.
Qed.

(** Why [resume] fails. *)
Definition resume_error_reason (v : ReplaySnapshot) auth k ctx after max (e : ReplayError AE SE) :
    Prop :=
  match e with
  | Authority x => validate_active_lease auth k ctx = Err x
  | InvalidInput x => x = ZeroMaxEvents ∧ max = 0%nat
  | CursorAhead a h => a = after ∧ h = highest_sequence v ∧ h < a
  | Store _ => True
  | _ => False
  end.

(** Resuming returns exactly the next events: from a cursor at or above the
    acknowledgement, the batch holds the events numbered from the cursor's successor,
    consecutively, up to the highest sequence or the page size, with the stream's
    watermarks.  It fails only for a refused lease, an empty page, a cursor beyond the
    highest sequence or a failure of the store, and never changes a stream. *)
Theorem resume_exact (s : S) auth k ctx after max s' r :
  snapshot_wf (view s k) → ack_sequence (view s k) ≤ after →
  resume (AE := AE) s auth k ctx after max = (s', r) →
  same_view s s' ∧
  match r with
  | Ok batch =>
      next_events (view s k) after max (batch_events batch) ∧
      batch_highest_sequence batch = highest_sequence (view s k) ∧
      batch_ack_sequence batch = ack_sequence (view s k)
  | Err e => resume_error_reason (view s k) auth k ctx after max e
  end.
Proof.
  intros Hwf Hafter. unfold resume.
  destruct (validate_active_lease auth k ctx) as [[]|e] eqn:El; [|by intros [= <- <-]]. simpl.
  destruct (Nat.eqb_spec max 0) as [->|]; [by intros [= <- <-]|]. simpl.
  destruct (load_selected_law s k (After after max)) as [Hv Ho].
  pose proof (load_selected_error s k (After after max)) as He.
  destruct (load_selected s k _) as [s1 [sn|e]]; simpl in Hv, Ho, He; intros [= <- <-];
    [|by destruct (He e Hwf eq_refl) as [x ->]].
  specialize (Ho sn eq_refl) as (Ha & Hh & Hev). split; [done|]. simpl. rewrite Hh.
  destruct (Z.ltb_spec (highest_sequence (view s k)) after); [done|]. simpl.
  rewrite Hev, Ha. split_and!; [apply next_events_filter; [done|lia]|done..].
Qed.

(** ** Runs *)

Inductive ReplayOp : Type :=
| OpAccept (stream : string) (context : C) (f : ReplayFrame)
| OpResume (stream : string) (context : C) (after : Z) (max : nat)
| OpAcknowledge (stream : string) (context : C) (ack : Z).

Definition replay_step (auth : A) (s : S) (op : ReplayOp) : S :=
  match op with
  | OpAccept k ctx f => (accept (AE := AE) s auth k ctx f).1
  | OpResume k ctx a m => (resume (AE := AE) s auth k ctx a m).1
  | OpAcknowledge k ctx a => (acknowledge (AE := AE) s auth k ctx a).1
  end.

Definition replay_run (auth : A) (s : S) (ops : list ReplayOp) : S :=
  foldl (replay_step auth) s ops.

(** The last [u64] is not used as a sequence number. *)
Definition op_in_range (op : ReplayOp) : Prop :=
  match op with OpAccept _ _ f => sequence f < u64_max | _ => True end.

(** What an operation guarantees of a stream. *)
Definition stream_le (v v' : ReplaySnapshot) : Prop :=
  events v `prefix_of` events v' ∧ highest_sequence v ≤ highest_sequence v' ∧
  ack_sequence v ≤ ack_sequence v'.

#[local] Instance stream_le_preorder : PreOrder stream_le.
Proof.
  split; [intros v; split_and!; (done || lia)|].
  intros v1 v2 v3 (? & ? & ?) (? & ? & ?). split_and!; [by etrans|lia..].
Qed.

Lemma acknowledge_cases (s : S) auth k ctx a s' r :
  acknowledge (AE := AE) s auth k ctx a = (s', r) →
  same_view s s' ∨
  ack_sequence (view s k) ≤ a ≤ highest_sequence (view s k) ∧ r = Ok a ∧
  updates view s k (set_ack (view s k) a) s'.
Proof.
  unfold acknowledge. destruct (validate_active_lease auth k ctx) as [[]|e];
    [|intros [= <- _]; by left]. simpl.
  destruct (bool_decide (k = ""%string)); [intros [= <- _]; by left|]. simpl.
  destruct (load_selected_law s k Watermarks) as [Hv Ho].
  destruct (load_selected s k Watermarks) as [s1 [sn|e]]; [|intros [= <- _]; by left].
  simpl in Hv, Ho. specialize (Ho sn eq_refl) as (Ha & Hh & _). simpl. rewrite Ha, Hh.
  destruct (Z.ltb_spec (highest_sequence (view s k)) a); [intros [= <- _]; by left|]. simpl.
  destruct (Z.ltb_spec a (ack_sequence (view s k))); [intros [= <- _]; by left|]. simpl.
  rewrite Ha. destruct (a =? ack_sequence (view s k)); [intros [= <- _]; by left|].
  pose proof (record_law s1 k (ack_sequence (view s k)) a) as Hrec.
  destruct (record_acknowledgement s1 k _ a) as [s2 [[]|e]]; simpl in *; intros [= <- <-].
  - right. destruct Hrec as (_ & Hup & Hoth). rewrite Hv in Hup. split; [lia|]. split; [done|].
    split; [done|]. intros k' Hk'. by rewrite Hoth, Hv.
  - left. destruct Hrec as [Hup Hoth]. intros k'.
    destruct (decide (k' = k)) as [->|Hne]; [by rewrite Hup, Hv|by rewrite Hoth, Hv].
Qed.

Lemma updates_wf (s s' : S) k v :
  updates view s k v s' → (∀ k, snapshot_wf (view s k)) → snapshot_wf v → stream_le (view s k) v →
  ∀ k', snapshot_wf (view s' k') ∧ stream_le (view s k') (view s' k').
Proof.
  intros [Hk Hoth] Hwf Hv Hle k'. destruct (decide (k' = k)) as [->|Hne].
  - by rewrite Hk.
  - by rewrite Hoth.
Qed.

Lemma same_view_wf (s s' : S) :
  same_view s s' → (∀ k, snapshot_wf (view s k)) →
  ∀ k', snapshot_wf (view s' k') ∧ stream_le (view s k') (view s' k').
Proof. intros Hs Hwf k'. by rewrite Hs. Qed.

Lemma replay_step_wf auth (s : S) op :
  op_in_range op → (∀ k, snapshot_wf (view s k)) →
  ∀ k, snapshot_wf (view (replay_step auth s op) k) ∧
       stream_le (view s k) (view (replay_step auth s op) k).
Proof.
  intros Hop Hwf. destruct op as [k ctx f|k ctx a m|k ctx a]; simpl.
  - destruct (accept s auth k ctx f) as [s' r] eqn:E.
    apply (accept_cases _ _ _ _ _ _ _ (Hwf k)) in E. simpl.
    destruct r as [[n|n o|n m|n]|e]; try (apply same_view_wf; [apply E|done]).
    destruct E as (_ & Hf & _ & -> & Hn & Hid & Hup). apply (updates_wf _ _ _ _ Hup Hwf).
    + unfold validate_frame in Hf. inv_result. split_bools.
      by apply push_event_wf.
    + split_and!; simpl; [by eexists|lia..].
  - unfold resume. repeat (case_match; simplify_eq/=); try (by apply same_view_wf).
    match goal with H : load_selected s k ?q = _ |- _ =>
      pose proof (proj1 (load_selected_law s k q)) as Hv; rewrite H in Hv end.
    by apply same_view_wf.
  - destruct (acknowledge s auth k ctx a) as [s' r] eqn:E. simpl.
    apply acknowledge_cases in E as [E|(Ha & _ & Hup)]; [by apply same_view_wf|].
    apply (updates_wf _ _ _ _ Hup Hwf); [by apply set_ack_snapshot_wf|].
    split_and!; simpl; [done|lia..].
Qed.

(** Every run keeps the streams sound: each stream stays valid (numbered without gaps
    up to its highest sequence, ids distinct, acknowledgement at most the highest), its
    stored events are never changed, reordered or removed, and its watermarks never go
    back. *)
Theorem replay_run_sound auth (s : S) ops :
  Forall op_in_range ops → (∀ k, snapshot_wf (view s k)) →
  ∀ k, validate (view (replay_run auth s ops) k) = Ok tt ∧
       events (view s k) `prefix_of` events (view (replay_run auth s ops) k) ∧
       highest_sequence (view s k) ≤ highest_sequence (view (replay_run auth s ops) k) ∧
       ack_sequence (view s k) ≤ ack_sequence (view (replay_run auth s ops) k).
Proof.
  intros Hops Hwf k.
  cut (snapshot_wf (view (replay_run auth s ops) k) ∧
       stream_le (view s k) (view (replay_run auth s ops) k)).
  { intros [H Hle]. split; [by apply wf_validate_Ok|done]. }
  revert s Hwf. induction Hops as [|op ops Hop _ IH]; intros s Hwf; simpl; [done|].
  pose proof (replay_step_wf auth s op Hop Hwf) as Hs.
  destruct (IH (replay_step auth s op)) as [H1 H2]; [intros k'; apply Hs|].
  split; [done|]. etrans; [apply Hs|done].
Qed.
End machine_facts.

(** ** The in-memory store *)

Module Memory.

Record MemoryStore : Type := {
  snapshots : gmap string ReplaySnapshot;
  loads : Z;
  writes : Z
}.

Definition memory_view (s : MemoryStore) (k : string) : ReplaySnapshot :=
  default snapshot_default (snapshots s !! k).

Definition memory_load (s : MemoryStore) (k : string) :
    MemoryStore * result string (option ReplaySnapshot) :=
  ({| snapshots := snapshots s; loads := loads s + 1; writes := writes s |},
   Ok (snapshots s !! k)).

(** [entry(stream).or_default()], then the checks. *)
Definition memory_append (s : MemoryStore) (k : string) (expected : Z) (f : ReplayFrame) :
    MemoryStore * result string () :=
  let snapshot := memory_view s k in
  if negb (highest_sequence snapshot =? expected)
  then ({| snapshots := <[k := snapshot]> (snapshots s); loads := loads s; writes := writes s |},
        Err "replay highest sequence changed"%string)
  else ({| snapshots := <[k := push_event snapshot f]> (snapshots s); loads := loads s;
           writes := writes s + 1 |}, Ok tt).

Definition memory_record (s : MemoryStore) (k : string) (expected ack : Z) :
    MemoryStore * result string () :=
  match snapshots s !! k with
  | None => (s, Err "replay stream missing"%string)
  | Some snapshot =>
      if negb (ack_sequence snapshot =? expected)
      then (s, Err "replay acknowledgement changed"%string)
      else if highest_sequence snapshot <? ack
      then (s, Err "replay acknowledgement exceeds retained range"%string)
      else ({| snapshots := <[k := set_ack snapshot ack]> (snapshots s); loads := loads s;
               writes := writes s + 1 |}, Ok tt)
  end.

#[global] Instance memory_store : ReplayStore MemoryStore string := {
  load := memory_load;
  load_indexed s _ _ := (s, Ok None);
  append := memory_append
}.

#[global] Instance memory_ack_store : ReplayAcknowledgementStore MemoryStore string :=
  memory_record.

#[global] Instance memory_laws : ReplayStoreLaws MemoryStore string.
Proof.
  refine {| view := memory_view |}.
  - intros s k. split; [done|]. simpl. by intros o [= <-].
  - intros s k q. by split.
  - intros s k h f. simpl. unfold memory_append.
    destruct (Z.eqb_spec (highest_sequence (memory_view s k)) h); simpl.
    + split; [done|]. unfold updates, memory_view. simpl. split; [by rewrite lookup_insert_eq|].
      intros k' Hk'. by rewrite lookup_insert_ne.
    + unfold updates, memory_view. simpl. split; [by rewrite lookup_insert_eq|].
      intros k' Hk'. by rewrite lookup_insert_ne.
  - intros s k a n. simpl. unfold record_acknowledgement, memory_ack_store, memory_record.
    destruct (snapshots s !! k) as [snapshot|] eqn:Hk; simpl; [|by split].
    destruct (Z.eqb_spec (ack_sequence snapshot) a); simpl; [|by split].
    destruct (highest_sequence snapshot <? n); simpl; [by split|].
    unfold updates, memory_view. simpl. rewrite Hk, lookup_insert_eq. simpl.
    split_and!; [done..|]. intros k' Hk'. by rewrite lookup_insert_ne.
Defined.

(** An authority that always agrees. *)
#[global] Instance open_authority : ReplayAuthority () () () := λ _ _ _, Ok tt.

End Memory.

(** ** Witnesses *)

Definition sample_event (i : string) (n : Z) : ReplayFrame :=
  {| event_id := i; sequence := n; digest := "sha256:0"%string; frame := [] |}.

Definition empty_store : Memory.MemoryStore :=
  {| Memory.snapshots := ∅; Memory.loads := 0; Memory.writes := 0 |}.

Definition sample_ops : list (ReplayOp (C := ())) :=
  [OpAccept "job"%string () (sample_event "a" 1); OpAccept "job"%string () (sample_event "b" 2);
   OpAccept "job"%string () (sample_event "b" 2); OpAccept "job"%string () (sample_event "d" 4);
   OpAcknowledge "job"%string () 1; OpAccept "job"%string () (sample_event "c" 3)].

Definition sample_store : Memory.MemoryStore := replay_run (AE := ()) () empty_store sample_ops.

Lemma empty_store_wf k : snapshot_wf (view empty_store k).
Proof.
  change (view empty_store k) with (default snapshot_default ((∅ : gmap string ReplaySnapshot) !! k)).
  rewrite lookup_empty. apply default_wf.
Qed.

Lemma replay_run_sound_witness :
  validate (view sample_store "job"%string) = Ok tt ∧
  highest_sequence (view sample_store "job"%string) = 3.
Proof.
  split; [|vm_compute; reflexivity].
  apply (replay_run_sound (AE := ()) () empty_store sample_ops); [|intros k; apply empty_store_wf].
  unfold sample_ops, op_in_range, u64_max. repeat constructor; simpl; lia.
Defined.

Lemma accept_refines_witness :
  (accept (AE := ()) empty_store () "job"%string () (sample_event "z" 2)).2 = Ok (Gap 0 1).
Proof.
  destruct (accept (AE := ()) empty_store () "job"%string () (sample_event "z" 2)) as [s' r] eqn:E.
  pose proof (accept_refines (AE := ()) empty_store () "job"%string () (sample_event "z" 2) s' r
    (empty_store_wf _) E) as H.
  assert (r = Ok (Gap 0 1)) as -> by (vm_compute in E; injection E as _ <-; reflexivity).
  exact (f_equal Ok (proj1 H)).
Defined.

Definition sample_batch : ReplayBatch :=
  {| batch_ack_sequence := 1; batch_highest_sequence := 3;
     batch_events := [sample_event "b" 2; sample_event "c" 3] |}.

Lemma resume_exact_witness :
  (resume (AE := ()) sample_store () "job"%string () 1 10).2 = Ok sample_batch ∧
  sequence <$> batch_events sample_batch = seqZ 2 2.
Proof.
  assert (E : resume (AE := ()) sample_store () "job"%string () 1 10 =
    ((resume (AE := ()) sample_store () "job"%string () 1 10).1, Ok sample_batch))
    by (vm_compute; reflexivity).
  split; [exact (f_equal snd E)|].
  refine (proj2 (proj1 (proj2 (resume_exact (AE := ()) sample_store () "job"%string () 1 10 _
    (Ok sample_batch) _ _ E)))); [|vm_compute; discriminate].
  apply validate_Ok_wf; [|vm_compute; reflexivity].
  assert (view sample_store "job"%string = {| ack_sequence := 1; highest_sequence := 3;
    events := [sample_event "a" 1; sample_event "b" 2; sample_event "c" 3] |}) as ->
    by (vm_compute; reflexivity).
  unfold snapshot_typed, in_u64, u64_max. simpl. split_and!; try lia.
  repeat (apply Forall_cons; split; [simpl; lia|]). apply Forall_nil; exact I.
Defined.
