(* ===== verification/Text.v ===== *)
(** * Text: the byte-level predicates the components validate with

    Strings are Rust [String]s, kept as their UTF-8 bytes.  The file models what the
    source uses of the standard library ([str::strip_prefix], [chars().count()],
    [u8::is_ascii_digit], comparison of [String]s) and the canonical identifier of
    [crates/winwincode-domain/src/lib.rs], which the session crate repeats. *)

From Stdlib Require Import Ascii String.
From S2P Require Import Prelude.
Local Open Scope Z_scope.

(** ** Bytes *)

Definition byte_val (c : ascii) : Z := Z.of_N (N_of_ascii c).

Definition in_range (lo hi : Z) (c : ascii) : bool :=
  (lo <=? byte_val c) && (byte_val c <=? hi).

Definition is_ascii_digit (c : ascii) : bool := in_range 48 57 c.

Definition is_ascii_upper (c : ascii) : bool := in_range 65 90 c.

Definition is_ascii_lower (c : ascii) : bool := in_range 97 122 c.

Definition is_ascii_alphanumeric (c : ascii) : bool :=
  is_ascii_digit c || is_ascii_upper c || is_ascii_lower c.

(** A UTF-8 continuation byte, [10xxxxxx]. *)
Definition is_continuation (c : ascii) : bool := in_range 128 191 c.

(** ** Strings *)

Definition bytes (s : string) : list ascii := list_ascii_of_string s.

(** [str::len], in bytes. *)
Definition str_len (s : string) : Z := Z.of_nat (String.length s).

(** [chars().count()]: the bytes that start a character. *)
Definition chars_count (s : string) : Z :=
  Z.of_nat (length (List.filter (λ c, negb (is_continuation c)) (bytes s))).

(** [str::strip_prefix]. *)
Fixpoint strip_prefix (p s : string) : option string :=
  match p, s with
  | EmptyString, _ => Some s
  | String a p, String b s => if Ascii.eqb a b then strip_prefix p s else None
  | String _ _, EmptyString => None
  end.

Definition all_bytes (p : ascii → bool) (s : string) : bool := forallb p (bytes s).

(** [String]s compare by their bytes. *)
Definition str_ltb (a b : string) : bool :=
  match String.compare a b with Lt => true | _ => false end.

Definition str_leb (a b : string) : bool := negb (str_ltb b a).

(** [str::starts_with]. *)
Definition starts_with (p s : string) : bool := bool_decide (is_Some (strip_prefix p s)).

(** [str::split_once]. *)
Fixpoint split_once (c : ascii) (s : string) : option (string * string) :=
  match s with
  | EmptyString => None
  | String x s =>
      if Ascii.eqb x c then Some (EmptyString, s)
      else match split_once c s with Some (a, b) => Some (String x a, b) | None => None end
  end.

Definition one_of (chars : string) (c : ascii) : bool := existsb (Ascii.eqb c) (bytes chars).

(** [s.trim().is_empty()]: every character has the property [White_Space]. *)
Fixpoint all_whitespace (s : list Z) : bool :=
  match s with
  | [] => true
  | 226 :: 128 :: b :: s => ((128 <=? b) && (b <=? 138) || (b =? 168) || (b =? 169) || (b =? 175)) && all_whitespace s
  | 226 :: 129 :: 159 :: s => all_whitespace s
  | 225 :: 154 :: 128 :: s => all_whitespace s
  | 227 :: 128 :: 128 :: s => all_whitespace s
  | 194 :: b :: s => ((b =? 133) || (b =? 160)) && all_whitespace s
  | b :: s => ((9 <=? b) && (b <=? 13) || (b =? 32)) && all_whitespace s
  end.

Definition blank (s : string) : bool := all_whitespace (byte_val <$> bytes s).

(** [n] copies of a character, for fixtures. *)
Definition repeated (n : nat) (a : ascii) : string := string_of_list_ascii (replicate n a).

(** ** Canonical identifiers *)

(** Crockford base 32: digits and the capitals without I, L, O and U. *)
Definition base32_byte (c : ascii) : bool :=
  is_ascii_digit c || in_range 65 72 c || in_range 74 75 c || in_range 77 78 c ||
  in_range 80 84 c || in_range 86 90 c.

Definition is_canonical_prefixed_id (value prefix : string) : bool :=
  match strip_prefix prefix value with
  | Some identifier => (str_len identifier =? 26) && all_bytes base32_byte identifier
  | None => false
  end.

Definition is_canonical_delivery_id (value : string) : bool :=
  is_canonical_prefixed_id value "dlv_".

(** ** Instants *)

(** The byte that position [i] of an instant must hold: [None] is a digit. *)
Definition instant_mark (i : nat) : option Z :=
  match i with
  | 4%nat | 7%nat => Some 45
  | 10%nat => Some 84
  | 13%nat | 16%nat => Some 58
  | 19%nat => Some 46
  | 23%nat => Some 90
  | _ => None
  end.

Definition instant_byte (i : nat) (c : ascii) : bool :=
  match instant_mark i with
  | Some b => byte_val c =? b
  | None => is_ascii_digit c
  end.

(** [YYYY-MM-DDTHH:MM:SS.mmmZ], by shape. *)
Definition instant_shape (s : string) : bool :=
  (str_len s =? 24) && forallb (λ '(i, c), instant_byte i c) (imap pair (bytes s)).

(** ** Digests *)

Definition is_hex_lower (c : ascii) : bool := is_ascii_digit c || in_range 97 102 c.

Definition sha256_shape (s : string) : bool :=
  match strip_prefix "sha256:" s with
  | Some hex => (str_len hex =? 64) && all_bytes is_hex_lower hex
  | None => false
  end.

(** ** Lemmas *)

Lemma strip_prefix_Some p s r : strip_prefix p s = Some r ↔ s = (p ++ r)%string.
Proof.
  revert s. induction p as [|a p IH]; intros s; simpl; [naive_solver|].
  destruct s as [|b s]; [naive_solver|]. destruct (Ascii.eqb_spec a b) as [->|Hne].
  - rewrite IH. split; [by intros ->|by intros [= ->]].
  - split; [done|by intros [= ? _]].
Qed.

Lemma str_len_app a b : str_len (a ++ b) = str_len a + str_len b.
Proof.
  unfold str_len. rewrite <-Nat2Z.inj_add. f_equal.
  induction a as [|c a IH]; simpl; [done|]. by rewrite IH.
Qed.

(** A canonical identifier has the length of its prefix plus 26. *)
Lemma canonical_id_length value prefix :
  is_canonical_prefixed_id value prefix = true → str_len value = str_len prefix + 26.
Proof.
  unfold is_canonical_prefixed_id. case_match eqn:E; [|done]. intros H. split_bools.
  apply strip_prefix_Some in E as ->. rewrite str_len_app. lia.
Qed.

Lemma str_append_assoc (a b c : string) : ((a ++ b) ++ c = a ++ (b ++ c))%string.
Proof. induction a as [|x a IH]; [done|]. exact (f_equal (String x) IH). Qed.

Lemma str_append_nil_r (a : string) : (a ++ "")%string = a.
Proof. induction a as [|x a IH]; [done|]. exact (f_equal (String x) IH). Qed.

Lemma str_append_inj_l (a b c d : string) :
  str_len a = str_len c → (a ++ b)%string = (c ++ d)%string → a = c ∧ b = d.
Proof.
  unfold str_len. revert c. induction a as [|x a IH]; intros [|y c] Hlen Heq; simpl in *;
    try lia; [done|].
  injection Heq as -> Heq. destruct (IH c) as [-> ->]; [lia|done|done].
Qed.

Lemma str_append_inj_r (a b c d : string) :
  str_len b = str_len d → (a ++ b)%string = (c ++ d)%string → a = c ∧ b = d.
Proof.
  intros Hlen Heq. apply str_append_inj_l; [|done].
  apply (f_equal str_len) in Heq. rewrite !str_len_app in Heq. lia.
Qed.

(** *** The order on strings *)

Lemma byte_val_inj a b : byte_val a = byte_val b → a = b.
Proof.
  unfold byte_val. intros H. apply N2Z.inj in H.
  by rewrite <-(ascii_N_embedding a), <-(ascii_N_embedding b), H.
Qed.

Lemma str_ltb_cons a s b t :
  str_ltb (String a s) (String b t) =
    (byte_val a <? byte_val b) || ((byte_val a =? byte_val b) && str_ltb s t).
Proof.
  unfold str_ltb, byte_val. simpl. unfold Ascii.compare.
  destruct (N.compare_spec (N_of_ascii a) (N_of_ascii b)) as [E|E|E].
  - rewrite E, Z.ltb_irrefl, Z.eqb_refl. done.
  - rewrite (proj2 (Z.ltb_lt _ _)) by lia. done.
  - rewrite (proj2 (Z.ltb_ge _ _)), (proj2 (Z.eqb_neq _ _)) by lia. done.
Qed.

Lemma str_ltb_irrefl a : str_ltb a a = false.
Proof.
  induction a as [|c a IH]; [done|]. by rewrite str_ltb_cons, Z.ltb_irrefl, Z.eqb_refl, IH.
Qed.

Lemma str_ltb_trans a b c : str_ltb a b = true → str_ltb b c = true → str_ltb a c = true.
Proof.
  revert b c. induction a as [|x a IH]; intros [|y b] [|z c]; try done.
  rewrite !str_ltb_cons, !orb_true_iff, !andb_true_iff, !Z.ltb_lt, !Z.eqb_eq.
  intros [?|[? Hab]] [?|[? Hbc]]; [left; lia..|].
  right. split; [lia|]. by apply (IH b).
Qed.

Lemma str_total a b : str_ltb a b = true ∨ a = b ∨ str_ltb b a = true.
Proof.
  revert b. induction a as [|x a IH]; intros [|y b]; [by right; left|by left|by right; right|].
  rewrite !str_ltb_cons, !orb_true_iff, !andb_true_iff, !Z.ltb_lt, !Z.eqb_eq.
  destruct (Z.lt_trichotomy (byte_val x) (byte_val y)) as [?|[Hxy|?]]; [by left; left| |by right; right; left].
  apply byte_val_inj in Hxy as ->. destruct (IH b) as [?|[->|?]]; [left; by right|by right; left|].
  right; right; by right.
Qed.

Lemma str_ltb_asym a b : str_ltb a b = true → str_ltb b a = false.
Proof.
  intros Hab. destruct (str_ltb b a) eqn:Hba; [|done].
  pose proof (str_ltb_trans _ _ _ Hab Hba) as H. by rewrite str_ltb_irrefl in H.
Qed.

Lemma str_leb_trans a b c : str_leb a b = true → str_leb b c = true → str_leb a c = true.
Proof.
  unfold str_leb. rewrite !negb_true_iff. intros Hab Hbc.
  destruct (str_ltb c a) eqn:Hca; [|done].
  destruct (str_total b c) as [H|[->|H]]; [|congruence|congruence].
  by rewrite (str_ltb_trans b c a) in Hab.
Qed.

Lemma str_leb_total a b : str_leb a b = true ∨ str_leb b a = true.
Proof.
  unfold str_leb. rewrite !negb_true_iff.
  destruct (str_ltb b a) eqn:H; [right; by apply str_ltb_asym|by left].
Qed.

Lemma str_leb_antisym a b : str_leb a b = true → str_leb b a = true → a = b.
Proof.
  unfold str_leb. rewrite !negb_true_iff. intros Hba Hab.
  by destruct (str_total a b) as [?|[?|?]]; [congruence| |congruence].
Qed.
