(* ===== verification/Numerals.v ===== *)
(** * Numerals: printing and reading unsigned integers

    [u64]'s [Display] (base 10) and the lower-case hexadecimal of [\u{...}] escapes,
    [str::parse::<u64>], and on top of them the wire form of the occupancy fencing token,
    [crates/winwincode-client-port/src/wire.rs]. *)

From Stdlib Require Import Ascii String.
From S2P Require Import Prelude Text.
Local Open Scope Z_scope.

(** ** Definitions *)

Definition byte_of (z : Z) : ascii := ascii_of_N (Z.to_N z).

Definition digit_char (d : Z) : ascii := byte_of (if d <? 10 then 48 + d else 87 + d).

Definition digit_val (base : Z) (c : ascii) : option Z :=
  let d := if is_ascii_digit c then byte_val c - 48
           else if is_ascii_lower c then byte_val c - 87 else base in
  if d <? base then Some d else None.

Fixpoint radix_go (base : Z) (fuel : nat) (n : Z) (acc : string) : string :=
  match fuel with
  | O => acc
  | S fuel =>
      if n <? base then String (digit_char n) acc
      else radix_go base fuel (n / base) (String (digit_char (n mod base)) acc)
  end.

(** Halving reaches zero within [log2 n + 1] steps, and the base is at least 2. *)
Definition radix (base n : Z) : string := radix_go base (S (Z.to_nat (Z.log2 n))) n "".

(** [u64]'s [Display]. *)
Definition decimal (n : Z) : string := radix 10 n.

(** Reads the longest prefix of digits, onto [acc]. *)
Fixpoint read_radix (base acc : Z) (s : string) : Z * string :=
  match s with
  | EmptyString => (acc, s)
  | String c s' =>
      match digit_val base c with
      | Some d => read_radix base (acc * base + d) s'
      | None => (acc, s)
      end
  end.

(** The loop of [str::parse::<u64>] over the digits: multiply, then add, both checked. *)
Fixpoint parse_u64_go (acc : Z) (s : string) : option Z :=
  match s with
  | EmptyString => Some acc
  | String c s' =>
      match digit_val 10 c with
      | None => None
      | Some d =>
          if acc * 10 <=? u64_max then
            match checked_add_u64 (acc * 10) d with
            | Some acc' => parse_u64_go acc' s'
            | None => None
            end
          else None
      end
  end.

(** [str::parse::<u64>] for text without a sign: empty text is an error. *)
Definition parse_u64 (s : string) : option Z :=
  match s with EmptyString => None | _ => parse_u64_go 0 s end.

(** *** The fencing token on the wire *)

Inductive TokenError : Type :=
| TokenShape (text : string)
| TokenRange (text : string).

(** [1-9][0-9]{0,19}. *)
Definition token_shape (text : string) : bool :=
  match text with
  | EmptyString => false
  | String first rest =>
      in_range 49 57 first && (str_len text <=? 20) && all_bytes is_ascii_digit rest
  end.

Definition parse_token (text : string) : result TokenError Z :=
  refuse (negb (token_shape text)) (TokenShape text) ;;
  ok_or (parse_u64 text) (TokenRange text).

(** [serialize]: [None] is the serialiser's error for the token 0. *)
Definition serialize_token (token : Z) : option string :=
  if token =? 0 then None else Some (decimal token).

(** ** Lemmas *)

Lemma byte_val_byte_of z : 0 ≤ z < 256 → byte_val (byte_of z) = z.
Proof.
  intros Hz. unfold byte_val, byte_of. rewrite N_ascii_embedding by lia. lia.
Qed.

Lemma byte_of_byte_val c : byte_of (byte_val c) = c.
Proof. unfold byte_val, byte_of. by rewrite N2Z.id, ascii_N_embedding. Qed.

Lemma byte_val_bound c : 0 ≤ byte_val c < 256.
Proof. unfold byte_val. pose proof (N_ascii_bounded c). lia. Qed.

Lemma in_range_iff lo hi c : in_range lo hi c = true ↔ lo ≤ byte_val c ≤ hi.
Proof. unfold in_range. rewrite andb_true_iff. lia. Qed.

Section base.
Context (base : Z) (Hbase : 2 ≤ base ≤ 36).

Lemma digit_val_char d : 0 ≤ d < base → digit_val base (digit_char d) = Some d.
Proof.
  intros Hd. unfold digit_val, digit_char, is_ascii_digit, is_ascii_lower, in_range.
  destruct (Z.ltb_spec d 10); rewrite byte_val_byte_of by lia.
  - rewrite (proj2 (Z.leb_le 48 (48 + d))), (proj2 (Z.leb_le (48 + d) 57)) by lia. simpl.
    rewrite (proj2 (Z.ltb_lt _ _)) by lia. f_equal. lia.
  - rewrite (proj2 (Z.leb_gt (87 + d) 57)), andb_false_r by lia.
    rewrite (proj2 (Z.leb_le 97 (87 + d))), (proj2 (Z.leb_le (87 + d) 122)) by lia. simpl.
    rewrite (proj2 (Z.ltb_lt _ _)) by lia. f_equal. lia.
Qed.

Lemma digit_val_Some c d : digit_val base c = Some d → 0 ≤ d < base ∧ digit_char d = c.
Proof.
  unfold digit_val, is_ascii_digit, is_ascii_lower.
  destruct (in_range 48 57 c) eqn:E1; [|destruct (in_range 97 122 c) eqn:E2];
    (case_match eqn:E3; [|done]); intros [= <-]; apply Z.ltb_lt in E3; [..|lia].
  - apply in_range_iff in E1. split; [lia|]. unfold digit_char.
    rewrite (proj2 (Z.ltb_lt _ _)) by lia.
    replace (48 + (byte_val c - 48)) with (byte_val c) by lia. apply byte_of_byte_val.
  - apply in_range_iff in E2. split; [lia|]. unfold digit_char.
    rewrite (proj2 (Z.ltb_ge _ _)) by lia.
    replace (87 + (byte_val c - 87)) with (byte_val c) by lia. apply byte_of_byte_val.
Qed.

Lemma div_base_lt n fuel :
  base ≤ n < 2 ^ Z.of_nat (S fuel) → 1 ≤ n / base < 2 ^ Z.of_nat fuel.
Proof.
  intros Hn. rewrite Nat2Z.inj_succ, Z.pow_succ_r in Hn by lia. split.
  - apply Z.div_le_lower_bound; lia.
  - apply Z.div_lt_upper_bound; [lia|]. nia.
Qed.

Lemma radix_go_read fuel n acc :
  0 ≤ n < 2 ^ Z.of_nat fuel → fuel ≠ 0%nat →
  read_radix base 0 (radix_go base fuel n acc) = read_radix base n acc.
Proof.
  revert n acc. induction fuel as [|fuel IH]; intros n acc Hn Hf; [done|]. simpl.
  destruct (Z.ltb_spec n base).
  - simpl. by rewrite digit_val_char by lia.
  - pose proof (div_base_lt n fuel) as Hd. rewrite IH.
    + simpl. rewrite digit_val_char by (apply Z.mod_pos_bound; lia).
      f_equal. pose proof (Z.div_mod n base). lia.
    + lia.
    + intros ->. change (2 ^ Z.of_nat 0) with 1 in Hd. lia.
Qed.

Lemma radix_go_app fuel n acc r :
  (radix_go base fuel n acc ++ r = radix_go base fuel n (acc ++ r))%string.
Proof.
  revert n acc. induction fuel as [|fuel IH]; intros n acc; [done|]. simpl.
  destruct (n <? base); [done|]. by rewrite IH.
Qed.

Lemma radix_go_fuel fuel fuel' n acc :
  0 ≤ n < 2 ^ Z.of_nat fuel → n < 2 ^ Z.of_nat fuel' → fuel ≠ 0%nat → fuel' ≠ 0%nat →
  radix_go base fuel n acc = radix_go base fuel' n acc.
Proof.
  revert fuel' n acc. induction fuel as [|fuel IH]; intros [|fuel'] n acc H1 H2 H3 H4;
    try done. simpl. destruct (Z.ltb_spec n base); [done|].
  pose proof (div_base_lt n fuel) as D1. pose proof (div_base_lt n fuel') as D2.
  apply IH; [lia|lia|intros ->|intros ->];
    [change (2 ^ Z.of_nat 0) with 1 in D1|change (2 ^ Z.of_nat 0) with 1 in D2]; lia.
Qed.

Lemma log2_fuel n : 0 ≤ n → n < 2 ^ Z.of_nat (S (Z.to_nat (Z.log2 n))).
Proof.
  intros Hn. rewrite Nat2Z.inj_succ, Z2Nat.id by apply Z.log2_nonneg.
  destruct (decide (n = 0)) as [->|]; [done|]. apply Z.log2_spec. lia.
Qed.

(** Reading back a printed number, with what follows it. *)
Lemma read_radix_print n r :
  0 ≤ n → read_radix base 0 (radix base n ++ r) = read_radix base n r.
Proof.
  intros Hn. unfold radix. rewrite radix_go_app. apply radix_go_read; [|done].
  pose proof (log2_fuel n Hn). lia.
Qed.

Lemma radix_step n d :
  1 ≤ n → 0 ≤ d < base →
  radix base (n * base + d) = (radix base n ++ String (digit_char d) "")%string.
Proof.
  intros Hn Hd. unfold radix at 1. set (m := n * base + d).
  assert (Hm : base ≤ m) by (unfold m; nia). simpl.
  rewrite (proj2 (Z.ltb_ge _ _)) by lia.
  assert (m / base = n) as ->.
  { unfold m. rewrite Z.div_add_l, Z.div_small by lia. lia. }
  assert (m mod base = d) as ->.
  { unfold m. rewrite Z.add_comm, Z.mod_add, Z.mod_small by lia. done. }
  unfold radix. rewrite radix_go_app. simpl (("" ++ _)%string).
  pose proof (log2_fuel n ltac:(lia)) as HL.
  assert (HF : n < 2 ^ Z.of_nat (Z.to_nat (Z.log2 m))).
  { rewrite Z2Nat.id by apply Z.log2_nonneg.
    pose proof (proj2 (Z.log2_spec m ltac:(lia))) as HH. rewrite Z.pow_succ_r in HH
      by apply Z.log2_nonneg. unfold m in *. nia. }
  apply radix_go_fuel; [lia|done| |done].
  intros E. rewrite E in HF. change (2 ^ Z.of_nat 0) with 1 in HF. lia.
Qed.

Lemma radix_small d : 0 ≤ d < base → radix base d = String (digit_char d) "".
Proof. intros Hd. unfold radix. simpl. by rewrite (proj2 (Z.ltb_lt _ _)) by lia. Qed.

(** Printing back a number read from digits alone. *)
Lemma radix_read n s m :
  1 ≤ n → read_radix base n s = (m, ""%string) → radix base m = (radix base n ++ s)%string ∧ n ≤ m.
Proof.
  revert n. induction s as [|c s IH]; intros n Hn; simpl.
  - intros [= <-]. split; [|lia]. by rewrite str_append_nil_r.
  - destruct (digit_val base c) as [d|] eqn:Ed; [|done]. intros Hr.
    apply digit_val_Some in Ed as [Hd Hc].
    destruct (IH (n * base + d)) as [-> Hle]; [nia|done|]. split; [|nia].
    rewrite radix_step by lia. rewrite Hc, str_append_assoc. done.
Qed.

(** A number is delimited by any character that is not a digit. *)
Lemma radix_delimited n1 n2 c1 c2 r1 r2 :
  0 ≤ n1 → 0 ≤ n2 → digit_val base c1 = None → digit_val base c2 = None →
  (radix base n1 ++ String c1 r1 = radix base n2 ++ String c2 r2)%string →
  n1 = n2 ∧ String c1 r1 = String c2 r2.
Proof.
  intros H1 H2 Hc1 Hc2 Heq. apply (f_equal (read_radix base 0)) in Heq.
  rewrite !read_radix_print in Heq by done. simpl in Heq. rewrite Hc1, Hc2 in Heq.
  by injection Heq as -> -> ->.
Qed.
End base.

Lemma digit_val_digit c : is_Some (digit_val 10 c) ↔ is_ascii_digit c = true.
Proof.
  unfold digit_val, is_ascii_digit, is_ascii_lower. destruct (in_range 48 57 c) eqn:E1.
  - apply in_range_iff in E1. rewrite (proj2 (Z.ltb_lt _ _)) by lia. split; eauto.
  - destruct (in_range 97 122 c) eqn:E2.
    + apply in_range_iff in E2. rewrite (proj2 (Z.ltb_ge _ _)) by lia.
      split; [by intros []|done].
    + simpl. split; [by intros []|done].
Qed.

(** The checked loop computes the value of the digits when it fits, and only then. *)
Lemma parse_u64_go_Some acc s n :
  0 ≤ acc ≤ u64_max →
  parse_u64_go acc s = Some n ↔ read_radix 10 acc s = (n, ""%string) ∧ n ≤ u64_max.
Proof.
  revert acc. induction s as [|c s IH]; intros acc Hacc; simpl; [naive_solver|].
  destruct (digit_val 10 c) as [d|] eqn:Ed; [|naive_solver].
  apply (digit_val_Some 10) in Ed as [Hd _].
  assert (Hgrow : ∀ a s n, 0 ≤ a → read_radix 10 a s = (n, ""%string) → a ≤ n).
  { clear. intros a s. revert a. induction s as [|c s IH]; intros a n Ha; simpl.
    - intros [= <-]. lia.
    - destruct (digit_val 10 c) as [d|] eqn:Ed; [|done]. intros Hr.
      apply (digit_val_Some 10) in Ed as [Hd _]. apply IH in Hr; lia. }
  destruct (Z.leb_spec (acc * 10) u64_max).
  - destruct (checked_add_u64 (acc * 10) d) as [a|] eqn:Ea.
    + apply checked_add_u64_Some in Ea as [-> Ha]. apply IH. lia.
    + apply checked_add_u64_None in Ea. split; [done|]. intros [Hr Hn].
      apply Hgrow in Hr; lia.
  - split; [done|]. intros [Hr Hn]. apply Hgrow in Hr; lia.
Qed.

Lemma decimal_digits n : 0 ≤ n → all_bytes is_ascii_digit (decimal n) = true.
Proof.
  intros Hn. unfold decimal, radix.
  cut (∀ fuel m acc, 0 ≤ m → all_bytes is_ascii_digit acc = true →
         all_bytes is_ascii_digit (radix_go 10 fuel m acc) = true); [auto|].
  assert (Hdig : ∀ d, 0 ≤ d < 10 → is_ascii_digit (digit_char d) = true).
  { intros d Hd. apply digit_val_digit. rewrite (digit_val_char 10) by lia. eauto. }
  unfold all_bytes. induction fuel as [|fuel IH]; intros m acc Hm Hacc; simpl; [done|].
  destruct (Z.ltb_spec m 10); simpl; [by rewrite Hdig|].
  apply IH; [apply Z.div_pos; lia|]. simpl. by rewrite Hdig by (apply Z.mod_pos_bound; lia).
Qed.

(** ** Properties *)

Lemma token_digits text n :
  token_shape text = true → parse_u64 text = Some n → text = decimal n ∧ 1 ≤ n ≤ u64_max.
Proof.
  destruct text as [|c s]; [done|]. unfold token_shape. intros Hs Hp. split_bools.
  unfold parse_u64 in Hp. apply parse_u64_go_Some in Hp as [Hr Hn]; [|unfold u64_max; lia].
  simpl in Hr. destruct (digit_val 10 c) as [d|] eqn:Ed.
  2: { apply eq_None_not_Some in Ed. destruct Ed. apply digit_val_digit.
       apply in_range_iff. match goal with H : in_range 49 57 c = true |- _ =>
         apply in_range_iff in H; lia end. }
  pose proof Ed as Ed'. apply digit_val_Some in Ed' as [Hd Hc]. rewrite Z.mul_0_l, Z.add_0_l in Hr.
  assert (Hd1 : 1 ≤ d).
  { match goal with H : in_range 49 57 c = true |- _ => apply in_range_iff in H end.
    rewrite <-Hc in *. unfold digit_char in *. rewrite (proj2 (Z.ltb_lt d 10)) in * by lia.
    rewrite byte_val_byte_of in * by lia. lia. }
  destruct (radix_read 10 ltac:(lia) d s n Hd1 Hr) as [Hp Hle]. split; [|lia].
  unfold decimal. rewrite Hp, radix_small by lia. by rewrite Hc.
Qed.

Lemma decimal_shape (k : nat) n :
  1 ≤ n < 10 ^ Z.of_nat k →
  ∃ c s, decimal n = String c s ∧ in_range 49 57 c = true ∧
         str_len (decimal n) ≤ Z.of_nat k ∧ all_bytes is_ascii_digit s = true.
Proof.
  revert n. induction k as [|k IH]; intros n Hn.
  { change (10 ^ Z.of_nat 0) with 1 in Hn. lia. }
  destruct (decide (n < 10)).
  - exists (digit_char n), ""%string. unfold decimal. rewrite radix_small by lia.
    split_and!; [done| |unfold str_len; simpl; lia|done].
    apply in_range_iff. unfold digit_char. rewrite (proj2 (Z.ltb_lt n 10)) by lia.
    rewrite byte_val_byte_of by lia. lia.
  - rewrite Nat2Z.inj_succ, Z.pow_succ_r in Hn by lia.
    destruct (IH (n / 10)) as (c & s & Hcs & Hc & Hlen & _).
    { split; [apply Z.div_le_lower_bound; lia|apply Z.div_lt_upper_bound; lia]. }
    pose proof (decimal_digits n ltac:(lia)) as Hdig. unfold decimal in *.
    assert (1 ≤ n / 10) by (apply Z.div_le_lower_bound; lia).
    pose proof (Z.mod_pos_bound n 10). pose proof (Z.div_mod n 10) as Hdm.
    set (q := n / 10) in *. set (d := n mod 10) in *. clearbody q d.
    assert (n = q * 10 + d) as -> by lia. rewrite radix_step in * by lia. rewrite Hcs in *.
    exists c, (s ++ String (digit_char d) "")%string.
    split_and!; [done|done| |].
    + rewrite str_len_app. unfold str_len in *. simpl in *. lia.
    + unfold all_bytes in *. by apply andb_true_iff in Hdig as [_ ?].
Qed.

(** The fencing token's wire form is a bijection: every non-zero [u64] serialises to
    text that parses back to it, and any text that parses is exactly the text its value
    serialises to, so no two texts denote one token. *)
Theorem fencing_token_roundtrip :
  (∀ n, 1 ≤ n ≤ u64_max →
     ∃ text, serialize_token n = Some text ∧ parse_token text = Ok n) ∧
  (∀ text n, parse_token text = Ok n → serialize_token n = Some text ∧ 1 ≤ n ≤ u64_max).
Proof.
  split.
  - intros n Hn. exists (decimal n). split.
    { unfold serialize_token. by rewrite (proj2 (Z.eqb_neq n 0)) by lia. }
    destruct (decimal_shape 20 n) as (c & s & Hcs & Hc & Hlen & Hdig).
    { unfold u64_max in Hn. change (10 ^ Z.of_nat 20) with 100000000000000000000. lia. }
    unfold parse_token, token_shape, parse_u64. rewrite Hcs, Hc, Hdig. rewrite <-Hcs.
    rewrite (proj2 (Z.leb_le _ _)) by lia. simpl. apply ok_or_Ok.
    apply parse_u64_go_Some; [unfold u64_max; lia|]. split; [|lia].
    rewrite <-(str_append_nil_r (decimal n)). unfold decimal. by rewrite read_radix_print by lia.
  - intros text n Hp. unfold parse_token in Hp. inv_result. split_bools.
    destruct (token_digits text n) as [-> Hn]; [done..|]. split; [|done].
    unfold serialize_token. by rewrite (proj2 (Z.eqb_neq n 0)) by lia.
Qed.

(** ** Witness *)

Lemma fencing_token_roundtrip_witness :
  serialize_token u64_max = Some "18446744073709551615"%string ∧
  1 ≤ u64_max ≤ u64_max.
Proof.
  apply (proj2 fencing_token_roundtrip "18446744073709551615"%string u64_max).
  vm_compute. reflexivity.
Defined.
