(* ===== verification/DebugFmt.v ===== *)
(** * DebugFmt: the text Rust's [{:?}] prints

    The session crate compares requests by a fingerprint printed with [Debug].  This file
    models what [Debug] prints for strings (core's [escape_debug]: the escapes of tab,
    newline, carriage return, NUL, quote and backslash, [\u{...}] for characters the
    Unicode tables do not print) and shows that the printed text determines the string and
    where it ends.  The Unicode tables of core (grapheme extenders and unprintable
    characters) are a parameter. *)

From Stdlib Require Import Ascii String.
From S2P Require Import Prelude Text Numerals.
Local Open Scope Z_scope.

(** ** UTF-8 *)

(** A Unicode scalar value. *)
Definition is_char (c : Z) : bool :=
  (0 <=? c) && (c <=? 1114111) && negb ((55296 <=? c) && (c <=? 57343)).

Definition encode_char (c : Z) : string :=
  if c <? 128 then String (byte_of c) ""
  else if c <? 2048 then
    String (byte_of (192 + c / 64)) (String (byte_of (128 + c mod 64)) "")
  else if c <? 65536 then
    String (byte_of (224 + c / 4096))
      (String (byte_of (128 + (c / 64) mod 64)) (String (byte_of (128 + c mod 64)) ""))
  else
    String (byte_of (240 + c / 262144))
      (String (byte_of (128 + (c / 4096) mod 64))
        (String (byte_of (128 + (c / 64) mod 64)) (String (byte_of (128 + c mod 64)) ""))).

Definition encode_chars (cs : list Z) : string := foldr (λ c s, encode_char c ++ s)%string "" cs.

(** The first character of a string, and the rest. *)
Definition decode_char (s : string) : option (Z * string) :=
  match s with
  | EmptyString => None
  | String b0 s1 =>
      let v0 := byte_val b0 in
      if v0 <? 128 then Some (v0, s1) else
      match s1 with
      | EmptyString => None
      | String b1 s2 =>
          let v1 := byte_val b1 - 128 in
          if v0 <? 224 then Some ((v0 - 192) * 64 + v1, s2) else
          match s2 with
          | EmptyString => None
          | String b2 s3 =>
              let v2 := byte_val b2 - 128 in
              if v0 <? 240 then Some (((v0 - 224) * 64 + v1) * 64 + v2, s3) else
              match s3 with
              | EmptyString => None
              | String b3 s4 =>
                  Some ((((v0 - 240) * 64 + v1) * 64 + v2) * 64 + (byte_val b3 - 128), s4)
              end
          end
      end
  end.

(** [str::chars]; [None] when the bytes are not UTF-8, which a Rust [str] never is. *)
Fixpoint chars_fuel (fuel : nat) (s : string) : option (list Z) :=
  match fuel with
  | O => match s with EmptyString => Some [] | _ => None end
  | S fuel =>
      match s with
      | EmptyString => Some []
      | _ =>
          '(c, rest) ← decode_char s;
          if is_char c && bool_decide (s = (encode_char c ++ rest)%string)
          then cons c <$> chars_fuel fuel rest else None
      end
  end.

Definition chars (s : string) : option (list Z) := chars_fuel (String.length s) s.

Definition utf8 (s : string) : Prop := is_Some (chars s).

(** ** [Debug] for strings *)

Definition quote : ascii := byte_of 34.
Definition backslash : ascii := byte_of 92.

Section debug.
(** The characters from 128 on that core escapes: grapheme extenders and the characters
    its table does not print. *)
Context (unicode_escaped : Z → bool).

Definition escape (c : ascii) : string := String backslash (String c "").

Definition needs_unicode_escape (c : Z) : bool :=
  if c <? 128 then (c <? 32) || (c =? 127) else unicode_escaped c.

Definition char_debug (c : Z) : string :=
  if c =? 0 then escape "0"
  else if c =? 9 then escape "t"
  else if c =? 10 then escape "n"
  else if c =? 13 then escape "r"
  else if c =? 34 then escape quote
  else if c =? 92 then escape backslash
  else if needs_unicode_escape c
  then (escape "u" ++ String "{" (radix 16 c ++ String "}" ""))%string
  else encode_char c.

Definition debug_body (cs : list Z) : string := foldr (λ c s, char_debug c ++ s)%string "" cs.

Definition debug_str (s : string) : string :=
  match chars s with
  | Some cs => String quote (debug_body cs ++ String quote "")
  | None => ""
  end.

(** Reads one printed character. *)
Definition undebug (s : string) : option (Z * string) :=
  match s with
  | EmptyString => None
  | String b s1 =>
      if byte_val b =? 92 then
        match s1 with
        | String k s2 =>
            match byte_val k with
            | 48 => Some (0, s2) | 116 => Some (9, s2) | 110 => Some (10, s2)
            | 114 => Some (13, s2) | 34 => Some (34, s2) | 92 => Some (92, s2)
            | _ => match s2 with
                   | String _ s3 => match read_radix 16 0 s3 with
                                    | (c, String _ s4) => Some (c, s4)
                                    | _ => None
                                    end
                   | EmptyString => None
                   end
            end
        | EmptyString => None
        end
      else decode_char s
  end.

(** ** Lemmas *)

Lemma decode_encode_char c r :
  is_char c = true → decode_char (encode_char c ++ r) = Some (c, r).
Proof.
  unfold is_char. intros Hc. split_bools. unfold encode_char.
  assert (0 ≤ c ≤ 1114111) as Hb by lia.
  pose proof (Z.mod_pos_bound c 64). pose proof (Z.mod_pos_bound (c / 64) 64).
  pose proof (Z.mod_pos_bound (c / 4096) 64).
  pose proof (Z.div_mod c 64). pose proof (Z.div_mod (c / 64) 64).
  pose proof (Z.div_mod (c / 4096) 64).
  rewrite Z.div_div in * by lia. change (64 * 64) with 4096 in *. change (4096 * 64) with 262144 in *.
  destruct (Z.ltb_spec c 128); [|destruct (Z.ltb_spec c 2048); [|destruct (Z.ltb_spec c 65536)]];
    simpl; rewrite !byte_val_byte_of by lia.
  - by rewrite (proj2 (Z.ltb_lt c 128)) by lia.
  - rewrite (proj2 (Z.ltb_ge _ 128)), (proj2 (Z.ltb_lt _ 224)) by lia. do 2 f_equal. lia.
  - rewrite (proj2 (Z.ltb_ge _ 128)), (proj2 (Z.ltb_ge _ 224)), (proj2 (Z.ltb_lt _ 240)) by lia.
    do 2 f_equal. lia.
  - rewrite (proj2 (Z.ltb_ge _ 128)), (proj2 (Z.ltb_ge _ 224)), (proj2 (Z.ltb_ge _ 240)) by lia.
    do 2 f_equal. lia.
Qed.

(** What core prints for a character can be read back, with what follows it. *)
Lemma undebug_char_debug c r :
  is_char c = true → undebug (char_debug c ++ r) = Some (c, r).
Proof.
  intros Hc. unfold char_debug.
  destruct (Z.eqb_spec c 0) as [->|]; [done|]. destruct (Z.eqb_spec c 9) as [->|]; [done|].
  destruct (Z.eqb_spec c 10) as [->|]; [done|]. destruct (Z.eqb_spec c 13) as [->|]; [done|].
  destruct (Z.eqb_spec c 34) as [->|]; [done|]. destruct (Z.eqb_spec c 92) as [->|]; [done|].
  destruct (needs_unicode_escape c).
  - unfold escape. simpl. rewrite str_append_assoc. simpl.
    unfold is_char in Hc. split_bools. rewrite read_radix_print by lia. done.
  - pose proof (decode_encode_char c r Hc) as Hd.
    destruct (encode_char c ++ r)%string as [|b s] eqn:E; [done|]. unfold undebug.
    destruct (Z.eqb_spec (byte_val b) 92) as [Eb|]; [|done].
    unfold decode_char in Hd. rewrite Eb in Hd. simpl in Hd. congruence.
Qed.

Lemma char_debug_free c1 c2 r1 r2 :
  is_char c1 = true → is_char c2 = true →
  (char_debug c1 ++ r1 = char_debug c2 ++ r2)%string → c1 = c2 ∧ r1 = r2.
Proof.
  intros H1 H2 Heq. apply (f_equal undebug) in Heq.
  rewrite !undebug_char_debug in Heq by done. by injection Heq as -> ->.
Qed.

Lemma char_debug_not_quote c r1 r2 :
  is_char c = true → (char_debug c ++ r1)%string ≠ String quote r2.
Proof.
  intros Hc Heq. pose proof (undebug_char_debug c r1 Hc) as Hu. rewrite Heq in Hu.
  injection Hu as <- ->. done.
Qed.

Lemma debug_body_free cs1 cs2 r1 r2 :
  Forall (λ c, is_char c = true) cs1 → Forall (λ c, is_char c = true) cs2 →
  (debug_body cs1 ++ String quote r1 = debug_body cs2 ++ String quote r2)%string →
  cs1 = cs2 ∧ r1 = r2.
Proof.
  intros H1. revert cs2. induction H1 as [|c1 cs1 Hc1 _ IH]; intros cs2' H2;
    destruct H2 as [|c2 cs2 Hc2 H2]; simpl; rewrite ?str_append_assoc.
  - by intros [= ->].
  - intros Heq. symmetry in Heq. by apply char_debug_not_quote in Heq.
  - intros Heq. by apply char_debug_not_quote in Heq.
  - intros Heq. apply char_debug_free in Heq as [-> Heq]; [|done..].
    by destruct (IH cs2 H2 Heq) as [-> ->].
Qed.

Lemma chars_Some s cs :
  chars s = Some cs → s = encode_chars cs ∧ Forall (λ c, is_char c = true) cs.
Proof.
  unfold chars. generalize (String.length s) as fuel. intros fuel. revert s cs.
  induction fuel as [|fuel IH]; intros s cs; simpl.
  - destruct s; [|done]. by intros [= <-].
  - destruct s as [|b s]; [by intros [= <-]|].
    destruct (decode_char (String b s)) as [[c rest]|] eqn:Ed; [|done]. simpl.
    destruct (is_char c) eqn:Hc; [|done]. simpl. case_bool_decide as Hs; [|done].
    destruct (chars_fuel fuel rest) as [cs'|] eqn:Er; [|done]. intros [= <-].
    apply IH in Er as [-> Hcs]. split; [done|]. by constructor.
Qed.

(** The printed form of a string determines the string and the text that follows it. *)
Lemma debug_str_free s1 s2 r1 r2 :
  utf8 s1 → utf8 s2 → (debug_str s1 ++ r1 = debug_str s2 ++ r2)%string → s1 = s2 ∧ r1 = r2.
Proof.
  intros [cs1 E1] [cs2 E2]. unfold debug_str. rewrite E1, E2. intros Heq.
  injection Heq as Heq. rewrite !str_append_assoc in Heq. apply chars_Some in E1 as [-> H1]. apply chars_Some in E2 as [-> H2].
  apply debug_body_free in Heq as [-> ->]; done.
Qed.

(** *** Text without escapes *)

(** Printable ASCII other than the quote and the backslash. *)
Definition plain_byte (c : ascii) : bool :=
  in_range 32 126 c && negb (byte_val c =? 34) && negb (byte_val c =? 92).

Lemma chars_plain s :
  all_bytes plain_byte s = true → chars s = Some (byte_val <$> bytes s).
Proof.
  unfold chars, all_bytes. induction s as [|b s IH]; [done|]. intros Hp. simpl in Hp.
  apply andb_true_iff in Hp as [Hb Hp]. simpl. unfold plain_byte in Hb. split_bools.
  match goal with H : in_range _ _ _ = true |- _ => apply in_range_iff in H end.
  rewrite (proj2 (Z.ltb_lt _ _)) by lia. simpl.
  replace (is_char (byte_val b)) with true.
  2: { unfold is_char. rewrite (proj2 (Z.leb_le 0 _)), (proj2 (Z.leb_le _ 1114111)),
         (proj2 (Z.leb_gt 55296 _)) by lia. done. }
  unfold encode_char. rewrite (proj2 (Z.ltb_lt _ _)) by lia. rewrite byte_of_byte_val. simpl.
  rewrite bool_decide_true by done. rewrite IH by done. done.
Qed.

Lemma debug_str_plain s :
  all_bytes plain_byte s = true → debug_str s = String quote (s ++ String quote "").
Proof.
  intros Hp. unfold debug_str. rewrite chars_plain by done. f_equal. f_equal.
  unfold all_bytes in Hp. induction s as [|b s IH]; [done|]. simpl in Hp.
  apply andb_true_iff in Hp as [Hb Hp]. unfold plain_byte in Hb. split_bools.
  change (debug_body (byte_val <$> bytes (String b s)))
    with (char_debug (byte_val b) ++ debug_body (byte_val <$> bytes s))%string.
  rewrite IH by done.
  match goal with H : in_range _ _ _ = true |- _ => apply in_range_iff in H end.
  unfold char_debug, needs_unicode_escape.
  rewrite (proj2 (Z.eqb_neq _ 0)), (proj2 (Z.eqb_neq _ 9)), (proj2 (Z.eqb_neq _ 10)),
    (proj2 (Z.eqb_neq _ 13)) by lia.
  repeat match goal with H : (_ =? _) = false |- _ => rewrite H; clear H end.
  rewrite (proj2 (Z.ltb_lt _ 128)), (proj2 (Z.ltb_ge _ 32)), (proj2 (Z.eqb_neq _ 127)) by lia.
  simpl. unfold encode_char. rewrite (proj2 (Z.ltb_lt _ 128)) by lia.
  by rewrite byte_of_byte_val.
Qed.
End debug.

Lemma plain_utf8 s : all_bytes plain_byte s = true → utf8 s.
Proof. intros Hp. unfold utf8. rewrite chars_plain by done. eauto. Qed.
