(* ===== verification/Ordered.v ===== *)
(** * Ordered: the slice algorithms of the standard library

    [sort_unstable], [sort_unstable_by] with a string key, [dedup], [windows(2)] and
    [binary_search], as the routing component uses them, and a query's [ORDER BY] a number.  A sort of equal strings is one
    list whatever the algorithm, so [sort_unstable] is any sorting function; the search is
    core's loop. *)

From Stdlib Require Import Ascii String.
From stdpp Require Import sorting.
From S2P Require Import Prelude Text.

(** ** Definitions *)

(** [ORDER BY] a number: rows inserted one by one, a later row after an earlier one with the
    same number. *)
Section numbered.
Context {A : Type} (key : A → Z).

Fixpoint place (r : A) (l : list A) : list A :=
  match l with
  | [] => [r]
  | x :: l' => if (key r <? key x)%Z then r :: l else x :: place r l'
  end.

Definition order_by (l : list A) : list A := foldl (flip place) [] l.
End numbered.

Section keyed.
Context {A : Type} (key : A → string).

Definition key_le (x y : A) : Prop := str_leb (key x) (key y) = true.

#[global] Instance key_le_dec x y : Decision (key_le x y).
Proof. unfold key_le. apply _. Defined.

(** [sort_unstable_by(|l, r| key(l).cmp(key(r)))]. *)
Definition sort_by_key (xs : list A) : list A := merge_sort key_le xs.

(** [windows(2).any(|pair| key(pair[0]) == key(pair[1]))]. *)
Fixpoint adjacent_equal (xs : list A) : bool :=
  match xs with
  | x :: ((y :: _) as xs') => bool_decide (key x = key y) || adjacent_equal xs'
  | _ => false
  end.
End keyed.

Definition sort_unstable (xs : list string) : list string := sort_by_key id xs.

(** [Vec::dedup]: drops an element equal to the one kept before it. *)
Fixpoint dedup (xs : list string) : list string :=
  match xs with
  | x :: ((y :: _) as xs') => if bool_decide (x = y) then dedup xs' else x :: dedup xs'
  | _ => xs
  end.

(** [slice::binary_search]: [base] is the best candidate so far, [size] what is left.
    The size at least halves (rounding up) while it is above 1, so the length bounds the
    number of iterations. *)
Fixpoint search_loop (fuel : nat) (xs : list string) (x : string) (base size : nat) : nat :=
  match fuel with
  | O => base
  | S fuel =>
      if decide (1 < size) then
        let half := (size / 2) in
        let mid := (base + half) in
        let base' := match xs !! mid with
                     | Some y => if str_ltb x y then base else mid
                     | None => base
                     end in
        search_loop fuel xs x base' (size - half)
      else base
  end.

Definition binary_search (xs : list string) (x : string) : result nat nat :=
  match xs with
  | [] => Err 0
  | _ =>
      let base := search_loop (length xs) xs x 0 (length xs) in
      match xs !! base with
      | Some y => if bool_decide (y = x) then Ok base
                  else Err (base + if str_ltb y x then 1 else 0)
      | None => Err base
      end
  end.

(** ** Lemmas *)

Section keyed_lemmas.
Context {A : Type} (key : A → string).

#[global] Instance key_le_total : Total (key_le key).
Proof. intros x y. apply str_leb_total. Qed.

#[global] Instance key_le_trans : Transitive (key_le key).
Proof. intros x y z. apply str_leb_trans. Qed.

Lemma sort_by_key_perm xs : sort_by_key key xs ≡ₚ xs.
Proof. apply merge_sort_Permutation. Qed.

Lemma sort_by_key_sorted xs : StronglySorted (key_le key) (sort_by_key key xs).
Proof. apply (StronglySorted_merge_sort (key_le key)). Qed.

(** On a sorted list, equal neighbours are the only equal keys. *)
Lemma adjacent_equal_NoDup xs :
  StronglySorted (key_le key) xs → adjacent_equal key xs = false ↔ NoDup (key <$> xs).
Proof.
  induction 1 as [|x xs Hs IH Hx]; [split; [constructor|done]|].
  rewrite fmap_cons, NoDup_cons. destruct xs as [|y xs].
  - simpl. split; [|done]. intros _. split; [set_solver|constructor].
  - change (adjacent_equal key (x :: y :: xs))
      with (bool_decide (key x = key y) || adjacent_equal key (y :: xs)).
    rewrite orb_false_iff, bool_decide_eq_false, IH. split; intros [Hne Hnd]; split; try done.
    + rewrite list_elem_of_fmap. intros (z & Hxz & Hz).
      apply elem_of_cons in Hz as [->|Hz]; [done|].
      apply Hne, str_leb_antisym.
      * apply (proj1 (Forall_forall _ _) Hx). by left.
      * rewrite Hxz. apply StronglySorted_inv in Hs as [_ Hy].
        by apply (proj1 (Forall_forall _ _) Hy).
    + intros Heq. apply Hne. rewrite Heq. set_solver.
Qed.

Lemma sorted_strict xs :
  StronglySorted (key_le key) xs → NoDup (key <$> xs) →
  StronglySorted (λ x y, str_ltb (key x) (key y) = true) xs.
Proof.
  induction 1 as [|x xs Hs IH Hx]; [constructor|]. rewrite fmap_cons, NoDup_cons. intros [Hn Hd].
  constructor; [auto|]. apply Forall_forall. intros y Hy.
  pose proof (proj1 (Forall_forall _ _) Hx y Hy) as Hle.
  destruct (str_total (key x) (key y)) as [?|[E|Hlt]]; [done| |].
  - destruct Hn. rewrite E. by apply list_elem_of_fmap_2.
  - unfold key_le, str_leb in Hle. by rewrite Hlt in Hle.
Qed.

(** A sorted list without equal keys is left as it is. *)
Lemma sort_by_key_id xs : StronglySorted (key_le key) xs → NoDup (key <$> xs) → sort_by_key key xs = xs.
Proof.
  intros Hs Hn. pose proof (sort_by_key_perm xs) as Hp.
  apply (StronglySorted_unique_strong (λ x y, str_ltb (key x) (key y) = true)).
  - intros x y _ _ H1 H2. apply str_ltb_asym in H1. congruence.
  - apply sorted_strict; [apply sort_by_key_sorted|]. by rewrite Hp.
  - by apply sorted_strict.
  - done.
Qed.
End keyed_lemmas.

Lemma dedup_elem_of x xs : x ∈ dedup xs ↔ x ∈ xs.
Proof.
  induction xs as [|y [|z xs] IH]; [done|done|].
  change (dedup (y :: z :: xs))
    with (if bool_decide (y = z) then dedup (z :: xs) else y :: dedup (z :: xs)).
  case_bool_decide as Hyz; [subst; rewrite IH; set_solver|].
  rewrite (elem_of_cons (dedup _)), IH. set_solver.
Qed.

Lemma dedup_sorted xs :
  StronglySorted (key_le id) xs → StronglySorted (λ x y, str_ltb x y = true) (dedup xs).
Proof.
  induction 1 as [|x xs Hs IH Hx]; [constructor|]. destruct xs as [|y xs].
  { repeat constructor. }
  change (dedup (x :: y :: xs))
    with (if bool_decide (x = y) then dedup (y :: xs) else x :: dedup (y :: xs)).
  case_bool_decide as Hxy; [done|]. constructor; [done|].
  apply Forall_forall. intros z Hz. apply (proj1 (dedup_elem_of z (y :: xs))) in Hz.
  assert (str_leb x z = true) as Hxz by exact (proj1 (Forall_forall _ _) Hx z Hz).
  destruct (str_total x z) as [?|[->|Hzx]]; [done| |].
  - exfalso. apply Hxy, str_leb_antisym; [exact (proj1 (Forall_forall _ _) Hx y ltac:(by left))|].
    apply elem_of_cons in Hz as [->|Hz].
    + unfold str_leb. by rewrite str_ltb_irrefl.
    + apply StronglySorted_inv in Hs as [_ Hy]. exact (proj1 (Forall_forall _ _) Hy z Hz).
  - unfold str_leb in Hxz. by rewrite Hzx in Hxz.
Qed.

Lemma sorted_lookup {A} (R : A → A → Prop) xs i j x y :
  StronglySorted R xs → xs !! i = Some x → xs !! j = Some y → i < j → R x y.
Proof.
  intros Hs. revert i j. induction Hs as [|z xs Hs IH Hz]; [by intros i j ?|].
  intros [|i] [|j] Hx Hy Hij; [lia| |lia|].
  - simpl in *. simplify_eq. by apply (proj1 (Forall_lookup _ _) Hz j).
  - simpl in *. apply (IH i j); [done..|lia].
Qed.

(** The loop keeps the target, if it is present, within the window. *)
Lemma search_loop_target fuel xs x base size i :
  StronglySorted (λ x y, str_ltb x y = true) xs →
  xs !! i = Some x → base ≤ i < base + size → base + size ≤ length xs → size ≤ S fuel →
  search_loop fuel xs x base size = i.
Proof.
  intros Hs Hi. revert base size. induction fuel as [|fuel IH]; intros base size Hb Hlen Hf;
    cbn [search_loop]; cbv zeta; [lia|].
  destruct (decide (1 < size)) as [Hsz|]; [|lia].
  pose proof (Nat.div_lt size 2 ltac:(lia) ltac:(lia)).
  assert (1 ≤ size / 2) by (apply Nat.div_le_lower_bound; lia).
  assert (2 * (size / 2) ≤ size) by (apply Nat.Div0.mul_div_le).
  destruct (lookup_lt_is_Some_2 xs (base + size / 2) ltac:(lia)) as [y Hy]. rewrite Hy.
  destruct (str_ltb x y) eqn:Hxy.
  - apply IH; [|lia|lia]. split; [lia|].
    destruct (decide (i < base + size / 2)); [lia|]. exfalso.
    destruct (decide (i = base + size / 2)) as [->|]; [simplify_eq; by rewrite str_ltb_irrefl in Hxy|].
    assert (Hyx := sorted_lookup _ xs (base + size / 2) i y x Hs Hy Hi ltac:(lia)).
    simpl in Hyx. rewrite (str_ltb_asym _ _ Hxy) in Hyx. done.
  - apply IH; [|lia|lia]. split; [|lia].
    destruct (decide (base + size / 2 ≤ i)); [done|]. exfalso.
    assert (Hxy' := sorted_lookup _ xs i (base + size / 2) x y Hs Hi Hy ltac:(lia)).
    simpl in Hxy'. congruence.
Qed.

(** Core's search finds exactly the elements of a strictly sorted slice. *)
Lemma binary_search_Ok xs x :
  StronglySorted (λ x y, str_ltb x y = true) xs → is_ok (binary_search xs x) = true ↔ x ∈ xs.
Proof.
  intros Hs. unfold binary_search. destruct xs as [|z xs]; [simpl; set_solver|].
  set (l := z :: xs) in *. split.
  - case_match eqn:Hl; [|done]. case_bool_decide as Hx; [|done]. intros _. subst.
    by eapply list_elem_of_lookup_2.
  - intros (i & Hi)%list_elem_of_lookup.
    rewrite (search_loop_target _ l x 0 (length l) i Hs Hi); [| |lia|lia].
    + rewrite Hi, bool_decide_true; done.
    + apply lookup_lt_Some in Hi. lia.
Qed.

Lemma binary_search_registered xs x :
  is_ok (binary_search (dedup (sort_unstable xs)) x) = true ↔ x ∈ xs.
Proof.
  rewrite binary_search_Ok by (apply dedup_sorted, sort_by_key_sorted).
  rewrite dedup_elem_of. unfold sort_unstable. by rewrite (sort_by_key_perm id xs).
Qed.

(** *** Ordering by a number *)

Section numbered_lemmas.
Local Open Scope Z_scope.
Context {A : Type} (key : A → Z).

Abbreviation key_order := (λ x y : A, key x ≤ key y).

Lemma place_elem r l x : x ∈ place key r l ↔ x = r ∨ x ∈ l.
Proof.
  induction l as [|y l IH]; simpl; [set_solver|]. destruct (_ <? _); [set_solver|].
  rewrite !elem_of_cons, IH. tauto.
Qed.

Lemma place_sorted r l : StronglySorted key_order l → StronglySorted key_order (place key r l).
Proof.
  induction 1 as [|x l Hl IH Hx]; simpl; [repeat constructor|].
  destruct (Z.ltb_spec (key r) (key x)).
  - constructor; [by constructor|]. constructor; [lia|]. eapply Forall_impl; [exact Hx|]. simpl. lia.
  - constructor; [done|]. apply Forall_forall. intros y [->|Hy]%place_elem; [done|].
    by apply (proj1 (Forall_forall _ _) Hx).
Qed.

Lemma order_snoc l r : order_by key (l ++ [r]) = place key r (order_by key l).
Proof. unfold order_by. by rewrite foldl_app. Qed.

Lemma order_sorted l : StronglySorted key_order (order_by key l).
Proof.
  induction l as [|r l IH] using rev_ind; [constructor|]. rewrite order_snoc. by apply place_sorted.
Qed.

Lemma order_elem l x : x ∈ order_by key l ↔ x ∈ l.
Proof.
  induction l as [|r l IH] using rev_ind; [done|]. rewrite order_snoc, place_elem, IH. set_solver.
Qed.

Lemma order_perm l : order_by key l ≡ₚ l.
Proof.
  assert (Hp : ∀ r k, place key r k ≡ₚ r :: k).
  { intros r k. induction k as [|x k IHk]; simpl; [done|]. destruct (_ <? _); [done|]. rewrite IHk. apply Permutation_swap. }
  induction l as [|r l IH] using rev_ind; [done|]. rewrite order_snoc, Hp, IH. apply Permutation_cons_append.
Qed.

Lemma place_last r l :
  Forall (λ x, key x ≤ key r) l → place key r l = l ++ [r].
Proof.
  induction 1 as [|x l Hx _ IH]; [done|]. simpl. rewrite (proj2 (Z.ltb_ge _ _)) by done. by rewrite IH.
Qed.

Section order_filter.
Context (P : A → Prop) `{!∀ x, Decision (P x)}.

Lemma place_filter r l :
  StronglySorted key_order l →
  filter P (place key r l) = if decide (P r) then place key r (filter P l) else filter P l.
Proof.
  induction 1 as [|x l Hl IH Hx]; simpl; [by destruct (decide (P r));
    [rewrite filter_cons_True|rewrite filter_cons_False]|].
  destruct (Z.ltb_spec (key r) (key x)) as [Hlt|Hge].
  - destruct (decide (P r)); [|by rewrite filter_cons_False]. rewrite filter_cons_True by done.
    assert (Hall : Forall (λ y, key r < key y) (filter P (x :: l))).
    { apply Forall_filter. constructor; [done|]. eapply Forall_impl; [exact Hx|]. simpl. lia. }
    destruct (filter P (x :: l)) as [|y k]; [done|]. apply Forall_cons in Hall as [Hy _]. simpl.
    by rewrite (proj2 (Z.ltb_lt _ _)).
  - rewrite !filter_cons. rewrite IH. destruct (decide (P x)), (decide (P r)); try done. simpl.
    by rewrite (proj2 (Z.ltb_ge _ _)).
Qed.

Lemma order_filter l : order_by key (filter P l) = filter P (order_by key l).
Proof.
  induction l as [|r l IH] using rev_ind; [done|].
  rewrite filter_app, order_snoc, place_filter by apply order_sorted. rewrite filter_cons.
  destruct (decide (P r)); simpl; [by rewrite order_snoc, IH|by rewrite app_nil_r].
Qed.

Lemma order_length l : length (order_by key l) = length l.
Proof.
  assert (Hp : ∀ r k, length (place key r k) = S (length k)).
  { intros r k. induction k as [|x k IHk]; simpl; [done|]. destruct (_ <? _); simpl; congruence. }
  induction l as [|r l IH] using rev_ind; [done|].
  rewrite order_snoc, Hp, length_app, IH. simpl. lia.
Qed.
End order_filter.

(** A list numbered in order is in order already. *)
Lemma order_numbered l a : key <$> l = seqZ a (Z.of_nat (length l)) → order_by key l = l.
Proof.
  induction l as [|r l IH] using rev_ind; [done|]. rewrite fmap_app, length_app, Nat2Z.inj_add.
  change (Z.of_nat (length [r])) with 1. rewrite <-seqZ_snoc by lia. intros [Hl [= Hr]]%app_inj_tail.
  rewrite order_snoc, IH, place_last; [done| |done]. apply Forall_forall. intros x Hx.
  apply (list_elem_of_fmap_2 key) in Hx. rewrite Hl in Hx. apply elem_of_seqZ in Hx. lia.
Qed.
End numbered_lemmas.
