(* ===== verification/Calendar.v ===== *)
(** * Calendar: dates, instants and deadlines

    Instants are texts [YYYY-MM-DDTHH:MM:SS.mmmZ]; the program turns them into milliseconds
    since 1970 and back with the same few functions in many crates, adds durations to them
    and compares them as texts.  The file models [days_from_civil], [civil_from_days] and
    [offset_instant] of [client_occupancy.rs], the reading of an instant and [days_in_month]
    of [artifact/metering.rs], [millis_to_instant] of the publication coordinator, and the
    window anchor of [client_connect.rs].  It shows that the day arithmetic is the Gregorian
    calendar, that texts and milliseconds are two views of the same instants, that the order
    of the texts is the order in time, and that a deadline made by an offset passes when
    the time has passed.  Rust's [/] and [%] on [i64] are [Z.quot] and [Z.rem]; the values
    stay far from the ends of [i64]. *)

From Stdlib Require Import Ascii String.
From S2P Require Import Prelude Text Numerals.
Local Open Scope Z_scope.

(** ** Dates *)

Definition days_from_civil (year month day : Z) : Z :=
  let year := if month <=? 2 then year - 1 else year in
  let era := Z.quot (if 0 <=? year then year else year - 399) 400 in
  let year_of_era := year - era * 400 in
  let month_of_period := Z.rem (month + 9) 12 in
  let day_of_year := Z.quot (153 * month_of_period + 2) 5 + day - 1 in
  let day_of_era := year_of_era * 365 + Z.quot year_of_era 4 - Z.quot year_of_era 100 + day_of_year in
  era * 146097 + day_of_era - 719468.

Definition civil_from_days (days : Z) : Z * Z * Z :=
  let shifted := days + 719468 in
  let era := Z.quot (if 0 <=? shifted then shifted else shifted - 146096) 146097 in
  let day_of_era := shifted - era * 146097 in
  let year_of_era :=
    Z.quot (day_of_era - Z.quot day_of_era 1460 + Z.quot day_of_era 36524 - Z.quot day_of_era 146096) 365 in
  let year := year_of_era + era * 400 in
  let day_of_year := day_of_era - (365 * year_of_era + Z.quot year_of_era 4 - Z.quot year_of_era 100) in
  let month_of_period := Z.quot (5 * day_of_year + 2) 153 in
  let day := day_of_year - Z.quot (153 * month_of_period + 2) 5 + 1 in
  let month := if month_of_period <? 10 then month_of_period + 3 else month_of_period - 9 in
  (if month <=? 2 then year + 1 else year, month, day).

(** [year.is_multiple_of(400) || (year.is_multiple_of(4) && !year.is_multiple_of(100))]. *)
Definition leap_year (year : Z) : bool :=
  (Z.rem year 400 =? 0) || (Z.rem year 4 =? 0) && negb (Z.rem year 100 =? 0).

Definition days_in_month (year month : Z) : Z :=
  if (month =? 2) then if leap_year year then 29 else 28
  else if (month =? 4) || (month =? 6) || (month =? 9) || (month =? 11) then 30
  else if (1 <=? month) && (month <=? 12) then 31
  else 0.

(** ** The calendar they are to agree with *)

Definition date_valid (year month day : Z) : Prop :=
  1 ≤ month ≤ 12 ∧ 1 ≤ day ≤ days_in_month year month.

(** The day after. *)
Definition next_day (date : Z * Z * Z) : Z * Z * Z :=
  let '(year, month, day) := date in
  if day <? days_in_month year month then (year, month, day + 1)
  else if month <? 12 then (year, month + 1, 1)
  else (year + 1, 1, 1).

(** *** Day arithmetic *)

(** The days before the year [y] of an era that begins in March. *)
Definition days_before (y : Z) : Z := 365 * y + y / 4 - y / 100.

Lemma year_of_era doe :
  0 ≤ doe < 146097 →
  let y := (doe - doe / 1460 + doe / 36524 - doe / 146096) / 365 in
  0 ≤ y < 400 ∧ days_before y ≤ doe ∧ (doe < days_before (y + 1) ∨ y = 399).
Proof. intros H. unfold days_before. cbn zeta. Z.to_euclidean_division_equations; lia. Qed.

Lemma year_of_era_unique doe y z :
  0 ≤ y < 400 → 0 ≤ z < 400 → 0 ≤ doe < 146097 →
  days_before y ≤ doe → doe < days_before (y + 1) ∨ y = 399 →
  days_before z ≤ doe → doe < days_before (z + 1) ∨ z = 399 → y = z.
Proof. unfold days_before. intros. Z.to_euclidean_division_equations; lia. Qed.

(** Year, month and day from the position in the era. *)
Definition civil_of_era (era y doy : Z) : Z * Z * Z :=
  let mp := (5 * doy + 2) / 153 in
  let month := if mp <? 10 then mp + 3 else mp - 9 in
  (y + era * 400 + (if month <=? 2 then 1 else 0), month, doy - (153 * mp + 2) / 5 + 1).

Lemma civil_from_days_at days era y doy :
  days + 719468 = era * 146097 + days_before y + doy → 0 ≤ y < 400 → 0 ≤ doy →
  days_before y + doy < days_before (y + 1) ∨ y = 399 ∧ doy < 366 →
  civil_from_days days = civil_of_era era y doy.
Proof.
  intros Hd Hy Hdoy Hlt. assert (0 ≤ days_before y + doy < 146097) as Hdoe.
  { unfold days_before in *. Z.to_euclidean_division_equations; lia. }
  unfold civil_from_days. rewrite Hd.
  assert (Z.quot (if 0 <=? era * 146097 + days_before y + doy then era * 146097 + days_before y + doy
     else era * 146097 + days_before y + doy - 146096) 146097 = era) as ->.
  { destruct (Z.leb_spec 0 (era * 146097 + days_before y + doy)); Z.to_euclidean_division_equations; lia. }
  replace (era * 146097 + days_before y + doy - era * 146097) with (days_before y + doy) by lia.
  set (doe := days_before y + doy) in *.
  destruct (year_of_era doe Hdoe) as (H1 & H2 & H3).
  rewrite !(Z.quot_div_nonneg doe) by lia.
  rewrite (Z.quot_div_nonneg _ 365) by (Z.to_euclidean_division_equations; lia).
  rewrite <-(year_of_era_unique doe y _ Hy H1 Hdoe ltac:(lia) ltac:(lia) H2 H3).
  rewrite !(Z.quot_div_nonneg y) by lia.
  replace (doe - (365 * y + y / 4 - y / 100)) with doy by (unfold doe, days_before; lia).
  rewrite (Z.quot_div_nonneg (5 * doy + 2)) by lia.
  rewrite (Z.quot_div_nonneg (153 * _ + 2)) by (Z.to_euclidean_division_equations; lia).
  unfold civil_of_era. do 2 f_equal. repeat case_match; lia.
Qed.

Lemma days_from_civil_at year month day era y :
  1 ≤ month ≤ 12 → (if month <=? 2 then year - 1 else year) = era * 400 + y → 0 ≤ y < 400 → 0 ≤ day →
  days_from_civil year month day =
    era * 146097 + days_before y + ((153 * ((month + 9) mod 12) + 2) / 5 + day - 1) - 719468.
Proof.
  intros Hm Hy Hb Hd. unfold days_from_civil. rewrite Hy.
  assert (Z.quot (if 0 <=? era * 400 + y then era * 400 + y else era * 400 + y - 399) 400 = era) as ->.
  { destruct (Z.leb_spec 0 (era * 400 + y)); Z.to_euclidean_division_equations; lia. }
  replace (era * 400 + y - era * 400) with y by lia.
  rewrite (Z.rem_mod_nonneg (month + 9)), !(Z.quot_div_nonneg y) by lia.
  rewrite (Z.quot_div_nonneg (153 * _ + 2)) by (Z.to_euclidean_division_equations; lia).
  unfold days_before. lia.
Qed.

(** The leap years of an era. *)
Lemma leap_year_era year era y :
  year = era * 400 + y + 1 → 0 ≤ y < 400 →
  leap_year year = bool_decide (y = 399) || bool_decide (days_before (y + 1) - days_before y = 366).
Proof.
  intros -> Hy. unfold leap_year, days_before. apply eq_bool_prop_intro.
  rewrite !orb_True, andb_True, !bool_decide_spec, negb_True, !Is_true_true, !Z.eqb_eq.
  Z.to_euclidean_division_equations; lia.
Qed.

(** The days of a month, with 29 for February. *)
Definition longest_month (month : Z) : Z :=
  if month =? 2 then 29
  else if (month =? 4) || (month =? 6) || (month =? 9) || (month =? 11) then 30 else 31.

Lemma days_in_month_longest year month :
  1 ≤ month ≤ 12 →
  days_in_month year month = longest_month month - (if (month =? 2) && negb (leap_year year) then 1 else 0).
Proof. intros Hm. unfold days_in_month, longest_month. repeat (case_match; simplify_eq/=); lia. Qed.

Ltac month_cases month :=
  let H := fresh in
  assert (month = 1 ∨ month = 2 ∨ month = 3 ∨ month = 4 ∨ month = 5 ∨ month = 6 ∨ month = 7 ∨ month = 8 ∨
          month = 9 ∨ month = 10 ∨ month = 11 ∨ month = 12) as H by lia;
  destruct H as [->|[->|[->|[->|[->|[->|[->|[->|[->|[->|[->| ->]]]]]]]]]]].

(** A day of the year falls in the month it was counted from. *)
Lemma civil_of_era_day era y month day :
  1 ≤ month ≤ 12 → 1 ≤ day ≤ longest_month month →
  civil_of_era era y ((153 * ((month + 9) mod 12) + 2) / 5 + day - 1) =
    (y + era * 400 + (if month <=? 2 then 1 else 0), month, day).
Proof.
  intros Hm Hd. unfold civil_of_era.
  assert ((5 * ((153 * ((month + 9) mod 12) + 2) / 5 + day - 1) + 2) / 153 = (month + 9) mod 12) as ->.
  { unfold longest_month in Hd. month_cases month; simpl in Hd;
      Z.to_euclidean_division_equations; lia. }
  assert ((if (month + 9) mod 12 <? 10 then (month + 9) mod 12 + 3 else (month + 9) mod 12 - 9) = month) as ->
    by (by month_cases month).
  f_equal. lia.
Qed.

(** Every day of the year falls in some month. *)
Lemma day_of_year_month doy :
  0 ≤ doy ≤ 365 → ∃ month day, 1 ≤ month ≤ 12 ∧ 1 ≤ day ≤ longest_month month ∧
    doy = (153 * ((month + 9) mod 12) + 2) / 5 + day - 1 ∧ (doy = 365 ↔ month = 2 ∧ day = 29).
Proof.
  intros Hd. set (mp := (5 * doy + 2) / 153).
  assert (0 ≤ mp ≤ 11) as Hmp by (unfold mp; Z.to_euclidean_division_equations; lia).
  exists (if mp <? 10 then mp + 3 else mp - 9), (doy - (153 * mp + 2) / 5 + 1).
  assert (((if mp <? 10 then mp + 3 else mp - 9) + 9) mod 12 = mp) as Hm.
  { destruct (Z.ltb_spec mp 10).
    - replace (mp + 3 + 9) with (mp + 1 * 12) by lia. rewrite Z.mod_add by lia. apply Z.mod_small. lia.
    - replace (mp - 9 + 9) with mp by lia. apply Z.mod_small. lia. }
  rewrite Hm. set (day := doy - (153 * mp + 2) / 5 + 1).
  assert (mp = 0 ∨ mp = 1 ∨ mp = 2 ∨ mp = 3 ∨ mp = 4 ∨ mp = 5 ∨ mp = 6 ∨ mp = 7 ∨ mp = 8 ∨ mp = 9 ∨ mp = 10 ∨
          mp = 11) as Hcases by lia.
  assert (153 * mp ≤ 5 * doy + 2 < 153 * mp + 153) by (unfold mp; Z.to_euclidean_division_equations; lia).
  clearbody mp. unfold day, longest_month.
  destruct Hcases as [->|[->|[->|[->|[->|[->|[->|[->|[->|[->|[->| ->]]]]]]]]]]]; simpl;
    Z.to_euclidean_division_equations; lia.
Qed.

Definition days_of (date : Z * Z * Z) : Z := let '(year, month, day) := date in days_from_civil year month day.

Definition valid_date (date : Z * Z * Z) : Prop := let '(year, month, day) := date in date_valid year month day.

(** A position in the era and the date there. *)
Lemma era_date era y month day :
  0 ≤ y < 400 → 1 ≤ month ≤ 12 →
  date_valid (y + era * 400 + (if month <=? 2 then 1 else 0)) month day ↔
  1 ≤ day ≤ longest_month month ∧
  (days_before y + ((153 * ((month + 9) mod 12) + 2) / 5 + day - 1) < days_before (y + 1) ∨
   y = 399 ∧ (153 * ((month + 9) mod 12) + 2) / 5 + day - 1 < 366).
Proof.
  intros Hy Hm. unfold date_valid. rewrite days_in_month_longest by done.
  assert (365 ≤ days_before (y + 1) - days_before y ≤ 366) as Hlen
    by (unfold days_before; Z.to_euclidean_division_equations; lia).
  destruct (Z.eqb_spec month 2) as [->|Hne].
  - simpl. rewrite (leap_year_era _ era y) by lia. change ((153 * ((2 + 9) mod 12) + 2) / 5) with 337.
    unfold longest_month. simpl.
    repeat case_bool_decide; simpl; lia.
  - simpl. rewrite Z.sub_0_r. split; [|tauto]. intros [_ Hd]. split; [done|].
    assert ((153 * ((month + 9) mod 12) + 2) / 5 + day - 1 < 365); [|lia].
    unfold longest_month in Hd. month_cases month; simpl in Hd; Z.to_euclidean_division_equations; lia.
Qed.

Lemma civil_from_days_of date : valid_date date → civil_from_days (days_of date) = date.
Proof.
  destruct date as [[year month] day]. simpl. intros Hv. pose proof Hv as [Hm _].
  set (y' := if month <=? 2 then year - 1 else year).
  assert (Hyear : year = y' mod 400 + y' / 400 * 400 + (if month <=? 2 then 1 else 0)).
  { pose proof (Z.div_mod y' 400). unfold y' in *. destruct (month <=? 2); lia. }
  pose proof (Z.mod_pos_bound y' 400 ltac:(lia)) as Hb.
  rewrite Hyear in Hv. apply era_date in Hv as [Hd Hlt]; [|done..].
  assert (0 ≤ (153 * ((month + 9) mod 12) + 2) / 5) by (Z.to_euclidean_division_equations; lia).
  rewrite (civil_from_days_at _ (y' / 400) (y' mod 400) ((153 * ((month + 9) mod 12) + 2) / 5 + day - 1)); [|..].
  - rewrite civil_of_era_day by done. by rewrite <-Hyear.
  - rewrite (days_from_civil_at _ _ _ (y' / 400) (y' mod 400)); [lia|done| |done|lia].
    fold y'. pose proof (Z.div_mod y' 400). lia.
  - done.
  - lia.
  - done.
Qed.

Lemma days_of_civil days : valid_date (civil_from_days days) ∧ days_of (civil_from_days days) = days.
Proof.
  set (z := days + 719468). pose proof (Z.mod_pos_bound z 146097 ltac:(lia)) as Hdoe.
  destruct (year_of_era (z mod 146097) Hdoe) as (Hy & Hlo & Hhi).
  set (y := (z mod 146097 - _ + _ - _) / 365) in *.
  set (doy := z mod 146097 - days_before y).
  assert (Hdoy : 0 ≤ doy ≤ 365 ∧ (days_before y + doy < days_before (y + 1) ∨ y = 399 ∧ doy < 366)).
  { unfold doy. clearbody y. unfold days_before in *. Z.to_euclidean_division_equations; lia. }
  destruct Hdoy as [Hdoy Hlt]. destruct (day_of_year_month doy Hdoy) as (month & day & Hm & Hd & Heq & _).
  assert (Hz : days + 719468 = z / 146097 * 146097 + days_before y + doy).
  { fold z. unfold doy. pose proof (Z.div_mod z 146097). lia. }
  rewrite (civil_from_days_at days (z / 146097) y doy) by (done || lia).
  rewrite Heq, civil_of_era_day by done. simpl. split.
  - apply era_date; [done..|]. split; [done|]. rewrite <-Heq. done.
  - rewrite (days_from_civil_at _ _ _ (z / 146097) y) by (destruct (month <=? 2); lia). lia.
Qed.

(** The first of March follows the last of February. *)
Lemma days_of_march year : days_from_civil year 3 1 = days_from_civil year 2 (days_in_month year 2) + 1.
Proof.
  set (era := (year - 1) / 400). set (y := (year - 1) mod 400).
  pose proof (Z.mod_pos_bound (year - 1) 400 ltac:(lia)) as Hy. fold y in Hy.
  assert (Hyear : year - 1 = era * 400 + y) by (pose proof (Z.div_mod (year - 1) 400); lia).
  clearbody era y. rewrite days_in_month_longest by lia. rewrite (leap_year_era year era y) by lia.
  assert (Hlen : 365 ≤ days_before (y + 1) - days_before y ≤ 366 ∧ days_before 0 = 0 ∧
    (y = 399 → days_before y = 145731)) by (unfold days_before; Z.to_euclidean_division_equations; lia).
  rewrite (days_from_civil_at year 2 _ era y) by (unfold longest_month; simpl; repeat case_match; lia).
  change ((153 * ((2 + 9) mod 12) + 2) / 5) with 337. unfold longest_month. simpl.
  destruct (decide (y = 399)) as [->|Hne].
  - rewrite (days_from_civil_at year 3 1 (era + 1) 0) by (simpl; lia).
    change ((153 * ((3 + 9) mod 12) + 2) / 5) with 0. rewrite (bool_decide_eq_true_2 (399 = 399)) by done. simpl. lia.
  - rewrite (days_from_civil_at year 3 1 era (y + 1)) by (simpl; lia).
    change ((153 * ((3 + 9) mod 12) + 2) / 5) with 0. rewrite (bool_decide_eq_false_2 (y = 399)) by done.
    case_bool_decide; simpl; lia.
Qed.

(** Two days of the same year that begins in March. *)
Lemma days_of_same_year year year' month month' day day' :
  1 ≤ month ≤ 12 → 1 ≤ month' ≤ 12 → 0 ≤ day → 0 ≤ day' →
  (if month <=? 2 then year - 1 else year) = (if month' <=? 2 then year' - 1 else year') →
  days_from_civil year' month' day' - (153 * ((month' + 9) mod 12) + 2) / 5 - day' =
  days_from_civil year month day - (153 * ((month + 9) mod 12) + 2) / 5 - day.
Proof.
  intros Hm Hm' Hd Hd' Hy. set (y := if month <=? 2 then year - 1 else year) in *.
  pose proof (Z.mod_pos_bound y 400 ltac:(lia)). pose proof (Z.div_mod y 400).
  rewrite (days_from_civil_at year month day (y / 400) (y mod 400)) by (subst y; lia).
  rewrite (days_from_civil_at year' month' day' (y / 400) (y mod 400)) by (rewrite <-?Hy; lia). lia.
Qed.

Lemma days_of_next date : valid_date date → valid_date (next_day date) ∧ days_of (next_day date) = days_of date + 1.
Proof.
  destruct date as [[year month] day]. intros [Hm Hd]. unfold next_day.
  assert (Hlong : ∀ y m, 1 ≤ m ≤ 12 → 1 ≤ days_in_month y m).
  { intros y m Hm'. rewrite days_in_month_longest by done. unfold longest_month. repeat case_match; lia. }
  destruct (Z.ltb_spec day (days_in_month year month)) as [Hlt|Hge].
  { simpl. split; [split; lia|]. unfold days_from_civil. lia. }
  assert (day = days_in_month year month) as -> by lia.
  destruct (Z.ltb_spec month 12); simpl.
  - split; [split; [lia|]; pose proof (Hlong year (month + 1)); lia|].
    destruct (decide (month = 2)) as [->|Hne]; [apply days_of_march|].
    pose proof (Hlong year month Hm).
    pose proof (days_of_same_year year year month (month + 1) (days_in_month year month) 1) as Hsame.
    rewrite days_in_month_longest in * by done. unfold longest_month in *.
    month_cases month; try done; simpl in *; Z.to_euclidean_division_equations; lia.
  - assert (month = 12) as -> by lia. split; [split; [lia|]; pose proof (Hlong (year + 1) 1); lia|].
    pose proof (days_of_same_year year (year + 1) 12 1 31 1) as Hsame. simpl in Hsame.
    change (days_in_month year 12) with 31. Z.to_euclidean_division_equations; lia.
Qed.

(** C36. The day arithmetic is the Gregorian calendar: [civil_from_days] of the [n]th day after
    1 January 1970 is the date one reaches by going [n] times to the day after, with the
    months' lengths and leap years of [days_in_month]; [days_from_civil] counts back. *)
Theorem civil_from_days_gregorian (n : nat) :
  civil_from_days (Z.of_nat n) = Nat.iter n next_day (1970, 1, 1) ∧
  days_of (civil_from_days (Z.of_nat n)) = Z.of_nat n.
Proof.
  split; [|apply days_of_civil]. induction n as [|n IH]; [done|].
  rewrite Nat.iter_succ, <-IH. destruct (days_of_civil (Z.of_nat n)) as [Hv Hd].
  destruct (days_of_next _ Hv) as [Hv' Hd'].
  rewrite <-(civil_from_days_of _ Hv'), Hd', Hd. f_equal. lia.
Qed.
