(* ===== verification/Instants.v ===== *)
(** * Instants: texts, milliseconds and deadlines

    An instant is a text [YYYY-MM-DDTHH:MM:SS.mmmZ].  The file models its reading
    ([instant_millis] of [artifact/metering.rs]), its writing ([millis_to_instant] of the
    publication coordinator), [offset_instant] of [client_occupancy.rs] and the window anchor
    of [client_connect.rs], over the day arithmetic of [Calendar]. *)

From Stdlib Require Import Ascii String.
From S2P Require Import Prelude Text Numerals Calendar.
Local Open Scope Z_scope.

(** ** Definitions *)

(** [{n:0w}]. *)
Definition padded (w : nat) (n : Z) : string :=
  (string_of_list_ascii (replicate (w - String.length (decimal n)) "0"%char) ++ decimal n)%string.

Record InstantFields : Type := {
  f_year : Z;
  f_month : Z;
  f_day : Z;
  f_hour : Z;
  f_minute : Z;
  f_second : Z;
  f_millis : Z
}.

(** [format!("{year:04}-{month:02}-{day:02}T{hour:02}:{minute:02}:{second:02}.{millis:03}Z")]. *)
Definition format_instant (f : InstantFields) : string :=
  (padded 4 (f_year f) ++ "-" ++ padded 2 (f_month f) ++ "-" ++ padded 2 (f_day f) ++ "T" ++
   padded 2 (f_hour f) ++ ":" ++ padded 2 (f_minute f) ++ ":" ++ padded 2 (f_second f) ++ "." ++
   padded 3 (f_millis f) ++ "Z")%string.

Fixpoint decimal_go (acc : Z) (l : list ascii) : option Z :=
  match l with
  | [] => Some acc
  | c :: l => if is_ascii_digit c then decimal_go (acc * 10 + (byte_val c - 48)) l else None
  end.

(** [decimal(bytes, start, length)], also the closure [digits] of [offset_instant]. *)
Definition read_decimal (s : string) (start length : nat) : option Z :=
  decimal_go 0 (take length (drop start (bytes s))).

Definition byte_at (s : string) (i : nat) (c : ascii) : bool := bool_decide (bytes s !! i = Some c).

(** The test of the length and the separators. *)
Definition instant_marks (s : string) : bool :=
  (str_len s =? 24) && byte_at s 4 "-" && byte_at s 7 "-" && byte_at s 10 "T" && byte_at s 13 ":" &&
  byte_at s 16 ":" && byte_at s 19 "." && byte_at s 23 "Z".

(** The fields of an instant, as both readers take them. *)
Definition read_fields (s : string) : option InstantFields :=
  if instant_marks s then
    year ← read_decimal s 0 4; month ← read_decimal s 5 2; day ← read_decimal s 8 2;
    hour ← read_decimal s 11 2; minute ← read_decimal s 14 2; second ← read_decimal s 17 2;
    millis ← read_decimal s 20 3;
    Some {| f_year := year; f_month := month; f_day := day; f_hour := hour; f_minute := minute;
            f_second := second; f_millis := millis |}
  else None.

(** [days_from_civil] of [metering.rs], on [u64]. *)
Definition days_from_civil_u64 (year month day : Z) : option Z :=
  let adjusted_year := year - (if month <=? 2 then 1 else 0) in
  let era := adjusted_year / 400 in
  let year_of_era := adjusted_year - era * 400 in
  let shifted_month := month + (if 2 <? month then -3 else 9) in
  let day_of_year := Z.quot (153 * shifted_month + 2) 5 + day - 1 in
  let day_of_era := year_of_era * 365 + Z.quot year_of_era 4 - Z.quot year_of_era 100 + day_of_year in
  let since_epoch := era * 146097 + day_of_era - 719468 in
  if since_epoch <? 0 then None else Some since_epoch.

Definition checked_mul_u64 (a b : Z) : option Z := if a * b <=? u64_max then Some (a * b) else None.

(** [instant_millis]; every error has the same kind. *)
Definition instant_millis (s : string) : option Z :=
  f ← read_fields s;
  if (f_year f <? 1970) || negb ((1 <=? f_month f) && (f_month f <=? 12)) || (f_day f =? 0) ||
     (days_in_month (f_year f) (f_month f) <? f_day f) || (23 <? f_hour f) || (59 <? f_minute f) ||
     (59 <? f_second f) then None
  else
    days ← days_from_civil_u64 (f_year f) (f_month f) (f_day f);
    v ← checked_mul_u64 days 86400000; v ← checked_add_u64 v (f_hour f * 3600000);
    v ← checked_add_u64 v (f_minute f * 60000); v ← checked_add_u64 v (f_second f * 1000);
    checked_add_u64 v (f_millis f).

(** [millis_to_instant] on a [u64]. *)
Definition millis_to_instant (value : Z) : option string :=
  let seconds := value / 1000 in
  let millis := value mod 1000 in
  let days := seconds / 86400 in
  if i64_max <? days then None
  else
    let seconds_of_day := seconds mod 86400 in
    let '(year, month, day) := civil_from_days days in
    if negb ((1970 <=? year) && (year <=? 9999)) then None
    else Some (format_instant
      {| f_year := year; f_month := month; f_day := day; f_hour := seconds_of_day / 3600;
         f_minute := seconds_of_day mod 3600 / 60; f_second := seconds_of_day mod 60; f_millis := millis |}).

(** [offset_instant]; [checked_add] fails beyond the ends of [i64]. *)
Definition offset_instant (instant : string) (offset_millis : Z) : option string :=
  f ← read_fields instant;
  if negb ((1 <=? f_month f) && (f_month f <=? 12)) || negb ((1 <=? f_day f) && (f_day f <=? 31)) then None
  else
    let epoch_millis := days_from_civil (f_year f) (f_month f) (f_day f) * 86400000 +
      f_hour f * 3600000 + f_minute f * 60000 + f_second f * 1000 + f_millis f in
    let shifted := epoch_millis + offset_millis in
    if negb ((- i64_max - 1 <=? shifted) && (shifted <=? i64_max)) || (shifted <? 0) then None
    else
      let days := shifted / 86400000 in
      let millis_of_day := shifted mod 86400000 in
      let '(year, month, day) := civil_from_days days in
      Some (format_instant
        {| f_year := year; f_month := month; f_day := day; f_hour := millis_of_day / 3600000;
           f_minute := millis_of_day mod 3600000 / 60000; f_second := millis_of_day mod 60000 / 1000;
           f_millis := millis_of_day mod 1000 |}).

Definition MAX_WINDOW_SECONDS : Z := 366 * 24 * 60 * 60.

Definition div_floor (numerator denominator : Z) : Z :=
  let quotient := Z.quot numerator denominator in
  if negb (Z.rem numerator denominator =? 0) && negb (Bool.eqb (numerator <? 0) (denominator <? 0))
  then quotient - 1 else quotient.

(** [connect_attempt_window_anchor]: the start of the window of [window_seconds] that [now]
    is in.  The two validations are the shape of an instant; the fields of a text that has
    it are read without further checks. *)
Definition connect_attempt_window_anchor (now : string) (window_seconds : Z) : option string :=
  if negb (instant_shape now) || (window_seconds =? 0) || (MAX_WINDOW_SECONDS <? window_seconds) then None
  else
    f ← read_fields now;
    let epoch_seconds := days_from_civil (f_year f) (f_month f) (f_day f) * 86400 + f_hour f * 3600 +
      f_minute f * 60 + f_second f in
    let anchored := div_floor epoch_seconds window_seconds * window_seconds in
    let days := div_floor anchored 86400 in
    let remainder := anchored - days * 86400 in
    let '(year, month, day) := civil_from_days days in
    let text := format_instant
      {| f_year := year; f_month := month; f_day := day; f_hour := Z.quot remainder 3600;
         f_minute := Z.quot (Z.rem remainder 3600) 60; f_second := Z.rem remainder 60; f_millis := 0 |} in
    if instant_shape text then Some text else None.

(** ** Fixed-width numbers *)

(** The [w] digits of [n]. *)
Fixpoint digits (w : nat) (n : Z) : string :=
  match w with
  | O => EmptyString
  | S w => String (digit_char (n / 10 ^ Z.of_nat w)) (digits w (n mod 10 ^ Z.of_nat w))
  end.

Lemma digit_byte d : 0 ≤ d < 10 → byte_val (digit_char d) = 48 + d.
Proof.
  intros Hd. unfold digit_char. rewrite (proj2 (Z.ltb_lt d 10)) by lia. apply byte_val_byte_of. lia.
Qed.

Lemma pow10_S w : 10 ^ Z.of_nat (S w) = 10 * 10 ^ Z.of_nat w.
Proof. rewrite Nat2Z.inj_succ, Z.pow_succ_r by lia. done. Qed.

Lemma pow10_pos w : 0 < 10 ^ Z.of_nat w.
Proof. apply Z.pow_pos_nonneg; lia. Qed.

(** The first digit of a number of [S w] digits and the rest. *)
Lemma first_digit w n :
  0 ≤ n < 10 ^ Z.of_nat (S w) →
  0 ≤ n / 10 ^ Z.of_nat w < 10 ∧ 0 ≤ n mod 10 ^ Z.of_nat w < 10 ^ Z.of_nat w ∧
  n = n / 10 ^ Z.of_nat w * 10 ^ Z.of_nat w + n mod 10 ^ Z.of_nat w.
Proof.
  rewrite pow10_S. intros Hn. pose proof (pow10_pos w). set (p := 10 ^ Z.of_nat w) in *.
  pose proof (Z.mod_pos_bound n p). pose proof (Z.div_mod n p). split_and!; [nia|nia|lia..].
Qed.

Lemma decimal_go_digits w n acc :
  0 ≤ n < 10 ^ Z.of_nat w → decimal_go acc (bytes (digits w n)) = Some (acc * 10 ^ Z.of_nat w + n).
Proof.
  revert n acc. induction w as [|w IH]; intros n acc Hn; simpl; [f_equal; change (10 ^ Z.of_nat 0) with 1 in *; lia|].
  destruct (first_digit w n Hn) as (Hd & Hm & Heq).
  assert (is_ascii_digit (digit_char (n / 10 ^ Z.of_nat w)) = true) as ->.
  { apply in_range_iff. rewrite digit_byte by done. lia. }
  rewrite digit_byte, IH, pow10_S by done. f_equal. lia.
Qed.

Lemma decimal_go_Some acc l v :
  decimal_go acc l = Some v → ∃ n, 0 ≤ n < 10 ^ Z.of_nat (length l) ∧
    l = bytes (digits (length l) n) ∧ v = acc * 10 ^ Z.of_nat (length l) + n.
Proof.
  revert acc. induction l as [|c l IH]; intros acc; simpl.
  { intros [= <-]. exists 0. change (10 ^ Z.of_nat 0) with 1. split_and!; [lia..|done|lia]. }
  destruct (is_ascii_digit c) eqn:Ec; [|done]. apply in_range_iff in Ec.
  intros (n & Hn & Hl & ->)%IH. set (d := byte_val c - 48) in *. exists (d * 10 ^ Z.of_nat (length l) + n).
  change (Z.pos (Pos.of_succ_nat (length l))) with (Z.of_nat (S (length l))). rewrite pow10_S.
  pose proof (pow10_pos (length l)). split_and!; [nia|nia| |lia].
  rewrite Z.div_add_l, (Z.div_small n), Z.add_0_r by lia.
  rewrite Z.add_comm, Z.mod_add, Z.mod_small by lia. simpl. rewrite <-Hl. f_equal.
  unfold digit_char. rewrite (proj2 (Z.ltb_lt d 10)) by lia. unfold d.
  replace (48 + (byte_val c - 48)) with (byte_val c) by lia. by rewrite byte_of_byte_val.
Qed.

Lemma digits_length w n : String.length (digits w n) = w.
Proof. revert n. induction w as [|w IH]; intros n; simpl; [done|]. by rewrite IH. Qed.

Lemma digits_snoc w n :
  0 ≤ n < 10 ^ Z.of_nat (S w) →
  digits (S w) n = (digits w (n / 10) ++ String (digit_char (n mod 10)) "")%string.
Proof.
  revert n. induction w as [|w IH]; intros n Hn.
  { change (10 ^ Z.of_nat 1) with 10 in Hn. simpl. by rewrite Z.div_1_r, (Z.mod_small n 10) by lia. }
  destruct (first_digit (S w) n Hn) as (Hd & Hm & Heq).
  change (digits (S (S w)) n) with
    (String (digit_char (n / 10 ^ Z.of_nat (S w))) (digits (S w) (n mod 10 ^ Z.of_nat (S w)))).
  rewrite (IH (n mod 10 ^ Z.of_nat (S w)) Hm). simpl digits at 2. simpl.
  pose proof (pow10_pos w) as Hp. rewrite pow10_S in *. set (p := 10 ^ Z.of_nat w) in *.
  assert ((n mod (10 * p)) / 10 = (n / 10) mod p) as ->.
  { rewrite (Z.rem_mul_r n 10 p) by lia. pose proof (Z.mod_pos_bound n 10).
    rewrite Z.mul_comm, Z.div_add, (Z.div_small (n mod 10)) by lia. lia. }
  assert ((n mod (10 * p)) mod 10 = n mod 10) as ->.
  { rewrite (Z.rem_mul_r n 10 p), Z.mul_comm, Z.mod_add by lia. apply Z.mod_mod. lia. }
  by rewrite Z.div_div by lia.
Qed.

Lemma digits_zero w : digits w 0 = string_of_list_ascii (replicate w "0"%char).
Proof.
  induction w as [|w IH]; [done|]. simpl. pose proof (pow10_pos w).
  by rewrite Z.div_small, Z.mod_small, IH by lia.
Qed.

Lemma str_length_app a b : String.length (a ++ b) = (String.length a + String.length b)%nat.
Proof. induction a as [|c a IH]; simpl; [done|]. by rewrite IH. Qed.

(** Padding fills the width. *)
Lemma padded_digits w n : 0 ≤ n < 10 ^ Z.of_nat (S w) → padded (S w) n = digits (S w) n.
Proof.
  revert n. induction w as [|w IH]; intros n Hn; rewrite digits_snoc by done.
  - change (10 ^ Z.of_nat 1) with 10 in Hn. unfold padded, decimal. rewrite radix_small by lia. simpl.
    by rewrite Z.mod_small by lia.
  - destruct (decide (n < 10)) as [Hlt|Hge].
    + rewrite Z.div_small, digits_zero, Z.mod_small by lia. unfold padded, decimal. rewrite radix_small by lia.
      simpl String.length. by rewrite Nat.sub_succ, Nat.sub_0_r.
    + pose proof (Z.mod_pos_bound n 10). pose proof (Z.div_mod n 10).
      assert (Hn' : 0 ≤ n / 10 < 10 ^ Z.of_nat (S w)).
      { rewrite pow10_S in Hn. split; [apply Z.div_pos; lia|]. apply Z.div_lt_upper_bound; lia. }
      rewrite <-IH by done. unfold padded, decimal.
      replace n with (n / 10 * 10 + n mod 10) at 1 2 by lia.
      rewrite radix_step by (lia || (apply Z.div_le_lower_bound; lia)).
      rewrite str_length_app, Nat.add_comm. simpl String.length. rewrite Nat.sub_succ. by rewrite str_append_assoc.
Qed.

(** ** Reading and writing *)

Record fields_wf (f : InstantFields) : Prop := {
  wf_year : 0 ≤ f_year f < 10000;
  wf_month : 0 ≤ f_month f < 100;
  wf_day : 0 ≤ f_day f < 100;
  wf_hour : 0 ≤ f_hour f < 100;
  wf_minute : 0 ≤ f_minute f < 100;
  wf_second : 0 ≤ f_second f < 100;
  wf_millis : 0 ≤ f_millis f < 1000
}.

Definition instant_text (f : InstantFields) : string :=
  (digits 4 (f_year f) ++ "-" ++ digits 2 (f_month f) ++ "-" ++ digits 2 (f_day f) ++ "T" ++
   digits 2 (f_hour f) ++ ":" ++ digits 2 (f_minute f) ++ ":" ++ digits 2 (f_second f) ++ "." ++
   digits 3 (f_millis f) ++ "Z")%string.

Lemma format_text f : fields_wf f → format_instant f = instant_text f.
Proof. intros []. unfold format_instant, instant_text. by rewrite !padded_digits. Qed.

Lemma bytes_app a b : bytes (a ++ b) = bytes a ++ bytes b.
Proof. unfold bytes. induction a as [|c a IH]; [done|]. simpl. f_equal. exact IH. Qed.

Lemma digits2 n : 0 ≤ n < 100 → ∃ a b, digits 2 n = String a (String b "") ∧ decimal_go 0 [a; b] = Some n.
Proof. intros Hn. eexists _, _. split; [done|]. exact (decimal_go_digits 2 n 0 Hn). Qed.

Lemma digits3 n :
  0 ≤ n < 1000 → ∃ a b c, digits 3 n = String a (String b (String c "")) ∧ decimal_go 0 [a; b; c] = Some n.
Proof. intros Hn. eexists _, _, _. split; [done|]. exact (decimal_go_digits 3 n 0 Hn). Qed.

Lemma digits4 n :
  0 ≤ n < 10000 → ∃ a b c d, digits 4 n = String a (String b (String c (String d ""))) ∧
    decimal_go 0 [a; b; c; d] = Some n.
Proof. intros Hn. eexists _, _, _, _. split; [done|]. exact (decimal_go_digits 4 n 0 Hn). Qed.

Lemma read_text f : fields_wf f → read_fields (instant_text f) = Some f.
Proof.
  intros [H1 H2 H3 H4 H5 H6 H7]. destruct f as [y mo d h mi s ms]. unfold instant_text. cbn [f_year f_month f_day f_hour f_minute f_second f_millis] in *.
  destruct (digits4 y H1) as (? & ? & ? & ? & -> & Ey), (digits2 mo H2) as (? & ? & -> & Emo),
    (digits2 d H3) as (? & ? & -> & Ed), (digits2 h H4) as (? & ? & -> & Eh), (digits2 mi H5) as (? & ? & -> & Emi),
    (digits2 s H6) as (? & ? & -> & Es), (digits3 ms H7) as (? & ? & ? & -> & Ems).
  unfold read_fields, read_decimal, bytes. change (instant_marks _) with true.
  cbv [String.append list_ascii_of_string take drop]. cbv iota.
  rewrite Ey; cbn [mbind option_bind]. rewrite Emo; cbn [mbind option_bind]. rewrite Ed; cbn [mbind option_bind].
  rewrite Eh; cbn [mbind option_bind]. rewrite Emi; cbn [mbind option_bind]. rewrite Es; cbn [mbind option_bind].
  by rewrite Ems.
Qed.

Lemma bytes_inj a b : bytes a = bytes b → a = b.
Proof.
  unfold bytes. intros H. rewrite <-(string_of_list_ascii_of_string a), H. apply string_of_list_ascii_of_string.
Qed.

Lemma bytes_length s : length (bytes s) = String.length s.
Proof. unfold bytes. induction s as [|c s IH]; simpl; [done|]. by rewrite IH. Qed.

(** The digits a field was read from, and what follows it. *)
Lemma read_decimal_Some s i n v :
  read_decimal s i n = Some v → (i + n ≤ length (bytes s))%nat →
  0 ≤ v < 10 ^ Z.of_nat n ∧ drop i (bytes s) = bytes (digits n v) ++ drop (i + n) (bytes s).
Proof.
  unfold read_decimal. intros (w & Hw & Hl & ->)%decimal_go_Some Hlen.
  rewrite length_take, length_drop, Nat.min_l in Hw, Hl by lia. rewrite Z.mul_0_l, Z.add_0_l.
  split; [done|]. rewrite <-Hl, <-drop_drop. by rewrite take_drop.
Qed.

Lemma read_fields_Some s f : read_fields s = Some f → fields_wf f ∧ s = instant_text f.
Proof.
  unfold read_fields. destruct (instant_marks s) eqn:Em; [|done]. intros H.
  repeat (apply bind_Some in H as (? & ? & H)). injection H as <-.
  unfold instant_marks, byte_at, str_len in Em. split_bools.
  assert (Hlen : length (bytes s) = 24%nat) by (rewrite bytes_length; lia).
  repeat match goal with H : read_decimal _ _ _ = Some _ |- _ => apply read_decimal_Some in H as [? ?]; [|lia] end.
  repeat match goal with H : bytes s !! _ = Some _ |- _ => apply drop_S in H end. simpl in *.
  split; [done|]. apply bytes_inj. unfold instant_text. rewrite !bytes_app. simpl.
  change (bytes s) with (drop 0 (bytes s)) at 1.
  repeat match goal with H : drop ?i (bytes s) = _ |- context [drop ?i (bytes s)] => rewrite H; clear H end.
  rewrite drop_ge by lia. done.
Qed.

(** ** Times *)

Definition instant_time (f : InstantFields) : Z :=
  days_from_civil (f_year f) (f_month f) (f_day f) * 86400000 + f_hour f * 3600000 + f_minute f * 60000 +
  f_second f * 1000 + f_millis f.

(** An instant from 1970 on. *)
Record instant_valid (f : InstantFields) : Prop := {
  iv_year : 1970 ≤ f_year f ≤ 9999;
  iv_date : date_valid (f_year f) (f_month f) (f_day f);
  iv_hour : 0 ≤ f_hour f ≤ 23;
  iv_minute : 0 ≤ f_minute f ≤ 59;
  iv_second : 0 ≤ f_second f ≤ 59;
  iv_millis : 0 ≤ f_millis f ≤ 999
}.

(** The end of the year 9999. *)
Definition end_of_time : Z := 253402300800000.

(** *** Dates in order *)

Definition date_key (date : Z * Z * Z) : Z := let '(year, month, day) := date in (year * 100 + month) * 100 + day.

Lemma month_length year month : 1 ≤ month ≤ 12 → 28 ≤ days_in_month year month ≤ 31.
Proof. intros Hm. rewrite days_in_month_longest by done. unfold longest_month. repeat case_match; lia. Qed.

Lemma civil_succ days : civil_from_days (days + 1) = next_day (civil_from_days days).
Proof.
  destruct (days_of_civil days) as [Hv Hd]. destruct (days_of_next _ Hv) as [Hv' Hd'].
  by rewrite <-(civil_from_days_of _ Hv'), Hd', Hd.
Qed.

Lemma next_day_key date : valid_date date → date_key date < date_key (next_day date).
Proof.
  destruct date as [[y m] d]. intros [Hm Hd]. pose proof (month_length y m Hm). unfold next_day.
  repeat case_match; simpl; lia.
Qed.

Lemma civil_key_lt days days' : days < days' → date_key (civil_from_days days) < date_key (civil_from_days days').
Proof.
  intros Hlt. assert (∃ n : nat, days' = days + Z.of_nat n + 1) as [n ->].
  { exists (Z.to_nat (days' - days - 1)). lia. }
  clear Hlt. induction n as [|n IH].
  - rewrite Z.add_0_r, civil_succ. apply next_day_key, days_of_civil.
  - replace (days + Z.of_nat (S n) + 1) with (days + Z.of_nat n + 1 + 1) by lia. rewrite (civil_succ (_ + 1)).
    etransitivity; [exact IH|]. apply next_day_key, days_of_civil.
Qed.

Lemma days_of_lt date date' :
  valid_date date → valid_date date' → days_of date < days_of date' ↔ date_key date < date_key date'.
Proof.
  intros Hv Hv'. rewrite <-(civil_from_days_of _ Hv), <-(civil_from_days_of _ Hv') at 2.
  split; [apply civil_key_lt|]. intros Hk. destruct (Z.lt_trichotomy (days_of date) (days_of date')) as [?|[Heq|Hgt]];
    [done|rewrite Heq in Hk; lia|]. apply civil_key_lt in Hgt. lia.
Qed.

Lemma epoch_date : days_of (1970, 1, 1) = 0 ∧ days_of (9999, 12, 31) = 2932896.
Proof. done. Qed.

Lemma days_range date :
  valid_date date → (1970 ≤ date.1.1 ≤ 9999 ↔ 0 ≤ days_of date ≤ 2932896).
Proof.
  intros Hv. destruct epoch_date as [H0 H1]. rewrite <-H0, <-H1 at 1.
  pose proof (days_of_lt date (1970, 1, 1) Hv ltac:(done)) as Hlo.
  pose proof (days_of_lt (9999, 12, 31) date ltac:(done) Hv) as Hhi.
  destruct date as [[y m] d]. destruct Hv as [Hm Hd]. pose proof (month_length y m Hm). simpl in *. lia.
Qed.

Lemma time_range f : instant_valid f → 0 ≤ instant_time f < end_of_time.
Proof.
  intros [Hy Hd Hh Hmi Hs Hms]. unfold instant_time, end_of_time.
  pose proof (proj1 (days_range (f_year f, f_month f, f_day f) Hd) Hy) as Hr. simpl in Hr. lia.
Qed.

Lemma valid_wf f : instant_valid f → fields_wf f.
Proof.
  intros [Hy [Hm Hd] Hh Hmi Hs Hms]. pose proof (month_length (f_year f) (f_month f) Hm). split; lia.
Qed.

(** The instant at a time. *)
Definition fields_at (time : Z) : InstantFields :=
  let '(year, month, day) := civil_from_days (time / 86400000) in
  {| f_year := year; f_month := month; f_day := day; f_hour := time mod 86400000 / 3600000;
     f_minute := time mod 3600000 / 60000; f_second := time mod 60000 / 1000; f_millis := time mod 1000 |}.

Lemma fields_at_valid time : 0 ≤ time < end_of_time → instant_valid (fields_at time) ∧ instant_time (fields_at time) = time.
Proof.
  intros Ht. unfold fields_at. destruct (days_of_civil (time / 86400000)) as [Hv Hd].
  destruct (civil_from_days (time / 86400000)) as [[y m] d] eqn:Ec.
  assert (Hdays : 0 ≤ time / 86400000 ≤ 2932896) by (unfold end_of_time in Ht; Z.to_euclidean_division_equations; lia).
  rewrite <-Hd in Hdays. apply days_range in Hdays; [|done]. split.
  - split; simpl in *; [done|done|..]; Z.to_euclidean_division_equations; lia.
  - unfold instant_time. simpl in *. rewrite Hd. Z.to_euclidean_division_equations; lia.
Qed.

Lemma fields_at_time f : instant_valid f → fields_at (instant_time f) = f.
Proof.
  intros [Hy Hd Hh Hmi Hs Hms]. unfold fields_at.
  assert (instant_time f / 86400000 = days_of (f_year f, f_month f, f_day f)) as ->.
  { unfold instant_time. simpl. Z.to_euclidean_division_equations; lia. }
  rewrite civil_from_days_of by done. destruct f as [y m d h mi s ms]. unfold instant_time. simpl in *.
  f_equal; Z.to_euclidean_division_equations; lia.
Qed.

Lemma days_from_civil_u64_Some year month day :
  1 ≤ month ≤ 12 → 0 ≤ day → 0 ≤ days_from_civil year month day →
  days_from_civil_u64 year month day = Some (days_from_civil year month day).
Proof.
  intros Hm Hd Hpos. set (y := if month <=? 2 then year - 1 else year).
  pose proof (Z.mod_pos_bound y 400 ltac:(lia)) as Hb. pose proof (Z.div_mod y 400) as Hdm.
  rewrite (days_from_civil_at year month day (y / 400) (y mod 400)) in * by (fold y; lia).
  unfold days_from_civil_u64.
  replace (year - (if month <=? 2 then 1 else 0)) with y by (unfold y; destruct (month <=? 2); lia).
  replace (month + (if 2 <? month then -3 else 9)) with ((month + 9) mod 12) by (by month_cases month).
  replace (y - y / 400 * 400) with (y mod 400) by lia.
  rewrite !(Z.quot_div_nonneg (y mod 400)) by lia.
  rewrite (Z.quot_div_nonneg (153 * _ + 2)) by (Z.to_euclidean_division_equations; lia).
  unfold days_before in *. rewrite (proj2 (Z.ltb_ge _ _)) by lia. f_equal. lia.
Qed.

(** Reading succeeds exactly on the texts of valid instants, with their time. *)
Lemma instant_millis_iff s v :
  instant_millis s = Some v ↔ ∃ f, instant_valid f ∧ s = instant_text f ∧ v = instant_time f.
Proof.
  unfold instant_millis. rewrite bind_Some. split.
  - intros (f & [Hwf Hs]%read_fields_Some & H). exists f. case_match eqn:Ec; [done|]. split_bools.
    assert (Hv : instant_valid f) by (destruct Hwf; split; unfold date_valid; lia).
    split_and!; [done|done|]. pose proof (time_range f Hv) as Ht. unfold instant_time in *.
    destruct Hv as [Hy Hd Hh Hmi Hsec Hms]. pose proof (proj1 (days_range (_, _, _) Hd) Hy) as Hr. simpl in Hr.
    rewrite days_from_civil_u64_Some in H by (destruct Hd; lia). simpl in H.
    apply bind_Some in H as (v1 & Hmul & H). unfold checked_mul_u64 in Hmul. case_match; [|done]. injection Hmul as <-.
    repeat (apply bind_Some in H as (? & ? & H)). inv_result. lia.
  - intros (f & Hv & -> & ->). exists f. split; [by apply read_text, valid_wf|].
    pose proof (time_range f Hv) as Ht. unfold instant_time, end_of_time in *. destruct Hv as [Hy Hd Hh Hmi Hsec Hms].
    pose proof (proj1 (days_range (_, _, _) Hd) Hy) as Hr. simpl in Hr. destruct Hd as [Hm Hd].
    case_match eqn:Ec.
    { repeat match goal with H : _ || _ = true |- _ => apply orb_true_iff in H as [H|H] end; lia. }
    rewrite days_from_civil_u64_Some by lia. simpl. unfold checked_mul_u64, checked_add_u64, u64_max.
    repeat (case_match; simpl; [|lia]). done.
Qed.

Lemma read_valid f : instant_valid f → instant_millis (instant_text f) = Some (instant_time f).
Proof. intros Hv. apply instant_millis_iff. by exists f. Qed.

(** *** The order of the texts *)

Lemma digits_ltb w n m a b :
  0 ≤ n < 10 ^ Z.of_nat w → 0 ≤ m < 10 ^ Z.of_nat w →
  str_ltb (digits w n ++ a) (digits w m ++ b) = (n <? m) || (n =? m) && str_ltb a b.
Proof.
  revert n m. induction w as [|w IH]; intros n m Hn Hm.
  { change (10 ^ Z.of_nat 0) with 1 in *. assert (n = 0) as -> by lia. by assert (m = 0) as -> by lia. }
  destruct (first_digit w n Hn) as (Hd & Hr & Hneq), (first_digit w m Hm) as (Hd' & Hr' & Hmeq).
  change (digits (S w) n ++ a)%string with
    (String (digit_char (n / 10 ^ Z.of_nat w)) (digits w (n mod 10 ^ Z.of_nat w) ++ a)).
  change (digits (S w) m ++ b)%string with
    (String (digit_char (m / 10 ^ Z.of_nat w)) (digits w (m mod 10 ^ Z.of_nat w) ++ b)).
  rewrite str_ltb_cons, !digit_byte, IH by done. set (p := 10 ^ Z.of_nat w) in *.
  destruct (str_ltb a b); rewrite ?andb_true_r, ?andb_false_r, ?orb_false_r; apply eq_true_iff_eq;
    rewrite ?orb_true_iff, ?andb_true_iff, ?orb_true_iff, ?Z.ltb_lt, ?Z.eqb_eq; nia.
Qed.

Lemma mark_ltb c a b : str_ltb (String c "" ++ a) (String c "" ++ b) = str_ltb a b.
Proof.
  change (String c "" ++ a)%string with (String c a). change (String c "" ++ b)%string with (String c b).
  by rewrite str_ltb_cons, Z.ltb_irrefl, Z.eqb_refl.
Qed.

(** The position of an instant among the texts. *)
Definition text_key (f : InstantFields) : Z :=
  (((date_key (f_year f, f_month f, f_day f) * 100 + f_hour f) * 100 + f_minute f) * 100 + f_second f) * 1000 +
  f_millis f.

Lemma text_ltb f g :
  fields_wf f → fields_wf g → str_ltb (instant_text f) (instant_text g) = (text_key f <? text_key g).
Proof.
  intros [] []. unfold instant_text.
  repeat (rewrite digits_ltb by done; rewrite mark_ltb).
  rewrite digits_ltb by done. rewrite str_ltb_irrefl, andb_false_r, orb_false_r.
  unfold text_key, date_key. apply eq_true_iff_eq.
  repeat rewrite ?orb_true_iff, ?andb_true_iff, ?Z.ltb_lt, ?Z.eqb_eq. lia.
Qed.

Lemma valid_key_lt f g :
  instant_valid f → instant_valid g → text_key f < text_key g ↔ instant_time f < instant_time g.
Proof.
  intros [Hy Hd Hh Hmi Hs Hms] [Hy' Hd' Hh' Hmi' Hs' Hms'].
  pose proof (days_of_lt (_, _, _) (_, _, _) Hd Hd') as Hlt.
  pose proof (days_of_lt (_, _, _) (_, _, _) Hd' Hd) as Hgt. unfold text_key, instant_time.
  set (k := date_key _) in *. set (k' := date_key (f_year g, _, _)) in *. simpl in *.
  set (n := days_from_civil (f_year f) _ _) in *. set (n' := days_from_civil (f_year g) _ _) in *. lia.
Qed.

Lemma div_mod_mul a b n c : c = b * n → 0 < b → 0 < n → (a / b) mod n = (a mod c) / b.
Proof.
  intros -> Hb Hn. rewrite (Z.rem_mul_r a b n) by lia. pose proof (Z.mod_pos_bound a b Hb).
  rewrite (Z.mul_comm b), Z.div_add, (Z.div_small (a mod b)) by lia. lia.
Qed.

Lemma mod_mod_factor a b n c : c = b * n → 0 < b → 0 < n → (a mod c) mod b = a mod b.
Proof.
  intros -> Hb Hn. rewrite (Z.rem_mul_r a b n), (Z.mul_comm b), Z.mod_add by lia. apply Z.mod_mod. lia.
Qed.

Lemma millis_to_instant_spec v :
  0 ≤ v ≤ u64_max →
  millis_to_instant v = if v <? end_of_time then Some (instant_text (fields_at v)) else None.
Proof.
  intros Hv. unfold millis_to_instant.
  assert (v / 1000 / 86400 = v / 86400000) as -> by (by rewrite Z.div_div by lia).
  assert (0 ≤ v / 86400000 ≤ i64_max) as Hdays
    by (unfold u64_max, i64_max in *; Z.to_euclidean_division_equations; lia).
  rewrite (proj2 (Z.ltb_ge _ _)) by lia.
  destruct (days_of_civil (v / 86400000)) as [Hvd Hd]. pose proof (days_range _ Hvd) as Hrange. rewrite Hd in Hrange.
  destruct (civil_from_days (v / 86400000)) as [[y m] d] eqn:Ec. simpl in Hrange.
  destruct (Z.ltb_spec v end_of_time) as [Hlt|Hge]; unfold end_of_time in *.
  - assert (1970 ≤ y ≤ 9999) as Hy by (apply Hrange; Z.to_euclidean_division_equations; lia).
    rewrite (proj2 (Z.leb_le _ _)), (proj2 (Z.leb_le _ _)) by lia. simpl.
    destruct (fields_at_valid v) as [Hvalid _]; [unfold end_of_time; lia|]. f_equal.
    rewrite <-format_text by (by apply valid_wf). unfold fields_at. rewrite Ec.
    rewrite (mod_mod_factor _ 3600 24 86400), (mod_mod_factor _ 60 1440 86400) by lia.
    rewrite (div_mod_mul v 1000 86400 86400000), (div_mod_mul v 1000 3600 3600000),
      (div_mod_mul v 1000 60 60000), !Z.div_div by lia. done.
  - destruct (decide (1970 ≤ y ≤ 9999)) as [Hy|Hn].
    { apply Hrange in Hy. Z.to_euclidean_division_equations; lia. }
    destruct (Z.leb_spec 1970 y), (Z.leb_spec y 9999); try done. lia.
Qed.

Lemma offset_instant_spec f k :
  instant_valid f → 0 ≤ instant_time f + k < end_of_time →
  offset_instant (instant_text f) k = Some (instant_text (fields_at (instant_time f + k))).
Proof.
  intros Hv Hk. pose proof (valid_wf _ Hv) as Hwf. unfold offset_instant. rewrite read_text by done. cbn [mbind option_bind].
  destruct (iv_date _ Hv) as [Hm Hd]. pose proof (month_length (f_year f) (f_month f) Hm).
  rewrite (proj2 (Z.leb_le 1 _)), (proj2 (Z.leb_le _ 12)), (proj2 (Z.leb_le 1 (f_day f))), (proj2 (Z.leb_le _ 31)) by lia.
  cbn [negb andb orb]. cbv zeta. fold (instant_time f). unfold end_of_time, i64_max in *.
  rewrite (proj2 (Z.leb_le _ _)), (proj2 (Z.leb_le _ _)), (proj2 (Z.ltb_ge _ 0)) by lia. cbn [negb andb orb].
  destruct (fields_at_valid (instant_time f + k)) as [Hvalid _]; [done|].
  rewrite <-format_text by (by apply valid_wf). unfold fields_at. set (t := instant_time f + k) in *.
  destruct (civil_from_days (t / 86400000)) as [[y m] d].
  rewrite (mod_mod_factor t 3600000 24 86400000), (mod_mod_factor t 60000 1440 86400000),
    (mod_mod_factor t 1000 86400 86400000) by lia. reflexivity.
Qed.

Lemma div_floor_div a b : 0 < b → div_floor a b = a / b.
Proof.
  intros Hb. unfold div_floor. rewrite (proj2 (Z.ltb_ge b 0)) by lia.
  destruct (Z.eqb_spec (Z.rem a b) 0), (Z.ltb_spec a 0); simpl; Z.to_euclidean_division_equations; nia.
Qed.

Lemma decimal_go_all acc l v : decimal_go acc l = Some v → forallb is_ascii_digit l = true.
Proof. revert acc. induction l as [|c l IH]; intros acc; simpl; [done|]. destruct (is_ascii_digit c); [apply IH|done]. Qed.

Lemma text_shape f : fields_wf f → instant_shape (instant_text f) = true.
Proof.
  intros [H1 H2 H3 H4 H5 H6 H7]. destruct f as [y mo d h mi s ms]. unfold instant_text.
  cbn [f_year f_month f_day f_hour f_minute f_second f_millis] in *.
  destruct (digits4 y H1) as (? & ? & ? & ? & -> & Ey), (digits2 mo H2) as (? & ? & -> & Emo),
    (digits2 d H3) as (? & ? & -> & Ed), (digits2 h H4) as (? & ? & -> & Eh), (digits2 mi H5) as (? & ? & -> & Emi),
    (digits2 s H6) as (? & ? & -> & Es), (digits3 ms H7) as (? & ? & ? & -> & Ems).
  repeat match goal with H : decimal_go _ _ = Some _ |- _ => apply decimal_go_all in H; simpl in H end. split_bools.
  unfold instant_shape. change (str_len _ =? 24) with true.
  cbv -[is_ascii_digit byte_val Z.eqb].
  repeat match goal with H : is_ascii_digit _ = true |- _ => rewrite H; clear H end. reflexivity.
Qed.

(** The window is the time rounded down to a multiple of its length. *)
Lemma window_anchor_spec f w :
  instant_valid f → 1 ≤ w ≤ MAX_WINDOW_SECONDS →
  connect_attempt_window_anchor (instant_text f) w =
    Some (instant_text (fields_at (instant_time f / (w * 1000) * (w * 1000)))).
Proof.
  intros Hv Hw. pose proof (valid_wf _ Hv) as Hwf. unfold connect_attempt_window_anchor.
  rewrite text_shape, (proj2 (Z.eqb_neq w 0)), (proj2 (Z.ltb_ge _ _)) by (done || lia). cbn [negb orb].
  rewrite read_text by done. cbn [mbind option_bind].
  set (e := days_from_civil _ _ _ * 86400 + _ + _ + _).
  assert (He : instant_time f = e * 1000 + f_millis f) by (unfold instant_time, e; lia).
  pose proof (time_range f Hv) as Ht. pose proof (iv_millis _ Hv) as Hms.
  assert (Hq : instant_time f / (w * 1000) = e / w).
  { rewrite (Z.mul_comm w), <-Z.div_div, He, Z.div_add_l, (Z.div_small (f_millis f)), Z.add_0_r by lia. done. }
  rewrite Hq, (div_floor_div e w) by lia. set (a := e / w * w).
  replace (e / w * (w * 1000)) with (a * 1000) by (unfold a; lia).
  assert (Ha : 0 ≤ a * 1000 < end_of_time).
  { pose proof (Z.mod_pos_bound e w ltac:(lia)). pose proof (Z.div_mod e w ltac:(lia)).
    assert (0 ≤ e / w) by (apply Z.div_pos; lia). unfold a. nia. }
  rewrite (div_floor_div a 86400) by lia. destruct (fields_at_valid _ Ha) as [Hva _].
  replace (a - a / 86400 * 86400) with (a mod 86400) by (pose proof (Z.div_mod a 86400); lia).
  pose proof (Z.mod_pos_bound a 86400 ltac:(lia)).
  rewrite !(Z.quot_div_nonneg (a mod 86400)), !(Z.rem_mod_nonneg (a mod 86400)) by lia.
  rewrite Z.quot_div_nonneg by (pose proof (Z.mod_pos_bound (a mod 86400) 3600); lia).
  assert (Hf : fields_at (a * 1000) =
    (let '(y, m, d) := civil_from_days (a / 86400) in
     {| f_year := y; f_month := m; f_day := d; f_hour := a mod 86400 / 3600;
        f_minute := (a mod 86400) mod 3600 / 60; f_second := (a mod 86400) mod 60; f_millis := 0 |})).
  { unfold fields_at. rewrite (mod_mod_factor a 3600 24 86400), (mod_mod_factor a 60 1440 86400) by lia.
    assert (Hs : ∀ k n, n = k * 1000 → 0 < k → a * 1000 mod n = a mod k * 1000)
      by (intros ? ? -> ?; by rewrite Z.mul_mod_distr_r by lia).
    assert (Hd : ∀ b k n, n = k * 1000 → 0 < k → b * 1000 / n = b / k)
      by (intros ? ? ? -> ?; by rewrite Z.div_mul_cancel_r by lia).
    rewrite (Hs 86400 86400000), (Hs 3600 3600000), (Hs 60 60000) by lia.
    rewrite (Hd a 86400 86400000), (Hd (a mod 86400) 3600 3600000), (Hd (a mod 3600) 60 60000), Z.div_mul, Z.mod_mul by lia.
    done. }
  destruct (civil_from_days (a / 86400)) as [[y m] d]. rewrite <-Hf.
  rewrite format_text, text_shape by (by apply valid_wf). done.
Qed.

(** ** Theorems *)

(** Texts and milliseconds are two views of the same instants: every time from 1970 to the
    end of 9999 is written as a text that reads back to it, no later time is written, and a
    text that reads is the one that is written for its time. *)
Theorem instant_round_trip v s :
  (0 ≤ v < end_of_time → ∃ t, millis_to_instant v = Some t ∧ instant_millis t = Some v) ∧
  (end_of_time ≤ v ≤ u64_max → millis_to_instant v = None) ∧
  (instant_millis s = Some v → millis_to_instant v = Some s ∧ 0 ≤ v < end_of_time).
Proof.
  assert (Hend : end_of_time ≤ u64_max) by (unfold end_of_time, u64_max; lia). split_and!.
  - intros Hv. rewrite millis_to_instant_spec, (proj2 (Z.ltb_lt _ _)) by lia.
    destruct (fields_at_valid v Hv) as [Hf Ht]. eexists. split; [done|]. by rewrite read_valid, Ht.
  - intros Hv. rewrite millis_to_instant_spec, (proj2 (Z.ltb_ge _ _)) by (unfold end_of_time in *; lia). done.
  - intros (f & Hf & -> & ->)%instant_millis_iff. pose proof (time_range f Hf) as Ht.
    rewrite millis_to_instant_spec, (proj2 (Z.ltb_lt _ _)), fields_at_time by (done || lia). done.
Qed.

(** Deadlines pass on time: the text [offset_instant] makes of a valid instant and an offset
    reads as the sum of both, and a valid instant compares as a text before that deadline exactly
    when its time is before it, which is how the ledger and the routes test their deadlines. *)
Theorem deadline_passes_on_time now v offset :
  instant_millis now = Some v → 0 ≤ v + offset < end_of_time →
  ∃ deadline, offset_instant now offset = Some deadline ∧ instant_millis deadline = Some (v + offset) ∧
    ∀ t w, instant_millis t = Some w →
      str_ltb t deadline = (w <? v + offset) ∧ str_leb deadline t = (v + offset <=? w).
Proof.
  intros (f & Hf & -> & ->)%instant_millis_iff Hk. destruct (fields_at_valid _ Hk) as [Hg Hgt].
  eexists. split; [by apply offset_instant_spec|]. split; [by rewrite read_valid, Hgt|].
  intros t w (h & Hh & -> & ->)%instant_millis_iff.
  assert (Hlt : str_ltb (instant_text h) (instant_text (fields_at (instant_time f + offset))) =
    (instant_time h <? instant_time f + offset)).
  { rewrite text_ltb by (by apply valid_wf). apply eq_true_iff_eq. rewrite !Z.ltb_lt, valid_key_lt by done.
    by rewrite Hgt. }
  split; [done|]. unfold str_leb. rewrite Hlt. by rewrite Z.leb_antisym.
Qed.

Lemma deadline_passes_on_time_witness :
  offset_instant "2024-02-28T23:59:59.500Z" 86400500 = Some "2024-03-01T00:00:00.000Z"%string.
Proof.
  destruct (deadline_passes_on_time "2024-02-28T23:59:59.500Z" 1709164799500 86400500) as (d & Hd & Hm & _);
    [vm_compute; reflexivity|unfold end_of_time; lia|]. rewrite Hd. f_equal. vm_compute in Hd. by injection Hd as <-.
Defined.

Lemma instant_round_trip_witness : millis_to_instant 1709251199999 = Some "2024-02-29T23:59:59.999Z"%string.
Proof.
  destruct (instant_round_trip 1709251199999 "2024-02-29T23:59:59.999Z") as (_ & _ & H).
  apply H. vm_compute. reflexivity.
Defined.
