(* ===== verification/NetworkPolicy.v ===== *)
(** * The network request policy

    Models [crates/winwincode-network/src/policy.rs] (failure classification and the retry
    decision), the retry state and the blocking retry loop of
    [crates/winwincode-network/src/lib.rs], and the response-log reference of
    [crates/winwincode-network/src/diagnostic.rs].  A [Duration] is its length in
    nanoseconds, bounded by [Duration::MAX]. *)

From Stdlib Require Import Ascii String.
From S2P Require Import Prelude Text Numerals.
Local Open Scope Z_scope.

(** ** Durations *)

(** [Duration::MAX]: [u64::MAX] seconds and 999,999,999 nanoseconds. *)
Definition DURATION_MAX : Z := u64_max * 1000000000 + 999999999.

(** [Duration::from_millis]. *)
Definition from_millis (ms : Z) : Z := ms * 1000000.

(** [Duration::saturating_mul] and [Duration::saturating_add]. *)
Definition duration_mul (d k : Z) : Z := Z.min (d * k) DURATION_MAX.
Definition duration_add (a b : Z) : Z := Z.min (a + b) DURATION_MAX.

(** [u64::try_from(duration.as_millis()).unwrap_or(u64::MAX)]. *)
Definition duration_millis (d : Z) : Z := Z.min (d / 1000000) u64_max.

(** ** Failures *)

Inductive ErrorKind : Type :=
| ConnectionUnavailable
| TransportInterrupted
| Timeout
| RateLimited
| ServerTransient
| Authentication
| Authorization
| RequestInvalid
| ProtocolInvalid
| IntegrityInvalid
| TlsInvalid
| StreamIncomplete
| EmptyResponse
| Cancelled
| AuthorityExpired
| StorageUnavailable.

#[global] Instance ErrorKind_eq_dec : EqDecision ErrorKind.
Proof. solve_decision. Defined.

Inductive Acceptance : Type :=
| NotSent
| Unknown
| ResponseReceived.

#[global] Instance Acceptance_eq_dec : EqDecision Acceptance.
Proof. solve_decision. Defined.

Inductive Replay : Type :=
| RetryInference
| ReplayExact
| ReconcileFirst.

#[global] Instance Replay_eq_dec : EqDecision Replay.
Proof. solve_decision. Defined.

Inductive Phase : Type :=
| Connect
| ResponseHeaders
| ResponseBody
| Stream
| Decode
| Persist.

Inductive DiagnosticCode : Type :=
| DiagHttpStatus | DiagDns | DiagConnect | DiagIo | DiagTimeout | DiagTls | DiagTlsCertificate
| DiagHttpProtocol | DiagRequestUri | DiagRequestHeaders | DiagProxy | DiagRedirect
| DiagResponseHeadersTooLarge | DiagBodyTooLarge | DiagContentType | DiagTransportOther
| DiagJsonSyntax | DiagJsonSchema | DiagResponseInvariant | DiagSchemaVersion | DiagSseFraming
| DiagSseEvent | DiagStreamConversion | DiagStreamIncomplete | DiagEmptyResponse
| DiagIdentityConflict | DiagCredentialBlocked | DiagStorage | DiagConfiguration
| DiagAuthorityEnded.

Inductive IoFailureKind : Type :=
| IoTimedOut | IoConnectionRefused | IoNotConnected | IoNetworkUnreachable | IoHostUnreachable
| IoUnexpectedEof | IoConnectionReset | IoConnectionAborted | IoBrokenPipe | IoInterrupted
| IoInvalidData | IoPermissionDenied | IoOther.

Inductive DiagnosticField : Type :=
| FieldContentType | FieldModel | FieldAnswers | FieldAnswerType | FieldProbabilities
| FieldChoice | FieldConfidence | FieldUsageInputTokens | FieldUsageOutputTokens | FieldScores
| FieldLabels | FieldEntailment | FieldContradiction | FieldNeutral.

Inductive ResponseLogStatus : Type :=
| Retained
| WriteFailed.

(** The 32 bytes of a response log's identity. *)
Record SseResponseLogId : Type := { log_bytes : list Z }.

Record NetworkDiagnostic : Type := {
  code : DiagnosticCode;
  field : option DiagnosticField;
  io_kind : option IoFailureKind;
  os_code : option Z;
  line : option Z;
  column : option Z;
  response_log : option SseResponseLogId;
  response_log_status : option ResponseLogStatus
}.

Definition diagnostic_new (c : DiagnosticCode) : NetworkDiagnostic :=
  {| code := c; field := None; io_kind := None; os_code := None; line := None; column := None;
     response_log := None; response_log_status := None |}.

Record NetworkFailure : Type := {
  kind : ErrorKind;
  acceptance : Acceptance;
  phase : Phase;
  http_status : option Z;
  retry_after_ms : option Z;
  diagnostic : option NetworkDiagnostic
}.

Definition failure_new (k : ErrorKind) (a : Acceptance) (p : Phase) : NetworkFailure :=
  {| kind := k; acceptance := a; phase := p; http_status := None; retry_after_ms := None;
     diagnostic := None |}.

Definition with_diagnostic (f : NetworkFailure) (d : NetworkDiagnostic) : NetworkFailure :=
  {| kind := kind f; acceptance := acceptance f; phase := phase f; http_status := http_status f;
     retry_after_ms := retry_after_ms f; diagnostic := Some d |}.

Definition http_kind (status : Z) : ErrorKind :=
  if status =? 401 then Authentication
  else if status =? 403 then Authorization
  else if status =? 408 then Timeout
  else if (status =? 425) || ((500 <=? status) && (status <=? 599)) then ServerTransient
  else if status =? 429 then RateLimited
  else RequestInvalid.

Definition http (status : Z) (retry_after : option Z) : NetworkFailure :=
  {| kind := http_kind status; acceptance := ResponseReceived; phase := ResponseHeaders;
     http_status := Some status; retry_after_ms := duration_millis <$> retry_after;
     diagnostic := Some (diagnostic_new DiagHttpStatus) |}.

(** *** The response-log reference: [sse-<64 hex digits>.log] *)

(** [{byte:02x}]. *)
Definition hex2 (b : Z) : string := String (digit_char (b / 16)) (String (digit_char (b mod 16)) "").

Definition display_log_id (i : SseResponseLogId) : string :=
  "sse-" ++ foldr (λ b s, hex2 b ++ s)%string "" (log_bytes i) ++ ".log".

(** [str::strip_suffix]. *)
Fixpoint strip_suffix (suffix s : string) : option string :=
  if bool_decide (s = suffix) then Some ""%string else
  match s with
  | EmptyString => None
  | String c s => String c <$> strip_suffix suffix s
  end.

(** The loop over [u8::from_str_radix(&hex[2 * i..2 * i + 2], 16)]. *)
Fixpoint read_hex2 (s : string) : option (list Z) :=
  match s with
  | String a (String b s) =>
      d1 ← digit_val 16 a; d2 ← digit_val 16 b; bs ← read_hex2 s; Some (d1 * 16 + d2 :: bs)
  | EmptyString => Some []
  | _ => None
  end.

Definition parse_log_id (value : string) : option SseResponseLogId :=
  rest ← strip_prefix "sse-" value;
  hex ← strip_suffix ".log" rest;
  if negb (str_len hex =? 64) || negb (all_bytes is_hex_lower hex) then None
  else bs ← read_hex2 hex; Some {| log_bytes := bs |}.

(** ** The policy *)

Record Defaults : Type := {
  version : string;
  max_attempts_default : Z;
  initial_delay_ms : Z;
  max_connection_delay_ms : Z;
  max_immediate_wait_ms : Z;
  authority_check_ms : Z;
  jitter_ms_max : Z;
  transient_kinds : list ErrorKind
}.

(** [schema/winwincode/network-request-policy.json]. *)
Definition defaults : Defaults :=
  {| version := "winwincode.network-request-policy.v1";
     max_attempts_default := 4;
     initial_delay_ms := 5000;
     max_connection_delay_ms := 60000;
     max_immediate_wait_ms := 300000;
     authority_check_ms := 100;
     jitter_ms_max := 255;
     transient_kinds :=
       [ConnectionUnavailable; TransportInterrupted; Timeout; RateLimited; ServerTransient;
        StreamIncomplete; ProtocolInvalid; EmptyResponse] |}.

Definition failure_retryable (f : NetworkFailure) : bool :=
  bool_decide (kind f ∈ transient_kinds defaults).

Inductive RetryDecision : Type :=
| RetryAfter (delay : Z)
| DeferredUntil (delay : Z)
| Reconcile
| Stop.

#[global] Instance RetryDecision_eq_dec : EqDecision RetryDecision.
Proof. solve_decision. Defined.

(** [2_u32.saturating_pow(n)]. *)
Definition pow2_saturating (n : Z) : Z := if n <? 32 then 2 ^ n else u32_max.

Definition exponential_delay (ordinal initial cap : Z) : Z :=
  Z.min (duration_mul initial (pow2_saturating (saturating_sub ordinal 1))) cap.

(** Nothing reached the server: the request was not sent and the connection failed. *)
Definition disconnected (f : NetworkFailure) : bool :=
  bool_decide (acceptance f = NotSent) &&
  match kind f with ConnectionUnavailable | Timeout => true | _ => false end.

Definition decide (f : NetworkFailure) (replay : Replay)
    (attempt connection_attempt max_attempts jitter_ms : Z) : RetryDecision :=
  if negb (failure_retryable f) then Stop
  else if bool_decide (replay = ReconcileFirst) && bool_decide (acceptance f ≠ NotSent)
  then Reconcile
  else
    let durable_control := bool_decide (replay = ReplayExact) in
    if negb (disconnected f) && negb durable_control && (Z.max max_attempts 1 <=? attempt)
    then Stop
    else
      let ordinal := if disconnected f then Z.max connection_attempt 1 else Z.max attempt 1 in
      let delay := exponential_delay ordinal (from_millis (initial_delay_ms defaults))
        (if disconnected f || durable_control
         then from_millis (max_connection_delay_ms defaults) else DURATION_MAX) in
      let delay := match retry_after_ms f with
                   | Some floor => Z.max delay (from_millis floor)
                   | None => delay
                   end in
      let delay := duration_add delay (from_millis (Z.min jitter_ms (jitter_ms_max defaults))) in
      if from_millis (max_immediate_wait_ms defaults) <? delay
      then DeferredUntil delay else RetryAfter delay.

Definition immediate_delay (d : RetryDecision) : option Z :=
  match d with RetryAfter delay => Some delay | _ => None end.

(** ** The [RetryFailure] trait *)

Class RetryFailure (E : Type) : Type := {
  retryable : E → bool;
  retry_after : E → option Z;
  wait_for_connection : E → bool;
  network_failure : E → NetworkFailure
}.

(** The trait's provided [network_failure]. *)
Definition default_network_failure (retryable wait_for_connection : bool)
    (retry_after : option Z) : NetworkFailure :=
  {| kind := if wait_for_connection then ConnectionUnavailable
             else if retryable then TransportInterrupted else RequestInvalid;
     acceptance := if wait_for_connection then NotSent else Unknown;
     phase := ResponseHeaders; http_status := None;
     retry_after_ms := duration_millis <$> retry_after; diagnostic := None |}.

#[global] Instance NetworkFailure_retry : RetryFailure NetworkFailure := {
  retryable := failure_retryable;
  retry_after f := from_millis <$> retry_after_ms f;
  wait_for_connection := disconnected;
  network_failure f := f
}.

(** An implementor that keeps the provided [network_failure]. *)
Record PlainFailure : Type := {
  plain_retryable : bool;
  plain_retry_after : option Z;
  plain_wait : bool
}.

#[global] Instance PlainFailure_retry : RetryFailure PlainFailure := {
  retryable := plain_retryable;
  retry_after := plain_retry_after;
  wait_for_connection := plain_wait;
  network_failure f :=
    default_network_failure (plain_retryable f) (plain_wait f) (plain_retry_after f)
}.

(** What the retry state relies on: a failure waits for the connection exactly when its
    network failure says that nothing was sent. *)
Class RetryFailureLaws (E : Type) `{!RetryFailure E} : Prop :=
  wait_disconnected : ∀ e : E, wait_for_connection e = disconnected (network_failure e).

#[global] Instance NetworkFailure_laws : RetryFailureLaws NetworkFailure.
Proof. by intros f. Qed.

#[global] Instance PlainFailure_laws : RetryFailureLaws PlainFailure.
Proof. intros [[] ? []]; done. Qed.

(** ** The retry state *)

Record RequestRetry : Type := {
  max_attempts : Z;
  jitter_key : list Z;
  replay : Replay
}.

(** [RequestRetry::new], with the key that hashing and the random source produced. *)
Definition retry_new (attempts : Z) (key : list Z) : RequestRetry :=
  {| max_attempts := Z.max attempts 1; jitter_key := key; replay := RetryInference |}.

Definition for_replay (p : RequestRetry) (r : Replay) : RequestRetry :=
  {| max_attempts := max_attempts p; jitter_key := jitter_key p; replay := r |}.

Record RequestRetryState : Type := {
  policy : RequestRetry;
  attempt : Z;
  connections : Z
}.

(** [u32::clamp]. *)
Definition clamp (x lo hi : Z) : Z := if x <? lo then lo else if hi <? x then hi else x.

Definition state_at_with_connections (p : RequestRetry) (a c : Z) : RequestRetryState :=
  {| policy := p; attempt := clamp a 1 (max_attempts p); connections := c |}.

Definition state_at (p : RequestRetry) (a : Z) : RequestRetryState :=
  state_at_with_connections p a 0.

Definition state (p : RequestRetry) : RequestRetryState := state_at p 1.

(** [u32::to_le_bytes]. *)
Definition to_le_bytes (n : Z) : list Z :=
  [n mod 256; (n / 256) mod 256; (n / 65536) mod 256; (n / 16777216) mod 256].

Section retry.
(** SHA-256, from the [sha2] crate. *)
Context (sha256 : list Z → list Z).
Context {E : Type} `{!RetryFailure E}.

Definition policy_decide (p : RequestRetry) (a c : Z) (e : E) : RetryDecision :=
  decide (network_failure e) (replay p) a c (max_attempts p)
    (default 0 (sha256 (jitter_key p ++ to_le_bytes a) !! 0%nat)).

Definition decision_after (s : RequestRetryState) (e : E) : RequestRetryState * RetryDecision :=
  if wait_for_connection e then
    let c := saturating_add_u32 (connections s) 1 in
    ({| policy := policy s; attempt := attempt s; connections := c |},
     policy_decide (policy s) (attempt s) c e)
  else
    let decision := policy_decide (policy s) (attempt s) 0 e in
    ({| policy := policy s;
        attempt := match decision with
                   | RetryAfter _ | DeferredUntil _ => saturating_add_u32 (attempt s) 1
                   | _ => attempt s
                   end;
        connections := 0 |}, decision).

Definition delay_after (s : RequestRetryState) (e : E) : RequestRetryState * option Z :=
  let '(s', d) := decision_after s e in (s', immediate_delay d).

(** [RequestRetry::delay_after]. *)
Definition policy_delay_after (p : RequestRetry) (a : Z) (e : E) : option Z :=
  immediate_delay (policy_decide p a a e).

(** *** The blocking loop

    The surroundings of the loop (the caller's closures, the clock and the sleeping
    thread) act on a world [W]. *)

Context {W T : Type}.
Context (can_start : W → bool * W) (stopped : W → E).
Context (operation : Z → W → result E T * W) (retain : Z → result E T → W → result E () * W).
Context (now : W → Z * W) (sleep : Z → W → W).

(** [while let Some(remaining) = deadline.checked_duration_since(Instant::now())]: [true]
    when the deadline has passed, [false] when authority was lost. *)
Fixpoint wait_loop (fuel : nat) (deadline : Z) (w : W) : option (bool * W) :=
  match fuel with
  | O => None
  | S fuel =>
      let '(n, w) := now w in
      if deadline <? n then Some (true, w) else
      let '(ok, w) := can_start w in
      if ok
      then wait_loop fuel deadline
             (sleep (Z.min (deadline - n) (from_millis (authority_check_ms defaults))) w)
      else Some (false, w)
  end.

(** One turn of [loop]: [inl] is a return, [inr] goes round again. *)
Definition run_turn (wait_fuel : nat) (s : RequestRetryState) (w : W) :
    option (result E T * W + RequestRetryState * W) :=
  let '(ok, w) := can_start w in
  if negb ok then Some (inl (Err (stopped w), w)) else
  let '(r, w) := operation (attempt s) w in
  let '(kept, w) := retain (attempt s) r w in
  match kept, r with
  | Err e, _ => Some (inl (Err e, w))
  | Ok _, Ok v => Some (inl (Ok v, w))
  | Ok _, Err e =>
      let '(s, decision) := decision_after s e in
      match decision with
      | Stop | Reconcile => Some (inl (Err e, w))
      | RetryAfter delay | DeferredUntil delay =>
          let '(start, w) := now w in
          '(elapsed, w) ← wait_loop wait_fuel (start + delay) w;
          Some (if (elapsed : bool) then inr (s, w) else inl (Err (stopped w), w))
      end
  end.

Fixpoint run_loop (fuel wait_fuel : nat) (s : RequestRetryState) (w : W) : option (result E T * W) :=
  match fuel with
  | O => None
  | S fuel =>
      turn ← run_turn wait_fuel s w;
      match turn with
      | inl r => Some r
      | inr (s, w) => run_loop fuel wait_fuel s w
      end
  end.

Definition run_blocking (fuel wait_fuel : nat) (p : RequestRetry) (w : W) : option (result E T * W) :=
  run_loop fuel wait_fuel (state p) w.
End retry.

Definition connection_delay (a : Z) : Z :=
  exponential_delay a (from_millis (initial_delay_ms defaults))
    (from_millis (max_connection_delay_ms defaults)).

(** ** Lemmas *)

Lemma pow2_saturating_bounds n : 0 ≤ n → 1 ≤ pow2_saturating n ≤ u32_max.
Proof.
  intros Hn. unfold pow2_saturating, u32_max. destruct (Z.ltb_spec n 32); [|lia].
  pose proof (Z.pow_pos_nonneg 2 n). pose proof (Z.pow_le_mono_r 2 n 31).
  change (2 ^ 31) with 2147483648 in *. lia.
Qed.

Lemma pow2_saturating_mono n m : 0 ≤ n ≤ m → pow2_saturating n ≤ pow2_saturating m.
Proof.
  intros Hn. pose proof (pow2_saturating_bounds n). unfold pow2_saturating in *.
  destruct (Z.ltb_spec m 32); [|lia]. rewrite (proj2 (Z.ltb_lt n 32)) by lia.
  apply Z.pow_le_mono_r; lia.
Qed.

Lemma exponential_delay_bounds n initial cap :
  0 ≤ initial ≤ cap → cap ≤ DURATION_MAX → initial ≤ exponential_delay n initial cap ≤ cap.
Proof.
  intros Hi Hc. unfold exponential_delay, duration_mul.
  pose proof (pow2_saturating_bounds (saturating_sub n 1)) as Hp.
  unfold saturating_sub in *. nia.
Qed.

Lemma exponential_delay_mono n m initial cap :
  0 ≤ initial → n ≤ m → exponential_delay n initial cap ≤ exponential_delay m initial cap.
Proof.
  intros Hi Hnm. unfold exponential_delay, duration_mul.
  pose proof (pow2_saturating_mono (saturating_sub n 1) (saturating_sub m 1)) as Hp.
  unfold saturating_sub in *. nia.
Qed.

Lemma kinds_disconnected f : disconnected f = true → failure_retryable f = true ∧ acceptance f = NotSent.
Proof.
  unfold disconnected, failure_retryable. intros H. split_bools. split; [|done].
  destruct (kind f); try done.
Qed.

(** The delay [decide] computes before it chooses between waiting and deferring. *)
Definition planned_delay (f : NetworkFailure) (r : Replay) (a c j : Z) : Z :=
  duration_add
    (match retry_after_ms f with
     | Some floor => Z.max (exponential_delay
         (if disconnected f then Z.max c 1 else Z.max a 1) (from_millis 5000)
         (if disconnected f || bool_decide (r = ReplayExact) then from_millis 60000
          else DURATION_MAX)) (from_millis floor)
     | None => exponential_delay (if disconnected f then Z.max c 1 else Z.max a 1)
         (from_millis 5000)
         (if disconnected f || bool_decide (r = ReplayExact) then from_millis 60000
          else DURATION_MAX)
     end) (from_millis (Z.min j 255)).

Lemma decide_eq f r a c m j :
  decide f r a c m j =
    if negb (failure_retryable f) then Stop
    else if bool_decide (r = ReconcileFirst) && bool_decide (acceptance f ≠ NotSent) then Reconcile
    else if negb (disconnected f) && negb (bool_decide (r = ReplayExact)) && (Z.max m 1 <=? a)
    then Stop
    else if from_millis 300000 <? planned_delay f r a c j
    then DeferredUntil (planned_delay f r a c j) else RetryAfter (planned_delay f r a c j).
Proof. done. Qed.

Lemma planned_delay_bounds f r a c j :
  0 ≤ j → from_option (λ ms, 0 ≤ ms ≤ u64_max) True (retry_after_ms f) →
  from_millis 5000 ≤ planned_delay f r a c j ≤ DURATION_MAX ∧
  from_option (λ ms, from_millis ms ≤ planned_delay f r a c j) True (retry_after_ms f) ∧
  (retry_after_ms f = None → disconnected f || bool_decide (r = ReplayExact) = true →
   planned_delay f r a c j ≤ from_millis 60255).
Proof.
  intros Hj Hms. unfold planned_delay.
  set (n := if disconnected f then Z.max c 1 else Z.max a 1). clearbody n.
  destruct (disconnected f || bool_decide (r = ReplayExact)).
  - pose proof (exponential_delay_bounds n (from_millis 5000) (from_millis 60000)) as Hb.
    unfold duration_add, from_millis, DURATION_MAX, u64_max in *.
    destruct (retry_after_ms f) as [ms|]; simpl in *; split_and!; try done; lia.
  - pose proof (exponential_delay_bounds n (from_millis 5000) DURATION_MAX) as Hb.
    unfold duration_add, from_millis, DURATION_MAX, u64_max in *.
    destruct (retry_after_ms f) as [ms|]; simpl in *; split_and!; try done; lia.
Qed.

(** ** Properties of the decision *)

(** Bounds of every retry: a retried request waits at least five seconds and at least
    what the server asked for; it waits in place for at most five minutes and is deferred
    beyond that; and a request that never reached the server, or a durable control
    message, is always retried in place within about a minute unless the server asked for
    more. *)
Theorem decide_delay_bounds f r a c m j :
  0 ≤ j → from_option (λ ms, 0 ≤ ms ≤ u64_max) True (retry_after_ms f) →
  (∀ d, decide f r a c m j = RetryAfter d ∨ decide f r a c m j = DeferredUntil d →
     from_millis 5000 ≤ d ≤ DURATION_MAX ∧
     from_option (λ ms, from_millis ms ≤ d) True (retry_after_ms f)) ∧
  (∀ d, decide f r a c m j = RetryAfter d → d ≤ from_millis 300000) ∧
  (∀ d, decide f r a c m j = DeferredUntil d → from_millis 300000 < d) ∧
  (failure_retryable f = true → disconnected f = true ∨ r = ReplayExact →
   retry_after_ms f = None → ∃ d, decide f r a c m j = RetryAfter d ∧ d ≤ from_millis 60255).
Proof.
  intros Hj Hms. pose proof (planned_delay_bounds f r a c j Hj Hms) as (H1 & H2 & H3).
  rewrite decide_eq. set (p := planned_delay f r a c j) in *. clearbody p.
  assert (Hlast : failure_retryable f = true → disconnected f = true ∨ r = ReplayExact →
    bool_decide (r = ReconcileFirst) && bool_decide (acceptance f ≠ NotSent) = false ∧
    negb (disconnected f) && negb (bool_decide (r = ReplayExact)) && (Z.max m 1 <=? a) = false ∧
    disconnected f || bool_decide (r = ReplayExact) = true).
  { intros _ [Hd| ->].
    - rewrite Hd. apply kinds_disconnected in Hd as [_ Ha].
      rewrite (bool_decide_false (acceptance f ≠ NotSent)), andb_false_r by naive_solver. done.
    - rewrite (bool_decide_true (ReplayExact = ReplayExact)) by done.
      by rewrite andb_false_r, orb_true_r. }
  split_and!.
  - intros d. repeat case_match; naive_solver.
  - intros d. repeat case_match; intros [= <-].
    match goal with H : (_ <? _) = false |- _ => apply Z.ltb_ge in H end. done.
  - intros d. repeat case_match; intros [= <-].
    match goal with H : (_ <? _) = true |- _ => apply Z.ltb_lt in H end. done.
  - intros Hr Hd Hn. destruct (Hlast Hr Hd) as (-> & -> & E). rewrite Hr. simpl.
    specialize (H3 Hn E). rewrite (proj2 (Z.ltb_ge _ _)) by (unfold from_millis in *; lia). eauto.
Qed.

Lemma decide_retried f r a c m j d :
  decide f r a c m j = RetryAfter d ∨ decide f r a c m j = DeferredUntil d →
  kind f ∈ transient_kinds defaults ∧
  (r = ReconcileFirst → acceptance f = NotSent) ∧
  (r = ReplayExact ∨ disconnected f = true ∨ a < Z.max m 1).
Proof.
  rewrite decide_eq. unfold failure_retryable. intros H.
  destruct (bool_decide (kind f ∈ transient_kinds defaults)) eqn:Ek; [|simpl in H; naive_solver].
  destruct (bool_decide (r = ReconcileFirst) && bool_decide (acceptance f ≠ NotSent)) eqn:Er;
    [simpl in H; naive_solver|].
  destruct (negb (disconnected f) && negb (bool_decide (r = ReplayExact)) && (Z.max m 1 <=? a)) eqn:Es;
    [simpl in H; naive_solver|].
  split_bools. split_and!; [done|..].
  - intros ->. rewrite bool_decide_true in Er by done. simpl in Er. by split_bools.
  - destruct (disconnected f); [naive_solver|]. simpl in Es.
    destruct (bool_decide (r = ReplayExact)) eqn:Ee; split_bools; [naive_solver|].
    simpl in Es. right; right. by apply Z.leb_gt.
Qed.

(** What is never sent again: a failure outside the transient kinds stops; under
    [ReconcileFirst] a request is sent again only if it never left, otherwise its outcome
    is reconciled first; and an inference whose attempts are used up stops unless it never
    reached the server. *)
Theorem decide_no_unsafe_resend f r a c m j d :
  decide f r a c m j = RetryAfter d ∨ decide f r a c m j = DeferredUntil d →
  kind f ∈ transient_kinds defaults ∧
  (r = ReconcileFirst → acceptance f = NotSent) ∧
  (r = ReplayExact ∨ disconnected f = true ∨ a < Z.max m 1).
Proof. apply decide_retried. Qed.

(** ** Properties of the retry state and loop *)

Definition retried (d : RetryDecision) : bool :=
  match d with RetryAfter _ | DeferredUntil _ => true | _ => false end.

Section retry_facts.
Context (sha256 : list Z → list Z) {E : Type} `{!RetryFailure E, !RetryFailureLaws E}.

(** The state and the decisions after a sequence of failures. *)
Fixpoint retry_run (s : RequestRetryState) (es : list E) : RequestRetryState * list RetryDecision :=
  match es with
  | [] => (s, [])
  | e :: es =>
      let '(s1, d) := decision_after sha256 s e in
      let '(s2, ds) := retry_run s1 es in (s2, d :: ds)
  end.

(** The retries that used up an attempt: those of a request that may have been sent. *)
Definition attempts_used (es : list E) (ds : list RetryDecision) : Z :=
  Z.of_nat (length (List.filter (λ '(e, d), negb (wait_for_connection e) && retried d) (zip es ds))).

(** A state whose attempt is within the budget of a policy that is not replayed forever. *)
Definition within_budget (s : RequestRetryState) : Prop :=
  replay (policy s) ≠ ReplayExact ∧ max_attempts (policy s) ≤ u32_max ∧
  1 ≤ attempt s ≤ max_attempts (policy s).

Lemma decision_after_budget s e :
  within_budget s →
  let '(s', d) := decision_after sha256 s e in
  within_budget s' ∧ policy s' = policy s ∧
  attempt s' = attempt s + (if negb (wait_for_connection e) && retried d then 1 else 0).
Proof.
  intros (Hr & Hm & Ha). unfold decision_after.
  destruct (wait_for_connection e) eqn:Hw; simpl; [split_and!; (done || lia)|].
  set (d := policy_decide sha256 (policy s) (attempt s) 0 e).
  assert (Hlt : retried d = true → attempt s < max_attempts (policy s)).
  { intros Hd. destruct (decide_retried (network_failure e) (replay (policy s)) (attempt s) 0
      (max_attempts (policy s)) (default 0 (sha256 (jitter_key (policy s) ++
        to_le_bytes (attempt s)) !! 0%nat))
      (match d with RetryAfter x | DeferredUntil x => x | _ => 0 end)) as (_ & _ & [?|[Hdis|?]]).
    - unfold d, policy_decide in *. destruct (decide _ _ _ _ _ _); try done; eauto.
    - done.
    - rewrite <-wait_disconnected in Hdis. congruence.
    - lia. }
  unfold within_budget. destruct d; simpl in *; unfold saturating_add_u32;
    split_and!; (done || lia).
Qed.

(** The retry budget: whatever failures occur, a request that is not replayed forever
    uses at most [max_attempts] attempts; failures to connect do not count, and the
    attempt number is one more than the retries that did. *)
Theorem retry_budget p es :
  replay p ≠ ReplayExact → 1 ≤ max_attempts p ≤ u32_max →
  let '(s, ds) := retry_run (state p) es in
  attempt s = 1 + attempts_used es ds ∧ attempts_used es ds ≤ max_attempts p - 1.
Proof.
  intros Hr Hm.
  assert (Hs : within_budget (state p) ∧ attempt (state p) = 1).
  { unfold state, state_at, state_at_with_connections, within_budget, clamp. simpl.
    rewrite (proj2 (Z.ltb_ge (max_attempts p) 1)) by lia. split_and!; (done || lia). }
  cut (∀ s, within_budget s → let '(s', ds) := retry_run s es in
         within_budget s' ∧ policy s' = policy s ∧
         attempt s' = attempt s + attempts_used es ds).
  { intros H. specialize (H (state p) (proj1 Hs)). destruct (retry_run (state p) es) as [s ds].
    destruct H as ((_ & _ & Hb) & Hp & Ha). rewrite Hp in Hb. simpl in Hb. lia. }
  clear Hs. induction es as [|e es IH]; intros s Hs; simpl.
  { unfold attempts_used. simpl. split_and!; (done || lia). }
  pose proof (decision_after_budget s e Hs) as H1.
  destruct (decision_after sha256 s e) as [s1 d]. destruct H1 as (H1 & P1 & A1).
  specialize (IH s1 H1). destruct (retry_run s1 es) as [s2 ds]. destruct IH as (H2 & P2 & A2).
  split_and!; [done|congruence|]. unfold attempts_used in *. simpl.
  destruct (negb (wait_for_connection e) && retried d); simpl; lia.
Qed.

(** *** Termination of the blocking loop *)

Context {W T : Type}.
Context (can_start : W → bool * W) (stopped : W → E).
Context (operation : Z → W → result E T * W) (retain : Z → result E T → W → result E () * W).
Context (now : W → Z * W) (sleep : Z → W → W).

(** What the loop relies on in its surroundings: the monotonic clock does not go back and
    advances over a sleep. *)
Record clock_ok (clock : W → Z) : Prop := {
  now_reads : ∀ w, (now w).1 = clock w ∧ clock w ≤ clock (now w).2;
  can_start_clock : ∀ w, clock w ≤ clock (can_start w).2;
  sleep_advances : ∀ d w, clock w < clock (sleep d w)
}.

(** The longest possible delay bounds the polling rounds, one nanosecond at a time. *)
Context (wait_fuel : nat) (Hwait_fuel : DURATION_MAX + 1 < Z.of_nat wait_fuel).

Lemma wait_loop_total clock fuel deadline w :
  clock_ok clock → Z.max 0 (deadline - clock w + 1) < Z.of_nat fuel →
  is_Some (wait_loop can_start now sleep fuel deadline w).
Proof.
  intros Hc. revert w. induction fuel as [|fuel IH]; intros w Hf; [lia|]. simpl.
  destruct (now_reads _ Hc w) as [Hn Hle]. destruct (now w) as [n w1]. simpl in *. subst n.
  destruct (Z.ltb_spec deadline (clock w)); [eauto|].
  pose proof (can_start_clock _ Hc w1) as Hcs. destruct (can_start w1) as [[] w2]; [|eauto].
  simpl in Hcs. apply IH. match goal with |- context [sleep ?d w2] =>
    pose proof (sleep_advances _ Hc d w2) end. lia.
Qed.

Lemma planned_delay_max f r a c m j d :
  decide f r a c m j = RetryAfter d ∨ decide f r a c m j = DeferredUntil d → d ≤ DURATION_MAX.
Proof.
  rewrite decide_eq. unfold planned_delay, duration_add.
  repeat case_match; intros [[=]|[=]]; subst; lia.
Qed.

(** Whenever the loop goes round again it has used an attempt and stays in its budget. *)
Lemma run_turn_total clock s w :
  clock_ok clock → within_budget s →
  (∀ a w e w', operation a w = (Err e, w') → wait_for_connection e = false) →
  ∃ t, run_turn sha256 can_start stopped operation retain now sleep wait_fuel s w = Some t ∧
    match t with
    | inl _ => True
    | inr (s', _) => within_budget s' ∧ policy s' = policy s ∧ attempt s' = attempt s + 1
    end.
Proof.
  intros Hc Hs Hop. unfold run_turn. destruct (can_start w) as [[] w1]; simpl; [|by eexists; split].
  destruct (operation (attempt s) w1) as [r w2] eqn:Eo.
  destruct (retain (attempt s) r w2) as [[[]|e'] w3]; [|by eexists; split]. destruct r as [v|e]; [by eexists; split|].
  pose proof (decision_after_budget s e Hs) as Hb. rewrite (Hop _ _ _ _ Eo) in Hb.
  assert (Hmax : ∀ d, (decision_after sha256 s e).2 = RetryAfter d ∨
                      (decision_after sha256 s e).2 = DeferredUntil d → d ≤ DURATION_MAX).
  { unfold decision_after. rewrite (Hop _ _ _ _ Eo). simpl. unfold policy_decide.
    intros d. apply planned_delay_max. }
  destruct (decision_after sha256 s e) as [s' d]. destruct Hb as (Hb & Hp & Ha). simpl in *.
  assert (Hwait : ∀ delay, delay ≤ DURATION_MAX →
    is_Some (wait_loop can_start now sleep wait_fuel ((now w3).1 + delay) (now w3).2)).
  { intros delay Hd. apply (wait_loop_total clock); [done|]. destruct (now_reads _ Hc w3) as [-> ?].
    unfold DURATION_MAX, u64_max in *. lia. }
  destruct (now w3) as [start w4]. simpl in Hwait. destruct d as [d|d| |]; [| |by eexists; split..].
  - destruct (Hwait d) as [[el w5] ->]; [eauto|]. simpl.
    destruct el; eexists; (split; [reflexivity|done]).
  - destruct (Hwait d) as [[el w5] ->]; [eauto|]. simpl.
    destruct el; eexists; (split; [reflexivity|done]).
Qed.

(** The blocking loop returns: when the server is reachable (no failure is one that
    waits for the connection) and the request is not replayed forever, [max_attempts]
    turns always suffice, whatever the caller's closures do, as long as the clock moves
    over a sleep. *)
Theorem run_blocking_terminates clock p w :
  clock_ok clock → replay p ≠ ReplayExact → 1 ≤ max_attempts p ≤ u32_max →
  (∀ a w e w', operation a w = (Err e, w') → wait_for_connection e = false) →
  ∃ r, run_blocking sha256 can_start stopped operation retain now sleep
         (Z.to_nat (max_attempts p)) wait_fuel p w = Some r.
Proof.
  intros Hc Hr Hm Hop. unfold run_blocking.
  cut (∀ fuel s w, within_budget s → max_attempts (policy s) - attempt s < Z.of_nat fuel →
        ∃ r, run_loop sha256 can_start stopped operation retain now sleep fuel wait_fuel s w
             = Some r).
  { intros H. apply H.
    - unfold state, state_at, state_at_with_connections, within_budget, clamp. simpl.
      rewrite (proj2 (Z.ltb_ge (max_attempts p) 1)) by lia. split_and!; (done || lia).
    - unfold state, state_at, state_at_with_connections, clamp. simpl.
      rewrite (proj2 (Z.ltb_ge (max_attempts p) 1)) by lia. lia. }
  induction fuel as [|fuel IH]; intros s w0 Hs Hf.
  { destruct Hs as (_ & _ & ?). lia. }
  simpl. destruct (run_turn_total clock s w0 Hc Hs Hop) as (t & -> & Ht). simpl.
  destruct t as [r|[s' w']]; [eauto|]. destruct Ht as (Hb & Hp & Ha). apply IH; [done|].
  rewrite Hp. lia.
Qed.
End retry_facts.

(** *** Response-log references *)

Definition log_id_ok (i : SseResponseLogId) : Prop :=
  length (log_bytes i) = 32%nat ∧ Forall (λ b, 0 ≤ b < 256) (log_bytes i).

Definition hex_bytes (bs : list Z) : string := foldr (λ b s, hex2 b ++ s)%string "" bs.

Lemma strip_suffix_Some suffix s r : strip_suffix suffix s = Some r ↔ s = (r ++ suffix)%string.
Proof.
  split.
  - revert r. induction s as [|c s IH]; intros r; simpl.
    + case_bool_decide as H; [|done]. by intros [= <-].
    + case_bool_decide as H; [by intros [= <-]|].
      destruct (strip_suffix suffix s) as [r'|] eqn:E; [|done]. intros [= <-].
      by rewrite (IH r') at 1 by done.
  - intros ->. induction r as [|c r IH].
    + change ("" ++ suffix)%string with suffix.
      destruct suffix; [done|]. cbn [strip_suffix]. by rewrite bool_decide_true.
    + change (String c r ++ suffix)%string with (String c (r ++ suffix))%string. simpl.
      rewrite bool_decide_false; [by rewrite IH|]. intros Heq.
      apply (f_equal str_len) in Heq.
      change (String c (r ++ suffix))%string with (String c "" ++ (r ++ suffix))%string in Heq.
      rewrite !str_len_app in Heq. unfold str_len in Heq. simpl in Heq. lia.
Qed.

Lemma read_hex_bytes bs :
  Forall (λ b, 0 ≤ b < 256) bs → read_hex2 (hex_bytes bs) = Some bs ∧
  str_len (hex_bytes bs) = 2 * Z.of_nat (length bs) ∧
  all_bytes is_hex_lower (hex_bytes bs) = true.
Proof.
  assert (Hdig : ∀ d, 0 ≤ d < 16 → is_hex_lower (digit_char d) = true).
  { intros d Hd. unfold is_hex_lower, is_ascii_digit, in_range, digit_char.
    destruct (Z.ltb_spec d 10); rewrite byte_val_byte_of by lia;
      rewrite ?orb_true_iff, ?andb_true_iff, !Z.leb_le; lia. }
  induction 1 as [|b bs Hb Hbs (IH1 & IH2 & IH3)]; [done|].
  assert (0 ≤ b / 16 < 16) by (split; [apply Z.div_pos|apply Z.div_lt_upper_bound]; lia).
  pose proof (Z.mod_pos_bound b 16).
  change (hex_bytes (b :: bs)) with
    (String (digit_char (b / 16)) (String (digit_char (b mod 16)) (hex_bytes bs))).
  split_and!.
  - cbn [read_hex2]. rewrite !(digit_val_char 16) by lia. cbn [mbind option_bind].
    rewrite IH1. cbn [mbind option_bind]. do 2 f_equal. pose proof (Z.div_mod b 16). lia.
  - unfold str_len in *. simpl. lia.
  - unfold all_bytes in *. simpl. rewrite !Hdig by lia. done.
Qed.

Lemma read_hex2_Some s bs :
  read_hex2 s = Some bs → s = hex_bytes bs ∧ Forall (λ b, 0 ≤ b < 256) bs.
Proof.
  revert s. induction bs as [|b bs IH]; intros [|c1 [|c2 s]]; cbn [read_hex2]; try done;
    destruct (digit_val 16 c1) as [d1|] eqn:E1; try done; cbn [mbind option_bind];
    destruct (digit_val 16 c2) as [d2|] eqn:E2; try done; cbn [mbind option_bind];
    destruct (read_hex2 s) as [bs'|] eqn:E; try done; cbn [mbind option_bind]; intros [= <- <-].
  apply digit_val_Some in E1 as [H1 <-]. apply digit_val_Some in E2 as [H2 <-].
  destruct (IH s E) as [-> Hbs]. split; [|constructor; [lia|done]].
  change (hex_bytes (d1 * 16 + d2 :: bs')) with
    (String (digit_char ((d1 * 16 + d2) / 16))
       (String (digit_char ((d1 * 16 + d2) mod 16)) (hex_bytes bs'))).
  rewrite Z.div_add_l, Z.div_small, Z.add_0_r by lia.
  by rewrite (Z.add_comm (d1 * 16)), Z.mod_add, Z.mod_small by lia.
Qed.

(** Response-log references print and parse exactly: what is printed for an identity
    of 32 bytes parses back to it, and text that parses is the text its identity prints,
    so a reference names one log and no path outside the log directory. *)
Theorem log_id_roundtrip :
  (∀ i, log_id_ok i → parse_log_id (display_log_id i) = Some i) ∧
  (∀ v i, parse_log_id v = Some i → display_log_id i = v ∧ log_id_ok i).
Proof.
  split.
  - intros [bs] [Hlen Hbs]. simpl in *. unfold parse_log_id, display_log_id. simpl log_bytes.
    fold (hex_bytes bs). rewrite (proj2 (strip_prefix_Some _ _ (hex_bytes bs ++ ".log"))) by done.
    cbn [mbind option_bind]. rewrite (proj2 (strip_suffix_Some _ _ (hex_bytes bs))) by done.
    cbn [mbind option_bind]. destruct (read_hex_bytes bs Hbs) as (-> & -> & ->).
    rewrite Hlen. done.
  - intros v i. unfold parse_log_id.
    destruct (strip_prefix "sse-" v) as [rest|] eqn:Ep; [|done]. cbn [mbind option_bind].
    destruct (strip_suffix ".log" rest) as [hex|] eqn:Es; [|done]. cbn [mbind option_bind].
    destruct (Z.eqb_spec (str_len hex) 64) as [Hlen|]; [|done].
    destruct (all_bytes is_hex_lower hex); [|done]. simpl.
    destruct (read_hex2 hex) as [bs|] eqn:Er; [|done]. intros [= <-].
    apply strip_prefix_Some in Ep as ->. apply strip_suffix_Some in Es as ->.
    apply read_hex2_Some in Er as [-> Hbs]. split; [done|]. split; [|done]. simpl.
    destruct (read_hex_bytes bs Hbs) as (_ & Hl & _). lia.
Qed.

(** ** Witnesses *)

Definition no_hash : list Z → list Z := λ _, [7].

Lemma decide_delay_bounds_witness :
  decide (http 503 None) RetryInference 2 0 4 7 = RetryAfter 10007000000 ∧
  10007000000 ≤ from_millis 300000.
Proof.
  split; [vm_compute; reflexivity|].
  apply (proj1 (proj2 (decide_delay_bounds (http 503 None) RetryInference 2 0 4 7
    ltac:(lia) ltac:(exact I)))). vm_compute. reflexivity.
Defined.

Lemma decide_no_unsafe_resend_witness :
  decide (failure_new Timeout NotSent Connect) ReconcileFirst 1 1 4 0 = RetryAfter 5000000000 ∧
  acceptance (failure_new Timeout NotSent Connect) = NotSent.
Proof.
  split; [vm_compute; reflexivity|].
  eapply (decide_no_unsafe_resend (failure_new Timeout NotSent Connect) ReconcileFirst 1 1 4 0
    5000000000); [|reflexivity]. left. vm_compute. reflexivity.
Defined.

Definition sample_failures : list NetworkFailure :=
  [http 503 None; failure_new Timeout NotSent Connect; http 429 None; http 500 None; http 500 None].

Lemma retry_budget_witness :
  attempts_used sample_failures
    (retry_run no_hash (state (retry_new 4 [])) sample_failures).2 ≤ 3.
Proof.
  pose proof (retry_budget no_hash (retry_new 4 []) sample_failures ltac:(done)
    ltac:(unfold u32_max; simpl; lia)) as H.
  destruct (retry_run no_hash (state (retry_new 4 [])) sample_failures) as [s ds].
  exact (proj2 H).
Defined.

(** A world that is only a clock, in which the server always answers 503. *)
Lemma run_blocking_terminates_witness :
  ∃ r, run_blocking (W := Z) (T := ()) no_hash (λ w, (true, w)) (λ _, http 499 None)
         (λ _ w, (Err (http 503 None), w)) (λ _ _ w, (Ok tt, w)) (λ w, (w, w))
         (λ d w, w + Z.max 0 d + 1) (Z.to_nat 4) (Z.to_nat (DURATION_MAX + 2)) (retry_new 4 []) 0
       = Some r.
Proof.
  apply (run_blocking_terminates no_hash (λ w, (true, w)) (λ _, http 499 None)
    (λ _ w, (Err (http 503 None), w)) (λ _ _ w, (Ok tt, w)) (λ w, (w, w))
    (λ d w, w + Z.max 0 d + 1) (Z.to_nat (DURATION_MAX + 2))
    ltac:(rewrite Z2Nat.id by (unfold DURATION_MAX, u64_max; lia); lia)
    (λ w, w) (retry_new 4 []) 0).
  - constructor; simpl; intros; lia.
  - intros H. discriminate H.
  - unfold u32_max. simpl. lia.
  - intros a w e w' [= <- _]. reflexivity.
Defined.

Lemma log_id_roundtrip_witness :
  parse_log_id (display_log_id {| log_bytes := repeat 171 32 |}) =
    Some {| log_bytes := repeat 171 32 |}.
Proof.
  apply (proj1 log_id_roundtrip). split; [reflexivity|].
  simpl. repeat constructor; lia.
Defined.
