(* ===== verification/SseFraming.v ===== *)
(** * Server-sent-event framing

    Models [crates/winwincode-provider/src/provider_sse_framing.rs]: the bytes of a model
    provider's event stream are cut into frames.  Bytes are a string; the parser's mutable
    variables are the fields of [Framer]. *)

From Stdlib Require Import Ascii String.
From S2P Require Import Prelude Text Numerals DebugFmt.
Local Open Scope Z_scope.

(** ** Data *)

Record SseFrame : Type := {
  event : option string;
  data : string
}.

#[global] Instance SseFrame_eq_dec : EqDecision SseFrame.
Proof. solve_decision. Defined.

Inductive SseFramingError : Type :=
| Utf8
| SizeLimit.

Record ParseOutcome : Type := {
  frames : list SseFrame;
  error : option SseFramingError
}.

(** The parser's variables: the frames so far, and the event and data of the frame being
    read. *)
Record Framer : Type := {
  fr_frames : list SseFrame;
  fr_event : option string;
  fr_data : string;
  fr_data_seen : bool
}.

(** ** Text operations of the standard library *)

Definition nl : ascii := byte_of 10.
Definition cr : ascii := byte_of 13.
Definition colon : ascii := byte_of 58.

(** [str::replace] of [\r\n] by [\n]. *)
Fixpoint replace_crlf (s : string) : string :=
  match s with
  | EmptyString => ""
  | String a s' =>
      match s' with
      | String b s'' =>
          if Ascii.eqb a cr && Ascii.eqb b nl then String nl (replace_crlf s'')
          else String a (replace_crlf s')
      | EmptyString => String a ""
      end
  end.

(** [str::replace] of [\r] by [\n]. *)
Fixpoint replace_cr (s : string) : string :=
  match s with
  | EmptyString => ""
  | String a s => String (if Ascii.eqb a cr then nl else a) (replace_cr s)
  end.

(** [str::split] at a character. *)
Fixpoint split_at (c : ascii) (s : string) : list string :=
  match s with
  | EmptyString => [""%string]
  | String a s =>
      if Ascii.eqb a c then ""%string :: split_at c s
      else match split_at c s with
           | l :: ls => String a l :: ls
           | [] => [String a ""]
           end
  end.

(** U+FEFF in UTF-8. *)
Definition bom : string := String (byte_of 239) (String (byte_of 187) (String (byte_of 191) "")).

(** ** The parser *)

Section parser.
Context (max_event_bytes max_events : Z).

Definition flush (f : Framer) : result SseFramingError Framer :=
  if fr_data_seen f then
    refuse (max_events <=? Z.of_nat (length (fr_frames f))) SizeLimit ;;
    Ok {| fr_frames := fr_frames f ++ [{| event := fr_event f; data := fr_data f |}];
          fr_event := None; fr_data := ""; fr_data_seen := false |}
  else
    Ok {| fr_frames := fr_frames f; fr_event := None; fr_data := fr_data f;
          fr_data_seen := false |}.

(** The body of the loop over the lines: an error leaves the loop with the frames so far. *)
Definition step_line (f : Framer) (line : string) : result (SseFramingError * Framer) Framer :=
  if max_event_bytes <? str_len line then Err (SizeLimit, f)
  else if bool_decide (line = ""%string) then map_err (λ e, (e, f)) (flush f)
  else if starts_with ":" line then Ok f
  else
    let '(field, value) := default (line, ""%string) (split_once colon line) in
    let value := default value (strip_prefix " " value) in
    if bool_decide (field = "event"%string) then
      Ok {| fr_frames := fr_frames f; fr_event := Some value; fr_data := fr_data f;
            fr_data_seen := fr_data_seen f |}
    else if bool_decide (field = "data"%string) then
      let d := ((if fr_data_seen f then fr_data f ++ String nl "" else fr_data f) ++ value)%string in
      let f' := {| fr_frames := fr_frames f; fr_event := fr_event f; fr_data := d;
                   fr_data_seen := true |} in
      if max_event_bytes <? str_len d then Err (SizeLimit, f') else Ok f'
    else Ok f.

Fixpoint step_lines (f : Framer) (lines : list string) : result (SseFramingError * Framer) Framer :=
  match lines with
  | [] => Ok f
  | l :: ls => f' ← step_line f l; step_lines f' ls
  end.

Definition framer_new : Framer :=
  {| fr_frames := []; fr_event := None; fr_data := ""; fr_data_seen := false |}.

Definition normalized (text : string) : string :=
  replace_cr (replace_crlf (default text (strip_prefix bom text))).

Definition parse_frames (bytes : string) : ParseOutcome :=
  match chars bytes with
  | None => {| frames := []; error := Some Utf8 |}
  | Some _ =>
      match step_lines framer_new (split_at nl (normalized bytes)) with
      | Err (e, f) => {| frames := fr_frames f; error := Some e |}
      | Ok f =>
          match flush f with
          | Ok f' => {| frames := fr_frames f'; error := None |}
          | Err e => {| frames := fr_frames f; error := Some e |}
          end
      end
  end.

Definition parse (bytes : string) : result SseFramingError (list SseFrame) :=
  match error (parse_frames bytes) with
  | Some e => Err e
  | None => Ok (frames (parse_frames bytes))
  end.

Definition parse_prefix (bytes : string) : result SseFramingError (list SseFrame) :=
  match error (parse_frames bytes) with
  | Some Utf8 => Err Utf8
  | Some SizeLimit | None => Ok (frames (parse_frames bytes))
  end.
End parser.

(** ** Lemmas on text *)

Definition no_char (c : ascii) (s : string) : Prop := all_bytes (λ a, negb (Ascii.eqb a c)) s = true.

Lemma no_char_cons c a s : no_char c (String a s) ↔ a ≠ c ∧ no_char c s.
Proof.
  unfold no_char, all_bytes. simpl. rewrite andb_true_iff, negb_true_iff, Ascii.eqb_neq. done.
Qed.

Lemma no_char_app c a b : no_char c (a ++ b) ↔ no_char c a ∧ no_char c b.
Proof.
  induction a as [|x a IH]; [by split; [split|intros [_ ?]]|].
  change (String x a ++ b)%string with (String x (a ++ b))%string.
  rewrite !no_char_cons, IH. tauto.
Qed.

Lemma split_at_app c l s :
  no_char c l → split_at c (l ++ String c s) = l :: split_at c s.
Proof.
  induction l as [|a l IH].
  - intros _. change ("" ++ String c s)%string with (String c s). simpl. by rewrite Ascii.eqb_refl.
  - rewrite no_char_cons. intros [Ha Hl].
    change (String a l ++ String c s)%string with (String a (l ++ String c s))%string. simpl.
    rewrite (proj2 (Ascii.eqb_neq a c) Ha), IH by done. done.
Qed.

Lemma split_at_cons c s : ∃ l ls, split_at c s = l :: ls.
Proof.
  destruct s as [|a s]; simpl; [eauto|]. destruct (Ascii.eqb a c); [eauto|].
  destruct (split_at c s); eauto.
Qed.

(** Joining with a separator. *)
Fixpoint join (c : ascii) (l : string) (ls : list string) : string :=
  match ls with
  | [] => l
  | l' :: ls => (l ++ String c (join c l' ls))%string
  end.

Lemma split_at_join c s l ls :
  split_at c s = l :: ls → join c l ls = s ∧ Forall (no_char c) (l :: ls).
Proof.
  revert l ls. induction s as [|a s IH]; intros l ls; simpl.
  { intros [= <- <-]. split; [done|]. by repeat constructor. }
  destruct (Ascii.eqb_spec a c) as [->|Hne].
  - destruct (split_at_cons c s) as (l0 & ls0 & E). rewrite E. intros [= <- <-].
    destruct (IH l0 ls0 E) as [<- Hno]. split; [done|]. by constructor.
  - destruct (split_at_cons c s) as (l0 & ls0 & E). rewrite E. intros [= <- <-].
    destruct (IH l0 ls0 E) as [Hj Hno]. apply Forall_cons in Hno as [Hl0 Hls0].
    split; [|constructor; [by apply no_char_cons|done]].
    rewrite <-Hj. destruct ls0; [done|]. done.
Qed.

Lemma no_cr_normal s : no_char cr s → replace_cr (replace_crlf s) = s.
Proof.
  intros H. assert (replace_crlf s = s) as ->.
  { induction s as [|a s IH]; [done|]. apply no_char_cons in H as [Ha Hs]. simpl.
    destruct s as [|b s]; [done|]. rewrite (proj2 (Ascii.eqb_neq a cr) Ha). simpl andb.
    f_equal. by apply IH. }
  induction s as [|a s IH]; [done|]. apply no_char_cons in H as [Ha Hs]. simpl.
  rewrite (proj2 (Ascii.eqb_neq a cr) Ha). f_equal. by apply IH.
Qed.

Lemma split_once_len c s l r : split_once c s = Some (l, r) → str_len r ≤ str_len s.
Proof.
  unfold str_len. revert l r. induction s as [|a s IH]; intros l r; simpl; [done|].
  destruct (Ascii.eqb a c); [intros [= _ <-]; lia|].
  destruct (split_once c s) as [[l' r']|]; [|done]. simpl. intros [= _ <-].
  specialize (IH l' r' eq_refl). lia.
Qed.

Lemma strip_len p v : str_len (default v (strip_prefix p v)) ≤ str_len v.
Proof.
  destruct (strip_prefix p v) as [r|] eqn:E; simpl; [|lia].
  apply strip_prefix_Some in E as ->. rewrite str_len_app. unfold str_len. lia.
Qed.

Lemma line_value_len line :
  let '(field, value) := default (line, ""%string) (split_once colon line) in
  str_len (default value (strip_prefix " " value)) ≤ str_len line.
Proof.
  destruct (split_once colon line) as [[field value]|] eqn:E; simpl.
  - pose proof (split_once_len _ _ _ _ E). pose proof (strip_len " " value). simpl in *. lia.
  - unfold str_len. simpl. lia.
Qed.

(** ** Limits *)

Section limits.
Context (max_event_bytes max_events : Z) (Hbytes : 0 ≤ max_event_bytes) (Hevents : 0 ≤ max_events).

Definition small_event (e : option string) : Prop :=
  from_option (λ e, str_len e ≤ max_event_bytes) True e.

Definition small_frame (f : SseFrame) : Prop :=
  small_event (event f) ∧ str_len (data f) ≤ max_event_bytes.

Definition frames_ok (fs : list SseFrame) : Prop :=
  Forall small_frame fs ∧ Z.of_nat (length fs) ≤ max_events.

Definition framer_ok (f : Framer) : Prop :=
  frames_ok (fr_frames f) ∧ small_event (fr_event f) ∧ str_len (fr_data f) ≤ max_event_bytes.

Lemma flush_ok f f' : framer_ok f → flush max_events f = Ok f' → framer_ok f'.
Proof.
  intros ((Hfs & Hlen) & He & Hd). unfold flush. destruct (fr_data_seen f).
  - intros H. inv_result.
    match goal with H : (_ <=? _) = false |- _ => apply Z.leb_gt in H end. split; [|done]. simpl. split.
    + apply Forall_app. split; [done|]. by constructor.
    + rewrite length_app. simpl. lia.
  - intros [= <-]. done.
Qed.

Lemma step_line_ok f line :
  framer_ok f →
  match step_line max_event_bytes max_events f line with
  | Ok f' => framer_ok f'
  | Err (e, f') => frames_ok (fr_frames f') ∧ e = SizeLimit
  end.
Proof.
  intros Hf. pose proof Hf as (Hfs & He & Hd). unfold step_line.
  destruct (Z.ltb_spec max_event_bytes (str_len line)) as [|Hline]; [done|].
  case_bool_decide.
  { destruct (flush max_events f) as [f'|e] eqn:E; simpl; [by eapply flush_ok|].
    split; [done|]. unfold flush in E. destruct (fr_data_seen f); [|done].
    apply bind_Err in E as [E|(? & _ & E)]; [|done]. by apply refuse_Err in E as [_ <-]. }
  destruct (starts_with ":" line); [done|]. pose proof (line_value_len line) as Hv.
  destruct (default _ (split_once colon line)) as [field value]. cbv zeta.
  set (v := default value (strip_prefix " " value)) in *. clearbody v.
  case_bool_decide; [by split; [|split; simpl; [lia|]]|]. case_bool_decide; [|done].
  destruct (Z.ltb_spec max_event_bytes (str_len ((if fr_data_seen f then
    (fr_data f ++ String nl "")%string else fr_data f) ++ v))) as [|Hlen]; [done|].
  split_and!; try done.
Qed.

Lemma step_lines_ok f lines :
  framer_ok f →
  match step_lines max_event_bytes max_events f lines with
  | Ok f' => framer_ok f'
  | Err (e, f') => frames_ok (fr_frames f') ∧ e = SizeLimit
  end.
Proof.
  revert f. induction lines as [|l ls IH]; intros f Hf; simpl; [done|].
  pose proof (step_line_ok f l Hf) as H. destruct (step_line _ _ f l) as [f'|[e f']]; [|done].
  simpl. by apply IH.
Qed.

Lemma parse_frames_ok bytes : frames_ok (frames (parse_frames max_event_bytes max_events bytes)).
Proof.
  unfold parse_frames. destruct (chars bytes); [|split; [constructor|simpl; lia]].
  assert (framer_ok framer_new) as H0.
  { split; [split; [constructor|simpl; lia]|]. split; [done|]. simpl. unfold str_len. simpl. lia. }
  pose proof (step_lines_ok framer_new (split_at nl (normalized bytes)) H0) as H.
  destruct (step_lines _ _ _ _) as [f|[e f]]; [|apply H].
  destruct (flush max_events f) as [f'|e] eqn:E; [|apply H]. by apply (flush_ok f f').
Qed.

(** Whatever the provider sends, the parser returns at most [max_events] frames, each
    with event and data of at most [max_event_bytes] bytes, also when it salvages the
    frames before a limit was hit. *)
Theorem parse_within_limits bytes fs :
  parse max_event_bytes max_events bytes = Ok fs ∨
  parse_prefix max_event_bytes max_events bytes = Ok fs →
  Z.of_nat (length fs) ≤ max_events ∧
  Forall (λ f, str_len (data f) ≤ max_event_bytes ∧
               from_option (λ e, str_len e ≤ max_event_bytes) True (event f)) fs.
Proof.
  pose proof (parse_frames_ok bytes) as [Hfs Hlen]. unfold parse, parse_prefix.
  intros H. assert (fs = frames (parse_frames max_event_bytes max_events bytes)) as ->.
  { destruct (error _) as [[]|]; naive_solver. }
  split; [done|]. eapply Forall_impl; [exact Hfs|]. intros f [? ?]. done.
Qed.
End limits.

(** ** Truncation *)

Section truncation.
Context (max_event_bytes : Z).

(** The loop and the final flush. *)
Definition finish (max_events : Z) (f : Framer) (lines : list string) : ParseOutcome :=
  match step_lines max_event_bytes max_events f lines with
  | Err (e, f) => {| frames := fr_frames f; error := Some e |}
  | Ok f => match flush max_events f with
            | Ok f' => {| frames := fr_frames f'; error := None |}
            | Err e => {| frames := fr_frames f; error := Some e |}
            end
  end.

Lemma parse_frames_finish n bytes :
  parse_frames max_event_bytes n bytes =
    match chars bytes with
    | None => {| frames := []; error := Some Utf8 |}
    | Some _ => finish n framer_new (split_at nl (normalized bytes))
    end.
Proof. done. Qed.

Lemma finish_cons n f l ls :
  finish n f (l :: ls) =
    match step_line max_event_bytes n f l with
    | Ok f' => finish n f' ls
    | Err (e, f') => {| frames := fr_frames f'; error := Some e |}
    end.
Proof. unfold finish. simpl. by destruct (step_line max_event_bytes n f l) as [f'|[e f']]. Qed.

Lemma flush_prefix n f f' : flush n f = Ok f' → fr_frames f `prefix_of` fr_frames f'.
Proof.
  unfold flush. destruct (fr_data_seen f); intros H; inv_result; simpl; [by eexists|done].
Qed.

(** A line either leaves the frames and does not look at the limit, or is a flush. *)
Lemma step_line_cases n f l :
  (∀ n', step_line max_event_bytes n' f l = step_line max_event_bytes n f l) ∧
    match step_line max_event_bytes n f l with
    | Ok f' | Err (_, f') => fr_frames f' = fr_frames f
    end ∨
  ∀ n', step_line max_event_bytes n' f l = map_err (λ e, (e, f)) (flush n' f).
Proof.
  unfold step_line. destruct (max_event_bytes <? str_len l); [by left|].
  case_bool_decide; [by right|]. left. destruct (starts_with ":" l); [done|].
  destruct (default _ (split_once colon l)) as [field value]. cbv zeta.
  case_bool_decide; [done|]. case_bool_decide; [|done].
  destruct (max_event_bytes <? str_len _); done.
Qed.

Lemma finish_prefix n f lines : fr_frames f `prefix_of` frames (finish n f lines).
Proof.
  revert f. induction lines as [|l ls IH]; intros f.
  - unfold finish. simpl. destruct (flush n f) as [f'|e] eqn:E; [by eapply flush_prefix|done].
  - rewrite finish_cons. destruct (step_line_cases n f l) as [[_ H]|H].
    + destruct (step_line max_event_bytes n f l) as [f'|[e f']]; simpl; rewrite <-H; [apply IH|done].
    + rewrite H. destruct (flush n f) as [f'|e] eqn:E; simpl; [|done].
      etrans; [by eapply flush_prefix|apply IH].
Qed.

Lemma take_of_prefix {A} (l k : list A) : l `prefix_of` k → take (length l) k = l.
Proof. intros [r ->]. by rewrite take_app_length. Qed.

Lemma finish_truncates n n' f lines :
  0 ≤ n ≤ n' → Z.of_nat (length (fr_frames f)) ≤ n →
  frames (finish n f lines) = take (Z.to_nat n) (frames (finish n' f lines)).
Proof.
  intros Hn. revert f. induction lines as [|l ls IH]; intros f Hlen.
  - unfold finish. simpl. unfold flush. destruct (fr_data_seen f); simpl.
    + destruct (Z.leb_spec n (Z.of_nat (length (fr_frames f)))) as [Hle|Hlt]; simpl.
      * replace (Z.to_nat n) with (length (fr_frames f)) by lia.
        destruct (n' <=? _); simpl; [by rewrite take_ge|by rewrite take_app_length].
      * rewrite (proj2 (Z.leb_gt n' _)) by lia. simpl. rewrite take_ge; [done|].
        rewrite length_app. simpl. lia.
    + rewrite take_ge; [done|lia].
  - rewrite !finish_cons. destruct (step_line_cases n f l) as [[Hn' H]|H].
    + rewrite (Hn' n'). destruct (step_line max_event_bytes n f l) as [f'|[e f']].
      * apply IH. by rewrite H.
      * simpl. rewrite H, take_ge; [done|lia].
    + rewrite (H n), (H n'). destruct (flush n f) as [g|e] eqn:E; simpl.
      * assert (flush n' f = Ok g ∧ Z.of_nat (length (fr_frames g)) ≤ n) as [-> Hg].
        { unfold flush in *. destruct (fr_data_seen f); [|by simplify_eq].
          destruct (Z.leb_spec n (Z.of_nat (length (fr_frames f)))); [done|].
          rewrite (proj2 (Z.leb_gt n' _)) by lia. simpl in *. injection E as <-.
          split; [done|]. simpl. rewrite length_app. simpl. lia. }
        simpl. by apply IH.
      * assert (Z.to_nat n = length (fr_frames f)) as ->.
        { unfold flush in E. destruct (fr_data_seen f); [|done].
          apply bind_Err in E as [E|(? & _ & E)]; [|done]. apply refuse_Err in E as [E _].
          apply Z.leb_le in E. lia. }
        symmetry. apply take_of_prefix.
        destruct (flush n' f) as [g|e'] eqn:E'; simpl; [|done].
        etrans; [by eapply flush_prefix|apply finish_prefix].
Qed.

Lemma step_line_error n f l e f' :
  step_line max_event_bytes n f l = Err (e, f') → e = SizeLimit.
Proof.
  unfold step_line, flush. destruct (max_event_bytes <? str_len l); [by intros [= <- _]|].
  case_bool_decide.
  { destruct (fr_data_seen f); [|done]. destruct (n <=? _); [by intros [= <- _]|done]. }
  destruct (starts_with ":" l); [done|].
  destruct (default _ (split_once colon l)) as [field value]. cbv zeta.
  case_bool_decide; [done|]. case_bool_decide; [|done].
  destruct (max_event_bytes <? str_len _); [by intros [= <- _]|done].
Qed.

(** Salvaging keeps a prefix: with a limit of [n] events, [parse_prefix] returns
    exactly the first [n] of the frames it returns with any larger limit, so reaching the
    limit loses later frames only and never alters or reorders earlier ones. *)
Theorem parse_prefix_truncates n n' bytes fs :
  0 ≤ n ≤ n' → parse_prefix max_event_bytes n' bytes = Ok fs →
  parse_prefix max_event_bytes n bytes = Ok (take (Z.to_nat n) fs).
Proof.
  intros Hn. unfold parse_prefix. rewrite !parse_frames_finish.
  destruct (chars bytes); [|done].
  pose proof (finish_truncates n n' framer_new (split_at nl (normalized bytes)) Hn) as Ht.
  assert (Hutf : ∀ k f ls, error (finish k f ls) ≠ Some Utf8).
  { clear. intros k f ls. revert f. induction ls as [|l ls IH]; intros f.
    - unfold finish. simpl. unfold flush. destruct (fr_data_seen f); [|done].
      by destruct (k <=? _).
    - rewrite finish_cons. destruct (step_line _ _ f l) as [f'|[e f']] eqn:E; [apply IH|].
      simpl. apply step_line_error in E as ->. done. }
  pose proof (Hutf n framer_new (split_at nl (normalized bytes))) as H1.
  pose proof (Hutf n' framer_new (split_at nl (normalized bytes))) as H2.
  destruct (error (finish n' _ _)) as [[]|]; [done| |]; intros [= <-];
    (rewrite Ht by (simpl; lia));
    destruct (error (finish n _ _)) as [[]|]; done.
Qed.
End truncation.

(** ** Round trip *)

Section roundtrip.
Context (max_event_bytes max_events : Z).

Definition data_line (l : string) : string := "data: " ++ l.
Definition event_line (e : string) : string := "event: " ++ e.

(** A frame as a server writes it: an event line, one data line per line of the data, and
    the empty line that ends the frame. *)
Definition frame_lines (f : SseFrame) : list string :=
  match event f with Some e => [event_line e] | None => [] end ++
  (data_line <$> split_at nl (data f)) ++ [""%string].

Definition render (fs : list SseFrame) : string :=
  foldr (λ l s, l ++ String nl s)%string "" (fs ≫= frame_lines).

(** The frame has no character that would end a line early, and fits the limit. *)
Definition frame_fits (f : SseFrame) : Prop :=
  from_option (λ e, no_char nl e ∧ no_char cr e ∧ str_len (event_line e) ≤ max_event_bytes) True
    (event f) ∧
  no_char cr (data f) ∧ str_len (data f) ≤ max_event_bytes ∧
  Forall (λ l, str_len (data_line l) ≤ max_event_bytes) (split_at nl (data f)).

Lemma step_event_line f e :
  str_len (event_line e) ≤ max_event_bytes →
  step_line max_event_bytes max_events f (event_line e) =
    Ok {| fr_frames := fr_frames f; fr_event := Some e; fr_data := fr_data f;
          fr_data_seen := fr_data_seen f |}.
Proof.
  intros Hl. unfold step_line. rewrite (proj2 (Z.ltb_ge _ _)) by lia. done.
Qed.

Lemma step_data_line f l d :
  d = ((if fr_data_seen f then fr_data f ++ String nl "" else fr_data f) ++ l)%string →
  str_len (data_line l) ≤ max_event_bytes → str_len d ≤ max_event_bytes →
  step_line max_event_bytes max_events f (data_line l) =
    Ok {| fr_frames := fr_frames f; fr_event := fr_event f; fr_data := d; fr_data_seen := true |}.
Proof.
  intros -> Hl Hd. unfold step_line. rewrite (proj2 (Z.ltb_ge _ (str_len (data_line l)))) by lia.
  simpl. change ("" ++ l)%string with l. rewrite (proj2 (Z.ltb_ge _ _)) by lia. done.
Qed.

Lemma join_len c l ls : str_len l ≤ str_len (join c l ls).
Proof. destruct ls; simpl; rewrite ?str_len_app; unfold str_len; lia. Qed.

Lemma step_data_lines fs ev d l ls :
  str_len (d ++ join nl l ls) ≤ max_event_bytes →
  Forall (λ l, str_len (data_line l) ≤ max_event_bytes) ls →
  step_lines max_event_bytes max_events
    {| fr_frames := fs; fr_event := ev; fr_data := (d ++ l)%string; fr_data_seen := true |}
    (data_line <$> ls) =
  Ok {| fr_frames := fs; fr_event := ev; fr_data := (d ++ join nl l ls)%string;
        fr_data_seen := true |}.
Proof.
  revert d l. induction ls as [|l' ls IH]; intros d l Hlen Hls; [done|].
  apply Forall_cons in Hls as [Hl' Hls].
  assert (E : (d ++ join nl l (l' :: ls) = (d ++ l ++ String nl "") ++ join nl l' ls)%string).
  { simpl. rewrite !str_append_assoc. done. }
  rewrite E in *. rewrite fmap_cons. cbn [step_lines].
  rewrite (step_data_line _ l' ((d ++ l ++ String nl "") ++ l')%string); [|simpl|done|].
  - cbn [mbind result_bind fr_frames fr_event]. by rewrite IH.
  - by rewrite !str_append_assoc.
  - pose proof (join_len nl l' ls). rewrite !str_len_app in *. lia.
Qed.

Lemma step_lines_app f ls1 ls2 :
  step_lines max_event_bytes max_events f (ls1 ++ ls2) =
  (step_lines max_event_bytes max_events f ls1 ≫=
     λ f, step_lines max_event_bytes max_events f ls2).
Proof.
  revert f. induction ls1 as [|l ls IH]; intros f; [done|]. simpl.
  destruct (step_line _ _ f l); simpl; [apply IH|done].
Qed.

(** Reading the lines of one frame adds that frame. *)
Lemma step_frame fs f :
  0 ≤ max_event_bytes → frame_fits f → Z.of_nat (length fs) < max_events →
  step_lines max_event_bytes max_events
    {| fr_frames := fs; fr_event := None; fr_data := ""; fr_data_seen := false |} (frame_lines f) =
  Ok {| fr_frames := fs ++ [f]; fr_event := None; fr_data := ""; fr_data_seen := false |}.
Proof.
  intros H0 (He & _ & Hd & Hls) Hlen. unfold frame_lines. rewrite step_lines_app.
  assert (Ev : step_lines max_event_bytes max_events
    {| fr_frames := fs; fr_event := None; fr_data := ""; fr_data_seen := false |}
    (match event f with Some e => [event_line e] | None => [] end) =
    Ok {| fr_frames := fs; fr_event := event f; fr_data := ""; fr_data_seen := false |}).
  { destruct (event f) as [e|]; [|done]. simpl in He. cbn [step_lines].
    by rewrite step_event_line by tauto. }
  rewrite Ev. cbn [mbind result_bind]. rewrite step_lines_app.
  destruct (split_at_cons nl (data f)) as (l & ls & E). rewrite E in *.
  destruct (split_at_join nl _ _ _ E) as [Hj _]. apply Forall_cons in Hls as [Hl Hls].
  rewrite fmap_cons. cbn [step_lines].
  rewrite (step_data_line _ l l); [|done|done|].
  2: { pose proof (join_len nl l ls). rewrite Hj in *. lia. }
  cbn [mbind result_bind fr_frames fr_event].
  pose proof (step_data_lines fs (event f) "" l ls) as Hs.
  change ("" ++ l)%string with l in Hs. rewrite Hs; [|rewrite Hj; done|done].
  rewrite Hj. cbn [mbind result_bind step_lines]. unfold step_line.
  rewrite (proj2 (Z.ltb_ge _ _)) by (unfold str_len; simpl; lia).
  rewrite bool_decide_true by done. unfold flush. cbn [fr_data_seen fr_frames].
  rewrite (proj2 (Z.leb_gt _ _)) by lia. simpl. by destruct f.
Qed.

Lemma step_frames pre fs :
  0 ≤ max_event_bytes → Forall frame_fits fs →
  Z.of_nat (length pre + length fs) ≤ max_events →
  step_lines max_event_bytes max_events
    {| fr_frames := pre; fr_event := None; fr_data := ""; fr_data_seen := false |}
    (fs ≫= frame_lines) =
  Ok {| fr_frames := pre ++ fs; fr_event := None; fr_data := ""; fr_data_seen := false |}.
Proof.
  intros H0 Hfs. revert pre. induction Hfs as [|f fs Hf Hfs IH]; intros pre Hlen.
  { simpl. by rewrite app_nil_r. }
  rewrite bind_cons, step_lines_app, step_frame; [|done|done|simpl in Hlen; lia].
  cbn [mbind result_bind]. rewrite IH; [by rewrite <-app_assoc|].
  rewrite length_app. simpl in *. lia.
Qed.

(** The lines of a rendering are the lines it was made of, and a last empty one. *)
Lemma split_render ls :
  Forall (no_char nl) ls →
  split_at nl (foldr (λ l s, l ++ String nl s)%string "" ls) = ls ++ [""%string].
Proof.
  induction 1 as [|l ls Hl Hls IH]; [done|]. simpl. rewrite split_at_app by done. by rewrite IH.
Qed.

Lemma frame_lines_clean f :
  frame_fits f → Forall (λ l, no_char nl l ∧ no_char cr l) (frame_lines f).
Proof.
  intros (He & Hcr & _ & _). unfold frame_lines. rewrite !Forall_app. split_and!.
  - destruct (event f) as [e|]; [|done]. simpl in He. constructor; [|done].
    unfold event_line. rewrite !no_char_app. naive_solver.
  - destruct (split_at_cons nl (data f)) as (l & ls & E).
    destruct (split_at_join nl _ _ _ E) as [Hj Hno]. rewrite E.
    apply Forall_fmap, Forall_forall. intros x Hx. unfold data_line. simpl.
    rewrite !no_char_app. split; [split; [done|]|split; [done|]].
    + by apply (proj1 (Forall_forall _ _) Hno).
    + rewrite <-Hj in Hcr. clear -Hcr Hx. revert l Hcr Hx.
      induction ls as [|l' ls IH]; intros l Hcr Hx; simpl in Hcr.
      * by apply list_elem_of_singleton in Hx as ->.
      * apply no_char_app in Hcr as [Hl Hr]. apply no_char_cons in Hr as [_ Hr].
        apply elem_of_cons in Hx as [->|Hx]; [done|]. by apply (IH l').
  - by repeat constructor.
Qed.

Lemma render_normalized fs : Forall frame_fits fs → normalized (render fs) = render fs.
Proof.
  intros Hfs. assert (Hcr : no_char cr (render fs)).
  { unfold render. assert (Forall (no_char cr) (fs ≫= frame_lines)) as H.
    { induction Hfs as [|f fs Hf Hfs IH]; [done|]. rewrite bind_cons. apply Forall_app. split; [|done].
      eapply Forall_impl; [by apply frame_lines_clean|]. by intros l [_ ?]. }
    induction H as [|l ls Hl Hls IH]; [done|]. simpl. apply no_char_app. split; [done|].
    apply no_char_cons. split; [done|]. apply IH. }
  unfold normalized. replace (default (render fs) (strip_prefix bom (render fs))) with (render fs).
  - by apply no_cr_normal.
  - assert (strip_prefix bom (render fs) = None) as ->; [|done].
    destruct fs as [|f fs]; [done|]. unfold render. rewrite bind_cons. unfold frame_lines.
    destruct (event f); [done|]. destruct (split_at_cons nl (data f)) as (l & ls & ->). done.
Qed.

(** C37. Round trip: frames rendered as a server writes them (data split over [data:]
    lines) are parsed back exactly, as long as they contain no carriage return, the event
    no line break, and they respect the limits. *)
Theorem parse_render fs :
  0 ≤ max_event_bytes → Forall frame_fits fs → Z.of_nat (length fs) ≤ max_events →
  utf8 (render fs) → parse max_event_bytes max_events (render fs) = Ok fs.
Proof.
  intros H0 Hfs Hlen [cs Hcs]. unfold parse, parse_frames. rewrite Hcs, render_normalized by done.
  unfold render. rewrite split_render.
  2: { clear -Hfs. induction Hfs as [|f fs Hf Hfs IH]; [done|]. rewrite bind_cons. apply Forall_app.
       split; [|done]. eapply Forall_impl; [by apply frame_lines_clean|]. by intros l [? _]. }
  rewrite step_lines_app. unfold framer_new. rewrite (step_frames [] fs) by done.
  cbn [mbind result_bind step_lines app]. unfold step_line.
  rewrite (proj2 (Z.ltb_ge _ _)) by (unfold str_len; simpl; lia). done.
Qed.
End roundtrip.

(** ** Witnesses *)

Definition sample_frames : list SseFrame :=
  [{| event := Some "delta"%string; data := String.append "a" (String nl "b") |};
   {| event := None; data := "" |}; {| event := None; data := "[DONE]" |}].

Lemma parse_render_witness :
  parse 64 10 (render sample_frames) = Ok sample_frames.
Proof.
  apply (parse_render 64 10 sample_frames).
  - lia.
  - unfold frame_fits, no_char. repeat constructor; vm_compute; (reflexivity || discriminate).
  - simpl. lia.
  - vm_compute. eauto.
Defined.

Lemma parse_within_limits_witness :
  parse 64 10 (render sample_frames) = Ok sample_frames ∧ Z.of_nat (length sample_frames) ≤ 10.
Proof.
  split; [vm_compute; reflexivity|].
  apply (parse_within_limits 64 10 ltac:(lia) ltac:(lia) (render sample_frames) sample_frames).
  left. vm_compute. reflexivity.
Defined.

Lemma parse_prefix_truncates_witness :
  parse_prefix 64 2 (render sample_frames) = Ok (take 2 sample_frames).
Proof.
  apply (parse_prefix_truncates 64 2 10 (render sample_frames) sample_frames); [lia|].
  vm_compute. reflexivity.
Defined.
