(* ===== verification/LoginLimiter.v ===== *)
(** * Login rate limiter

    [crates/winwincode-server/src/login_rate_limiter.rs]: two bounded tables of failed login
    attempts, one for pairs of a client and a user and one for clients, each with a fixed
    window per key and an eviction that keeps what it must not forget.

    A [HashMap] is iterated in an unspecified order, and [select_nth_unstable_by_key] leaves
    equal keys in any order.  Every operation that evicts therefore takes a [hash_order], a
    rearrangement of the entries that may be another one at every call; a stable sort of the
    rearranged candidates gives every outcome that the two leave open. *)

From Stdlib Require Import String.
From stdpp Require Import sorting.
From S2P Require Import Prelude.
Local Open Scope Z_scope.

Definition MAX_LOGIN_FAILURES : Z := 5.
Definition MAX_CLIENT_LOGIN_FAILURES : Z := 50.
Definition LOGIN_FAILURE_WINDOW_MILLIS : Z := 15 * 60 * 1000.
Definition MAX_TRACKED_PAIRS : Z := 65536.
Definition MAX_TRACKED_CLIENTS : Z := 65536.
Definition EVICTION_BATCH_DIVISOR : Z := 16.

Record AttemptKey : Type := { attempt_client : string; attempt_username : string }.

#[global] Instance AttemptKey_eq_dec : EqDecision AttemptKey.
Proof. solve_decision. Defined.
#[global] Instance AttemptKey_countable : Countable AttemptKey.
Proof.
  apply (inj_countable' (λ k, (attempt_client k, attempt_username k)) (λ p, {| attempt_client := p.1; attempt_username := p.2 |})).
  by intros [].
Defined.

Record AttemptEntry : Type := {
  failures : Z;
  window_started_millis : Z;
  in_flight : Z
}.

Definition fresh (now : Z) : AttemptEntry := {| failures := 0; window_started_millis := now; in_flight := 0 |}.

Definition live (e : AttemptEntry) (now : Z) : bool :=
  saturating_sub_i64 now (window_started_millis e) <? LOGIN_FAILURE_WINDOW_MILLIS.

Definition entry_locked (e : AttemptEntry) (now limit : Z) : bool := (limit <=? failures e) && live e now.

Definition protected (e : AttemptEntry) (now limit : Z) : bool :=
  live e now && ((limit <=? failures e) || (0 <? in_flight e)).

Definition roll_window (e : AttemptEntry) (now : Z) : AttemptEntry :=
  if live e now then e else {| failures := 0; window_started_millis := now; in_flight := in_flight e |}.

Definition set_in_flight (e : AttemptEntry) (n : Z) : AttemptEntry :=
  {| failures := failures e; window_started_millis := window_started_millis e; in_flight := n |}.

Definition set_failures (e : AttemptEntry) (n : Z) : AttemptEntry :=
  {| failures := n; window_started_millis := window_started_millis e; in_flight := in_flight e |}.

(** ** One table *)

Record hash_order (K : Type) : Type := {
  shuffle : list (K * AttemptEntry) → list (K * AttemptEntry);
  shuffle_perm : ∀ l, shuffle l ≡ₚ l
}.
Arguments shuffle {K}.
Arguments shuffle_perm {K}.

Section table.
Context {K : Type} `{Countable K}.

Record BoundedTable : Type := {
  entries : gmap K AttemptEntry;
  capacity : Z;
  limit : Z;
  saturated_until : option Z
}.

Definition table_new (capacity limit : Z) : BoundedTable :=
  {| entries := ∅; capacity := capacity; limit := limit; saturated_until := None |}.

Definition set_entries (t : BoundedTable) (m : gmap K AttemptEntry) : BoundedTable :=
  {| entries := m; capacity := capacity t; limit := limit t; saturated_until := saturated_until t |}.

Definition set_saturated (t : BoundedTable) (s : option Z) : BoundedTable :=
  {| entries := entries t; capacity := capacity t; limit := limit t; saturated_until := s |}.

Definition len (m : gmap K AttemptEntry) : Z := Z.of_nat (size m).

Definition table_locked (t : BoundedTable) (k : K) (now : Z) : bool :=
  match entries t !! k with Some e => entry_locked e now (limit t) | None => false end.

(** [saturated_until.is_some_and(|until| now < until)]. *)
Definition saturated (t : BoundedTable) (now : Z) : bool :=
  match saturated_until t with Some until => now <? until | None => false end.

Definition known_saturated_for (t : BoundedTable) (k : K) (now : Z) : bool :=
  bool_decide (entries t !! k = None) && (capacity t <=? len (entries t)) && saturated t now.

(** The entries that an eviction takes: the oldest of those that are not protected. *)
Definition candidates (order : hash_order K) (m : gmap K AttemptEntry) (now limit : Z) : list (Z * K) :=
  (λ x, (window_started_millis x.2, x.1)) <$> filter (λ x, protected x.2 now limit = false) (shuffle order (map_to_list m)).

Definition older (x y : Z * K) : Prop := x.1 ≤ y.1.
#[global] Instance older_dec : RelDecision older.
Proof. intros x y. unfold older. apply _. Defined.

(** [select_nth_unstable_by_key(excess, ..)] and [truncate(excess)]. *)
Definition select_oldest (excess : Z) (l : list (Z * K)) : list (Z * K) :=
  if excess <? Z.of_nat (length l) then take (Z.to_nat excess) (merge_sort older l) else l.

Definition evict (order : hash_order K) (m : gmap K AttemptEntry) (target now limit : Z) : gmap K AttemptEntry :=
  if target <? len m
  then foldr (λ x m, delete x.2 m) m (select_oldest (len m - target) (candidates order m now limit))
  else m.

Definition eviction_target (capacity : Z) : Z := capacity - Z.max (capacity / EVICTION_BATCH_DIVISOR) 1.

(** [values().map(..).min()]. *)
Definition earliest_expiry (m : gmap K AttemptEntry) : option Z :=
  foldr (λ x o, Some (match o with Some z => Z.min x z | None => x end)) None
    ((λ x, saturating_add_i64 (window_started_millis x.2) LOGIN_FAILURE_WINDOW_MILLIS) <$> map_to_list m).

Definition make_room (order : hash_order K) (t : BoundedTable) (now : Z) : BoundedTable * bool :=
  if len (entries t) <? capacity t then (t, true)
  else if saturated t now then (t, false)
  else
    let kept := filter (λ x, live x.2 now = true) (entries t) in
    let m := evict order kept (eviction_target (capacity t)) now (limit t) in
    let t := set_saturated (set_entries t m) None in
    if len m <? capacity t then (t, true) else (set_saturated t (earliest_expiry m), false).

Definition reserve (order : hash_order K) (t : BoundedTable) (k : K) (now : Z) : BoundedTable * bool :=
  match entries t !! k with
  | Some e =>
      if entry_locked e now (limit t) then (t, false)
      else
        let e := roll_window e now in
        (set_entries t (<[k := set_in_flight e (saturating_add_u32 (in_flight e) 1)]> (entries t)), true)
  | None =>
      let '(t, room) := make_room order t now in
      if room then (set_entries t (<[k := set_in_flight (fresh now) 1]> (entries t)), true) else (t, false)
  end.

Definition table_release (t : BoundedTable) (k : K) : BoundedTable :=
  let t' :=
    match entries t !! k with
    | Some e =>
        let e := set_in_flight e (saturating_sub (in_flight e) 1) in
        set_entries t (if (failures e =? 0) && (in_flight e =? 0) then delete k (entries t) else <[k := e]> (entries t))
    | None => t
    end in
  set_saturated t' None.

Definition record (order : hash_order K) (t : BoundedTable) (k : K) (now : Z) : BoundedTable :=
  match entries t !! k with
  | Some e =>
      let e := roll_window (set_in_flight e (saturating_sub (in_flight e) 1)) now in
      let e := set_failures e (saturating_add_u32 (failures e) 1) in
      let t := set_entries t (<[k := e]> (entries t)) in
      if protected e now (limit t) then t else set_saturated t None
  | None =>
      let '(t, room) := make_room order t now in
      if room then set_entries t (<[k := set_failures (fresh now) 1]> (entries t)) else t
  end.

Definition table_remove (t : BoundedTable) (k : K) : BoundedTable :=
  match entries t !! k with
  | Some _ => set_saturated (set_entries t (delete k (entries t))) None
  | None => t
  end.
End table.
Arguments BoundedTable K {_ _}.

(** ** The limiter *)

Record LoginRateLimiter : Type := {
  pairs : BoundedTable AttemptKey;
  clients : BoundedTable string
}.

Definition with_capacity (pairs clients : Z) : LoginRateLimiter :=
  {| pairs := table_new pairs MAX_LOGIN_FAILURES; clients := table_new clients MAX_CLIENT_LOGIN_FAILURES |}.

Definition limiter_default : LoginRateLimiter := with_capacity MAX_TRACKED_PAIRS MAX_TRACKED_CLIENTS.

Definition attempt_key (client username : string) : AttemptKey := {| attempt_client := client; attempt_username := username |}.

Record orders : Type := { pair_order : hash_order AttemptKey; client_order : hash_order string }.

Definition rejected (l : LoginRateLimiter) (client username : string) (now : Z) : bool :=
  table_locked (pairs l) (attempt_key client username) now || table_locked (clients l) client now ||
  known_saturated_for (pairs l) (attempt_key client username) now || known_saturated_for (clients l) client now.

Definition limiter_admit (o : orders) (l : LoginRateLimiter) (client username : string) (now : Z) : LoginRateLimiter * bool :=
  let key := attempt_key client username in
  if table_locked (pairs l) key now || table_locked (clients l) client now then (l, false)
  else
    let '(ps, ok) := reserve (pair_order o) (pairs l) key now in
    if negb ok then ({| pairs := ps; clients := clients l |}, false)
    else
      let '(cs, ok) := reserve (client_order o) (clients l) client now in
      if negb ok then ({| pairs := table_release ps key; clients := cs |}, false)
      else ({| pairs := ps; clients := cs |}, true).

Definition release (l : LoginRateLimiter) (client username : string) : LoginRateLimiter :=
  {| pairs := table_release (pairs l) (attempt_key client username); clients := table_release (clients l) client |}.

Definition record_failure (o : orders) (l : LoginRateLimiter) (client username : string) (now : Z) : LoginRateLimiter :=
  {| pairs := record (pair_order o) (pairs l) (attempt_key client username) now;
     clients := record (client_order o) (clients l) client now |}.

Definition clear (l : LoginRateLimiter) (client username : string) : LoginRateLimiter :=
  {| pairs := table_remove (pairs l) (attempt_key client username); clients := table_release (clients l) client |}.
