(* ===== verification/LoginFacts.v ===== *)
(** * Login rate limiter: facts

    What the operations of [LoginLimiter] do to a table: eviction spares protected entries, a
    table stays within its capacity, and the cached [saturated_until] is right. *)

From Stdlib Require Import String.
From stdpp Require Import sorting.
From S2P Require Import Prelude LoginLimiter.
Local Open Scope Z_scope.

Lemma live_iff e now : live e now = true ↔ now - window_started_millis e < LOGIN_FAILURE_WINDOW_MILLIS.
Proof. unfold live, saturating_sub_i64, LOGIN_FAILURE_WINDOW_MILLIS, i64_min, i64_max. rewrite Z.ltb_lt. lia. Qed.

Lemma live_earlier e now now' : now ≤ now' → live e now' = true → live e now = true.
Proof. rewrite !live_iff. lia. Qed.

Lemma protected_iff e now limit : protected e now limit = true ↔ live e now = true ∧ (limit ≤ failures e ∨ 0 < in_flight e).
Proof. unfold protected. rewrite andb_true_iff, orb_true_iff, Z.leb_le, Z.ltb_lt. done. Qed.

Lemma locked_iff e now limit : entry_locked e now limit = true ↔ limit ≤ failures e ∧ live e now = true.
Proof. unfold entry_locked. rewrite andb_true_iff, Z.leb_le. done. Qed.

Lemma locked_protected e now limit : entry_locked e now limit = true → protected e now limit = true.
Proof. rewrite locked_iff, protected_iff. naive_solver. Qed.

Section facts.
Context {K : Type} `{Countable K}.
Implicit Types (t : BoundedTable K) (m : gmap K AttemptEntry) (o : hash_order K).

(** ** Eviction *)

Lemma lookup_deletes (l : list (Z * K)) m k : foldr (λ x m, delete x.2 m) m l !! k = if decide (k ∈ l.*2) then None else m !! k.
Proof.
  induction l as [|x l IH]; cbn; [done|]. destruct (decide (k = x.2)) as [->|Hk].
  - rewrite lookup_delete_eq, decide_True; [done|]. constructor.
  - rewrite lookup_delete_ne, IH by done. apply decide_ext. rewrite elem_of_cons. naive_solver.
Qed.

Lemma candidates_elem o m now limit z k :
  (z, k) ∈ candidates o m now limit ↔ ∃ e, m !! k = Some e ∧ protected e now limit = false ∧ z = window_started_millis e.
Proof.
  unfold candidates. rewrite list_elem_of_fmap. setoid_rewrite list_elem_of_filter.
  setoid_rewrite (shuffle_perm o). split.
  - intros ([k' e] & [= -> ->] & Hp & He%elem_of_map_to_list). by exists e.
  - intros (e & He & Hp & ->). exists (k, e). split_and!; [done..|]. by apply elem_of_map_to_list.
Qed.

Lemma select_oldest_sub n (l : list (Z * K)) x : x ∈ select_oldest n l → x ∈ l.
Proof.
  unfold select_oldest. case_match; [|done]. intros (i & Hi & _)%elem_of_take.
  apply list_elem_of_lookup_2 in Hi. by rewrite (merge_sort_Permutation older) in Hi.
Qed.

Lemma select_oldest_nonempty n (l : list (Z * K)) : 0 < n → l ≠ [] → select_oldest n l ≠ [].
Proof.
  unfold select_oldest. intros Hn Hl. case_match; [|done]. intros E. apply (f_equal length) in E.
  rewrite length_take, (Permutation_length (merge_sort_Permutation older l)) in E. destruct l; [done|]. cbn in E. lia.
Qed.

Lemma evict_lookup o m target now limit k e :
  evict o m target now limit !! k = Some e → m !! k = Some e.
Proof.
  unfold evict. case_match; [|done]. rewrite lookup_deletes. by destruct (decide _).
Qed.

Lemma evict_keeps o m target now limit k e :
  m !! k = Some e → protected e now limit = true → evict o m target now limit !! k = Some e.
Proof.
  intros Hk Hp. unfold evict. case_match; [|done]. rewrite lookup_deletes, decide_False; [done|].
  intros ([z k'] & -> & (e' & He' & Hp' & _)%select_oldest_sub%candidates_elem)%list_elem_of_fmap. cbn in Hk. congruence.
Qed.

(** An eviction that frees nothing found every entry protected. *)
Lemma evict_full o m target now limit :
  target < len m → len m ≤ len (evict o m target now limit) → map_Forall (λ _ e, protected e now limit = true) m.
Proof.
  intros Ht Hlen k e Hk. destruct (protected e now limit) eqn:Hp; [done|]. exfalso.
  assert (candidates o m now limit ≠ []) as Hc.
  { intros E. assert ((window_started_millis e, k) ∈ candidates o m now limit) as Hin by (apply candidates_elem; eauto).
    rewrite E in Hin. by apply not_elem_of_nil in Hin. }
  unfold evict in Hlen. rewrite (proj2 (Z.ltb_lt _ _) Ht) in Hlen.
  pose proof (select_oldest_nonempty (len m - target) _ ltac:(lia) Hc) as Hne.
  destruct (select_oldest _ _) as [|[z k'] l] eqn:E; [done|].
  assert ((z, k') ∈ candidates o m now limit) as (e' & He' & _)%candidates_elem.
  { eapply select_oldest_sub. rewrite E. constructor. }
  assert (size (foldr (λ x m, delete x.2 m) m ((z, k') :: l)) < size m)%nat as Hlt; [|unfold len in *; lia].
  apply map_subset_size. split.
  - apply map_subseteq_spec. intros i x. rewrite lookup_deletes. by destruct (decide _).
  - intros Hsub. rewrite map_subseteq_spec in Hsub. apply Hsub in He'. rewrite lookup_deletes, decide_True in He'; [done|constructor].
Qed.

(** ** Room *)

Lemma len_subseteq m m' : m ⊆ m' → len m ≤ len m'.
Proof. intros Hs%map_subseteq_size. unfold len. lia. Qed.

Lemma filter_live_sub m now : filter (λ x, live x.2 now = true) m ⊆ m.
Proof. apply map_filter_subseteq. Qed.

Lemma evict_subseteq o m target now limit : evict o m target now limit ⊆ m.
Proof. apply map_subseteq_spec. intros k e. apply evict_lookup. Qed.

(** The entries that are left after [make_room]. *)
Lemma make_room_lookup o t now k e : entries (make_room o t now).1 !! k = Some e → entries t !! k = Some e.
Proof.
  unfold make_room. case_match; [done|]. case_match; [done|]. cbv zeta. case_match; cbn.
  all: intros He%evict_lookup; by apply map_lookup_filter_Some in He as [He _].
Qed.

Lemma make_room_keeps o t now k e :
  entries t !! k = Some e → protected e now (limit t) = true → entries (make_room o t now).1 !! k = Some e.
Proof.
  intros Hk Hp. unfold make_room. case_match; [done|]. case_match; [done|]. cbv zeta. case_match; cbn.
  all: apply evict_keeps; [|done]; apply map_lookup_filter_Some; split; [done|]; by apply protected_iff in Hp as [? _].
Qed.

Lemma make_room_same o t now : capacity (make_room o t now).1 = capacity t ∧ limit (make_room o t now).1 = limit t.
Proof. unfold make_room. repeat (case_match; cbn; try done). Qed.

Lemma make_room_true o t now : (make_room o t now).2 = true → len (entries (make_room o t now).1) < capacity t.
Proof.
  unfold make_room. case_match eqn:E1; [intros _; by apply Z.ltb_lt|]. case_match; [done|]. cbv zeta. cbn.
  case_match eqn:E2; [|done]. intros _. by apply Z.ltb_lt.
Qed.

(** ** The invariant *)

Lemma earliest_expiry_le m z k e :
  earliest_expiry m = Some z → m !! k = Some e → i64_min ≤ window_started_millis e → z ≤ window_started_millis e + LOGIN_FAILURE_WINDOW_MILLIS.
Proof.
  intros Hz Hk%elem_of_map_to_list He. unfold earliest_expiry in Hz. revert z Hz.
  induction (map_to_list m) as [|[k' e'] l IH]; intros z; cbn; [by apply not_elem_of_nil in Hk|].
  intros [= <-]. apply elem_of_cons in Hk as [[= <- <-]|Hk].
  - unfold saturating_add_i64, LOGIN_FAILURE_WINDOW_MILLIS. case_match; lia.
  - case_match eqn:E; [|by destruct l; [apply not_elem_of_nil in Hk|]]. pose proof (IH Hk _ eq_refl). lia.
Qed.

Record entry_wf (e : AttemptEntry) : Prop := {
  ew_started : i64_min ≤ window_started_millis e;
  ew_failures : 0 ≤ failures e ≤ u32_max;
  ew_in_flight : 0 ≤ in_flight e ≤ u32_max
}.

(** A table is within its capacity, and while it is known to be saturated it is full of
    protected entries. *)
Record table_wf (t : BoundedTable K) : Prop := {
  tw_bound : len (entries t) ≤ capacity t;
  tw_entries : map_Forall (λ _ e, entry_wf e) (entries t);
  tw_saturated : ∀ until, saturated_until t = Some until →
    capacity t ≤ len (entries t) ∧ map_Forall (λ _ e, ∀ now, now < until → protected e now (limit t) = true) (entries t)
}.

Lemma table_new_wf c limit : 0 ≤ c → table_wf (table_new c limit).
Proof. intros Hc. split; cbn; [unfold len; by rewrite map_size_empty|apply map_Forall_empty|done]. Qed.

Lemma make_room_wf o t now : table_wf t → table_wf (make_room o t now).1.
Proof.
  intros [Hb He Hs]. unfold make_room. case_match eqn:E1; [by split|]. case_match eqn:E2; [by split|]. cbv zeta.
  set (kept := filter _ _). set (m := evict _ _ _ _ _).
  assert (m ⊆ kept) as Hm by apply evict_subseteq. assert (kept ⊆ entries t) as Hk by apply filter_live_sub.
  pose proof (len_subseteq _ _ Hm). pose proof (len_subseteq _ _ Hk). apply Z.ltb_ge in E1.
  assert (map_Forall (λ _ e, entry_wf e) m) as Hme.
  { intros k e Hke. eapply He, lookup_weaken; [exact Hke|by etrans]. }
  cbn [set_saturated set_entries capacity]. destruct (len m <? capacity t) eqn:E3; split; cbn; try done; try lia.
  intros u Hu. apply Z.ltb_ge in E3. split; [done|]. intros k e Hke now' Hn.
  assert (protected e now (limit t) = true) as [_ Hp]%protected_iff.
  { eapply (evict_full o kept (eviction_target (capacity t)) now (limit t)); [unfold eviction_target; lia|fold m; lia|].
    by eapply lookup_weaken. }
  apply protected_iff. split; [|done]. apply live_iff.
  pose proof (earliest_expiry_le _ _ _ _ Hu Hke (ew_started _ (Hme _ _ Hke))). lia.
Qed.

(** After room was made there is no saturation. *)
Lemma make_room_unsaturated o t now : table_wf t → (make_room o t now).2 = true → saturated_until (make_room o t now).1 = None.
Proof.
  intros [Hb He Hs]. unfold make_room. case_match eqn:E1.
  - intros _. cbn. destruct (saturated_until t) as [u|]; [|done]. destruct (Hs u eq_refl). lia.
  - case_match; [done|]. cbv zeta. by case_match.
Qed.

Lemma len_insert_new m k e : m !! k = None → len (<[k := e]> m) = len m + 1.
Proof. intros Hk. unfold len. rewrite map_size_insert_None by done. lia. Qed.

Lemma len_insert_old m k e e' : m !! k = Some e' → len (<[k := e]> m) = len m.
Proof. intros Hk. unfold len. by rewrite map_size_insert_Some by eauto. Qed.

Lemma insert_wf o t now k e :
  table_wf t → entries t !! k = None → entry_wf e → (make_room o t now).2 = true →
  table_wf (set_entries (make_room o t now).1 (<[k := e]> (entries (make_room o t now).1))).
Proof.
  intros Hwf Hk He Hroom. pose proof (make_room_unsaturated o t now Hwf Hroom) as Hu.
  pose proof (make_room_true o t now Hroom). destruct (make_room_same o t now) as [Ec _].
  destruct (make_room_wf o t now Hwf) as [Hb Hes _]. split; cbn.
  - rewrite len_insert_new; [lia|]. apply eq_None_not_Some. intros [e' He'%make_room_lookup]. congruence.
  - by apply map_Forall_insert_2.
  - congruence.
Qed.

Lemma touch_wf t k e e' :
  table_wf t → entries t !! k = Some e → entry_wf e' →
  (∀ until now, saturated_until t = Some until → now < until → protected e' now (limit t) = true) →
  table_wf (set_entries t (<[k := e']> (entries t))).
Proof.
  intros [Hb He Hs] Hk He' Hp. split; cbn; [by rewrite (len_insert_old _ _ _ e)|by apply map_Forall_insert_2|].
  intros u Hu. rewrite (len_insert_old _ _ _ e) by done. destruct (Hs _ Hu) as [? Hall]. split; [done|].
  apply map_Forall_insert_2; [|done]. intros now Hn. by eapply Hp.
Qed.

Lemma unsaturated_wf t : len (entries t) ≤ capacity t → map_Forall (λ _ e, entry_wf e) (entries t) → table_wf (set_saturated t None).
Proof. intros Hb He. by split. Qed.

Lemma roll_window_wf e now : i64_min ≤ now → entry_wf e → entry_wf (roll_window e now).
Proof. intros Hn [? ? ?]. unfold roll_window. case_match; split; cbn; unfold u32_max in *; lia. Qed.

(** An entry that was protected while the table is known to be saturated is live then, also
    after its window was rolled. *)
Lemma roll_live t k e now :
  table_wf t → entries t !! k = Some e →
  ∀ until now', saturated_until t = Some until → now' < until → live (roll_window e now) now' = true.
Proof.
  intros [_ _ Hs] Hk u now' Hu Hn. destruct (Hs _ Hu) as [_ Hall]. unfold roll_window. case_match eqn:El.
  - by destruct (proj1 (protected_iff _ _ _) (Hall _ _ Hk _ Hn)).
  - apply live_iff. cbn. destruct (Z.lt_ge_cases now u) as [Hlt|?].
    + destruct (proj1 (protected_iff _ _ _) (Hall _ _ Hk _ Hlt)). congruence.
    + unfold LOGIN_FAILURE_WINDOW_MILLIS. lia.
Qed.

Lemma reserve_wf o t k now : i64_min ≤ now → table_wf t → table_wf (reserve o t k now).1.
Proof.
  intros Hnow Hwf. unfold reserve. destruct (entries t !! k) as [e|] eqn:Hk.
  - case_match; [done|]. cbn. pose proof (tw_entries _ Hwf _ _ Hk) as He. pose proof (roll_window_wf e now Hnow He) as Hr.
    eapply touch_wf; [done|done| |].
    + destruct Hr. split; cbn; [done..|]. unfold saturating_add_u32, u32_max in *. lia.
    + intros u now' Hu Hn. apply protected_iff. split; [by eapply (roll_live t k e now)|]. right. cbn.
      destruct Hr. unfold saturating_add_u32, u32_max. lia.
  - destruct (make_room o t now) as [t' []] eqn:E; cbn.
    + rewrite <-(f_equal fst E : _ = t'). apply insert_wf; [done|done| |by rewrite E]. split; cbn; unfold u32_max; lia.
    + rewrite <-(f_equal fst E : _ = t'). by apply make_room_wf.
Qed.

Lemma record_wf o t k now : i64_min ≤ now → table_wf t → table_wf (record o t k now).
Proof.
  intros Hnow Hwf. unfold record. destruct (entries t !! k) as [e|] eqn:Hk.
  - pose proof (tw_entries _ Hwf _ _ Hk) as He. cbv zeta.
    set (e1 := set_in_flight e (saturating_sub (in_flight e) 1)).
    assert (entry_wf e1) as He1 by (destruct He; split; cbn; unfold saturating_sub in *; lia).
    pose proof (roll_window_wf e1 now Hnow He1) as Hr. set (e2 := set_failures _ _).
    assert (entry_wf e2) as He2 by (destruct Hr; split; cbn; unfold saturating_add_u32, u32_max in *; lia).
    case_match eqn:Hp.
    + eapply touch_wf; [done..|]. intros u now' Hu Hn. apply protected_iff in Hp as [_ Hp]. apply protected_iff. split; [|done].
      assert (live e2 now' = live (roll_window e now) now') as ->.
      { unfold live. do 2 f_equal. subst e2 e1. unfold roll_window, live. cbn. by case_match. }
      by eapply (roll_live t k e now).
    + apply unsaturated_wf; cbn; [rewrite (len_insert_old _ _ _ e) by done; apply Hwf|]. apply map_Forall_insert_2; [done|apply Hwf].
  - destruct (make_room o t now) as [t' []] eqn:E; cbn.
    + rewrite <-(f_equal fst E : _ = t'). apply insert_wf; [done|done| |by rewrite E]. split; cbn; unfold u32_max; lia.
    + rewrite <-(f_equal fst E : _ = t'). by apply make_room_wf.
Qed.

Lemma len_delete m k : len (delete k m) ≤ len m.
Proof. apply len_subseteq, delete_subseteq. Qed.

Lemma table_release_wf t k : table_wf t → table_wf (table_release t k).
Proof.
  intros [Hb He Hs]. unfold table_release. destruct (entries t !! k) as [e|] eqn:Hk; [|by apply unsaturated_wf].
  cbv zeta. pose proof (He _ _ Hk) as [? ? ?].
  apply unsaturated_wf; cbn; (case_match; [pose proof (len_delete (entries t) k)|]); try (rewrite (len_insert_old _ _ _ e) by done); try lia.
  - by apply map_Forall_delete.
  - apply map_Forall_insert_2; [|done]. split; cbn; unfold saturating_sub in *; lia.
Qed.

Lemma table_remove_wf t k : table_wf t → table_wf (table_remove t k).
Proof.
  intros [Hb He Hs]. unfold table_remove. destruct (entries t !! k) as [e|] eqn:Hk; [|by split].
  apply unsaturated_wf; cbn; [pose proof (len_delete (entries t) k); lia|by apply map_Forall_delete].
Qed.
End facts.
