(* ===== verification/LoginSafety.v ===== *)
(** * Login rate limiter: what it promises

    Runs of [LoginLimiter]'s operations: a lockout holds for its window, it is justified by
    recorded failures, and the cached saturation never changes an answer. *)

From Stdlib Require Import String.
From stdpp Require Import sorting.
From S2P Require Import Prelude LoginLimiter LoginFacts.
Local Open Scope Z_scope.

(** ** Runs of one table *)

Inductive table_op (K : Type) : Type :=
| Reserve (o : hash_order K) (k : K) (now : Z)
| Release (k : K)
| Record_ (o : hash_order K) (k : K) (now : Z)
| Remove (k : K).
Arguments Reserve {K}.
Arguments Release {K}.
Arguments Record_ {K}.
Arguments Remove {K}.

Section table.
Context {K : Type} `{Countable K}.
Implicit Types (t : BoundedTable K) (m : gmap K AttemptEntry) (op : table_op K).

Definition table_step t op : BoundedTable K :=
  match op with
  | Reserve o k now => (reserve o t k now).1
  | Release k => table_release t k
  | Record_ o k now => record o t k now
  | Remove k => table_remove t k
  end.

Definition table_run t (ops : list (table_op K)) : BoundedTable K := foldl table_step t ops.

Definition table_op_time op : option Z :=
  match op with Reserve _ _ now | Record_ _ _ now => Some now | _ => None end.

(** The time of an operation, if it has one, satisfies [P]. *)
Definition timed (P : Z → Prop) op : Prop := match table_op_time op with Some now => P now | None => True end.

Lemma table_step_same t op : capacity (table_step t op) = capacity t ∧ limit (table_step t op) = limit t.
Proof.
  destruct op as [o k now|k|o k now|k]; cbn.
  - unfold reserve. case_match; [by case_match|]. destruct (make_room_same o t now), (make_room o t now) as [t' []]; done.
  - unfold table_release. case_match; done.
  - unfold record. case_match; [by cbv zeta; case_match|]. destruct (make_room_same o t now), (make_room o t now) as [t' []]; done.
  - unfold table_remove. by case_match.
Qed.

Lemma table_run_same t ops : capacity (table_run t ops) = capacity t ∧ limit (table_run t ops) = limit t.
Proof.
  revert t. induction ops as [|op ops IH]; intros t; [done|].
  change (table_run t (op :: ops)) with (table_run (table_step t op) ops). destruct (IH (table_step t op)) as [-> ->]. apply table_step_same.
Qed.

Lemma attempts_step_wf t op : timed (λ now, i64_min ≤ now) op → table_wf t → table_wf (table_step t op).
Proof. destruct op; cbn; [apply reserve_wf|intros _; apply table_release_wf|apply record_wf|intros _; apply table_remove_wf]. Qed.

Lemma table_run_wf t ops : Forall (timed (λ now, i64_min ≤ now)) ops → table_wf t → table_wf (table_run t ops).
Proof.
  intros Hops. revert t. induction Hops as [|op ops Hop _ IH]; intros t Hwf; [done|]. cbn. by apply IH, attempts_step_wf.
Qed.

(** *** A lockout stays *)

(** The key has [limit] failures in a window that started at [z]. *)
Definition locked_since t (k : K) (z : Z) : Prop :=
  ∃ e, entries t !! k = Some e ∧ limit t ≤ failures e ∧ window_started_millis e = z.

Lemma locked_since_locked t k z now :
  locked_since t k z → now - z < LOGIN_FAILURE_WINDOW_MILLIS → table_locked t k now = true.
Proof. intros (e & He & Hf & <-) Hn. unfold table_locked. rewrite He. by apply locked_iff, conj, live_iff. Qed.

Lemma table_locked_since t k now :
  table_locked t k now = true → ∃ z, locked_since t k z ∧ now - z < LOGIN_FAILURE_WINDOW_MILLIS.
Proof.
  unfold table_locked. destruct (entries t !! k) as [e|] eqn:He; [|done]. intros [? ?%live_iff]%locked_iff.
  exists (window_started_millis e). split; [by exists e|done].
Qed.

Lemma room_locked o t k z now :
  locked_since t k z → now - z < LOGIN_FAILURE_WINDOW_MILLIS → locked_since (make_room o t now).1 k z.
Proof.
  intros (e & He & Hf & <-) Hn. exists e. destruct (make_room_same o t now) as [_ ->]. split_and!; [|done..].
  apply make_room_keeps; [done|]. by apply locked_protected, locked_iff, conj, live_iff.
Qed.

Lemma insert_locked t k k' e z : k ≠ k' → locked_since t k z → locked_since (set_entries t (<[k' := e]> (entries t))) k z.
Proof. intros Hne (x & Hx & ? & ?). exists x. cbn. by rewrite lookup_insert_ne. Qed.

Lemma locked_step t op k z now :
  0 < limit t ≤ u32_max → timed (λ n, n ≤ now) op → now - z < LOGIN_FAILURE_WINDOW_MILLIS → op ≠ Remove k →
  locked_since t k z → locked_since (table_step t op) k z.
Proof.
  intros Hlim Ht Hn Hop Hl. pose proof Hl as (e & He & Hf & Hz).
  assert (∀ n, n ≤ now → live e n = true) as Hlive by (intros n ?; apply live_iff; lia).
  destruct op as [o k' n|k'|o k' n|k']; cbn [table_step]; unfold timed in Ht; cbn in Ht.
  - unfold reserve. destruct (decide (k' = k)) as [->|Hk].
    + rewrite He. unfold entry_locked. rewrite Hlive, (proj2 (Z.leb_le _ _)) by done. done.
    + destruct (entries t !! k'); [case_match; [done|]; by apply insert_locked|].
      pose proof (room_locked o t k z n Hl ltac:(lia)) as Hr. destruct (make_room o t n) as [t' []]; [by apply insert_locked|done].
  - unfold table_release. destruct (entries t !! k') as [e'|] eqn:He'; [|done]. cbv zeta.
    destruct (decide (k' = k)) as [->|Hk].
    + simplify_eq. rewrite (proj2 (Z.eqb_neq _ _)) by (cbn; lia). cbn. eexists. cbn. by rewrite lookup_insert_eq.
    + exists e. cbn. case_match; [by rewrite lookup_delete_ne|by rewrite lookup_insert_ne].
  - unfold record. destruct (decide (k' = k)) as [->|Hk].
    + rewrite He. cbv zeta. unfold roll_window. assert (live (set_in_flight e (saturating_sub (in_flight e) 1)) n = true) as ->.
      { by apply (Hlive n). }
      case_match; (eexists; cbn; rewrite lookup_insert_eq; split_and!; [done| |done]; unfold saturating_add_u32; cbn; lia).
    + destruct (entries t !! k'); [cbv zeta; case_match; exists e; cbn; by rewrite lookup_insert_ne|].
      pose proof (room_locked o t k z n Hl ltac:(lia)) as Hr. destruct (make_room o t n) as [t' []]; [by apply insert_locked|done].
  - unfold table_remove. destruct (entries t !! k'); [|done]. exists e. cbn. rewrite lookup_delete_ne by congruence. done.
Qed.

Lemma locked_run t ops k z now :
  0 < limit t ≤ u32_max → Forall (λ op, timed (λ n, n ≤ now) op ∧ op ≠ Remove k) ops → now - z < LOGIN_FAILURE_WINDOW_MILLIS →
  locked_since t k z → locked_since (table_run t ops) k z.
Proof.
  intros Hlim Hops Hn. revert t Hlim. induction Hops as [|op ops [] _ IH]; intros t Hlim Hl; [done|]. cbn. apply IH.
  - by destruct (table_step_same t op) as [_ ->].
  - by eapply locked_step.
Qed.

(** *** Failures are recorded ones *)

(** The failures of [k] that were recorded at [from] or later. *)
Definition recorded (h : list (K * Z)) (k : K) (from : Z) : Z := Z.of_nat (length (filter (λ x, x.1 = k ∧ from ≤ x.2) h)).

Definition recorded_by op : list (K * Z) := match op with Record_ _ k now => [(k, now)] | _ => [] end.

Lemma recorded_cons h x k from : recorded (x :: h) k from = recorded h k from + (if decide (x.1 = k ∧ from ≤ x.2) then 1 else 0).
Proof. unfold recorded. rewrite filter_cons. case_decide; cbn; lia. Qed.

Lemma recorded_nonneg h k from : 0 ≤ recorded h k from.
Proof. unfold recorded. lia. Qed.

Definition counted (h : list (K * Z)) (now : Z) (k : K) (e : AttemptEntry) : Prop :=
  failures e ≤ recorded h k (window_started_millis e) ∧ window_started_millis e ≤ now.

Lemma counted_later h now now' k e x : now ≤ now' → counted h now k e → counted (x ++ h) now' k e.
Proof.
  intros Hn [Hf Hs]. split; [|lia]. induction x as [|y x IH]; cbn; [done|]. rewrite recorded_cons. case_decide; lia.
Qed.

Lemma counted_fresh h now k n : counted h now k (set_in_flight (fresh now) n).
Proof. split; cbn; [apply recorded_nonneg|lia]. Qed.

Lemma counted_roll h now now' k e n : now ≤ now' → counted h now k e → counted h now' k (roll_window (set_in_flight e n) now').
Proof.
  intros Hn [Hf Hs]. unfold roll_window. case_match; [split; cbn; [done|lia]|]. split; cbn; [apply recorded_nonneg|lia].
Qed.

Lemma counted_record h now k e : counted h now k e → counted ((k, now) :: h) now k (set_failures e (saturating_add_u32 (failures e) 1)).
Proof.
  intros [Hf Hs]. split; [|done]. cbn. rewrite recorded_cons, decide_True by done. unfold saturating_add_u32. lia.
Qed.

(** Every entry counts recorded failures. *)
Definition counts (h : list (K * Z)) (now : Z) t : Prop := map_Forall (counted h now) (entries t).

Lemma counts_room o h now now' t : counts h now t → counts h now (make_room o t now').1.
Proof. intros Hc k e He%make_room_lookup. by apply Hc. Qed.

Lemma counts_step t op h now now' :
  now ≤ now' → timed (λ n, n = now') op → counts h now t → counts (recorded_by op ++ h) now' (table_step t op).
Proof.
  intros Hn Ht Hc.
  assert (∀ x, map_Forall (counted (x ++ h) now') (entries t)) as Hc'.
  { intros x k e He. by eapply counted_later, Hc. }
  assert (∀ o n x, map_Forall (counted (x ++ h) now') (entries (make_room o t n).1)) as Hroom.
  { intros o n x k e He%make_room_lookup. by apply Hc'. }
  destruct op as [o k n|k|o k n|k]; unfold timed in Ht; cbn in Ht; subst; cbn [table_step recorded_by].
  - unfold reserve. destruct (entries t !! k) as [e|] eqn:He.
    + case_match; [apply (Hc' [])|]. apply map_Forall_insert_2; [|apply (Hc' [])].
      pose proof (counted_roll h now now' k e (in_flight e) Hn (Hc _ _ He)) as Hr. by destruct e.
    + specialize (Hroom o now' []). destruct (make_room o t now') as [t' []]; [|done].
      apply map_Forall_insert_2; [apply counted_fresh|done].
  - unfold table_release. destruct (entries t !! k) as [e|] eqn:He; [|apply (Hc' [])]. unfold counts. cbn.
    case_match; [apply map_Forall_delete, (Hc' [])|]. apply map_Forall_insert_2; [|apply (Hc' [])]. apply (Hc' [] _ _ He).
  - unfold record. destruct (entries t !! k) as [e|] eqn:He.
    + cbv zeta. unfold counts. case_match; cbn; (apply map_Forall_insert_2; [|apply (Hc' [(k, now')])]).
      all: apply counted_record, (counted_roll h now); [done|by apply Hc].
    + specialize (Hroom o now' [(k, now')]). destruct (make_room o t now') as [t' []]; [|done].
      apply map_Forall_insert_2; [|done]. apply (counted_record h now' k (fresh now')). apply (counted_fresh h now' k 0).
  - unfold table_remove. destruct (entries t !! k); [apply map_Forall_delete, (Hc' [])|apply (Hc' [])].
Qed.

(** A locked key has [limit] failures recorded within the window. *)
Lemma counts_locked h now t k now' :
  counts h now t → table_locked t k now' = true → limit t ≤ recorded h k (now' - LOGIN_FAILURE_WINDOW_MILLIS + 1).
Proof.
  intros Hc (z & (e & He & Hf & <-) & Hn)%table_locked_since. destruct (Hc _ _ He) as [Hr _].
  enough (recorded h k (window_started_millis e) ≤ recorded h k (now' - LOGIN_FAILURE_WINDOW_MILLIS + 1)) by lia.
  clear -Hn. induction h as [|x h IH]; [done|]. rewrite !recorded_cons.
  do 2 case_decide; try lia. exfalso. naive_solver lia.
Qed.
End table.

(** ** Runs of the limiter *)

Inductive limiter_op : Type :=
| AdmitAttempt (o : orders) (client username : string) (now : Z)
| ReleaseAttempt (client username : string)
| RecordFailure (o : orders) (client username : string) (now : Z)
| ClearPair (client username : string).

Definition limiter_step (l : LoginRateLimiter) (op : limiter_op) : LoginRateLimiter :=
  match op with
  | AdmitAttempt o c u now => (limiter_admit o l c u now).1
  | ReleaseAttempt c u => release l c u
  | RecordFailure o c u now => record_failure o l c u now
  | ClearPair c u => clear l c u
  end.

Definition limiter_run (l : LoginRateLimiter) (ops : list limiter_op) : LoginRateLimiter := foldl limiter_step l ops.

Definition limiter_op_time (op : limiter_op) : option Z :=
  match op with AdmitAttempt _ _ _ now | RecordFailure _ _ _ now => Some now | _ => None end.

(** The operations on the tables that a call makes. *)
Definition pair_ops (l : LoginRateLimiter) (op : limiter_op) : list (table_op AttemptKey) :=
  match op with
  | AdmitAttempt o c u now =>
      let k := attempt_key c u in
      if table_locked (pairs l) k now || table_locked (clients l) c now then []
      else if negb (reserve (pair_order o) (pairs l) k now).2 then [Reserve (pair_order o) k now]
      else if negb (reserve (client_order o) (clients l) c now).2 then [Reserve (pair_order o) k now; Release k]
      else [Reserve (pair_order o) k now]
  | ReleaseAttempt c u => [Release (attempt_key c u)]
  | RecordFailure o c u now => [Record_ (pair_order o) (attempt_key c u) now]
  | ClearPair c u => [Remove (attempt_key c u)]
  end.

Definition client_ops (l : LoginRateLimiter) (op : limiter_op) : list (table_op string) :=
  match op with
  | AdmitAttempt o c u now =>
      if table_locked (pairs l) (attempt_key c u) now || table_locked (clients l) c now ||
         negb (reserve (pair_order o) (pairs l) (attempt_key c u) now).2 then []
      else [Reserve (client_order o) c now]
  | ReleaseAttempt c u | ClearPair c u => [Release c]
  | RecordFailure o c u now => [Record_ (client_order o) c now]
  end.

Lemma limiter_step_tables l op :
  pairs (limiter_step l op) = table_run (pairs l) (pair_ops l op) ∧
  clients (limiter_step l op) = table_run (clients l) (client_ops l op).
Proof.
  destruct op as [o c u now|c u|o c u now|c u]; [|done..]. cbn [limiter_step pair_ops client_ops]. unfold limiter_admit.
  destruct (table_locked _ _ _ || _); [done|]. unfold table_run. cbv zeta.
  destruct (reserve (pair_order o) _ _ _) as [ps []] eqn:E1; cbn; rewrite ?E1; [|done].
  destruct (reserve (client_order o) _ _ _) as [cs []] eqn:E2; cbn; rewrite ?E1; done.
Qed.

(** The time of a call, if it has one, satisfies [P]. *)
Definition call_timed (P : Z → Prop) (op : limiter_op) : Prop := match limiter_op_time op with Some now => P now | None => True end.

Lemma pair_ops_timed P l op : call_timed P op → Forall (timed P) (pair_ops l op).
Proof. destruct op; cbn; intros HP; repeat case_match; repeat constructor; done. Qed.

Lemma client_ops_timed P l op : call_timed P op → Forall (timed P) (client_ops l op).
Proof. destruct op; cbn; intros HP; repeat case_match; repeat constructor; done. Qed.

Lemma pair_ops_remove l op k : Remove k ∈ pair_ops l op → ∃ c u, op = ClearPair c u ∧ k = attempt_key c u.
Proof.
  destruct op; cbn; repeat case_match; rewrite ?elem_of_cons, ?elem_of_nil; intros Hin; naive_solver.
Qed.

Lemma client_ops_remove l op k : Remove k ∉ client_ops l op.
Proof. destruct op; cbn; repeat case_match; rewrite ?elem_of_cons, ?elem_of_nil; intros Hin; naive_solver. Qed.

Lemma limiter_run_limits l ops :
  limit (pairs (limiter_run l ops)) = limit (pairs l) ∧ limit (clients (limiter_run l ops)) = limit (clients l) ∧
  capacity (pairs (limiter_run l ops)) = capacity (pairs l) ∧ capacity (clients (limiter_run l ops)) = capacity (clients l).
Proof.
  revert l. induction ops as [|op ops IH]; intros l; [done|].
  change (limiter_run l (op :: ops)) with (limiter_run (limiter_step l op) ops).
  destruct (IH (limiter_step l op)) as (-> & -> & -> & ->), (limiter_step_tables l op) as [-> ->].
  destruct (table_run_same (pairs l) (pair_ops l op)) as [-> ->], (table_run_same (clients l) (client_ops l op)) as [-> ->]. done.
Qed.

Lemma pair_locked_run l ops c u z now :
  0 < limit (pairs l) ≤ u32_max → Forall (call_timed (λ n, n ≤ now)) ops → ClearPair c u ∉ ops → now - z < LOGIN_FAILURE_WINDOW_MILLIS →
  locked_since (pairs l) (attempt_key c u) z → locked_since (pairs (limiter_run l ops)) (attempt_key c u) z.
Proof.
  intros Hlim Hops Hclear Hn. revert l Hlim. induction Hops as [|op ops Hop _ IH]; intros l Hlim Hl; [done|]. cbn.
  rewrite elem_of_cons in Hclear. apply IH; [by intros ?; apply Hclear; right| |].
  - destruct (limiter_run_limits l [op]) as (E & _). cbn in E. by rewrite E.
  - destruct (limiter_step_tables l op) as [-> _]. eapply locked_run; [done| |done|done].
    pose proof (pair_ops_timed _ l op Hop) as Ht. apply Forall_forall. intros x Hx. split; [by eapply Forall_forall|].
    intros ->. apply pair_ops_remove in Hx as (c' & u' & -> & [= <- <-]). apply Hclear. by left.
Qed.

Lemma client_locked_run l ops c z now :
  0 < limit (clients l) ≤ u32_max → Forall (call_timed (λ n, n ≤ now)) ops → now - z < LOGIN_FAILURE_WINDOW_MILLIS →
  locked_since (clients l) c z → locked_since (clients (limiter_run l ops)) c z.
Proof.
  intros Hlim Hops Hn. revert l Hlim. induction Hops as [|op ops Hop _ IH]; intros l Hlim Hl; [done|]. cbn. apply IH.
  - destruct (limiter_run_limits l [op]) as (_ & E & _). cbn in E. by rewrite E.
  - destruct (limiter_step_tables l op) as [_ ->]. eapply locked_run; [done| |done|done].
    pose proof (client_ops_timed _ l op Hop) as Ht. apply Forall_forall. intros x Hx. split; [by eapply Forall_forall|].
    intros ->. by apply client_ops_remove in Hx.
Qed.

(** A lockout holds for its window: if a pair is locked at some time, or a client is, then
    after any calls made until then, for any clients and users and in any state of the tables,
    it is still locked.  Only the success of the pair lifts a lockout of the pair, and nothing
    one of the client. *)
Lemma lockout_stays l ops c u now :
  0 < limit (pairs l) ≤ u32_max → 0 < limit (clients l) ≤ u32_max → Forall (call_timed (λ n, n ≤ now)) ops →
  table_locked (pairs l) (attempt_key c u) now = true ∧ ClearPair c u ∉ ops ∨ table_locked (clients l) c now = true →
  let l' := limiter_run l ops in
  table_locked (pairs l') (attempt_key c u) now || table_locked (clients l') c now = true.
Proof.
  intros Hp Hc Hops Hlocked l'. apply orb_true_iff.
  destruct Hlocked as [[(z & Hz & Hn)%table_locked_since Hclear]|(z & Hz & Hn)%table_locked_since].
  - left. eapply locked_since_locked, Hn. by eapply pair_locked_run.
  - right. eapply locked_since_locked, Hn. by eapply client_locked_run.
Qed.

(** ** Why an attempt is rejected *)

(** The failures that the calls recorded, for pairs and for clients. *)
Definition pair_failures (ops : list limiter_op) : list (AttemptKey * Z) :=
  foldl (λ h op, match op with RecordFailure _ c u now => (attempt_key c u, now) :: h | _ => h end) [] ops.

Definition client_failures (ops : list limiter_op) : list (string * Z) :=
  foldl (λ h op, match op with RecordFailure _ c u now => (c, now) :: h | _ => h end) [] ops.

(** The clock of the calls does not go back. *)
Fixpoint clocked (now : Z) (ops : list limiter_op) : Prop :=
  match ops with
  | [] => True
  | op :: ops => match limiter_op_time op with Some n => now ≤ n ∧ clocked n ops | None => clocked now ops end
  end.

Definition call_now (now : Z) (op : limiter_op) : Z := default now (limiter_op_time op).

Lemma counts_run {K} `{Countable K} (t : BoundedTable K) ops h now now' :
  now ≤ now' → Forall (timed (λ n, n = now')) ops → counts h now t →
  counts (foldl (λ h op, recorded_by op ++ h) h ops) now' (table_run t ops).
Proof.
  intros Hn Hops. revert t h now Hn. induction Hops as [|op ops Hop _ IH]; intros t h now Hn Hc.
  - intros k e He. by eapply (counted_later h now now' k e []), Hc.
  - cbn. eapply (IH _ _ now'); [done|]. by eapply counts_step.
Qed.

Lemma pair_ops_recorded l op h :
  foldl (λ h op, recorded_by op ++ h) h (pair_ops l op) =
  match op with RecordFailure _ c u now => (attempt_key c u, now) :: h | _ => h end.
Proof. destruct op; cbn; repeat case_match; done. Qed.

Lemma client_ops_recorded l op h :
  foldl (λ h op, recorded_by op ++ h) h (client_ops l op) =
  match op with RecordFailure _ c u now => (c, now) :: h | _ => h end.
Proof. destruct op; cbn; repeat case_match; done. Qed.

Record limiter_wf (l : LoginRateLimiter) : Prop := { lw_pairs : table_wf (pairs l); lw_clients : table_wf (clients l) }.

Lemma limiter_step_wf l op : call_timed (λ n, i64_min ≤ n) op → limiter_wf l → limiter_wf (limiter_step l op).
Proof.
  intros Ht [Hp Hc]. destruct (limiter_step_tables l op) as [E1 E2]. split; [rewrite E1|rewrite E2].
  - by apply table_run_wf, Hp; apply pair_ops_timed.
  - by apply table_run_wf, Hc; apply client_ops_timed.
Qed.

Lemma limiter_counts now l ops ph ch :
  i64_min ≤ now → clocked now ops → limiter_wf l → counts ph now (pairs l) → counts ch now (clients l) →
  ∃ now', limiter_wf (limiter_run l ops) ∧
    counts (foldl (λ h op, match op with RecordFailure _ c u now => (attempt_key c u, now) :: h | _ => h end) ph ops) now' (pairs (limiter_run l ops)) ∧
    counts (foldl (λ h op, match op with RecordFailure _ c u now => (c, now) :: h | _ => h end) ch ops) now' (clients (limiter_run l ops)).
Proof.
  revert now l ph ch. induction ops as [|op ops IH]; intros now l ph ch Hmin Hclock Hwf Hp Hc; [by exists now|]. cbn [foldl limiter_run].
  assert (now ≤ call_now now op ∧ clocked (call_now now op) ops ∧ call_timed (λ n, n = call_now now op) op) as (Hle & Hrest & Htime).
  { unfold call_now, call_timed. cbn in Hclock. destruct (limiter_op_time op); cbn; [naive_solver|by split_and!]. }
  destruct (limiter_step_tables l op) as [E1 E2]. apply (IH (call_now now op)); [lia|done| | |].
  - apply limiter_step_wf; [|done]. unfold call_timed in *. destruct (limiter_op_time op); [subst; lia|done].
  - rewrite E1, <-(pair_ops_recorded l op). eapply counts_run; [done| |done]. by apply pair_ops_timed.
  - rewrite E2, <-(client_ops_recorded l op). eapply counts_run; [done| |done]. by apply client_ops_timed.
Qed.

Lemma with_capacity_wf p q : 0 ≤ p → 0 ≤ q → limiter_wf (with_capacity p q).
Proof. intros ? ?. split; by apply table_new_wf. Qed.

Lemma known_saturated_full {K} `{Countable K} (t : BoundedTable K) k now :
  table_wf t → known_saturated_for t k now = true →
  entries t !! k = None ∧ len (entries t) = capacity t ∧ map_Forall (λ _ e, protected e now (limit t) = true) (entries t).
Proof.
  intros [Hb _ Hs]. unfold known_saturated_for, saturated. rewrite !andb_true_iff, bool_decide_eq_true, Z.leb_le.
  intros [[Hk Hcap] Hsat]. destruct (saturated_until t) as [z|]; [|done]. destruct (Hs z eq_refl) as [_ Hall].
  split_and!; [done|lia|]. intros k' e He. eapply Hall; [done|]. by apply Z.ltb_lt.
Qed.

(** C28. A rejection is justified: the tables never exceed their capacity, and if an attempt is
    rejected, then at least five failures of the pair, or fifty of the client, were recorded
    within the last window, or the attempt cannot be recorded because a table is full and
    every entry of it is locked or has an attempt under way. *)
Theorem rejection_justified p q ops now c u :
  0 ≤ p → 0 ≤ q → clocked i64_min ops →
  let l := limiter_run (with_capacity p q) ops in
  let from := now - LOGIN_FAILURE_WINDOW_MILLIS + 1 in
  len (entries (pairs l)) ≤ p ∧ len (entries (clients l)) ≤ q ∧
  (rejected l c u now = true →
   5 ≤ recorded (pair_failures ops) (attempt_key c u) from ∨ 50 ≤ recorded (client_failures ops) c from ∨
   (entries (pairs l) !! attempt_key c u = None ∧ len (entries (pairs l)) = p ∧
      map_Forall (λ _ e, protected e now MAX_LOGIN_FAILURES = true) (entries (pairs l))) ∨
   (entries (clients l) !! c = None ∧ len (entries (clients l)) = q ∧
      map_Forall (λ _ e, protected e now MAX_CLIENT_LOGIN_FAILURES = true) (entries (clients l)))).
Proof.
  intros Hp Hq Hops l from. destruct (limiter_counts i64_min (with_capacity p q) ops [] []) as (now' & [Hwp Hwc] & Hcp & Hcc);
    [done|done|by apply with_capacity_wf|apply map_Forall_empty|apply map_Forall_empty|].
  destruct (limiter_run_limits (with_capacity p q) ops) as (E1 & E2 & E3 & E4). fold l in Hwp, Hwc, Hcp, Hcc, E1, E2, E3, E4.
  cbn in E1, E2, E3, E4. split_and!; [rewrite <-E3; apply Hwp|rewrite <-E4; apply Hwc|].
  unfold rejected. rewrite !orb_true_iff. intros [[[H|H]|H]|H].
  - left. change 5 with MAX_LOGIN_FAILURES. rewrite <-E1. by eapply counts_locked.
  - right; left. change 50 with MAX_CLIENT_LOGIN_FAILURES. rewrite <-E2. by eapply counts_locked.
  - do 2 right; left. rewrite <-E1, <-E3. by apply known_saturated_full.
  - do 3 right. rewrite <-E2, <-E4. by apply known_saturated_full.
Qed.

(** ** The limiter without its cache *)

(** The reference: tables that do not remember that they are saturated and look for room at
    every new key. *)
Section plain.
Context {K : Type} `{Countable K} (cap lim : Z).
Implicit Types (m : gmap K AttemptEntry).

Definition plain_locked m (k : K) (now : Z) : bool :=
  match m !! k with Some e => entry_locked e now lim | None => false end.

Definition plain_room (o : hash_order K) m (now : Z) : gmap K AttemptEntry * bool :=
  if len m <? cap then (m, true)
  else let m := evict o (filter (λ x, live x.2 now = true) m) (eviction_target cap) now lim in (m, len m <? cap).

Definition plain_reserve (o : hash_order K) m (k : K) (now : Z) : gmap K AttemptEntry * bool :=
  match m !! k with
  | Some e =>
      if entry_locked e now lim then (m, false)
      else let e := roll_window e now in (<[k := set_in_flight e (saturating_add_u32 (in_flight e) 1)]> m, true)
  | None =>
      let '(m, room) := plain_room o m now in
      if room then (<[k := set_in_flight (fresh now) 1]> m, true) else (m, false)
  end.

Definition plain_release m (k : K) : gmap K AttemptEntry :=
  match m !! k with
  | Some e =>
      let e := set_in_flight e (saturating_sub (in_flight e) 1) in
      if (failures e =? 0) && (in_flight e =? 0) then delete k m else <[k := e]> m
  | None => m
  end.

Definition plain_record (o : hash_order K) m (k : K) (now : Z) : gmap K AttemptEntry :=
  match m !! k with
  | Some e =>
      let e := roll_window (set_in_flight e (saturating_sub (in_flight e) 1)) now in
      <[k := set_failures e (saturating_add_u32 (failures e) 1)]> m
  | None =>
      let '(m, room) := plain_room o m now in
      if room then <[k := set_failures (fresh now) 1]> m else m
  end.
End plain.

Record PlainLimiter : Type := { plain_pairs : gmap AttemptKey AttemptEntry; plain_clients : gmap string AttemptEntry }.

Section plain_limiter.
Context (p q : Z).

Abbreviation pair_table f := (f p MAX_LOGIN_FAILURES) (only parsing).
Abbreviation client_table f := (f q MAX_CLIENT_LOGIN_FAILURES) (only parsing).

Definition plain_admit (o : orders) (r : PlainLimiter) (client username : string) (now : Z) : PlainLimiter * bool :=
  let key := attempt_key client username in
  if plain_locked MAX_LOGIN_FAILURES (plain_pairs r) key now || plain_locked MAX_CLIENT_LOGIN_FAILURES (plain_clients r) client now
  then (r, false)
  else
    let '(ps, ok) := pair_table plain_reserve (pair_order o) (plain_pairs r) key now in
    if negb ok then ({| plain_pairs := ps; plain_clients := plain_clients r |}, false)
    else
      let '(cs, ok) := client_table plain_reserve (client_order o) (plain_clients r) client now in
      if negb ok then ({| plain_pairs := plain_release ps key; plain_clients := cs |}, false)
      else ({| plain_pairs := ps; plain_clients := cs |}, true).

Definition plain_step (r : PlainLimiter) (op : limiter_op) : PlainLimiter :=
  match op with
  | AdmitAttempt o c u now => (plain_admit o r c u now).1
  | ReleaseAttempt c u =>
      {| plain_pairs := plain_release (plain_pairs r) (attempt_key c u); plain_clients := plain_release (plain_clients r) c |}
  | RecordFailure o c u now =>
      {| plain_pairs := pair_table plain_record (pair_order o) (plain_pairs r) (attempt_key c u) now;
         plain_clients := client_table plain_record (client_order o) (plain_clients r) c now |}
  | ClearPair c u =>
      {| plain_pairs := delete (attempt_key c u) (plain_pairs r); plain_clients := plain_release (plain_clients r) c |}
  end.
End plain_limiter.

Section plain_facts.
Context {K : Type} `{Countable K}.
Implicit Types (t : BoundedTable K) (m : gmap K AttemptEntry).

Lemma evict_protected o m target now limit :
  map_Forall (λ _ e, protected e now limit = true) m → evict o m target now limit = m.
Proof.
  intros Hall. apply map_eq. intros k. destruct (m !! k) as [e|] eqn:Hk.
  - apply evict_keeps; [done|]. by eapply Hall.
  - apply eq_None_not_Some. intros [e He%evict_lookup]. congruence.
Qed.

Lemma room_plain o t now :
  table_wf t → plain_room (capacity t) (limit t) o (entries t) now = (entries (make_room o t now).1, (make_room o t now).2).
Proof.
  intros [Hb _ Hs]. unfold plain_room, make_room. case_match eqn:E1; [done|]. case_match eqn:E2.
  - unfold saturated in E2. destruct (saturated_until t) as [z|]; [|done]. destruct (Hs z eq_refl) as [_ Hall]. cbv zeta.
    assert (map_Forall (λ _ e, protected e now (limit t) = true) (entries t)) as Hp.
    { intros k e He. eapply Hall; [done|]. by apply Z.ltb_lt. }
    rewrite map_filter_id; [|intros k e He; by destruct (proj1 (protected_iff _ _ _) (Hp _ _ He))].
    rewrite evict_protected, E1 by done. done.
  - cbv zeta. cbn. by case_match.
Qed.

Lemma reserve_plain o t k now :
  table_wf t → plain_reserve (capacity t) (limit t) o (entries t) k now = (entries (reserve o t k now).1, (reserve o t k now).2).
Proof.
  intros Hwf. unfold plain_reserve, reserve. destruct (entries t !! k) as [e|]; [by case_match|].
  rewrite room_plain by done. by destruct (make_room o t now) as [t' []].
Qed.

Lemma record_plain o t k now :
  table_wf t → plain_record (capacity t) (limit t) o (entries t) k now = entries (record o t k now).
Proof.
  intros Hwf. unfold plain_record, record. destruct (entries t !! k) as [e|]; [by cbv zeta; case_match|].
  rewrite room_plain by done. by destruct (make_room o t now) as [t' []].
Qed.

Lemma release_plain t k : plain_release (entries t) k = entries (table_release t k).
Proof. unfold plain_release, table_release. by destruct (entries t !! k). Qed.

Lemma remove_plain t k : delete k (entries t) = entries (table_remove t k).
Proof. unfold table_remove. destruct (entries t !! k) eqn:E; [done|]. by rewrite delete_id. Qed.
End plain_facts.

(** The reference sees the entries of the limiter. *)
Definition plain_of (l : LoginRateLimiter) : PlainLimiter :=
  {| plain_pairs := entries (pairs l); plain_clients := entries (clients l) |}.

Definition limits_are (p q : Z) (l : LoginRateLimiter) : Prop :=
  capacity (pairs l) = p ∧ limit (pairs l) = MAX_LOGIN_FAILURES ∧ capacity (clients l) = q ∧ limit (clients l) = MAX_CLIENT_LOGIN_FAILURES.

Lemma admit_plain p q o l c u now :
  limiter_wf l → limits_are p q l →
  plain_admit p q o (plain_of l) c u now = (plain_of (limiter_admit o l c u now).1, (limiter_admit o l c u now).2).
Proof.
  intros [Hp Hc] (<- & El & <- & Ec). unfold plain_admit, limiter_admit, plain_of, table_locked, plain_locked. cbn [plain_pairs plain_clients].
  rewrite <-El, <-Ec. destruct (_ || _); [done|]. cbv zeta. rewrite reserve_plain by done.
  destruct (reserve (pair_order o) (pairs l) _ now) as [ps []]; cbn; [|done].
  rewrite reserve_plain by done. destruct (reserve (client_order o) (clients l) _ now) as [cs []]; cbn; [done|]. by rewrite release_plain.
Qed.

Lemma step_plain p q l op : limiter_wf l → limits_are p q l → plain_step p q (plain_of l) op = plain_of (limiter_step l op).
Proof.
  intros Hwf Hlim. destruct op as [o c u now|c u|o c u now|c u]; cbn [plain_step limiter_step].
  - by rewrite admit_plain.
  - unfold plain_of at 3. cbn. by rewrite !release_plain.
  - destruct Hwf, Hlim as (<- & El & <- & Ec). unfold plain_of at 3. cbn. by rewrite <-El, <-Ec, !record_plain.
  - unfold plain_of at 3. cbn. by rewrite remove_plain, release_plain.
Qed.

Lemma full_reserve {K} `{Countable K} o (t : BoundedTable K) k now :
  known_saturated_for t k now = true → reserve o t k now = (t, false).
Proof.
  unfold known_saturated_for, reserve. rewrite !andb_true_iff, bool_decide_eq_true, Z.leb_le. intros [[-> Hcap] Hsat].
  unfold make_room. by rewrite (proj2 (Z.ltb_ge _ _)), Hsat.
Qed.

(** The memory of a saturated table is only a shortcut: after any calls the limiter has the
    entries of the reference limiter, which looks for room every time, and admits the same
    attempts; and an attempt that is rejected in advance would not be admitted. *)
Theorem saturation_cache_exact p q ops :
  0 ≤ p → 0 ≤ q → Forall (call_timed (λ n, i64_min ≤ n)) ops →
  let l := limiter_run (with_capacity p q) ops in
  let r := foldl (plain_step p q) {| plain_pairs := ∅; plain_clients := ∅ |} ops in
  plain_of l = r ∧
  ∀ o c u now, (limiter_admit o l c u now).2 = (plain_admit p q o r c u now).2 ∧
    (rejected l c u now = true → (limiter_admit o l c u now).2 = false).
Proof.
  intros Hp Hq Hops l r.
  assert (limiter_wf l ∧ limits_are p q l ∧ plain_of l = r) as (Hwf & Hlim & Hr).
  { subst l r. induction ops as [|op ops IH] using rev_ind; [by split; [apply with_capacity_wf|]|].
    apply Forall_app in Hops as [Hops [Hop _]%Forall_cons]. destruct (IH Hops) as (Hwf & Hlim & Hr).
    unfold limiter_run. rewrite !foldl_app. cbn [foldl]. fold (limiter_run (with_capacity p q) ops). split_and!.
    - by apply limiter_step_wf.
    - destruct (limiter_run_limits (limiter_run (with_capacity p q) ops) [op]) as (E1 & E2 & E3 & E4), Hlim as (? & ? & ? & ?).
      cbn in E1, E2, E3, E4. unfold limits_are. by rewrite E1, E2, E3, E4.
    - rewrite <-Hr. symmetry. by apply step_plain. }
  split; [done|]. intros o c u now. split; [by rewrite <-Hr, admit_plain|].
  unfold rejected, limiter_admit. destruct (table_locked (pairs l) _ now || table_locked (clients l) c now); [done|]. cbn [orb]. rewrite orb_true_iff. intros [H|H].
  - by rewrite full_reserve.
  - cbv zeta. destruct (reserve (pair_order o) _ _ now) as [ps []]; cbn; [|done]. by rewrite full_reserve.
Qed.

(** ** A sample run *)

Definition plain_order (K : Type) : hash_order K := {| shuffle := id; shuffle_perm := λ l, Permutation_refl l |}.
Definition sample_orders : orders := {| pair_order := plain_order _; client_order := plain_order _ |}.

Definition guess (client username : string) (now : Z) : list limiter_op :=
  [AdmitAttempt sample_orders client username now; RecordFailure sample_orders client username now].

(** Five guesses, and then many for other users from other clients. *)
Definition guessed : list limiter_op := concat ((λ now, guess "203.0.113.9" "wen" now) <$> [0; 1000; 2000; 3000; 4000]).
Definition sprayed : list limiter_op := concat ((λ c, guess c "ada" 5000) <$> ["a"; "b"; "c"; "d"; "e"; "f"; "g"; "h"; "i"]%string).

Lemma rejection_justified_witness :
  len (entries (pairs (limiter_run (with_capacity 4 4) (guessed ++ sprayed)))) ≤ 4 ∧
  5 ≤ recorded (pair_failures guessed) (attempt_key "203.0.113.9" "wen") (6000 - LOGIN_FAILURE_WINDOW_MILLIS + 1).
Proof.
  split.
  - apply (rejection_justified 4 4 (guessed ++ sprayed) 6000 "203.0.113.9" "wen"); [lia|lia|]. cbn; unfold i64_min. lia.
  - destruct (rejection_justified 4 4 guessed 6000 "203.0.113.9" "wen") as (_ & _ & H); [lia|lia|cbn; unfold i64_min; lia|].
    destruct H as [H|[H|[(_ & H & _)|(_ & H & _)]]]; [vm_compute; reflexivity|exact H|..]; exfalso; revert H; vm_compute; congruence.
Defined.

Lemma saturation_cache_exact_witness :
  plain_of (limiter_run (with_capacity 4 4) (guessed ++ sprayed)) =
  foldl (plain_step 4 4) {| plain_pairs := ∅; plain_clients := ∅ |} (guessed ++ sprayed).
Proof.
  apply (saturation_cache_exact 4 4 (guessed ++ sprayed)); [lia|lia|]. repeat constructor; cbn; unfold i64_min; lia.
Defined.
