(* ===== verification/Fencing.v ===== *)
(** * Occupancy fencing on a device

    Models [crates/winwincode-device-client/src/fencing.rs] (the guard that admits a
    command only under the current occupancy lease and fencing token) and, of
    [crates/winwincode-device-client/src/store.rs], the durable occupancy mirror the guard
    is built from and the release intents.  A table of the device's SQLite database is its
    rows; integer columns hold [i64]s.  Failures of SQLite itself are not modelled. *)

From Stdlib Require Import String.
From S2P Require Import Prelude Text.
Local Open Scope Z_scope.

(** ** Data *)

Definition MAX_ID_BYTES : Z := 200.

(** The kind of a [DeviceStoreError]; its message is left out. *)
Inductive DeviceStoreError : Type :=
| InvalidInput
| Conflict
| NotFound
| Closed
| Adapter.

#[global] Instance DeviceStoreError_eq_dec : EqDecision DeviceStoreError.
Proof. solve_decision. Defined.

Record OccupancyMirrorRecord : Type := {
  occupancy_lease_id : string;
  fencing_token : Z;
  holder_user_id : option string;
  mirror_revision : Z;
  claim_request_id : option string;
  idle_expires_at : option string;
  acknowledged_at : string;
  updated_at : string
}.

#[global] Instance OccupancyMirrorRecord_eq_dec : EqDecision OccupancyMirrorRecord.
Proof. solve_decision. Defined.

Record OccupancyMirrorUpdate : Type := {
  upd_occupancy_lease_id : string;
  upd_fencing_token : Z;
  upd_holder_user_id : option string;
  upd_claim_request_id : option string;
  upd_idle_expires_at : option string;
  upd_acknowledged_at : string
}.

Inductive OccupancyMirrorAdvance : Type :=
| Advanced (record : OccupancyMirrorRecord)
| Unchanged (record : OccupancyMirrorRecord).

Inductive ClientOccupancyReleaseMode : Type :=
| Immediate
| DrainThenRelease
| CancelTasksAndRelease.

#[global] Instance ClientOccupancyReleaseMode_eq_dec : EqDecision ClientOccupancyReleaseMode.
Proof. solve_decision. Defined.

Record OccupancyReleaseIntentRecord : Type := {
  idempotency_key : string;
  command_message_id : string;
  intent_lease_id : string;
  intent_fencing_token : Z;
  mode : ClientOccupancyReleaseMode;
  affected_worker_sessions : Z;
  recorded_at : string
}.

Inductive OccupancyReleaseIntentOutcome : Type :=
| Recorded (intent : OccupancyReleaseIntentRecord)
| Duplicate (intent : OccupancyReleaseIntentRecord).

(** A row of [occupancy_release_intents]; the mode is stored as text. *)
Record ReleaseIntentRow : Type := {
  row_command_message_id : string;
  row_lease_id : string;
  row_fencing_token : Z;
  row_mode : string;
  row_affected : Z;
  row_recorded_at : string
}.

(** The device store: whether its connection is open, the singleton row of
    [occupancy_mirror] and the rows of [occupancy_release_intents] by primary key. *)
Record DeviceStore : Type := {
  connection_open : bool;
  mirror_row : option OccupancyMirrorRecord;
  release_rows : gmap string ReleaseIntentRow
}.

(** ** The occupancy mirror *)

Abbreviation store_result A := (result DeviceStoreError A).

Definition require_non_empty (value : string) (max_bytes : Z) : store_result () :=
  refuse (bool_decide (value = ""%string)) InvalidInput ;;
  refuse (max_bytes <? str_len value) InvalidInput.

(** [if let Some(value) = &o { require_non_empty(value, ..)?; }] *)
Definition require_optional (o : option string) : store_result () :=
  match o with Some value => require_non_empty value MAX_ID_BYTES | None => Ok tt end.

Definition validate_mirror_update (u : OccupancyMirrorUpdate) : store_result () :=
  require_non_empty (upd_occupancy_lease_id u) MAX_ID_BYTES ;;
  require_non_empty (upd_acknowledged_at u) MAX_ID_BYTES ;;
  refuse ((upd_fencing_token u =? 0) || (max_safe_integer <? upd_fencing_token u)) InvalidInput ;;
  require_optional (upd_holder_user_id u) ;;
  require_optional (upd_claim_request_id u).

Definition connection (s : DeviceStore) : store_result () :=
  refuse (negb (connection_open s)) Closed.

(** [query_row] with [row_to_occupancy_mirror]: a negative column is a conversion error. *)
Definition read_occupancy_mirror (s : DeviceStore) : store_result (option OccupancyMirrorRecord) :=
  match mirror_row s with
  | None => Ok None
  | Some row =>
      refuse (fencing_token row <? 0) Adapter ;;
      refuse (mirror_revision row <? 0) Adapter ;;
      Ok (Some row)
  end.

Definition i64_try_from (n : Z) : store_result Z := if n <=? i64_max then Ok n else Err InvalidInput.

(** The upsert of the singleton row, with the table's checks on its integer columns. *)
Definition write_occupancy_mirror (s : DeviceStore) (r : OccupancyMirrorRecord) :
    store_result DeviceStore :=
  token ← i64_try_from (fencing_token r);
  revision ← i64_try_from (mirror_revision r);
  refuse (negb ((0 <? token) && (token <=? max_safe_integer) && (0 <? revision))) Adapter ;;
  Ok {| connection_open := connection_open s; mirror_row := Some r;
        release_rows := release_rows s |}.

Definition mirror_record_from_update (u : OccupancyMirrorUpdate) : OccupancyMirrorRecord :=
  {| occupancy_lease_id := upd_occupancy_lease_id u;
     fencing_token := upd_fencing_token u;
     holder_user_id := upd_holder_user_id u;
     mirror_revision := 1;
     claim_request_id := upd_claim_request_id u;
     idle_expires_at := upd_idle_expires_at u;
     acknowledged_at := upd_acknowledged_at u;
     updated_at := upd_acknowledged_at u |}.

(** [OccupancyMirrorRecord { mirror_revision: revision, ..r }]. *)
Definition with_revision (r : OccupancyMirrorRecord) (revision : Z) : OccupancyMirrorRecord :=
  {| occupancy_lease_id := occupancy_lease_id r;
     fencing_token := fencing_token r;
     holder_user_id := holder_user_id r;
     mirror_revision := revision;
     claim_request_id := claim_request_id r;
     idle_expires_at := idle_expires_at r;
     acknowledged_at := acknowledged_at r;
     updated_at := updated_at r |}.

Definition occupancy_mirror (s : DeviceStore) : store_result (option OccupancyMirrorRecord) :=
  connection s ;; read_occupancy_mirror s.

(** The transaction commits with the new store or, on any error, leaves the old one. *)
Definition advance_occupancy_mirror (s : DeviceStore) (u : OccupancyMirrorUpdate) :
    DeviceStore * store_result OccupancyMirrorAdvance :=
  let step :=
    (validate_mirror_update u ;;
     connection s ;;
     stored ← read_occupancy_mirror s;
     match stored with
     | Some stored =>
         if bool_decide (occupancy_lease_id stored = upd_occupancy_lease_id u) &&
            (fencing_token stored =? upd_fencing_token u)
         then
           refuse (bool_decide (holder_user_id stored ≠ upd_holder_user_id u)) Conflict ;;
           Ok (s, Unchanged stored)
         else if upd_fencing_token u <=? fencing_token stored then Err Conflict
         else
           let record := with_revision (mirror_record_from_update u) (mirror_revision stored + 1) in
           s' ← write_occupancy_mirror s record;
           Ok (s', Advanced record)
     | None =>
         let record := with_revision (mirror_record_from_update u) 1 in
         s' ← write_occupancy_mirror s record;
         Ok (s', Advanced record)
     end) in
  match step with
  | Ok (s', advance) => (s', Ok advance)
  | Err e => (s, Err e)
  end.

(** ** Release intents *)

Definition release_mode_to_str (m : ClientOccupancyReleaseMode) : string :=
  match m with
  | Immediate => "immediate"
  | DrainThenRelease => "drain_then_release"
  | CancelTasksAndRelease => "cancel_tasks_and_release"
  end.

Definition parse_release_mode (value : string) : store_result ClientOccupancyReleaseMode :=
  if bool_decide (value = "immediate"%string) then Ok Immediate
  else if bool_decide (value = "drain_then_release"%string) then Ok DrainThenRelease
  else if bool_decide (value = "cancel_tasks_and_release"%string) then Ok CancelTasksAndRelease
  else Err Adapter.

Definition row_to_release_intent (key : string) (row : ReleaseIntentRow) :
    store_result OccupancyReleaseIntentRecord :=
  refuse (row_fencing_token row <? 0) Adapter ;;
  m ← parse_release_mode (row_mode row);
  refuse (row_affected row <? 0) Adapter ;;
  Ok {| idempotency_key := key; command_message_id := row_command_message_id row;
        intent_lease_id := row_lease_id row; intent_fencing_token := row_fencing_token row;
        mode := m; affected_worker_sessions := row_affected row;
        recorded_at := row_recorded_at row |}.

Definition read_release_intent (s : DeviceStore) (key : string) :
    store_result (option OccupancyReleaseIntentRecord) :=
  match release_rows s !! key with
  | None => Ok None
  | Some row => Some <$> row_to_release_intent key row
  end.

Definition validate_release_intent (i : OccupancyReleaseIntentRecord) : store_result () :=
  require_non_empty (idempotency_key i) MAX_ID_BYTES ;;
  require_non_empty (command_message_id i) MAX_ID_BYTES ;;
  require_non_empty (intent_lease_id i) MAX_ID_BYTES ;;
  require_non_empty (recorded_at i) MAX_ID_BYTES ;;
  refuse ((intent_fencing_token i =? 0) || (max_safe_integer <? intent_fencing_token i)) InvalidInput.

Definition record_occupancy_release_intent (s : DeviceStore) (i : OccupancyReleaseIntentRecord) :
    DeviceStore * store_result OccupancyReleaseIntentOutcome :=
  let step :=
    (validate_release_intent i ;;
     connection s ;;
     stored ← read_release_intent s (idempotency_key i);
     match stored with
     | Some stored => Ok (s, Duplicate stored)
     | None =>
         token ← i64_try_from (intent_fencing_token i);
         affected ← i64_try_from (affected_worker_sessions i);
         Ok ({| connection_open := connection_open s; mirror_row := mirror_row s;
                release_rows := <[idempotency_key i :=
                  {| row_command_message_id := command_message_id i;
                     row_lease_id := intent_lease_id i; row_fencing_token := token;
                     row_mode := release_mode_to_str (mode i); row_affected := affected;
                     row_recorded_at := recorded_at i |}]> (release_rows s) |}, Recorded i)
     end) in
  match step with
  | Ok (s', outcome) => (s', Ok outcome)
  | Err e => (s, Err e)
  end.

Definition occupancy_release_intent (s : DeviceStore) (key : string) :
    store_result (option OccupancyReleaseIntentRecord) :=
  require_non_empty key MAX_ID_BYTES ;; connection s ;; read_release_intent s key.

(** ** The guard *)

Inductive FencedCommandKind : Type :=
| WorkerLaunch
| WorkerStop
| CandidateApply
| RepositoryMutation
| ManagedApp.

Definition kind_name (k : FencedCommandKind) : string :=
  match k with
  | WorkerLaunch => "worker_launch"
  | WorkerStop => "worker_stop"
  | CandidateApply => "candidate_apply"
  | RepositoryMutation => "repository_mutation"
  | ManagedApp => "managed_app"
  end.

Inductive FencingRejection : Type :=
| MirrorNotSet
| StaleFencingToken
| SupersededIntent.

Module Code.

Inductive ClientControlErrorCode : Type :=
| ProtocolVersionUnsupported
| DeviceNotEnrolled
| DeviceInstanceChanged
| UnknownLease
| StaleFencingToken
| RevisionConflict
| IdempotencyConflict
| CapacityExhausted
| RepositoryUnavailable
| GrantInvalid
| WrongState
| RateLimited
| InternalError.

End Code.

Definition wire_error_code (r : FencingRejection) : Code.ClientControlErrorCode :=
  match r with
  | MirrorNotSet => Code.UnknownLease
  | StaleFencingToken | SupersededIntent => Code.StaleFencingToken
  end.

Record FencingTicket : Type := {
  ticket_kind : FencedCommandKind;
  ticket_lease_id : string;
  ticket_fencing_token : Z;
  ticket_mirror_revision : Z
}.

Inductive FencingVerdict : Type :=
| Authorized (ticket : FencingTicket)
| Rejected (rejection : FencingRejection).

Record FencingGuard : Type := { guard_mirror : option OccupancyMirrorRecord }.

Definition guard_new (m : option OccupancyMirrorRecord) : FencingGuard := {| guard_mirror := m |}.

Definition from_store (s : DeviceStore) : store_result FencingGuard := guard_new <$> occupancy_mirror s.

Definition guard_mirror_revision (g : FencingGuard) : option Z := mirror_revision <$> guard_mirror g.

Definition check_stamp (g : FencingGuard) (lease : string) (token : Z) :
    result FencingRejection OccupancyMirrorRecord :=
  match guard_mirror g with
  | None => Err MirrorNotSet
  | Some m =>
      if bool_decide (occupancy_lease_id m = lease) && (fencing_token m =? token)
      then Ok m else Err StaleFencingToken
  end.

Definition authorize_command (g : FencingGuard) (k : FencedCommandKind) (lease : string) (token : Z) :
    FencingVerdict :=
  match check_stamp g lease token with
  | Ok m => Authorized {| ticket_kind := k; ticket_lease_id := occupancy_lease_id m;
                          ticket_fencing_token := fencing_token m;
                          ticket_mirror_revision := mirror_revision m |}
  | Err r => Rejected r
  end.

Definition verify_ticket (g : FencingGuard) (t : FencingTicket) : result FencingRejection () :=
  m ← check_stamp g (ticket_lease_id t) (ticket_fencing_token t);
  refuse (negb (mirror_revision m =? ticket_mirror_revision t)) SupersededIntent.

(** ** Runs *)

Inductive StoreOp : Type :=
| OpAdvance (u : OccupancyMirrorUpdate)
| OpRelease (i : OccupancyReleaseIntentRecord).

Definition store_step (s : DeviceStore) (op : StoreOp) : DeviceStore :=
  match op with
  | OpAdvance u => (advance_occupancy_mirror s u).1
  | OpRelease i => (record_occupancy_release_intent s i).1
  end.

Definition store_run (s : DeviceStore) (ops : list StoreOp) : DeviceStore := foldl store_step s ops.

(** ** Lemmas *)

(** What one operation does to the mirror: nothing, or a new record with a larger token
    and the next revision. *)
Definition mirror_next (s s' : DeviceStore) : Prop :=
  connection_open s' = connection_open s ∧
  (mirror_row s' = mirror_row s ∨
   ∃ m', mirror_row s' = Some m' ∧
     match mirror_row s with
     | None => mirror_revision m' = 1 ∧ 1 ≤ fencing_token m'
     | Some m => mirror_revision m' = mirror_revision m + 1 ∧ fencing_token m < fencing_token m'
     end).

Lemma write_Ok s r s' :
  write_occupancy_mirror s r = Ok s' →
  mirror_row s' = Some r ∧ connection_open s' = connection_open s ∧ 1 ≤ fencing_token r.
Proof.
  unfold write_occupancy_mirror, i64_try_from. intros H. inv_result.
  repeat (case_match; simplify_eq/=). split_bools. split_and!; (done || lia).
Qed.

Lemma read_Ok s o : read_occupancy_mirror s = Ok o → o = mirror_row s.
Proof. unfold read_occupancy_mirror. destruct (mirror_row s); intros H; by inv_result. Qed.

Lemma advance_next s u : mirror_next s (advance_occupancy_mirror s u).1.
Proof.
  assert (Hsame : mirror_next s s) by (split; auto).
  unfold advance_occupancy_mirror. cbv zeta.
  destruct (validate_mirror_update u) as [[]|]; [|done]. simpl.
  destruct (connection s) as [[]|]; [|done]. simpl.
  destruct (read_occupancy_mirror s) as [o|] eqn:Er; [|done]. apply read_Ok in Er as ->. simpl.
  destruct (mirror_row s) as [m|] eqn:Em.
  - destruct (bool_decide _ && _).
    { destruct (bool_decide (holder_user_id m ≠ _)); done. }
    destruct (Z.leb_spec (upd_fencing_token u) (fencing_token m)) as [|Hlt]; [done|].
    destruct (write_occupancy_mirror s _) as [s'|] eqn:Ew; [|done]. simpl.
    apply write_Ok in Ew as (Hr & Ho & _). split; [done|]. right. eexists. split; [exact Hr|].
    rewrite Em. simpl. lia.
  - destruct (write_occupancy_mirror s _) as [s'|] eqn:Ew; [|done]. simpl.
    apply write_Ok in Ew as (Hr & Ho & Ht). split; [done|]. right. eexists. split; [exact Hr|].
    by rewrite Em.
Qed.

(** What an advance answers, and the mirror it leaves. *)
Lemma advance_result s u s' r :
  advance_occupancy_mirror s u = (s', r) →
  match r with
  | Ok (Advanced m) => mirror_row s' = Some m ∧ occupancy_lease_id m = upd_occupancy_lease_id u ∧
      fencing_token m = upd_fencing_token u ∧ holder_user_id m = upd_holder_user_id u
  | Ok (Unchanged m) => s' = s ∧ mirror_row s = Some m
  | Err _ => s' = s
  end.
Proof.
  unfold advance_occupancy_mirror. cbv zeta.
  destruct (validate_mirror_update u) as [[]|]; [|by intros [= <- <-]]. simpl.
  destruct (connection s) as [[]|]; [|by intros [= <- <-]]. simpl.
  destruct (read_occupancy_mirror s) as [o|] eqn:Er; [|by intros [= <- <-]]. apply read_Ok in Er as ->. simpl.
  destruct (mirror_row s) as [m|] eqn:Em.
  - destruct (bool_decide _ && _).
    { destruct (bool_decide (holder_user_id m ≠ _)); by intros [= <- <-]. }
    destruct (_ <=? _); [by intros [= <- <-]|].
    destruct (write_occupancy_mirror s _) as [s1|] eqn:Ew; [|by intros [= <- <-]]. simpl.
    apply write_Ok in Ew as (Hr & _ & _). by intros [= <- <-].
  - destruct (write_occupancy_mirror s _) as [s1|] eqn:Ew; [|by intros [= <- <-]]. simpl.
    apply write_Ok in Ew as (Hr & _ & _). by intros [= <- <-].
Qed.

Lemma release_mirror s i : mirror_row (record_occupancy_release_intent s i).1 = mirror_row s ∧
  connection_open (record_occupancy_release_intent s i).1 = connection_open s.
Proof.
  unfold record_occupancy_release_intent. cbv zeta. case_match eqn:E; [|done].
  inv_result. case_match; simplify_eq; [done|]. inv_result. done.
Qed.

Lemma store_step_next s op : mirror_next s (store_step s op).
Proof.
  destruct op as [u|i]; simpl; [apply advance_next|].
  destruct (release_mirror s i) as [Hm Ho]. split; [done|]. by left.
Qed.

(** Over a run: the mirror is the same, or has a larger revision and token. *)
Definition mirror_le (m m' : option OccupancyMirrorRecord) : Prop :=
  m' = m ∨ ∃ r', m' = Some r' ∧ 1 ≤ mirror_revision r' ∧
    match m with
    | None => True
    | Some r => mirror_revision r < mirror_revision r' ∧ fencing_token r < fencing_token r'
    end.

Definition mirror_positive (s : DeviceStore) : Prop :=
  from_option (λ m, 1 ≤ mirror_revision m) True (mirror_row s).

Lemma mirror_next_le s s' :
  mirror_positive s → mirror_next s s' →
  mirror_le (mirror_row s) (mirror_row s') ∧ mirror_positive s' ∧
  connection_open s' = connection_open s.
Proof.
  unfold mirror_positive, mirror_le. intros Hp [Ho [->|(m' & -> & Hm)]]; [auto|].
  destruct (mirror_row s) as [m|]; simpl in *; (split; [right; exists m'|]); split_and!;
    (done || lia).
Qed.

Lemma mirror_le_trans a b c : mirror_le a b → mirror_le b c → mirror_le a c.
Proof.
  unfold mirror_le. intros [->|(r & -> & H1 & H2)] [->|(r' & -> & H1' & H2')].
  - by left.
  - right. eauto.
  - right. eauto.
  - right. exists r'. split_and!; [done..|]. destruct a; [lia|done].
Qed.

Lemma store_run_le s ops :
  mirror_positive s →
  mirror_le (mirror_row s) (mirror_row (store_run s ops)) ∧ mirror_positive (store_run s ops) ∧
  connection_open (store_run s ops) = connection_open s.
Proof.
  revert s. induction ops as [|op ops IH]; intros s Hp; [split; [by left|done]|]. simpl.
  destruct (mirror_next_le _ _ Hp (store_step_next s op)) as (H1 & H2 & H3).
  destruct (IH _ H2) as (H4 & H5 & H6). split_and!; [by eapply mirror_le_trans|done|congruence].
Qed.

Lemma parse_release_mode_str m : parse_release_mode (release_mode_to_str m) = Ok m.
Proof. by destruct m. Qed.

Lemma recorded_reads s i s1 :
  record_occupancy_release_intent s i = (s1, Ok (Recorded i)) →
  0 ≤ intent_fencing_token i → 0 ≤ affected_worker_sessions i →
  read_release_intent s1 (idempotency_key i) = Ok (Some i) ∧ connection_open s1 = true.
Proof.
  unfold record_occupancy_release_intent. cbv zeta. intros H Ht Ha.
  case_match eqn:E; [|done]. inv_result. case_match; simplify_eq. inv_result.
  unfold i64_try_from, connection in *. repeat (case_match; simplify_eq/=). inv_result. split_bools.
  split; [|done]. unfold read_release_intent. simpl. rewrite lookup_insert_eq.
  unfold row_to_release_intent. simpl. rewrite (proj2 (Z.ltb_ge _ 0)) by lia. simpl.
  rewrite parse_release_mode_str. simpl. rewrite (proj2 (Z.ltb_ge _ 0)) by lia. simpl.
  by destruct i.
Qed.

(** A recorded intent stays readable. *)
Lemma store_step_reads s op key i :
  read_release_intent s key = Ok (Some i) → read_release_intent (store_step s op) key = Ok (Some i).
Proof.
  intros Hk. destruct op as [u|j]; simpl.
  - unfold advance_occupancy_mirror, write_occupancy_mirror. cbv zeta.
    repeat (case_match; simplify_eq/=); try done; inv_result; repeat (case_match; simplify_eq/=);
      inv_result; done.
  - unfold record_occupancy_release_intent. cbv zeta. case_match eqn:E; [|done].
    inv_result. case_match; simplify_eq/=; [done|]. inv_result.
    unfold read_release_intent in *. simpl. rewrite lookup_insert_ne; [done|].
    intros <-. destruct (release_rows s !! idempotency_key j); [|done].
    destruct (row_to_release_intent _ _); simpl in *; congruence.
Qed.

(** ** Properties *)

(** The mirror only moves forward: over any run of offers, fences and release records,
    either the stored mirror is untouched, or its revision and its fencing token have both
    strictly grown; so a token, once superseded, is never current again. *)
Theorem mirror_monotone s ops m m' :
  mirror_positive s → mirror_row s = Some m → mirror_row (store_run s ops) = Some m' →
  m' = m ∨ mirror_revision m < mirror_revision m' ∧ fencing_token m < fencing_token m'.
Proof.
  intros Hp Hm Hm'. destruct (store_run_le s ops Hp) as [Hle _]. rewrite Hm, Hm' in Hle.
  destruct Hle as [[= ->]|(r & [= ->] & _ & ?)]; auto.
Qed.

Lemma verify_ticket_Ok g t :
  verify_ticket g t = Ok tt ↔
  ∃ m, guard_mirror g = Some m ∧ occupancy_lease_id m = ticket_lease_id t ∧
    fencing_token m = ticket_fencing_token t ∧ mirror_revision m = ticket_mirror_revision t.
Proof.
  unfold verify_ticket, check_stamp. destruct (guard_mirror g) as [m|]; [|naive_solver].
  destruct (bool_decide (occupancy_lease_id m = _)) eqn:E1; split_bools; simpl;
    [|naive_solver].
  destruct (Z.eqb_spec (fencing_token m) (ticket_fencing_token t)); simpl; [|naive_solver].
  destruct (Z.eqb_spec (mirror_revision m) (ticket_mirror_revision t)); simpl; naive_solver.
Qed.

(** C25. A ticket is honoured exactly while nothing has superseded it: a command authorised
    under the stored mirror passes its second check, made by a guard read from the store
    after any further run, exactly when the mirror has not changed at all in between. *)
Theorem ticket_valid_while_current s ops k lease token t g1 g2 :
  mirror_positive s → from_store s = Ok g1 →
  authorize_command g1 k lease token = Authorized t →
  from_store (store_run s ops) = Ok g2 →
  verify_ticket g2 t = Ok tt ↔ mirror_row (store_run s ops) = mirror_row s.
Proof.
  intros Hp H1 Ha H2. destruct (store_run_le s ops Hp) as (Hle & _).
  assert (Hg : ∀ s g, from_store s = Ok g → guard_mirror g = mirror_row s).
  { clear. intros s g. unfold from_store, occupancy_mirror.
    destruct (connection s) as [[]|]; [|done]. simpl.
    destruct (read_occupancy_mirror s) as [o|] eqn:E; [|done]. apply read_Ok in E as ->.
    by intros [= <-]. }
  apply Hg in H1, H2. rewrite verify_ticket_Ok, H2.
  unfold authorize_command, check_stamp in Ha. rewrite H1 in Ha.
  destruct (mirror_row s) as [m|]; [|done]. destruct (bool_decide _ && _); [|done].
  injection Ha as <-. simpl. split.
  - intros (m' & Hm' & _ & _ & Hrev). rewrite Hm' in Hle.
    destruct Hle as [[= ->]|(r & [= ->] & _ & Hlt & _)]; [done|lia].
  - intros ->. by exists m.
Qed.

(** A release is recorded once per idempotency key: after a release intent was
    recorded, and whatever the store did since, recording any valid intent with that key
    again reports the first intent as a duplicate and changes nothing. *)
Theorem release_intent_recorded_once s i s1 ops j :
  record_occupancy_release_intent s i = (s1, Ok (Recorded i)) →
  0 ≤ intent_fencing_token i → 0 ≤ affected_worker_sessions i →
  validate_release_intent j = Ok tt → idempotency_key j = idempotency_key i →
  let s2 := store_run s1 ops in
  record_occupancy_release_intent s2 j = (s2, Ok (Duplicate i)).
Proof.
  intros Hrec Ht Ha Hv Hkey s2.
  assert (Hin : read_release_intent s1 (idempotency_key i) = Ok (Some i) ∧ connection_open s1 = true).
  { by apply (recorded_reads s). }
  destruct Hin as [Hin Ho].
  assert (read_release_intent s2 (idempotency_key i) = Ok (Some i) ∧ connection_open s2 = true)
    as [Hin2 Ho2].
  { unfold s2. clear -Hin Ho. revert s1 Hin Ho. induction ops as [|op ops IH]; intros s1 Hin Ho; [done|].
    simpl. apply IH; [by apply store_step_reads|].
    rewrite (proj1 (store_step_next s1 op)). done. }
  unfold record_occupancy_release_intent. rewrite Hv, Hkey. simpl. unfold connection.
  rewrite Ho2. simpl. by rewrite Hin2.
Qed.

(** ** Witnesses *)

Definition sample_update (lease : string) (token : Z) : OccupancyMirrorUpdate :=
  {| upd_occupancy_lease_id := lease; upd_fencing_token := token;
     upd_holder_user_id := Some "usr_01"%string; upd_claim_request_id := None;
     upd_idle_expires_at := None; upd_acknowledged_at := "2026-01-02T12:00:00.000Z"%string |}.

Definition sample_store : DeviceStore :=
  store_run {| connection_open := true; mirror_row := None; release_rows := ∅ |}
    [OpAdvance (sample_update "ocl_A" 7)].

Definition sample_intent (m : ClientOccupancyReleaseMode) : OccupancyReleaseIntentRecord :=
  {| idempotency_key := "release-1"; command_message_id := "msg_1"; intent_lease_id := "ocl_A";
     intent_fencing_token := 7; mode := m; affected_worker_sessions := 2;
     recorded_at := "2026-01-02T12:00:00.000Z" |}.

Definition sample_ops : list StoreOp :=
  [OpAdvance (sample_update "ocl_B" 6); OpRelease (sample_intent Immediate);
   OpAdvance (sample_update "ocl_B" 9)].

Lemma mirror_monotone_witness :
  ∃ m m', mirror_row sample_store = Some m ∧ mirror_row (store_run sample_store sample_ops) = Some m' ∧
    (m' = m ∨ mirror_revision m < mirror_revision m' ∧ fencing_token m < fencing_token m').
Proof.
  eexists _, _. split; [vm_compute; reflexivity|]. split; [vm_compute; reflexivity|].
  apply (mirror_monotone sample_store sample_ops).
  - vm_compute. discriminate.
  - vm_compute. reflexivity.
  - vm_compute. reflexivity.
Defined.

Definition sample_ticket : FencingTicket :=
  {| ticket_kind := WorkerLaunch; ticket_lease_id := "ocl_A"; ticket_fencing_token := 7;
     ticket_mirror_revision := 1 |}.

Definition sample_guard : FencingGuard := guard_new (mirror_row sample_store).

Lemma ticket_valid_while_current_witness :
  verify_ticket sample_guard sample_ticket = Ok tt ∧
  verify_ticket (guard_new (mirror_row (store_run sample_store sample_ops))) sample_ticket =
    Err StaleFencingToken.
Proof.
  split; [|vm_compute; reflexivity].
  apply (proj2 (ticket_valid_while_current sample_store [] WorkerLaunch "ocl_A" 7 sample_ticket
    sample_guard sample_guard ltac:(vm_compute; discriminate) ltac:(vm_compute; reflexivity)
    ltac:(vm_compute; reflexivity) ltac:(vm_compute; reflexivity))).
  reflexivity.
Defined.

Lemma release_intent_recorded_once_witness :
  ∃ s1, record_occupancy_release_intent sample_store (sample_intent Immediate) =
          (s1, Ok (Recorded (sample_intent Immediate))) ∧
    record_occupancy_release_intent (store_run s1 sample_ops) (sample_intent DrainThenRelease) =
      (store_run s1 sample_ops, Ok (Duplicate (sample_intent Immediate))).
Proof.
  assert (E : record_occupancy_release_intent sample_store (sample_intent Immediate) =
    ((record_occupancy_release_intent sample_store (sample_intent Immediate)).1,
     Ok (Recorded (sample_intent Immediate)))) by (vm_compute; reflexivity).
  eexists. split; [exact E|].
  exact (release_intent_recorded_once _ _ _ sample_ops (sample_intent DrainThenRelease) E
    ltac:(simpl; lia) ltac:(simpl; lia) ltac:(vm_compute; reflexivity) eq_refl).
Defined.
