(* ===== verification/Transaction.v ===== *)
(** * Transactions and actions: the effects of the sources

    The storage crates run each operation in one SQLite transaction: it reads and writes
    tables, may fail at any point, and is rolled back when it does.  [tx] is the state and
    error monad of such an operation and [commit] runs it.  [act] is the monad of a method
    on [&mut self] outside a transaction, whose changes stay when it fails. *)

From S2P Require Import Prelude.

Definition tx (S E A : Type) : Type := S → result E (A * S).

#[global] Instance tx_ret {S E} : MRet (tx S E) := λ A a s, Ok (a, s).
#[global] Instance tx_bind {S E} : MBind (tx S E) :=
  λ A B f m s, match m s with Ok (a, s) => f a s | Err e => Err e end.

(** A check or computation that does not touch the state. *)
Definition lift {S E A} (r : result E A) : tx S E A := λ s, (λ a, (a, s)) <$> r.

(** A query. *)
Definition query {S E A} (f : S → result E A) : tx S E A := λ s, (λ a, (a, s)) <$> f s.

(** A statement that writes, and answers with the rows it changed or a constraint error. *)
Definition execute {S E A} (f : S → result E (A * S)) : tx S E A := f.

(** [transaction.commit()], or the rollback of a transaction dropped on an error. *)
Definition commit {S E A} (s : S) (m : tx S E A) : S * result E A :=
  match m s with Ok (a, s') => (s', Ok a) | Err e => (s, Err e) end.

Definition act (S E A : Type) : Type := S → S * result E A.

#[global] Instance act_ret {S E} : MRet (act S E) := λ A a s, (s, Ok a).
#[global] Instance act_bind {S E} : MBind (act S E) :=
  λ A B f m s, match m s with (s, Ok a) => f a s | (s, Err e) => (s, Err e) end.

(** A computation that does not touch the state, and an update of the state. *)
Definition attempt {S E A} (r : result E A) : act S E A := λ s, (s, r).

Definition attempt_with {S E A} (f : S → result E A) : act S E A := λ s, (s, f s).

(** [let x = f(self); k(x)] *)
Definition with_state {S E A B} (f : S → A) (k : A → act S E B) : act S E B := λ s, k (f s) s.

Definition modify {S E} (f : S → S) : act S E () := λ s, (f s, Ok tt).

(** ** Lemmas *)

(** What an action keeps, it keeps step by step, also when it fails. *)
Lemma act_bind_keeps {S E A B} (P : S → Prop) (m : act S E A) (f : A → act S E B) s :
  P (m s).1 → (∀ a s', P s' → P (f a s').1) → P ((m ≫= f) s).1.
Proof. intros Hm Hf. unfold mbind, act_bind. destruct (m s) as [s' [a|e]]; simpl in *; auto. Qed.

Lemma tx_bind_Ok {S E A B} (m : tx S E A) (f : A → tx S E B) s b s' :
  (m ≫= f) s = Ok (b, s') ↔ ∃ a s1, m s = Ok (a, s1) ∧ f a s1 = Ok (b, s').
Proof. unfold mbind, tx_bind. destruct (m s) as [[a s1]|e]; naive_solver. Qed.

Lemma tx_bind_run {S E A B} (m : tx S E A) (f : A → tx S E B) s a s1 :
  m s = Ok (a, s1) → (m ≫= f) s = f a s1.
Proof. unfold mbind, tx_bind. by intros ->. Qed.

Lemma act_bind_Ok {S E A B} (m : act S E A) (f : A → act S E B) s b s' :
  (m ≫= f) s = (s', Ok b) ↔ ∃ a s1, m s = (s1, Ok a) ∧ f a s1 = (s', Ok b).
Proof. unfold mbind, act_bind. destruct (m s) as [s1 [a|e]]; naive_solver. Qed.

Lemma attempt_Ok {S E A} (r : result E A) (s : S) a s' : attempt r s = (s', Ok a) ↔ r = Ok a ∧ s' = s.
Proof. unfold attempt. naive_solver. Qed.

Lemma act_ret_Ok {S E A} (a b : A) (s s' : S) : (mret a : act S E A) s = (s', Ok b) ↔ b = a ∧ s' = s.
Proof. unfold mret, act_ret. naive_solver. Qed.

Lemma modify_Ok {S E} (f : S → S) s s' u : (modify f : act S E ()) s = (s', Ok u) ↔ s' = f s.
Proof. unfold modify. destruct u. naive_solver. Qed.

Lemma lift_Ok {S E A} (r : result E A) (s : S) a s' : lift r s = Ok (a, s') ↔ r = Ok a ∧ s' = s.
Proof. unfold lift. destruct r; naive_solver. Qed.

Lemma query_Ok {S E A} (f : S → result E A) s a s' : query f s = Ok (a, s') ↔ f s = Ok a ∧ s' = s.
Proof. unfold query. destruct (f s); naive_solver. Qed.

Lemma ret_Ok {S E A} (a b : A) (s s' : S) : (mret a : tx S E A) s = Ok (b, s') ↔ b = a ∧ s' = s.
Proof. unfold mret, tx_ret. naive_solver. Qed.

Lemma commit_Ok {S E A} (s : S) (m : tx S E A) s' a : commit s m = (s', Ok a) ↔ m s = Ok (a, s').
Proof. unfold commit. destruct (m s) as [[? ?]|]; naive_solver. Qed.

Lemma commit_Err {S E A} (s : S) (m : tx S E A) s' e :
  commit s m = (s', Err e) ↔ m s = Err e ∧ s' = s.
Proof. unfold commit. destruct (m s) as [[? ?]|]; naive_solver. Qed.

(** Steps that leave the state alone, as equivalences. *)
Lemma lift_bind_iff {S E A B} (r : result E A) (f : A → tx S E B) s z :
  (lift r ≫= f) s = Ok z ↔ ∃ a, r = Ok a ∧ f a s = Ok z.
Proof. unfold mbind, tx_bind, lift. destruct r; naive_solver. Qed.

Lemma lift_then_iff {S E B} (r : result E ()) (k : tx S E B) s z :
  (lift r ;; k) s = Ok z ↔ r = Ok tt ∧ k s = Ok z.
Proof. rewrite lift_bind_iff. split; [by intros ([] & ? & ?)|naive_solver]. Qed.

Lemma query_then_iff {S E B} (f : S → result E ()) (k : tx S E B) s z :
  (query f ;; k) s = Ok z ↔ f s = Ok tt ∧ k s = Ok z.
Proof. unfold mbind, tx_bind, query. destruct (f s) as [[]|]; naive_solver. Qed.

(** Steps that succeed, in a run. *)
Lemma lift_run {St E A B} (r : result E A) a (f : A → tx St E B) s : r = Ok a → (lift r ≫= f) s = f a s.
Proof. by intros ->. Qed.

Lemma query_run {St E A B} (q : St → result E A) a (f : A → tx St E B) s : q s = Ok a → (query q ≫= f) s = f a s.
Proof. unfold mbind, tx_bind, query. by intros ->. Qed.

Lemma query_Err_run {St E A B} (q : St → result E A) e (f : A → tx St E B) s : q s = Err e → (query q ≫= f) s = Err e.
Proof. unfold mbind, tx_bind, query. by intros ->. Qed.

Lemma lift_Err_run {St E A B} (r : result E A) e (f : A → tx St E B) s : r = Err e → (lift r ≫= f) s = Err e.
Proof. by intros ->. Qed.

Lemma attempt_run {St E B} (r : result E ()) (k : act St E B) s : r = Ok tt → (attempt r ;; k) s = k s.
Proof. by intros ->. Qed.

Lemma attempt_stop {St E A B} (r : result E A) e (f : A → act St E B) s : r = Err e → (attempt r ≫= f) s = (s, Err e).
Proof. by intros ->. Qed.

Lemma attempt_bind_run {St E A B} (r : result E A) a (f : A → act St E B) s : r = Ok a → (attempt r ≫= f) s = f a s.
Proof. by intros ->. Qed.

Lemma attempt_with_run {St E A B} (q : St → result E A) a (f : A → act St E B) s : q s = Ok a → (attempt_with q ≫= f) s = f a s.
Proof. unfold mbind, act_bind, attempt_with. by intros ->. Qed.

Lemma attempt_with_stop {St E A B} (q : St → result E A) e (f : A → act St E B) s : q s = Err e → (attempt_with q ≫= f) s = (s, Err e).
Proof. unfold mbind, act_bind, attempt_with. by intros ->. Qed.

Lemma with_state_run {St E A B} (f : St → A) (k : A → act St E B) s : with_state f k s = k (f s) s.
Proof. done. Qed.

Lemma modify_run {St E B} (f : St → St) (k : () → act St E B) s : (modify f ≫= k) s = k tt (f s).
Proof. done. Qed.

(** ** What holds after an action *)

(** [Q] of the answer and the state when the action succeeds, [F] of the state when it fails. *)
Definition post {S E A} (m : act S E A) (s : S) (Q : A → S → Prop) (F : S → Prop) : Prop :=
  match m s with (s', Ok a) => Q a s' | (s', Err _) => F s' end.

Lemma post_bind {S E A B} (m : act S E A) (f : A → act S E B) s Q F :
  post m s (λ a s', post (f a) s' Q F) F → post (m ≫= f) s Q F.
Proof. unfold post, mbind, act_bind. by destruct (m s) as [s' [a|e]]. Qed.

Lemma post_attempt {S E A} (r : result E A) (s : S) (Q : A → S → Prop) (F : S → Prop) :
  (∀ a, r = Ok a → Q a s) → F s → post (attempt r) s Q F.
Proof. unfold post, attempt. destruct r; auto. Qed.

Lemma post_attempt_with {S E A} (f : S → result E A) (s : S) (Q : A → S → Prop) (F : S → Prop) :
  (∀ a, f s = Ok a → Q a s) → F s → post (attempt_with f) s Q F.
Proof. unfold post, attempt_with. destruct (f s); auto. Qed.

Lemma post_with_state {S E A B} (f : S → A) (k : A → act S E B) s Q F : post (k (f s)) s Q F → post (with_state f k) s Q F.
Proof. done. Qed.

Lemma post_ret {S E A} (a : A) (s : S) (Q : A → S → Prop) (F : S → Prop) :
  Q a s → post (mret a : act S E A) s Q F.
Proof. done. Qed.

Lemma post_weaken {S E A} (m : act S E A) s (Q Q' : A → S → Prop) (F F' : S → Prop) :
  post m s Q F → (∀ a s', Q a s' → Q' a s') → (∀ s', F s' → F' s') → post m s Q' F'.
Proof. unfold post. destruct (m s) as [s' [a|e]]; auto. Qed.

Lemma post_state {S E A} (m : act S E A) s (F : S → Prop) : post m s (λ _, F) F → F (m s).1.
Proof. unfold post. by destruct (m s) as [s' [a|e]]. Qed.

Lemma post_result {S E A} (m : act S E A) s (Q : A → S → Prop) F s' a :
  post m s Q F → m s = (s', Ok a) → Q a s'.
Proof. unfold post. intros H Hm. by rewrite Hm in H. Qed.

(** ** Actions that keep a relation *)

(** The state before and the state after are related, whether the action succeeds or fails. *)
Definition keeps {S E A} (R : S → S → Prop) (m : act S E A) : Prop := ∀ s, R s (m s).1.

Section keeps.
Context {St E : Type} (R : St → St → Prop) `{!Reflexive R, !Transitive R}.

Lemma keeps_bind {A B} (m : act St E A) (f : A → act St E B) : keeps R m → (∀ a, keeps R (f a)) → keeps R (m ≫= f).
Proof.
  intros Hm Hf s. specialize (Hm s). unfold mbind, act_bind. destruct (m s) as [s1 [a|e]]; cbn in *; [|done].
  etrans; [exact Hm|apply Hf].
Qed.

Lemma keeps_attempt {A} (r : result E A) : keeps R (attempt r).
Proof. intros s. by cbn. Qed.

Lemma keeps_attempt_with {A} (f : St → result E A) : keeps R (attempt_with f).
Proof. intros s. by cbn. Qed.

Lemma keeps_ret {A} (a : A) : keeps R (mret a : act St E A).
Proof. intros s. by cbn. Qed.

Lemma keeps_modify f : (∀ s, R s (f s)) → keeps R (modify f : act St E ()).
Proof. intros Hf s. apply Hf. Qed.

Lemma keeps_with_state {A B} (f : St → A) (k : A → act St E B) : (∀ a, keeps R (k a)) → keeps R (with_state f k).
Proof. intros Hk s. apply Hk. Qed.
End keeps.

Lemma keeps_weaken {St E A} (R R' : St → St → Prop) (m : act St E A) : (∀ s s', R s s' → R' s s') → keeps R m → keeps R' m.
Proof. intros HR Hm s. apply HR, Hm. Qed.

(** Walks through the parts of an action; [leaf] closes the parts that are special. *)
Ltac walk_keeps leaf :=
  repeat first
    [ leaf
    | apply keeps_attempt; apply _
    | apply keeps_attempt_with; apply _
    | apply keeps_ret; apply _
    | apply keeps_bind; [apply _| |intros ?]
    | apply keeps_with_state; intros ?
    | case_match ].

(** ** Automation *)

(** Inverts a successful transaction in the context, step by step. *)
Ltac inv_tx :=
  repeat match goal with
  | H : (_ ≫= _) ?s = Ok (_, _) |- _ => apply tx_bind_Ok in H as (? & ? & ? & H)
  | H : lift _ _ = Ok (_, _) |- _ => apply lift_Ok in H as [H ->]
  | H : query _ _ = Ok (_, _) |- _ => apply query_Ok in H as [H ->]
  | H : mret _ _ = Ok (_, _) |- _ => apply ret_Ok in H as [? ?]; subst
  | H : Err _ = Ok _ |- _ => discriminate H
  end.

(** Inverts a successful action in the context, step by step. *)
Ltac inv_act :=
  repeat match goal with
  | H : (_ ≫= _) ?s = (_, Ok _) |- _ => apply act_bind_Ok in H as (? & ? & ? & H)
  | H : attempt _ _ = (_, Ok _) |- _ => apply attempt_Ok in H as [H ->]
  | H : mret _ _ = (_, Ok _) |- _ => apply act_ret_Ok in H as [? ?]; subst
  | H : modify _ _ = (_, Ok _) |- _ => apply modify_Ok in H as ->
  end.
