(* ===== verification/Accounts.v ===== *)
(** * The owner account

    [UserAccount] of [crates/winwincode-domain/src/user_account.rs], the table of the owner with
    the migration of the older one ([crates/winwincode-storage/src/user_accounts.rs]), and the
    account service ([crates/winwincode-server/src/user_accounts.rs], [password_hash.rs]).

    Errors are their kinds, without messages.  The Unicode tables behind [to_lowercase] and the
    Argon2 crate are the parameters of [Passwords]; random bytes are arguments. *)

From Stdlib Require Import Ascii String.
From S2P Require Import Prelude Text Numerals Transaction.
Local Open Scope Z_scope.

(** ** Text *)

Definition is_ascii_control (c : ascii) : bool := (byte_val c <? 32) || (byte_val c =? 127).

(** Tab, line feed, form feed, carriage return and space. *)
Definition is_ascii_whitespace (c : ascii) : bool :=
  (byte_val c =? 9) || (byte_val c =? 10) || (byte_val c =? 12) || (byte_val c =? 13) || (byte_val c =? 32).

(** [str::trim_start] and [str::trim_end] on UTF-8 bytes. *)
Fixpoint trim_start (s : list ascii) : list ascii :=
  match s with
  | [] => []
  | a :: s1 =>
      match byte_val a, s1 with
      | 194, b :: s2 => if all_whitespace [194; byte_val b] then trim_start s2 else s
      | 225, b :: c :: s3 | 226, b :: c :: s3 | 227, b :: c :: s3 =>
          if all_whitespace [byte_val a; byte_val b; byte_val c] then trim_start s3 else s
      | _, _ => if all_whitespace [byte_val a] then trim_start s1 else s
      end
  end.

Fixpoint trim_end (s : list ascii) : list ascii :=
  match s with
  | [] => []
  | a :: s1 => if all_whitespace (byte_val <$> s) then [] else a :: trim_end s1
  end.

Definition trim (s : string) : string := string_of_list_ascii (trim_end (trim_start (bytes s))).

Definition any_byte (p : ascii → bool) (s : string) : bool := existsb p (bytes s).

(** [s.split(c)]. *)
Fixpoint split_on (c : ascii) (s : string) : list string :=
  match s with
  | EmptyString => [EmptyString]
  | String a s =>
      if Ascii.eqb a c then EmptyString :: split_on c s
      else match split_on c s with x :: xs => String a x :: xs | [] => [String a EmptyString] end
  end.

Record Passwords : Type := {
  to_lowercase : string → string;
  argon2_hash : string → list Z → option string;
  argon2_verify : string → string → bool
}.

(** ** The account *)

Definition MAX_USERNAME_BYTES : Z := 96.
Definition MAX_PASSWORD_HASH_BYTES : Z := 512.

Inductive UserAccountErrorKind : Type :=
| InvalidUserId | InvalidUsername | InvalidNormalizedUsername | InvalidPasswordHash | InvalidTimestamp | InvalidRevision.

Record UserAccount : Type := {
  user_id : string;
  username : string;
  normalized_username : string;
  password_hash : string;
  created_at : string;
  updated_at : string;
  revision : Z
}.

#[global] Instance UserAccount_eq_dec : EqDecision UserAccount.
Proof. solve_decision. Defined.

Definition canonical_user_id (value : string) : bool := is_canonical_prefixed_id value "usr_".

Definition invalid_username (value : string) : bool :=
  bool_decide (value = ""%string) || (MAX_USERNAME_BYTES <? str_len value) || bool_decide (trim value ≠ value) ||
  any_byte is_ascii_control value.

Definition canonical_password_hash (value : string) : bool :=
  if MAX_PASSWORD_HASH_BYTES <? str_len value then false
  else
    match strip_prefix "$argon2id$" value with
    | None => false
    | Some rest =>
        match split_on "$" rest with
        | [v; a; b; c] =>
            match strip_prefix "v=" v with
            | Some version => bool_decide (version ≠ ""%string) && all_bytes is_ascii_digit version
            | None => false
            end &&
            forallb (λ s, bool_decide (s ≠ ""%string) && negb (any_byte is_ascii_whitespace s)) [a; b; c]
        | _ => false
        end
    end.

Definition canonical_instant (value : string) : bool := instant_shape value.

Section accounts.
Context (P : Passwords).

Definition invalid_normalized_username (value : string) : bool :=
  bool_decide (value = ""%string) || (MAX_USERNAME_BYTES <? str_len value) || any_byte is_ascii_whitespace value ||
  bool_decide (to_lowercase P value ≠ value).

Definition UserAccount_new (x : UserAccount) : result UserAccountErrorKind UserAccount :=
  refuse (negb (canonical_user_id (user_id x))) InvalidUserId ;;
  refuse (invalid_username (username x)) InvalidUsername ;;
  refuse (invalid_normalized_username (normalized_username x)) InvalidNormalizedUsername ;;
  refuse (negb (canonical_password_hash (password_hash x))) InvalidPasswordHash ;;
  refuse (negb (canonical_instant (created_at x)) || negb (canonical_instant (updated_at x))) InvalidTimestamp ;;
  refuse (str_ltb (updated_at x) (created_at x)) InvalidTimestamp ;;
  refuse (revision x <? 1) InvalidRevision ;;
  Ok x.

(** ** The table *)

Inductive UserAccountStoreErrorKind : Type :=
| StoreInvalidInput | StoreNotFound | StoreAlreadyInitialized | StoreRevisionConflict | StoreCorruptState | StoreStorage.

(** A row of the older table [users]. *)
Record LegacyUser : Type := { legacy_row : UserAccount; legacy_role : string; legacy_state : string }.

(** The tables [owner_account], with its one row, and [users]; [None] is a table that does not exist. *)
Record OwnerTables : Type := {
  owner_account : option (option UserAccount);
  users : option (list LegacyUser)
}.

Definition no_owner_tables : OwnerTables := {| owner_account := None; users := None |}.

Definition owner_row (t : OwnerTables) : option UserAccount := mjoin (owner_account t).

Definition set_owner (t : OwnerTables) (o : option UserAccount) : OwnerTables := {| owner_account := Some o; users := users t |}.

(** The checks of the table's columns. *)
Definition owner_checks (x : UserAccount) : bool :=
  (0 <? chars_count (username x)) && (0 <? chars_count (normalized_username x)) && (0 <? chars_count (password_hash x)) &&
  str_leb (created_at x) (updated_at x) && (0 <? revision x).

Abbreviation stored := (result UserAccountStoreErrorKind).

Definition restore_user_parts (row : UserAccount) : stored UserAccount := map_err (λ _, StoreCorruptState) (UserAccount_new row).

Definition restored (row : option UserAccount) : stored (option UserAccount) :=
  match row with Some row => Some <$> restore_user_parts row | None => Ok None end.

Definition load_owner (t : OwnerTables) : stored (option UserAccount) := restored (owner_row t).

Definition load_by_user_id (t : OwnerTables) (id : string) : stored (option UserAccount) :=
  restored (x ← owner_row t; if decide (user_id x = id) then Some x else None).

Definition find_by_normalized_username (t : OwnerTables) (name : string) : stored (option UserAccount) :=
  refuse (bool_decide (name = ""%string)) StoreInvalidInput ;;
  restored (x ← owner_row t; if decide (normalized_username x = name) then Some x else None).

Definition eligible (u : LegacyUser) : bool := bool_decide (legacy_role u = "owner"%string) && bool_decide (legacy_state u = "active"%string).

Definition migrate_legacy_users (us : list LegacyUser) : tx OwnerTables UserAccountStoreErrorKind () :=
  lift (refuse ((1 <? Z.of_nat (length us)) || negb (Z.of_nat (length us) =? Z.of_nat (length (filter (λ u, eligible u = true) us))))
          StoreCorruptState) ;;
  execute (λ t, refuse (negb (forallb (λ u, owner_checks (legacy_row u)) us)) StoreStorage ;;
                Ok (tt, set_owner t (legacy_row <$> head us))) ;;
  _ ← query load_owner;
  execute (λ t, Ok (tt, {| owner_account := owner_account t; users := None |})).

(** [UserAccountLedger::new]. *)
Definition ledger_new : tx OwnerTables UserAccountStoreErrorKind () :=
  λ t, match owner_account t, users t with
       | Some _, Some _ => Err StoreCorruptState
       | None, Some us => migrate_legacy_users us t
       | Some _, None => Ok (tt, t)
       | None, None => Ok (tt, set_owner t None)
       end.

Definition create (x : UserAccount) : tx OwnerTables UserAccountStoreErrorKind UserAccount :=
  x ← lift (map_err (λ _, StoreInvalidInput) (UserAccount_new x));
  execute (λ t, refuse (bool_decide (is_Some (owner_row t)) || negb (owner_checks x)) StoreAlreadyInitialized ;;
                Ok (x, set_owner t (Some x))).

Definition require_user (t : OwnerTables) (id : string) : stored UserAccount :=
  found ← load_by_user_id t id;
  ok_or found StoreNotFound.

Definition set_password_hash (id : string) (expected_revision : Z) (hash updated : string) :
    tx OwnerTables UserAccountStoreErrorKind UserAccount :=
  lift (refuse (negb (canonical_user_id id)) StoreInvalidInput) ;;
  lift (refuse (expected_revision <? 1) StoreInvalidInput) ;;
  current ← query (λ t, require_user t id);
  lift (refuse (negb (revision current =? expected_revision)) StoreRevisionConflict) ;;
  lift (refuse (i64_max <? revision current + 1) StoreCorruptState) ;;
  x ← lift (map_err (λ _, StoreInvalidInput) (UserAccount_new
         {| user_id := user_id current; username := username current; normalized_username := normalized_username current;
            password_hash := hash; created_at := created_at current; updated_at := updated; revision := revision current + 1 |}));
  execute (λ t, match owner_row t with
                | Some row =>
                    refuse (negb (bool_decide (user_id row = id) && (revision row =? expected_revision))) StoreRevisionConflict ;;
                    refuse (negb (owner_checks x)) StoreStorage ;;
                    Ok (x, set_owner t (Some {| user_id := user_id row; username := username row;
                              normalized_username := normalized_username row; password_hash := password_hash x;
                              created_at := created_at row; updated_at := updated_at x; revision := revision x |}))
                | None => Err StoreRevisionConflict
                end).

(** ** The service *)

Inductive UserAccountServiceErrorKind : Type :=
| ServiceInvalidInput | ServiceAlreadyInitialized | ServiceNotFound | ServiceRevisionConflict | ServiceStorage.

Inductive CredentialRejection : Type := UnknownAccount | BadPassword.

Definition PASSWORD_MIN_BYTES : Z := 8.
Definition PASSWORD_MAX_BYTES : Z := 256.

Abbreviation service A := (OwnerTables → OwnerTables * result UserAccountServiceErrorKind A).

Definition with_ledger {A} (operation : service A) : service A :=
  λ t, match commit t ledger_new with (t, Ok _) => operation t | (t, Err _) => (t, Err ServiceStorage) end.

Definition normalize_username (raw : string) : result UserAccountServiceErrorKind string :=
  let trimmed := trim raw in
  refuse (bool_decide (trimmed = ""%string) || (MAX_USERNAME_BYTES <? str_len trimmed)) ServiceInvalidInput ;;
  let normalized := to_lowercase P trimmed in
  refuse (bool_decide (normalized = ""%string) || any_byte is_ascii_control normalized || any_byte is_ascii_whitespace normalized)
    ServiceInvalidInput ;;
  Ok normalized.

Definition stored_username (raw : string) : string := trim raw.

Definition validate_password (password : string) : result UserAccountServiceErrorKind () :=
  refuse ((str_len password <? PASSWORD_MIN_BYTES) || (PASSWORD_MAX_BYTES <? str_len password)) ServiceInvalidInput ;;
  refuse (any_byte (λ c, is_ascii_control c || is_ascii_whitespace c) password) ServiceInvalidInput.

(** [None] is a failure of the random source. *)
Definition hash_password (salt : option (list Z)) (password : string) : option string :=
  bytes ← salt;
  argon2_hash P password bytes.

Definition verify_password (password hash : string) : bool := argon2_verify P password hash.

Definition USER_ID_ALPHABET : string := "0123456789ABCDEFGHJKMNPQRSTVWXYZ".

Definition alphabet_char (i : Z) : ascii := default "0"%char (String.get (Z.to_nat i) USER_ID_ALPHABET).

Definition generate_user_id (random : option (list Z)) : result UserAccountServiceErrorKind string :=
  random ← ok_or random ServiceStorage;
  Ok (String.append "usr_" (string_of_list_ascii
        (concat ((λ b, [alphabet_char (Z.shiftr b 4); alphabet_char (Z.land b 15)]) <$> random)))).

Definition owner_id : service (option string) :=
  with_ledger (λ t, (t, match load_owner t with Ok x => Ok (user_id <$> x) | Err _ => Err ServiceStorage end)).

Definition create_error (e : UserAccountStoreErrorKind) : UserAccountServiceErrorKind :=
  match e with
  | StoreAlreadyInitialized => ServiceAlreadyInitialized
  | StoreInvalidInput => ServiceInvalidInput
  | _ => ServiceStorage
  end.

Definition map_cas_error (e : UserAccountStoreErrorKind) : UserAccountServiceErrorKind :=
  match e with
  | StoreRevisionConflict => ServiceRevisionConflict
  | StoreNotFound => ServiceNotFound
  | StoreInvalidInput => ServiceInvalidInput
  | _ => ServiceStorage
  end.

Definition account (id name normalized hash now : string) : result UserAccountServiceErrorKind UserAccount :=
  map_err (λ _, ServiceInvalidInput) (UserAccount_new
    {| user_id := id; username := name; normalized_username := normalized; password_hash := hash; created_at := now;
       updated_at := now; revision := 1 |}).

Definition initialize_owner (random salt : option (list Z)) (name password now : string) : service UserAccount :=
  λ t, match validate_password password with
       | Err e => (t, Err e)
       | Ok _ =>
           match owner_id t with
           | (t, Err e) => (t, Err e)
           | (t, Ok (Some _)) => (t, Err ServiceAlreadyInitialized)
           | (t, Ok None) =>
               match hash_password salt password with
               | None => (t, Err ServiceStorage)
               | Some hash =>
                   with_ledger (λ t,
                     match (normalized ← normalize_username name;
                            id ← generate_user_id random;
                            account id (stored_username name) normalized hash now) with
                     | Err e => (t, Err e)
                     | Ok x => let '(t, r) := commit t (create x) in (t, map_err create_error r)
                     end) t
               end
           end
       end.

Definition verify_credentials (name password : string) : service (result CredentialRejection UserAccount) :=
  λ t, match normalize_username name with
       | Err e => (t, Err e)
       | Ok normalized =>
           match with_ledger (λ t, (t, map_err (λ _, ServiceStorage) (find_by_normalized_username t normalized))) t with
           | (t, Err e) => (t, Err e)
           | (t, Ok None) => (t, Ok (Err UnknownAccount))
           | (t, Ok (Some x)) => (t, Ok (if verify_password password (password_hash x) then Ok x else Err BadPassword))
           end
       end.

Definition set_password (salt : option (list Z)) (id : string) (expected_revision : Z) (password now : string) : service UserAccount :=
  λ t, match validate_password password with
       | Err e => (t, Err e)
       | Ok _ =>
           match hash_password salt password with
           | None => (t, Err ServiceStorage)
           | Some hash =>
               with_ledger (λ t, let '(t, r) := commit t (set_password_hash id expected_revision hash now) in (t, map_err map_cas_error r)) t
           end
       end.
End accounts.

(** * The owner account: facts

    Whatever the account service is asked, there is at most one owner, and it stays the same:
    only its password changes. *)

Section facts.
Context (P : Passwords).

Lemma UserAccount_new_Ok x y : UserAccount_new P x = Ok y → y = x.
Proof. unfold UserAccount_new. intros H. inv_result. done. Qed.

Lemma restored_Some row x : restored P row = Ok (Some x) → row = Some x ∧ UserAccount_new P x = Ok x.
Proof.
  unfold restored, restore_user_parts. destruct row as [y|]; [|done]. intros H.
  destruct (UserAccount_new P y) as [z|] eqn:E; cbn in H; [|done]. simplify_eq. pose proof (UserAccount_new_Ok _ _ E). by subst.
Qed.

(** ** The owner stays *)

(** The account is the same one, perhaps with another password. *)
Record same_owner (x y : UserAccount) : Prop := {
  so_id : user_id y = user_id x;
  so_name : username y = username x;
  so_normalized : normalized_username y = normalized_username x;
  so_created : created_at y = created_at x;
  so_revision : y = x ∨ revision x < revision y
}.

#[global] Instance same_owner_refl : Reflexive same_owner.
Proof. intros x. split; auto. Qed.
#[global] Instance same_owner_trans : Transitive same_owner.
Proof.
  intros x y z [? ? ? ? H1] [? ? ? ? H2]. split; try congruence. destruct H1 as [->|], H2 as [->|]; auto. right. lia.
Qed.

Definition owner_follows (t t' : OwnerTables) : Prop :=
  ∀ x, owner_row t = Some x → ∃ y, owner_row t' = Some y ∧ same_owner x y.

#[global] Instance owner_follows_refl : Reflexive owner_follows.
Proof. intros t x Hx. by exists x. Qed.
#[global] Instance owner_follows_trans : Transitive owner_follows.
Proof. intros t1 t2 t3 H1 H2 x Hx. destruct (H1 x Hx) as (y & Hy & ?), (H2 y Hy) as (z & Hz & ?). exists z. split; [done|by etrans]. Qed.

Lemma follows_none t t' : owner_row t = None → owner_follows t t'.
Proof. intros E x Hx. congruence. Qed.

Lemma ledger_new_follows t : owner_follows t (commit t (ledger_new P)).1.
Proof.
  unfold commit. destruct (ledger_new P t) as [[[] t']|] eqn:E; [|done]. cbn. unfold ledger_new in E.
  destruct (owner_account t) as [o|] eqn:Eo, (users t) as [us|]; simplify_eq; try done; apply follows_none; unfold owner_row; by rewrite Eo.
Qed.

Lemma with_ledger_follows {A} (m : OwnerTables → OwnerTables * result UserAccountServiceErrorKind A) t :
  (∀ t, owner_follows t (m t).1) → owner_follows t (with_ledger P m t).1.
Proof.
  intros Hm. unfold with_ledger. pose proof (ledger_new_follows t) as Hl. destruct (commit t (ledger_new P)) as [t1 [[]|e]]; cbn in *; [|done].
  etrans; [exact Hl|apply Hm].
Qed.

Lemma owner_id_follows t : owner_follows t (owner_id P t).1.
Proof. by apply with_ledger_follows. Qed.

Lemma create_Ok x t y t' : create P x t = Ok (y, t') → y = x ∧ owner_row t = None ∧ owner_row t' = Some x.
Proof.
  unfold create, execute. intros H. inv_tx. inv_result. split_bools.
  match goal with H : UserAccount_new _ _ = Ok _ |- _ => apply UserAccount_new_Ok in H as -> end.
  split_and!; [done|by apply eq_None_not_Some|done].
Qed.

Lemma create_follows x t : owner_follows t (commit t (create P x)).1.
Proof. unfold commit. destruct (create P x t) as [[y t']|] eqn:E; [|done]. apply create_Ok in E as (_ & ? & _). by apply follows_none. Qed.

Lemma initialize_owner_follows random salt name password now t : owner_follows t (initialize_owner P random salt name password now t).1.
Proof.
  unfold initialize_owner. destruct (validate_password password); [|done].
  pose proof (owner_id_follows t) as Ho. destruct (owner_id P t) as [t1 [[]|]]; cbn in *; [done| |done].
  destruct (hash_password P salt password); [|done]. etrans; [exact Ho|]. apply with_ledger_follows. intros t2.
  destruct (_ ≫= _) as [x|]; [|done]. pose proof (create_follows x t2) as Hc. by destruct (commit t2 (create P x)).
Qed.

(** A new owner is there, and there was none. *)
Lemma initialize_owner_Ok random salt name password now t t' x :
  initialize_owner P random salt name password now t = (t', Ok x) →
  owner_row t = None ∧ owner_row t' = Some x ∧ normalize_username P name = Ok (normalized_username x) ∧
  ∃ hash, hash_password P salt password = Some hash ∧ password_hash x = hash.
Proof.
  unfold initialize_owner. destruct (validate_password password); [|done].
  destruct (owner_id P t) as [t1 [[o|]|e]] eqn:Eo; [done| |done].
  destruct (hash_password P salt password) as [hash|]; [|done]. intros H.
  assert (owner_row t = None) as Hnone.
  { destruct (owner_row t) as [y|] eqn:Ey; [|done]. exfalso. unfold owner_id, with_ledger in Eo.
    destruct (ledger_new_follows t y Ey) as (z & Hz & _). destruct (commit t (ledger_new P)) as [t2 [[]|]]; [|done].
    cbn in Hz. unfold load_owner, restored, restore_user_parts in Eo. rewrite Hz in Eo. by destruct (UserAccount_new P z). }
  split; [done|]. unfold with_ledger in H. destruct (commit t1 (ledger_new P)) as [t2 [[]|]]; [|done].
  destruct (_ ≫= _) as [y|] eqn:Ey; [|done]. destruct (commit t2 (create P y)) as [t3 r] eqn:Ec. injection H as <- Hr.
  apply map_err_Ok in Hr as ->. apply commit_Ok, create_Ok in Ec as (-> & _ & ?). split; [done|].
  unfold account in Ey. inv_result.
  match goal with H : UserAccount_new _ _ = Ok _ |- _ => apply UserAccount_new_Ok in H as -> end. split; [done|]. by exists hash.
Qed.

Lemma set_password_follows salt id rev password now t : owner_follows t (set_password P salt id rev password now t).1.
Proof.
  unfold set_password. destruct (validate_password password); [|done]. destruct (hash_password P salt password) as [hash|]; [|done].
  apply with_ledger_follows. intros t1. destruct (commit t1 _) as [t2 [x|e]] eqn:E; cbn.
  - apply commit_Ok in E. unfold set_password_hash, execute in E. inv_tx. destruct (owner_row t1) as [row|] eqn:Erow; [|done].
    inv_result. split_bools. intros z Hz. rewrite Erow in Hz. simplify_eq. eexists. split; [done|]. split; cbn; [done..|]. right.
    match goal with H : UserAccount_new _ _ = Ok _ |- _ => apply UserAccount_new_Ok in H as -> end. cbn. lia.
  - by apply commit_Err in E as [_ ->].
Qed.

Lemma verify_credentials_follows name password t : owner_follows t (verify_credentials P name password t).1.
Proof.
  unfold verify_credentials. destruct (normalize_username P name); [|done].
  set (m := λ t, _). pose proof (with_ledger_follows m t ltac:(done)) as Hf. by destruct (with_ledger P m t) as [t1 [[]|]].
Qed.

(** The credentials of the owner: its name and a password that matches the stored hash. *)
Definition owner_credentials (t : OwnerTables) (name password : string) (x : UserAccount) : Prop :=
  owner_row t = Some x ∧ normalize_username P name = Ok (normalized_username x) ∧ verify_password P password (password_hash x) = true.

Lemma verify_credentials_Ok name password t t' x :
  verify_credentials P name password t = (t', Ok (Ok x)) → owner_credentials t' name password x.
Proof.
  unfold verify_credentials. destruct (normalize_username P name) as [normalized|] eqn:En; [|done].
  unfold with_ledger. destruct (commit t (ledger_new P)) as [t1 [[]|]]; [|done].
  destruct (find_by_normalized_username P t1 normalized) as [[y|]|] eqn:Ef; cbn; [|done..].
  intros [= -> Hy]. unfold find_by_normalized_username in Ef. inv_result. destruct (verify_password P password (password_hash y)) eqn:Ev; [|done].
  simplify_eq. match goal with H : restored _ _ = Ok _ |- _ => apply restored_Some in H as [Hrow _] end.
  destruct (owner_row t') as [z|] eqn:Ez; cbn in Hrow; [|done]. case_decide; [|done]. simplify_eq. by split_and!.
Qed.
End facts.

(** ** Identifiers *)

Lemma alphabet_base32 i : (0 ≤ i < 16)%Z → base32_byte (alphabet_char i) = true.
Proof.
  intros Hi. assert (∃ n, (n < 16)%nat ∧ i = Z.of_nat n) as (n & Hn & ->) by (exists (Z.to_nat i); lia).
  do 16 (destruct n as [|n]; [reflexivity|]). lia.
Qed.

(** A new account has a canonical identifier, whatever the random bytes. *)
Lemma generated_id_canonical random id :
  length random = 13%nat → Forall (λ b, 0 ≤ b < 256) random → generate_user_id (Some random) = Ok id → canonical_user_id id = true.
Proof.
  intros Hlen Hb [= <-]. unfold canonical_user_id, is_canonical_prefixed_id.
  rewrite (proj2 (strip_prefix_Some _ _ _) eq_refl). set (chars := concat _).
  assert (length chars = 26%nat ∧ Forall (λ c, base32_byte c = true) chars) as [Hl Hc].
  { subst chars. rewrite (eq_refl : 26 = 2 * 13)%nat, <-Hlen. clear Hlen. induction Hb as [|b random Hb _ IH]; [done|].
    cbn [fmap list_fmap concat length]. destruct IH as [IH1 IH2]. rewrite length_app, IH1. split; [cbn; lia|].
    apply Forall_app. split; [|done]. repeat constructor; apply alphabet_base32.
    - rewrite Z.shiftr_div_pow2 by lia. change (2 ^ 4) with 16. split; [apply Z.div_pos|apply Z.div_lt_upper_bound]; lia.
    - change 15 with (Z.ones 4). rewrite Z.land_ones by lia. by apply Z.mod_pos_bound. }
  unfold str_len, all_bytes, bytes. rewrite list_ascii_of_string_of_list_ascii, andb_true_iff. split.
  - apply Z.eqb_eq. enough (String.length (string_of_list_ascii chars) = length chars) as -> by lia.
    clear. induction chars; cbn; congruence.
  - apply forallb_forall. intros c Hin%list_elem_of_In. by eapply Forall_forall in Hc.
Qed.
