(* ===== verification/AuthSession.v ===== *)
(** * Browser sessions

    [SqliteAuthSessionManager] of [crates/winwincode-server/src/auth_session.rs] with the principal
    of [transport.rs]: the one-time initialisation of the server, password logins through the
    rate limiter, and the sessions that authenticate a browser's cookie.

    A clock reading, a token and the random bytes of an account are arguments, [None] where the
    source fails, as are a statement that fails ([false]) and the outcome of the owner hook.  The
    mutexes are not modelled as such: a method that takes them more than once is the composition
    of the parts between ([login_start] and [login_finish], [read_lookup] and [read_renew]), so
    that other calls may come in between.  JSON, SHA-256, Base64 and the calendar of the [time]
    crate are the parameters of [AuthCodec]. *)

From Stdlib Require Import Ascii String.
From S2P Require Import Prelude Text Numerals Ordered Instants Transaction LoginLimiter Accounts.
Local Open Scope Z_scope.

(** ** The principal *)

Inductive Actor : Type := UserActor (id : string) | ServiceAccountActor (id : string) | SystemActor (id : string).

Inductive Scope : Type :=
| OrganizationScope (organization : string)
| WorkspaceScope (organization workspace : string)
| ProjectScope (organization workspace project : string)
| RepositoryScope (organization workspace project repository : string).

#[global] Instance Actor_eq_dec : EqDecision Actor.
Proof. solve_decision. Defined.
#[global] Instance Scope_eq_dec : EqDecision Scope.
Proof. solve_decision. Defined.

Definition actor_id (a : Actor) : string := match a with UserActor id | ServiceAccountActor id | SystemActor id => id end.

Definition actor_subject (a : Actor) : string := actor_id a.

(** Digits and the capitals but I, O and U. *)
Definition valid_id_byte (c : ascii) : bool :=
  is_ascii_digit c || in_range 65 72 c || in_range 74 78 c || in_range 80 84 c || in_range 86 90 c.

Definition valid_id (value prefix : string) : bool :=
  match strip_prefix prefix value ≫= strip_prefix "_" with
  | Some suffix => (str_len suffix =? 26) && all_bytes valid_id_byte suffix
  | None => false
  end.

Definition valid_actor (a : Actor) : bool :=
  match a with
  | UserActor id => valid_id id "usr"
  | ServiceAccountActor id => valid_id id "svc"
  | SystemActor id => valid_id id "sys"
  end.

Definition valid_scope (s : Scope) : bool :=
  match s with
  | OrganizationScope o => valid_id o "org"
  | WorkspaceScope o w => valid_id o "org" && valid_id w "wsp"
  | ProjectScope o w p => valid_id o "org" && valid_id w "wsp" && valid_id p "prj"
  | RepositoryScope o w p r => valid_id o "org" && valid_id w "wsp" && valid_id p "prj" && valid_id r "rep"
  end.

Record AuthenticatedPrincipal : Type := { actor : Actor; authorized_scopes : list Scope; subject : string }.

#[global] Instance AuthenticatedPrincipal_eq_dec : EqDecision AuthenticatedPrincipal.
Proof. solve_decision. Defined.

(** [AuthenticatedPrincipal::new]; [None] is the error. *)
Definition principal_new (a : Actor) (scopes : list Scope) : option AuthenticatedPrincipal :=
  if negb (valid_actor a) || bool_decide (scopes = []) || (100 <? Z.of_nat (length scopes)) || existsb (λ s, negb (valid_scope s)) scopes
  then None
  else if bool_decide (NoDup scopes) then Some {| actor := a; authorized_scopes := scopes; subject := actor_id a |}
  else None.

Record TransportCredentials : Type := { bearer : option string; session_cookie : option string }.

(** ** Configuration *)

Inductive AuthSessionErrorKind : Type :=
| Authentication | AlreadyInitialized | RateLimited | InvalidRequest | Clock | Configuration | Entropy | Storage.

Abbreviation auth := (result AuthSessionErrorKind).

Definition MAX_BOOTSTRAP_WINDOW_SECONDS : Z := 24 * 60 * 60.
Definition MAX_SESSION_TTL_SECONDS : Z := 365 * 24 * 60 * 60.
Definition nanos_per_second : Z := 1000000000.

(** Durations are in nanoseconds. *)
Record AuthSessionConfig : Type := { bootstrap_window : Z; session_ttl : Z; local_open : bool }.

Definition duration_millis (d : Z) : auth Z :=
  let millis := d / 1000000 in if millis <=? i64_max then Ok millis else Err Configuration.

Definition config_new (bootstrap_window session_ttl : Z) : auth AuthSessionConfig :=
  _ ← duration_millis bootstrap_window;
  _ ← duration_millis session_ttl;
  refuse ((bootstrap_window =? 0) || (session_ttl =? 0) ||
          (MAX_BOOTSTRAP_WINDOW_SECONDS * nanos_per_second <? bootstrap_window) ||
          (MAX_SESSION_TTL_SECONDS * nanos_per_second <? session_ttl)) Configuration ;;
  Ok {| bootstrap_window := bootstrap_window; session_ttl := session_ttl; local_open := false |}.

(** The comparison of secrets, which looks at every byte. *)
Definition byte_or_zero (s : string) (i : nat) : Z := default 0 (byte_val <$> bytes s !! i).

Definition constant_time_equal (left right : string) : bool :=
  foldl (λ d i, Z.lor d (Z.lxor (byte_or_zero left i) (byte_or_zero right i)))
    (Z.lxor (str_len left) (str_len right)) (seq 0 (String.length left `max` String.length right)) =? 0.

Record AuthCodec : Type := {
  actor_to_json : Actor → option string;
  actor_from_json : string → option Actor;
  scope_to_json : Scope → option string;
  scopes_to_json : list Scope → option string;
  scopes_from_json : string → option (list Scope);
  sha256 : string → list Z;
  base64 : list Z → string;
  from_unix_timestamp : Z → option (Z * Z * Z * Z * Z * Z)
}.

Section manager.
Context (C : AuthCodec) (P : Passwords).

Definition encode_json {A} (f : A → option string) (a : A) : auth string := ok_or (f a) Storage.
Definition decode_json {A} (f : string → option A) (s : string) : auth A := ok_or (f s) Storage.

Fixpoint keyed_scopes (scopes : list Scope) : auth (list (string * Scope)) :=
  match scopes with
  | [] => Ok []
  | s :: scopes =>
      key ← encode_json (scope_to_json C) s;
      rest ← keyed_scopes scopes;
      Ok ((key, s) :: rest)
  end.

Definition canonical_scopes (scopes : list Scope) : auth (list Scope) :=
  refuse (bool_decide (scopes = []) || (100 <? Z.of_nat (length scopes))) Configuration ;;
  keyed ← keyed_scopes scopes;
  let keyed := sort_by_key fst keyed in
  refuse (adjacent_equal fst keyed) Configuration ;;
  Ok keyed.*2.

(** [{year}], which may be negative. *)
Definition display_i32 (n : Z) : string := if n <? 0 then String.append "-" (decimal (- n)) else decimal n.

Definition instant_from_millis (millis : Z) : auth string :=
  at_ ← ok_or (from_unix_timestamp C (millis / 1000)) Clock;
  let '(year, month, day, hour, minute, second) := at_ in
  Ok (display_i32 year ++ "-" ++ padded 2 month ++ "-" ++ padded 2 day ++ "T" ++ padded 2 hour ++ ":" ++ padded 2 minute ++
      ":" ++ padded 2 second ++ "." ++ padded 3 (millis mod 1000) ++ "Z")%string.

Definition hex_byte (b : Z) : string := String (digit_char (b / 16)) (String (digit_char (b mod 16)) EmptyString).

Definition session_digest (cookie : string) : string := foldr (λ b s, String.append (hex_byte b) s) EmptyString (sha256 C cookie).

(** ** State *)

Record SessionRow : Type := {
  row_subject : string;
  row_actor_json : string;
  row_scopes_json : string;
  row_created_at : Z;
  row_expires_at : Z;
  row_revoked_at : option Z
}.

Record SqliteAuthSessionManager : Type := {
  auth_sessions : gmap string SessionRow;
  server_initialization : option (string * Z);
  gate_proofs : list string;
  gate_closed : bool;
  accounts : OwnerTables;
  session_authority : list Scope;
  login_limiter : LoginRateLimiter;
  opened_at_millis : Z;
  config : AuthSessionConfig;
  local_principal : option AuthenticatedPrincipal
}.

Definition set_sessions (s : SqliteAuthSessionManager) (x : gmap string SessionRow) : SqliteAuthSessionManager :=
  {| auth_sessions := x; server_initialization := server_initialization s; gate_proofs := gate_proofs s; gate_closed := gate_closed s;
     accounts := accounts s; session_authority := session_authority s; login_limiter := login_limiter s;
     opened_at_millis := opened_at_millis s; config := config s; local_principal := local_principal s |}.

Definition set_initialization (s : SqliteAuthSessionManager) (x : option (string * Z)) : SqliteAuthSessionManager :=
  {| auth_sessions := auth_sessions s; server_initialization := x; gate_proofs := gate_proofs s; gate_closed := gate_closed s;
     accounts := accounts s; session_authority := session_authority s; login_limiter := login_limiter s;
     opened_at_millis := opened_at_millis s; config := config s; local_principal := local_principal s |}.

Definition close_gate (s : SqliteAuthSessionManager) : SqliteAuthSessionManager :=
  {| auth_sessions := auth_sessions s; server_initialization := server_initialization s; gate_proofs := gate_proofs s; gate_closed := true;
     accounts := accounts s; session_authority := session_authority s; login_limiter := login_limiter s;
     opened_at_millis := opened_at_millis s; config := config s; local_principal := local_principal s |}.

Definition set_accounts (s : SqliteAuthSessionManager) (x : OwnerTables) : SqliteAuthSessionManager :=
  {| auth_sessions := auth_sessions s; server_initialization := server_initialization s; gate_proofs := gate_proofs s;
     gate_closed := gate_closed s; accounts := x; session_authority := session_authority s; login_limiter := login_limiter s;
     opened_at_millis := opened_at_millis s; config := config s; local_principal := local_principal s |}.

Definition set_limiter (s : SqliteAuthSessionManager) (x : LoginRateLimiter) : SqliteAuthSessionManager :=
  {| auth_sessions := auth_sessions s; server_initialization := server_initialization s; gate_proofs := gate_proofs s;
     gate_closed := gate_closed s; accounts := accounts s; session_authority := session_authority s; login_limiter := x;
     opened_at_millis := opened_at_millis s; config := config s; local_principal := local_principal s |}.

Definition set_local_principal (s : SqliteAuthSessionManager) (x : option AuthenticatedPrincipal) : SqliteAuthSessionManager :=
  {| auth_sessions := auth_sessions s; server_initialization := server_initialization s; gate_proofs := gate_proofs s;
     gate_closed := gate_closed s; accounts := accounts s; session_authority := session_authority s; login_limiter := login_limiter s;
     opened_at_millis := opened_at_millis s; config := config s; local_principal := x |}.

Abbreviation action A := (act SqliteAuthSessionManager AuthSessionErrorKind A).

(** The checks of the columns of [auth_sessions]. *)
Definition session_checks (digest : string) (r : SessionRow) : bool :=
  (chars_count digest =? 64) && (1 <=? chars_count (row_subject r)) && (chars_count (row_subject r) <=? 200) &&
  (2 <=? chars_count (row_actor_json r)) && (chars_count (row_actor_json r) <=? 4096) &&
  (2 <=? chars_count (row_scopes_json r)) && (chars_count (row_scopes_json r) <=? 65536) &&
  (0 <=? row_created_at r) && (row_created_at r <? row_expires_at r) &&
  match row_revoked_at r with Some z => row_created_at r <=? z | None => true end.

Definition insert_session (digest : string) (r : SessionRow) : action () :=
  λ s, if bool_decide (is_Some (auth_sessions s !! digest)) || negb (session_checks digest r) then (s, Err Storage)
       else (set_sessions s (<[digest := r]> (auth_sessions s)), Ok tt).

(** [UPDATE auth_sessions SET .. WHERE ..]: the rows changed, or a violated check and no change. *)
Definition update_sessions (f : SessionRow → SessionRow) (P : string → SessionRow → bool) : action Z :=
  λ s, let hit := filter (λ x, P x.1 x.2 = true) (auth_sessions s) in
       if forallb (λ x, session_checks x.1 (f x.2)) (map_to_list hit)
       then (set_sessions s ((f <$> hit) ∪ auth_sessions s), Ok (Z.of_nat (size hit)))
       else (s, Err Storage).

(** A statement on the connection; [false] is one that fails. *)
Definition statement {A} (available : bool) (m : action A) : action A := λ s, if available then m s else (s, Err Storage).

(** A reading of the clock. *)
Definition unix_millis (now : option Z) : action Z := attempt (ok_or now Clock).

(** A call of the account service. *)
Definition on_accounts {A} (m : OwnerTables → OwnerTables * result UserAccountServiceErrorKind A) :
    act SqliteAuthSessionManager AuthSessionErrorKind (result UserAccountServiceErrorKind A) :=
  λ s, let '(t, r) := m (accounts s) in (set_accounts s t, Ok r).

(** ** Issuing sessions *)

(** What a session takes from its surroundings: a clock reading, a token, and whether the row
    can be written. *)
Record IssueEnv : Type := { issue_clock : option Z; issue_token : option (list Z); issue_stored : bool }.

Record IssuedBrowserSession : Type := {
  cookie_value : string;
  issued_expires_at : Z;
  max_age_seconds : Z;
  issued_principal : AuthenticatedPrincipal
}.

Definition checked_add_i64 (a b : Z) : option Z := if (i64_min <=? a + b) && (a + b <=? i64_max) then Some (a + b) else None.

Definition issue_principal (env : IssueEnv) (p : AuthenticatedPrincipal) : action IssuedBrowserSession :=
  now ← unix_millis (issue_clock env);
  with_state config (λ cfg,
    ttl ← attempt (duration_millis (session_ttl cfg));
    expires ← attempt (ok_or (checked_add_i64 now ttl) Clock);
    raw ← attempt (ok_or (issue_token env) Entropy);
    let cookie := base64 C raw in
    actor_json ← attempt (encode_json (actor_to_json C) (actor p));
    scopes_json ← attempt (encode_json (scopes_to_json C) (authorized_scopes p));
    statement (issue_stored env) (insert_session (session_digest cookie)
      {| row_subject := subject p; row_actor_json := actor_json; row_scopes_json := scopes_json; row_created_at := now;
         row_expires_at := expires; row_revoked_at := None |}) ;;
    mret {| cookie_value := cookie; issued_expires_at := expires; max_age_seconds := session_ttl cfg / nanos_per_second;
            issued_principal := p |}).

Definition issue_authenticated (env : IssueEnv) (a : Actor) (scopes : list Scope) : action IssuedBrowserSession :=
  scopes ← attempt (canonical_scopes scopes);
  p ← attempt (ok_or (principal_new a scopes) Configuration);
  issue_principal env p.

Definition issue_for_user (env : IssueEnv) (user : string) : action IssuedBrowserSession :=
  with_state session_authority (λ scopes, issue_authenticated env (UserActor user) scopes).

(** ** Initialisation *)

Definition initialization_owner : action (option string) :=
  λ s, match server_initialization s with
       | Some (owner, _) => (s, Ok (Some owner))
       | None => let '(t, r) := owner_id P (accounts s) in
                 (set_accounts s t, Ok (match r with Ok o => o | Err _ => None end))
       end.

Record InitializeEnv : Type := {
  init_clock : option Z;
  init_random : option (list Z);
  init_salt : option (list Z);
  init_stored : bool;
  init_hook : option bool;
  init_issue : IssueEnv
}.

Definition initialize_error (e : UserAccountServiceErrorKind) : AuthSessionErrorKind :=
  match e with ServiceAlreadyInitialized => AlreadyInitialized | ServiceInvalidInput => InvalidRequest | _ => Storage end.

(** [INSERT .. ON CONFLICT(singleton) DO NOTHING]. *)
Definition record_initialization (user : string) (now : Z) : action () :=
  modify (λ s, match server_initialization s with Some _ => s | None => set_initialization s (Some (user, now)) end).

(** Up to the session; it gives the user. *)
Definition initialize_account (env : InitializeEnv) (cred : TransportCredentials) (name password : string) : action string :=
  attempt (refuse (bool_decide (is_Some (session_cookie cred))) Authentication) ;;
  proof ← attempt (ok_or (bearer cred) Authentication);
  now ← unix_millis (init_clock env);
  with_state id (λ s,
    window ← attempt (duration_millis (bootstrap_window (config s)));
    attempt (refuse (saturating_add_i64 (opened_at_millis s) window <? now) Authentication) ;;
    attempt (refuse (gate_closed s) AlreadyInitialized) ;;
    attempt (refuse (negb (existsb (constant_time_equal proof) (gate_proofs s))) Authentication) ;;
    normalized ← attempt (map_err (λ _, InvalidRequest) (normalize_username P name));
    attempt (map_err (λ _, InvalidRequest) (validate_password password)) ;;
    occurred_at ← attempt (instant_from_millis now);
    created ← on_accounts (initialize_owner P (init_random env) (init_salt env) name password occurred_at);
    account ← attempt (map_err initialize_error created);
    attempt (refuse (bool_decide (normalized ≠ normalized_username account)) Storage) ;;
    statement (init_stored env) (record_initialization (user_id account) now) ;;
    modify close_gate ;;
    attempt (refuse (match init_hook env with Some ok => negb ok | None => false end) Storage) ;;
    mret (user_id account)).

Definition initialize (env : InitializeEnv) (cred : TransportCredentials) (name password : string) : action IssuedBrowserSession :=
  user ← initialize_account env cred name password;
  issue_for_user (init_issue env) user.

(** ** Logins *)

Definition login_rate_limited (s : SqliteAuthSessionManager) (client name : string) (now : option Z) : bool :=
  match normalize_username P name, now with
  | Ok normalized, Some now => rejected (login_limiter s) client normalized now
  | _, _ => false
  end.

Definition admit_login (o : orders) (client normalized : string) (now : Z) : action () :=
  λ s, let '(l, ok) := limiter_admit o (login_limiter s) client normalized now in
       (set_limiter s l, if ok then Ok tt else Err RateLimited).

(** What comes before the limiter; it gives the normalized name and the time. *)
Definition login_checks (clock : option Z) (cred : TransportCredentials) (name password : string) : action (string * Z) :=
  attempt (refuse (bool_decide (is_Some (bearer cred))) Authentication) ;;
  owner ← initialization_owner;
  attempt (refuse (bool_decide (owner = None)) Authentication) ;;
  normalized ← attempt (map_err (λ _, InvalidRequest) (normalize_username P name));
  attempt (refuse (bool_decide (password = ""%string)) InvalidRequest) ;;
  now ← unix_millis clock;
  mret (normalized, now).

(** Up to the admission by the limiter. *)
Definition login_start (o : orders) (clock : option Z) (cred : TransportCredentials) (client name password : string) :
    action (string * Z) :=
  started ← login_checks clock cred name password;
  admit_login o client started.1 started.2 ;;
  mret started.

(** The verification of the password; it gives the user. *)
Definition login_verify (o : orders) (client name password normalized : string) (now : Z) : action string :=
  verified ← on_accounts (verify_credentials P name password);
  match verified with
  | Err _ => modify (λ s, set_limiter s (release (login_limiter s) client normalized)) ;; attempt (Err Storage)
  | Ok (Ok account) =>
      modify (λ s, set_limiter s (clear (login_limiter s) client normalized)) ;;
      mret (user_id account)
  | Ok (Err _) =>
      modify (λ s, set_limiter s (record_failure o (login_limiter s) client normalized now)) ;; attempt (Err Authentication)
  end.

Definition login_finish (o : orders) (env : IssueEnv) (client name password normalized : string) (now : Z) : action IssuedBrowserSession :=
  user ← login_verify o client name password normalized now;
  issue_for_user env user.

Definition login (o o' : orders) (clock : option Z) (env : IssueEnv) (cred : TransportCredentials) (client name password : string) :
    action IssuedBrowserSession :=
  started ← login_start o clock cred client name password;
  login_finish o' env client name password started.1 started.2.

(** ** Reading and revoking sessions *)

Definition session_live (now : Z) (r : SessionRow) : bool := bool_decide (row_revoked_at r = None) && (now <? row_expires_at r).

Definition set_revoked (now : Z) (r : SessionRow) : SessionRow :=
  {| row_subject := row_subject r; row_actor_json := row_actor_json r; row_scopes_json := row_scopes_json r;
     row_created_at := row_created_at r; row_expires_at := row_expires_at r; row_revoked_at := Some now |}.

Definition set_expires (expires : Z) (r : SessionRow) : SessionRow :=
  {| row_subject := row_subject r; row_actor_json := row_actor_json r; row_scopes_json := row_scopes_json r;
     row_created_at := row_created_at r; row_expires_at := expires; row_revoked_at := row_revoked_at r |}.

Definition set_context (actor_json scopes_json : string) (r : SessionRow) : SessionRow :=
  {| row_subject := row_subject r; row_actor_json := actor_json; row_scopes_json := scopes_json;
     row_created_at := row_created_at r; row_expires_at := row_expires_at r; row_revoked_at := row_revoked_at r |}.

Definition revoke (clock : option Z) (cred : TransportCredentials) : action () :=
  attempt (refuse (bool_decide (is_Some (bearer cred))) Authentication) ;;
  cookie ← attempt (ok_or (session_cookie cred) Authentication);
  now ← unix_millis clock;
  changed ← update_sessions (set_revoked now) (λ d r, bool_decide (d = session_digest cookie) && session_live now r);
  attempt (if changed =? 1 then Ok tt else Err Authentication).

(** What [read_session] has read before it renews. *)
Record Lookup : Type := { found_principal : AuthenticatedPrincipal; found_expires_at : Z; found_now : Z }.

Definition read_lookup (clock : option Z) (cookie : string) : action Lookup :=
  now ← unix_millis clock;
  attempt_with (λ s,
    row ← ok_or (r ← auth_sessions s !! session_digest cookie; if session_live now r then Some r else None) Authentication;
    a ← decode_json (actor_from_json C) (row_actor_json row);
    scopes ← decode_json (scopes_from_json C) (row_scopes_json row);
    scopes ← map_err (λ _, Storage) (canonical_scopes scopes);
    p ← ok_or (principal_new a scopes) Storage;
    refuse (bool_decide (subject p ≠ row_subject row)) Storage ;;
    Ok {| found_principal := p; found_expires_at := row_expires_at row; found_now := now |}).

Record CurrentBrowserSession : Type := { current_principal : AuthenticatedPrincipal; current_expires_at : Z }.

Definition read_renew (cookie : string) (found : Lookup) : action CurrentBrowserSession :=
  with_state config (λ cfg,
    ttl ← attempt (duration_millis (session_ttl cfg));
    let renewed := saturating_add_i64 (found_now found) ttl in
    if ttl / 4 <? saturating_sub_i64 renewed (found_expires_at found) then
      _ ← update_sessions (set_expires renewed)
            (λ d r, bool_decide (d = session_digest cookie) && bool_decide (row_revoked_at r = None));
      mret {| current_principal := found_principal found; current_expires_at := renewed |}
    else mret {| current_principal := found_principal found; current_expires_at := found_expires_at found |}).

Definition read_session (clock : option Z) (cookie : string) : action CurrentBrowserSession :=
  found ← read_lookup clock cookie;
  read_renew cookie found.

Record AuthSessionResponse : Type := { response_expires_at : string; response_actor : Actor; response_scopes : list Scope }.

Definition session_response (p : AuthenticatedPrincipal) (expires : Z) : auth AuthSessionResponse :=
  at_ ← instant_from_millis expires;
  Ok {| response_expires_at := at_; response_actor := actor p; response_scopes := authorized_scopes p |}.

Definition current (clock : option Z) (cred : TransportCredentials) : action AuthSessionResponse :=
  attempt (refuse (bool_decide (is_Some (bearer cred))) Authentication) ;;
  match session_cookie cred with
  | Some cookie =>
      session ← read_session clock cookie;
      attempt (session_response (current_principal session) (current_expires_at session))
  | None =>
      with_state id (λ s,
        match local_principal s with
        | Some p =>
            if local_open (config s) then
              now ← unix_millis clock;
              ttl ← attempt (duration_millis (session_ttl (config s)));
              expires ← attempt (ok_or (checked_add_i64 now ttl) Clock);
              attempt (session_response p expires)
            else attempt (Err Authentication)
        | None => attempt (Err Authentication)
        end)
  end.

Definition revoke_actor_sessions (clock : option Z) (a : Actor) : action Z :=
  now ← unix_millis clock;
  update_sessions (set_revoked now) (λ _ r, bool_decide (row_subject r = actor_subject a) && session_live now r).

Definition replace_authorized_scopes (clock : option Z) (a : Actor) (scopes : list Scope) : action Z :=
  match scopes with
  | [] => revoke_actor_sessions clock a
  | _ =>
      scopes ← attempt (canonical_scopes scopes);
      p ← attempt (ok_or (principal_new a scopes) Configuration);
      now ← unix_millis clock;
      actor_json ← attempt (encode_json (actor_to_json C) (actor p));
      scopes_json ← attempt (encode_json (scopes_to_json C) (authorized_scopes p));
      update_sessions (set_context actor_json scopes_json) (λ _ r, bool_decide (row_subject r = subject p) && session_live now r)
  end.

(** [map_err(|_| ..)]. *)
Definition one_error {A} (m : action A) : action A := λ s, let '(s, r) := m s in (s, map_err (λ _, Authentication) r).

(** [RequestAuthenticator::authenticate]; every error is one and the same. *)
Definition authenticate (clock : option Z) (cred : TransportCredentials) : action AuthenticatedPrincipal :=
  attempt (refuse (bool_decide (is_Some (bearer cred))) Authentication) ;;
  match session_cookie cred with
  | Some cookie => one_error (session ← read_session clock cookie; mret (current_principal session))
  | None => attempt_with (λ s, if local_open (config s) then ok_or (local_principal s) Authentication else Err Authentication)
  end.

(** ** Opening *)

Record OpenEnv : Type := {
  open_clock : option Z;
  local_clock : option Z;
  local_secret : option (list Z);
  local_random : option (list Z);
  local_salt : option (list Z);
  local_stored : bool
}.

Definition cache_local_principal (user : string) : action () :=
  with_state session_authority (λ scopes,
    scopes ← attempt (canonical_scopes scopes);
    p ← attempt (ok_or (principal_new (UserActor user) scopes) Storage);
    modify (λ s, set_local_principal s (Some p))).

Definition ensure_local_owner (env : OpenEnv) : action () :=
  found ← initialization_owner;
  match found with
  | Some owner => cache_local_principal owner
  | None =>
      now ← unix_millis (local_clock env);
      occurred_at ← attempt (instant_from_millis now);
      secret ← attempt (ok_or (local_secret env) Entropy);
      created ← on_accounts (initialize_owner P (local_random env) (local_salt env) "local-owner" (base64 C secret) occurred_at);
      account ← attempt (map_err (λ _, Storage) created);
      statement (local_stored env) (record_initialization (user_id account) now) ;;
      cache_local_principal (user_id account)
  end.

(** No proof is given twice. *)
Fixpoint distinct_proofs (seen proofs : list string) : bool :=
  match proofs with
  | [] => true
  | p :: proofs => negb (existsb (λ c, constant_time_equal c p) seen) && distinct_proofs (seen ++ [p]) proofs
  end.

(** [open] on the tables of [s], whose other fields are those of the manager before, if any; the
    tables keep what was written before a failure. *)
Definition open (env : OpenEnv) (cfg : AuthSessionConfig) (proofs : list string) (scopes : list Scope) : action () :=
  _ ← attempt (config_new (bootstrap_window cfg) (session_ttl cfg));
  scopes ← attempt (canonical_scopes scopes);
  attempt (refuse (negb (distinct_proofs [] proofs)) Configuration) ;;
  now ← unix_millis (open_clock env);
  with_state server_initialization (λ initialization,
    let closed := bool_decide (is_Some initialization) in
    attempt (refuse (bool_decide (proofs = []) && negb (local_open cfg) && negb closed) Configuration) ;;
    modify (λ s, {| auth_sessions := auth_sessions s; server_initialization := server_initialization s; gate_proofs := proofs;
                    gate_closed := closed; accounts := accounts s; session_authority := scopes; login_limiter := limiter_default;
                    opened_at_millis := now; config := cfg; local_principal := None |}) ;;
    (if local_open cfg then ensure_local_owner env else mret tt)).
End manager.
