(* ===== verification/AuthFacts.v ===== *)
(** * Browser sessions: facts

    What the operations of [AuthSession] do to the sessions and to the owner account. *)

From Stdlib Require Import Ascii String.
From S2P Require Import Prelude Text Numerals Ordered Instants Transaction LoginLimiter Accounts AuthSession.
Local Open Scope Z_scope.

(** ** The comparison of secrets *)

Lemma byte_or_zero_nonneg s i : 0 ≤ byte_or_zero s i.
Proof. unfold byte_or_zero. destruct (bytes s !! i); cbn; unfold byte_val; lia. Qed.

Lemma differences_zero left right d l :
  0 ≤ d → foldl (λ d i, Z.lor d (Z.lxor (byte_or_zero left i) (byte_or_zero right i))) d l = 0 ↔
  d = 0 ∧ Forall (λ i, byte_or_zero left i = byte_or_zero right i) l.
Proof.
  revert d. induction l as [|i l IH]; intros d Hd; cbn; [rewrite Forall_nil; naive_solver|].
  assert (0 ≤ Z.lxor (byte_or_zero left i) (byte_or_zero right i)) as Hx by (apply Z.lxor_nonneg; split; intros; apply byte_or_zero_nonneg).
  rewrite IH, Z.lor_eq_0_iff, Z.lxor_eq_0_iff, Forall_cons by (by apply Z.lor_nonneg). naive_solver.
Qed.

(** The comparison that looks at every byte is equality. *)
Lemma constant_time_equal_iff left right : constant_time_equal left right = true ↔ left = right.
Proof.
  unfold constant_time_equal, str_len. rewrite Z.eqb_eq, differences_zero, Z.lxor_eq_0_iff by (apply Z.lxor_nonneg; lia).
  split; [|intros ->; split; [done|by apply Forall_true]]. intros [Hl Hall]. apply Nat2Z.inj in Hl.
  apply bytes_inj, list_eq. intros i. destruct (decide (i < String.length left)%nat) as [Hi|Hi].
  - pose proof (proj1 (Forall_forall _ _) Hall i) as Hb. rewrite list_elem_of_In, in_seq in Hb. specialize (Hb ltac:(lia)).
    unfold byte_or_zero in Hb.
    destruct (lookup_lt_is_Some_2 (bytes left) i) as [a Ha]; [by rewrite bytes_length|].
    destruct (lookup_lt_is_Some_2 (bytes right) i) as [b Hb']; [rewrite bytes_length; lia|].
    rewrite Ha, Hb' in *. cbn in Hb. f_equal. by apply byte_val_inj.
  - rewrite !lookup_ge_None_2; [done|rewrite bytes_length; lia..].
Qed.

Section facts.
Context (C : AuthCodec) (P : Passwords).

Abbreviation action A := (act SqliteAuthSessionManager AuthSessionErrorKind A).

(** ** Quiet operations *)

(** The sessions and the configuration are the same, and the owner stays. *)
Record quiet (s s' : SqliteAuthSessionManager) : Prop := {
  qu_sessions : auth_sessions s' = auth_sessions s;
  qu_config : config s' = config s;
  qu_authority : session_authority s' = session_authority s;
  qu_owner : owner_follows (accounts s) (accounts s')
}.

#[global] Instance quiet_refl : Reflexive quiet.
Proof. intros s. by split. Qed.
#[global] Instance quiet_trans : Transitive quiet.
Proof. intros s1 s2 s3 [] []. split; [congruence..|by etrans]. Qed.

Abbreviation quiet_act m := (keeps quiet m).

Lemma keeps_statement {A} (R : SqliteAuthSessionManager → SqliteAuthSessionManager → Prop) `{!Reflexive R} b (m : action A) :
  keeps R m → keeps R (statement b m).
Proof. intros Hm s. unfold statement. destruct b; [apply Hm|by cbn]. Qed.

Lemma quiet_on_accounts {A} (m : OwnerTables → OwnerTables * result UserAccountServiceErrorKind A) :
  (∀ t, owner_follows t (m t).1) → quiet_act (on_accounts m).
Proof. intros Hm s. unfold on_accounts. specialize (Hm (accounts s)). destruct (m (accounts s)) as [t r]. by split. Qed.

Lemma quiet_owner : quiet_act (initialization_owner P).
Proof.
  intros s. unfold initialization_owner. destruct (server_initialization s) as [[]|]; [done|].
  pose proof (owner_id_follows P (accounts s)) as Hf. destruct (owner_id P (accounts s)) as [t r]. by split.
Qed.

Lemma quiet_record_initialization user now : quiet_act (record_initialization user now).
Proof. apply keeps_modify. intros s. by destruct (server_initialization s); split. Qed.
End facts.

Abbreviation quiet_act m := (keeps quiet m).

Create HintDb quiet.
#[export] Hint Resolve quiet_on_accounts quiet_owner quiet_record_initialization initialize_owner_follows
  verify_credentials_follows set_password_follows : quiet.

(** Walks through the parts of a quiet operation. *)
Ltac solve_quiet :=
  walk_keeps ltac:(first
    [ solve [eauto with quiet]
    | apply keeps_statement; [apply _|]
    | apply keeps_modify; intros ?; by split ]).

Section parts.
Context (C : AuthCodec) (P : Passwords).

Lemma quiet_initialize env cred name password : quiet_act (initialize_account C P env cred name password).
Proof. unfold initialize_account. solve_quiet. Qed.

Lemma quiet_admit o client normalized now : quiet_act (admit_login o client normalized now).
Proof. intros s. unfold admit_login. by destruct (limiter_admit _ _ _ _ _). Qed.

Lemma quiet_login_checks clock cred name password : quiet_act (login_checks P clock cred name password).
Proof. unfold login_checks, unix_millis. solve_quiet. Qed.

Lemma quiet_login_start o clock cred client name password : quiet_act (login_start P o clock cred client name password).
Proof. unfold login_start. walk_keeps ltac:(first [apply quiet_login_checks | apply quiet_admit]). Qed.

Lemma quiet_verify o client name password normalized now : quiet_act (login_verify P o client name password normalized now).
Proof. unfold login_verify. solve_quiet. Qed.

(** ** Sessions *)

Lemma on_accounts_Ok {A} (m : OwnerTables → OwnerTables * result UserAccountServiceErrorKind A) s s' r :
  on_accounts m s = (s', Ok r) → ∃ t, m (accounts s) = (t, r) ∧ s' = set_accounts s t.
Proof. unfold on_accounts. destruct (m (accounts s)) as [t r']. intros [= <- <-]. by exists t. Qed.

Lemma statement_Ok {A} b (m : act SqliteAuthSessionManager AuthSessionErrorKind A) s s' a : statement b m s = (s', Ok a) → m s = (s', Ok a).
Proof. unfold statement. by destruct b. Qed.

(** A new owner: the proof was one of the given ones, within the window, and there was no
    owner before. *)
Lemma initialize_account_Ok env cred name password s s1 user :
  initialize_account C P env cred name password s = (s1, Ok user) →
  (∃ proof now window, bearer cred = Some proof ∧ proof ∈ gate_proofs s ∧ init_clock env = Some now ∧
     duration_millis (bootstrap_window (config s)) = Ok window ∧ now ≤ saturating_add_i64 (opened_at_millis s) window) ∧
  gate_closed s = false ∧ owner_row (accounts s) = None ∧ ∃ x, owner_row (accounts s1) = Some x ∧ user_id x = user.
Proof.
  unfold initialize_account, unix_millis, with_state. intros H. inv_act. inv_result. split_bools.
  match goal with H : on_accounts _ _ = _ |- _ => apply on_accounts_Ok in H as (t & Ht & ->) end.
  apply initialize_owner_Ok in Ht as (Hnone & Hx & _).
  match goal with H : existsb _ _ = true |- _ => apply existsb_exists in H as (proof & Hin%list_elem_of_In & E%constant_time_equal_iff) end.
  match goal with H : statement _ _ _ = _ |- _ => apply statement_Ok in H; unfold record_initialization in H; inv_act end.
  split_and!; [|done|done|].
  - subst. eexists _, _, _. split_and!; [done..|]. cbn in *. lia.
  - eexists. split; [|done]. cbn. by destruct (server_initialization _).
Qed.

Lemma login_verify_Ok o client name password normalized now s s1 user :
  login_verify P o client name password normalized now s = (s1, Ok user) →
  ∃ x, owner_credentials P (accounts s1) name password x ∧ user_id x = user.
Proof.
  unfold login_verify. intros H. inv_act.
  match goal with H : on_accounts _ _ = _ |- _ => apply on_accounts_Ok in H as (t & Ht & ->) end.
  destruct x as [[x|]|]; inv_act; [|done..]. exists x. split; [|done]. by eapply verify_credentials_Ok.
Qed.

(** A session was issued: a new row, which can be read back. *)
Record issued_row (p : AuthenticatedPrincipal) (i : IssuedBrowserSession) (r : SessionRow) : Prop := {
  ir_principal : issued_principal i = p;
  ir_subject : row_subject r = subject p;
  ir_actor : actor_to_json C (actor p) = Some (row_actor_json r);
  ir_scopes : scopes_to_json C (authorized_scopes p) = Some (row_scopes_json r);
  ir_expires : row_expires_at r = issued_expires_at i;
  ir_revoked : row_revoked_at r = None
}.

Definition new_session (p : AuthenticatedPrincipal) (i : IssuedBrowserSession) (s s' : SqliteAuthSessionManager) : Prop :=
  ∃ r, issued_row p i r ∧ auth_sessions s !! session_digest C (cookie_value i) = None ∧ session_checks (session_digest C (cookie_value i)) r = true ∧
    s' = set_sessions s (<[session_digest C (cookie_value i) := r]> (auth_sessions s)).

Lemma issue_principal_post env p s : post (issue_principal C env p) s (λ i s', new_session p i s s') (λ s', s' = s).
Proof.
  unfold issue_principal, unix_millis. apply post_bind, post_attempt; [|done]. intros now _. apply post_with_state.
  apply post_bind, post_attempt; [|done]. intros ttl _. apply post_bind, post_attempt; [|done]. intros expires _.
  apply post_bind, post_attempt; [|done]. intros raw _. cbv zeta. apply post_bind, post_attempt; [|done]. intros aj Ha.
  apply post_bind, post_attempt; [|done]. intros sj Hs. apply post_bind. unfold encode_json in *. inv_result.
  unfold post, statement. destruct (issue_stored env); [|done]. unfold insert_session. destruct (_ || _) eqn:Eg; [done|].
  split_bools. eexists. split; [|split; [by apply eq_None_not_Some|split; [|reflexivity]; done]]. by split.
Qed.

Lemma issue_for_user_post env user s :
  post (issue_for_user C env user) s
    (λ i s', ∃ scopes p, canonical_scopes C (session_authority s) = Ok scopes ∧ principal_new (UserActor user) scopes = Some p ∧
       subject p = user ∧ new_session p i s s') (λ s', s' = s).
Proof.
  unfold issue_for_user, issue_authenticated. apply post_with_state. apply post_bind, post_attempt; [|done]. intros scopes Hs.
  apply post_bind, post_attempt; [|done]. intros p Hp. inv_result.
  eapply post_weaken; [apply issue_principal_post| |done]. intros i s' Hi. exists scopes, p. split_and!; try done.
  unfold principal_new in Hp. repeat case_match; by simplify_eq.
Qed.

(** The rows that [update_sessions] leaves. *)
Lemma update_sessions_spec f Q s s' r :
  update_sessions f Q s = (s', r) →
  match r with
  | Ok _ => s' = set_sessions s (auth_sessions s') ∧
      ∀ d, auth_sessions s' !! d = (λ x, if Q d x then f x else x) <$> auth_sessions s !! d
  | Err _ => s' = s
  end.
Proof.
  unfold update_sessions. destruct (forallb _ _); intros [= <- <-]; [|done]. split; [done|].
  intros d. cbn. rewrite lookup_union, lookup_fmap, map_lookup_filter. destruct (auth_sessions s !! d) as [x|]; cbn; [|done].
  destruct (Q d x); cbn; by case_guard.
Qed.

Lemma update_sessions_run f Q s :
  (∀ d x, auth_sessions s !! d = Some x → Q d x = true → session_checks d (f x) = true) →
  ∃ s' n, update_sessions f Q s = (s', Ok n).
Proof.
  intros Hc. unfold update_sessions. destruct (forallb _ _) eqn:E; [by eexists _, _|]. exfalso.
  apply not_true_iff_false in E. apply E, forallb_forall. intros [d x] Hin%list_elem_of_In%elem_of_map_to_list.
  apply map_lookup_filter_Some in Hin as [? ?]. by apply Hc.
Qed.

(** ** Scopes *)

Lemma keyed_scopes_Ok l k : keyed_scopes C l = Ok k ↔ Forall2 (λ s x, scope_to_json C s = Some x.1 ∧ x.2 = s) l k.
Proof.
  revert k. induction l as [|s l IH]; intros k; cbn; [split; [intros [= <-]; constructor|by intros ->%Forall2_nil_inv_l]|]. unfold encode_json. split.
  - intros H. inv_result. constructor; [done|by apply IH].
  - intros ([key s'] & k' & [E1 E2] & Hk & ->)%Forall2_cons_inv_l. cbn in *. subst. rewrite E1. cbn. apply IH in Hk. by rewrite Hk.
Qed.

Lemma canonical_scopes_idem l l' : canonical_scopes C l = Ok l' → canonical_scopes C l' = Ok l' ∧ l' ≡ₚ l.
Proof.
  unfold canonical_scopes. cbv zeta. intros H. inv_result. split_bools.
  match goal with H : keyed_scopes _ _ = Ok ?x |- _ => rename x into k; apply keyed_scopes_Ok in H as Hk end.
  pose proof (sort_by_key_perm fst k) as Hp. set (k' := sort_by_key fst k) in *.
  assert (Forall (λ x, scope_to_json C x.2 = Some x.1) k) as Hf.
  { clear -Hk. induction Hk as [|? ? ? ? [? ?]]; constructor; [congruence|done]. }
  assert (k.*2 = l) as Hl.
  { clear -Hk. induction Hk as [|? ? ? ? [? ?]]; cbn; congruence. }
  assert (keyed_scopes C k'.*2 = Ok k') as ->.
  { apply keyed_scopes_Ok, Forall2_fmap_l. rewrite <-Hp in Hf. clear -Hf. induction Hf; constructor; done. }
  assert (k'.*2 ≡ₚ l) as Hpl by (rewrite <-Hl; by apply fmap_Permutation). split; [|done].
  match goal with H : adjacent_equal _ _ = false |- _ => pose proof H as Hadj; apply adjacent_equal_NoDup in H as Hn; [|apply sort_by_key_sorted] end.
  fold k' in Hadj, Hn. rewrite (Permutation_length Hpl), bool_decide_eq_false_2; [|intros E; rewrite E in Hpl; by apply Permutation_nil_l in Hpl].
  match goal with H : (100 <? _) = false |- _ => rewrite H end. cbn [orb refuse mbind result_bind].
  rewrite sort_by_key_id, Hadj; [done|apply sort_by_key_sorted|done].
Qed.
End parts.
