(* ===== verification/AuthRuns.v ===== *)
(** * Browser sessions: runs

    Runs of the manager's operations, with the reads of sessions cut in two so that other calls
    come in between, and what a run has done: the sessions it issued, used and revoked. *)

From Stdlib Require Import Ascii String.
From S2P Require Import Prelude Text Numerals Ordered Transaction LoginLimiter LoginSafety Accounts AuthSession AuthFacts.
Local Open Scope Z_scope.

Inductive auth_op : Type :=
| Initialize (env : InitializeEnv) (cred : TransportCredentials) (name password : string)
| LoginStart (o : orders) (clock : option Z) (cred : TransportCredentials) (client name password : string)
| LoginFinish (o : orders) (env : IssueEnv) (client name password normalized : string) (now : Z)
| RevokeSession (clock : option Z) (cred : TransportCredentials)
| LookupSession (clock : option Z) (cookie : string)
| RenewSession (n : nat)
| ReplaceScopes (clock : option Z) (a : Actor) (scopes : list Scope)
| RevokeActor (clock : option Z) (a : Actor)
| SetPassword (salt : option (list Z)) (id : string) (rev : Z) (password now : string)
| Reopen (env : OpenEnv) (cfg : AuthSessionConfig) (proofs : list string) (scopes : list Scope).

(** What happened to the session with a digest: it was issued for a user and is good until a
    time, it was used and is good until a time, it was revoked. *)
Inductive auth_event : Type :=
| Issued (d user : string) (until : Z)
| Used (d : string) (until : Z)
| Revoked (d : string).

(** The manager, and the reads that have looked up a session and not yet renewed it. *)
Record AuthState : Type := { manager : SqliteAuthSessionManager; pending : list (string * Lookup) }.

Section runs.
Context (C : AuthCodec) (P : Passwords).

Abbreviation digest := (session_digest C).

Definition issued_events (r : auth IssuedBrowserSession) : list auth_event :=
  match r with Ok i => [Issued (digest (cookie_value i)) (subject (issued_principal i)) (issued_expires_at i)] | Err _ => [] end.

(** The live sessions of an actor. *)
Definition actor_sessions (s : SqliteAuthSessionManager) (a : Actor) (now : Z) : list string :=
  (filter (λ x, bool_decide (row_subject x.2 = actor_subject a) && session_live now x.2 = true) (map_to_list (auth_sessions s))).*1.

Definition revoked_events (s : SqliteAuthSessionManager) (a : Actor) (clock : option Z) (r : auth Z) : list auth_event :=
  match clock, r with Some now, Ok _ => Revoked <$> actor_sessions s a now | _, _ => [] end.

Definition set_manager (st : AuthState) (s : SqliteAuthSessionManager) : AuthState := {| manager := s; pending := pending st |}.

Definition auth_step (st : AuthState) (op : auth_op) : AuthState * list auth_event :=
  let s := manager st in
  match op with
  | Initialize env cred name password =>
      let '(s', r) := initialize C P env cred name password s in (set_manager st s', issued_events r)
  | LoginStart o clock cred client name password => (set_manager st (login_start P o clock cred client name password s).1, [])
  | LoginFinish o env client name password normalized now =>
      let '(s', r) := login_finish C P o env client name password normalized now s in (set_manager st s', issued_events r)
  | RevokeSession clock cred =>
      let '(s', r) := revoke C clock cred s in
      (set_manager st s', match r, session_cookie cred with Ok _, Some cookie => [Revoked (digest cookie)] | _, _ => [] end)
  | LookupSession clock cookie =>
      match (read_lookup C clock cookie s).2, duration_millis (session_ttl (config s)) with
      | Ok found, Ok ttl =>
          ({| manager := s; pending := pending st ++ [(cookie, found)] |}, [Used (digest cookie) (saturating_add_i64 (found_now found) ttl)])
      | _, _ => (st, [])
      end
  | RenewSession n =>
      match pending st !! n with
      | Some (cookie, found) =>
          ({| manager := (read_renew C cookie found s).1; pending := delete n (pending st) |}, [])
      | None => (st, [])
      end
  | ReplaceScopes clock a scopes =>
      let '(s', r) := replace_authorized_scopes C clock a scopes s in
      (set_manager st s', match scopes with [] => revoked_events s a clock r | _ => [] end)
  | RevokeActor clock a =>
      let '(s', r) := revoke_actor_sessions clock a s in (set_manager st s', revoked_events s a clock r)
  | SetPassword salt id rev password now => (set_manager st (set_accounts s (set_password P salt id rev password now (accounts s)).1), [])
  | Reopen env cfg proofs scopes => ({| manager := (open C P env cfg proofs scopes s).1; pending := [] |}, [])
  end.

Fixpoint auth_run (st : AuthState) (ops : list auth_op) : AuthState * list auth_event :=
  match ops with
  | [] => (st, [])
  | op :: ops => let '(st, h) := auth_step st op in let '(st, h') := auth_run st ops in (st, h ++ h')
  end.

(** Before the first start: no sessions, and the account tables of an earlier version, if any. *)
Definition fresh_state (t : OwnerTables) : AuthState :=
  {| manager := {| auth_sessions := ∅; server_initialization := None; gate_proofs := []; gate_closed := false; accounts := t;
       session_authority := []; login_limiter := limiter_default; opened_at_millis := 0;
       config := {| bootstrap_window := 0; session_ttl := 0; local_open := false |}; local_principal := None |};
     pending := [] |}.

(** ** The invariant *)

(** The session was issued or used, and is good until [z]. *)
Definition active (h : list auth_event) (d : string) (z : Z) : Prop := (∃ user, Issued d user z ∈ h) ∨ Used d z ∈ h.

Record row_ok (h : list auth_event) (t : OwnerTables) (d : string) (r : SessionRow) : Prop := {
  ro_issued : ∃ z, Issued d (row_subject r) z ∈ h;
  ro_active : ∃ z, active h d z ∧ row_expires_at r ≤ z;
  ro_owner : ∃ x, owner_row t = Some x ∧ user_id x = row_subject r
}.

Definition pending_ok (h : list auth_event) (cfg : AuthSessionConfig) (x : string * Lookup) : Prop :=
  ∀ ttl, duration_millis (session_ttl cfg) = Ok ttl → active h (digest x.1) (saturating_add_i64 (found_now x.2) ttl).

Definition is_revoked (s : SqliteAuthSessionManager) (d : string) : Prop :=
  ∃ r, auth_sessions s !! d = Some r ∧ is_Some (row_revoked_at r).

Record auth_inv (h : list auth_event) (st : AuthState) : Prop := {
  ai_rows : map_Forall (row_ok h (accounts (manager st))) (auth_sessions (manager st));
  ai_revoked : ∀ d, Revoked d ∈ h → is_revoked (manager st) d;
  ai_pending : Forall (pending_ok h (config (manager st))) (pending st)
}.

Lemma active_weaken h h' d z : h ⊆ h' → active h d z → active h' d z.
Proof. intros Hs [[user Hu]|Hu]; [left; exists user; by apply Hs|right; by apply Hs]. Qed.

Lemma row_ok_weaken h h' t t' d r : h ⊆ h' → owner_follows t t' → row_ok h t d r → row_ok h' t' d r.
Proof.
  intros Hs Ho [[z Hi] (z' & Ha & Hz) (x & Hx & Hid)]. destruct (Ho x Hx) as (y & Hy & Hxy). split.
  - exists z. by apply Hs.
  - exists z'. split; [by eapply active_weaken|done].
  - exists y. split; [done|]. rewrite <-Hid. apply Hxy.
Qed.

Lemma pending_ok_weaken h h' cfg x : h ⊆ h' → pending_ok h cfg x → pending_ok h' cfg x.
Proof. intros Hs Hp ttl Ht. by eapply active_weaken, Hp. Qed.

(** ** Steps *)

Lemma inv_quiet h st s' : auth_inv h st → quiet (manager st) s' → auth_inv h (set_manager st s').
Proof.
  intros [Hr Hv Hp] [Es Ec _ Ho]. split; cbn.
  - rewrite Es. intros d r Hd. eapply row_ok_weaken; [done|done|]. by apply Hr.
  - intros d (r & Hd & ?)%Hv. exists r. by rewrite Es.
  - by rewrite Ec.
Qed.

Lemma inv_issued h st s1 p i s' x :
  auth_inv h st → quiet (manager st) s1 → new_session C p i s1 s' → owner_row (accounts s1) = Some x → subject p = user_id x →
  auth_inv (h ++ issued_events (Ok i)) (set_manager st s').
Proof.
  intros Hinv Hq (r & Hi & Hnone & _ & ->) Hx Hsub. pose proof (inv_quiet _ _ _ Hinv Hq) as [Hr Hv Hp]. cbn in *.
  assert (h ⊆ h ++ issued_events (Ok i)) as Hsub' by set_solver. split; cbn.
  - apply map_Forall_insert_2; [|intros d r' Hd; eapply row_ok_weaken; [exact Hsub'|done|by apply Hr]].
    assert (Issued (digest (cookie_value i)) (row_subject r) (row_expires_at r) ∈ h ++ issued_events (Ok i)) as Hin.
    { apply elem_of_app. right. rewrite (ir_subject _ _ _ _ Hi), (ir_expires _ _ _ _ Hi), <-(ir_principal _ _ _ _ Hi). constructor. }
    split; [by eexists|exists (row_expires_at r); split; [left; by eexists|done]|].
    exists x. split; [done|]. rewrite (ir_subject _ _ _ _ Hi). done.
  - intros d [Hd|Hd]%elem_of_app; [|by apply list_elem_of_singleton in Hd]. destruct (Hv d Hd) as (r' & Hr' & ?). exists r'.
    split; [|done]. cbn. rewrite lookup_insert_ne; [done|]. intros E. cbn in Hr'. congruence.
  - eapply Forall_impl; [exact Hp|]. intros y. by apply pending_ok_weaken.
Qed.

(** An update of the sessions that keeps their subjects and revocations, and extends none
    beyond its activity; the new events are revocations of updated sessions. *)
Lemma inv_update h new st s' pend f Q r :
  auth_inv h st → update_sessions f Q (manager st) = (s', r) → pend ⊆ pending st →
  (∀ x, row_subject (f x) = row_subject x) → (∀ x, is_Some (row_revoked_at x) → is_Some (row_revoked_at (f x))) →
  (∀ d x, auth_sessions (manager st) !! d = Some x → Q d x = true →
     row_expires_at (f x) = row_expires_at x ∨ ∃ z, active h d z ∧ row_expires_at (f x) ≤ z) →
  (∀ e, e ∈ new → ∃ d x, e = Revoked d ∧ is_ok r = true ∧ auth_sessions (manager st) !! d = Some x ∧ Q d x = true ∧
     is_Some (row_revoked_at (f x))) →
  auth_inv (h ++ new) {| manager := s'; pending := pend |}.
Proof.
  intros [Hr Hv Hp] Hup Hpend Hsub Hrev Hexp Hnew. apply update_sessions_spec in Hup.
  assert (h ⊆ h ++ new) as Hle by set_solver. destruct r as [n|e].
  - destruct Hup as [E Hl]. rewrite E. split; cbn.
    + intros d y Hy. cbn in Hy. rewrite Hl in Hy. destruct (auth_sessions (manager st) !! d) as [x|] eqn:Hx; [|done]. cbn in Hy. simplify_eq.
      eapply (row_ok_weaken h); [done|done|]. destruct (Q d x) eqn:HQ; [|by apply Hr]. destruct (Hr _ _ Hx) as [H1 H2 H3].
      split; [by rewrite Hsub| |by rewrite Hsub]. destruct (Hexp _ _ Hx HQ) as [->|?]; done.
    + intros d Hd. unfold is_revoked. cbn. setoid_rewrite Hl. apply elem_of_app in Hd as [Hd|Hd].
      * destruct (Hv d Hd) as (x & Hx & ?). rewrite Hx. eexists. split; [done|]. destruct (Q d x); auto.
      * destruct (Hnew _ Hd) as (d' & x & [= <-] & _ & Hx & HQ & ?). rewrite Hx. cbn. rewrite HQ. by eexists.
    + apply Forall_forall. intros x Hx. eapply pending_ok_weaken; [exact Hle|]. eapply Forall_forall; [exact Hp|]. by apply Hpend.
  - subst s'. destruct new as [|e' new]; [|exfalso; destruct (Hnew e') as (? & ? & _ & ? & _); [constructor|done]].
    rewrite app_nil_r. split; cbn; [done..|]. apply Forall_forall. intros x Hx. eapply Forall_forall; [exact Hp|]. by apply Hpend.
Qed.

(** A session is issued after a quiet part that found the owner. *)
Lemma issue_inv (m : act SqliteAuthSessionManager AuthSessionErrorKind string) env h st s' r :
  auth_inv h st → keeps quiet m →
  (∀ s1 user, m (manager st) = (s1, Ok user) → ∃ x, owner_row (accounts s1) = Some x ∧ user_id x = user) →
  (user ← m; issue_for_user C env user) (manager st) = (s', r) → auth_inv (h ++ issued_events r) (set_manager st s').
Proof.
  intros Hinv Hq Hm H. specialize (Hq (manager st)). unfold mbind, act_bind in H.
  destruct (m (manager st)) as [s1 [user|e]] eqn:E; cbn in Hq.
  - destruct (Hm _ _ eq_refl) as (x & Hx & Hid). pose proof (issue_for_user_post C env user s1) as Hpost. unfold post in Hpost. rewrite H in Hpost.
    destruct r as [i|e]; [|subst; cbn; rewrite app_nil_r; by apply inv_quiet].
    destruct Hpost as (scopes & p & _ & _ & Hsub & Hnew). by eapply inv_issued; [done| |done|done|congruence].
  - simplify_eq. cbn. rewrite app_nil_r. by apply inv_quiet.
Qed.

Lemma initialize_inv env cred name password h st s' r :
  auth_inv h st → initialize C P env cred name password (manager st) = (s', r) → auth_inv (h ++ issued_events r) (set_manager st s').
Proof.
  intros Hinv H. eapply issue_inv; [done|apply quiet_initialize| |exact H].
  intros s1 user (_ & _ & _ & ?)%initialize_account_Ok. done.
Qed.

Lemma login_finish_inv o env client name password normalized now h st s' r :
  auth_inv h st → login_finish C P o env client name password normalized now (manager st) = (s', r) →
  auth_inv (h ++ issued_events r) (set_manager st s').
Proof.
  intros Hinv H. eapply issue_inv; [done|apply quiet_verify| |exact H].
  intros s1 user (x & [? _] & ?)%login_verify_Ok. by exists x.
Qed.

Lemma inv_same h st : auth_inv h st → auth_inv (h ++ []) st.
Proof. by rewrite app_nil_r. Qed.

Lemma set_manager_id st : set_manager st (manager st) = st.
Proof. by destruct st. Qed.

(** An action that only reads before its update of the sessions. *)
Lemma attempt_first {A B} (r : auth A) (k : A → act SqliteAuthSessionManager AuthSessionErrorKind B) s s' x :
  (attempt r ≫= k) s = (s', x) → (∃ a, r = Ok a ∧ k a s = (s', x)) ∨ s' = s ∧ ∃ e, x = Err e.
Proof. unfold mbind, act_bind, attempt. destruct r as [a|e]; [left; by exists a|right]. injection H as <- <-. by split; [|eexists]. Qed.

Lemma revoke_inv clock cred h st s' r :
  auth_inv h st → revoke C clock cred (manager st) = (s', r) →
  auth_inv (h ++ match r, session_cookie cred with Ok _, Some cookie => [Revoked (digest cookie)] | _, _ => [] end) (set_manager st s').
Proof.
  intros Hinv H. unfold revoke, unix_millis in H.
  apply attempt_first in H as [([] & _ & H)|[-> [e ->]]]; [|rewrite set_manager_id; by apply inv_same].
  apply attempt_first in H as [(cookie & Hc & H)|[-> [e ->]]]; [|rewrite set_manager_id; by apply inv_same]. inv_result.
  apply attempt_first in H as [(now & _ & H)|[-> [e ->]]]; [|rewrite set_manager_id; by apply inv_same].
  rewrite Hc. unfold mbind, act_bind in H. destruct (update_sessions _ _ _) as [s1 r1] eqn:E.
  assert (s1 = s') as -> by (destruct r1; [unfold attempt in H|]; congruence).
  unfold set_manager. eapply inv_update; [done|exact E|done|done| |auto|].
  - intros x _. by eexists.
  - intros e He. destruct r1 as [n|]; [|by simplify_eq; apply not_elem_of_nil in He]. unfold attempt in H.
    destruct (n =? 1) eqn:En; simplify_eq; [|by apply not_elem_of_nil in He]. apply list_elem_of_singleton in He as ->.
    unfold update_sessions in E. destruct (forallb _ _); [|done]. injection E as <- <-. apply Z.eqb_eq in En.
    set (hit := filter _ _) in En. assert (hit ≠ ∅) as [d [x Hx]]%map_choose by (intros E; rewrite E, map_size_empty in En; lia).
    apply map_lookup_filter_Some in Hx as [Hx HQ]. cbn in HQ. pose proof HQ as HQ'. apply andb_true_iff in HQ' as [->%bool_decide_eq_true _].
    exists (digest cookie), x. by split_and!.
Qed.

Lemma revoke_actor_inv clock a h st s' r :
  auth_inv h st → revoke_actor_sessions clock a (manager st) = (s', r) →
  auth_inv (h ++ revoked_events (manager st) a clock r) (set_manager st s').
Proof.
  intros Hinv H. unfold revoke_actor_sessions, unix_millis in H.
  apply attempt_first in H as [(now & Hn & H)|[-> [e ->]]];
    [|rewrite set_manager_id; unfold revoked_events; destruct clock; by apply inv_same]. inv_result.
  unfold set_manager. eapply inv_update; [done|exact H|done|done| |auto|].
  - intros x _. by eexists.
  - intros e He. unfold revoked_events in He. destruct r as [n|]; [|by apply not_elem_of_nil in He].
    apply list_elem_of_fmap in He as (d & -> & Hd). unfold actor_sessions in Hd.
    apply list_elem_of_fmap in Hd as ([d' x] & -> & Hx). apply list_elem_of_filter in Hx as [HQ Hx%elem_of_map_to_list].
    exists d', x. by split_and!.
Qed.

Lemma replace_inv clock a scopes h st s' r :
  auth_inv h st → replace_authorized_scopes C clock a scopes (manager st) = (s', r) →
  auth_inv (h ++ match scopes with [] => revoked_events (manager st) a clock r | _ => [] end) (set_manager st s').
Proof.
  intros Hinv H. destruct scopes as [|sc scopes]; [by apply revoke_actor_inv|]. unfold replace_authorized_scopes, unix_millis in H.
  do 5 (apply attempt_first in H as [(? & _ & H)|[-> [e ->]]]; [|rewrite set_manager_id; by apply inv_same]).
  unfold set_manager. eapply inv_update; [done|exact H|done|done|done|auto|]. intros e He. by apply not_elem_of_nil in He.
Qed.

Lemma renew_inv n cookie found h st :
  auth_inv h st → pending st !! n = Some (cookie, found) →
  auth_inv (h ++ []) {| manager := (read_renew C cookie found (manager st)).1; pending := delete n (pending st) |}.
Proof.
  intros Hinv Hn. assert (delete n (pending st) ⊆ pending st) as Hpend by apply sublist_subseteq, sublist_delete.
  assert (auth_inv (h ++ []) {| manager := manager st; pending := delete n (pending st) |}) as Hsame.
  { rewrite app_nil_r. destruct Hinv as [? ? Hp]. split; cbn; [done..|]. apply Forall_forall. intros x Hx. eapply Forall_forall; [exact Hp|auto]. }
  unfold read_renew, with_state, mbind at 1, act_bind, attempt.
  destruct (duration_millis (session_ttl (config (manager st)))) as [ttl|] eqn:Et; [|done]. cbv zeta. case_match; [|done].
  unfold mbind, act_bind. destruct (update_sessions _ _ _) as [s1 r1] eqn:E.
  replace (match r1 with Ok _ => _ | Err _ => _ end).1 with s1 by (by destruct r1).
  eapply inv_update; [done|exact E|done|done|done| |]; [|intros e He; by apply not_elem_of_nil in He].
  intros d x Hx [->%bool_decide_eq_true _]%andb_true_iff. right. eexists. split; [|cbn; reflexivity].
  apply list_elem_of_lookup_2 in Hn. by eapply (proj1 (Forall_forall _ _) (ai_pending _ _ Hinv) _ Hn).
Qed.

Lemma lookup_inv clock cookie h st : auth_inv h st → auth_inv (h ++ (auth_step st (LookupSession clock cookie)).2) (auth_step st (LookupSession clock cookie)).1.
Proof.
  intros Hinv. cbn. destruct (read_lookup C clock cookie (manager st)).2 as [found|]; [|by apply inv_same].
  destruct (duration_millis _) as [ttl|] eqn:Et; [|by apply inv_same]. destruct Hinv as [Hr Hv Hp]. cbn.
  set (new := [Used _ _]). assert (h ⊆ h ++ new) as Hle by set_solver. split; cbn.
  - intros d r Hd. eapply row_ok_weaken; [exact Hle|done|by apply Hr].
  - intros d [Hd|Hd]%elem_of_app; [by apply Hv|]. by apply list_elem_of_singleton in Hd.
  - apply Forall_app. split; [eapply Forall_impl; [exact Hp|]; intros x; by apply pending_ok_weaken|]. constructor; [|done].
    intros ttl' Ht. rewrite Et in Ht. simplify_eq. right. cbn. apply elem_of_app. right. constructor.
Qed.

Lemma quiet_local_owner env : keeps quiet (ensure_local_owner C P env).
Proof.
  unfold ensure_local_owner, cache_local_principal, unix_millis. solve_quiet.
Qed.

Lemma reopen_inv env cfg proofs scopes h st : auth_inv h st → auth_inv h {| manager := (open C P env cfg proofs scopes (manager st)).1; pending := [] |}.
Proof.
  intros [Hr Hv _].
  enough (auth_sessions (open C P env cfg proofs scopes (manager st)).1 = auth_sessions (manager st) ∧
    owner_follows (accounts (manager st)) (accounts (open C P env cfg proofs scopes (manager st)).1)) as [Es Ho].
  { split; cbn; [|intros d (r & ? & ?)%Hv; exists r; by rewrite Es|constructor]. rewrite Es. intros d r Hd. eapply row_ok_weaken; [done|done|by apply Hr]. }
  assert (keeps (λ s s', auth_sessions s' = auth_sessions s ∧ owner_follows (accounts s) (accounts s')) (open C P env cfg proofs scopes)) as H.
  { unfold open, unix_millis. pose proof (quiet_local_owner env) as Hq.
    assert (Reflexive (λ s s', auth_sessions s' = auth_sessions s ∧ owner_follows (accounts s) (accounts s'))) by (intros s; done).
    assert (Transitive (λ s s', auth_sessions s' = auth_sessions s ∧ owner_follows (accounts s) (accounts s'))).
    { intros s1 s2 s3 [] []. split; [congruence|by etrans]. }
    walk_keeps ltac:(first [apply keeps_modify; intros ?; done | eapply keeps_weaken; [|exact Hq]; intros ? ? []; done]). }
  apply H.
Qed.

Lemma step_inv h st op : auth_inv h st → auth_inv (h ++ (auth_step st op).2) (auth_step st op).1.
Proof.
  intros Hinv. destruct op; [| | | |by apply lookup_inv|..]; cbn [auth_step].
  - destruct (initialize _ _ _ _ _ _ _) as [s' r] eqn:E. by eapply initialize_inv.
  - apply inv_same, inv_quiet; [done|]. apply quiet_login_start.
  - destruct (login_finish _ _ _ _ _ _ _ _ _ _) as [s' r] eqn:E. by eapply login_finish_inv.
  - destruct (revoke _ _ _ _) as [s' r] eqn:E. by eapply revoke_inv.
  - destruct (pending st !! n) as [[cookie found]|] eqn:E; [by apply renew_inv|by apply inv_same].
  - destruct (replace_authorized_scopes _ _ _ _ _) as [s' r] eqn:E. by eapply replace_inv.
  - destruct (revoke_actor_sessions _ _ _) as [s' r] eqn:E. by eapply revoke_actor_inv.
  - apply inv_same, inv_quiet; [done|]. split; [done..|]. apply set_password_follows.
  - by apply inv_same, reopen_inv.
Qed.

Lemma run_inv h st ops : auth_inv h st → auth_inv (h ++ (auth_run st ops).2) (auth_run st ops).1.
Proof.
  revert h st. induction ops as [|op ops IH]; intros h st Hinv; cbn; [by apply inv_same|].
  pose proof (step_inv h st op Hinv) as Hs. destruct (auth_step st op) as [st1 h1]. cbn in Hs. specialize (IH _ _ Hs).
  destruct (auth_run st1 ops) as [st2 h2]. cbn in *. by rewrite (assoc_L (++)).
Qed.

Lemma fresh_inv t : auth_inv [] (fresh_state t).
Proof. split; cbn; [apply map_Forall_empty|intros d Hd; by apply not_elem_of_nil in Hd|constructor]. Qed.

Lemma reachable_inv t ops : auth_inv (auth_run (fresh_state t) ops).2 (auth_run (fresh_state t) ops).1.
Proof. apply (run_inv [] _ _ (fresh_inv t)). Qed.

(** ** The owner in a run *)

Definition owner_kept (s s' : SqliteAuthSessionManager) : Prop := owner_follows (accounts s) (accounts s').

#[local] Instance owner_kept_refl : Reflexive owner_kept.
Proof. intros s. unfold owner_kept. reflexivity. Qed.
#[local] Instance owner_kept_trans : Transitive owner_kept.
Proof. intros s1 s2 s3. unfold owner_kept. apply transitivity. Qed.

Lemma quiet_owner_kept {A} (m : act SqliteAuthSessionManager AuthSessionErrorKind A) : keeps quiet m → keeps owner_kept m.
Proof. apply keeps_weaken. intros s s' Hq. apply Hq. Qed.

Lemma update_owner_kept f Q : keeps owner_kept (update_sessions f Q).
Proof. intros s. unfold update_sessions, owner_kept. by destruct (forallb _ _). Qed.

Lemma issue_owner_kept env user : keeps owner_kept (issue_for_user C env user).
Proof.
  intros s. pose proof (issue_for_user_post C env user s) as Hp. unfold post in Hp. unfold owner_kept.
  destruct (issue_for_user C env user s) as [s2 [i|]]; cbn; [|by subst]. by destruct Hp as (? & ? & _ & _ & _ & r & _ & _ & _ & ->).
Qed.

Ltac solve_owner_kept :=
  walk_keeps ltac:(first
    [ apply update_owner_kept
    | apply issue_owner_kept
    | apply quiet_owner_kept; first [apply quiet_initialize | apply quiet_verify | apply quiet_login_start | apply quiet_local_owner]
    | apply keeps_modify; intros ?; unfold owner_kept; reflexivity ]).

Lemma step_owner_kept st op : owner_kept (manager st) (manager (auth_step st op).1).
Proof.
  destruct op; cbn [auth_step].
  - assert (keeps owner_kept (initialize C P env cred name password)) as H by (unfold initialize; solve_owner_kept).
    specialize (H (manager st)). by destruct (initialize _ _ _ _ _ _ _).
  - assert (keeps owner_kept (login_start P o clock cred client name password)) as H by solve_owner_kept. apply H.
  - assert (keeps owner_kept (login_finish C P o env client name password normalized now)) as H by (unfold login_finish; solve_owner_kept).
    specialize (H (manager st)). by destruct (login_finish _ _ _ _ _ _ _ _ _ _).
  - assert (keeps owner_kept (revoke C clock cred)) as H by (unfold revoke, unix_millis; solve_owner_kept).
    specialize (H (manager st)). by destruct (revoke _ _ _ _).
  - by repeat case_match.
  - destruct (pending st !! n) as [[cookie found]|]; [|done].
    assert (keeps owner_kept (read_renew C cookie found)) as H by (unfold read_renew; solve_owner_kept). apply H.
  - assert (keeps owner_kept (replace_authorized_scopes C clock a scopes)) as H.
    { unfold replace_authorized_scopes, revoke_actor_sessions, unix_millis. destruct scopes; solve_owner_kept. }
    specialize (H (manager st)). by destruct (replace_authorized_scopes _ _ _ _ _).
  - assert (keeps owner_kept (revoke_actor_sessions clock a)) as H by (unfold revoke_actor_sessions, unix_millis; solve_owner_kept).
    specialize (H (manager st)). by destruct (revoke_actor_sessions _ _ _).
  - apply set_password_follows.
  - assert (keeps owner_kept (open C P env cfg proofs scopes)) as H by (unfold open, unix_millis; solve_owner_kept). apply H.
Qed.

Lemma run_owner_kept st ops : owner_kept (manager st) (manager (auth_run st ops).1).
Proof.
  revert st. induction ops as [|op ops IH]; intros st; [done|]. cbn. pose proof (step_owner_kept st op) as Hs.
  destruct (auth_step st op) as [st1 h1]. specialize (IH st1). destruct (auth_run st1 ops) as [st2 h2]. cbn in *. by etrans.
Qed.
End runs.

(** * A sample server

    A concrete codec and password scheme, and a server that is initialised and used. *)


Definition sample_scopes : list Scope := [OrganizationScope ("org_" +:+ repeated 26 "0")].

Definition sample_auth_codec : AuthCodec := {|
  actor_to_json := λ a, Some (match a with UserActor i => "u:" +:+ i | ServiceAccountActor i => "v:" +:+ i | SystemActor i => "y:" +:+ i end);
  actor_from_json := λ s,
    match strip_prefix "u:" s, strip_prefix "v:" s, strip_prefix "y:" s with
    | Some i, _, _ => Some (UserActor i)
    | _, Some i, _ => Some (ServiceAccountActor i)
    | _, _, Some i => Some (SystemActor i)
    | _, _, _ => None
    end;
  scope_to_json := λ s, Some (match s with OrganizationScope o => o | _ => "" end);
  scopes_to_json := λ l, if bool_decide (l = sample_scopes) then Some "[1]" else None;
  scopes_from_json := λ s, if bool_decide (s = "[1]"%string) then Some sample_scopes else None;
  sha256 := λ s, take 32 ((byte_val <$> bytes s) ++ replicate 32 0);
  base64 := λ raw, string_of_list_ascii (byte_of <$> raw);
  from_unix_timestamp := λ _, Some (2026, 1, 2, 3, 4, 5)
|}.

(** A hash is the password behind a prefix. *)
Definition sample_passwords : Passwords := {|
  to_lowercase := id;
  argon2_hash := λ p _, Some ("$argon2id$v=19$m$s$" +:+ p);
  argon2_verify := λ p h, bool_decide (h = "$argon2id$v=19$m$s$" +:+ p)
|}.

(** A session lasts a minute, and the server may be initialised for ten seconds. *)
Definition sample_config : AuthSessionConfig := {| bootstrap_window := 10 * nanos_per_second; session_ttl := 60 * nanos_per_second; local_open := false |}.

Definition sample_open (now : Z) : auth_op :=
  Reopen {| open_clock := Some now; local_clock := None; local_secret := None; local_random := None; local_salt := None; local_stored := true |}
    sample_config ["proof"%string] sample_scopes.

Definition sample_issue (now token : Z) : IssueEnv := {| issue_clock := Some now; issue_token := Some [token]; issue_stored := true |}.

Definition sample_init (now token : Z) : InitializeEnv :=
  {| init_clock := Some now; init_random := Some (replicate 13 0); init_salt := Some [1]; init_stored := true; init_hook := None;
     init_issue := sample_issue now token |}.

Definition with_proof (p : string) : TransportCredentials := {| bearer := Some p; session_cookie := None |}.
Definition no_credentials : TransportCredentials := {| bearer := None; session_cookie := None |}.
Definition with_cookie (c : string) : TransportCredentials := {| bearer := None; session_cookie := Some c |}.

Definition sample_initialize : auth_op := Initialize (sample_init 1000 65) (with_proof "proof") "wen" "password".

(** The cookies of the tokens 65 and 66. *)
Definition cookie_a : string := "A".
Definition cookie_b : string := "B".

(** A login with the right password. *)
Definition sample_login (now token : Z) : list auth_op :=
  [LoginStart sample_orders (Some now) no_credentials "203.0.113.9" "wen" "password";
   LoginFinish sample_orders (sample_issue now token) "203.0.113.9" "wen" "password" "wen" now].

(** A login with a wrong one. *)
Definition sample_guess (client : string) (now : Z) : list auth_op :=
  [LoginStart sample_orders (Some now) no_credentials client "wen" "guess";
   LoginFinish sample_orders (sample_issue now 67) client "wen" "guess" "wen" now].

Definition served : list auth_op := [sample_open 0; sample_initialize] ++ sample_login 2000 66.

Abbreviation sample_run ops := (auth_run sample_auth_codec sample_passwords (fresh_state no_owner_tables) ops).

Example served_history :
  (sample_run served).2 =
  [Issued (session_digest sample_auth_codec cookie_a) ("usr_" +:+ repeated 26 "0") 61000;
   Issued (session_digest sample_auth_codec cookie_b) ("usr_" +:+ repeated 26 "0") 62000].
Proof. vm_compute. reflexivity. Qed.
