(* ===== verification/AuthSafety.v ===== *)
(** * Browser sessions: what the manager promises

    The theorems on [AuthSession] over every run from fresh tables: who a session belongs to and
    how long it lasts, that a revocation is final, that the server is initialised once, and that
    a lockout stands against the right password too. *)

From Stdlib Require Import Ascii String.
From stdpp Require Import sorting.
From S2P Require Import Prelude Text Numerals Ordered Transaction LoginLimiter LoginFacts LoginSafety.
From S2P Require Import Accounts AuthSession AuthFacts AuthRuns.
Local Open Scope Z_scope.

Section safety.
Context (C : AuthCodec) (P : Passwords).

Abbreviation digest := (session_digest C).

Definition after (t : OwnerTables) (ops : list auth_op) : AuthState := (auth_run C P (fresh_state t) ops).1.
Definition history (t : OwnerTables) (ops : list auth_op) : list auth_event := (auth_run C P (fresh_state t) ops).2.

Definition browser (cookie : string) : TransportCredentials := {| bearer := None; session_cookie := Some cookie |}.

(** What a lookup has read. *)
Lemma read_lookup_Ok clock cookie s s' found :
  read_lookup C clock cookie s = (s', Ok found) →
  s' = s ∧ clock = Some (found_now found) ∧
  ∃ r, auth_sessions s !! digest cookie = Some r ∧ row_revoked_at r = None ∧ found_now found < row_expires_at r ∧
    found_expires_at found = row_expires_at r ∧ subject (found_principal found) = row_subject r.
Proof.
  unfold read_lookup, unix_millis, attempt_with. intros H. inv_act. injection H as -> H. inv_result. split_bools.
  match goal with H : (_ ≫= _) = Some _ |- _ => apply bind_Some in H as (r & Hr & Hl) end.
  destruct (session_live _ r) eqn:E; simplify_eq. unfold session_live in E. split_bools.
  split_and!; [done|done|]. eexists. split_and!; try done. cbn. lia.
Qed.

Lemma read_renew_Ok cookie found s s' x : read_renew C cookie found s = (s', Ok x) → current_principal x = found_principal found.
Proof. unfold read_renew, with_state. intros H. inv_act. cbv zeta in H. case_match; inv_act; done. Qed.

Lemma authenticate_Ok clock cookie s s' p :
  authenticate C clock (browser cookie) s = (s', Ok p) →
  ∃ found x, read_lookup C clock cookie s = (s, Ok found) ∧ read_renew C cookie found s = (s', Ok x) ∧ p = found_principal found.
Proof.
  unfold authenticate. intros ([] & s0 & H0 & H)%act_bind_Ok. apply attempt_Ok in H0 as [_ ->]. cbn [browser session_cookie] in H.
  unfold one_error in H. match type of H with context [let '(_, _) := ?m in _] => destruct m as [s1 [q|]] eqn:E end; [|done]. injection H as <- ->. unfold read_session in E. inv_act.
  match goal with H : read_lookup _ _ _ _ = _ |- _ => pose proof (read_lookup_Ok _ _ _ _ _ H) as [-> _] end.
  eexists _, _. split_and!; [done|done|]. by eapply read_renew_Ok.
Qed.

(** C5. A session is authentic: if a browser's cookie is accepted at some time, then a session
    with the digest of the cookie was issued by an initialisation or a login of the owner, as
    whom the request is authenticated; it was never revoked, by itself or with all sessions of
    the user, whatever reads were under way; and it was issued or used less than the life time
    of a session ago. *)
Theorem session_authentic t ops clock cookie s' p :
  authenticate C clock (browser cookie) (manager (after t ops)) = (s', Ok p) →
  ∃ now x z z', clock = Some now ∧ owner_row (accounts (manager (after t ops))) = Some x ∧ subject p = user_id x ∧
    Issued (digest cookie) (user_id x) z ∈ history t ops ∧ (Revoked (digest cookie) ∉ history t ops) ∧
    active (history t ops) (digest cookie) z' ∧ now < z'.
Proof.
  intros (found & x & Hl & _ & ->)%authenticate_Ok. destruct (reachable_inv C P t ops) as [Hr Hv _].
  apply read_lookup_Ok in Hl as (_ & Hc & r & Hd & Hrev & Hexp & _ & Hsub).
  destruct (Hr _ _ Hd) as [[z Hi] (z' & Ha & Hz') (y & Hy & Hid)].
  exists (found_now found), y, z, z'. split_and!; [done|done|congruence|by rewrite Hid| |done|lia].
  intros (r' & Hr' & Hsome)%Hv. unfold after in Hd. rewrite Hd in Hr'. simplify_eq. rewrite Hrev in Hsome. by apply is_Some_None in Hsome.
Qed.

(** ** The limiter *)

(** The calls of the limiter that an operation makes. *)
Definition limiter_calls (s : SqliteAuthSessionManager) (op : auth_op) : list limiter_op :=
  match op with
  | LoginStart o clock cred client name password =>
      match (login_checks P clock cred name password s).2 with
      | Ok started => [AdmitAttempt o client started.1 started.2]
      | Err _ => []
      end
  | LoginFinish o env client name password normalized now =>
      match (verify_credentials P name password (accounts s)).2 with
      | Err _ => [ReleaseAttempt client normalized]
      | Ok (Ok _) => [ClearPair client normalized]
      | Ok (Err _) => [RecordFailure o client normalized now]
      end
  | _ => []
  end.

Fixpoint run_calls (st : AuthState) (ops : list auth_op) : list limiter_op :=
  match ops with
  | [] => []
  | op :: ops => limiter_calls (manager st) op ++ run_calls (auth_step C P st op).1 ops
  end.

Definition restarts (op : auth_op) : Prop := match op with Reopen _ _ _ _ => True | _ => False end.

Lemma issue_limiter env user s : login_limiter (issue_for_user C env user s).1 = login_limiter s.
Proof.
  pose proof (issue_for_user_post C env user s) as H. unfold post in H. destruct (issue_for_user C env user s) as [s' [i|e]]; cbn; [|by subst].
  destruct H as (? & ? & _ & _ & _ & r & _ & _ & _ & ->). done.
Qed.

Lemma update_limiter f Q s : login_limiter (update_sessions f Q s).1 = login_limiter s.
Proof. unfold update_sessions. by destruct (forallb _ _). Qed.

Definition same_limiter (s s' : SqliteAuthSessionManager) : Prop := login_limiter s' = login_limiter s.

#[local] Instance same_limiter_refl : Reflexive same_limiter.
Proof. done. Qed.
#[local] Instance same_limiter_trans : Transitive same_limiter.
Proof. unfold same_limiter. intros s1 s2 s3 H1 H2. congruence. Qed.

Abbreviation limiter_kept m := (keeps same_limiter m).

Lemma kept_owner : limiter_kept (initialization_owner P).
Proof. intros s. unfold same_limiter, initialization_owner. case_match; [by case_match|]. by destruct (owner_id P (accounts s)). Qed.

Lemma kept_accounts {A} (m : OwnerTables → OwnerTables * result UserAccountServiceErrorKind A) : limiter_kept (on_accounts m).
Proof. intros s. unfold same_limiter, on_accounts. by destruct (m (accounts s)). Qed.

Lemma kept_record user now : limiter_kept (record_initialization user now).
Proof. intros s. unfold same_limiter, record_initialization, modify. by destruct (server_initialization s). Qed.

Ltac solve_kept :=
  walk_keeps ltac:(first
    [ intros ?; apply issue_limiter
    | intros ?; apply update_limiter
    | apply kept_owner
    | apply kept_accounts
    | apply kept_record
    | apply keeps_statement; [apply _|]
    | apply keeps_modify; done ]).

Lemma kept_initialize env cred name password : limiter_kept (initialize C P env cred name password).
Proof. unfold initialize, initialize_account, unix_millis. solve_kept. Qed.

Lemma kept_revoke clock cred : limiter_kept (revoke C clock cred).
Proof. unfold revoke, unix_millis. solve_kept. Qed.

Lemma kept_renew cookie found : limiter_kept (read_renew C cookie found).
Proof. unfold read_renew. solve_kept. Qed.

Lemma kept_revoke_actor clock a : limiter_kept (revoke_actor_sessions clock a).
Proof. unfold revoke_actor_sessions, unix_millis. solve_kept. Qed.

Lemma kept_replace clock a scopes : limiter_kept (replace_authorized_scopes C clock a scopes).
Proof. unfold replace_authorized_scopes, unix_millis. destruct scopes; [apply kept_revoke_actor|]. solve_kept. Qed.

Lemma kept_checks clock cred name password : limiter_kept (login_checks P clock cred name password).
Proof. unfold login_checks, unix_millis. solve_kept. Qed.

Lemma start_limiter o clock cred client name password s :
  login_limiter (login_start P o clock cred client name password s).1 =
  limiter_run (login_limiter s) (limiter_calls s (LoginStart o clock cred client name password)).
Proof.
  unfold login_start, limiter_calls. pose proof (kept_checks clock cred name password s) as Hk. unfold mbind, act_bind.
  destruct (login_checks P clock cred name password s) as [s1 [x|e]]; cbn in *; [|done]. unfold admit_login. rewrite <-Hk.
  by destruct (limiter_admit o (login_limiter s1) client x.1 x.2) as [l []].
Qed.

Lemma finish_limiter o env client name password normalized now s :
  login_limiter (login_finish C P o env client name password normalized now s).1 =
  limiter_run (login_limiter s) (limiter_calls s (LoginFinish o env client name password normalized now)).
Proof.
  unfold login_finish, login_verify, limiter_calls, on_accounts, mbind, act_bind.
  destruct (verify_credentials P name password (accounts s)) as [t [[x|e]|e]]; [|done..]. cbn. by rewrite issue_limiter.
Qed.

Lemma step_limiter st op :
  ¬ restarts op → login_limiter (manager (auth_step C P st op).1) = limiter_run (login_limiter (manager st)) (limiter_calls (manager st) op).
Proof.
  intros Hop. destruct op; cbn [auth_step].
  - pose proof (kept_initialize env cred name password (manager st)) as H. by destruct (initialize _ _ _ _ _ _ _).
  - apply start_limiter.
  - pose proof (finish_limiter o env client name password normalized now (manager st)) as H. by destruct (login_finish _ _ _ _ _ _ _ _ _ _).
  - pose proof (kept_revoke clock cred (manager st)) as H. by destruct (revoke _ _ _ _).
  - by repeat case_match.
  - destruct (pending st !! n) as [[cookie found]|]; [apply kept_renew|done].
  - pose proof (kept_replace clock a scopes (manager st)) as H. by destruct (replace_authorized_scopes _ _ _ _ _).
  - pose proof (kept_revoke_actor clock a (manager st)) as H. by destruct (revoke_actor_sessions _ _ _).
  - done.
  - by destruct Hop.
Qed.

Lemma run_limiter st ops :
  Forall (λ op, ¬ restarts op) ops → login_limiter (manager (auth_run C P st ops).1) = limiter_run (login_limiter (manager st)) (run_calls st ops).
Proof.
  intros Hops. revert st. induction Hops as [|op ops Hop _ IH]; intros st; [done|]. cbn [auth_run run_calls].
  unfold limiter_run. rewrite foldl_app. pose proof (step_limiter st op Hop) as Hs. destruct (auth_step C P st op) as [st1 h1]. cbn in Hs.
  specialize (IH st1). destruct (auth_run C P st1 ops) as [st2 h2]. cbn in *. rewrite IH, Hs. done.
Qed.

(** *** The limits *)

Definition limits (l : LoginRateLimiter) : Prop := limit (pairs l) = MAX_LOGIN_FAILURES ∧ limit (clients l) = MAX_CLIENT_LOGIN_FAILURES.

Lemma limiter_run_limited l ops : limits l → limits (limiter_run l ops).
Proof. intros [? ?]. destruct (limiter_run_limits l ops) as (E1 & E2 & _). split; congruence. Qed.

Lemma open_limits env cfg proofs scopes s : limits (login_limiter s) → limits (login_limiter (open C P env cfg proofs scopes s).1).
Proof.
  set (R s s' := limits (login_limiter s) → limits (login_limiter s')).
  assert (Reflexive R) by (intros ? H; exact H). assert (Transitive R) by (intros ? ? ?; unfold R; auto).
  assert (keeps R (ensure_local_owner C P env)) as Hlocal.
  { apply (keeps_weaken same_limiter); [unfold R, same_limiter; intros ? ? ->; done|].
    unfold ensure_local_owner, cache_local_principal, unix_millis. solve_kept. }
  enough (keeps R (open C P env cfg proofs scopes)) as Ho by apply Ho. unfold open, unix_millis.
  walk_keeps ltac:(first [exact Hlocal | apply keeps_modify; intros ? ?; done]).
Qed.

Lemma after_limits t ops : limits (login_limiter (manager (after t ops))).
Proof.
  unfold after. enough (∀ st, limits (login_limiter (manager st)) → limits (login_limiter (manager (auth_run C P st ops).1))) as H by (by apply H).
  induction ops as [|op ops IH]; intros st Hst; [done|]. cbn [auth_run].
  assert (limits (login_limiter (manager (auth_step C P st op).1))) as Hs.
  { destruct op; try (rewrite step_limiter by (by intros ?); by apply limiter_run_limited). by apply open_limits. }
  destruct (auth_step C P st op) as [st1 h1]. specialize (IH st1 Hs). by destruct (auth_run C P st1 ops).
Qed.

Lemma login_checks_Ok clock cred name password s s' x :
  login_checks P clock cred name password s = (s', Ok x) → normalize_username P name = Ok x.1 ∧ clock = Some x.2.
Proof. unfold login_checks, unix_millis. intros H. inv_act. inv_result. done. Qed.

(** A login of a locked pair or client fails. *)
Lemma locked_login o o' now env cred client name password normalized s :
  normalize_username P name = Ok normalized →
  table_locked (pairs (login_limiter s)) (attempt_key client normalized) now || table_locked (clients (login_limiter s)) client now = true →
  (∃ e, (login C P o o' (Some now) env cred client name password s).2 = Err e) ∧
  auth_sessions (login C P o o' (Some now) env cred client name password s).1 = auth_sessions s.
Proof.
  intros Hn Hl. unfold login, login_start. set (m := login_checks P (Some now) cred name password).
  pose proof (kept_checks (Some now) cred name password s) as Hk. unfold mbind, act_bind.
  assert (quiet s (m s).1) as Hq by (apply quiet_login_checks). fold m in Hk.
  destruct (m s) as [s1 [x|e]] eqn:E; cbn in *; [|split; [by eexists|apply Hq]].
  apply login_checks_Ok in E as [Hx Hnow]. rewrite Hn in Hx. injection Hx as Hx. injection Hnow as Hnow. subst.
  unfold admit_login, limiter_admit. rewrite Hk, Hl. split; [by eexists|apply Hq].
Qed.

(** C13. A lockout stands: while a pair of client and user is locked out, or a client is, every
    login for it fails, also with the right password, and issues no session, after any other
    calls, for any users, with the limiter's tables however full.  A lockout of the pair
    ends with its window, with a login of the pair that was admitted before and succeeds, or
    with a restart; one of the client only with the window or a restart. *)
Theorem lockout_stands t ops ops' client name normalized now :
  let s := manager (after t ops) in
  let s' := manager (auth_run C P (after t ops) ops').1 in
  let calls := run_calls (after t ops) ops' in
  normalize_username P name = Ok normalized → Forall (λ op, ¬ restarts op) ops' → Forall (call_timed (λ n, n ≤ now)) calls →
  table_locked (pairs (login_limiter s)) (attempt_key client normalized) now = true ∧ (ClearPair client normalized ∉ calls) ∨
  table_locked (clients (login_limiter s)) client now = true →
  login_rate_limited P s' client name (Some now) = true ∧
  ∀ o o' env cred password,
    (∃ e, (login C P o o' (Some now) env cred client name password s').2 = Err e) ∧
    auth_sessions (login C P o o' (Some now) env cred client name password s').1 = auth_sessions s'.
Proof.
  intros s s' calls Hn Hops Htimes Hlocked. destruct (after_limits t ops) as [E1 E2]. fold s in E1, E2.
  pose proof (lockout_stays (login_limiter s) calls client normalized now) as Hl. rewrite E1, E2 in Hl.
  specialize (Hl ltac:(done) ltac:(done) Htimes Hlocked). cbv zeta in Hl. subst calls s. rewrite <-run_limiter in Hl by done. fold s' in Hl.
  split; [|intros o o' env cred password; by eapply locked_login].
  unfold login_rate_limited, rejected. rewrite Hn, Hl. done.
Qed.

(** ** Initialisation *)

(** C23. The server is initialised at most once: an initialisation that succeeds was asked for
    with one of the proofs given at the start, within the window, when there was no owner; the
    session is that of the new owner, who stays the owner in every later state, whatever fails
    and however often the server restarts; and every later initialisation fails. *)
Theorem initialized_once t ops env cred name password s1 i ops' :
  let s := manager (after t ops) in
  initialize C P env cred name password s = (s1, Ok i) →
  let later := (auth_run C P (set_manager (after t ops) s1) ops').1 in
  (∃ proof now window, bearer cred = Some proof ∧ proof ∈ gate_proofs s ∧ init_clock env = Some now ∧
     duration_millis (bootstrap_window (config s)) = Ok window ∧ now ≤ saturating_add_i64 (opened_at_millis s) window) ∧
  owner_row (accounts s) = None ∧
  (∃ x, owner_row (accounts (manager later)) = Some x ∧ user_id x = subject (issued_principal i)) ∧
  ∀ env' cred' name' password', ∃ e, (initialize C P env' cred' name' password' (manager later)).2 = Err e.
Proof.
  intros s H later. unfold initialize in H. apply act_bind_Ok in H as (user & s2 & Hacc & Hissue).
  pose proof Hacc as (Hproof & _ & Hnone & x & Hx & Hid)%initialize_account_Ok.
  pose proof (issue_for_user_post C (init_issue env) user s2) as Hpost. unfold post in Hpost. rewrite Hissue in Hpost.
  destruct Hpost as (scopes & p & _ & _ & Hsub & r & Hrow & _ & _ & ->). rewrite (ir_principal _ _ _ _ Hrow), Hsub.
  assert (∃ y, owner_row (accounts (manager later)) = Some y ∧ user_id y = user) as (y & Hy & Hyid).
  { destruct (run_owner_kept C P (set_manager (after t ops) (set_sessions s2 (<[session_digest C (cookie_value i):=r]> (auth_sessions s2)))) ops' x Hx)
      as (y & Hy & Hxy). exists y. split; [exact Hy|]. rewrite <-Hid. apply Hxy. }
  split_and!; [done|done|by exists y|]. intros env' cred' name' password'.
  destruct (initialize C P env' cred' name' password' (manager later)) as [s3 [i'|e]] eqn:E; [|by exists e]. exfalso.
  unfold initialize in E. apply act_bind_Ok in E as (user' & s4 & (_ & _ & Hnone' & _)%initialize_account_Ok & _). congruence.
Qed.

(** ** A session can be used *)

Record auth_codec_ok : Prop := {
  ac_actor : ∀ a j, actor_to_json C a = Some j → actor_from_json C j = Some a;
  ac_scopes : ∀ l j, scopes_to_json C l = Some j → scopes_from_json C j = Some l
}.

Context (codec_ok : auth_codec_ok).

Lemma principal_new_Some a l p : principal_new a l = Some p → p = {| actor := a; authorized_scopes := l; subject := actor_id a |}.
Proof. unfold principal_new. repeat case_match; by intros [= <-]. Qed.

(** The lookup of a stored principal. *)
Lemma lookup_row s cookie r p now :
  auth_sessions s !! digest cookie = Some r → session_live now r = true → principal_new (actor p) (authorized_scopes p) = Some p →
  canonical_scopes C (authorized_scopes p) = Ok (authorized_scopes p) → row_subject r = subject p →
  actor_to_json C (actor p) = Some (row_actor_json r) → scopes_to_json C (authorized_scopes p) = Some (row_scopes_json r) →
  read_lookup C (Some now) cookie s = (s, Ok {| found_principal := p; found_expires_at := row_expires_at r; found_now := now |}).
Proof.
  intros Hr Hl Hp Hc Hs Ha Hj. unfold read_lookup, unix_millis, mbind at 1, act_bind, attempt, attempt_with. cbn [ok_or].
  rewrite Hr. cbn [mbind option_bind]. rewrite Hl. cbn [ok_or mbind result_bind]. unfold decode_json.
  rewrite (ac_actor codec_ok _ _ Ha), (ac_scopes codec_ok _ _ Hj). cbn [ok_or mbind result_bind]. rewrite Hc. cbn [map_err mbind result_bind].
  rewrite Hp. cbn [ok_or mbind result_bind]. rewrite Hs, differs_refl. done.
Qed.

(** The renewal of a live session succeeds and leaves it at least three quarters of its life. *)
Lemma renew_row s cookie r p now ttl :
  auth_sessions s !! digest cookie = Some r → session_checks (digest cookie) r = true → row_revoked_at r = None →
  duration_millis (session_ttl (config s)) = Ok ttl → 0 ≤ ttl ≤ i64_max → i64_min ≤ now + ttl ≤ i64_max →
  ∃ s2 x r2, read_renew C cookie {| found_principal := p; found_expires_at := row_expires_at r; found_now := now |} s = (s2, Ok x) ∧
    current_principal x = p ∧ now + ttl - ttl / 4 ≤ current_expires_at x ∧
    auth_sessions s2 !! digest cookie = Some r2 ∧ row_expires_at r2 = current_expires_at x ∧ row_revoked_at r2 = None.
Proof.
  intros Hr Hch Hrev Httl Hpos Hfit. assert (0 ≤ ttl / 4 < i64_max) as Hq.
  { split; [apply Z.div_pos; lia|]. apply Z.div_lt_upper_bound; unfold i64_max in *; lia. }
  assert (saturating_add_i64 now ttl = now + ttl) as Esat by (unfold saturating_add_i64; lia).
  unfold read_renew, with_state, mbind at 1, act_bind, attempt. rewrite Httl. cbv zeta. cbn [found_now found_expires_at found_principal]. rewrite Esat.
  case_match eqn:E.
  - apply Z.ltb_lt in E. unfold saturating_sub_i64, i64_min in E.
    destruct (update_sessions_run (set_expires (now + ttl)) (λ d r, bool_decide (d = digest cookie) && bool_decide (row_revoked_at r = None)) s)
      as (s2 & n & Hup).
    { intros d x Hx [->%bool_decide_eq_true _]%andb_true_iff. rewrite Hr in Hx. injection Hx as <-.
      unfold session_checks in *. cbn. split_bools. rewrite Hrev in *.
      repeat match goal with H : ?b = true |- context [?b] => rewrite H end. cbn. rewrite !andb_true_r. apply Z.ltb_lt. lia. }
    unfold mbind, act_bind. rewrite Hup. eexists s2, _, (set_expires (now + ttl) r). split; [done|]. cbn.
    apply update_sessions_spec in Hup as [_ Hl]. rewrite Hl, Hr. cbn. rewrite !bool_decide_eq_true_2 by done. cbn. split_and!; try done. lia.
  - apply Z.ltb_ge in E. unfold saturating_sub_i64, i64_min in E. eexists s, _, r. split_and!; try done. cbn. lia.
Qed.

(** An issued session can be used: a request with the cookie, at any time before the
    session expires, is authenticated as the user it was issued for, with exactly the scopes of
    the server, and the session is then good for at least three quarters of its life time. *)
Theorem issued_session_authenticates env user s s1 i now ttl :
  issue_for_user C env user s = (s1, Ok i) → now < issued_expires_at i → 0 ≤ session_ttl (config s) →
  duration_millis (session_ttl (config s)) = Ok ttl → i64_min ≤ now + ttl ≤ i64_max →
  actor (issued_principal i) = UserActor user ∧ authorized_scopes (issued_principal i) ≡ₚ session_authority s ∧
  ∃ s2 r, authenticate C (Some now) (browser (cookie_value i)) s1 = (s2, Ok (issued_principal i)) ∧
    auth_sessions s2 !! digest (cookie_value i) = Some r ∧ row_revoked_at r = None ∧ now + ttl - ttl / 4 ≤ row_expires_at r.
Proof.
  intros H Hnow Hlife Httl Hfit. pose proof (issue_for_user_post C env user s) as Hpost. unfold post in Hpost. rewrite H in Hpost.
  destruct Hpost as (scopes & p & Hscopes & Hp & _ & r & [Ei Es Ea Ej Ex Er] & Hnone & Hch & ->). subst p.
  destruct (canonical_scopes_idem C _ _ Hscopes) as [Hidem Hperm]. set (p := issued_principal i) in *.
  pose proof (principal_new_Some _ _ _ Hp) as Ep. split_and!; [by rewrite Ep|by rewrite Ep|].
  set (d := digest (cookie_value i)) in *. set (s1 := set_sessions s _).
  assert (auth_sessions s1 !! d = Some r) as Hr by (cbn; by rewrite lookup_insert_eq).
  assert (0 ≤ ttl ≤ i64_max) as Hpos.
  { unfold duration_millis in Httl. cbv zeta in Httl. case_match eqn:El; [|done]. injection Httl as <-. split; [apply Z.div_pos; lia|lia]. }
  destruct (renew_row s1 (cookie_value i) r p now ttl) as (s2 & x & r2 & Hrenew & Hxp & Hle & Hr2 & Hx2 & Hrev2); [done..|].
  exists s2, r2. split_and!; [|done|done|lia].
  unfold authenticate, browser, one_error, read_session, mbind, act_bind, attempt. cbn [bearer session_cookie].
  rewrite bool_decide_eq_false_2 by apply is_Some_None. cbn [refuse].
  rewrite (lookup_row s1 (cookie_value i) r p now); [by rewrite Hrenew, <-Hxp|done| |rewrite Ep at 1 2; exact Hp|by rewrite Ep|done..].
  unfold session_live. rewrite Er, bool_decide_eq_true_2 by done. apply Z.ltb_lt. lia.
Qed.
End safety.

(** ** The sample server *)

Definition sample_after (ops : list auth_op) : SqliteAuthSessionManager := manager (after sample_auth_codec sample_passwords no_owner_tables ops).
Definition sample_owner : string := "usr_" +:+ repeated 26 "0".
Definition sample_principal : AuthenticatedPrincipal := {| actor := UserActor sample_owner; authorized_scopes := sample_scopes; subject := sample_owner |}.

Lemma sample_auth_codec_ok : auth_codec_ok sample_auth_codec.
Proof.
  split.
  - intros a j [= <-]. by destruct a.
  - cbn. intros l j. destruct (bool_decide_reflect (l = sample_scopes)) as [->|]; by intros [= <-].
Qed.

(** The second session is used, and the first one revoked. *)
Definition used_and_revoked : list auth_op :=
  served ++ [LookupSession (Some 30000) cookie_b; RevokeSession (Some 31000) (with_cookie cookie_a); RenewSession 0].

Lemma sample_authenticates :
  authenticate sample_auth_codec (Some 80000) (browser cookie_b) (sample_after used_and_revoked) =
  ((authenticate sample_auth_codec (Some 80000) (browser cookie_b) (sample_after used_and_revoked)).1, Ok sample_principal).
Proof.
  enough ((authenticate sample_auth_codec (Some 80000) (browser cookie_b) (sample_after used_and_revoked)).2 = Ok sample_principal) as <-
    by apply surjective_pairing.
  vm_compute. reflexivity.
Qed.

Lemma session_authentic_witness :
  ∃ x, owner_row (accounts (sample_after used_and_revoked)) = Some x ∧ user_id x = sample_owner.
Proof.
  destruct (session_authentic sample_auth_codec sample_passwords no_owner_tables used_and_revoked (Some 80000) cookie_b _ _ sample_authenticates)
    as (now & x & z & z' & _ & Hx & Hs & _).
  exists x. exact (conj Hx (eq_sym Hs)).
Defined.

(** Five guesses lock the pair out; then come guesses from another client. *)
Definition sample_guesses : list auth_op :=
  served ++ sample_guess "198.51.100.4" 3000 ++ sample_guess "198.51.100.4" 3100 ++ sample_guess "198.51.100.4" 3200 ++
  sample_guess "198.51.100.4" 3300 ++ sample_guess "198.51.100.4" 3400.
Definition other_guesses : list auth_op := sample_guess "192.0.2.1" 4000 ++ sample_guess "192.0.2.1" 4100.

Lemma lockout_stands_witness :
  login_rate_limited sample_passwords
    (manager (auth_run sample_auth_codec sample_passwords (after sample_auth_codec sample_passwords no_owner_tables sample_guesses) other_guesses).1)
    "198.51.100.4" "wen" (Some 5000) = true.
Proof.
  apply (lockout_stands sample_auth_codec sample_passwords no_owner_tables sample_guesses other_guesses "198.51.100.4" "wen" "wen" 5000).
  - vm_compute. reflexivity.
  - repeat constructor; intros [].
  - set (l := run_calls _ _ _ _). assert (l = concat ((λ now, [AdmitAttempt sample_orders "192.0.2.1" "wen" now;
      RecordFailure sample_orders "192.0.2.1" "wen" now]) <$> [4000; 4100])) as -> by (vm_compute; reflexivity).
    repeat constructor; cbn; lia.
  - left. split; [vm_compute; reflexivity|]. set (l := run_calls _ _ _ _).
    assert (l = concat ((λ now, [AdmitAttempt sample_orders "192.0.2.1" "wen" now;
      RecordFailure sample_orders "192.0.2.1" "wen" now]) <$> [4000; 4100])) as -> by (vm_compute; reflexivity).
    cbn. rewrite !elem_of_cons, elem_of_nil. naive_solver.
Defined.

Lemma sample_initialized :
  ∃ i, initialize sample_auth_codec sample_passwords (sample_init 1000 65) (with_proof "proof") "wen" "password" (sample_after [sample_open 0]) =
    ((initialize sample_auth_codec sample_passwords (sample_init 1000 65) (with_proof "proof") "wen" "password" (sample_after [sample_open 0])).1, Ok i).
Proof.
  eexists. set (m := initialize _ _ _ _ _ _ _). assert (m.2 = Ok {| cookie_value := cookie_a; issued_expires_at := 61000; max_age_seconds := 60;
    issued_principal := sample_principal |}) as E by (vm_compute; reflexivity). rewrite <-E. apply surjective_pairing.
Qed.

Lemma initialized_once_witness :
  owner_row (accounts (sample_after [sample_open 0])) = None.
Proof.
  destruct sample_initialized as [i Hi].
  apply (initialized_once sample_auth_codec sample_passwords no_owner_tables [sample_open 0] _ _ _ _ _ i (sample_open 5000 :: sample_login 6000 66) Hi).
Defined.

Lemma issued_session_authenticates_witness :
  ∃ s2, authenticate sample_auth_codec (Some 50000) (browser cookie_a)
      (issue_for_user sample_auth_codec (sample_issue 2000 65) sample_owner (sample_after [sample_open 0])).1 = (s2, Ok sample_principal).
Proof.
  set (m := issue_for_user _ _ _ _).
  assert (m.2 = Ok {| cookie_value := cookie_a; issued_expires_at := 62000; max_age_seconds := 60; issued_principal := sample_principal |}) as E
    by (vm_compute; reflexivity).
  destruct (issued_session_authenticates sample_auth_codec sample_auth_codec_ok (sample_issue 2000 65) sample_owner (sample_after [sample_open 0])
    m.1 {| cookie_value := cookie_a; issued_expires_at := 62000; max_age_seconds := 60; issued_principal := sample_principal |} 50000 60000)
    as (_ & _ & s2 & r & Ha & _).
  - rewrite <-E. apply surjective_pairing.
  - reflexivity.
  - discriminate.
  - reflexivity.
  - split; discriminate.
  - exists s2. exact Ha.
Defined.

(** ** Two observations *)

(** A session that expires between the two statements of a read survives the revocation of all
    sessions of its user: the revocation passes over it because it has expired, and the read
    then renews it. *)
Definition revived : list auth_op :=
  served ++ [LookupSession (Some 61500) cookie_b; RevokeActor (Some 62500) (UserActor sample_owner); RenewSession 0].

Theorem expired_session_revived :
  (authenticate sample_auth_codec (Some 62500) (browser cookie_b) (sample_after served)).2 = Err Authentication ∧
  (authenticate sample_auth_codec (Some 63000) (browser cookie_b) (sample_after revived)).2 = Ok sample_principal.
Proof. split; vm_compute; reflexivity. Qed.

(** The principal's check of identifiers takes the letter L, which no canonical identifier has. *)
Theorem valid_id_takes_l :
  valid_id ("usr_" +:+ repeated 26 "L") "usr" = true ∧ canonical_user_id ("usr_" +:+ repeated 26 "L") = false.
Proof. split; vm_compute; reflexivity. Qed.
