(* ===== verification/Ledger.v ===== *)
(** * The occupancy ledger of the server

    Models [crates/winwincode-storage/src/client_occupancy.rs]: which user holds which
    client node, under which lease and fencing token.  The SQLite tables are maps from
    primary keys to rows, with the constraints of the schema (checks, unique columns, the
    partial unique index on active leases) checked by each statement; texts are parsed when
    a row is read, as in the source.  Error messages and failures of SQLite itself are not
    modelled. *)

From Stdlib Require Import Ascii String.
From S2P Require Import Prelude Text Transaction.
Local Open Scope Z_scope.

(** ** Data *)

Definition MAX_ID_BYTES : Z := 96.

Inductive OccupancyLeaseState : Type :=
| Reserving
| Occupied
| Draining
| RecoveryPending
| Released
| Expired.

#[global] Instance OccupancyLeaseState_eq_dec : EqDecision OccupancyLeaseState.
Proof. solve_decision. Defined.

Inductive OccupancyReleaseReason : Type :=
| AckTimeout
| ClientRejected
| ClaimWithdrawn
| HolderReleased
| DrainCompleted
| ForceReleased.

#[global] Instance OccupancyReleaseReason_eq_dec : EqDecision OccupancyReleaseReason.
Proof. solve_decision. Defined.

Inductive OccupancyReconcileTarget : Type :=
| ResumeOccupied
| ResumeDraining.

#[global] Instance OccupancyReconcileTarget_eq_dec : EqDecision OccupancyReconcileTarget.
Proof. solve_decision. Defined.

Inductive OccupancyStoreErrorKind : Type :=
| InvalidInput
| UnknownClientNode
| UnknownOccupancyLease
| AccessDenied
| PresenceNotOnline
| ClientLocked
| NotAcceptingConnections
| CapacityExhausted
| ActiveLeaseConflict
| OccupancyLeaseConflict
| FencingTokenMismatch
| FencingTokenExhausted
| IllegalStateTransition
| RevisionConflict
| CorruptState
| Storage.

#[global] Instance OccupancyStoreErrorKind_eq_dec : EqDecision OccupancyStoreErrorKind.
Proof. solve_decision. Defined.

Record OccupancyClaim : Type := {
  cl_occupancy_lease_id : string;
  cl_client_node_id : string;
  cl_holder_user_id : string;
  cl_claim_request_id : string
}.

Record OccupancyLeaseRecord : Type := {
  occupancy_lease_id : string;
  client_node_id : string;
  holder_user_id : string;
  fencing_token : Z;
  claim_request_id : string;
  state : OccupancyLeaseState;
  acknowledged_at : option string;
  claimed_at : option string;
  last_renewed_at : option string;
  idle_expires_at : option string;
  recovery_deadline_at : option string;
  release_reason : option OccupancyReleaseReason;
  created_at : string;
  revision : Z
}.

#[global] Instance OccupancyLeaseRecord_eq_dec : EqDecision OccupancyLeaseRecord.
Proof. solve_decision. Defined.

(** A row of [client_occupancy_leases], without its primary key. *)
Record LeaseRow : Type := {
  row_client_node_id : string;
  row_holder_user_id : string;
  row_fencing_token : Z;
  row_claim_request_id : string;
  row_state : string;
  row_acknowledged_at : option string;
  row_claimed_at : option string;
  row_last_renewed_at : option string;
  row_idle_expires_at : option string;
  row_recovery_deadline_at : option string;
  row_release_reason : option string;
  row_created_at : string;
  row_revision : Z
}.

(** The columns of [client_nodes] the ledger reads. *)
Record NodeRow : Type := {
  presence_state : string;
  lock_state : string;
  accepting_connections : Z;
  max_concurrent_worker_sessions : Z;
  reported_running_worker_sessions : Z
}.

(** The database: the ledger's three tables, and the two it reads.  [grants] holds the
    permissions of the active grant of a node and user, which is unique by an index. *)
Record Ledger : Type := {
  leases : gmap string LeaseRow;
  last_issued_token : option Z;
  recovery : gmap string (bool * string);
  nodes : gmap string NodeRow;
  grants : gmap (string * string) string
}.

Abbreviation checked A := (result OccupancyStoreErrorKind A).
Abbreviation ledger_tx := (tx Ledger OccupancyStoreErrorKind).

(** ** Texts of states and reasons *)

Definition state_as_str (s : OccupancyLeaseState) : string :=
  match s with
  | Reserving => "reserving"
  | Occupied => "occupied"
  | Draining => "draining"
  | RecoveryPending => "recovery_pending"
  | Released => "released"
  | Expired => "expired"
  end.

Definition parse_state (value : string) : checked OccupancyLeaseState :=
  if bool_decide (value = "reserving"%string) then Ok Reserving
  else if bool_decide (value = "occupied"%string) then Ok Occupied
  else if bool_decide (value = "draining"%string) then Ok Draining
  else if bool_decide (value = "recovery_pending"%string) then Ok RecoveryPending
  else if bool_decide (value = "released"%string) then Ok Released
  else if bool_decide (value = "expired"%string) then Ok Expired
  else Err CorruptState.

Definition is_active (s : OccupancyLeaseState) : bool :=
  match s with Reserving | Occupied | Draining | RecoveryPending => true | _ => false end.

Definition reason_as_str (r : OccupancyReleaseReason) : string :=
  match r with
  | AckTimeout => "ack_timeout"
  | ClientRejected => "client_rejected"
  | ClaimWithdrawn => "claim_withdrawn"
  | HolderReleased => "holder_released"
  | DrainCompleted => "drain_completed"
  | ForceReleased => "force_released"
  end.

Definition parse_reason (value : string) : checked OccupancyReleaseReason :=
  if bool_decide (value = "ack_timeout"%string) then Ok AckTimeout
  else if bool_decide (value = "client_rejected"%string) then Ok ClientRejected
  else if bool_decide (value = "claim_withdrawn"%string) then Ok ClaimWithdrawn
  else if bool_decide (value = "holder_released"%string) then Ok HolderReleased
  else if bool_decide (value = "drain_completed"%string) then Ok DrainCompleted
  else if bool_decide (value = "force_released"%string) then Ok ForceReleased
  else Err CorruptState.

(** ** Validation *)

Definition validate_crockford_id (value prefix : string) : checked () :=
  match strip_prefix prefix value with
  | None => Err InvalidInput
  | Some suffix =>
      refuse (negb (str_len suffix =? 26) || (MAX_ID_BYTES <? str_len value) ||
              negb (all_bytes base32_byte suffix)) InvalidInput
  end.

Definition validate_occupancy_lease_id (value : string) : checked () :=
  validate_crockford_id value "ocl_".

Definition validate_client_node_id (value : string) : checked () :=
  validate_crockford_id value "cnd_".

Definition validate_user_id (value : string) : checked () := validate_crockford_id value "usr_".

Definition validate_claim_request_id (value : string) : checked () :=
  validate_crockford_id value "req_".

Definition validate_instant (value : string) : checked () :=
  refuse (negb (instant_shape value)) InvalidInput.

(** [if let Some(value) = value { validate_instant(value, ..)?; }] *)
Definition validate_optional_instant (value : option string) : checked () :=
  match value with Some value => validate_instant value | None => Ok tt end.

Definition parse_stored_instant (value : string) : checked string :=
  validate_instant value ;; Ok value.

Definition validate_fencing_token (value : Z) : checked () :=
  refuse ((value =? 0) || (max_safe_integer <? value)) InvalidInput.

Definition claim_try_new (lease node holder request : string) : checked OccupancyClaim :=
  validate_occupancy_lease_id lease ;;
  validate_client_node_id node ;;
  validate_user_id holder ;;
  validate_claim_request_id request ;;
  Ok {| cl_occupancy_lease_id := lease; cl_client_node_id := node; cl_holder_user_id := holder;
        cl_claim_request_id := request |}.

Definition sql_integer (value : Z) : checked Z :=
  if value <=? i64_max then Ok value else Err InvalidInput.

Definition from_sql_integer (value : Z) : checked Z :=
  refuse (value <? 0) CorruptState ;;
  refuse (max_safe_integer <? value) CorruptState ;;
  Ok value.

Definition ensure_fencing_token (r : OccupancyLeaseRecord) (token : Z) : checked () :=
  refuse (negb (fencing_token r =? token)) FencingTokenMismatch.

Definition ensure_replay_reason (r : OccupancyLeaseRecord) (reason : OccupancyReleaseReason) :
    checked () :=
  if bool_decide (release_reason r = Some reason) then Ok tt else Err IllegalStateTransition.

(** ** Rows *)

(** [value.map(parse).transpose()] *)
Definition transpose {A B} (parse : A → checked B) (value : option A) : checked (option B) :=
  match value with Some a => Some <$> parse a | None => Ok None end.

Definition occupancy_lease_record_from_row (lease : string) (row : LeaseRow) :
    checked OccupancyLeaseRecord :=
  token ← from_sql_integer (row_fencing_token row);
  st ← parse_state (row_state row);
  acknowledged ← transpose parse_stored_instant (row_acknowledged_at row);
  claimed ← transpose parse_stored_instant (row_claimed_at row);
  renewed ← transpose parse_stored_instant (row_last_renewed_at row);
  idle ← transpose parse_stored_instant (row_idle_expires_at row);
  deadline ← transpose parse_stored_instant (row_recovery_deadline_at row);
  reason ← transpose parse_reason (row_release_reason row);
  created ← parse_stored_instant (row_created_at row);
  rev ← from_sql_integer (row_revision row);
  Ok {| occupancy_lease_id := lease; client_node_id := row_client_node_id row;
        holder_user_id := row_holder_user_id row; fencing_token := token;
        claim_request_id := row_claim_request_id row; state := st;
        acknowledged_at := acknowledged; claimed_at := claimed; last_renewed_at := renewed;
        idle_expires_at := idle; recovery_deadline_at := deadline; release_reason := reason;
        created_at := created; revision := rev |}.

(** The column checks of [client_occupancy_leases]. *)
Definition row_checks (row : LeaseRow) : bool :=
  (0 <? row_fencing_token row) && (row_fencing_token row <=? max_safe_integer) &&
  match parse_state (row_state row) with Ok _ => true | Err _ => false end &&
  match transpose parse_reason (row_release_reason row) with Ok _ => true | Err _ => false end &&
  (0 <? row_revision row) && (row_revision row <=? max_safe_integer).

(** [state IN ('reserving', 'occupied', 'draining', 'recovery_pending')] *)
Definition active_state (text : string) : bool :=
  existsb (String.eqb text)
    (state_as_str <$> [Reserving; Occupied; Draining; RecoveryPending]).

Definition active_on (node : string) (row : LeaseRow) : bool :=
  bool_decide (row_client_node_id row = node) && active_state (row_state row).

(** The primary keys of the rows that satisfy a condition. *)
Definition select (p : LeaseRow → bool) (t : gmap string LeaseRow) : list string :=
  fst <$> filter (λ kv, p kv.2 = true) (map_to_list t).

(** ** Statements *)

Definition with_leases (l : Ledger) (t : gmap string LeaseRow) : Ledger :=
  {| leases := t; last_issued_token := last_issued_token l; recovery := recovery l;
     nodes := nodes l; grants := grants l |}.

Definition with_token (l : Ledger) (token : Z) : Ledger :=
  {| leases := leases l; last_issued_token := Some token; recovery := recovery l;
     nodes := nodes l; grants := grants l |}.

Definition with_recovery (l : Ledger) (t : gmap string (bool * string)) : Ledger :=
  {| leases := leases l; last_issued_token := last_issued_token l; recovery := t;
     nodes := nodes l; grants := grants l |}.

(** The insertion of a lease, with the errors of [map_lease_insert_sql]. *)
Definition insert_lease (lease : string) (row : LeaseRow) : ledger_tx () :=
  execute (λ l,
    refuse (negb (row_checks row)) InvalidInput ;;
    refuse (bool_decide (is_Some (leases l !! lease))) OccupancyLeaseConflict ;;
    refuse (bool_decide (select (λ r, row_fencing_token r =? row_fencing_token row) (leases l) ≠ []))
      ActiveLeaseConflict ;;
    refuse (active_state (row_state row) &&
            bool_decide (select (active_on (row_client_node_id row)) (leases l) ≠ []))
      ActiveLeaseConflict ;;
    refuse (bool_decide (nodes l !! row_client_node_id row = None)) UnknownClientNode ;;
    Ok (tt, with_leases l (<[lease := row]> (leases l)))).

(** [UPDATE client_occupancy_leases SET .. WHERE occupancy_lease_id = lease AND p]: the
    number of rows changed; a violated constraint is a [Storage] error. *)
Definition update_lease (lease : string) (p : LeaseRow → bool) (set : LeaseRow → LeaseRow) :
    ledger_tx nat :=
  execute (λ l,
    match leases l !! lease with
    | Some row =>
        if p row then
          refuse (negb (row_checks (set row))) Storage ;;
          refuse (active_state (row_state (set row)) &&
                  bool_decide (select (active_on (row_client_node_id (set row)))
                                 (delete lease (leases l)) ≠ [])) Storage ;;
          Ok (1%nat, with_leases l (<[lease := set row]> (leases l)))
        else Ok (0%nat, l)
    | None => Ok (0%nat, l)
    end).

(** [if updated != 1 { return Err(cas_lost(..)); }] *)
Definition require_one (updated : nat) : checked () :=
  refuse (negb (updated =? 1)%nat) RevisionConflict.

Definition state_is (s : OccupancyLeaseState) (row : LeaseRow) : bool :=
  bool_decide (row_state row = state_as_str s).

Definition token_is (token : Z) (row : LeaseRow) : bool := row_fencing_token row =? token.

Definition load_occupancy_lease (lease : string) : ledger_tx (option OccupancyLeaseRecord) :=
  query (λ l, transpose (occupancy_lease_record_from_row lease) (leases l !! lease)).

Definition require_occupancy_lease (lease : string) : ledger_tx OccupancyLeaseRecord :=
  loaded ← load_occupancy_lease lease;
  lift (ok_or loaded UnknownOccupancyLease).

(** The assignments of the [SET] clauses. *)
Definition set_state (st : OccupancyLeaseState) (reason : option string)
    (acknowledged renewed idle deadline : option string) (row : LeaseRow) : LeaseRow :=
  {| row_client_node_id := row_client_node_id row; row_holder_user_id := row_holder_user_id row;
     row_fencing_token := row_fencing_token row; row_claim_request_id := row_claim_request_id row;
     row_state := state_as_str st; row_acknowledged_at := acknowledged;
     row_claimed_at := row_claimed_at row; row_last_renewed_at := renewed;
     row_idle_expires_at := idle; row_recovery_deadline_at := deadline;
     row_release_reason := reason; row_created_at := row_created_at row;
     row_revision := row_revision row + 1 |}.

(** [SET state = .., release_reason = .., revision = revision + 1] *)
Definition set_released (reason : OccupancyReleaseReason) (row : LeaseRow) : LeaseRow :=
  set_state Released (Some (reason_as_str reason)) (row_acknowledged_at row)
    (row_last_renewed_at row) (row_idle_expires_at row) (row_recovery_deadline_at row) row.

(** [SET state = .., revision = revision + 1] *)
Definition set_state_only (st : OccupancyLeaseState) (row : LeaseRow) : LeaseRow :=
  set_state st (row_release_reason row) (row_acknowledged_at row)
    (row_last_renewed_at row) (row_idle_expires_at row) (row_recovery_deadline_at row) row.

Definition release_lease (lease : string) (current : OccupancyLeaseState) (token : Z)
    (reason : OccupancyReleaseReason) : ledger_tx () :=
  sql_token ← lift (sql_integer token);
  updated ← update_lease lease (λ row, state_is current row && token_is sql_token row)
    (set_released reason);
  lift (require_one updated).

(** ** Fencing tokens *)

Definition current_fencing_token (l : Ledger) : checked Z :=
  match last_issued_token l with Some value => from_sql_integer value | None => Ok 0 end.

Definition mint_fencing_token : ledger_tx Z :=
  stored ← execute (λ l,
    let current := default 0 (last_issued_token l) in Ok (current, with_token l current));
  current ← lift (from_sql_integer stored);
  lift (refuse (max_safe_integer <=? current) FencingTokenExhausted) ;;
  let next := current + 1 in
  before ← lift (sql_integer current);
  after ← lift (sql_integer next);
  updated ← execute (λ l,
    if bool_decide (last_issued_token l = Some before) then Ok (1%nat, with_token l after)
    else Ok (0%nat, l));
  lift (require_one updated) ;;
  mret next.

(** ** Claims *)

Definition is_use_permission (permissions : string) : bool :=
  existsb (String.eqb permissions) ["use"; "use+manage"; "use+share"; "use+manage+share"]%string.

Definition ensure_claim_gate (c : OccupancyClaim) : ledger_tx () :=
  query (λ l,
    node ← ok_or (nodes l !! cl_client_node_id c) UnknownClientNode;
    refuse (bool_decide (lock_state node = "locked"%string)) ClientLocked ;;
    refuse (bool_decide (presence_state node ≠ "online"%string)) PresenceNotOnline ;;
    refuse (negb (accepting_connections node =? 1)) NotAcceptingConnections ;;
    max_slots ← from_sql_integer (max_concurrent_worker_sessions node);
    running ← from_sql_integer (reported_running_worker_sessions node);
    refuse (max_slots <? saturating_add_u64 running 1) CapacityExhausted ;;
    permissions ← ok_or (grants l !! (cl_client_node_id c, cl_holder_user_id c)) AccessDenied;
    refuse (negb (is_use_permission permissions)) CorruptState ;;
    refuse (bool_decide (select (active_on (cl_client_node_id c)) (leases l) ≠ []))
      ActiveLeaseConflict).

Definition claim_row (c : OccupancyClaim) (token : Z) (now : string) : LeaseRow :=
  {| row_client_node_id := cl_client_node_id c; row_holder_user_id := cl_holder_user_id c;
     row_fencing_token := token; row_claim_request_id := cl_claim_request_id c;
     row_state := state_as_str Reserving; row_acknowledged_at := None; row_claimed_at := Some now;
     row_last_renewed_at := None; row_idle_expires_at := None; row_recovery_deadline_at := None;
     row_release_reason := None; row_created_at := now; row_revision := 1 |}.

Definition atomic_claim (c : OccupancyClaim) (now : string) : ledger_tx OccupancyLeaseRecord :=
  lift (validate_instant now) ;;
  ensure_claim_gate c ;;
  token ← mint_fencing_token;
  sql_token ← lift (sql_integer token);
  insert_lease (cl_occupancy_lease_id c) (claim_row c sql_token now) ;;
  loaded ← load_occupancy_lease (cl_occupancy_lease_id c);
  lift (ok_or loaded CorruptState).

(** ** The life of a lease *)

Definition record_acknowledgement (lease : string) (token : Z) (idle : option string)
    (now : string) : ledger_tx OccupancyLeaseRecord :=
  lift (validate_occupancy_lease_id lease) ;;
  lift (validate_fencing_token token) ;;
  lift (validate_optional_instant idle) ;;
  lift (validate_instant now) ;;
  record ← require_occupancy_lease lease;
  if bool_decide (state record = Occupied) then
    lift (ensure_fencing_token record token) ;; mret record
  else
    lift (refuse (bool_decide (state record ≠ Reserving)) IllegalStateTransition) ;;
    lift (ensure_fencing_token record token) ;;
    sql_token ← lift (sql_integer token);
    updated ← update_lease lease (λ row, state_is Reserving row && token_is sql_token row)
      (λ row, set_state Occupied (row_release_reason row) (Some now) (Some now) idle
                (row_recovery_deadline_at row) row);
    lift (require_one updated) ;;
    require_occupancy_lease lease.

Definition ends_reserving (reason : OccupancyReleaseReason) : bool :=
  match reason with AckTimeout | ClientRejected | ClaimWithdrawn => true | _ => false end.

Definition reject_offer (lease : string) (token : Z) (reason : OccupancyReleaseReason)
    (now : string) : ledger_tx OccupancyLeaseRecord :=
  lift (validate_occupancy_lease_id lease) ;;
  lift (validate_fencing_token token) ;;
  lift (validate_instant now) ;;
  lift (refuse (negb (ends_reserving reason)) InvalidInput) ;;
  record ← require_occupancy_lease lease;
  if bool_decide (state record = Released) then
    lift (ensure_replay_reason record reason) ;;
    lift (ensure_fencing_token record token) ;;
    mret record
  else
    lift (refuse (bool_decide (state record ≠ Reserving)) IllegalStateTransition) ;;
    lift (ensure_fencing_token record token) ;;
    release_lease lease Reserving token reason ;;
    require_occupancy_lease lease.

Definition request_release (lease : string) (token active_worker_session_count : Z)
    (now : string) : ledger_tx OccupancyLeaseRecord :=
  lift (validate_occupancy_lease_id lease) ;;
  lift (validate_fencing_token token) ;;
  lift (validate_instant now) ;;
  record ← require_occupancy_lease lease;
  lift (ensure_fencing_token record token) ;;
  if bool_decide (state record = Released) then
    lift (ensure_replay_reason record HolderReleased) ;; mret record
  else if bool_decide (state record = Draining) then
    lift (refuse (active_worker_session_count =? 0) IllegalStateTransition) ;; mret record
  else
    lift (refuse (bool_decide (state record ≠ Occupied)) IllegalStateTransition) ;;
    (if active_worker_session_count =? 0 then
       release_lease lease Occupied token HolderReleased
     else
       sql_token ← lift (sql_integer token);
       updated ← update_lease lease (λ row, state_is Occupied row && token_is sql_token row)
         (set_state_only Draining);
       lift (require_one updated)) ;;
    require_occupancy_lease lease.

Definition drain_complete (lease : string) : ledger_tx OccupancyLeaseRecord :=
  lift (validate_occupancy_lease_id lease) ;;
  record ← require_occupancy_lease lease;
  if bool_decide (state record = Released) then
    lift (ensure_replay_reason record DrainCompleted) ;; mret record
  else
    lift (refuse (bool_decide (state record ≠ Draining)) IllegalStateTransition) ;;
    updated ← update_lease lease (state_is Draining) (set_released DrainCompleted);
    lift (require_one updated) ;;
    require_occupancy_lease lease.

Definition mark_recovery_pending (lease deadline now : string) :
    ledger_tx OccupancyLeaseRecord :=
  lift (validate_occupancy_lease_id lease) ;;
  lift (validate_instant deadline) ;;
  lift (validate_instant now) ;;
  record ← require_occupancy_lease lease;
  if bool_decide (state record = RecoveryPending) then mret record
  else
    lift (refuse (negb (bool_decide (state record = Occupied) || bool_decide (state record = Draining)))
      IllegalStateTransition) ;;
    query (λ l,
      node ← ok_or (nodes l !! client_node_id record) UnknownClientNode;
      refuse (bool_decide (presence_state node ≠ "offline"%string)) PresenceNotOnline) ;;
    execute (λ l, Ok (tt, with_recovery l
      (<[lease := (bool_decide (state record = Draining), now)]> (recovery l)))) ;;
    updated ← update_lease lease (λ row, state_is Occupied row || state_is Draining row)
      (λ row, set_state RecoveryPending (row_release_reason row) (row_acknowledged_at row)
                (row_last_renewed_at row) (row_idle_expires_at row) (Some deadline) row);
    lift (require_one updated) ;;
    require_occupancy_lease lease.

Definition target_state (target : OccupancyReconcileTarget) : OccupancyLeaseState :=
  match target with ResumeOccupied => Occupied | ResumeDraining => Draining end.

Definition reconcile_resume (lease : string) (target : OccupancyReconcileTarget)
    (idle : option string) (now : string) : ledger_tx OccupancyLeaseRecord :=
  lift (validate_occupancy_lease_id lease) ;;
  lift (validate_optional_instant idle) ;;
  lift (validate_instant now) ;;
  lift (refuse (bool_decide (target = ResumeDraining) && bool_decide (is_Some idle)) InvalidInput) ;;
  record ← require_occupancy_lease lease;
  if bool_decide (state record = target_state target) then mret record
  else
    lift (refuse (bool_decide (state record ≠ RecoveryPending)) IllegalStateTransition) ;;
    updated ← update_lease lease (state_is RecoveryPending)
      (λ row, set_state (target_state target) (row_release_reason row) (row_acknowledged_at row)
                (Some now) idle None row);
    lift (require_one updated) ;;
    require_occupancy_lease lease.

Definition recovery_context (lease now : string) : ledger_tx (option (bool * string)) :=
  lift (validate_occupancy_lease_id lease) ;;
  lift (validate_instant now) ;;
  execute (λ l,
    match recovery l !! lease, leases l !! lease with
    | None, Some row =>
        if state_is RecoveryPending row
        then Ok (tt, with_recovery l (<[lease := (true, now)]> (recovery l)))
        else Ok (tt, l)
    | _, _ => Ok (tt, l)
    end) ;;
  query (λ l, Ok (recovery l !! lease)).

Definition force_release (lease now : string) : ledger_tx OccupancyLeaseRecord :=
  lift (validate_occupancy_lease_id lease) ;;
  lift (validate_instant now) ;;
  record ← require_occupancy_lease lease;
  if bool_decide (state record = Released) then
    lift (ensure_replay_reason record ForceReleased) ;; mret record
  else
    lift (refuse (bool_decide (state record ≠ RecoveryPending)) IllegalStateTransition) ;;
    deadline ← lift (ok_or (recovery_deadline_at record) CorruptState);
    lift (refuse (str_ltb now deadline) IllegalStateTransition) ;;
    release_lease lease RecoveryPending (fencing_token record) ForceReleased ;;
    require_occupancy_lease lease.

(** The leases whose idle time is over, in the order the table is scanned. *)
Definition idle_candidate (cutoff : string) (row : LeaseRow) : bool :=
  state_is Occupied row &&
  match row_idle_expires_at row with Some idle => str_leb idle cutoff | None => false end.

Fixpoint expire_loop (active_worker_session_count : string → Z)
    (candidates : list (string * string)) (expired : list string) : ledger_tx (list string) :=
  match candidates with
  | [] => mret expired
  | (lease, node) :: candidates =>
      if 0 <? active_worker_session_count node
      then expire_loop active_worker_session_count candidates expired
      else
        updated ← update_lease lease (state_is Occupied) (set_state_only Expired);
        expire_loop active_worker_session_count candidates
          (if (updated =? 1)%nat then expired ++ [lease] else expired)
  end.

Definition expire_idle (cutoff : string) (active_worker_session_count : string → Z) :
    ledger_tx (list string) :=
  lift (validate_instant cutoff) ;;
  candidates ← query (λ l, Ok ((λ kv, (kv.1, row_client_node_id kv.2)) <$>
    filter (λ kv, idle_candidate cutoff kv.2 = true) (map_to_list (leases l))));
  expire_loop active_worker_session_count candidates [].

(** ** Queries *)

Definition snapshot (lease : string) : ledger_tx (option OccupancyLeaseRecord) :=
  lift (validate_occupancy_lease_id lease) ;; load_occupancy_lease lease.

Definition active_lease_for_node (node : string) : ledger_tx (option OccupancyLeaseRecord) :=
  lift (validate_client_node_id node) ;;
  ids ← query (λ l, Ok (select (active_on node) (leases l)));
  match ids with
  | [] => mret None
  | [lease] => load_occupancy_lease lease
  | _ => lift (Err CorruptState)
  end.
