(* ===== verification/LedgerFacts.v ===== *)
(** * Properties of the occupancy ledger

    The rows of a well-formed ledger are the encodings of lease records; on them every
    operation is a move of one lease along its life cycle, a repeat that changes nothing, or
    an error.  From this follow that a node has at most one active lease, that fencing
    tokens are issued once and in increasing order, and that a lease never leaves its final
    state. *)

From Stdlib Require Import Ascii String.
From S2P Require Import Prelude Text Transaction Ledger.
Local Open Scope Z_scope.

(** ** Operations on one lease *)

Inductive LeaseOp : Type :=
| Acknowledge (token : Z) (idle : option string) (now : string)
| RejectOffer (token : Z) (reason : OccupancyReleaseReason) (now : string)
| RequestRelease (token count : Z) (now : string)
| DrainComplete
| MarkRecoveryPending (deadline now : string)
| ReconcileResume (target : OccupancyReconcileTarget) (idle : option string) (now : string)
| ForceRelease (now : string).

Definition lease_op (lease : string) (op : LeaseOp) : ledger_tx OccupancyLeaseRecord :=
  match op with
  | Acknowledge token idle now => record_acknowledgement lease token idle now
  | RejectOffer token reason now => reject_offer lease token reason now
  | RequestRelease token count now => request_release lease token count now
  | DrainComplete => drain_complete lease
  | MarkRecoveryPending deadline now => mark_recovery_pending lease deadline now
  | ReconcileResume target idle now => reconcile_resume lease target idle now
  | ForceRelease now => force_release lease now
  end.

(** ** Records and rows *)

Definition row_of (r : OccupancyLeaseRecord) : LeaseRow :=
  {| row_client_node_id := client_node_id r; row_holder_user_id := holder_user_id r;
     row_fencing_token := fencing_token r; row_claim_request_id := claim_request_id r;
     row_state := state_as_str (state r); row_acknowledged_at := acknowledged_at r;
     row_claimed_at := claimed_at r; row_last_renewed_at := last_renewed_at r;
     row_idle_expires_at := idle_expires_at r; row_recovery_deadline_at := recovery_deadline_at r;
     row_release_reason := reason_as_str <$> release_reason r; row_created_at := created_at r;
     row_revision := revision r |}.

Definition optional_instant (o : option string) : Prop :=
  from_option (λ i, instant_shape i = true) True o.

Definition instants_ok (r : OccupancyLeaseRecord) : Prop :=
  optional_instant (acknowledged_at r) ∧ optional_instant (claimed_at r) ∧
  optional_instant (last_renewed_at r) ∧ optional_instant (idle_expires_at r) ∧
  optional_instant (recovery_deadline_at r) ∧ instant_shape (created_at r) = true.

Definition record_ok (r : OccupancyLeaseRecord) : Prop :=
  0 < fencing_token r ≤ max_safe_integer ∧ 0 < revision r ≤ max_safe_integer ∧ instants_ok r.

(** The ledger holds the lease [r]. *)
Definition has_lease (l : Ledger) (r : OccupancyLeaseRecord) : Prop :=
  leases l !! occupancy_lease_id r = Some (row_of r) ∧ record_ok r.

(** A lease with a new state, as the [SET] clauses leave it. *)
Definition bump (st : OccupancyLeaseState) (reason : option OccupancyReleaseReason)
    (acknowledged renewed idle deadline : option string) (r : OccupancyLeaseRecord) :
    OccupancyLeaseRecord :=
  {| occupancy_lease_id := occupancy_lease_id r; client_node_id := client_node_id r;
     holder_user_id := holder_user_id r; fencing_token := fencing_token r;
     claim_request_id := claim_request_id r; state := st; acknowledged_at := acknowledged;
     claimed_at := claimed_at r; last_renewed_at := renewed; idle_expires_at := idle;
     recovery_deadline_at := deadline; release_reason := reason; created_at := created_at r;
     revision := revision r + 1 |}.

Definition enter (st : OccupancyLeaseState) (r : OccupancyLeaseRecord) : OccupancyLeaseRecord :=
  bump st (release_reason r) (acknowledged_at r) (last_renewed_at r) (idle_expires_at r)
    (recovery_deadline_at r) r.

Definition release (reason : OccupancyReleaseReason) (r : OccupancyLeaseRecord) :
    OccupancyLeaseRecord :=
  bump Released (Some reason) (acknowledged_at r) (last_renewed_at r) (idle_expires_at r)
    (recovery_deadline_at r) r.

(** ** The life cycle *)

(** The moves of a lease, with what allows each of them. *)
Inductive lease_move : LeaseOp → OccupancyLeaseRecord → OccupancyLeaseRecord → Prop :=
| MoveAcknowledge token idle now r :
    state r = Reserving → fencing_token r = token →
    lease_move (Acknowledge token idle now) r
      (bump Occupied (release_reason r) (Some now) (Some now) idle (recovery_deadline_at r) r)
| MoveReject token reason now r :
    state r = Reserving → fencing_token r = token →
    lease_move (RejectOffer token reason now) r (release reason r)
| MoveRelease token now r :
    state r = Occupied → fencing_token r = token →
    lease_move (RequestRelease token 0 now) r (release HolderReleased r)
| MoveDrain token count now r :
    state r = Occupied → fencing_token r = token → count ≠ 0 →
    lease_move (RequestRelease token count now) r (enter Draining r)
| MoveDrained r :
    state r = Draining → lease_move DrainComplete r (release DrainCompleted r)
| MoveRecovery deadline now r :
    state r = Occupied ∨ state r = Draining →
    lease_move (MarkRecoveryPending deadline now) r
      (bump RecoveryPending (release_reason r) (acknowledged_at r) (last_renewed_at r)
         (idle_expires_at r) (Some deadline) r)
| MoveResume target idle now r :
    state r = RecoveryPending →
    lease_move (ReconcileResume target idle now) r
      (bump (target_state target) (release_reason r) (acknowledged_at r) (Some now) idle None r)
| MoveForce now deadline r :
    state r = RecoveryPending → recovery_deadline_at r = Some deadline →
    str_leb deadline now = true →
    lease_move (ForceRelease now) r (release ForceReleased r).

(** The lease is already where the operation would take it. *)
Definition settled (op : LeaseOp) (r : OccupancyLeaseRecord) : Prop :=
  match op with
  | Acknowledge token _ _ => state r = Occupied ∧ fencing_token r = token
  | RejectOffer token reason _ =>
      state r = Released ∧ release_reason r = Some reason ∧ fencing_token r = token
  | RequestRelease token count _ =>
      fencing_token r = token ∧
      (state r = Released ∧ release_reason r = Some HolderReleased ∨ state r = Draining ∧ count ≠ 0)
  | DrainComplete => state r = Released ∧ release_reason r = Some DrainCompleted
  | MarkRecoveryPending _ _ => state r = RecoveryPending
  | ReconcileResume target _ _ => state r = target_state target
  | ForceRelease _ => state r = Released ∧ release_reason r = Some ForceReleased
  end.

(** The arguments an operation accepts. *)
Definition op_valid (lease : string) (op : LeaseOp) : Prop :=
  validate_occupancy_lease_id lease = Ok tt ∧
  match op with
  | Acknowledge token idle now =>
      validate_fencing_token token = Ok tt ∧ optional_instant idle ∧ instant_shape now = true
  | RejectOffer token reason now =>
      validate_fencing_token token = Ok tt ∧ instant_shape now = true ∧ ends_reserving reason = true
  | RequestRelease token _ now => validate_fencing_token token = Ok tt ∧ instant_shape now = true
  | DrainComplete => True
  | MarkRecoveryPending deadline now => instant_shape deadline = true ∧ instant_shape now = true
  | ReconcileResume target idle now =>
      optional_instant idle ∧ instant_shape now = true ∧ (target = ResumeDraining → idle = None)
  | ForceRelease now => instant_shape now = true
  end.

(** What the operation asks of the lease's node: recovery starts only for a device that is
    offline. *)
Definition node_ready (l : Ledger) (op : LeaseOp) (r : OccupancyLeaseRecord) : Prop :=
  match op with
  | MarkRecoveryPending _ _ =>
      ∃ node, nodes l !! client_node_id r = Some node ∧ presence_state node = "offline"%string
  | _ => True
  end.

(** ** The invariant *)

Definition issued (l : Ledger) : Z := default 0 (last_issued_token l).

Record ledger_wf (l : Ledger) : Prop := {
  wf_rows lease row : leases l !! lease = Some row →
    ∃ r, row = row_of r ∧ lease = occupancy_lease_id r ∧ record_ok r;
  wf_counter : 0 ≤ issued l ≤ max_safe_integer;
  wf_issued r : has_lease l r → fencing_token r ≤ issued l;
  wf_tokens r1 r2 : has_lease l r1 → has_lease l r2 → fencing_token r1 = fencing_token r2 → r1 = r2;
  wf_exclusive r1 r2 : has_lease l r1 → has_lease l r2 →
    is_active (state r1) = true → is_active (state r2) = true →
    client_node_id r1 = client_node_id r2 → r1 = r2
}.

(** ** Lemmas: texts and rows *)

Lemma parse_state_str st : parse_state (state_as_str st) = Ok st.
Proof. by destruct st. Qed.

Lemma parse_reason_str reason : parse_reason (reason_as_str reason) = Ok reason.
Proof. by destruct reason. Qed.

Lemma active_state_str st : active_state (state_as_str st) = is_active st.
Proof. by destruct st. Qed.

Lemma state_as_str_inj s1 s2 : state_as_str s1 = state_as_str s2 → s1 = s2.
Proof. by destruct s1, s2. Qed.

Lemma state_is_row st r : state_is st (row_of r) = bool_decide (state r = st).
Proof.
  unfold state_is. simpl. apply bool_decide_ext. split; [apply state_as_str_inj|by intros ->].
Qed.

Lemma transpose_instant o : optional_instant o → transpose parse_stored_instant o = Ok o.
Proof.
  destruct o as [i|]; [|done]. simpl. intros H. unfold parse_stored_instant, validate_instant.
  by rewrite H.
Qed.

Lemma transpose_reason o : transpose parse_reason (reason_as_str <$> o) = Ok o.
Proof. destruct o as [x|]; [|done]. simpl. by rewrite parse_reason_str. Qed.

Lemma from_sql_integer_ok n : 0 ≤ n ≤ max_safe_integer → from_sql_integer n = Ok n.
Proof.
  intros H. unfold from_sql_integer.
  by rewrite (proj2 (Z.ltb_ge n 0)), (proj2 (Z.ltb_ge max_safe_integer n)) by lia.
Qed.

Lemma sql_integer_ok n : n ≤ max_safe_integer → sql_integer n = Ok n.
Proof.
  intros H. unfold sql_integer. rewrite (proj2 (Z.leb_le _ _)); [done|].
  unfold max_safe_integer, i64_max in *. lia.
Qed.

Lemma row_of_parses r :
  record_ok r → occupancy_lease_record_from_row (occupancy_lease_id r) (row_of r) = Ok r.
Proof.
  intros (Ht & Hr & H1 & H2 & H3 & H4 & H5 & H6). unfold occupancy_lease_record_from_row. simpl.
  rewrite (from_sql_integer_ok (fencing_token r)) by lia. simpl.
  rewrite parse_state_str. simpl. rewrite !transpose_instant by done. simpl.
  rewrite transpose_reason. simpl. unfold parse_stored_instant, validate_instant. rewrite H6. simpl.
  rewrite from_sql_integer_ok by lia. simpl. by destruct r.
Qed.

Lemma row_of_checks r :
  0 < fencing_token r ≤ max_safe_integer → 0 < revision r → 
  row_checks (row_of r) = bool_decide (revision r ≤ max_safe_integer).
Proof.
  intros [H1 H2] H3. unfold row_checks. simpl.
  rewrite parse_state_str, transpose_reason, (proj2 (Z.ltb_lt 0 _)), (proj2 (Z.leb_le _ _)),
    (proj2 (Z.ltb_lt 0 _)) by lia. simpl.
  destruct (Z.leb_spec (revision r) max_safe_integer); [by rewrite bool_decide_true|].
  rewrite bool_decide_false; [done|lia].
Qed.

Lemma row_of_inj r1 r2 :
  occupancy_lease_id r1 = occupancy_lease_id r2 → row_of r1 = row_of r2 → r1 = r2.
Proof.
  intros Hid [=]. destruct r1, r2. simpl in *. simplify_eq. f_equal.
  - by apply state_as_str_inj.
  - destruct release_reason as [[]|], release_reason0 as [[]|]; simpl in *; congruence.
Qed.

Lemma select_nil p t : select p t = [] ↔ ∀ k row, t !! k = Some row → p row = false.
Proof.
  unfold select. split.
  - intros Hnil%fmap_nil_inv k row Hk. apply not_true_iff_false. intros Hp.
    assert ((k, row) ∈ filter (λ kv, p kv.2 = true) (map_to_list t)) as Hin.
    { apply list_elem_of_filter. split; [done|]. by apply elem_of_map_to_list. }
    rewrite Hnil in Hin. by apply not_elem_of_nil in Hin.
  - intros Hall. rewrite filter_none; [done|]. apply Forall_forall. intros [k row] Hin.
    apply elem_of_map_to_list in Hin. simpl. by rewrite (Hall k row Hin).
Qed.

(** ** Lemmas: statements *)

Lemma wf_lookup l lease row :
  ledger_wf l → leases l !! lease = Some row →
  ∃ r, has_lease l r ∧ row = row_of r ∧ lease = occupancy_lease_id r.
Proof. intros Hwf H. destruct (wf_rows _ Hwf _ _ H) as (r & -> & -> & Hok). by exists r. Qed.

Lemma has_lease_inj l r1 r2 :
  has_lease l r1 → has_lease l r2 → occupancy_lease_id r1 = occupancy_lease_id r2 → r1 = r2.
Proof. intros [H1 _] [H2 _] Hid. apply row_of_inj; [done|]. rewrite Hid in H1. congruence. Qed.

Lemma load_run l r :
  has_lease l r → load_occupancy_lease (occupancy_lease_id r) l = Ok (Some r, l).
Proof.
  intros [Hr Hok]. unfold load_occupancy_lease, query. rewrite Hr. simpl.
  by rewrite row_of_parses.
Qed.

Lemma require_run l r :
  has_lease l r → require_occupancy_lease (occupancy_lease_id r) l = Ok (r, l).
Proof.
  intros Hr. unfold require_occupancy_lease. by rewrite (tx_bind_run _ _ _ _ _ (load_run l r Hr)).
Qed.

Lemma load_Ok l lease o l' :
  ledger_wf l → load_occupancy_lease lease l = Ok (o, l') →
  l' = l ∧ match o with
           | Some r => has_lease l r ∧ lease = occupancy_lease_id r
           | None => leases l !! lease = None
           end.
Proof.
  intros Hwf H. pose proof H as H'. unfold load_occupancy_lease in H'. inv_tx. split; [done|].
  destruct (leases l !! lease) as [row|] eqn:E; [|by injection H' as <-].
  destruct (wf_lookup _ _ _ Hwf E) as (r & Hr & -> & ->). rewrite load_run in H by done.
  by injection H as <-.
Qed.

Lemma require_Ok l lease r l' :
  ledger_wf l → require_occupancy_lease lease l = Ok (r, l') →
  l' = l ∧ has_lease l r ∧ lease = occupancy_lease_id r.
Proof.
  intros Hwf H. unfold require_occupancy_lease in H. inv_tx.
  match goal with Hl : load_occupancy_lease _ _ = Ok _ |- _ => apply load_Ok in Hl as [-> Ho]; [|done] end.
  destruct x as [r0|]; simplify_eq/=; done.
Qed.

Definition put (l : Ledger) (r : OccupancyLeaseRecord) : Ledger :=
  with_leases l (<[occupancy_lease_id r := row_of r]> (leases l)).

(** [r'] is [r] one revision later, in a state that is active only if [r] is. *)
Record steps_to (r r' : OccupancyLeaseRecord) : Prop := {
  st_id : occupancy_lease_id r' = occupancy_lease_id r;
  st_node : client_node_id r' = client_node_id r;
  st_holder : holder_user_id r' = holder_user_id r;
  st_token : fencing_token r' = fencing_token r;
  st_request : claim_request_id r' = claim_request_id r;
  st_created : created_at r' = created_at r;
  st_revision : revision r' = revision r + 1;
  st_active : is_active (state r) = true
}.

(** On a well-formed ledger, an update of an active lease fails only at the last
    revision. *)
Lemma update_spec l r r' p set n l' :
  ledger_wf l → has_lease l r → set (row_of r) = row_of r' → steps_to r r' →
  update_lease (occupancy_lease_id r) p set l = Ok (n, l') ↔
  (p (row_of r) = false ∧ n = 0%nat ∧ l' = l) ∨
  (p (row_of r) = true ∧ n = 1%nat ∧ l' = put l r' ∧ revision r < max_safe_integer).
Proof.
  intros Hwf [Hr Hok] Hset Hst. unfold update_lease, execute. rewrite Hr, Hset.
  destruct (p (row_of r)); [|naive_solver].
  rewrite row_of_checks; [|rewrite (st_token _ _ Hst); apply Hok|
    rewrite (st_revision _ _ Hst); destruct Hok; lia].
  assert (Hsel : select (active_on (row_client_node_id (row_of r')))
    (delete (occupancy_lease_id r) (leases l)) = []).
  { apply select_nil. intros k row [Hk Hl]%lookup_delete_Some.
    destruct (wf_lookup _ _ _ Hwf Hl) as (r0 & Hr0 & -> & ->).
    apply not_true_iff_false. unfold active_on. simpl. rewrite active_state_str. intros Ha.
    split_bools. rewrite (st_node _ _ Hst) in *. apply Hk. f_equal.
    apply (wf_exclusive _ Hwf); [by split|done|apply Hst|done|congruence]. }
  rewrite Hsel, (bool_decide_false ([] ≠ [])), andb_false_r by auto.
  unfold put. rewrite (st_id _ _ Hst), (st_revision _ _ Hst). case_bool_decide; simpl.
  - split; [intros [= <- <-]; right; split_and!; (done || lia)|].
    intros [(? & _)|(_ & -> & -> & _)]; done.
  - split; [done|]. intros [(? & _)|(_ & _ & _ & ?)]; [done|lia].
Qed.

Lemma put_wf l r r' :
  ledger_wf l → has_lease l r → steps_to r r' → record_ok r' → ledger_wf (put l r').
Proof.
  intros Hwf Hr Hst Hok.
  assert (Hhas : ∀ r0, has_lease (put l r') r0 →
    r0 = r' ∨ has_lease l r0 ∧ occupancy_lease_id r0 ≠ occupancy_lease_id r').
  { intros r0 [H0 H1]. unfold put in H0. simpl in H0.
    apply lookup_insert_Some in H0 as [[Hid Hrow]|[Hne H0]].
    - left. by apply row_of_inj.
    - right. by split. }
  pose proof Hst as []. split.
  - intros lease row H. simpl in H. apply lookup_insert_Some in H as [[<- <-]|[_ H]]; [by exists r'|].
    by apply (wf_rows _ Hwf).
  - apply Hwf.
  - intros r0 [->|[H _]]%Hhas; [rewrite st_token0|]; by apply (wf_issued _ Hwf).
  - intros r1 r2 [->|[H1 N1]]%Hhas [->|[H2 N2]]%Hhas Ht; [done| | |by apply (wf_tokens _ Hwf)].
    + rewrite (wf_tokens _ Hwf r2 r) in N2 by (done || congruence). congruence.
    + rewrite (wf_tokens _ Hwf r1 r) in N1 by (done || congruence). congruence.
  - intros r1 r2 [->|[H1 N1]]%Hhas [->|[H2 N2]]%Hhas A1 A2 Hn; [done| | |by apply (wf_exclusive _ Hwf)].
    + rewrite (wf_exclusive _ Hwf r2 r) in N2 by (done || congruence). congruence.
    + rewrite (wf_exclusive _ Hwf r1 r) in N1 by (done || congruence). congruence.
Qed.

(** ** Lemmas: one operation *)

Lemma require_bind_iff {B} l lease (f : OccupancyLeaseRecord → ledger_tx B) z :
  ledger_wf l →
  (require_occupancy_lease lease ≫= f) l = Ok z ↔
  ∃ r, has_lease l r ∧ lease = occupancy_lease_id r ∧ f r l = Ok z.
Proof.
  intros Hwf. split.
  - destruct z. intros H. apply tx_bind_Ok in H as (r & l1 & H1 & H2).
    apply require_Ok in H1 as (-> & ? & ->); [|done]. by exists r.
  - intros (r & Hr & -> & Hf). by rewrite (tx_bind_run _ _ _ _ _ (require_run l r Hr)).
Qed.

Lemma put_has_lease l r : record_ok r → has_lease (put l r) r.
Proof. intros Hok. split; [|done]. simpl. apply lookup_insert_eq. Qed.

Lemma steps_record_ok r r' :
  record_ok r → steps_to r r' → instants_ok r' → revision r < max_safe_integer → record_ok r'.
Proof.
  intros (Ht & Hr & _) Hst Hi Hlt. split; [by rewrite (st_token _ _ Hst)|].
  split; [|done]. rewrite (st_revision _ _ Hst). lia.
Qed.

(** The end of an operation: the update, the check of its count, and the read back. *)
Lemma update_then_iff l r r' p set z :
  ledger_wf l → has_lease l r → set (row_of r) = row_of r' → steps_to r r' → instants_ok r' →
  p (row_of r) = true →
  (updated ← update_lease (occupancy_lease_id r) p set;
   lift (require_one updated) ;; require_occupancy_lease (occupancy_lease_id r)) l = Ok z ↔
  z = (r', put l r') ∧ revision r < max_safe_integer.
Proof.
  intros Hwf Hr Hset Hst Hi Hp.
  assert (Hread : revision r < max_safe_integer →
    require_occupancy_lease (occupancy_lease_id r) (put l r') = Ok (r', put l r')).
  { intros Hlt. rewrite <-(st_id _ _ Hst). apply require_run, put_has_lease.
    by apply (steps_record_ok r); [apply Hr|..]. }
  destruct z as [x l']. split.
  - intros H. apply tx_bind_Ok in H as (n & l1 & Hu & H).
    apply (update_spec l r r' p set) in Hu as [(? & _)|(_ & -> & -> & Hlt)]; [congruence| |done..].
    apply lift_then_iff in H as [_ H]. rewrite Hread in H by done. by injection H as <- <-.
  - intros [[= -> ->] Hlt].
    rewrite (tx_bind_run _ _ l 1%nat (put l r')); [by apply lift_then_iff, (conj eq_refl), Hread|].
    apply (update_spec l r r' p set); [done..|]. right. done.
Qed.

Lemma release_then_iff l r current token reason z :
  ledger_wf l → has_lease l r → state r = current → is_active current = true →
  fencing_token r = token →
  (release_lease (occupancy_lease_id r) current token reason ;;
   require_occupancy_lease (occupancy_lease_id r)) l = Ok z ↔
  z = (release reason r, put l (release reason r)) ∧ revision r < max_safe_integer.
Proof.
  intros Hwf Hr <- Ha <-.
  assert (Hp : (λ row, state_is (state r) row && token_is (fencing_token r) row) (row_of r) = true).
  { simpl. rewrite state_is_row, bool_decide_true by done. unfold token_is. simpl.
    by rewrite Z.eqb_refl. }
  assert (Hst : steps_to r (release reason r)) by by split.
  rewrite <-(update_then_iff l r (release reason r) _ (set_released reason) z Hwf Hr eq_refl Hst
    (proj2 (proj2 (proj2 Hr))) Hp).
  unfold release_lease. unfold mbind at 1 2 3, tx_bind at 1 2 3.
  rewrite sql_integer_ok by apply Hr. simpl. unfold mbind, tx_bind.
  destruct (update_lease _ _ _ l) as [[n l1]|]; [|done]. by destruct (lift (require_one n) l1) as [[]|].
Qed.

Lemma validate_instant_iff i : validate_instant i = Ok tt ↔ instant_shape i = true.
Proof. unfold validate_instant. rewrite refuse_Ok. by rewrite negb_false_iff. Qed.

Lemma validate_optional_instant_iff o : validate_optional_instant o = Ok tt ↔ optional_instant o.
Proof. destruct o; simpl; [apply validate_instant_iff|done]. Qed.

Lemma ensure_token_iff r token : ensure_fencing_token r token = Ok tt ↔ fencing_token r = token.
Proof. unfold ensure_fencing_token. rewrite refuse_Ok, negb_false_iff. apply Z.eqb_eq. Qed.

Lemma ensure_reason_iff r reason :
  ensure_replay_reason r reason = Ok tt ↔ release_reason r = Some reason.
Proof. unfold ensure_replay_reason. case_bool_decide; naive_solver. Qed.

Lemma refuse_decide_iff {E} (P : Prop) `{!Decision P} (e : E) :
  refuse (bool_decide (¬ P)) e = Ok tt ↔ P.
Proof.
  rewrite refuse_Ok, bool_decide_eq_false. split; [apply dec_stable|auto].
Qed.

Lemma mret_iff {A} (a : A) (l : Ledger) z : (mret a : ledger_tx A) l = Ok z ↔ z = (a, l).
Proof. unfold mret, tx_ret. naive_solver. Qed.

(** The bookkeeping of an operation outside the lease's row. *)
Definition noted (l : Ledger) (op : LeaseOp) (r : OccupancyLeaseRecord) : Ledger :=
  match op with
  | MarkRecoveryPending _ now =>
      with_recovery l (<[occupancy_lease_id r := (bool_decide (state r = Draining), now)]>
                         (recovery l))
  | _ => l
  end.

(** What an operation answers on a lease, and the ledger it leaves. *)
Definition op_outcome (l : Ledger) (op : LeaseOp) (r : OccupancyLeaseRecord)
    (z : OccupancyLeaseRecord * Ledger) : Prop :=
  settled op r ∧ z = (r, l) ∨
  ∃ r', lease_move op r r' ∧ node_ready l op r ∧ revision r < max_safe_integer ∧
    z = (r', put (noted l op r) r').

Lemma under_lease (V V' : Prop) l lease (P Q : OccupancyLeaseRecord → Prop) :
  (V ↔ V') → (∀ r, V' → has_lease l r → lease = occupancy_lease_id r → P r ↔ Q r) →
  (V ∧ ∃ r, has_lease l r ∧ lease = occupancy_lease_id r ∧ P r) ↔
  (V' ∧ ∃ r, has_lease l r ∧ lease = occupancy_lease_id r ∧ Q r).
Proof. intros HV HP. split; intros (H & r & H1 & H2 & H3); (split; [naive_solver|]); exists r; naive_solver. Qed.

Lemma conj_group (A B C : Prop) : (A ∧ B ∧ C) ↔ ((A ∧ B) ∧ C).
Proof. tauto. Qed.

(** Splits the validation of an operation from its work on the lease. *)
Ltac open_op Hwf :=
  rewrite ?lift_then_iff, (require_bind_iff _ _ _ _ Hwf);
  repeat (etrans; [apply conj_group|]); apply under_lease.

Lemma sql_then_iff {B} n (f : Z → ledger_tx B) l z :
  n ≤ max_safe_integer → (lift (sql_integer n) ≫= f) l = Ok z ↔ f n l = Ok z.
Proof. intros Hn. rewrite lift_bind_iff, sql_integer_ok by done. naive_solver. Qed.

Lemma state_token_true st r token :
  state r = st → fencing_token r = token →
  state_is st (row_of r) && token_is token (row_of r) = true.
Proof.
  intros Hs <-. rewrite state_is_row, bool_decide_true by done. unfold token_is. apply Z.eqb_refl.
Qed.

Lemma bump_steps st reason a b c d r :
  is_active (state r) = true → steps_to r (bump st reason a b c d r).
Proof. by split. Qed.

(** An operation that is not settled and has one move [r'], allowed by [G]. *)
Lemma move_outcome (G : Prop) l op r r' (P : Prop) z :
  ¬ settled op r →
  (∀ r'', lease_move op r r'' → node_ready l op r → G ∧ r'' = r') →
  (G → lease_move op r r' ∧ node_ready l op r) →
  (G → P ↔ z = (r', put (noted l op r) r') ∧ revision r < max_safe_integer) →
  (G ∧ P) ↔ op_outcome l op r z.
Proof.
  intros Hns Huniq Hmove HP. split.
  - intros [HG H%HP]; [|done]. right. exists r'. naive_solver.
  - intros [[? _]|(r'' & Hm & Hnode & Hlt & ->)]; [done|].
    destruct (Huniq _ Hm Hnode) as [HG ->]. split; [done|]. by apply HP.
Qed.

(** A settled operation answers with the lease as it is. *)
Lemma settled_outcome l op r z :
  settled op r → (∀ r', ¬ lease_move op r r') → z = (r, l) ↔ op_outcome l op r z.
Proof. intros Hs Hno. split; [by left|]. intros [[_ ?]|(r' & Hm & _)]; [done|]. by destruct (Hno r'). Qed.

Lemma acknowledge_exact l lease token idle now z :
  ledger_wf l →
  record_acknowledgement lease token idle now l = Ok z ↔
  op_valid lease (Acknowledge token idle now) ∧
  ∃ r, has_lease l r ∧ lease = occupancy_lease_id r ∧ op_outcome l (Acknowledge token idle now) r z.
Proof.
  intros Hwf. unfold record_acknowledgement. open_op Hwf.
  { rewrite validate_instant_iff, validate_optional_instant_iff. unfold op_valid. tauto. }
  intros r (_ & Htok & Hidle & Hnow) Hr ->. case_bool_decide as Ho.
  { rewrite lift_then_iff, mret_iff, ensure_token_iff. unfold op_outcome. simpl.
    split; [naive_solver|]. intros [?|(r' & Hm & _)]; [naive_solver|]. inversion Hm. congruence. }
  rewrite !lift_then_iff, refuse_decide_iff, ensure_token_iff.
  etrans; [apply conj_group|]. eapply move_outcome.
  - naive_solver.
  - intros r'' Hm _. inversion Hm; subst. done.
  - intros [? ?]. split; [by constructor|done].
  - intros [Hs <-]. rewrite sql_then_iff by apply Hr. apply update_then_iff; try done.
    + apply bump_steps. by rewrite Hs.
    + destruct Hr as (_ & _ & _ & Hi). unfold instants_ok in *. simpl in *. naive_solver.
    + by apply state_token_true.
Qed.

Lemma reject_exact l lease token reason now z :
  ledger_wf l →
  reject_offer lease token reason now l = Ok z ↔
  op_valid lease (RejectOffer token reason now) ∧
  ∃ r, has_lease l r ∧ lease = occupancy_lease_id r ∧ op_outcome l (RejectOffer token reason now) r z.
Proof.
  intros Hwf. unfold reject_offer. open_op Hwf.
  { rewrite validate_instant_iff, refuse_Ok, negb_false_iff. unfold op_valid. tauto. }
  intros r (_ & Htok & Hnow & Hreason) Hr ->. case_bool_decide as Ho.
  { rewrite !lift_then_iff, mret_iff, ensure_token_iff, ensure_reason_iff. unfold op_outcome. simpl.
    split; [naive_solver|]. intros [?|(r' & Hm & _)]; [naive_solver|]. inversion Hm. congruence. }
  rewrite !lift_then_iff, refuse_decide_iff, ensure_token_iff.
  etrans; [apply conj_group|]. eapply move_outcome.
  - naive_solver.
  - intros r'' Hm _. inversion Hm; subst. done.
  - intros [? ?]. split; [by constructor|done].
  - intros [Hs <-]. by apply release_then_iff.
Qed.

Lemma request_release_exact l lease token count now z :
  ledger_wf l →
  request_release lease token count now l = Ok z ↔
  op_valid lease (RequestRelease token count now) ∧
  ∃ r, has_lease l r ∧ lease = occupancy_lease_id r ∧
    op_outcome l (RequestRelease token count now) r z.
Proof.
  intros Hwf. unfold request_release. open_op Hwf.
  { rewrite validate_instant_iff. unfold op_valid. tauto. }
  intros r (_ & Htok & Hnow) Hr ->. rewrite lift_then_iff, ensure_token_iff.
  case_bool_decide as Ho.
  { rewrite !lift_then_iff, mret_iff, ensure_reason_iff. unfold op_outcome. simpl.
    split; [naive_solver|].
    intros [[[? [[? ?]|[? ?]]] ?]|(r' & Hm & _)]; [by split_and!|congruence|].
    inversion Hm; congruence. }
  case_bool_decide as Hd.
  { rewrite !lift_then_iff, mret_iff, refuse_Ok, Z.eqb_neq. unfold op_outcome. simpl.
    split; [naive_solver|].
    intros [[[? [[? ?]|[? ?]]] ?]|(r' & Hm & _)]; [congruence|by split_and!|].
    inversion Hm; congruence. }
  rewrite lift_then_iff, refuse_decide_iff. etrans; [apply conj_group|].
  destruct (Z.eqb_spec count 0) as [->|Hc]; eapply move_outcome.
  - naive_solver.
  - intros r'' Hm _. inversion Hm; subst; done.
  - intros [<- ?]. split; [by constructor|done].
  - intros [<- Hs]. by apply release_then_iff.
  - naive_solver.
  - intros r'' Hm _. inversion Hm; subst; done.
  - intros [<- ?]. split; [by constructor|done].
  - intros [<- Hs]. rewrite <-(update_then_iff l r (enter Draining r)
      (λ row, state_is Occupied row && token_is (fencing_token r) row) (set_state_only Draining));
      [|done..|apply bump_steps; by rewrite Hs|apply Hr|by apply state_token_true].
    unfold mbind, tx_bind. rewrite sql_integer_ok by apply Hr. simpl.
    destruct (update_lease _ _ _ l) as [[n l1]|]; [|done]. by destruct (lift (require_one n) l1) as [[]|].
Qed.

Lemma drain_complete_exact l lease z :
  ledger_wf l →
  drain_complete lease l = Ok z ↔
  op_valid lease DrainComplete ∧
  ∃ r, has_lease l r ∧ lease = occupancy_lease_id r ∧ op_outcome l DrainComplete r z.
Proof.
  intros Hwf. unfold drain_complete. open_op Hwf; [unfold op_valid; tauto|].
  intros r _ Hr ->. case_bool_decide as Ho.
  { rewrite !lift_then_iff, mret_iff, ensure_reason_iff. unfold op_outcome. simpl.
    split; [naive_solver|]. intros [?|(r' & Hm & _)]; [naive_solver|]. inversion Hm; congruence. }
  rewrite lift_then_iff, refuse_decide_iff. eapply move_outcome.
  - naive_solver.
  - intros r'' Hm _. inversion Hm; subst; done.
  - intros ?. split; [by constructor|done].
  - intros Hs. apply update_then_iff; try done; [apply bump_steps; by rewrite Hs|apply Hr|].
    by rewrite state_is_row, bool_decide_true.
Qed.

Lemma reconcile_exact l lease target idle now z :
  ledger_wf l →
  reconcile_resume lease target idle now l = Ok z ↔
  op_valid lease (ReconcileResume target idle now) ∧
  ∃ r, has_lease l r ∧ lease = occupancy_lease_id r ∧
    op_outcome l (ReconcileResume target idle now) r z.
Proof.
  intros Hwf. unfold reconcile_resume. open_op Hwf.
  { rewrite validate_instant_iff, validate_optional_instant_iff, refuse_Ok. unfold op_valid.
    destruct target, idle; simpl; naive_solver. }
  intros r (_ & Hidle & Hnow & Ht) Hr ->. case_bool_decide as Ho.
  { rewrite mret_iff. apply settled_outcome; [done|]. intros r' Hm. inversion Hm; subst.
    by destruct target; simpl in *; congruence. }
  rewrite lift_then_iff, refuse_decide_iff. eapply move_outcome.
  - naive_solver.
  - intros r'' Hm _. inversion Hm; subst; done.
  - intros ?. split; [by constructor|done].
  - intros Hs. apply update_then_iff; try done; [apply bump_steps; by rewrite Hs| |].
    + destruct Hr as (_ & _ & _ & Hi). unfold instants_ok in *. simpl in *. naive_solver.
    + by rewrite state_is_row, bool_decide_true.
Qed.

Lemma force_release_exact l lease now z :
  ledger_wf l →
  force_release lease now l = Ok z ↔
  op_valid lease (ForceRelease now) ∧
  ∃ r, has_lease l r ∧ lease = occupancy_lease_id r ∧ op_outcome l (ForceRelease now) r z.
Proof.
  intros Hwf. unfold force_release. open_op Hwf.
  { rewrite validate_instant_iff. unfold op_valid. tauto. }
  intros r (_ & Hnow) Hr ->. case_bool_decide as Ho.
  { rewrite !lift_then_iff, mret_iff, ensure_reason_iff. unfold op_outcome. simpl.
    split; [naive_solver|]. intros [?|(r' & Hm & _)]; [naive_solver|]. inversion Hm; congruence. }
  rewrite lift_then_iff, refuse_decide_iff, lift_bind_iff.
  assert (Hdl : ∀ d, (lift (refuse (str_ltb now d) IllegalStateTransition) ;;
    release_lease (occupancy_lease_id r) RecoveryPending (fencing_token r) ForceReleased ;;
    require_occupancy_lease (occupancy_lease_id r)) l = Ok z ↔
    str_leb d now = true ∧ (release_lease (occupancy_lease_id r) RecoveryPending (fencing_token r)
      ForceReleased ;; require_occupancy_lease (occupancy_lease_id r)) l = Ok z).
  { intros d. by rewrite lift_then_iff, refuse_Ok, <-negb_true_iff. }
  setoid_rewrite Hdl. clear Hdl.
  transitivity ((state r = RecoveryPending ∧ ∃ d, recovery_deadline_at r = Some d ∧
    str_leb d now = true) ∧ (release_lease (occupancy_lease_id r) RecoveryPending (fencing_token r)
      ForceReleased ;; require_occupancy_lease (occupancy_lease_id r)) l = Ok z).
  { destruct (recovery_deadline_at r); simpl; naive_solver. }
  eapply move_outcome.
  - naive_solver.
  - intros r'' Hm _. inversion Hm; subst. naive_solver.
  - intros (? & d & ? & ?). split; [by econstructor|done].
  - intros [Hs _]. by apply release_then_iff.
Qed.

(** The invariant is about the leases and the counter only. *)
Lemma ledger_wf_ext l l' :
  leases l' = leases l → last_issued_token l' = last_issued_token l → ledger_wf l → ledger_wf l'.
Proof.
  intros Hl Ht Hwf. assert (Hh : ∀ r, has_lease l' r ↔ has_lease l r).
  { intros r. unfold has_lease. by rewrite Hl. }
  split; unfold issued; rewrite ?Ht.
  - intros lease row. rewrite Hl. apply (wf_rows _ Hwf).
  - apply (wf_counter _ Hwf).
  - intros r. rewrite Hh. apply (wf_issued _ Hwf).
  - intros r1 r2. rewrite !Hh. apply (wf_tokens _ Hwf).
  - intros r1 r2. rewrite !Hh. apply (wf_exclusive _ Hwf).
Qed.

Lemma noted_leases l op r :
  leases (noted l op r) = leases l ∧ last_issued_token (noted l op r) = last_issued_token l.
Proof. by destruct op. Qed.

Lemma noted_wf l op r : ledger_wf l → ledger_wf (noted l op r).
Proof. apply ledger_wf_ext; apply noted_leases. Qed.

Lemma mark_recovery_exact l lease deadline now z :
  ledger_wf l →
  mark_recovery_pending lease deadline now l = Ok z ↔
  op_valid lease (MarkRecoveryPending deadline now) ∧
  ∃ r, has_lease l r ∧ lease = occupancy_lease_id r ∧
    op_outcome l (MarkRecoveryPending deadline now) r z.
Proof.
  intros Hwf. unfold mark_recovery_pending. open_op Hwf.
  { rewrite !validate_instant_iff. unfold op_valid. tauto. }
  intros r (_ & Hdl & Hnow) Hr ->. case_bool_decide as Ho.
  { rewrite mret_iff. apply settled_outcome; [done|]. intros r' Hm.
    inversion Hm as [| | | | |? ? ? [?|?]| |]; congruence. }
  rewrite lift_then_iff, query_then_iff.
  etrans; [apply conj_group|]. eapply move_outcome.
  - done.
  - intros r'' Hm (node & Hn & Hp). inversion Hm as [| | | | |? ? ? Hs| |]; subst. split; [|done].
    rewrite Hn. simpl. rewrite Hp. split; [|done].
    by destruct Hs as [-> | ->].
  - rewrite refuse_Ok, negb_false_iff, orb_true_iff, !bool_decide_eq_true. intros [Hs Hn].
    split; [by constructor|]. inv_result. split_bools. eexists. by split.
  - rewrite refuse_Ok, negb_false_iff, orb_true_iff, !bool_decide_eq_true. intros [Hs _].
    assert (Hr' : has_lease (noted l (MarkRecoveryPending deadline now) r) r) by done.
    unfold execute at 1. unfold mbind at 1, tx_bind at 1.
    apply (update_then_iff (noted l (MarkRecoveryPending deadline now) r) r); try done.
    + by apply noted_wf.
    + apply bump_steps. by destruct Hs as [-> | ->].
    + destruct Hr as (_ & _ & _ & Hi). unfold instants_ok in *. simpl in *. naive_solver.
    + rewrite !state_is_row. by destruct Hs as [-> | ->].
Qed.

Lemma lease_op_Ok l lease op z :
  ledger_wf l →
  lease_op lease op l = Ok z ↔
  op_valid lease op ∧ ∃ r, has_lease l r ∧ lease = occupancy_lease_id r ∧ op_outcome l op r z.
Proof.
  intros Hwf. destruct op; simpl lease_op.
  - by apply acknowledge_exact.
  - by apply reject_exact.
  - by apply request_release_exact.
  - by apply drain_complete_exact.
  - by apply mark_recovery_exact.
  - by apply reconcile_exact.
  - by apply force_release_exact.
Qed.

Lemma lease_move_steps lease op r r' :
  op_valid lease op → lease_move op r r' → instants_ok r → steps_to r r' ∧ instants_ok r' ∧ settled op r'.
Proof.
  unfold instants_ok. intros [_ Hv] Hm Hi.
  destruct Hm; simpl in *; (split; [apply bump_steps|split; simpl; intuition auto]);
    match goal with H : state _ = _ |- _ => by rewrite H | H : _ ∨ _ |- _ => by destruct H as [-> | ->] end.
Qed.

(** ** Lemmas: tokens and claims *)

Definition claimed_record (c : OccupancyClaim) (token : Z) (now : string) : OccupancyLeaseRecord :=
  {| occupancy_lease_id := cl_occupancy_lease_id c; client_node_id := cl_client_node_id c;
     holder_user_id := cl_holder_user_id c; fencing_token := token;
     claim_request_id := cl_claim_request_id c; state := Reserving; acknowledged_at := None;
     claimed_at := Some now; last_renewed_at := None; idle_expires_at := None;
     recovery_deadline_at := None; release_reason := None; created_at := now; revision := 1 |}.

(** A claim may be made: the node is unlocked, online, accepting and has a free slot, the
    user holds a grant to use it, and no lease on it is active. *)
Definition claimable (l : Ledger) (c : OccupancyClaim) : Prop :=
  (∃ node, nodes l !! cl_client_node_id c = Some node ∧ lock_state node ≠ "locked"%string ∧
     presence_state node = "online"%string ∧ accepting_connections node = 1 ∧
     0 ≤ reported_running_worker_sessions node < max_concurrent_worker_sessions node ∧
     max_concurrent_worker_sessions node ≤ max_safe_integer) ∧
  (∃ permissions, grants l !! (cl_client_node_id c, cl_holder_user_id c) = Some permissions ∧
     is_use_permission permissions = true) ∧
  ∀ r, has_lease l r → client_node_id r = cl_client_node_id c → is_active (state r) = false.

Lemma from_sql_integer_iff n m : from_sql_integer n = Ok m ↔ m = n ∧ 0 ≤ n ≤ max_safe_integer.
Proof.
  split; [|intros [-> ?]; by apply from_sql_integer_ok].
  unfold from_sql_integer. intros H. inv_result. split; [done|].
  split; by apply Z.ltb_ge.
Qed.

Lemma active_on_row node r :
  active_on node (row_of r) = bool_decide (client_node_id r = node) && is_active (state r).
Proof. unfold active_on. simpl. by rewrite active_state_str. Qed.

(** The gate's query finds no active lease exactly when there is none. *)
Lemma select_active_nil l node :
  ledger_wf l →
  select (active_on node) (leases l) = [] ↔
  ∀ r, has_lease l r → client_node_id r = node → is_active (state r) = false.
Proof.
  intros Hwf. rewrite select_nil. split.
  - intros H r Hr Hn. specialize (H _ _ (proj1 Hr)). rewrite active_on_row in H.
    by rewrite bool_decide_true in H.
  - intros H k row Hk. destruct (wf_lookup _ _ _ Hwf Hk) as (r & Hr & -> & ->).
    rewrite active_on_row. case_bool_decide; [|done]. by apply H.
Qed.

Lemma capacity_iff running slots :
  0 ≤ running ≤ max_safe_integer →
  (slots <? saturating_add_u64 running 1) = false ↔ running < slots.
Proof.
  intros H. rewrite Z.ltb_ge. unfold saturating_add_u64, max_safe_integer, u64_max in *. lia.
Qed.

Lemma gate_run l c :
  ledger_wf l → claimable l c → ensure_claim_gate c l = Ok (tt, l).
Proof.
  intros Hwf ((node & Hn & Hl & Hp & Ha & Hrun & Hmax) & (perm & Hg & Hperm) & Hact).
  apply (select_active_nil l (cl_client_node_id c) Hwf) in Hact.
  unfold ensure_claim_gate. apply query_Ok. split; [|done]. rewrite Hn, Hg.
  cbn [ok_or mbind result_bind].
  rewrite refuse_run by (by apply bool_decide_eq_false).
  rewrite refuse_run by (apply bool_decide_eq_false; auto).
  rewrite refuse_run by (by rewrite Ha).
  rewrite !from_sql_integer_ok by lia. cbn [mbind result_bind].
  rewrite refuse_run by (apply capacity_iff; lia).
  rewrite refuse_run by (by rewrite Hperm).
  apply refuse_Ok, bool_decide_eq_false. auto.
Qed.

Lemma gate_Ok l c l' :
  ledger_wf l → ensure_claim_gate c l = Ok (tt, l') → l' = l ∧ claimable l c.
Proof.
  intros Hwf H. unfold ensure_claim_gate in H. apply query_Ok in H as [H ->]. split; [done|].
  inv_result. split_bools.
  repeat match goal with
  | H : from_sql_integer _ = Ok _ |- _ => apply from_sql_integer_iff in H as [-> ?]
  end.
  match goal with H : (_ <? saturating_add_u64 _ _) = false |- _ => apply capacity_iff in H; [|done] end.
  split_and!; [eexists; split_and!; [done|done|done|by apply Z.eqb_eq|lia|done|lia]|by eexists|].
  by apply (select_active_nil _ _ Hwf).
Qed.

Lemma mint_iff l token l' :
  ledger_wf l →
  mint_fencing_token l = Ok (token, l') ↔
  issued l < max_safe_integer ∧ token = issued l + 1 ∧ l' = with_token l (issued l + 1).
Proof.
  intros Hwf. pose proof (wf_counter _ Hwf) as Hc. unfold mint_fencing_token, execute.
  unfold mbind at 1, tx_bind at 1. fold (issued l).
  rewrite lift_bind_iff, from_sql_integer_ok by done.
  split.
  - intros (a & [= <-] & H). apply lift_then_iff in H as [Hlt%refuse_Ok%Z.leb_gt H].
    rewrite !sql_then_iff in H by lia. unfold mbind, tx_bind in H.
    rewrite bool_decide_true in H by done. by injection H as <- <-.
  - intros (Hlt & -> & ->). eexists. split; [done|]. apply lift_then_iff.
    split; [by apply refuse_Ok, Z.leb_gt|]. rewrite !sql_then_iff by lia.
    unfold mbind, tx_bind. rewrite bool_decide_true by done. done.
Qed.

Lemma claimed_record_ok c token now :
  0 < token ≤ max_safe_integer → instant_shape now = true → record_ok (claimed_record c token now).
Proof.
  intros Ht Hn. split; [done|]. split; [unfold max_safe_integer; simpl; lia|].
  unfold instants_ok. simpl. by split_and!.
Qed.

(** What a claim leaves: the counter advanced to the new lease's token. *)
Definition claimed (l : Ledger) (c : OccupancyClaim) (now : string) : Ledger :=
  put (with_token l (issued l + 1)) (claimed_record c (issued l + 1) now).

Lemma insert_claim_run l c now :
  ledger_wf l → claimable l c → leases l !! cl_occupancy_lease_id c = None →
  issued l < max_safe_integer →
  insert_lease (cl_occupancy_lease_id c) (claim_row c (issued l + 1) now)
    (with_token l (issued l + 1)) = Ok (tt, claimed l c now).
Proof.
  intros Hwf (Hnode & _ & Hact) Hid Hlt. pose proof (wf_counter _ Hwf).
  change (claim_row c (issued l + 1) now) with (row_of (claimed_record c (issued l + 1) now)).
  unfold insert_lease, execute.
  rewrite row_of_checks by (simpl; lia).
  rewrite (bool_decide_true (revision _ ≤ _)) by (unfold max_safe_integer; simpl; lia).
  rewrite (bool_decide_false (is_Some _)) by (simpl; rewrite Hid; apply is_Some_None).
  assert (Hfresh : select (λ r, row_fencing_token r =?
    row_fencing_token (row_of (claimed_record c (issued l + 1) now))) (leases l) = []).
  { apply select_nil. intros k row Hk. destruct (wf_lookup _ _ _ Hwf Hk) as (r & Hr & -> & ->).
    apply Z.eqb_neq. pose proof (wf_issued _ Hwf _ Hr). simpl. lia. }
  apply (select_active_nil l (cl_client_node_id c) Hwf) in Hact.
  simpl leases. simpl row_client_node_id. rewrite Hfresh, Hact.
  destruct Hnode as (node & Hn & _). simpl. rewrite Hn. simpl. done.
Qed.

Lemma claim_iff l c now r l' :
  ledger_wf l →
  atomic_claim c now l = Ok (r, l') ↔
  instant_shape now = true ∧ claimable l c ∧ leases l !! cl_occupancy_lease_id c = None ∧
  issued l < max_safe_integer ∧ r = claimed_record c (issued l + 1) now ∧ l' = claimed l c now.
Proof.
  intros Hwf. pose proof (wf_counter _ Hwf) as Hc. unfold atomic_claim.
  rewrite lift_then_iff, validate_instant_iff.
  assert (Hread : instant_shape now = true → issued l < max_safe_integer →
    load_occupancy_lease (cl_occupancy_lease_id c) (claimed l c now) =
      Ok (Some (claimed_record c (issued l + 1) now), claimed l c now)).
  { intros Hn Hlt. apply (load_run _ (claimed_record c (issued l + 1) now)), put_has_lease.
    apply claimed_record_ok; [lia|done]. }
  split.
  - intros [Hn H]. apply tx_bind_Ok in H as ([] & l1 & Hg & H).
    apply (gate_Ok _ _ _ Hwf) in Hg as [-> Hg]. apply tx_bind_Ok in H as (token & l1 & Hm & H).
    apply (mint_iff _ _ _ Hwf) in Hm as (Hlt & -> & ->). rewrite sql_then_iff in H by lia.
    destruct (leases l !! cl_occupancy_lease_id c) as [row|] eqn:Hid.
    { exfalso. apply tx_bind_Ok in H as ([] & l1 & Hi & _). unfold insert_lease, execute in Hi.
      simpl in Hi. rewrite Hid in Hi. inv_result. }
    rewrite (tx_bind_run _ _ _ _ _ (insert_claim_run l c now Hwf Hg Hid Hlt)) in H.
    rewrite (tx_bind_run _ _ _ _ _ (Hread Hn Hlt)) in H. apply lift_Ok in H as [[= <-] ->].
    by split_and!.
  - intros (Hn & Hg & Hid & Hlt & -> & ->). split; [done|].
    rewrite (tx_bind_run _ _ _ _ _ (gate_run l c Hwf Hg)).
    rewrite (tx_bind_run _ _ l (issued l + 1) (with_token l (issued l + 1)));
      [|by apply (mint_iff _ _ _ Hwf)].
    rewrite sql_then_iff by lia.
    rewrite (tx_bind_run _ _ _ _ _ (insert_claim_run l c now Hwf Hg Hid Hlt)).
    by rewrite (tx_bind_run _ _ _ _ _ (Hread Hn Hlt)).
Qed.

Lemma with_token_wf l : ledger_wf l → issued l < max_safe_integer → ledger_wf (with_token l (issued l + 1)).
Proof.
  intros Hwf Hlt. pose proof (wf_counter _ Hwf).
  assert (Hi : issued (with_token l (issued l + 1)) = issued l + 1) by done.
  split; rewrite ?Hi; [apply (wf_rows _ Hwf)|lia| |apply (wf_tokens _ Hwf)|apply (wf_exclusive _ Hwf)].
  intros r Hr. pose proof (wf_issued _ Hwf r Hr). lia.
Qed.

Lemma put_new_has l r r0 :
  leases l !! occupancy_lease_id r = None → record_ok r →
  has_lease (put l r) r0 ↔ r0 = r ∨ has_lease l r0.
Proof.
  intros Hid Hok. split.
  - intros [H0 H1]. simpl in H0. apply lookup_insert_Some in H0 as [[Hi Hrow]|[Hne H0]].
    + left. by apply row_of_inj.
    + right. by split.
  - intros [->|[H0 H1]]; [by apply put_has_lease|]. split; [|done]. simpl.
    rewrite lookup_insert_ne; [done|]. congruence.
Qed.

Lemma claimed_wf l c now :
  ledger_wf l → claimable l c → leases l !! cl_occupancy_lease_id c = None →
  issued l < max_safe_integer → instant_shape now = true → ledger_wf (claimed l c now).
Proof.
  intros Hwf (_ & _ & Hact) Hid Hlt Hn. pose proof (wf_counter _ Hwf).
  assert (Hok : record_ok (claimed_record c (issued l + 1) now)) by (apply claimed_record_ok; [lia|done]).
  assert (Hh : ∀ r, has_lease (claimed l c now) r ↔ r = claimed_record c (issued l + 1) now ∨ has_lease l r).
  { intros r. unfold claimed. by rewrite put_new_has. }
  assert (Hbelow : ∀ r, has_lease l r → fencing_token r ≠ issued l + 1).
  { intros r Hr. pose proof (wf_issued _ Hwf r Hr). lia. }
  assert (Hfree : ∀ r, has_lease l r → is_active (state r) = true → client_node_id r ≠ cl_client_node_id c).
  { intros r Hr Ha Hnode. by rewrite (Hact r) in Ha. }
  assert (Hi : issued (claimed l c now) = issued l + 1) by done.
  split; rewrite ?Hi.
  - intros lease row Hl. simpl in Hl. apply lookup_insert_Some in Hl as [[<- <-]|[_ Hl]].
    + by exists (claimed_record c (issued l + 1) now).
    + by apply (wf_rows _ Hwf).
  - lia.
  - intros r [->|Hr]%Hh; [done|]. pose proof (wf_issued _ Hwf r Hr). lia.
  - intros r1 r2 [->|H1]%Hh [->|H2]%Hh; [done| | |by apply (wf_tokens _ Hwf)]; simpl; intros E;
      exfalso; by eapply Hbelow.
  - intros r1 r2 [->|H1]%Hh [->|H2]%Hh A1 A2 E; [done| | |by apply (wf_exclusive _ Hwf)]; exfalso.
    + by apply (Hfree r2).
    + by apply (Hfree r1).
Qed.

(** ** Lemmas: idle expiry *)

Lemma put_other l r r0 :
  occupancy_lease_id r0 ≠ occupancy_lease_id r → has_lease (put l r) r0 ↔ has_lease l r0.
Proof. intros Hne. unfold has_lease, put. simpl. by rewrite lookup_insert_ne. Qed.

(** One update of the loop: nothing, or one occupied lease expires. *)
Lemma expire_one l lease n l' :
  ledger_wf l → update_lease lease (state_is Occupied) (set_state_only Expired) l = Ok (n, l') →
  l' = l ∨
  ∃ r, has_lease l r ∧ lease = occupancy_lease_id r ∧ state r = Occupied ∧
    record_ok (enter Expired r) ∧ l' = put l (enter Expired r).
Proof.
  intros Hwf Hu. destruct (leases l !! lease) as [row|] eqn:Hl; cycle 1.
  { left. unfold update_lease, execute in Hu. rewrite Hl in Hu. by injection Hu as _ <-. }
  destruct (wf_lookup _ _ _ Hwf Hl) as (r & Hr & -> & ->).
  destruct (decide (state r = Occupied)) as [Hs|Hs]; cycle 1.
  { left. unfold update_lease, execute in Hu.
    rewrite Hl, state_is_row, bool_decide_false in Hu by done. by injection Hu as _ <-. }
  assert (Hst : steps_to r (enter Expired r)) by (apply bump_steps; by rewrite Hs).
  apply (update_spec l r (enter Expired r)) in Hu as [(Hp & _)|(_ & _ & -> & Hlt)]; try done.
  { by rewrite state_is_row, bool_decide_true in Hp. }
  right. exists r. split_and!; try done. apply (steps_record_ok r); try done; apply Hr.
Qed.

Lemma expire_loop_spec count cands expired l out l' :
  ledger_wf l → expire_loop count cands expired l = Ok (out, l') →
  ledger_wf l' ∧ issued l' = issued l ∧
  (∀ r, has_lease l r → has_lease l' r ∨
     state r = Occupied ∧ has_lease l' (enter Expired r) ∧
     ∃ node, (occupancy_lease_id r, node) ∈ cands ∧ count node ≤ 0) ∧
  (∀ r', has_lease l' r' → ∃ r, has_lease l r ∧ occupancy_lease_id r = occupancy_lease_id r').
Proof.
  revert expired l. induction cands as [|[lease node] cands IH]; intros expired l Hwf H; simpl in H.
  { apply ret_Ok in H as [-> ->]. split_and!; try done; eauto. }
  destruct (Z.ltb_spec 0 (count node)) as [_|Hc].
  { destruct (IH _ _ Hwf H) as (H1 & H2 & H3 & H4). split_and!; try done. intros r Hr.
    destruct (H3 r Hr) as [?|(? & ? & n & ? & ?)]; [by left|]. right. split_and!; try done.
    exists n. split; [by right|done]. }
  apply tx_bind_Ok in H as (n & l1 & Hu & H).
  apply (expire_one _ _ _ _ Hwf) in Hu as [->|(r0 & Hr0 & -> & Hs & Hok & ->)].
  { destruct (IH _ _ Hwf H) as (H1 & H2 & H3 & H4). split_and!; try done. intros r Hr.
    destruct (H3 r Hr) as [?|(? & ? & m & ? & ?)]; [by left|]. right. split_and!; try done.
    exists m. split; [by right|done]. }
  assert (Hst : steps_to r0 (enter Expired r0)) by (apply bump_steps; by rewrite Hs).
  destruct (IH _ _ (put_wf _ _ _ Hwf Hr0 Hst Hok) H) as (H1 & H2 & H3 & H4). split_and!; try done.
  - intros r Hr. destruct (decide (occupancy_lease_id r = occupancy_lease_id r0)) as [He|Hne].
    + rewrite (has_lease_inj _ _ _ Hr Hr0 He) in *.
      destruct (H3 _ (put_has_lease l _ Hok)) as [?|(? & _)]; [|done].
      right. split_and!; try done. exists node. split; [by left|done].
    + destruct (H3 r) as [?|(? & ? & m & ? & ?)]; [by apply put_other|by left|].
      right. split_and!; try done. exists m. split; [by right|done].
  - intros r' Hr'. destruct (H4 r' Hr') as (r & Hr & Hid).
    destruct (decide (occupancy_lease_id r = occupancy_lease_id r0)) as [He|Hne]; [exists r0; split; congruence|].
    exists r. split; [|done]. by apply put_other in Hr.
Qed.

(** ** Runs *)

(** What may happen to the database: the ledger's operations, and changes other components
    make to the nodes and the grants. *)
Inductive LedgerOp : Type :=
| OpClaim (c : OccupancyClaim) (now : string)
| OpMint
| OpLease (lease : string) (op : LeaseOp)
| OpContext (lease now : string)
| OpExpire (cutoff : string) (active_worker_session_count : string → Z)
| SetNodes (ns : gmap string NodeRow)
| SetGrants (gs : gmap (string * string) string).

Definition ledger_step (l : Ledger) (op : LedgerOp) : Ledger :=
  match op with
  | OpClaim c now => (commit l (atomic_claim c now)).1
  | OpMint => (commit l mint_fencing_token).1
  | OpLease lease op => (commit l (lease_op lease op)).1
  | OpContext lease now => (commit l (recovery_context lease now)).1
  | OpExpire cutoff count => (commit l (expire_idle cutoff count)).1
  | SetNodes ns =>
      {| leases := leases l; last_issued_token := last_issued_token l; recovery := recovery l;
         nodes := ns; grants := grants l |}
  | SetGrants gs =>
      {| leases := leases l; last_issued_token := last_issued_token l; recovery := recovery l;
         nodes := nodes l; grants := gs |}
  end.

Definition ledger_run (l : Ledger) (ops : list LedgerOp) : Ledger := foldl ledger_step l ops.

(** How an operation changes a lease. *)
Definition lease_change (op : LedgerOp) (r r' : OccupancyLeaseRecord) : Prop :=
  match op with
  | OpLease lease o => lease = occupancy_lease_id r ∧ lease_move o r r'
  | OpExpire cutoff count =>
      state r = Occupied ∧ r' = enter Expired r ∧ count (client_node_id r) ≤ 0 ∧
      ∃ idle, idle_expires_at r = Some idle ∧ str_leb idle cutoff = true
  | _ => False
  end.

(** What a step does to the leases: each stays or changes as the operation says, and a
    lease that appears was claimed with a token not issued before. *)
Record step_ok (l : Ledger) (op : LedgerOp) (l' : Ledger) : Prop := {
  so_wf : ledger_wf l';
  so_issued : issued l ≤ issued l';
  so_kept r : has_lease l r → has_lease l' r ∨ ∃ r', has_lease l' r' ∧ steps_to r r' ∧ lease_change op r r';
  so_new r' : has_lease l' r' →
    (∃ r, has_lease l r ∧ occupancy_lease_id r = occupancy_lease_id r') ∨ issued l < fencing_token r'
}.

Lemma step_ok_same l op l' :
  ledger_wf l → leases l' = leases l → last_issued_token l' = last_issued_token l → step_ok l op l'.
Proof.
  intros Hwf Hl Ht. assert (Hh : ∀ r, has_lease l' r ↔ has_lease l r).
  { intros r. unfold has_lease. by rewrite Hl. }
  split.
  - by apply (ledger_wf_ext l).
  - unfold issued. by rewrite Ht.
  - intros r Hr. left. by apply Hh.
  - intros r' Hr'%Hh. left. by exists r'.
Qed.

Lemma step_ok_put l op r r' l' :
  ledger_wf l → has_lease l r → steps_to r r' → record_ok r' → lease_change op r r' →
  leases l' = leases (put l r') → last_issued_token l' = last_issued_token l → step_ok l op l'.
Proof.
  intros Hwf Hr Hst Hok Hch Hl Ht.
  assert (Hh : ∀ r0, has_lease l' r0 ↔ has_lease (put l r') r0).
  { intros r0. unfold has_lease. by rewrite Hl. }
  split.
  - apply (ledger_wf_ext (put l r')); [done..|]. by apply (put_wf _ r).
  - unfold issued. by rewrite Ht.
  - intros r0 Hr0. destruct (decide (occupancy_lease_id r0 = occupancy_lease_id r')) as [He|Hne].
    + right. exists r'. rewrite (st_id _ _ Hst) in He. rewrite (has_lease_inj _ _ _ Hr0 Hr He).
      split_and!; try done. by apply Hh, put_has_lease.
    + left. by apply Hh, put_other.
  - intros r0 Hr0%Hh. left. destruct (decide (occupancy_lease_id r0 = occupancy_lease_id r')) as [He|Hne].
    + exists r. split; [done|]. by rewrite He, (st_id _ _ Hst).
    + exists r0. split; [|done]. by apply put_other in Hr0.
Qed.

Lemma claim_step_ok l c now : ledger_wf l → step_ok l (OpClaim c now) (commit l (atomic_claim c now)).1.
Proof.
  intros Hwf. unfold commit. destruct (atomic_claim c now l) as [[r l']|] eqn:E; [|by apply step_ok_same].
  apply (claim_iff _ _ _ _ _ Hwf) in E as (Hn & Hc & Hid & Hlt & -> & ->). simpl.
  assert (Hok : record_ok (claimed_record c (issued l + 1) now)).
  { apply claimed_record_ok; [|done]. pose proof (wf_counter _ Hwf). lia. }
  assert (Hh : ∀ r, has_lease (claimed l c now) r ↔ r = claimed_record c (issued l + 1) now ∨ has_lease l r).
  { intros r. unfold claimed. by rewrite put_new_has. }
  split.
  - by apply claimed_wf.
  - change (issued (claimed l c now)) with (issued l + 1). lia.
  - intros r Hr. left. apply Hh. by right.
  - intros r' [->|Hr']%Hh; [right; simpl; lia|]. left. by exists r'.
Qed.

Lemma expire_step_ok l cutoff count :
  ledger_wf l → step_ok l (OpExpire cutoff count) (commit l (expire_idle cutoff count)).1.
Proof.
  intros Hwf. unfold commit. destruct (expire_idle cutoff count l) as [[out l']|] eqn:E;
    [|by apply step_ok_same]. simpl.
  unfold expire_idle in E. inv_tx. inv_result.
  match goal with H : expire_loop _ _ _ _ = _ |- _ =>
    destruct (expire_loop_spec _ _ _ _ _ _ Hwf H) as (H1 & H2 & H3 & H4) end.
  split; [done|lia| |].
  - intros r Hr. destruct (H3 r Hr) as [?|(Hs & Hr' & node & Hin & Hc)]; [by left|]. right.
    exists (enter Expired r). split; [done|]. split; [apply bump_steps; by rewrite Hs|].
    apply list_elem_of_fmap in Hin as ([k row] & [= <- ->] & Hin).
    apply list_elem_of_filter in Hin as [Hidle Hin]. apply elem_of_map_to_list in Hin.
    rewrite (proj1 Hr) in Hin. injection Hin as <-. simpl in *. unfold idle_candidate in Hidle.
    split_bools. simpl in *. split_and!; try done. destruct (idle_expires_at r); [by eexists|done].
  - intros r' Hr'. left. by apply H4.
Qed.

Lemma ledger_step_ok l op : ledger_wf l → step_ok l op (ledger_step l op).
Proof.
  intros Hwf. destruct op as [c now| |lease op|lease now|cutoff count|ns|gs]; simpl.
  - by apply claim_step_ok.
  - unfold commit. destruct (mint_fencing_token l) as [[t l']|] eqn:E; [|by apply step_ok_same].
    apply (mint_iff _ _ _ Hwf) in E as (Hlt & -> & ->). simpl.
    split; [by apply with_token_wf| |by left|left; by eexists].
    change (issued (with_token l (issued l + 1))) with (issued l + 1). lia.
  - unfold commit. destruct (lease_op lease op l) as [[r' l']|] eqn:E; [|by apply step_ok_same].
    apply (lease_op_Ok _ _ _ _ Hwf) in E as (Hv & r & Hr & Hid & [[_ [= -> ->]]|(r1 & Hm & _ & Hlt & [= -> ->])]).
    { by apply step_ok_same. }
    destruct (lease_move_steps _ _ _ _ Hv Hm (proj2 (proj2 (proj2 Hr)))) as (Hst & Hi & _).
    apply (step_ok_put l _ r r1); try done.
    + by apply (steps_record_ok r); [apply Hr|..].
    + simpl. by rewrite (proj1 (noted_leases l op r)).
    + simpl. apply (noted_leases l op r).
  - unfold commit, recovery_context. case_match eqn:E; [|by apply step_ok_same].
    case_match; subst. simpl. inv_tx. inv_result. unfold execute in *.
    repeat case_match; inv_result; by apply step_ok_same.
  - by apply expire_step_ok.
  - by apply step_ok_same.
  - by apply step_ok_same.
Qed.

Lemma ledger_run_wf l ops : ledger_wf l → ledger_wf (ledger_run l ops).
Proof.
  revert l. induction ops as [|op ops IH]; intros l Hwf; [done|]. simpl.
  apply IH. apply (so_wf _ _ _ (ledger_step_ok l op Hwf)).
Qed.

Lemma ledger_run_issued l ops : ledger_wf l → issued l ≤ issued (ledger_run l ops).
Proof.
  revert l. induction ops as [|op ops IH]; intros l Hwf; [done|]. simpl.
  pose proof (ledger_step_ok l op Hwf) as Hs. etrans; [apply Hs|]. apply IH, Hs.
Qed.

(** A lease moved along its life cycle by some operations. *)
Definition lease_reaches : relation OccupancyLeaseRecord :=
  rtc (λ r r', steps_to r r' ∧ ∃ op, lease_change op r r').

Lemma ledger_run_kept l ops r :
  ledger_wf l → has_lease l r → ∃ r', has_lease (ledger_run l ops) r' ∧ lease_reaches r r'.
Proof.
  revert l r. induction ops as [|op ops IH]; intros l r Hwf Hr; [by exists r; split; [|apply rtc_refl]|].
  simpl. pose proof (ledger_step_ok l op Hwf) as Hs.
  destruct (so_kept _ _ _ Hs r Hr) as [Hr'|(r1 & Hr1 & Hst & Hch)].
  - by apply IH; [apply Hs|].
  - destruct (IH _ r1 (so_wf _ _ _ Hs) Hr1) as (r' & Hr' & Hreach). exists r'. split; [done|].
    eapply rtc_l; [|done]. split; [done|]. by exists op.
Qed.

Lemma lease_reaches_final r r' :
  lease_reaches r r' → is_active (state r) = false → r' = r.
Proof. intros H Hf. destruct H as [|r r1 r' [Hst _] _]; [done|]. rewrite (st_active _ _ Hst) in Hf. done. Qed.

Lemma lease_reaches_identity r r' :
  lease_reaches r r' →
  occupancy_lease_id r' = occupancy_lease_id r ∧ client_node_id r' = client_node_id r ∧
  holder_user_id r' = holder_user_id r ∧ fencing_token r' = fencing_token r ∧
  (r' = r ∨ revision r < revision r').
Proof.
  induction 1 as [r|r r1 r' [Hst _] _ (-> & -> & -> & -> & Hrev)]; [by split_and!; try left|].
  destruct Hst. split_and!; try done. right. destruct Hrev as [->|]; lia.
Qed.

Lemma ledger_run_new l ops r' :
  ledger_wf l → has_lease (ledger_run l ops) r' →
  (∃ r, has_lease l r ∧ occupancy_lease_id r = occupancy_lease_id r') ∨ issued l < fencing_token r'.
Proof.
  revert l. induction ops as [|op ops IH]; intros l Hwf Hr'; [left; by exists r'|]. simpl in Hr'.
  pose proof (ledger_step_ok l op Hwf) as Hs.
  destruct (IH _ (so_wf _ _ _ Hs) Hr') as [(r1 & Hr1 & Hid)|Hlt].
  - destruct (so_new _ _ _ Hs r1 Hr1) as [(r & Hr & Hid')|Hlt]; [left; exists r; by rewrite Hid'|].
    right. destruct (ledger_run_kept _ ops r1 (so_wf _ _ _ Hs) Hr1) as (r2 & Hr2 & Hre).
    destruct (lease_reaches_identity _ _ Hre) as (Hi & _ & _ & Ht & _).
    rewrite (has_lease_inj _ _ _ Hr' Hr2); congruence.
  - right. pose proof (so_issued _ _ _ Hs). lia.
Qed.

Lemma lease_op_settled l lease op r :
  ledger_wf l → op_valid lease op → has_lease l r → lease = occupancy_lease_id r → settled op r →
  lease_op lease op l = Ok (r, l).
Proof.
  intros Hwf Hv Hr Hid Hs. apply (lease_op_Ok _ _ _ _ Hwf). split; [done|]. exists r.
  split_and!; try done. by left.
Qed.

(** The query for a node's lease finds an active lease of that node. *)
Lemma active_lease_Ok l node r l' :
  ledger_wf l → active_lease_for_node node l = Ok (Some r, l') →
  l' = l ∧ has_lease l r ∧ client_node_id r = node ∧ is_active (state r) = true.
Proof.
  intros Hwf H. unfold active_lease_for_node in H. inv_tx. inv_result.
  destruct (select (active_on node) (leases l)) as [|lease [|? ?]] eqn:Es; [by apply ret_Ok in H as [? _]| |].
  - apply load_Ok in H as [-> [Hr ->]]; [|done]. split_and!; try done;
      (assert (occupancy_lease_id r ∈ select (active_on node) (leases l)) as Hin by (rewrite Es; by left));
      unfold select in Hin; apply list_elem_of_fmap in Hin as ([k row] & Hk & Hin);
      apply list_elem_of_filter in Hin as [Ha Hin]; apply elem_of_map_to_list in Hin; simpl in *; subst k;
      rewrite (proj1 Hr) in Hin; injection Hin as <-; rewrite active_on_row in Ha; split_bools; done.
  - by apply lift_Ok in H as [? _].
Qed.

(** ** Properties *)

(** C27. Every operation on a lease refines the life cycle, exactly: with well-formed
    arguments it succeeds if and only if the lease exists and is already where the operation
    takes it (and is returned unchanged), or the life cycle has a move for it from the
    lease's state, under the lease's own fencing token where one is given, with the node
    offline for a recovery and the deadline passed for a forced release; the ledger then
    holds the moved lease and nothing else has changed.  An error changes nothing. *)
Theorem lease_op_refines l lease op l' :
  ledger_wf l →
  (∀ r', commit l (lease_op lease op) = (l', Ok r') ↔
     op_valid lease op ∧
     ∃ r, has_lease l r ∧ lease = occupancy_lease_id r ∧ op_outcome l op r (r', l')) ∧
  (∀ e, commit l (lease_op lease op) = (l', Err e) → l' = l).
Proof.
  intros Hwf. split; [intros r'; rewrite commit_Ok; by apply lease_op_Ok|].
  by intros e [_ ->]%commit_Err.
Qed.

(** Operations on a lease can be retried: an operation that succeeded, sent again
    with the same arguments, succeeds with the same lease and changes nothing. *)
Theorem lease_op_repeat l lease op l' r :
  ledger_wf l → commit l (lease_op lease op) = (l', Ok r) →
  commit l' (lease_op lease op) = (l', Ok r).
Proof.
  intros Hwf H. rewrite commit_Ok in *. pose proof (ledger_step_ok l (OpLease lease op) Hwf) as Hs.
  unfold ledger_step, commit in Hs. rewrite H in Hs. simpl in Hs.
  apply (lease_op_Ok _ _ _ _ Hwf) in H as (Hv & r0 & Hr0 & Hid & [[Hset [= -> ->]]|(r1 & Hm & _ & Hlt & [= -> ->])]).
  - by apply lease_op_settled.
  - destruct (lease_move_steps _ _ _ _ Hv Hm (proj2 (proj2 (proj2 Hr0)))) as (Hst & Hi & Hset).
    apply lease_op_settled; [apply Hs|done| |by rewrite (st_id _ _ Hst)|done].
    apply put_has_lease. by apply (steps_record_ok r0); [apply Hr0|..].
Qed.

(** C2. Occupancy is exclusive: whatever operations run, in any order, and whatever other
    components do to the nodes and grants meanwhile, at most one lease of a node is active
    and no fencing token is used by two leases or lies beyond the issued ones. *)
Theorem ledger_run_exclusive l ops r1 r2 :
  ledger_wf l → has_lease (ledger_run l ops) r1 → has_lease (ledger_run l ops) r2 →
  (is_active (state r1) = true → is_active (state r2) = true →
   client_node_id r1 = client_node_id r2 → r1 = r2) ∧
  (fencing_token r1 = fencing_token r2 → r1 = r2) ∧
  0 < fencing_token r1 ≤ issued (ledger_run l ops) ∧ issued (ledger_run l ops) ≤ max_safe_integer.
Proof.
  intros Hwf H1 H2. pose proof (ledger_run_wf l ops Hwf) as Hwf'. split_and!.
  - by apply (wf_exclusive _ Hwf').
  - by apply (wf_tokens _ Hwf').
  - apply H1.
  - by apply (wf_issued _ Hwf').
  - apply (wf_counter _ Hwf').
Qed.

(** A lease has one life: over any run it is never deleted, keeps its id, node, holder
    and fencing token, only moves along the life cycle with a growing revision, and once
    released or expired never changes again; a lease that is new has a larger token than
    every token issued before the run. *)
Theorem ledger_run_lifecycle l ops :
  ledger_wf l →
  (∀ r, has_lease l r → ∃ r', has_lease (ledger_run l ops) r' ∧ lease_reaches r r' ∧
     occupancy_lease_id r' = occupancy_lease_id r ∧ client_node_id r' = client_node_id r ∧
     holder_user_id r' = holder_user_id r ∧ fencing_token r' = fencing_token r ∧
     (r' = r ∨ revision r < revision r') ∧ (is_active (state r) = false → r' = r)) ∧
  (∀ r', has_lease (ledger_run l ops) r' → leases l !! occupancy_lease_id r' = None →
     issued l < fencing_token r').
Proof.
  intros Hwf. split.
  - intros r Hr. destruct (ledger_run_kept l ops r Hwf Hr) as (r' & Hr' & Hreach). exists r'.
    destruct (lease_reaches_identity _ _ Hreach) as (? & ? & ? & ? & ?).
    split_and!; try done. by apply lease_reaches_final.
  - intros r' Hr' Hnone. destruct (ledger_run_new l ops r' Hwf Hr') as [(r & [Hr _] & Hid)|]; [|done].
    rewrite Hid in Hr. congruence.
Qed.

(** A claim succeeds exactly when it may: the node is unlocked, online, accepting and
    has a free slot, the user may use it, no lease on it is active, the lease id is new and
    a token is left; the ledger then holds the reserving lease, under a token above every
    token issued so far, and nothing else has changed.  A refused claim changes nothing,
    and spends no token. *)
Theorem claim_exact l c now l' :
  ledger_wf l →
  (∀ r, commit l (atomic_claim c now) = (l', Ok r) ↔
     instant_shape now = true ∧ claimable l c ∧ leases l !! cl_occupancy_lease_id c = None ∧
     issued l < max_safe_integer ∧ r = claimed_record c (issued l + 1) now ∧ l' = claimed l c now) ∧
  (∀ e, commit l (atomic_claim c now) = (l', Err e) → l' = l).
Proof.
  intros Hwf. split; [intros r; rewrite commit_Ok; by apply claim_iff|].
  by intros e [_ ->]%commit_Err.
Qed.

(** ** Witnesses *)

Lemma empty_ledger_wf l : leases l = ∅ → last_issued_token l = None → ledger_wf l.
Proof.
  intros Hl Ht. assert (Hno : ∀ r, ¬ has_lease l r).
  { intros r [H _]. by rewrite Hl, lookup_empty in H. }
  split; unfold issued; rewrite ?Ht.
  - intros lease row H. by rewrite Hl, lookup_empty in H.
  - unfold max_safe_integer. simpl. lia.
  - by intros r ?%Hno.
  - by intros r1 r2 ?%Hno.
  - by intros r1 r2 ?%Hno.
Qed.

Definition sample_node_id : string := "cnd_00000000000000000000000001".
Definition sample_user_id : string := "usr_00000000000000000000000001".
Definition sample_lease_id : string := "ocl_00000000000000000000000001".
Definition sample_now : string := "2026-01-02T12:00:00.000Z".

Definition sample_claim : OccupancyClaim :=
  {| cl_occupancy_lease_id := sample_lease_id; cl_client_node_id := sample_node_id;
     cl_holder_user_id := sample_user_id; cl_claim_request_id := "req_00000000000000000000000001" |}.

Definition sample_ledger : Ledger :=
  {| leases := ∅; last_issued_token := None; recovery := ∅;
     nodes := {[ sample_node_id := {| presence_state := "online"; lock_state := "unlocked";
                 accepting_connections := 1; max_concurrent_worker_sessions := 4;
                 reported_running_worker_sessions := 0 |} ]};
     grants := {[ (sample_node_id, sample_user_id) := "use"%string ]} |}.

Definition sample_ops : list LedgerOp :=
  [OpClaim sample_claim sample_now;
   OpLease sample_lease_id (Acknowledge 1 (Some "2026-01-02T13:00:00.000Z"%string) sample_now)].

Definition sample_release : LeaseOp := RequestRelease 1 0 sample_now.

Definition occupied_lease : OccupancyLeaseRecord :=
  bump Occupied None (Some sample_now) (Some sample_now) (Some "2026-01-02T13:00:00.000Z"%string) None
    (claimed_record sample_claim 1 sample_now).

Lemma sample_run_wf ops : ledger_wf (ledger_run sample_ledger ops).
Proof. apply ledger_run_wf. by apply empty_ledger_wf. Qed.

Lemma sample_has_lease : has_lease (ledger_run sample_ledger sample_ops) occupied_lease.
Proof.
  split; [vm_compute; reflexivity|]. split; [unfold max_safe_integer; simpl; lia|].
  split; [unfold max_safe_integer; simpl; lia|]. unfold instants_ok. simpl.
  split_and!; try done; vm_compute; reflexivity.
Qed.

Lemma sample_release_Ok :
  lease_op sample_lease_id sample_release (ledger_run sample_ledger sample_ops) =
    Ok (release HolderReleased occupied_lease,
        put (ledger_run sample_ledger sample_ops) (release HolderReleased occupied_lease)).
Proof. vm_compute. reflexivity. Qed.

Lemma lease_op_refines_witness :
  op_valid sample_lease_id sample_release ∧
  commit (ledger_run sample_ledger sample_ops) (lease_op sample_lease_id (Acknowledge 2 None sample_now)) =
    (ledger_run sample_ledger sample_ops, Err FencingTokenMismatch).
Proof.
  split; [|vm_compute; reflexivity].
  refine (proj1 (proj1 (proj1 (lease_op_refines _ sample_lease_id sample_release
    (put (ledger_run sample_ledger sample_ops) (release HolderReleased occupied_lease))
    (sample_run_wf sample_ops)) (release HolderReleased occupied_lease)) _)).
  apply commit_Ok, sample_release_Ok.
Defined.

Lemma lease_op_repeat_witness :
  commit (put (ledger_run sample_ledger sample_ops) (release HolderReleased occupied_lease))
    (lease_op sample_lease_id sample_release) =
  (put (ledger_run sample_ledger sample_ops) (release HolderReleased occupied_lease),
   Ok (release HolderReleased occupied_lease)).
Proof.
  apply (lease_op_repeat (ledger_run sample_ledger sample_ops)); [apply sample_run_wf|].
  apply commit_Ok, sample_release_Ok.
Defined.

Lemma ledger_run_exclusive_witness :
  is_active (state occupied_lease) = true ∧ 0 < fencing_token occupied_lease ≤
    issued (ledger_run sample_ledger sample_ops).
Proof.
  split; [reflexivity|].
  exact (proj1 (proj2 (proj2 (ledger_run_exclusive sample_ledger sample_ops occupied_lease occupied_lease
    (sample_run_wf []) sample_has_lease sample_has_lease)))).
Defined.

Lemma ledger_run_lifecycle_witness :
  ∃ r', has_lease (ledger_run (ledger_run sample_ledger sample_ops) [OpLease sample_lease_id sample_release]) r' ∧
    lease_reaches occupied_lease r'.
Proof.
  destruct (proj1 (ledger_run_lifecycle (ledger_run sample_ledger sample_ops)
    [OpLease sample_lease_id sample_release] (sample_run_wf sample_ops)) occupied_lease sample_has_lease)
    as (r' & Hr' & Hreach & _).
  exists r'. split; [exact Hr'|exact Hreach].
Defined.

Lemma claim_exact_witness :
  claimable sample_ledger sample_claim ∧
  (commit (ledger_run sample_ledger sample_ops) (atomic_claim sample_claim sample_now)).2 =
    Err ActiveLeaseConflict.
Proof.
  split; [|vm_compute; reflexivity].
  refine (proj1 (proj2 (proj1 (proj1 (claim_exact sample_ledger sample_claim sample_now
    (claimed sample_ledger sample_claim sample_now) (sample_run_wf []))
    (claimed_record sample_claim 1 sample_now)) _))).
  vm_compute. reflexivity.
Defined.
