(* ===== verification/DeviceOutbox.v ===== *)
(** * The device store's outbox

    Models the outbox of [crates/winwincode-device-client/src/store.rs]: the table
    [client_outbox] and the [FrameOutbox] and [CompactingOutbox] implementations of
    [DeviceStore] over it, with the binding of the outbox to a node's stream and the
    adoption of a stream by an enrolled node.  The two cursors of the stream are not stored
    but computed from the rows.  The file discharges the store contract of [Outbox], so the
    exchange's theorems hold of the device's database, and shows that a restarted device
    reads back exactly the frames that were not acknowledged. *)

From Stdlib Require Import String Sorted.
From S2P Require Import Prelude Text Numerals Ordered Frame Outbox Transaction.
From S2P Require Import Fencing.
Local Open Scope Z_scope.

(** ** Data *)

(** A row of [client_outbox] without its key [outbox_sequence]: the rows are a list in the
    order of that key. *)
Record OutboxRow : Type := {
  row_message_id : string;
  row_client_node_id : string;
  row_client_instance_id : string;
  row_envelope_sequence : Z;
  row_kind : string;
  row_payload : list Byte.byte;
  row_occurred_at : string;
  row_published : bool
}.

Record OutboxStream : Type := {
  stream_client_node_id : string;
  stream_client_instance_id : string
}.

(** What the store uses of [serde_json] and [sha2]; [kind_of] is [envelope_kind]. *)
Record OutboxCodec (M : Type) : Type := {
  sha256_hex : list Byte.byte → string;
  json_message : Json M;
  json_envelope : Json (Envelope M);
  kind_of : M → store_result string
}.
Arguments sha256_hex {M} _ _.
Arguments json_message {M} _.
Arguments json_envelope {M} _.
Arguments kind_of {M} _ _.

(** The fields of [DeviceStore] the outbox uses, over the codec [c]. *)
Record OutboxTable {M : Type} (c : OutboxCodec M) : Type := {
  table_open : bool;
  rows : list OutboxRow;
  outbox_stream : option OutboxStream
}.
Arguments table_open {M c} _.
Arguments rows {M c} _.
Arguments outbox_stream {M c} _.

(** ** Queries *)

(** [MAX(..)]. *)
Fixpoint max_of (l : list Z) : option Z :=
  match l with
  | [] => None
  | x :: l => Some (match max_of l with Some m => Z.max x m | None => x end)
  end.

(** [ORDER BY envelope_sequence]. *)
Abbreviation order_by_sequence := (order_by row_envelope_sequence).

Definition stream_rows (node : string) (l : list OutboxRow) : list OutboxRow :=
  filter (λ r, row_client_node_id r = node) l.

Definition published_rows (node : string) (l : list OutboxRow) : list OutboxRow :=
  filter (λ r, row_published r = true) (stream_rows node l).

Definition pending_rows (node : string) (l : list OutboxRow) : list OutboxRow :=
  filter (λ r, row_published r = false) (stream_rows node l).

(** [stored.map(u64::try_from).transpose()]. *)
Definition to_cursor (stored : option Z) : store_result (option Z) :=
  match stored with
  | Some z => refuse (z <? 0) Adapter ;; Ok (Some z)
  | None => Ok None
  end.

Definition outbox_stream_cursor (l : list OutboxRow) (node : string) :
    store_result (option Z * option Z) :=
  acknowledgement ← to_cursor (max_of (row_envelope_sequence <$> published_rows node l));
  highest ← to_cursor (max_of (row_envelope_sequence <$> stream_rows node l));
  Ok (acknowledgement, highest).

Definition i64_prefix (sequence : Z) : store_result Z :=
  if sequence <=? i64_max then Ok sequence else Err Adapter.

(** [UPDATE client_outbox SET published = 1 WHERE client_node_id = ?1 AND
    envelope_sequence <= ?2]. *)
Definition publish_row (node : string) (through : Z) (r : OutboxRow) : OutboxRow :=
  if bool_decide (row_client_node_id r = node) && (row_envelope_sequence r <=? through) then
    {| row_message_id := row_message_id r; row_client_node_id := row_client_node_id r;
       row_client_instance_id := row_client_instance_id r;
       row_envelope_sequence := row_envelope_sequence r; row_kind := row_kind r;
       row_payload := row_payload r; row_occurred_at := row_occurred_at r;
       row_published := true |}
  else r.

(** The [INSERT], which the constraints of the table can refuse. *)
Definition insert_row (l : list OutboxRow) (r : OutboxRow) : store_result (() * list OutboxRow) :=
  refuse (existsb (λ x, bool_decide (row_message_id x = row_message_id r)) l) Conflict ;;
  refuse (row_envelope_sequence r <=? 0) Conflict ;;
  Ok (tt, l ++ [r]).

(** ** Operations *)

Section operations.
Context {M : Type} {c : OutboxCodec M}.
Implicit Types st : OutboxTable c.

Definition stream_of st : store_result OutboxStream := ok_or (outbox_stream st) InvalidInput.

Definition open_of st : store_result () := refuse (negb (table_open st)) Closed.

Definition set_rows st (l : list OutboxRow) : OutboxTable c :=
  {| table_open := table_open st; rows := l; outbox_stream := outbox_stream st |}.

(** One transaction on the rows. *)
Definition on_rows {A} st (m : tx (list OutboxRow) DeviceStoreError A) :
    OutboxTable c * store_result A :=
  let '(l, r) := commit (rows st) m in (set_rows st l, r).

Definition decode_outbox_envelope (payload : list Byte.byte) : store_result (Envelope M) :=
  envelope ← map_err (λ _, InvalidInput) (from_slice (json_envelope c) payload);
  refuse (bool_decide (schema_version envelope ≠ CLIENT_CONTROL_PORT_SCHEMA_VERSION)) InvalidInput ;;
  Ok envelope.

Definition stored_frame_from_row (node : string) (r : OutboxRow) : store_result StoredFrame :=
  envelope ← decode_outbox_envelope (row_payload r);
  refuse (bool_decide (client_node_id envelope ≠ node) ||
          bool_decide (message_id envelope ≠ row_message_id r) ||
          bool_decide (occurred_at envelope ≠ row_occurred_at r)) Adapter ;;
  refuse (row_envelope_sequence r <? 0) Adapter ;;
  refuse (negb (sequence envelope =? row_envelope_sequence r)) Adapter ;;
  kind ← kind_of c (message envelope);
  refuse (bool_decide (kind ≠ row_kind r)) Adapter ;;
  identity ← map_err (λ _, Adapter) (envelope_identity (sha256_hex c) (json_message c) envelope);
  Ok {| sf_message_id := fi_message_id identity; sf_sequence := fi_sequence identity;
        sf_payload_digest := fi_payload_digest identity; sf_frame := row_payload r |}.

Definition table_load st : OutboxTable c * store_result (option OutboxSnapshot) :=
  (st,
   stream ← stream_of st;
   open_of st ;;
   '(ack, highest) ← outbox_stream_cursor (rows st) (stream_client_node_id stream);
   match highest with
   | None => Ok None
   | Some highest =>
       frames ← mapM (stored_frame_from_row (stream_client_node_id stream))
                  (order_by_sequence (pending_rows (stream_client_node_id stream) (rows st)));
       Ok (Some {| snap_ack := default 0 ack; snap_highest := highest; snap_frames := frames |})
   end).

(** [insert_outbox_row]. *)
Definition insert_outbox_row (l : list OutboxRow) (e : Envelope M) (kind : string)
    (payload : list Byte.byte) : store_result (() * list OutboxRow) :=
  sequence ← i64_prefix (sequence e);
  insert_row l
    {| row_message_id := message_id e; row_client_node_id := client_node_id e;
       row_client_instance_id := client_instance_id e; row_envelope_sequence := sequence;
       row_kind := kind; row_payload := payload; row_occurred_at := occurred_at e;
       row_published := false |}.

(** The checks of [append] before it touches the database: the envelope of the frame, its
    kind and its encoding. *)
Definition checked_envelope (stream : OutboxStream) (f : StoredFrame) :
    store_result (Envelope M * string * list Byte.byte) :=
  envelope ← decode_outbox_envelope (sf_frame f);
  refuse (bool_decide (client_node_id envelope ≠ stream_client_node_id stream)) InvalidInput ;;
  refuse (bool_decide (client_instance_id envelope ≠ stream_client_instance_id stream)) InvalidInput ;;
  refuse (bool_decide (message_id envelope ≠ sf_message_id f) ||
          negb (sequence envelope =? sf_sequence f)) InvalidInput ;;
  identity ← map_err (λ _, InvalidInput)
               (envelope_identity (sha256_hex c) (json_message c) envelope);
  refuse (bool_decide (fi_payload_digest identity ≠ sf_payload_digest f)) InvalidInput ;;
  kind ← kind_of c (message envelope);
  payload ← map_err (λ _, InvalidInput) (to_vec (json_envelope c) envelope);
  Ok (envelope, kind, payload).

Definition table_append st (expected_highest_sequence : Z) (f : StoredFrame) :
    OutboxTable c * store_result () :=
  match (stream ← stream_of st;
         checked ← checked_envelope stream f;
         open_of st ;;
         Ok (stream, checked)) with
  | Err e => (st, Err e)
  | Ok (stream, (envelope, kind, payload)) =>
      on_rows st
        ('(_, stored_highest) ← query (λ l, outbox_stream_cursor l (stream_client_node_id stream));
         lift (refuse (negb (default 0 stored_highest =? expected_highest_sequence)) Conflict) ;;
         execute (λ l, insert_outbox_row l envelope kind payload))
  end.

Definition table_record_acknowledgement st (expected_ack_sequence ack_sequence : Z) :
    OutboxTable c * store_result () :=
  match (stream ← stream_of st; open_of st ;; Ok stream) with
  | Err e => (st, Err e)
  | Ok stream =>
      let node := stream_client_node_id stream in
      on_rows st
        ('(stored_ack, stored_highest) ← query (λ l, outbox_stream_cursor l node);
         lift (refuse (negb (default 0 stored_ack =? expected_ack_sequence)) Conflict) ;;
         lift (refuse (default 0 stored_highest <? ack_sequence) Conflict) ;;
         through ← lift (i64_prefix ack_sequence);
         execute (λ l, Ok (tt, publish_row node through <$> l)))
  end.

Definition table_compact_through st (ack_sequence : Z) : OutboxTable c * store_result nat :=
  match (stream ← stream_of st; open_of st ;; Ok stream) with
  | Err e => (st, Err e)
  | Ok stream =>
      let node := stream_client_node_id stream in
      on_rows st
        ('(_, stored_highest) ← query (λ l, outbox_stream_cursor l node);
         lift (refuse (default 0 stored_highest <? ack_sequence) Conflict) ;;
         through ← lift (i64_prefix ack_sequence);
         execute (λ l, Ok (length (filter (λ r, row_envelope_sequence r ≤ through)
                                     (pending_rows node l)),
                           publish_row node through <$> l)))
  end.

Definition bind_outbox_stream st (node instance : string) : OutboxTable c * store_result () :=
  match (require_non_empty node MAX_ID_BYTES ;; require_non_empty instance MAX_ID_BYTES ;;
         open_of st) with
  | Err e => (st, Err e)
  | Ok _ =>
      ({| table_open := table_open st; rows := rows st;
          outbox_stream := Some {| stream_client_node_id := node;
                                   stream_client_instance_id := instance |} |}, Ok tt)
  end.

(** One published row of the placeholder's stream, rewritten for the enrolled node. *)
Definition adopt_row (placeholder enrolled : string) (r : OutboxRow) : store_result OutboxRow :=
  envelope ← map_err (λ _, Adapter) (from_slice (json_envelope c) (row_payload r));
  refuse (bool_decide (client_node_id envelope ≠ placeholder) ||
          bool_decide (message_id envelope ≠ row_message_id r)) Adapter ;;
  kind ← kind_of c (message envelope);
  refuse (bool_decide (kind ≠ row_kind r)) Adapter ;;
  refuse (row_envelope_sequence r <? 0) Adapter ;;
  refuse (negb (sequence envelope =? row_envelope_sequence r)) Adapter ;;
  payload ← map_err (λ _, Adapter) (to_vec (json_envelope c)
    {| schema_version := schema_version envelope; message_id := message_id envelope;
       client_node_id := enrolled; client_instance_id := client_instance_id envelope;
       sequence := sequence envelope; occurred_at := occurred_at envelope;
       message := message envelope |});
  Ok {| row_message_id := enrolled ++ "-" ++ row_kind r ++ "-" ++ decimal (row_envelope_sequence r);
        row_client_node_id := enrolled; row_client_instance_id := client_instance_id envelope;
        row_envelope_sequence := row_envelope_sequence r; row_kind := row_kind r;
        row_payload := payload; row_occurred_at := row_occurred_at r; row_published := true |}%string.

Fixpoint adopt_rows (placeholder enrolled : string) (published : list OutboxRow) :
    tx (list OutboxRow) DeviceStoreError () :=
  match published with
  | [] => mret tt
  | r :: published =>
      adopted ← lift (adopt_row placeholder enrolled r);
      execute (λ l, insert_row l adopted) ;;
      adopt_rows placeholder enrolled published
  end.

Definition adopt_enrolled_stream st (placeholder enrolled : string) : OutboxTable c * store_result () :=
  match (require_non_empty placeholder MAX_ID_BYTES ;; require_non_empty enrolled MAX_ID_BYTES ;;
         stream ← stream_of st; open_of st ;; Ok stream) with
  | Err e => (st, Err e)
  | Ok stream =>
      match commit (rows st)
        (existing ← query (λ l, Ok (max_of (row_envelope_sequence <$> stream_rows enrolled l)));
         lift (refuse (bool_decide (is_Some existing)) Conflict) ;;
         published ← query (λ l, Ok (order_by_sequence (published_rows placeholder l)));
         adopt_rows placeholder enrolled published) with
      | (l, Err e) => (set_rows st l, Err e)
      | (l, Ok _) =>
          ({| table_open := table_open st; rows := l;
              outbox_stream := Some {| stream_client_node_id := enrolled;
                                       stream_client_instance_id := stream_client_instance_id stream |} |},
           Ok tt)
      end
  end.
End operations.

#[global] Instance table_outbox {M} (c : OutboxCodec M) : FrameOutbox (OutboxTable c) DeviceStoreError := {
  load := table_load;
  append := table_append;
  record_acknowledgement := table_record_acknowledgement
}.

#[global] Instance table_compacting {M} (c : OutboxCodec M) :
  CompactingOutbox (OutboxTable c) DeviceStoreError := table_compact_through.

(** ** The contract *)

Lemma max_of_Some l m : max_of l = Some m ↔ m ∈ l ∧ ∀ x, x ∈ l → x ≤ m.
Proof.
  revert m. induction l as [|x l IH]; intros m; simpl.
  { split; [done|]. intros [H _]. by apply not_elem_of_nil in H. }
  destruct (max_of l) as [k|] eqn:E.
  - destruct (proj1 (IH k) eq_refl) as [Hk Hmax]. split.
    + intros [= <-]. split; [destruct (Z.max_spec x k) as [[_ ->]|[_ ->]]; set_solver|].
      intros y [->|Hy%Hmax]%elem_of_cons; lia.
    + intros [[->|Hm]%elem_of_cons Hall]; f_equal.
      * specialize (Hall k ltac:(set_solver)). lia.
      * pose proof (Hall x ltac:(set_solver)). pose proof (Hall k ltac:(set_solver)).
        specialize (Hmax m Hm). lia.
  - assert (l = []) as ->.
    { destruct l as [|y l]; [done|]. simpl in E. by destruct (max_of l). }
    split; [intros [= <-]; split; [set_solver|]; intros y; rewrite list_elem_of_singleton; lia|].
    intros [->%list_elem_of_singleton _]. done.
Qed.

Lemma max_of_None l : max_of l = None ↔ l = [].
Proof. destruct l; simpl; [done|]. by split. Qed.

(** The largest of a list is fixed by a member that bounds it. *)
Lemma max_of_default l m : 0 ≤ m → (m ∈ l ∨ l = [] ∧ m = 0) → (∀ x, x ∈ l → x ≤ m) → default 0 (max_of l) = m.
Proof.
  intros Hm [Hin|[-> ->]] Hall; [|done]. by rewrite (proj2 (max_of_Some l m)).
Qed.

Lemma max_of_le l x : x ∈ l → x ≤ default 0 (max_of l).
Proof.
  intros Hx. destruct (max_of l) as [m|] eqn:E; [by apply (proj1 (max_of_Some _ _) E)|].
  apply max_of_None in E as ->. by apply not_elem_of_nil in Hx.
Qed.

Lemma max_of_in l : l ≠ [] → default 0 (max_of l) ∈ l.
Proof.
  intros Hl. destruct (max_of l) as [m|] eqn:E; [by apply (proj1 (max_of_Some _ _) E)|].
  by apply max_of_None in E.
Qed.

(** What the contract needs of [serde_json]: parsing what was printed gives the value back. *)
Class CodecOk {M} (c : OutboxCodec M) : Prop :=
  codec_round_trip : json_round_trip (json_envelope c).

Section contract.
Context {M : Type} (c : OutboxCodec M).

Definition payload_digest_of (payload : list Byte.byte) : string :=
  match (envelope ← map_err (λ _, Adapter) (from_slice (json_envelope c) payload);
         map_err (λ _, Adapter) (envelope_identity (sha256_hex c) (json_message c) envelope)) with
  | Ok i => fi_payload_digest i
  | Err _ => ""
  end.

(** The frame of a row that passes the checks of [stored_frame_from_row]. *)
Definition frame_of_row (r : OutboxRow) : StoredFrame :=
  {| sf_message_id := row_message_id r; sf_sequence := row_envelope_sequence r;
     sf_payload_digest := payload_digest_of (row_payload r); sf_frame := row_payload r |}.

Definition ack_of (node : string) (l : list OutboxRow) : Z :=
  default 0 (max_of (row_envelope_sequence <$> published_rows node l)).

Definition highest_of (node : string) (l : list OutboxRow) : Z :=
  default 0 (max_of (row_envelope_sequence <$> stream_rows node l)).

(** The snapshot a node's rows stand for. *)
Definition rows_view (node : string) (l : list OutboxRow) : OutboxSnapshot :=
  {| snap_ack := ack_of node l; snap_highest := highest_of node l;
     snap_frames := frame_of_row <$> order_by_sequence (pending_rows node l) |}.

Definition table_view (st : OutboxTable c) : OutboxSnapshot :=
  match outbox_stream st with
  | Some stream => rows_view (stream_client_node_id stream) (rows st)
  | None => snapshot_default
  end.

(** The frame is a sealed envelope. *)
Definition sealed (f : StoredFrame) : Prop :=
  ∃ e, to_vec (json_envelope c) e = Ok (sf_frame f) ∧
    envelope_identity (sha256_hex c) (json_message c) e = Ok (identity f).

Lemma frame_from_row_Ok node r f : stored_frame_from_row (c := c) node r = Ok f → f = frame_of_row r.
Proof.
  unfold stored_frame_from_row, decode_outbox_envelope. intros H. inv_result. split_bools.
  unfold frame_of_row, payload_digest_of. simplify_eq.
  match goal with H : from_slice _ _ = Ok _ |- _ => rewrite H end. simpl.
  match goal with H : envelope_identity _ _ _ = Ok ?i |- _ => rewrite H; rename H into Hid end. simpl.
  unfold envelope_identity in Hid. inv_result. simpl in *. f_equal; (done || lia).
Qed.

Lemma rows_view_load node l fs :
  mapM (stored_frame_from_row (c := c) node) (order_by_sequence (pending_rows node l)) = Ok fs →
  fs = snap_frames (rows_view node l).
Proof.
  simpl. generalize (order_by_sequence (pending_rows node l)). intros k. revert fs.
  induction k as [|r k IH]; intros fs; simpl; [by intros [= <-]|]. intros H. inv_result. simpl.
  unfold mret, result_ret in *. inv_result. f_equal; [by apply (frame_from_row_Ok node)|by apply IH].
Qed.

Lemma to_cursor_Ok o z : to_cursor o = Ok z → z = o.
Proof. destruct o; simpl; intros H; by inv_result. Qed.

Lemma cursor_Ok l node a h :
  outbox_stream_cursor l node = Ok (a, h) →
  a = max_of (row_envelope_sequence <$> published_rows node l) ∧
  h = max_of (row_envelope_sequence <$> stream_rows node l).
Proof.
  unfold outbox_stream_cursor. intros H. inv_result.
  repeat match goal with H : to_cursor _ = _ |- _ => apply to_cursor_Ok in H end. done.
Qed.

Lemma table_load_view (st : OutboxTable c) :
  ∀ o, (table_load st).2 = Ok o → default snapshot_default o = table_view st.
Proof.
  intros o. unfold table_load, table_view, stream_of. simpl.
  destruct (outbox_stream st) as [s|]; [|done]. simpl.
  destruct (open_of st) as [[]|]; [|done]. simpl.
  destruct (outbox_stream_cursor _ _) as [[a h]|] eqn:E; [|done]. simpl.
  apply cursor_Ok in E as [-> ->]. intros H.
  destruct (max_of (row_envelope_sequence <$> stream_rows _ _)) as [h|] eqn:Eh.
  - inv_result. simpl. unfold rows_view, highest_of. rewrite Eh. f_equal. by apply rows_view_load.
  - inv_result. simpl. apply max_of_None, fmap_nil_inv in Eh.
    unfold rows_view, highest_of, ack_of, pending_rows, published_rows. by rewrite Eh.
Qed.

Lemma publish_sequence node a r : row_envelope_sequence (publish_row node a r) = row_envelope_sequence r.
Proof. unfold publish_row. by case_match. Qed.

Lemma publish_node node a r : row_client_node_id (publish_row node a r) = row_client_node_id r.
Proof. unfold publish_row. by case_match. Qed.

Lemma stream_rows_publish node a l :
  stream_rows node (publish_row node a <$> l) = publish_row node a <$> stream_rows node l.
Proof.
  unfold stream_rows. rewrite filter_fmap. f_equal. apply list_filter_iff. intros r.
  by rewrite publish_node.
Qed.

Lemma stream_rows_node node l r : r ∈ stream_rows node l → row_client_node_id r = node.
Proof. by intros [? _]%list_elem_of_filter. Qed.

Lemma pending_publish node a l :
  pending_rows node (publish_row node a <$> l) =
    filter (λ r, a < row_envelope_sequence r) (pending_rows node l).
Proof.
  unfold pending_rows. rewrite stream_rows_publish. pose proof (stream_rows_node node l) as Hn.
  induction (stream_rows node l) as [|r k IH]; [done|]. specialize (IH ltac:(set_solver)).
  assert (Hr : row_client_node_id r = node) by (apply Hn; set_solver).
  rewrite fmap_cons. unfold publish_row at 1. rewrite bool_decide_eq_true_2 by done. simpl.
  destruct (Z.leb_spec (row_envelope_sequence r) a).
  - rewrite filter_cons_False by done. rewrite IH. rewrite (filter_cons _ r).
    case_decide; [|done]. by rewrite filter_cons_False by lia.
  - rewrite !(filter_cons (λ r, row_published r = false) r), IH. case_decide; [|done].
    by rewrite filter_cons_True.
Qed.

Lemma published_publish node a l x :
  x ∈ row_envelope_sequence <$> published_rows node (publish_row node a <$> l) ↔
  x ∈ row_envelope_sequence <$> published_rows node l ∨
  x ∈ row_envelope_sequence <$> stream_rows node l ∧ x ≤ a.
Proof.
  unfold published_rows. rewrite stream_rows_publish. split.
  - intros (r & -> & [Hp (r0 & -> & Hr0)%list_elem_of_fmap]%list_elem_of_filter)%list_elem_of_fmap.
    rewrite publish_sequence. unfold publish_row in Hp.
    destruct (row_published r0) eqn:E0.
    { left. by apply list_elem_of_fmap_2, list_elem_of_filter. }
    right. split; [by apply list_elem_of_fmap_2|].
    destruct (_ && _) eqn:E; [|congruence]. split_bools. lia.
  - assert (Hin : ∀ r, r ∈ stream_rows node l → row_published (publish_row node a r) = true →
      row_envelope_sequence r ∈
        row_envelope_sequence <$> filter (λ r, row_published r = true) (publish_row node a <$> stream_rows node l)).
    { intros r Hr Hp. rewrite <-(publish_sequence node a r).
      apply list_elem_of_fmap_2, list_elem_of_filter. split; [done|]. by apply list_elem_of_fmap_2. }
    intros [(r & -> & [Hp Hr]%list_elem_of_filter)%list_elem_of_fmap|[(r & -> & Hr)%list_elem_of_fmap Hle]];
      apply Hin; try done; unfold publish_row; [by case_match|].
    rewrite bool_decide_eq_true_2 by (by apply (stream_rows_node node l)).
    by rewrite (proj2 (Z.leb_le _ _)).
Qed.

Lemma highest_publish node a l : highest_of node (publish_row node a <$> l) = highest_of node l.
Proof.
  unfold highest_of. rewrite stream_rows_publish, <-list_fmap_compose.
  do 2 f_equal. apply list_fmap_ext. intros i r _. apply publish_sequence.
Qed.

Lemma frames_publish node a l :
  snap_frames (rows_view node (publish_row node a <$> l)) =
    filter (λ f, a < sf_sequence f) (snap_frames (rows_view node l)).
Proof. simpl. by rewrite pending_publish, order_filter, filter_fmap. Qed.

Lemma pending_sequence node l r :
  r ∈ pending_rows node l → row_envelope_sequence r ∈ row_envelope_sequence <$> stream_rows node l.
Proof. intros [_ Hr]%list_elem_of_filter. by apply list_elem_of_fmap_2. Qed.

(** A frame of the snapshot is a pending row. *)
Lemma view_frame_row node l n :
  n ∈ sf_sequence <$> snap_frames (rows_view node l) ↔
  n ∈ row_envelope_sequence <$> pending_rows node l.
Proof.
  simpl. rewrite <-list_fmap_compose, !list_elem_of_fmap. setoid_rewrite order_elem. done.
Qed.

Lemma publish_acknowledged node a l :
  snapshot_wf (rows_view node l) → ack_of node l < a ≤ highest_of node l →
  rows_view node (publish_row node a <$> l) = drop_through (set_ack (rows_view node l) a) a.
Proof.
  intros Hwf Ha. unfold rows_view at 1. apply (f_equal3 Build_OutboxSnapshot);
    [|apply highest_publish|apply frames_publish]. cbn [snap_ack set_ack].
  unfold ack_of at 1. pose proof (wf_ack _ Hwf) as Hack. simpl in Hack.
  apply max_of_default; [lia| |].
  - left. apply published_publish. right. split; [|lia].
    assert (Hin : a ∈ sf_sequence <$> snap_frames (rows_view node l)).
    { rewrite (wf_frames _ Hwf). pose proof (wf_retained _ Hwf). simpl in *. apply elem_of_seqZ. lia. }
    apply view_frame_row, list_elem_of_fmap in Hin as (r & -> & Hr). by apply pending_sequence.
  - intros x [Hx|[_ ?]]%published_publish; [|done]. apply max_of_le in Hx. unfold ack_of in Ha. lia.
Qed.

Lemma publish_compacted node a l :
  snapshot_wf (rows_view node l) → a ≤ ack_of node l →
  rows_view node (publish_row node a <$> l) = drop_through (rows_view node l) a.
Proof.
  intros Hwf Ha. unfold rows_view at 1. apply (f_equal3 Build_OutboxSnapshot);
    [|apply highest_publish|apply frames_publish]. cbn [snap_ack rows_view].
  unfold ack_of at 1. pose proof (wf_ack _ Hwf) as Hack. simpl in Hack.
  apply max_of_default; [lia| |].
  - unfold ack_of in *. destruct (decide (row_envelope_sequence <$> published_rows node l = [])) as [He|He].
    + rewrite He in *. simpl in *. right. split; [|done].
      destruct (row_envelope_sequence <$> published_rows node (publish_row node a <$> l)) as [|x k] eqn:E;
        [done|]. exfalso.
      assert (Hx : x ∈ row_envelope_sequence <$> published_rows node (publish_row node a <$> l))
        by (rewrite E; set_solver).
      apply published_publish in Hx as [Hx|[Hx Hle]]; [rewrite He in Hx; by apply not_elem_of_nil in Hx|].
      assert (Hp : x ∈ sf_sequence <$> snap_frames (rows_view node l)).
      { apply view_frame_row. apply list_elem_of_fmap in Hx as (r & -> & Hr).
        apply list_elem_of_fmap_2, list_elem_of_filter. split; [|done].
        destruct (row_published r) eqn:Er; [|done]. exfalso. apply fmap_nil_inv in He.
        assert (Hin : r ∈ published_rows node l) by (by apply list_elem_of_filter).
        rewrite He in Hin. by apply not_elem_of_nil in Hin. }
      rewrite (wf_frames _ Hwf) in Hp. apply elem_of_seqZ in Hp.
      pose proof (wf_retained _ Hwf). lia.
    + left. apply published_publish. left. by apply max_of_in.
  - intros x [Hx|[_ ?]]%published_publish; [by apply max_of_le in Hx|]. lia.
Qed.

Lemma append_view_rows node l r :
  snapshot_wf (rows_view node l) → row_client_node_id r = node → row_published r = false →
  row_envelope_sequence r = highest_of node l + 1 →
  rows_view node (l ++ [r]) = push_frame (rows_view node l) (frame_of_row r).
Proof.
  intros Hwf Hn Hp Hs. pose proof (wf_ack _ Hwf) as Hack. simpl in Hack.
  assert (Hst : stream_rows node (l ++ [r]) = stream_rows node l ++ [r]).
  { unfold stream_rows. by rewrite filter_app, (filter_cons_True _ r). }
  unfold rows_view at 1. apply (f_equal3 Build_OutboxSnapshot).
  - unfold ack_of, published_rows. rewrite Hst, filter_app, (filter_cons_False _ r) by congruence.
    by rewrite app_nil_r.
  - unfold highest_of in *. rewrite Hst, fmap_app. simpl. apply max_of_default; [lia|set_solver|].
    intros x [Hx|Hx]%elem_of_app; [apply max_of_le in Hx; lia|]. apply list_elem_of_singleton in Hx. lia.
  - unfold pending_rows. rewrite Hst, filter_app, (filter_cons_True _ r), filter_nil by done.
    rewrite order_snoc, place_last, fmap_app; [done|]. apply Forall_forall. intros x Hx.
    apply (proj1 (order_elem _ _ _)), (pending_sequence node l) in Hx. apply max_of_le in Hx. unfold highest_of in Hs. lia.
Qed.

Context `{!CodecOk c}.

Lemma checked_envelope_Ok stream f e kind payload :
  sealed f → checked_envelope (c := c) stream f = Ok (e, kind, payload) →
  payload = sf_frame f ∧ from_slice (json_envelope c) payload = Ok e ∧
  schema_version e = CLIENT_CONTROL_PORT_SCHEMA_VERSION ∧
  client_node_id e = stream_client_node_id stream ∧ message_id e = sf_message_id f ∧
  sequence e = sf_sequence f ∧ kind_of c (message e) = Ok kind ∧
  envelope_identity (sha256_hex c) (json_message c) e = Ok (identity f).
Proof.
  intros (e0 & Hvec & Hid) H. unfold checked_envelope, decode_outbox_envelope in H.
  pose proof (codec_round_trip _ _ Hvec) as Hback. rewrite Hback in H. simpl in H. inv_result.
  split_bools. assert (payload = sf_frame f) as -> by congruence. split_and!; try done. lia.
Qed.

(** The row of an appended frame, as [insert_outbox_row] writes it. *)
Definition row_of_frame (e : Envelope M) (kind : string) (f : StoredFrame) : OutboxRow :=
  {| row_message_id := sf_message_id f; row_client_node_id := client_node_id e;
     row_client_instance_id := client_instance_id e; row_envelope_sequence := sf_sequence f;
     row_kind := kind; row_payload := sf_frame f; row_occurred_at := occurred_at e;
     row_published := false |}.

Lemma table_append_Ok (st st' : OutboxTable c) h f :
  sealed f → table_append st h f = (st', Ok tt) →
  ∃ stream e kind, outbox_stream st = Some stream ∧ client_node_id e = stream_client_node_id stream ∧
    st' = set_rows st (rows st ++ [row_of_frame e kind f]) ∧
    stored_frame_from_row (c := c) (stream_client_node_id stream) (row_of_frame e kind f) = Ok f ∧
    0 < sf_sequence f ∧ h = highest_of (stream_client_node_id stream) (rows st).
Proof.
  intros Hf. unfold table_append, stream_of. destruct (outbox_stream st) as [stream|]; [|done]. simpl.
  destruct (checked_envelope stream f) as [[[e kind] payload]|] eqn:Ec; [|done]. simpl.
  destruct (open_of st) as [[]|]; [|done]. simpl.
  apply (checked_envelope_Ok _ _ _ _ _ Hf) in Ec as (-> & Hback & Hsch & Hn & Hm & Hs & Hk & Hid).
  unfold on_rows. destruct (commit _ _) as [l r] eqn:E. intros [= <- ->].
  apply commit_Ok in E. apply tx_bind_Ok in E as ([a hi] & l1 & Hq & E).
  apply query_Ok in Hq as [Hc ->]. apply cursor_Ok in Hc as [_ ->].
  apply tx_bind_Ok in E as ([] & l2 & Hl & E). apply lift_Ok in Hl as [Hh ->].
  unfold execute, insert_outbox_row, i64_prefix in E. inv_result. split_bools.
  match goal with H : (if ?b then _ else _) = _ |- _ => destruct b; [|done]; inv_result end.
  unfold insert_row in E. inv_result. simpl in *.
  exists stream, e, kind. unfold row_of_frame. rewrite <-Hm, <-Hs. split_and!; try done.
  - unfold stored_frame_from_row, decode_outbox_envelope. simpl. rewrite Hback. simpl.
    rewrite Hsch, bool_decide_eq_false_2 by (intros Hx; by apply Hx). simpl.
    rewrite Hn, !bool_decide_eq_false_2 by (intros Hx; by apply Hx). simpl.
    rewrite (proj2 (Z.ltb_ge _ 0)) by lia. simpl. rewrite Z.eqb_refl. simpl. rewrite Hk. simpl.
    rewrite bool_decide_eq_false_2 by (intros Hx; by apply Hx). simpl. rewrite Hid. by destruct f.
  - lia.
  - unfold highest_of. lia.
Qed.

Lemma set_rows_id (st : OutboxTable c) : set_rows st (rows st) = st.
Proof. by destruct st. Qed.

(** A failed operation leaves the table alone. *)
Lemma on_rows_Err {A} (st st' : OutboxTable c) (m : tx _ _ A) e : on_rows st m = (st', Err e) → st' = st.
Proof.
  unfold on_rows. destruct (commit _ _) as [l r] eqn:E. intros [= <- ->].
  apply commit_Err in E as [_ ->]. apply set_rows_id.
Qed.

Lemma table_append_Err (st st' : OutboxTable c) h f e : table_append st h f = (st', Err e) → st' = st.
Proof.
  unfold table_append. destruct (_ ≫= _) as [[stream [[e0 k] p]]|]; [apply on_rows_Err|naive_solver].
Qed.

Lemma table_record_Ok (st st' : OutboxTable c) a a' :
  table_record_acknowledgement st a a' = (st', Ok tt) →
  ∃ stream, outbox_stream st = Some stream ∧
    let node := stream_client_node_id stream in
    st' = set_rows st (publish_row node a' <$> rows st) ∧
    a = ack_of node (rows st) ∧ a' ≤ highest_of node (rows st).
Proof.
  unfold table_record_acknowledgement, stream_of. destruct (outbox_stream st) as [stream|]; [|done].
  simpl. destruct (open_of st) as [[]|]; [|done]. simpl.
  unfold on_rows. destruct (commit _ _) as [l r] eqn:E. intros [= <- ->].
  apply commit_Ok, tx_bind_Ok in E as ([sa sh] & l1 & [Hc ->]%query_Ok & E).
  apply cursor_Ok in Hc as [-> ->].
  apply tx_bind_Ok in E as ([] & l2 & [H1 ->]%lift_Ok & E).
  apply tx_bind_Ok in E as ([] & l3 & [H2 ->]%lift_Ok & E).
  apply tx_bind_Ok in E as (through & l4 & [H3 ->]%lift_Ok & E).
  unfold execute in E. unfold i64_prefix in H3. destruct (_ <=? _); [|done]. inv_result. split_bools.
  exists stream. unfold ack_of, highest_of. split_and!; try done; lia.
Qed.

Lemma table_record_Err (st st' : OutboxTable c) a a' e :
  table_record_acknowledgement st a a' = (st', Err e) → st' = st.
Proof.
  unfold table_record_acknowledgement. destruct (_ ≫= _) as [stream|]; [apply on_rows_Err|naive_solver].
Qed.

Lemma table_compact_Ok (st st' : OutboxTable c) a n :
  table_compact_through st a = (st', Ok n) →
  ∃ stream, outbox_stream st = Some stream ∧
    let node := stream_client_node_id stream in
    st' = set_rows st (publish_row node a <$> rows st) ∧
    n = length (filter (λ r, row_envelope_sequence r ≤ a) (pending_rows node (rows st))).
Proof.
  unfold table_compact_through, stream_of. destruct (outbox_stream st) as [stream|]; [|done].
  simpl. destruct (open_of st) as [[]|]; [|done]. simpl.
  unfold on_rows. destruct (commit _ _) as [l r] eqn:E. intros [= <- ->].
  apply commit_Ok, tx_bind_Ok in E as ([sa sh] & l1 & [Hc ->]%query_Ok & E).
  apply tx_bind_Ok in E as ([] & l2 & [H1 ->]%lift_Ok & E).
  apply tx_bind_Ok in E as (through & l4 & [H3 ->]%lift_Ok & E).
  unfold execute in E. unfold i64_prefix in H3. destruct (_ <=? _); [|done]. inv_result.
  by exists stream.
Qed.

Lemma table_compact_Err (st st' : OutboxTable c) a e :
  table_compact_through st a = (st', Err e) → st' = st.
Proof.
  unfold table_compact_through. destruct (_ ≫= _) as [stream|]; [apply on_rows_Err|naive_solver].
Qed.

Lemma table_append_view (st : OutboxTable c) f :
  snapshot_wf (table_view st) → sealed f → sf_sequence f = snap_highest (table_view st) + 1 →
  table_view (table_append st (snap_highest (table_view st)) f).1 =
    if is_ok (table_append st (snap_highest (table_view st)) f).2
    then push_frame (table_view st) f else table_view st.
Proof.
  intros Hwf Hf Hs. destruct (table_append st _ f) as [st' [[]|e]] eqn:E; simpl; cycle 1.
  { by apply table_append_Err in E as ->. }
  apply (table_append_Ok _ _ _ _ Hf) in E as (stream & e & kind & Hst & Hn & -> & Hrow & _ & _).
  unfold table_view in *. simpl. rewrite Hst in *.
  apply frame_from_row_Ok in Hrow. rewrite Hrow. by apply append_view_rows.
Qed.

Lemma table_record_view (st : OutboxTable c) a :
  snapshot_wf (table_view st) → snap_ack (table_view st) < a ≤ snap_highest (table_view st) →
  if is_ok (table_record_acknowledgement st (snap_ack (table_view st)) a).2
  then acknowledged (table_view st) a
         (table_view (table_record_acknowledgement st (snap_ack (table_view st)) a).1)
  else table_view (table_record_acknowledgement st (snap_ack (table_view st)) a).1 = table_view st.
Proof.
  intros Hwf Ha. destruct (table_record_acknowledgement st _ a) as [st' [[]|e]] eqn:E; simpl; cycle 1.
  { by apply table_record_Err in E as ->. }
  apply table_record_Ok in E as (stream & Hst & -> & _ & _). right.
  unfold table_view in *. simpl. rewrite Hst in *. by apply publish_acknowledged.
Qed.

Lemma table_compact_view (st : OutboxTable c) a :
  snapshot_wf (table_view st) → a ≤ snap_ack (table_view st) →
  table_view (table_compact_through st a).1 =
    (if is_ok (table_compact_through st a).2 then drop_through (table_view st) a
     else table_view st) ∧
  ∀ n, (table_compact_through st a).2 = Ok n →
    n = (length (snap_frames (table_view st)) -
         length (snap_frames (drop_through (table_view st) a)))%nat.
Proof.
  intros Hwf Ha. destruct (table_compact_through st a) as [st' [n|e]] eqn:E; simpl; cycle 1.
  { by apply table_compact_Err in E as ->. }
  apply table_compact_Ok in E as (stream & Hst & -> & ->).
  unfold table_view in *. simpl. rewrite Hst in *. split; [by apply publish_compacted|].
  intros n [= <-]. simpl. rewrite filter_fmap, !length_fmap, <-order_filter, !order_length.
  generalize (pending_rows (stream_client_node_id stream) (rows st)). intros l. clear.
  induction l as [|r l IH]; [done|]. simpl in *.
  assert (Hle : (length (filter (λ x, (a < row_envelope_sequence x)%Z) l) ≤ length l)%nat) by apply length_filter.
  rewrite !filter_cons. destruct (decide (row_envelope_sequence r ≤ a)),
    (decide (a < row_envelope_sequence r)); simpl in *; lia.
Qed.

(** The device's database keeps the store contract. *)
#[global] Instance table_laws : FrameOutboxLaws (OutboxTable c) DeviceStoreError.
Proof.
  refine {| view := table_view; storable := sealed |}.
  - intros st. split; [done|]. apply table_load_view.
  - apply table_append_view.
  - apply table_record_view.
  - apply table_compact_view.
Defined.
End contract.

(** ** Reading back after a restart *)

(** What the outbox has to remember: the frames accepted so far and the last confirmed
    sequence. *)
Record OutboxMemory : Type := {
  accepted_frames : list StoredFrame;
  confirmed : Z
}.

(** The snapshot the memory stands for; nothing is stored before the first frame. *)
Definition memory_snapshot (m : OutboxMemory) : option OutboxSnapshot :=
  match accepted_frames m with
  | [] => None
  | _ => Some {| snap_ack := confirmed m;
                 snap_highest := Z.of_nat (length (accepted_frames m));
                 snap_frames := drop (Z.to_nat (confirmed m)) (accepted_frames m) |}
  end.

(** A successful operation. *)
Definition remember (m : OutboxMemory) (op : OutboxOp) : OutboxMemory :=
  match op with
  | OpEnqueue _ f => {| accepted_frames := accepted_frames m ++ [f]; confirmed := confirmed m |}
  | OpAcknowledge a => {| accepted_frames := accepted_frames m; confirmed := a |}
  | _ => m
  end.

(** A device's run: operations of its outbox session, and restarts under a new instance,
    which open the database again and bind the node's stream. *)
Inductive DeviceOp : Type :=
| DevSession (op : OutboxOp)
| DevRestart (instance : string).

Section read_back.
Context {M : Type} (c : OutboxCodec M) `{!CodecOk c} (node : string).
Implicit Types st : OutboxTable c.

(** [DeviceStore::open] on the same file. *)
Definition reopen st : OutboxTable c := {| table_open := true; rows := rows st; outbox_stream := None |}.

Definition device_step (s : OutboxTable c * OutboxMemory) (op : DeviceOp) : OutboxTable c * OutboxMemory :=
  match op with
  | DevSession op =>
      let '(st, e) := outbox_step s.1 op in
      (st, match e with None => remember s.2 op | Some _ => s.2 end)
  | DevRestart instance => ((bind_outbox_stream (reopen s.1) node instance).1, s.2)
  end.

Definition device_run (s : OutboxTable c * OutboxMemory) (ops : list DeviceOp) :=
  foldl device_step s ops.

Definition device_op_valid (op : DeviceOp) : Prop :=
  match op with
  | DevSession op => below_limit (S := OutboxTable c) (E := DeviceStoreError) op
  | DevRestart instance => require_non_empty instance MAX_ID_BYTES = Ok tt
  end.

(** The rows on their own: readable, numbered from 1, and pending only above the cursor. *)
Record rows_wf (l : list OutboxRow) : Prop := {
  rw_readable : ∀ r, r ∈ pending_rows node l →
    stored_frame_from_row (c := c) node r = Ok (frame_of_row c r);
  rw_positive : ∀ n, n ∈ row_envelope_sequence <$> stream_rows node l → 0 < n;
  rw_pending : ∀ r, r ∈ pending_rows node l → ack_of node l < row_envelope_sequence r
}.

Record table_wf st : Prop := {
  tw_open : table_open st = true;
  tw_stream : stream_client_node_id <$> outbox_stream st = Some node;
  tw_rows : rows_wf (rows st)
}.

Lemma published_positive l n :
  rows_wf l → n ∈ row_envelope_sequence <$> published_rows node l →
  n ∈ row_envelope_sequence <$> stream_rows node l ∧ 0 < n.
Proof.
  intros Hwf (r & -> & [_ Hr]%list_elem_of_filter)%list_elem_of_fmap.
  assert (Hn : row_envelope_sequence r ∈ row_envelope_sequence <$> stream_rows node l)
    by by apply list_elem_of_fmap_2.
  split; [done|]. by apply (rw_positive _ Hwf).
Qed.

Lemma ack_of_le_highest l : rows_wf l → 0 ≤ ack_of node l ≤ highest_of node l.
Proof.
  intros Hwf. unfold ack_of, highest_of.
  destruct (max_of (row_envelope_sequence <$> published_rows node l)) as [m|] eqn:E; simpl.
  - apply max_of_Some in E as [Hm _]. apply (published_positive _ _ Hwf) in Hm as [Hm ?].
    split; [lia|by apply max_of_le].
  - split; [done|]. destruct (max_of (row_envelope_sequence <$> stream_rows node l)) as [m|] eqn:E'; [|done].
    apply max_of_Some in E' as [Hm _]. apply (rw_positive _ Hwf) in Hm. simpl. lia.
Qed.

Lemma rows_publish a l : rows_wf l → rows_wf (publish_row node a <$> l).
Proof.
  intros Hwf. split.
  - intros r. rewrite pending_publish. intros [_ Hr]%list_elem_of_filter. by apply Hwf.
  - intros n. rewrite stream_rows_publish, <-list_fmap_compose.
    intros (r & -> & Hr)%list_elem_of_fmap. simpl. rewrite publish_sequence.
    by apply (rw_positive _ Hwf), list_elem_of_fmap_2.
  - intros r. rewrite pending_publish. intros [Ha Hr]%list_elem_of_filter.
    apply (rw_pending _ Hwf) in Hr as Hack. pose proof (ack_of_le_highest _ Hwf).
    unfold ack_of at 1. destruct (max_of _) as [m|] eqn:E; simpl; [|lia].
    apply max_of_Some in E as [[Hm|[_ Hm]]%published_publish _]; [|lia].
    apply max_of_le in Hm. unfold ack_of in Hack. lia.
Qed.

Lemma rows_append l r f :
  rows_wf l → row_client_node_id r = node → row_published r = false →
  stored_frame_from_row (c := c) node r = Ok f →
  row_envelope_sequence r = highest_of node l + 1 → rows_wf (l ++ [r]).
Proof.
  intros Hwf Hn Hp Hr Hs. pose proof (ack_of_le_highest _ Hwf) as Hack.
  assert (Hst : stream_rows node (l ++ [r]) = stream_rows node l ++ [r]).
  { unfold stream_rows. by rewrite filter_app, (filter_cons_True _ r). }
  assert (Hpe : pending_rows node (l ++ [r]) = pending_rows node l ++ [r]).
  { unfold pending_rows. by rewrite Hst, filter_app, (filter_cons_True _ r). }
  assert (Hpu : published_rows node (l ++ [r]) = published_rows node l).
  { unfold published_rows. rewrite Hst, filter_app, (filter_cons_False _ r) by congruence. apply app_nil_r. }
  split.
  - intros x. rewrite Hpe. intros [Hx|Hx]%elem_of_app; [by apply Hwf|].
    apply list_elem_of_singleton in Hx as ->. by rewrite <-(frame_from_row_Ok _ _ _ _ Hr).
  - intros n. rewrite Hst, fmap_app. intros [Hx|Hx]%elem_of_app; [by apply Hwf|].
    apply list_elem_of_singleton in Hx as ->. lia.
  - intros x. unfold ack_of. rewrite Hpe, Hpu.
    intros [Hx|Hx]%elem_of_app; [by apply (rw_pending _ Hwf)|].
    apply list_elem_of_singleton in Hx as ->. unfold ack_of in Hack. lia.
Qed.

Lemma table_step_wf st op :
  below_limit (S := OutboxTable c) (E := DeviceStoreError) op → table_wf st →
  table_wf (outbox_step st op).1.
Proof.
  intros Hop. apply outbox_step_keeps; clear st.
  - done.
  - intros x f st -> Hwf. destruct Hop as [_ Hf]. simpl.
    destruct (table_append st _ f) as [st' [[]|e]] eqn:E; simpl; cycle 1.
    { by apply table_append_Err in E as ->. }
    apply (table_append_Ok _ _ _ _ _ Hf) in E as (stream & e & kind & Hst & Hn & -> & Hrow & _ & Hh).
    destruct Hwf as [H1 H2 H3]. rewrite Hst in H2. injection H2 as H2. rewrite H2 in *.
    split; simpl; [done|by rewrite Hst; simpl; f_equal|].
    apply (rows_append _ _ f); try done. simpl. lia.
  - intros st a a' Hwf. simpl.
    destruct (table_record_acknowledgement st a a') as [st' [[]|e]] eqn:E; simpl; cycle 1.
    { by apply table_record_Err in E as ->. }
    apply table_record_Ok in E as (stream & Hst & -> & _). destruct Hwf as [H1 H2 H3].
    rewrite Hst in H2. injection H2 as H2. rewrite H2.
    split; simpl; [done|by rewrite Hst; simpl; f_equal|by apply rows_publish].
  - intros st a Hwf. unfold compact_through, table_compacting.
    destruct (table_compact_through st a) as [st' [n|e]] eqn:E; simpl; cycle 1.
    { by apply table_compact_Err in E as ->. }
    apply table_compact_Ok in E as (stream & Hst & -> & _). destruct Hwf as [H1 H2 H3].
    rewrite Hst in H2. injection H2 as H2. rewrite H2.
    split; simpl; [done|by rewrite Hst; simpl; f_equal|by apply rows_publish].
Qed.

(** The table and the memory agree. *)
Record device_wf (s : OutboxTable c * OutboxMemory) : Prop := {
  vw_table : table_wf s.1;
  vw_view : snapshot_wf (view s.1);
  vw_numbered : sf_sequence <$> accepted_frames s.2 =
                  seqZ 1 (Z.of_nat (length (accepted_frames s.2)));
  vw_highest : snap_highest (view s.1) = Z.of_nat (length (accepted_frames s.2));
  vw_confirmed : snap_ack (view s.1) = confirmed s.2;
  vw_suffix : snap_frames (view s.1) `suffix_of` accepted_frames s.2
}.

Lemma bound_view st : table_wf st → view st = rows_view c node (rows st).
Proof.
  intros [_ Hs _]. simpl. unfold table_view. destruct (outbox_stream st); [|done].
  by injection Hs as ->.
Qed.

(** An operation that leaves the view, or fails. *)
Lemma device_wf_same s st' : device_wf s → table_wf st' → view st' = view s.1 → device_wf (st', s.2).
Proof. intros [H1 H2 H3 H4 H5 H6] Hw Hv. split; simpl fst; simpl snd; rewrite ?Hv; done. Qed.

Lemma device_enqueue s x f :
  device_wf s → sf_sequence f < u64_max ∧ storable f →
  device_wf (device_step s (DevSession (OpEnqueue x f))).
Proof.
  intros Hs Hf. pose proof (table_step_wf s.1 (OpEnqueue x f) Hf (vw_table _ Hs)) as Hw. simpl in *.
  pose proof (enqueue_spec s.1 x f (vw_view _ Hs) (proj2 Hf)) as H.
  destruct (enqueue s.1 x f) as [st' [n|e]]; simpl in *; cycle 1.
  { by apply device_wf_same; [| |apply H]. }
  destruct H as (-> & _ & Hn & _ & Hsh & Hid & Hv). destruct Hs as [H1 H2 H3 H4 H5 H6].
  assert (Hlen : sf_sequence f = 1 + Z.of_nat (length (accepted_frames s.2))) by (simpl in *; lia).
  split; simpl; [done| | |rewrite Hv|rewrite Hv|rewrite Hv]; simpl.
  - rewrite Hv. destruct Hf as [Hlt _]. by apply push_frame_wf.
  - rewrite fmap_app, length_app, H3. simpl.
    replace (Z.of_nat (length (accepted_frames s.2) + 1))
      with (Z.of_nat (length (accepted_frames s.2)) + 1) by lia.
    rewrite <-seqZ_snoc by lia. by rewrite Hlen.
  - rewrite length_app. simpl. lia.
  - done.
  - destruct H6 as [k Hk]. simpl in Hk. exists k. rewrite Hk. by rewrite app_assoc.
Qed.

Lemma device_acknowledge s a :
  device_wf s → device_wf (device_step s (DevSession (OpAcknowledge a))).
Proof.
  intros Hs. pose proof (table_step_wf s.1 (OpAcknowledge a) I (vw_table _ Hs)) as Hw. simpl in *.
  pose proof (acknowledge_spec s.1 a (vw_view _ Hs)) as H.
  destruct (acknowledge s.1 a) as [st' [n|e]]; simpl in *; cycle 1.
  { by apply device_wf_same; [| |apply H]. }
  destruct H as (-> & Ha & Hv). destruct Hs as [H1 H2 H3 H4 H5 H6].
  destruct (acknowledged_wf _ _ _ H2 Ha Hv) as (W1 & W2 & W3 & W4).
  split; simpl in *; try done; [congruence|]. by etrans.
Qed.

Hypothesis Hnode : require_non_empty node MAX_ID_BYTES = Ok tt.

Lemma restart_table st instance :
  require_non_empty instance MAX_ID_BYTES = Ok tt → table_wf st →
  table_wf (bind_outbox_stream (reopen st) node instance).1 ∧
  view (bind_outbox_stream (reopen st) node instance).1 = view st.
Proof.
  intros Hi Hst. unfold bind_outbox_stream. rewrite Hnode, Hi. simpl fst.
  assert (Hw : table_wf {| table_open := true; rows := rows st;
    outbox_stream := Some {| stream_client_node_id := node; stream_client_instance_id := instance |} |}).
  { split; [done|done|apply Hst]. }
  split; [exact Hw|]. by rewrite (bound_view _ Hw), (bound_view st).
Qed.

Lemma device_step_wf s op : device_wf s → device_op_valid op → device_wf (device_step s op).
Proof.
  intros Hs Hop. destruct op as [[|x f|a n|a|]|instance].
  - pose proof (table_step_wf s.1 OpNext I (vw_table _ Hs)) as Hw. simpl in *.
    unfold next_sequence in *. destruct (snapshot_of_spec s.1 (vw_view _ Hs)) as [Hv _].
    destruct (snapshot_of s.1) as [st' r]. simpl in *.
    destruct (failure _); by apply device_wf_same.
  - by apply device_enqueue.
  - pose proof (table_step_wf s.1 (OpDeliver a n) I (vw_table _ Hs)) as Hw. simpl in *.
    destruct (deliverable_spec s.1 a n (vw_view _ Hs)) as [Hv _].
    destruct (deliverable s.1 a n) as [st' r]. simpl in *.
    destruct (failure _); by apply device_wf_same.
  - by apply device_acknowledge.
  - pose proof (table_step_wf s.1 OpCompactConfirmed I (vw_table _ Hs)) as Hw. simpl in *.
    pose proof (compact_confirmed_spec s.1 (vw_view _ Hs)) as H.
    destruct (compact_confirmed s.1) as [st' [n|e]]; simpl in *; cycle 1.
    { by apply device_wf_same; [| |apply H]. }
    destruct H as [Hv _]. destruct Hs as [H1 H2 H3 H4 H5 H6].
    split; simpl; rewrite ?Hv; simpl; try done; [by apply drop_through_wf|].
    etrans; [|exact H6]. by apply drop_through_suffix.
  - destruct (restart_table s.1 instance Hop (vw_table _ Hs)) as [Hw Hv]. by apply device_wf_same.
Qed.

Lemma device_run_wf s ops : device_wf s → Forall device_op_valid ops → device_wf (device_run s ops).
Proof.
  intros Hs Hops. revert s Hs. induction Hops as [|op ops Hop _ IH]; intros s Hs; [done|].
  simpl. by apply IH, device_step_wf.
Qed.

(** The pending rows are exactly the frames after the cursor. *)
Lemma device_frames s :
  device_wf s →
  0 ≤ confirmed s.2 ∧
  snap_frames (view s.1) = drop (Z.to_nat (confirmed s.2)) (accepted_frames s.2).
Proof.
  intros [H1 H2 H3 H4 H5 [k Hk]]. pose proof H2 as [Hack _ Hseq Hret _ _ _]. split; [lia|].
  assert (Hcount : frame_count (view s.1) = snap_highest (view s.1) - snap_ack (view s.1)).
  { unfold frame_count in *. destruct (snap_frames (view s.1)) as [|f fs] eqn:Ef; [simpl in *; lia|].
    simpl in Hseq. rewrite seqZ_cons in Hseq by lia. injection Hseq as Hf _.
    assert (Hr : snap_ack (view s.1) < sf_sequence f).
    { rewrite (bound_view _ H1) in *.
      assert (Hin : sf_sequence f ∈ sf_sequence <$> snap_frames (rows_view c node (rows s.1)))
        by (rewrite Ef; set_solver).
      apply view_frame_row in Hin as (r & -> & Hr)%list_elem_of_fmap.
      by apply (rw_pending _ (tw_rows _ H1)). }
    simpl in *. lia. }
  rewrite Hk. unfold frame_count in Hcount.
  assert (Hl : length (accepted_frames s.2) = (length k + length (snap_frames (view s.1)))%nat)
    by (rewrite Hk at 1; apply length_app).
  rewrite drop_app_ge by lia. replace (_ - _)%nat with O by lia. done.
Qed.

Lemma cursor_run l :
  rows_wf l →
  outbox_stream_cursor l node =
    Ok (max_of (row_envelope_sequence <$> published_rows node l),
        max_of (row_envelope_sequence <$> stream_rows node l)).
Proof.
  intros Hwf. assert (Hcur : ∀ k, (∀ n, n ∈ k → 0 < n) → to_cursor (max_of k) = Ok (max_of k)).
  { intros k Hk. destruct (max_of k) as [m|] eqn:E; [|done]. simpl.
    apply max_of_Some in E as [Hm%Hk _]. by rewrite refuse_run by lia. }
  unfold outbox_stream_cursor. rewrite !Hcur; [done| |].
  - intros n Hn. by apply (published_positive _ _ Hwf) in Hn as [_ ?].
  - intros n. apply (rw_positive _ Hwf).
Qed.

Lemma frames_run l :
  rows_wf l → mapM (stored_frame_from_row (c := c) node) (order_by_sequence (pending_rows node l)) =
    Ok (snap_frames (rows_view c node l)).
Proof.
  intros Hwf. simpl. assert (Hall : ∀ r, r ∈ order_by_sequence (pending_rows node l) →
    stored_frame_from_row (c := c) node r = Ok (frame_of_row c r)).
  { intros r Hr. by apply (rw_readable _ Hwf), (order_elem row_envelope_sequence). }
  induction (order_by_sequence _) as [|r k IH]; [done|]. simpl.
  rewrite (Hall r) by set_solver. simpl. rewrite IH by set_solver. done.
Qed.

(** A readable table loads what the memory stands for. *)
Lemma device_load s : device_wf s → (load s.1).2 = Ok (memory_snapshot s.2).
Proof.
  intros Hs. destruct (device_frames s Hs) as [Hc Hfs]. destruct Hs as [H1 H2 H3 H4 H5 H6].
  pose proof H1 as [Ho Hst Hrows]. rewrite (bound_view _ H1) in *. simpl. unfold stream_of, open_of.
  destruct (outbox_stream s.1) as [stream|]; [|done]. injection Hst as Hn. simpl. rewrite Ho. simpl.
  rewrite Hn, (cursor_run _ Hrows). simpl. unfold memory_snapshot.
  rewrite <-Hfs, <-H5, <-H4. simpl in H4 |- *. unfold highest_of in *.
  destruct (max_of (row_envelope_sequence <$> stream_rows node (rows s.1))) as [h|] eqn:Eh; simpl.
  - rewrite frames_run by done. simpl. destruct (accepted_frames s.2) eqn:Ea; [|done].
    apply max_of_Some in Eh as [Hh _]. apply (rw_positive _ Hrows) in Hh. simpl in H4. lia.
  - destruct (accepted_frames s.2); [done|]. simpl in H4. lia.
Qed.

(** C22. What the outbox accepted survives: over any run of the session's operations on a
    node's stream of the device database, with restarts under new instances in between, the
    database always loads, and loads exactly the frames whose enqueue succeeded after the
    last confirmed acknowledgement, in order and byte for byte, under the cursors they
    imply. *)
Theorem device_outbox_reads_back st ops :
  table_open st = true → stream_client_node_id <$> outbox_stream st = Some node →
  stream_rows node (rows st) = [] → Forall device_op_valid ops →
  let s := device_run (st, {| accepted_frames := []; confirmed := 0 |}) ops in
  (load s.1).2 = Ok (memory_snapshot s.2) ∧
  sf_sequence <$> accepted_frames s.2 = seqZ 1 (Z.of_nat (length (accepted_frames s.2))) ∧
  0 ≤ confirmed s.2 ≤ Z.of_nat (length (accepted_frames s.2)).
Proof.
  intros Ho Hst Hrows Hops s.
  assert (Hs : device_wf s).
  { apply device_run_wf; [|done].
    assert (Ht : table_wf st).
    { split; [done|done|]. split.
      - intros r. unfold pending_rows. rewrite Hrows. by intros ?%not_elem_of_nil.
      - intros n. rewrite Hrows. by intros ?%not_elem_of_nil.
      - intros r. unfold pending_rows. rewrite Hrows. by intros ?%not_elem_of_nil. }
    assert (Hv : view st = snapshot_default).
    { rewrite (bound_view _ Ht). unfold rows_view, ack_of, highest_of, published_rows, pending_rows.
      by rewrite Hrows. }
    split; simpl fst; rewrite ?Hv; try done. apply default_snapshot_wf. }
  split_and!; [by apply device_load|apply Hs|by apply device_frames|].
  pose proof (wf_ack _ (vw_view _ Hs)). rewrite (vw_confirmed _ Hs), (vw_highest _ Hs) in *. lia.
Qed.
End read_back.

(** ** Adoption by an enrolled node *)

Section adoption.
Context {M : Type} (c : OutboxCodec M).
Implicit Types st : OutboxTable c.

Lemma adopt_row_Ok placeholder enrolled r r' :
  adopt_row (c := c) placeholder enrolled r = Ok r' →
  row_client_node_id r' = enrolled ∧ row_envelope_sequence r' = row_envelope_sequence r ∧
  row_published r' = true.
Proof. unfold adopt_row. intros H. by inv_result. Qed.

Lemma adopt_rows_Ok placeholder enrolled published l l' :
  adopt_rows (c := c) placeholder enrolled published l = Ok (tt, l') →
  ∃ adopted, l' = l ++ adopted ∧
    row_envelope_sequence <$> adopted = row_envelope_sequence <$> published ∧
    Forall (λ r, row_client_node_id r = enrolled ∧ row_published r = true) adopted.
Proof.
  revert l. induction published as [|r published IH]; intros l; simpl.
  { intros [_ ->]%ret_Ok. exists []. by rewrite app_nil_r. }
  intros (r' & l1 & [Hr ->]%lift_Ok & ([] & l2 & Hi & E)%tx_bind_Ok)%tx_bind_Ok.
  unfold execute, insert_row in Hi. inv_result. apply adopt_row_Ok in Hr as (Hn & Hs & Hp).
  apply IH in E as (adopted & -> & Hseq & Hall). exists (r' :: adopted).
  rewrite <-app_assoc. split_and!; [done|by rewrite !fmap_cons, Hs, Hseq|by constructor].
Qed.

Lemma max_of_ext k l : (∀ n, n ∈ k ↔ n ∈ l) → max_of k = max_of l.
Proof.
  intros Hkl. apply option_eq. intros m. rewrite !max_of_Some. setoid_rewrite Hkl. done.
Qed.

(** An enrolled node continues the stream where the placeholder's was confirmed: a
    successful adoption leaves the enrolled node's stream empty, with both cursors at the
    last acknowledged sequence of the placeholder, so the next frame gets the next number;
    the rows of every other node are untouched. *)
Theorem adoption_resumes st st' placeholder enrolled :
  adopt_enrolled_stream st placeholder enrolled = (st', Ok tt) →
  stream_client_node_id <$> outbox_stream st' = Some enrolled ∧
  rows_view c enrolled (rows st') =
    {| snap_ack := ack_of placeholder (rows st); snap_highest := ack_of placeholder (rows st);
       snap_frames := [] |} ∧
  ∀ node, node ≠ enrolled → stream_rows node (rows st') = stream_rows node (rows st).
Proof.
  unfold adopt_enrolled_stream. destruct (_ ≫= _) as [stream|]; [|done].
  destruct (commit _ _) as [l [[]|e]] eqn:E; [|done]. intros [= <-]. simpl. split; [done|].
  apply commit_Ok, tx_bind_Ok in E as (existing & l1 & [[= <-] ->]%query_Ok & E).
  apply tx_bind_Ok in E as ([] & l2 & [Hex ->]%lift_Ok & E).
  apply tx_bind_Ok in E as (published & l3 & [[= <-] ->]%query_Ok & E).
  apply adopt_rows_Ok in E as (adopted & -> & Hseq & Hall).
  apply refuse_Ok, bool_decide_eq_false, eq_None_not_Some, max_of_None, fmap_nil_inv in Hex.
  assert (Hnew : stream_rows enrolled (rows st ++ adopted) = adopted).
  { unfold stream_rows in *. rewrite filter_app, Hex. simpl. apply filter_all.
    eapply Forall_impl; [exact Hall|]. naive_solver. }
  assert (Hpub : published_rows enrolled (rows st ++ adopted) = adopted).
  { unfold published_rows. rewrite Hnew. apply filter_all.
    eapply Forall_impl; [exact Hall|]. naive_solver. }
  assert (Hmax : default 0 (max_of (row_envelope_sequence <$> adopted)) = ack_of placeholder (rows st)).
  { rewrite Hseq. unfold ack_of. f_equal. apply max_of_ext. intros n. rewrite !list_elem_of_fmap.
    by setoid_rewrite order_elem. }
  split.
  - unfold rows_view, ack_of at 1, highest_of, pending_rows. rewrite Hnew, Hpub, Hmax. f_equal.
    rewrite filter_none; [done|]. eapply Forall_impl; [exact Hall|]. intros r [_ Hr]. by rewrite Hr.
  - intros node Hne. unfold stream_rows. rewrite filter_app, (filter_none _ adopted), app_nil_r; [done|].
    eapply Forall_impl; [exact Hall|]. naive_solver.
Qed.
End adoption.

(** ** Witnesses *)

#[global] Instance Envelope_eq_dec {M} `{EqDecision M} : EqDecision (Envelope M).
Proof. solve_decision. Defined.

Definition outbox_envelope (node instance id : string) (n : Z) : Envelope () :=
  {| schema_version := CLIENT_CONTROL_PORT_SCHEMA_VERSION; message_id := id; client_node_id := node;
     client_instance_id := instance; sequence := n; occurred_at := "now"; message := tt |}%string.

Definition sample_codec : OutboxCodec () :=
  {| sha256_hex := λ _, "00"%string; json_message := unit_json;
     json_envelope := table_json
       [outbox_envelope "node" "inst" "a" 1; outbox_envelope "node" "inst" "b" 2;
        outbox_envelope "node" "inst2" "c" 3; outbox_envelope "enrolled" "inst" "a" 1];
     kind_of := λ _, Ok "heartbeat"%string |}.

#[global] Instance sample_codec_ok : CodecOk sample_codec.
Proof. apply table_json_round_trip. Qed.

Definition sample_table : OutboxTable sample_codec :=
  {| table_open := true; rows := [];
     outbox_stream := Some {| stream_client_node_id := "node"; stream_client_instance_id := "inst" |} |}.

Definition sealed_frame (id : string) (n : Z) (b : Byte.byte) : StoredFrame :=
  {| sf_message_id := id; sf_sequence := n; sf_payload_digest := "sha256:00"; sf_frame := [b] |}.

(** Two frames, a restart, one frame of the new instance,
    the first acknowledged, compaction. *)
Definition sample_device_ops : list DeviceOp :=
  [DevSession (OpEnqueue 1 (sealed_frame "a" 1 Byte.x00));
   DevSession (OpEnqueue 2 (sealed_frame "b" 2 Byte.x01)); DevRestart "inst2";
   DevSession (OpEnqueue 3 (sealed_frame "c" 3 Byte.x02)); DevSession (OpAcknowledge 1);
   DevSession OpCompactConfirmed].

Lemma device_outbox_reads_back_witness :
  (load (device_run sample_codec "node" (sample_table, {| accepted_frames := []; confirmed := 0 |})
     sample_device_ops).1).2 =
  Ok (Some {| snap_ack := 1; snap_highest := 3;
              snap_frames := [sealed_frame "b" 2 Byte.x01; sealed_frame "c" 3 Byte.x02] |}).
Proof.
  assert (Hops : Forall (device_op_valid sample_codec) sample_device_ops).
  { repeat constructor; simpl; try (vm_compute; reflexivity).
    - exists (outbox_envelope "node" "inst" "a" 1). split; vm_compute; reflexivity.
    - exists (outbox_envelope "node" "inst" "b" 2). split; vm_compute; reflexivity.
    - exists (outbox_envelope "node" "inst2" "c" 3). split; vm_compute; reflexivity. }
  rewrite (proj1 (device_outbox_reads_back sample_codec "node" ltac:(vm_compute; reflexivity)
    sample_table sample_device_ops eq_refl eq_refl eq_refl Hops)).
  vm_compute. reflexivity.
Defined.

Definition published_table : OutboxTable sample_codec :=
  (device_run sample_codec "node" (sample_table, {| accepted_frames := []; confirmed := 0 |})
    (take 2 sample_device_ops ++ [DevSession (OpAcknowledge 1)])).1.

Lemma adoption_resumes_witness :
  rows_view sample_codec "enrolled" (rows (adopt_enrolled_stream published_table "node" "enrolled").1) =
    {| snap_ack := 1; snap_highest := 1; snap_frames := [] |}.
Proof.
  exact (proj1 (proj2 (adoption_resumes sample_codec published_table
    (adopt_enrolled_stream published_table "node" "enrolled").1 "node" "enrolled"
    ltac:(vm_compute; reflexivity)))).
Defined.
