(* ===== verification/Daemon.v ===== *)
(** * The device daemon's occupancy handlers

    Models, of [crates/winwincode-device-client/src/daemon.rs], the handlers of the server's
    occupancy commands ([apply_occupancy_offer], [apply_occupancy_release],
    [apply_occupancy_force_fence]), [enqueue], which seals an answer and puts it in the
    outbox, and what [start] reads of the store.  The daemon keeps a copy of the occupancy
    mirror beside the store of [Fencing]; its outbox is any [FrameOutbox] of [Outbox].
    Stopping worker processes and reporting recovered applications are arguments of the
    handlers, as are the clock and the serialiser. *)

From Stdlib Require Import String.
From S2P Require Import Prelude Text Numerals Fencing Transaction.
From S2P Require Frame Outbox.
Local Open Scope Z_scope.

(** ** Messages *)

Record CommandContext : Type := {
  expected_revision : Z;
  ctx_idempotency_key : string
}.

Record OccupancyCommandContext : Type := {
  command : CommandContext;
  stamp_lease_id : string;
  stamp_fencing_token : Z
}.

Inductive OccupancyRejectReason : Type :=
| RejectUnknownLease
| RejectStaleFencingToken
| RejectLocalStateConflict
| RejectClientLocked
| RejectCapacityExhausted.

Inductive CommandAckStatus : Type :=
| AckAccepted
| AckDuplicate
| RejectedUnknownCommand
| RejectedRevisionConflict
| RejectedStaleFencingToken
| RejectedLeaseMismatch
| RejectedWrongState
| RejectedUnauthorized
| RejectedCapacityExhausted.

#[global] Instance CommandAckStatus_eq_dec : EqDecision CommandAckStatus.
Proof. solve_decision. Defined.

Record ClientControlError : Type := {
  code : Code.ClientControlErrorCode;
  error_message : string;
  retryable : bool
}.

(** The commands the occupancy handlers answer. *)
Inductive ClientControlMessageKind : Type :=
| KindOccupancyRelease
| KindOccupancyForceFence.

Record ClientCommandAckPayload : Type := {
  command_kind : ClientControlMessageKind;
  ack_command_message_id : string;
  status : CommandAckStatus;
  current_revision : option Z;
  error : option ClientControlError
}.

(** The messages the occupancy handlers send. *)
Inductive ClientToServerMessage : Type :=
| OccupancyAck (occupancy : OccupancyCommandContext)
| OccupancyRejected (occupancy : OccupancyCommandContext) (reason : OccupancyRejectReason)
| CommandAck (payload : ClientCommandAckPayload).

Record ServerOccupancyOfferPayload : Type := {
  offer_occupancy : OccupancyCommandContext;
  offer_claim_request_id : string;
  offer_claimed_at : string;
  offer_holder_user_id : string;
  offer_idle_expires_at : option string
}.

Record ServerOccupancyReleasePayload : Type := {
  release_occupancy : OccupancyCommandContext;
  release_mode : ClientOccupancyReleaseMode
}.

(** The reason and the superseded lease of the payload are not used by the daemon. *)
Record ServerOccupancyForceFencePayload : Type := {
  fence_occupancy : OccupancyCommandContext
}.

(** ** The daemon *)

Inductive ClientLockState : Type :=
| Unlocked
| Locked.

#[global] Instance ClientLockState_eq_dec : EqDecision ClientLockState.
Proof. solve_decision. Defined.

(** The text of [Config] and [Protocol] errors is left out. *)
Inductive DaemonError : Type :=
| Config
| Network
| Store (e : DeviceStoreError)
| CorruptOutbox (e : Outbox.OutboxStateError)
| Protocol.

Record DaemonStatus : Type := {
  occupancy_offers_acked : Z;
  occupancy_offers_rejected : Z;
  occupancy_release_intents_recorded : Z;
  occupancy_force_fences_applied : Z;
  workers_stopped_on_release : Z
}.

(** The fields of [DeviceDaemon] the handlers use.  The store's occupancy tables are
    [store], its outbox [outbox], and [worker_rows] gives the lease of each row of
    [worker_process_registry]; [has_supervisor] is [worker_supervisor.is_some()]. *)
Record DeviceDaemon (O : Type) : Type := {
  store : DeviceStore;
  outbox : O;
  worker_rows : gmap string string;
  node_id : string;
  instance_id : string;
  lock_state : ClientLockState;
  daemon_mirror : option OccupancyMirrorRecord;
  has_supervisor : bool;
  counters : DaemonStatus
}.
Arguments store {O} _.
Arguments outbox {O} _.
Arguments worker_rows {O} _.
Arguments node_id {O} _.
Arguments instance_id {O} _.
Arguments lock_state {O} _.
Arguments daemon_mirror {O} _.
Arguments has_supervisor {O} _.
Arguments counters {O} _.

Definition set_store {O} (d : DeviceDaemon O) (s : DeviceStore) : DeviceDaemon O :=
  {| store := s; outbox := outbox d; worker_rows := worker_rows d; node_id := node_id d;
     instance_id := instance_id d; lock_state := lock_state d; daemon_mirror := daemon_mirror d;
     has_supervisor := has_supervisor d; counters := counters d |}.

Definition set_outbox {O} (d : DeviceDaemon O) (o : O) : DeviceDaemon O :=
  {| store := store d; outbox := o; worker_rows := worker_rows d; node_id := node_id d;
     instance_id := instance_id d; lock_state := lock_state d; daemon_mirror := daemon_mirror d;
     has_supervisor := has_supervisor d; counters := counters d |}.

Definition set_mirror {O} (d : DeviceDaemon O) (m : option OccupancyMirrorRecord) : DeviceDaemon O :=
  {| store := store d; outbox := outbox d; worker_rows := worker_rows d; node_id := node_id d;
     instance_id := instance_id d; lock_state := lock_state d; daemon_mirror := m;
     has_supervisor := has_supervisor d; counters := counters d |}.

(** Each counter's [+= n]. *)
Definition count {O} (acked rejected recorded fenced stopped : Z) (d : DeviceDaemon O) :
    DeviceDaemon O :=
  {| store := store d; outbox := outbox d; worker_rows := worker_rows d; node_id := node_id d;
     instance_id := instance_id d; lock_state := lock_state d; daemon_mirror := daemon_mirror d;
     has_supervisor := has_supervisor d;
     counters :=
       {| occupancy_offers_acked := occupancy_offers_acked (counters d) + acked;
          occupancy_offers_rejected := occupancy_offers_rejected (counters d) + rejected;
          occupancy_release_intents_recorded :=
            occupancy_release_intents_recorded (counters d) + recorded;
          occupancy_force_fences_applied := occupancy_force_fences_applied (counters d) + fenced;
          workers_stopped_on_release := workers_stopped_on_release (counters d) + stopped |} |}.

(** ** Texts *)

Definition reject_reason_slug (r : OccupancyRejectReason) : string :=
  match r with
  | RejectUnknownLease => "unknown-lease"
  | RejectStaleFencingToken => "stale-fencing-token"
  | RejectLocalStateConflict => "local-state-conflict"
  | RejectClientLocked => "client-locked"
  | RejectCapacityExhausted => "capacity-exhausted"
  end.

Definition fencing_rejection_status (r : FencingRejection) : CommandAckStatus :=
  match r with
  | MirrorNotSet => RejectedLeaseMismatch
  | StaleFencingToken | SupersededIntent => RejectedStaleFencingToken
  end.

Definition control_error (c : Code.ClientControlErrorCode) (r : FencingRejection) :
    ClientControlError :=
  let '(text, again) :=
    match r with
    | MirrorNotSet => ("the device holds no occupancy mirror", false)
    | StaleFencingToken => ("the occupancy fencing token is not the current mirror stamp", false)
    | SupersededIntent => ("the mirror advanced after this intent was authorized", true)
    end%string in
  {| code := c; error_message := text; retryable := again |}.

Definition command_ack_message (kind : ClientControlMessageKind) (command_message_id : string)
    (s : CommandAckStatus) (revision : option Z) (e : option ClientControlError) :
    ClientToServerMessage :=
  CommandAck {| command_kind := kind; ack_command_message_id := command_message_id; status := s;
                current_revision := revision; error := e |}.

Definition mirror_is_exact (m : OccupancyMirrorRecord) (stamp : OccupancyCommandContext) : bool :=
  bool_decide (occupancy_lease_id m = stamp_lease_id stamp) &&
  (fencing_token m =? stamp_fencing_token stamp).

Definition occupancy_ack_message (r : OccupancyMirrorRecord) : ClientToServerMessage :=
  OccupancyAck
    {| command := {| expected_revision := mirror_revision r;
                     ctx_idempotency_key := "occupancy-ack-" ++ occupancy_lease_id r ++ "-" ++
                                            decimal (fencing_token r) |};
       stamp_lease_id := occupancy_lease_id r; stamp_fencing_token := fencing_token r |}.

(** ** Handlers *)

(** What the handlers call outside this file: the serialiser, the worker processes (through
    the supervisor, or through the controller when there is none), and the report of
    applications found after a restart, which works on other tables of the store and on the
    outbox. *)
Record Collaborators (O : Type) : Type := {
  envelope_kind : ClientToServerMessage → result DeviceStoreError string;
  sha256_hex : list Byte.byte → string;
  json_message : Frame.Json ClientToServerMessage;
  json_envelope : Frame.Json (Frame.Envelope ClientToServerMessage);
  codec : Frame.FrameCodec;
  supervisor_stop_lease : string → result DaemonError Z;
  controller_stop_lease : string → Z;
  supervisor_stop_fenced : string → Z → result DaemonError ();
  report_applications : act (DeviceDaemon O) DaemonError nat
}.
Arguments envelope_kind {O} _ _.
Arguments sha256_hex {O} _ _.
Arguments json_message {O} _.
Arguments json_envelope {O} _.
Arguments codec {O} _.
Arguments supervisor_stop_lease {O} _ _.
Arguments controller_stop_lease {O} _ _.
Arguments supervisor_stop_fenced {O} _ _ _.
Arguments report_applications {O} _ _.

Definition fatal_outbox (e : Outbox.OutboxError DeviceStoreError) : DaemonError :=
  match e with
  | Outbox.CorruptState s => CorruptOutbox s
  | Outbox.Store s => Store s
  | _ => Protocol
  end.

Section handlers.
Context {O : Type} `{!Outbox.FrameOutbox O DeviceStoreError} (env : Collaborators O).

Abbreviation handler A := (act (DeviceDaemon O) DaemonError A).

(** An operation of the outbox, run on the daemon's. *)
Definition on_outbox {A} (f : O → O * result (Outbox.OutboxError DeviceStoreError) A) : handler A :=
  λ d, let '(o, r) := f (outbox d) in (set_outbox d o, map_err fatal_outbox r).

Definition frame_message_id (d : DeviceDaemon O) (kind : string) (sequence : Z) : string :=
  node_id d ++ "-" ++ kind ++ "-" ++ decimal sequence.

Definition enqueue (now : string) (m : ClientToServerMessage) : handler Z :=
  expected ← on_outbox Outbox.next_sequence;
  kind ← attempt (map_err Store (envelope_kind env m));
  stored ← attempt_with (λ d,
    map_err (λ _, Protocol)
      (Frame.encode_envelope (sha256_hex env) (json_message env) (json_envelope env) (codec env)
         {| Frame.schema_version := Frame.CLIENT_CONTROL_PORT_SCHEMA_VERSION;
            Frame.message_id := frame_message_id d kind expected;
            Frame.client_node_id := node_id d; Frame.client_instance_id := instance_id d;
            Frame.sequence := expected; Frame.occurred_at := now; Frame.message := m |}));
  on_outbox (λ o, Outbox.enqueue o expected stored) ;;
  mret expected.

(** An operation of the device store that can change it. *)
Definition on_store {A} (f : DeviceStore → DeviceStore * store_result A) : handler (store_result A) :=
  λ d, let '(s, r) := f (store d) in (set_store d s, Ok r).

Definition current_revision_of (d : DeviceDaemon O) : Z :=
  match daemon_mirror d with Some m => mirror_revision m | None => 0 end.

Definition fencing_guard (d : DeviceDaemon O) : FencingGuard := guard_new (daemon_mirror d).

Definition ack_occupancy_mirror (now : string) (r : OccupancyMirrorRecord) : handler () :=
  modify (λ d, set_mirror d (Some r)) ;;
  enqueue now (occupancy_ack_message r) ;;
  report_applications env ;;
  modify (count 1 0 0 0 0).

Definition reject_occupancy_offer (now : string) (stamp : OccupancyCommandContext)
    (reason : OccupancyRejectReason) (revision : Z) : handler () :=
  enqueue now (OccupancyRejected
    {| command := {| expected_revision := revision;
                     ctx_idempotency_key :=
                       "occupancy-rejected-" ++ stamp_lease_id stamp ++ "-" ++
                       decimal (stamp_fencing_token stamp) ++ "-" ++ reject_reason_slug reason |};
       stamp_lease_id := stamp_lease_id stamp;
       stamp_fencing_token := stamp_fencing_token stamp |} reason) ;;
  modify (count 0 1 0 0 0).

(** The rest of [apply_occupancy_offer] once the offer is neither refused by a locked
    client nor the mirrored one. *)
Definition offer_update (acknowledged now : string) (payload : ServerOccupancyOfferPayload)
    (revision : Z) : handler () :=
  let stamp := offer_occupancy payload in
  if negb (expected_revision (command stamp) =? revision) then
    reject_occupancy_offer now stamp RejectLocalStateConflict revision
  else
    let update := {| upd_occupancy_lease_id := stamp_lease_id stamp;
                     upd_fencing_token := stamp_fencing_token stamp;
                     upd_holder_user_id := Some (offer_holder_user_id payload);
                     upd_claim_request_id := Some (offer_claim_request_id payload);
                     upd_idle_expires_at := offer_idle_expires_at payload;
                     upd_acknowledged_at := acknowledged |} in
    advanced ← on_store (λ s, advance_occupancy_mirror s update);
    match advanced with
    | Ok (Advanced record) | Ok (Unchanged record) => ack_occupancy_mirror now record
    | Err Conflict => reject_occupancy_offer now stamp RejectStaleFencingToken revision
    | Err e => attempt (Err (Store e))
    end.

Definition apply_occupancy_offer (acknowledged now : string) (payload : ServerOccupancyOfferPayload) :
    handler () :=
  let stamp := offer_occupancy payload in
  with_state current_revision_of (λ revision,
  with_state lock_state (λ lock,
  if bool_decide (lock = Locked) then reject_occupancy_offer now stamp RejectClientLocked revision
  else
    with_state daemon_mirror (λ mirror,
    match mirror with
    | Some record =>
        if mirror_is_exact record stamp then ack_occupancy_mirror now record
        else offer_update acknowledged now payload revision
    | None => offer_update acknowledged now payload revision
    end))).

(** [DeviceStore::count_lease_worker_sessions]. *)
Definition count_lease_worker_sessions (d : DeviceDaemon O) (lease : string) : store_result Z :=
  require_non_empty lease MAX_ID_BYTES ;;
  connection (store d) ;;
  Ok (Z.of_nat (size (filter (λ kv, kv.2 = lease) (worker_rows d)))).

Definition stop_occupancy_workers (d : DeviceDaemon O) (lease : string) : result DaemonError Z :=
  if has_supervisor d then supervisor_stop_lease env lease
  else Ok (controller_stop_lease env lease).

Definition stop_fenced_workers (d : DeviceDaemon O) (lease : string) (token : Z) :
    result DaemonError () :=
  if has_supervisor d then supervisor_stop_fenced env lease token else Ok tt.

(** The [ack] closure of the release and the force fence. *)
Definition ack_command (now : string) (kind : ClientControlMessageKind) (id : string)
    (s : CommandAckStatus) (e : option ClientControlError) (revision : Z) : handler () :=
  enqueue now (command_ack_message kind id s (Some revision) e) ;; mret tt.

Definition apply_occupancy_release (recorded now : string) (payload : ServerOccupancyReleasePayload)
    (id : string) : handler () :=
  let stamp := release_occupancy payload in
  let ack := ack_command now KindOccupancyRelease id in
  with_state current_revision_of (λ revision,
  with_state (λ d, check_stamp (fencing_guard d) (stamp_lease_id stamp) (stamp_fencing_token stamp))
  (λ stamp_match,
  match stamp_match with
  | Err rejection =>
      ack (fencing_rejection_status rejection)
        (Some (control_error (wire_error_code rejection) rejection)) revision
  | Ok mirror =>
      let mirror_lease := occupancy_lease_id mirror in
      if negb (expected_revision (command stamp) =? mirror_revision mirror) then
        ack RejectedRevisionConflict
          (Some (control_error Code.RevisionConflict StaleFencingToken)) (mirror_revision mirror)
      else
        affected ← attempt_with (λ d, map_err Store (count_lease_worker_sessions d (stamp_lease_id stamp)));
        let intent := {| idempotency_key := ctx_idempotency_key (command stamp);
                         command_message_id := id; intent_lease_id := mirror_lease;
                         intent_fencing_token := stamp_fencing_token stamp;
                         mode := release_mode payload; affected_worker_sessions := affected;
                         recorded_at := recorded |} in
        outcome ← on_store (λ s, record_occupancy_release_intent s intent);
        outcome ← attempt (map_err Store outcome);
        outcome_status ← match outcome with
                         | Recorded _ => modify (count 0 0 1 0 0) ;; mret AckAccepted
                         | Duplicate _ => mret AckDuplicate
                         end;
        stopped ← with_state has_supervisor (λ supervised,
          if bool_decide (release_mode payload = CancelTasksAndRelease) &&
             (bool_decide (outcome_status = AckAccepted) || supervised)
          then attempt_with (λ d, stop_occupancy_workers d mirror_lease) else mret 0);
        modify (count 0 0 0 0 stopped) ;;
        ack outcome_status None (mirror_revision mirror)
  end)).

(** The update of a force fence keeps the holder of a mirror of the same lease. *)
Definition fence_update (acknowledged : string) (stamp : OccupancyCommandContext)
    (mirror : option OccupancyMirrorRecord) : OccupancyMirrorUpdate :=
  let '(holder, claim, idle) :=
    match mirror with
    | Some m => if bool_decide (occupancy_lease_id m = stamp_lease_id stamp)
                then (holder_user_id m, claim_request_id m, idle_expires_at m)
                else (None, None, None)
    | None => (None, None, None)
    end in
  {| upd_occupancy_lease_id := stamp_lease_id stamp;
     upd_fencing_token := stamp_fencing_token stamp; upd_holder_user_id := holder;
     upd_claim_request_id := claim; upd_idle_expires_at := idle;
     upd_acknowledged_at := acknowledged |}.

Definition apply_occupancy_force_fence (acknowledged now : string)
    (payload : ServerOccupancyForceFencePayload) (id : string) : handler () :=
  let stamp := fence_occupancy payload in
  let ack := ack_command now KindOccupancyForceFence id in
  with_state daemon_mirror (λ mirror,
  with_state current_revision_of (λ revision,
  if match mirror with Some m => mirror_is_exact m stamp | None => false end then
    attempt_with (λ d, stop_fenced_workers d (stamp_lease_id stamp) (stamp_fencing_token stamp)) ;;
    ack AckDuplicate None revision
  else if negb (expected_revision (command stamp) =? revision) then
    ack RejectedRevisionConflict (Some (control_error Code.RevisionConflict StaleFencingToken))
      revision
  else
    advanced ← on_store (λ s, advance_occupancy_mirror s (fence_update acknowledged stamp mirror));
    match advanced with
    | Ok (Advanced record) =>
        modify (λ d, set_mirror d (Some record)) ;;
        modify (count 0 0 0 1 0) ;;
        attempt_with (λ d, stop_fenced_workers d (stamp_lease_id stamp) (stamp_fencing_token stamp)) ;;
        ack AckAccepted None (mirror_revision record)
    | Ok (Unchanged record) =>
        modify (λ d, set_mirror d (Some record)) ;;
        ack AckDuplicate None revision
    | Err Conflict =>
        ack RejectedStaleFencingToken
          (Some (control_error Code.StaleFencingToken StaleFencingToken)) revision
    | Err e => attempt (Err (Store e))
    end)).

(** What [DeviceDaemon::start] does with the mirror: read it from the store. *)
Definition restart : handler () :=
  mirror ← attempt_with (λ d, map_err Store (occupancy_mirror (store d)));
  modify (λ d, set_mirror d mirror).
End handlers.
