(* ===== verification/Occupancy.v ===== *)
(** * Occupancy end to end

    Composes the server's occupancy ledger ([Ledger]) with a device's daemon ([Daemon]): the
    server claims a lease and offers it ([prepare_claim] of
    [crates/winwincode-server/src/client_occupancy.rs]), or releases one by force and fences
    the device with a new token ([force_release] there); the commands reach the daemon late,
    repeatedly, out of order or not at all; the daemon may fail in the middle of a handler
    and may restart.  The file shows that the daemon's copy of the mirror is always the
    stored one, and that a command is authorised only under a stamp the ledger issued and
    never after a newer one was mirrored. *)

From Stdlib Require Import String.
From S2P Require Import Prelude Text Fencing Transaction Daemon.
From S2P Require Ledger LedgerFacts Outbox.
Local Open Scope Z_scope.

(** ** The server *)

Definition occupancy_stamp (revision : Z) (lease : string) (token : Z) (key : string) :
    OccupancyCommandContext :=
  {| command := {| expected_revision := revision; ctx_idempotency_key := key |};
     stamp_lease_id := lease; stamp_fencing_token := token |}.

Inductive ServerCommand : Type :=
| OccupancyOffer (payload : ServerOccupancyOfferPayload)
| OccupancyRelease (payload : ServerOccupancyReleasePayload)
| OccupancyForceFence (payload : ServerOccupancyForceFencePayload).

(** The offer of a claimed lease; [revision] is the server's view of the mirror's. *)
Definition offer_of (revision : Z) (r : Ledger.OccupancyLeaseRecord) (now : string) : ServerCommand :=
  OccupancyOffer
    {| offer_occupancy := occupancy_stamp revision (Ledger.occupancy_lease_id r)
                            (Ledger.fencing_token r) ("idem_offer_" ++ Ledger.occupancy_lease_id r);
       offer_claim_request_id := Ledger.claim_request_id r;
       offer_claimed_at := default now (Ledger.claimed_at r);
       offer_holder_user_id := Ledger.holder_user_id r;
       offer_idle_expires_at := Ledger.idle_expires_at r |}.

(** The claim of [prepare_claim] on the ledger and the command it sends. *)
Definition server_claim (l : Ledger.Ledger) (c : Ledger.OccupancyClaim) (now : string) (revision : Z) :
    Ledger.Ledger * option ServerCommand :=
  match commit l (Ledger.atomic_claim c now) with
  | (l, Ok r) => (l, Some (offer_of revision r now))
  | (l, Err _) => (l, None)
  end.

(** [force_release]: each ledger operation is its own transaction. *)
Definition server_force_release (l : Ledger.Ledger) (node now : string) (revision : Z) :
    Ledger.Ledger * option ServerCommand :=
  match (commit l (Ledger.active_lease_for_node node)).2 with
  | Ok (Some lease) =>
      if negb (bool_decide (Ledger.state lease = Ledger.RecoveryPending)) then (l, None) else
      match Ledger.recovery_deadline_at lease with
      | None => (l, None)
      | Some deadline =>
          if str_ltb now deadline then (l, None) else
          match commit l (Ledger.force_release (Ledger.occupancy_lease_id lease) now) with
          | (l, Err _) => (l, None)
          | (l, Ok released) =>
              match commit l Ledger.mint_fencing_token with
              | (l, Err _) => (l, None)
              | (l, Ok token) =>
                  (l, Some (OccupancyForceFence
                    {| fence_occupancy := occupancy_stamp revision
                         (Ledger.occupancy_lease_id released) token
                         ("idem_force_fence_" ++ Ledger.occupancy_lease_id released) |}))
              end
          end
      end
  | _ => (l, None)
  end.

(** ** The system *)

Section system.
Context {O : Type} `{!Outbox.FrameOutbox O DeviceStoreError} (env : Collaborators O).

(** The ledger, one device's daemon, and every command ever sent to it. *)
Record System : Type := {
  ledger : Ledger.Ledger;
  daemon : DeviceDaemon O;
  sent : list ServerCommand
}.

Definition deliver (acknowledged now id : string) (c : ServerCommand) (d : DeviceDaemon O) :
    DeviceDaemon O :=
  match c with
  | OccupancyOffer p => (apply_occupancy_offer env acknowledged now p d).1
  | OccupancyRelease p => (apply_occupancy_release env acknowledged now p id d).1
  | OccupancyForceFence p => (apply_occupancy_force_fence env acknowledged now p id d).1
  end.

(** A step: any operation of the ledger, a claim or forced release for this device, the
    delivery of any command sent so far or of any release, a restart, a change of the lock. *)
Inductive SystemOp : Type :=
| SysLedger (op : LedgerFacts.LedgerOp)
| SysClaim (c : Ledger.OccupancyClaim) (now : string) (revision : Z)
| SysForceRelease (now : string) (revision : Z)
| SysDeliver (i : nat) (acknowledged now id : string)
| SysRelease (p : ServerOccupancyReleasePayload) (recorded now id : string)
| SysRestart
| SysLock (s : ClientLockState).

Definition send (s : System) (r : Ledger.Ledger * option ServerCommand) : System :=
  {| ledger := r.1; daemon := daemon s; sent := sent s ++ option_list r.2 |}.

Definition set_daemon (s : System) (d : DeviceDaemon O) : System :=
  {| ledger := ledger s; daemon := d; sent := sent s |}.

Definition set_lock (d : DeviceDaemon O) (l : ClientLockState) : DeviceDaemon O :=
  {| store := store d; outbox := outbox d; worker_rows := worker_rows d; node_id := node_id d;
     instance_id := instance_id d; lock_state := l; daemon_mirror := daemon_mirror d;
     has_supervisor := has_supervisor d; counters := counters d |}.

Definition system_step (s : System) (op : SystemOp) : System :=
  match op with
  | SysLedger op =>
      {| ledger := LedgerFacts.ledger_step (ledger s) op; daemon := daemon s; sent := sent s |}
  | SysClaim c now revision =>
      if bool_decide (Ledger.cl_client_node_id c = node_id (daemon s))
      then send s (server_claim (ledger s) c now revision) else s
  | SysForceRelease now revision =>
      send s (server_force_release (ledger s) (node_id (daemon s)) now revision)
  | SysDeliver i acknowledged now id =>
      match sent s !! i with
      | Some c => set_daemon s (deliver acknowledged now id c (daemon s))
      | None => s
      end
  | SysRelease p recorded now id =>
      set_daemon s (deliver recorded now id (OccupancyRelease p) (daemon s))
  | SysRestart => set_daemon s (restart (daemon s)).1
  | SysLock l => set_daemon s (set_lock (daemon s) l)
  end.

Definition system_run (s : System) (ops : list SystemOp) : System := foldl system_step s ops.

(** ** The daemon's invariant *)

(** The report of recovered applications leaves the occupancy alone. *)
Definition collaborators_ok : Prop :=
  ∀ d, let d' := (report_applications env d).1 in
    store d' = store d ∧ daemon_mirror d' = daemon_mirror d ∧ node_id d' = node_id d.

(** [d'] is [d] as far as the occupancy goes. *)
Definition quiet (d d' : DeviceDaemon O) : Prop :=
  store d' = store d ∧ daemon_mirror d' = daemon_mirror d ∧ node_id d' = node_id d.

(** The copy of the mirror is the stored one. *)
Record daemon_wf (d : DeviceDaemon O) : Prop := {
  dw_mirror : daemon_mirror d = mirror_row (store d);
  dw_positive : mirror_positive (store d);
  dw_open : connection_open (store d) = true
}.

(** A handler's effect: the daemon stays coherent, and the mirror is untouched or is now
    [stamp], with a larger token. *)
Record daemon_step_ok (stamp : option (string * Z * option string)) (d d' : DeviceDaemon O) : Prop := {
  ds_wf : daemon_wf d';
  ds_node : node_id d' = node_id d;
  ds_mirror : mirror_le (daemon_mirror d) (daemon_mirror d');
  ds_stamp : daemon_mirror d' = daemon_mirror d ∨
    ∃ m lease token holder, stamp = Some (lease, token, holder) ∧ daemon_mirror d' = Some m ∧
      occupancy_lease_id m = lease ∧ fencing_token m = token ∧ holder_user_id m = holder
}.

#[local] Instance quiet_preorder : PreOrder quiet.
Proof.
  split; [done|]. intros d1 d2 d3 (? & ? & ?) (? & ? & ?). split_and!; congruence.
Qed.

Lemma quiet_ok stamp d d' : daemon_wf d → quiet d d' → daemon_step_ok stamp d d'.
Proof.
  intros [H1 H2 H3] (Hs & Hm & Hn). split; [split; congruence|done|rewrite Hm; by left|by left].
Qed.

Lemma quiet_bind {A B} d (m : act (DeviceDaemon O) DaemonError A)
    (f : A → act (DeviceDaemon O) DaemonError B) :
  quiet d (m d).1 → (∀ a d', quiet d d' → quiet d' (f a d').1) → quiet d ((m ≫= f) d).1.
Proof.
  intros Hm Hf. apply act_bind_keeps; [done|]. intros a d' Hd. etrans; [exact Hd|]. by apply Hf.
Qed.

Lemma on_outbox_quiet {A} (f : O → O * result (Outbox.OutboxError DeviceStoreError) A) d :
  quiet d (on_outbox f d).1.
Proof. unfold on_outbox. by destruct (f (outbox d)). Qed.

Lemma enqueue_quiet now m d : quiet d (enqueue env now m d).1.
Proof.
  unfold enqueue. apply quiet_bind; [apply on_outbox_quiet|]. intros n d1 _.
  apply quiet_bind; [done|]. intros k d2 _. apply quiet_bind; [done|]. intros f d3 _.
  apply quiet_bind; [apply on_outbox_quiet|]. done.
Qed.

Lemma ack_command_quiet now kind id st e revision d :
  quiet d (ack_command env now kind id st e revision d).1.
Proof. unfold ack_command. apply quiet_bind; [apply enqueue_quiet|done]. Qed.

Lemma reject_quiet now stamp reason revision d :
  quiet d (reject_occupancy_offer env now stamp reason revision d).1.
Proof. unfold reject_occupancy_offer. apply quiet_bind; [apply enqueue_quiet|done]. Qed.

Lemma ack_mirror_quiet now r d :
  collaborators_ok → quiet (set_mirror d (Some r)) (ack_occupancy_mirror env now r d).1.
Proof.
  intros Henv. change (ack_occupancy_mirror env now r d) with
    ((enqueue env now (occupancy_ack_message r) ;; report_applications env ;; modify (count 1 0 0 0 0))
       (set_mirror d (Some r))).
  apply quiet_bind; [apply enqueue_quiet|]. intros _ d1 _. apply quiet_bind; [apply Henv|done].
Qed.

(** An advance of the mirror followed by anything that sets the copy. *)
Lemma advance_ok d u s' m d' :
  daemon_wf d → advance_occupancy_mirror (store d) u = (s', Ok (Advanced m)) →
  quiet (set_mirror (set_store d s') (Some m)) d' →
  daemon_step_ok (Some (upd_occupancy_lease_id u, upd_fencing_token u, upd_holder_user_id u)) d d'.
Proof.
  intros [H1 H2 H3] Ha (Hs & Hm & Hn). pose proof (advance_next (store d) u) as Hnext.
  pose proof (advance_result _ _ _ _ Ha) as (Hrow & Hl & Ht & Hh).
  destruct (mirror_next_le _ _ H2 Hnext) as (Hle & Hpos & Hopen). rewrite Ha in *. simpl in *.
  split.
  - split; congruence.
  - done.
  - congruence.
  - right. by exists m, (upd_occupancy_lease_id u), (upd_fencing_token u), (upd_holder_user_id u).
Qed.

(** An advance that finds the mirror as it should be. *)
Lemma unchanged_ok stamp d u s' m d' :
  daemon_wf d → advance_occupancy_mirror (store d) u = (s', Ok (Unchanged m)) →
  quiet (set_mirror (set_store d s') (Some m)) d' → daemon_step_ok stamp d d'.
Proof.
  intros Hwf Ha (Hs & Hm & Hn). apply advance_result in Ha as [-> Hrow]. apply quiet_ok; [done|].
  split_and!; [done| |done]. rewrite Hm. simpl. by rewrite (dw_mirror _ Hwf), Hrow.
Qed.

Definition stamp_of_offer (p : ServerOccupancyOfferPayload) : string * Z * option string :=
  (stamp_lease_id (offer_occupancy p), stamp_fencing_token (offer_occupancy p),
   Some (offer_holder_user_id p)).

Lemma offer_ok acknowledged now p d :
  collaborators_ok → daemon_wf d →
  daemon_step_ok (Some (stamp_of_offer p)) d (apply_occupancy_offer env acknowledged now p d).1.
Proof.
  intros Henv Hwf. unfold apply_occupancy_offer, with_state.
  case_bool_decide; [apply quiet_ok, reject_quiet; done|].
  assert (Hupd : daemon_step_ok (Some (stamp_of_offer p)) d
    (offer_update env acknowledged now p (current_revision_of d) d).1).
  { unfold offer_update. case_match; [apply quiet_ok, reject_quiet; done|].
    unfold mbind, act_bind, on_store.
    destruct (advance_occupancy_mirror (store d) _) as [s' r] eqn:Ha.
    destruct r as [[m|m]|e].
    - apply (advance_ok d _ _ _ _ Hwf Ha). apply (ack_mirror_quiet now m (set_store d s') Henv).
    - apply (unchanged_ok _ d _ _ _ _ Hwf Ha). apply (ack_mirror_quiet now m (set_store d s') Henv).
    - apply advance_result in Ha as ->.
      apply quiet_ok; [done|]. destruct e; try done. etrans; [|apply reject_quiet]. done. }
  destruct (daemon_mirror d) as [m|] eqn:Em; [|done]. case_match; [|done].
  apply quiet_ok; [done|]. etrans; [|apply (ack_mirror_quiet now m d Henv)].
  split_and!; [done| |done]. by rewrite Em.
Qed.

Lemma release_ok recorded now p id d :
  daemon_wf d → daemon_step_ok None d (apply_occupancy_release env recorded now p id d).1.
Proof.
  intros Hwf. unfold apply_occupancy_release, with_state.
  destruct (check_stamp _ _ _) as [m|r]; [|apply quiet_ok, ack_command_quiet; done].
  case_match; [apply quiet_ok, ack_command_quiet; done|].
  unfold mbind at 1, act_bind at 1. unfold attempt_with.
  destruct (map_err _ _) as [affected|e]; [|by apply quiet_ok].
  unfold mbind at 1, act_bind at 1. unfold on_store.
  match goal with |- context [record_occupancy_release_intent _ ?i] =>
    destruct (release_mirror (store d) i) as [Hm Ho];
    destruct (record_occupancy_release_intent (store d) i) as [s' r] end.
  simpl in Hm, Ho. set (d1 := set_store d s').
  assert (Hwf1 : daemon_wf d1).
  { destruct Hwf as [H1 H2 H3]. split; simpl; [congruence| |congruence].
    unfold mirror_positive in *. by rewrite Hm. }
  assert (Hq : ∀ d', quiet d1 d' → daemon_step_ok None d d').
  { intros d' Hq. destruct (quiet_ok None d1 d' Hwf1 Hq) as [W1 W2 W3 W4].
    split; [done|done|done|]. left. by destruct Hq as (_ & -> & _). }
  apply Hq. clear Hq. apply quiet_bind; [done|]. intros outcome d2 _.
  apply quiet_bind; [by destruct outcome|]. intros st d3 _.
  apply quiet_bind; [by case_match|]. intros stopped d4 _.
  apply quiet_bind; [done|]. intros [] d5 _. apply ack_command_quiet.
Qed.

Lemma fence_ok acknowledged now p id d :
  daemon_wf d →
  daemon_step_ok (Some (stamp_lease_id (fence_occupancy p), stamp_fencing_token (fence_occupancy p),
      upd_holder_user_id (fence_update acknowledged (fence_occupancy p) (daemon_mirror d))))
    d (apply_occupancy_force_fence env acknowledged now p id d).1.
Proof.
  intros Hwf. unfold apply_occupancy_force_fence, with_state.
  match goal with |- context [if ?b then attempt_with _ ;; _ else _] => destruct b end.
  { apply quiet_ok; [done|]. apply quiet_bind; [done|]. intros [] d1 _. apply ack_command_quiet. }
  destruct (negb _); [apply quiet_ok, ack_command_quiet; done|].
  unfold mbind at 1, act_bind at 1, on_store at 1.
  destruct (advance_occupancy_mirror (store d) _) as [s' r] eqn:Ha.
  assert (stamp_lease_id (fence_occupancy p) =
      upd_occupancy_lease_id (fence_update acknowledged (fence_occupancy p) (daemon_mirror d)) ∧
    stamp_fencing_token (fence_occupancy p) =
      upd_fencing_token (fence_update acknowledged (fence_occupancy p) (daemon_mirror d))) as [-> ->].
  { unfold fence_update. destruct (daemon_mirror d); [case_bool_decide|]; done. }
  destruct r as [[m|m]|e].
  - apply (advance_ok d _ _ _ _ Hwf Ha).
    unfold mbind at 1, act_bind at 1, modify at 1. simpl.
    apply quiet_bind; [done|]. intros [] d1 _. apply quiet_bind; [done|]. intros [] d2 _.
    apply ack_command_quiet.
  - apply (unchanged_ok _ d _ _ _ _ Hwf Ha).
    unfold mbind at 1, act_bind at 1, modify at 1. simpl. apply ack_command_quiet.
  - apply advance_result in Ha as ->. apply quiet_ok; [done|]. destruct e; try done.
    etrans; [|apply ack_command_quiet]. done.
Qed.

Lemma restart_ok d : daemon_wf d → daemon_step_ok None d (restart d).1.
Proof.
  intros Hwf. apply quiet_ok; [done|]. unfold restart, mbind, act_bind, attempt_with.
  destruct (map_err Store _) as [o|e] eqn:E; [|done]. apply map_err_Ok in E.
  unfold occupancy_mirror in E. inv_result. apply read_Ok in E as ->.
  split_and!; [done|symmetry; apply Hwf|done].
Qed.
(** ** The system's invariant *)

(** The ledger issued the stamp to the device: it is a lease's own, or a later one that
    fences a lease released by force. *)
Definition issued_stamp (l : Ledger.Ledger) (node lease : string) (token : Z) (holder : option string) :
    Prop :=
  ∃ r, LedgerFacts.has_lease l r ∧ Ledger.occupancy_lease_id r = lease ∧
    Ledger.client_node_id r = node ∧ (holder = None ∨ holder = Some (Ledger.holder_user_id r)) ∧
    (token = Ledger.fencing_token r ∨
     Ledger.state r = Ledger.Released ∧ Ledger.release_reason r = Some Ledger.ForceReleased ∧
     Ledger.fencing_token r < token ≤ LedgerFacts.issued l).

Lemma issued_positive l node lease token holder :
  issued_stamp l node lease token holder → 0 < token.
Proof.
  intros (r & Hr & _ & _ & _ & [->|(_ & _ & Ht)]); destruct Hr as (_ & Hb & _); lia.
Qed.

Definition command_issued (l : Ledger.Ledger) (node : string) (c : ServerCommand) : Prop :=
  match c with
  | OccupancyOffer p =>
      let '(lease, token, holder) := stamp_of_offer p in issued_stamp l node lease token holder
  | OccupancyForceFence p =>
      issued_stamp l node (stamp_lease_id (fence_occupancy p)) (stamp_fencing_token (fence_occupancy p)) None
  | OccupancyRelease _ => True
  end.

Definition mirror_issued (l : Ledger.Ledger) (d : DeviceDaemon O) : Prop :=
  ∀ m, daemon_mirror d = Some m →
    issued_stamp l (node_id d) (occupancy_lease_id m) (fencing_token m) (holder_user_id m).

Record system_wf (s : System) : Prop := {
  sw_ledger : LedgerFacts.ledger_wf (ledger s);
  sw_daemon : daemon_wf (daemon s);
  sw_mirror : mirror_issued (ledger s) (daemon s);
  sw_sent : Forall (command_issued (ledger s) (node_id (daemon s))) (sent s)
}.

Lemma issued_stamp_step l op node lease token holder :
  LedgerFacts.ledger_wf l → issued_stamp l node lease token holder →
  issued_stamp (LedgerFacts.ledger_step l op) node lease token holder.
Proof.
  intros Hwf (r & Hr & Hid & Hn & Hh & Ht). pose proof (LedgerFacts.ledger_step_ok l op Hwf) as Hs.
  pose proof (LedgerFacts.so_issued _ _ _ Hs) as Hi.
  destruct (LedgerFacts.so_kept _ _ _ Hs r Hr) as [Hr'|(r' & Hr' & Hst & _)].
  - exists r. split_and!; try done. destruct Ht as [?|(? & ? & ?)]; [by left|].
    right. split_and!; try done; lia.
  - destruct Hst. exists r'. split_and!; try congruence.
    left. destruct Ht as [?|(Hrel & _)]; [congruence|]. by rewrite Hrel in st_active.
Qed.

Lemma command_issued_step l op node c :
  LedgerFacts.ledger_wf l → command_issued l node c →
  command_issued (LedgerFacts.ledger_step l op) node c.
Proof. intros Hwf. destruct c; simpl; [|done|]; by apply issued_stamp_step. Qed.

(** A step of the ledger keeps the system's invariant. *)
Lemma ledger_step_system s op l' :
  system_wf s → l' = LedgerFacts.ledger_step (ledger s) op →
  system_wf {| ledger := l'; daemon := daemon s; sent := sent s |}.
Proof.
  intros [H1 H2 H3 H4] ->. split; simpl.
  - apply LedgerFacts.ledger_step_ok, H1.
  - done.
  - intros m Hm. apply issued_stamp_step; [done|]. by apply H3.
  - eapply Forall_impl; [exact H4|]. intros c. by apply command_issued_step.
Qed.

Lemma send_system s c :
  system_wf s → command_issued (ledger s) (node_id (daemon s)) c →
  system_wf {| ledger := ledger s; daemon := daemon s; sent := sent s ++ [c] |}.
Proof.
  intros [H1 H2 H3 H4] Hc. split; simpl; try done. apply Forall_app. split; [done|].
  by apply Forall_cons; split; [|apply Forall_nil].
Qed.

Lemma send_none s : {| ledger := ledger s; daemon := daemon s; sent := sent s ++ [] |} = s.
Proof. rewrite app_nil_r. by destruct s. Qed.

Lemma claim_system s c now revision :
  system_wf s → Ledger.cl_client_node_id c = node_id (daemon s) →
  system_wf (send s (server_claim (ledger s) c now revision)).
Proof.
  intros Hwf Hnode. unfold server_claim.
  destruct (commit (ledger s) (Ledger.atomic_claim c now)) as [l' [r|e]] eqn:E; unfold send; simpl; cycle 1.
  { apply commit_Err in E as [_ ->]. by rewrite send_none. }
  assert (Hs : system_wf {| ledger := l'; daemon := daemon s; sent := sent s |}).
  { apply (ledger_step_system s (LedgerFacts.OpClaim c now)); [done|]. simpl. by rewrite E. }
  apply (send_system _ (offer_of revision r now) Hs). simpl.
  apply commit_Ok, (LedgerFacts.claim_iff _ _ _ _ _ (sw_ledger _ Hwf)) in E as (Hn & _ & Hid & Hlt & -> & ->).
  eexists. split; [|split_and!; [done|exact Hnode|by right|by left]].
  apply LedgerFacts.put_has_lease, LedgerFacts.claimed_record_ok; [|done].
  pose proof (LedgerFacts.wf_counter _ (sw_ledger _ Hwf)). lia.
Qed.

Lemma force_release_system s now revision :
  system_wf s → system_wf (send s (server_force_release (ledger s) (node_id (daemon s)) now revision)).
Proof.
  intros Hwf. assert (Hnone : system_wf (send s (ledger s, None))).
  { unfold send. simpl. by rewrite send_none. }
  unfold server_force_release. destruct (commit (ledger s) (Ledger.active_lease_for_node _)) as [la ra] eqn:Ea.
  destruct ra as [[lease|]|]; simpl; try done. apply commit_Ok in Ea.
  apply (LedgerFacts.active_lease_Ok _ _ _ _ (sw_ledger _ Hwf)) in Ea as (_ & Hlease & Hnode & _).
  destruct (negb _); [done|]. destruct (Ledger.recovery_deadline_at lease); [|done].
  destruct (str_ltb _ _); [done|].
  destruct (commit (ledger s) (Ledger.force_release _ now)) as [l1 [released|e]] eqn:Ef; cycle 1.
  { by apply commit_Err in Ef as [_ ->]. }
  assert (Hs1 : system_wf {| ledger := l1; daemon := daemon s; sent := sent s |}).
  { apply (ledger_step_system s (LedgerFacts.OpLease (Ledger.occupancy_lease_id lease)
      (LedgerFacts.ForceRelease now))); [done|]. simpl. by rewrite Ef. }
  assert (Hrel : LedgerFacts.has_lease l1 released ∧
    Ledger.occupancy_lease_id released = Ledger.occupancy_lease_id lease ∧
    Ledger.client_node_id released = Ledger.client_node_id lease ∧
    Ledger.state released = Ledger.Released ∧
    Ledger.release_reason released = Some Ledger.ForceReleased).
  { apply commit_Ok, (LedgerFacts.force_release_exact _ _ _ _ (sw_ledger _ Hwf)) in Ef
      as (Hv & r & Hr & Hid & Hout).
    rewrite (LedgerFacts.has_lease_inj _ _ _ Hr Hlease) in * by done.
    destruct Hout as [[[? ?] [= -> ->]]|(r' & Hm & _ & Hlt & [= -> ->])]; [done|].
    destruct (LedgerFacts.lease_move_steps _ _ _ _ Hv Hm (proj2 (proj2 (proj2 Hlease)))) as (Hst & Hi & [? ?]).
    split_and!; try done; try apply Hst. apply LedgerFacts.put_has_lease.
    by apply (LedgerFacts.steps_record_ok lease); [apply Hlease|..]. }
  destruct Hrel as (Hr1 & Hid1 & Hn1 & Hst1 & Hre1).
  destruct (commit l1 Ledger.mint_fencing_token) as [l2 [token|e]] eqn:Em; unfold send; simpl; cycle 1.
  { apply commit_Err in Em as [_ ->]. by rewrite app_nil_r. }
  assert (Hs2 : system_wf {| ledger := l2; daemon := daemon s; sent := sent s |}).
  { apply (ledger_step_system {| ledger := l1; daemon := daemon s; sent := sent s |}
      LedgerFacts.OpMint); [done|]. simpl. by rewrite Em. }
  apply (send_system _ (OccupancyForceFence _) Hs2). simpl.
  apply commit_Ok, (LedgerFacts.mint_iff _ _ _ (sw_ledger _ Hs1)) in Em as (Hlt & -> & ->).
  exists released. split_and!; try done; [congruence|by left|]. right. split_and!; try done.
  + pose proof (LedgerFacts.wf_issued _ (sw_ledger _ Hs1) released Hr1). simpl in *. lia.
Qed.

(** A handler keeps the system's invariant when its stamp was issued. *)
Lemma handler_system s stamp d' :
  system_wf s → daemon_step_ok stamp (daemon s) d' →
  match stamp with
  | Some (lease, token, holder) => issued_stamp (ledger s) (node_id (daemon s)) lease token holder
  | None => True
  end → system_wf (set_daemon s d').
Proof.
  intros [H1 H2 H3 H4] [W1 W2 W3 W4] Hst. split; simpl; try done.
  - intros m Hm. rewrite W2. destruct W4 as [He|(m' & le & tok & ho & -> & Hm' & <- & <- & <-)].
    + apply H3. congruence.
    + by simplify_eq.
  - by rewrite W2.
Qed.

(** The holder a force fence keeps is the one of the lease it fences. *)
Lemma fence_holder_issued s acknowledged p :
  system_wf s → command_issued (ledger s) (node_id (daemon s)) (OccupancyForceFence p) →
  issued_stamp (ledger s) (node_id (daemon s)) (stamp_lease_id (fence_occupancy p))
    (stamp_fencing_token (fence_occupancy p))
    (upd_holder_user_id (fence_update acknowledged (fence_occupancy p) (daemon_mirror (daemon s)))).
Proof.
  intros [_ _ Hmir _] (r & Hr & Hid & Hn & _ & Ht). exists r. split_and!; try done.
  unfold fence_update. destruct (daemon_mirror (daemon s)) as [m|] eqn:Em; [|by left].
  case_bool_decide as He; [|by left]. destruct (Hmir m Em) as (r' & Hr' & Hid' & _ & Hh & _).
  rewrite (LedgerFacts.has_lease_inj _ _ _ Hr' Hr) in Hh by congruence. done.
Qed.

(** The effect of a step on the daemon. *)
Definition step_stamp (s : System) (op : SystemOp) : option (string * Z * option string) :=
  match op with
  | SysDeliver i acknowledged _ _ =>
      match sent s !! i with
      | Some (OccupancyOffer p) => Some (stamp_of_offer p)
      | Some (OccupancyForceFence p) =>
          Some (stamp_lease_id (fence_occupancy p), stamp_fencing_token (fence_occupancy p),
            upd_holder_user_id (fence_update acknowledged (fence_occupancy p) (daemon_mirror (daemon s))))
      | _ => None
      end
  | _ => None
  end.

Hypothesis Henv : collaborators_ok.

Lemma system_step_daemon s op :
  daemon_wf (daemon s) →
  daemon_step_ok (step_stamp s op) (daemon s) (daemon (system_step s op)).
Proof.
  intros Hwf. destruct op as [op|c now rev|now rev|i ack now id|p ack now id| |l]; simpl;
    try (by apply quiet_ok).
  - case_bool_decide; by apply quiet_ok.
  - destruct (sent s !! i) as [[p|p|p]|]; simpl; [by apply offer_ok|by apply release_ok|by apply fence_ok|].
    by apply quiet_ok.
  - by apply release_ok.
  - by apply restart_ok.
Qed.

Lemma system_step_wf s op : system_wf s → system_wf (system_step s op).
Proof.
  intros Hwf. pose proof (system_step_daemon s op (sw_daemon _ Hwf)) as Hd.
  destruct op as [op|c now rev|now rev|i ack now id|p ack now id| |l]; simpl in *.
  - by apply (ledger_step_system s op).
  - case_bool_decide; [by apply claim_system|done].
  - by apply force_release_system.
  - destruct (sent s !! i) as [c|] eqn:Ei; [|done].
    pose proof (Forall_lookup_1 _ _ _ _ (sw_sent _ Hwf) Ei) as Hc.
    apply (handler_system _ _ _ Hwf Hd). destruct c as [p|p|p]; [exact Hc|done|].
    by apply fence_holder_issued.
  - by apply (handler_system _ _ _ Hwf Hd).
  - by apply (handler_system _ _ _ Hwf Hd).
  - by apply (handler_system _ _ _ Hwf Hd).
Qed.

Lemma system_run_wf s ops :
  system_wf s → system_wf (system_run s ops) ∧
  mirror_le (daemon_mirror (daemon s)) (daemon_mirror (daemon (system_run s ops))) ∧
  node_id (daemon (system_run s ops)) = node_id (daemon s).
Proof.
  revert s. induction ops as [|op ops IH]; intros s Hwf; [split_and!; [done|by left|done]|]. simpl.
  destruct (system_step_daemon s op (sw_daemon _ Hwf)) as [_ Hn Hle _].
  destruct (IH (system_step s op) (system_step_wf s op Hwf)) as (H1 & H2 & H3).
  split_and!; [done|by eapply mirror_le_trans|congruence].
Qed.

(** ** Theorems *)

(** The system before anything happened: no lease was ever claimed, no command sent and
    nothing mirrored. *)
Record fresh_system (s : System) : Prop := {
  fr_leases : Ledger.leases (ledger s) = ∅;
  fr_token : Ledger.last_issued_token (ledger s) = None;
  fr_sent : sent s = [];
  fr_open : connection_open (store (daemon s)) = true;
  fr_row : mirror_row (store (daemon s)) = None;
  fr_mirror : daemon_mirror (daemon s) = None
}.

Lemma fresh_system_wf s : fresh_system s → system_wf s.
Proof.
  intros [Hl Ht Hs Ho Hr Hm]. split.
  - by apply LedgerFacts.empty_ledger_wf.
  - split; [congruence|unfold mirror_positive; by rewrite Hr|done].
  - intros m. by rewrite Hm.
  - rewrite Hs. apply Forall_nil_2.
Qed.

Lemma authorize_Authorized g k lease token t :
  authorize_command g k lease token = Authorized t →
  ∃ m, guard_mirror g = Some m ∧ occupancy_lease_id m = lease ∧ fencing_token m = token.
Proof.
  unfold authorize_command, check_stamp. destruct (guard_mirror g) as [m|]; [|done].
  destruct (bool_decide _ && _) eqn:E; [|done]. intros _. split_bools. exists m. split_and!; (done || lia).
Qed.

(** C17. Fencing end to end: whatever the server and the device did, in whatever order
    commands arrived, were repeated or lost, and wherever a handler failed, a command
    authorised by the daemon carries a stamp the server's ledger issued for this device (the
    token of a lease, or a newer token that fences one released by force), and a stamp the
    daemon mirrored at any earlier moment is never newer, nor as new for another lease. *)
Theorem occupancy_fenced s ops1 ops2 k lease token t :
  fresh_system s →
  let mid := system_run s ops1 in
  let fin := system_run mid ops2 in
  authorize_command (fencing_guard (daemon fin)) k lease token = Authorized t →
  (∀ m, daemon_mirror (daemon mid) = Some m →
     fencing_token m ≤ token ∧ (fencing_token m = token → occupancy_lease_id m = lease)) ∧
  ∃ r, LedgerFacts.has_lease (ledger fin) r ∧ Ledger.occupancy_lease_id r = lease ∧
    Ledger.client_node_id r = node_id (daemon s) ∧
    (token = Ledger.fencing_token r ∨
     Ledger.state r = Ledger.Released ∧ Ledger.release_reason r = Some Ledger.ForceReleased ∧
     Ledger.fencing_token r < token ≤ LedgerFacts.issued (ledger fin)).
Proof.
  intros Hf mid fin (m & Hg & Hl & Ht)%authorize_Authorized.
  destruct (system_run_wf s ops1 (fresh_system_wf s Hf)) as (Hw1 & _ & Hn1).
  destruct (system_run_wf mid ops2 Hw1) as (Hw2 & Hle & Hn2). fold fin in Hw2, Hle, Hn2. split.
  - intros m0 Hm0. simpl in Hg. rewrite Hg, Hm0 in Hle.
    destruct Hle as [[= ->]|(r & [= ->] & _ & _ & Hlt)]; [split; [lia|congruence]|split; lia].
  - destruct (sw_mirror _ Hw2 m Hg) as (r & Hr & Hid & Hn & _ & Htok). exists r.
    fold mid in Hn1. split_and!; congruence.
Qed.

(** Coherence of the daemon's copy: after any run, with handlers that failed half way
    and restarts included, the daemon decides by exactly the mirror its store holds, and a
    restart reads it back and changes no decision. *)
Theorem daemon_mirror_coherent s ops :
  fresh_system s →
  let d := daemon (system_run s ops) in
  daemon_mirror d = mirror_row (store d) ∧
  restart d = (set_mirror d (mirror_row (store d)), Ok tt).
Proof.
  intros Hf d. destruct (system_run_wf s ops (fresh_system_wf s Hf)) as (Hw & _).
  destruct (sw_daemon _ Hw) as [Hm Hp Ho]. split; [done|].
  assert (Hread : occupancy_mirror (store d) = Ok (mirror_row (store d))).
  { unfold occupancy_mirror, connection. fold d in Ho, Hm, Hp. rewrite Ho. simpl.
    unfold read_occupancy_mirror. unfold mirror_positive in Hp.
    destruct (mirror_row (store d)) as [m|] eqn:Em; [|done]. simpl in Hp.
    pose proof (issued_positive _ _ _ _ _ (sw_mirror _ Hw m Hm)).
    rewrite !refuse_run by lia. done. }
  unfold restart, mbind, act_bind, attempt_with. by rewrite Hread.
Qed.
End system.

(** ** Witnesses *)

(** The in-memory outbox with the error type of the device store, which it never uses. *)
#[local] Instance memory_outbox : Outbox.FrameOutbox Outbox.InMemoryOutbox DeviceStoreError := {
  load m := (m, Ok (Outbox.state m));
  append m _ f := (Outbox.memory_append m f, Ok tt);
  record_acknowledgement m _ a := (Outbox.memory_record_ack m a, Ok tt)
}.

Definition sample_collaborators : Collaborators Outbox.InMemoryOutbox :=
  {| envelope_kind := λ _, Ok "occupancy"%string; sha256_hex := λ _, "00"%string;
     json_message := {| Frame.to_vec := λ _, Ok [Byte.x7b]; Frame.from_slice := λ _, Err ""%string |};
     json_envelope := {| Frame.to_vec := λ _, Ok [Byte.x7b]; Frame.from_slice := λ _, Err ""%string |};
     codec := Frame.codec_default; supervisor_stop_lease := λ _, Ok 0; controller_stop_lease := λ _, 0;
     supervisor_stop_fenced := λ _ _, Err Network; report_applications := mret O |}.

Definition sample_system : System (O := Outbox.InMemoryOutbox) :=
  {| ledger := LedgerFacts.sample_ledger;
     daemon := {| store := {| connection_open := true; mirror_row := None; release_rows := ∅ |};
                  outbox := Outbox.memory_new; worker_rows := ∅; node_id := LedgerFacts.sample_node_id;
                  instance_id := "inst_1"; lock_state := Unlocked; daemon_mirror := None;
                  has_supervisor := true;
                  counters := {| occupancy_offers_acked := 0; occupancy_offers_rejected := 0;
                                 occupancy_release_intents_recorded := 0;
                                 occupancy_force_fences_applied := 0; workers_stopped_on_release := 0 |} |};
     sent := [] |}.

(** A claim and its offer; then the recovery of the lease after a disconnect, a forced
    release whose fence stops no worker (the handler fails after it advanced the mirror),
    the old offer once more, and a restart of the daemon. *)
Definition sample_claim_ops : list SystemOp :=
  [SysClaim LedgerFacts.sample_claim LedgerFacts.sample_now 0;
   SysDeliver 0 LedgerFacts.sample_now LedgerFacts.sample_now "msg_1"].

Definition sample_fence_ops : list SystemOp :=
  [SysLedger (LedgerFacts.OpLease LedgerFacts.sample_lease_id
     (LedgerFacts.Acknowledge 1 (Some "2026-01-02T13:00:00.000Z"%string) LedgerFacts.sample_now));
   SysLedger (LedgerFacts.SetNodes {[ LedgerFacts.sample_node_id :=
     {| Ledger.presence_state := "offline"; Ledger.lock_state := "unlocked";
        Ledger.accepting_connections := 1; Ledger.max_concurrent_worker_sessions := 4;
        Ledger.reported_running_worker_sessions := 0 |} ]});
   SysLedger (LedgerFacts.OpLease LedgerFacts.sample_lease_id
     (LedgerFacts.MarkRecoveryPending "2026-01-02T12:05:00.000Z" LedgerFacts.sample_now));
   SysForceRelease "2026-01-02T12:06:00.000Z" 1;
   SysDeliver 1 LedgerFacts.sample_now LedgerFacts.sample_now "msg_2";
   SysDeliver 0 LedgerFacts.sample_now LedgerFacts.sample_now "msg_1"; SysRestart].

Definition sample_end : System (O := Outbox.InMemoryOutbox) :=
  system_run sample_collaborators
    (system_run sample_collaborators sample_system sample_claim_ops) sample_fence_ops.

Lemma sample_fresh : fresh_system sample_system.
Proof. by split. Qed.

Lemma sample_collaborators_ok : collaborators_ok sample_collaborators.
Proof. done. Qed.

(** The claim's stamp, token 1, was mirrored first; the fence's, token 2, is authorised at the
    end, and the claim's no longer. *)
Lemma occupancy_fenced_witness :
  (daemon_mirror (daemon (system_run sample_collaborators sample_system sample_claim_ops)) ≫=
     λ m, Some (fencing_token m)) = Some 1 ∧
  authorize_command (fencing_guard (daemon sample_end)) WorkerLaunch LedgerFacts.sample_lease_id 1 =
    Rejected StaleFencingToken ∧
  ∃ r, LedgerFacts.has_lease (ledger sample_end) r ∧
    Ledger.occupancy_lease_id r = LedgerFacts.sample_lease_id.
Proof.
  split; [vm_compute; reflexivity|]. split; [vm_compute; reflexivity|].
  assert (Ha : authorize_command (fencing_guard (daemon sample_end)) WorkerLaunch
    LedgerFacts.sample_lease_id 2 = Authorized {| ticket_kind := WorkerLaunch;
      ticket_lease_id := LedgerFacts.sample_lease_id; ticket_fencing_token := 2;
      ticket_mirror_revision := 2 |}) by (vm_compute; reflexivity).
  destruct (proj2 (occupancy_fenced sample_collaborators sample_collaborators_ok sample_system
    sample_claim_ops sample_fence_ops _ _ _ _ sample_fresh Ha)) as (r & Hr & Hid & _).
  exists r. split; [exact Hr|exact Hid].
Defined.

Lemma daemon_mirror_coherent_witness :
  (restart (daemon (system_run sample_collaborators sample_system
     (sample_claim_ops ++ sample_fence_ops)))).2 = Ok tt.
Proof.
  pose proof (daemon_mirror_coherent sample_collaborators sample_collaborators_ok sample_system
    (sample_claim_ops ++ sample_fence_ops) sample_fresh) as [_ H].
  rewrite H. reflexivity.
Defined.
