(* ===== verification/ProductSession.v ===== *)
(** * Product sessions

    Models [crates/winwincode-session/src/product_session.rs]: the life cycle of a
    Chat session.  Every method that takes [&mut self] is a function from the session
    to the session and the method's result. *)

From Stdlib Require Import Ascii String.
From S2P Require Import Prelude Text.
Local Open Scope Z_scope.

(** ** Data *)

Definition MAX_TITLE_LENGTH : Z := 500.
Definition MAX_REASON_LENGTH : Z := 2000.

Inductive ProductSessionState : Type :=
| Idle
| Running
| WaitingForInput
| WaitingForApproval
| Cancelled
| Closed
| Failed.

#[global] Instance ProductSessionState_eq_dec : EqDecision ProductSessionState.
Proof. solve_decision. Defined.

Record ProductSessionCreate : Type := {
  create_product_session_id : string;
  create_project_id : string;
  create_repository_id : string;
  create_title : string;
  create_now : string
}.

Record ProductSession : Type := {
  product_session_id : string;
  project_id : string;
  repository_id : string;
  title : string;
  state : ProductSessionState;
  revision : Z;
  updated_at : string
}.

#[global] Instance ProductSession_eq_dec : EqDecision ProductSession.
Proof. solve_decision. Defined.

Inductive ProductSessionError : Type :=
| InvalidIdentity (field : string)
| InvalidTitle
| InvalidReason
| InvalidInstant
| InvalidTransition (from : ProductSessionState) (operation : string)
| RevisionOverflow.

(** ** Validation *)

Definition validate_title (t : string) : result ProductSessionError () :=
  refuse (bool_decide (t = "") || (MAX_TITLE_LENGTH <? chars_count t)) InvalidTitle.

Definition validate_reason (r : string) : result ProductSessionError () :=
  refuse (bool_decide (r = "") || (MAX_REASON_LENGTH <? chars_count r)) InvalidReason.

Definition canonical_id (value prefix : string) : bool :=
  is_canonical_prefixed_id value prefix.

Definition validate_id (value field prefix : string) : result ProductSessionError () :=
  refuse (negb (canonical_id value prefix)) (InvalidIdentity field).

Definition validate_instant (i : string) : result ProductSessionError () :=
  refuse (negb (instant_shape i)) InvalidInstant.

(** ** Operations *)

Definition create (input : ProductSessionCreate) : result ProductSessionError ProductSession :=
  validate_id (create_product_session_id input) "productSessionId" "psn_" ;;
  validate_id (create_project_id input) "projectId" "prj_" ;;
  validate_id (create_repository_id input) "repositoryId" "rep_" ;;
  validate_title (create_title input) ;;
  validate_instant (create_now input) ;;
  Ok {| product_session_id := create_product_session_id input;
        project_id := create_project_id input;
        repository_id := create_repository_id input;
        title := create_title input;
        state := Idle;
        revision := 1;
        updated_at := create_now input |}.

(** [checked_add(1).filter(|r| r <= MAX_SAFE_INTEGER)]. *)
Definition next_revision (r : Z) : option Z :=
  match checked_add_u64 r 1 with
  | Some n => if n <=? max_safe_integer then Some n else None
  | None => None
  end.

Definition transition (s : ProductSession) (next : ProductSessionState) (operation now : string)
    (allowed : ProductSessionState → bool) : ProductSession * result ProductSessionError () :=
  match (validate_instant now ;;
         refuse (negb (allowed (state s))) (InvalidTransition (state s) operation) ;;
         ok_or (next_revision (revision s)) RevisionOverflow)
  with
  | Err e => (s, Err e)
  | Ok r =>
      ({| product_session_id := product_session_id s;
          project_id := project_id s;
          repository_id := repository_id s;
          title := title s;
          state := next;
          revision := r;
          updated_at := now |}, Ok tt)
  end.

Definition set_title (s : ProductSession) (t : string) : ProductSession :=
  {| product_session_id := product_session_id s; project_id := project_id s;
     repository_id := repository_id s; title := t; state := state s;
     revision := revision s; updated_at := updated_at s |}.

Definition rename (s : ProductSession) (t now : string) :
    ProductSession * result ProductSessionError () :=
  match validate_title t with
  | Err e => (s, Err e)
  | Ok _ =>
      let '(s1, r) := transition s (state s) "rename" now (λ _, true) in
      match r with
      | Err e => (s1, Err e)
      | Ok _ => (set_title s1 t, Ok tt)
      end
  end.

Definition begin_turn (s : ProductSession) (now : string) :=
  transition s Running "begin_turn" now
    (λ st, match st with Idle | Failed => true | _ => false end).

Definition wait_for_input (s : ProductSession) (now : string) :=
  transition s WaitingForInput "wait_for_input" now (λ st, bool_decide (st = Running)).

Definition wait_for_approval (s : ProductSession) (now : string) :=
  transition s WaitingForApproval "wait_for_approval" now (λ st, bool_decide (st = Running)).

Definition resume (s : ProductSession) (now : string) :=
  transition s Running "resume" now
    (λ st, match st with WaitingForInput | WaitingForApproval => true | _ => false end).

Definition complete_turn (s : ProductSession) (now : string) :=
  transition s Idle "complete_turn" now (λ st, bool_decide (st = Running)).

Definition fail (s : ProductSession) (reason now : string) :
    ProductSession * result ProductSessionError () :=
  match validate_reason reason with
  | Err e => (s, Err e)
  | Ok _ =>
      transition s Failed "fail" now
        (λ st, match st with
               | Running | WaitingForInput | WaitingForApproval => true
               | _ => false
               end)
  end.

Definition cancel (s : ProductSession) (reason now : string) :
    ProductSession * result ProductSessionError () :=
  match validate_reason reason with
  | Err e => (s, Err e)
  | Ok _ =>
      if bool_decide (state s = Cancelled) then (s, Ok tt) else
      transition s Cancelled "cancel" now
        (λ st, negb (match st with Closed => true | _ => false end))
  end.

Definition close (s : ProductSession) (now : string) :
    ProductSession * result ProductSessionError () :=
  if bool_decide (state s = Closed) then (s, Ok tt) else
  transition s Closed "close" now
    (λ st, match st with Idle | Cancelled | Failed => true | _ => false end).

(** [Deserialize for ProductSession], after the wire structure has been read: the
    checks on its fields.  The error text is not modelled. *)
Definition deserialize (wire : ProductSession) : option ProductSession :=
  if is_ok (validate_id (product_session_id wire) "productSessionId" "psn_") &&
     is_ok (validate_id (project_id wire) "projectId" "prj_") &&
     is_ok (validate_id (repository_id wire) "repositoryId" "rep_") &&
     is_ok (validate_title (title wire)) &&
     is_ok (validate_instant (updated_at wire)) &&
     negb ((revision wire =? 0) || (max_safe_integer <? revision wire))
  then Some wire else None.

(** ** Runs *)

Inductive SessionOp : Type :=
| OpRename (t now : string)
| OpBeginTurn (now : string)
| OpWaitForInput (now : string)
| OpWaitForApproval (now : string)
| OpResume (now : string)
| OpCompleteTurn (now : string)
| OpFail (reason now : string)
| OpCancel (reason now : string)
| OpClose (now : string).

Definition apply_op (s : ProductSession) (op : SessionOp) :
    ProductSession * result ProductSessionError () :=
  match op with
  | OpRename t now => rename s t now
  | OpBeginTurn now => begin_turn s now
  | OpWaitForInput now => wait_for_input s now
  | OpWaitForApproval now => wait_for_approval s now
  | OpResume now => resume s now
  | OpCompleteTurn now => complete_turn s now
  | OpFail reason now => fail s reason now
  | OpCancel reason now => cancel s reason now
  | OpClose now => close s now
  end.

Definition apply_ops (s : ProductSession) (ops : list SessionOp) : ProductSession :=
  foldl (λ s op, (apply_op s op).1) s ops.

(** ** Specification of the life cycle *)

(** The edges of the life cycle; [rename] is a loop on every state. *)
Inductive edge : ProductSessionState → SessionOp → ProductSessionState → Prop :=
| EdgeRename st t now : edge st (OpRename t now) st
| EdgeBeginIdle now : edge Idle (OpBeginTurn now) Running
| EdgeBeginFailed now : edge Failed (OpBeginTurn now) Running
| EdgeInput now : edge Running (OpWaitForInput now) WaitingForInput
| EdgeApproval now : edge Running (OpWaitForApproval now) WaitingForApproval
| EdgeResumeInput now : edge WaitingForInput (OpResume now) Running
| EdgeResumeApproval now : edge WaitingForApproval (OpResume now) Running
| EdgeComplete now : edge Running (OpCompleteTurn now) Idle
| EdgeFail st r now :
    st ∈ [Running; WaitingForInput; WaitingForApproval] → edge st (OpFail r now) Failed
| EdgeCancel st r now : st ≠ Closed → st ≠ Cancelled → edge st (OpCancel r now) Cancelled
| EdgeClose st now : st ∈ [Idle; Cancelled; Failed] → edge st (OpClose now) Closed.

(** The operation is a repeated [cancel] or [close], which succeeds without a change. *)
Definition idempotent_repeat (st : ProductSessionState) (op : SessionOp) : Prop :=
  match op with
  | OpCancel _ _ => st = Cancelled
  | OpClose _ => st = Closed
  | _ => False
  end.

Definition op_now (op : SessionOp) : string :=
  match op with
  | OpRename _ now | OpBeginTurn now | OpWaitForInput now | OpWaitForApproval now
  | OpResume now | OpCompleteTurn now | OpFail _ now | OpCancel _ now | OpClose now => now
  end.

Definition op_text_valid (op : SessionOp) : bool :=
  match op with
  | OpRename t _ => is_ok (validate_title t)
  | OpFail r _ | OpCancel r _ => is_ok (validate_reason r)
  | _ => true
  end.

(** The invariant the deserialiser checks. *)
Definition session_wf (s : ProductSession) : Prop := deserialize s = Some s.

(** ** Lemmas *)

Lemma next_revision_Some r n :
  0 ≤ r ≤ max_safe_integer →
  next_revision r = Some n ↔ n = r + 1 ∧ r < max_safe_integer.
Proof.
  intros Hr. unfold next_revision, checked_add_u64, max_safe_integer, u64_max in *.
  destruct (Z.leb_spec (r + 1) 18446744073709551615); [|lia].
  destruct (Z.leb_spec (r + 1) 9007199254740991); split; try done; try lia.
  - by intros [= <-]; lia.
  - intros [-> _]. done.
Qed.

Lemma next_revision_None r :
  0 ≤ r ≤ max_safe_integer → next_revision r = None ↔ r = max_safe_integer.
Proof.
  intros Hr. destruct (next_revision r) as [n|] eqn:E.
  - apply next_revision_Some in E; [|done]. split; [done|lia].
  - split; [intros _|done]. destruct (decide (r < max_safe_integer)); [|lia].
    assert (next_revision r = Some (r + 1)) by (by apply next_revision_Some). congruence.
Qed.

(** The session after an effective operation. *)
Definition advanced (s : ProductSession) (op : SessionOp) (st : ProductSessionState) :
    ProductSession :=
  {| product_session_id := product_session_id s;
     project_id := project_id s;
     repository_id := repository_id s;
     title := match op with OpRename t _ => t | _ => title s end;
     state := st;
     revision := revision s + 1;
     updated_at := op_now op |}.

(** The check every operation but [rename] is built from. *)
Lemma transition_eq s next operation now allowed :
  0 ≤ revision s ≤ max_safe_integer →
  transition s next operation now allowed =
    if negb (instant_shape now) then (s, Err InvalidInstant)
    else if negb (allowed (state s)) then (s, Err (InvalidTransition (state s) operation))
    else if revision s =? max_safe_integer then (s, Err RevisionOverflow)
    else ({| product_session_id := product_session_id s; project_id := project_id s;
             repository_id := repository_id s; title := title s; state := next;
             revision := revision s + 1; updated_at := now |}, Ok tt).
Proof.
  intros Hr. unfold transition, validate_instant.
  destruct (instant_shape now); simpl; [|done].
  destruct (allowed (state s)); simpl; [|done].
  destruct (Z.eqb_spec (revision s) max_safe_integer) as [E|E].
  - by rewrite (proj2 (next_revision_None _ Hr) E).
  - by rewrite (proj2 (next_revision_Some _ (revision s + 1) Hr)) by lia.
Qed.

(** The state an operation leads to, [None] when the life cycle has no such edge. *)
Definition target (st : ProductSessionState) (op : SessionOp) : option ProductSessionState :=
  match op, st with
  | OpRename _ _, _ => Some st
  | OpBeginTurn _, (Idle | Failed) => Some Running
  | OpWaitForInput _, Running => Some WaitingForInput
  | OpWaitForApproval _, Running => Some WaitingForApproval
  | OpResume _, (WaitingForInput | WaitingForApproval) => Some Running
  | OpCompleteTurn _, Running => Some Idle
  | OpFail _ _, (Running | WaitingForInput | WaitingForApproval) => Some Failed
  | OpCancel _ _, (Idle | Running | WaitingForInput | WaitingForApproval | Failed) =>
      Some Cancelled
  | OpClose _, (Idle | Cancelled | Failed) => Some Closed
  | _, _ => None
  end.

Lemma target_edge st op st' : target st op = Some st' ↔ edge st op st'.
Proof.
  split.
  - destruct op, st; intros [= <-]; constructor; (done || set_solver).
  - destruct 1 as [| | | | | | | |st r now Hst|st r now H1 H2|st now Hst];
      try done; destruct st; try done; set_solver.
Qed.

Definition repeatb (st : ProductSessionState) (op : SessionOp) : bool :=
  match op, st with
  | OpCancel _ _, Cancelled | OpClose _, Closed => true
  | _, _ => false
  end.

Lemma repeatb_iff st op : repeatb st op = true ↔ idempotent_repeat st op.
Proof. by destruct op, st. Qed.

Definition text_error (op : SessionOp) : ProductSessionError :=
  match op with OpRename _ _ => InvalidTitle | _ => InvalidReason end.

Definition op_name (op : SessionOp) : string :=
  match op with
  | OpRename _ _ => "rename" | OpBeginTurn _ => "begin_turn"
  | OpWaitForInput _ => "wait_for_input" | OpWaitForApproval _ => "wait_for_approval"
  | OpResume _ => "resume" | OpCompleteTurn _ => "complete_turn" | OpFail _ _ => "fail"
  | OpCancel _ _ => "cancel" | OpClose _ => "close"
  end.

(** Every operation, as one equation: text check, idempotent repeat, instant, edge and
    revision, in that order of precedence. *)
Lemma apply_op_eq s op :
  0 ≤ revision s ≤ max_safe_integer →
  apply_op s op =
    if negb (op_text_valid op) then (s, Err (text_error op))
    else if repeatb (state s) op then (s, Ok tt)
    else if negb (instant_shape (op_now op)) then (s, Err InvalidInstant)
    else match target (state s) op with
         | None => (s, Err (InvalidTransition (state s) (op_name op)))
         | Some st => if revision s =? max_safe_integer then (s, Err RevisionOverflow)
                      else (advanced s op st, Ok tt)
         end.
Proof.
  intros Hr.
  destruct op as [t now|now|now|now|now|now|r now|r now|now]; simpl;
    unfold rename, begin_turn, wait_for_input, wait_for_approval, resume, complete_turn,
      fail, cancel, close, validate_title, validate_reason;
    try (destruct (bool_decide (_ = "") || _); simpl; [done|]);
    rewrite ?transition_eq by done;
    destruct (state s) eqn:Est; simpl; rewrite ?Est; simpl; try done;
    destruct (instant_shape now); simpl; try done;
    destruct (Z.eqb_spec (revision s) max_safe_integer); simpl; done.
Qed.

(** ** Properties *)

(** Refinement of the life cycle: an operation succeeds exactly when its text is
    valid and it either repeats a [cancel] or [close] already done, changing nothing, or
    follows an edge of the life cycle with a valid instant and room for a revision; the
    new session then differs from the old one in state, revision (by one), instant and,
    for [rename], title. *)
Theorem apply_op_refines s op s' :
  0 ≤ revision s ≤ max_safe_integer →
  apply_op s op = (s', Ok tt) ↔
  op_text_valid op = true ∧
  (idempotent_repeat (state s) op ∧ s' = s ∨
   instant_shape (op_now op) = true ∧ revision s < max_safe_integer ∧
   ∃ st, edge (state s) op st ∧ s' = advanced s op st).
Proof.
  intros Hr. rewrite apply_op_eq by done.
  destruct (op_text_valid op); simpl; [|naive_solver].
  rewrite <-repeatb_iff. destruct (repeatb (state s) op) eqn:Hrep.
  { split; [naive_solver|]. intros [_ [[_ ->]|(_ & _ & st & He & _)]]; [done|].
    apply target_edge in He. by destruct op, (state s). }
  destruct (instant_shape (op_now op)); simpl; [|naive_solver].
  destruct (target (state s) op) as [st|] eqn:Ht.
  - destruct (Z.eqb_spec (revision s) max_safe_integer) as [E|E].
    + split; [done|]. intros [_ [[? _]|(_ & ? & _)]]; [done|lia].
    + apply target_edge in Ht as He. split.
      * intros [= <-]. split; [done|]. right. split_and!; [done|lia|eauto].
      * intros [_ [[? _]|(_ & _ & st' & He' & ->)]]; [done|].
        apply target_edge in He'. congruence.
  - split; [done|]. intros [_ [[? _]|(_ & _ & st' & He' & _)]]; [done|].
    apply target_edge in He'. congruence.
Qed.

(** A refused operation leaves the session as it was. *)
Theorem apply_op_error_unchanged s op s' e :
  0 ≤ revision s ≤ max_safe_integer → apply_op s op = (s', Err e) → s' = s.
Proof. intros Hr. rewrite apply_op_eq by done. split_cases; naive_solver. Qed.

(** *** Invariant *)

Lemma session_wf_iff s :
  session_wf s ↔
  canonical_id (product_session_id s) "psn_" = true ∧
  canonical_id (project_id s) "prj_" = true ∧
  canonical_id (repository_id s) "rep_" = true ∧
  validate_title (title s) = Ok tt ∧ instant_shape (updated_at s) = true ∧
  revision s ≠ 0 ∧ revision s ≤ max_safe_integer.
Proof.
  unfold session_wf, deserialize, validate_id, validate_instant.
  destruct (canonical_id (product_session_id s) "psn_"), (canonical_id (project_id s) "prj_"),
    (canonical_id (repository_id s) "rep_"); simpl; try naive_solver.
  destruct (instant_shape (updated_at s)); simpl; [|rewrite andb_false_r; naive_solver].
  destruct (validate_title (title s)) as [[]|]; simpl; [|naive_solver].
  destruct (Z.eqb_spec (revision s) 0), (Z.ltb_spec max_safe_integer (revision s)); simpl;
    naive_solver lia.
Qed.

(** C39. The deserialiser's invariant (canonical identities, bounded title, instant shape,
    revision in JSON's exact range) holds for a created session and after every
    operation, so that whatever is stored deserialises again to the same session. *)
Theorem session_ops_wf input s ops :
  create input = Ok s → deserialize (apply_ops s ops) = Some (apply_ops s ops) ∧
  1 ≤ revision (apply_ops s ops).
Proof.
  intros Hc. cut (session_wf (apply_ops s ops) ∧ 1 ≤ revision (apply_ops s ops)); [done|].
  assert (Hs : session_wf s ∧ 1 ≤ revision s).
  { unfold create, validate_id, validate_instant in Hc. inv_result. split_bools.
    split; [|simpl; lia]. apply session_wf_iff. simpl.
    repeat match goal with x : () |- _ => destruct x end.
    split_and!; try done. }
  clear Hc. revert s Hs. induction ops as [|op ops IH]; intros s [Hs Hr]; [done|]. simpl.
  apply IH. pose proof (proj1 (session_wf_iff s) Hs) as (? & ? & ? & ? & ? & ? & ?).
  rewrite apply_op_eq by lia.
  destruct (op_text_valid op) eqn:Ht; simpl; [|done].
  destruct (repeatb (state s) op); [done|].
  destruct (instant_shape (op_now op)) eqn:Hi; simpl; [|done].
  destruct (target (state s) op) as [st|]; [|done].
  destruct (Z.eqb_spec (revision s) max_safe_integer); [done|]. simpl. split; [|lia].
  apply session_wf_iff. simpl. split_and!; try done; try lia.
  destruct op; try done. simpl in Ht. by destruct (validate_title t) as [[]|].
Qed.

(** What every single operation guarantees about the session it leaves. *)
Definition op_guarantee (n : Z) (s s' : ProductSession) : Prop :=
  revision s ≤ revision s' ≤ revision s + n ∧ revision s' ≤ max_safe_integer ∧
  (revision s' = revision s → s' = s) ∧
  (product_session_id s', project_id s', repository_id s') =
    (product_session_id s, project_id s, repository_id s) ∧
  (state s = Closed → state s' = Closed) ∧
  (state s ∈ [Cancelled; Closed] → state s' ∈ [Cancelled; Closed]).

Lemma apply_op_guarantee s op :
  0 ≤ revision s ≤ max_safe_integer → op_guarantee 1 s (apply_op s op).1.
Proof.
  intros Hr. rewrite apply_op_eq by done.
  assert (Hsame : op_guarantee 1 s s) by (unfold op_guarantee; split_and!; (done || lia)).
  destruct (op_text_valid op), (repeatb (state s) op), (instant_shape (op_now op)); simpl; try done.
  destruct (target (state s) op) as [st|] eqn:Ht; [|done].
  destruct (Z.eqb_spec (revision s) max_safe_integer); [done|].
  unfold op_guarantee. simpl. split_and!; try done; try lia.
  - intros Hst. rewrite Hst in Ht. destruct op; naive_solver.
  - intros Hst. destruct op, (state s); simplify_eq/=; set_solver.
Qed.

Lemma op_guarantee_trans n m s s1 s2 :
  op_guarantee n s s1 → op_guarantee m s1 s2 → 0 ≤ n → 0 ≤ m → op_guarantee (n + m) s s2.
Proof.
  intros (H1 & H2 & H3 & H4 & H5 & H6) (G1 & G2 & G3 & G4 & G5 & G6) Hn Hm.
  unfold op_guarantee. split_and!; try lia; try tauto; [|congruence].
  intros Heq. rewrite G3 by lia. apply H3. lia.
Qed.

(** Over any run of operations: [Closed] is final and [Cancelled] can only become
    [Closed]; the identities never change; the revision never decreases, grows by at
    most one per operation, stays in range, and an equal revision means an identical
    session. *)
Theorem session_run_guarantee s ops :
  0 ≤ revision s ≤ max_safe_integer →
  op_guarantee (Z.of_nat (length ops)) s (apply_ops s ops).
Proof.
  revert s. induction ops as [|op ops IH]; intros s Hr.
  { unfold op_guarantee. simpl. split_and!; (done || lia). }
  simpl. pose proof (apply_op_guarantee s op Hr) as H1.
  replace (Z.of_nat (S (length ops))) with (1 + Z.of_nat (length ops)) by lia.
  eapply op_guarantee_trans; [exact H1| |lia|lia]. apply IH. destruct H1 as (? & ? & _). lia.
Qed.

(** ** Witnesses *)

Definition sample_create : ProductSessionCreate :=
  {| create_product_session_id := "psn_01ARZ3NDEKTSV4RRFFQ69G5FAV";
     create_project_id := "prj_01ARZ3NDEKTSV4RRFFQ69G5FAV";
     create_repository_id := "rep_01ARZ3NDEKTSV4RRFFQ69G5FAV";
     create_title := "demo"; create_now := "2026-01-02T12:00:00.000Z" |}.

Definition sample_session : ProductSession :=
  {| product_session_id := "psn_01ARZ3NDEKTSV4RRFFQ69G5FAV";
     project_id := "prj_01ARZ3NDEKTSV4RRFFQ69G5FAV";
     repository_id := "rep_01ARZ3NDEKTSV4RRFFQ69G5FAV";
     title := "demo"; state := Idle; revision := 1;
     updated_at := "2026-01-02T12:00:00.000Z" |}.

Definition later : string := "2026-01-02T12:00:01.000Z".

Definition sample_ops : list SessionOp :=
  [OpBeginTurn later; OpWaitForApproval later; OpClose later; OpResume later;
   OpCancel "stop" later; OpCancel "again" "not an instant"; OpClose later; OpBeginTurn later].

Lemma apply_op_refines_witness :
  apply_op sample_session (OpBeginTurn later) =
    (advanced sample_session (OpBeginTurn later) Running, Ok tt).
Proof.
  apply (proj2 (apply_op_refines sample_session (OpBeginTurn later) _
    ltac:(unfold max_safe_integer; simpl; lia))).
  split; [reflexivity|]. right. split_and!; [vm_compute; reflexivity..|].
  exists Running. split; [constructor|reflexivity].
Defined.

Lemma apply_op_error_unchanged_witness :
  (apply_op sample_session (OpResume later)).1 = sample_session.
Proof.
  apply (apply_op_error_unchanged sample_session (OpResume later) _
    (InvalidTransition Idle "resume")); [unfold max_safe_integer; simpl; lia|].
  vm_compute. reflexivity.
Defined.

Lemma session_ops_wf_witness :
  deserialize (apply_ops sample_session sample_ops) =
    Some (apply_ops sample_session sample_ops) ∧
  state (apply_ops sample_session sample_ops) = Closed.
Proof.
  split; [|vm_compute; reflexivity].
  apply (session_ops_wf sample_create sample_session sample_ops). vm_compute. reflexivity.
Defined.

Lemma session_run_guarantee_witness :
  op_guarantee 8 sample_session (apply_ops sample_session sample_ops) ∧
  revision (apply_ops sample_session sample_ops) = 6.
Proof.
  split; [|vm_compute; reflexivity].
  apply (session_run_guarantee sample_session sample_ops).
  unfold max_safe_integer. simpl. lia.
Defined.
