(* ===== verification/Binding.v ===== *)
(** * Session bindings

    Models [crates/winwincode-session/src/binding.rs]: the binding of a product session
    and execution job to the worker session, Codex thread and runtime source that execute
    it.  A binding starts pending and is completed by the accept methods, each of which
    returns a new binding or an error. *)

From Stdlib Require Import Ascii String.
From S2P Require Import Prelude Text.
Local Open Scope Z_scope.

(** ** Data *)

Inductive BindingScope : Type :=
| ScopeProductSession
| DeliveryWorkRun (delivery_id work_contract_id : string) (work_contract_revision : Z)
    (work_item_id : string) (work_item_revision : Z) (work_run_id : string).

#[global] Instance BindingScope_eq_dec : EqDecision BindingScope.
Proof. solve_decision. Defined.

Record SessionBindingIdentity : Type := {
  scope : BindingScope;
  product_session_id : string;
  execution_job_id : string
}.

#[global] Instance SessionBindingIdentity_eq_dec : EqDecision SessionBindingIdentity.
Proof. solve_decision. Defined.

Record RuntimeSourceIdentity : Type := {
  source_worker_id : string;
  source_worker_instance_id : string;
  source_worker_session_id : string;
  source_lease_id : string
}.

#[global] Instance RuntimeSourceIdentity_eq_dec : EqDecision RuntimeSourceIdentity.
Proof. solve_decision. Defined.

Record SessionBinding : Type := {
  binding_identity : SessionBindingIdentity;
  worker_session_id : option string;
  codex_thread_id : option string;
  source_identity : option RuntimeSourceIdentity
}.

#[global] Instance SessionBinding_eq_dec : EqDecision SessionBinding.
Proof. solve_decision. Defined.

Inductive SessionBindingError : Type :=
| InvalidIdentity (field : string)
| InvalidSourceIdentity (field : string)
| InvalidScope (field : string)
| WorkerSessionRequired
| ConflictingIdentity (field : string).

#[global] Instance SessionBindingError_eq_dec : EqDecision SessionBindingError.
Proof. solve_decision. Defined.

(** ** Validation *)

Definition validate_id (value field prefix : string) : result SessionBindingError () :=
  refuse (negb (is_canonical_prefixed_id value prefix)) (InvalidIdentity field).

Definition validate_revision (value : Z) (field : string) : result SessionBindingError () :=
  refuse (negb ((1 <=? value) && (value <=? max_safe_integer))) (InvalidScope field).

Definition validate_scope (sc : BindingScope) : result SessionBindingError () :=
  match sc with
  | ScopeProductSession => Ok tt
  | DeliveryWorkRun delivery_id work_contract_id work_contract_revision
      work_item_id work_item_revision work_run_id =>
      validate_id delivery_id "deliveryId" "dlv_" ;;
      validate_id work_contract_id "workContractId" "wct_" ;;
      validate_revision work_contract_revision "workContractRevision" ;;
      validate_id work_item_id "workItemId" "wit_" ;;
      validate_revision work_item_revision "workItemRevision" ;;
      validate_id work_run_id "workRunId" "wrn_"
  end.

(** ** Identities *)

Definition identity_try_new (sc : BindingScope) (session job : string) :
    result SessionBindingError SessionBindingIdentity :=
  validate_scope sc ;;
  validate_id session "productSessionId" "psn_" ;;
  validate_id job "executionJobId" "job_" ;;
  Ok {| scope := sc; product_session_id := session; execution_job_id := job |}.

Definition identity_product_session (session job : string) :
    result SessionBindingError SessionBindingIdentity :=
  identity_try_new ScopeProductSession session job.

Definition identity_delivery_work_run (delivery_id work_contract_id : string)
    (work_contract_revision : Z) (work_item_id : string) (work_item_revision : Z)
    (work_run_id session job : string) : result SessionBindingError SessionBindingIdentity :=
  identity_try_new
    (DeliveryWorkRun delivery_id work_contract_id work_contract_revision work_item_id
       work_item_revision work_run_id) session job.

Definition execution_worker (lease worker instance session : string) :
    result SessionBindingError RuntimeSourceIdentity :=
  validate_id lease "leaseId" "lse_" ;;
  validate_id worker "workerId" "wrk_" ;;
  validate_id instance "workerInstanceId" "wki_" ;;
  validate_id session "workerSessionId" "wsn_" ;;
  Ok {| source_worker_id := worker; source_worker_instance_id := instance;
        source_worker_session_id := session; source_lease_id := lease |}.

(** ** Bindings *)

(** [if let Some(x) = &o { check(x)? }]. *)
Definition check_some {A} (o : option A) (check : A → result SessionBindingError ()) :
    result SessionBindingError () :=
  match o with Some x => check x | None => Ok tt end.

Definition try_new (id : SessionBindingIdentity) (worker codex : option string)
    (source : option RuntimeSourceIdentity) : result SessionBindingError SessionBinding :=
  refuse (bool_decide (is_Some codex) && bool_decide (worker = None)) WorkerSessionRequired ;;
  check_some worker (λ w, validate_id w "workerSessionId" "wsn_") ;;
  check_some codex (λ c, validate_id c "codexThreadId" "cdx_") ;;
  check_some source (λ src,
    refuse (bool_decide (source_worker_session_id src ≠
                         default (source_worker_session_id src) worker))
      (ConflictingIdentity "sourceIdentity.workerSessionId")) ;;
  Ok {| binding_identity := id; worker_session_id := worker; codex_thread_id := codex;
        source_identity := source |}.

Definition pending (id : SessionBindingIdentity) : result SessionBindingError SessionBinding :=
  try_new id None None None.

(** [o.as_ref().is_some_and(|current| f(current) != v)]. *)
Definition differs {A B} `{!EqDecision B} (f : A → B) (o : option A) (v : B) : bool :=
  match o with Some x => bool_decide (f x ≠ v) | None => false end.

Definition accept_worker_session (b : SessionBinding) (w : string) :
    result SessionBindingError SessionBinding :=
  validate_id w "workerSessionId" "wsn_" ;;
  refuse (differs id (worker_session_id b) w) (ConflictingIdentity "workerSessionId") ;;
  refuse (differs source_worker_session_id (source_identity b) w)
    (ConflictingIdentity "sourceIdentity.workerSessionId") ;;
  Ok {| binding_identity := binding_identity b; worker_session_id := Some w;
        codex_thread_id := codex_thread_id b; source_identity := source_identity b |}.

Definition accept_codex_thread (b : SessionBinding) (c : string) :
    result SessionBindingError SessionBinding :=
  refuse (bool_decide (worker_session_id b = None)) WorkerSessionRequired ;;
  validate_id c "codexThreadId" "cdx_" ;;
  refuse (differs id (codex_thread_id b) c) (ConflictingIdentity "codexThreadId") ;;
  Ok {| binding_identity := binding_identity b; worker_session_id := worker_session_id b;
        codex_thread_id := Some c; source_identity := source_identity b |}.

Definition with_source_identity (b : SessionBinding) (src : RuntimeSourceIdentity) :
    result SessionBindingError SessionBinding :=
  refuse (differs id (worker_session_id b) (source_worker_session_id src))
    (ConflictingIdentity "sourceIdentity.workerSessionId") ;;
  refuse (differs id (source_identity b) src) (ConflictingIdentity "sourceIdentity") ;;
  Ok {| binding_identity := binding_identity b; worker_session_id := worker_session_id b;
        codex_thread_id := codex_thread_id b; source_identity := Some src |}.

Definition is_complete (b : SessionBinding) : bool :=
  bool_decide (is_Some (worker_session_id b)) && bool_decide (is_Some (codex_thread_id b)) &&
  bool_decide (is_Some (source_identity b)).

Definition matches_identity (b : SessionBinding) (id : SessionBindingIdentity) : bool :=
  bool_decide (binding_identity b = id).

(** ** Runs *)

Inductive BindOp : Type :=
| AcceptWorker (w : string)
| AcceptCodex (c : string)
| WithSource (src : RuntimeSourceIdentity).

Definition bind_op (b : SessionBinding) (op : BindOp) :
    result SessionBindingError SessionBinding :=
  match op with
  | AcceptWorker w => accept_worker_session b w
  | AcceptCodex c => accept_codex_thread b c
  | WithSource src => with_source_identity b src
  end.

(** The caller keeps the old binding when a method refuses. *)
Definition bind_ops (b : SessionBinding) (ops : list BindOp) : SessionBinding :=
  foldl (λ b op, match bind_op b op with Ok b' => b' | Err _ => b end) b ops.

(** ** Specification: a binding as a record of write-once facts *)

(** [b'] knows everything [b] knows. *)
Definition binding_le (b b' : SessionBinding) : Prop :=
  binding_identity b' = binding_identity b ∧
  (∀ w, worker_session_id b = Some w → worker_session_id b' = Some w) ∧
  (∀ c, codex_thread_id b = Some c → codex_thread_id b' = Some c) ∧
  (∀ src, source_identity b = Some src → source_identity b' = Some src).

(** The fact an operation adds holds in [b]. *)
Definition holds (op : BindOp) (b : SessionBinding) : Prop :=
  match op with
  | AcceptWorker w => worker_session_id b = Some w
  | AcceptCodex c => codex_thread_id b = Some c
  | WithSource src => source_identity b = Some src
  end.

Definition binding_wf (b : SessionBinding) : Prop :=
  (∀ w, worker_session_id b = Some w → is_canonical_prefixed_id w "wsn_" = true) ∧
  (∀ c, codex_thread_id b = Some c →
        is_canonical_prefixed_id c "cdx_" = true ∧ is_Some (worker_session_id b)) ∧
  (∀ src w, source_identity b = Some src → worker_session_id b = Some w →
        source_worker_session_id src = w).

(** ** Lemmas *)

Lemma differs_false {A B} `{!EqDecision B} (f : A → B) o v :
  differs f o v = false ↔ ∀ x, o = Some x → f x = v.
Proof.
  destruct o as [x|]; simpl; [|naive_solver].
  rewrite bool_decide_eq_false. destruct (decide (f x = v)); naive_solver.
Qed.

Lemma validate_id_Ok value field prefix u :
  validate_id value field prefix = Ok u ↔ is_canonical_prefixed_id value prefix = true.
Proof. unfold validate_id. by rewrite refuse_Ok, negb_false_iff. Qed.

Lemma accept_worker_Ok b w b' :
  accept_worker_session b w = Ok b' ↔
  is_canonical_prefixed_id w "wsn_" = true ∧
  (∀ w0, worker_session_id b = Some w0 → w0 = w) ∧
  (∀ src, source_identity b = Some src → source_worker_session_id src = w) ∧
  b' = {| binding_identity := binding_identity b; worker_session_id := Some w;
          codex_thread_id := codex_thread_id b; source_identity := source_identity b |}.
Proof.
  unfold accept_worker_session. rewrite bind_Ok. setoid_rewrite bind_Ok.
  setoid_rewrite bind_Ok. setoid_rewrite validate_id_Ok. setoid_rewrite refuse_Ok.
  setoid_rewrite differs_false. unfold id. split.
  - intros (_ & ? & _ & ? & _ & ? & [= <-]). done.
  - intros (? & ? & ? & ->). by exists tt; split; [|exists tt; split; [|exists tt]].
Qed.

Lemma accept_codex_Ok b c b' :
  accept_codex_thread b c = Ok b' ↔
  is_Some (worker_session_id b) ∧ is_canonical_prefixed_id c "cdx_" = true ∧
  (∀ c0, codex_thread_id b = Some c0 → c0 = c) ∧
  b' = {| binding_identity := binding_identity b; worker_session_id := worker_session_id b;
          codex_thread_id := Some c; source_identity := source_identity b |}.
Proof.
  unfold accept_codex_thread. rewrite bind_Ok. setoid_rewrite bind_Ok.
  setoid_rewrite bind_Ok. setoid_rewrite validate_id_Ok. setoid_rewrite refuse_Ok.
  setoid_rewrite differs_false. setoid_rewrite bool_decide_eq_false.
  setoid_rewrite not_eq_None_Some. unfold id. split.
  - intros (_ & ? & _ & ? & _ & ? & [= <-]). done.
  - intros (? & ? & ? & ->). by exists tt; split; [|exists tt; split; [|exists tt]].
Qed.

Lemma with_source_Ok b src b' :
  with_source_identity b src = Ok b' ↔
  (∀ w, worker_session_id b = Some w → w = source_worker_session_id src) ∧
  (∀ src0, source_identity b = Some src0 → src0 = src) ∧
  b' = {| binding_identity := binding_identity b; worker_session_id := worker_session_id b;
          codex_thread_id := codex_thread_id b; source_identity := Some src |}.
Proof.
  unfold with_source_identity. rewrite bind_Ok. setoid_rewrite bind_Ok.
  setoid_rewrite refuse_Ok. setoid_rewrite differs_false. unfold id. split.
  - intros (_ & ? & _ & ? & [= <-]). done.
  - intros (? & ? & ->). by exists tt; split; [|exists tt].
Qed.

Lemma try_new_Ok id w c src b :
  try_new id w c src = Ok b ↔
  b = {| binding_identity := id; worker_session_id := w; codex_thread_id := c;
         source_identity := src |} ∧ binding_wf b.
Proof.
  unfold try_new, binding_wf, validate_id. split.
  - intros H. inv_result. simpl. split; [done|].
    destruct w as [w|], c as [c|], src as [src|]; simpl in *; inv_result; split_bools;
      simplify_eq; naive_solver.
  - intros [-> (Hw & Hc & Hs)]. simpl in *.
    destruct w as [w|].
    + rewrite andb_false_r. simpl. rewrite (Hw w) by done. simpl.
      destruct c as [c|]; simpl; [rewrite (proj1 (Hc c eq_refl)); simpl|];
      (destruct src as [src|]; simpl; [rewrite bool_decide_false; [done|]|done];
       rewrite (Hs src w) by done; naive_solver).
    + destruct c as [c|]; [by destruct (Hc c eq_refl) as [_ [? ?]]|]. simpl.
      destruct src as [src|]; simpl; [|done]. by rewrite bool_decide_false; [|naive_solver].
Qed.

(** A method that succeeds adds its fact and nothing else. *)
Lemma bind_op_le b op b' : bind_op b op = Ok b' → binding_le b b' ∧ holds op b'.
Proof.
  destruct op as [w|c|src]; simpl.
  - intros (_ & Hw & _ & ->)%accept_worker_Ok. unfold binding_le. simpl. naive_solver.
  - intros (_ & _ & Hc & ->)%accept_codex_Ok. unfold binding_le. simpl. naive_solver.
  - intros (_ & Hs & ->)%with_source_Ok. unfold binding_le. simpl. naive_solver.
Qed.

Lemma bind_op_wf b op b' : bind_op b op = Ok b' → binding_wf b → binding_wf b'.
Proof.
  unfold binding_wf. destruct op as [w|c|src]; simpl.
  - intros (? & ? & ? & ->)%accept_worker_Ok (? & ? & ?). simpl. naive_solver.
  - intros (? & ? & ? & ->)%accept_codex_Ok (? & ? & ?). simpl. naive_solver.
  - intros (? & ? & ->)%with_source_Ok (? & ? & ?). simpl. naive_solver.
Qed.

#[global] Instance binding_le_preorder : PreOrder binding_le.
Proof.
  split; [intros b|intros b1 b2 b3]; unfold binding_le; [naive_solver|].
  intros (-> & ? & ? & ?) (-> & ? & ? & ?). naive_solver.
Qed.

Lemma bind_ops_ind (P : SessionBinding → Prop) b ops :
  P b → (∀ b op b', P b → bind_op b op = Ok b' → P b') → P (bind_ops b ops).
Proof.
  intros Hb Hstep. revert b Hb. induction ops as [|op ops IH]; intros b Hb; [done|]. simpl.
  apply IH. destruct (bind_op b op) eqn:E; [by eapply Hstep|done].
Qed.

(** ** Properties *)

(** Every binding reached from a pending one by any sequence of accepted and refused
    methods passes the checks of the constructor: rebuilding it from its stored parts
    gives the same binding. *)
Theorem reachable_binding_rebuilds id b0 ops :
  pending id = Ok b0 →
  let b := bind_ops b0 ops in
  try_new (binding_identity b) (worker_session_id b) (codex_thread_id b) (source_identity b)
    = Ok b ∧ matches_identity b id = true.
Proof.
  intros [Hb0 Hwf]%try_new_Ok b.
  assert (binding_wf b ∧ binding_identity b = id) as [Hb Hid].
  { apply bind_ops_ind; [by rewrite Hb0 in *|]. intros b1 op b2 [H1 H2] Hop. split.
    - by eapply bind_op_wf.
    - apply bind_op_le in Hop as [(Hi & _) _]. congruence. }
  split; [|unfold matches_identity; by apply bool_decide_eq_true].
  apply try_new_Ok. split; [by destruct b|done].
Qed.

(** What a binding has accepted is never replaced: along any run the identity is
    fixed, a set worker session, Codex thread or source stays, so a complete binding is
    never changed again. *)
Theorem binding_write_once b ops :
  binding_le b (bind_ops b ops) ∧ (is_complete b = true → bind_ops b ops = b).
Proof.
  assert (Hle : binding_le b (bind_ops b ops)).
  { apply bind_ops_ind; [done|]. intros b1 op b2 H1 [H2 _]%bind_op_le. by etrans. }
  split; [done|]. unfold is_complete. intros Hc. split_bools.
  destruct Hle as (Hi & Hw & Hcx & Hs), (bind_ops b ops) as [i' w' c' s'], b as [i w c s].
  simpl in *. destruct w, c, s; try (by exfalso; eauto using is_Some_None).
  by rewrite Hi, (Hw _ eq_refl), (Hcx _ eq_refl), (Hs _ eq_refl).
Qed.

(** Events may arrive in either order: when two methods each succeed on a binding and
    one also succeeds after the other, then the other order succeeds with the same
    result, and repeating an accepted method changes nothing. *)
Theorem binding_order_independent b op1 op2 b1 b2 b12 :
  bind_op b op1 = Ok b1 → bind_op b op2 = Ok b2 → bind_op b1 op2 = Ok b12 →
  bind_op b2 op1 = Ok b12 ∧ bind_op b12 op1 = Ok b12 ∧ bind_op b12 op2 = Ok b12.
Proof.
  destruct b as [i w c s], op1, op2; simpl;
    rewrite ?accept_worker_Ok, ?accept_codex_Ok, ?with_source_Ok; simpl; intros;
    destruct_and?; subst; simpl in *; split_and!; try done; try naive_solver;
    f_equal; naive_solver.
Qed.

(** ** Witnesses *)

Definition sample_identity : SessionBindingIdentity :=
  {| scope := DeliveryWorkRun "dlv_01ARZ3NDEKTSV4RRFFQ69G5FAV" "wct_01ARZ3NDEKTSV4RRFFQ69G5FAV"
       1 "wit_01ARZ3NDEKTSV4RRFFQ69G5FAV" 2 "wrn_01ARZ3NDEKTSV4RRFFQ69G5FAV";
     product_session_id := "psn_01ARZ3NDEKTSV4RRFFQ69G5FAV";
     execution_job_id := "job_01ARZ3NDEKTSV4RRFFQ69G5FAV" |}.

Definition sample_worker : string := "wsn_01ARZ3NDEKTSV4RRFFQ69G5FAV".
Definition sample_codex : string := "cdx_01ARZ3NDEKTSV4RRFFQ69G5FAV".

Definition sample_source : RuntimeSourceIdentity :=
  {| source_worker_id := "wrk_01ARZ3NDEKTSV4RRFFQ69G5FAV";
     source_worker_instance_id := "wki_01ARZ3NDEKTSV4RRFFQ69G5FAV";
     source_worker_session_id := sample_worker;
     source_lease_id := "lse_01ARZ3NDEKTSV4RRFFQ69G5FAV" |}.

Definition sample_pending : SessionBinding :=
  {| binding_identity := sample_identity; worker_session_id := None;
     codex_thread_id := None; source_identity := None |}.

Definition sample_complete : SessionBinding :=
  {| binding_identity := sample_identity; worker_session_id := Some sample_worker;
     codex_thread_id := Some sample_codex; source_identity := Some sample_source |}.

Definition sample_ops : list BindOp :=
  [AcceptCodex sample_codex; WithSource sample_source; AcceptWorker sample_worker;
   AcceptCodex sample_codex; AcceptWorker "wsn_01ARZ3NDEKTSV4RRFFQ69G5FAW"].

Lemma reachable_binding_rebuilds_witness :
  bind_ops sample_pending sample_ops = sample_complete ∧
  matches_identity (bind_ops sample_pending sample_ops) sample_identity = true.
Proof.
  split; [vm_compute; reflexivity|].
  exact (proj2 (reachable_binding_rebuilds sample_identity sample_pending sample_ops eq_refl)).
Defined.

Lemma binding_write_once_witness :
  bind_ops sample_complete sample_ops = sample_complete.
Proof.
  apply (proj2 (binding_write_once sample_complete sample_ops)). vm_compute. reflexivity.
Defined.

Lemma binding_order_independent_witness :
  ∃ b, bind_op sample_pending (AcceptWorker sample_worker) = Ok b ∧
       bind_op b (WithSource sample_source) =
         (bind_op sample_pending (WithSource sample_source) ≫=
            λ b', bind_op b' (AcceptWorker sample_worker)).
Proof.
  eexists. split; [vm_compute; reflexivity|].
  assert (E2 : bind_op sample_pending (WithSource sample_source) =
    Ok {| binding_identity := sample_identity; worker_session_id := None;
          codex_thread_id := None; source_identity := Some sample_source |})
    by (vm_compute; reflexivity).
  rewrite E2. cbn [mbind result_bind]. symmetry.
  eapply (binding_order_independent sample_pending (AcceptWorker sample_worker)
           (WithSource sample_source)); [vm_compute; reflexivity|exact E2|].
  vm_compute. reflexivity.
Defined.
