(* ===== verification/Routing.v ===== *)
(** * Interaction routing

    Models [crates/winwincode-session/src/interaction_routing.rs]: the router that takes
    the answer to a pending question, approval or attention item to the execution that
    asked, and a session's cancellation to its executions.  A method that takes
    [&mut self] is a function from the router to the router and the method's result. *)

From Stdlib Require Import Ascii String.
From S2P Require Import Prelude Text Numerals DebugFmt Ordered.
Local Open Scope Z_scope.

(** ** Data *)

Definition MAX_ACTION_ID_LENGTH : Z := 200.
Definition MAX_DECISION_LENGTH : Z := 200.
Definition MAX_REASON_LENGTH : Z := 2000.

Inductive AuthenticatedActor : Type :=
| User (id : string)
| ServiceAccount (id : string)
| System (id : string).

#[global] Instance AuthenticatedActor_eq_dec : EqDecision AuthenticatedActor.
Proof. solve_decision. Defined.

Inductive InteractionSubject : Type :=
| SubjectUserInput (id : string)
| SubjectApproval (id : string)
| SubjectAttention (id : string).

#[global] Instance InteractionSubject_eq_dec : EqDecision InteractionSubject.
Proof. solve_decision. Defined.

#[global] Instance InteractionSubject_countable : Countable InteractionSubject.
Proof.
  refine (inj_countable'
    (λ s, match s with
          | SubjectUserInput i => inl (inl i)
          | SubjectApproval i => inl (inr i)
          | SubjectAttention i => inr i
          end)
    (λ x, match x with
          | inl (inl i) => SubjectUserInput i
          | inl (inr i) => SubjectApproval i
          | inr i => SubjectAttention i
          end) _).
  by intros [].
Defined.

Record RuntimeRouteAuthority : Type := {
  lease_id : string;
  worker_id : string;
  worker_instance_id : string;
  worker_session_id : string;
  attempt : Z;
  fencing_token : string
}.

#[global] Instance RuntimeRouteAuthority_eq_dec : EqDecision RuntimeRouteAuthority.
Proof. solve_decision. Defined.

Record ExecutionRoute : Type := {
  product_session_id : string;
  work_contract_id : option string;
  work_contract_revision : option Z;
  work_item_id : option string;
  work_item_revision : option Z;
  work_run_id : option string;
  execution_job_id : string;
  job_revision : Z;
  runtime : option RuntimeRouteAuthority;
  worker_slot_revision : option Z;
  model_exchange_id : option string
}.

#[global] Instance ExecutionRoute_eq_dec : EqDecision ExecutionRoute.
Proof. solve_decision. Defined.

Record DecisionRouteBinding : Type := {
  execution : ExecutionRoute;
  action_id : string;
  decision_revision : Z
}.

#[global] Instance DecisionRouteBinding_eq_dec : EqDecision DecisionRouteBinding.
Proof. solve_decision. Defined.

Record InteractionRegistration : Type := {
  reg_subject : InteractionSubject;
  reg_binding : DecisionRouteBinding;
  reg_authorized_actor : AuthenticatedActor;
  reg_expires_at : string;
  reg_attention_decisions : list string
}.

Inductive InteractionDecision : Type :=
| UserInput (value_sha256 : string)
| Approve (reason_sha256 : string)
| Reject (reason_sha256 : string)
| ResolveAttention (decision resolution_sha256 : string).

#[global] Instance InteractionDecision_eq_dec : EqDecision InteractionDecision.
Proof. solve_decision. Defined.

Record InteractionResponse : Type := {
  res_request_id : string;
  res_actor : AuthenticatedActor;
  res_subject : InteractionSubject;
  res_binding : DecisionRouteBinding;
  res_decision : InteractionDecision;
  res_responded_at : string
}.

Inductive InteractionOutcome : Type :=
| InputReceived
| Approved
| Rejected
| AttentionResolved
| Expired.

#[global] Instance InteractionOutcome_eq_dec : EqDecision InteractionOutcome.
Proof. solve_decision. Defined.

Inductive RouteWriteStatus : Type :=
| Applied
| Duplicate.

#[global] Instance RouteWriteStatus_eq_dec : EqDecision RouteWriteStatus.
Proof. solve_decision. Defined.

Record InteractionRouteReceipt : Type := {
  rcp_status : RouteWriteStatus;
  rcp_request_id : string;
  rcp_subject : InteractionSubject;
  rcp_binding : DecisionRouteBinding;
  rcp_previous_revision : Z;
  rcp_current_revision : Z;
  rcp_outcome : InteractionOutcome
}.

Record InteractionExpiry : Type := {
  exp_request_id : string;
  exp_subject : InteractionSubject;
  exp_binding : DecisionRouteBinding;
  exp_expired_at : string
}.

Record SessionCancellationSnapshot : Type := {
  snap_product_session_id : string;
  snap_revision : Z;
  snap_authorized_actor : AuthenticatedActor;
  snap_active_executions : list ExecutionRoute
}.

Record SessionCancellationRequest : Type := {
  can_request_id : string;
  can_actor : AuthenticatedActor;
  can_product_session_id : string;
  can_expected_revision : Z;
  can_reason : string;
  can_requested_at : string
}.

#[global] Instance SessionCancellationRequest_eq_dec : EqDecision SessionCancellationRequest.
Proof. solve_decision. Defined.

Record JobCancellationRoute : Type := {
  job_product_session_id : string;
  job_work_contract_id : option string;
  job_work_contract_revision : option Z;
  job_work_item_id : option string;
  job_work_item_revision : option Z;
  job_work_run_id : option string;
  job_execution_job_id : string;
  job_expected_revision : Z
}.

Record WorkerCancellationRoute : Type := {
  wkr_product_session_id : string;
  wkr_work_contract_id : option string;
  wkr_work_contract_revision : option Z;
  wkr_work_item_id : option string;
  wkr_work_item_revision : option Z;
  wkr_work_run_id : option string;
  wkr_execution_job_id : string;
  wkr_runtime : RuntimeRouteAuthority;
  wkr_expected_revision : Z
}.

Record ModelStreamCancellationRoute : Type := {
  mdl_product_session_id : string;
  mdl_work_contract_id : option string;
  mdl_work_contract_revision : option Z;
  mdl_work_item_id : option string;
  mdl_work_item_revision : option Z;
  mdl_work_run_id : option string;
  mdl_execution_job_id : string;
  mdl_runtime : RuntimeRouteAuthority;
  mdl_model_exchange_id : string
}.

Record ExecutionCancellationRoutes : Type := {
  route_job : JobCancellationRoute;
  route_worker : option WorkerCancellationRoute;
  route_model_stream : option ModelStreamCancellationRoute
}.

Record SessionCancellationReceipt : Type := {
  scr_status : RouteWriteStatus;
  scr_request_id : string;
  scr_product_session_id : string;
  scr_previous_revision : Z;
  scr_current_revision : Z;
  scr_routes : list ExecutionCancellationRoutes
}.

Inductive InteractionRoutingError : Type :=
| InvalidField (field : string)
| DuplicateRegistration
| UnknownInteraction
| UnknownProductSession
| ActorMismatch
| SubjectMismatch
| BindingMismatch
| RevisionConflict (expected actual : Z)
| DecisionKindMismatch
| AttentionDecisionNotAllowed
| AlreadyResolved
| IdempotencyConflict
| SessionAlreadyCancelled.

#[global] Instance InteractionRoutingError_eq_dec : EqDecision InteractionRoutingError.
Proof. solve_decision. Defined.

Record ResolvedInteraction : Type := {
  rsv_request_id : string;
  rsv_request_fingerprint : string;
  rsv_outcome : InteractionOutcome;
  rsv_current_revision : Z
}.

Record InteractionRecord : Type := {
  registration : InteractionRegistration;
  resolved : option ResolvedInteraction
}.

Record CancelledSession : Type := {
  cs_request : SessionCancellationRequest;
  cs_request_fingerprint : string;
  cs_receipt : SessionCancellationReceipt
}.

Record SessionCancellationRecord : Type := {
  snapshot : SessionCancellationSnapshot;
  cancelled : option CancelledSession
}.

Record InteractionRouter : Type := {
  interactions : gmap InteractionSubject InteractionRecord;
  sessions : gmap string SessionCancellationRecord
}.

(** [InteractionRouter::default]. *)
Definition router_default : InteractionRouter := {| interactions := ∅; sessions := ∅ |}.

(** ** Validation *)

Abbreviation checked A := (result InteractionRoutingError A).

Definition validate_id (value field prefix : string) : checked () :=
  refuse (negb (is_canonical_prefixed_id value prefix)) (InvalidField field).

Definition validate_revision (revision : Z) (field : string) : checked () :=
  refuse (negb ((1 <=? revision) && (revision <=? max_safe_integer))) (InvalidField field).

(** [u64::try_from] refuses a negative [i64]. *)
Definition validate_domain_revision (revision : Z) (field : string) : checked () :=
  refuse (revision <? 0) (InvalidField field) ;; validate_revision revision field.

Definition next_revision (revision : Z) : checked Z :=
  match checked_add_u64 revision 1 with
  | Some n => if n <=? max_safe_integer then Ok n else Err (InvalidField "revision")
  | None => Err (InvalidField "revision")
  end.

Definition validate_instant (i : string) : checked () :=
  refuse (negb (instant_shape i)) (InvalidField "instant").

Definition validate_bounded_text (value : string) (max : Z) (field : string) : checked () :=
  refuse (bool_decide (value = "") || (max <? chars_count value)) (InvalidField field).

Definition action_byte (c : ascii) : bool :=
  is_ascii_alphanumeric c ||
  bool_decide (byte_val c ∈ [46; 95; 58; 47; 64; 45]).

Definition validate_action_id (action : string) : checked () :=
  refuse (bool_decide (action = "") || (MAX_ACTION_ID_LENGTH <? str_len action) ||
          negb (all_bytes action_byte action)) (InvalidField "actionId").

Definition validate_digest (digest : string) : checked () :=
  match strip_prefix "sha256:" digest with
  | None => Err (InvalidField "sha256")
  | Some value =>
      refuse (negb (str_len value =? 64) || negb (all_bytes is_hex_lower value))
        (InvalidField "sha256")
  end.

Definition validate_request_id (request_id : string) : checked () :=
  validate_id request_id "requestId" "req_".

Definition validate_actor (actor : AuthenticatedActor) : checked () :=
  match actor with
  | User i => validate_id i "actorId" "usr_"
  | ServiceAccount i => validate_id i "actorId" "svc_"
  | System i => validate_id i "actorId" "sys_"
  end.

Definition validate_subject (subject : InteractionSubject) : checked () :=
  match subject with
  | SubjectUserInput i => validate_id i "inputRequestId" "inp_"
  | SubjectApproval i => validate_id i "approvalId" "apr_"
  | SubjectAttention i => validate_id i "attentionItemId" "att_"
  end.

Definition fencing_token_shape (token : string) : bool :=
  match token with
  | EmptyString => false
  | String first _ =>
      (str_len token <=? 20) && negb (byte_val first =? 48) && all_bytes is_ascii_digit token
  end.

Definition validate_runtime (r : RuntimeRouteAuthority) : checked () :=
  validate_id (lease_id r) "leaseId" "lse_" ;;
  validate_id (worker_id r) "workerId" "wrk_" ;;
  validate_id (worker_instance_id r) "workerInstanceId" "wki_" ;;
  validate_id (worker_session_id r) "workerSessionId" "wsn_" ;;
  refuse (negb ((1 <=? attempt r) && (attempt r <=? 1000))) (InvalidField "attempt") ;;
  refuse (negb (fencing_token_shape (fencing_token r))) (InvalidField "fencingToken").

Definition present {A} (o : option A) : bool :=
  match o with Some _ => true | None => false end.

Definition validate_execution (x : ExecutionRoute) : checked () :=
  validate_id (product_session_id x) "productSessionId" "psn_" ;;
  refuse (negb (eqb (present (work_contract_id x)) (present (work_contract_revision x))) ||
          negb (eqb (present (work_contract_id x)) (present (work_item_id x))) ||
          negb (eqb (present (work_contract_id x)) (present (work_item_revision x))) ||
          negb (eqb (present (work_contract_id x)) (present (work_run_id x))))
    (InvalidField "workRunIdentity") ;;
  match work_contract_id x, work_contract_revision x, work_item_id x, work_item_revision x,
        work_run_id x with
  | Some contract, Some contract_revision, Some item, Some item_revision, Some run =>
      validate_id contract "workContractId" "wct_" ;;
      validate_domain_revision contract_revision "workContractRevision" ;;
      validate_id item "workItemId" "wit_" ;;
      validate_domain_revision item_revision "workItemRevision" ;;
      validate_id run "workRunId" "wrn_"
  | _, _, _, _, _ => Ok tt
  end ;;
  validate_id (execution_job_id x) "executionJobId" "job_" ;;
  validate_revision (job_revision x) "jobRevision" ;;
  match runtime x, worker_slot_revision x with
  | Some r, Some worker_revision =>
      validate_runtime r ;; validate_revision worker_revision "workerSlotRevision"
  | None, None => Ok tt
  | _, _ => Err (InvalidField "runtimeAuthority")
  end ;;
  refuse (present (model_exchange_id x) && negb (present (runtime x)))
    (InvalidField "modelExchangeId") ;;
  match model_exchange_id x with
  | Some exchange => validate_id exchange "modelExchangeId" "mdl_"
  | None => Ok tt
  end.

Definition validate_binding (b : DecisionRouteBinding) : checked () :=
  validate_execution (execution b) ;;
  validate_revision (decision_revision b) "decisionRevision" ;;
  validate_action_id (action_id b).

Definition validate_registration (r : InteractionRegistration) : checked () :=
  validate_subject (reg_subject r) ;;
  validate_binding (reg_binding r) ;;
  validate_actor (reg_authorized_actor r) ;;
  validate_instant (reg_expires_at r) ;;
  match reg_subject r with
  | SubjectAttention _ =>
      refuse (bool_decide (reg_attention_decisions r = [])) (InvalidField "attentionDecisions") ;;
      check_all (λ d, validate_bounded_text d MAX_DECISION_LENGTH "attentionDecision")
        (reg_attention_decisions r)
  | SubjectUserInput _ | SubjectApproval _ =>
      refuse (negb (bool_decide (reg_attention_decisions r = [])))
        (InvalidField "attentionDecisions")
  end.

Definition validate_response (r : InteractionResponse) : checked () :=
  validate_request_id (res_request_id r) ;;
  validate_actor (res_actor r) ;;
  validate_subject (res_subject r) ;;
  validate_binding (res_binding r) ;;
  validate_instant (res_responded_at r) ;;
  match res_decision r with
  | UserInput digest | Approve digest | Reject digest => validate_digest digest
  | ResolveAttention decision digest =>
      validate_bounded_text decision MAX_DECISION_LENGTH "attentionDecision" ;;
      validate_digest digest
  end.

Definition validate_cancellation_request (r : SessionCancellationRequest) : checked () :=
  validate_request_id (can_request_id r) ;;
  validate_actor (can_actor r) ;;
  validate_id (can_product_session_id r) "productSessionId" "psn_" ;;
  validate_revision (can_expected_revision r) "expectedRevision" ;;
  validate_bounded_text (can_reason r) MAX_REASON_LENGTH "reason" ;;
  validate_instant (can_requested_at r).

Definition require_response_authority (record : InteractionRecord) (r : InteractionResponse) :
    checked () :=
  refuse (bool_decide (reg_subject (registration record) ≠ res_subject r)) SubjectMismatch ;;
  refuse (bool_decide (reg_authorized_actor (registration record) ≠ res_actor r)) ActorMismatch ;;
  if bool_decide (reg_binding (registration record) ≠ res_binding r) then
    refuse (bool_decide (decision_revision (reg_binding (registration record)) ≠
                         decision_revision (res_binding r)))
      (RevisionConflict (decision_revision (res_binding r))
         (decision_revision (reg_binding (registration record)))) ;;
    Err BindingMismatch
  else Ok tt.

Definition validate_decision (r : InteractionRegistration) (d : InteractionDecision) :
    checked InteractionOutcome :=
  match reg_subject r, d with
  | SubjectUserInput _, UserInput _ => Ok InputReceived
  | SubjectApproval _, Approve _ => Ok Approved
  | SubjectApproval _, Reject _ => Ok Rejected
  | SubjectAttention _, ResolveAttention decision _ =>
      refuse (negb (is_ok (binary_search (reg_attention_decisions r) decision)))
        AttentionDecisionNotAllowed ;;
      Ok AttentionResolved
  | _, _ => Err DecisionKindMismatch
  end.

(** ** Fingerprints *)

Section fingerprints.
Context (unicode_escaped : Z → bool).

(** [Debug] of a newtype around a string. *)
Definition debug_newtype (name value : string) : string :=
  name ++ "(" ++ debug_str unicode_escaped value ++ ")".

Definition debug_i64 (z : Z) : string :=
  if z <? 0 then "-" ++ decimal (- z) else decimal z.

Definition debug_option {A} (f : A → string) (o : option A) : string :=
  match o with None => "None" | Some a => "Some(" ++ f a ++ ")" end.

Definition debug_actor (a : AuthenticatedActor) : string :=
  match a with
  | User i => "User(" ++ debug_newtype "UserId" i ++ ")"
  | ServiceAccount i => "ServiceAccount(" ++ debug_newtype "ServiceAccountId" i ++ ")"
  | System i => "System(" ++ debug_newtype "SystemActorId" i ++ ")"
  end.

Definition debug_subject (s : InteractionSubject) : string :=
  match s with
  | SubjectUserInput i => "UserInput(" ++ debug_newtype "InputRequestId" i ++ ")"
  | SubjectApproval i => "Approval(" ++ debug_newtype "ApprovalId" i ++ ")"
  | SubjectAttention i => "Attention(" ++ debug_newtype "AttentionItemId" i ++ ")"
  end.

Definition debug_revision (z : Z) : string := "Revision(" ++ debug_i64 z ++ ")".

Definition debug_runtime (r : RuntimeRouteAuthority) : string :=
  "RuntimeRouteAuthority { lease_id: " ++ debug_newtype "LeaseId" (lease_id r) ++
  ", worker_id: " ++ debug_newtype "WorkerId" (worker_id r) ++
  ", worker_instance_id: " ++ debug_newtype "WorkerInstanceId" (worker_instance_id r) ++
  ", worker_session_id: " ++ debug_newtype "WorkerSessionId" (worker_session_id r) ++
  ", attempt: " ++ decimal (attempt r) ++
  ", fencing_token: " ++ debug_newtype "FencingToken" (fencing_token r) ++ " }".

Definition debug_execution (x : ExecutionRoute) : string :=
  "ExecutionRoute { product_session_id: " ++
    debug_newtype "ProductSessionId" (product_session_id x) ++
  ", work_contract_id: " ++
    debug_option (debug_newtype "WorkContractId") (work_contract_id x) ++
  ", work_contract_revision: " ++ debug_option debug_revision (work_contract_revision x) ++
  ", work_item_id: " ++ debug_option (debug_newtype "WorkItemId") (work_item_id x) ++
  ", work_item_revision: " ++ debug_option debug_revision (work_item_revision x) ++
  ", work_run_id: " ++ debug_option (debug_newtype "WorkRunId") (work_run_id x) ++
  ", execution_job_id: " ++ debug_newtype "ExecutionJobId" (execution_job_id x) ++
  ", job_revision: " ++ decimal (job_revision x) ++
  ", runtime: " ++ debug_option debug_runtime (runtime x) ++
  ", worker_slot_revision: " ++ debug_option decimal (worker_slot_revision x) ++
  ", model_exchange_id: " ++
    debug_option (debug_newtype "ModelExchangeId") (model_exchange_id x) ++ " }".

Definition debug_binding (b : DecisionRouteBinding) : string :=
  "DecisionRouteBinding { execution: " ++ debug_execution (execution b) ++
  ", action_id: " ++ debug_str unicode_escaped (action_id b) ++
  ", decision_revision: " ++ decimal (decision_revision b) ++ " }".

Definition debug_decision (d : InteractionDecision) : string :=
  match d with
  | UserInput h => "UserInput { value_sha256: " ++ debug_newtype "Sha256Digest" h ++ " }"
  | Approve h => "Approve { reason_sha256: " ++ debug_newtype "Sha256Digest" h ++ " }"
  | Reject h => "Reject { reason_sha256: " ++ debug_newtype "Sha256Digest" h ++ " }"
  | ResolveAttention t h =>
      "ResolveAttention { decision: " ++ debug_str unicode_escaped t ++
      ", resolution_sha256: " ++ debug_newtype "Sha256Digest" h ++ " }"
  end.

Definition response_fingerprint (r : InteractionResponse) : string :=
  debug_actor (res_actor r) ++ "|" ++ debug_subject (res_subject r) ++ "|" ++
  debug_binding (res_binding r) ++ "|" ++ debug_decision (res_decision r) ++ "|" ++
  debug_newtype "Instant" (res_responded_at r) ++ "|" ++ res_request_id r.

Definition expiry_fingerprint (e : InteractionExpiry) : string :=
  debug_subject (exp_subject e) ++ "|" ++ debug_binding (exp_binding e) ++ "|" ++
  debug_newtype "Instant" (exp_expired_at e) ++ "|" ++ exp_request_id e.

Definition cancellation_fingerprint (r : SessionCancellationRequest) : string :=
  debug_actor (can_actor r) ++ "|" ++ can_product_session_id r ++ "|" ++
  decimal (can_expected_revision r) ++ "|" ++ can_reason r ++ "|" ++
  debug_newtype "Instant" (can_requested_at r) ++ "|" ++ can_request_id r.

(** ** Operations *)

Definition interaction_receipt (record : InteractionRecord) (request_id : string)
    (status : RouteWriteStatus) (outcome : InteractionOutcome) (current_revision : Z) :
    InteractionRouteReceipt :=
  {| rcp_status := status;
     rcp_request_id := request_id;
     rcp_subject := reg_subject (registration record);
     rcp_binding := reg_binding (registration record);
     rcp_previous_revision := decision_revision (reg_binding (registration record));
     rcp_current_revision := current_revision;
     rcp_outcome := outcome |}.

Definition replay_interaction (record : InteractionRecord) (request_id fingerprint : string)
    (rsv : ResolvedInteraction) : checked InteractionRouteReceipt :=
  refuse (bool_decide (rsv_request_id rsv ≠ request_id)) AlreadyResolved ;;
  refuse (bool_decide (rsv_request_fingerprint rsv ≠ fingerprint)) IdempotencyConflict ;;
  Ok (interaction_receipt record request_id Duplicate (rsv_outcome rsv)
        (rsv_current_revision rsv)).

Definition with_interaction (t : InteractionRouter) (k : InteractionSubject)
    (record : InteractionRecord) : InteractionRouter :=
  {| interactions := <[k := record]> (interactions t); sessions := sessions t |}.

Definition with_session (t : InteractionRouter) (k : string)
    (record : SessionCancellationRecord) : InteractionRouter :=
  {| interactions := interactions t; sessions := <[k := record]> (sessions t) |}.

Definition normalise (r : InteractionRegistration) : InteractionRegistration :=
  {| reg_subject := reg_subject r; reg_binding := reg_binding r;
     reg_authorized_actor := reg_authorized_actor r; reg_expires_at := reg_expires_at r;
     reg_attention_decisions := dedup (sort_unstable (reg_attention_decisions r)) |}.

Definition register_interaction (t : InteractionRouter) (r : InteractionRegistration) :
    InteractionRouter * checked () :=
  match validate_registration r with
  | Err e => (t, Err e)
  | Ok _ =>
      let r := normalise r in
      match interactions t !! reg_subject r with
      | Some _ => (t, Err DuplicateRegistration)
      | None =>
          (with_interaction t (reg_subject r) {| registration := r; resolved := None |}, Ok tt)
      end
  end.

(** The end of [respond] and [expire]: record the resolution and build its receipt. *)
Definition resolve (t : InteractionRouter) (k : InteractionSubject) (record : InteractionRecord)
    (request_id fingerprint : string) (outcome : InteractionOutcome) :
    InteractionRouter * checked InteractionRouteReceipt :=
  match next_revision (decision_revision (reg_binding (registration record))) with
  | Err e => (t, Err e)
  | Ok current_revision =>
      let record' :=
        {| registration := registration record;
           resolved := Some {| rsv_request_id := request_id;
                               rsv_request_fingerprint := fingerprint;
                               rsv_outcome := outcome;
                               rsv_current_revision := current_revision |} |} in
      (with_interaction t k record',
       Ok (interaction_receipt record' request_id Applied outcome current_revision))
  end.

Definition respond (t : InteractionRouter) (r : InteractionResponse) :
    InteractionRouter * checked InteractionRouteReceipt :=
  match (validate_response r ;; ok_or (interactions t !! res_subject r) UnknownInteraction) with
  | Err e => (t, Err e)
  | Ok record =>
      match require_response_authority record r with
      | Err e => (t, Err e)
      | Ok _ =>
          let fingerprint := response_fingerprint r in
          match resolved record with
          | Some rsv => (t, replay_interaction record (res_request_id r) fingerprint rsv)
          | None =>
              match (if str_ltb (reg_expires_at (registration record)) (res_responded_at r)
                     then Ok Expired
                     else validate_decision (registration record) (res_decision r)) with
              | Err e => (t, Err e)
              | Ok outcome =>
                  resolve t (res_subject r) record (res_request_id r) fingerprint outcome
              end
          end
      end
  end.

Definition expire (t : InteractionRouter) (x : InteractionExpiry) :
    InteractionRouter * checked InteractionRouteReceipt :=
  match (validate_request_id (exp_request_id x) ;; validate_binding (exp_binding x) ;;
         validate_instant (exp_expired_at x) ;;
         record ← ok_or (interactions t !! exp_subject x) UnknownInteraction;
         refuse (bool_decide (reg_subject (registration record) ≠ exp_subject x)) SubjectMismatch ;;
         refuse (bool_decide (reg_binding (registration record) ≠ exp_binding x)) BindingMismatch ;;
         refuse (str_ltb (exp_expired_at x) (reg_expires_at (registration record)))
           (InvalidField "expiredAt") ;;
         Ok record)
  with
  | Err e => (t, Err e)
  | Ok record =>
      let fingerprint := expiry_fingerprint x in
      match resolved record with
      | Some rsv => (t, replay_interaction record (exp_request_id x) fingerprint rsv)
      | None => resolve t (exp_subject x) record (exp_request_id x) fingerprint Expired
      end
  end.

Definition sort_executions (s : SessionCancellationSnapshot) : SessionCancellationSnapshot :=
  {| snap_product_session_id := snap_product_session_id s; snap_revision := snap_revision s;
     snap_authorized_actor := snap_authorized_actor s;
     snap_active_executions := sort_by_key execution_job_id (snap_active_executions s) |}.

Definition register_cancellation_scope (t : InteractionRouter)
    (s : SessionCancellationSnapshot) : InteractionRouter * checked () :=
  match (validate_actor (snap_authorized_actor s) ;;
         validate_id (snap_product_session_id s) "productSessionId" "psn_" ;;
         validate_revision (snap_revision s) "revision" ;;
         check_all (λ x, validate_execution x ;;
                         refuse (bool_decide (product_session_id x ≠ snap_product_session_id s))
                           BindingMismatch) (snap_active_executions s))
  with
  | Err e => (t, Err e)
  | Ok _ =>
      let s := sort_executions s in
      if adjacent_equal execution_job_id (snap_active_executions s)
      then (t, Err DuplicateRegistration)
      else match sessions t !! snap_product_session_id s with
           | Some _ => (t, Err DuplicateRegistration)
           | None => (with_session t (snap_product_session_id s)
                        {| snapshot := s; cancelled := None |}, Ok tt)
           end
  end.

(** [Option::zip]. *)
Definition zip_option {A B} (a : option A) (b : option B) : option (A * B) :=
  match a, b with Some a, Some b => Some (a, b) | _, _ => None end.

Definition cancellation_routes (x : ExecutionRoute) : ExecutionCancellationRoutes :=
  {| route_job :=
       {| job_product_session_id := product_session_id x;
          job_work_contract_id := work_contract_id x;
          job_work_contract_revision := work_contract_revision x;
          job_work_item_id := work_item_id x;
          job_work_item_revision := work_item_revision x;
          job_work_run_id := work_run_id x;
          job_execution_job_id := execution_job_id x;
          job_expected_revision := job_revision x |};
     route_worker :=
       (λ '(r, expected), {| wkr_product_session_id := product_session_id x;
          wkr_work_contract_id := work_contract_id x;
          wkr_work_contract_revision := work_contract_revision x;
          wkr_work_item_id := work_item_id x;
          wkr_work_item_revision := work_item_revision x;
          wkr_work_run_id := work_run_id x;
          wkr_execution_job_id := execution_job_id x;
          wkr_runtime := r;
          wkr_expected_revision := expected |})
       <$> zip_option (runtime x) (worker_slot_revision x);
     route_model_stream :=
       (λ '(r, exchange), {| mdl_product_session_id := product_session_id x;
          mdl_work_contract_id := work_contract_id x;
          mdl_work_contract_revision := work_contract_revision x;
          mdl_work_item_id := work_item_id x;
          mdl_work_item_revision := work_item_revision x;
          mdl_work_run_id := work_run_id x;
          mdl_execution_job_id := execution_job_id x;
          mdl_runtime := r;
          mdl_model_exchange_id := exchange |})
       <$> zip_option (runtime x) (model_exchange_id x) |}.

Definition as_duplicate (r : SessionCancellationReceipt) : SessionCancellationReceipt :=
  {| scr_status := Duplicate; scr_request_id := scr_request_id r;
     scr_product_session_id := scr_product_session_id r;
     scr_previous_revision := scr_previous_revision r;
     scr_current_revision := scr_current_revision r; scr_routes := scr_routes r |}.

Definition cancel_session (t : InteractionRouter) (r : SessionCancellationRequest) :
    InteractionRouter * checked SessionCancellationReceipt :=
  match (validate_cancellation_request r ;;
         ok_or (sessions t !! can_product_session_id r) UnknownProductSession) with
  | Err e => (t, Err e)
  | Ok record =>
      let fingerprint := cancellation_fingerprint r in
      match cancelled record with
      | Some c =>
          (t, if bool_decide (can_request_id (cs_request c) = can_request_id r) then
                refuse (bool_decide (cs_request_fingerprint c ≠ fingerprint))
                  IdempotencyConflict ;;
                Ok (as_duplicate (cs_receipt c))
              else Err SessionAlreadyCancelled)
      | None =>
          match (refuse (bool_decide (snap_authorized_actor (snapshot record) ≠ can_actor r))
                   ActorMismatch ;;
                 refuse (negb (snap_revision (snapshot record) =? can_expected_revision r))
                   (RevisionConflict (can_expected_revision r)
                      (snap_revision (snapshot record))) ;;
                 next_revision (snap_revision (snapshot record)))
          with
          | Err e => (t, Err e)
          | Ok current_revision =>
              let receipt :=
                {| scr_status := Applied;
                   scr_request_id := can_request_id r;
                   scr_product_session_id := can_product_session_id r;
                   scr_previous_revision := snap_revision (snapshot record);
                   scr_current_revision := current_revision;
                   scr_routes := cancellation_routes <$>
                                   snap_active_executions (snapshot record) |} in
              (with_session t (can_product_session_id r)
                 {| snapshot := snapshot record;
                    cancelled := Some {| cs_request := r;
                                         cs_request_fingerprint := fingerprint;
                                         cs_receipt := receipt |} |}, Ok receipt)
          end
      end
  end.
End fingerprints.
