(* ===== verification/Fingerprint.v ===== *)
(** * Fingerprint: a request's fingerprint determines the request

    The router recognises a repeated request by comparing printed fingerprints
    ([response_fingerprint], [expiry_fingerprint] and [cancellation_fingerprint] of
    [crates/winwincode-session/src/interaction_routing.rs]).  This file shows that on
    validated requests the printing is injective. *)

From Stdlib Require Import Ascii String.
From S2P Require Import Prelude Text Numerals DebugFmt Ordered Routing.
Local Open Scope Z_scope.

(** ** Validated text is plain *)

Definition plain (s : string) : Prop := all_bytes plain_byte s = true.

Lemma all_bytes_app p a b : all_bytes p (a ++ b) = all_bytes p a && all_bytes p b.
Proof.
  unfold all_bytes. induction a as [|c a IH]; [done|]. simpl. by rewrite IH, andb_assoc.
Qed.

Lemma all_bytes_impl (p q : ascii → bool) s :
  (∀ c, p c = true → q c = true) → all_bytes p s = true → all_bytes q s = true.
Proof.
  intros Hpq. unfold all_bytes. induction s as [|c s IH]; [done|]. simpl.
  rewrite !andb_true_iff. naive_solver.
Qed.

(** The bytes the validators allow, as ranges. *)
Ltac plain_ranges :=
  intros; unfold base32_byte, is_hex_lower, action_byte, is_ascii_alphanumeric, is_ascii_digit,
    is_ascii_upper, is_ascii_lower, plain_byte in *;
  repeat match goal with
  | H : _ || _ = true |- _ => apply orb_true_iff in H as [H|H]
  | H : in_range _ _ _ = true |- _ => apply in_range_iff in H
  | H : bool_decide _ = true |- _ => apply bool_decide_eq_true in H
  | H : _ ∈ _ :: _ |- _ => apply elem_of_cons in H as [H|H]
  | H : _ ∈ [] |- _ => by apply elem_of_nil in H
  end;
  rewrite !andb_true_iff, in_range_iff, !negb_true_iff, !Z.eqb_neq; lia.

Lemma canonical_plain value prefix :
  is_canonical_prefixed_id value prefix = true → plain prefix → plain value.
Proof.
  unfold is_canonical_prefixed_id, plain. case_match eqn:E; [|done]. intros H Hp. split_bools.
  apply strip_prefix_Some in E as ->. rewrite all_bytes_app, Hp. simpl.
  eapply all_bytes_impl; [|done]. plain_ranges.
Qed.

Lemma instant_plain i : instant_shape i = true → plain i.
Proof.
  unfold instant_shape, plain, all_bytes. intros H. split_bools.
  match goal with H : forallb _ _ = true |- _ => rename H into Hf end.
  apply forallb_forall. intros c Hc.
  apply list_elem_of_In, list_elem_of_lookup in Hc as (k & Hk).
  assert (Hin : (k, c) ∈ imap pair (bytes i)).
  { apply list_elem_of_lookup. exists k. by rewrite list_lookup_imap, Hk. }
  apply list_elem_of_In in Hin.
  pose proof (proj1 (forallb_forall _ _) Hf (k, c) Hin) as Hik. simpl in Hik. unfold instant_byte, instant_mark in Hik.
  assert (Hmark : ∀ z, (byte_val c =? z) = true → 32 ≤ z ≤ 126 → z ≠ 34 → z ≠ 92 →
                  plain_byte c = true).
  { intros z Hz%Z.eqb_eq ? ? ?. unfold plain_byte. rewrite !andb_true_iff, in_range_iff,
      !negb_true_iff, !Z.eqb_neq. lia. }
  do 24 (destruct k as [|k]; [first [by eapply Hmark; [exact Hik|lia..]|plain_ranges]|]).
  plain_ranges.
Qed.

Lemma digest_plain d u : validate_digest d = Ok u → plain d.
Proof.
  unfold validate_digest, plain. case_match eqn:E; [|done]. intros H. inv_result. split_bools.
  apply strip_prefix_Some in E as ->. rewrite all_bytes_app. simpl.
  eapply all_bytes_impl; [|done]. plain_ranges.
Qed.

Lemma action_plain a u : validate_action_id a = Ok u → plain a.
Proof.
  unfold validate_action_id, plain. intros H. inv_result. split_bools.
  eapply all_bytes_impl; [|done]. plain_ranges.
Qed.

Lemma token_plain t : fencing_token_shape t = true → plain t.
Proof.
  unfold fencing_token_shape, plain. destruct t as [|c t]; [done|]. intros H. split_bools.
  eapply all_bytes_impl; [|done]. plain_ranges.
Qed.

(** ** Printers that can be read back *)

(** On values that satisfy [V], the printed text determines the value and what follows. *)
Definition free {A} (V : A → Prop) (p : A → string) : Prop :=
  ∀ a b r1 r2, V a → V b → (p a ++ r1 = p b ++ r2)%string → a = b ∧ r1 = r2.

Definition option_ok {A} (V : A → Prop) (o : option A) : Prop := ∀ a, o = Some a → V a.

Lemma lit_inj (l a b : string) : (l ++ a = l ++ b)%string → a = b.
Proof. induction l as [|c l IH]; [done|]. intros H. injection H as H. auto. Qed.

Lemma decimal_then c n m l r1 r2 :
  digit_val 10 c = None → 0 ≤ n → 0 ≤ m →
  (decimal n ++ (String c l ++ r1) = decimal m ++ (String c l ++ r2))%string → n = m ∧ r1 = r2.
Proof.
  intros Hc Hn Hm Heq.
  destruct (radix_delimited 10 ltac:(lia) n m c c (l ++ r1) (l ++ r2)) as [-> Hr]; [done..|].
  split; [done|]. injection Hr as Hr. by apply lit_inj in Hr.
Qed.

Section printers.
Context (unicode_escaped : Z → bool).
Abbreviation newtype := (debug_newtype unicode_escaped).

Lemma free_newtype name : free utf8 (newtype name).
Proof.
  intros a b r1 r2 Ha Hb Heq. unfold debug_newtype in Heq. rewrite !str_append_assoc in Heq.
  do 2 apply lit_inj in Heq. apply debug_str_free in Heq as [-> Heq]; [|done..].
  by apply lit_inj in Heq.
Qed.

Lemma free_option {A} (V : A → Prop) p : free V p → free (option_ok V) (debug_option p).
Proof.
  intros Hp [a|] [b|] r1 r2 Ha Hb Heq; unfold debug_option in Heq;
    rewrite ?str_append_assoc in Heq; [|discriminate Heq|discriminate Heq|by apply lit_inj in Heq].
  apply lit_inj in Heq. apply Hp in Heq as [-> Heq]; [|by apply Ha|by apply Hb].
  by apply lit_inj in Heq.
Qed.

Lemma free_option_decimal : free (option_ok (Z.le 0)) (debug_option decimal).
Proof.
  intros [a|] [b|] r1 r2 Ha Hb Heq; unfold debug_option in Heq;
    rewrite ?str_append_assoc in Heq; [|discriminate Heq|discriminate Heq|by apply lit_inj in Heq].
  apply lit_inj in Heq. apply decimal_then in Heq as [-> Heq]; auto.
Qed.

Lemma free_revision : free (Z.le 0) debug_revision.
Proof.
  intros a b r1 r2 Ha Hb Heq. unfold debug_revision, debug_i64 in Heq.
  rewrite (proj2 (Z.ltb_ge a 0)), (proj2 (Z.ltb_ge b 0)) in Heq by lia.
  rewrite !str_append_assoc in Heq. apply lit_inj in Heq. by apply decimal_then in Heq.
Qed.

(** Removes from an equation of printed texts what both sides start with, keeping the
    equations of the values. *)
Ltac peel H :=
  rewrite ?str_append_assoc in H;
  repeat first
    [ apply lit_inj in H
    | let E := fresh "E" in
      first [ apply free_newtype in H as [E H]; [|auto; fail..]
            | apply (free_option _ _ (free_newtype _)) in H as [E H]; [|auto; fail..]
            | apply (free_option _ _ free_revision) in H as [E H]; [|auto; fail..]
            | apply free_option_decimal in H as [E H]; [|auto; fail..]
            | apply debug_str_free in H as [E H]; [|auto; fail..]
            | apply decimal_then in H as [E H]; [|reflexivity|auto; fail..] ] ].

(** ** Validity of the printed records *)

Definition actor_ok (a : AuthenticatedActor) : Prop :=
  match a with User i | ServiceAccount i | System i => utf8 i end.

Definition subject_ok (s : InteractionSubject) : Prop :=
  match s with SubjectUserInput i | SubjectApproval i | SubjectAttention i => utf8 i end.

Definition runtime_ok (r : RuntimeRouteAuthority) : Prop :=
  utf8 (lease_id r) ∧ utf8 (worker_id r) ∧ utf8 (worker_instance_id r) ∧
  utf8 (worker_session_id r) ∧ 0 ≤ attempt r ∧ utf8 (fencing_token r).

Definition execution_ok (x : ExecutionRoute) : Prop :=
  utf8 (product_session_id x) ∧ option_ok utf8 (work_contract_id x) ∧
  option_ok (Z.le 0) (work_contract_revision x) ∧ option_ok utf8 (work_item_id x) ∧
  option_ok (Z.le 0) (work_item_revision x) ∧ option_ok utf8 (work_run_id x) ∧
  utf8 (execution_job_id x) ∧ 0 ≤ job_revision x ∧ option_ok runtime_ok (runtime x) ∧
  option_ok (Z.le 0) (worker_slot_revision x) ∧ option_ok utf8 (model_exchange_id x).

Definition binding_ok (b : DecisionRouteBinding) : Prop :=
  execution_ok (execution b) ∧ utf8 (action_id b) ∧ 0 ≤ decision_revision b.

Definition decision_ok (d : InteractionDecision) : Prop :=
  match d with
  | UserInput h | Approve h | Reject h => utf8 h
  | ResolveAttention t h => utf8 t ∧ utf8 h
  end.

Lemma free_actor : free actor_ok (debug_actor unicode_escaped).
Proof.
  intros [i|i|i] [j|j|j] r1 r2 Ha Hb Heq; unfold debug_actor in Heq; try discriminate Heq;
    simpl in Ha, Hb; peel Heq; by subst.
Qed.

Lemma free_subject : free subject_ok (debug_subject unicode_escaped).
Proof.
  intros [i|i|i] [j|j|j] r1 r2 Ha Hb Heq; unfold debug_subject in Heq; try discriminate Heq;
    simpl in Ha, Hb; peel Heq; by subst.
Qed.

Lemma free_runtime : free runtime_ok (debug_runtime unicode_escaped).
Proof.
  intros a b r1 r2 Ha Hb Heq. unfold debug_runtime, runtime_ok in *. destruct_and!.
  peel Heq. destruct a, b; by simplify_eq/=.
Qed.

Lemma free_execution : free execution_ok (debug_execution unicode_escaped).
Proof.
  intros a b r1 r2 Ha Hb Heq. unfold debug_execution, execution_ok in *. destruct_and!. peel Heq.
  apply (free_option _ _ free_runtime) in Heq as [? Heq]; [|done..]. peel Heq.
  destruct a, b; by simplify_eq/=.
Qed.

Lemma free_binding : free binding_ok (debug_binding unicode_escaped).
Proof.
  intros a b r1 r2 Ha Hb Heq. unfold debug_binding, binding_ok in *. destruct_and!. peel Heq.
  apply free_execution in Heq as [? Heq]; [|done..]. peel Heq. destruct a, b; by simplify_eq/=.
Qed.

Lemma free_decision : free decision_ok (debug_decision unicode_escaped).
Proof.
  intros [h|h|h|t h] [h'|h'|h'|t' h'] r1 r2 Ha Hb Heq; unfold debug_decision in Heq;
    try discriminate Heq; simpl in Ha, Hb; destruct_and?; peel Heq; by subst.
Qed.
End printers.

(** ** Validated requests are printable *)

Lemma validate_id_utf8 value field prefix u :
  validate_id value field prefix = Ok u → plain prefix → utf8 value.
Proof.
  unfold validate_id. intros H Hp. inv_result. split_bools.
  by eapply plain_utf8, canonical_plain.
Qed.

Lemma validate_revision_pos r field u :
  validate_revision r field = Ok u → 1 ≤ r ≤ max_safe_integer.
Proof. unfold validate_revision. intros H. inv_result. split_bools. lia. Qed.

Lemma validate_domain_revision_pos r field u :
  validate_domain_revision r field = Ok u → 1 ≤ r ≤ max_safe_integer.
Proof. unfold validate_domain_revision. intros H. inv_result. by eapply validate_revision_pos. Qed.

(** Turns what a validator accepted into the printability of the fields. *)
Ltac use_validators :=
  inv_result;
  repeat match goal with
  | H : validate_id _ _ _ = Ok _ |- _ => apply validate_id_utf8 in H; [|reflexivity]
  | H : validate_revision _ _ = Ok _ |- _ => apply validate_revision_pos in H
  | H : validate_domain_revision _ _ = Ok _ |- _ => apply validate_domain_revision_pos in H
  end.

Lemma validate_actor_ok a u : validate_actor a = Ok u → actor_ok a.
Proof. destruct a; simpl; intros H; use_validators; done. Qed.

Lemma validate_subject_ok s u : validate_subject s = Ok u → subject_ok s.
Proof. destruct s; simpl; intros H; use_validators; done. Qed.

Lemma validate_runtime_ok r u : validate_runtime r = Ok u → runtime_ok r.
Proof.
  unfold validate_runtime, runtime_ok. intros H. use_validators. split_bools.
  split_and!; try done; [lia|]. by apply plain_utf8, token_plain.
Qed.

Lemma option_ok_None {A} (V : A → Prop) : option_ok V None.
Proof. by intros a [=]. Qed.

Lemma option_ok_Some {A} (V : A → Prop) a : V a → option_ok V (Some a).
Proof. by intros Ha b [= <-]. Qed.

#[local] Hint Resolve option_ok_None option_ok_Some validate_runtime_ok : wwc.

Lemma validate_execution_ok x u : validate_execution x = Ok u → execution_ok x.
Proof.
  unfold validate_execution, execution_ok. destruct x as
    [session contract crev item irev run job jrev rt slot model].
  cbn [product_session_id work_contract_id work_contract_revision work_item_id
    work_item_revision work_run_id execution_job_id job_revision runtime worker_slot_revision
    model_exchange_id].
  intros H. use_validators. destruct contract, crev, item, irev, run; simplify_eq/=;
    use_validators; destruct rt, slot; simplify_eq/=; use_validators;
    destruct model; simplify_eq/=; use_validators;
    split_and!; eauto with wwc lia.
Qed.

Lemma validate_binding_ok b u : validate_binding b = Ok u → binding_ok b.
Proof.
  unfold validate_binding, binding_ok. intros H. inv_result.
  match goal with H : validate_execution _ = _ |- _ => apply validate_execution_ok in H end.
  match goal with H : validate_revision _ _ = _ |- _ => apply validate_revision_pos in H end.
  split_and!; [done| |lia]. by eapply plain_utf8, action_plain.
Qed.

Lemma digest_utf8 d u : validate_digest d = Ok u → utf8 d.
Proof. intros H. by eapply plain_utf8, digest_plain. Qed.

(** The texts of a response that no validator restricts to ASCII: the attention decision.
    A Rust [String] is always UTF-8. *)
Definition response_text_utf8 (r : InteractionResponse) : Prop :=
  match res_decision r with ResolveAttention t _ => utf8 t | _ => True end.

Lemma validate_response_ok r u :
  validate_response r = Ok u → response_text_utf8 r →
  actor_ok (res_actor r) ∧ subject_ok (res_subject r) ∧ binding_ok (res_binding r) ∧
  decision_ok (res_decision r) ∧ utf8 (res_responded_at r).
Proof.
  unfold validate_response, response_text_utf8, validate_instant. intros H Ht. inv_result.
  split_bools. split_and!.
  - by eapply validate_actor_ok.
  - by eapply validate_subject_ok.
  - by eapply validate_binding_ok.
  - destruct (res_decision r); simpl; inv_result; eauto using digest_utf8.
  - by apply plain_utf8, instant_plain.
Qed.

(** ** Injectivity *)

Section injectivity.
Context (unicode_escaped : Z → bool).

Lemma response_fingerprint_inj r1 r2 u1 u2 :
  validate_response r1 = Ok u1 → validate_response r2 = Ok u2 →
  response_text_utf8 r1 → response_text_utf8 r2 →
  response_fingerprint unicode_escaped r1 = response_fingerprint unicode_escaped r2 → r1 = r2.
Proof.
  intros V1 V2 T1 T2 Heq.
  apply validate_response_ok in V1 as (? & ? & ? & ? & ?); [|done].
  apply validate_response_ok in V2 as (? & ? & ? & ? & ?); [|done].
  unfold response_fingerprint in Heq.
  apply free_actor in Heq as [? Heq]; [|done..]. apply lit_inj in Heq.
  apply free_subject in Heq as [? Heq]; [|done..]. apply lit_inj in Heq.
  apply free_binding in Heq as [? Heq]; [|done..]. apply lit_inj in Heq.
  apply free_decision in Heq as [? Heq]; [|done..]. apply lit_inj in Heq.
  apply free_newtype in Heq as [? Heq]; [|done..]. apply lit_inj in Heq.
  destruct r1, r2; by simplify_eq/=.
Qed.

Definition expiry_valid (e : InteractionExpiry) : Prop :=
  subject_ok (exp_subject e) ∧ validate_binding (exp_binding e) = Ok tt ∧
  validate_instant (exp_expired_at e) = Ok tt.

Lemma expiry_fingerprint_inj e1 e2 :
  expiry_valid e1 → expiry_valid e2 →
  expiry_fingerprint unicode_escaped e1 = expiry_fingerprint unicode_escaped e2 → e1 = e2.
Proof.
  unfold expiry_valid, validate_instant, expiry_fingerprint.
  intros (? & V1%validate_binding_ok & I1) (? & V2%validate_binding_ok & I2) Heq.
  inv_result. split_bools.
  apply free_subject in Heq as [? Heq]; [|done..]. apply lit_inj in Heq.
  apply free_binding in Heq as [? Heq]; [|done..]. apply lit_inj in Heq.
  apply free_newtype in Heq as [? Heq]; [|by apply plain_utf8, instant_plain..].
  apply lit_inj in Heq. destruct e1, e2; by simplify_eq/=.
Qed.

(** A response is never taken for an expiry: the actor's constructors and the subject's
    print differently. *)
Lemma response_expiry_fingerprint r e :
  response_fingerprint unicode_escaped r ≠ expiry_fingerprint unicode_escaped e.
Proof.
  unfold response_fingerprint, expiry_fingerprint.
  destruct (res_actor r), (exp_subject e); intros Heq; discriminate Heq.
Qed.

Lemma canonical_str_len value field prefix u :
  validate_id value field prefix = Ok u → str_len value = str_len prefix + 26.
Proof. unfold validate_id. intros H. inv_result. split_bools. by apply canonical_id_length. Qed.

Lemma instant_print_len i u :
  validate_instant i = Ok u → str_len (debug_newtype unicode_escaped "Instant" i) = 35.
Proof.
  unfold validate_instant. intros H. inv_result. split_bools. unfold debug_newtype.
  rewrite debug_str_plain by (by apply instant_plain).
  match goal with H : instant_shape _ = true |- _ => unfold instant_shape in H end. split_bools.
  rewrite !str_len_app. change (String quote (i ++ String quote ""))%string
    with (String quote "" ++ (i ++ String quote ""))%string. rewrite !str_len_app.
  match goal with H : (str_len i =? 24) = true |- _ => apply Z.eqb_eq in H; rewrite H end.
  reflexivity.
Qed.

(** The reason is printed as it is, but what surrounds it has a fixed length. *)
Lemma cancellation_fingerprint_inj r1 r2 u1 u2 :
  validate_cancellation_request r1 = Ok u1 → validate_cancellation_request r2 = Ok u2 →
  cancellation_fingerprint unicode_escaped r1 = cancellation_fingerprint unicode_escaped r2 →
  r1 = r2.
Proof.
  unfold validate_cancellation_request, validate_request_id. intros V1 V2 Heq. inv_result.
  repeat match goal with
  | H : validate_actor _ = Ok _ |- _ => apply validate_actor_ok in H
  | H : validate_revision _ _ = Ok _ |- _ => apply validate_revision_pos in H
  | H : validate_id _ _ _ = Ok _ |- _ => apply canonical_str_len in H
  end.
  unfold cancellation_fingerprint in Heq.
  apply free_actor in Heq as [? Heq]; [|done..]. apply lit_inj in Heq.
  apply str_append_inj_l in Heq as [? Heq]; [|congruence]. apply lit_inj in Heq.
  apply decimal_then in Heq as [? Heq]; [|reflexivity|lia..].
  apply str_append_inj_r in Heq as [? Heq].
  2: { rewrite !str_len_app. repeat erewrite instant_print_len by done. congruence. }
  apply lit_inj in Heq.
  apply free_newtype in Heq as [? Heq].
  - apply lit_inj in Heq. destruct r1, r2; by simplify_eq/=.
  - unfold validate_instant in *. inv_result. split_bools. by apply plain_utf8, instant_plain.
  - unfold validate_instant in *. inv_result. split_bools. by apply plain_utf8, instant_plain.
Qed.
End injectivity.
