(* ===== verification/RoutingFacts.v ===== *)
(** * Properties of the interaction router

    An interaction is resolved at most once and a session cancelled at most once; a
    repeated request is answered with the first receipt exactly when it is the same
    request; only the registered actor and choices can resolve an interaction; a
    cancellation reaches exactly the registered executions. *)

From Stdlib Require Import Ascii String.
From stdpp Require Import sorting.
From S2P Require Import Prelude Text Numerals DebugFmt Ordered Routing Fingerprint.
Local Open Scope Z_scope.

Section facts.
Context (unicode_escaped : Z → bool).

(** ** Runs *)

Inductive RouterOp : Type :=
| OpRegister (r : InteractionRegistration)
| OpRespond (r : InteractionResponse)
| OpExpire (x : InteractionExpiry)
| OpScope (s : SessionCancellationSnapshot)
| OpCancel (r : SessionCancellationRequest).

Inductive RouterOut : Type :=
| OutUnit (r : result InteractionRoutingError ())
| OutInteraction (r : result InteractionRoutingError InteractionRouteReceipt)
| OutCancellation (r : result InteractionRoutingError SessionCancellationReceipt).

Definition router_step (t : InteractionRouter) (op : RouterOp) : InteractionRouter * RouterOut :=
  match op with
  | OpRegister r => let '(t', o) := register_interaction t r in (t', OutUnit o)
  | OpRespond r => let '(t', o) := respond unicode_escaped t r in (t', OutInteraction o)
  | OpExpire x => let '(t', o) := expire unicode_escaped t x in (t', OutInteraction o)
  | OpScope s => let '(t', o) := register_cancellation_scope t s in (t', OutUnit o)
  | OpCancel r => let '(t', o) := cancel_session unicode_escaped t r in (t', OutCancellation o)
  end.

Fixpoint router_run (t : InteractionRouter) (ops : list RouterOp) :
    InteractionRouter * list RouterOut :=
  match ops with
  | [] => (t, [])
  | op :: ops =>
      let '(t1, o) := router_step t op in
      let '(t2, os) := router_run t1 ops in
      (t2, o :: os)
  end.

(** ** Inversion of the operations *)

Lemma next_revision_Ok n m :
  1 ≤ n ≤ max_safe_integer → next_revision n = Ok m ↔ m = n + 1 ∧ n < max_safe_integer.
Proof.
  intros Hn. unfold next_revision, checked_add_u64, u64_max, max_safe_integer in *.
  rewrite (proj2 (Z.leb_le _ _)) by lia.
  destruct (Z.leb_spec (n + 1) 9007199254740991); naive_solver lia.
Qed.

(** The receipt of a resolved record. *)
Definition receipt_of (record : InteractionRecord) (rsv : ResolvedInteraction)
    (status : RouteWriteStatus) : InteractionRouteReceipt :=
  interaction_receipt record (rsv_request_id rsv) status (rsv_outcome rsv)
    (rsv_current_revision rsv).

(** Where a record stands after a call that returned a receipt. *)
Definition answered (t t' : InteractionRouter) (k : InteractionSubject)
    (request_id fingerprint : string) (rc : InteractionRouteReceipt) : Prop :=
  ∃ record rsv,
    rsv_request_id rsv = request_id ∧ rsv_request_fingerprint rsv = fingerprint ∧
    interactions t' !! k = Some record ∧ resolved record = Some rsv ∧
    ((interactions t !! k = Some record ∧ t' = t ∧ rc = receipt_of record rsv Duplicate) ∨
     (interactions t !! k = Some {| registration := registration record; resolved := None |} ∧
      t' = with_interaction t k record ∧ rc = receipt_of record rsv Applied)).

Lemma replay_Ok record id fp rsv rc :
  replay_interaction record id fp rsv = Ok rc ↔
  rsv_request_id rsv = id ∧ rsv_request_fingerprint rsv = fp ∧
  rc = receipt_of record rsv Duplicate.
Proof.
  unfold replay_interaction. split.
  - intros H. inv_result. split_bools. subst. done.
  - intros (<- & <- & ->). by rewrite !bool_decide_false by naive_solver.
Qed.

Lemma resolve_Ok t k record id fp outcome t' rc :
  resolve t k record id fp outcome = (t', Ok rc) →
  interactions t !! k = Some record → resolved record = None →
  answered t t' k id fp rc ∧ rcp_status rc = Applied ∧ rcp_outcome rc = outcome.
Proof.
  unfold resolve. intros H Hk Hnone. case_match eqn:E; [|done]. injection H as <- <-.
  split; [|done]. eexists _, _. split; [|split; [|split; [apply lookup_insert_eq|split; [reflexivity|]]]];
    [done..|]. right. simpl. split; [|done]. rewrite Hk. destruct record; by simplify_eq/=.
Qed.

Lemma respond_Ok t r t' rc :
  respond unicode_escaped t r = (t', Ok rc) →
  (validate_response r = Ok tt ∧
   ∃ record, interactions t !! res_subject r = Some record ∧
             require_response_authority record r = Ok tt) ∧
  answered t t' (res_subject r) (res_request_id r) (response_fingerprint unicode_escaped r) rc.
Proof.
  unfold respond. intros H. destruct (validate_response r) as [[]|] eqn:Hv; [|done].
  simpl in H. destruct (interactions t !! res_subject r) as [record|] eqn:Hk; [|done].
  simpl in H. destruct (require_response_authority record r) as [[]|] eqn:Ha; [|done].
  split; [eauto|].
  destruct (resolved record) as [rsv|] eqn:Hr.
  - injection H as <- H. apply replay_Ok in H as (? & ? & ->). exists record, rsv.
    split_and!; auto.
  - case_match; [|done]. by eapply resolve_Ok.
Qed.

Lemma expire_Ok t x t' rc :
  expire unicode_escaped t x = (t', Ok rc) →
  answered t t' (exp_subject x) (exp_request_id x) (expiry_fingerprint unicode_escaped x) rc.
Proof.
  unfold expire. intros H. case_match eqn:E; [|done]. inv_result.
  case_match eqn:Hr.
  - injection H as <- H. apply replay_Ok in H as (? & ? & ->). eexists _, _. split_and!; eauto.
  - by eapply resolve_Ok.
Qed.

Lemma register_Ok t r t' :
  register_interaction t r = (t', Ok tt) →
  validate_registration r = Ok tt ∧ interactions t !! reg_subject r = None ∧
  t' = with_interaction t (reg_subject r) {| registration := normalise r; resolved := None |}.
Proof.
  unfold register_interaction. destruct (validate_registration r) as [[]|]; [|done].
  simpl. case_match; [done|]. by intros [= <-].
Qed.

Definition scope_valid (s : SessionCancellationSnapshot) : Prop :=
  validate_actor (snap_authorized_actor s) = Ok tt ∧
  1 ≤ snap_revision s ≤ max_safe_integer ∧
  Forall (λ x, validate_execution x = Ok tt ∧ product_session_id x = snap_product_session_id s)
    (snap_active_executions s) ∧
  NoDup (execution_job_id <$> snap_active_executions s).

Lemma register_scope_Ok t s t' :
  register_cancellation_scope t s = (t', Ok tt) →
  scope_valid s ∧ sessions t !! snap_product_session_id s = None ∧
  t' = with_session t (snap_product_session_id s)
         {| snapshot := sort_executions s; cancelled := None |}.
Proof.
  unfold register_cancellation_scope. intros H. case_match eqn:E; [|done]. inv_result.
  cbv zeta in H. case_match eqn:Hadj; [done|]. simpl in H. case_match eqn:Hk; [done|].
  injection H as <-. split; [|done].
  repeat match goal with x : () |- _ => destruct x end.
  match goal with H : validate_revision _ _ = _ |- _ => apply validate_revision_pos in H end.
  split_and!; try done; try lia.
  - apply check_all_Ok in E. eapply Forall_impl; [exact E|]. simpl. intros x Hx. inv_result.
    split_bools. by repeat match goal with x : () |- _ => destruct x end.
  - simpl in Hadj. apply adjacent_equal_NoDup in Hadj; [|apply sort_by_key_sorted].
    by rewrite (sort_by_key_perm execution_job_id) in Hadj.
Qed.

(** Where a session's record stands after a call that returned a receipt. *)
Definition session_answered (t t' : InteractionRouter) (r : SessionCancellationRequest)
    (rc : SessionCancellationReceipt) : Prop :=
  ∃ snap c,
    sessions t' !! can_product_session_id r = Some {| snapshot := snap; cancelled := Some c |} ∧
    can_request_id (cs_request c) = can_request_id r ∧
    cs_request_fingerprint c = cancellation_fingerprint unicode_escaped r ∧
    ((t' = t ∧ rc = as_duplicate (cs_receipt c)) ∨
     (sessions t !! can_product_session_id r = Some {| snapshot := snap; cancelled := None |} ∧
      t' = with_session t (can_product_session_id r) {| snapshot := snap; cancelled := Some c |} ∧
      rc = cs_receipt c ∧ cs_request c = r ∧
      snap_authorized_actor snap = can_actor r ∧ snap_revision snap = can_expected_revision r ∧
      next_revision (snap_revision snap) = Ok (scr_current_revision rc) ∧
      rc = {| scr_status := Applied; scr_request_id := can_request_id r;
              scr_product_session_id := can_product_session_id r;
              scr_previous_revision := snap_revision snap;
              scr_current_revision := scr_current_revision rc;
              scr_routes := cancellation_routes <$> snap_active_executions snap |})).

Lemma cancel_Ok t r t' rc :
  cancel_session unicode_escaped t r = (t', Ok rc) →
  validate_cancellation_request r = Ok tt ∧ session_answered t t' r rc.
Proof.
  unfold cancel_session. destruct (validate_cancellation_request r) as [[]|]; [|done]. simpl.
  intros H. split; [done|].
  destruct (sessions t !! can_product_session_id r) as [[snap can]|] eqn:Hk; [|done].
  simpl in H. destruct can as [c|].
  - injection H as <- H. case_bool_decide; [|done]. inv_result. split_bools.
    exists snap, c. split_and!; auto.
  - case_match eqn:E; [|done]. inv_result. split_bools. exists snap. eexists.
    split; [apply lookup_insert_eq|]. split; [done|]. split; [done|]. right. simpl.
    split_and!; try done. by apply Z.eqb_eq.
Qed.

(** ** Persistence *)

(** What has been resolved or cancelled in [t] is unchanged in [t'], and what has been
    registered keeps its registration. *)
Definition router_le (t t' : InteractionRouter) : Prop :=
  (∀ k record, interactions t !! k = Some record →
     ∃ record', interactions t' !! k = Some record' ∧ registration record' = registration record ∧
       (is_Some (resolved record) → record' = record)) ∧
  (∀ k record, sessions t !! k = Some record →
     ∃ record', sessions t' !! k = Some record' ∧ snapshot record' = snapshot record ∧
       (is_Some (cancelled record) → record' = record)).

#[local] Instance router_le_preorder : PreOrder router_le.
Proof.
  split.
  - intros t. split; naive_solver.
  - intros t1 t2 t3 [A1 B1] [A2 B2]. split.
    + intros k rec Hk. destruct (A1 k rec Hk) as (rec2 & H2 & R2 & E2).
      destruct (A2 k rec2 H2) as (rec3 & H3 & R3 & E3). exists rec3.
      split_and!; [done|congruence|]. intros Hr. rewrite (E2 Hr) in *. auto.
    + intros k rec Hk. destruct (B1 k rec Hk) as (rec2 & H2 & R2 & E2).
      destruct (B2 k rec2 H2) as (rec3 & H3 & R3 & E3). exists rec3.
      split_and!; [done|congruence|]. intros Hr. rewrite (E2 Hr) in *. auto.
Qed.

Lemma with_interaction_le t k record' :
  (∀ record, interactions t !! k = Some record →
     resolved record = None ∧ registration record' = registration record) →
  router_le t (with_interaction t k record').
Proof.
  intros H. split; [|naive_solver]. intros k2 rec Hk2. simpl.
  destruct (decide (k = k2)) as [->|Hne].
  - rewrite lookup_insert_eq. destruct (H rec Hk2) as [Hn He]. exists record'. split_and!; [done..|]. rewrite Hn. by intros [? ?].
  - rewrite lookup_insert_ne by done. eauto.
Qed.

Lemma with_session_le t k record' :
  (∀ record, sessions t !! k = Some record →
     cancelled record = None ∧ snapshot record' = snapshot record) →
  router_le t (with_session t k record').
Proof.
  intros H. split; [naive_solver|]. intros k2 rec Hk2. simpl.
  destruct (decide (k = k2)) as [->|Hne].
  - rewrite lookup_insert_eq. destruct (H rec Hk2) as [Hn He]. exists record'. split_and!; [done..|]. rewrite Hn. by intros [? ?].
  - rewrite lookup_insert_ne by done. eauto.
Qed.

Lemma answered_le t t' k id fp rc : answered t t' k id fp rc → router_le t t'.
Proof.
  intros (record & rsv & _ & _ & _ & _ & [(_ & -> & _)|(Hk & -> & _)]); [done|].
  apply with_interaction_le. intros. by simplify_eq.
Qed.

Lemma session_answered_le t t' r rc : session_answered t t' r rc → router_le t t'.
Proof.
  intros (snap & c & _ & _ & _ & [(-> & _)|(Hk & -> & _)]); [done|].
  apply with_session_le. intros. by simplify_eq.
Qed.

(** A refused call changes nothing. *)
Lemma respond_Err t r t' e : respond unicode_escaped t r = (t', Err e) → t' = t.
Proof. unfold respond, resolve. repeat case_match; naive_solver. Qed.

Lemma expire_Err t x t' e : expire unicode_escaped t x = (t', Err e) → t' = t.
Proof. unfold expire, resolve. repeat case_match; naive_solver. Qed.

Lemma register_Err t r t' e : register_interaction t r = (t', Err e) → t' = t.
Proof. unfold register_interaction. cbv zeta. repeat case_match; naive_solver. Qed.

Lemma register_scope_Err t s t' e : register_cancellation_scope t s = (t', Err e) → t' = t.
Proof. unfold register_cancellation_scope. cbv zeta. repeat case_match; naive_solver. Qed.

Lemma cancel_Err t r t' e : cancel_session unicode_escaped t r = (t', Err e) → t' = t.
Proof. unfold cancel_session. cbv zeta. repeat case_match; naive_solver. Qed.

Lemma router_step_le t op : router_le t (router_step t op).1.
Proof.
  destruct op as [r|r|x|s|r]; simpl.
  - destruct (register_interaction t r) as [t' [[]|e]] eqn:E; simpl.
    + apply register_Ok in E as (_ & Hk & ->). apply with_interaction_le. intros. congruence.
    + by apply register_Err in E as ->.
  - destruct (respond unicode_escaped t r) as [t' [rc|e]] eqn:E; simpl.
    + apply respond_Ok in E as [_ E]. by eapply answered_le.
    + by apply respond_Err in E as ->.
  - destruct (expire unicode_escaped t x) as [t' [rc|e]] eqn:E; simpl.
    + apply expire_Ok in E. by eapply answered_le.
    + by apply expire_Err in E as ->.
  - destruct (register_cancellation_scope t s) as [t' [[]|e]] eqn:E; simpl.
    + apply register_scope_Ok in E as (_ & Hk & ->). apply with_session_le. intros. congruence.
    + by apply register_scope_Err in E as ->.
  - destruct (cancel_session unicode_escaped t r) as [t' [rc|e]] eqn:E; simpl.
    + apply cancel_Ok in E as [_ E]. by eapply session_answered_le.
    + by apply cancel_Err in E as ->.
Qed.

Lemma router_run_le t ops : router_le t (router_run t ops).1.
Proof.
  revert t. induction ops as [|op ops IH]; intros t; simpl; [done|].
  pose proof (router_step_le t op) as H1. destruct (router_step t op) as [t1 o]. simpl in H1.
  pose proof (IH t1) as H2. destruct (router_run t1 ops) as [t2 os]. simpl in *. by etrans.
Qed.

(** ** At most one resolution *)

(** The receipt as a repeated request gets it. *)
Definition duplicate_of (rc : InteractionRouteReceipt) : InteractionRouteReceipt :=
  {| rcp_status := Duplicate; rcp_request_id := rcp_request_id rc; rcp_subject := rcp_subject rc;
     rcp_binding := rcp_binding rc; rcp_previous_revision := rcp_previous_revision rc;
     rcp_current_revision := rcp_current_revision rc; rcp_outcome := rcp_outcome rc |}.

Lemma answered_duplicate t t' k id fp rc :
  answered t t' k id fp rc →
  ∃ record rsv, interactions t' !! k = Some record ∧ resolved record = Some rsv ∧
    rsv_request_id rsv = id ∧ rsv_request_fingerprint rsv = fp ∧
    duplicate_of rc = receipt_of record rsv Duplicate.
Proof.
  intros (record & rsv & ? & ? & ? & ? & [(_ & _ & ->)|(_ & _ & ->)]); exists record, rsv; done.
Qed.

(** Two answers for one subject come from the same stored resolution. *)
Lemma answered_later t0 t1 t2 t3 k id1 id2 fp1 fp2 rc1 rc2 :
  answered t0 t1 k id1 fp1 rc1 → router_le t1 t2 → answered t2 t3 k id2 fp2 rc2 →
  t3 = t2 ∧ id1 = id2 ∧ fp1 = fp2 ∧ rc2 = duplicate_of rc1.
Proof.
  intros (record & rsv & Hk & Hr & Hid & Hfp & Hdup)%answered_duplicate [Hle _] Hans.
  destruct (Hle k record Hk) as (record' & Hk' & _ & Hsame).
  rewrite Hsame in Hk' by eauto. rewrite Hdup.
  destruct Hans as (record2 & rsv2 & ? & ? & ? & ? & [(? & -> & ->)|(? & _ & _)]); simplify_eq.
  split_and!; done.
Qed.

Definition op_subject (op : RouterOp) : option InteractionSubject :=
  match op with
  | OpRespond r => Some (res_subject r)
  | OpExpire x => Some (exp_subject x)
  | _ => None
  end.

Lemma step_answered t op k t' rc :
  op_subject op = Some k → router_step t op = (t', OutInteraction (Ok rc)) →
  ∃ id fp, answered t t' k id fp rc.
Proof.
  destruct op as [r|r|x|s|r]; simpl; intros [= <-] H.
  - destruct (respond unicode_escaped t r) as [t1 o] eqn:E. injection H as <- ->.
    apply respond_Ok in E as [_ E]. eauto.
  - destruct (expire unicode_escaped t x) as [t1 o] eqn:E. injection H as <- ->.
    apply expire_Ok in E. eauto.
Qed.

Lemma run_lookup t ops i op o :
  ops !! i = Some op → (router_run t ops).2 !! i = Some o →
  ∃ t1 t2, t1 = (router_run t (take i ops)).1 ∧ router_step t1 op = (t2, o) ∧
    ∀ j opj oj, (i < j)%nat → ops !! j = Some opj → (router_run t ops).2 !! j = Some oj →
    ∃ t3 t4, router_le t2 t3 ∧ router_step t3 opj = (t4, oj).
Proof.
  revert t ops. induction i as [|i IH]; intros t ops Hop Ho; destruct ops as [|op0 ops]; try done;
    simpl in *; destruct (router_step t op0) as [t1 o0] eqn:Es;
    destruct (router_run t1 ops) as [t2 os] eqn:Er; simpl in *; simplify_eq.
  - exists t, t1. split_and!; [done..|]. intros [|j] opj oj Hj Hopj Hoj; [lia|]. simpl in *.
    clear -Er Hopj Hoj. revert t1 ops os Er Hopj Hoj. induction j as [|j IH];
      intros t1 [|op1 ops] os Er Hopj Hoj; try done; simpl in *;
      destruct (router_step t1 op1) as [t3 o1] eqn:Es; destruct (router_run t3 ops) as [t4 os'] eqn:Er';
      simplify_eq/=.
    + exists t1, t3. done.
    + destruct (IH t3 ops os' Er' Hopj Hoj) as (t5 & t6 & Hle & ?). exists t5, t6. split; [|done].
      etrans; [|done]. pose proof (router_step_le t1 op1) as Hs. by rewrite Es in Hs.
  - specialize (IH t1 ops Hop). rewrite Er in IH. destruct (IH Ho) as (t3 & t4 & -> & Hs & Hrest).
    eexists _, t4. split; [done|]. split.
    + destruct (router_run t1 (take i ops)) as [t5 os5]. done.
    + intros [|j] opj oj Hj Hopj Hoj; [lia|]. apply (Hrest j); [lia|done..].
Qed.

(** C31. Exactly one resolution: in any run of the router, once a response or expiry for an
    interaction has been answered with a receipt, every later receipt for the same
    interaction is that receipt marked [Duplicate], whoever asks and whatever happened in
    between; so at most one receipt per interaction is [Applied]. *)
Theorem interaction_resolved_once t ops i j k opi opj rci rcj :
  (i < j)%nat → ops !! i = Some opi → ops !! j = Some opj →
  op_subject opi = Some k → op_subject opj = Some k →
  (router_run t ops).2 !! i = Some (OutInteraction (Ok rci)) →
  (router_run t ops).2 !! j = Some (OutInteraction (Ok rcj)) →
  rcj = duplicate_of rci.
Proof.
  intros Hij Hi Hj Ki Kj Oi Oj.
  destruct (run_lookup t ops i opi _ Hi Oi) as (t1 & t2 & _ & Si & Hrest).
  destruct (Hrest j opj _ Hij Hj Oj) as (t3 & t4 & Hle & Sj).
  destruct (step_answered _ _ _ _ _ Ki Si) as (id1 & fp1 & A1).
  destruct (step_answered _ _ _ _ _ Kj Sj) as (id2 & fp2 & A2).
  by destruct (answered_later _ _ _ _ _ _ _ _ _ _ _ A1 Hle A2) as (_ & _ & _ & ->).
Qed.

(** ** Replays *)

Lemma authority_registration record record' r :
  registration record' = registration record →
  require_response_authority record' r = require_response_authority record r.
Proof. unfold require_response_authority. by intros ->. Qed.

(** Idempotent replay of a response: after a response was answered with a receipt,
    and after anything else the router did since, a response for the same interaction is
    answered exactly when it is the same response (actor, binding, decision, instant and
    request id), with the first receipt marked [Duplicate] and no change; no expiry of the
    interaction is answered. *)
Theorem respond_replay_exact t r1 t1 rc1 ops r2 :
  respond unicode_escaped t r1 = (t1, Ok rc1) →
  response_text_utf8 r1 → response_text_utf8 r2 → res_subject r2 = res_subject r1 →
  let t2 := (router_run t1 ops).1 in
  (∀ t3 rc2, respond unicode_escaped t2 r2 = (t3, Ok rc2) ↔
     r2 = r1 ∧ t3 = t2 ∧ rc2 = duplicate_of rc1) ∧
  (∀ x, exp_subject x = res_subject r1 → is_ok (expire unicode_escaped t2 x).2 = false).
Proof.
  intros H1 U1 U2 Hsub t2. apply respond_Ok in H1 as [(V1 & record0 & Hk0 & Hauth) A1].
  pose proof (router_run_le t1 ops) as Hle. fold t2 in Hle. split.
  - intros t3 rc2. split.
    + intros [(V2 & _) A2]%respond_Ok. rewrite Hsub in A2.
      destruct (answered_later _ _ _ _ _ _ _ _ _ _ _ A1 Hle A2) as (-> & _ & Hfp & ->).
      split_and!; [|done..]. symmetry. by eapply response_fingerprint_inj.
    + intros (-> & -> & ->).
      pose proof (answered_le _ _ _ _ _ _ A1) as [Hle0 _].
      destruct (Hle0 _ _ Hk0) as (record1 & Hk1 & Hreg1 & _).
      destruct (answered_duplicate _ _ _ _ _ _ A1) as (record & rsv & Hk & Hr & Hid & Hfp & ->).
      assert (record1 = record) as -> by congruence. destruct Hle as [Hle _].
      destruct (Hle _ _ Hk) as (record2 & Hk2 & _ & Hsame). rewrite Hsame in Hk2 by eauto.
      unfold respond. rewrite V1. cbn [mbind result_bind]. rewrite Hk2. cbn [ok_or].
      rewrite (authority_registration record0), Hauth by done. rewrite Hr. f_equal.
      by apply replay_Ok.
  - intros x Hx. destruct (expire unicode_escaped t2 x) as [t3 [rc2|e]] eqn:E; [|done].
    apply expire_Ok in E. rewrite Hx in E.
    destruct (answered_later _ _ _ _ _ _ _ _ _ _ _ A1 Hle E) as (_ & _ & Hfp & _).
    by apply response_expiry_fingerprint in Hfp.
Qed.

(** Idempotent replay of a cancellation: after a session's cancellation was answered,
    and whatever the router did since, a valid cancellation of that session is answered
    exactly when it is the same request, with the stored receipt marked [Duplicate] and no
    change; the same request id with different input is an [IdempotencyConflict], any
    other request id a [SessionAlreadyCancelled]. *)
Theorem cancel_replay_exact t r1 t1 rc1 ops r2 :
  cancel_session unicode_escaped t r1 = (t1, Ok rc1) →
  scr_status rc1 = Applied →
  validate_cancellation_request r2 = Ok tt →
  can_product_session_id r2 = can_product_session_id r1 →
  let t2 := (router_run t1 ops).1 in
  cancel_session unicode_escaped t2 r2 =
    (t2, if decide (r2 = r1) then Ok (as_duplicate rc1)
         else if decide (can_request_id r2 = can_request_id r1) then Err IdempotencyConflict
         else Err SessionAlreadyCancelled).
Proof.
  intros [V1 (snap & c & Hk & Hid & Hfp & Hcase)]%cancel_Ok Happ V2 Hsid t2.
  pose proof (router_run_le t1 ops) as [_ Hle]. fold t2 in Hle.
  destruct (Hle _ _ Hk) as (record2 & Hk2 & _ & Hsame). rewrite Hsame in Hk2 by (simpl; eauto).
  assert (rc1 = cs_receipt c) as ->.
  { destruct Hcase as [(_ & ->)|(_ & _ & -> & _)]; [done|done]. }
  unfold cancel_session. rewrite V2. cbn [mbind result_bind]. rewrite Hsid, Hk2.
  cbn [ok_or cancelled]. f_equal. rewrite Hid, Hfp.
  destruct (decide (r2 = r1)) as [->|Hne].
  - by rewrite bool_decide_true, bool_decide_false by naive_solver.
  - destruct (decide (can_request_id r2 = can_request_id r1)) as [Heq|Hneq].
    + rewrite (bool_decide_true (can_request_id r1 = _)) by done.
      rewrite bool_decide_true; [done|]. intros Hfp2. apply Hne.
      by eapply cancellation_fingerprint_inj.
    + by rewrite (bool_decide_false (can_request_id r1 = _)) by congruence.
Qed.

(** ** Who may resolve an interaction, and how *)

(** The outcome a registration gives to a response: too late is [Expired] whatever was
    decided; in time, the decision must be of the subject's kind, and an attention
    decision one of the registered choices. *)
Inductive answers (reg : InteractionRegistration) (r : InteractionResponse) :
    InteractionOutcome → Prop :=
| AnswerLate :
    str_ltb (reg_expires_at reg) (res_responded_at r) = true → answers reg r Expired
| AnswerInput i h :
    str_ltb (reg_expires_at reg) (res_responded_at r) = false →
    reg_subject reg = SubjectUserInput i → res_decision r = UserInput h →
    answers reg r InputReceived
| AnswerApprove i h :
    str_ltb (reg_expires_at reg) (res_responded_at r) = false →
    reg_subject reg = SubjectApproval i → res_decision r = Approve h → answers reg r Approved
| AnswerReject i h :
    str_ltb (reg_expires_at reg) (res_responded_at r) = false →
    reg_subject reg = SubjectApproval i → res_decision r = Reject h → answers reg r Rejected
| AnswerAttention i d h :
    str_ltb (reg_expires_at reg) (res_responded_at r) = false →
    reg_subject reg = SubjectAttention i → res_decision r = ResolveAttention d h →
    d ∈ reg_attention_decisions reg → answers reg r AttentionResolved.

Lemma answers_iff reg r outcome :
  (if str_ltb (reg_expires_at reg) (res_responded_at r) then Ok Expired
   else validate_decision (normalise reg) (res_decision r)) = Ok outcome ↔ answers reg r outcome.
Proof.
  split.
  - destruct (str_ltb _ _) eqn:El; [intros [= <-]; by constructor|].
    unfold validate_decision. simpl.
    destruct (reg_subject reg) eqn:Es, (res_decision r) eqn:Ed; try done; intros H; inv_result;
      try (econstructor; eassumption).
    split_bools. eapply AnswerAttention; [done..|]. by apply binary_search_registered.
  - unfold validate_decision. simpl.
    intros [El|? ? El Es Ed|? ? El Es Ed|? ? El Es Ed|? ? ? El Es Ed Hd]; rewrite El; [done|..];
      rewrite Es, Ed; try done.
    by rewrite (proj2 (binary_search_registered _ _) Hd).
Qed.

Lemma authority_Ok record r u :
  require_response_authority record r = Ok u ↔
  reg_subject (registration record) = res_subject r ∧
  reg_authorized_actor (registration record) = res_actor r ∧
  reg_binding (registration record) = res_binding r.
Proof.
  unfold require_response_authority. destruct u. split.
  - intros H. inv_result. split_bools. case_bool_decide; inv_result.
    split_bools. by auto.
  - intros (-> & -> & ->). by rewrite !bool_decide_false by naive_solver.
Qed.

(** A registered interaction is resolved exactly by a valid response of the registered
    actor for the registered binding whose decision the registration admits; the receipt
    then carries the outcome and the next revision, and the router records it. *)
Theorem respond_registered t reg t1 r t2 rc :
  register_interaction t reg = (t1, Ok tt) → res_subject r = reg_subject reg →
  respond unicode_escaped t1 r = (t2, Ok rc) ↔
  validate_response r = Ok tt ∧ res_actor r = reg_authorized_actor reg ∧
  res_binding r = reg_binding reg ∧ decision_revision (reg_binding reg) < max_safe_integer ∧
  ∃ outcome, answers reg r outcome ∧
    rc = {| rcp_status := Applied; rcp_request_id := res_request_id r;
            rcp_subject := reg_subject reg; rcp_binding := reg_binding reg;
            rcp_previous_revision := decision_revision (reg_binding reg);
            rcp_current_revision := decision_revision (reg_binding reg) + 1;
            rcp_outcome := outcome |} ∧
    t2 = with_interaction t1 (reg_subject reg)
      {| registration := normalise reg;
         resolved := Some {| rsv_request_id := res_request_id r;
                             rsv_request_fingerprint := response_fingerprint unicode_escaped r;
                             rsv_outcome := outcome;
                             rsv_current_revision := decision_revision (reg_binding reg) + 1 |} |}.
Proof.
  intros (Vreg & _ & ->)%register_Ok Hsub.
  assert (1 ≤ decision_revision (reg_binding reg) ≤ max_safe_integer) as Hrev.
  { unfold validate_registration, validate_binding in Vreg. inv_result.
    match goal with H : validate_revision _ _ = _ |- _ => by apply validate_revision_pos in H end. }
  unfold respond. rewrite Hsub. destruct (validate_response r) as [[]|]; [|naive_solver].
  cbn [mbind result_bind interactions with_interaction]. rewrite lookup_insert_eq. cbn [ok_or resolved].
  match goal with |- context [require_response_authority ?rec r] =>
    pose proof (authority_Ok rec r tt) as Hauth;
    destruct (require_response_authority rec r) as [[]|] end; cbn [registration] in Hauth.
  2: { split; [done|]. intros (_ & Ha & Hb & _). exfalso.
       assert (Err e = Ok ()) as [=] by (apply Hauth; simpl; auto). }
  destruct (proj1 Hauth eq_refl) as (_ & Hactor & Hbind). simpl in Hactor, Hbind.
  pose proof (answers_iff reg r) as Hans. cbn [registration reg_expires_at normalise] in *.
  destruct (if str_ltb _ _ then _ else _) as [o|e].
  - unfold resolve. cbn [registration reg_binding normalise].
    pose proof (next_revision_Ok (decision_revision (reg_binding reg))
                 (decision_revision (reg_binding reg) + 1) Hrev) as Hnext.
    destruct (next_revision _) as [n|e] eqn:En.
    + pose proof (proj1 (next_revision_Ok _ n Hrev) En) as [-> Hlt]. split.
      * intros [= <- <-]. split_and!; [done..|]. exists o. split; [by apply Hans|]. done.
      * intros (_ & _ & _ & _ & o' & Ho' & -> & ->). apply Hans in Ho' as [= ->]. done.
    + split; [done|]. intros (_ & _ & _ & Hlt & _). exfalso.
      assert (Err e = Ok (decision_revision (reg_binding reg) + 1)) as [=]. by apply Hnext.
  - split; [done|]. intros (_ & _ & _ & _ & o & Ho & _). by apply Hans in Ho.
Qed.

(** Cancelling a registered session reaches exactly its registered executions, once
    each and in the order of their job ids: every one gets a job route at its revision, a
    worker route exactly when it has a runtime and a model-stream route exactly when it
    has a model exchange. *)
Theorem cancel_routes_complete t s t1 r t2 rc :
  register_cancellation_scope t s = (t1, Ok tt) →
  can_product_session_id r = snap_product_session_id s →
  cancel_session unicode_escaped t1 r = (t2, Ok rc) →
  scr_status rc = Applied ∧ scr_previous_revision rc = snap_revision s ∧
  scr_current_revision rc = snap_revision s + 1 ∧ can_actor r = snap_authorized_actor s ∧
  ∃ executions,
    executions ≡ₚ snap_active_executions s ∧
    StronglySorted (λ x y, str_ltb (execution_job_id x) (execution_job_id y) = true) executions ∧
    scr_routes rc = cancellation_routes <$> executions ∧
    Forall (λ x, let routes := cancellation_routes x in
       job_execution_job_id (route_job routes) = execution_job_id x ∧
       job_expected_revision (route_job routes) = job_revision x ∧
       job_product_session_id (route_job routes) = snap_product_session_id s ∧
       wkr_runtime <$> route_worker routes = runtime x ∧
       wkr_expected_revision <$> route_worker routes = worker_slot_revision x ∧
       mdl_model_exchange_id <$> route_model_stream routes = model_exchange_id x) executions.
Proof.
  intros ((_ & Hrev & Hall & Hnd) & _ & ->)%register_scope_Ok Hid [V A]%cancel_Ok.
  destruct A as (snap & c & Hl & _ & _ & Hcase). rewrite Hid in Hl, Hcase.
  destruct Hcase as [(-> & _)|(Hk & _ & _ & _ & Hactor & _ & Hnext & ->)].
  { simpl in Hl. by rewrite lookup_insert_eq in Hl. }
  simpl in Hk. rewrite lookup_insert_eq in Hk. injection Hk as <-.
  apply next_revision_Ok in Hnext as [Hnext _]; [|done]. simpl in Hnext, Hactor.
  split_and!; [done..|]. exists (sort_by_key execution_job_id (snap_active_executions s)).
  pose proof (sort_by_key_perm execution_job_id (snap_active_executions s)) as Hperm.
  split_and!; [done| |done|].
  - apply sorted_strict; [apply sort_by_key_sorted|]. by rewrite Hperm.
  - rewrite Hperm. eapply Forall_impl; [exact Hall|]. intros x [Vx Hx]. cbv zeta.
    split_and!; [done..| | |]; clear -Vx; unfold validate_execution in Vx; inv_result;
      destruct x as [? ? ? ? ? ? ? ? [rt|] [slot|] [m|]]; by simplify_eq/=.
Qed.

(** ** Invariant *)

Definition interaction_wf (k : InteractionSubject) (record : InteractionRecord) : Prop :=
  let reg := registration record in
  reg_subject reg = k ∧ 1 ≤ decision_revision (reg_binding reg) ≤ max_safe_integer ∧
  StronglySorted (λ x y, str_ltb x y = true) (reg_attention_decisions reg) ∧
  ∀ rsv, resolved record = Some rsv →
    rsv_current_revision rsv = decision_revision (reg_binding reg) + 1 ∧
    rsv_current_revision rsv ≤ max_safe_integer.

Definition session_wf (k : string) (record : SessionCancellationRecord) : Prop :=
  let snap := snapshot record in
  snap_product_session_id snap = k ∧ 1 ≤ snap_revision snap ≤ max_safe_integer ∧
  NoDup (execution_job_id <$> snap_active_executions snap) ∧
  ∀ c, cancelled record = Some c →
    can_product_session_id (cs_request c) = k ∧
    scr_current_revision (cs_receipt c) = snap_revision snap + 1 ∧
    scr_current_revision (cs_receipt c) ≤ max_safe_integer.

Definition router_wf (t : InteractionRouter) : Prop :=
  map_Forall interaction_wf (interactions t) ∧ map_Forall session_wf (sessions t).

Lemma with_interaction_wf t k record :
  router_wf t → interaction_wf k record → router_wf (with_interaction t k record).
Proof. intros [Hi Hs] Hr. split; [|done]. by apply map_Forall_insert_2. Qed.

Lemma with_session_wf t k record :
  router_wf t → session_wf k record → router_wf (with_session t k record).
Proof. intros [Hi Hs] Hr. split; [done|]. by apply map_Forall_insert_2. Qed.

Lemma resolve_wf t k record id fp outcome :
  router_wf t → interactions t !! k = Some record →
  router_wf (resolve t k record id fp outcome).1.
Proof.
  intros Hwf Hk. destruct Hwf as [Hi Hs] eqn:E. clear E. destruct (Hi k record Hk) as (H1 & H2 & H3 & _).
  unfold resolve. destruct (next_revision _) as [n|] eqn:En; [|done]. simpl.
  apply next_revision_Ok in En as [-> Hlt]; [|done]. apply with_interaction_wf; [done|].
  split; [done|]. split; [done|]. split; [done|]. intros rsv [= <-]. simpl. lia.
Qed.

Lemma respond_wf t r : router_wf t → router_wf (respond unicode_escaped t r).1.
Proof.
  intros Hwf. unfold respond. destruct (validate_response r); [|done]. simpl.
  destruct (interactions t !! res_subject r) as [record|] eqn:Hk; [|done]. simpl.
  destruct (require_response_authority record r); [|done].
  destruct (resolved record); [done|]. destruct (if str_ltb _ _ then _ else _); [|done].
  by apply resolve_wf.
Qed.

Lemma expire_wf t x : router_wf t → router_wf (expire unicode_escaped t x).1.
Proof.
  intros Hwf. unfold expire. case_match eqn:E; [|done]. inv_result. case_match; [done|].
  by apply resolve_wf.
Qed.

Lemma router_step_wf t op : router_wf t → router_wf (router_step t op).1.
Proof.
  intros Hwf. destruct op as [r|r|x|s|r]; simpl.
  - destruct (register_interaction t r) as [t' [[]|e]] eqn:E; simpl;
      [|by apply register_Err in E as ->].
    apply register_Ok in E as (V & _ & ->). apply with_interaction_wf; [done|].
    unfold validate_registration, validate_binding in V. inv_result.
    match goal with H : validate_revision _ _ = _ |- _ => apply validate_revision_pos in H end.
    split; [done|]. split; [done|]. split; [|done]. apply dedup_sorted, sort_by_key_sorted.
  - pose proof (respond_wf t r Hwf). by destruct (respond unicode_escaped t r).
  - pose proof (expire_wf t x Hwf). by destruct (expire unicode_escaped t x).
  - destruct (register_cancellation_scope t s) as [t' [[]|e]] eqn:E; simpl;
      [|by apply register_scope_Err in E as ->].
    apply register_scope_Ok in E as ((_ & ? & _ & Hnd) & _ & ->). apply with_session_wf; [done|].
    split; [done|]. split; [done|]. split; [|done]. simpl.
    by rewrite (sort_by_key_perm execution_job_id).
  - destruct (cancel_session unicode_escaped t r) as [t' [rc|e]] eqn:E; simpl;
      [|by apply cancel_Err in E as ->].
    apply cancel_Ok in E as [_ (snap & c & _ & _ & _ & [(-> & _)|(Hk & -> & Hc)])]; [done|].
    apply with_session_wf; [done|]. destruct Hwf as [_ Hs].
    destruct (Hs _ _ Hk) as (H1 & H2 & H3 & _). simpl in *.
    destruct Hc as (-> & Hreq & _ & _ & Hn & _). apply next_revision_Ok in Hn as [Hn Hlt]; [|done].
    split; [done|]. split; [done|]. split; [done|]. intros c' [= <-]. simpl. rewrite Hreq. split; [done|]. lia.
Qed.

Lemma authority_no_mismatch record r :
  reg_subject (registration record) = res_subject r →
  require_response_authority record r ≠ Err SubjectMismatch.
Proof.
  unfold require_response_authority. intros Hs. repeat case_bool_decide; try done.
Qed.

(** The router's invariant holds after any run from the empty router: every record is
    filed under its own subject or session, the registered choices are strictly sorted
    (what the binary search needs) and job ids distinct, revisions stay in JSON's exact
    range and a resolution or cancellation advances its revision by exactly one.  In
    particular the guard against a record of another subject never fires. *)
Theorem router_run_wf ops :
  let t := (router_run router_default ops).1 in
  router_wf t ∧
  ∀ r record, interactions t !! res_subject r = Some record →
    require_response_authority record r ≠ Err SubjectMismatch.
Proof.
  intros t. assert (Hwf : router_wf t).
  { cut (∀ t0, router_wf t0 → router_wf (router_run t0 ops).1).
    { intros H. apply H. split; apply map_Forall_empty. }
    clear. induction ops as [|op ops IH]; intros t0 Ht0; simpl; [done|].
    apply (router_step_wf t0 op) in Ht0. destruct (router_step t0 op) as [t1 o].
    specialize (IH t1 Ht0). by destruct (router_run t1 ops). }
  split; [done|]. intros r record Hk. destruct Hwf as [Hi _].
  by apply authority_no_mismatch, (Hi _ _ Hk).
Qed.
End facts.

(** ** Witnesses *)

(** No character from 128 on occurs in the samples. *)
Definition no_escapes : Z → bool := λ _, false.

Definition sample_actor : AuthenticatedActor := User "usr_01ARZ3NDEKTSV4RRFFQ69G5FAV".
Definition sample_subject : InteractionSubject :=
  SubjectAttention "att_01ARZ3NDEKTSV4RRFFQ69G5FAV".

Definition sample_runtime : RuntimeRouteAuthority :=
  {| lease_id := "lse_01ARZ3NDEKTSV4RRFFQ69G5FAV"; worker_id := "wrk_01ARZ3NDEKTSV4RRFFQ69G5FAV";
     worker_instance_id := "wki_01ARZ3NDEKTSV4RRFFQ69G5FAV";
     worker_session_id := "wsn_01ARZ3NDEKTSV4RRFFQ69G5FAV"; attempt := 1; fencing_token := "7" |}.

Definition sample_execution (job : string) (rt : option RuntimeRouteAuthority) : ExecutionRoute :=
  {| product_session_id := "psn_01ARZ3NDEKTSV4RRFFQ69G5FAV"; work_contract_id := None;
     work_contract_revision := None; work_item_id := None; work_item_revision := None;
     work_run_id := None; execution_job_id := job; job_revision := 4; runtime := rt;
     worker_slot_revision := (λ _, 2) <$> rt; model_exchange_id := None |}.

Definition job_a : string := "job_01ARZ3NDEKTSV4RRFFQ69G5FAA".
Definition job_b : string := "job_01ARZ3NDEKTSV4RRFFQ69G5FAB".

Definition sample_binding : DecisionRouteBinding :=
  {| execution := sample_execution job_a (Some sample_runtime); action_id := "apply@1";
     decision_revision := 3 |}.

Definition sample_registration : InteractionRegistration :=
  {| reg_subject := sample_subject; reg_binding := sample_binding;
     reg_authorized_actor := sample_actor; reg_expires_at := "2026-01-02T12:00:00.000Z";
     reg_attention_decisions := ["retry"; "abort"; "retry"] |}.

Definition sample_digest : string :=
  "sha256:0123456789abcdef0123456789abcdef0123456789abcdef0123456789abcdef".

Definition sample_response (choice : string) : InteractionResponse :=
  {| res_request_id := "req_01ARZ3NDEKTSV4RRFFQ69G5FAV"; res_actor := sample_actor;
     res_subject := sample_subject; res_binding := sample_binding;
     res_decision := ResolveAttention choice sample_digest;
     res_responded_at := "2026-01-02T11:59:59.000Z" |}.

Definition sample_snapshot : SessionCancellationSnapshot :=
  {| snap_product_session_id := "psn_01ARZ3NDEKTSV4RRFFQ69G5FAV"; snap_revision := 5;
     snap_authorized_actor := sample_actor;
     snap_active_executions :=
       [sample_execution job_b None; sample_execution job_a (Some sample_runtime)] |}.

Definition sample_cancel (reason : string) : SessionCancellationRequest :=
  {| can_request_id := "req_01ARZ3NDEKTSV4RRFFQ69G5FAC"; can_actor := sample_actor;
     can_product_session_id := "psn_01ARZ3NDEKTSV4RRFFQ69G5FAV"; can_expected_revision := 5;
     can_reason := reason; can_requested_at := "2026-01-02T12:00:00.000Z" |}.

Definition sample_registered : InteractionRouter :=
  (register_interaction router_default sample_registration).1.

Definition sample_receipt : InteractionRouteReceipt :=
  {| rcp_status := Applied; rcp_request_id := "req_01ARZ3NDEKTSV4RRFFQ69G5FAV";
     rcp_subject := sample_subject; rcp_binding := sample_binding; rcp_previous_revision := 3;
     rcp_current_revision := 4; rcp_outcome := AttentionResolved |}.

Definition sample_run : list RouterOp :=
  [OpRegister sample_registration; OpRespond (sample_response "retry"); OpScope sample_snapshot;
   OpCancel (sample_cancel "stop"); OpRespond (sample_response "retry");
   OpRespond (sample_response "abort")].

Lemma interaction_resolved_once_witness :
  ∃ rc, (router_run no_escapes router_default sample_run).2 !! 4%nat =
          Some (OutInteraction (Ok rc)) ∧ rc = duplicate_of sample_receipt.
Proof.
  eexists. split; [vm_compute; reflexivity|].
  eapply (interaction_resolved_once no_escapes router_default sample_run 1 4 sample_subject);
    [lia|vm_compute; reflexivity..].
Defined.

Lemma respond_registered_witness :
  ∃ t2, respond no_escapes sample_registered (sample_response "abort") = (t2, Ok sample_receipt).
Proof.
  eexists.
  apply (proj2 (respond_registered no_escapes router_default sample_registration
    sample_registered (sample_response "abort") _ sample_receipt
    ltac:(vm_compute; reflexivity) ltac:(reflexivity))).
  split; [vm_compute; reflexivity|]. split; [reflexivity|]. split; [reflexivity|].
  split; [unfold max_safe_integer; simpl; lia|].
  exists AttentionResolved. split; [|split; reflexivity].
  eapply AnswerAttention; [vm_compute; reflexivity|reflexivity..|]. right. left.
Defined.

Lemma respond_replay_exact_witness :
  ∃ t1, respond no_escapes sample_registered (sample_response "retry") = (t1, Ok sample_receipt) ∧
    respond no_escapes (router_run no_escapes t1 [OpScope sample_snapshot]).1
      (sample_response "retry") =
      ((router_run no_escapes t1 [OpScope sample_snapshot]).1, Ok (duplicate_of sample_receipt)).
Proof.
  assert (E : respond no_escapes sample_registered (sample_response "retry") =
    ((respond no_escapes sample_registered (sample_response "retry")).1, Ok sample_receipt))
    by (vm_compute; reflexivity).
  eexists. split; [exact E|].
  apply (proj1 (respond_replay_exact no_escapes sample_registered (sample_response "retry") _
    sample_receipt [OpScope sample_snapshot] (sample_response "retry") E
    ltac:(vm_compute; eauto) ltac:(vm_compute; eauto) eq_refl)).
  exact (conj eq_refl (conj eq_refl eq_refl)).
Defined.

Definition sample_scoped : InteractionRouter :=
  (register_cancellation_scope router_default sample_snapshot).1.

Definition sample_cancel_receipt : SessionCancellationReceipt :=
  {| scr_status := Applied; scr_request_id := "req_01ARZ3NDEKTSV4RRFFQ69G5FAC";
     scr_product_session_id := "psn_01ARZ3NDEKTSV4RRFFQ69G5FAV"; scr_previous_revision := 5;
     scr_current_revision := 6;
     scr_routes := [cancellation_routes (sample_execution job_a (Some sample_runtime));
                    cancellation_routes (sample_execution job_b None)] |}.

Lemma cancel_replay_exact_witness :
  ∃ t1, cancel_session no_escapes sample_scoped (sample_cancel "stop") =
          (t1, Ok sample_cancel_receipt) ∧
    cancel_session no_escapes t1 (sample_cancel "other") = (t1, Err IdempotencyConflict).
Proof.
  assert (E : cancel_session no_escapes sample_scoped (sample_cancel "stop") =
    ((cancel_session no_escapes sample_scoped (sample_cancel "stop")).1,
     Ok sample_cancel_receipt)) by (vm_compute; reflexivity).
  eexists. split; [exact E|].
  exact (cancel_replay_exact no_escapes sample_scoped (sample_cancel "stop") _
    sample_cancel_receipt [] (sample_cancel "other") E eq_refl ltac:(vm_compute; reflexivity)
    eq_refl).
Defined.

Lemma cancel_routes_complete_witness :
  ∃ executions, executions ≡ₚ snap_active_executions sample_snapshot ∧
    scr_routes sample_cancel_receipt = cancellation_routes <$> executions.
Proof.
  destruct (cancel_routes_complete no_escapes router_default sample_snapshot sample_scoped
    (sample_cancel "stop")
    (cancel_session no_escapes sample_scoped (sample_cancel "stop")).1 sample_cancel_receipt)
    as (_ & _ & _ & _ & executions & Hp & _ & Hr & _);
    [vm_compute; reflexivity|reflexivity|vm_compute; reflexivity|].
  by exists executions.
Defined.
