(* ===== verification/PublicationFacts.v ===== *)
(** * Publication facts, operations and policy

    Models [facts.rs], [operation.rs] and [policy.rs] of [crates/winwincode-publication/src]:
    the facts a publication is approved under and their validation, the four provider
    operations derived from them, the provider's answers, and the repository policy that
    allows or denies a publication.  A SHA-256 over the JSON of a tuple ([serde_json] and
    [sha2]) is an argument, [sha256_json], on the tuples the code hashes. *)

From Stdlib Require Import Ascii String.
From S2P Require Import Prelude Text Numerals Ordered.
Local Open Scope Z_scope.

Definition MAX_SAFE_INTEGER : Z := max_safe_integer.

Abbreviation checked A := (result string A).

(** ** Texts *)

(** [str::contains] with a text. *)
Fixpoint contains (p s : string) : bool :=
  bool_decide (is_Some (strip_prefix p s)) ||
  match s with EmptyString => false | String _ s => contains p s end.

(** [str::ends_with]. *)
Fixpoint ends_with (p s : string) : bool :=
  bool_decide (s = p) || match s with EmptyString => false | String _ s => ends_with p s end.

(** [str::split] at a one-byte character. *)
Fixpoint split_on (c : ascii) (s : string) : list string :=
  match s with
  | EmptyString => [EmptyString]
  | String x s =>
      match split_on c s with
      | [] => []
      | w :: ws => if Ascii.eqb x c then EmptyString :: w :: ws else String x w :: ws
      end
  end.

(** [encode_utf16().count()]: a character outside the basic plane, four bytes long, counts
    twice. *)
Definition utf16_count (s : string) : Z :=
  chars_count s + Z.of_nat (length (List.filter (in_range 240 247) (bytes s))).

Definition control_byte (c : ascii) : bool :=
  in_range 0 8 c || in_range 11 12 c || in_range 14 31 c || in_range 127 127 c.

Definition bounded_text (value : string) (maximum : Z) : bool :=
  negb (blank value) && (chars_count value <=? maximum) && negb (existsb control_byte (bytes value)).

Definition portable (value : string) (maximum : Z) : bool :=
  negb (bool_decide (value = ""%string)) && (str_len value <=? maximum) &&
  all_bytes (λ c, is_ascii_alphanumeric c || one_of "._:/@-" c) value.

Definition portable_token (value : string) : bool :=
  negb (bool_decide (value = ""%string)) && (str_len value <=? 128) &&
  all_bytes (λ c, is_ascii_alphanumeric c || one_of "._:@-" c) value.

Definition repository_slug (value : string) : bool :=
  match split_once "/" value with
  | None => false
  | Some (owner, repository) =>
      negb (bool_decide (owner = ""%string)) && (str_len owner <=? 39) &&
      match owner with String c _ => is_ascii_alphanumeric c | EmptyString => false end &&
      all_bytes (λ c, is_ascii_lower c || is_ascii_digit c || one_of "-" c) owner &&
      negb (bool_decide (repository = ""%string)) && (str_len repository <=? 100) &&
      all_bytes (λ c, is_ascii_lower c || is_ascii_digit c || one_of "._-" c) repository &&
      negb (contains "/" repository)
  end.

Definition branch_segment (segment : string) : bool :=
  negb (bool_decide (segment = ""%string)) && negb (starts_with "." segment) &&
  negb (ends_with ".lock" segment).

Definition git_branch (value : string) : bool :=
  negb (bool_decide (value = ""%string)) && (utf16_count value <=? 255) &&
  negb (bool_decide (value = "@"%string)) && negb (starts_with "/" value) &&
  negb (ends_with "/" value) && negb (ends_with "." value) && negb (contains ".." value) &&
  negb (contains "@{" value) && negb (contains "//" value) &&
  negb (existsb (λ c, in_range 0 32 c || in_range 127 127 c || one_of "~^:?*\[" c) (bytes value)) &&
  forallb branch_segment (split_on "/" value).

Definition lowercase_hex (value : string) : bool := all_bytes is_hex_lower value.

Definition git_object (value : string) : bool :=
  ((str_len value =? 40) || (str_len value =? 64)) && lowercase_hex value.

Definition lowercase_sha256 (value : string) : bool := (str_len value =? 64) && lowercase_hex value.

Definition canonical_sha256 (value : string) : bool :=
  match strip_prefix "sha256:" value with Some hex => lowercase_sha256 hex | None => false end.

(** ** Facts *)

Definition DELIVERY_FACT_SCHEMA_VERSION : Z := 3.

Record PublicationTarget : Type := {
  target_schema_version : Z;
  target_provider : string;
  target_kind : string;
  target_repository : string;
  base_branch : string;
  head_repository : string;
  head_branch : string
}.

Definition validate_target (t : PublicationTarget) : checked () :=
  refuse (negb (target_schema_version t =? DELIVERY_FACT_SCHEMA_VERSION) ||
          bool_decide (target_provider t ≠ "github"%string) ||
          bool_decide (target_kind t ≠ "pull-request"%string) ||
          negb (repository_slug (target_repository t)) || negb (repository_slug (head_repository t)) ||
          negb (git_branch (base_branch t)) || negb (git_branch (head_branch t)) ||
          bool_decide (target_repository t = head_repository t) &&
          bool_decide (base_branch t = head_branch t))
    "publication target is not canonical".

Definition target_try_github (repository base head_repository head : string) :
    checked PublicationTarget :=
  let target := {| target_schema_version := DELIVERY_FACT_SCHEMA_VERSION;
                   target_provider := "github"; target_kind := "pull-request";
                   target_repository := repository; base_branch := base;
                   head_repository := head_repository; head_branch := head |} in
  validate_target target ;; Ok target.

Record PublicationSourceIssue : Type := {
  source_schema_version : Z;
  source_provider : string;
  source_kind : string;
  source_repository : string;
  source_number : Z
}.

Definition validate_source (s : PublicationSourceIssue) : checked () :=
  refuse (negb (source_schema_version s =? DELIVERY_FACT_SCHEMA_VERSION) ||
          bool_decide (source_provider s ≠ "github"%string) ||
          bool_decide (source_kind s ≠ "issue"%string) ||
          negb (repository_slug (source_repository s)) || (source_number s =? 0) ||
          (MAX_SAFE_INTEGER <? source_number s))
    "publication source issue is not canonical".

Definition source_try_github (repository : string) (number : Z) : checked PublicationSourceIssue :=
  let source := {| source_schema_version := DELIVERY_FACT_SCHEMA_VERSION;
                   source_provider := "github"; source_kind := "issue";
                   source_repository := repository; source_number := number |} in
  validate_source source ;; Ok source.

Record PublicationFactBinding : Type := {
  binding_candidate_digest : string;
  delivery_id : string;
  delivery_revision : Z;
  delivery_spec_id : string;
  delivery_spec_revision : Z;
  candidate_ref : string;
  diff_sha256 : string;
  verdict_id : string;
  approval_id : string;
  approval_review_set_sha256 : string;
  target_sha256 : string
}.

Definition validate_binding (b : PublicationFactBinding) : checked () :=
  refuse ((delivery_revision b =? 0) || (MAX_SAFE_INTEGER <? delivery_revision b) ||
          (delivery_spec_revision b =? 0) || (MAX_SAFE_INTEGER <? delivery_spec_revision b) ||
          negb (is_canonical_prefixed_id (delivery_id b) "dlv_") ||
          negb (portable (delivery_spec_id b) 200) || negb (portable (verdict_id b) 200) ||
          negb (is_canonical_prefixed_id (approval_id b) "att_") ||
          negb (match strip_prefix "refs/winwincode/candidates/" (candidate_ref b) with
                | Some object => git_object object
                | None => false
                end) ||
          negb (canonical_sha256 (binding_candidate_digest b)) ||
          negb (lowercase_sha256 (diff_sha256 b)) ||
          negb (lowercase_sha256 (approval_review_set_sha256 b)) ||
          negb (lowercase_sha256 (target_sha256 b)))
    "publication fact binding is incomplete or malformed".

Inductive PublicationResourceKind : Type :=
| GitHubIssue
| GitHubPullRequest.

Record PublicationResourceFact : Type := {
  resource_kind : PublicationResourceKind;
  resource_repository : string;
  resource_number : Z
}.

Definition validate_resource (r : PublicationResourceFact) : checked () :=
  refuse (negb (repository_slug (resource_repository r)) || (resource_number r =? 0) ||
          (MAX_SAFE_INTEGER <? resource_number r))
    "publication resource identity is invalid".

Record PublicationAuthorization : Type := {
  binding : PublicationFactBinding;
  source : PublicationSourceIssue;
  target : PublicationTarget;
  candidate_digest : string;
  candidate_commit_id : string;
  artifact_id : string;
  artifact_digest : string;
  approved_by : string;
  approved_at_millis : Z;
  repository_scope_sha256 : string;
  publication_set_sha256 : string;
  provider_idempotency_key : string
}.

#[global] Instance PublicationTarget_eq_dec : EqDecision PublicationTarget.
Proof. solve_decision. Defined.
#[global] Instance PublicationSourceIssue_eq_dec : EqDecision PublicationSourceIssue.
Proof. solve_decision. Defined.
#[global] Instance PublicationFactBinding_eq_dec : EqDecision PublicationFactBinding.
Proof. solve_decision. Defined.
#[global] Instance PublicationResourceKind_eq_dec : EqDecision PublicationResourceKind.
Proof. solve_decision. Defined.
#[global] Instance PublicationResourceFact_eq_dec : EqDecision PublicationResourceFact.
Proof. solve_decision. Defined.
#[global] Instance PublicationAuthorization_eq_dec : EqDecision PublicationAuthorization.
Proof. solve_decision. Defined.

(** ** Operations *)

Definition PUBLICATION_OPERATION_SCHEMA_VERSION : Z := 1.
Definition PUBLICATION_OPERATION_PROTOCOL : string := "winwincode.github-provider-operation.v1".

Inductive PublicationOperationKind : Type :=
| Branch
| PullRequest
| IssueComment
| CommitStatus.

Definition operation_kind_key (k : PublicationOperationKind) : string :=
  match k with
  | Branch => "branch"
  | PullRequest => "pull-request"
  | IssueComment => "issue-comment"
  | CommitStatus => "commit-status"
  end.

Inductive PublicationOperationPayload : Type :=
| BranchPayload (repository branch commit_id : string)
| PullRequestPayload (repository base_branch head_repository head_branch title body : string)
| IssueCommentPayload (repository : string) (issue_number : Z) (body : string)
| CommitStatusPayload (repository commit_id context state description target_repository : string)
    (target_issue_number : Z).

Record PublicationOperation : Type := {
  op_schema_version : Z;
  op_protocol : string;
  op_kind : PublicationOperationKind;
  operation_key : string;
  request_sha256 : string;
  op_payload : PublicationOperationPayload
}.

#[global] Instance PublicationOperationKind_eq_dec : EqDecision PublicationOperationKind.
Proof. solve_decision. Defined.
#[global] Instance PublicationOperationPayload_eq_dec : EqDecision PublicationOperationPayload.
Proof. solve_decision. Defined.
#[global] Instance PublicationOperation_eq_dec : EqDecision PublicationOperation.
Proof. solve_decision. Defined.

(** ** Policy data *)

Inductive PublicationRequester : Type :=
| User (id : string)
| ServiceAccount (id : string)
| SystemActor (id : string).

Record RepositoryPolicyScope : Type := {
  organization : string;
  workspace : string;
  project : string;
  repository : string
}.

Inductive PolicyPermission : Type :=
| PermissionAllow
| PermissionDeny.

(** An address is kept as its text. *)
Inductive PublicationPolicyOrigin : Type :=
| Local (component : string)
| Network (source_ip : string).

Inductive PublicationPolicyRule : Type :=
| RequesterExplicitDeny
| ApproverExplicitDeny
| RepositoryWriteDenied
| ArtifactExportDenied
| RequesterNotAllowed
| ApproverNotAllowed
| IndependentVerificationRequired
| ArtifactNotExportable
| ApprovalExpired
| Allowed.

Inductive PublicationPolicyEffect : Type :=
| Allow
| Deny.

#[global] Instance PublicationRequester_eq_dec : EqDecision PublicationRequester.
Proof. solve_decision. Defined.
#[global] Instance RepositoryPolicyScope_eq_dec : EqDecision RepositoryPolicyScope.
Proof. solve_decision. Defined.
#[global] Instance PolicyPermission_eq_dec : EqDecision PolicyPermission.
Proof. solve_decision. Defined.
#[global] Instance PublicationPolicyRule_eq_dec : EqDecision PublicationPolicyRule.
Proof. solve_decision. Defined.
#[global] Instance PublicationPolicyEffect_eq_dec : EqDecision PublicationPolicyEffect.
Proof. solve_decision. Defined.

Record PublicationPolicyEvidence : Type := {
  ev_publication_set_sha256 : string;
  ev_repository_scope_sha256 : string;
  independent_verification : bool;
  artifact_exportable : bool;
  observed_at_millis : Z
}.

Record PublicationPolicyContext : Type := {
  requester : PublicationRequester;
  ctx_request_id : string;
  ctx_scope : RepositoryPolicyScope;
  origin : PublicationPolicyOrigin;
  evidence : PublicationPolicyEvidence
}.

Record RepositoryPublicationPolicy : Type := {
  policy_scope : RepositoryPolicyScope;
  policy_repository : string;
  allowed_requesters : list PublicationRequester;
  denied_requesters : list PublicationRequester;
  allowed_approvers : list string;
  denied_approvers : list string;
  repository_write : PolicyPermission;
  require_independent_verification : bool;
  artifact_export : PolicyPermission;
  max_approval_age_millis : Z;
  policy_digest : string
}.

Record PublicationPolicyDecision : Type := {
  effect : PublicationPolicyEffect;
  rule : PublicationPolicyRule;
  policy_sha256 : string;
  decision_requester : PublicationRequester;
  decision_scope : RepositoryPolicyScope;
  decision_request_id : string;
  decision_origin : PublicationPolicyOrigin;
  decision_publication_id : string;
  decision_delivery_id : string;
  occurred_at_millis : Z;
  decision_sha256 : string
}.

(** ** Hashing *)

(** The tuples the crate serialises and hashes. *)
Inductive HashInput : Type :=
| HashTarget (t : PublicationTarget)
| HashProviderKey (delivery : string) (s : PublicationSourceIssue) (t : PublicationTarget)
| HashPublicationSet (b : PublicationFactBinding) (s : PublicationSourceIssue) (t : PublicationTarget)
    (candidate_digest candidate_commit_id artifact_id artifact_digest approved_by : string)
    (approved_at_millis : Z) (repository_scope_sha256 : string)
| HashOperation (schema_version : Z) (protocol : string) (kind : PublicationOperationKind)
    (operation_key : string) (payload : PublicationOperationPayload)
| HashIntent (publication_id : string) (a : PublicationAuthorization) (ops : list PublicationOperation)
| HashScope (s : RepositoryPolicyScope)
| HashPolicy (s : RepositoryPolicyScope) (repository : string)
    (allowed_requesters denied_requesters : list PublicationRequester)
    (allowed_approvers denied_approvers : list string) (repository_write : PolicyPermission)
    (require_independent_verification : bool) (artifact_export : PolicyPermission)
    (max_approval_age_millis : Z)
| HashDecision (e : PublicationPolicyEffect) (r : PublicationPolicyRule) (policy_sha256 : string)
    (requester : PublicationRequester) (s : RepositoryPolicyScope) (request_id : string)
    (origin : PublicationPolicyOrigin) (publication_id delivery_id : string) (occurred_at_millis : Z)
| HashReceipt (publication_id : string) (revision : Z) (event_digest : string).

Section hashing.
(** The lower-case hexadecimal SHA-256 of a tuple's JSON. *)
Context (sha256_json : HashInput → string).

Definition canonical_sha256_json (x : HashInput) : string := "sha256:" ++ sha256_json x.

(** *** Authorization *)

Definition provider_key_of (b : PublicationFactBinding) (s : PublicationSourceIssue)
    (t : PublicationTarget) : string :=
  "github:pull-request:" ++ canonical_sha256_json (HashProviderKey (delivery_id b) s t).

Definition publication_set_of (b : PublicationFactBinding) (s : PublicationSourceIssue)
    (t : PublicationTarget) (digest commit artifact artifact_digest approved : string) (at_millis : Z)
    (scope : string) : string :=
  canonical_sha256_json
    (HashPublicationSet b s t digest commit artifact artifact_digest approved at_millis scope).

Definition validate_authorization (a : PublicationAuthorization) : checked () :=
  validate_binding (binding a) ;;
  validate_source (source a) ;;
  validate_target (target a) ;;
  refuse (bool_decide (target_sha256 (binding a) ≠ sha256_json (HashTarget (target a))) ||
          bool_decide (candidate_digest a ≠ binding_candidate_digest (binding a)) ||
          negb (git_object (candidate_commit_id a)) ||
          bool_decide (candidate_ref (binding a) ≠
                       "refs/winwincode/candidates/" ++ candidate_commit_id a)%string ||
          negb (is_canonical_prefixed_id (artifact_id a) "art_") ||
          negb (canonical_sha256 (artifact_digest a)) ||
          negb (is_canonical_prefixed_id (approved_by a) "usr_") ||
          (approved_at_millis a =? 0) || (MAX_SAFE_INTEGER <? approved_at_millis a) ||
          negb (canonical_sha256 (repository_scope_sha256 a)) ||
          bool_decide (publication_set_sha256 a ≠
            publication_set_of (binding a) (source a) (target a) (candidate_digest a)
              (candidate_commit_id a) (artifact_id a) (artifact_digest a) (approved_by a)
              (approved_at_millis a) (repository_scope_sha256 a)) ||
          bool_decide (provider_idempotency_key a ≠ provider_key_of (binding a) (source a) (target a)))
    "publication authorization is incomplete or stale".

Definition try_from_current_facts (b : PublicationFactBinding) (s : PublicationSourceIssue)
    (t : PublicationTarget) (commit artifact artifact_digest approved : string) (at_millis : Z)
    (scope : string) : checked PublicationAuthorization :=
  let digest := binding_candidate_digest b in
  let authorization :=
    {| binding := b; source := s; target := t; candidate_digest := digest;
       candidate_commit_id := commit; artifact_id := artifact; artifact_digest := artifact_digest;
       approved_by := approved; approved_at_millis := at_millis; repository_scope_sha256 := scope;
       publication_set_sha256 :=
         publication_set_of b s t digest commit artifact artifact_digest approved at_millis scope;
       provider_idempotency_key := provider_key_of b s t |} in
  validate_authorization authorization ;; Ok authorization.

(** *** Operations *)

Definition operation_new (provider_key : string) (kind : PublicationOperationKind)
    (payload : PublicationOperationPayload) : PublicationOperation :=
  let key := (provider_key ++ ":" ++ operation_kind_key kind)%string in
  {| op_schema_version := PUBLICATION_OPERATION_SCHEMA_VERSION;
     op_protocol := PUBLICATION_OPERATION_PROTOCOL; op_kind := kind; operation_key := key;
     request_sha256 := canonical_sha256_json
       (HashOperation PUBLICATION_OPERATION_SCHEMA_VERSION PUBLICATION_OPERATION_PROTOCOL kind key payload);
     op_payload := payload |}.

Definition newline : string := String "010" EmptyString.

Definition operation_body (a : PublicationAuthorization) : string :=
  let marker := ("<!-- winwincode-publication:" ++ provider_idempotency_key a ++ " -->")%string in
  let break := (newline ++ newline)%string in
  (marker ++ break ++ "Publication set: `" ++ publication_set_sha256 a ++ "`" ++ break ++
   "Candidate: `" ++ candidate_ref (binding a) ++ "`" ++ break ++
   "Verdict: `" ++ verdict_id (binding a) ++ "`" ++ break ++
   "Review package: `github-review-package:" ++ publication_set_sha256 a ++ "`")%string.

Definition operation_comment (a : PublicationAuthorization) : string :=
  ("<!-- winwincode-publication:" ++ provider_idempotency_key a ++ " -->" ++ newline ++ newline ++
   "Delivery `" ++ delivery_id (binding a) ++ "` has an approved publication set `" ++
   publication_set_sha256 a ++ "`.")%string.

(** [PublicationOperation::ordered]. *)
Definition ordered (a : PublicationAuthorization) : list PublicationOperation :=
  let key := provider_idempotency_key a in
  [operation_new key Branch
     (BranchPayload (head_repository (target a)) (head_branch (target a)) (candidate_commit_id a));
   operation_new key PullRequest
     (PullRequestPayload (target_repository (target a)) (base_branch (target a))
        (head_repository (target a)) (head_branch (target a))
        ("WinWinCode Delivery " ++ delivery_id (binding a)) (operation_body a));
   operation_new key IssueComment
     (IssueCommentPayload (source_repository (source a)) (source_number (source a)) (operation_comment a));
   operation_new key CommitStatus
     (CommitStatusPayload (head_repository (target a)) (candidate_commit_id a) "winwincode/delivery"
        "success" "WinWinCode verified all required acceptance criteria."
        (source_repository (source a)) (source_number (source a)))].

Definition validate_payload (o : PublicationOperation) : checked () :=
  match op_payload o with
  | BranchPayload repository branch commit_id =>
      refuse (bool_decide (op_kind o ≠ Branch) || negb (repository_slug repository) ||
              negb (git_branch branch) || negb (git_object commit_id))
        "publication branch operation is invalid"
  | PullRequestPayload repository base_branch head_repository head_branch title body =>
      refuse (bool_decide (op_kind o ≠ PullRequest) || negb (repository_slug repository) ||
              negb (git_branch base_branch) || negb (repository_slug head_repository) ||
              negb (git_branch head_branch) || negb (bounded_text title 512) ||
              negb (bounded_text body 1048576))
        "publication pull-request operation is invalid"
  | IssueCommentPayload repository issue_number body =>
      refuse (bool_decide (op_kind o ≠ IssueComment) || negb (repository_slug repository) ||
              (issue_number =? 0) || negb (bounded_text body 1048576))
        "publication issue-comment operation is invalid"
  | CommitStatusPayload repository commit_id context state description target_repository number =>
      refuse (bool_decide (op_kind o ≠ CommitStatus) || negb (repository_slug repository) ||
              negb (git_object commit_id) || negb (bounded_text context 255) ||
              bool_decide (state ≠ "success"%string) || negb (bounded_text description 255) ||
              negb (repository_slug target_repository) || (number =? 0))
        "publication commit-status operation is invalid"
  end.

Definition validate_operation (o : PublicationOperation) : checked () :=
  refuse (negb (op_schema_version o =? PUBLICATION_OPERATION_SCHEMA_VERSION) ||
          bool_decide (op_protocol o ≠ PUBLICATION_OPERATION_PROTOCOL) ||
          negb (ends_with (":" ++ operation_kind_key (op_kind o)) (operation_key o)) ||
          bool_decide (request_sha256 o ≠ canonical_sha256_json
            (HashOperation (op_schema_version o) (op_protocol o) (op_kind o) (operation_key o)
               (op_payload o))))
    "publication operation identity changed" ;;
  validate_payload o.

(** *** Policy *)

Definition validate_requester (r : PublicationRequester) : checked () :=
  refuse (negb match r with
               | User id => is_canonical_prefixed_id id "usr_"
               | ServiceAccount id => is_canonical_prefixed_id id "svc_"
               | SystemActor id => is_canonical_prefixed_id id "sys_"
               end)
    "publication requester identity is not canonical".

Definition sort_key (r : PublicationRequester) : string :=
  match r with
  | User id => "user:" ++ id
  | ServiceAccount id => "service_account:" ++ id
  | SystemActor id => "system:" ++ id
  end%string.

Definition validate_scope (s : RepositoryPolicyScope) : checked () :=
  refuse (negb (is_canonical_prefixed_id (organization s) "org_") ||
          negb (is_canonical_prefixed_id (workspace s) "wsp_") ||
          negb (is_canonical_prefixed_id (project s) "prj_") ||
          negb (is_canonical_prefixed_id (repository s) "rep_"))
    "repository policy scope is not canonical".

(** [PublicationPolicyScope::sha256] and the other digests of [policy.rs]. *)
Definition scope_sha256 (s : RepositoryPolicyScope) : string := canonical_sha256_json (HashScope s).

(** [windows(2).any(|pair| pair[0] == pair[1])]. *)
Fixpoint adjacent_same {A} `{EqDecision A} (xs : list A) : bool :=
  match xs with
  | x :: ((y :: _) as xs') => bool_decide (x = y) || adjacent_same xs'
  | _ => false
  end.

Definition sort_unique_requesters (values : list PublicationRequester) :
    checked (list PublicationRequester) :=
  let values := sort_by_key sort_key values in
  refuse (adjacent_same values) "repository policy requester list contains duplicates" ;; Ok values.

Definition sort_unique_users (values : list string) : checked (list string) :=
  let values := sort_unstable values in
  refuse (adjacent_same values) "repository policy approver list contains duplicates" ;; Ok values.

Definition policy_try_new (scope : RepositoryPolicyScope) (repository : string)
    (allowed_requesters denied_requesters : list PublicationRequester)
    (allowed_approvers denied_approvers : list string) (write : PolicyPermission)
    (independent : bool) (export : PolicyPermission) (max_age : Z) :
    checked RepositoryPublicationPolicy :=
  validate_scope scope ;;
  refuse (negb (repository_slug repository) || bool_decide (allowed_requesters = []) ||
          bool_decide (allowed_approvers = []) || (max_age =? 0) || (MAX_SAFE_INTEGER <? max_age))
    "repository publication policy is incomplete" ;;
  check_all validate_requester (allowed_requesters ++ denied_requesters) ;;
  check_all (λ approver, refuse (negb (is_canonical_prefixed_id approver "usr_"))
               "repository policy approver identity is invalid")
    (allowed_approvers ++ denied_approvers) ;;
  allowed_requesters ← sort_unique_requesters allowed_requesters;
  denied_requesters ← sort_unique_requesters denied_requesters;
  allowed_approvers ← sort_unique_users allowed_approvers;
  denied_approvers ← sort_unique_users denied_approvers;
  Ok {| policy_scope := scope; policy_repository := repository;
        allowed_requesters := allowed_requesters; denied_requesters := denied_requesters;
        allowed_approvers := allowed_approvers; denied_approvers := denied_approvers;
        repository_write := write; require_independent_verification := independent;
        artifact_export := export; max_approval_age_millis := max_age;
        policy_digest := canonical_sha256_json
          (HashPolicy scope repository allowed_requesters denied_requesters allowed_approvers
             denied_approvers write independent export max_age) |}.

Definition evidence_try_from_current_facts (a : PublicationAuthorization) (independent exportable : bool)
    (observed : Z) : checked PublicationPolicyEvidence :=
  validate_authorization a ;;
  refuse ((observed =? 0) || (MAX_SAFE_INTEGER <? observed))
    "publication policy observation time is invalid" ;;
  Ok {| ev_publication_set_sha256 := publication_set_sha256 a;
        ev_repository_scope_sha256 := repository_scope_sha256 a;
        independent_verification := independent; artifact_exportable := exportable;
        observed_at_millis := observed |}.

(** The first rule that applies. *)
Definition policy_rule (p : RepositoryPublicationPolicy) (r : PublicationRequester)
    (e : PublicationPolicyEvidence) (a : PublicationAuthorization) : PublicationPolicyRule :=
  let approver := approved_by a in
  if bool_decide (r ∈ denied_requesters p) then RequesterExplicitDeny
  else if bool_decide (approver ∈ denied_approvers p) then ApproverExplicitDeny
  else if bool_decide (repository_write p = PermissionDeny) then RepositoryWriteDenied
  else if bool_decide (artifact_export p = PermissionDeny) then ArtifactExportDenied
  else if negb (bool_decide (r ∈ allowed_requesters p)) then RequesterNotAllowed
  else if negb (bool_decide (approver ∈ allowed_approvers p)) then ApproverNotAllowed
  else if require_independent_verification p && negb (independent_verification e)
  then IndependentVerificationRequired
  else if negb (artifact_exportable e) then ArtifactNotExportable
  else if max_approval_age_millis p <? saturating_sub (observed_at_millis e) (approved_at_millis a)
  then ApprovalExpired
  else Allowed.

Definition decision_try_new (e : PublicationPolicyEffect) (r : PublicationPolicyRule)
    (policy_sha256 : string) (requester : PublicationRequester) (scope : RepositoryPolicyScope)
    (request_id : string) (origin : PublicationPolicyOrigin) (publication_id delivery_id : string)
    (occurred_at : Z) : checked PublicationPolicyDecision :=
  refuse (negb (canonical_sha256 policy_sha256) ||
          negb (Bool.eqb (bool_decide (e = Allow)) (bool_decide (r = Allowed))))
    "publication policy decision is invalid" ;;
  Ok {| effect := e; rule := r; policy_sha256 := policy_sha256; decision_requester := requester;
        decision_scope := scope; decision_request_id := request_id; decision_origin := origin;
        decision_publication_id := publication_id; decision_delivery_id := delivery_id;
        occurred_at_millis := occurred_at;
        decision_sha256 := canonical_sha256_json
          (HashDecision e r policy_sha256 requester scope request_id origin publication_id delivery_id
             occurred_at) |}.

Definition evaluate (p : RepositoryPublicationPolicy) (c : PublicationPolicyContext)
    (publication_id : string) (a : PublicationAuthorization) : checked PublicationPolicyDecision :=
  let e := evidence c in
  validate_requester (requester c) ;;
  validate_authorization a ;;
  refuse (negb (is_canonical_prefixed_id (ctx_request_id c) "req_") ||
          negb (is_canonical_prefixed_id publication_id "pub_") ||
          bool_decide (ctx_scope c ≠ policy_scope p) ||
          bool_decide (target_repository (target a) ≠ policy_repository p) ||
          bool_decide (ev_publication_set_sha256 e ≠ publication_set_sha256 a) ||
          bool_decide (ev_repository_scope_sha256 e ≠ repository_scope_sha256 a) ||
          bool_decide (ev_repository_scope_sha256 e ≠ scope_sha256 (policy_scope p)) ||
          (observed_at_millis e <? approved_at_millis a))
    "publication policy facts are stale or belong to another authority" ;;
  let rule := policy_rule p (requester c) e a in
  let effect := if bool_decide (rule = Allowed) then Allow else Deny in
  decision_try_new effect rule (policy_digest p) (requester c) (policy_scope p) (ctx_request_id c)
    (origin c) publication_id (delivery_id (binding a)) (observed_at_millis e).

(** ** What a policy permits *)

(** The publication of [a] on the evidence [e] at the request of [r], as the policy states it. *)
Record permits (p : RepositoryPublicationPolicy) (r : PublicationRequester)
    (e : PublicationPolicyEvidence) (a : PublicationAuthorization) : Prop := {
  permits_requester : r ∈ allowed_requesters p ∧ r ∉ denied_requesters p;
  permits_approver : approved_by a ∈ allowed_approvers p ∧ approved_by a ∉ denied_approvers p;
  permits_write : repository_write p = PermissionAllow;
  permits_export : artifact_export p = PermissionAllow;
  permits_verification : require_independent_verification p = true → independent_verification e = true;
  permits_artifact : artifact_exportable e = true;
  permits_age : approved_at_millis a ≤ observed_at_millis e ≤ approved_at_millis a + max_approval_age_millis p
}.

Lemma policy_rule_permits p r e a :
  approved_at_millis a ≤ observed_at_millis e → policy_rule p r e a = Allowed ↔ permits p r e a.
Proof.
  intros Ht. unfold policy_rule, saturating_sub. split.
  - intros H. repeat (case_match; try done). split_bools.
    split; try done; try (by destruct (repository_write p)); try (by destruct (artifact_export p)).
    + intros Hi. rewrite Hi in *. simpl in *. by split_bools.
    + lia.
  - intros [[? ?] [? ?] Hw Hx Hv He Ha]. rewrite Hw, Hx, He.
    rewrite !(bool_decide_eq_false_2 (_ ∈ denied_requesters p)), !(bool_decide_eq_false_2 (_ ∈ denied_approvers p)) by done.
    rewrite !(bool_decide_eq_true_2 (_ ∈ _)) by done. simpl.
    destruct (require_independent_verification p); simpl; [rewrite Hv by done; simpl|].
    all: by rewrite (proj2 (Z.ltb_ge _ _)) by lia.
Qed.

(** A decision is in favour exactly when the policy permits. *)
Lemma evaluate_permits p c publication_id a d :
  evaluate p c publication_id a = Ok d →
  (effect d = Allow ↔ permits p (requester c) (evidence c) a) ∧
  decision_publication_id d = publication_id ∧ policy_sha256 d = policy_digest p.
Proof.
  unfold evaluate, decision_try_new. intros H. inv_result. split_bools. simpl. split; [|done].
  rewrite <-policy_rule_permits by lia.
  by destruct (decide (policy_rule p (requester c) (evidence c) a = Allowed)) as [E|E]; [rewrite bool_decide_eq_true_2|rewrite bool_decide_eq_false_2].
Qed.
End hashing.
