(* ===== verification/Publication.v ===== *)
(** * Publication: the ledger and the coordinator

    Models [coordinator.rs] of [crates/winwincode-publication/src], with the provider port of
    [operation.rs] and the storage interface of [storage.rs]: a publication and its
    validation, the ledger that keeps it as a state, a journal and receipts, and the
    coordinator that publishes, resumes and cancels it.  The storage, the provider port and
    the policy audit are traits of the source and type classes here; [serde_json] and [sha2]
    are arguments. *)

From Stdlib Require Import Ascii String.
From S2P Require Import Prelude Text Numerals Instants Transaction PublicationFacts.
From S2P Require Frame.
Local Open Scope Z_scope.

(** ** The provider port *)

Inductive PublicationPortObservation : Type :=
| Found (operation_key request_sha256 : string) (resource : option PublicationResourceFact)
| Absent (operation_key : string)
| UnknownObservation (operation_key code : string)
| Conflict (operation_key code : string).

Inductive PublicationPortMutation : Type :=
| Applied (operation_key request_sha256 : string) (resource : option PublicationResourceFact)
    (remote_write_performed : bool)
| UnknownMutation (operation_key code : string)
| RejectedMutation (operation_key code : string).

(** [PublicationPort]; the error of either method is its code. *)
Class PublicationPort (P : Type) : Type := {
  lookup_operation : P → PublicationOperation → P * result string PublicationPortObservation;
  apply_operation : P → PublicationOperation → P * result string PublicationPortMutation
}.

Definition resource_matches (o : PublicationOperation) (r : option PublicationResourceFact) : bool :=
  match op_kind o with
  | PullRequest =>
      match r with
      | Some v => bool_decide (resource_kind v = GitHubPullRequest) && is_ok (validate_resource v)
      | None => false
      end
  | _ => bool_decide (r = None)
  end.

(** The common end of both validations: the answer is about this operation, and its code
    is portable. *)
Definition validate_answer (o : PublicationOperation) (key : string) (code : option string)
    (message : string) : checked () :=
  refuse (bool_decide (key ≠ operation_key o) ||
          match code with Some code => negb (portable code 100) | None => false end) message.

Definition validate_observation (o : PublicationOperation) (v : PublicationPortObservation) : checked () :=
  let message := "publication lookup returned another operation"%string in
  match v with
  | Found key sha resource =>
      refuse (bool_decide (sha ≠ request_sha256 o) || negb (resource_matches o resource))
        "publication lookup returned another request" ;;
      validate_answer o key None message
  | Absent key => validate_answer o key None message
  | UnknownObservation key code | Conflict key code => validate_answer o key (Some code) message
  end.

Definition validate_mutation (o : PublicationOperation) (v : PublicationPortMutation) : checked () :=
  let message := "publication apply returned another operation"%string in
  match v with
  | Applied key sha resource _ =>
      refuse (bool_decide (sha ≠ request_sha256 o) || negb (resource_matches o resource))
        "publication apply returned another request" ;;
      validate_answer o key None message
  | UnknownMutation key code | RejectedMutation key code => validate_answer o key (Some code) message
  end.

(** ** Publications *)

Inductive PublicationState : Type :=
| Pending
| Publishing
| Published
| Cancelled
| Failed.

Inductive PublicationStepState : Type :=
| StepPending
| StepApplying
| StepUnknown
| StepSucceeded
| StepRejected.

Record PublicationStep : Type := {
  step_operation : PublicationOperation;
  step_state : PublicationStepState;
  step_resource : option PublicationResourceFact;
  step_code : option string;
  remote_write_performed : option bool
}.

#[global] Instance PublicationState_eq_dec : EqDecision PublicationState.
Proof. solve_decision. Defined.
#[global] Instance PublicationStepState_eq_dec : EqDecision PublicationStepState.
Proof. solve_decision. Defined.
#[global] Instance PublicationStep_eq_dec : EqDecision PublicationStep.
Proof. solve_decision. Defined.

(** The fields from [binding] to [provider_idempotency_key] are kept as the authorization
    they are copied from ([Publication::authorization] puts them together again). *)
Record Publication : Type := {
  id : string;
  revision : Z;
  state : PublicationState;
  authorization : PublicationAuthorization;
  intent_sha256 : string;
  steps : list PublicationStep;
  resource : option PublicationResourceFact;
  cancellation_reason : option string;
  updated_at_millis : Z
}.

#[global] Instance Publication_eq_dec : EqDecision Publication.
Proof. solve_decision. Defined.

Inductive PublicationErrorKind : Type :=
| InvalidInput
| StaleAuthority
| PolicyDenied
| AuditUnavailable
| RequestConflict
| RevisionConflict
| AlreadyExists
| NotFound
| WrongState
| PortContract
| Storage
| Corrupt.

(** The message is left out. *)
Record PublicationError : Type := {
  error_kind : PublicationErrorKind;
  policy_decision : option PublicationPolicyDecision
}.

Definition error (k : PublicationErrorKind) : PublicationError :=
  {| error_kind := k; policy_decision := None |}.

Definition policy_denied (d : PublicationPolicyDecision) : PublicationError :=
  {| error_kind := PolicyDenied; policy_decision := Some d |}.

Abbreviation outcome A := (result PublicationError A).

Definition is_terminal (s : PublicationState) : bool :=
  match s with Published | Cancelled | Failed => true | _ => false end.

Definition valid_step_result (s : PublicationStep) : bool :=
  match step_state s with
  | StepPending | StepApplying =>
      bool_decide (step_resource s = None) && bool_decide (step_code s = None) &&
      bool_decide (remote_write_performed s = None)
  | StepUnknown | StepRejected =>
      bool_decide (step_resource s = None) &&
      match step_code s with Some code => portable code 100 | None => false end &&
      bool_decide (remote_write_performed s = None)
  | StepSucceeded =>
      match op_kind (step_operation s) with
      | PullRequest => match step_resource s with Some r => is_ok (validate_resource r) | None => false end
      | _ => bool_decide (step_resource s = None)
      end &&
      bool_decide (step_code s = None) && bool_decide (is_Some (remote_write_performed s))
  end.

Section publication.
Context (sha256_json : HashInput → string).

Definition publication_intent_sha256 (publication_id : string) (a : PublicationAuthorization)
    (ops : list PublicationOperation) : string :=
  canonical_sha256_json sha256_json (HashIntent publication_id a ops).

Definition validate_identity (p : Publication) (ops : list PublicationOperation) : outcome () :=
  let a := authorization p in
  refuse (negb (is_canonical_prefixed_id (id p) "pub_") || (revision p =? 0) ||
          (MAX_SAFE_INTEGER <? revision p) || negb (canonical_sha256 (candidate_digest a)) ||
          negb (canonical_sha256 (artifact_digest a)) ||
          negb (canonical_sha256 (repository_scope_sha256 a)) ||
          negb (canonical_sha256 (publication_set_sha256 a)) ||
          negb (canonical_sha256 (intent_sha256 p)) || (approved_at_millis a =? 0) ||
          (updated_at_millis p <? approved_at_millis a) ||
          (MAX_SAFE_INTEGER <? updated_at_millis p) || negb (bool_decide (length (steps p) = 4%nat)) ||
          bool_decide (intent_sha256 p ≠ publication_intent_sha256 (id p) a ops))
    (error Corrupt).

(** The loop of [validate_steps] over the expected kinds, with the expected operations and
    the steps; indexing beyond the end does not happen, as there are four of each. *)
Fixpoint validate_step_loop (incomplete_seen : bool) (kinds : list PublicationOperationKind)
    (ops : list PublicationOperation) (ss : list PublicationStep) : outcome () :=
  match kinds, ops, ss with
  | kind :: kinds, op :: ops, s :: ss =>
      map_err (λ _, error Corrupt) (validate_operation sha256_json (step_operation s)) ;;
      refuse (bool_decide (op_kind (step_operation s) ≠ kind) ||
              bool_decide (step_operation s ≠ op) ||
              incomplete_seen && bool_decide (step_state s ≠ StepPending) ||
              negb (valid_step_result s)) (error Corrupt) ;;
      validate_step_loop (incomplete_seen || bool_decide (step_state s ≠ StepSucceeded)) kinds ops ss
  | _, _, _ => Ok tt
  end.

Definition validate_steps (p : Publication) (ops : list PublicationOperation) : outcome () :=
  validate_step_loop false [Branch; PullRequest; IssueComment; CommitStatus] ops (steps p) ;;
  refuse (bool_decide (resource p ≠ (steps p !! 1%nat ≫= step_resource)) ||
          match resource p with
          | Some r => bool_decide (resource_kind r ≠ GitHubPullRequest) ||
                      bool_decide (resource_repository r ≠ target_repository (target (authorization p)))
          | None => false
          end) (error Corrupt).

Definition validate_state (p : Publication) : outcome () :=
  refuse match state p with
         | Pending => existsb (λ s, bool_decide (step_state s ≠ StepPending)) (steps p)
         | Published => existsb (λ s, bool_decide (step_state s ≠ StepSucceeded)) (steps p) ||
                        bool_decide (resource p = None)
         | Failed => forallb (λ s, bool_decide (step_state s ≠ StepRejected)) (steps p)
         | Cancelled => match cancellation_reason p with
                        | Some reason => negb (bounded_text reason 2000)
                        | None => true
                        end
         | Publishing => false
         end (error Corrupt) ;;
  refuse (bool_decide (state p ≠ Cancelled) && bool_decide (is_Some (cancellation_reason p)))
    (error Corrupt).

(** [Publication::validate]. *)
Definition validate (p : Publication) : outcome () :=
  map_err (λ _, error Corrupt) (validate_authorization sha256_json (authorization p)) ;;
  let ops := ordered sha256_json (authorization p) in
  validate_identity p ops ;;
  validate_steps p ops ;;
  validate_state p.

Definition pending_step (op : PublicationOperation) : PublicationStep :=
  {| step_operation := op; step_state := StepPending; step_resource := None; step_code := None;
     remote_write_performed := None |}.

(** [Publication::initial]. *)
Definition initial (publication_id : string) (a : PublicationAuthorization) (occurred_at : Z) :
    outcome Publication :=
  let ops := ordered sha256_json a in
  let value :=
    {| id := publication_id; revision := 1; state := Pending; authorization := a;
       intent_sha256 := publication_intent_sha256 publication_id a ops;
       steps := pending_step <$> ops; resource := None; cancellation_reason := None;
       updated_at_millis := occurred_at |} in
  validate value ;; Ok value.
End publication.

(** *** Changes of a publication *)

Definition set_steps (p : Publication) (ss : list PublicationStep) : Publication :=
  {| id := id p; revision := revision p; state := state p; authorization := authorization p;
     intent_sha256 := intent_sha256 p; steps := ss; resource := resource p;
     cancellation_reason := cancellation_reason p; updated_at_millis := updated_at_millis p |}.

Definition set_state (p : Publication) (s : PublicationState) : Publication :=
  {| id := id p; revision := revision p; state := s; authorization := authorization p;
     intent_sha256 := intent_sha256 p; steps := steps p; resource := resource p;
     cancellation_reason := cancellation_reason p; updated_at_millis := updated_at_millis p |}.

Definition set_resource (p : Publication) (r : option PublicationResourceFact) : Publication :=
  {| id := id p; revision := revision p; state := state p; authorization := authorization p;
     intent_sha256 := intent_sha256 p; steps := steps p; resource := r;
     cancellation_reason := cancellation_reason p; updated_at_millis := updated_at_millis p |}.

(** [publication.steps.get_mut(index)] with the step's new fields. *)
Definition update_step (p : Publication) (index : nat) (s : PublicationStepState)
    (r : option PublicationResourceFact) (code : option string) (write : option bool) :
    outcome Publication :=
  match steps p !! index with
  | None => Err (error Corrupt)
  | Some step =>
      Ok (set_steps p (<[index := {| step_operation := step_operation step; step_state := s;
                                     step_resource := r; step_code := code;
                                     remote_write_performed := write |}]> (steps p)))
  end.

Definition succeed_step (index : nat) (r : option PublicationResourceFact) (write : bool)
    (p : Publication) : outcome Publication :=
  p' ← update_step p index StepSucceeded r None (Some write);
  match steps p !! index with
  | Some step =>
      Ok (if bool_decide (op_kind (step_operation step) = PullRequest) then set_resource p' r else p')
  | None => Err (error Corrupt)
  end.

Definition mark_unknown (index : nat) (code : string) (p : Publication) : outcome Publication :=
  update_step p index StepUnknown None (Some code) None.

Definition reject_step (index : nat) (code : string) (p : Publication) : outcome Publication :=
  p ← update_step p index StepRejected None (Some code) None;
  Ok (set_state p Failed).

(** The change of [apply_absent_operation]; the index is within the steps. *)
Definition mark_applying (index : nat) (p : Publication) : outcome Publication :=
  update_step p index StepApplying None None None.

Definition begin_publishing (p : Publication) : outcome Publication := Ok (set_state p Publishing).

Definition finish_published (p : Publication) : outcome Publication := Ok (set_state p Published).

Definition cancel_with (reason : string) (p : Publication) : outcome Publication :=
  Ok {| id := id p; revision := revision p; state := Cancelled; authorization := authorization p;
        intent_sha256 := intent_sha256 p; steps := steps p; resource := resource p;
        cancellation_reason := Some reason; updated_at_millis := updated_at_millis p |}.

Definition validate_resource_target (p : Publication) (r : option PublicationResourceFact) : outcome () :=
  refuse match r with
         | Some v => bool_decide (resource_repository v ≠ target_repository (target (authorization p)))
         | None => false
         end (error PortContract).

(** *** The result of a publication *)

Definition state_str (s : PublicationState) : string :=
  match s with
  | Pending => "pending"
  | Publishing => "publishing"
  | Published => "published"
  | Cancelled => "cancelled"
  | Failed => "failed"
  end.

Record PublicationResultFact : Type := {
  result_publication_id : string;
  result_revision : Z;
  result_state : string;
  result_updated_at : string;
  result_binding : PublicationFactBinding;
  result_publication_set_sha256 : string;
  result_resource : option PublicationResourceFact
}.

Definition canonical_instant (value : string) : bool := instant_shape value.

Definition validate_result (f : PublicationResultFact) : checked () :=
  validate_binding (result_binding f) ;;
  refuse (negb (is_canonical_prefixed_id (result_publication_id f) "pub_") || (result_revision f <? 1) ||
          negb (existsb (λ s, bool_decide (result_state f = s))
                  ["pending"; "publishing"; "published"; "failed"; "cancelled"]%string) ||
          negb (canonical_instant (result_updated_at f)) ||
          negb (canonical_sha256 (result_publication_set_sha256 f)) ||
          match result_resource f with Some r => negb (is_ok (validate_resource r)) | None => false end)
    "publication result fact is invalid".

(** [Publication::result_fact]; a revision beyond [i64] does not become a [Revision]. *)
Definition result_fact (p : Publication) : outcome PublicationResultFact :=
  refuse (i64_max <? revision p) (error Corrupt) ;;
  updated_at ← ok_or (millis_to_instant (updated_at_millis p)) (error Corrupt);
  let fact :=
    {| result_publication_id := id p; result_revision := revision p; result_state := state_str (state p);
       result_updated_at := updated_at; result_binding := binding (authorization p);
       result_publication_set_sha256 := publication_set_sha256 (authorization p);
       result_resource := resource p |} in
  map_err (λ _, error Corrupt) (validate_result fact) ;; Ok fact.

(** ** Storage *)

Inductive PublicationStorageErrorKind : Type :=
| StorageInvalidInput
| StorageRevisionConflict
| StorageRequestConflict
| StorageRequestReplayMissing
| StorageAlreadyExists
| StorageNotFound
| StorageJournalConflict
| StorageAdapter
| StorageClosed.

(** [From<PublicationStorageError>]. *)
Definition from_storage (k : PublicationStorageErrorKind) : PublicationError :=
  error match k with
        | StorageInvalidInput => InvalidInput
        | StorageRevisionConflict | StorageJournalConflict => RevisionConflict
        | StorageRequestConflict => RequestConflict
        | StorageAlreadyExists => AlreadyExists
        | StorageNotFound => NotFound
        | StorageRequestReplayMissing | StorageAdapter | StorageClosed => Storage
        end.

Abbreviation stored A := (result PublicationStorageErrorKind A).
Abbreviation payload_bytes := (list Byte.byte).

Record PublicationReceiptIdentity : Type := {
  actor_key : string;
  scope_key : string;
  request_id : string
}.

#[global] Instance PublicationReceiptIdentity_eq_dec : EqDecision PublicationReceiptIdentity.
Proof. solve_decision. Defined.
#[global] Instance PublicationReceiptIdentity_countable : Countable PublicationReceiptIdentity.
Proof.
  apply (inj_countable' (λ i, (actor_key i, scope_key i, request_id i))
    (λ '(a, s, r), {| actor_key := a; scope_key := s; request_id := r |})). by intros [].
Defined.

Definition receipt_identity_try_new (actor scope request : string) : stored PublicationReceiptIdentity :=
  refuse (bool_decide (actor = ""%string) || bool_decide (scope = ""%string) ||
          bool_decide (request = ""%string)) StorageInvalidInput ;;
  Ok {| actor_key := actor; scope_key := scope; request_id := request |}.

Record PublicationStorageEvent : Type := {
  event_id : string;
  topic : string;
  event_payload : payload_bytes
}.

Record PublicationStoredState : Type := {
  stored_revision : Z;
  stored_payload : payload_bytes
}.

Record PublicationJournalRecord : Type := {
  record_sequence : Z;
  record_digest : string;
  record_payload : payload_bytes
}.

Record PublicationStoredJournal : Type := {
  journal_manifest : payload_bytes;
  journal_records : list PublicationJournalRecord
}.

Inductive PublicationJournalMutation : Type :=
| Create (manifest : payload_bytes) (first_record : PublicationJournalRecord)
| Append (expected_tail_sequence : Z) (expected_tail_digest : string)
    (record : PublicationJournalRecord).

Record PublicationStorageCommit : Type := {
  commit_identity : PublicationReceiptIdentity;
  command_digest : string;
  commit_publication_id : string;
  commit_expected_revision : Z;
  commit_state : payload_bytes;
  commit_event : PublicationStorageEvent;
  commit_journal : PublicationJournalMutation
}.

Definition commit_try_new (identity : PublicationReceiptIdentity) (digest publication_id : string)
    (expected_revision : Z) (st : payload_bytes) (event : PublicationStorageEvent)
    (journal : PublicationJournalMutation) : stored PublicationStorageCommit :=
  next_revision ← ok_or (checked_add_u64 expected_revision 1) StorageInvalidInput;
  let journal_sequence :=
    match journal with
    | Create manifest first_record =>
        if (expected_revision =? 0) && negb (bool_decide (manifest = []))
        then record_sequence first_record else 0
    | Append tail_sequence tail_digest record =>
        if (tail_sequence =? expected_revision) && negb (bool_decide (tail_digest = ""%string))
        then record_sequence record else 0
    end in
  refuse (bool_decide (publication_id = ""%string) || bool_decide (st = []) ||
          bool_decide (event_id event = ""%string) || bool_decide (topic event = ""%string) ||
          bool_decide (event_payload event = []) || bool_decide (event_payload event ≠ st) ||
          negb (journal_sequence =? next_revision)) StorageInvalidInput ;;
  Ok {| commit_identity := identity; command_digest := digest;
        commit_publication_id := publication_id; commit_expected_revision := expected_revision;
        commit_state := st; commit_event := event; commit_journal := journal |}.

Record PublicationStorageReceipt : Type := {
  receipt_publication_id : string;
  receipt_revision : Z;
  receipt_events : list PublicationStorageEvent
}.

(** The trait [PublicationStorage]. *)
Class PublicationStorage (S : Type) : Type := {
  load_receipt : S → PublicationReceiptIdentity → string → stored (option PublicationStorageReceipt);
  load_state : S → string → stored (option PublicationStoredState);
  load_journal : S → string → stored (option PublicationStoredJournal);
  storage_commit : S → PublicationStorageCommit → S * stored PublicationStorageReceipt
}.

(** ** The ledger *)

Record PublicationManifest : Type := {
  aggregate_type : string;
  manifest_publication_id : string;
  manifest_intent_sha256 : string
}.

Definition MAX_PUBLICATION_DETAIL_HISTORY : nat := 200.
Definition PUBLICATION_AGGREGATE_TYPE : string := "publication".
Definition PUBLICATION_EVENT_TOPIC : string := "publication.state.v1".
Definition INTERNAL_ACTOR_KEY : string := "winwincode.publication.system.v1".
Definition CROCKFORD_BASE32 : string := "0123456789ABCDEFGHJKMNPQRSTVWXYZ".

(** What the coordinator uses of [serde_json] and [sha2]: [sha256_json] is the hexadecimal
    hash of a tuple, [digest_u128] the first 16 bytes of one as a big-endian integer, and
    [sha256_hex] the hexadecimal hash of bytes. *)
Record PublicationCodec : Type := {
  json_publication : Frame.Json Publication;
  json_manifest : Frame.Json PublicationManifest;
  sha256_json : HashInput → string;
  digest_u128 : HashInput → Z;
  sha256_hex : payload_bytes → string
}.

(** The loop of [derived_request_id]: the lowest five bits are the last character. *)
Fixpoint crockford (n : nat) (value : Z) (acc : string) : string :=
  match n with
  | O => acc
  | S n => crockford n (Z.shiftr value 5)
             (String (default "0"%char (bytes CROCKFORD_BASE32 !! Z.to_nat (Z.land value 31))) acc)
  end.

Section ledger.
Context (c : PublicationCodec).

Definition derived_request_id (x : HashInput) : string := "req_" ++ crockford 26 (digest_u128 c x) "".

Definition canonical_sha256_bytes (b : payload_bytes) : string := "sha256:" ++ sha256_hex c b.

Definition encode_publication (p : Publication) : outcome payload_bytes :=
  map_err (λ _, error Corrupt) (Frame.to_vec (json_publication c) p).

Definition decode_publication (b : payload_bytes) : outcome Publication :=
  p ← map_err (λ _, error Corrupt) (Frame.from_slice (json_publication c) b);
  validate (sha256_json c) p ;; Ok p.

Definition durable_event (p : Publication) (st : payload_bytes) : PublicationStorageEvent :=
  {| event_id := ("publication:event:" ++ id p ++ ":" ++ decimal (revision p) ++ ":" ++
                  canonical_sha256_bytes st)%string;
     topic := PUBLICATION_EVENT_TOPIC; event_payload := st |}.

Definition publication_from_receipt (r : PublicationStorageReceipt) : outcome Publication :=
  match receipt_events r with
  | [event] =>
      refuse (bool_decide (topic event ≠ PUBLICATION_EVENT_TOPIC)) (error Corrupt) ;;
      p ← decode_publication (event_payload event);
      refuse (bool_decide (receipt_publication_id r ≠ id p) || negb (receipt_revision r =? revision p))
        (error Corrupt) ;;
      Ok p
  | _ => Err (error Corrupt)
  end.

Definition internal_receipt_identity (p : Publication) (event_digest : string) :
    outcome PublicationReceiptIdentity :=
  map_err from_storage
    (receipt_identity_try_new INTERNAL_ACTOR_KEY
       ("winwincode.publication.scope.v1:" ++ repository_scope_sha256 (authorization p))
       (derived_request_id (HashReceipt (id p) (revision p) event_digest))).

Definition first_incomplete (p : Publication) : option nat :=
  fst <$> list_find (λ s, step_state s ≠ StepSucceeded) (steps p).

(** The indices at which the steps differ. *)
Definition changed_steps (previous next : Publication) : list nat :=
  omap (λ '(i, (l, r)), if bool_decide (l = r) then None else Some i)
    (imap pair (zip (steps previous) (steps next))).

Definition state_of_step (p : Publication) (i : nat) : PublicationStepState :=
  from_option step_state StepPending (steps p !! i).

(** [matches!(changed_steps, [index] if ..)]. *)
Definition one_current_step_changed (previous next : Publication) : bool :=
  match changed_steps previous next with
  | [index] =>
      bool_decide (Some index = first_incomplete previous) &&
      bool_decide (state_of_step next index ≠ StepPending) &&
      bool_decide (state_of_step previous index ≠ StepSucceeded)
  | _ => false
  end.

Definition changed_rejected (previous next : Publication) : bool :=
  match changed_steps previous next with
  | index :: _ => bool_decide (state_of_step next index = StepRejected)
  | [] => false
  end.

Definition same_progress (previous next : Publication) : bool :=
  bool_decide (changed_steps previous next = []) && bool_decide (resource previous = resource next).

(** The immutable facts of two publications, one the successor of the other. *)
Definition immutable_facts_kept (previous next : Publication) : bool :=
  bool_decide (checked_add_u64 (revision previous) 1 = Some (revision next)) &&
  (updated_at_millis previous <=? updated_at_millis next) && bool_decide (id previous = id next) &&
  bool_decide (authorization previous = authorization next) &&
  bool_decide (intent_sha256 previous = intent_sha256 next) &&
  bool_decide (length (steps previous) = length (steps next)) &&
  forallb (λ '(l, r), bool_decide (step_operation l = step_operation r))
    (zip (steps previous) (steps next)) &&
  negb (is_terminal (state previous)).

Definition transition_allowed (previous next : Publication) : bool :=
  match state next with
  | Pending => false
  | Publishing =>
      bool_decide (cancellation_reason next = None) &&
      match state previous with
      | Pending => same_progress previous next
      | Publishing =>
          same_progress previous next ||
          one_current_step_changed previous next && negb (changed_rejected previous next)
      | _ => false
      end
  | Published =>
      bool_decide (state previous = Publishing) && same_progress previous next &&
      bool_decide (cancellation_reason next = None)
  | Cancelled =>
      (bool_decide (state previous = Pending) || bool_decide (state previous = Publishing)) &&
      same_progress previous next && bool_decide (cancellation_reason previous = None) &&
      bool_decide (is_Some (cancellation_reason next))
  | Failed =>
      bool_decide (state previous = Publishing) && one_current_step_changed previous next &&
      changed_rejected previous next && bool_decide (cancellation_reason next = None)
  end.

Definition validate_publication_transition (previous next : Publication) : outcome () :=
  refuse (negb (immutable_facts_kept previous next)) (error Corrupt) ;;
  refuse (negb (transition_allowed previous next)) (error Corrupt).

(** The loop of [load_publication_history]; [index] counts the records read. *)
Fixpoint history_loop (publication_id intent : string) (limit : nat) (index : Z)
    (records : list PublicationJournalRecord) (previous : option Publication)
    (history : list Publication) (truncated : bool) : outcome (list Publication * bool) :=
  match records with
  | [] => Ok (history, truncated)
  | record :: records =>
      expected ← ok_or (checked_add_u64 index 1) (error Corrupt);
      historical ← decode_publication (record_payload record);
      refuse (negb (record_sequence record =? expected) ||
              bool_decide (record_digest record ≠ canonical_sha256_bytes (record_payload record)) ||
              bool_decide (id historical ≠ publication_id) ||
              negb (revision historical =? record_sequence record) ||
              bool_decide (intent_sha256 historical ≠ intent)) (error Corrupt) ;;
      match previous with
      | Some previous => validate_publication_transition previous historical
      | None => refuse (negb (revision historical =? 1) || bool_decide (state historical ≠ Pending))
                  (error Corrupt)
      end ;;
      let '(history, truncated) :=
        match limit with
        | O => (history, truncated)
        | _ => if bool_decide (length history = limit) then (tail history ++ [historical], true)
               else (history ++ [historical], truncated)
        end in
      history_loop publication_id intent limit expected records (Some historical) history truncated
  end.

Context {St : Type} `{!PublicationStorage St}.

Definition load_publication_history (storage : St) (publication_id : string) (limit : nat) :
    outcome (Publication * list Publication * bool) :=
  refuse (negb (is_canonical_prefixed_id publication_id "pub_")) (error InvalidInput) ;;
  stored ← map_err from_storage (load_state storage publication_id);
  stored ← ok_or stored (error NotFound);
  publication ← decode_publication (stored_payload stored);
  refuse (bool_decide (id publication ≠ publication_id) ||
          negb (stored_revision stored =? revision publication)) (error Corrupt) ;;
  journal ← map_err from_storage (load_journal storage publication_id);
  journal ← ok_or journal (error Corrupt);
  manifest ← map_err (λ _, error Corrupt) (Frame.from_slice (json_manifest c) (journal_manifest journal));
  refuse (bool_decide (aggregate_type manifest ≠ PUBLICATION_AGGREGATE_TYPE) ||
          bool_decide (manifest_publication_id manifest ≠ publication_id) ||
          bool_decide (manifest_intent_sha256 manifest ≠ intent_sha256 publication) ||
          negb (Z.of_nat (length (journal_records journal)) =? revision publication)) (error Corrupt) ;;
  '(history, truncated) ← history_loop publication_id (manifest_intent_sha256 manifest) limit 0
     (journal_records journal) None [] false;
  tail ← ok_or (last (journal_records journal)) (error Corrupt);
  refuse (bool_decide (record_payload tail ≠ stored_payload stored)) (error Corrupt) ;;
  Ok (publication, history, truncated).

Definition load_publication (storage : St) (publication_id : string) : outcome Publication :=
  '(publication, _, _) ← load_publication_history storage publication_id O;
  Ok publication.

(** *** What a reader is shown *)

Record PublicationStepDetail : Type := {
  detail_kind : PublicationOperationKind;
  detail_state : PublicationStepState;
  outcome_code : option string;
  detail_resource : option PublicationResourceFact;
  detail_remote_write : option bool
}.

Definition publication_step_detail (s : PublicationStep) : PublicationStepDetail :=
  {| detail_kind := op_kind (step_operation s); detail_state := step_state s; outcome_code := step_code s;
     detail_resource := step_resource s; detail_remote_write := remote_write_performed s |}.

Record PublicationStatusHistory : Type := {
  history_revision : Z;
  history_state : PublicationState;
  history_updated_at_millis : Z;
  history_steps : list PublicationStepDetail
}.

Record PublicationDetail : Type := {
  detail_publication : Publication;
  detail_history : list PublicationStatusHistory;
  history_truncated : bool
}.

Definition status_history (p : Publication) : PublicationStatusHistory :=
  {| history_revision := revision p; history_state := state p;
     history_updated_at_millis := updated_at_millis p;
     history_steps := publication_step_detail <$> steps p |}.

(** [PublicationReadLedger::detail]. *)
Definition detail (storage : St) (publication_id : string) : outcome PublicationDetail :=
  '(publication, history, truncated) ←
     load_publication_history storage publication_id MAX_PUBLICATION_DETAIL_HISTORY;
  Ok {| detail_publication := publication; detail_history := status_history <$> history;
        history_truncated := truncated |}.

(** [PublicationLedger::replay]. *)
Definition replay (storage : St) (identity : PublicationReceiptIdentity) (digest : string) :
    outcome (option Publication) :=
  receipt ← map_err from_storage (load_receipt storage identity digest);
  match receipt with
  | None => Ok None
  | Some receipt => p ← publication_from_receipt receipt; Ok (Some p)
  end.

Definition exists_publication (storage : St) (publication_id : string) : outcome bool :=
  st ← map_err from_storage (load_state storage publication_id);
  Ok (bool_decide (is_Some st)).

Record PublicationCommandContext : Type := {
  receipt_identity : PublicationReceiptIdentity;
  context_command_digest : string;
  expected_revision : Z;
  context_occurred_at_millis : Z
}.

(** What the first commit of a publication is made of. *)
Definition create_commit (x : PublicationCommandContext) (p : Publication) :
    outcome PublicationStorageCommit :=
  st ← encode_publication p;
  manifest ← map_err (λ _, error Corrupt) (Frame.to_vec (json_manifest c)
    {| aggregate_type := PUBLICATION_AGGREGATE_TYPE; manifest_publication_id := id p;
       manifest_intent_sha256 := intent_sha256 p |});
  map_err from_storage
    (commit_try_new (receipt_identity x) (context_command_digest x) (id p) 0 st (durable_event p st)
       (Create manifest {| record_sequence := 1; record_digest := canonical_sha256_bytes st;
                           record_payload := st |})).

Definition create (storage : St) (x : PublicationCommandContext) (p : Publication) :
    St * outcome Publication :=
  match create_commit x p with
  | Err e => (storage, Err e)
  | Ok commit =>
      let '(storage, r) := storage_commit storage commit in
      (storage,
       match r with
       | Ok receipt => publication_from_receipt receipt
       | Err e =>
           match e with
           | StorageAlreadyExists | StorageRevisionConflict =>
               replayed ← replay storage (receipt_identity x) (context_command_digest x);
               ok_or replayed (from_storage e)
           | _ => Err (from_storage e)
           end
       end)
  end.

(** One attempt of [append]: the replayed publication, or the commit to try. *)
Definition append_attempt (storage : St) (current next : Publication) (st : payload_bytes)
    (identity : PublicationReceiptIdentity) (digest : string) :
    outcome (Publication + PublicationStorageCommit) :=
  replayed ← replay storage identity digest;
  match replayed with
  | Some p => Ok (inl p)
  | None =>
      journal ← map_err from_storage (load_journal storage (id next));
      journal ← ok_or journal (error Corrupt);
      tail ← ok_or (last (journal_records journal)) (error Corrupt);
      refuse (negb (record_sequence tail =? revision current) ||
              negb (revision next =? revision current + 1)) (error Corrupt) ;;
      commit ← map_err from_storage
        (commit_try_new identity digest (id next) (revision current) st (durable_event next st)
           (Append (record_sequence tail) (record_digest tail)
              {| record_sequence := revision next; record_digest := canonical_sha256_bytes st;
                 record_payload := st |}));
      Ok (inr commit)
  end.

Fixpoint append_loop (attempts : nat) (storage : St) (current next : Publication) (st : payload_bytes)
    (identity : PublicationReceiptIdentity) (digest : string) : St * outcome Publication :=
  match attempts with
  | O => (storage, Err (from_storage StorageAdapter))
  | S attempts =>
      match append_attempt storage current next st identity digest with
      | Err e => (storage, Err e)
      | Ok (inl p) => (storage, Ok p)
      | Ok (inr commit) =>
          let '(storage, r) := storage_commit storage commit in
          match r with
          | Ok receipt => (storage, publication_from_receipt receipt)
          | Err StorageRevisionConflict | Err StorageJournalConflict =>
              append_loop attempts storage current next st identity digest
          | Err e => (storage, Err (from_storage e))
          end
      end
  end.

(** [PublicationLedger::append]. *)
Definition append (storage : St) (current next : Publication)
    (command_receipt : option (PublicationReceiptIdentity * string)) : St * outcome Publication :=
  match (st ← encode_publication next;
         let event_digest := canonical_sha256_bytes st in
         match command_receipt with
         | None => identity ← internal_receipt_identity next event_digest;
                   Ok (st, identity, event_digest)
         | Some (identity, digest) => Ok (st, identity, digest)
         end) with
  | Err e => (storage, Err e)
  | Ok (st, identity, digest) => append_loop 64 storage current next st identity digest
  end.

Definition replay_or_already_exists (storage : St) (x : PublicationCommandContext) : outcome Publication :=
  replayed ← replay storage (receipt_identity x) (context_command_digest x);
  ok_or replayed (error AlreadyExists).
End ledger.

(** ** The coordinator *)

Class PublicationPolicyAudit (A : Type) : Type :=
  audit_record : A → PublicationPolicyDecision → A * result () ().

Record PublicationCoordinator (St P A : Type) : Type := {
  ledger : St;
  port : P;
  audit : A
}.
Arguments ledger {St P A} _.
Arguments port {St P A} _.
Arguments audit {St P A} _.

Record PublicationPublishCommand : Type := {
  publish_publication_id : string;
  publish_delivery_id : string;
  publish_candidate_digest : string;
  publish_target : PublicationTarget
}.

Definition publish_command_try_new (publication_id delivery digest : string) (t : PublicationTarget) :
    outcome PublicationPublishCommand :=
  map_err (λ _, error InvalidInput) (validate_target t) ;;
  refuse (negb (is_canonical_prefixed_id publication_id "pub_") ||
          negb (is_canonical_prefixed_id delivery "dlv_") || negb (canonical_sha256 digest))
    (error InvalidInput) ;;
  Ok {| publish_publication_id := publication_id; publish_delivery_id := delivery;
        publish_candidate_digest := digest; publish_target := t |}.

Record PublicationCancelCommand : Type := {
  cancel_publication_id : string;
  cancel_reason : string
}.

Definition cancel_command_try_new (publication_id reason : string) : outcome PublicationCancelCommand :=
  refuse (negb (is_canonical_prefixed_id publication_id "pub_") || negb (bounded_text reason 2000))
    (error InvalidInput) ;;
  Ok {| cancel_publication_id := publication_id; cancel_reason := reason |}.

Definition command_context_try_new (identity : PublicationReceiptIdentity) (digest : string)
    (expected_revision occurred_at : Z) : outcome PublicationCommandContext :=
  refuse (negb (canonical_sha256 digest) || (MAX_SAFE_INTEGER <? expected_revision) ||
          (occurred_at =? 0) || (MAX_SAFE_INTEGER <? occurred_at)) (error InvalidInput) ;;
  Ok {| receipt_identity := identity; context_command_digest := digest;
        expected_revision := expected_revision; context_occurred_at_millis := occurred_at |}.

Definition validate_publish (x : PublicationCommandContext) (command : PublicationPublishCommand)
    (a : PublicationAuthorization) : outcome () :=
  refuse (negb (expected_revision x =? 0)) (error RevisionConflict) ;;
  refuse (bool_decide (publish_delivery_id command ≠ delivery_id (binding a)) ||
          bool_decide (publish_candidate_digest command ≠ candidate_digest a) ||
          bool_decide (publish_target command ≠ target a) ||
          (context_occurred_at_millis x <? approved_at_millis a)) (error StaleAuthority).

Inductive ApplyProgress : Type :=
| Continue (p : Publication)
| Stop (p : Publication).

Section coordinator.
Context (c : PublicationCodec).
Context {St P A : Type} `{!PublicationStorage St, !PublicationPort P, !PublicationPolicyAudit A}.

Abbreviation Coordinator := (PublicationCoordinator St P A).
Abbreviation action T := (act Coordinator PublicationError T).

Definition with_ledger (x : Coordinator) (s : St) : Coordinator :=
  {| ledger := s; port := port x; audit := audit x |}.

Definition with_port (x : Coordinator) (p : P) : Coordinator :=
  {| ledger := ledger x; port := p; audit := audit x |}.

Definition with_audit (x : Coordinator) (a : A) : Coordinator :=
  {| ledger := ledger x; port := port x; audit := a |}.

Definition on_ledger {T} (f : St → St * outcome T) : action T :=
  λ x, let '(s, r) := f (ledger x) in (with_ledger x s, r).

(** A call of the port, whose error is part of the answer. *)
Definition on_port {T} (f : P → P * T) : action T :=
  λ x, let '(p, r) := f (port x) in (with_port x p, Ok r).

Definition on_audit (decision : PublicationPolicyDecision) : action () :=
  λ x, let '(a, r) := audit_record (audit x) decision in
       (with_audit x a, map_err (λ _, error AuditUnavailable) r).

Definition authorize (publication_id : string) (a : PublicationAuthorization)
    (context : PublicationPolicyContext) (policy : RepositoryPublicationPolicy) : action () :=
  decision ← attempt (map_err (λ _, error StaleAuthority)
               (evaluate (sha256_json c) policy context publication_id a));
  on_audit decision ;;
  attempt (refuse (bool_decide (effect decision = Deny)) (policy_denied decision)).

Definition publish (x : PublicationCommandContext) (command : PublicationPublishCommand)
    (a : PublicationAuthorization) (context : PublicationPolicyContext)
    (policy : RepositoryPublicationPolicy) : action Publication :=
  replayed ← attempt_with (λ y, replay c (ledger y) (receipt_identity x) (context_command_digest x));
  match replayed with
  | Some p => mret p
  | None =>
      attempt (validate_publish x command a) ;;
      attempt (refuse (bool_decide (ctx_request_id context ≠ request_id (receipt_identity x)) ||
                       negb (observed_at_millis (evidence context) =? context_occurred_at_millis x))
                 (error StaleAuthority)) ;;
      authorize (publish_publication_id command) a context policy ;;
      publication ← attempt (initial (sha256_json c) (publish_publication_id command) a
                               (context_occurred_at_millis x));
      present ← attempt_with (λ y : Coordinator, exists_publication (ledger y) (id publication));
      if (present : bool) then attempt_with (λ y, replay_or_already_exists c (ledger y) x)
      else on_ledger (λ s, create c s x publication)
  end.

Definition transition_with_receipt (current : Publication) (occurred_at : Z)
    (receipt : option (PublicationReceiptIdentity * string))
    (change : Publication → outcome Publication) : action Publication :=
  revision ← attempt (ok_or (checked_add_u64 (revision current) 1) (error RevisionConflict));
  next ← attempt (change {| id := id current; revision := revision; state := state current;
                            authorization := authorization current;
                            intent_sha256 := intent_sha256 current; steps := steps current;
                            resource := resource current;
                            cancellation_reason := cancellation_reason current;
                            updated_at_millis := occurred_at |});
  attempt (validate (sha256_json c) next) ;;
  on_ledger (λ s, append c s current next receipt).

Definition transition (current : Publication) (occurred_at : Z)
    (change : Publication → outcome Publication) : action Publication :=
  transition_with_receipt current occurred_at None change.

Definition transition_found (current : Publication) (occurred_at : Z) (index : nat)
    (r : option PublicationResourceFact) : action Publication :=
  attempt (validate_resource_target current r) ;;
  transition current occurred_at (succeed_step index r true).

Definition apply_absent_operation (current : Publication) (occurred_at : Z)
    (op : PublicationOperation) (index : nat) : action ApplyProgress :=
  applying ← transition current occurred_at (mark_applying index);
  answer ← on_port (λ p, apply_operation p op);
  let mutation := match answer with Ok m => m | Err code => UnknownMutation (operation_key op) code end in
  attempt (map_err (λ _, error PortContract) (validate_mutation op mutation)) ;;
  match mutation with
  | Applied _ _ r write =>
      attempt (validate_resource_target applying r) ;;
      next ← transition applying occurred_at (succeed_step index r write);
      mret (Continue next)
  | UnknownMutation _ code =>
      next ← transition applying occurred_at (mark_unknown index code); mret (Stop next)
  | RejectedMutation _ code =>
      next ← transition applying occurred_at (reject_step index code); mret (Stop next)
  end.

(** The loop of [resume]; [None] is running out of fuel.  Every turn that goes on has made one
    more step succeed, so five turns are enough for four steps. *)
Fixpoint resume_loop (fuel : nat) (current : Publication) (occurred_at : Z) : action (option Publication) :=
  match fuel with
  | O => mret None
  | S fuel =>
      match first_incomplete current with
      | None => p ← transition current occurred_at finish_published; mret (Some p)
      | Some index =>
          match steps current !! index with
          | None => attempt (Err (error Corrupt))
          | Some step =>
              let op := step_operation step in
              answer ← on_port (λ p, lookup_operation p op);
              let observation :=
                match answer with Ok o => o | Err code => UnknownObservation (operation_key op) code end in
              attempt (map_err (λ _, error PortContract) (validate_observation op observation)) ;;
              match observation with
              | Found _ _ r =>
                  current ← transition_found current occurred_at index r;
                  resume_loop fuel current occurred_at
              | UnknownObservation _ code =>
                  p ← transition current occurred_at (mark_unknown index code); mret (Some p)
              | Conflict _ code =>
                  p ← transition current occurred_at (reject_step index code); mret (Some p)
              | Absent _ =>
                  progress ← apply_absent_operation current occurred_at op index;
                  match progress with
                  | Continue next => resume_loop fuel next occurred_at
                  | Stop next => mret (Some next)
                  end
              end
          end
      end
  end.

Definition authorize_resume (p : Publication) (occurred_at : Z) (context : PublicationPolicyContext)
    (policy : RepositoryPublicationPolicy) : action () :=
  attempt (refuse ((occurred_at <? updated_at_millis p) || (MAX_SAFE_INTEGER <? occurred_at))
             (error InvalidInput)) ;;
  attempt (refuse (negb (observed_at_millis (evidence context) =? occurred_at)) (error StaleAuthority)) ;;
  authorize (id p) (authorization p) context policy.

Definition resume (publication_id : string) (occurred_at : Z) (context : PublicationPolicyContext)
    (policy : RepositoryPublicationPolicy) : action (option Publication) :=
  current ← attempt_with (λ y, load_publication c (ledger y) publication_id);
  authorize_resume current occurred_at context policy ;;
  if is_terminal (state current) then mret (Some current)
  else
    current ← (if bool_decide (state current = Pending)
               then transition current occurred_at begin_publishing else mret current);
    resume_loop 5 current occurred_at.

Definition cancel (x : PublicationCommandContext) (command : PublicationCancelCommand) :
    action Publication :=
  replayed ← attempt_with (λ y, replay c (ledger y) (receipt_identity x) (context_command_digest x));
  match replayed with
  | Some p => mret p
  | None =>
      current ← attempt_with (λ y, load_publication c (ledger y) (cancel_publication_id command));
      attempt (refuse (negb (expected_revision x =? revision current)) (error RevisionConflict)) ;;
      attempt (refuse (context_occurred_at_millis x <? updated_at_millis current) (error InvalidInput)) ;;
      attempt (refuse (is_terminal (state current)) (error WrongState)) ;;
      transition_with_receipt current (context_occurred_at_millis x)
        (Some (receipt_identity x, context_command_digest x)) (cancel_with (cancel_reason command))
  end.
End coordinator.
