(* ===== verification/PublicationLedger.v ===== *)
(** * Publication ledger: what is stored loads again

    The ledger of [Publication] over a storage that keeps its contract.  The contents of such
    a storage are tables of states, journals and receipts; the file gives their invariant,
    that every journal is a history of publications in which each follows from the one
    before, and shows that creating and appending keep it and that loading returns the
    history's last publication. *)

From Stdlib Require Import Ascii String.
From S2P Require Import Prelude Text Numerals Transaction PublicationFacts Publication.
From S2P Require Frame.
Local Open Scope Z_scope.

(** ** What the storage promises *)

(** The tables behind the storage. *)
Record Contents : Type := {
  states : gmap string PublicationStoredState;
  journals : gmap string PublicationStoredJournal;
  receipts : gmap PublicationReceiptIdentity (string * PublicationStorageReceipt)
}.

Definition receipt_of (k : PublicationStorageCommit) : PublicationStorageReceipt :=
  {| receipt_publication_id := commit_publication_id k;
     receipt_revision := commit_expected_revision k + 1; receipt_events := [commit_event k] |}.

Definition journal_after (k : PublicationStorageCommit) (j : option PublicationStoredJournal) :
    option PublicationStoredJournal :=
  match commit_journal k, j with
  | Create manifest record, None =>
      Some {| journal_manifest := manifest; journal_records := [record] |}
  | Append sequence digest record, Some j =>
      match last (journal_records j) with
      | Some tail =>
          if (record_sequence tail =? sequence) && bool_decide (record_digest tail = digest)
          then Some {| journal_manifest := journal_manifest j;
                       journal_records := journal_records j ++ [record] |}
          else None
      | None => None
      end
  | _, _ => None
  end.

(** The contents after a commit, when its revision and journal fit. *)
Definition committed (d : Contents) (k : PublicationStorageCommit) : option Contents :=
  let key := commit_publication_id k in
  if default 0 (stored_revision <$> states d !! key) =? commit_expected_revision k then
    match journal_after k (journals d !! key) with
    | Some j =>
        Some {| states := <[key := {| stored_revision := commit_expected_revision k + 1;
                                      stored_payload := commit_state k |}]> (states d);
                journals := <[key := j]> (journals d);
                receipts := <[commit_identity k := (command_digest k, receipt_of k)]> (receipts d) |}
    | None => None
    end
  else None.

(** A read answers from the contents or fails; a commit under a known identity is answered
    with the first receipt, a new one happens entirely or fails without effect. *)
Class PublicationStorageLaws (St : Type) `{!PublicationStorage St} : Type := {
  contents : St → Contents;
  load_state_reads : ∀ s i o, load_state s i = Ok o → o = states (contents s) !! i;
  load_journal_reads : ∀ s i o, load_journal s i = Ok o → o = journals (contents s) !! i;
  load_receipt_reads : ∀ s i d r, load_receipt s i d = Ok (Some r) → receipts (contents s) !! i = Some (d, r);
  commit_done : ∀ s k s' r, storage_commit s k = (s', Ok r) →
    receipts (contents s) !! commit_identity k = Some (command_digest k, r) ∧ contents s' = contents s ∨
    committed (contents s) k = Some (contents s') ∧ r = receipt_of k;
  commit_failed : ∀ s k s' e, storage_commit s k = (s', Err e) → contents s' = contents s
}.

(** What the ledger relies on of [serde_json] and [sha2]: a decoded value is the one that was
    encoded, and two encodings of publications do not share a hash. *)
Record codec_ok (c : PublicationCodec) : Prop := {
  publication_json_ok : Frame.json_round_trip (json_publication c);
  manifest_json_ok : Frame.json_round_trip (json_manifest c);
  no_collision : ∀ p q b b', encode_publication c p = Ok b → encode_publication c q = Ok b' →
    canonical_sha256_bytes c b = canonical_sha256_bytes c b' → b = b'
}.

(** ** Histories *)

Section ledger.
Context (c : PublicationCodec) (c_ok : codec_ok c).

(** A history: the first publication is pending at revision 1, each other one follows from
    the one before by a transition that validates. *)
Definition link (previous : option Publication) (p : Publication) : Prop :=
  match previous with
  | Some q => validate_publication_transition q p = Ok tt
  | None => revision p = 1 ∧ state p = Pending
  end.

Fixpoint linked (previous : option Publication) (h : list Publication) : Prop :=
  match h with
  | [] => True
  | p :: h => link previous p ∧ linked (Some p) h
  end.

(** The journal record of a publication. *)
Record entry (i intent : string) (r : PublicationJournalRecord) (p : Publication) : Prop := {
  entry_payload : encode_publication c p = Ok (record_payload r);
  entry_sequence : record_sequence r = revision p;
  entry_digest : record_digest r = canonical_sha256_bytes c (record_payload r);
  entry_valid : validate (sha256_json c) p = Ok tt;
  entry_id : id p = i;
  entry_intent : intent_sha256 p = intent
}.

Definition manifest_of (i intent : string) : PublicationManifest :=
  {| aggregate_type := PUBLICATION_AGGREGATE_TYPE; manifest_publication_id := i;
     manifest_intent_sha256 := intent |}.

(** [h] is the history kept under [i]. *)
Record history_at (d : Contents) (i : string) (h : list Publication) : Prop := {
  ha_state : ∃ p b, last h = Some p ∧ encode_publication c p = Ok b ∧
    states d !! i = Some {| stored_revision := revision p; stored_payload := b |};
  ha_journal : ∃ m rs intent,
    journals d !! i = Some {| journal_manifest := m; journal_records := rs |} ∧
    Frame.from_slice (json_manifest c) m = Ok (manifest_of i intent) ∧ Forall2 (entry i intent) rs h;
  ha_linked : linked None h
}.

(** [p] is, or was, the publication kept under its identity. *)
Definition kept (d : Contents) (p : Publication) : Prop := ∃ h, history_at d (id p) h ∧ p ∈ h.

(** The invariant of the tables. *)
Record sound (d : Contents) : Prop := {
  sound_ids : ∀ i, (∃ h, history_at d i h) ∨ states d !! i = None ∧ journals d !! i = None;
  sound_receipts : ∀ i g r, receipts d !! i = Some (g, r) → ∃ p,
    publication_from_receipt c r = Ok p ∧ kept d p ∧
    (actor_key i = INTERNAL_ACTOR_KEY → ∃ b, encode_publication c p = Ok b ∧ g = canonical_sha256_bytes c b)
}.

(** *** Encoding *)

Lemma decode_Ok b p : decode_publication c b = Ok p → validate (sha256_json c) p = Ok tt.
Proof. unfold decode_publication. intros H. inv_result. by match goal with u : () |- _ => destruct u end. Qed.

Lemma encode_decode p b :
  encode_publication c p = Ok b → validate (sha256_json c) p = Ok tt → decode_publication c b = Ok p.
Proof.
  unfold encode_publication, decode_publication. intros He Hv. apply map_err_Ok in He.
  rewrite (publication_json_ok _ c_ok _ _ He). cbn [mbind result_bind map_err]. by rewrite Hv.
Qed.

Lemma encode_inj p q b : encode_publication c p = Ok b → encode_publication c q = Ok b → p = q.
Proof.
  unfold encode_publication. intros Hp%map_err_Ok Hq%map_err_Ok.
  apply (publication_json_ok _ c_ok) in Hp, Hq. congruence.
Qed.

Lemma receipt_Ok r p :
  publication_from_receipt c r = Ok p →
  ∃ e, receipt_events r = [e] ∧ decode_publication c (event_payload e) = Ok p ∧
    receipt_publication_id r = id p ∧ receipt_revision r = revision p.
Proof.
  unfold publication_from_receipt. destruct (receipt_events r) as [|e [|]]; try done.
  intros H. inv_result. split_bools. exists e. split_and!; try done. lia.
Qed.

(** *** Transitions *)

Lemma transition_Ok p q :
  validate_publication_transition p q = Ok tt →
  immutable_facts_kept p q = true ∧ transition_allowed p q = true.
Proof. unfold validate_publication_transition. intros H. inv_result. by split_bools. Qed.

Lemma transition_facts p q :
  validate_publication_transition p q = Ok tt →
  revision q = revision p + 1 ∧ id q = id p ∧ intent_sha256 q = intent_sha256 p.
Proof.
  intros [H _]%transition_Ok. unfold immutable_facts_kept in H. split_bools.
  inv_result. by split_and!.
Qed.

Lemma linked_app previous h k :
  linked previous (h ++ k) ↔ linked previous h ∧ linked (from_option Some previous (last h)) k.
Proof.
  revert previous. induction h as [|p h IH]; intros previous; simpl; [tauto|].
  rewrite IH, last_cons. destruct (last h); simpl; tauto.
Qed.

Lemma linked_revision previous h k p :
  linked previous h → h !! k = Some p → revision p = from_option revision 0 previous + Z.of_nat k + 1.
Proof.
  revert previous k. induction h as [|q h IH]; intros previous k; simpl; [done|].
  intros [Hl Hh]. assert (revision q = from_option revision 0 previous + 1) as Hq.
  { destruct previous as [o|]; simpl in *; [by apply transition_facts in Hl as (-> & _)|lia]. }
  destruct k as [|k]; simpl; [intros [= <-]; lia|]. intros Hp. specialize (IH _ _ Hh Hp). simpl in IH. lia.
Qed.

Lemma history_member d i h p :
  history_at d i h → p ∈ h →
  ∃ r intent, entry i intent r p ∧ 1 ≤ revision p.
Proof.
  intros [_ (m & rs & intent & _ & _ & He) Hl] Hp. apply list_elem_of_lookup in Hp as [k Hk].
  apply (linked_revision _ _ _ _ Hl) in Hk as Hr.
  destruct (Forall2_lookup_r _ _ _ _ _ He Hk) as (r & _ & ?). exists r, intent. simpl in Hr. split; [done|lia].
Qed.

Lemma kept_valid d p : kept d p → validate (sha256_json c) p = Ok tt.
Proof. intros (h & Hh & Hp). by destruct (history_member _ _ _ _ Hh Hp) as (r & intent & [] & _). Qed.

(** The publication at the revision of the stored state is the last one. *)
Lemma history_current d i h p s :
  history_at d i h → p ∈ h → states d !! i = Some s → stored_revision s = revision p →
  last h = Some p ∧ encode_publication c p = Ok (stored_payload s).
Proof.
  intros Hh Hp Hs Hr. destruct (ha_state _ _ _ Hh) as (q & b & Hq & Hb & Hs'). simplify_eq/=.
  apply list_elem_of_lookup in Hp as [k Hk]. pose proof (ha_linked _ _ _ Hh) as Hl.
  assert (h !! pred (length h) = Some q) as Hlast by (by rewrite <-last_lookup).
  apply (linked_revision _ _ _ _ Hl) in Hk as H1, Hlast as H2. assert (k = pred (length h)) as -> by lia.
  by simplify_eq.
Qed.

Lemma history_other d d' i h :
  states d' !! i = states d !! i → journals d' !! i = journals d !! i →
  history_at d i h → history_at d' i h.
Proof. intros Hs Hj [H1 H2 H3]. split; [by rewrite Hs|by rewrite Hj|done]. Qed.

(** *** Commits *)

Lemma commit_new_Ok i g pid rev st e j k :
  commit_try_new i g pid rev st e j = Ok k →
  k = {| commit_identity := i; command_digest := g; commit_publication_id := pid;
         commit_expected_revision := rev; commit_state := st; commit_event := e; commit_journal := j |}.
Proof. unfold commit_try_new. intros H. by inv_result. Qed.

Lemma committed_Some d k d' :
  committed d k = Some d' →
  default 0 (stored_revision <$> states d !! commit_publication_id k) = commit_expected_revision k ∧
  ∃ j, journal_after k (journals d !! commit_publication_id k) = Some j ∧
    d' = {| states := <[commit_publication_id k :=
                {| stored_revision := commit_expected_revision k + 1; stored_payload := commit_state k |}]>
              (states d);
            journals := <[commit_publication_id k := j]> (journals d);
            receipts := <[commit_identity k := (command_digest k, receipt_of k)]> (receipts d) |}.
Proof.
  unfold committed. destruct (Z.eqb_spec (default 0 (stored_revision <$> states d !! commit_publication_id k))
    (commit_expected_revision k)) as [->|]; [|done].
  destruct (journal_after _ _) as [j|]; [|done]. intros [= <-]. split; [done|]. by exists j.
Qed.

(** What a commit of [q] is made of. *)
Record stores (k : PublicationStorageCommit) (q : Publication) : Prop := {
  st_id : commit_publication_id k = id q;
  st_revision : commit_expected_revision k + 1 = revision q;
  st_state : encode_publication c q = Ok (commit_state k);
  st_event : commit_event k = durable_event c q (commit_state k);
  st_valid : validate (sha256_json c) q = Ok tt;
  st_internal : actor_key (commit_identity k) = INTERNAL_ACTOR_KEY →
    command_digest k = canonical_sha256_bytes c (commit_state k)
}.

Lemma stored_receipt k q : stores k q → publication_from_receipt c (receipt_of k) = Ok q.
Proof.
  intros [Hi Hr Hs He Hv _]. unfold publication_from_receipt. simpl. rewrite He, Hi, Hr. simpl.
  rewrite (encode_decode _ _ Hs Hv). cbn [mbind result_bind].
  by rewrite bool_decide_eq_false_2, Z.eqb_refl by naive_solver.
Qed.

(** A history is determined by the tables. *)
Lemma history_unique d i h h' : history_at d i h → history_at d i h' → h = h'.
Proof.
  intros Hh Hh'. destruct (ha_journal _ _ _ Hh) as (m & rs & intent & Hj & Hm & He).
  destruct (ha_journal _ _ _ Hh') as (m' & rs' & intent' & Hj' & Hm' & He'). simplify_eq.
  clear -c_ok He He'. revert h' He'. induction He as [|r p rs h Hr He IH]; intros h' He'.
  - by apply Forall2_nil_inv_l in He' as ->.
  - apply Forall2_cons_inv_l in He' as (p' & h'' & Hr' & He' & ->). f_equal; [|by apply IH].
    by eapply encode_inj; eapply entry_payload.
Qed.

(** The tables after [q] was added to a history: what was kept is kept, and nothing else is
    but [q]. *)
Record added (d : Contents) (q : Publication) (d' : Contents) : Prop := {
  added_sound : sound d';
  added_new : kept d' q;
  added_old p : kept d p → kept d' p;
  added_only p : kept d' p → kept d p ∨ p = q
}.

Lemma sound_added d k d' q h :
  sound d → committed d k = Some d' → stores k q → history_at d' (id q) (h ++ [q]) →
  history_at d (id q) h ∨ h = [] ∧ states d !! id q = None → added d q d'.
Proof.
  intros [Hids Hrec] (_ & j & _ & ->)%committed_Some Hk Hnew Hold.
  set (d' := {| states := _ |}) in *.
  assert (Hother : ∀ i k, i ≠ id q → history_at d i k ↔ history_at d' i k).
  { intros i k' Hi. split; apply history_other; simpl; by rewrite (st_id _ _ Hk), lookup_insert_ne. }
  assert (Hmono : ∀ p, kept d p → kept d' p).
  { intros p (k' & Hk' & Hp). destruct (decide (id p = id q)) as [Hi|Hi]; [|by exists k'; rewrite <-Hother].
    exists (h ++ [q]). rewrite Hi in *. split; [done|]. apply elem_of_app. left.
    destruct Hold as [Hh|[_ Hn]]; [by rewrite (history_unique _ _ _ _ Hh Hk')|].
    destruct (ha_state _ _ _ Hk') as (? & ? & _ & _ & ?). congruence. }
  assert (Hq : kept d' q) by (exists (h ++ [q]); split; [done|apply elem_of_app; right; by left]).
  split; [split|done|done|].
  - intros i. destruct (decide (i = id q)) as [->|Hi]; [left; by eexists|].
    destruct (Hids i) as [[h' Hh]|Hnone]; [left; exists h'; by apply Hother|right].
    simpl. by rewrite (st_id _ _ Hk), !lookup_insert_ne.
  - intros i g r. subst d'. simpl receipts. intros [[<- [= <- <-]]|[_ Hr]]%lookup_insert_Some.
    + exists q. split_and!; [by apply stored_receipt|done|]. intros Hi. exists (commit_state k).
      split; [apply Hk|by apply Hk].
    + destruct (Hrec _ _ _ Hr) as (p & Hp & Hkept & Hdig). exists p. split_and!; auto.
  - intros p (k' & Hk' & Hp). destruct (decide (id p = id q)) as [Hi|Hi]; [|left; exists k'; by rewrite Hother].
    rewrite Hi in Hk'. rewrite (history_unique _ _ _ _ Hk' Hnew) in Hp.
    apply elem_of_app in Hp as [Hp| ->%list_elem_of_singleton]; [|by right]. left. exists h. rewrite Hi.
    destruct Hold as [Hh|[-> _]]; [done|by apply elem_of_nil in Hp].
Qed.

Lemma create_added d k d' q m :
  sound d → committed d k = Some d' → stores k q → revision q = 1 → state q = Pending →
  commit_journal k = Create m {| record_sequence := 1; record_digest := canonical_sha256_bytes c (commit_state k);
                                 record_payload := commit_state k |} →
  Frame.from_slice (json_manifest c) m = Ok (manifest_of (id q) (intent_sha256 q)) →
  added d q d'.
Proof.
  intros Hd Hc Hk Hrev Hst Hj Hm. pose proof Hc as (_ & j & Hj' & Hd')%committed_Some.
  unfold journal_after in Hj'. rewrite Hj in Hj'. destruct (journals d !! _) eqn:Ej; [done|].
  injection Hj' as <-. apply (sound_added d k d' q [] Hd Hc Hk).
  - subst d'. rewrite (st_id _ _ Hk) in *. split; simpl.
    + exists q, (commit_state k). rewrite lookup_insert_eq, (st_revision _ _ Hk). split_and!; [done|apply Hk|done].
    + exists m, [{| record_sequence := 1; record_digest := canonical_sha256_bytes c (commit_state k);
                    record_payload := commit_state k |}], (intent_sha256 q).
      rewrite lookup_insert_eq. split_and!; [done..|]. constructor; [|done]. split; simpl; try done; apply Hk.
    + done.
  - right. split; [done|]. rewrite (st_id _ _ Hk) in Ej.
    destruct (sound_ids _ Hd (id q)) as [[h Hh]|[? _]]; [|done].
    destruct (ha_journal _ _ _ Hh) as (? & ? & ? & Hjn & _). congruence.
Qed.

Lemma append_added d k d' p q g :
  sound d → committed d k = Some d' → stores k q → kept d p →
  validate_publication_transition p q = Ok tt →
  commit_journal k = Append (revision p) g
    {| record_sequence := revision q; record_digest := canonical_sha256_bytes c (commit_state k);
       record_payload := commit_state k |} →
  added d q d'.
Proof.
  intros Hd Hc Hk (h0 & Hh0 & Hp) Ht Hj. pose proof Hc as (Hrev & j & Hj' & Hd')%committed_Some.
  destruct (transition_facts _ _ Ht) as (Hr & Hid & Hin). rewrite <-Hid in Hh0.
  apply (sound_added d k d' q h0 Hd Hc Hk); [|by left].
  destruct (ha_state _ _ _ Hh0) as (l & b & _ & _ & Hs). rewrite (st_id _ _ Hk), Hs in Hrev. simpl in Hrev.
  pose proof (st_revision _ _ Hk).
  destruct (history_current _ _ _ _ _ Hh0 Hp Hs ltac:(simpl; lia)) as [Hl _].
  destruct (ha_journal _ _ _ Hh0) as (m & rs & intent & Hjn & Hm & He).
  unfold journal_after in Hj'. rewrite Hj, (st_id _ _ Hk), Hjn in Hj'. simpl in Hj'.
  destruct (last rs) as [t|]; [|done]. case_match; [|done]. injection Hj' as <-. subst d'.
  rewrite (st_id _ _ Hk). split; simpl.
  - exists q, (commit_state k). rewrite last_snoc, lookup_insert_eq, (st_revision _ _ Hk).
    split_and!; [done|apply Hk|done].
  - eexists m, _, intent. rewrite lookup_insert_eq. split_and!; [done..|]. apply Forall2_app; [done|].
    constructor; [|done]. split; simpl; try done; try apply Hk. rewrite Hin.
    apply last_Some in Hl as [h' ->]. apply Forall2_app_inv_r in He as (? & ? & _ & He & _).
    apply Forall2_cons_inv_r in He as (? & ? & H1 & _ & _). apply H1.
  - apply linked_app. split; [apply Hh0|]. rewrite Hl. by split.
Qed.

(** *** The operations of the ledger *)

Context {St : Type} `{!PublicationStorage St} `{!PublicationStorageLaws St}.
Implicit Types s : St.

(** [s'] keeps the invariant and what [s] kept, and at most [q] besides. *)
Record grown (q : Publication) s s' : Prop := {
  grown_sound : sound (contents s');
  grown_old p : kept (contents s) p → kept (contents s') p;
  grown_only p : kept (contents s') p → kept (contents s) p ∨ p = q
}.

(** An answer of the ledger under an identity and a digest. *)
Definition answered s (i : PublicationReceiptIdentity) (g : string) (p : Publication) : Prop :=
  kept (contents s) p ∧
  (actor_key i = INTERNAL_ACTOR_KEY → ∃ b, encode_publication c p = Ok b ∧ g = canonical_sha256_bytes c b).

Lemma grown_refl q s s' : sound (contents s) → contents s' = contents s → grown q s s'.
Proof. intros Hs He. split; rewrite He; auto. Qed.

Lemma grown_trans q s1 s2 s3 : grown q s1 s2 → grown q s2 s3 → grown q s1 s3.
Proof. intros [_ H1 H2] [H3 H4 H5]. split; [done|auto|]. intros p [Hp|Hp]%H5; auto. Qed.

Lemma receipt_answered s i g r p :
  sound (contents s) → receipts (contents s) !! i = Some (g, r) → publication_from_receipt c r = Ok p →
  answered s i g p.
Proof.
  intros Hs Hr Hp. destruct (sound_receipts _ Hs _ _ _ Hr) as (p' & Hp' & Hk).
  rewrite Hp' in Hp. by injection Hp as <-.
Qed.

Lemma replay_answered s i g p :
  sound (contents s) → replay c s i g = Ok (Some p) → answered s i g p.
Proof.
  intros Hs. unfold replay. intros H. apply bind_Ok in H as ([r|] & Hr & H); inv_result.
  apply load_receipt_reads in Hr. by eapply receipt_answered.
Qed.

(** An internal answer to the digest of [q] is [q]. *)
Lemma answered_internal s i st p q :
  answered s i (canonical_sha256_bytes c st) p → encode_publication c q = Ok st →
  actor_key i = INTERNAL_ACTOR_KEY → p = q.
Proof.
  intros [_ Hd] Hq Hi. destruct (Hd Hi) as (b & Hb & Hsha).
  assert (st = b) as -> by (by eapply (no_collision c c_ok)). by eapply encode_inj.
Qed.

(** A commit, whatever the storage answers. *)
Lemma commit_grown s k s' r q :
  sound (contents s) → stores k q → storage_commit s k = (s', r) →
  (∀ d', committed (contents s) k = Some d' → added (contents s) q d') →
  grown q s s' ∧
  ∀ receipt p, r = Ok receipt → publication_from_receipt c receipt = Ok p →
    answered s' (commit_identity k) (command_digest k) p.
Proof.
  intros Hs Hk Hc Hgrow. destruct r as [receipt|e]; cycle 1.
  { apply commit_failed in Hc. by split; [apply grown_refl|]. }
  destruct (commit_done _ _ _ _ Hc) as [[Hr Hsame]|[Hd ->]].
  - rewrite <-Hsame in Hr. split; [by apply grown_refl|]. intros ? p [= <-] Hp.
    eapply receipt_answered; [by rewrite Hsame|done..].
  - destruct (Hgrow _ Hd) as [H1 H2 H3 H4]. split; [by split|]. intros ? p [= <-] Hp.
    rewrite (stored_receipt _ _ Hk) in Hp. injection Hp as <-. split; [done|]. intros Hi.
    exists (commit_state k). split; [apply Hk|by apply Hk].
Qed.

Lemma append_attempt_Ok s p q st i g z :
  append_attempt c s p q st i g = Ok z →
  match z with
  | inl r => replay c s i g = Ok (Some r)
  | inr k => revision q = revision p + 1 ∧ ∃ digest, k =
      {| commit_identity := i; command_digest := g; commit_publication_id := id q;
         commit_expected_revision := revision p; commit_state := st;
         commit_event := durable_event c q st;
         commit_journal := Append (revision p) digest
           {| record_sequence := revision q; record_digest := canonical_sha256_bytes c st;
              record_payload := st |} |}
  end.
Proof.
  unfold append_attempt. intros H. apply bind_Ok in H as ([r|] & Hr & H); inv_result; [done|].
  split_bools. match goal with H : commit_try_new _ _ _ _ _ _ _ = Ok _ |- _ => apply commit_new_Ok in H as -> end.
  split; [lia|]. eexists. repeat f_equal. lia.
Qed.

Lemma append_loop_grown n s p q st i g :
  sound (contents s) → kept (contents s) p → validate (sha256_json c) q = Ok tt →
  validate_publication_transition p q = Ok tt → encode_publication c q = Ok st →
  (actor_key i = INTERNAL_ACTOR_KEY → g = canonical_sha256_bytes c st) →
  grown q s (append_loop c n s p q st i g).1 ∧
  ∀ r, (append_loop c n s p q st i g).2 = Ok r → answered (append_loop c n s p q st i g).1 i g r.
Proof.
  intros Hs Hp Hq Ht Hst Hi. revert s Hs Hp. induction n as [|n IH]; intros s Hs Hp; simpl.
  { split; [by apply grown_refl|done]. }
  destruct (append_attempt c s p q st i g) as [[r|k]|e] eqn:Ea; simpl; [| |by split; [apply grown_refl|]].
  - apply append_attempt_Ok in Ea. split; [by apply grown_refl|]. intros ? [= <-]. by apply replay_answered.
  - apply append_attempt_Ok in Ea as (Hr & digest & ->). set (k := {| commit_identity := i |}).
    destruct (storage_commit s k) as [s' r] eqn:Ek.
    assert (Hk : stores k q) by (by split).
    destruct (commit_grown s k s' r q Hs Hk Ek) as [Hs' Hans].
    { intros d' Hd. by eapply append_added. }
    destruct r as [receipt|[]]; simpl; try (by split); try (by split; [|intros ?; apply Hans]).
    all: destruct (IH s' (grown_sound _ _ _ Hs') (grown_old _ _ _ Hs' _ Hp)) as [H1 H2]; split; [by eapply grown_trans|done].
Qed.

Lemma internal_identity p g i :
  internal_receipt_identity c p g = Ok i → actor_key i = INTERNAL_ACTOR_KEY.
Proof. unfold internal_receipt_identity, receipt_identity_try_new. intros H. by inv_result. Qed.

(** Appending a valid successor of a publication kept. *)
Lemma append_grown s p q receipt :
  sound (contents s) → kept (contents s) p → validate (sha256_json c) q = Ok tt →
  validate_publication_transition p q = Ok tt →
  (∀ i g, receipt = Some (i, g) → actor_key i ≠ INTERNAL_ACTOR_KEY) →
  grown q s (append c s p q receipt).1 ∧
  ∀ r, (append c s p q receipt).2 = Ok r →
    kept (contents (append c s p q receipt).1) r ∧ (receipt = None → r = q).
Proof.
  intros Hs Hp Hq Ht Hi. unfold append. generalize 64%nat as n. intros n. destruct (encode_publication c q) as [st|] eqn:Est; cbn [mbind result_bind];
    [|by split; [apply grown_refl|]].
  destruct receipt as [[i g]|]; cbn [mbind result_bind].
  - destruct (append_loop_grown n s p q st i g) as [H1 H2]; try done; [by intros ?%(Hi i g)|].
    split; [done|]. intros r Hr. split; [by apply H2|done].
  - destruct (internal_receipt_identity c q (canonical_sha256_bytes c st)) as [i|] eqn:Ei; cbn [mbind result_bind]; [|by split; [apply grown_refl|]].
    apply internal_identity in Ei.
    destruct (append_loop_grown n s p q st i (canonical_sha256_bytes c st)) as [H1 H2]; try done.
    split; [done|]. intros r Hr. split; [by apply H2|]. intros _. eapply answered_internal; [by apply H2|done..].
Qed.

Lemma create_grown s x p :
  sound (contents s) → validate (sha256_json c) p = Ok tt → revision p = 1 → state p = Pending →
  actor_key (receipt_identity x) ≠ INTERNAL_ACTOR_KEY →
  grown p s (create c s x p).1 ∧ ∀ r, (create c s x p).2 = Ok r → kept (contents (create c s x p).1) r.
Proof.
  intros Hs Hv Hr Hst Hi. unfold create. destruct (create_commit c x p) as [k|e] eqn:Ek; simpl;
    [|by split; [apply grown_refl|]].
  unfold create_commit in Ek. inv_result.
  match goal with H : commit_try_new _ _ _ _ _ _ _ = Ok _ |- _ => apply commit_new_Ok in H as -> end.
  set (k := {| commit_identity := _ |}). destruct (storage_commit s k) as [s' r] eqn:Ek'.
  assert (Hk : stores k p) by (split; simpl; [done|lia|done..]).
  destruct (commit_grown s k s' r p Hs Hk Ek') as [Hs' Hans].
  { intros d' Hd. eapply create_added; try done. by apply (manifest_json_ok c c_ok). }
  split; [destruct r as [|[]]; apply Hs'|]. simpl. intros q Hq.
  destruct r as [receipt|e]; [by eapply Hans|].
  destruct e; try done; apply bind_Ok in Hq as ([o|] & Ho & Hq); inv_result;
    (eapply replay_answered; [apply Hs'|done]).
Qed.

(** *** Loading *)

(** What a reader is given of a history: its last [limit] publications, and whether that
    leaves any out; a limit of zero asks for none. *)
Definition latest (limit : nat) (h : list Publication) : list Publication :=
  drop (length h - limit) h.

Definition omitted (limit : nat) (h : list Publication) : bool :=
  match limit with O => false | _ => (limit <? length h)%nat end.

Lemma tail_drop {A} n (l : list A) : tail (drop n l) = drop (S n) l.
Proof. revert l. induction n as [|n IH]; intros [|x l]; simpl; try done. Qed.

Lemma latest_snoc limit h p :
  match limit with
  | O => (latest limit h, omitted limit h)
  | _ => if bool_decide (length (latest limit h) = limit) then (tail (latest limit h) ++ [p], true)
         else (latest limit h ++ [p], omitted limit h)
  end = (latest limit (h ++ [p]), omitted limit (h ++ [p])).
Proof.
  unfold latest, omitted. destruct limit as [|limit].
  { by rewrite !drop_ge by lia. }
  rewrite length_drop, length_app. simpl length. case_bool_decide as Hc.
  - f_equal; [|symmetry; apply Nat.ltb_lt; lia]. rewrite drop_app_le, tail_drop by lia. f_equal.
    by replace (length h + 1 - S limit)%nat with (S (length h - S limit))%nat by lia.
  - f_equal.
    + by replace (length h - S limit)%nat with 0%nat by lia;
        replace (length h + 1 - S limit)%nat with 0%nat by lia.
    + transitivity false; [|symmetry]; apply Nat.ltb_ge; lia.
Qed.

Lemma entry_read i intent r p :
  entry i intent r p → decode_publication c (record_payload r) = Ok p.
Proof. intros []. by apply encode_decode. Qed.

Lemma valid_revision p : validate (sha256_json c) p = Ok tt → 1 ≤ revision p → revision p ≤ max_safe_integer.
Proof.
  unfold validate, validate_identity. intros H ?. inv_result. split_bools.
  match goal with H : (MAX_SAFE_INTEGER <? revision p) = false |- _ => revert H end.
  unfold MAX_SAFE_INTEGER. lia.
Qed.

Lemma history_loop_latest i intent limit rs h seen :
  Forall2 (entry i intent) rs h → linked (last seen) h →
  from_option revision 0 (last seen) = Z.of_nat (length seen) →
  history_loop c i intent limit (Z.of_nat (length seen)) rs (last seen) (latest limit seen)
    (omitted limit seen) =
  Ok (latest limit (seen ++ h), omitted limit (seen ++ h)).
Proof.
  intros He. revert seen. induction He as [|r p rs h Hr He IH]; intros seen Hl Hrev; simpl.
  { by rewrite app_nil_r. }
  destruct Hl as [Hp Hl]. pose proof (entry_read _ _ _ _ Hr) as Hread. destruct Hr as [_ Hseq Hdig Hv Hi Hin].
  assert (Hnext : revision p = Z.of_nat (length seen) + 1).
  { rewrite <-Hrev. destruct (last seen); simpl in *; [by apply transition_facts in Hp as [-> _]|lia]. }
  pose proof (valid_revision _ Hv ltac:(lia)) as Hmax.
  rewrite (proj2 (checked_add_u64_Some (Z.of_nat (length seen)) 1 (revision p))) by (unfold u64_max, max_safe_integer in *; lia).
  cbn [ok_or mbind result_bind]. rewrite Hread. cbn [mbind result_bind].
  rewrite refuse_run by (subst; rewrite Hseq, Z.eqb_refl, !bool_decide_eq_false_2 by naive_solver; done).
  assert (Hlink : match last seen with
    | Some previous => validate_publication_transition previous p
    | None => refuse (negb (revision p =? 1) || bool_decide (state p ≠ Pending)) (error Corrupt)
    end = Ok tt).
  { destruct (last seen); simpl in Hp; [done|]. destruct Hp as [-> Hp].
    by rewrite bool_decide_eq_false_2 by naive_solver. }
  rewrite Hlink. cbn [mbind result_bind].
  specialize (IH (seen ++ [p])). rewrite last_snoc, length_app, <-app_assoc in IH. simpl in IH.
  replace (Z.of_nat (length seen + 1)) with (revision p) in IH by lia.
  rewrite latest_snoc. by apply IH.
Qed.

Lemma history_length d i h p : history_at d i h → last h = Some p → Z.of_nat (length h) = revision p.
Proof.
  intros Hh Hp. rewrite last_lookup in Hp. apply lookup_lt_Some in Hp as Hlt.
  apply (linked_revision _ _ _ _ (ha_linked _ _ _ Hh)) in Hp. simpl in Hp. lia.
Qed.

Lemma history_last d i h :
  history_at d i h → ∃ p m rs t intent,
    last h = Some p ∧ entry i intent t p ∧ last rs = Some t ∧
    states d !! i = Some {| stored_revision := revision p; stored_payload := record_payload t |} ∧
    journals d !! i = Some {| journal_manifest := m; journal_records := rs |} ∧
    Frame.from_slice (json_manifest c) m = Ok (manifest_of i intent) ∧ Forall2 (entry i intent) rs h.
Proof.
  intros Hh. destruct (ha_state _ _ _ Hh) as (p & b & Hp & Hb & Hs).
  destruct (ha_journal _ _ _ Hh) as (m & rs & intent & Hj & Hm & He).
  pose proof Hp as [h' ->]%last_Some. apply Forall2_app_inv_r in He as Hr.
  destruct Hr as (rs' & l & _ & Hl & ->).
  apply Forall2_cons_inv_r in Hl as (t & l' & Ht & ->%Forall2_nil_inv_r & ->).
  exists p, m, (rs' ++ [t]), t, intent. split_and!; try done; [by rewrite last_snoc|].
  rewrite Hs. do 2 f_equal. pose proof (entry_payload _ _ _ _ Ht). congruence.
Qed.

(** A history loads, as soon as its rows can be read. *)
Lemma load_history s i h limit o o' :
  history_at (contents s) i h → load_state s i = Ok o → load_journal s i = Ok o' →
  ∃ p, last h = Some p ∧ load_publication_history c s i limit = Ok (p, latest limit h, omitted limit h).
Proof.
  intros Hh Hs Hj. destruct (history_last _ _ _ Hh) as (p & m & rs & t & intent & Hp & Ht & Htl & Hst & Hjn & Hm & He).
  exists p. split; [done|]. unfold load_publication_history.
  assert (Hcanon : is_canonical_prefixed_id i "pub_" = true).
  { pose proof (entry_valid _ _ _ _ Ht) as Hv. rewrite <-(entry_id _ _ _ _ Ht).
    unfold validate, validate_identity in Hv. inv_result. by split_bools. }
  rewrite refuse_run by (by rewrite Hcanon). rewrite Hs, Hj. apply load_state_reads in Hs as ->.
  apply load_journal_reads in Hj as ->. rewrite Hst, Hjn. cbn [map_err ok_or mbind result_bind stored_payload].
  rewrite (entry_read _ _ _ _ Ht). cbn [mbind result_bind stored_revision journal_manifest].
  rewrite refuse_run by (rewrite Z.eqb_refl, bool_decide_eq_false_2; [done|rewrite (entry_id _ _ _ _ Ht); naive_solver]).
  cbn [map_err ok_or mbind result_bind]. rewrite Hm. cbn [map_err ok_or mbind result_bind].
  rewrite refuse_run; cycle 1.
  { simpl. rewrite (entry_intent _ _ _ _ Ht), !bool_decide_eq_false_2 by naive_solver. simpl.
    rewrite (Forall2_length _ _ _ He), (history_length _ _ _ _ Hh Hp), Z.eqb_refl. done. }
  pose proof (history_loop_latest i intent limit rs h [] He (ha_linked _ _ _ Hh) eq_refl) as Hloop.
  assert (latest limit [] = [] ∧ omitted limit [] = false) as [Hl0 Ho0] by (by destruct limit).
  rewrite Hl0, Ho0 in Hloop. change (Z.of_nat (length [])) with 0 in Hloop. simpl in Hloop. cbn [manifest_intent_sha256 manifest_of journal_records].
  rewrite Hloop. cbn [mbind result_bind]. rewrite Htl. cbn [mbind result_bind ok_or].
  by rewrite refuse_run by (apply bool_decide_eq_false_2; naive_solver).
Qed.

(** What loads is the last publication of the history. *)
Lemma load_last s i p :
  sound (contents s) → load_publication c s i = Ok p →
  ∃ h, history_at (contents s) i h ∧ last h = Some p ∧ id p = i.
Proof.
  intros Hs Hl. unfold load_publication in Hl. apply bind_Ok in Hl as ([[p' h'] b'] & Hl & [= ->]).
  assert (∃ o o', load_state s i = Ok (Some o) ∧ load_journal s i = Ok o') as (o & o' & Ho & Ho').
  { unfold load_publication_history in Hl. inv_result. eauto. }
  destruct (sound_ids _ Hs i) as [[h Hh]|[Hn _]]; [|by apply load_state_reads in Ho; rewrite Hn in Ho].
  destruct (load_history s i h 0 _ _ Hh Ho Ho') as (q & Hq & Heq). rewrite Heq in Hl. simplify_eq.
  exists h. split_and!; [done..|]. apply last_Some in Hq as [h0 ->].
  destruct (history_member _ _ _ _ Hh (proj2 (elem_of_app _ _ _) (or_intror (list_elem_of_here _ _)))) as (? & ? & He & _).
  apply He.
Qed.

Lemma last_kept s i p h :
  history_at (contents s) i h → last h = Some p → id p = i → kept (contents s) p.
Proof.
  intros Hh Hp Hi. exists h. rewrite Hi. split; [done|]. apply last_Some in Hp as [h' ->].
  apply elem_of_app. right. by left.
Qed.
End ledger.
