(* ===== verification/PublicationRuns.v ===== *)
(** * Publication runs

    The coordinator of [Publication] over a storage that keeps its contract and a provider
    port that answers truthfully, through any sequence of publish, resume and cancel with
    failures anywhere.  The file shows that the remote writes of a publication happen at most
    once each and in order, that what the coordinator stores always loads again, that
    [resume] returns, and that nothing happens without the policy's leave. *)

From Stdlib Require Import Ascii String.
From S2P Require Import Prelude Text Numerals Instants Transaction PublicationFacts Publication.
From S2P Require Import PublicationLedger.
Local Open Scope Z_scope.

(** ** Steps that changed *)

(** [changed_steps] by recursion on the lists, from position [n] on. *)
Fixpoint diff (n : nat) (l k : list PublicationStep) : list nat :=
  match l, k with
  | x :: l, y :: k => if bool_decide (x = y) then diff (S n) l k else n :: diff (S n) l k
  | _, _ => []
  end.

Lemma changed_steps_diff p q : changed_steps p q = diff 0 (steps p) (steps q).
Proof.
  unfold changed_steps. generalize (steps q) as k. generalize (steps p) as l.
  assert (∀ l k n, omap (λ '(i, (l, r)), if bool_decide (l = r) then None else Some i)
    (imap (λ i z, ((n + i)%nat, z)) (zip l k)) = diff n l k) as H.
  { induction l as [|x l IH]; intros [|y k] n; simpl; try done.
    rewrite (imap_ext _ (λ i z, ((S n + i)%nat, z))) by (intros; simpl; f_equal; lia).
    rewrite Nat.add_0_r. case_bool_decide; [|f_equal]; exact (IH k (S n)). }
  intros l k. exact (H l k 0%nat).
Qed.

Lemma diff_same n l : diff n l l = [].
Proof. revert n. induction l as [|x l IH]; intros n; simpl; [done|]. by rewrite bool_decide_eq_true_2. Qed.

Lemma diff_insert n l i x y :
  l !! i = Some x → x ≠ y → diff n l (<[i := y]> l) = [(n + i)%nat].
Proof.
  revert n i. induction l as [|z l IH]; intros n [|i]; simpl; try done.
  - intros [= ->] Hne. by rewrite bool_decide_eq_false_2, diff_same, Nat.add_0_r.
  - intros Hi Hne. rewrite bool_decide_eq_true_2, (IH _ _ Hi Hne) by done. f_equal. lia.
Qed.

Lemma diff_elsewhere n l k i : length l = length k → (n + i)%nat ∉ diff n l k → l !! i = k !! i.
Proof.
  revert n i k. induction l as [|x l IH]; intros n i [|y k]; simpl; try done.
  intros [= Hl] Hni. case_bool_decide as Hxy; destruct i as [|i]; simpl; try congruence.
  - apply (IH (S n)); [done|]. by replace (S n + i)%nat with (n + S i)%nat by lia.
  - exfalso. apply Hni. rewrite Nat.add_0_r. by left.
  - apply (IH (S n)); [done|]. intros Hin. apply Hni. right. by replace (n + S i)%nat with (S n + i)%nat by lia.
Qed.

(** ** Publications that follow from one another *)

Section transitions.
Context (sha : HashInput → string).

(** A validated publication has the four operations of its authorization. *)
Lemma validate_loop_ops seen kinds ops ss :
  validate_step_loop sha seen kinds ops ss = Ok tt →
  length kinds = length ops → length ss = length ops → step_operation <$> ss = ops.
Proof.
  revert seen ops ss. induction kinds as [|k kinds IH]; intros seen [|op ops] [|s ss]; simpl; try done.
  intros H Hl1 Hl2. inv_result. split_bools. simpl. f_equal; [done|]. eapply IH; [done|lia..].
Qed.

Lemma validate_ops p : validate sha p = Ok tt → step_operation <$> steps p = ordered sha (authorization p).
Proof.
  unfold validate, validate_identity, validate_steps. intros H. inv_result. split_bools.
  match goal with H : validate_step_loop _ _ _ _ _ = Ok ?u |- _ => destruct u; apply validate_loop_ops in H end;
    [done|done|]. by match goal with H : length (steps p) = _ |- _ => rewrite H end.
Qed.

Lemma validate_revision p : validate sha p = Ok tt → revision p ≤ max_safe_integer.
Proof.
  unfold validate, validate_identity. intros H. inv_result. split_bools.
  match goal with H : (MAX_SAFE_INTEGER <? revision p) = false |- _ => revert H end.
  unfold MAX_SAFE_INTEGER. lia.
Qed.

Lemma validate_states p :
  validate sha p = Ok tt →
  (state p ≠ Cancelled → cancellation_reason p = None) ∧
  (state p = Pending → Forall (λ s, step_state s = StepPending) (steps p)) ∧
  (state p = Published → Forall (λ s, step_state s = StepSucceeded) (steps p)).
Proof.
  unfold validate, validate_state. intros H. inv_result.
  match goal with H : _ && _ = false |- _ => rename H into Hc end.
  match goal with H : match state p with _ => _ end = false |- _ => rename H into Hst end.
  split_and!.
  - intros Hs. rewrite bool_decide_eq_true_2 in Hc by done. simpl in Hc. split_bools.
    destruct (cancellation_reason p); [|done]. by destruct Hc.
  - intros Hs. rewrite Hs in Hst. apply Forall_forall. intros s Hin. apply dec_stable. intros Hne.
    apply not_true_iff_false in Hst. apply Hst, existsb_exists. exists s. rewrite <-list_elem_of_In.
    split; [done|by apply bool_decide_eq_true].
  - intros Hs. rewrite Hs in Hst. split_bools. apply Forall_forall. intros s Hin. apply dec_stable. intros Hne.
    match goal with H : existsb _ _ = false |- _ => apply not_true_iff_false in H; apply H, existsb_exists end.
    exists s. rewrite <-list_elem_of_In. split; [done|by apply bool_decide_eq_true].
Qed.

(** The resource of a validated publication is one its provider step may have. *)
Lemma validate_loop_results seen kinds ops ss :
  validate_step_loop sha seen kinds ops ss = Ok tt → length kinds = length ops → length ss = length ops →
  Forall (λ s, valid_step_result s = true) ss.
Proof.
  revert seen ops ss. induction kinds as [|k kinds IH]; intros seen [|op ops] [|s ss]; simpl; try done.
  intros H Hl1 Hl2. inv_result. split_bools. constructor; [done|]. eapply IH; [done|lia..].
Qed.

Lemma step_result_resource s r :
  valid_step_result s = true → step_resource s = Some r → is_ok (validate_resource r) = true.
Proof.
  unfold valid_step_result. intros H Hr. rewrite Hr in H. destruct (step_state s); split_bools; try done.
  destruct (op_kind (step_operation s)); split_bools; done.
Qed.

Lemma validate_resource_ok p r :
  validate sha p = Ok tt → resource p = Some r → is_ok (validate_resource r) = true.
Proof.
  unfold validate, validate_identity, validate_steps. intros H Hr. inv_result. split_bools.
  match goal with H : validate_step_loop _ _ _ _ _ = Ok ?u |- _ => destruct u; apply validate_loop_results in H as Hres end;
    [|done|by match goal with H : length (steps p) = _ |- _ => rewrite H end].
  match goal with H : resource p = _ |- _ => rewrite Hr in H; symmetry in H; apply bind_Some in H as (s & Hs & Hsr) end.
  eapply step_result_resource; [|done]. by apply (Forall_lookup_1 _ _ _ _ Hres Hs).
Qed.

(** A publication that validates has its result fact, up to the year 9999. *)
Lemma result_fact_exact p :
  validate sha p = Ok tt → 0 ≤ revision p → 0 ≤ updated_at_millis p →
  is_ok (result_fact p) = (updated_at_millis p <? end_of_time).
Proof.
  intros Hv Hr Hu. pose proof (validate_resource_ok p) as Hres. specialize (λ r, Hres r Hv).
  unfold validate, validate_identity in Hv. inv_result. split_bools. unfold MAX_SAFE_INTEGER, max_safe_integer in *.
  unfold result_fact. rewrite refuse_run by (unfold i64_max; lia).
  rewrite millis_to_instant_spec by (unfold u64_max; lia).
  destruct (Z.ltb_spec (updated_at_millis p) end_of_time) as [Hlt|]; [|done]. cbn [ok_or mbind result_bind].
  destruct (fields_at_valid (updated_at_millis p)) as [Hvalid _]; [lia|].
  unfold validate_result. cbn [result_binding result_publication_id result_revision result_state result_updated_at
    result_publication_set_sha256 result_resource].
  match goal with H : validate_authorization _ _ = Ok _ |- _ => unfold validate_authorization in H end. inv_result.
  match goal with H : validate_binding _ = Ok _ |- _ => rewrite H end. cbn [mbind result_bind].
  unfold canonical_instant. rewrite text_shape by (by apply valid_wf).
  repeat match goal with H : is_canonical_prefixed_id _ _ = true |- _ => rewrite H; clear H
                       | H : canonical_sha256 _ = true |- _ => rewrite H; clear H end.
  rewrite (proj2 (Z.ltb_ge _ 1)) by lia. destruct (resource p) as [r|]; [rewrite (Hres r eq_refl)|]; by destruct (state p).
Qed.

(** *** Changes that validate *)

(** The publication a change is applied to. *)
Definition advanced (p : Publication) (t : Z) : Publication :=
  {| id := id p; revision := revision p + 1; state := state p; authorization := authorization p;
     intent_sha256 := intent_sha256 p; steps := steps p; resource := resource p;
     cancellation_reason := cancellation_reason p; updated_at_millis := t |}.

(** [q] has the identity of [advanced p t]. *)
Record advances (p : Publication) (t : Z) (q : Publication) : Prop := {
  adv_id : id q = id p;
  adv_revision : revision q = revision p + 1;
  adv_authorization : authorization q = authorization p;
  adv_intent : intent_sha256 q = intent_sha256 p;
  adv_updated : updated_at_millis q = t;
  adv_operations : step_operation <$> steps q = step_operation <$> steps p
}.

Lemma same_operations l k :
  step_operation <$> k = step_operation <$> l →
  forallb (λ '(l, r), bool_decide (step_operation l = step_operation r)) (zip l k) = true.
Proof.
  revert k. induction l as [|x l IH]; intros [|y k]; simpl; try done.
  intros [= Hop Hk]. rewrite bool_decide_eq_true_2 by done. by apply IH.
Qed.

Lemma advances_facts p t q :
  advances p t q → 0 ≤ revision p → validate sha p = Ok tt → updated_at_millis p ≤ t →
  is_terminal (state p) = false → immutable_facts_kept p q = true.
Proof.
  intros [Hi Hr Ha Hn Hu Ho] H0 Hv Ht Hs. apply validate_revision in Hv. unfold immutable_facts_kept.
  rewrite Hi, Ha, Hn, Hu, Hs, Hr, same_operations by done.
  rewrite (proj2 (checked_add_u64_Some (revision p) 1 (revision p + 1))) by (unfold u64_max, max_safe_integer in *; lia).
  rewrite (bool_decide_eq_true_2 (length _ = _)) by (by rewrite <-(length_fmap step_operation (steps q)), Ho, length_fmap).
  rewrite !bool_decide_eq_true_2 by done. simpl. rewrite !andb_true_r. by apply Z.leb_le.
Qed.

Lemma first_incomplete_Some p i :
  first_incomplete p = Some i →
  ∃ s, steps p !! i = Some s ∧ step_state s ≠ StepSucceeded ∧
    ∀ j s', (j < i)%nat → steps p !! j = Some s' → step_state s' = StepSucceeded.
Proof.
  unfold first_incomplete. intros ([j s] & Hf & ->)%fmap_Some. apply list_find_Some in Hf as (H1 & H2 & H3).
  exists s. split_and!; [done..|]. intros j' s' Hlt Hs'. apply dec_stable. by eapply H3.
Qed.

Lemma first_incomplete_None p : first_incomplete p = None → Forall (λ s, step_state s = StepSucceeded) (steps p).
Proof.
  unfold first_incomplete. intros Hf%fmap_None. apply list_find_None in Hf. eapply Forall_impl; [done|].
  intros s Hs. by apply dec_stable.
Qed.

Lemma same_progress_same p q : steps q = steps p → resource q = resource p → same_progress p q = true.
Proof.
  intros Hs Hr. unfold same_progress. rewrite changed_steps_diff, Hs, diff_same, Hr. by rewrite !bool_decide_eq_true_2.
Qed.

Lemma update_step_advanced p t i st r code w q :
  update_step (advanced p t) i st r code w = Ok q →
  ∃ s, steps p !! i = Some s ∧ q = set_steps (advanced p t)
    (<[i := {| step_operation := step_operation s; step_state := st; step_resource := r; step_code := code;
               remote_write_performed := w |}]> (steps p)).
Proof. unfold update_step. simpl. destruct (steps p !! i) as [s|]; [|done]. intros [= <-]. by exists s. Qed.

(** [q] is [p] with its step [i] changed to [s']. *)
Record step_changed (p : Publication) (i : nat) (s' : PublicationStep) (q : Publication) : Prop := {
  sc_step : ∃ s, steps p !! i = Some s ∧ step_operation s' = step_operation s;
  sc_steps : steps q = <[i := s']> (steps p)
}.

Lemma step_changed_operations p i s' q :
  step_changed p i s' q → step_operation <$> steps q = step_operation <$> steps p.
Proof.
  intros [(s & Hs & Ho) ->]. rewrite list_fmap_insert, Ho. apply list_insert_id. by rewrite list_lookup_fmap, Hs.
Qed.

Lemma step_changed_state p i s' q : step_changed p i s' q → state_of_step q i = step_state s'.
Proof.
  intros [(s & Hs & _) Hq]. unfold state_of_step. rewrite Hq, list_lookup_insert_eq; [done|]. by eapply lookup_lt_Some.
Qed.

Lemma one_step_changed p i s' q :
  step_changed p i s' q → first_incomplete p = Some i → steps p !! i ≠ Some s' → step_state s' ≠ StepPending →
  changed_steps p q = [i] ∧ one_current_step_changed p q = true.
Proof.
  intros Hc Hf Hne Hp. destruct (sc_step _ _ _ _ Hc) as (s & Hs & _).
  assert (changed_steps p q = [i]) as He.
  { rewrite changed_steps_diff, (sc_steps _ _ _ _ Hc). apply (diff_insert 0 _ _ _ _ Hs). congruence. }
  split; [done|]. unfold one_current_step_changed. rewrite He, (step_changed_state _ _ _ _ Hc), Hf.
  destruct (first_incomplete_Some _ _ Hf) as (s0 & Hs0 & Hn0 & _). unfold state_of_step. rewrite Hs0. simpl.
  by rewrite !bool_decide_eq_true_2.
Qed.

(** A step of a publishing publication made progress. *)
Lemma progress_allowed p i s' q :
  step_changed p i s' q → first_incomplete p = Some i → state p = Publishing → state q = Publishing →
  cancellation_reason q = None → step_state s' ≠ StepPending → step_state s' ≠ StepRejected →
  (steps p !! i = Some s' → resource q = resource p) → transition_allowed p q = true.
Proof.
  intros Hc Hf Hp Hq Hr H1 H2 Hres. unfold transition_allowed. rewrite Hq, Hp, Hr. simpl.
  destruct (decide (steps p !! i = Some s')) as [Hs|Hne].
  - rewrite same_progress_same; [done| |by apply Hres]. by rewrite (sc_steps _ _ _ _ Hc), list_insert_id.
  - destruct (one_step_changed _ _ _ _ Hc Hf Hne H1) as [He ->]. unfold changed_rejected.
    rewrite He, (step_changed_state _ _ _ _ Hc), bool_decide_eq_false_2 by done. by destruct (same_progress p q).
Qed.

Lemma reject_allowed p i s' q :
  step_changed p i s' q → first_incomplete p = Some i → state p = Publishing → state q = Failed →
  cancellation_reason q = None → step_state s' = StepRejected → steps p !! i ≠ Some s' →
  transition_allowed p q = true.
Proof.
  intros Hc Hf Hp Hq Hr H1 Hne. unfold transition_allowed. rewrite Hq, Hp, Hr.
  destruct (one_step_changed _ _ _ _ Hc Hf Hne ltac:(by rewrite H1)) as [He ->]. unfold changed_rejected.
  by rewrite He, (step_changed_state _ _ _ _ Hc), H1.
Qed.

(** What the coordinator's change functions make of a publication. *)
Definition follows (p : Publication) (t : Z) (q : Publication) : Prop :=
  advances p t q ∧ transition_allowed p q = true.

Lemma begin_follows p t q :
  validate sha p = Ok tt → state p = Pending → begin_publishing (advanced p t) = Ok q →
  follows p t q ∧ steps q = steps p ∧ state q = Publishing.
Proof.
  intros (Hc & _ & _)%validate_states Hp [= <-]. split; [split; [by split|]|done].
  unfold transition_allowed. simpl. rewrite Hp, Hc by congruence. by apply same_progress_same.
Qed.

Lemma finish_follows p t q :
  validate sha p = Ok tt → state p = Publishing → finish_published (advanced p t) = Ok q →
  follows p t q ∧ steps q = steps p ∧ state q = Published.
Proof.
  intros (Hc & _ & _)%validate_states Hp [= <-]. split; [split; [by split|]|done].
  unfold transition_allowed. simpl. rewrite Hp, Hc by congruence. by rewrite same_progress_same.
Qed.

Lemma cancel_follows p t reason q :
  validate sha p = Ok tt → is_terminal (state p) = false → cancel_with reason (advanced p t) = Ok q →
  follows p t q ∧ steps q = steps p.
Proof.
  intros (Hc & _ & _)%validate_states Hp [= <-]. split; [split; [by split|]|done].
  unfold transition_allowed. simpl. rewrite Hc by (by destruct (state p)). rewrite same_progress_same by done.
  by destruct (state p).
Qed.

(** [q] follows from [p] by a change of its first incomplete step to the state [st]. *)
Definition stepped (p : Publication) (t : Z) (i : nat) (st : PublicationStepState) (q : Publication) : Prop :=
  follows p t q ∧ ∃ s', step_changed p i s' q ∧ step_state s' = st.

Lemma set_steps_advances p t ss q :
  steps q = ss → step_operation <$> ss = step_operation <$> steps p →
  id q = id p → revision q = revision p + 1 → authorization q = authorization p →
  intent_sha256 q = intent_sha256 p → updated_at_millis q = t → advances p t q.
Proof. intros <- ? ? ? ? ? ?. by split. Qed.

(** The changes that keep the resource, or do change the step. *)
Lemma stepped_progress p t i s s' q :
  validate sha p = Ok tt → state p = Publishing → first_incomplete p = Some i → steps p !! i = Some s →
  step_operation s' = step_operation s → steps q = <[i := s']> (steps p) →
  id q = id p → revision q = revision p + 1 → authorization q = authorization p →
  intent_sha256 q = intent_sha256 p → updated_at_millis q = t →
  cancellation_reason q = cancellation_reason p →
  state q = Publishing ∧ step_state s' ∈ [StepApplying; StepUnknown] ∧ resource q = resource p ∨
  state q = Publishing ∧ step_state s' = StepSucceeded ∨
  state q = Failed ∧ step_state s' = StepRejected ∧ step_state s ≠ StepRejected →
  stepped p t i (step_state s') q.
Proof.
  intros (Hc & _ & _)%validate_states Hp Hf Hs Ho Hss Hid Hrev Ha Hin Hup Hcr Hcase.
  rewrite Hc in Hcr by congruence. assert (Hsc : step_changed p i s' q) by (split; [eauto|done]).
  split; [split|by exists s'].
  - eapply set_steps_advances; try done. rewrite <-Hss. by eapply step_changed_operations.
  - destruct (first_incomplete_Some _ _ Hf) as (s0 & Hs0 & Hn & _). simplify_eq.
    destruct Hcase as [(Hq & Hin' & Hr)|[(Hq & Hst)|(Hq & Hst & Hne)]].
    + eapply progress_allowed; try done; intros E; rewrite E in Hin'; set_solver.
    + eapply progress_allowed; try done; congruence.
    + eapply reject_allowed; try done. congruence.
Qed.

Lemma succeed_stepped p t i r w q :
  validate sha p = Ok tt → state p = Publishing → first_incomplete p = Some i →
  succeed_step i r w (advanced p t) = Ok q → stepped p t i StepSucceeded q ∧ state q = Publishing.
Proof.
  intros Hv Hp Hf H. unfold succeed_step in H. inv_result.
  match goal with H : update_step _ _ _ _ _ _ = Ok _ |- _ => apply update_step_advanced in H as (s & Hs & ->) end.
  simpl in H. rewrite Hs in H. inv_result.
  set (s' := {| step_operation := step_operation s; step_state := StepSucceeded |}).
  split; [|by case_bool_decide].
  apply (stepped_progress p t i s s'); try done; try (by case_bool_decide). right. left. by case_bool_decide.
Qed.

Lemma mark_stepped p t i st code q :
  validate sha p = Ok tt → state p = Publishing → first_incomplete p = Some i →
  st ∈ [StepApplying; StepUnknown] → update_step (advanced p t) i st None code None = Ok q →
  stepped p t i st q ∧ state q = Publishing.
Proof.
  intros Hv Hp Hf Hst (s & Hs & ->)%update_step_advanced.
  set (s' := {| step_operation := step_operation s; step_state := st |}).
  split; [|done]. apply (stepped_progress p t i s s'); try done. by left.
Qed.

Lemma reject_stepped p t i code q :
  validate sha p = Ok tt → state p = Publishing → first_incomplete p = Some i →
  state_of_step p i ≠ StepRejected → reject_step i code (advanced p t) = Ok q →
  stepped p t i StepRejected q.
Proof.
  intros Hv Hp Hf Hne H. unfold reject_step in H. inv_result.
  match goal with H : update_step _ _ _ _ _ _ = Ok _ |- _ => apply update_step_advanced in H as (s & Hs & ->) end.
  set (s' := {| step_operation := step_operation s; step_state := StepRejected |}).
  apply (stepped_progress p t i s s'); try done. right. right. split_and!; try done.
  unfold state_of_step in Hne. by rewrite Hs in Hne.
Qed.

(** While a publication is not finished, no step of it is rejected. *)
Definition unrejected (p : Publication) : Prop :=
  is_terminal (state p) = false → ∀ i, state_of_step p i ≠ StepRejected.

Lemma link_unrejected previous p :
  from_option unrejected True previous → validate sha p = Ok tt → link previous p → unrejected p.
Proof.
  intros Hprev Hv Hl Hst i. destruct (state p) eqn:Ep; try done.
  - apply validate_states in Hv as (_ & Hv & _). specialize (Hv Ep). unfold state_of_step.
    destruct (steps p !! i) as [s|] eqn:Es; simpl; [|done]. by rewrite (Forall_lookup_1 _ _ _ _ Hv Es).
  - destruct previous as [q|]; simpl in *; [|by destruct Hl; congruence].
    apply transition_Ok in Hl as [Hk Ha]. unfold immutable_facts_kept in Hk. split_bools.
    unfold transition_allowed in Ha. rewrite Ep in Ha. split_bools.
    assert (Hlen : length (steps q) = length (steps p)) by done.
    assert (Hsame : same_progress q p = true → state_of_step p i ≠ StepRejected).
    { unfold same_progress. rewrite changed_steps_diff. intros [Hs%bool_decide_eq_true _]%andb_true_iff. unfold state_of_step.
      rewrite <-(diff_elsewhere 0 _ _ i Hlen); [by apply Hprev|]. rewrite Hs. apply not_elem_of_nil. }
    destruct (state q) eqn:Eq; try done; [by apply Hsame|].
    match goal with H : _ || _ = true |- _ => apply orb_true_iff in H as [H|H] end; [by apply Hsame|]. split_bools.
    unfold one_current_step_changed, changed_rejected in *.
    destruct (changed_steps q p) as [|j [|]] eqn:Ed; try done. split_bools.
    destruct (decide (i = j)) as [->|Hij]; [done|]. unfold state_of_step.
    rewrite changed_steps_diff in Ed. rewrite <-(diff_elsewhere 0 _ _ i Hlen); [by apply Hprev; rewrite Eq|].
    rewrite Ed. set_solver.
Qed.

Lemma linked_unrejected previous h :
  from_option unrejected True previous → Forall (λ p, validate sha p = Ok tt) h → linked previous h →
  Forall unrejected h.
Proof.
  revert previous. induction h as [|p h IH]; intros previous Hp Hv; simpl; [done|].
  intros [Hl Hh]. apply Forall_cons in Hv as [Hv Hvs].
  pose proof (link_unrejected _ _ Hp Hv Hl). constructor; [done|]. by apply (IH (Some p)).
Qed.
End transitions.

(** ** What the provider port promises *)

(** [written] is every operation the provider has carried out, oldest first: an answer that
    an operation is found or absent is the truth, and applying one carries it out once or
    not at all, also when the answer is lost. *)
Class TruthfulPort (P : Type) `{!PublicationPort P} : Type := {
  written : P → list PublicationOperation;
  lookup_silent : ∀ p op, written (lookup_operation p op).1 = written p;
  lookup_absent : ∀ p op p' k, lookup_operation p op = (p', Ok (Absent k)) → op ∉ written p;
  lookup_found : ∀ p op p' k r, lookup_operation p op = (p', Ok (Found k (request_sha256 op) r)) →
    op ∈ written p;
  apply_once : ∀ p op, written (apply_operation p op).1 = written p ++ [op] ∨
    written (apply_operation p op).1 = written p;
  apply_applied : ∀ p op p' k r w, apply_operation p op = (p', Ok (Applied k (request_sha256 op) r w)) →
    op ∈ written p'
}.

(** ** The invariant of a run *)

Section runs.
Context (c : PublicationCodec) (c_ok : codec_ok c).
Context {St P A : Type} `{!PublicationStorage St, !PublicationPort P, !PublicationPolicyAudit A}.
Context `{!PublicationStorageLaws St, !TruthfulPort P}.

Abbreviation Coordinator := (PublicationCoordinator St P A).
Abbreviation sha := (sha256_json c).
Implicit Types x : Coordinator.

Abbreviation kept_in x := (kept c (contents (ledger x))).

(** Every step of [p] that succeeded is among the writes. *)
Definition backed (w : list PublicationOperation) (p : Publication) : Prop :=
  ∀ i s, steps p !! i = Some s → step_state s = StepSucceeded → step_operation s ∈ w.

(** The writes after [w0]: each is new, and is an operation of an authorization whose
    earlier operations were written before. *)
Inductive ordered_writes (w0 : list PublicationOperation) : list PublicationOperation → Prop :=
| writes_none : ordered_writes w0 w0
| writes_one w a j op : ordered_writes w0 w → op ∉ w → ordered sha a !! j = Some op →
    (∀ i op', (i < j)%nat → ordered sha a !! i = Some op' → op' ∈ w) →
    ordered_writes w0 (w ++ [op]).

Record run_ok (w0 : list PublicationOperation) x : Prop := {
  ro_sound : sound c (contents (ledger x));
  ro_backed p : kept_in x p → backed (written (port x)) p;
  ro_writes : ordered_writes w0 (written (port x))
}.

(** A publication the loop of [resume] works on at the time [t]. *)
Record working x (t : Z) (p : Publication) : Prop := {
  wk_kept : kept_in x p;
  wk_state : state p = Publishing;
  wk_updated : updated_at_millis p ≤ t
}.

Lemma backed_mono w w' p : w ⊆ w' → backed w p → backed w' p.
Proof. intros Hw H i s Hs Hst. apply Hw. by eapply H. Qed.

Lemma backed_same w p q : steps q = steps p → backed w p → backed w q.
Proof. intros Hs H i s. rewrite Hs. apply H. Qed.

Lemma backed_changed w p i s' q :
  step_changed p i s' q → backed w p → (step_state s' = StepSucceeded → step_operation s' ∈ w) → backed w q.
Proof.
  intros [(s & Hs & Ho) Hq] Hb Hnew j sj. rewrite Hq.
  intros [(-> & -> & _)|(_ & Hj)]%list_lookup_insert_Some; [done|by apply (Hb j)].
Qed.

Lemma kept_facts x p :
  kept_in x p → validate sha p = Ok tt ∧ 1 ≤ revision p ∧ unrejected p.
Proof.
  intros (h & Hh & Hp). destruct (history_member _ _ _ _ _ Hh Hp) as (r & intent & He & Hr).
  split_and!; [apply He|done|]. eapply Forall_forall; [|done].
  eapply (linked_unrejected _ None); [done| |apply Hh]. apply Forall_forall. intros q Hq.
  destruct (history_member _ _ _ _ _ Hh Hq) as (? & ? & He' & _). apply He'.
Qed.

(** *** Transitions *)

(** A transition to a publication that follows and is backed. *)
Lemma transition_ok w0 x p t receipt change :
  run_ok w0 x → kept_in x p → updated_at_millis p ≤ t → is_terminal (state p) = false →
  (∀ i g, receipt = Some (i, g) → actor_key i ≠ INTERNAL_ACTOR_KEY) →
  (∀ q, change (advanced p t) = Ok q → follows p t q ∧ backed (written (port x)) q) →
  post (transition_with_receipt c p t receipt change) x
    (λ q x', run_ok w0 x' ∧ port x' = port x ∧ kept_in x' q ∧
             (receipt = None → change (advanced p t) = Ok q))
    (run_ok w0).
Proof.
  intros Hx Hp Ht Hterm Hi Hch. destruct (kept_facts _ _ Hp) as (Hv & Hr & _).
  unfold transition_with_receipt. apply post_bind, post_attempt; [|done].
  intros r Hrev. inv_result. apply post_bind, post_attempt; [|done]. intros q Hq.
  apply post_bind, post_attempt; [|done]. intros [] Hvq.
  destruct (Hch q Hq) as [[Ha Hall] Hb].
  assert (Htr : validate_publication_transition p q = Ok tt).
  { unfold validate_publication_transition. rewrite (advances_facts sha p t q), Hall by (done || lia). done. }
  destruct (append_grown c c_ok (ledger x) p q receipt (ro_sound _ _ Hx) Hp Hvq Htr Hi) as [Hg Hans].
  unfold post, on_ledger. destruct (append c (ledger x) p q receipt) as [s' [z|e]]; simpl in *.
  all: assert (Hx' : run_ok w0 (with_ledger x s')) by
    (split; simpl; [apply Hg|intros p' [Hp'| ->]%(grown_only _ _ _ _ Hg); [by apply Hx|done]|apply Hx]).
  - destruct (Hans z eq_refl) as [Hz Heq]. split_and!; try done. intros ->. by rewrite Heq.
  - done.
Qed.

(** A step of the publication at work succeeded. *)
Lemma succeed_ok w0 x p t i s r w :
  run_ok w0 x → working x t p → first_incomplete p = Some i → steps p !! i = Some s →
  step_operation s ∈ written (port x) →
  post (transition c p t (succeed_step i r w)) x
    (λ q x', run_ok w0 x' ∧ working x' t q ∧ stepped p t i StepSucceeded q)
    (run_ok w0).
Proof.
  intros Hx [Hk Hst Hup] Hf Hs Hin. destruct (kept_facts _ _ Hk) as (Hv & _ & _).
  eapply post_weaken; [apply (transition_ok w0); try done; [by rewrite Hst|]| |done].
  - intros q Hq. destruct (succeed_stepped _ _ _ _ _ _ _ Hv Hst Hf Hq) as [(Hfo & s' & Hc & Hs') _].
    split; [done|]. eapply backed_changed; [done|by apply Hx|]. intros _.
    destruct (sc_step _ _ _ _ Hc) as (s0 & Hs0 & ->). by simplify_eq.
  - intros q x' (Hx' & _ & Hkq & Hq). specialize (Hq eq_refl).
    destruct (succeed_stepped _ _ _ _ _ _ _ Hv Hst Hf Hq) as [Hstep Hqs]. split_and!; [done| |done].
    split; [done|done|]. destruct Hstep as [[[]] _]. lia.
Qed.

(** A step of the publication at work was marked. *)
Lemma mark_ok w0 x p t i st code change :
  run_ok w0 x → working x t p → first_incomplete p = Some i → st ∈ [StepApplying; StepUnknown] →
  (∀ q, change q = update_step q i st None code None) →
  post (transition c p t change) x
    (λ q x', run_ok w0 x' ∧ port x' = port x ∧ working x' t q ∧ stepped p t i st q)
    (run_ok w0).
Proof.
  intros Hx [Hk Hst Hup] Hf Hin Hch. destruct (kept_facts _ _ Hk) as (Hv & _ & _).
  eapply post_weaken; [apply (transition_ok w0); try done; [by rewrite Hst|]| |done].
  - intros q Hq. rewrite Hch in Hq. destruct (mark_stepped _ _ _ _ _ _ _ Hv Hst Hf Hin Hq) as [(Hfo & s' & Hc & Hs') _].
    split; [done|]. eapply backed_changed; [done|by apply Hx|]. rewrite Hs'. intros ->. exfalso.
    clear -Hin. set_solver.
  - intros q x' (Hx' & Hport & Hkq & Hq). specialize (Hq eq_refl). rewrite Hch in Hq.
    destruct (mark_stepped _ _ _ _ _ _ _ Hv Hst Hf Hin Hq) as [Hstep Hqs]. split_and!; [done|done| |done].
    split; [done|done|]. destruct Hstep as [[[]] _]. lia.
Qed.

Lemma reject_ok w0 x p t i code :
  run_ok w0 x → working x t p → first_incomplete p = Some i →
  post (transition c p t (reject_step i code)) x (λ q x', run_ok w0 x' ∧ kept_in x' q) (run_ok w0).
Proof.
  intros Hx [Hk Hst Hup] Hf. destruct (kept_facts _ _ Hk) as (Hv & _ & Hun).
  eapply post_weaken; [apply (transition_ok w0); try done; [by rewrite Hst|]| |done].
  - intros q Hq. assert (state_of_step p i ≠ StepRejected) by (apply Hun; by rewrite Hst).
    destruct (reject_stepped _ _ _ _ _ _ Hv Hst Hf ltac:(done) Hq) as (Hfo & s' & Hc & Hs').
    split; [done|]. eapply backed_changed; [done|by apply Hx|]. by rewrite Hs'.
  - by intros q x' (? & _ & ? & _).
Qed.

(** *** The port *)

Lemma post_port {T} (f : P → P * T) x (Q : T → Coordinator → Prop) F :
  Q (f (port x)).2 (with_port x (f (port x)).1) → post (on_port f) x Q F.
Proof. unfold post, on_port. by destruct (f (port x)) as [p r]. Qed.

(** Another port with the same writes. *)
Lemma run_ok_port w0 x p : run_ok w0 x → written p = written (port x) → run_ok w0 (with_port x p).
Proof. intros [H1 H2 H3] Hp. split; simpl; [done|by rewrite Hp|by rewrite Hp]. Qed.

(** The write of the operation at [i], with those before it done. *)
Lemma run_ok_write w0 x p i s q :
  run_ok w0 x → kept_in x p → first_incomplete p = Some i → steps p !! i = Some s →
  step_operation s ∉ written (port x) → written q = written (port x) ++ [step_operation s] →
  run_ok w0 (with_port x q).
Proof.
  intros [H1 H2 H3] Hk Hf Hs Hnot Hw. destruct (kept_facts _ _ Hk) as (Hv & _ & _).
  assert (Hop : ∀ j sj, steps p !! j = Some sj → ordered sha (authorization p) !! j = Some (step_operation sj)).
  { intros j sj Hj. by rewrite <-(validate_ops _ _ Hv), list_lookup_fmap, Hj. }
  split; simpl; [done| |]; rewrite Hw.
  - intros p' Hp'. eapply backed_mono; [|by apply H2]. set_solver.
  - eapply (writes_one w0 _ (authorization p) i); [done|done|by apply Hop|].
    intros j op Hlt Hj. rewrite <-(validate_ops _ _ Hv), list_lookup_fmap in Hj.
    apply fmap_Some in Hj as (sj & Hsj & ->). apply (H2 _ Hk j); [done|].
    destruct (first_incomplete_Some _ _ Hf) as (_ & _ & _ & Hbefore). by eapply Hbefore.
Qed.

(** *** The loop of [resume] *)

Lemma stepped_incomplete p t i st q s :
  stepped p t i st q → first_incomplete p = Some i → steps p !! i = Some s → st ≠ StepSucceeded →
  first_incomplete q = Some i ∧ ∃ s', steps q !! i = Some s' ∧ step_operation s' = step_operation s.
Proof.
  intros (_ & s' & [(s0 & Hs0 & Ho) Hq] & Hst) Hf Hs Hne. simplify_eq.
  destruct (first_incomplete_Some _ _ Hf) as (_ & _ & _ & Hbefore).
  assert (Hi : steps q !! i = Some s') by (rewrite Hq; apply list_lookup_insert_eq; by eapply lookup_lt_Some).
  split; [|by exists s']. unfold first_incomplete. apply fmap_Some. exists (i, s'). split; [|done].
  apply list_find_Some. split_and!; [done|done|]. intros j y. rewrite Hq.
  intros Hj Hlt Hy. rewrite list_lookup_insert_ne in Hj by lia. by apply Hy, (Hbefore j).
Qed.

Lemma stepped_next p t i q :
  stepped p t i StepSucceeded q → first_incomplete p = Some i → length (steps p) = 4%nat →
  (i < default 4 (first_incomplete q))%nat.
Proof.
  intros (_ & s' & [(s0 & Hs0 & Ho) Hq] & Hst) Hf Hl. apply lookup_lt_Some in Hs0 as Hlt.
  destruct (first_incomplete_Some _ _ Hf) as (_ & _ & _ & Hbefore).
  destruct (first_incomplete q) as [j|] eqn:Ej; simpl; [|lia].
  destruct (first_incomplete_Some _ _ Ej) as (sj & Hsj & Hn & _). rewrite Hq in Hsj.
  destruct (decide (i < j)%nat) as [|Hji]; [done|]. exfalso. apply Hn.
  apply list_lookup_insert_Some in Hsj as [(-> & -> & _)|(Hne & Hsj)]; [done|]. by apply (Hbefore j); [lia|].
Qed.

Lemma kept_length x p : kept_in x p → length (steps p) = 4%nat.
Proof.
  intros Hk. destruct (kept_facts _ _ Hk) as (Hv & _ & _).
  by rewrite <-(length_fmap step_operation), (validate_ops _ _ Hv).
Qed.

Lemma working_port x t p q : working x t p → working (with_port x q) t p.
Proof. intros []. by split. Qed.

Lemma apply_absent_ok w0 x p t i s :
  run_ok w0 x → working x t p → first_incomplete p = Some i → steps p !! i = Some s →
  step_operation s ∉ written (port x) →
  post (apply_absent_operation c p t (step_operation s) i) x
    (λ pr x', run_ok w0 x' ∧ match pr with
                             | Continue q => working x' t q ∧ (i < default 4 (first_incomplete q))%nat
                             | Stop q => kept_in x' q
                             end)
    (run_ok w0).
Proof.
  intros Hx Hw Hf Hs Hnot. apply post_bind.
  eapply post_weaken; [apply (mark_ok w0 x p t i StepApplying None); try done; [set_solver]| |done].
  intros q x1 (Hx1 & Hport & Hq & Hstep).
  destruct (stepped_incomplete _ _ _ _ _ _ Hstep Hf Hs ltac:(done)) as (Hfq & s1 & Hs1 & Hop).
  rewrite <-Hop in *. rewrite <-Hport in Hnot. clear Hport Hstep Hs Hx Hw Hf. apply post_bind, post_port.
  destruct (apply_operation (port x1) (step_operation s1)) as [p2 answer] eqn:Ea. simpl.
  assert (Hx2 : run_ok w0 (with_port x1 p2)).
  { destruct (apply_once (port x1) (step_operation s1)) as [Hwr|Hwr]; rewrite Ea in Hwr; simpl in Hwr.
    - eapply run_ok_write; try done. apply Hq.
    - by apply run_ok_port. }
  apply (working_port _ _ _ p2) in Hq. apply post_bind, post_attempt; [|done].
  intros [] Hval%map_err_Ok. set (m := match answer with Ok m => m | Err _ => _ end) in *.
  destruct m as [k g r wr|k code|k code] eqn:Em.
  - assert (answer = Ok (Applied k g r wr)) as -> by (destruct answer; simpl in *; by simplify_eq).
    simpl in Hval. inv_result. split_bools. subst g. apply post_bind, post_attempt; [|done]. intros _ _.
    apply post_bind. eapply post_weaken; [eapply (succeed_ok w0); try done; by eapply apply_applied| |done].
    intros z x3 (Hx3 & Hz & Hst). apply post_ret. split_and!; [done|done|].
    eapply stepped_next; [done|done|]. eapply kept_length, Hq.
  - apply post_bind. eapply post_weaken; [apply (mark_ok w0 _ q t i StepUnknown (Some code)); try done; set_solver| |done].
    intros z x3 (? & _ & [] & _). by apply post_ret.
  - apply post_bind. eapply post_weaken; [by apply (reject_ok w0)| |done].
    intros z x3 [? ?]. by apply post_ret.
Qed.

Lemma resume_loop_ok w0 fuel x p t :
  run_ok w0 x → working x t p → (4 < fuel + default 4 (first_incomplete p))%nat →
  post (resume_loop c fuel p t) x (λ o x', run_ok w0 x' ∧ ∃ q, o = Some q ∧ kept_in x' q) (run_ok w0).
Proof.
  revert x p. induction fuel as [|fuel IH]; intros x p Hx Hw Hfuel.
  { destruct (first_incomplete p) as [i|] eqn:Ef; simpl in Hfuel; [|lia].
    destruct (first_incomplete_Some _ _ Ef) as (s & Hs%lookup_lt_Some & _).
    rewrite (kept_length x p (wk_kept _ _ _ Hw)) in Hs. lia. }
  simpl. destruct (first_incomplete p) as [i|] eqn:Ef; simpl in Hfuel; cycle 1.
  { apply post_bind. destruct Hw as [Hk Hst Hup]. destruct (kept_facts _ _ Hk) as (Hv & _ & _).
    eapply post_weaken; [apply (transition_ok w0); try done; [by rewrite Hst|]| |done].
    - intros q Hq. destruct (finish_follows _ _ _ _ Hv Hst Hq) as (Hfo & Hsq & _). split; [done|].
      eapply backed_same; [done|by apply Hx].
    - intros q x' (Hx' & _ & Hq & _). apply post_ret. eauto. }
  destruct (first_incomplete_Some _ _ Ef) as (s & Hs & _). rewrite Hs. apply post_bind, post_port.
  destruct (lookup_operation (port x) (step_operation s)) as [p1 answer] eqn:El. simpl.
  pose proof (lookup_silent (port x) (step_operation s)) as Hsil. rewrite El in Hsil. simpl in Hsil.
  assert (Hx1 : run_ok w0 (with_port x p1)) by (by apply run_ok_port).
  apply (working_port _ _ _ p1) in Hw. apply post_bind, post_attempt; [|done].
  intros [] Hval%map_err_Ok. set (o := match answer with Ok o => o | Err _ => _ end) in *.
  assert (Hans : ∀ z, o = z → (∀ k code, z ≠ UnknownObservation k code) → answer = Ok z).
  { intros z Hz Hne. destruct answer; simpl in *; [by subst|]. by destruct (Hne _ _ (eq_sym Hz)). }
  destruct o as [k g r|k|k code|k code] eqn:Eo.
  - specialize (Hans _ eq_refl ltac:(done)) as ->. simpl in Hval. inv_result. split_bools. subst g.
    apply post_bind, post_bind, post_attempt; [|done]. intros _ _.
    eapply post_weaken; [eapply (succeed_ok w0); try done; simpl; rewrite Hsil; by eapply lookup_found| |done].
    intros q x2 (Hx2 & Hq & Hst). apply IH; [done|done|].
    pose proof (stepped_next _ _ _ _ Hst Ef (kept_length _ _ (wk_kept _ _ _ Hw))). lia.
  - specialize (Hans _ eq_refl ltac:(done)) as ->. apply post_bind.
    eapply post_weaken; [apply (apply_absent_ok w0); try done; simpl; rewrite Hsil; by eapply lookup_absent| |done].
    intros [q|q] x2 (Hx2 & Hq); [|apply post_ret; eauto]. destruct Hq as [Hq Hlt]. apply IH; [done|done|]. lia.
  - apply post_bind. eapply post_weaken; [apply (mark_ok w0 _ p t i StepUnknown (Some code)); try done; set_solver| |done].
    intros q x2 (Hx2 & _ & [] & _). apply post_ret. eauto.
  - apply post_bind. eapply post_weaken; [by apply (reject_ok w0)| |done].
    intros q x2 [? ?]. apply post_ret. eauto.
Qed.

(** *** The commands *)

(** An action that leaves the ledger and the port alone. *)
Definition silent {T} (m : act Coordinator PublicationError T) : Prop :=
  ∀ x, ledger (m x).1 = ledger x ∧ port (m x).1 = port x.

Lemma authorize_silent i a context policy : silent (authorize c i a context policy).
Proof.
  intros x. unfold authorize, mbind, act_bind, attempt, on_audit. destruct (map_err _ _) as [d|]; [|done].
  by destruct (audit_record (audit x) d) as [a' [[]|]].
Qed.

Lemma authorize_resume_silent p t context policy : silent (authorize_resume c p t context policy).
Proof.
  intros x. unfold authorize_resume, mbind, act_bind, attempt. destruct (refuse _ _); [|done].
  destruct (refuse _ _); [|done]. apply authorize_silent.
Qed.

Lemma post_silent {T} (m : act Coordinator PublicationError T) w0 x (Q : T → Coordinator → Prop) :
  silent m → run_ok w0 x →
  (∀ a x', m x = (x', Ok a) → run_ok w0 x' → ledger x' = ledger x → port x' = port x → Q a x') →
  post m x Q (run_ok w0).
Proof.
  intros Hs Hx HQ. destruct (Hs x) as [Hl Hp]. assert (Hx' : run_ok w0 (m x).1).
  { destruct Hx as [H1 H2 H3]. split; rewrite ?Hl, ?Hp; auto. }
  unfold post. destruct (m x) as [x' [a|e]] eqn:Em; simpl in *; [by apply HQ|done].
Qed.

Lemma resume_ok w0 x i t context policy :
  run_ok w0 x →
  post (resume c i t context policy) x (λ o x', run_ok w0 x' ∧ ∃ q, o = Some q ∧ kept_in x' q) (run_ok w0).
Proof.
  intros Hx. apply post_bind, post_attempt_with; [|apply Hx]. intros p Hl.
  destruct (load_last c c_ok _ _ _ (ro_sound _ _ Hx) Hl) as (h & Hh & Hp & Hi).
  pose proof (last_kept _ _ _ _ _ Hh Hp Hi) as Hk. apply post_bind, post_silent; [apply authorize_resume_silent|done|].
  intros u x1 Ha Hx1 Hl1 Hp1. rewrite <-Hl1 in Hk.
  assert (Hup : updated_at_millis p ≤ t).
  { unfold authorize_resume, mbind, act_bind, attempt in Ha. destruct (refuse _ _) eqn:Er; [|done].
    apply refuse_Ok in Er. split_bools. lia. }
  destruct (is_terminal (state p)) eqn:Et; [by apply post_ret; eauto|]. apply post_bind.
  assert (Hloop : ∀ q x', run_ok w0 x' → working x' t q →
    post (resume_loop c 5 q t) x' (λ o x', run_ok w0 x' ∧ ∃ q, o = Some q ∧ kept_in x' q) (run_ok w0)).
  { intros q x' Hx' Hw. apply resume_loop_ok; [done|done|lia]. }
  destruct (kept_facts _ _ Hk) as (Hv & _ & _). case_bool_decide as Hst.
  - eapply post_weaken; [apply (transition_ok w0); try done| |done].
    + intros q Hq. destruct (begin_follows _ _ _ _ Hv Hst Hq) as (Hfo & Hsq & _). split; [done|].
      eapply backed_same; [done|by apply Hx1].
    + intros q x' (Hx' & _ & Hkq & Hq). specialize (Hq eq_refl). apply Hloop; [done|].
      destruct (begin_follows _ _ _ _ Hv Hst Hq) as ([[] _] & _ & Hqs). split; [done|done|lia].
  - apply post_ret, Hloop; [done|]. split; [done| |done]. by destruct (state p).
Qed.

Lemma publish_ok w0 x cx command a context policy :
  run_ok w0 x → actor_key (receipt_identity cx) ≠ INTERNAL_ACTOR_KEY →
  post (publish c cx command a context policy) x (λ q x', run_ok w0 x' ∧ kept_in x' q) (run_ok w0).
Proof.
  intros Hx Hi. apply post_bind, post_attempt_with; [|apply Hx]. intros [p|] Hr.
  { apply post_ret. split; [done|]. eapply replay_answered; [apply Hx|done]. }
  apply post_bind, post_attempt; [|done]. intros _ _. apply post_bind, post_attempt; [|done]. intros _ _.
  apply post_bind, post_silent; [apply authorize_silent|done|]. intros _ x1 _ Hx1 _ _.
  clear Hr Hx x. rename x1 into x, Hx1 into Hx.
  apply post_bind, post_attempt; [|done]. intros p Hp. unfold initial in Hp. inv_result.
  match goal with H : validate _ _ = Ok ?u |- _ => destruct u; rename H into Hv end.
  apply post_bind, post_attempt_with; [|apply Hx]. intros [|] _.
  { apply post_attempt_with; [|apply Hx]. intros q Hq. split; [done|]. unfold replay_or_already_exists in Hq.
    inv_result. eapply replay_answered; [apply Hx|done]. }
  match goal with |- post (on_ledger (λ s, create c s cx ?p)) _ _ _ => set (p0 := p) in * end.
  destruct (create_grown c c_ok (ledger x) cx p0 (ro_sound _ _ Hx) Hv eq_refl eq_refl Hi) as [Hg Hans].
  unfold post, on_ledger. destruct (create c (ledger x) cx p0) as [s' r]; simpl in *.
  assert (Hx' : run_ok w0 (with_ledger x s')).
  { split; simpl; [apply Hg| |apply Hx]. intros q [Hq| ->]%(grown_only _ _ _ _ Hg); [by apply Hx|].
    apply validate_states in Hv as (_ & Hv & _). intros j s Hs Hst.
    by rewrite (Forall_lookup_1 _ _ _ _ (Hv eq_refl) Hs) in Hst. }
  destruct r as [q|e]; [|done]. split; [done|by apply Hans].
Qed.

Lemma cancel_ok w0 x cx command :
  run_ok w0 x → actor_key (receipt_identity cx) ≠ INTERNAL_ACTOR_KEY →
  post (cancel c cx command) x (λ q x', run_ok w0 x' ∧ kept_in x' q) (run_ok w0).
Proof.
  intros Hx Hi. apply post_bind, post_attempt_with; [|apply Hx]. intros [p|] Hr.
  { apply post_ret. split; [done|]. eapply replay_answered; [apply Hx|done]. }
  apply post_bind, post_attempt_with; [|apply Hx]. intros p Hl.
  destruct (load_last c c_ok _ _ _ (ro_sound _ _ Hx) Hl) as (h & Hh & Hp & Hid).
  pose proof (last_kept _ _ _ _ _ Hh Hp Hid) as Hk. destruct (kept_facts _ _ Hk) as (Hv & _ & _).
  apply post_bind, post_attempt; [|done]. intros _ _. apply post_bind, post_attempt; [|done]. intros ? Hup%refuse_Ok.
  apply post_bind, post_attempt; [|done]. intros ? Ht%refuse_Ok.
  eapply post_weaken; [apply (transition_ok w0 x p); try done; [lia|by intros ? ? [= <- <-]|]| |done].
  - intros q Hq. destruct (cancel_follows _ _ _ _ _ Hv Ht Hq) as [Hfo Hsq]. split; [done|].
    eapply backed_same; [done|by apply Hx].
  - by intros q x' (? & _ & ? & _).
Qed.

(** ** Runs *)

(** A command from outside, under a receipt identity that is not the coordinator's own, or a
    restart over the same storage and provider.  A crash inside a command is a failure of
    the storage or the port there. *)
Inductive command_step : Coordinator → Coordinator → Prop :=
| run_publish x cx command a context policy :
    actor_key (receipt_identity cx) ≠ INTERNAL_ACTOR_KEY →
    command_step x (publish c cx command a context policy x).1
| run_resume x i t context policy : command_step x (resume c i t context policy x).1
| run_cancel x cx command :
    actor_key (receipt_identity cx) ≠ INTERNAL_ACTOR_KEY → command_step x (cancel c cx command x).1
| run_restart x x' :
    contents (ledger x') = contents (ledger x) → written (port x') = written (port x) → command_step x x'.

Definition fresh x : Prop :=
  states (contents (ledger x)) = ∅ ∧ journals (contents (ledger x)) = ∅ ∧ receipts (contents (ledger x)) = ∅.

Lemma step_ok w0 x x' : command_step x x' → run_ok w0 x → run_ok w0 x'.
Proof.
  intros [] Hx.
  - apply post_state. eapply post_weaken; [by apply publish_ok|by intros ? ? []|done].
  - apply post_state. eapply post_weaken; [by apply resume_ok|by intros ? ? []|done].
  - apply post_state. eapply post_weaken; [by apply cancel_ok|by intros ? ? []|done].
  - destruct Hx as [H1 H2 H3]. split; congruence || (intros; rewrite ?H, ?H0 in *; auto).
Qed.

Lemma fresh_ok x : fresh x → run_ok (written (port x)) x.
Proof.
  intros (H1 & H2 & H3). split; [split| |constructor].
  - intros i. right. by rewrite H1, H2, !lookup_empty.
  - intros i g r. by rewrite H3, lookup_empty.
  - intros p (h & Hh & _). destruct (ha_state _ _ _ _ Hh) as (? & ? & _ & _ & Hs). by rewrite H1, lookup_empty in Hs.
Qed.

Lemma run_ok_reachable x0 x : fresh x0 → rtc command_step x0 x → run_ok (written (port x0)) x.
Proof.
  intros Hf%fresh_ok Hr. revert Hf. generalize (written (port x0)) as w0. intros w0.
  induction Hr as [|x y z Hs _ IH]; [done|]. intros Hx. by apply IH, (step_ok _ x).
Qed.

Lemma ordered_writes_new w0 w :
  ordered_writes w0 w → ∃ new, w = w0 ++ new ∧ NoDup new ∧ ∀ op, op ∈ new → op ∉ w0.
Proof.
  induction 1 as [|w a j op H (new & -> & Hnd & Hn) Hop Hj Hb].
  - exists []. rewrite app_nil_r. split_and!; [done|constructor|]. intros op Hop%elem_of_nil. done.
  - exists (new ++ [op]). rewrite elem_of_app in Hop. split_and!; [by rewrite app_assoc| |].
    + apply NoDup_app. split_and!; [done| |by apply NoDup_singleton]. intros y Hy Hy'%list_elem_of_singleton. naive_solver.
    + intros y [Hy|Hy%list_elem_of_singleton]%elem_of_app; naive_solver.
Qed.

(** ** The policy's leave *)

(** An action that records no decision. *)
Definition unaudited {T} (m : act Coordinator PublicationError T) : Prop := ∀ x, audit (m x).1 = audit x.

Lemma unaudited_bind {T U} (m : act Coordinator PublicationError T) (f : T → act Coordinator PublicationError U) :
  unaudited m → (∀ a, unaudited (f a)) → unaudited (m ≫= f).
Proof.
  intros Hm Hf x. specialize (Hm x). unfold mbind, act_bind.
  destruct (m x) as [x' [a|e]]; simpl in *; [|done]. by rewrite Hf.
Qed.

Lemma unaudited_attempt {T} (r : result PublicationError T) : unaudited (attempt r).
Proof. done. Qed.

Lemma unaudited_attempt_with {T} (f : Coordinator → result PublicationError T) : unaudited (attempt_with f).
Proof. done. Qed.

Lemma unaudited_ret {T} (a : T) : unaudited (mret a).
Proof. done. Qed.

Lemma unaudited_ledger {T} (f : St → St * result PublicationError T) : unaudited (on_ledger f).
Proof. intros x. unfold on_ledger. by destruct (f (ledger x)). Qed.

Lemma unaudited_port {T} (f : P → P * T) : unaudited (on_port f).
Proof. intros x. unfold on_port. by destruct (f (port x)). Qed.

#[local] Hint Resolve unaudited_bind unaudited_attempt unaudited_attempt_with unaudited_ret unaudited_ledger
  unaudited_port : wwc.

Lemma transition_unaudited p t receipt change : unaudited (transition_with_receipt c p t receipt change).
Proof. unfold transition_with_receipt. auto 8 with wwc. Qed.
#[local] Hint Resolve transition_unaudited : wwc.

Lemma apply_unaudited p t op i : unaudited (apply_absent_operation c p t op i).
Proof.
  unfold apply_absent_operation, transition.
  repeat (apply unaudited_bind; [auto with wwc|intros ?]). case_match; auto with wwc.
Qed.
#[local] Hint Resolve apply_unaudited : wwc.

Lemma resume_loop_unaudited fuel p t : unaudited (resume_loop c fuel p t).
Proof.
  revert p. induction fuel as [|fuel IH]; intros p; simpl; [auto with wwc|]. unfold transition_found, transition.
  repeat (case_match; try apply unaudited_bind; intros; auto with wwc).
Qed.

(** What is left of [resume] once it is authorized. *)
Lemma resume_rest_unaudited n p t :
  unaudited (if is_terminal (state p) then mret (Some p)
             else q ← (if bool_decide (state p = Pending) then transition c p t begin_publishing else mret p);
                  resume_loop c n q t).
Proof.
  destruct (is_terminal (state p)); [done|]. apply unaudited_bind; [|intros; apply resume_loop_unaudited].
  case_bool_decide; [apply transition_unaudited|done].
Qed.

(** What [authorize] lets pass. *)
Lemma authorize_Ok i a context policy x x' u :
  authorize c i a context policy x = (x', Ok u) →
  ∃ d, evaluate sha policy context i a = Ok d ∧ effect d = Allow ∧
    audit_record (audit x) d = (audit x', Ok tt).
Proof.
  unfold authorize, mbind, act_bind, attempt, on_audit.
  destruct (evaluate sha policy context i a) as [d|] eqn:Ee; simpl; [|done].
  destruct (audit_record (audit x) d) as [a' [[]|]] eqn:Ea; simpl; [|done]. intros [= <- Hd].
  exists d. split_and!; [done| |done]. apply refuse_Ok in Hd. split_bools. by destruct (effect d).
Qed.
End runs.
