(* ===== verification/PublicationSafety.v ===== *)
(** * Publication safety

    The theorems on the publication coordinator, over any storage and port that keep their
    contracts, with an in-memory storage, a provider that keeps what it is told and the
    fixture of [test_support.rs] as their witnesses. *)

From Stdlib Require Import Ascii String.
From S2P Require Import Prelude Text Numerals Transaction PublicationFacts Publication PublicationLedger.
From S2P Require Import PublicationRuns.
From S2P Require Frame.
Local Open Scope Z_scope.

(** ** Theorems *)

Section safety.
Context (c : PublicationCodec) (c_ok : codec_ok c).
Context {St P A : Type} `{!PublicationStorage St, !PublicationPort P, !PublicationPolicyAudit A}.
Context `{!PublicationStorageLaws St, !TruthfulPort P}.

Implicit Types x : PublicationCoordinator St P A.

(** C4. Whatever sequence of publish, resume and cancel commands runs from an empty ledger,
    with failures of the storage and the port anywhere, the provider carries out each
    operation at most once and never one that it had before; every operation is carried out
    after the operations before it of the same authorization; and a publication that loads
    as published has all four of its operations carried out, one that does not at least those
    of its steps that count as succeeded. *)
Theorem publication_writes_once_in_order x0 x :
  fresh x0 → rtc (command_step c) x0 x →
  ordered_writes c (written (port x0)) (written (port x)) ∧
  (∃ new, written (port x) = written (port x0) ++ new ∧ NoDup new ∧
     ∀ op, op ∈ new → op ∉ written (port x0)) ∧
  (∀ i p, load_publication c (ledger x) i = Ok p →
     backed (written (port x)) p ∧
     (state p = Published → ordered (sha256_json c) (authorization p) ⊆ written (port x))).
Proof.
  intros Hf Hr. destruct (run_ok_reachable c c_ok _ _ Hf Hr) as [Hs Hb Hw].
  split_and!; [done|by eapply ordered_writes_new|]. intros i p Hl.
  destruct (load_last c c_ok _ _ _ Hs Hl) as (h & Hh & Hp & Hi).
  pose proof (last_kept _ _ _ _ _ Hh Hp Hi) as Hk. split; [by apply Hb|]. intros Hpub op.
  destruct (kept_facts _ _ _ Hk) as (Hv & _ & _). rewrite <-(validate_ops _ _ Hv).
  intros (s & -> & [j Hj]%list_elem_of_lookup)%list_elem_of_fmap. apply (Hb _ Hk j); [done|].
  apply validate_states in Hv as (_ & _ & Hv). by apply (Forall_lookup_1 _ _ _ _ (Hv Hpub) Hj).
Qed.

(** C32. What the coordinator stores it can load: after any run, a publication whose rows can be
    read loads as the last of a history that begins pending at revision 1 and in which every
    publication follows from the one before; a reader that asks for the last [limit] entries
    is given exactly those, and is told whether there were more; [detail] shows the last 200. *)
Theorem stored_publication_loads x0 x i st j :
  fresh x0 → rtc (command_step c) x0 x →
  load_state (ledger x) i = Ok (Some st) → load_journal (ledger x) i = Ok j →
  ∃ h p, linked None h ∧ last h = Some p ∧ load_publication c (ledger x) i = Ok p ∧
    (∀ limit, load_publication_history c (ledger x) i limit = Ok (p, latest limit h, omitted limit h)) ∧
    detail c (ledger x) i = Ok {| detail_publication := p; detail_history := status_history <$> latest 200 h;
                                  history_truncated := omitted 200 h |}.
Proof.
  intros Hf Hr Hst Hj. destruct (run_ok_reachable c c_ok _ _ Hf Hr) as [Hs _ _].
  destruct (sound_ids _ _ Hs i) as [[h Hh]|[Hn _]]; [|by apply load_state_reads in Hst; rewrite Hn in Hst].
  destruct (ha_state _ _ _ _ Hh) as (p & _ & Hp & _). exists h, p.
  assert (Hall : ∀ limit, load_publication_history c (ledger x) i limit = Ok (p, latest limit h, omitted limit h)).
  { intros limit. destruct (load_history c c_ok _ _ _ limit _ _ Hh Hst Hj) as (q & Hq & ->). by simplify_eq. }
  split_and!; [apply Hh|done| |done|].
  - unfold load_publication. by rewrite Hall.
  - unfold detail. rewrite Hall. reflexivity.
Qed.


(** Nothing happens without the policy's leave: a [resume] that changes the ledger or the
    provider had the policy evaluated on the publication it loaded, the decision was in favour,
    which holds exactly when the policy permits the requester, the approver, the write, the
    export, the verification and the approval's age, and it is the decision that was recorded
    first. *)
Theorem policy_gates_resume x i t context policy x' r :
  resume c i t context policy x = (x', r) →
  ledger x' = ledger x ∧ port x' = port x ∨
  ∃ p d, load_publication c (ledger x) i = Ok p ∧
    evaluate (sha256_json c) policy context (id p) (authorization p) = Ok d ∧
    permits policy (requester context) (evidence context) (authorization p) ∧
    audit_record (audit x) d = (audit x', Ok tt).
Proof.
  unfold resume. generalize 5%nat as n. intros n H. unfold mbind at 1, act_bind, attempt_with in H.
  destruct (load_publication c (ledger x) i) as [p|] eqn:Hl; [|left; by simplify_eq].
  unfold mbind at 1, act_bind in H.
  pose proof (authorize_resume_silent c p t context policy x) as [Hs1 Hs2].
  destruct (authorize_resume c p t context policy x) as [x1 [u|e]] eqn:Ea; simpl in *; [right|left; by simplify_eq].
  exists p. unfold authorize_resume, mbind, act_bind, attempt in Ea. destruct (refuse _ _); [|done].
  destruct (refuse _ _); [|done]. apply authorize_Ok in Ea as (d & Hd & He & Ha). exists d.
  split_and!; [done|done|by apply (evaluate_permits _ _ _ _ _ _ Hd)|]. rewrite Ha. f_equal.
  pose proof (resume_rest_unaudited c n p t x1) as Hun. exact (eq_trans (eq_sym Hun) (f_equal (λ z, audit z.1) H)).
Qed.
End safety.

(** ** An in-memory storage and a provider *)

#[global] Instance Contents_storage : PublicationStorage Contents := {
  load_receipt d i g :=
    match receipts d !! i with
    | Some (g', r) => if bool_decide (g' = g) then Ok (Some r) else Err StorageRequestConflict
    | None => Ok None
    end;
  load_state d i := Ok (states d !! i);
  load_journal d i := Ok (journals d !! i);
  storage_commit d k :=
    match receipts d !! commit_identity k with
    | Some (g, r) =>
        (d, if bool_decide (g = command_digest k) then Ok r else Err StorageRequestConflict)
    | None =>
        match committed d k with
        | Some d' => (d', Ok (receipt_of k))
        | None => (d, Err StorageRevisionConflict)
        end
    end
}.

#[global] Instance Contents_laws : PublicationStorageLaws Contents.
Proof.
  refine {| contents := λ d, d |}; simpl.
  - by intros ? ? ? [=].
  - by intros ? ? ? [=].
  - intros d i g r. destruct (receipts d !! i) as [[g' r']|]; [|done]. case_bool_decide; [|done]. by intros [= <-]; subst.
  - intros d k d' r. destruct (receipts d !! commit_identity k) as [[g r']|] eqn:E; cbn.
    + case_bool_decide; [|done]. intros [= <- <-]. left. by subst.
    + destruct (committed d k) as [d2|]; [|done]. intros [= <- <-]. by right.
  - intros d k d' e. destruct (receipts d !! commit_identity k) as [[g r']|]; cbn.
    + case_bool_decide; [done|]. by intros [= <- _].
    + by destruct (committed d k) as [d2|]; [done|]; intros [= <- _].
Defined.

(** A provider that keeps the operations it carried out.  It loses the answer to the first
    operation of a kind listed in [lossy]. *)
Record Provider : Type := {
  carried_out : list PublicationOperation;
  lossy : list PublicationOperationKind
}.

Definition resource_of (op : PublicationOperation) : option PublicationResourceFact :=
  match op_payload op with
  | PullRequestPayload repository _ _ _ _ _ =>
      Some {| resource_kind := GitHubPullRequest; resource_repository := repository; resource_number := 8 |}
  | _ => None
  end.

#[global] Instance Provider_port : PublicationPort Provider := {
  lookup_operation p op :=
    (p, Ok (if bool_decide (op ∈ carried_out p)
            then Found (operation_key op) (request_sha256 op) (resource_of op)
            else Absent (operation_key op)));
  apply_operation p op :=
    if bool_decide (op_kind op ∈ lossy p) then
      ({| carried_out := carried_out p ++ [op]; lossy := filter (λ k, k ≠ op_kind op) (lossy p) |},
       Err "transport"%string)
    else
      ({| carried_out := carried_out p ++ [op]; lossy := lossy p |},
       Ok (Applied (operation_key op) (request_sha256 op) (resource_of op) true))
}.

#[global] Instance Provider_truthful : TruthfulPort Provider.
Proof.
  refine {| written := carried_out |}; cbn -[bool_decide].
  - done.
  - intros p op p' k. case_bool_decide; [done|]. by intros [= <- _].
  - intros p op p' k r. by case_bool_decide.
  - intros p op. left. by case_bool_decide.
  - intros p op p' k r w. case_bool_decide; [done|]. intros [= <- _ _ _]. simpl. set_solver.
Defined.

#[global] Instance list_audit : PublicationPolicyAudit (list PublicationPolicyDecision) :=
  λ l d, (l ++ [d], Ok tt).

(** ** The fixture of [test_support.rs] *)

Definition numbered (prefix : string) (last : ascii) : string :=
  (prefix ++ repeated 25 "0" ++ String last EmptyString)%string.

Definition fixture_hash (x : HashInput) : string := repeated 64 "a".

Definition fixture_scope : RepositoryPolicyScope :=
  {| organization := numbered "org_" "1"; workspace := numbered "wsp_" "1"; project := numbered "prj_" "1";
     repository := numbered "rep_" "1" |}.

Definition fixture_target : PublicationTarget :=
  {| target_schema_version := 3; target_provider := "github"; target_kind := "pull-request";
     target_repository := "example/widget"; base_branch := "main"; head_repository := "example/widget";
     head_branch := "winwincode/delivery" |}.

Definition fixture_binding : PublicationFactBinding :=
  {| binding_candidate_digest := "sha256:" ++ repeated 64 "a"; delivery_id := numbered "dlv_" "1";
     delivery_revision := 21; delivery_spec_id := numbered "spec_" "1"; delivery_spec_revision := 1;
     candidate_ref := "refs/winwincode/candidates/" ++ repeated 40 "a"; diff_sha256 := repeated 64 "c";
     verdict_id := "verdict:fixture:pass"; approval_id := numbered "att_" "1";
     approval_review_set_sha256 := repeated 64 "d"; target_sha256 := repeated 64 "a" |}.

Definition fixture_authorization : PublicationAuthorization :=
  {| binding := fixture_binding;
     source := {| source_schema_version := 3; source_provider := "github"; source_kind := "issue";
                  source_repository := "example/widget"; source_number := 7 |};
     target := fixture_target; candidate_digest := "sha256:" ++ repeated 64 "a";
     candidate_commit_id := repeated 40 "a"; artifact_id := numbered "art_" "1";
     artifact_digest := "sha256:" ++ repeated 64 "b"; approved_by := numbered "usr_" "1";
     approved_at_millis := 1000; repository_scope_sha256 := "sha256:" ++ repeated 64 "a";
     publication_set_sha256 := "sha256:" ++ repeated 64 "a";
     provider_idempotency_key := "github:pull-request:sha256:" ++ repeated 64 "a" |}.

Definition fixture_policy : RepositoryPublicationPolicy :=
  {| policy_scope := fixture_scope; policy_repository := "example/widget";
     allowed_requesters := [User (numbered "usr_" "2")]; denied_requesters := [];
     allowed_approvers := [numbered "usr_" "1"]; denied_approvers := [];
     repository_write := PermissionAllow; require_independent_verification := true;
     artifact_export := PermissionAllow; max_approval_age_millis := 10000;
     policy_digest := "sha256:" ++ repeated 64 "a" |}.

Definition fixture_context (request : ascii) (observed : Z) : PublicationPolicyContext :=
  {| requester := User (numbered "usr_" "2"); ctx_request_id := numbered "req_" request;
     ctx_scope := fixture_scope; origin := Local "publication-test";
     evidence := {| ev_publication_set_sha256 := "sha256:" ++ repeated 64 "a";
                    ev_repository_scope_sha256 := "sha256:" ++ repeated 64 "a";
                    independent_verification := true; artifact_exportable := true;
                    observed_at_millis := observed |} |}.

Definition fixture_id : string := numbered "pub_" "1".

Definition fixture_command : PublicationPublishCommand :=
  {| publish_publication_id := fixture_id; publish_delivery_id := numbered "dlv_" "1";
     publish_candidate_digest := "sha256:" ++ repeated 64 "a"; publish_target := fixture_target |}.

Definition fixture_publish_context : PublicationCommandContext :=
  {| receipt_identity := {| actor_key := "fixture-publication-actor"; scope_key := "fixture-publication-repository-scope";
                            request_id := numbered "req_" "1" |};
     context_command_digest := "sha256:" ++ repeated 64 "e"; expected_revision := 0;
     context_occurred_at_millis := 1100 |}.

(** The publications of a run: each change at its time, from the first publication. *)
Fixpoint played (p : Publication) (changes : list (Z * (Publication → outcome Publication))) : list Publication :=
  p :: match changes with
       | [] => []
       | (t, change) :: changes =>
           match change (advanced p t) with Ok q => played q changes | Err _ => [] end
       end.

Definition fixture_resource : option PublicationResourceFact :=
  Some {| resource_kind := GitHubPullRequest; resource_repository := "example/widget"; resource_number := 8 |}.

(** The answer to the first write is lost; the second [resume] finds it done. *)
Definition fixture_changes : list (Z * (Publication → outcome Publication)) :=
  [(2000, begin_publishing); (2000, mark_applying 0); (2000, mark_unknown 0 "transport");
   (3000, succeed_step 0 None true); (3000, mark_applying 1); (3000, succeed_step 1 fixture_resource true);
   (3000, mark_applying 2); (3000, succeed_step 2 None true); (3000, mark_applying 3);
   (3000, succeed_step 3 None true); (3000, finish_published)].

Definition fixture_history : list Publication :=
  match initial fixture_hash fixture_id fixture_authorization 1100 with
  | Ok p => played p fixture_changes
  | Err _ => []
  end.

#[global] Instance PublicationManifest_eq_dec : EqDecision PublicationManifest.
Proof. solve_decision. Defined.

Definition fixture_codec : PublicationCodec :=
  {| json_publication := Frame.table_json fixture_history;
     json_manifest := Frame.table_json (match fixture_history with
                                  | p :: _ => [manifest_of fixture_id (intent_sha256 p)]
                                  | [] => [] end);
     sha256_json := fixture_hash;
     digest_u128 x := match x with HashReceipt _ revision _ => revision | _ => 0 end;
     sha256_hex b := string_of_list_byte b |}.

Lemma fixture_codec_ok : codec_ok fixture_codec.
Proof.
  split; [apply Frame.table_json_round_trip..|]. intros p q b b' _ _. unfold canonical_sha256_bytes.
  intros H%(inj (String.append _)). change (string_of_list_byte b = string_of_list_byte b') in H.
  by rewrite <-(list_byte_of_string_of_list_byte b), H, list_byte_of_string_of_list_byte.
Qed.

Abbreviation FixtureCoordinator := (PublicationCoordinator Contents Provider (list PublicationPolicyDecision)).

Definition fixture_start : FixtureCoordinator :=
  {| ledger := {| states := ∅; journals := ∅; receipts := ∅ |};
     port := {| carried_out := []; lossy := [Branch] |}; audit := [] |}.

Definition fixture_published : FixtureCoordinator :=
  (publish fixture_codec fixture_publish_context fixture_command fixture_authorization
     (fixture_context "1" 1100) fixture_policy fixture_start).1.

Definition fixture_resumed : FixtureCoordinator :=
  (resume fixture_codec fixture_id 2000 (fixture_context "2" 2000) fixture_policy fixture_published).1.

Definition fixture_done : FixtureCoordinator :=
  (resume fixture_codec fixture_id 3000 (fixture_context "3" 3000) fixture_policy fixture_resumed).1.

Lemma fixture_run : rtc (command_step fixture_codec) fixture_start fixture_done.
Proof.
  eapply rtc_l; [by apply (run_publish _ _ fixture_publish_context fixture_command fixture_authorization
    (fixture_context "1" 1100) fixture_policy)|].
  eapply rtc_l; [apply (run_resume _ _ fixture_id 2000 (fixture_context "2" 2000) fixture_policy)|].
  eapply rtc_l; [apply (run_resume _ _ fixture_id 3000 (fixture_context "3" 3000) fixture_policy)|].
  apply rtc_refl.
Qed.

Lemma fixture_fresh : fresh fixture_start.
Proof. done. Qed.

Lemma fixture_final : ∃ p, last fixture_history = Some p ∧ state p = Published ∧
  load_publication fixture_codec (ledger fixture_done) fixture_id = Ok p.
Proof.
  assert (Hl : load_publication fixture_codec (ledger fixture_done) fixture_id =
    ok_or (last fixture_history) (error Corrupt)) by (vm_compute; reflexivity).
  assert (Hst : state <$> last fixture_history = Some Published) by (vm_compute; reflexivity).
  destruct (last fixture_history) as [p|]; [|done]. injection Hst as Hst. exists p. exact (conj eq_refl (conj Hst Hl)).
Qed.

Lemma fixture_stored : bool_decide (is_Some (states (ledger fixture_done) !! fixture_id)) = true.
Proof. vm_compute. reflexivity. Qed.


Lemma fixture_wrote :
  bool_decide (carried_out (port fixture_resumed) = carried_out (port fixture_published)) = false.
Proof. vm_compute. reflexivity. Qed.

(** ** Witnesses *)

Lemma publication_writes_once_in_order_witness :
  NoDup (carried_out (port fixture_done)) ∧
  ∃ p, load_publication fixture_codec (ledger fixture_done) fixture_id = Ok p ∧
    ordered fixture_hash (authorization p) ⊆ carried_out (port fixture_done).
Proof.
  destruct (publication_writes_once_in_order fixture_codec fixture_codec_ok fixture_start fixture_done
    fixture_fresh fixture_run) as (_ & (new & Hnew & Hnd & _) & Hall).
  split.
  { change (carried_out (port fixture_done) = new) in Hnew. rewrite Hnew. exact Hnd. }
  destruct fixture_final as (p & _ & Hst & Hl). exists p. exact (conj Hl (proj2 (Hall _ _ Hl) Hst)).
Defined.

Lemma stored_publication_loads_witness :
  ∃ h p, load_publication_history fixture_codec (ledger fixture_done) fixture_id 2 =
    Ok (p, latest 2 h, omitted 2 h).
Proof.
  destruct (proj1 (bool_decide_eq_true _) fixture_stored) as [st Est].
  destruct (stored_publication_loads fixture_codec fixture_codec_ok fixture_start fixture_done fixture_id st
    (journals (ledger fixture_done) !! fixture_id) fixture_fresh fixture_run) as (h & p & _ & _ & _ & Hall & _).
  - exact (f_equal Ok Est).
  - reflexivity.
  - exists h, p. apply Hall.
Defined.


Lemma policy_gates_resume_witness :
  ∃ p, permits fixture_policy (User (numbered "usr_" "2")) (evidence (fixture_context "2" 2000)) (authorization p) ∧
    load_publication fixture_codec (ledger fixture_published) fixture_id = Ok p.
Proof.
  destruct (policy_gates_resume fixture_codec fixture_published fixture_id 2000 (fixture_context "2" 2000)
    fixture_policy fixture_resumed
    (resume fixture_codec fixture_id 2000 (fixture_context "2" 2000) fixture_policy fixture_published).2)
    as [[_ Hp]|(p & d & Hl & _ & Hperm & _)].
  - apply surjective_pairing.
  - exfalso. apply (proj1 (bool_decide_eq_false _) fixture_wrote). exact (f_equal carried_out Hp).
  - exists p. exact (conj Hperm Hl).
Defined.
