(* ===== verification/StateKeys.v ===== *)
(** * The state store: identities, streams and receipt keys

    Models the value types of [crates/winwincode-storage/src/lib.rs] up to the state commit:
    errors, the actors, scopes and sources of public events, projection streams with their
    stored form, cursors, and the length-prefixed keys under which command receipts are
    kept.  An error is its kind and its guard flag, without its text; a [Vec<u8>] key is the
    string of its bytes.  The file shows that a key determines the actor or scope it was made
    from, and that a stored stream reads back. *)

From Stdlib Require Import Ascii String.
From S2P Require Import Prelude Text Numerals.
Local Open Scope Z_scope.

(** ** Errors *)

Inductive StorageErrorKind : Type :=
| InvalidInput
| RevisionConflict
| RequestConflict
| RequestReplayMissing
| JournalAlreadyExists
| JournalNotFound
| JournalConflict
| EventCursorExpired
| Adapter
| Closed.

#[global] Instance StorageErrorKind_eq_dec : EqDecision StorageErrorKind.
Proof. solve_decision. Defined.

Record StorageError : Type := {
  kind : StorageErrorKind;
  state_guard_conflict : bool
}.

Definition storage_error (k : StorageErrorKind) : StorageError :=
  {| kind := k; state_guard_conflict := false |}.

Definition invalid : StorageError := storage_error InvalidInput.
Definition adapter : StorageError := storage_error Adapter.
Definition state_revision_guard_conflict : StorageError :=
  {| kind := RevisionConflict; state_guard_conflict := true |}.

Abbreviation stored A := (result StorageError A).

(** ** Actors, scopes, sources and streams *)

Inductive PublicEventActor : Type :=
| User (id : string)
| ServiceAccount (id : string)
| System (id : string).

Inductive PublicEventScope : Type :=
| Organization (organization_id : string)
| Workspace (organization_id workspace_id : string)
| Project (organization_id workspace_id project_id : string)
| Repository (organization_id workspace_id project_id repository_id : string).

Record SessionIdentity : Type := {
  codex_thread_id : string;
  product_session_id : string;
  worker_session_id : string;
  work_run_id : option string
}.

Inductive PublicEventSource : Type :=
| ControlPlane (actor : PublicEventActor) (component : string)
| ExecutionWorker (worker_id worker_session_id lease_id codex_thread_id : string)
| SessionExecutionWorker (worker_id worker_session_id lease_id codex_thread_id : string)
    (session_identity : SessionIdentity).

Inductive ProjectionEventStream : Type :=
| Scope
| Delivery (id : string)
| ProductSession (id : string)
| Lease (worker_id lease_id : string).

#[global] Instance PublicEventActor_eq_dec : EqDecision PublicEventActor.
Proof. solve_decision. Defined.
#[global] Instance PublicEventScope_eq_dec : EqDecision PublicEventScope.
Proof. solve_decision. Defined.
#[global] Instance SessionIdentity_eq_dec : EqDecision SessionIdentity.
Proof. solve_decision. Defined.
#[global] Instance PublicEventSource_eq_dec : EqDecision PublicEventSource.
Proof. solve_decision. Defined.
#[global] Instance ProjectionEventStream_eq_dec : EqDecision ProjectionEventStream.
Proof. solve_decision. Defined.

(** ** Texts *)

Definition require_canonical_public_id (value prefix : string) : stored () :=
  match strip_prefix prefix value with
  | Some suffix => refuse (negb (str_len suffix =? 26) || negb (all_bytes base32_byte suffix)) invalid
  | None => Err invalid
  end.

Definition validate_sha256_digest (digest : string) : stored () :=
  match strip_prefix "sha256:" digest with
  | Some hex => refuse (negb (str_len hex =? 64) || negb (all_bytes is_hex_lower hex)) invalid
  | None => Err invalid
  end.

Definition canonical_control_plane_event_id (value : string) : bool :=
  match strip_prefix "evt_" value with
  | Some suffix =>
      (16 <=? str_len suffix) && (str_len suffix <=? 128) &&
      all_bytes (λ c, is_ascii_alphanumeric c || one_of "_-" c) suffix
  | None => false
  end.

Definition portable_event_key (value : string) : bool :=
  all_bytes (λ c, is_ascii_alphanumeric c || one_of "._:@-" c) value.

Definition validate_public_event_time (occurred_at : string) : stored () :=
  refuse (negb (instant_shape occurred_at)) invalid.

(** ** Streams *)

Definition stream_kind (s : ProjectionEventStream) : string :=
  match s with
  | Scope => "scope"
  | Delivery _ => "delivery"
  | ProductSession _ => "product-session"
  | Lease _ _ => "lease"
  end.

Definition resource_id (s : ProjectionEventStream) : string :=
  match s with
  | Scope => ""
  | Delivery i | ProductSession i => i
  | Lease worker lease => worker +:+ "/" +:+ lease
  end.

Definition validate_stream (s : ProjectionEventStream) : stored () :=
  refuse (negb match s with
               | Scope => true
               | Delivery i => is_canonical_delivery_id i
               | ProductSession i =>
                   negb (bool_decide (i = ""%string)) && (str_len i <=? 200) && portable_event_key i
               | Lease worker lease =>
                   is_ok (require_canonical_public_id worker "wrk_") &&
                   is_ok (require_canonical_public_id lease "lse_")
               end) invalid.

(** [ProjectionEventStream::from_stored]. *)
Definition from_stored (k r : string) : stored ProjectionEventStream :=
  stream ← (if bool_decide (k = "scope"%string) && bool_decide (r = ""%string) then Ok Scope
            else if bool_decide (k = "delivery"%string) then Ok (Delivery r)
            else if bool_decide (k = "product-session"%string) then Ok (ProductSession r)
            else if bool_decide (k = "lease"%string) then
              match split_once "/" r with
              | Some (worker, lease) =>
                  refuse (existsb (Ascii.eqb "/") (bytes lease)) adapter ;; Ok (Lease worker lease)
              | None => Err adapter
              end
            else Err adapter);
  validate_stream stream ;; Ok stream.

(** ** Receipt keys *)

Definition ACTOR_KEY_PREFIX : string := "winwincode.command-receipt.actor.v1".
Definition SCOPE_KEY_PREFIX : string := "winwincode.command-receipt.scope.v1".

(** [u64::to_be_bytes] with [k] bytes, and [u64::from_be_bytes]. *)
Fixpoint to_be_bytes (k : nat) (n : Z) : string :=
  match k with
  | O => ""
  | S k => String (byte_of (n / 256 ^ Z.of_nat k mod 256)) (to_be_bytes k n)
  end.

Definition from_be_bytes (s : string) : Z := foldl (λ acc c, acc * 256 + byte_val c) 0 (bytes s).

Definition append_public_key_field (encoded value : string) : string :=
  encoded +:+ to_be_bytes 8 (str_len value) +:+ value.

Definition encode_public_key (prefix tag : string) (values : list string) : string :=
  foldl append_public_key_field
    (append_public_key_field (append_public_key_field "" prefix) tag) values.

(** [slice::get] with a range. *)
Definition get_range (s : string) (first last : Z) : option string :=
  if (first <=? last) && (last <=? str_len s)
  then Some (String.substring (Z.to_nat first) (Z.to_nat (last - first)) s) else None.

(** The field at [offset], and the offset after it. *)
Definition decode_public_key_field (encoded : string) (offset : Z) : stored (string * Z) :=
  length ← ok_or (get_range encoded offset (saturating_add_u64 offset 8)) invalid;
  offset ← ok_or (checked_add_u64 offset 8) invalid;
  last ← ok_or (checked_add_u64 offset (from_be_bytes length)) invalid;
  field ← ok_or (get_range encoded offset last) invalid;
  Ok (field, last).

(** [ReceiptActorKey::from_encoded] and [ReceiptScopeKey::from_encoded]. *)
Definition from_encoded (encoded : string) : stored string :=
  refuse (bool_decide (encoded = ""%string)) invalid ;; Ok encoded.

Definition receipt_actor_key (a : PublicEventActor) : stored string :=
  let '(tag, i, prefix) :=
    match a with
    | User i => ("user", i, "usr_")
    | ServiceAccount i => ("service_account", i, "svc_")
    | System i => ("system", i, "sys_")
    end%string in
  require_canonical_public_id i prefix ;;
  from_encoded (encode_public_key ACTOR_KEY_PREFIX tag [i]).

(** [String::from_utf8] needs no check of its own: what it refuses is not canonical either. *)
Definition public_actor_from_receipt_key (key : string) : stored PublicEventActor :=
  '(prefix, offset) ← decode_public_key_field key 0;
  '(tag, offset) ← decode_public_key_field key offset;
  '(i, offset) ← decode_public_key_field key offset;
  refuse (negb (offset =? str_len key) || negb (bool_decide (prefix = ACTOR_KEY_PREFIX))) invalid ;;
  if bool_decide (tag = "user"%string) then require_canonical_public_id i "usr_" ;; Ok (User i)
  else if bool_decide (tag = "service_account"%string) then
    require_canonical_public_id i "svc_" ;; Ok (ServiceAccount i)
  else if bool_decide (tag = "system"%string) then
    require_canonical_public_id i "sys_" ;; Ok (System i)
  else Err invalid.

Definition receipt_scope_key (s : PublicEventScope) : stored string :=
  encoded ←
    match s with
    | Organization o =>
        require_canonical_public_id o "org_" ;;
        Ok (encode_public_key SCOPE_KEY_PREFIX "organization" [o])
    | Workspace o w =>
        require_canonical_public_id o "org_" ;;
        require_canonical_public_id w "wsp_" ;;
        Ok (encode_public_key SCOPE_KEY_PREFIX "workspace" [o; w])
    | Project o w p =>
        require_canonical_public_id o "org_" ;;
        require_canonical_public_id w "wsp_" ;;
        require_canonical_public_id p "prj_" ;;
        Ok (encode_public_key SCOPE_KEY_PREFIX "project" [o; w; p])
    | Repository o w p r =>
        require_canonical_public_id o "org_" ;;
        require_canonical_public_id w "wsp_" ;;
        require_canonical_public_id p "prj_" ;;
        require_canonical_public_id r "rep_" ;;
        Ok (encode_public_key SCOPE_KEY_PREFIX "repository" [o; w; p; r])
    end;
  from_encoded encoded.

Definition repository_scope_from_receipt_key (key : string) : stored PublicEventScope :=
  '(prefix, offset) ← decode_public_key_field key 0;
  '(tag, offset) ← decode_public_key_field key offset;
  '(o, offset) ← decode_public_key_field key offset;
  '(w, offset) ← decode_public_key_field key offset;
  '(p, offset) ← decode_public_key_field key offset;
  '(r, offset) ← decode_public_key_field key offset;
  refuse (negb (offset =? str_len key) || negb (bool_decide (prefix = SCOPE_KEY_PREFIX)) ||
          negb (bool_decide (tag = "repository"%string))) invalid ;;
  require_canonical_public_id o "org_" ;;
  require_canonical_public_id w "wsp_" ;;
  require_canonical_public_id p "prj_" ;;
  require_canonical_public_id r "rep_" ;;
  Ok (Repository o w p r).

Record ReceiptIdentity : Type := {
  actor_key : string;
  scope_key : string;
  request_id : string
}.

#[global] Instance ReceiptIdentity_eq_dec : EqDecision ReceiptIdentity.
Proof. solve_decision. Defined.
#[global] Instance ReceiptIdentity_countable : Countable ReceiptIdentity.
Proof.
  apply (inj_countable' (λ i, (actor_key i, scope_key i, request_id i))
    (λ '(a, s, r), {| actor_key := a; scope_key := s; request_id := r |})). by intros [].
Defined.

(** [ReceiptIdentity::new]. *)
Definition receipt_identity (actor scope request : string) : stored ReceiptIdentity :=
  refuse (bool_decide (request = ""%string)) invalid ;;
  Ok {| actor_key := actor; scope_key := scope; request_id := request |}.

Definition public_receipt_identity (a : PublicEventActor) (s : PublicEventScope) (request : string) :
    stored ReceiptIdentity :=
  require_canonical_public_id request "req_" ;;
  actor ← receipt_actor_key a;
  scope ← receipt_scope_key s;
  receipt_identity actor scope request.

(** ** Sources *)

Definition validate_public_source (source : PublicEventSource) : stored () :=
  match source with
  | ControlPlane actor component =>
      refuse (blank component) invalid ;;
      _ ← receipt_actor_key actor; Ok tt
  | ExecutionWorker worker worker_session lease codex_thread =>
      require_canonical_public_id worker "wrk_" ;;
      require_canonical_public_id worker_session "wsn_" ;;
      require_canonical_public_id lease "lse_" ;;
      require_canonical_public_id codex_thread "cdx_"
  | SessionExecutionWorker worker worker_session lease codex_thread session =>
      refuse (negb (bool_decide (worker_session = worker_session_id session)) ||
              negb (bool_decide (codex_thread = codex_thread_id session))) invalid ;;
      require_canonical_public_id worker "wrk_" ;;
      require_canonical_public_id worker_session "wsn_" ;;
      require_canonical_public_id lease "lse_" ;;
      require_canonical_public_id codex_thread "cdx_" ;;
      require_canonical_public_id (product_session_id session) "psn_" ;;
      match work_run_id session with
      | Some work_run => require_canonical_public_id work_run "wrn_"
      | None => Ok tt
      end
  end.

Definition validate_public_stream_source (stream : ProjectionEventStream) (source : PublicEventSource) :
    stored () :=
  match stream, source with
  | Lease stream_worker stream_lease, ExecutionWorker worker _ lease _
  | Lease stream_worker stream_lease, SessionExecutionWorker worker _ lease _ _ =>
      refuse (negb (bool_decide (worker = stream_worker)) || negb (bool_decide (lease = stream_lease)))
        invalid
  | _, _ => Ok tt
  end.

(** ** Cursors *)

Record ProjectionEventStreamKey : Type := {
  stream_scope_key : string;
  key_stream : ProjectionEventStream
}.

(** [ProjectionEventStreamKey::new]. *)
Definition stream_key (scope : string) (stream : ProjectionEventStream) : stored ProjectionEventStreamKey :=
  validate_stream stream ;; Ok {| stream_scope_key := scope; key_stream := stream |}.

#[global] Instance ProjectionEventStreamKey_eq_dec : EqDecision ProjectionEventStreamKey.
Proof. solve_decision. Defined.

Record ProjectionEventCursor : Type := {
  cursor_key : ProjectionEventStreamKey;
  cursor_sequence : Z;
  cursor_event_id : option string
}.

#[global] Instance ProjectionEventCursor_eq_dec : EqDecision ProjectionEventCursor.
Proof. solve_decision. Defined.

(** [ProjectionEventCursor::try_new]. *)
Definition cursor_try_new (key : ProjectionEventStreamKey) (sequence : Z) (event : option string) :
    stored ProjectionEventCursor :=
  refuse ((max_safe_integer <? sequence) ||
          negb (Bool.eqb (sequence =? 0) (negb (bool_decide (is_Some event)))) ||
          match event with Some i => negb (canonical_control_plane_event_id i) | None => false end)
    adapter ;;
  Ok {| cursor_key := key; cursor_sequence := sequence; cursor_event_id := event |}.

(** ** Lemmas *)

Lemma canonical_Ok value prefix u :
  require_canonical_public_id value prefix = Ok u ↔ is_canonical_prefixed_id value prefix = true.
Proof.
  unfold require_canonical_public_id, is_canonical_prefixed_id. destruct (strip_prefix prefix value); [|done].
  rewrite refuse_Ok, orb_false_iff, !negb_false_iff, andb_true_iff. done.
Qed.

(** *** Length-prefixed fields *)

Definition field (value : string) : string := to_be_bytes 8 (str_len value) +:+ value.

Lemma to_be_bytes_length k n : str_len (to_be_bytes k n) = Z.of_nat k.
Proof. unfold str_len. f_equal. revert n. induction k as [|k IH]; intros n; simpl; [done|]. by rewrite IH. Qed.

Lemma be_bytes_go k n acc :
  0 ≤ n →
  foldl (λ acc c, acc * 256 + byte_val c) acc (bytes (to_be_bytes k n)) =
  acc * 256 ^ Z.of_nat k + n mod 256 ^ Z.of_nat k.
Proof.
  intros Hn. revert acc. induction k as [|k IH]; intros acc.
  { simpl. change (256 ^ Z.of_nat 0) with 1. rewrite Z.mod_1_r. lia. }
  simpl. unfold bytes in IH. rewrite IH, byte_val_byte_of by (apply Z.mod_pos_bound; lia).
  replace (256 ^ Z.of_nat (S k)) with (256 ^ Z.of_nat k * 256)
    by (rewrite Nat2Z.inj_succ, Z.pow_succ_r; lia).
  assert (0 < 256 ^ Z.of_nat k) by (apply Z.pow_pos_nonneg; lia).
  rewrite (Z.rem_mul_r n) by lia. lia.
Qed.

Lemma from_to_be_bytes n : 0 ≤ n ≤ u64_max → from_be_bytes (to_be_bytes 8 n) = n.
Proof.
  intros Hn. unfold from_be_bytes. rewrite be_bytes_go by lia. apply Z.mod_small.
  change (256 ^ Z.of_nat 8) with (u64_max + 1). lia.
Qed.

Lemma field_inj a b r r' :
  str_len a ≤ u64_max → str_len b ≤ u64_max → (field a +:+ r = field b +:+ r')%string → a = b ∧ r = r'.
Proof.
  intros Ha Hb H. unfold field in H. rewrite !str_append_assoc in H.
  apply str_append_inj_l in H as [Hl H]; [|by rewrite !to_be_bytes_length].
  apply (f_equal from_be_bytes) in Hl.
  rewrite !from_to_be_bytes in Hl by (unfold str_len in *; lia).
  apply str_append_inj_l in H; done.
Qed.

Fixpoint fields (values : list string) : string :=
  match values with [] => "" | v :: values => field v +:+ fields values end.

Lemma fold_fields encoded values :
  foldl append_public_key_field encoded values = (encoded +:+ fields values)%string.
Proof.
  revert encoded. induction values as [|v values IH]; intros encoded; simpl.
  - by rewrite str_append_nil_r.
  - rewrite IH. unfold append_public_key_field, field. by rewrite !str_append_assoc.
Qed.

Lemma encode_fields prefix tag values :
  encode_public_key prefix tag values = fields (prefix :: tag :: values).
Proof. exact (fold_fields "" (prefix :: tag :: values)). Qed.

Lemma fields_inj values values' :
  Forall (λ v, str_len v ≤ u64_max) values → Forall (λ v, str_len v ≤ u64_max) values' →
  fields values = fields values' → values = values'.
Proof.
  intros H. revert values'. induction H as [|v values Hv H IH]; intros [|v' values'] H' E;
    [done| | |].
  1,2: apply (f_equal str_len) in E; simpl in E; unfold field in E;
    rewrite !str_len_app, to_be_bytes_length in E; unfold str_len in E; simpl in E; lia.
  apply Forall_cons in H' as [Hv' H']. simpl in E.
  apply field_inj in E as [-> E]; [|done..]. f_equal. by apply IH.
Qed.

Lemma substring_prefix b c : String.substring 0 (String.length b) (b +:+ c) = b.
Proof. induction b as [|x b IH]; [by destruct c|]. exact (f_equal (String x) IH). Qed.

Lemma substring_mid a b c :
  String.substring (String.length a) (String.length b) (a +:+ b +:+ c) = b.
Proof. induction a as [|x a IH]; [exact (substring_prefix b c)|exact IH]. Qed.

Lemma get_range_mid a b c first last :
  first = str_len a → last = str_len a + str_len b → get_range (a +:+ b +:+ c) first last = Some b.
Proof.
  intros -> ->. unfold get_range. rewrite !str_len_app.
  assert (0 ≤ str_len b ∧ 0 ≤ str_len c) as [? ?] by (unfold str_len; lia).
  rewrite !(proj2 (Z.leb_le _ _)) by lia. simpl. f_equal. unfold str_len.
  replace (Z.to_nat (Z.of_nat (String.length a) + Z.of_nat (String.length b) - Z.of_nat (String.length a)))
    with (String.length b) by lia.
  rewrite Nat2Z.id. apply substring_mid.
Qed.

(** Reading the field that follows [a]. *)
Lemma decode_field a v c offset :
  offset = str_len a → str_len (a +:+ field v +:+ c) ≤ u64_max →
  decode_public_key_field (a +:+ field v +:+ c) offset = Ok (v, str_len (a +:+ field v)).
Proof.
  intros -> Hlen. unfold decode_public_key_field, field in *. rewrite !str_len_app, to_be_bytes_length in *.
  assert (0 ≤ str_len a ∧ 0 ≤ str_len v ∧ 0 ≤ str_len c) as (? & ? & ?) by (unfold str_len; lia).
  unfold saturating_add_u64. rewrite Z.min_l, str_append_assoc by lia.
  rewrite (get_range_mid a (to_be_bytes 8 (str_len v))) by (rewrite ?to_be_bytes_length; lia).
  cbn [ok_or mbind result_bind].
  rewrite (proj2 (checked_add_u64_Some (str_len a) 8 _)) by (split; [reflexivity|lia]).
  cbn [ok_or mbind result_bind]. rewrite from_to_be_bytes by lia.
  rewrite (proj2 (checked_add_u64_Some (str_len a + 8) (str_len v) _)) by (split; [reflexivity|lia]).
  cbn [ok_or mbind result_bind]. rewrite <-str_append_assoc, get_range_mid
    by (rewrite str_len_app, to_be_bytes_length; lia).
  cbn [ok_or mbind result_bind]. do 2 f_equal. lia.
Qed.

(** The fields of a key, one after the other. *)
Lemma decode_fields done v values key offset :
  key = fields (done ++ v :: values) → offset = str_len (fields done) → str_len key ≤ u64_max →
  decode_public_key_field key offset = Ok (v, str_len (fields (done ++ [v]))).
Proof.
  assert (∀ l l', fields (l ++ l') = (fields l +:+ fields l')%string) as Happ.
  { induction l as [|x l IH]; intros l'; simpl; [done|]. by rewrite IH, str_append_assoc. }
  intros -> -> Hlen. rewrite !Happ in *. simpl in *. rewrite decode_field by done. by rewrite str_append_nil_r.
Qed.

(** A canonical identifier is short. *)
Lemma canonical_short value prefix u :
  str_len prefix = 4 → require_canonical_public_id value prefix = Ok u → str_len value = 30.
Proof. intros Hp Hv%canonical_Ok%canonical_id_length. lia. Qed.

Lemma from_encoded_Ok encoded key : from_encoded encoded = Ok key → key = encoded.
Proof. unfold from_encoded. intros H. by inv_result. Qed.

(** The fields of an actor's and of a scope's key. *)
Definition actor_fields (a : PublicEventActor) : list string :=
  match a with
  | User i => ["user"; i]
  | ServiceAccount i => ["service_account"; i]
  | System i => ["system"; i]
  end%string.

Definition scope_fields (s : PublicEventScope) : list string :=
  match s with
  | Organization o => ["organization"; o]
  | Workspace o w => ["workspace"; o; w]
  | Project o w p => ["project"; o; w; p]
  | Repository o w p r => ["repository"; o; w; p; r]
  end%string.

Definition canonical_ids (l : list string) : Prop := Forall (λ v, str_len v ≤ 30) l.

Ltac key_fields :=
  inv_result;
  match goal with H : from_encoded _ = _ |- _ => apply from_encoded_Ok in H as -> end;
  rewrite encode_fields; (split; [done|]); cbn [actor_fields scope_fields];
  rewrite !Forall_cons, Forall_nil; split_and!; try exact I;
  first [apply Z.leb_le; reflexivity
        |match goal with
         | H : require_canonical_public_id ?v ?p = Ok _ |- str_len ?v ≤ _ =>
             rewrite (canonical_short v p _ eq_refl H); lia
         end].

Lemma actor_key_fields a key :
  receipt_actor_key a = Ok key →
  key = fields (ACTOR_KEY_PREFIX :: actor_fields a) ∧ canonical_ids (actor_fields a).
Proof.
  unfold receipt_actor_key, canonical_ids.
  destruct a; intros H; key_fields.
Qed.

Lemma scope_key_fields s key :
  receipt_scope_key s = Ok key →
  key = fields (SCOPE_KEY_PREFIX :: scope_fields s) ∧ canonical_ids (scope_fields s).
Proof.
  unfold receipt_scope_key, canonical_ids.
  destruct s; intros H; key_fields.
Qed.

Lemma fields_bound values :
  Forall (λ v, str_len v ≤ 40) values → str_len (fields values) ≤ 48 * Z.of_nat (length values).
Proof.
  induction 1 as [|v values Hv _ IH]; [done|]. simpl. unfold field in *.
  rewrite !str_len_app, to_be_bytes_length. lia.
Qed.

(** Reading the fields of a key in turn. *)
Lemma key_bound prefix values :
  str_len prefix ≤ 40 → canonical_ids values → (length values ≤ 5)%nat →
  str_len (fields (prefix :: values)) ≤ u64_max.
Proof.
  intros Hp Hv Hn. etrans; [apply fields_bound|simpl; unfold u64_max; lia].
  constructor; [done|]. eapply Forall_impl; [exact Hv|]. simpl. lia.
Qed.

(** The offsets of the fields of a key. *)
Lemma decode_key key values :
  key = fields values → str_len key ≤ u64_max →
  ∃ off, 0 = off [] ∧ off values = str_len key ∧
    ∀ d v vs, values = d ++ v :: vs → decode_public_key_field key (off d) = Ok (v, off (d ++ [v])).
Proof.
  intros -> Hlen. exists (λ d, str_len (fields d)). split_and!; [done..|].
  intros d v vs ->. by apply (decode_fields d v vs).
Qed.

(** Reads the next field, after the fields [d]. *)
Ltac decode_next Hoff d :=
  rewrite (Hoff d _ _ eq_refl); cbn [mbind result_bind app].

Lemma actor_key_reads a key : receipt_actor_key a = Ok key → public_actor_from_receipt_key key = Ok a.
Proof.
  intros H. pose proof (actor_key_fields _ _ H) as [Hk Hids].
  destruct (decode_key _ _ Hk) as (off & Hstart & Hend & Hoff).
  { rewrite Hk. apply key_bound; [apply Z.leb_le; reflexivity|done|destruct a; simpl; lia]. }
  clear Hk. unfold public_actor_from_receipt_key, receipt_actor_key in *. rewrite Hstart.
  destruct a as [i|i|i]; cbn [actor_fields] in *; inv_result;
    (match goal with H : off [_; ?t; _] = _ |- _ =>
       decode_next Hoff (@nil string); decode_next Hoff [ACTOR_KEY_PREFIX];
       decode_next Hoff [ACTOR_KEY_PREFIX; t] end);
    rewrite Hend, Z.eqb_refl; cbn; destruct x;
    match goal with H : require_canonical_public_id _ _ = _ |- _ => by rewrite H end.
Qed.

Lemma repository_key_reads o w p r key :
  receipt_scope_key (Repository o w p r) = Ok key →
  repository_scope_from_receipt_key key = Ok (Repository o w p r).
Proof.
  intros H. pose proof (scope_key_fields _ _ H) as [Hk Hids].
  destruct (decode_key _ _ Hk) as (off & Hstart & Hend & Hoff).
  { rewrite Hk. apply key_bound; [apply Z.leb_le; reflexivity|done|simpl; lia]. }
  clear Hk. unfold receipt_scope_key in H. inv_result. unfold repository_scope_from_receipt_key.
  cbn [scope_fields] in *. rewrite Hstart. repeat match goal with u : () |- _ => destruct u end.
  decode_next Hoff (@nil string). decode_next Hoff [SCOPE_KEY_PREFIX].
  decode_next Hoff [SCOPE_KEY_PREFIX; "repository"%string].
  decode_next Hoff [SCOPE_KEY_PREFIX; "repository"%string; o].
  decode_next Hoff [SCOPE_KEY_PREFIX; "repository"%string; o; w].
  decode_next Hoff [SCOPE_KEY_PREFIX; "repository"%string; o; w; p].
  rewrite Hend, Z.eqb_refl, !bool_decide_eq_true_2 by reflexivity. cbn [negb orb refuse mbind result_bind].
  repeat match goal with H : require_canonical_public_id _ _ = _ |- _ => rewrite H; clear H end. reflexivity.
Qed.

Lemma scope_key_inj s s' key : receipt_scope_key s = Ok key → receipt_scope_key s' = Ok key → s = s'.
Proof.
  intros [-> Hs]%scope_key_fields [H Hs']%scope_key_fields.
  assert (∀ s, canonical_ids (scope_fields s) →
    Forall (λ v, str_len v ≤ u64_max) (SCOPE_KEY_PREFIX :: scope_fields s)) as Hb.
  { intros t Ht. constructor; [apply Z.leb_le; reflexivity|].
    eapply Forall_impl; [exact Ht|]. simpl. unfold u64_max. lia. }
  apply fields_inj in H; [|auto..]. by destruct s, s'; simplify_eq/=.
Qed.

(** *** Stored streams *)

Lemma base32_no_slash s : all_bytes base32_byte s = true → existsb (Ascii.eqb "/") (bytes s) = false.
Proof.
  unfold all_bytes. induction (bytes s) as [|c l IH]; [done|]. cbn [forallb existsb].
  intros [Hc Hl]%andb_true_iff. rewrite (IH Hl), orb_false_r. apply Ascii.eqb_neq. by intros <-.
Qed.

Lemma split_once_app c a b :
  existsb (Ascii.eqb c) (bytes a) = false → split_once c (a +:+ String c b) = Some (a, b).
Proof.
  induction a as [|x a IH]; [intros _; change (""%string +:+ String c b) with (String c b); cbn [split_once]; by rewrite Ascii.eqb_refl|].
  change (bytes (String x a)) with (x :: bytes a). cbn [existsb].
  change (String x a +:+ String c b) with (String x (a +:+ String c b)). cbn [split_once].
  rewrite orb_false_iff, Ascii.eqb_sym. intros [-> Ha]. by rewrite IH.
Qed.

Lemma canonical_no_slash value prefix :
  existsb (Ascii.eqb "/") (bytes prefix) = false → is_canonical_prefixed_id value prefix = true →
  existsb (Ascii.eqb "/") (bytes value) = false.
Proof.
  unfold is_canonical_prefixed_id. destruct (strip_prefix prefix value) as [s|] eqn:E; [|done].
  apply strip_prefix_Some in E as ->. intros Hp [_ Hs]%andb_true_iff.
  assert (bytes (prefix +:+ s) = bytes prefix ++ bytes s) as ->.
  { clear. induction prefix as [|x p IH]; [done|]. exact (f_equal (cons x) IH). }
  by rewrite existsb_app, Hp, base32_no_slash.
Qed.

Lemma is_ok_canonical value prefix :
  is_ok (require_canonical_public_id value prefix) = is_canonical_prefixed_id value prefix.
Proof.
  unfold is_ok. destruct (require_canonical_public_id value prefix) eqn:E.
  - by apply canonical_Ok in E.
  - destruct (is_canonical_prefixed_id value prefix) eqn:E'; [|done].
    apply (canonical_Ok _ _ tt) in E'. congruence.
Qed.

(** A valid stream is read back from its two columns. *)
Lemma from_stored_stream s u : validate_stream s = Ok u → from_stored (stream_kind s) (resource_id s) = Ok s.
Proof.
  intros H. unfold from_stored.
  assert ((if bool_decide (stream_kind s = "scope"%string) && bool_decide (resource_id s = ""%string) then Ok Scope
           else if bool_decide (stream_kind s = "delivery"%string) then Ok (Delivery (resource_id s))
           else if bool_decide (stream_kind s = "product-session"%string) then Ok (ProductSession (resource_id s))
           else if bool_decide (stream_kind s = "lease"%string) then
             match split_once "/" (resource_id s) with
             | Some (worker, lease) =>
                 refuse (existsb (Ascii.eqb "/") (bytes lease)) adapter ;; Ok (Lease worker lease)
             | None => Err adapter
             end
           else Err adapter) = Ok s) as ->; [|cbn [mbind result_bind]; by rewrite H; destruct u].
  destruct s as [|i|i|worker lease]; try done. unfold validate_stream in H. rewrite !is_ok_canonical in H.
  apply refuse_Ok, negb_false_iff, andb_true_iff in H as [Hw Hl].
  apply canonical_no_slash in Hw; [|done]. apply canonical_no_slash in Hl; [|done].
  cbn [resource_id]. change ("/" +:+ lease)%string with (String "/" lease).
  rewrite split_once_app by done. simpl. by rewrite Hl.
Qed.

(** Receipt keys and stored streams lose nothing: the key of an actor or of a repository
    scope decodes to it again, two scopes of any level have the same key only if they are
    equal, and a projection stream stored as its kind and resource reads back. *)
Theorem receipt_keys_round_trip a s stream actor scope :
  receipt_actor_key a = Ok actor → receipt_scope_key s = Ok scope → validate_stream stream = Ok tt →
  public_actor_from_receipt_key actor = Ok a ∧
  (∀ o w p r, s = Repository o w p r → repository_scope_from_receipt_key scope = Ok s) ∧
  (∀ s', receipt_scope_key s' = Ok scope → s' = s) ∧
  from_stored (stream_kind stream) (resource_id stream) = Ok stream.
Proof.
  intros Ha Hs Hv. split_and!; [by apply actor_key_reads| | |by eapply from_stored_stream].
  - intros o w p r ->. by apply repository_key_reads.
  - intros s' Hs'. by eapply scope_key_inj.
Qed.

Lemma receipt_keys_round_trip_witness :
  let a := User ("usr_" +:+ repeated 26 "0") in
  let s := Repository ("org_" +:+ repeated 26 "1") ("wsp_" +:+ repeated 26 "2") ("prj_" +:+ repeated 26 "3")
             ("rep_" +:+ repeated 26 "4") in
  ∃ actor scope, public_actor_from_receipt_key actor = Ok a ∧ repository_scope_from_receipt_key scope = Ok s.
Proof.
  intros a s. assert (∃ actor, receipt_actor_key a = Ok actor) as [actor Ha] by (vm_compute; eexists; reflexivity).
  assert (∃ scope, receipt_scope_key s = Ok scope) as [scope Hs] by (vm_compute; eexists; reflexivity).
  destruct (receipt_keys_round_trip a s (Lease ("wrk_" +:+ repeated 26 "5") ("lse_" +:+ repeated 26 "6")) actor scope
    Ha Hs ltac:(vm_compute; reflexivity)) as (H1 & H2 & _).
  exists actor, scope. split; [exact H1|]. by eapply H2.
Defined.
