(* ===== verification/StateStore.v ===== *)
(** * The state store: commits and reads

    Models the product-state storage of [crates/winwincode-storage/src/lib.rs]: the state
    commit with its validation, the SQLite tables it writes (states, command receipts, the
    outbox with its projection streams, the audit outbox and the aggregate journals), the one
    transaction a commit runs in, and the reads of [ProductStateStorage] over those tables.
    The tables are maps from primary keys to rows, or lists where a query orders them; the
    constraints of the schema are checked by each statement.  [serde_json] and [sha2] are
    arguments (the codec), failures of SQLite itself and error texts are left out. *)

From Stdlib Require Import Ascii String.
From S2P Require Import Prelude Text Numerals Ordered Transaction StateKeys.
From S2P Require Frame.
Local Open Scope Z_scope.

Abbreviation payload_bytes := (list Byte.byte).
Definition byte_len (b : payload_bytes) : Z := Z.of_nat (length b).

(** What the store uses of [serde_json] and [sha2]. *)
Record EventCodec : Type := {
  json_scope : Frame.Json PublicEventScope;
  json_stream : Frame.Json ProjectionEventStream;
  json_instant : Frame.Json string;
  json_source : Frame.Json PublicEventSource;
  sha256_hex : payload_bytes → string
}.

(** ** Events *)

Record PublicProjectionEventContext : Type := {
  context_scope : PublicEventScope;
  context_stream : ProjectionEventStream;
  occurred_at : string;
  context_source : PublicEventSource
}.

#[global] Instance PublicProjectionEventContext_eq_dec : EqDecision PublicProjectionEventContext.
Proof. solve_decision. Defined.

Record NewOutboxEvent : Type := {
  new_event_id : string;
  new_topic : string;
  new_payload : payload_bytes;
  projection_stream : option ProjectionEventStream;
  public_context : option PublicProjectionEventContext
}.

Definition internal (event topic : string) (payload : payload_bytes) : NewOutboxEvent :=
  {| new_event_id := event; new_topic := topic; new_payload := payload;
     projection_stream := None; public_context := None |}.

Definition public_projection (event topic : string) (payload : payload_bytes)
    (stream : ProjectionEventStream) (scope : PublicEventScope) (at_ : string)
    (source : PublicEventSource) : stored NewOutboxEvent :=
  validate_stream stream ;;
  _ ← receipt_scope_key scope;
  validate_public_event_time at_ ;;
  validate_public_source source ;;
  validate_public_stream_source stream source ;;
  Ok {| new_event_id := event; new_topic := topic; new_payload := payload;
        projection_stream := Some stream;
        public_context := Some {| context_scope := scope; context_stream := stream;
                                  occurred_at := at_; context_source := source |} |}.

(** An event as it is read from the outbox. *)
Record OutboxEvent : Type := {
  event_sequence : Z;
  event_id : string;
  topic : string;
  payload : payload_bytes;
  projection_cursor : option ProjectionEventCursor;
  event_context : option PublicProjectionEventContext
}.

#[global] Instance OutboxEvent_eq_dec : EqDecision OutboxEvent.
Proof. solve_decision. Defined.

(** ** Journals *)

Record AggregateJournalKey : Type := { aggregate_type : string; aggregate_id : string }.

#[global] Instance AggregateJournalKey_eq_dec : EqDecision AggregateJournalKey.
Proof. solve_decision. Defined.
#[global] Instance AggregateJournalKey_countable : Countable AggregateJournalKey.
Proof.
  apply (inj_countable' (λ k, (aggregate_type k, aggregate_id k))
    (λ '(t, i), {| aggregate_type := t; aggregate_id := i |})). by intros [].
Defined.

(** [AggregateJournalKey::new]. *)
Definition journal_key_new (type i : string) : stored AggregateJournalKey :=
  refuse (bool_decide (type = ""%string) || bool_decide (i = ""%string)) invalid ;;
  Ok {| aggregate_type := type; aggregate_id := i |}.

Record AggregateJournalRecord : Type := {
  record_sequence : Z;
  record_digest : string;
  record_payload : payload_bytes
}.

Record LoadedAggregateJournal : Type := {
  manifest : payload_bytes;
  records : list AggregateJournalRecord
}.

Inductive AggregateJournalPublication : Type :=
| Create (key : AggregateJournalKey) (manifest : payload_bytes) (first_record : AggregateJournalRecord)
| Append (key : AggregateJournalKey) (expected_tail_sequence : Z) (expected_tail_digest : string)
    (record : AggregateJournalRecord).

Definition validate_journal_record (r : AggregateJournalRecord) : stored () :=
  refuse ((record_sequence r =? 0) || (i64_max <? record_sequence r)) invalid ;;
  refuse (bool_decide (record_digest r = ""%string) || bool_decide (record_payload r = [])) invalid.

Definition validate_publication (p : AggregateJournalPublication) : stored () :=
  match p with
  | Create _ m first_record =>
      refuse (bool_decide (m = [])) invalid ;;
      validate_journal_record first_record ;;
      refuse (negb (record_sequence first_record =? 1)) invalid
  | Append _ tail_sequence tail_digest record =>
      validate_journal_record record ;;
      refuse ((tail_sequence =? 0) || bool_decide (tail_digest = ""%string)) invalid ;;
      refuse (negb (record_sequence record =? saturating_add_u64 tail_sequence 1)) invalid
  end.

(** ** The state commit *)

Record PendingAuditEvent : Type := { audit_event_id : string; audit_payload : payload_bytes }.

#[global] Instance PendingAuditEvent_eq_dec : EqDecision PendingAuditEvent.
Proof. solve_decision. Defined.

Definition validate_audit_event (e : PendingAuditEvent) : stored () :=
  refuse (bool_decide (audit_event_id e = ""%string)) invalid ;;
  refuse (bool_decide (audit_payload e = [])) invalid.

(** [PendingAuditEvent::new]. *)
Definition audit_event_new (i : string) (p : payload_bytes) : stored PendingAuditEvent :=
  let e := {| audit_event_id := i; audit_payload := p |} in validate_audit_event e ;; Ok e.

Record StateRevisionGuard : Type := { guard_stream_id : string; guard_expected_revision : Z }.

Record StateMutation : Type := {
  mutation_stream_id : string;
  mutation_expected_revision : Z;
  mutation_state : payload_bytes
}.

Definition validate_mutation (m : StateMutation) : stored () :=
  refuse (bool_decide (mutation_stream_id m = ""%string)) invalid ;;
  refuse (i64_max <=? mutation_expected_revision m) invalid.

Definition MAX_STATE_MUTATIONS_PER_COMMIT : Z := 16.
Definition MAX_STATE_MUTATION_PAYLOAD_BYTES : Z := 16 * 1024 * 1024.
Definition MAX_STATE_MUTATION_BYTES_PER_COMMIT : Z := 16 * 1024 * 1024.
Definition MAX_IMMUTABLE_STATE_IMPORT_ROWS : Z := 65536.
Definition MAX_IMMUTABLE_STATE_IMPORT_BYTES : Z := 64 * 1024 * 1024.

Record ImmutableStateImport : Type := { source_digest : string; import_rows : list StateMutation }.

(** The sizes of the payloads together. *)
Fixpoint total_bytes (bytes : Z) (ms : list StateMutation) : stored Z :=
  match ms with
  | [] => Ok bytes
  | m :: ms =>
      bytes ← ok_or (checked_add_u64 bytes (byte_len (mutation_state m))) invalid;
      total_bytes bytes ms
  end.

Definition validate_import_row (m : StateMutation) : stored () :=
  validate_mutation m ;;
  refuse (negb (mutation_expected_revision m =? 0) ||
          (MAX_STATE_MUTATION_PAYLOAD_BYTES <? byte_len (mutation_state m))) invalid.

(** [ImmutableStateImport::validate]; its one loop checks and adds, and both fail alike. *)
Definition validate_import (i : ImmutableStateImport) : stored () :=
  validate_sha256_digest (source_digest i) ;;
  refuse (bool_decide (import_rows i = []) ||
          (MAX_IMMUTABLE_STATE_IMPORT_ROWS <? Z.of_nat (length (import_rows i)))) invalid ;;
  check_all validate_import_row (import_rows i) ;;
  bytes ← total_bytes 0 (import_rows i);
  refuse (MAX_IMMUTABLE_STATE_IMPORT_BYTES <? bytes) invalid.

Record StateCommit : Type := {
  commit_identity : ReceiptIdentity;
  command_digest : string;
  commit_stream_id : string;
  expected_revision : Z;
  commit_state : payload_bytes;
  events : list NewOutboxEvent;
  state_guards : list StateRevisionGuard;
  state_mutations : list StateMutation;
  immutable_state_import : option ImmutableStateImport;
  journal_publication : option AggregateJournalPublication;
  pending_audit_event : option PendingAuditEvent;
  receipt_replay_required : bool
}.

Definition state_commit (identity : ReceiptIdentity) (digest stream : string) (revision : Z)
    (st : payload_bytes) (evs : list NewOutboxEvent) : StateCommit :=
  {| commit_identity := identity; command_digest := digest; commit_stream_id := stream;
     expected_revision := revision; commit_state := st; events := evs; state_guards := [];
     state_mutations := []; immutable_state_import := None; journal_publication := None;
     pending_audit_event := None; receipt_replay_required := false |}.

Definition with_journal_publication (c : StateCommit) (p : AggregateJournalPublication) : StateCommit :=
  {| commit_identity := commit_identity c; command_digest := command_digest c;
     commit_stream_id := commit_stream_id c; expected_revision := expected_revision c;
     commit_state := commit_state c; events := events c; state_guards := state_guards c;
     state_mutations := state_mutations c; immutable_state_import := immutable_state_import c;
     journal_publication := Some p; pending_audit_event := pending_audit_event c;
     receipt_replay_required := receipt_replay_required c |}.

Definition all_state_mutations (c : StateCommit) : list StateMutation :=
  state_mutations c ++ match immutable_state_import c with Some i => import_rows i | None => [] end.

(** *** Validation *)

Fixpoint validate_guards (primary : string) (seen : list string) (gs : list StateRevisionGuard) :
    stored (list string) :=
  match gs with
  | [] => Ok seen
  | g :: gs =>
      refuse (bool_decide (guard_stream_id g = ""%string)) invalid ;;
      refuse (i64_max <? guard_expected_revision g) invalid ;;
      refuse (bool_decide (guard_stream_id g = primary)) invalid ;;
      refuse (bool_decide (guard_stream_id g ∈ seen)) invalid ;;
      validate_guards primary (guard_stream_id g :: seen) gs
  end.

Fixpoint validate_mutations (primary : string) (guarded seen : list string) (ms : list StateMutation) :
    stored () :=
  match ms with
  | [] => Ok tt
  | m :: ms =>
      validate_mutation m ;;
      refuse (bool_decide (mutation_stream_id m = primary)) invalid ;;
      refuse (bool_decide (mutation_stream_id m ∈ guarded)) invalid ;;
      refuse (bool_decide (mutation_stream_id m ∈ seen)) invalid ;;
      refuse (MAX_STATE_MUTATION_PAYLOAD_BYTES <? byte_len (mutation_state m)) invalid ;;
      validate_mutations primary guarded (mutation_stream_id m :: seen) ms
  end.

Definition validate_secondary_states (c : StateCommit) : stored () :=
  guarded ← validate_guards (commit_stream_id c) [] (state_guards c);
  refuse (MAX_STATE_MUTATIONS_PER_COMMIT <? Z.of_nat (length (state_mutations c))) invalid ;;
  match immutable_state_import c with
  | Some i => validate_import i ;; refuse (expected_revision c =? 0) invalid
  | None => Ok tt
  end ;;
  validate_mutations (commit_stream_id c) guarded [] (all_state_mutations c) ;;
  bytes ← total_bytes 0 (state_mutations c);
  refuse (MAX_STATE_MUTATION_BYTES_PER_COMMIT <? bytes) invalid.

Definition validate_event_context (identity : ReceiptIdentity) (e : NewOutboxEvent) : stored () :=
  match projection_stream e with
  | Some stream =>
      validate_stream stream ;;
      refuse (negb (canonical_control_plane_event_id (new_event_id e))) invalid ;;
      context ← ok_or (public_context e) invalid;
      refuse (bool_decide (stream ≠ context_stream context)) invalid ;;
      validate_public_event_time (occurred_at context) ;;
      validate_public_source (context_source context) ;;
      validate_public_stream_source stream (context_source context) ;;
      scope ← receipt_scope_key (context_scope context);
      refuse (bool_decide (scope ≠ scope_key identity)) invalid ;;
      match context_source context with
      | ControlPlane actor _ =>
          key ← receipt_actor_key actor; refuse (bool_decide (key ≠ actor_key identity)) invalid
      | _ => Ok tt
      end
  | None => refuse (bool_decide (is_Some (public_context e))) invalid
  end.

Fixpoint validate_events (identity : ReceiptIdentity) (seen : list string) (es : list NewOutboxEvent) :
    stored () :=
  match es with
  | [] => Ok tt
  | e :: es =>
      refuse (bool_decide (new_event_id e = ""%string)) invalid ;;
      refuse (bool_decide (new_topic e = ""%string)) invalid ;;
      refuse (bool_decide (new_event_id e ∈ seen)) invalid ;;
      validate_event_context identity e ;;
      validate_events identity (new_event_id e :: seen) es
  end.

Definition validate_commit (c : StateCommit) : stored () :=
  validate_sha256_digest (command_digest c) ;;
  refuse (bool_decide (commit_stream_id c = ""%string)) invalid ;;
  refuse (bool_decide (events c = [])) invalid ;;
  refuse (i64_max <? expected_revision c) invalid ;;
  validate_secondary_states c ;;
  match journal_publication c with Some p => validate_publication p | None => Ok tt end ;;
  match pending_audit_event c with Some e => validate_audit_event e | None => Ok tt end ;;
  validate_events (commit_identity c) [] (events c).

(** ** Tables *)

Record StateRow : Type := { state_revision : Z; state_payload : payload_bytes }.

(** A row of [command_receipts], with its [rowid]. *)
Record ReceiptRow : Type := {
  receipt_rowid : Z;
  receipt_digest : string;
  receipt_stream_id : string;
  receipt_revision : Z
}.

(** A row of [outbox]: the columns of the receipt are its identity. *)
Record OutboxRow : Type := {
  row_sequence : Z;
  row_event_id : string;
  row_identity : ReceiptIdentity;
  row_topic : string;
  row_payload : payload_bytes;
  row_published : bool;
  row_stream_kind : option string;
  row_resource_id : option string;
  row_stream_sequence : option Z;
  row_scope_json : option payload_bytes;
  row_stream_json : option payload_bytes;
  row_instant_json : option payload_bytes;
  row_source_json : option payload_bytes
}.

Record AuditRow : Type := {
  row_audit_event_id : string;
  row_audit_payload : payload_bytes;
  row_persisted : bool
}.

(** A row of [aggregate_journal_records]. *)
Record JournalRow : Type := {
  row_journal : AggregateJournalKey;
  row_journal_sequence : Z;
  row_journal_digest : string;
  row_journal_payload : payload_bytes
}.

(** Rows of [control_plane_instances] and [control_plane_command_claims], the tables of
    [control_plane_instances.rs]. *)
Record InstanceRow : Type := {
  row_boot_id : string;
  row_generation : Z;
  row_state : string;
  row_started_at : Z;
  row_renewed_at : Z;
  row_lease_expires_at : Z;
  row_drain_deadline_at : option Z
}.

Record ClaimRow : Type := {
  row_claim_digest : string;
  row_claim_instance_id : string;
  row_claim_boot_id : string;
  row_claim_generation : Z;
  row_claim_fence : Z;
  row_admitted_at : Z
}.

Record ControlPlaneTables : Type := {
  instances : gmap string InstanceRow;
  command_claims : gmap ReceiptIdentity ClaimRow
}.

(** The primary key of [projection_event_stream_heads]: scope key, stream kind, resource. *)
Abbreviation head_key := (string * string * string)%type.

(** [outbox] is in the order of its key [sequence], whose largest value so far is
    [outbox_autoincrement]; [control_plane] are the tables of another module, [None] before
    they were created. *)
Record Database : Type := {
  product_state : gmap string StateRow;
  command_receipts : gmap ReceiptIdentity ReceiptRow;
  outbox : list OutboxRow;
  outbox_autoincrement : Z;
  stream_heads : gmap head_key (Z * string);
  audit_outbox : gmap ReceiptIdentity AuditRow;
  aggregate_journals : gmap AggregateJournalKey payload_bytes;
  journal_records : list JournalRow;
  control_plane : option ControlPlaneTables
}.

(** The tables of a new database. *)
Definition empty_database : Database :=
  {| product_state := ∅; command_receipts := ∅; outbox := []; outbox_autoincrement := 0;
     stream_heads := ∅; audit_outbox := ∅; aggregate_journals := ∅; journal_records := [];
     control_plane := None |}.

Definition set_product_state (db : Database) t : Database :=
  {| product_state := t; command_receipts := command_receipts db; outbox := outbox db;
     outbox_autoincrement := outbox_autoincrement db; stream_heads := stream_heads db;
     audit_outbox := audit_outbox db; aggregate_journals := aggregate_journals db;
     journal_records := journal_records db; control_plane := control_plane db |}.

Definition set_command_receipts (db : Database) t : Database :=
  {| product_state := product_state db; command_receipts := t; outbox := outbox db;
     outbox_autoincrement := outbox_autoincrement db; stream_heads := stream_heads db;
     audit_outbox := audit_outbox db; aggregate_journals := aggregate_journals db;
     journal_records := journal_records db; control_plane := control_plane db |}.

Definition set_outbox (db : Database) t n : Database :=
  {| product_state := product_state db; command_receipts := command_receipts db; outbox := t;
     outbox_autoincrement := n; stream_heads := stream_heads db;
     audit_outbox := audit_outbox db; aggregate_journals := aggregate_journals db;
     journal_records := journal_records db; control_plane := control_plane db |}.

Definition set_stream_heads (db : Database) t : Database :=
  {| product_state := product_state db; command_receipts := command_receipts db;
     outbox := outbox db; outbox_autoincrement := outbox_autoincrement db; stream_heads := t;
     audit_outbox := audit_outbox db; aggregate_journals := aggregate_journals db;
     journal_records := journal_records db; control_plane := control_plane db |}.

Definition set_audit_outbox (db : Database) t : Database :=
  {| product_state := product_state db; command_receipts := command_receipts db;
     outbox := outbox db; outbox_autoincrement := outbox_autoincrement db;
     stream_heads := stream_heads db; audit_outbox := t;
     aggregate_journals := aggregate_journals db; journal_records := journal_records db;
     control_plane := control_plane db |}.

Definition set_journals (db : Database) t l : Database :=
  {| product_state := product_state db; command_receipts := command_receipts db;
     outbox := outbox db; outbox_autoincrement := outbox_autoincrement db;
     stream_heads := stream_heads db; audit_outbox := audit_outbox db; aggregate_journals := t;
     journal_records := l; control_plane := control_plane db |}.

Definition set_control_plane (db : Database) (t : option ControlPlaneTables) : Database :=
  {| product_state := product_state db; command_receipts := command_receipts db; outbox := outbox db;
     outbox_autoincrement := outbox_autoincrement db; stream_heads := stream_heads db;
     audit_outbox := audit_outbox db; aggregate_journals := aggregate_journals db;
     journal_records := journal_records db; control_plane := t |}.

Abbreviation transaction A := (tx Database StorageError A).

(** [u64::try_from] of an [INTEGER] column, and [i64::try_from]. *)
Definition to_u64 (z : Z) : stored Z := refuse (z <? 0) adapter ;; Ok z.
Definition to_i64 (z : Z) : stored Z := refuse (i64_max <? z) invalid ;; Ok z.

(** [i64::checked_add(1)]. *)
Definition next_i64 (z : Z) (e : StorageError) : stored Z := refuse (i64_max <=? z) e ;; Ok (z + 1).

(** ** Reading receipts *)

Section codec.
Context (codec : EventCodec).

Definition stored_projection_cursor (scope : string) (k r : option string) (n : option Z)
    (event : string) : stored (option ProjectionEventCursor) :=
  match k, r, n with
  | None, None, None => Ok None
  | Some k, Some r, Some n =>
      stream ← from_stored k r;
      scope ← from_encoded scope;
      key ← stream_key scope stream;
      n ← to_u64 n;
      cursor ← cursor_try_new key n (Some event);
      Ok (Some cursor)
  | _, _, _ => Err adapter
  end.

Definition read_json {T} (j : Frame.Json T) (b : payload_bytes) : stored T :=
  map_err (λ _, adapter) (Frame.from_slice j b).

Definition write_json {T} (j : Frame.Json T) (v : T) : stored payload_bytes :=
  map_err (λ _, adapter) (Frame.to_vec j v).

Definition stored_public_context (cursor : option ProjectionEventCursor)
    (scope stream instant source : option payload_bytes) (identity : ReceiptIdentity) :
    stored (option PublicProjectionEventContext) :=
  match cursor, scope, stream, instant, source with
  | None, None, None, None, None => Ok None
  | Some cursor, Some scope, Some stream, Some instant, Some source =>
      scope ← read_json (json_scope codec) scope;
      stream ← read_json (json_stream codec) stream;
      instant ← read_json (json_instant codec) instant;
      source ← read_json (json_source codec) source;
      refuse (bool_decide (key_stream (cursor_key cursor) ≠ stream)) adapter ;;
      validate_public_event_time instant ;;
      validate_public_source source ;;
      validate_public_stream_source stream source ;;
      key ← receipt_scope_key scope;
      refuse (bool_decide (key ≠ scope_key identity)) adapter ;;
      match source with
      | ControlPlane actor _ =>
          key ← receipt_actor_key actor; refuse (bool_decide (key ≠ actor_key identity)) adapter
      | _ => Ok tt
      end ;;
      Ok (Some {| context_scope := scope; context_stream := stream; occurred_at := instant;
                  context_source := source |})
  | _, _, _, _, _ => Err adapter
  end.

(** The event of a row of the outbox. *)
Definition read_event (r : OutboxRow) : stored OutboxEvent :=
  cursor ← stored_projection_cursor (scope_key (row_identity r)) (row_stream_kind r) (row_resource_id r)
    (row_stream_sequence r) (row_event_id r);
  context ← stored_public_context cursor (row_scope_json r) (row_stream_json r) (row_instant_json r)
    (row_source_json r) (row_identity r);
  sequence ← to_u64 (row_sequence r);
  Ok {| event_sequence := sequence; event_id := row_event_id r; topic := row_topic r;
        payload := row_payload r; projection_cursor := cursor; event_context := context |}.

Definition receipt_rows (db : Database) (i : ReceiptIdentity) : list OutboxRow :=
  filter (λ r, row_identity r = i) (outbox db).

Definition receipt_events (db : Database) (i : ReceiptIdentity) : stored (list OutboxEvent) :=
  mapM read_event (receipt_rows db i).

Record CommitReceipt : Type := {
  committed_identity : ReceiptIdentity;
  committed_digest : string;
  committed_stream_id : string;
  committed_revision : Z;
  committed_events : list OutboxEvent;
  idempotent_replay : bool
}.

Definition prior_receipt (db : Database) (i : ReceiptIdentity) : option ReceiptRow :=
  command_receipts db !! i.

Definition load_pending_audit_event (db : Database) (i : ReceiptIdentity) : stored (option PendingAuditEvent) :=
  match audit_outbox db !! i with
  | Some r => e ← audit_event_new (row_audit_event_id r) (row_audit_payload r); Ok (Some e)
  | None => Ok None
  end.

Definition replay_stored_receipt (db : Database) (i : ReceiptIdentity) (digest : string)
    (prior : ReceiptRow) : stored CommitReceipt :=
  refuse (bool_decide (receipt_digest prior ≠ digest)) (storage_error RequestConflict) ;;
  revision ← to_u64 (receipt_revision prior);
  evs ← receipt_events db i;
  Ok {| committed_identity := i; committed_digest := digest;
        committed_stream_id := receipt_stream_id prior; committed_revision := revision;
        committed_events := evs; idempotent_replay := true |}.

Definition replay_receipt (db : Database) (c : StateCommit) (prior : ReceiptRow) : stored CommitReceipt :=
  audit ← load_pending_audit_event db (commit_identity c);
  refuse (bool_decide (audit ≠ pending_audit_event c)) (storage_error RequestConflict) ;;
  replay_stored_receipt db (commit_identity c) (command_digest c) prior.

(** ** The transaction of a commit *)

Definition control_plane_command_claim_exists (db : Database) (c : StateCommit) : bool :=
  match control_plane db with
  | Some t => bool_decide (is_Some (command_claims t !! commit_identity c))
  | None => false
  end.

Definition stored_state_revision (db : Database) (stream : string) : stored Z :=
  to_u64 (default 0 (state_revision <$> product_state db !! stream)).

Definition check_state_revision_guard (db : Database) (g : StateRevisionGuard) : stored () :=
  actual ← stored_state_revision db (guard_stream_id g);
  refuse (negb (actual =? guard_expected_revision g)) state_revision_guard_conflict.

Definition check_state_revision_guards (db : Database) (c : StateCommit) : stored () :=
  check_all (check_state_revision_guard db) (state_guards c).

Definition check_state_mutation_revision (db : Database) (m : StateMutation) : stored () :=
  actual ← stored_state_revision db (mutation_stream_id m);
  refuse (negb (actual =? mutation_expected_revision m)) (storage_error RevisionConflict).

Definition sha256_digest (b : payload_bytes) : string := "sha256:" +:+ sha256_hex codec b.

Definition check_state_mutation_revisions (db : Database) (c : StateCommit) : stored () :=
  match immutable_state_import c with
  | Some i =>
      source ← ok_or (product_state db !! commit_stream_id c) invalid;
      refuse (negb (state_revision source =? expected_revision c) ||
              bool_decide (sha256_digest (state_payload source) ≠ source_digest i)) invalid
  | None => Ok tt
  end ;;
  check_all (check_state_mutation_revision db) (all_state_mutations c).

Definition upsert_state (stream : string) (revision : Z) (st : payload_bytes) : transaction () :=
  execute (λ db,
    refuse (revision <=? 0) adapter ;;
    Ok (tt, set_product_state db
              (<[stream := {| state_revision := revision; state_payload := st |}]> (product_state db)))).

Definition append_state_mutation (m : StateMutation) : transaction () :=
  expected ← lift (to_i64 (mutation_expected_revision m));
  revision ← lift (next_i64 expected invalid);
  upsert_state (mutation_stream_id m) revision (mutation_state m).

(** [for x in xs { m(x)?; }]. *)
Fixpoint for_each {A} (m : A → transaction ()) (xs : list A) : transaction () :=
  match xs with
  | [] => mret tt
  | x :: xs => m x ;; for_each m xs
  end.

Definition append_state_mutations (c : StateCommit) : transaction () :=
  for_each append_state_mutation (all_state_mutations c).

(** The records of one journal, [ORDER BY sequence]. *)
Definition journal_rows (db : Database) (key : AggregateJournalKey) : list JournalRow :=
  order_by row_journal_sequence (filter (λ r, row_journal r = key) (journal_records db)).

Definition insert_journal_record (key : AggregateJournalKey) (r : AggregateJournalRecord) : transaction () :=
  sequence ← lift (to_i64 (record_sequence r));
  execute (λ db,
    refuse (existsb (λ row, bool_decide (row_journal row = key) && (row_journal_sequence row =? sequence))
              (journal_records db)) adapter ;;
    refuse (sequence <=? 0) adapter ;;
    refuse (bool_decide (aggregate_journals db !! key = None)) adapter ;;
    Ok (tt, set_journals db (aggregate_journals db)
              (journal_records db ++
                 [{| row_journal := key; row_journal_sequence := sequence;
                     row_journal_digest := record_digest r; row_journal_payload := record_payload r |}]))).

Definition append_journal_publication (p : AggregateJournalPublication) : transaction () :=
  match p with
  | Create key m first_record =>
      query (λ db, refuse (bool_decide (is_Some (aggregate_journals db !! key)))
                     (storage_error JournalAlreadyExists)) ;;
      execute (λ db, Ok (tt, set_journals db (<[key := m]> (aggregate_journals db)) (journal_records db))) ;;
      insert_journal_record key first_record
  | Append key tail_sequence tail_digest record =>
      tail ← query (λ db, ok_or (last (journal_rows db key)) (storage_error JournalNotFound));
      expected ← lift (to_i64 tail_sequence);
      lift (refuse (negb (row_journal_sequence tail =? expected) ||
                    bool_decide (row_journal_digest tail ≠ tail_digest)) (storage_error JournalConflict)) ;;
      insert_journal_record key record
  end.

(** [SELECT COALESCE(MAX(rowid), 0) FROM command_receipts]; SQLite gives the next row the
    number after it. *)
Definition last_receipt_rowid (db : Database) : Z :=
  map_fold (λ _ r n, Z.max (receipt_rowid r) n) 0 (command_receipts db).

Definition append_receipt (c : StateCommit) (revision : Z) : transaction () :=
  execute (λ db,
    refuse (bool_decide (is_Some (command_receipts db !! commit_identity c)) || (revision <=? 0)) adapter ;;
    Ok (tt, set_command_receipts db
              (<[commit_identity c := {| receipt_rowid := last_receipt_rowid db + 1;
                                         receipt_digest := command_digest c;
                                         receipt_stream_id := commit_stream_id c;
                                         receipt_revision := revision |}]> (command_receipts db)))).

(** The deferred foreign key to the receipt holds: the receipt was inserted before. *)
Definition append_pending_audit_event (c : StateCommit) (e : PendingAuditEvent) : transaction () :=
  execute (λ db,
    refuse (bool_decide (is_Some (audit_outbox db !! commit_identity c)) ||
            existsb (λ '(_, r), bool_decide (row_audit_event_id r = audit_event_id e))
              (map_to_list (audit_outbox db))) adapter ;;
    Ok (tt, set_audit_outbox db
              (<[commit_identity c := {| row_audit_event_id := audit_event_id e;
                                         row_audit_payload := audit_payload e;
                                         row_persisted := false |}]> (audit_outbox db)))).

Definition head_of (scope : string) (stream : ProjectionEventStream) : head_key :=
  (scope, stream_kind stream, resource_id stream).

Definition next_projection_stream_position (db : Database) (c : StateCommit)
    (stream : ProjectionEventStream) : stored Z :=
  let current := default 0 (fst <$> stream_heads db !! head_of (scope_key (commit_identity c)) stream) in
  refuse (negb ((0 <=? current) && (current <? max_safe_integer))) adapter ;;
  next_i64 current adapter.

Definition serialize_public_context (context : PublicProjectionEventContext) :
    stored (payload_bytes * payload_bytes * payload_bytes * payload_bytes) :=
  scope ← write_json (json_scope codec) (context_scope context);
  stream ← write_json (json_stream codec) (context_stream context);
  instant ← write_json (json_instant codec) (occurred_at context);
  source ← write_json (json_source codec) (context_source context);
  Ok (scope, stream, instant, source).

(** The unique columns of [outbox]: the event id, and the position in a projection stream. *)
Definition outbox_clash (r x : OutboxRow) : bool :=
  bool_decide (row_event_id x = row_event_id r) ||
  match row_stream_kind r, row_resource_id r, row_stream_sequence r with
  | Some k, Some i, Some n =>
      bool_decide (scope_key (row_identity x) = scope_key (row_identity r)) &&
      bool_decide (row_stream_kind x = Some k) && bool_decide (row_resource_id x = Some i) &&
      bool_decide (row_stream_sequence x = Some n)
  | _, _, _ => false
  end.

(** The [INSERT] of a row whose key the database chooses. *)
Definition insert_outbox (make : Z → OutboxRow) : transaction () :=
  execute (λ db,
    let n := outbox_autoincrement db + 1 in
    refuse (i64_max <? n) adapter ;;
    refuse (existsb (outbox_clash (make n)) (outbox db)) adapter ;;
    Ok (tt, set_outbox db (outbox db ++ [make n]) n)).

Definition stream_kinds : list string := ["scope"; "delivery"; "product-session"; "lease"]%string.

Definition upsert_stream_head (key : head_key) (position : Z) (event : string) : transaction () :=
  execute (λ db,
    refuse (bool_decide (key.1.2 ∉ stream_kinds) || (position <=? 0) ||
            negb (existsb (λ r, bool_decide (row_event_id r = event)) (outbox db))) adapter ;;
    Ok (tt, set_stream_heads db (<[key := (position, event)]> (stream_heads db)))).

(** The row of an event, with its position and its serialised context. *)
Definition outbox_row (c : StateCommit) (e : NewOutboxEvent) (position : option Z)
    (context : option (payload_bytes * payload_bytes * payload_bytes * payload_bytes)) (n : Z) : OutboxRow :=
  {| row_sequence := n; row_event_id := new_event_id e; row_identity := commit_identity c;
     row_topic := new_topic e; row_payload := new_payload e; row_published := false;
     row_stream_kind := stream_kind <$> projection_stream e;
     row_resource_id := resource_id <$> projection_stream e;
     row_stream_sequence := position;
     row_scope_json := (λ x, x.1.1.1) <$> context; row_stream_json := (λ x, x.1.1.2) <$> context;
     row_instant_json := (λ x, x.1.2) <$> context; row_source_json := snd <$> context |}.

Definition append_outbox_event (c : StateCommit) (e : NewOutboxEvent) : transaction () :=
  position ← query (λ db, match projection_stream e with
                          | Some stream => Some <$> next_projection_stream_position db c stream
                          | None => Ok None
                          end);
  context ← lift (match public_context e with
                  | Some context => Some <$> serialize_public_context context
                  | None => Ok None
                  end);
  insert_outbox (outbox_row c e position context) ;;
  match projection_stream e, position with
  | Some stream, Some position =>
      upsert_stream_head (head_of (scope_key (commit_identity c)) stream) position (new_event_id e)
  | _, _ => mret tt
  end.

Definition append_outbox_events (c : StateCommit) : transaction () :=
  for_each (append_outbox_event c) (events c).

Definition append_state_commit (c : StateCommit) : transaction CommitReceipt :=
  actual ← query (λ db, stored_state_revision db (commit_stream_id c));
  lift (refuse (negb (actual =? expected_revision c)) (storage_error RevisionConflict)) ;;
  expected ← lift (to_i64 (expected_revision c));
  revision ← lift (next_i64 expected invalid);
  upsert_state (commit_stream_id c) revision (commit_state c) ;;
  append_state_mutations c ;;
  match journal_publication c with
  | Some p => append_journal_publication p
  | None => mret tt
  end ;;
  append_receipt c revision ;;
  match pending_audit_event c with
  | Some e => append_pending_audit_event c e
  | None => mret tt
  end ;;
  append_outbox_events c ;;
  revision ← lift (to_u64 revision);
  evs ← query (λ db, receipt_events db (commit_identity c));
  mret {| committed_identity := commit_identity c; committed_digest := command_digest c;
          committed_stream_id := commit_stream_id c; committed_revision := revision;
          committed_events := evs; idempotent_replay := false |}.

Definition commit_in_transaction_with_claim_authority (c : StateCommit) (claim_authority_validated : bool) :
    transaction CommitReceipt := λ db,
  match prior_receipt db (commit_identity c) with
  | Some prior => query (λ db, replay_receipt db c prior) db
  | None =>
      (lift (refuse (negb claim_authority_validated && control_plane_command_claim_exists db c) invalid) ;;
       lift (refuse (receipt_replay_required c) (storage_error RequestReplayMissing)) ;;
       query (λ db, check_state_revision_guards db c) ;;
       query (λ db, check_state_mutation_revisions db c) ;;
       append_state_commit c) db
  end.

Definition commit_in_transaction (c : StateCommit) : transaction CommitReceipt :=
  commit_in_transaction_with_claim_authority c false.

Definition commit_claimed_in_transaction (c : StateCommit) : transaction CommitReceipt :=
  commit_in_transaction_with_claim_authority c true.
End codec.

(** ** The storage *)

(** [SqliteStorage]: it stays open until [close] consumes it; without its read connection it
    is a snapshot, which cannot be written. *)
Record SqliteStorage : Type := { database : Database; read_only : bool }.

Definition connection_mut (s : SqliteStorage) : stored Database :=
  refuse (read_only s) adapter ;; Ok (database s).

Definition set_database (s : SqliteStorage) (db : Database) : SqliteStorage :=
  {| database := db; read_only := read_only s |}.

(** One transaction, or one statement. *)
Definition transact {A} (s : SqliteStorage) (m : transaction A) : SqliteStorage * stored A :=
  match connection_mut s with
  | Ok db => let '(db, r) := commit db m in (set_database s db, r)
  | Err e => (s, Err e)
  end.

(** [UPDATE outbox SET published = 1 WHERE event_id = ?1]. *)
Definition publish_row (event : string) (r : OutboxRow) : OutboxRow :=
  if bool_decide (row_event_id r = event) then
    {| row_sequence := row_sequence r; row_event_id := row_event_id r; row_identity := row_identity r;
       row_topic := row_topic r; row_payload := row_payload r; row_published := true;
       row_stream_kind := row_stream_kind r; row_resource_id := row_resource_id r;
       row_stream_sequence := row_stream_sequence r; row_scope_json := row_scope_json r;
       row_stream_json := row_stream_json r; row_instant_json := row_instant_json r;
       row_source_json := row_source_json r |}
  else r.

Definition mark_published (s : SqliteStorage) (event : string) : SqliteStorage * stored () :=
  let '(s, r) := transact s (λ db,
    let changed := length (filter (λ r, row_event_id r = event) (outbox db)) in
    Ok (changed, set_outbox db (publish_row event <$> outbox db) (outbox_autoincrement db))) in
  (s, changed ← r; refuse (bool_decide (changed = 0%nat)) adapter).

Definition persist_row (event : string) (r : AuditRow) : AuditRow :=
  if bool_decide (row_audit_event_id r = event) then
    {| row_audit_event_id := row_audit_event_id r; row_audit_payload := row_audit_payload r;
       row_persisted := true |}
  else r.

Definition mark_audit_event_persisted (s : SqliteStorage) (event : string) : SqliteStorage * stored () :=
  if bool_decide (event = ""%string) then (s, Err invalid) else
  let '(s, r) := transact s (λ db,
    let changed := length (filter (λ '(_, r), row_audit_event_id r = event) (map_to_list (audit_outbox db))) in
    Ok (changed, set_audit_outbox db (persist_row event <$> audit_outbox db))) in
  (s, changed ← r; refuse (negb (bool_decide (changed = 1%nat))) adapter).

(** *** States *)

Record StoredState : Type := {
  stored_stream_id : string;
  stored_revision : Z;
  stored_payload : payload_bytes
}.

Definition read_state (stream : string) (r : StateRow) : stored StoredState :=
  revision ← to_u64 (state_revision r);
  Ok {| stored_stream_id := stream; stored_revision := revision; stored_payload := state_payload r |}.

Definition load_state_from_connection (db : Database) (stream : string) : stored (option StoredState) :=
  match product_state db !! stream with
  | Some r => st ← read_state stream r; Ok (Some st)
  | None => Ok None
  end.

Definition MAX_STATE_STREAM_SCAN_LIMIT : Z := 512.

Definition is_ascii (s : string) : bool := all_bytes (in_range 0 127) s.

Definition validate_state_scan_prefix (prefix : string) : stored () :=
  refuse (bool_decide (prefix = ""%string) || (200 <? str_len prefix) || negb (is_ascii prefix) ||
          negb (portable_event_key prefix)) invalid.

Definition validate_state_scan (prefix after upper_bound : string) (limit : Z) : stored () :=
  validate_state_scan_prefix prefix ;;
  refuse (negb (bool_decide (after = ""%string)) &&
            (negb (starts_with prefix after) || negb (portable_event_key after)) ||
          negb (starts_with prefix upper_bound) || negb (portable_event_key upper_bound) ||
          str_ltb upper_bound after ||
          negb ((1 <=? limit) && (limit <=? MAX_STATE_STREAM_SCAN_LIMIT))) invalid.

(** The rows of [product_state] that a query selects, [ORDER BY stream_id]. *)
Definition select_states (db : Database) (selected : string * StateRow → bool) : list (string * StateRow) :=
  sort_by_key fst (List.filter selected (map_to_list (product_state db))).

(** [SELECT MAX(stream_id)]. *)
Definition last_state_stream_id (db : Database) (prefix : string) : stored (option string) :=
  validate_state_scan_prefix prefix ;;
  Ok (fst <$> last (select_states db (λ '(i, _), starts_with prefix i))).

Definition scan_state_streams (db : Database) (prefix after upper_bound : string) (limit : Z) :
    stored (list StoredState) :=
  validate_state_scan prefix after upper_bound limit ;;
  mapM (λ '(i, r), read_state i r)
    (take (Z.to_nat limit)
       (select_states db (λ '(i, _), starts_with prefix i && str_ltb after i && str_leb i upper_bound))).

(** *** Journals *)

Definition load_aggregate_journal (db : Database) (key : AggregateJournalKey) :
    stored (option LoadedAggregateJournal) :=
  match aggregate_journals db !! key with
  | Some m =>
      records ← mapM (λ r, sequence ← to_u64 (row_journal_sequence r);
                           Ok {| record_sequence := sequence; record_digest := row_journal_digest r;
                                 record_payload := row_journal_payload r |}) (journal_rows db key);
      Ok (Some {| manifest := m; records := records |})
  | None => Ok None
  end.

(** *** Cursors *)

Definition load_projection_stream_head (db : Database) (key : ProjectionEventStreamKey) :
    stored (option (Z * string)) :=
  match stream_heads db !! head_of (stream_scope_key key) (key_stream key) with
  | Some (n, event) => n ← to_u64 n; Ok (Some (n, event))
  | None => Ok None
  end.

(** The event stored at a position of a projection stream. *)
Definition event_at (db : Database) (key : head_key) (position : Z) : option string :=
  let '(scope, k, r) := key in
  row_event_id <$> head (filter (λ x, scope_key (row_identity x) = scope ∧ row_stream_kind x = Some k ∧
    row_resource_id x = Some r ∧ row_stream_sequence x = Some position) (outbox db)).

Definition load_projection_event_cursor_from_connection (db : Database) (key : ProjectionEventStreamKey)
    (expected : option ProjectionEventCursor) : stored ProjectionEventCursor :=
  validate_stream (key_stream key) ;;
  match expected with
  | Some expected =>
      refuse (bool_decide (cursor_key expected ≠ key)) invalid ;;
      if cursor_sequence expected =? 0 then cursor_try_new key 0 None else
      position ← to_i64 (cursor_sequence expected);
      match event_at db (head_of (stream_scope_key key) (key_stream key)) position with
      | None =>
          head ← load_projection_stream_head db key;
          match head with
          | None => Err invalid
          | Some (head_sequence, _) =>
              refuse (head_sequence <? cursor_sequence expected) invalid ;;
              Err (storage_error EventCursorExpired)
          end
      | Some event =>
          refuse (bool_decide (cursor_event_id expected ≠ Some event)) invalid ;;
          cursor_try_new key (cursor_sequence expected) (cursor_event_id expected)
      end
  | None =>
      head ← load_projection_stream_head db key;
      match head with
      | Some (n, event) => cursor_try_new key n (Some event)
      | None => cursor_try_new key 0 None
      end
  end.

Record ProjectionReadCut : Type := {
  cut_states : list StoredState;
  cut_cursor : ProjectionEventCursor
}.

Definition load_projection_read_cut_from_connection (db : Database) (streams : list string)
    (key : ProjectionEventStreamKey) (expected : option ProjectionEventCursor) : stored ProjectionReadCut :=
  states ← mapM (load_state_from_connection db) streams;
  cursor ← load_projection_event_cursor_from_connection db key expected;
  Ok {| cut_states := omap id states; cut_cursor := cursor |}.

(** *** Commits, receipts and events *)

Section storage.
Context (codec : EventCodec).

(** [ProductStateStorage::commit]. *)
Definition sqlite_commit (s : SqliteStorage) (c : StateCommit) : SqliteStorage * stored CommitReceipt :=
  match validate_commit c with
  | Ok _ => transact s (commit_in_transaction codec c)
  | Err e => (s, Err e)
  end.

Definition load_receipt (db : Database) (i : ReceiptIdentity) (digest : string) : stored (option CommitReceipt) :=
  validate_sha256_digest digest ;;
  match prior_receipt db i with
  | Some prior => receipt ← replay_stored_receipt codec db i digest prior; Ok (Some receipt)
  | None => Ok None
  end.

Definition load_receipt_for_identity (db : Database) (i : ReceiptIdentity) : stored (option CommitReceipt) :=
  match prior_receipt db i with
  | Some prior => receipt ← replay_stored_receipt codec db i (receipt_digest prior) prior; Ok (Some receipt)
  | None => Ok None
  end.

Definition load_receipt_for_stream_revision (db : Database) (stream : string) (revision : Z) :
    stored (option CommitReceipt) :=
  refuse (bool_decide (stream = ""%string) || (revision =? 0)) invalid ;;
  revision ← to_i64 revision;
  match filter (λ '(_, r), receipt_stream_id r = stream ∧ receipt_revision r = revision)
          (map_to_list (command_receipts db)) with
  | [] => Ok None
  | [(i, r)] =>
      actor ← from_encoded (actor_key i);
      scope ← from_encoded (scope_key i);
      i ← receipt_identity actor scope (request_id i);
      validate_sha256_digest (receipt_digest r) ;;
      receipt ← replay_stored_receipt codec db i (receipt_digest r) r;
      Ok (Some receipt)
  | _ => Err adapter
  end.

Definition pending_audit_events (db : Database) : stored (list PendingAuditEvent) :=
  mapM (λ r, audit_event_new (row_audit_event_id r) (row_audit_payload r))
    (sort_by_key row_audit_event_id
       (filter (λ r, row_persisted r = false) (snd <$> map_to_list (audit_outbox db)))).

(** [pending_events]: a row's keys are read first, then its event. *)
Definition pending_events (db : Database) : stored (list OutboxEvent) :=
  mapM (λ r, from_encoded (actor_key (row_identity r)) ;;
             from_encoded (scope_key (row_identity r)) ;; read_event codec r)
    (filter (λ r, row_published r = false) (outbox db)).

Record DurableOutboxEvent : Type := {
  durable_event : OutboxEvent;
  durable_identity : ReceiptIdentity;
  durable_digest : string;
  durable_stream_id : string;
  durable_revision : Z
}.

Definition require_event_owned_by_receipt (db : Database) (i : ReceiptIdentity) (e : OutboxEvent) : stored () :=
  evs ← receipt_events codec db i;
  match filter (λ x, event_id x = event_id e) evs with
  | [x] => refuse (bool_decide (x ≠ e)) adapter
  | _ => Err adapter
  end.

(** [StoredDurableOutboxRow::into_durable]. *)
Definition into_durable (db : Database) (r : OutboxRow) (receipt : ReceiptRow) : stored DurableOutboxEvent :=
  scope ← from_encoded (scope_key (row_identity r));
  actor ← from_encoded (actor_key (row_identity r));
  e ← read_event codec r;
  i ← receipt_identity actor scope (request_id (row_identity r));
  require_event_owned_by_receipt db i e ;;
  validate_sha256_digest (receipt_digest receipt) ;;
  revision ← to_u64 (receipt_revision receipt);
  Ok {| durable_event := e; durable_identity := i; durable_digest := receipt_digest receipt;
        durable_stream_id := receipt_stream_id receipt; durable_revision := revision |}.

Definition load_outbox_event (db : Database) (event : string) : stored (option DurableOutboxEvent) :=
  refuse (bool_decide (event = ""%string)) invalid ;;
  match head (filter (λ r, row_event_id r = event) (outbox db)) with
  | Some r =>
      match command_receipts db !! row_identity r with
      | Some receipt => e ← into_durable db r receipt; Ok (Some e)
      | None => Ok None
      end
  | None => Ok None
  end.

Record StoredStateDirectoryEntry : Type := {
  entry_stream_id : string;
  entry_revision : Z;
  entry_payload_sha256 : string
}.

(** The loop over the selected rows: [n] entries and [total] bytes so far. *)
Fixpoint directory_rows (n max_entries total max_bytes : Z) (rows : list (string * StateRow)) :
    stored (list StoredStateDirectoryEntry) :=
  match rows with
  | [] => Ok []
  | (i, r) :: rows =>
      refuse (n =? max_entries) invalid ;;
      total ← ok_or (checked_add_u64 total (byte_len (state_payload r))) invalid;
      refuse (max_bytes <? total) invalid ;;
      revision ← to_u64 (state_revision r);
      entries ← directory_rows (n + 1) max_entries total max_bytes rows;
      Ok ({| entry_stream_id := i; entry_revision := revision;
             entry_payload_sha256 := sha256_digest codec (state_payload r) |} :: entries)
  end.

Definition load_bounded_state_directory_from_connection (db : Database) (prefix : string)
    (revision : option Z) (max_entries max_bytes : Z) : stored (list StoredStateDirectoryEntry) :=
  validate_state_scan_prefix prefix ;;
  refuse ((max_entries =? 0) || (max_bytes =? 0) || bool_decide (revision = Some 0)) invalid ;;
  limit ← ok_or (checked_add_u64 max_entries 1) invalid;
  limit ← to_i64 limit;
  match revision with Some n => refuse (i64_max <? n) invalid | None => Ok tt end ;;
  directory_rows 0 max_entries 0 max_bytes
    (take (Z.to_nat limit)
       (select_states db (λ '(i, r), starts_with prefix i &&
          match revision with Some n => state_revision r =? n | None => true end))).
End storage.
