(* ===== verification/StateFacts.v ===== *)
(** * The state store: what a commit does

    Lemmas on [StateStore]: the effect of each statement of a commit's transaction, and of the
    commit as a whole, which either replays a receipt or happens in full. *)

From Stdlib Require Import Ascii String Sorted.
From S2P Require Import Prelude Text Numerals Ordered Transaction StateKeys StateStore.
From S2P Require Frame.
Local Open Scope Z_scope.

(** What the store relies on of [serde_json]: a decoded value is the one that was encoded. *)
Record event_codec_ok (codec : EventCodec) : Prop := {
  scope_json_ok : Frame.json_round_trip (json_scope codec);
  stream_json_ok : Frame.json_round_trip (json_stream codec);
  instant_json_ok : Frame.json_round_trip (json_instant codec);
  source_json_ok : Frame.json_round_trip (json_source codec)
}.
Existing Class event_codec_ok.

(** ** Statements *)

(** The states a commit writes, each with the revision it replaces. *)
Definition writes (c : StateCommit) : list (string * Z * payload_bytes) :=
  (commit_stream_id c, expected_revision c, commit_state c) ::
  ((λ m, (mutation_stream_id m, mutation_expected_revision m, mutation_state m)) <$> all_state_mutations c).

Definition write_state (t : gmap string StateRow) (w : string * Z * payload_bytes) : gmap string StateRow :=
  <[w.1.1 := {| state_revision := w.1.2 + 1; state_payload := w.2 |}]> t.

Definition revision_of (db : Database) (stream : string) : Z :=
  default 0 (state_revision <$> product_state db !! stream).

Lemma to_u64_Ok z n : to_u64 z = Ok n ↔ 0 ≤ z ∧ n = z.
Proof. unfold to_u64. rewrite bind_Ok. setoid_rewrite refuse_Ok. split; [naive_solver lia|]. intros [? ->]. exists tt. split; [lia|done]. Qed.

Lemma to_i64_Ok z n : to_i64 z = Ok n ↔ z ≤ i64_max ∧ n = z.
Proof. unfold to_i64. rewrite bind_Ok. setoid_rewrite refuse_Ok. split; [naive_solver lia|]. intros [? ->]. exists tt. split; [lia|done]. Qed.

Lemma next_i64_Ok z e n : next_i64 z e = Ok n ↔ z < i64_max ∧ n = z + 1.
Proof. unfold next_i64. rewrite bind_Ok. setoid_rewrite refuse_Ok. split; [naive_solver lia|]. intros [? ->]. exists tt. split; [lia|done]. Qed.

Lemma stored_state_revision_Ok db stream n :
  stored_state_revision db stream = Ok n ↔ 0 ≤ revision_of db stream ∧ n = revision_of db stream.
Proof. apply to_u64_Ok. Qed.

Lemma upsert_state_Ok stream revision st db u db' :
  upsert_state stream revision st db = Ok (u, db') →
  0 < revision ∧
  db' = set_product_state db (<[stream := {| state_revision := revision; state_payload := st |}]> (product_state db)).
Proof. unfold upsert_state, execute. intros H. inv_result. split; [lia|done]. Qed.

Lemma set_product_state_twice db t t' : set_product_state (set_product_state db t) t' = set_product_state db t'.
Proof. done. Qed.

Lemma set_product_state_id db : set_product_state db (product_state db) = db.
Proof. by destruct db. Qed.

Lemma append_state_mutations_Ok ms db u db' :
  for_each append_state_mutation ms db = Ok (u, db') →
  db' = set_product_state db
    (foldl write_state (product_state db)
       ((λ m, (mutation_stream_id m, mutation_expected_revision m, mutation_state m)) <$> ms)).
Proof.
  revert db. induction ms as [|m ms IH]; intros db; simpl; intros H; inv_tx.
  - by rewrite set_product_state_id.
  - match goal with H : append_state_mutation m _ = _ |- _ => rename H into Hm end.
    unfold append_state_mutation in Hm. inv_tx.
    repeat match goal with
    | H : to_i64 _ = _ |- _ => apply to_i64_Ok in H as [_ ->]
    | H : next_i64 _ _ = _ |- _ => apply next_i64_Ok in H as [_ ->]
    end.
    apply upsert_state_Ok in Hm as [_ ->]. apply IH in H as ->. by rewrite set_product_state_twice.
Qed.

(** *** Journals *)

Definition records_of (db : Database) (key : AggregateJournalKey) : list JournalRow :=
  filter (λ r, row_journal r = key) (journal_records db).

Definition record_row (key : AggregateJournalKey) (r : AggregateJournalRecord) : JournalRow :=
  {| row_journal := key; row_journal_sequence := record_sequence r;
     row_journal_digest := record_digest r; row_journal_payload := record_payload r |}.

Definition publication_key (p : AggregateJournalPublication) : AggregateJournalKey :=
  match p with Create key _ _ | Append key _ _ _ => key end.

Definition publication_record (p : AggregateJournalPublication) : AggregateJournalRecord :=
  match p with Create _ _ r | Append _ _ _ r => r end.

(** The manifests after a publication, and when it is accepted. *)
Definition manifests_after (p : AggregateJournalPublication) (t : gmap AggregateJournalKey payload_bytes) :=
  match p with Create key m _ => <[key := m]> t | Append _ _ _ _ => t end.

Definition publication_fits (db : Database) (p : AggregateJournalPublication) : Prop :=
  match p with
  | Create key _ _ => aggregate_journals db !! key = None
  | Append key n digest _ =>
      is_Some (aggregate_journals db !! key) ∧
      ∃ tail, last (journal_rows db key) = Some tail ∧ row_journal_sequence tail = n ∧
        row_journal_digest tail = digest
  end.

Lemma insert_journal_record_Ok key r db u db' :
  insert_journal_record key r db = Ok (u, db') →
  is_Some (aggregate_journals db !! key) ∧ 0 < record_sequence r ∧
  db' = set_journals db (aggregate_journals db) (journal_records db ++ [record_row key r]).
Proof.
  unfold insert_journal_record, execute. intros H. inv_tx.
  match goal with H : to_i64 _ = _ |- _ => apply to_i64_Ok in H as [_ ->] end. inv_result. split_bools.
  split_and!; [|lia|done]. by destruct (aggregate_journals db !! key).
Qed.

Lemma append_journal_publication_Ok p db u db' :
  append_journal_publication p db = Ok (u, db') →
  publication_fits db p ∧
  db' = set_journals db (manifests_after p (aggregate_journals db))
          (journal_records db ++ [record_row (publication_key p) (publication_record p)]).
Proof.
  destruct p as [key m r|key n digest r]; simpl; intros H; inv_tx; inv_result.
  - split_bools. unfold execute in *. inv_result.
    apply insert_journal_record_Ok in H as (_ & _ & ->). split; [|done].
    by destruct (aggregate_journals db !! key); [exfalso; eauto|].
  - match goal with H : to_i64 _ = _ |- _ => apply to_i64_Ok in H as [_ ->] end. split_bools.
    apply insert_journal_record_Ok in H as (? & _ & ->). split; [|done]. split; [done|].
    eexists. split_and!; [done|lia|done].
Qed.

(** *** Receipts, audit events *)

Lemma append_receipt_Ok c revision db u db' :
  append_receipt c revision db = Ok (u, db') →
  db' = set_command_receipts db
    (<[commit_identity c := {| receipt_rowid := last_receipt_rowid db + 1; receipt_digest := command_digest c;
                               receipt_stream_id := commit_stream_id c; receipt_revision := revision |}]> (command_receipts db)).
Proof. unfold append_receipt, execute. intros H. by inv_result. Qed.

Definition audit_row (e : PendingAuditEvent) : AuditRow :=
  {| row_audit_event_id := audit_event_id e; row_audit_payload := audit_payload e; row_persisted := false |}.

Definition audit_after (c : StateCommit) (t : gmap ReceiptIdentity AuditRow) : gmap ReceiptIdentity AuditRow :=
  match pending_audit_event c with
  | Some e => <[commit_identity c := audit_row e]> t
  | None => t
  end.

Lemma append_pending_audit_event_Ok c e db u db' :
  append_pending_audit_event c e db = Ok (u, db') →
  db' = set_audit_outbox db (<[commit_identity c := audit_row e]> (audit_outbox db)) ∧
  ∀ i r, audit_outbox db !! i = Some r → row_audit_event_id r ≠ audit_event_id e.
Proof.
  unfold append_pending_audit_event, execute. intros H. inv_result. split_bools. split; [done|].
  intros i r Hr Heq. assert (existsb (λ '(_, r), bool_decide (row_audit_event_id r = audit_event_id e))
    (map_to_list (audit_outbox db)) = true); [|congruence].
  apply existsb_exists. exists (i, r). split; [by apply list_elem_of_In, elem_of_map_to_list|by apply bool_decide_eq_true].
Qed.

(** *** The outbox *)

(** The current end of a projection stream. *)
Definition head_position (db : Database) (key : head_key) : Z := default 0 (fst <$> stream_heads db !! key).

Definition head_of_event (c : StateCommit) (e : NewOutboxEvent) : option head_key :=
  head_of (scope_key (commit_identity c)) <$> projection_stream e.

Definition position_of (c : StateCommit) (e : NewOutboxEvent) (db : Database) : option Z :=
  (λ key, head_position db key + 1) <$> head_of_event c e.

Definition heads_after (c : StateCommit) (e : NewOutboxEvent) (db : Database) : gmap head_key (Z * string) :=
  match head_of_event c e with
  | Some key => <[key := (head_position db key + 1, new_event_id e)]> (stream_heads db)
  | None => stream_heads db
  end.

Section store.
Context (codec : EventCodec).

(** The serialised context of an event. *)
Definition context_json (e : NewOutboxEvent) :
    stored (option (payload_bytes * payload_bytes * payload_bytes * payload_bytes)) :=
  match public_context e with
  | Some context => Some <$> serialize_public_context codec context
  | None => Ok None
  end.

Record event_appended (c : StateCommit) (e : NewOutboxEvent) (db db' : Database) (r : OutboxRow) : Prop := {
  ea_row : ∃ json, context_json e = Ok json ∧
    r = outbox_row c e (position_of c e db) json (outbox_autoincrement db + 1);
  ea_position : ∀ key, head_of_event c e = Some key → 0 ≤ head_position db key < max_safe_integer;
  ea_fresh : Forall (λ x, row_event_id x ≠ new_event_id e) (outbox db);
  ea_db : db' = set_stream_heads (set_outbox db (outbox db ++ [r]) (outbox_autoincrement db + 1))
                  (heads_after c e db)
}.

Lemma next_position_Ok db c stream n :
  next_projection_stream_position db c stream = Ok n →
  let key := head_of (scope_key (commit_identity c)) stream in
  0 ≤ head_position db key < max_safe_integer ∧ n = head_position db key + 1.
Proof.
  unfold next_projection_stream_position. cbv zeta. fold (head_position db (head_of (scope_key (commit_identity c)) stream)).
  intros H. inv_result. split_bools. apply next_i64_Ok in H as [_ ->]. lia.
Qed.

Lemma insert_outbox_Ok make db u db' :
  insert_outbox make db = Ok (u, db') →
  let r := make (outbox_autoincrement db + 1) in
  Forall (λ x, row_event_id x ≠ row_event_id r) (outbox db) ∧
  db' = set_outbox db (outbox db ++ [r]) (outbox_autoincrement db + 1).
Proof.
  unfold insert_outbox, execute. intros H. inv_result. split; [|done].
  apply Forall_forall. intros y Hy Heq.
  match goal with H : existsb _ _ = false |- _ => apply not_true_iff_false in H; apply H end.
  apply existsb_exists. exists y. split; [by apply list_elem_of_In|]. unfold outbox_clash. by rewrite bool_decide_eq_true_2.
Qed.

Lemma append_outbox_event_Ok c e db u db' :
  append_outbox_event codec c e db = Ok (u, db') → ∃ r, event_appended c e db db' r.
Proof.
  unfold append_outbox_event. intros H.
  apply tx_bind_Ok in H as (position & ? & [Hpos ->]%query_Ok & H).
  apply tx_bind_Ok in H as (json & ? & [Hjson ->]%lift_Ok & H).
  apply tx_bind_Ok in H as (? & ? & Hins & H). apply insert_outbox_Ok in Hins as [Hfresh ->].
  assert (position = position_of c e db ∧
    ∀ key, head_of_event c e = Some key → 0 ≤ head_position db key < max_safe_integer) as [-> Hp].
  { unfold position_of, head_of_event. destruct (projection_stream e) as [stream|]; simpl in *; [|naive_solver].
    destruct (next_projection_stream_position db c stream) as [n|] eqn:En; [|done].
    apply next_position_Ok in En as [? ->]. simpl in *. simplify_eq. split; [done|]. naive_solver. }
  eexists. split; [eexists; split; [done|reflexivity]|done|done|].
  unfold heads_after, position_of, head_of_event in *. destruct (projection_stream e) as [stream|]; simpl in H.
  - unfold upsert_stream_head, execute in H. by inv_result.
  - inv_tx. by destruct db.
Qed.

(** All the events of a commit, in order. *)
Inductive events_appended (c : StateCommit) : list NewOutboxEvent → Database → Database → list OutboxRow → Prop :=
| appended_none db : events_appended c [] db db []
| appended_next e es db db1 db' r rs :
    event_appended c e db db1 r → events_appended c es db1 db' rs →
    events_appended c (e :: es) db db' (r :: rs).

Lemma append_outbox_events_Ok c es db u db' :
  for_each (append_outbox_event codec c) es db = Ok (u, db') → ∃ rs, events_appended c es db db' rs.
Proof.
  revert db. induction es as [|e es IH]; intros db; simpl; intros H; inv_tx; [eexists; constructor|].
  match goal with H : append_outbox_event _ _ _ _ = _ |- _ => apply append_outbox_event_Ok in H as [r Hr] end.
  apply IH in H as [rs Hrs]. exists (r :: rs). by econstructor.
Qed.

(** The tables that appending events leaves alone, and the outbox after it. *)
Lemma events_appended_frame c es db db' rs :
  events_appended c es db db' rs →
  db' = set_stream_heads (set_outbox db (outbox db ++ rs) (outbox_autoincrement db')) (stream_heads db') ∧
  Forall (λ r, row_identity r = commit_identity c ∧ row_published r = false) rs ∧
  outbox_autoincrement db' = outbox_autoincrement db + Z.of_nat (length es).
Proof.
  induction 1 as [db|e es db db1 db' r rs [(json & _ & ->) _ _ ->] _ (IH & Hi & Hn)].
  - split_and!; [rewrite app_nil_r; by destruct db|constructor|simpl; lia].
  - split_and!; [|by constructor|rewrite Hn; simpl; lia].
    rewrite IH at 1. unfold set_stream_heads, set_outbox; simpl. by rewrite <-app_assoc.
Qed.

(** *** A commit under a new identity *)

Record fresh_commit (c : StateCommit) (db db' : Database) (r : CommitReceipt) : Prop := {
  fc_prior : command_receipts db !! commit_identity c = None;
  fc_expected : revision_of db (commit_stream_id c) = expected_revision c ∧ 0 ≤ expected_revision c < i64_max;
  fc_guards : Forall (λ g, revision_of db (guard_stream_id g) = guard_expected_revision g) (state_guards c);
  fc_mutations : Forall (λ m, revision_of db (mutation_stream_id m) = mutation_expected_revision m)
    (all_state_mutations c);
  fc_states : product_state db' = foldl write_state (product_state db) (writes c);
  fc_journals : match journal_publication c with
    | Some p => publication_fits db p ∧
        aggregate_journals db' = manifests_after p (aggregate_journals db) ∧
        journal_records db' = journal_records db ++ [record_row (publication_key p) (publication_record p)]
    | None => aggregate_journals db' = aggregate_journals db ∧ journal_records db' = journal_records db
    end;
  fc_receipts : command_receipts db' =
    <[commit_identity c := {| receipt_rowid := last_receipt_rowid db + 1; receipt_digest := command_digest c;
                              receipt_stream_id := commit_stream_id c;
                              receipt_revision := expected_revision c + 1 |}]> (command_receipts db);
  fc_audit : audit_outbox db' = audit_after c (audit_outbox db) ∧
    ∀ e i r, pending_audit_event c = Some e → audit_outbox db !! i = Some r →
      row_audit_event_id r ≠ audit_event_id e;
  fc_outbox : ∃ db0 rs, outbox db0 = outbox db ∧ outbox_autoincrement db0 = outbox_autoincrement db ∧
    stream_heads db0 = stream_heads db ∧ events_appended c (events c) db0 db' rs;
  fc_claims : control_plane db' = control_plane db;
  fc_receipt : ∃ evs, receipt_events codec db' (commit_identity c) = Ok evs ∧
    r = {| committed_identity := commit_identity c; committed_digest := command_digest c;
           committed_stream_id := commit_stream_id c; committed_revision := expected_revision c + 1;
           committed_events := evs; idempotent_replay := false |}
}.

Lemma check_guards_Ok db c :
  check_state_revision_guards db c = Ok tt →
  Forall (λ g, revision_of db (guard_stream_id g) = guard_expected_revision g) (state_guards c).
Proof.
  unfold check_state_revision_guards. rewrite check_all_Ok. intros Hg. eapply Forall_impl; [exact Hg|]. clear Hg. intros g H.
  unfold check_state_revision_guard in H. inv_result. split_bools.
  match goal with H : stored_state_revision _ _ = _ |- _ => apply stored_state_revision_Ok in H as [_ ->] end. lia.
Qed.

Lemma check_mutations_Ok db c :
  check_state_mutation_revisions codec db c = Ok tt →
  Forall (λ m, revision_of db (mutation_stream_id m) = mutation_expected_revision m) (all_state_mutations c).
Proof.
  unfold check_state_mutation_revisions. intros H. inv_result. apply check_all_Ok in H. eapply Forall_impl; [exact H|]. clear H. intros g H.
  unfold check_state_mutation_revision in H. inv_result. split_bools.
  match goal with H : stored_state_revision _ _ = _ |- _ => apply stored_state_revision_Ok in H as [_ ->] end. lia.
Qed.

Lemma append_state_commit_Ok c db r db' :
  command_receipts db !! commit_identity c = None →
  check_state_revision_guards db c = Ok tt → check_state_mutation_revisions codec db c = Ok tt →
  append_state_commit codec c db = Ok (r, db') → fresh_commit c db db' r.
Proof.
  intros Hprior Hg%check_guards_Ok Hm%check_mutations_Ok H. unfold append_state_commit in H.
  apply tx_bind_Ok in H as (actual & ? & [[Hpos ->]%stored_state_revision_Ok ->]%query_Ok & H).
  apply lift_then_iff in H as [Heq H]. inv_result. split_bools.
  apply tx_bind_Ok in H as (expected & ? & [[Hmax ->]%to_i64_Ok ->]%lift_Ok & H).
  apply tx_bind_Ok in H as (revision & ? & [[Hlt ->]%next_i64_Ok ->]%lift_Ok & H).
  apply tx_bind_Ok in H as (? & db1 & [_ Hdb1]%upsert_state_Ok & H).
  apply tx_bind_Ok in H as (? & db2 & Hdb2%append_state_mutations_Ok & H).
  apply tx_bind_Ok in H as (? & db3 & Hj & H).
  apply tx_bind_Ok in H as (? & db4 & Hdb4%append_receipt_Ok & H).
  apply tx_bind_Ok in H as (? & db5 & Ha & H).
  apply tx_bind_Ok in H as (? & db6 & (rs & Hev)%append_outbox_events_Ok & H).
  apply tx_bind_Ok in H as (? & ? & [[_ ->]%to_u64_Ok ->]%lift_Ok & H).
  apply tx_bind_Ok in H as (evs & ? & [Hevs ->]%query_Ok & [-> ->]%ret_Ok).
  assert (db5 = set_audit_outbox db4 (audit_after c (audit_outbox db4)) ∧
    ∀ e i r, pending_audit_event c = Some e → audit_outbox db4 !! i = Some r →
      row_audit_event_id r ≠ audit_event_id e) as [-> Haudit].
  { unfold audit_after. destruct (pending_audit_event c) as [e|].
    - apply append_pending_audit_event_Ok in Ha as [-> Ha]. split; [done|naive_solver].
    - apply ret_Ok in Ha as [_ ->]. split; [by destruct db4|done]. }
  destruct (events_appended_frame _ _ _ _ _ Hev) as (Hdb' & _ & _).
  assert (∃ js l, db3 = set_journals db2 js l ∧
    match journal_publication c with
    | Some p => publication_fits db p ∧ js = manifests_after p (aggregate_journals db) ∧
        l = journal_records db ++ [record_row (publication_key p) (publication_record p)]
    | None => js = aggregate_journals db ∧ l = journal_records db
    end) as (js & l & -> & Hjs).
  { subst db2 db1. destruct (journal_publication c) as [p|].
    - apply append_journal_publication_Ok in Hj as [Hf ->]. eexists _, _. split_and!; [done| |done..].
      destruct p; exact Hf.
    - apply ret_Ok in Hj as [_ ->]. eexists _, _. by split_and!; [by destruct db| |]. }
  clear Ha Hj. subst db4 db2 db1.
  assert (product_state db6 = _ ∧ aggregate_journals db6 = _ ∧ journal_records db6 = _ ∧
    command_receipts db6 = _ ∧ audit_outbox db6 = _ ∧ control_plane db6 = _)
    as (Eps & Eaj & Ejr & Ecr & Eao & Ecc) by (rewrite Hdb' at 1 2 3 4 5 6; split_and!; reflexivity).
  clear Hdb'. split; try done.
  - split; [lia|]. unfold revision_of in *. lia.
  - rewrite Eaj, Ejr. exact Hjs.
  - eexists _, rs. by split_and!; [| | |exact Hev].
  - by exists evs.
Qed.

Lemma commit_in_transaction_Ok c db claimed r db' :
  commit_in_transaction_with_claim_authority codec c claimed db = Ok (r, db') →
  (∃ prior, prior_receipt db (commit_identity c) = Some prior ∧ replay_receipt codec db c prior = Ok r ∧ db' = db) ∨
  fresh_commit c db db' r.
Proof.
  unfold commit_in_transaction_with_claim_authority.
  destruct (prior_receipt db (commit_identity c)) as [prior|] eqn:Hp.
  - intros [Hr ->]%query_Ok. left. by exists prior.
  - intros H. apply lift_then_iff in H as [_ H]. apply lift_then_iff in H as [_ H].
    apply query_then_iff in H as [Hg H]. apply query_then_iff in H as [Hm H]. right.
    by apply append_state_commit_Ok.
Qed.

Lemma replay_receipt_Ok db c prior r :
  replay_receipt codec db c prior = Ok r → idempotent_replay r = true ∧
  load_pending_audit_event db (commit_identity c) = Ok (pending_audit_event c) ∧
  receipt_digest prior = command_digest c ∧ 0 ≤ receipt_revision prior ∧
  ∃ evs, receipt_events codec db (commit_identity c) = Ok evs ∧
    r = {| committed_identity := commit_identity c; committed_digest := command_digest c;
           committed_stream_id := receipt_stream_id prior; committed_revision := receipt_revision prior;
           committed_events := evs; idempotent_replay := true |}.
Proof.
  unfold replay_receipt, replay_stored_receipt. intros H. inv_result. split_bools.
  match goal with H : to_u64 _ = _ |- _ => apply to_u64_Ok in H as [? ->] end. subst. split_and!; eauto.
Qed.
End store.

(** ** Validated commits *)

Lemma commit_events_Ok i seen es u :
  validate_events i seen es = Ok u →
  Forall (λ e, validate_event_context i e = Ok tt) es ∧ NoDup (new_event_id <$> es) ∧
  Forall (λ x, x ∉ seen) (new_event_id <$> es).
Proof.
  revert seen. induction es as [|e es IH]; intros seen H; [split_and!; constructor|].
  cbn [validate_events] in H. inv_result. split_bools. apply IH in H as (Hv & Hn & Hf).
  repeat match goal with u : () |- _ => destruct u end. cbn [fmap list_fmap]. split_and!.
  - by constructor.
  - constructor; [|done]. intros Hin. apply (proj1 (Forall_forall _ _) Hf) in Hin. set_solver.
  - constructor; [done|]. eapply Forall_impl; [exact Hf|]. set_solver.
Qed.

Lemma validate_mutations_Ok primary guarded seen ms u :
  validate_mutations primary guarded seen ms = Ok u →
  Forall (λ m, mutation_expected_revision m < i64_max) ms ∧ NoDup (mutation_stream_id <$> ms) ∧
  Forall (λ i, i ≠ primary ∧ i ∉ seen) (mutation_stream_id <$> ms).
Proof.
  revert seen. induction ms as [|m ms IH]; intros seen Hm; [split_and!; constructor|].
  cbn [validate_mutations] in Hm. inv_result. split_bools. apply IH in Hm as (Hb & Hn & Hf).
  match goal with H : validate_mutation _ = _ |- _ => unfold validate_mutation in H; inv_result end.
  cbn [fmap list_fmap]. split_and!.
  - constructor; [lia|done].
  - constructor; [|done]. intros Hin. apply (proj1 (Forall_forall _ _) Hf) in Hin. set_solver.
  - constructor; [done|]. eapply Forall_impl; [exact Hf|]. set_solver.
Qed.

Record commit_valid (c : StateCommit) : Prop := {
  cv_events : Forall (λ e, validate_event_context (commit_identity c) e = Ok tt) (events c);
  cv_event_ids : NoDup (new_event_id <$> events c);
  cv_mutations : Forall (λ m, mutation_expected_revision m < i64_max) (all_state_mutations c);
  cv_streams : NoDup (writes c).*1.*1;
  cv_journal : ∀ p, journal_publication c = Some p → validate_publication p = Ok tt;
  cv_audit : ∀ e, pending_audit_event c = Some e → validate_audit_event e = Ok tt
}.

Lemma validate_commit_Ok c u : validate_commit c = Ok u → commit_valid c.
Proof.
  unfold validate_commit. intros H. inv_result. apply commit_events_Ok in H as (Hctx & Hi & _).
  match goal with H : validate_secondary_states c = _ |- _ => unfold validate_secondary_states in H end.
  inv_result. match goal with H : validate_mutations _ _ _ _ = _ |- _ =>
    apply validate_mutations_Ok in H as (Hb & Hn & Hf) end.
  repeat match goal with u : () |- _ => destruct u end. split; try done.
  - unfold writes. cbn [fmap list_fmap fst]. rewrite <-!list_fmap_compose. constructor; [|exact Hn].
    intros Hin. by apply (proj1 (Forall_forall _ _) Hf) in Hin as [].
  - intros p Hp. match goal with H : context [validate_publication] |- _ => by rewrite Hp in H end.
  - intros e He. match goal with H : context [validate_audit_event] |- _ => by rewrite He in H end.
Qed.
