(* ===== verification/StateInvariant.v ===== *)
(** * The state store: its invariant

    The invariant of the tables of [StateStore]: states and receipts have positive revisions,
    the outbox is in order, readable and owned by receipts, every projection stream and every
    journal is numbered without gaps.  Every operation keeps it. *)

From Stdlib Require Import Ascii String Sorted.
From stdpp Require Import sorting.
From S2P Require Import Prelude Text Numerals Ordered Transaction StateKeys StateStore StateFacts.
From S2P Require Frame.
Local Open Scope Z_scope.

#[local] Arguments stored_projection_cursor : simpl never.
#[local] Arguments stored_public_context : simpl never.

Section invariant.
Context (codec : EventCodec).

Definition on_stream (key : head_key) (r : OutboxRow) : Prop :=
  scope_key (row_identity r) = key.1.1 ∧ row_stream_kind r = Some key.1.2 ∧ row_resource_id r = Some key.2.

#[global] Instance on_stream_dec key r : Decision (on_stream key r).
Proof. unfold on_stream. apply _. Defined.

Definition stream_rows (key : head_key) (l : list OutboxRow) : list OutboxRow := filter (on_stream key) l.

(** The outbox: its keys increase, no event is there twice, every row can be read, and the
    rows of a projection stream are numbered 1, 2, ... up to the stream's head. *)
Record outbox_wf (db : Database) : Prop := {
  ow_start : 0 ≤ outbox_autoincrement db;
  ow_bound : Forall (λ r, 0 < row_sequence r ≤ outbox_autoincrement db) (outbox db);
  ow_sorted : StronglySorted Z.lt (row_sequence <$> outbox db);
  ow_ids : NoDup (row_event_id <$> outbox db);
  ow_readable : Forall (λ r, is_Some (match read_event codec r with Ok e => Some e | Err _ => None end)) (outbox db);
  ow_streams : ∀ key, let l := stream_rows key (outbox db) in
    row_stream_sequence <$> l = Some <$> seqZ 1 (Z.of_nat (length l)) ∧
    stream_heads db !! key = (λ r, (Z.of_nat (length l), row_event_id r)) <$> last l
}.

(** The journals: a journal's records are numbered 1, 2, ..., at least one of them. *)
Definition journals_wf (db : Database) : Prop := ∀ key,
  row_journal_sequence <$> records_of db key = seqZ 1 (Z.of_nat (length (records_of db key))) ∧
  (records_of db key = [] ↔ aggregate_journals db !! key = None).

Record store_wf (db : Database) : Prop := {
  sw_states : map_Forall (λ _ r, 0 < state_revision r ≤ i64_max) (product_state db);
  sw_receipts : map_Forall (λ _ r, 0 < receipt_revision r ≤ i64_max) (command_receipts db);
  sw_outbox : outbox_wf db;
  sw_owned : Forall (λ r, is_Some (command_receipts db !! row_identity r)) (outbox db);
  sw_audit : map_Forall (λ i r, is_Some (command_receipts db !! i) ∧
    audit_event_new (row_audit_event_id r) (row_audit_payload r) =
      Ok {| audit_event_id := row_audit_event_id r; audit_payload := row_audit_payload r |}) (audit_outbox db);
  sw_journals : journals_wf db
}.

(** An event as a commit's receipt shows it. *)
Definition committed_event (c : StateCommit) (e : NewOutboxEvent) (position : option Z) (n : Z) : OutboxEvent :=
  {| event_sequence := n; event_id := new_event_id e; topic := new_topic e; payload := new_payload e;
     projection_cursor :=
       match projection_stream e, position with
       | Some stream, Some p =>
           Some {| cursor_key := {| stream_scope_key := scope_key (commit_identity c); key_stream := stream |};
                   cursor_sequence := p; cursor_event_id := Some (new_event_id e) |}
       | _, _ => None
       end;
     event_context := public_context e |}.

Lemma empty_wf : store_wf empty_database.
Proof.
  split; simpl; try apply map_Forall_empty; try constructor; simpl; try done; try constructor.
Qed.

Context (codec_ok : event_codec_ok codec).

Lemma read_write_json {T} (j : Frame.Json T) v b :
  Frame.json_round_trip j → write_json j v = Ok b → read_json j b = Ok v.
Proof. unfold write_json, read_json. intros Hj H%map_err_Ok%Hj. by rewrite H. Qed.

Lemma cursor_reads scope stream position event :
  validate_stream stream = Ok tt → scope ≠ ""%string → canonical_control_plane_event_id event = true →
  0 < position ≤ max_safe_integer →
  stored_projection_cursor scope (Some (stream_kind stream)) (Some (resource_id stream)) (Some position) event =
  Ok (Some {| cursor_key := {| stream_scope_key := scope; key_stream := stream |};
              cursor_sequence := position; cursor_event_id := Some event |}).
Proof.
  intros Hs Hscope He Hp. unfold stored_projection_cursor. rewrite (from_stored_stream _ _ Hs).
  cbn [mbind result_bind]. unfold from_encoded. rewrite refuse_run by (by apply bool_decide_eq_false).
  cbn [mbind result_bind]. unfold stream_key. rewrite Hs. cbn [mbind result_bind].
  rewrite (proj2 (to_u64_Ok position position)) by lia. cbn [mbind result_bind]. unfold cursor_try_new.
  rewrite refuse_run; [done|]. rewrite He, !orb_false_iff. split_and!; [lia| |done].
  by rewrite (proj2 (Z.eqb_neq _ _)) by lia.
Qed.

Lemma receipt_key_nonempty s key : receipt_scope_key s = Ok key → key ≠ ""%string.
Proof.
  unfold receipt_scope_key. intros H. inv_result. unfold from_encoded in H. inv_result. by split_bools.
Qed.

Lemma context_reads context identity cursor a b d f :
  serialize_public_context codec context = Ok (a, b, d, f) →
  key_stream (cursor_key cursor) = context_stream context →
  validate_public_event_time (occurred_at context) = Ok tt →
  validate_public_source (context_source context) = Ok tt →
  validate_public_stream_source (context_stream context) (context_source context) = Ok tt →
  receipt_scope_key (context_scope context) = Ok (scope_key identity) →
  (∀ actor component, context_source context = ControlPlane actor component →
     receipt_actor_key actor = Ok (actor_key identity)) →
  stored_public_context codec (Some cursor) (Some a) (Some b) (Some d) (Some f) identity = Ok (Some context).
Proof.
  unfold serialize_public_context. intros H Hk Ht Hs Hss Hscope Hactor. inv_result.
  destruct codec_ok as [Jsc Jst Jin Jso]. unfold stored_public_context.
  repeat (erewrite read_write_json by eassumption; cbn [mbind result_bind]).
  rewrite Hk, differs_refl. cbn [refuse mbind result_bind].
  rewrite Ht, Hs, Hss, Hscope. cbn [mbind result_bind].
  rewrite differs_refl. cbn [refuse mbind result_bind].
  assert (match context_source context with
          | ControlPlane actor _ =>
              key ← receipt_actor_key actor; refuse (bool_decide (key ≠ actor_key identity)) adapter
          | _ => Ok tt
          end = Ok tt) as ->; [|by destruct context].
  destruct (context_source context) as [actor component| |]; [|done..].
  rewrite (Hactor _ _ eq_refl). cbn [mbind result_bind]. by rewrite differs_refl.
Qed.

(** An event that validates is read back as it was given. *)
Lemma read_event_row c e db json n :
  validate_event_context (commit_identity c) e = Ok tt → context_json codec e = Ok json → 0 ≤ n →
  (∀ key, head_of_event c e = Some key → 0 ≤ head_position db key < max_safe_integer) →
  read_event codec (outbox_row c e (position_of c e db) json n) = Ok (committed_event c e (position_of c e db) n).
Proof.
  unfold validate_event_context, context_json, position_of, head_of_event, read_event, outbox_row, committed_event.
  intros Hv Hj Hn Hp. simpl. rewrite (proj2 (to_u64_Ok n n)) by done.
  destruct (projection_stream e) as [stream|]; simpl in *; inv_result; split_bools; subst.
  - specialize (Hp _ eq_refl). repeat match goal with u : () |- _ => destruct u end.
    match goal with H : receipt_scope_key _ = Ok _ |- _ => rename H into Hscope end.
    rewrite cursor_reads; [|done|by eapply receipt_key_nonempty|done|lia]. cbn [mbind result_bind].
    match goal with H : public_context e = Some ?x |- _ => rewrite H in *; rename x into context end.
    destruct (serialize_public_context codec context) as [[[[a b] d] f]|] eqn:Eser; [|done].
    simpl in Hj. inv_result. cbn [fmap option_fmap option_map fst snd].
    erewrite context_reads; [done|exact Eser|done..|].
    intros actor component Ea. rewrite Ea in Hv. inv_result. split_bools. by subst.
  - match goal with H : ¬ is_Some _ |- _ => apply eq_None_not_Some in H; rewrite H in * end.
    inv_result. done.
Qed.

(** *** Appending events *)

Lemma on_stream_row c e key position json n :
  on_stream key (outbox_row c e position json n) ↔ head_of_event c e = Some key.
Proof.
  unfold on_stream, head_of_event, head_of. destruct key as [[scope k] i]. simpl.
  destruct (projection_stream e) as [stream|]; simpl; naive_solver.
Qed.

(** The head of a stream is its last row. *)
Lemma head_position_length db key :
  outbox_wf db → head_position db key = Z.of_nat (length (stream_rows key (outbox db))).
Proof.
  intros Hwf. unfold head_position. rewrite (proj2 (ow_streams _ Hwf key)).
  destruct (last (stream_rows key (outbox db))) as [r|] eqn:E; simpl; [done|]. apply last_None in E. by rewrite E.
Qed.

Lemma event_appended_wf c e db db' r :
  outbox_wf db → validate_event_context (commit_identity c) e = Ok tt →
  event_appended codec c e db db' r → outbox_wf db'.
Proof.
  intros Hwf Hv [(json & Hj & ->) Hp Hfresh ->]. pose proof (ow_start _ Hwf) as Hs.
  split; simpl.
  - lia.
  - rewrite Forall_app, Forall_singleton. split; [|simpl; lia].
    eapply Forall_impl; [exact (ow_bound _ Hwf)|]. simpl. lia.
  - rewrite fmap_app. apply StronglySorted_app_2; [|exact (ow_sorted _ Hwf)|repeat constructor].
    intros x y Hx Hy%list_elem_of_singleton. apply list_elem_of_fmap in Hx as (x' & -> & Hx).
    apply (proj1 (Forall_forall _ _) (ow_bound _ Hwf)) in Hx. simpl in *. lia.
  - rewrite fmap_app. apply NoDup_app. split_and!; [exact (ow_ids _ Hwf)| |apply NoDup_singleton].
    intros x (x' & -> & Hx)%list_elem_of_fmap Hy%list_elem_of_singleton.
    by apply (proj1 (Forall_forall _ _) Hfresh) in Hx.
  - rewrite Forall_app, Forall_singleton. split; [exact (ow_readable _ Hwf)|].
    rewrite read_event_row by (done || lia). by eexists.
  - intros key. unfold stream_rows. rewrite filter_app, filter_cons, filter_nil.
    destruct (ow_streams _ Hwf key) as [Hn Hh]. fold (stream_rows key (outbox db)). unfold heads_after, position_of.
    destruct (decide (on_stream key _)) as [Hon|Hoff]; rewrite on_stream_row in *.
    + rewrite Hon. simpl. rewrite fmap_app, length_app, Nat2Z.inj_add, last_snoc, lookup_insert_eq. simpl.
      rewrite Hn, head_position_length by done. change (Z.of_nat 1) with 1.
      rewrite <-seqZ_snoc, fmap_app by lia. simpl. split; [|done]. do 3 f_equal. lia.
    + rewrite app_nil_r. split; [done|].
      destruct (head_of_event c e) as [key'|]; [|done]. by rewrite lookup_insert_ne by congruence.
Qed.

Lemma events_appended_wf c es db db' rs :
  outbox_wf db → Forall (λ e, validate_event_context (commit_identity c) e = Ok tt) es →
  events_appended codec c es db db' rs → outbox_wf db'.
Proof.
  intros Hwf Hes H. induction H as [|e es db db1 db' r rs He _ IH]; [done|].
  apply Forall_cons in Hes as [Hv Hes]. apply IH; [|done]. by eapply event_appended_wf.
Qed.

Lemma outbox_wf_ext db db' :
  outbox db' = outbox db → outbox_autoincrement db' = outbox_autoincrement db →
  stream_heads db' = stream_heads db → outbox_wf db → outbox_wf db'.
Proof. intros E1 E2 E3 []. by split; rewrite ?E1, ?E2, ?E3. Qed.

(** *** The tables after a commit *)

Lemma revision_of_bound db i : store_wf db → 0 ≤ revision_of db i ≤ i64_max.
Proof.
  intros Hwf. unfold revision_of. destruct (product_state db !! i) as [r|] eqn:E; simpl; [|unfold i64_max; lia].
  apply (sw_states _ Hwf) in E. simpl in E. lia.
Qed.

(** What a commit writes replaces the current revisions. *)
Lemma writes_current c db db' r :
  store_wf db → commit_valid c → fresh_commit codec c db db' r →
  Forall (λ w, revision_of db w.1.1 = w.1.2 ∧ 0 ≤ w.1.2 < i64_max) (writes c).
Proof.
  intros Hwf Hv Hf. destruct (fc_expected _ _ _ _ _ Hf) as [He Hb]. unfold writes. constructor; [done|].
  apply Forall_fmap, Forall_forall. intros m Hm. simpl.
  pose proof (proj1 (Forall_forall _ _) (fc_mutations _ _ _ _ _ Hf) m Hm) as Hr. simpl in Hr.
  pose proof (proj1 (Forall_forall _ _) (cv_mutations _ Hv) m Hm) as Hlt. simpl in Hlt.
  pose proof (revision_of_bound db (mutation_stream_id m) Hwf). lia.
Qed.

Lemma write_states_bound t ws :
  map_Forall (λ _ r, 0 < state_revision r ≤ i64_max) t → Forall (λ w, 0 ≤ w.1.2 < i64_max) ws →
  map_Forall (λ _ r, 0 < state_revision r ≤ i64_max) (foldl write_state t ws).
Proof.
  intros Ht Hws. revert t Ht. induction Hws as [|w ws Hw _ IH]; intros t Ht; [done|].
  apply IH, map_Forall_insert_2; [simpl; lia|done].
Qed.

(** The rows of a journal are in order. *)
Lemma journal_rows_records db key : journals_wf db → journal_rows db key = records_of db key.
Proof. intros Hwf. unfold journal_rows. by eapply order_numbered, Hwf. Qed.

Lemma saturating_next n m : m = saturating_add_u64 n 1 → m ≤ i64_max → m = n + 1.
Proof. unfold saturating_add_u64. assert (i64_max < u64_max) by done. lia. Qed.

Lemma publication_follows db p :
  journals_wf db → validate_publication p = Ok tt → publication_fits db p →
  record_sequence (publication_record p) = Z.of_nat (length (records_of db (publication_key p))) + 1.
Proof.
  intros Hwf Hv Hf. destruct p as [key m r|key n digest r]; cbn [publication_fits publication_record publication_key validate_publication] in *.
  - apply (proj2 (Hwf key)) in Hf. rewrite Hf. inv_result. split_bools. change (Z.of_nat (length [])) with 0. lia.
  - destruct Hf as (_ & tail & Ht & Hn & _). rewrite journal_rows_records in Ht by done.
    inv_result. split_bools. match goal with H : validate_journal_record _ = _ |- _ => unfold validate_journal_record in H end.
    inv_result. split_bools.
    destruct (seqZ_ends row_journal_sequence _ 1 (proj1 (Hwf key))) as [_ Hl]; [by intros E; rewrite E in Ht|].
    rewrite Ht in Hl. simpl in Hl. injection Hl as Hl.
    rewrite (saturating_next (row_journal_sequence tail) (record_sequence r)); lia.
Qed.

Lemma records_snoc db db' key key' r :
  journal_records db' = journal_records db ++ [record_row key' r] →
  records_of db' key = records_of db key ++ (if decide (key = key') then [record_row key r] else []).
Proof.
  intros E. unfold records_of. rewrite E, filter_app, filter_cons, filter_nil. simpl.
  destruct (decide (key' = key)) as [->|], (decide _); done.
Qed.

Lemma publication_wf db db' p :
  journals_wf db → validate_publication p = Ok tt → publication_fits db p →
  aggregate_journals db' = manifests_after p (aggregate_journals db) →
  journal_records db' = journal_records db ++ [record_row (publication_key p) (publication_record p)] →
  journals_wf db'.
Proof.
  intros Hwf Hv Hf Ej Er key. pose proof (publication_follows _ _ Hwf Hv Hf) as Hs.
  rewrite (records_snoc _ _ key _ _ Er), Ej. destruct (Hwf key) as [Hn Hm]. destruct (decide _) as [->|Hne].
  - rewrite fmap_app, length_app, Nat2Z.inj_add, Hn. change (Z.of_nat (length [_])) with 1.
    rewrite <-seqZ_snoc by lia. split; [cbn; do 2 f_equal; rewrite Hs; lia|].
    split; [by intros []%app_eq_nil|]. intros Habs. exfalso. destruct p as [? ? ?|? ? ? ?]; simpl in *.
    + by rewrite lookup_insert_eq in Habs.
    + by destruct Hf as [[? ?] _]; simplify_eq.
  - rewrite app_nil_r. split; [done|]. rewrite Hm. destruct p; simpl in *; [|done].
    by rewrite lookup_insert_ne by congruence.
Qed.

Lemma fresh_commit_wf c db db' r :
  store_wf db → commit_valid c → fresh_commit codec c db db' r → store_wf db'.
Proof.
  intros Hwf Hv Hf. pose proof (writes_current _ _ _ _ Hwf Hv Hf) as Hw.
  destruct (fc_expected _ _ _ _ _ Hf) as [_ Hb].
  destruct (fc_outbox _ _ _ _ _ Hf) as (db0 & rs & E1 & E2 & E3 & Hev).
  destruct (events_appended_frame _ _ _ _ _ _ Hev) as (Hframe & Hrs & _).
  assert (Eout : outbox db' = outbox db ++ rs) by (rewrite Hframe; simpl; by rewrite E1).
  assert (Hmono : ∀ i, is_Some (command_receipts db !! i) → is_Some (command_receipts db' !! i)).
  { intros i Hi. rewrite (fc_receipts _ _ _ _ _ Hf). by apply lookup_insert_is_Some'; right. }
  assert (Hown : is_Some (command_receipts db' !! commit_identity c)).
  { rewrite (fc_receipts _ _ _ _ _ Hf), lookup_insert_eq. by eexists. }
  split.
  - rewrite (fc_states _ _ _ _ _ Hf). apply write_states_bound; [exact (sw_states _ Hwf)|].
    eapply Forall_impl; [exact Hw|]. by intros w [].
  - rewrite (fc_receipts _ _ _ _ _ Hf). apply map_Forall_insert_2; [simpl; lia|exact (sw_receipts _ Hwf)].
  - eapply events_appended_wf; [|exact (cv_events _ Hv)|exact Hev].
    by eapply outbox_wf_ext, (sw_outbox _ Hwf).
  - rewrite Eout, Forall_app. split.
    + eapply Forall_impl; [exact (sw_owned _ Hwf)|]. intros x. apply Hmono.
    + eapply Forall_impl; [exact Hrs|]. by intros x [-> _].
  - rewrite (proj1 (fc_audit _ _ _ _ _ Hf)). unfold audit_after.
    assert (map_Forall (λ i r, is_Some (command_receipts db' !! i) ∧
      audit_event_new (row_audit_event_id r) (row_audit_payload r) =
        Ok {| audit_event_id := row_audit_event_id r; audit_payload := row_audit_payload r |}) (audit_outbox db)).
    { intros i x Hx. apply (sw_audit _ Hwf) in Hx as [? ?]. auto. }
    destruct (pending_audit_event c) as [e|] eqn:Ee; [|done]. apply map_Forall_insert_2; [|done].
    split; [done|]. apply (cv_audit _ Hv) in Ee. unfold audit_event_new. destruct e; simpl in *. by rewrite Ee.
  - pose proof (fc_journals _ _ _ _ _ Hf) as Hj. destruct (journal_publication c) as [p|] eqn:Ep.
    + destruct Hj as (Hfit & Ej & Er). eapply publication_wf; [exact (sw_journals _ Hwf)| |done..].
      by apply (cv_journal _ Hv).
    + destruct Hj as [Ej Er]. intros key. unfold records_of. rewrite Ej, Er. apply (sw_journals _ Hwf).
Qed.
End invariant.
