(* ===== verification/StateRuns.v ===== *)
(** * The state store: runs of operations

    Runs of commits and acknowledgements over the storage of [StateStore], interleaved with
    writes of other modules to the control plane's tables.  The file shows what holds of every
    run: the states are the last versions of a serial history of commits, a receipt is
    answered again unchanged, cursors and journals only grow, and an event stays pending
    until it is marked published. *)

From Stdlib Require Import Ascii String Sorted.
From stdpp Require Import sorting.
From S2P Require Import Prelude Text Numerals Ordered Transaction StateKeys StateStore StateFacts StateInvariant.
From S2P Require Frame.
Local Open Scope Z_scope.

(** ** Runs *)

Inductive store_op : Type :=
| Commit (c : StateCommit)
| Publish (event : string)
| Persist (event : string)
| Claims (claims : option ControlPlaneTables).

(** ** The abstract store *)

(** The specification of the states: every stream has the list of its versions, and a commit
    appends one version to each stream it writes. *)
Abbreviation versions := (gmap string (list payload_bytes)).

Definition versions_of (v : versions) (i : string) : list payload_bytes := default [] (v !! i).

Definition append_version (v : versions) (w : string * Z * payload_bytes) : versions :=
  <[w.1.1 := versions_of v w.1.1 ++ [w.2]]> v.

Definition spec_commit (v : versions) (c : StateCommit) : versions := foldl append_version v (writes c).

Definition spec_history (log : list StateCommit) : versions := foldl spec_commit ∅ log.

(** When the specification accepts a commit: every stream it writes or guards has as many
    versions as the commit expects. *)
Definition spec_accepts (v : versions) (c : StateCommit) : Prop :=
  Forall (λ w, Z.of_nat (length (versions_of v w.1.1)) = w.1.2) (writes c) ∧
  Forall (λ g, Z.of_nat (length (versions_of v (guard_stream_id g))) = guard_expected_revision g) (state_guards c).

Definition current (v : versions) (i : string) : option StateRow :=
  (λ p, {| state_revision := Z.of_nat (length (versions_of v i)); state_payload := p |}) <$> last (versions_of v i).

(** The history is serial: every commit was accepted where it stands. *)
Definition serial (log : list StateCommit) : Prop :=
  ∀ k c, log !! k = Some c → spec_accepts (spec_history (take k log)) c.

Definition represents (v : versions) (t : gmap string StateRow) : Prop := ∀ i, t !! i = current v i.

Lemma represents_revision v db i :
  represents v (product_state db) → revision_of db i = Z.of_nat (length (versions_of v i)).
Proof.
  intros Hv. unfold revision_of. rewrite Hv. unfold current.
  destruct (versions_of v i) as [|p l] using rev_ind; [done|]. by rewrite last_snoc.
Qed.

Lemma versions_of_append v w i :
  versions_of (append_version v w) i = if decide (i = w.1.1) then versions_of v i ++ [w.2] else versions_of v i.
Proof.
  unfold append_version. destruct (decide _) as [->|]; unfold versions_of at 1;
    [by rewrite lookup_insert_eq|by rewrite lookup_insert_ne].
Qed.

Lemma write_represents v t ws :
  represents v t → NoDup ws.*1.*1 → Forall (λ w, Z.of_nat (length (versions_of v w.1.1)) = w.1.2) ws →
  represents (foldl append_version v ws) (foldl write_state t ws).
Proof.
  revert v t. induction ws as [|w ws IH]; intros v t Hv Hn Hw; simpl; [done|].
  apply NoDup_cons in Hn as [Hnot Hn]. apply Forall_cons in Hw as [Hw Hws]. apply IH; [|done|].
  - intros i. unfold write_state, current. rewrite versions_of_append. destruct (decide (i = w.1.1)) as [->|].
    + rewrite lookup_insert_eq, last_snoc, length_app. simpl. do 2 f_equal. lia.
    + rewrite lookup_insert_ne by done. apply Hv.
  - apply Forall_forall. intros w' Hw'. rewrite versions_of_append, decide_False.
    + by apply (proj1 (Forall_forall _ _) Hws).
    + intros Heq. apply Hnot. rewrite <-Heq. by apply list_elem_of_fmap_2, list_elem_of_fmap_2.
Qed.

Lemma spec_history_snoc log c : spec_history (log ++ [c]) = spec_commit (spec_history log) c.
Proof. unfold spec_history. by rewrite foldl_app. Qed.

Lemma serial_snoc log c : serial log → spec_accepts (spec_history log) c → serial (log ++ [c]).
Proof.
  intros Hl Hc k c' Hk. apply lookup_app_Some in Hk as [Hk|[Hge Hk]].
  - rewrite take_app_le by (apply lookup_lt_Some in Hk; lia). by apply Hl.
  - apply list_lookup_singleton_Some in Hk as [Hk <-]. replace k with (length log) by lia. by rewrite take_app_length.
Qed.

Section runs.
Context (codec : EventCodec).

Definition store_step (s : SqliteStorage) (op : store_op) : SqliteStorage :=
  match op with
  | Commit c => (sqlite_commit codec s c).1
  | Publish event => (mark_published s event).1
  | Persist event => (mark_audit_event_persisted s event).1
  | Claims claims => set_database s (set_control_plane (database s) claims)
  end.

Definition store_run (s : SqliteStorage) (ops : list store_op) : SqliteStorage := foldl store_step s ops.

(** The commit that a step performed, if it performed one: an answered request that was not
    a repetition. *)
Definition performed (s : SqliteStorage) (op : store_op) : list StateCommit :=
  match op with
  | Commit c =>
      match (sqlite_commit codec s c).2 with
      | Ok r => if idempotent_replay r then [] else [c]
      | Err _ => []
      end
  | _ => []
  end.

Fixpoint history (s : SqliteStorage) (ops : list store_op) : list StateCommit :=
  match ops with
  | [] => []
  | op :: ops => performed s op ++ history (store_step s op) ops
  end.

(** *** Steps *)

Lemma transact_Ok {A} s (m : transaction A) s' a :
  transact s m = (s', Ok a) →
  read_only s = false ∧ m (database s) = Ok (a, database s') ∧ s' = set_database s (database s').
Proof.
  unfold transact, connection_mut. destruct (read_only s) eqn:E; simpl; [by intros [= <- ?]|].
  destruct (commit (database s) m) as [db r] eqn:Ec. intros [= <- ->]. simpl.
  apply commit_Ok in Ec. done.
Qed.

Lemma transact_Err {A} s (m : transaction A) s' e : transact s m = (s', Err e) → s' = s.
Proof.
  unfold transact, connection_mut. destruct (read_only s) eqn:E; simpl; [by intros [= <- ?]|].
  destruct (commit (database s) m) as [db r] eqn:Ec. intros [= <- ->].
  apply commit_Err in Ec as [_ ->]. by destruct s.
Qed.

(** A commit that is answered repeats an earlier one or happens in full; one that fails
    changes nothing. *)
Lemma sqlite_commit_Ok s c s' r :
  sqlite_commit codec s c = (s', Ok r) →
  commit_valid c ∧ read_only s = false ∧
  ((∃ prior, prior_receipt (database s) (commit_identity c) = Some prior ∧
      replay_receipt codec (database s) c prior = Ok r ∧ s' = s) ∨
   fresh_commit codec c (database s) (database s') r ∧ s' = set_database s (database s')).
Proof.
  unfold sqlite_commit. destruct (validate_commit c) as [u|] eqn:Ev; [|done].
  intros (Hro & Hm & Hs)%transact_Ok. split_and!; [by eapply validate_commit_Ok|done|].
  apply commit_in_transaction_Ok in Hm as [(prior & Hp & Hr & Hdb)|Hf]; [left|right; done].
  exists prior. split_and!; [done..|]. rewrite Hs, Hdb. by destruct s.
Qed.

Lemma sqlite_commit_Err s c s' e : sqlite_commit codec s c = (s', Err e) → s' = s.
Proof.
  unfold sqlite_commit. destruct (validate_commit c); [apply transact_Err|by intros [= <- ?]].
Qed.

(** The ways a step can change the database. *)
Inductive step_effect (db : Database) : Database → list StateCommit → Prop :=
| effect_none : step_effect db db []
| effect_commit c db' r : commit_valid c → fresh_commit codec c db db' r → step_effect db db' [c]
| effect_publish event :
    step_effect db (set_outbox db (publish_row event <$> outbox db) (outbox_autoincrement db)) []
| effect_persist event : step_effect db (set_audit_outbox db (persist_row event <$> audit_outbox db)) []
| effect_claims claims : step_effect db (set_control_plane db claims) [].

Lemma store_step_effect s op :
  step_effect (database s) (database (store_step s op)) (performed s op) ∧
  read_only (store_step s op) = read_only s.
Proof.
  destruct op as [c|event|event|claims]; simpl.
  - destruct (sqlite_commit codec s c) as [s' [r|e]] eqn:E; simpl.
    + apply sqlite_commit_Ok in E as (Hv & _ & [(prior & _ & Hr & ->)|[Hf ->]]).
      * apply replay_receipt_Ok in Hr as [-> _]. split; [constructor|done].
      * destruct (fc_receipt _ _ _ _ _ Hf) as (evs & _ & ->). simpl. split; [by econstructor|done].
    + apply sqlite_commit_Err in E as ->. split; [constructor|done].
  - unfold mark_published. destruct (transact s _) as [s' [n|e]] eqn:E; simpl.
    + apply transact_Ok in E as (_ & [= _ E] & ->). rewrite <-E. split; [constructor|done].
    + apply transact_Err in E as ->. split; [constructor|done].
  - unfold mark_audit_event_persisted. case_bool_decide; [split; [constructor|done]|].
    destruct (transact s _) as [s' [n|e]] eqn:E; simpl.
    + apply transact_Ok in E as (_ & [= _ E] & ->). rewrite <-E. split; [constructor|done].
    + apply transact_Err in E as ->. split; [constructor|done].
  - split; [constructor|done].
Qed.

(** Induction over a run. *)
Lemma store_run_ind (P : Database → list StateCommit → Prop) s ops log :
  P (database s) log →
  (∀ db db' log new, P db log → step_effect db db' new → P db' (log ++ new)) →
  P (database (store_run s ops)) (log ++ history s ops).
Proof.
  intros Hs Hstep. revert s log Hs. induction ops as [|op ops IH]; intros s log Hs; simpl.
  { by rewrite app_nil_r. }
  rewrite app_assoc. apply IH. eapply Hstep; [exact Hs|apply store_step_effect].
Qed.

(** *** The invariant *)

Lemma publish_row_same event r :
  row_sequence (publish_row event r) = row_sequence r ∧ row_event_id (publish_row event r) = row_event_id r ∧
  row_identity (publish_row event r) = row_identity r ∧
  row_stream_sequence (publish_row event r) = row_stream_sequence r ∧
  read_event codec (publish_row event r) = read_event codec r.
Proof. unfold publish_row. by case_bool_decide. Qed.

Lemma publish_on_stream event key r : on_stream key (publish_row event r) ↔ on_stream key r.
Proof. unfold publish_row. by case_bool_decide. Qed.

Lemma publish_stream_rows event key l :
  stream_rows key (publish_row event <$> l) = publish_row event <$> stream_rows key l.
Proof.
  unfold stream_rows. rewrite filter_fmap. f_equal. apply list_filter_iff. intros r. apply publish_on_stream.
Qed.

Lemma publish_fmap {B} (f : OutboxRow → B) event (l : list OutboxRow) :
  (∀ r, f (publish_row event r) = f r) → f <$> (publish_row event <$> l) = f <$> l.
Proof. intros Hf. rewrite <-list_fmap_compose. apply list_fmap_ext. intros i r _. apply Hf. Qed.

Lemma publish_wf db event :
  outbox_wf codec db → outbox_wf codec (set_outbox db (publish_row event <$> outbox db) (outbox_autoincrement db)).
Proof.
  intros [Hs Hb Ho Hi Hr Hst]. split; simpl.
  - done.
  - apply Forall_fmap. eapply Forall_impl; [exact Hb|]. intros r. simpl. by rewrite (proj1 (publish_row_same event r)).
  - rewrite publish_fmap; [done|]. intros r. apply publish_row_same.
  - rewrite publish_fmap; [done|]. intros r. apply publish_row_same.
  - apply Forall_fmap. eapply Forall_impl; [exact Hr|]. intros r. simpl.
    by destruct (publish_row_same event r) as (_ & _ & _ & _ & ->).
  - intros key. destruct (Hst key) as [Hn Hh]. rewrite publish_stream_rows, length_fmap.
    split; [rewrite publish_fmap; [done|intros r; apply publish_row_same]|].
    rewrite Hh, fmap_last. destruct (last _) as [r|]; simpl; [|done].
    by rewrite (proj1 (proj2 (publish_row_same event r))).
Qed.

Lemma persist_row_same event r :
  row_audit_event_id (persist_row event r) = row_audit_event_id r ∧
  row_audit_payload (persist_row event r) = row_audit_payload r.
Proof. unfold persist_row. by case_bool_decide. Qed.

Context (codec_ok : event_codec_ok codec).

Lemma step_wf db db' new : store_wf codec db → step_effect db db' new → store_wf codec db'.
Proof.
  intros Hwf [|c db1 r Hv Hf|event|event|claims].
  - done.
  - by eapply fresh_commit_wf.
  - destruct Hwf as [Hst Hre Hou How Hau Hjo]. split; try done; [by apply publish_wf|]. simpl.
    apply Forall_fmap. eapply Forall_impl; [exact How|]. intros r. simpl.
    by destruct (publish_row_same event r) as (_ & _ & -> & _).
  - destruct Hwf as [Hst Hre Hou How Hau Hjo]. split; try done; [by apply (outbox_wf_ext codec db)|]. simpl.
    intros i r Hr. apply lookup_fmap_Some in Hr as (r0 & <- & Hr). apply Hau in Hr.
    by destruct (persist_row_same event r0) as [-> ->].
  - destruct Hwf as [Hst Hre Hou How Hau Hjo]. split; try done. by apply (outbox_wf_ext codec db).
Qed.

Lemma run_wf s ops : store_wf codec (database s) → store_wf codec (database (store_run s ops)).
Proof.
  intros Hwf. apply (store_run_ind (λ db _, store_wf codec db) s ops []); [done|].
  intros db db' _ new. apply step_wf.
Qed.

(** *** Receipts stay *)

Lemma mapM_fmap_ext {E A B C} (f : B → result E C) (g : A → B) (h : A → result E C) (l : list A) :
  (∀ x, f (g x) = h x) → mapM f (g <$> l) = mapM h l.
Proof. intros H. induction l as [|x l IH]; [done|]. rewrite fmap_cons. cbn [mapM]. by rewrite H, IH. Qed.

Lemma fresh_outbox c db db' r :
  fresh_commit codec c db db' r →
  ∃ rs, outbox db' = outbox db ++ rs ∧
    Forall (λ x, row_identity x = commit_identity c ∧ row_published x = false) rs.
Proof.
  intros Hf. destruct (fc_outbox _ _ _ _ _ Hf) as (db0 & rs & E1 & _ & _ & Hev).
  destruct (events_appended_frame _ _ _ _ _ _ Hev) as (-> & Hrs & _). exists rs. simpl. by rewrite E1.
Qed.

Lemma step_receipt db db' new i prior :
  prior_receipt db i = Some prior → step_effect db db' new →
  prior_receipt db' i = Some prior ∧ receipt_events codec db' i = receipt_events codec db i ∧
  load_pending_audit_event db' i = load_pending_audit_event db i.
Proof.
  unfold prior_receipt, receipt_events, receipt_rows, load_pending_audit_event.
  intros Hp [|c db1 r Hv Hf|event|event|claims]; try done; simpl.
  - assert (commit_identity c ≠ i) as Hne by (intros <-; by rewrite (fc_prior _ _ _ _ _ Hf) in Hp).
    destruct (fresh_outbox _ _ _ _ Hf) as (rs & -> & Hrs).
    rewrite (fc_receipts _ _ _ _ _ Hf), (proj1 (fc_audit _ _ _ _ _ Hf)). unfold audit_after.
    rewrite lookup_insert_ne, filter_app, (filter_none _ rs), app_nil_r by
      (done || (eapply Forall_impl; [exact Hrs|]; by intros x [-> _])).
    split_and!; [done..|]. destruct (pending_audit_event c); [by rewrite lookup_insert_ne|done].
  - split_and!; [done| |done]. rewrite filter_fmap.
    rewrite (list_filter_iff _ (λ x, row_identity x = i)) by (intros x; by destruct (publish_row_same event x) as (_ & _ & -> & _)).
    apply mapM_fmap_ext. intros x. apply publish_row_same.
  - split_and!; [done..|]. rewrite lookup_fmap. destruct (audit_outbox db !! i) as [x|]; simpl; [|done].
    by destruct (persist_row_same event x) as [-> ->].
Qed.

(** What a repetition of a commit is answered. *)
Definition replays (db : Database) (c : StateCommit) (r : CommitReceipt) : Prop :=
  ∃ prior, prior_receipt db (commit_identity c) = Some prior ∧ replay_receipt codec db c prior = Ok r.

Definition as_replay (r : CommitReceipt) : CommitReceipt :=
  {| committed_identity := committed_identity r; committed_digest := committed_digest r;
     committed_stream_id := committed_stream_id r; committed_revision := committed_revision r;
     committed_events := committed_events r; idempotent_replay := true |}.

Lemma step_replays db db' new c r : replays db c r → step_effect db db' new → replays db' c r.
Proof.
  intros (prior & Hp & Hr) Hs. destruct (step_receipt _ _ _ _ _ Hp Hs) as (Hp' & He & Ha).
  exists prior. split; [done|]. rewrite <-Hr. unfold replay_receipt, replay_stored_receipt. by rewrite Ha, He.
Qed.

Lemma fresh_replays c db db' r :
  store_wf codec db → commit_valid c → fresh_commit codec c db db' r → replays db' c (as_replay r).
Proof.
  intros Hwf Hv Hf. unfold replays, prior_receipt, replay_receipt, load_pending_audit_event.
  rewrite (fc_receipts _ _ _ _ _ Hf), lookup_insert_eq, (proj1 (fc_audit _ _ _ _ _ Hf)). eexists. split; [done|].
  assert (match audit_after c (audit_outbox db) !! commit_identity c with
    | Some r => e ← audit_event_new (row_audit_event_id r) (row_audit_payload r); Ok (Some e)
    | None => Ok None
    end = Ok (pending_audit_event c)) as ->.
  { unfold audit_after. destruct (pending_audit_event c) as [e|] eqn:Ee.
    - rewrite lookup_insert_eq. apply (cv_audit _ Hv) in Ee. destruct e. simpl in *. unfold audit_event_new. by rewrite Ee.
    - destruct (audit_outbox db !! commit_identity c) as [x|] eqn:Ex; [|done].
      apply (sw_audit _ _ Hwf) in Ex as [[? Hx] _]. by rewrite (fc_prior _ _ _ _ _ Hf) in Hx. }
  destruct (fc_expected _ _ _ _ _ Hf) as [_ Hb]. destruct (fc_receipt _ _ _ _ _ Hf) as (evs & He & ->).
  cbn [mbind result_bind]. rewrite differs_refl. cbn [refuse mbind result_bind].
  unfold replay_stored_receipt. simpl. rewrite differs_refl. cbn [refuse mbind result_bind].
  rewrite (proj2 (to_u64_Ok _ (expected_revision c + 1))) by lia. cbn [mbind result_bind]. by rewrite He.
Qed.

Lemma run_read_only s ops : read_only (store_run s ops) = read_only s.
Proof.
  revert s. induction ops as [|op ops IH]; intros s; simpl; [done|]. rewrite IH. apply store_step_effect.
Qed.

Lemma sqlite_commit_replays s c u r :
  validate_commit c = Ok u → read_only s = false → replays (database s) c r → sqlite_commit codec s c = (s, Ok r).
Proof.
  intros Hv Hro (prior & Hp & Hr). unfold sqlite_commit. rewrite Hv. unfold transact, connection_mut. rewrite Hro.
  cbn [refuse mbind result_bind].
  unfold commit, commit_in_transaction, commit_in_transaction_with_claim_authority. rewrite Hp.
  unfold query. rewrite Hr. by destruct s; simpl in *; rewrite Hro.
Qed.

(** A request is answered once and for all. *)
Lemma answered_stays s c s1 r ops :
  store_wf codec (database s) → sqlite_commit codec s c = (s1, Ok r) →
  sqlite_commit codec (store_run s1 ops) c = (store_run s1 ops, Ok (as_replay r)).
Proof.
  intros Hwf H. destruct (validate_commit c) as [u|] eqn:Ev; [|unfold sqlite_commit in H; by rewrite Ev in H].
  apply sqlite_commit_Ok in H as (Hv & Hro & Hcase).
  assert (replays (database s1) c (as_replay r) ∧ read_only s1 = false) as [Hr Hro1].
  { destruct Hcase as [(prior & Hp & Hr & ->)|[Hf ->]].
    - split; [|done]. exists prior. split; [done|]. destruct (replay_receipt_Ok _ _ _ _ _ Hr) as [Hi _].
      rewrite Hr. destruct r; simpl in *. by subst.
    - split; [by eapply fresh_replays|done]. }
  eapply sqlite_commit_replays; [exact Ev|by rewrite run_read_only|].
  apply (store_run_ind (λ db _, replays db c (as_replay r)) s1 ops []); [done|].
  intros db db' _ new. apply step_replays.
Qed.

(** *** The states of a run *)

Record refines (db : Database) (log : list StateCommit) : Prop := {
  rf_wf : store_wf codec db;
  rf_states : represents (spec_history log) (product_state db);
  rf_serial : serial log;
  rf_identities : NoDup (commit_identity <$> log);
  rf_receipts : ∀ i, is_Some (command_receipts db !! i) ↔ i ∈ commit_identity <$> log
}.

Lemma step_refines db db' log new : refines db log → step_effect db db' new → refines db' (log ++ new).
Proof.
  intros [Hwf Hst Hse Hid Hre] Hs. pose proof (step_wf _ _ _ Hwf Hs) as Hwf'.
  destruct Hs as [|c db' r Hv Hf|event|event|claims]; rewrite ?app_nil_r; try by split.
  assert (spec_accepts (spec_history log) c) as Hacc.
  { split.
    - eapply Forall_impl; [exact (writes_current _ _ _ _ _ Hwf Hv Hf)|]. intros w [Hw _].
      by rewrite <-(represents_revision _ db).
    - eapply Forall_impl; [exact (fc_guards _ _ _ _ _ Hf)|]. intros g Hg. simpl. by rewrite <-(represents_revision _ db). }
  split; [done| | | |].
  - rewrite spec_history_snoc, (fc_states _ _ _ _ _ Hf). apply write_represents; [done|exact (cv_streams _ Hv)|apply Hacc].
  - by apply serial_snoc.
  - rewrite fmap_app. apply NoDup_app. split_and!; [done| |apply NoDup_singleton].
    intros i Hi ->%list_elem_of_singleton. apply Hre in Hi as [? Hi]. by rewrite (fc_prior _ _ _ _ _ Hf) in Hi.
  - intros i. rewrite (fc_receipts _ _ _ _ _ Hf), lookup_insert_is_Some', Hre, fmap_app, elem_of_app. simpl.
    rewrite list_elem_of_singleton. naive_solver.
Qed.

Lemma run_refines s ops :
  database s = empty_database → refines (database (store_run s ops)) (history s ops).
Proof.
  intros Hs. apply (store_run_ind refines s ops []); [|intros db db' log new; apply step_refines].
  rewrite Hs. split; [apply empty_wf|done|done|constructor|]. intros i. cbn [empty_database command_receipts]. rewrite lookup_empty. split; [by intros []|set_solver].
Qed.

(** *** Projection streams only grow *)

(** The events of a stream, in order. *)
Definition stream_events (db : Database) (key : head_key) : list string :=
  row_event_id <$> stream_rows key (outbox db).

Lemma step_stream db db' new key :
  step_effect db db' new → stream_events db key `prefix_of` stream_events db' key.
Proof.
  unfold stream_events. intros [|c db1 r Hv Hf|event|event|claims]; try done; simpl.
  - destruct (fresh_outbox _ _ _ _ Hf) as (rs & -> & _). unfold stream_rows. rewrite filter_app, fmap_app. by apply prefix_app_r.
  - rewrite publish_stream_rows, publish_fmap; [done|]. intros r. apply publish_row_same.
Qed.

Lemma run_stream s ops key :
  stream_events (database s) key `prefix_of` stream_events (database (store_run s ops)) key.
Proof.
  apply (store_run_ind (λ db _, stream_events (database s) key `prefix_of` stream_events db key) s ops []); [done|].
  intros db db' _ new IH Hs. etrans; [exact IH|]. by eapply step_stream.
Qed.

Lemma numbered_head {A} (f : A → option Z) (l : list A) a k :
  f <$> l = Some <$> seqZ a (Z.of_nat (length l)) → a ≤ k →
  head (filter (λ x, f x = Some k) l) = l !! Z.to_nat (k - a).
Proof.
  revert a. induction l as [|x l IH]; intros a Hl Hk; [done|]. cbn [length] in Hl.
  rewrite seqZ_cons in Hl by lia. cbn [fmap list_fmap] in Hl. injection Hl as Hx Hl.
  rewrite filter_cons, Hx. destruct (decide _) as [[= ->]|Hne].
  - replace (Z.to_nat (k - k)) with O by lia. done.
  - rewrite (IH (Z.succ a)).
    + replace (Z.to_nat (k - a)) with (S (Z.to_nat (k - Z.succ a))); [done|].
      assert (a ≠ k) by congruence. lia.
    + rewrite Hl. do 2 f_equal. lia.
    + assert (a ≠ k) by congruence. lia.
Qed.

Lemma event_at_stream db key k :
  outbox_wf codec db → 0 < k → event_at db key k = stream_events db key !! Z.to_nat (k - 1).
Proof.
  intros Hwf Hk. destruct key as [[scope kd] i]. unfold event_at, stream_events, stream_rows. rewrite list_lookup_fmap. f_equal.
  rewrite <-(numbered_head row_stream_sequence _ 1 k); [|apply (proj1 (ow_streams _ _ Hwf (scope, kd, i)))|lia].
  rewrite list_filter_filter. f_equal. apply list_filter_iff. intros x. unfold on_stream. simpl. tauto.
Qed.

(** The end of a stream. *)
Definition stream_end (db : Database) (key : head_key) : Z := Z.of_nat (length (stream_events db key)).

Lemma load_head db key :
  outbox_wf codec db →
  load_projection_stream_head db key =
  Ok ((λ e, (stream_end db (head_of (stream_scope_key key) (key_stream key)), e)) <$>
      last (stream_events db (head_of (stream_scope_key key) (key_stream key)))).
Proof.
  intros Hwf. unfold load_projection_stream_head, stream_end, stream_events.
  rewrite (proj2 (ow_streams _ _ Hwf _)), fmap_last, length_fmap.
  destruct (last _) as [r|]; simpl; [|done]. by rewrite (proj2 (to_u64_Ok _ _)) by (split; [lia|done]).
Qed.

Lemma cursor_try_new_Ok key n e cur :
  cursor_try_new key n e = Ok cur → cur = {| cursor_key := key; cursor_sequence := n; cursor_event_id := e |} ∧
  n ≤ max_safe_integer ∧ (n = 0 ↔ e = None).
Proof.
  unfold cursor_try_new. intros H. inv_result. split_bools. split_and!; [done|lia|].
  match goal with H : Bool.eqb _ _ = true |- _ => apply eqb_prop in H as Heq end.
  destruct (Z.eqb_spec n 0), e; simpl in *; try done.
Qed.

(** A cursor issued at the head of a stream is the stream's last event, and it is accepted as
    long as the stream grows. *)
Lemma issued_cursor db db' key cur :
  outbox_wf codec db → outbox_wf codec db' →
  (let k := head_of (stream_scope_key key) (key_stream key) in stream_events db k `prefix_of` stream_events db' k) →
  load_projection_event_cursor_from_connection db key None = Ok cur →
  cursor_sequence cur = stream_end db (head_of (stream_scope_key key) (key_stream key)) ∧
  load_projection_event_cursor_from_connection db' key (Some cur) = Ok cur.
Proof.
  set (k := head_of (stream_scope_key key) (key_stream key)). intros Hwf Hwf' Hpre H.
  unfold load_projection_event_cursor_from_connection in *. apply bind_Ok in H as (u & Hv & H).
  rewrite load_head in H by done. fold k in H. cbn [mbind result_bind] in H. rewrite Hv. cbn [mbind result_bind].
  destruct (last (stream_events db k)) as [e|] eqn:El; simpl in H;
    destruct (cursor_try_new_Ok _ _ _ _ H) as (-> & Hmax & Hz); cbn [cursor_sequence cursor_key cursor_event_id];
    rewrite differs_refl; cbn [refuse mbind result_bind].
  - split; [done|]. rewrite (proj2 (Z.eqb_neq _ _)) by (by rewrite Hz).
    rewrite (proj2 (to_i64_Ok _ _)) by (split; [|reflexivity]; etrans; [exact Hmax|done]). cbn [mbind result_bind].
    assert (stream_end db k ≠ 0) as Hne by (by rewrite Hz).
    assert (0 < stream_end db k) by (unfold stream_end in *; lia).
    rewrite event_at_stream by done. fold k.
    assert (stream_events db k !! Z.to_nat (stream_end db k - 1) = Some e) as Hat.
    { rewrite <-El, last_lookup. f_equal. unfold stream_end. lia. }
    rewrite (prefix_lookup_Some _ _ _ _ Hat Hpre). by rewrite differs_refl.
  - split; [|done]. apply last_None in El. unfold stream_end. by rewrite El.
Qed.

(** *** Journals only grow *)

Definition journal_record (r : JournalRow) : AggregateJournalRecord :=
  {| record_sequence := row_journal_sequence r; record_digest := row_journal_digest r;
     record_payload := row_journal_payload r |}.

Lemma mapM_all {E A B} (f : A → result E B) (g : A → B) (l : list A) :
  Forall (λ x, f x = Ok (g x)) l → mapM f l = Ok (g <$> l).
Proof. induction 1 as [|x l Hx _ IH]; [done|]. cbn [mapM]. rewrite Hx, IH. done. Qed.

Lemma load_journal_records db key :
  store_wf codec db →
  load_aggregate_journal db key =
  Ok ((λ m, {| manifest := m; records := journal_record <$> records_of db key |}) <$> aggregate_journals db !! key).
Proof.
  intros Hwf. unfold load_aggregate_journal. destruct (aggregate_journals db !! key) as [m|]; [|done].
  rewrite journal_rows_records by exact (sw_journals _ _ Hwf). rewrite (mapM_all _ journal_record); [done|].
  apply Forall_forall. intros r Hr. rewrite (proj2 (to_u64_Ok _ (row_journal_sequence r))); [done|]. split; [|done].
  apply (list_elem_of_fmap_2 row_journal_sequence) in Hr.
  rewrite (proj1 (sw_journals _ _ Hwf key)), elem_of_seqZ in Hr. lia.
Qed.

Lemma step_journal db db' new key m :
  aggregate_journals db !! key = Some m → step_effect db db' new →
  aggregate_journals db' !! key = Some m ∧ records_of db key `prefix_of` records_of db' key.
Proof.
  intros Hm [|c db1 r Hv Hf|event|event|claims]; try done.
  pose proof (fc_journals _ _ _ _ _ Hf) as Hj. destruct (journal_publication c) as [p|].
  - destruct Hj as (Hfit & Ej & Er). rewrite Ej, (records_snoc _ _ _ _ _ Er). split; [|by apply prefix_app_r].
    destruct p; simpl in *; [|done]. rewrite lookup_insert_ne; [done|]. intros ->. congruence.
  - destruct Hj as [Ej Er]. unfold records_of. by rewrite Ej, Er.
Qed.

Lemma run_journal s ops key m :
  aggregate_journals (database s) !! key = Some m →
  aggregate_journals (database (store_run s ops)) !! key = Some m ∧
  records_of (database s) key `prefix_of` records_of (database (store_run s ops)) key.
Proof.
  intros Hm. apply (store_run_ind (λ db _, aggregate_journals db !! key = Some m ∧
    records_of (database s) key `prefix_of` records_of db key) s ops []); [done|].
  intros db db' _ new [IH1 IH2] Hs. destruct (step_journal _ _ _ _ _ IH1 Hs). split; [done|by etrans].
Qed.

(** *** Pending events *)

(** The identities that [ReceiptIdentity::new] can build, from keys that are not empty. *)
Definition identity_ok (i : ReceiptIdentity) : Prop :=
  actor_key i ≠ ""%string ∧ scope_key i ≠ ""%string ∧ request_id i ≠ ""%string.

Definition op_ok (op : store_op) : Prop :=
  match op with Commit c => identity_ok (commit_identity c) | _ => True end.

Lemma history_ok s ops :
  Forall op_ok ops → Forall (λ c, identity_ok (commit_identity c)) (history s ops).
Proof.
  intros H. revert s. induction H as [|op ops Hop _ IH]; intros s; simpl; [constructor|].
  apply Forall_app. split; [|apply IH]. destruct op as [c| | |]; simpl; try constructor.
  destruct (sqlite_commit codec s c).2 as [r|]; [|constructor]. destruct (idempotent_replay r); [constructor|by apply Forall_singleton].
Qed.

Lemma run_keys s ops :
  Forall (λ r, identity_ok (row_identity r)) (outbox (database s)) → Forall op_ok ops →
  Forall (λ r, identity_ok (row_identity r)) (outbox (database (store_run s ops))).
Proof.
  intros Hs Hops. apply (history_ok s) in Hops. revert Hops.
  apply (store_run_ind (λ db log, Forall (λ c, identity_ok (commit_identity c)) log →
    Forall (λ r, identity_ok (row_identity r)) (outbox db)) s ops []); [done|].
  intros db db' log new IH Hst [Hlog Hnew]%Forall_app. specialize (IH Hlog).
  destruct Hst as [|c db' r Hv Hf|event|event|claims]; try done; simpl.
  - destruct (fresh_outbox _ _ _ _ Hf) as (rs & -> & Hrs). apply Forall_app. split; [done|].
    apply Forall_cons in Hnew as [Hnew _]. eapply Forall_impl; [exact Hrs|]. intros x [Hx _]. simpl. by rewrite Hx.
  - apply Forall_fmap. eapply Forall_impl; [exact IH|]. intros r. simpl.
    by destruct (publish_row_same event r) as (_ & _ & -> & _).
Qed.

(** An event that waits to be published. *)
Definition waits (db : Database) (e : OutboxEvent) : Prop :=
  ∃ r, r ∈ outbox db ∧ row_published r = false ∧ read_event codec r = Ok e.

Lemma read_event_id r e : read_event codec r = Ok e → row_event_id r = event_id e.
Proof. unfold read_event. intros H. by inv_result. Qed.

Lemma step_waits s op e : waits (database s) e → op ≠ Publish (event_id e) → waits (database (store_step s op)) e.
Proof.
  intros (r & Hin & Hp & Hr) Hop. destruct op as [c|event|event|claims]; simpl.
  - destruct (sqlite_commit codec s c) as [s' [rc|err]] eqn:E; simpl.
    + apply sqlite_commit_Ok in E as (_ & _ & [(? & _ & _ & ->)|[Hf _]]); [by exists r|].
      destruct (fresh_outbox _ _ _ _ Hf) as (rs & E & _). exists r. rewrite E. set_solver.
    + apply sqlite_commit_Err in E as ->. by exists r.
  - unfold mark_published. destruct (transact s _) as [s' [n|err]] eqn:E; simpl.
    + apply transact_Ok in E as (_ & [= _ E] & _). rewrite <-E. exists r. split_and!; [|done..]. simpl.
      apply list_elem_of_fmap. exists r. split; [|done]. unfold publish_row. rewrite bool_decide_eq_false_2; [done|].
      intros Heq. apply read_event_id in Hr. congruence.
    + apply transact_Err in E as ->. by exists r.
  - unfold mark_audit_event_persisted. case_bool_decide; [by exists r|].
    destruct (transact s _) as [s' [n|err]] eqn:E; simpl.
    + apply transact_Ok in E as (_ & [= _ E] & _). rewrite <-E. by exists r.
    + apply transact_Err in E as ->. by exists r.
  - by exists r.
Qed.

Lemma run_waits s ops e :
  waits (database s) e → Publish (event_id e) ∉ ops → waits (database (store_run s ops)) e.
Proof.
  revert s. induction ops as [|op ops IH]; intros s Hw Hn; simpl; [done|].
  apply not_elem_of_cons in Hn as [Hne Hn]. apply IH; [|done]. by apply step_waits.
Qed.

Lemma mapM_Ok_elem {E A B} (f : A → result E B) (l : list A) ys y :
  mapM f l = Ok ys → y ∈ ys → ∃ x, x ∈ l ∧ f x = Ok y.
Proof.
  revert ys. induction l as [|x l IH]; intros ys; cbn [mapM]; [intros [= <-]; set_solver|].
  intros (y0 & Hy0 & (ys0 & Hys & [= <-])%bind_Ok)%bind_Ok [->|Hy]%elem_of_cons; [exists x; set_solver|].
  destruct (IH _ Hys Hy) as (z & ? & ?). exists z. set_solver.
Qed.

(** A new receipt's events wait. *)
Lemma fresh_waits c db db' r e :
  store_wf codec db → fresh_commit codec c db db' r → e ∈ committed_events r → waits db' e.
Proof.
  intros Hwf Hf He. destruct (fc_receipt _ _ _ _ _ Hf) as (evs & Hevs & ->). simpl in He.
  unfold receipt_events in Hevs. destruct (mapM_Ok_elem _ _ _ _ Hevs He) as (x & Hx & Hr).
  apply list_elem_of_filter in Hx as [Hid Hx]. exists x. split_and!; [done| |done].
  destruct (fresh_outbox _ _ _ _ Hf) as (rs & E & Hrs). rewrite E in Hx. apply elem_of_app in Hx as [Hx|Hx].
  - apply (proj1 (Forall_forall _ _) (sw_owned _ _ Hwf)) in Hx. simpl in Hx.
    rewrite Hid, (fc_prior _ _ _ _ _ Hf) in Hx. by destruct Hx.
  - by apply (proj1 (Forall_forall _ _) Hrs) in Hx as [_ ?].
Qed.

(** What waits is listed, in the order of the outbox. *)
Lemma pending_lists db :
  store_wf codec db → Forall (λ r, identity_ok (row_identity r)) (outbox db) →
  ∃ evs, pending_events codec db = Ok evs ∧ StronglySorted Z.lt (event_sequence <$> evs) ∧
    ∀ e, e ∈ evs ↔ waits db e.
Proof.
  intros Hwf Hk. unfold pending_events. pose proof (ow_readable _ _ (sw_outbox _ _ Hwf)) as Hr.
  pose proof (ow_sorted _ _ (sw_outbox _ _ Hwf)) as Hs. unfold waits. revert Hk Hr Hs.
  induction (outbox db) as [|x l IH]; intros Hk Hr Hs.
  { exists []. split_and!; [done|constructor|]. set_solver. }
  apply Forall_cons in Hk as [Hx Hk], Hr as [[e He] Hr]. cbn [fmap list_fmap] in Hs.
  apply StronglySorted_inv in Hs as [Hs Hlt].
  destruct (IH Hk Hr Hs) as (evs & Hevs & Hsort & Hall). rewrite filter_cons.
  destruct (read_event codec x) as [ex|] eqn:Ex; [|done].
  destruct (decide _) as [Hp|Hp].
  - exists (ex :: evs). cbn [mapM]. unfold from_encoded.
    rewrite !(bool_decide_eq_false_2 (_ = ""%string)) by apply Hx. cbn [refuse mbind result_bind].
    rewrite Ex. cbn [mbind result_bind]. unfold from_encoded in Hevs. rewrite Hevs. split_and!; [done| |].
    + simpl. constructor; [done|]. apply Forall_fmap, Forall_forall. intros y (z & Hz & _ & Hyz)%Hall.
      assert (∀ r e, read_event codec r = Ok e → event_sequence e = row_sequence r) as Hseq.
      { clear. intros r e. unfold read_event. intros H. inv_result. simpl.
        match goal with H : to_u64 _ = _ |- _ => by apply to_u64_Ok in H as [_ ->] end. }
      simpl. rewrite (Hseq _ _ Ex), (Hseq _ _ Hyz). apply (proj1 (Forall_forall _ _) Hlt). by apply list_elem_of_fmap_2.
    + intros y. rewrite elem_of_cons, Hall. split.
      * intros [->|(r & ? & ?)]; [by exists x; set_solver|exists r; set_solver].
      * intros (r & [->|Hr']%elem_of_cons & Hpub & Hread); [left; congruence|right; eauto].
  - exists evs. split_and!; [done..|]. intros y. rewrite Hall. split; [intros (r & ? & ?); exists r; set_solver|].
    intros (r & [->|Hr']%elem_of_cons & Hpub & Hread); [done|eauto].
Qed.
End runs.
