(* ===== verification/StateProgress.v ===== *)
(** * The state store: commits that fit are performed

    The other direction of [StateFacts]: a commit that validates, whose identity is new and
    whose revisions, guards and journal fit the database, succeeds. *)

From Stdlib Require Import Ascii String Sorted.
From S2P Require Import Prelude Text Numerals Ordered Transaction StateKeys StateStore StateFacts StateInvariant StateRuns.
From S2P Require Frame.
Local Open Scope Z_scope.

(** ** Statements that succeed *)

Lemma upsert_state_run stream revision st db :
  0 < revision →
  upsert_state stream revision st db =
  Ok (tt, set_product_state db (<[stream := {| state_revision := revision; state_payload := st |}]> (product_state db))).
Proof. intros H. unfold upsert_state, execute. by rewrite refuse_run by lia. Qed.

Lemma append_state_mutations_run ms db :
  Forall (λ m, 0 ≤ mutation_expected_revision m < i64_max) ms →
  ∃ t, for_each append_state_mutation ms db = Ok (tt, set_product_state db t).
Proof.
  intros H. revert db. induction H as [|m ms Hm _ IH]; intros db; cbn [for_each].
  { exists (product_state db). by rewrite set_product_state_id. }
  destruct (IH (set_product_state db (<[mutation_stream_id m :=
    {| state_revision := mutation_expected_revision m + 1; state_payload := mutation_state m |}]> (product_state db))))
    as [t Ht].
  exists t. erewrite tx_bind_run; [exact Ht|]. unfold append_state_mutation.
  rewrite (lift_run _ (mutation_expected_revision m)) by (apply to_i64_Ok; lia).
  rewrite (lift_run _ (mutation_expected_revision m + 1)) by (apply next_i64_Ok; lia).
  apply upsert_state_run. lia.
Qed.

Lemma insert_journal_record_run key r db :
  0 < record_sequence r ≤ i64_max → is_Some (aggregate_journals db !! key) →
  Forall (λ row, row_journal_sequence row ≠ record_sequence r) (records_of db key) →
  ∃ js l, insert_journal_record key r db = Ok (tt, set_journals db js l).
Proof.
  intros Hs Hj Hr. unfold insert_journal_record. rewrite (lift_run _ (record_sequence r)) by (apply to_i64_Ok; lia).
  unfold execute. rewrite refuse_run, refuse_run, refuse_run; [by eexists _, _| | |].
  - apply bool_decide_eq_false. by destruct Hj as [? ->].
  - lia.
  - apply not_true_iff_false. rewrite existsb_exists. intros (row & Hin & Hrow). split_bools.
    apply (proj1 (Forall_forall _ _) Hr row); [|lia]. apply list_elem_of_filter. split; [done|by apply list_elem_of_In].
Qed.

Lemma append_journal_publication_run p db :
  journals_wf db → validate_publication p = Ok tt → publication_fits db p →
  ∃ js l, append_journal_publication p db = Ok (tt, set_journals db js l).
Proof.
  intros Hwf Hv Hf. pose proof (publication_follows _ _ Hwf Hv Hf) as Hs.
  assert (record_sequence (publication_record p) ≤ i64_max) as Hmax.
  { destruct p; cbn [validate_publication publication_record] in *; inv_result;
      match goal with H : validate_journal_record _ = _ |- _ => unfold validate_journal_record in H end;
      inv_result; split_bools; lia. }
  assert (Forall (λ row, row_journal_sequence row ≠ record_sequence (publication_record p))
    (records_of db (publication_key p))) as Hr.
  { apply Forall_forall. intros row Hrow. apply (list_elem_of_fmap_2 row_journal_sequence) in Hrow.
    rewrite (proj1 (Hwf (publication_key p))), elem_of_seqZ in Hrow. lia. }
  destruct p as [key m r|key n digest r]; cbn [append_journal_publication publication_fits publication_key publication_record] in *.
  - rewrite (query_run _ tt) by (by rewrite Hf).
    destruct (insert_journal_record_run key r (set_journals db (<[key:=m]> (aggregate_journals db)) (journal_records db)))
      as (js & l & E); [lia|cbn; rewrite lookup_insert_eq; by eexists|exact Hr|].
    exists js, l. by erewrite tx_bind_run.
  - destruct Hf as (Hj & tail & Ht & Hn & Hd). rewrite (query_run _ tail) by (by rewrite Ht).
    rewrite journal_rows_records in Ht by done.
    assert (n ≤ i64_max) as Hle.
    { assert (row_journal_sequence tail ∈ row_journal_sequence <$> records_of db key) as Hin.
      { apply list_elem_of_fmap_2. apply last_Some in Ht as [l ->]. set_solver. }
      rewrite (proj1 (Hwf key)), elem_of_seqZ in Hin. lia. }
    rewrite (lift_run _ n) by (by apply to_i64_Ok).
    rewrite (lift_run _ tt) by (by rewrite Hn, Z.eqb_refl, Hd, differs_refl).
    destruct (insert_journal_record_run key r db) as (js & l & ->); [lia|done..|]. by exists js, l.
Qed.

(** ** Events *)

Section progress.
Context (codec : EventCodec) {codec_ok : event_codec_ok codec}.

Lemma insert_outbox_run make db :
  outbox_autoincrement db < i64_max →
  Forall (λ x, outbox_clash (make (outbox_autoincrement db + 1)) x = false) (outbox db) →
  insert_outbox make db =
  Ok (tt, set_outbox db (outbox db ++ [make (outbox_autoincrement db + 1)]) (outbox_autoincrement db + 1)).
Proof.
  intros Hn Hc. unfold insert_outbox, execute. rewrite refuse_run, refuse_run; [done| |lia].
  apply not_true_iff_false. rewrite existsb_exists. intros (x & Hin & Hx).
  apply list_elem_of_In in Hin. apply (proj1 (Forall_forall _ _) Hc) in Hin. simpl in Hin. congruence.
Qed.

(** The next position of a stream is free. *)
Lemma position_free c e db json n x :
  outbox_wf codec db → x ∈ outbox db → row_event_id x ≠ new_event_id e →
  outbox_clash (outbox_row c e (position_of c e db) json n) x = false.
Proof.
  intros Hwf Hx Hid. unfold outbox_clash. cbn [outbox_row row_event_id row_stream_kind row_resource_id row_stream_sequence row_identity].
  rewrite bool_decide_eq_false_2 by done. cbn [orb]. unfold position_of, head_of_event, head_of.
  destruct (projection_stream e) as [stream|]; [|done]. cbn [fmap option_fmap option_map].
  apply not_true_iff_false. intros H. split_bools.
  set (key := (scope_key (commit_identity c), stream_kind stream, resource_id stream)) in *.
  assert (x ∈ stream_rows key (outbox db)) as Hin by (apply list_elem_of_filter; done).
  apply (list_elem_of_fmap_2 row_stream_sequence) in Hin. rewrite (proj1 (ow_streams _ _ Hwf key)) in Hin.
  apply list_elem_of_fmap in Hin as (k & Hk & Hin). apply elem_of_seqZ in Hin.
  match goal with H : row_stream_sequence x = _ |- _ => rewrite H in Hk; injection Hk as Hk end.
  rewrite (head_position_length codec db key Hwf) in Hk. lia.
Qed.

Lemma append_outbox_event_run c e db json :
  outbox_wf codec db → context_json codec e = Ok json →
  (∀ key, head_of_event c e = Some key → head_position db key < max_safe_integer) →
  new_event_id e ∉ row_event_id <$> outbox db → outbox_autoincrement db < i64_max →
  ∃ db', append_outbox_event codec c e db = Ok (tt, db').
Proof.
  intros Hwf Hj Hp Hid Hn. unfold append_outbox_event.
  rewrite (query_run _ (position_of c e db)).
  2:{ unfold position_of, head_of_event, next_projection_stream_position in *.
      destruct (projection_stream e) as [stream|]; [|done]. cbn [fmap option_fmap option_map] in *.
      fold (head_position db (head_of (scope_key (commit_identity c)) stream)). specialize (Hp _ eq_refl).
      pose proof (head_position_length codec db (head_of (scope_key (commit_identity c)) stream) Hwf).
      assert (max_safe_integer < i64_max) by done.
      rewrite refuse_run by (apply negb_false_iff, andb_true_iff; lia).
      by rewrite (proj2 (next_i64_Ok _ _ (head_position db (head_of (scope_key (commit_identity c)) stream) + 1))) by lia. }
  rewrite (lift_run _ json) by exact Hj.
  erewrite tx_bind_run.
  2:{ apply insert_outbox_run; [done|]. apply Forall_forall. intros x Hx. apply position_free; [done..|].
      intros Heq. apply Hid. rewrite <-Heq. by apply list_elem_of_fmap_2. }
  unfold position_of, head_of_event. destruct (projection_stream e) as [stream|]; [|by eexists].
  cbn [fmap option_fmap option_map]. unfold upsert_stream_head, execute. rewrite refuse_run; [by eexists|].
  rewrite !orb_false_iff. split_and!.
  - apply bool_decide_eq_false. intros H. apply H. destruct stream; cbn; set_solver.
  - pose proof (head_position_length codec db (head_of (scope_key (commit_identity c)) stream) Hwf). lia.
  - apply negb_false_iff, existsb_exists. eexists. split; [apply list_elem_of_In; cbn; apply elem_of_app; right; by left|].
    by apply bool_decide_eq_true.
Qed.

(** Room for [n] more events. *)
Record room (n : Z) (db : Database) : Prop := {
  room_outbox : outbox_autoincrement db + n ≤ i64_max;
  room_streams : ∀ key, head_position db key + n ≤ max_safe_integer
}.

Lemma append_outbox_events_run c es db :
  outbox_wf codec db → room (Z.of_nat (length es)) db →
  Forall (λ e, validate_event_context (commit_identity c) e = Ok tt ∧ is_ok (context_json codec e) = true) es →
  NoDup (new_event_id <$> es) → (∀ x, x ∈ new_event_id <$> es → x ∉ row_event_id <$> outbox db) →
  ∃ db', for_each (append_outbox_event codec c) es db = Ok (tt, db').
Proof.
  revert db. induction es as [|e es IH]; intros db Hwf [Ho Hs] Hv Hn Hd; [by eexists|].
  apply Forall_cons in Hv as [[Hve Hje] Hv]. cbn [fmap list_fmap] in Hn, Hd. apply NoDup_cons in Hn as [Hne Hn].
  destruct (context_json codec e) as [json|] eqn:Ej; [|done]. cbn [length] in *.
  destruct (append_outbox_event_run c e db json) as [db1 H1]; [done..| |set_solver|lia|].
  { intros key _. specialize (Hs key). lia. }
  destruct (append_outbox_event_Ok _ _ _ _ _ _ H1) as [r Hr].
  pose proof (event_appended_wf _ codec_ok _ _ _ _ _ Hwf Hve Hr) as Hwf1. destruct Hr as [(json' & _ & ->) _ _ ->].
  edestruct IH as [db' H']; [exact Hwf1| |done|done| |].
  - split; cbn; [lia|]. intros key. specialize (Hs key). unfold head_position, heads_after in *. cbn.
    destruct (head_of_event c e) as [key'|]; [|lia]. destruct (decide (key' = key)) as [->|].
    + rewrite lookup_insert_eq. cbn. fold (head_position db key) in *. unfold head_position in *. lia.
    + rewrite lookup_insert_ne by done. lia.
  - intros x Hx. cbn. rewrite fmap_app. cbn. rewrite elem_of_app, list_elem_of_singleton. intros [Hin| ->]; [|done].
    by apply (Hd x); [right|].
  - exists db'. cbn [for_each]. by erewrite tx_bind_run.
Qed.

(** ** Commits *)

(** The commit fits the database: it would be accepted by the abstract store, and nothing
    it names is taken. *)
Record commit_fits (db : Database) (c : StateCommit) : Prop := {
  cf_identity : command_receipts db !! commit_identity c = None;
  cf_not_replay : receipt_replay_required c = false;
  cf_guards : Forall (λ g, revision_of db (guard_stream_id g) = guard_expected_revision g) (state_guards c);
  cf_writes : Forall (λ w, revision_of db w.1.1 = w.1.2) (writes c);
  cf_last_revision : expected_revision c < i64_max;
  cf_import : ∀ i, immutable_state_import c = Some i →
    ∃ row, product_state db !! commit_stream_id c = Some row ∧ sha256_digest codec (state_payload row) = source_digest i;
  cf_journal : ∀ p, journal_publication c = Some p → publication_fits db p;
  cf_audit : ∀ e i r, pending_audit_event c = Some e → audit_outbox db !! i = Some r →
    row_audit_event_id r ≠ audit_event_id e;
  cf_events : Forall (λ e, (new_event_id e ∉ row_event_id <$> outbox db) ∧ is_ok (context_json codec e) = true) (events c);
  cf_room : room (Z.of_nat (length (events c))) db
}.

Lemma check_guards_run db c :
  store_wf codec db → Forall (λ g, revision_of db (guard_stream_id g) = guard_expected_revision g) (state_guards c) →
  check_state_revision_guards db c = Ok tt.
Proof.
  intros Hwf Hg. apply check_all_Ok. eapply Forall_impl; [exact Hg|]. intros g Hr. cbn beta in Hr. unfold check_state_revision_guard.
  rewrite (proj2 (stored_state_revision_Ok db (guard_stream_id g) (guard_expected_revision g)))
    by (pose proof (revision_of_bound codec db (guard_stream_id g) Hwf); lia).
  cbn [mbind result_bind]. by rewrite Z.eqb_refl.
Qed.

Lemma check_mutations_run db c :
  store_wf codec db → commit_fits db c → check_state_mutation_revisions codec db c = Ok tt.
Proof.
  intros Hwf Hf. unfold check_state_mutation_revisions. pose proof (cf_writes _ _ Hf) as Hw. unfold writes in Hw.
  apply Forall_cons in Hw as [Hp Hm]. cbn [fst snd] in Hp.
  assert (check_all (check_state_mutation_revision db) (all_state_mutations c) = Ok tt) as Hall.
  { apply check_all_Ok. apply Forall_fmap in Hm. eapply Forall_impl; [exact Hm|]. intros m Hr. cbn in Hr.
    unfold check_state_mutation_revision.
    rewrite (proj2 (stored_state_revision_Ok db (mutation_stream_id m) (mutation_expected_revision m)))
      by (pose proof (revision_of_bound codec db (mutation_stream_id m) Hwf); lia).
    cbn [mbind result_bind]. by rewrite Z.eqb_refl. }
  destruct (immutable_state_import c) as [i|] eqn:Ei; [|exact Hall].
  destruct (cf_import _ _ Hf i Ei) as (row & Hrow & Hd). rewrite Hrow. cbn [ok_or mbind result_bind].
  unfold revision_of in Hp. rewrite Hrow in Hp. cbn in Hp. by rewrite Hp, Z.eqb_refl, Hd, differs_refl.
Qed.

Lemma append_receipt_run c revision db :
  command_receipts db !! commit_identity c = None → 0 < revision →
  ∃ t, append_receipt c revision db = Ok (tt, set_command_receipts db t).
Proof.
  intros Hn Hr. unfold append_receipt, execute. rewrite refuse_run; [by eexists|].
  apply orb_false_iff. split; [|lia]. apply bool_decide_eq_false. rewrite Hn. by intros [].
Qed.

Lemma append_audit_run c db :
  audit_outbox db !! commit_identity c = None →
  (∀ e i r, pending_audit_event c = Some e → audit_outbox db !! i = Some r → row_audit_event_id r ≠ audit_event_id e) →
  ∃ t, match pending_audit_event c with
       | Some e => append_pending_audit_event c e
       | None => mret tt
       end db = Ok (tt, set_audit_outbox db t).
Proof.
  intros Hn Hu. destruct (pending_audit_event c) as [e|]; [|exists (audit_outbox db); by destruct db].
  unfold append_pending_audit_event, execute. rewrite refuse_run; [by eexists|]. apply orb_false_iff. split.
  - apply bool_decide_eq_false. rewrite Hn. by intros [].
  - apply not_true_iff_false. rewrite existsb_exists. intros ([i r] & Hin & Hx). split_bools.
    apply list_elem_of_In, elem_of_map_to_list in Hin. by eapply Hu.
Qed.

Lemma mapM_readable (l : list OutboxRow) :
  Forall (λ r, is_Some (match read_event codec r with Ok e => Some e | Err _ => None end)) l →
  ∃ evs, mapM (read_event codec) l = Ok evs ∧ event_id <$> evs = row_event_id <$> l.
Proof.
  induction 1 as [|r l [e He] _ (evs & IH & Hi)]; [by exists []|]. destruct (read_event codec r) as [e'|] eqn:E; [|done].
  exists (e' :: evs). cbn [mapM]. rewrite E. cbn [mbind result_bind]. rewrite IH. split; [done|].
  cbn [fmap list_fmap] in *. f_equal; [|exact Hi]. symmetry. by eapply read_event_id.
Qed.

Lemma journal_step_run c db :
  journals_wf db → (∀ p, journal_publication c = Some p → validate_publication p = Ok tt ∧ publication_fits db p) →
  ∃ js l, match journal_publication c with
          | Some p => append_journal_publication p
          | None => mret tt
          end db = Ok (tt, set_journals db js l).
Proof.
  intros Hwf Hp. destruct (journal_publication c) as [p|].
  - destruct (Hp p eq_refl). by apply append_journal_publication_run.
  - exists (aggregate_journals db), (journal_records db). by destruct db.
Qed.

(** The event ids of a commit's rows are those of its events. *)
Lemma appended_ids c es db db' rs :
  events_appended codec c es db db' rs → row_event_id <$> rs = new_event_id <$> es.
Proof. induction 1 as [|e es db db1 db' r rs [(json & _ & ->) _ _ _] _ IH]; [done|]. cbn [fmap list_fmap]. by f_equal. Qed.

(** The rows of a new receipt are those its commit appended. *)
Lemma fresh_rows db db' rs i :
  Forall (λ r, is_Some (command_receipts db !! row_identity r)) (outbox db) → command_receipts db !! i = None →
  outbox db' = outbox db ++ rs → Forall (λ r, row_identity r = i) rs → receipt_rows db' i = rs.
Proof.
  intros Hown Hn E Hrs. unfold receipt_rows. rewrite E, filter_app, (filter_none _ (outbox db)), (filter_all _ rs); [done|done|].
  eapply Forall_impl; [exact Hown|]. intros r [x Hx] Heq. cbn beta in Heq. congruence.
Qed.

(** The revisions a fitting commit replaces have successors. *)
Lemma fits_revisions c db :
  store_wf codec db → commit_valid c → commit_fits db c →
  0 ≤ expected_revision c < i64_max ∧ revision_of db (commit_stream_id c) = expected_revision c ∧
  Forall (λ m, 0 ≤ mutation_expected_revision m < i64_max) (all_state_mutations c).
Proof.
  intros Hwf Hv Hf. pose proof (cf_writes _ _ Hf) as Hw. unfold writes in Hw.
  apply Forall_cons in Hw as [Hp Hm]. cbn [fst snd] in Hp. apply Forall_fmap in Hm.
  pose proof (revision_of_bound codec db (commit_stream_id c) Hwf). pose proof (cf_last_revision _ _ Hf).
  split_and!; [lia..|done|]. apply Forall_forall. intros m Hin.
  pose proof (proj1 (Forall_forall _ _) Hm m Hin) as Hr. cbn in Hr.
  pose proof (proj1 (Forall_forall _ _) (cv_mutations _ Hv) m Hin) as Hlt. cbn in Hlt.
  pose proof (revision_of_bound codec db (mutation_stream_id m) Hwf). lia.
Qed.

(** Its events are appended, and its receipt shows them. *)
Lemma fits_events c db db0 :
  store_wf codec db → commit_valid c → commit_fits db c →
  outbox db0 = outbox db → outbox_autoincrement db0 = outbox_autoincrement db → stream_heads db0 = stream_heads db →
  ∃ db' evs, append_outbox_events codec c db0 = Ok (tt, db') ∧ receipt_events codec db' (commit_identity c) = Ok evs ∧
    event_id <$> evs = new_event_id <$> events c.
Proof.
  intros Hwf Hv Hf E1 E2 E3.
  assert (outbox_wf codec db0) as Hwf0 by (by eapply outbox_wf_ext, (sw_outbox _ _ Hwf)).
  destruct (append_outbox_events_run c (events c) db0) as [db' E5].
  { done. }
  { destruct (cf_room _ _ Hf). split; unfold head_position in *; by rewrite ?E2, ?E3. }
  { apply Forall_forall. intros e He. split; [by apply (proj1 (Forall_forall _ _) (cv_events _ Hv))|].
    by apply (proj1 (Forall_forall _ _) (cf_events _ _ Hf)). }
  { exact (cv_event_ids _ Hv). }
  { intros x (e & -> & He)%list_elem_of_fmap. rewrite E1.
    by apply (proj1 (Forall_forall _ _) (cf_events _ _ Hf)) in He as [? _]. }
  destruct (append_outbox_events_Ok _ _ _ _ _ _ E5) as [rs Hrs].
  pose proof (events_appended_wf _ codec_ok _ _ _ _ _ Hwf0 (cv_events _ Hv) Hrs) as Hwf'.
  destruct (events_appended_frame _ _ _ _ _ _ Hrs) as (Edb' & Hown & _).
  assert (outbox db' = outbox db ++ rs) as Eout by (rewrite Edb'; cbn; by rewrite E1).
  assert (receipt_rows db' (commit_identity c) = rs) as Erows.
  { apply (fresh_rows db); [exact (sw_owned _ _ Hwf)|exact (cf_identity _ _ Hf)|done|].
    eapply Forall_impl; [exact Hown|]. by intros x []. }
  destruct (mapM_readable rs) as (evs & Hevs & Hids).
  { pose proof (ow_readable _ _ Hwf') as Hr. rewrite Eout in Hr. by apply Forall_app in Hr as [_ ?]. }
  exists db', evs. split_and!; [done|unfold receipt_events; by rewrite Erows|].
  rewrite Hids. by eapply appended_ids.
Qed.

Lemma append_state_commit_run c db :
  store_wf codec db → commit_valid c → commit_fits db c →
  ∃ db' r, append_state_commit codec c db = Ok (r, db') ∧ idempotent_replay r = false ∧
    event_id <$> committed_events r = new_event_id <$> events c.
Proof.
  intros Hwf Hv Hf. destruct (fits_revisions c db Hwf Hv Hf) as (Hb & Hp & Hms). unfold append_state_commit.
  rewrite (query_run _ (expected_revision c)) by (apply stored_state_revision_Ok; lia).
  rewrite (lift_run _ tt) by (by rewrite Z.eqb_refl).
  rewrite (lift_run _ (expected_revision c)) by (apply to_i64_Ok; lia).
  rewrite (lift_run _ (expected_revision c + 1)) by (apply next_i64_Ok; lia).
  erewrite tx_bind_run by (apply upsert_state_run; lia).
  edestruct append_state_mutations_run as [t1 E1]; [exact Hms|]. unfold append_state_mutations.
  erewrite tx_bind_run by exact E1. rewrite set_product_state_twice.
  edestruct (journal_step_run c (set_product_state db t1)) as (js & l & E2).
  { exact (sw_journals _ _ Hwf). }
  { intros p Hpub. split; [by apply (cv_journal _ Hv)|]. pose proof (cf_journal _ _ Hf p Hpub) as Hfit. destruct p; exact Hfit. }
  erewrite tx_bind_run by exact E2.
  edestruct (append_receipt_run c (expected_revision c + 1)) as [t2 E3]; [|lia|erewrite tx_bind_run by exact E3].
  { exact (cf_identity _ _ Hf). }
  edestruct append_audit_run as [t3 E4]; [| |erewrite tx_bind_run by exact E4].
  { cbn. apply eq_None_not_Some. intros [x Hx]. apply (sw_audit _ _ Hwf) in Hx as [[y Hy] _].
    by rewrite (cf_identity _ _ Hf) in Hy. }
  { exact (cf_audit _ _ Hf). }
  match goal with |- context [(append_outbox_events _ _ ≫= _) ?d] => set (db0 := d) end.
  destruct (fits_events c db db0) as (db' & evs & E5 & E6 & Hids); [done..|].
  erewrite tx_bind_run by exact E5. rewrite (lift_run _ (expected_revision c + 1)) by (apply to_u64_Ok; lia).
  rewrite (query_run _ evs) by exact E6. by eexists _, _.
Qed.

Lemma commit_transaction_run db c claimed :
  store_wf codec db → commit_valid c → commit_fits db c → claimed = true ∨ control_plane_command_claim_exists db c = false →
  ∃ db' r, commit_in_transaction_with_claim_authority codec c claimed db = Ok (r, db') ∧ idempotent_replay r = false ∧
    event_id <$> committed_events r = new_event_id <$> events c.
Proof.
  intros Hwf Hcv Hf Hc. destruct (append_state_commit_run c db Hwf Hcv Hf) as (db' & r & E & Hr).
  exists db', r. split; [|done]. unfold commit_in_transaction_with_claim_authority, prior_receipt.
  rewrite (cf_identity _ _ Hf), (cf_not_replay _ _ Hf).
  rewrite (lift_run _ tt) by (destruct Hc as [->| ->]; [done|by rewrite andb_false_r]). rewrite (lift_run _ tt) by done.
  rewrite (query_run _ tt) by (apply check_guards_run; [done|exact (cf_guards _ _ Hf)]).
  by rewrite (query_run _ tt) by (by apply check_mutations_run).
Qed.

Lemma commit_fits_run s c u :
  store_wf codec (database s) → read_only s = false → validate_commit c = Ok u →
  control_plane_command_claim_exists (database s) c = false → commit_fits (database s) c →
  ∃ s' r, sqlite_commit codec s c = (s', Ok r) ∧ idempotent_replay r = false ∧
    event_id <$> committed_events r = new_event_id <$> events c.
Proof.
  intros Hwf Hro Hv Hc Hf. destruct (commit_transaction_run (database s) c false) as (db' & r & E & Hr); [done|by eapply validate_commit_Ok|done|by right|].
  exists (set_database s db'), r. split; [|done]. unfold sqlite_commit. rewrite Hv.
  unfold transact, connection_mut. rewrite Hro. cbn [refuse mbind result_bind]. unfold commit, commit_in_transaction. by rewrite E.
Qed.
End progress.
