(* ===== verification/StateSafety.v ===== *)
(** * The state store: what it promises

    The theorems on the storage of [StateStore]: over every run of commits and
    acknowledgements from a new database, the states are those of a serial history, a request
    is answered once and for all, cursors and journals stay valid, and no event is lost.  A
    run of three commits shows that their hypotheses hold. *)

From Stdlib Require Import Ascii String Sorted.
From S2P Require Import Prelude Text Numerals Ordered Transaction StateKeys StateStore StateFacts StateInvariant StateRuns StateProgress.
From S2P Require Frame.
Local Open Scope Z_scope.

Section safety.
Context (codec : EventCodec) (codec_ok : event_codec_ok codec).

Definition new_storage : SqliteStorage := {| database := empty_database; read_only := false |}.

Lemma new_run_wf ops : store_wf codec (database (store_run codec new_storage ops)).
Proof. apply run_wf; [done|apply empty_wf]. Qed.

Lemma load_current v db i :
  represents v (product_state db) →
  load_state_from_connection db i =
  Ok ((λ p, {| stored_stream_id := i; stored_revision := Z.of_nat (length (versions_of v i)); stored_payload := p |}) <$>
      last (versions_of v i)).
Proof.
  intros Hv. unfold load_state_from_connection. rewrite Hv. unfold current. destruct (last _) as [p|]; [|done].
  cbn [fmap option_fmap option_map]. unfold read_state. cbn [state_revision].
  by rewrite (proj2 (to_u64_Ok _ _)) by (split; [lia|done]).
Qed.

(** C3. Over every run of commits and acknowledgements from a new database, the commits that
    were performed form a serial history: each was accepted against exactly the versions its
    predecessors left, including its guards, no request is performed twice, every receipt
    belongs to one of them, and [load_state] returns the last version of a stream with the
    number of its versions as revision. *)
Theorem store_serial_history ops :
  let log := history codec new_storage ops in
  let db := database (store_run codec new_storage ops) in
  serial log ∧ NoDup (commit_identity <$> log) ∧
  (∀ i, is_Some (prior_receipt db i) ↔ i ∈ commit_identity <$> log) ∧
  ∀ i, load_state_from_connection db i =
    Ok ((λ p, {| stored_stream_id := i; stored_revision := Z.of_nat (length (versions_of (spec_history log) i));
                 stored_payload := p |}) <$> last (versions_of (spec_history log) i)).
Proof.
  destruct (run_refines codec codec_ok new_storage ops eq_refl) as [_ Hst Hse Hid Hre].
  split_and!; [done..|]. intros i. by apply load_current.
Qed.

(** An identity that was used with another digest. *)
Lemma conflicting_commit s c u prior :
  store_wf codec (database s) → read_only s = false → validate_commit c = Ok u →
  prior_receipt (database s) (commit_identity c) = Some prior → receipt_digest prior ≠ command_digest c →
  sqlite_commit codec s c = (s, Err (storage_error RequestConflict)).
Proof.
  intros Hwf Hro Hv Hp Hd. unfold sqlite_commit. rewrite Hv. unfold transact, connection_mut. rewrite Hro.
  cbn [refuse mbind result_bind]. unfold commit, commit_in_transaction, commit_in_transaction_with_claim_authority.
  rewrite Hp. unfold query, replay_receipt. assert (∃ o, load_pending_audit_event (database s) (commit_identity c) = Ok o) as [o ->].
  { unfold load_pending_audit_event. destruct (audit_outbox (database s) !! commit_identity c) as [x|] eqn:Ex; [|by eexists].
    apply (sw_audit _ _ Hwf) in Ex as [_ ->]. by eexists. }
  cbn [mbind result_bind]. destruct (bool_decide (o ≠ pending_audit_event c)).
  - by destruct s; cbn in *; rewrite Hro.
  - cbn [refuse mbind result_bind]. unfold replay_stored_receipt. rewrite bool_decide_eq_true_2 by done.
    by destruct s; cbn in *; rewrite Hro.
Qed.

(** C19. A request is answered once and for all: whatever is committed or acknowledged after
    it, the same commit gets the same receipt again, marked as a repetition, and changes
    nothing; a commit that reuses the identity with another command digest is refused with
    [RequestConflict] and changes nothing. *)
Theorem commit_answered_once ops c s1 r later :
  sqlite_commit codec (store_run codec new_storage ops) c = (s1, Ok r) →
  let s2 := store_run codec s1 later in
  sqlite_commit codec s2 c = (s2, Ok (as_replay r)) ∧
  ∀ c', validate_commit c' = Ok tt → commit_identity c' = commit_identity c → command_digest c' ≠ command_digest c →
    sqlite_commit codec s2 c' = (s2, Err (storage_error RequestConflict)).
Proof.
  intros H s2. pose proof (new_run_wf ops) as Hwf.
  pose proof (answered_stays codec _ _ _ _ later Hwf H) as Hs. fold s2 in Hs. split; [done|]. intros c' Hv Hi Hd.
  assert (store_wf codec (database s2)) as Hwf2.
  { apply run_wf; [done|]. replace s1 with (store_step codec (store_run codec new_storage ops) (Commit c))
      by (cbn; by rewrite H). eapply step_wf; [done|exact Hwf|apply store_step_effect]. }
  apply sqlite_commit_Ok in Hs as (_ & Hro & [(prior & Hp & Hr & _)|[Hf _]]).
  - apply replay_receipt_Ok in Hr as (_ & _ & Hdig & _). rewrite <-Hi in Hp. eapply conflicting_commit; [done..|congruence].
  - destruct (fc_receipt _ _ _ _ _ Hf) as (evs & _ & E). done.
Qed.

(** Projection streams only grow: a position of a stream once taken keeps its event, every
    position up to the head is taken, and a cursor issued at the head of a stream is accepted
    as it is by every later read, so a reader can resume from it. *)
Theorem projection_cursor_stable ops later key cur :
  let db := database (store_run codec new_storage ops) in
  let db' := database (store_run codec (store_run codec new_storage ops) later) in
  let k := head_of (stream_scope_key key) (key_stream key) in
  load_projection_event_cursor_from_connection db key None = Ok cur →
  load_projection_event_cursor_from_connection db' key (Some cur) = Ok cur ∧
  (∀ n e, 0 < n → event_at db k n = Some e → event_at db' k n = Some e) ∧
  (∀ n, 0 < n → is_Some (event_at db k n) ↔ n ≤ cursor_sequence cur).
Proof.
  intros db db' k H. pose proof (sw_outbox _ _ (new_run_wf ops)) as Hwf.
  assert (outbox_wf codec db') as Hwf' by (apply sw_outbox, run_wf; [done|apply new_run_wf]).
  pose proof (run_stream codec (store_run codec new_storage ops) later k) as Hpre.
  destruct (issued_cursor codec db db' key cur Hwf Hwf' Hpre H) as [Hn Hc]. fold k in Hn. split_and!; [done| |].
  - intros n e Hpos. rewrite !(event_at_stream codec) by done. intros He. by eapply prefix_lookup_Some.
  - intros n Hpos. rewrite (event_at_stream codec) by done. rewrite lookup_lt_is_Some, Hn. unfold stream_end. lia.
Qed.

(** A journal is append-only: once it can be loaded, every later load returns the same
    manifest and the same records first, and its records are numbered from 1 without gaps. *)
Theorem journal_append_only ops later key j :
  load_aggregate_journal (database (store_run codec new_storage ops)) key = Ok (Some j) →
  (∃ j', load_aggregate_journal (database (store_run codec (store_run codec new_storage ops) later)) key = Ok (Some j') ∧
     manifest j' = manifest j ∧ records j `prefix_of` records j') ∧
  records j ≠ [] ∧ record_sequence <$> records j = seqZ 1 (Z.of_nat (length (records j))).
Proof.
  set (s := store_run codec new_storage ops). pose proof (new_run_wf ops) as Hwf. fold s in Hwf.
  rewrite (load_journal_records codec _ key Hwf). intros H.
  destruct (aggregate_journals (database s) !! key) as [m|] eqn:Em; [|done]. cbn in H. injection H as <-.
  destruct (sw_journals _ _ Hwf key) as [Hn Hm].
  destruct (run_journal codec s later key m Em) as [Hm' Hpre]. split_and!.
  - rewrite (load_journal_records codec _ key (run_wf codec codec_ok s later Hwf)), Hm'. eexists. split_and!; [done..|].
    cbn [records]. destruct Hpre as [l ->]. rewrite fmap_app. by apply prefix_app_r.
  - cbn [records]. intros E%fmap_nil_inv. apply Hm in E. congruence.
  - cbn [records]. by rewrite length_fmap, <-list_fmap_compose.
Qed.

(** No event is lost: every event of a performed commit is listed by [pending_events] in
    every later state, until it is marked published, and the list is in the order of the
    outbox. *)
Theorem event_pending_until_published ops c s1 r later e :
  Forall op_ok ops → Forall op_ok later → op_ok (Commit c) →
  sqlite_commit codec (store_run codec new_storage ops) c = (s1, Ok r) → idempotent_replay r = false →
  e ∈ committed_events r → Publish (event_id e) ∉ later →
  ∃ evs, pending_events codec (database (store_run codec s1 later)) = Ok evs ∧ e ∈ evs ∧
    StronglySorted Z.lt (event_sequence <$> evs).
Proof.
  intros Hops Hlater Hc H Hr He Hn. pose proof (new_run_wf ops) as Hwf.
  assert (s1 = store_run codec new_storage (ops ++ [Commit c])) as Es1.
  { unfold store_run. rewrite foldl_app. cbn. fold (store_run codec new_storage ops). by rewrite H. }
  apply sqlite_commit_Ok in H as (_ & _ & [(prior & _ & Hrep & _)|[Hf _]]).
  { apply replay_receipt_Ok in Hrep as [Hi _]. congruence. }
  pose proof (run_waits codec codec_ok s1 later e (fresh_waits codec codec_ok _ _ _ _ _ Hwf Hf He) Hn) as Hw.
  assert (store_run codec s1 later = store_run codec new_storage ((ops ++ [Commit c]) ++ later)) as Erun.
  { rewrite Es1. unfold store_run. by rewrite <-foldl_app. }
  rewrite Erun in *. destruct (pending_lists codec codec_ok (database (store_run codec new_storage ((ops ++ [Commit c]) ++ later))))
    as (evs & Hevs & Hs & Hall).
  - apply new_run_wf.
  - apply run_keys; [constructor|]. rewrite !Forall_app, Forall_singleton. done.
  - exists evs. split_and!; [done|by apply Hall|done].
Qed.

(** A commit that fits is performed: over a database reached from a new one, a commit that
    validates, is not bound to a claim, has a new identity and new event ids, expects the
    current revisions and the current end of its journal, and leaves the counters within
    their bounds succeeds, is not a repetition, and its receipt shows its events in order. *)
Theorem commit_performed ops c :
  let s := store_run codec new_storage ops in
  validate_commit c = Ok tt → control_plane_command_claim_exists (database s) c = false →
  commit_fits codec (database s) c →
  ∃ s' r, sqlite_commit codec s c = (s', Ok r) ∧ idempotent_replay r = false ∧
    event_id <$> committed_events r = new_event_id <$> events c.
Proof.
  intros s Hv Hc Hf. eapply commit_fits_run; [done|apply new_run_wf| |exact Hv|exact Hc|exact Hf].
  unfold s. by rewrite run_read_only.
Qed.
End safety.

(** ** A run of three commits *)

Definition fixture_actor : PublicEventActor := User ("usr_" +:+ repeated 26 "0").
Definition fixture_scope : PublicEventScope := Organization ("org_" +:+ repeated 26 "0").
Definition fixture_source : PublicEventSource := ControlPlane fixture_actor "sessions".
Definition fixture_stream : ProjectionEventStream := ProductSession "session-1".
Definition fixture_instant : string := "2026-01-02T03:04:05.678Z".

Definition fixture_store_codec : EventCodec :=
  {| json_scope := Frame.table_json [fixture_scope]; json_stream := Frame.table_json [fixture_stream];
     json_instant := Frame.table_json [fixture_instant]; json_source := Frame.table_json [fixture_source];
     sha256_hex := λ _, repeated 64 "a" |}.

Lemma fixture_store_codec_ok : event_codec_ok fixture_store_codec.
Proof. split; apply Frame.table_json_round_trip. Qed.

Definition fixture_request (last : string) : ReceiptIdentity :=
  match public_receipt_identity fixture_actor fixture_scope ("req_" +:+ repeated 25 "0" +:+ last) with
  | Ok i => i
  | Err _ => {| actor_key := ""; scope_key := ""; request_id := "" |}
  end.

Definition fixture_public_event (last : string) : NewOutboxEvent :=
  {| new_event_id := "evt_" +:+ repeated 16 "0" +:+ last; new_topic := "session"; new_payload := [Byte.x01];
     projection_stream := Some fixture_stream;
     public_context := Some {| context_scope := fixture_scope; context_stream := fixture_stream;
                               occurred_at := fixture_instant; context_source := fixture_source |} |}.

Definition fixture_journal : AggregateJournalKey := {| aggregate_type := "session"; aggregate_id := "1" |}.

(** The commit of a request: it expects [revision] of the stream, appends to the journal and
    emits a public event. *)
Definition fixture_commit (last : string) (revision : Z) (p : AggregateJournalPublication) : StateCommit :=
  with_journal_publication
    (state_commit (fixture_request last) ("sha256:" +:+ repeated 64 "c") "product-session:1" revision
       [Byte.x02] [fixture_public_event last]) p.

Definition fixture_record (n : Z) : AggregateJournalRecord :=
  {| record_sequence := n; record_digest := "digest"; record_payload := [Byte.x03] |}.

Definition fixture_first : StateCommit := fixture_commit "1" 0 (Create fixture_journal [Byte.x04] (fixture_record 1)).
Definition fixture_second : StateCommit := fixture_commit "2" 1 (Append fixture_journal 1 "digest" (fixture_record 2)).

(** The same request as the first one, with another digest. *)
Definition fixture_conflict : StateCommit :=
  state_commit (fixture_request "1") ("sha256:" +:+ repeated 64 "d") "product-session:1" 1 [Byte.x05]
    [fixture_public_event "3"].

Definition fixture_key : ProjectionEventStreamKey :=
  {| stream_scope_key := scope_key (fixture_request "1"); key_stream := fixture_stream |}.

Definition after_first : SqliteStorage := store_run fixture_store_codec new_storage [Commit fixture_first].

Lemma store_serial_history_witness :
  commit_identity <$> history fixture_store_codec new_storage [Commit fixture_first; Commit fixture_conflict; Commit fixture_second] =
    [fixture_request "1"; fixture_request "2"] ∧
  load_state_from_connection (database (store_run fixture_store_codec new_storage
    [Commit fixture_first; Commit fixture_conflict; Commit fixture_second])) "product-session:1" =
    Ok (Some {| stored_stream_id := "product-session:1"; stored_revision := 2; stored_payload := [Byte.x02] |}).
Proof.
  destruct (store_serial_history fixture_store_codec fixture_store_codec_ok
    [Commit fixture_first; Commit fixture_conflict; Commit fixture_second]) as (_ & _ & _ & Hl).
  split; [vm_compute; reflexivity|]. rewrite Hl. vm_compute. reflexivity.
Defined.

Definition fixture_receipt : CommitReceipt :=
  {| committed_identity := fixture_request "1"; committed_digest := command_digest fixture_first;
     committed_stream_id := "product-session:1"; committed_revision := 1;
     committed_events := [committed_event fixture_first (fixture_public_event "1") (Some 1) 1];
     idempotent_replay := false |}.

Lemma fixture_answer : sqlite_commit fixture_store_codec new_storage fixture_first = (after_first, Ok fixture_receipt).
Proof.
  enough ((sqlite_commit fixture_store_codec new_storage fixture_first).2 = Ok fixture_receipt) as <-
    by apply surjective_pairing.
  vm_compute. reflexivity.
Qed.

Lemma commit_answered_once_witness :
  let s := store_run fixture_store_codec after_first [Commit fixture_second] in
  sqlite_commit fixture_store_codec s fixture_first = (s, Ok (as_replay fixture_receipt)) ∧
  sqlite_commit fixture_store_codec s fixture_conflict = (s, Err (storage_error RequestConflict)).
Proof.
  destruct (commit_answered_once fixture_store_codec fixture_store_codec_ok [] fixture_first after_first fixture_receipt
    [Commit fixture_second] fixture_answer) as [H1 H2].
  split; [exact H1|]. apply H2; [vm_compute; reflexivity|reflexivity|vm_compute; discriminate].
Defined.

Lemma fixture_cursor :
  load_projection_event_cursor_from_connection (database after_first) fixture_key None =
  Ok {| cursor_key := fixture_key; cursor_sequence := 1; cursor_event_id := Some (new_event_id (fixture_public_event "1")) |}.
Proof. vm_compute. reflexivity. Qed.

Lemma projection_cursor_stable_witness :
  let db := database (store_run fixture_store_codec after_first [Commit fixture_second]) in
  let cur := {| cursor_key := fixture_key; cursor_sequence := 1;
                cursor_event_id := Some (new_event_id (fixture_public_event "1")) |} in
  load_projection_event_cursor_from_connection db fixture_key (Some cur) = Ok cur ∧
  event_at db (head_of (stream_scope_key fixture_key) fixture_stream) 2 = Some (new_event_id (fixture_public_event "2")).
Proof.
  split; [|vm_compute; reflexivity].
  exact (proj1 (projection_cursor_stable fixture_store_codec fixture_store_codec_ok [Commit fixture_first]
    [Commit fixture_second] fixture_key _ fixture_cursor)).
Defined.

Lemma fixture_journal_loads :
  load_aggregate_journal (database after_first) fixture_journal =
  Ok (Some {| manifest := [Byte.x04]; records := [fixture_record 1] |}).
Proof. vm_compute. reflexivity. Qed.

Lemma journal_append_only_witness :
  ∃ j, load_aggregate_journal (database (store_run fixture_store_codec after_first [Commit fixture_second]))
         fixture_journal = Ok (Some j) ∧ manifest j = [Byte.x04] ∧ [fixture_record 1] `prefix_of` records j.
Proof.
  exact (proj1 (journal_append_only fixture_store_codec fixture_store_codec_ok [Commit fixture_first]
    [Commit fixture_second] fixture_journal _ fixture_journal_loads)).
Defined.

Lemma fixture_ops_ok : op_ok (Commit fixture_first) ∧ op_ok (Commit fixture_second).
Proof. split; repeat split; vm_compute; discriminate. Qed.

Lemma event_pending_until_published_witness :
  ∃ evs, pending_events fixture_store_codec (database (store_run fixture_store_codec after_first
      [Commit fixture_second; Publish (new_event_id (fixture_public_event "2"))])) = Ok evs ∧
    committed_event fixture_first (fixture_public_event "1") (Some 1) 1 ∈ evs.
Proof.
  destruct (event_pending_until_published fixture_store_codec fixture_store_codec_ok [] fixture_first after_first
    fixture_receipt [Commit fixture_second; Publish (new_event_id (fixture_public_event "2"))]
    (committed_event fixture_first (fixture_public_event "1") (Some 1) 1)) as (evs & H & He & _).
  - constructor.
  - constructor; [exact (proj2 fixture_ops_ok)|by constructor].
  - exact (proj1 fixture_ops_ok).
  - exact fixture_answer.
  - reflexivity.
  - by left.
  - intros H. repeat (apply elem_of_cons in H as [H|H]; [discriminate H|]). by apply not_elem_of_nil in H.
  - exists evs. exact (conj H He).
Defined.

Lemma fixture_heads :
  stream_heads (database after_first) =
  {[ head_of (stream_scope_key fixture_key) fixture_stream := (1, new_event_id (fixture_public_event "1")) ]}.
Proof. apply (bool_decide_eq_true_1 _). vm_compute. reflexivity. Qed.

Lemma fixture_fits : commit_fits fixture_store_codec (database after_first) fixture_second.
Proof.
  split; try (vm_compute; reflexivity).
  - constructor.
  - constructor; [vm_compute; reflexivity|constructor].
  - discriminate.
  - intros p [= <-]. split; [by eexists|]. eexists. split_and!; vm_compute; reflexivity.
  - discriminate.
  - constructor; [|constructor]. split; [|vm_compute; reflexivity]. intros H. vm_compute in H.
    by apply list_elem_of_singleton in H.
  - split; [vm_compute; discriminate|]. intros key. unfold head_position. rewrite fixture_heads.
    destruct (decide (head_of (stream_scope_key fixture_key) fixture_stream = key)) as [<-|Hne].
    + rewrite lookup_singleton_eq. vm_compute. discriminate.
    + rewrite lookup_singleton_ne by done. vm_compute. discriminate.
Qed.

Lemma commit_performed_witness :
  ∃ s r, sqlite_commit fixture_store_codec after_first fixture_second = (s, Ok r) ∧ idempotent_replay r = false.
Proof.
  destruct (commit_performed fixture_store_codec fixture_store_codec_ok [Commit fixture_first] fixture_second
    ltac:(vm_compute; reflexivity) ltac:(vm_compute; reflexivity) fixture_fits) as (s & r & H & Hr & _).
  exists s, r. exact (conj H Hr).
Defined.
