(* ===== verification/Instances.v ===== *)
(** * Control plane instances and command claims

    Models [crates/winwincode-storage/src/control_plane_instances.rs]: the ledger in which the
    instances of the control plane hold their leases and claim commands, so that a command is
    carried out by one instance although several share the database.  An instance is
    registered under a boot id and a generation, renews its lease, drains and is released or
    fenced; a claimed command is committed through the state store together with the deletion
    of its claim.  Times are milliseconds given by the caller; an error is its kind. *)

From Stdlib Require Import Ascii String.
From S2P Require Import Prelude Text Numerals Transaction StateKeys StateStore.
Local Open Scope Z_scope.

(** ** Identities, states and errors *)

Inductive ControlPlaneInstanceErrorKind : Type :=
| InvalidInput
| LeaseConflict
| OwnershipLost
| InstanceDraining
| CommandInFlight
| CommandFenced
| RequestConflict
| ReceiptMissing
| CorruptState
| Storage.

Abbreviation ledger A := (result ControlPlaneInstanceErrorKind A).

Definition MAX_ID_BYTES : Z := 96.

Definition validate_id (value prefix : string) : ledger () :=
  refuse ((str_len value <=? str_len prefix) || (MAX_ID_BYTES <? str_len value) ||
          negb (starts_with prefix value) ||
          negb (all_bytes (λ c, is_ascii_alphanumeric c || one_of "_-" c) value)) InvalidInput.

Record ControlPlaneInstanceIdentity : Type := { instance_id : string; boot_id : string }.

#[global] Instance ControlPlaneInstanceIdentity_eq_dec : EqDecision ControlPlaneInstanceIdentity.
Proof. solve_decision. Defined.

(** [ControlPlaneInstanceIdentity::try_new]. *)
Definition instance_identity (instance boot : string) : ledger ControlPlaneInstanceIdentity :=
  validate_id instance "cpi_" ;;
  validate_id boot "cpb_" ;;
  Ok {| instance_id := instance; boot_id := boot |}.

Record ControlPlaneInstanceAuthority : Type := {
  authority_identity : ControlPlaneInstanceIdentity;
  generation : Z
}.

#[global] Instance ControlPlaneInstanceAuthority_eq_dec : EqDecision ControlPlaneInstanceAuthority.
Proof. solve_decision. Defined.

Inductive ControlPlaneInstanceState : Type := Active | Draining | Fenced | Closed.

#[global] Instance ControlPlaneInstanceState_eq_dec : EqDecision ControlPlaneInstanceState.
Proof. solve_decision. Defined.

(** The texts of the states in the database, and [ControlPlaneInstanceState::parse]. *)
Definition state_text (st : ControlPlaneInstanceState) : string :=
  match st with Active => "active" | Draining => "draining" | Fenced => "fenced" | Closed => "closed" end.

Definition parse_state (value : string) : ledger ControlPlaneInstanceState :=
  if bool_decide (value = "active"%string) then Ok Active
  else if bool_decide (value = "draining"%string) then Ok Draining
  else if bool_decide (value = "fenced"%string) then Ok Fenced
  else if bool_decide (value = "closed"%string) then Ok Closed
  else Err CorruptState.

(** [matches!(state, Active | Draining)]. *)
Definition open_state (st : ControlPlaneInstanceState) : bool :=
  match st with Active | Draining => true | Fenced | Closed => false end.

Record ControlPlaneInstanceHealth : Type := {
  health_authority : ControlPlaneInstanceAuthority;
  health_state : ControlPlaneInstanceState;
  health_lease_expires_at : Z;
  health_drain_deadline_at : option Z;
  lease_valid : bool;
  accepting_new_work : bool;
  in_flight : Z;
  confirmed_state_sequence : Z;
  confirmed_digest : string
}.

Definition drained (h : ControlPlaneInstanceHealth) : bool :=
  bool_decide (health_state h = Draining) && (in_flight h =? 0).

Record ControlPlaneCommandClaim : Type := {
  claim_receipt_identity : ReceiptIdentity;
  claim_digest : string;
  claim_authority : ControlPlaneInstanceAuthority;
  claim_fence : Z;
  claim_replay : bool
}.

Record ControlPlaneCommittedCommand : Type := {
  command_receipt_identity : ReceiptIdentity;
  committed_command_digest : string;
  command_stream_id : string;
  command_revision : Z;
  receipt_sequence : Z
}.

Inductive ControlPlaneCommandAdmission : Type :=
| Claimed (claim : ControlPlaneCommandClaim)
| Committed (command : ControlPlaneCommittedCommand).

(** ** Numbers, times and digests *)

Definition sql_integer (z : Z) : ledger Z := refuse (i64_max <? z) InvalidInput ;; Ok z.

Definition from_sql_integer (z : Z) : ledger Z :=
  refuse (z <? 0) CorruptState ;; refuse (max_safe_integer <? z) CorruptState ;; Ok z.

Definition checked_increment (z : Z) : ledger Z :=
  z ← ok_or (checked_add_u64 z 1) CorruptState;
  refuse (max_safe_integer <? z) CorruptState ;; Ok z.

Definition validate_time (value : Z) : ledger () := refuse (max_safe_integer <? value) InvalidInput.

Definition validate_time_range (start last : Z) : ledger () :=
  validate_time start ;; validate_time last ;; refuse (last <=? start) InvalidInput.

Definition canonical_digest (value : string) : bool :=
  match strip_prefix "sha256:" value with
  | Some hex => (str_len hex =? 64) && all_bytes is_hex_lower hex
  | None => false
  end.

Definition validate_digest (digest : string) : ledger () := refuse (negb (canonical_digest digest)) InvalidInput.
Definition validate_digest_text (value : string) : ledger () := refuse (negb (canonical_digest value)) CorruptState.

Definition ensure_digest (stored supplied : string) : ledger () :=
  refuse (bool_decide (stored ≠ supplied)) RequestConflict.

(** ** Tables *)

Abbreviation ledger_tx A := (tx Database ControlPlaneInstanceErrorKind A).

Definition empty_tables : ControlPlaneTables := {| instances := ∅; command_claims := ∅ |}.

(** The ledger exists only after [new], which creates the tables. *)
Definition tables (db : Database) : ControlPlaneTables := default empty_tables (control_plane db).

Definition set_instances (db : Database) (t : gmap string InstanceRow) : Database :=
  set_control_plane db (Some {| instances := t; command_claims := command_claims (tables db) |}).

Definition set_claims (db : Database) (t : gmap ReceiptIdentity ClaimRow) : Database :=
  set_control_plane db (Some {| instances := instances (tables db); command_claims := t |}).

(** The [CHECK] constraints of [control_plane_instances], and its unique boot ids. *)
Definition instance_checks (r : InstanceRow) : bool :=
  (0 <? row_generation r) && existsb (λ st, bool_decide (row_state r = state_text st)) [Active; Draining; Fenced; Closed] &&
  (0 <=? row_started_at r) && (row_started_at r <=? row_renewed_at r) &&
  (row_renewed_at r <? row_lease_expires_at r) &&
  match row_drain_deadline_at r with Some d => row_renewed_at r <=? d | None => true end.

Definition boot_taken (db : Database) (i : string) (r : InstanceRow) : bool :=
  existsb (λ '(j, x), negb (bool_decide (j = i)) && bool_decide (row_boot_id x = row_boot_id r))
    (map_to_list (instances (tables db))).

(** A constraint violation is answered with [violation]. *)
Definition insert_instance (i : string) (r : InstanceRow) (violation : ControlPlaneInstanceErrorKind) :
    ledger_tx () :=
  execute (λ db,
    refuse (bool_decide (is_Some (instances (tables db) !! i)) || negb (instance_checks r) || boot_taken db i r)
      violation ;;
    Ok (tt, set_instances db (<[i := r]> (instances (tables db))))).

(** [UPDATE control_plane_instances SET ... WHERE instance_id = i AND ...]: the number of rows. *)
Definition update_instance (i : string) (selected : InstanceRow → bool) (f : InstanceRow → InstanceRow)
    (violation : ControlPlaneInstanceErrorKind) : ledger_tx Z :=
  execute (λ db,
    match instances (tables db) !! i with
    | Some r =>
        if selected r then
          refuse (negb (instance_checks (f r)) || boot_taken db i (f r)) violation ;;
          Ok (1, set_instances db (<[i := f r]> (instances (tables db))))
        else Ok (0, db)
    | None => Ok (0, db)
    end).

(** [WHERE instance_id = ? AND boot_id = ? AND generation = ?]. *)
Definition owned_by (a : ControlPlaneInstanceAuthority) (r : InstanceRow) : bool :=
  bool_decide (row_boot_id r = boot_id (authority_identity a)) && (row_generation r =? generation a).

(** The columns of an [UPDATE]. *)
Definition with_lease (r : InstanceRow) (renewed expires : Z) : InstanceRow :=
  {| row_boot_id := row_boot_id r; row_generation := row_generation r; row_state := row_state r;
     row_started_at := row_started_at r; row_renewed_at := renewed; row_lease_expires_at := expires;
     row_drain_deadline_at := row_drain_deadline_at r |}.

Definition row_in_state (st : ControlPlaneInstanceState) (deadline : option Z) (r : InstanceRow) : InstanceRow :=
  {| row_boot_id := row_boot_id r; row_generation := row_generation r; row_state := state_text st;
     row_started_at := row_started_at r; row_renewed_at := row_renewed_at r;
     row_lease_expires_at := row_lease_expires_at r; row_drain_deadline_at := deadline |}.

Definition active_row (boot : string) (g now expires : Z) : InstanceRow :=
  {| row_boot_id := boot; row_generation := g; row_state := state_text Active; row_started_at := now;
     row_renewed_at := now; row_lease_expires_at := expires; row_drain_deadline_at := None |}.

(** ** Reads *)

Record StoredInstance : Type := {
  stored_boot_id : string;
  stored_generation : Z;
  stored_instance_state : ControlPlaneInstanceState;
  stored_lease_expires_at : Z;
  stored_drain_deadline_at : option Z
}.

Definition read_instance (r : InstanceRow) : ledger StoredInstance :=
  g ← from_sql_integer (row_generation r);
  st ← parse_state (row_state r);
  expires ← from_sql_integer (row_lease_expires_at r);
  deadline ← match row_drain_deadline_at r with
             | Some d => Some <$> from_sql_integer d
             | None => Ok None
             end;
  Ok {| stored_boot_id := row_boot_id r; stored_generation := g; stored_instance_state := st;
        stored_lease_expires_at := expires; stored_drain_deadline_at := deadline |}.

Definition load_instance (db : Database) (i : string) : ledger (option StoredInstance) :=
  match instances (tables db) !! i with
  | Some r => Some <$> read_instance r
  | None => Ok None
  end.

Definition require_authority (db : Database) (a : ControlPlaneInstanceAuthority) : ledger StoredInstance :=
  current ← load_instance db (instance_id (authority_identity a));
  current ← ok_or current OwnershipLost;
  refuse (bool_decide (stored_boot_id current ≠ boot_id (authority_identity a)) ||
          negb (stored_generation current =? generation a)) OwnershipLost ;;
  Ok current.

Definition require_live (current : StoredInstance) (now : Z) : ledger () :=
  refuse ((stored_lease_expires_at current <=? now) || negb (open_state (stored_instance_state current)))
    OwnershipLost.

Definition require_accepting (current : StoredInstance) (now : Z) : ledger () :=
  require_live current now ;;
  refuse (bool_decide (stored_instance_state current = Draining)) InstanceDraining.

Definition count_claims (db : Database) (a : ControlPlaneInstanceAuthority) : ledger Z :=
  g ← sql_integer (generation a);
  from_sql_integer (Z.of_nat (length (filter (λ '(_, r),
    row_claim_instance_id r = instance_id (authority_identity a) ∧
    row_claim_boot_id r = boot_id (authority_identity a) ∧ row_claim_generation r = g)
    (map_to_list (command_claims (tables db)))))).

Record StoredClaim : Type := {
  stored_claim_digest : string;
  stored_claim_instance_id : string;
  stored_claim_boot_id : string;
  stored_claim_generation : Z;
  stored_claim_fence : Z
}.

Definition matches_authority (c : StoredClaim) (a : ControlPlaneInstanceAuthority) : bool :=
  bool_decide (stored_claim_instance_id c = instance_id (authority_identity a)) &&
  bool_decide (stored_claim_boot_id c = boot_id (authority_identity a)) &&
  (stored_claim_generation c =? generation a).

Definition matches_claim (c : StoredClaim) (claim : ControlPlaneCommandClaim) : bool :=
  matches_authority c (claim_authority claim) && (stored_claim_fence c =? claim_fence claim) &&
  bool_decide (stored_claim_digest c = claim_digest claim).

(** [StoredClaim::into_public]. *)
Definition into_public (c : StoredClaim) (i : ReceiptIdentity) (replay : bool) : ledger ControlPlaneCommandClaim :=
  identity ← instance_identity (stored_claim_instance_id c) (stored_claim_boot_id c);
  Ok {| claim_receipt_identity := i; claim_digest := stored_claim_digest c;
        claim_authority := {| authority_identity := identity; generation := stored_claim_generation c |};
        claim_fence := stored_claim_fence c; claim_replay := replay |}.

Definition load_claim (db : Database) (i : ReceiptIdentity) : ledger (option StoredClaim) :=
  match command_claims (tables db) !! i with
  | Some r =>
      validate_digest_text (row_claim_digest r) ;;
      _ ← instance_identity (row_claim_instance_id r) (row_claim_boot_id r);
      g ← from_sql_integer (row_claim_generation r);
      fence ← from_sql_integer (row_claim_fence r);
      Ok (Some {| stored_claim_digest := row_claim_digest r; stored_claim_instance_id := row_claim_instance_id r;
                  stored_claim_boot_id := row_claim_boot_id r; stored_claim_generation := g;
                  stored_claim_fence := fence |})
  | None => Ok None
  end.

Definition load_committed (db : Database) (i : ReceiptIdentity) : ledger (option ControlPlaneCommittedCommand) :=
  match command_receipts db !! i with
  | Some r =>
      validate_digest_text (receipt_digest r) ;;
      revision ← from_sql_integer (receipt_revision r);
      sequence ← from_sql_integer (receipt_rowid r);
      Ok (Some {| command_receipt_identity := i; committed_command_digest := receipt_digest r;
                  command_stream_id := receipt_stream_id r; command_revision := revision;
                  receipt_sequence := sequence |})
  | None => Ok None
  end.

(** ** Claims *)

(** The foreign key and the [CHECK]s of [control_plane_command_claims]. *)
Definition claim_checks (db : Database) (r : ClaimRow) : bool :=
  bool_decide (is_Some (instances (tables db) !! row_claim_instance_id r)) &&
  (0 <? row_claim_generation r) && (0 <? row_claim_fence r) && (0 <=? row_admitted_at r).

Definition claim_row (a : ControlPlaneInstanceAuthority) (digest : string) (g fence now : Z) : ClaimRow :=
  {| row_claim_digest := digest; row_claim_instance_id := instance_id (authority_identity a);
     row_claim_boot_id := boot_id (authority_identity a); row_claim_generation := g;
     row_claim_fence := fence; row_admitted_at := now |}.

Definition insert_claim (a : ControlPlaneInstanceAuthority) (now : Z) (i : ReceiptIdentity) (digest : string) :
    ledger_tx ControlPlaneCommandClaim :=
  g ← lift (sql_integer (generation a));
  now ← lift (sql_integer now);
  execute (λ db,
    let r := claim_row a digest g 1 now in
    refuse (bool_decide (is_Some (command_claims (tables db) !! i)) || negb (claim_checks db r)) Storage ;;
    Ok (tt, set_claims db (<[i := r]> (command_claims (tables db))))) ;;
  mret {| claim_receipt_identity := i; claim_digest := digest; claim_authority := a; claim_fence := 1;
          claim_replay := false |}.

(** The claim of [i] as a [WHERE] clause selects it. *)
Definition claim_selected (instance boot : string) (g fence : Z) (r : ClaimRow) : bool :=
  bool_decide (row_claim_instance_id r = instance) && bool_decide (row_claim_boot_id r = boot) &&
  (row_claim_generation r =? g) && (row_claim_fence r =? fence).

Definition takeover_claim (a : ControlPlaneInstanceAuthority) (now : Z) (i : ReceiptIdentity)
    (existing : StoredClaim) : ledger_tx ControlPlaneCommandClaim :=
  fence ← lift (checked_increment (stored_claim_fence existing));
  g ← lift (sql_integer (generation a));
  new_fence ← lift (sql_integer fence);
  now ← lift (sql_integer now);
  old_generation ← lift (sql_integer (stored_claim_generation existing));
  old_fence ← lift (sql_integer (stored_claim_fence existing));
  updated ← execute (λ db,
    match command_claims (tables db) !! i with
    | Some r =>
        if claim_selected (stored_claim_instance_id existing) (stored_claim_boot_id existing) old_generation old_fence r then
          let r' := claim_row a (row_claim_digest r) g new_fence now in
          refuse (negb (claim_checks db r')) Storage ;;
          Ok (1, set_claims db (<[i := r']> (command_claims (tables db))))
        else Ok (0, db)
    | None => Ok (0, db)
    end);
  lift (refuse (negb (updated =? 1)) CommandInFlight) ;;
  mret {| claim_receipt_identity := i; claim_digest := stored_claim_digest existing; claim_authority := a;
          claim_fence := fence; claim_replay := false |}.

(** [DELETE FROM control_plane_command_claims WHERE ...]: the number of rows. *)
Definition delete_claim (claim : ControlPlaneCommandClaim) (g fence : Z) : ledger_tx Z :=
  execute (λ db,
    match command_claims (tables db) !! claim_receipt_identity claim with
    | Some r =>
        if claim_selected (instance_id (authority_identity (claim_authority claim)))
             (boot_id (authority_identity (claim_authority claim))) g fence r
        then Ok (1, set_claims db (delete (claim_receipt_identity claim) (command_claims (tables db))))
        else Ok (0, db)
    | None => Ok (0, db)
    end).

(** ** The ledger *)

Section ledger.
Context (codec : EventCodec).

Definition confirmed_state_digest (sequence : Z) : string :=
  "sha256:" +:+ sha256_hex codec
    (list_byte_of_string ("winwincode.control-plane-confirmed-state.v1" +:+ String Ascii.zero "" +:+ to_be_bytes 8 sequence)).

Definition load_health (db : Database) (a : ControlPlaneInstanceAuthority) (now : Z) :
    ledger ControlPlaneInstanceHealth :=
  current ← require_authority db a;
  n ← count_claims db a;
  sequence ← from_sql_integer (last_receipt_rowid db);
  let valid := (now <? stored_lease_expires_at current) && open_state (stored_instance_state current) in
  Ok {| health_authority := a; health_state := stored_instance_state current;
        health_lease_expires_at := stored_lease_expires_at current;
        health_drain_deadline_at := stored_drain_deadline_at current; lease_valid := valid;
        accepting_new_work := valid && bool_decide (stored_instance_state current = Active);
        in_flight := n; confirmed_state_sequence := sequence;
        confirmed_digest := confirmed_state_digest sequence |}.

Abbreviation operation A := (act SqliteStorage ControlPlaneInstanceErrorKind A).

(** [ControlPlaneInstanceLedger::new]; a table that exists is not created, so that a
    read-only database is no error then. *)
Definition ledger_new : operation () := λ s,
  match control_plane (database s) with
  | Some _ => (s, Ok tt)
  | None =>
      if read_only s then (s, Err Storage)
      else (set_database s (set_control_plane (database s) (Some empty_tables)), Ok tt)
  end.

(** One transaction of the ledger. *)
Definition ledger_transact {A} (m : ledger_tx A) : operation A := λ s,
  match connection_mut s with
  | Ok db => let '(db, r) := commit db m in (set_database s db, r)
  | Err _ => (s, Err Storage)
  end.

Definition register (i : ControlPlaneInstanceIdentity) (now expires : Z) : operation ControlPlaneInstanceAuthority :=
  attempt (validate_time_range now expires) ;;
  ledger_transact (
    current ← query (λ db, load_instance db (instance_id i));
    match current with
    | None =>
        now ← lift (sql_integer now);
        expires ← lift (sql_integer expires);
        insert_instance (instance_id i) (active_row (boot_id i) 1 now expires) LeaseConflict ;;
        mret {| authority_identity := i; generation := 1 |}
    | Some current =>
        let same := bool_decide (stored_boot_id current = boot_id i) in
        if same && (now <? stored_lease_expires_at current) && open_state (stored_instance_state current) then
          mret {| authority_identity := i; generation := stored_generation current |}
        else if same then lift (Err OwnershipLost)
        else if (stored_lease_expires_at current <=? now) || negb (open_state (stored_instance_state current)) then
          g ← lift (checked_increment (stored_generation current));
          new_generation ← lift (sql_integer g);
          now ← lift (sql_integer now);
          expires ← lift (sql_integer expires);
          old_generation ← lift (sql_integer (stored_generation current));
          updated ← update_instance (instance_id i) (λ r, row_generation r =? old_generation)
                      (λ _, active_row (boot_id i) new_generation now expires) LeaseConflict;
          lift (refuse (negb (updated =? 1)) LeaseConflict) ;;
          mret {| authority_identity := i; generation := g |}
        else lift (Err LeaseConflict)
    end).

Definition renew (a : ControlPlaneInstanceAuthority) (now expires : Z) : operation ControlPlaneInstanceHealth :=
  attempt (validate_time_range now expires) ;;
  ledger_transact (
    current ← query (λ db, require_authority db a);
    lift (require_live current now) ;;
    if expires =? stored_lease_expires_at current then query (λ db, load_health db a now)
    else
      lift (refuse (expires <? stored_lease_expires_at current) InvalidInput) ;;
      renewed ← lift (sql_integer now);
      expires ← lift (sql_integer expires);
      _ ← lift (sql_integer (generation a));
      _ ← update_instance (instance_id (authority_identity a)) (owned_by a)
            (λ r, with_lease r renewed expires) Storage;
      query (λ db, load_health db a now)).

Definition preflight (s : SqliteStorage) (a : ControlPlaneInstanceAuthority) (now : Z) :
    ledger ControlPlaneInstanceHealth :=
  validate_time now ;; load_health (database s) a now.

Definition request_drain (a : ControlPlaneInstanceAuthority) (now deadline : Z) :
    operation ControlPlaneInstanceHealth :=
  attempt (validate_time_range now deadline) ;;
  ledger_transact (
    current ← query (λ db, require_authority db a);
    lift (require_live current now) ;;
    match stored_instance_state current with
    | Active =>
        deadline ← lift (sql_integer deadline);
        _ ← lift (sql_integer (generation a));
        _ ← update_instance (instance_id (authority_identity a)) (owned_by a) (row_in_state Draining (Some deadline)) Storage;
        mret tt
    | Draining => mret tt
    | Fenced | Closed => lift (Err OwnershipLost)
    end ;;
    query (λ db, load_health db a now)).

Definition resume (a : ControlPlaneInstanceAuthority) (now : Z) : operation ControlPlaneInstanceHealth :=
  attempt (validate_time now) ;;
  ledger_transact (
    current ← query (λ db, require_authority db a);
    lift (require_live current now) ;;
    if bool_decide (stored_instance_state current = Active) then query (λ db, load_health db a now)
    else
      lift (refuse (bool_decide (stored_instance_state current ≠ Draining)) LeaseConflict) ;;
      _ ← lift (sql_integer (generation a));
      _ ← update_instance (instance_id (authority_identity a)) (owned_by a) (row_in_state Active None) Storage;
      query (λ db, load_health db a now)).

Definition release (a : ControlPlaneInstanceAuthority) (now : Z) : operation ControlPlaneInstanceHealth :=
  attempt (validate_time now) ;;
  ledger_transact (
    current ← query (λ db, require_authority db a);
    if bool_decide (stored_instance_state current = Closed) then query (λ db, load_health db a now)
    else
      lift (require_live current now) ;;
      lift (refuse (bool_decide (stored_instance_state current ≠ Draining)) LeaseConflict) ;;
      n ← query (λ db, count_claims db a);
      lift (refuse (negb (n =? 0)) CommandInFlight) ;;
      _ ← lift (sql_integer (generation a));
      _ ← update_instance (instance_id (authority_identity a)) (owned_by a)
            (λ r, row_in_state Closed (row_drain_deadline_at r) r) Storage;
      query (λ db, load_health db a now)).

Definition fence_expired (i : string) (now : Z) : operation ControlPlaneInstanceHealth :=
  attempt (validate_id i "cpi_") ;;
  attempt (validate_time now) ;;
  ledger_transact (
    current ← query (λ db, load_instance db i);
    current ← lift (ok_or current OwnershipLost);
    lift (refuse ((now <? stored_lease_expires_at current) && open_state (stored_instance_state current)) LeaseConflict) ;;
    (if bool_decide (stored_instance_state current ≠ Closed) then
       g ← lift (sql_integer (stored_generation current));
       _ ← update_instance i (λ r, row_generation r =? g)
             (λ r, row_in_state Fenced (row_drain_deadline_at r) r) Storage;
       mret tt
     else mret tt) ;;
    let a := {| authority_identity := {| instance_id := i; boot_id := stored_boot_id current |};
                generation := stored_generation current |} in
    query (λ db, load_health db a now)).

(** The owner of a claim still holds its lease. *)
Definition owner_is_live (owner : StoredInstance) (existing : StoredClaim) (now : Z) : bool :=
  bool_decide (stored_boot_id owner = stored_claim_boot_id existing) &&
  (stored_generation owner =? stored_claim_generation existing) &&
  (now <? stored_lease_expires_at owner) && open_state (stored_instance_state owner).

Definition admit_command (a : ControlPlaneInstanceAuthority) (now : Z) (i : ReceiptIdentity) (digest : string) :
    operation ControlPlaneCommandAdmission :=
  attempt (validate_time now) ;;
  attempt (validate_digest digest) ;;
  ledger_transact (
    current ← query (λ db, require_authority db a);
    lift (require_accepting current now) ;;
    committed ← query (λ db, load_committed db i);
    match committed with
    | Some committed =>
        lift (ensure_digest (committed_command_digest committed) digest) ;;
        mret (Committed committed)
    | None =>
        existing ← query (λ db, load_claim db i);
        claim ← match existing with
                | None => insert_claim a now i digest
                | Some existing =>
                    lift (ensure_digest (stored_claim_digest existing) digest) ;;
                    if matches_authority existing a then lift (into_public existing i true)
                    else
                      owner ← query (λ db, load_instance db (stored_claim_instance_id existing));
                      owner ← lift (ok_or owner CorruptState);
                      lift (refuse (owner_is_live owner existing now) CommandInFlight) ;;
                      takeover_claim a now i existing
                end;
        mret (Claimed claim)
    end).

Definition commit_claimed (claim : ControlPlaneCommandClaim) (now : Z) (c : StateCommit) : operation CommitReceipt :=
  attempt (validate_time now) ;;
  attempt (map_err (λ _, Storage) (validate_commit c)) ;;
  attempt (refuse (bool_decide (commit_identity c ≠ claim_receipt_identity claim) ||
                   bool_decide (command_digest c ≠ claim_digest claim)) RequestConflict) ;;
  ledger_transact (
    current ← query (λ db, require_authority db (claim_authority claim));
    lift (require_live current now) ;;
    stored ← query (λ db, load_claim db (claim_receipt_identity claim));
    stored ← lift (ok_or stored CommandFenced);
    lift (refuse (negb (matches_claim stored claim)) CommandFenced) ;;
    receipt ← (λ db, map_err (λ _, Storage) (commit_claimed_in_transaction codec c db));
    g ← lift (sql_integer (generation (claim_authority claim)));
    fence ← lift (sql_integer (claim_fence claim));
    deleted ← delete_claim claim g fence;
    lift (refuse (negb (deleted =? 1)) CommandFenced) ;;
    mret receipt).
End ledger.
