(* ===== verification/InstanceFacts.v ===== *)
(** * Control plane instances: what the operations do

    Lemmas on [Instances]: the rows behind what the ledger reads, and the effect of each
    operation on the database, which is one of a few kinds ([ledger_effect]). *)

From Stdlib Require Import Ascii String.
From S2P Require Import Prelude Text Numerals Transaction StateKeys StateStore StateFacts StateInvariant StateRuns Instances.
Local Open Scope Z_scope.

#[local] Arguments instance_checks : simpl never.

(** ** Operations *)

Lemma attempt_then_Ok {St E B} (r : result E ()) (k : act St E B) s s' b :
  (attempt r ;; k) s = (s', Ok b) → r = Ok tt ∧ k s = (s', Ok b).
Proof. unfold mbind, act_bind, attempt. destruct r as [[]|]; [done|by intros [=]]. Qed.

Lemma attempt_then_Err {St E B} (r : result E ()) (k : act St E B) s s' e :
  (attempt r ;; k) s = (s', Err e) → s' = s ∨ k s = (s', Err e).
Proof. unfold mbind, act_bind, attempt. destruct r as [[]|]; [by right|intros [= <- ?]; by left]. Qed.

Lemma ledger_transact_run {A} (m : ledger_tx A) s :
  read_only s = false → ledger_transact m s = let '(db, r) := commit (database s) m in (set_database s db, r).
Proof. unfold ledger_transact, connection_mut. by intros ->. Qed.

Lemma ledger_transact_Ok {A} (m : ledger_tx A) s s' a :
  ledger_transact m s = (s', Ok a) →
  read_only s = false ∧ m (database s) = Ok (a, database s') ∧ s' = set_database s (database s').
Proof.
  unfold ledger_transact, connection_mut. destruct (read_only s) eqn:E; cbn; [by intros [= <- ?]|].
  destruct (commit (database s) m) as [db r] eqn:Ec. intros [= <- ->]. by apply commit_Ok in Ec.
Qed.

Lemma ledger_transact_Err {A} (m : ledger_tx A) s s' e : ledger_transact m s = (s', Err e) → s' = s.
Proof.
  unfold ledger_transact, connection_mut. destruct (read_only s) eqn:E; cbn; [by intros [= <- ?]|].
  destruct (commit (database s) m) as [db r] eqn:Ec. intros [= <- ->].
  apply commit_Err in Ec as [_ ->]. by destruct s.
Qed.

(** ** Reads *)

Lemma from_sql_integer_Ok z n : from_sql_integer z = Ok n ↔ 0 ≤ z ≤ max_safe_integer ∧ n = z.
Proof.
  unfold from_sql_integer. rewrite bind_Ok. setoid_rewrite bind_Ok. setoid_rewrite refuse_Ok. split; [naive_solver lia|].
  intros [? ->]. exists tt. split; [lia|]. exists tt. split; [lia|done].
Qed.

Lemma sql_integer_Ok z n : sql_integer z = Ok n ↔ z ≤ i64_max ∧ n = z.
Proof.
  unfold sql_integer. rewrite bind_Ok. setoid_rewrite refuse_Ok. split; [naive_solver lia|].
  intros [? ->]. exists tt. split; [lia|done].
Qed.

Lemma checked_increment_Ok z n : checked_increment z = Ok n ↔ z + 1 ≤ max_safe_integer ∧ n = z + 1.
Proof.
  unfold checked_increment. rewrite bind_Ok. setoid_rewrite bind_Ok. setoid_rewrite refuse_Ok. setoid_rewrite ok_or_Ok.
  setoid_rewrite checked_add_u64_Some. split; [naive_solver lia|]. intros [? ->]. exists (z + 1).
  assert (max_safe_integer < u64_max) by done. split; [lia|]. exists tt. split; [lia|done].
Qed.

Lemma parse_state_Ok text st : parse_state text = Ok st ↔ text = state_text st.
Proof.
  unfold parse_state. split.
  - repeat case_bool_decide; intros [= <-]; done.
  - intros ->. by destruct st.
Qed.

Lemma state_text_inj st st' : state_text st = state_text st' → st = st'.
Proof. by destruct st, st'. Qed.

(** The numbers of a row that can be read. *)
Definition row_bounds (r : InstanceRow) : Prop :=
  0 ≤ row_generation r ≤ max_safe_integer ∧ 0 ≤ row_lease_expires_at r ≤ max_safe_integer ∧
  ∀ d, row_drain_deadline_at r = Some d → 0 ≤ d ≤ max_safe_integer.

Lemma read_instance_Ok r x :
  read_instance r = Ok x ↔
  row_bounds r ∧ stored_boot_id x = row_boot_id r ∧ stored_generation x = row_generation r ∧
  row_state r = state_text (stored_instance_state x) ∧ stored_lease_expires_at x = row_lease_expires_at r ∧
  stored_drain_deadline_at x = row_drain_deadline_at r.
Proof.
  unfold read_instance, row_bounds. split.
  - intros H. inv_result. cbn.
    repeat match goal with
    | H : from_sql_integer _ = _ |- _ => apply from_sql_integer_Ok in H as [? ->]
    | H : parse_state _ = _ |- _ => apply parse_state_Ok in H
    end.
    destruct (row_drain_deadline_at r) as [d|]; [|inv_result; split_and!; done || lia].
    destruct (from_sql_integer d) as [d0|] eqn:E; [|done]. apply from_sql_integer_Ok in E as [? ->]. cbn in *. inv_result.
    split_and!; try done; try lia; intros ? [= <-]; lia.
  - intros ((Hg & He & Hd) & H1 & H2 & H3 & H4 & H5).
    rewrite (proj2 (from_sql_integer_Ok _ _) (conj Hg eq_refl)). cbn [mbind result_bind].
    rewrite (proj2 (parse_state_Ok _ _) H3). cbn [mbind result_bind].
    rewrite (proj2 (from_sql_integer_Ok _ _) (conj He eq_refl)). cbn [mbind result_bind].
    enough (match row_drain_deadline_at r with Some d => Some <$> from_sql_integer d | None => Ok None end =
      Ok (row_drain_deadline_at r)) as -> by (destruct x; cbn in *; by subst).
    destruct (row_drain_deadline_at r) as [d|]; [|done]. by rewrite (proj2 (from_sql_integer_Ok d d)) by auto.
Qed.

Lemma load_instance_Ok db i x :
  load_instance db i = Ok (Some x) ↔ ∃ r, instances (tables db) !! i = Some r ∧ read_instance r = Ok x.
Proof.
  unfold load_instance. destruct (instances (tables db) !! i) as [r|]; [|naive_solver]. split.
  - destruct (read_instance r) eqn:E; [|done]. intros [= <-]. by exists r.
  - by intros (? & [= <-] & ->).
Qed.

Lemma load_instance_None db i : load_instance db i = Ok None ↔ instances (tables db) !! i = None.
Proof.
  unfold load_instance. destruct (instances (tables db) !! i) as [r|]; [|done]. by destruct (read_instance r).
Qed.

Lemma require_authority_Ok db a x :
  require_authority db a = Ok x ↔
  ∃ r, instances (tables db) !! instance_id (authority_identity a) = Some r ∧ read_instance r = Ok x ∧ owned_by a r = true.
Proof.
  unfold require_authority. split.
  - intros H. inv_result. match goal with H : load_instance _ _ = _ |- _ => apply load_instance_Ok in H as (r & Hrow & Hread) end.
    exists r. split_and!; [done..|]. apply read_instance_Ok in Hread as (_ & Hb & Hg & _). split_bools. unfold owned_by.
    rewrite bool_decide_eq_true_2 by congruence. cbn. lia.
  - intros (r & Hrow & Hread & Ho). rewrite (proj2 (load_instance_Ok _ _ _) (ex_intro _ r (conj Hrow Hread))).
    cbn [mbind result_bind ok_or]. apply read_instance_Ok in Hread as (_ & Hb & Hg & _).
    unfold owned_by in Ho. split_bools. rewrite refuse_run; [done|]. rewrite Hb, Hg. apply orb_false_iff.
    split; [|lia]. apply bool_decide_eq_false. intros Hne. by apply Hne.
Qed.

Lemma require_live_Ok x now :
  require_live x now = Ok tt ↔ now < stored_lease_expires_at x ∧ open_state (stored_instance_state x) = true.
Proof. unfold require_live. rewrite refuse_Ok, orb_false_iff, negb_false_iff. naive_solver lia. Qed.

Lemma load_claim_Ok db i x :
  load_claim db i = Ok (Some x) →
  ∃ r, command_claims (tables db) !! i = Some r ∧ stored_claim_digest x = row_claim_digest r ∧
    stored_claim_instance_id x = row_claim_instance_id r ∧ stored_claim_boot_id x = row_claim_boot_id r ∧
    stored_claim_generation x = row_claim_generation r ∧ stored_claim_fence x = row_claim_fence r ∧
    canonical_digest (row_claim_digest r) = true ∧ 0 ≤ row_claim_fence r ≤ max_safe_integer.
Proof.
  unfold load_claim. destruct (command_claims (tables db) !! i) as [r|]; [|done]. intros H. inv_result.
  repeat match goal with H : from_sql_integer _ = _ |- _ => apply from_sql_integer_Ok in H as [? ->] end.
  unfold validate_digest_text in *. inv_result. split_bools. exists r. split_and!; done || lia.
Qed.

Lemma load_claim_None db i : load_claim db i = Ok None ↔ command_claims (tables db) !! i = None.
Proof.
  unfold load_claim. destruct (command_claims (tables db) !! i) as [r|]; [|done]. split; [|done]. intros H. inv_result.
Qed.

Lemma load_committed_None db i : load_committed db i = Ok None ↔ command_receipts db !! i = None.
Proof.
  unfold load_committed. destruct (command_receipts db !! i) as [r|]; [|done]. split; [|done]. intros H. inv_result.
Qed.

(** ** Effects *)

Definition final (r : InstanceRow) : Prop := row_state r = state_text Fenced ∨ row_state r = state_text Closed.

(** No claim of the instance is in flight. *)
Definition idle (db : Database) (i : string) (r : InstanceRow) : Prop :=
  ∀ j x, command_claims (tables db) !! j = Some x → row_claim_instance_id x = i →
    row_claim_boot_id x = row_boot_id r → row_claim_generation x ≠ row_generation r.

(** A change of an instance at the time [now]: a renewal or a change of state keeps boot and
    generation, does not shorten the lease and does not reopen a fenced or closed instance; an
    instance is fenced when its lease expired and closed when it is idle; a takeover of an
    instance without a lease starts the next generation. *)
Record row_step (db : Database) (now : Z) (i : string) (old : option InstanceRow) (new : InstanceRow) : Prop := {
  rs_checks : instance_checks new = true;
  rs_bounds : row_bounds new;
  rs_generation :
    match old with
    | None => row_generation new = 1
    | Some r =>
        row_generation new = row_generation r + 1 ∧ (row_lease_expires_at r ≤ now ∨ final r) ∨
        row_generation new = row_generation r ∧ row_boot_id new = row_boot_id r ∧ (final r → row_state new = row_state r) ∧
        row_lease_expires_at r ≤ row_lease_expires_at new ∧
        (final new → final r ∨ row_lease_expires_at r ≤ now ∨ idle db i r)
    end
}.

(** The instance that holds a claim, live at the time [now]. *)
Definition holds (db : Database) (r : ClaimRow) (now : Z) : Prop :=
  ∃ o, instances (tables db) !! row_claim_instance_id r = Some o ∧ row_boot_id o = row_claim_boot_id r ∧
    row_generation o = row_claim_generation r ∧ ¬ final o ∧ now < row_lease_expires_at o.

(** A claim is new, or takes over the one before under the next fence. *)
Record claim_step (db : Database) (i : ReceiptIdentity) (r : ClaimRow) : Prop := {
  cs_checks : claim_checks db r = true;
  cs_receipt : command_receipts db !! i = None;
  cs_digest : canonical_digest (row_claim_digest r) = true;
  cs_owner : holds db r (row_admitted_at r);
  cs_fence : 0 < row_claim_fence r ≤ max_safe_integer;
  cs_next :
    match command_claims (tables db) !! i with
    | None => row_claim_fence r = 1
    | Some old => row_claim_fence r = row_claim_fence old + 1 ∧ row_claim_digest r = row_claim_digest old ∧
        ¬ holds db old (row_admitted_at r)
    end
}.

Lemma checks_positive r :
  instance_checks r = true → 0 < row_generation r ∧ 0 ≤ row_started_at r ≤ row_renewed_at r ∧
  row_renewed_at r < row_lease_expires_at r ∧ ∀ d, row_drain_deadline_at r = Some d → row_renewed_at r ≤ d.
Proof.
  unfold instance_checks. intros H. split_bools. split_and!; try lia. intros d Hd.
  match goal with H : match row_drain_deadline_at r with _ => _ end = true |- _ => rewrite Hd in H end. lia.
Qed.

Lemma open_not_final r st : row_state r = state_text st → open_state st = true → ¬ final r.
Proof. unfold final. intros ->. by destruct st; intros ? [|]. Qed.

Lemma update_instance_Ok i selected f violation db n db' :
  update_instance i selected f violation db = Ok (n, db') →
  (∃ r, instances (tables db) !! i = Some r ∧ selected r = true ∧ instance_checks (f r) = true ∧
     boot_taken db i (f r) = false ∧ n = 1 ∧ db' = set_instances db (<[i := f r]> (instances (tables db)))) ∨
  (n = 0 ∧ db' = db ∧ ∀ r, instances (tables db) !! i = Some r → selected r = false).
Proof.
  unfold update_instance, execute. destruct (instances (tables db) !! i) as [r|]; [|intros [= <- <-]; naive_solver].
  destruct (selected r) eqn:Es; intros H; inv_result; [|right; naive_solver]. split_bools. left. by exists r.
Qed.

(** The ids of a row were checked when they were first written. *)
Definition named (db : Database) (i : string) (r : InstanceRow) : Prop :=
  is_ok (instance_identity i (row_boot_id r)) = true ∨
  ∃ old, instances (tables db) !! i = Some old ∧ row_boot_id r = row_boot_id old.

Section effects.
Context (codec : EventCodec).

Inductive ledger_effect (now : Z) (db : Database) : Database → list StateCommit → Prop :=
| le_store db' new :
    step_effect codec db db' new → control_plane db' = control_plane db →
    Forall (λ c, command_claims (tables db) !! commit_identity c = None) new → ledger_effect now db db' new
| le_tables : control_plane db = None → ledger_effect now db (set_control_plane db (Some empty_tables)) []
| le_row i r :
    row_step db now i (instances (tables db) !! i) r → boot_taken db i r = false → named db i r →
    ledger_effect now db (set_instances db (<[i := r]> (instances (tables db)))) []
| le_claim i r :
    claim_step db i r → row_admitted_at r = now → ledger_effect now db (set_claims db (<[i := r]> (command_claims (tables db)))) []
| le_commit c db1 rc claim :
    commit_valid c → fresh_commit codec c db db1 rc → command_claims (tables db) !! commit_identity c = Some claim →
    ledger_effect now db (set_claims db1 (delete (commit_identity c) (command_claims (tables db1)))) [c].

Lemma le_none now db db' : db' = db → ledger_effect now db db' [].
Proof. intros ->. apply le_store; [constructor|done|constructor]. Qed.

Lemma update_effect now i selected f violation db n db' :
  update_instance i selected f violation db = Ok (n, db') →
  (∀ r, instances (tables db) !! i = Some r → selected r = true → instance_checks (f r) = true →
     row_step db now i (Some r) (f r) ∧ (row_boot_id (f r) = row_boot_id r ∨ is_ok (instance_identity i (row_boot_id (f r))) = true)) →
  ledger_effect now db db' [].
Proof.
  intros [(r & Hr & Hs & Hc & Hb & _ & ->)|(_ & -> & _)]%update_instance_Ok Hf; [|by apply le_none].
  destruct (Hf r Hr Hs Hc) as [Hstep Hn]. apply le_row; [by rewrite Hr|done|].
  destruct Hn; [right; by exists r|by left].
Qed.

(** *** Leases *)

Lemma renew_effect a now expires s s' h :
  renew codec a now expires s = (s', Ok h) → ledger_effect now (database s) (database s') [].
Proof.
  intros [Hv (_ & H & _)%ledger_transact_Ok]%attempt_then_Ok. inv_tx.
  repeat match goal with H : sql_integer _ = _ |- _ => apply sql_integer_Ok in H as [_ ->] end.
  match goal with H : require_authority _ _ = _ |- _ => apply require_authority_Ok in H as (r & Hr & Hread & Ho) end.
  destruct (_ =? _); inv_tx; [by apply le_none|].
  repeat match goal with H : sql_integer _ = _ |- _ => apply sql_integer_Ok in H as [_ ->] end.
  eapply update_effect; [eassumption|]. intros r' Hr' _ Hc. simplify_eq. split; [|by left].
  apply read_instance_Ok in Hread as ((Hg & _ & Hd) & _ & _ & _ & He & _).
  split; [done| |right; split_and!; [done..|cbn; inv_result; lia|by left]].
  unfold validate_time_range, validate_time in Hv. inv_result. apply checks_positive in Hc as (_ & ? & ? & _). cbn in *.
  split_and!; cbn; (lia || apply Hd).
Qed.

Lemma state_step db now i r st deadline :
  instance_checks (row_in_state st deadline r) = true → row_bounds r →
  (∀ d, deadline = Some d → d ≤ max_safe_integer) → (final r → row_state r = state_text st) →
  (open_state st = false → row_lease_expires_at r ≤ now ∨ idle db i r ∨ final r) →
  row_step db now i (Some r) (row_in_state st deadline r).
Proof.
  intros Hc (Hg & He & _) Hd Hf Hcl. split; [done| |].
  - apply checks_positive in Hc as (_ & Hs & _ & Hd'). cbn in *. split_and!; cbn; [lia..|].
    intros d Hdd. specialize (Hd d Hdd). specialize (Hd' d Hdd). lia.
  - right. split_and!; [done|done| |done|].
    + intros Hfin. cbn. symmetry. by apply Hf.
    + intros Hfin. destruct (open_state st) eqn:Eo; [|naive_solver]. exfalso. revert Hfin. by apply (open_not_final _ st).
Qed.

(** The row behind a live authority. *)
Lemma live_row db a x now :
  require_authority db a = Ok x → require_live x now = Ok tt →
  ∃ r, instances (tables db) !! instance_id (authority_identity a) = Some r ∧ owned_by a r = true ∧ row_bounds r ∧
    ¬ final r ∧ now < row_lease_expires_at r ∧ row_state r = state_text (stored_instance_state x) ∧
    row_drain_deadline_at r = stored_drain_deadline_at x.
Proof.
  intros (r & Hr & Hread & Ho)%require_authority_Ok [Hl Hopen]%require_live_Ok. exists r.
  apply read_instance_Ok in Hread as (Hb & _ & _ & Hst & He & Hd). rewrite He in Hl.
  split_and!; try done. by eapply open_not_final.
Qed.

Ltac authority_row :=
  match goal with
  | H : require_authority _ _ = Ok _, H' : require_live _ _ = Ok _ |- _ =>
      let u := type of H' in
      destruct (live_row _ _ _ _ H H') as (r & Hr & Ho & Hb & Hnf & Hlive & Hst & Hdl)
  end.

(** An instance is idle when its claims are counted zero. *)
Lemma count_idle db a r n :
  count_claims db a = Ok n → n = 0 → owned_by a r = true → idle db (instance_id (authority_identity a)) r.
Proof.
  unfold count_claims, owned_by. intros H -> Ho j x Hx Hi Hb Hg. split_bools. inv_result.
  match goal with H : sql_integer _ = _ |- _ => apply sql_integer_Ok in H as [_ ->] end.
  match goal with H : from_sql_integer _ = _ |- _ => apply from_sql_integer_Ok in H as [_ H] end.
  assert ((j, x) ∈ filter (λ '(_, r), row_claim_instance_id r = instance_id (authority_identity a) ∧
    row_claim_boot_id r = boot_id (authority_identity a) ∧ row_claim_generation r = generation a)
    (map_to_list (command_claims (tables db)))) as Hin.
  { apply list_elem_of_filter. split; [split_and!; congruence || lia|by apply elem_of_map_to_list]. }
  destruct (filter _ _); [by apply not_elem_of_nil in Hin|cbn in *; lia].
Qed.

(** A lease that is over expired, or its instance was fenced or closed. *)
Lemma lease_over r st now :
  row_state r = state_text st → (now <? row_lease_expires_at r) && open_state st = false →
  row_lease_expires_at r ≤ now ∨ final r.
Proof. intros Hst [?|Ho]%andb_false_iff; [left; lia|]. right. unfold final. rewrite Hst. destruct st; auto; done. Qed.

Lemma drain_effect a now deadline s s' h :
  request_drain codec a now deadline s = (s', Ok h) → ledger_effect now (database s) (database s') [].
Proof.
  intros [Hv (_ & H & _)%ledger_transact_Ok]%attempt_then_Ok. inv_tx.
  repeat match goal with u : () |- _ => destruct u end. authority_row.
  match goal with H : match stored_instance_state ?x with _ => _ end _ = _ |- _ => destruct (stored_instance_state x); inv_tx end.
  - repeat match goal with H : sql_integer _ = _ |- _ => apply sql_integer_Ok in H as [_ ->] end.
    eapply update_effect; [eassumption|]. intros r' Hr' _ Hc. simplify_eq. split; [|by left]. apply state_step; [done..| |done|done].
    intros d [= <-]. unfold validate_time_range, validate_time in Hv. inv_result. lia.
  - by apply le_none.
Qed.

Lemma resume_effect a now s s' h :
  resume codec a now s = (s', Ok h) → ledger_effect now (database s) (database s') [].
Proof.
  intros [Hv (_ & H & _)%ledger_transact_Ok]%attempt_then_Ok. inv_tx.
  repeat match goal with u : () |- _ => destruct u end. authority_row.
  case_bool_decide; inv_tx; [by apply le_none|].
  eapply update_effect; [eassumption|]. intros r' Hr' _ Hc. simplify_eq. split; [|by left]. by apply state_step.
Qed.

Lemma release_effect a now s s' h :
  release codec a now s = (s', Ok h) → ledger_effect now (database s) (database s') [].
Proof.
  intros [Hv (_ & H & _)%ledger_transact_Ok]%attempt_then_Ok. inv_tx.
  case_bool_decide; inv_tx; [by apply le_none|].
  repeat match goal with u : () |- _ => destruct u end. authority_row.
  eapply update_effect; [eassumption|]. intros r' Hr' _ Hc. simplify_eq. split; [|by left]. apply state_step; [done..| |done|].
  - intros d Hd. destruct Hb as (_ & _ & Hb). by apply Hb.
  - intros _. right. left. eapply count_idle; [eassumption| |done]. inv_result. split_bools. lia.
Qed.

Lemma fence_effect i now s s' h :
  fence_expired codec i now s = (s', Ok h) → ledger_effect now (database s) (database s') [].
Proof.
  intros [_ [_ (_ & H & _)%ledger_transact_Ok]%attempt_then_Ok]%attempt_then_Ok. cbv zeta in H. inv_tx. inv_result.
  match goal with H : load_instance _ _ = _ |- _ => apply load_instance_Ok in H as (r & Hr & Hread) end.
  apply read_instance_Ok in Hread as (Hb & _ & _ & Hst & He & _).
  case_bool_decide; inv_tx; [|by apply le_none].
  eapply update_effect; [eassumption|]. intros r' Hr' _ Hc. simplify_eq. split; [|by left]. apply state_step; [done..| | |].
  - intros d Hd. destruct Hb as (_ & _ & Hb). by apply Hb.
  - intros [?|Hcl]; [done|]. rewrite Hst in Hcl. by apply state_text_inj in Hcl.
  - intros _. rewrite He in *. eapply lease_over in Hst; [|eassumption]. naive_solver.
Qed.

Lemma register_effect i now expires s s' a :
  is_ok (instance_identity (instance_id i) (boot_id i)) = true →
  register i now expires s = (s', Ok a) → ledger_effect now (database s) (database s') [].
Proof.
  intros Hnamed [Hv (_ & H & _)%ledger_transact_Ok]%attempt_then_Ok. inv_tx.
  unfold validate_time_range, validate_time in Hv. inv_result.
  match goal with H : load_instance _ _ = Ok ?x |- _ => destruct x as [x|]; rename H into Hload end.
  - apply load_instance_Ok in Hload as (r & Hr & Hread). apply read_instance_Ok in Hread as (Hb & _ & Hg & Hst & He & _).
    cbv zeta in H. destruct (_ && _ && _); inv_tx; [by apply le_none|]. case_bool_decide; inv_tx. destruct (_ || _) eqn:Eover; inv_tx.
    repeat match goal with H : sql_integer _ = _ |- _ => apply sql_integer_Ok in H as [_ ->] end.
    match goal with H : checked_increment _ = _ |- _ => apply checked_increment_Ok in H as [? ->] end.
    eapply update_effect; [eassumption|]. intros r' Hr' _ Hc. simplify_eq. split; [|by right]. split; [done| |left; cbn; split; [lia|]].
    2:{ rewrite He in Eover. eapply lease_over; [exact Hst|]. by rewrite <-(negb_involutive (_ && _)), negb_andb, <-Z.leb_antisym, Eover. }
    apply checks_positive in Hc as (? & ? & ? & _). cbn in *. split_and!; cbn; (lia || done).
  - apply load_instance_None in Hload. inv_tx.
    repeat match goal with H : sql_integer _ = _ |- _ => apply sql_integer_Ok in H as [_ ->] end.
    unfold insert_instance, execute in *. inv_result. split_bools.
    match goal with H : _ = database s' |- _ => rewrite <-H end. apply le_row; [|done|by left]. rewrite Hload.
    match goal with H : instance_checks _ = true |- _ => rename H into Hc end. split; [done| |done].
    pose proof (checks_positive _ Hc) as (? & ? & ? & _). cbn in *. assert (1 ≤ max_safe_integer) by done.
    split_and!; cbn; (lia || done).
Qed.

(** *** Commands *)

(** The claim is the stored one. *)
Definition current_claim (db : Database) (c : ControlPlaneCommandClaim) : Prop :=
  ∃ r, command_claims (tables db) !! claim_receipt_identity c = Some r ∧
    row_claim_instance_id r = instance_id (authority_identity (claim_authority c)) ∧
    row_claim_boot_id r = boot_id (authority_identity (claim_authority c)) ∧
    row_claim_generation r = generation (claim_authority c) ∧ row_claim_fence r = claim_fence c ∧
    row_claim_digest r = claim_digest c.

Lemma authority_ext a b :
  instance_id (authority_identity a) = instance_id (authority_identity b) →
  boot_id (authority_identity a) = boot_id (authority_identity b) → generation a = generation b → a = b.
Proof. destruct a as [[] ?], b as [[] ?]. cbn. congruence. Qed.

(** A claim made by a live instance is held by it. *)
Lemma live_holds db a x now digest fence :
  require_authority db a = Ok x → require_live x now = Ok tt → holds db (claim_row a digest (generation a) fence now) now.
Proof.
  intros Ha Hl. destruct (live_row _ _ _ _ Ha Hl) as (r & Hr & Ho & _ & Hnf & Hlt & _). exists r.
  unfold owned_by in Ho. split_bools. split_and!; cbn; (done || lia).
Qed.

(** A claim that is held has a live owner. *)
Lemma holds_live db existing r owner now :
  stored_claim_instance_id existing = row_claim_instance_id r → stored_claim_boot_id existing = row_claim_boot_id r →
  stored_claim_generation existing = row_claim_generation r →
  load_instance db (stored_claim_instance_id existing) = Ok (Some owner) →
  holds db r now → owner_is_live owner existing now = true.
Proof.
  intros E1 E2 E3 (o & Ho & Hread)%load_instance_Ok (o' & Ho' & Hb & Hg & Hnf & Hlt). rewrite E1, Ho' in Ho. simplify_eq.
  apply read_instance_Ok in Hread as (_ & Hb' & Hg' & Hst & He & _). unfold owner_is_live.
  rewrite bool_decide_eq_true_2 by congruence. rewrite (proj2 (Z.eqb_eq _ _)) by congruence. rewrite He.
  rewrite (proj2 (Z.ltb_lt _ _)) by done. cbn. unfold final in Hnf. rewrite Hst in Hnf.
  destruct (stored_instance_state owner); naive_solver.
Qed.

Lemma insert_claim_Ok a now i digest db c db' :
  insert_claim a now i digest db = Ok (c, db') →
  let r := claim_row a digest (generation a) 1 now in
  command_claims (tables db) !! i = None ∧ claim_checks db r = true ∧
  db' = set_claims db (<[i := r]> (command_claims (tables db))) ∧
  c = {| claim_receipt_identity := i; claim_digest := digest; claim_authority := a; claim_fence := 1; claim_replay := false |}.
Proof.
  unfold insert_claim. intros H. inv_tx.
  repeat match goal with H : sql_integer _ = _ |- _ => apply sql_integer_Ok in H as [_ ->] end.
  unfold execute in *. inv_result. split_bools. split_and!; try done.
  by destruct (command_claims (tables db) !! i); [exfalso; eauto|].
Qed.

Lemma takeover_claim_Ok a now i existing db c db' :
  takeover_claim a now i existing db = Ok (c, db') →
  ∃ old, command_claims (tables db) !! i = Some old ∧ row_claim_fence old = stored_claim_fence existing ∧
    let r := claim_row a (row_claim_digest old) (generation a) (stored_claim_fence existing + 1) now in
    claim_checks db r = true ∧ stored_claim_fence existing + 1 ≤ max_safe_integer ∧
    db' = set_claims db (<[i := r]> (command_claims (tables db))) ∧
    c = {| claim_receipt_identity := i; claim_digest := stored_claim_digest existing; claim_authority := a;
           claim_fence := stored_claim_fence existing + 1; claim_replay := false |}.
Proof.
  unfold takeover_claim. intros H. inv_tx.
  repeat match goal with
  | H : sql_integer _ = _ |- _ => apply sql_integer_Ok in H as [_ ->]
  | H : checked_increment _ = _ |- _ => apply checked_increment_Ok in H as [? ->]
  end.
  unfold execute in *. destruct (command_claims (tables db) !! i) as [old|]; [|inv_result].
  destruct (claim_selected _ _ _ _ old) eqn:Es; inv_result. unfold claim_selected in Es. split_bools.
  exists old. split_and!; (done || lia).
Qed.

Lemma claimed_row db i r c :
  command_claims (tables db) !! i = Some r → claim_receipt_identity c = i →
  row_claim_instance_id r = instance_id (authority_identity (claim_authority c)) →
  row_claim_boot_id r = boot_id (authority_identity (claim_authority c)) →
  row_claim_generation r = generation (claim_authority c) → row_claim_fence r = claim_fence c →
  row_claim_digest r = claim_digest c → current_claim db c.
Proof. intros Hr <- ? ? ? ? ?. by exists r. Qed.

(** What an admission answers: a claim that is the stored one, or the receipt. *)
Definition admitted (db : Database) (a : ControlPlaneInstanceAuthority) (i : ReceiptIdentity) (digest : string)
    (answer : ControlPlaneCommandAdmission) : Prop :=
  match answer with
  | Claimed c => current_claim db c ∧ claim_receipt_identity c = i ∧ claim_authority c = a ∧ claim_digest c = digest
  | Committed x => ∃ r, command_receipts db !! i = Some r ∧ receipt_digest r = digest ∧
      command_receipt_identity x = i ∧ committed_command_digest x = digest
  end.

Lemma set_claims_lookup db t : command_claims (tables (set_claims db t)) = t.
Proof. done. Qed.

Lemma admit_claim a now i digest x (existing : option StoredClaim) db c db' :
  require_authority db a = Ok x → require_live x now = Ok tt → canonical_digest digest = true →
  command_receipts db !! i = None → load_claim db i = Ok existing →
  match existing with
  | None => insert_claim a now i digest
  | Some existing =>
      lift (ensure_digest (stored_claim_digest existing) digest) ;;
      if matches_authority existing a then lift (into_public existing i true)
      else
        owner ← query (λ db, load_instance db (stored_claim_instance_id existing));
        owner ← lift (ok_or owner CorruptState);
        lift (refuse (owner_is_live owner existing now) CommandInFlight) ;;
        takeover_claim a now i existing
  end db = Ok (c, db') →
  ledger_effect now db db' [] ∧ admitted db' a i digest (Claimed c).
Proof.
  intros Ha Hl Hd Hrc Hload H. destruct existing as [existing|].
  - apply load_claim_Ok in Hload as (old & Hold & Edig & Einst & Eboot & Egen & Efence & Hcan & Hfb).
    inv_tx. unfold ensure_digest in *. inv_result. split_bools.
    destruct (matches_authority existing a) eqn:Em; inv_tx.
    + split; [by apply le_none|]. unfold matches_authority in Em. split_bools. unfold into_public, instance_identity in *. inv_result.
      split_and!; cbn; try done; [by eapply claimed_row|]. apply authority_ext; cbn; (done || lia).
    + inv_result. apply takeover_claim_Ok in H as (old' & Hold' & Ef & Hc & Hmax & -> & ->). simplify_eq. split.
      * apply le_claim; [|done]. split; [done|done|done| |cbn; lia|rewrite Hold].
        { by eapply live_holds. }
        split_and!; [cbn; lia|done|]. intros Hh. cbn in Hh.
        match goal with H : load_instance _ _ = _ |- _ => rewrite (holds_live _ existing old _ _ Einst Eboot Egen H Hh) in * end. done.
      * split_and!; [|done..]. eapply claimed_row; [by rewrite set_claims_lookup, lookup_insert_eq|cbn; congruence..].
  - apply load_claim_None in Hload. apply insert_claim_Ok in H as (_ & Hc & -> & ->). split.
    + apply le_claim; [|done]. assert (1 ≤ max_safe_integer) by done.
      split; [done|done|done|by eapply live_holds|cbn; lia|by rewrite Hload].
    + split_and!; [|done..]. eapply claimed_row; [by rewrite set_claims_lookup, lookup_insert_eq|done..].
Qed.

Lemma admit_effect a now i digest s s' answer :
  admit_command a now i digest s = (s', Ok answer) →
  ledger_effect now (database s) (database s') [] ∧ admitted (database s') a i digest answer.
Proof.
  intros [_ [Hd (_ & H & _)%ledger_transact_Ok]%attempt_then_Ok]%attempt_then_Ok.
  unfold validate_digest in Hd. inv_result. split_bools. inv_tx.
  match goal with H : require_accepting _ _ = _ |- _ => unfold require_accepting in H; inv_result end.
  repeat match goal with u : () |- _ => destruct u end.
  match goal with H : load_committed _ _ = Ok ?o |- _ => destruct o as [committed|]; rename H into Hcom end.
  - inv_tx. unfold ensure_digest in *. inv_result. split_bools. match goal with H : database s' = _ |- _ => rewrite H end.
    split; [by apply le_none|]. unfold load_committed in Hcom.
    destruct (command_receipts (database s) !! i) as [r|] eqn:Er; [|done]. inv_result. by exists r.
  - apply load_committed_None in Hcom. inv_tx. match goal with H : _ = database s' |- _ => rewrite <-H | _ => idtac end.
    eapply admit_claim; eassumption.
Qed.

Lemma delete_claim_Ok claim g fence db n db' :
  delete_claim claim g fence db = Ok (n, db') → n = 1 →
  db' = set_claims db (delete (claim_receipt_identity claim) (command_claims (tables db))).
Proof.
  unfold delete_claim, execute. destruct (command_claims (tables db) !! _) as [r|]; [|by intros [= <- <-]].
  destruct (claim_selected _ _ _ _ r); [by intros [= <- <-]|by intros [= <- <-]].
Qed.

(** A claimed commit is the one of the stored claim, and takes the claim with it. *)
Lemma commit_claimed_effect claim now c s s' r :
  (∀ i x, command_claims (tables (database s)) !! i = Some x → command_receipts (database s) !! i = None) →
  commit_claimed codec claim now c s = (s', Ok r) →
  ledger_effect now (database s) (database s') [c] ∧ current_claim (database s) claim ∧
  commit_identity c = claim_receipt_identity claim ∧ command_digest c = claim_digest claim ∧
  is_Some (command_receipts (database s') !! commit_identity c) ∧ idempotent_replay r = false.
Proof.
  intros Hdis [_ [Hv [Hid (_ & H & _)%ledger_transact_Ok]%attempt_then_Ok]%attempt_then_Ok]%attempt_then_Ok.
  inv_result. apply validate_commit_Ok in Hv. split_bools. inv_tx. inv_result.
  match goal with H : load_claim _ _ = _ |- _ => apply load_claim_Ok in H as (old & Hold & ? & ? & ? & ? & ? & _) end.
  assert (current_claim (database s) claim) as Hcur.
  { unfold matches_claim, matches_authority in *. split_bools. exists old. split_and!; congruence || lia. }
  match goal with H : commit_claimed_in_transaction _ _ _ = _ |- _ =>
    apply commit_in_transaction_Ok in H as [(prior & Hp & _)|Hf] end.
  { unfold prior_receipt in Hp. apply Hdis in Hold. congruence. }
  match goal with H : delete_claim _ _ _ _ = Ok (?n, _) |- _ => apply delete_claim_Ok in H; [|lia] end.
  match goal with H : database s' = _ |- _ => rewrite H in *; clear H end. subst.
  split_and!; [|done..| |].
  - replace (claim_receipt_identity claim) with (commit_identity c) in * by done. by eapply le_commit.
  - cbn. rewrite (fc_receipts _ _ _ _ _ Hf), lookup_insert_eq. by eexists.
  - by destruct (fc_receipt _ _ _ _ _ Hf) as (evs & _ & ->).
Qed.
End effects.
