(* ===== verification/InstanceRuns.v ===== *)
(** * Control plane instances: runs

    Runs of the operations of the instance ledger, interleaved with commits that are not
    claimed: every step is a sequence of steps of the state store, the tables keep their
    invariant, generations and fences only grow, and a superseded claim or a retired authority
    stays so. *)

From Stdlib Require Import Ascii String.
From S2P Require Import Prelude Text Numerals Transaction StateKeys StateStore StateFacts StateInvariant StateRuns Instances InstanceFacts.
Local Open Scope Z_scope.

Inductive ledger_op : Type :=
| New
| Register (instance boot : string) (now expires : Z)
| Renew (a : ControlPlaneInstanceAuthority) (now expires : Z)
| Drain (a : ControlPlaneInstanceAuthority) (now deadline : Z)
| Resume (a : ControlPlaneInstanceAuthority) (now : Z)
| Release (a : ControlPlaneInstanceAuthority) (now : Z)
| Fence (i : string) (now : Z)
| Admit (a : ControlPlaneInstanceAuthority) (now : Z) (i : ReceiptIdentity) (digest : string)
| CommitClaimed (claim : ControlPlaneCommandClaim) (now : Z) (c : StateCommit)
| StoreCommit (c : StateCommit)
| StorePublish (event : string)
| StorePersist (event : string).

(** The caller's clock; the operations of the store have none. *)
Definition op_time (op : ledger_op) : Z :=
  match op with
  | Register _ _ now _ | Renew _ now _ | Drain _ now _ | Resume _ now | Release _ now | Fence _ now
  | Admit _ now _ _ | CommitClaimed _ now _ => now
  | New | StoreCommit _ | StorePublish _ | StorePersist _ => 0
  end.

(** The authority an operation acts under. *)
Definition acts_under (op : ledger_op) : option ControlPlaneInstanceAuthority :=
  match op with
  | Renew a _ _ | Drain a _ _ | Resume a _ | Release a _ | Admit a _ _ _ => Some a
  | CommitClaimed claim _ _ => Some (claim_authority claim)
  | _ => None
  end.

Section runs.
Context (codec : EventCodec).

Definition ledger_step (s : SqliteStorage) (op : ledger_op) : SqliteStorage :=
  match op with
  | New => (ledger_new s).1
  | Register instance boot now expires =>
      match instance_identity instance boot with
      | Ok i => (register i now expires s).1
      | Err _ => s
      end
  | Renew a now expires => (renew codec a now expires s).1
  | Drain a now deadline => (request_drain codec a now deadline s).1
  | Resume a now => (resume codec a now s).1
  | Release a now => (release codec a now s).1
  | Fence i now => (fence_expired codec i now s).1
  | Admit a now i digest => (admit_command a now i digest s).1
  | CommitClaimed claim now c => (commit_claimed codec claim now c s).1
  | StoreCommit c => store_step codec s (Commit c)
  | StorePublish event => store_step codec s (Publish event)
  | StorePersist event => store_step codec s (Persist event)
  end.

Definition ledger_run (s : SqliteStorage) (ops : list ledger_op) : SqliteStorage := foldl ledger_step s ops.

(** The commits a step performed. *)
Definition ledger_performed (s : SqliteStorage) (op : ledger_op) : list StateCommit :=
  match op with
  | CommitClaimed claim now c =>
      match (commit_claimed codec claim now c s).2 with
      | Ok r => if idempotent_replay r then [] else [c]
      | Err _ => []
      end
  | StoreCommit c => performed codec s (Commit c)
  | _ => []
  end.

Fixpoint ledger_history (s : SqliteStorage) (ops : list ledger_op) : list StateCommit :=
  match ops with
  | [] => []
  | op :: ops => ledger_performed s op ++ ledger_history (ledger_step s op) ops
  end.

(** ** Steps *)

(** The claimed requests have no receipt. *)
Definition unanswered (db : Database) : Prop :=
  ∀ i x, command_claims (tables db) !! i = Some x → command_receipts db !! i = None.

(** An operation of the ledger that fails changes nothing. *)
Lemma validated_fails {A} (r : result ControlPlaneInstanceErrorKind ()) (k : act SqliteStorage ControlPlaneInstanceErrorKind A) :
  (∀ s s' e, k s = (s', Err e) → s' = s) → ∀ s s' e, (attempt r ;; k) s = (s', Err e) → s' = s.
Proof. intros Hk s s' e [->|H]%attempt_then_Err; [done|by eapply Hk]. Qed.

Lemma operation_effect {A} now (m : act SqliteStorage ControlPlaneInstanceErrorKind A) s :
  (∀ s s' e, m s = (s', Err e) → s' = s) →
  (∀ s' a, m s = (s', Ok a) → ledger_effect codec now (database s) (database s') []) →
  ledger_effect codec now (database s) (database (m s).1) [].
Proof.
  intros Herr Hok. destruct (m s) as [s' [a|e]] eqn:E; cbn; [by eapply Hok|]. apply Herr in E as ->. by apply le_none.
Qed.

Lemma ledger_fails {A} (m : ledger_tx A) s s' e : ledger_transact m s = (s', Err e) → s' = s.
Proof. apply ledger_transact_Err. Qed.

Lemma unclaimed_commit s c s' r :
  sqlite_commit codec s c = (s', Ok r) → idempotent_replay r = false →
  control_plane_command_claim_exists (database s) c = false.
Proof.
  unfold sqlite_commit. destruct (validate_commit c); [|done]. intros (_ & H & _)%transact_Ok Hr.
  unfold commit_in_transaction, commit_in_transaction_with_claim_authority in H.
  destruct (prior_receipt (database s) (commit_identity c)) as [prior|].
  - apply query_Ok in H as [H _]. apply replay_receipt_Ok in H as [H _]. congruence.
  - apply lift_then_iff in H as [H _]. by inv_result.
Qed.

Lemma store_op_effect now s op :
  (∀ t, op ≠ Claims t) → ledger_effect codec now (database s) (database (store_step codec s op)) (performed codec s op).
Proof.
  intros Hop. destruct (store_step_effect codec s op) as [He _].
  assert (control_plane (database (store_step codec s op)) = control_plane (database s)) as Hcp.
  { destruct op as [c|event|event|claims]; cbn; [| | |by destruct (Hop claims)].
    - destruct (sqlite_commit codec s c) as [s' [r|e]] eqn:E; cbn; [|by apply sqlite_commit_Err in E as ->].
      apply sqlite_commit_Ok in E as (_ & _ & [(? & _ & _ & ->)|[Hf _]]); [done|exact (fc_claims _ _ _ _ _ Hf)].
    - unfold mark_published. destruct (transact s _) as [s' [n|e]] eqn:E; cbn; [|by apply transact_Err in E as ->].
      apply transact_Ok in E as (_ & [= _ <-] & _). done.
    - unfold mark_audit_event_persisted. case_bool_decide; [done|].
      destruct (transact s _) as [s' [n|e]] eqn:E; cbn; [|by apply transact_Err in E as ->].
      apply transact_Ok in E as (_ & [= _ <-] & _). done. }
  apply le_store; [done..|]. destruct op as [c| | |]; try constructor. cbn.
  destruct (sqlite_commit codec s c) as [s' [r|e]] eqn:E; cbn; [|constructor].
  destruct (idempotent_replay r) eqn:Er; [constructor|]. constructor; [|constructor].
  pose proof (unclaimed_commit _ _ _ _ E Er) as Hun. unfold control_plane_command_claim_exists in Hun. unfold tables.
  destruct (control_plane (database s)) as [t|]; cbn; [|apply lookup_empty].
  apply bool_decide_eq_false in Hun. by apply eq_None_not_Some.
Qed.

Lemma ledger_step_effect s op :
  unanswered (database s) → ledger_effect codec (op_time op) (database s) (database (ledger_step s op)) (ledger_performed s op).
Proof.
  intros Hun. destruct op; cbn [ledger_step ledger_performed].
  - unfold ledger_new. destruct (control_plane (database s)) eqn:E; [by apply le_none|].
    destruct (read_only s); cbn; [by apply le_none|by apply le_tables].
  - destruct (instance_identity instance boot) as [i|] eqn:Ei; [|by apply le_none].
    apply operation_effect; [apply validated_fails, ledger_fails|]. intros s' a H. eapply register_effect; [|exact H].
    pose proof Ei as Ei'. unfold instance_identity in Ei. inv_result. cbn. by rewrite Ei'.
  - apply operation_effect; [apply validated_fails, ledger_fails|]. intros s' h H. by eapply renew_effect.
  - apply operation_effect; [apply validated_fails, ledger_fails|]. intros s' h H. by eapply drain_effect.
  - apply operation_effect; [apply validated_fails, ledger_fails|]. intros s' h H. by eapply resume_effect.
  - apply operation_effect; [apply validated_fails, ledger_fails|]. intros s' h H. by eapply release_effect.
  - apply operation_effect; [apply validated_fails, validated_fails, ledger_fails|]. intros s' h H. by eapply fence_effect.
  - apply operation_effect; [apply validated_fails, validated_fails, ledger_fails|]. intros s' answer H.
    by eapply admit_effect.
  - destruct (commit_claimed codec claim now c s) as [s' [r|e]] eqn:E; cbn.
    + apply commit_claimed_effect in E as (He & _ & _ & _ & _ & ->); done.
    + apply validated_fails in E as ->; [by apply le_none|]. apply validated_fails, validated_fails, ledger_fails.
  - by apply store_op_effect.
  - by apply (store_op_effect _ s (Publish event)).
  - by apply (store_op_effect _ s (Persist event)).
Qed.

(** ** The store under the ledger *)

(** A step of the ledger is at most two steps of the store. *)
Lemma ledger_effect_store {now} db db' new :
  ledger_effect codec now db db' new → ∃ db1, step_effect codec db db1 new ∧ step_effect codec db1 db' [].
Proof.
  intros [db1 new' Hs _ _|_|i r _ _ _|i r _ _|c db1 rc claim Hv Hf _].
  - exists db1. split; [done|constructor].
  - exists db. split; constructor.
  - exists db. split; constructor.
  - exists db. split; constructor.
  - exists db1. split; [by econstructor|constructor].
Qed.

(** ** The invariant *)

(** A claim's instance exists, and a later generation may have taken over. *)
Definition claim_owned (db : Database) (r : ClaimRow) : Prop :=
  ∃ o, instances (tables db) !! row_claim_instance_id r = Some o ∧
    (row_claim_generation r < row_generation o ∨
     row_claim_generation r = row_generation o ∧ row_claim_boot_id r = row_boot_id o).

Record ledger_wf (db : Database) : Prop := {
  lw_store : store_wf codec db;
  lw_rows : map_Forall (λ _ r, instance_checks r = true ∧ row_bounds r) (instances (tables db));
  lw_boots : ∀ i j r r', instances (tables db) !! i = Some r → instances (tables db) !! j = Some r' →
    row_boot_id r = row_boot_id r' → i = j;
  lw_claims : map_Forall (λ i r, command_receipts db !! i = None ∧ canonical_digest (row_claim_digest r) = true ∧
    0 < row_claim_generation r ∧ 0 < row_claim_fence r ≤ max_safe_integer ∧ claim_owned db r ∧
    is_ok (instance_identity (row_claim_instance_id r) (row_claim_boot_id r)) = true) (command_claims (tables db));
  lw_names : map_Forall (λ i r, is_ok (instance_identity i (row_boot_id r)) = true) (instances (tables db))
}.

Lemma lw_unanswered db : ledger_wf db → unanswered db.
Proof. intros Hwf i x Hx. by apply (lw_claims _ Hwf) in Hx as [? _]. Qed.

Lemma boot_free db i r j x :
  boot_taken db i r = false → instances (tables db) !! j = Some x → row_boot_id x = row_boot_id r → j = i.
Proof.
  unfold boot_taken. intros H Hx Hb. destruct (decide (j = i)) as [|Hne]; [done|]. exfalso.
  apply not_true_iff_false in H. apply H, existsb_exists. exists (j, x).
  split; [by apply list_elem_of_In, elem_of_map_to_list|]. by rewrite bool_decide_eq_false_2, bool_decide_eq_true_2 by done.
Qed.

(** Instances keep existing, and their generations only grow. *)
Definition row_follows (r r' : InstanceRow) : Prop :=
  row_generation r < row_generation r' ∨
  row_generation r' = row_generation r ∧ row_boot_id r' = row_boot_id r ∧ (final r → row_state r' = row_state r).

Lemma row_follows_refl r : row_follows r r.
Proof. by right. Qed.

Lemma effect_rows {now} db db' new i r :
  ledger_effect codec now db db' new → instances (tables db) !! i = Some r →
  ∃ r', instances (tables db') !! i = Some r' ∧ row_follows r r'.
Proof.
  intros He Hr. destruct He as [db1 new' _ Hcp _|Hcp|j x Hs _ _|j x _ _|c db1 rc claim _ Hf _].
  - exists r. unfold tables in *. rewrite Hcp. split; [done|apply row_follows_refl].
  - unfold tables in Hr. by rewrite Hcp in Hr.
  - cbn. destruct (decide (j = i)) as [->|]; [|exists r; rewrite lookup_insert_ne by done; split; [done|apply row_follows_refl]].
    exists x. rewrite lookup_insert_eq. split; [done|]. rewrite Hr in Hs. destruct (rs_generation _ _ _ _ _ Hs) as [[? _]|(? & ? & ? & _)]; [left; lia|by right].
  - exists r. split; [done|apply row_follows_refl].
  - exists r. cbn. unfold tables in *. rewrite (fc_claims _ _ _ _ _ Hf). split; [done|apply row_follows_refl].
Qed.

Lemma owned_stays {now} db db' new r : claim_owned db r → ledger_effect codec now db db' new → claim_owned db' r.
Proof.
  intros (o & Ho & Hg) He. destruct (effect_rows _ _ _ _ _ He Ho) as (o' & Ho' & Hf). exists o'. split; [done|].
  destruct Hf as [?|(E & Eb & _)]; [left; lia|]. destruct Hg as [?|[? ?]]; [left; lia|right; split; [lia|congruence]].
Qed.

Lemma holds_owned db r now : holds db r now → claim_owned db r.
Proof. intros (o & Ho & Hb & Hg & _). exists o. split; [done|]. right. by split. Qed.

(** Claims under an effect: a claim stays, is answered, or is taken over. *)
Lemma effect_claims_from {now} db db' new i r' :
  ledger_effect codec now db db' new → command_claims (tables db') !! i = Some r' →
  command_claims (tables db) !! i = Some r' ∧ (command_receipts db !! i = None → command_receipts db' !! i = None) ∨
  claim_step db i r' ∧ command_receipts db' = command_receipts db.
Proof.
  intros He Hr'. destruct He as [db' new Hs Hcp Hn|Hcp|j x Hs _ _|j x Hs _|c db1 rc claim _ Hf _].
  - left. unfold tables in *. rewrite Hcp in Hr'. split; [done|]. intros Hi. destruct Hs as [|c db' rc Hv Hf|?|?|?]; try done.
    apply Forall_cons in Hn as [Hn _]. rewrite (fc_receipts _ _ _ _ _ Hf). rewrite lookup_insert_ne; [done|]. intros Heq. cbn beta in Hn. rewrite Heq in Hn. congruence.
  - by cbn in Hr'.
  - left. done.
  - cbn in Hr'. destruct (decide (j = i)) as [->|].
    + rewrite lookup_insert_eq in Hr'. simplify_eq. by right.
    + rewrite lookup_insert_ne in Hr' by done. by left.
  - cbn in Hr'. apply lookup_delete_Some in Hr' as [Hne Hr']. left. unfold tables in *.
    rewrite (fc_claims _ _ _ _ _ Hf) in Hr'. split; [done|]. intros Hi. cbn.
    by rewrite (fc_receipts _ _ _ _ _ Hf), lookup_insert_ne.
Qed.

Context (codec_ok : event_codec_ok codec).

Lemma effect_wf {now} db db' new : ledger_wf db → ledger_effect codec now db db' new → ledger_wf db'.
Proof.
  intros Hwf He. split.
  - destruct (ledger_effect_store _ _ _ He) as (db1 & H1 & H2).
    eapply step_wf; [done| |exact H2]. eapply step_wf; [done|apply Hwf|exact H1].
  - destruct He as [db' new _ Hcp _|Hcp|j x Hs _ _|j x _ _|c db1 rc claim _ Hf _].
    + unfold tables. rewrite Hcp. apply Hwf.
    + apply map_Forall_empty.
    + apply map_Forall_insert_2; [|apply Hwf]. split; [apply Hs|apply Hs].
    + apply Hwf.
    + cbn. unfold tables. rewrite (fc_claims _ _ _ _ _ Hf). apply Hwf.
  - destruct He as [db' new _ Hcp _|Hcp|k x Hs Hb _|j x _ _|c db1 rc claim _ Hf _].
    + unfold tables. rewrite Hcp. apply Hwf.
    + intros i j r r' Hr. by cbn in Hr.
    + intros i j r r'. cbn. intros [[<- <-]|[? Hr]]%lookup_insert_Some [[<- <-]|[? Hr']]%lookup_insert_Some Heq.
      * done.
      * symmetry. by eapply boot_free.
      * by eapply boot_free.
      * by eapply (lw_boots _ Hwf).
    + apply Hwf.
    + cbn. unfold tables. rewrite (fc_claims _ _ _ _ _ Hf). apply Hwf.
  - intros i r Hr. destruct (effect_claims_from _ _ _ _ _ He Hr) as [[Hold Hrc]|[Hs Hrc]].
    + apply (lw_claims _ Hwf) in Hold as (? & ? & ? & ? & ? & ?). split_and!; try done; [by apply Hrc|lia..|].
      by eapply owned_stays.
    + pose proof (cs_checks _ _ _ Hs) as Hc. unfold claim_checks in Hc. split_bools.
      split_and!; [rewrite Hrc; apply Hs|apply Hs|lia|apply Hs..| |].
      * eapply owned_stays; [eapply holds_owned, (cs_owner _ _ _ Hs)|exact He].
      * destruct (cs_owner _ _ _ Hs) as (o & Ho & <- & _). by apply (lw_names _ Hwf) in Ho.
  - destruct He as [db' new _ Hcp _|Hcp|j x Hs _ Hn|j x _ _|c db1 rc claim _ Hf _].
    + unfold tables. rewrite Hcp. apply Hwf.
    + apply map_Forall_empty.
    + apply map_Forall_insert_2; [|apply Hwf]. destruct Hn as [?|(old & Hold & ->)]; [done|]. by apply (lw_names _ Hwf) in Hold.
    + apply Hwf.
    + cbn. unfold tables. rewrite (fc_claims _ _ _ _ _ Hf). apply Hwf.
Qed.

(** Induction over a run whose clocks satisfy [Q]. *)
Lemma ledger_run_ind_within (Q : Z → Prop) (P : Database → list StateCommit → Prop) s ops log :
  ledger_wf (database s) → P (database s) log → Forall (λ op, Q (op_time op)) ops →
  (∀ now db db' log new, Q now → ledger_wf db → P db log → ledger_effect codec now db db' new → P db' (log ++ new)) →
  ledger_wf (database (ledger_run s ops)) ∧ P (database (ledger_run s ops)) (log ++ ledger_history s ops).
Proof.
  intros Hwf Hs HQ Hstep. revert s log Hwf Hs. induction HQ as [|op ops Hop _ IH]; intros s log Hwf Hs; cbn.
  { by rewrite app_nil_r. }
  pose proof (ledger_step_effect s op (lw_unanswered _ Hwf)) as He. rewrite app_assoc. apply IH.
  - by eapply effect_wf.
  - by eapply Hstep.
Qed.

(** Induction over a run. *)
Lemma ledger_run_ind (P : Database → list StateCommit → Prop) s ops log :
  ledger_wf (database s) → P (database s) log →
  (∀ now db db' log new, ledger_wf db → P db log → ledger_effect codec now db db' new → P db' (log ++ new)) →
  ledger_wf (database (ledger_run s ops)) ∧ P (database (ledger_run s ops)) (log ++ ledger_history s ops).
Proof.
  intros Hwf Hs Hstep. apply (ledger_run_ind_within (λ _, True)); [done..|by apply Forall_true|].
  intros now db db' log' new _. apply Hstep.
Qed.

Lemma instances_run_wf s ops : ledger_wf (database s) → ledger_wf (database (ledger_run s ops)).
Proof. intros Hwf. by apply (ledger_run_ind (λ _ _, True) s ops []). Qed.

Lemma ledger_run_keeps (P : Database → Prop) s ops :
  (∀ now db db' new, ledger_wf db → P db → ledger_effect codec now db db' new → P db') →
  ledger_wf (database s) → P (database s) → P (database (ledger_run s ops)).
Proof.
  intros Hstep Hwf Hs. apply (ledger_run_ind (λ db _, P db) s ops []); [done..|]. intros now db db' _ new. apply Hstep.
Qed.

Lemma new_instances_wf : ledger_wf empty_database.
Proof.
  split; [apply empty_wf|apply map_Forall_empty| |apply map_Forall_empty..]. intros i j r r' Hr. by cbn in Hr.
Qed.

(** The claimed commits are part of the serial history of the store. *)
Lemma ledger_run_refines s ops :
  database s = empty_database → refines codec (database (ledger_run s ops)) (ledger_history s ops).
Proof.
  intros Hs. apply (ledger_run_ind (refines codec) s ops []).
  - rewrite Hs. apply new_instances_wf.
  - rewrite Hs. split; [apply empty_wf|done|done|constructor|]. intros i. cbn. rewrite lookup_empty.
    split; [by intros []|set_solver].
  - intros now db db' log new _ Hr He. destruct (ledger_effect_store _ _ _ He) as (db1 & H1 & H2).
    rewrite <-(app_nil_r (log ++ new)). eapply step_refines; [done| |exact H2]. by eapply step_refines.
Qed.

(** ** Fences *)

(** The request is answered, or claimed under a later fence. *)
Definition fenced (db : Database) (i : ReceiptIdentity) (fence : Z) : Prop :=
  is_Some (command_receipts db !! i) ∨ ∃ r, command_claims (tables db) !! i = Some r ∧ fence < row_claim_fence r.

Lemma effect_receipts {now} db db' new i :
  ledger_effect codec now db db' new → is_Some (command_receipts db !! i) → is_Some (command_receipts db' !! i).
Proof.
  intros He Hi. destruct (ledger_effect_store _ _ _ He) as (db1 & H1 & H2).
  assert (∀ db db' new, step_effect codec db db' new → is_Some (command_receipts db !! i) →
    is_Some (command_receipts db' !! i)) as Hs; [|eauto].
  clear. intros db db' new [|c db1 r Hv Hf|?|?|?] Hi; try done.
  rewrite (fc_receipts _ _ _ _ _ Hf). apply lookup_insert_is_Some'. by right.
Qed.

(** A claim stays as it is, or its request is answered or claimed again. *)
Lemma effect_claim_next {now} db db' new i r :
  ledger_effect codec now db db' new → command_claims (tables db) !! i = Some r →
  command_claims (tables db') !! i = Some r ∨ is_Some (command_receipts db' !! i) ∨
  ∃ r', command_claims (tables db') !! i = Some r' ∧ row_claim_fence r' = row_claim_fence r + 1.
Proof.
  intros He Hr. destruct He as [db' new _ Hcp _|Hcp|j x _ _ _|j x Hs _|c db1 rc claim _ Hf _].
  - left. unfold tables. by rewrite Hcp.
  - unfold tables in Hr. by rewrite Hcp in Hr.
  - by left.
  - cbn. destruct (decide (j = i)) as [->|]; [|left; by rewrite lookup_insert_ne].
    right. right. exists x. rewrite lookup_insert_eq. split; [done|]. pose proof (cs_next _ _ _ Hs) as Hn.
    rewrite Hr in Hn. by destruct Hn.
  - cbn. destruct (decide (commit_identity c = i)) as [<-|].
    + right. left. rewrite (fc_receipts _ _ _ _ _ Hf), lookup_insert_eq. by eexists.
    + left. rewrite lookup_delete_ne by done. unfold tables. by rewrite (fc_claims _ _ _ _ _ Hf).
Qed.

Lemma fenced_stays {now} db db' new i fence :
  fenced db i fence → ledger_effect codec now db db' new → fenced db' i fence.
Proof.
  intros [Hi|(r & Hr & Hlt)] He; [left; by eapply effect_receipts|].
  destruct (effect_claim_next _ _ _ _ _ He Hr) as [?|[?|(r' & ? & ?)]]; [right; by exists r|by left|].
  right. exists r'. split; [done|lia].
Qed.

(** *** Held claims *)

Lemma holds_earlier db r now now' : holds db r now → now' ≤ now → holds db r now'.
Proof. intros (o & Ho & Hb & Hg & Hf & Hlt) Hle. exists o. split_and!; [done..|lia]. Qed.

(** Until its lease ends, the owner of a claim keeps the lease and the claim, or the request is
    answered. *)
Lemma held_stays {now} db db' new i r limit :
  now < limit → command_claims (tables db) !! i = Some r → holds db r (limit - 1) → ledger_effect codec now db db' new →
  is_Some (command_receipts db' !! i) ∨ command_claims (tables db') !! i = Some r ∧ holds db' r (limit - 1).
Proof.
  intros Hnow Hr Hh He. destruct He as [db' new _ Hcp _|Hcp|j x Hs _ _|j x Hs Hat|c db1 rc claim _ Hf _].
  - right. unfold holds, tables in *. by rewrite Hcp.
  - unfold tables in Hr. by rewrite Hcp in Hr.
  - right. split; [done|]. destruct Hh as (o & Ho & Hb & Hg & Hnf & Hlt). unfold holds. cbn.
    destruct (decide (j = row_claim_instance_id r)) as [->|]; [|exists o; by rewrite lookup_insert_ne].
    exists x. rewrite lookup_insert_eq. rewrite Ho in Hs.
    destruct (rs_generation _ _ _ _ _ Hs) as [[_ [?|?]]|(Eg & Eb & _ & Hle & Hfin)]; [lia|done|].
    split_and!; [done|congruence|lia| |lia]. intros [?|[?|Hidle]]%Hfin; [done|lia|]. by apply (Hidle _ _ Hr).
  - right. destruct (decide (j = i)) as [->|]; [|cbn; by rewrite lookup_insert_ne].
    exfalso. pose proof (cs_next _ _ _ Hs) as Hn. rewrite Hr, Hat in Hn. destruct Hn as (_ & _ & Hn). apply Hn.
    eapply holds_earlier; [done|lia].
  - cbn. destruct (decide (commit_identity c = i)) as [<-|].
    + left. rewrite (fc_receipts _ _ _ _ _ Hf), lookup_insert_eq. by eexists.
    + right. rewrite lookup_delete_ne by done. unfold holds. cbn. unfold holds, tables in *. by rewrite (fc_claims _ _ _ _ _ Hf).
Qed.

(** A claim, once issued, is current until it is fenced. *)
Lemma claim_stays {now} db db' new c :
  current_claim db c ∨ fenced db (claim_receipt_identity c) (claim_fence c) → ledger_effect codec now db db' new →
  current_claim db' c ∨ fenced db' (claim_receipt_identity c) (claim_fence c).
Proof.
  intros [(r & Hr & Hrest)|Hf] He; [|right; by eapply fenced_stays].
  destruct (effect_claim_next _ _ _ _ _ He Hr) as [?|[?|(r' & ? & ?)]]; [left; by exists r|right; by left|].
  right. right. exists r'. split; [done|]. destruct Hrest as (_ & _ & _ & <- & _). lia.
Qed.

(** A fenced claim commits nothing. *)
Lemma fenced_commit_fails s c now k :
  ledger_wf (database s) → fenced (database s) (claim_receipt_identity c) (claim_fence c) →
  ∃ e, commit_claimed codec c now k s = (s, Err e).
Proof.
  intros Hwf Hf. destruct (commit_claimed codec c now k s) as [s' [r|e]] eqn:E.
  - apply commit_claimed_effect in E as (_ & (x & Hx & _ & _ & _ & Hfe & _) & _); [|by apply lw_unanswered].
    exfalso. destruct Hf as [[y Hy]|(r' & Hr' & Hlt)].
    + apply (lw_unanswered _ Hwf) in Hx. congruence.
    + rewrite Hx in Hr'. simplify_eq. lia.
  - exists e. apply validated_fails in E as ->; [done|]. apply validated_fails, validated_fails, ledger_fails.
Qed.

(** ** Authorities *)

(** The authority was issued: its generation is the current one with its boot, or past. *)
Definition issued (db : Database) (a : ControlPlaneInstanceAuthority) : Prop :=
  ∃ r, instances (tables db) !! instance_id (authority_identity a) = Some r ∧
    (generation a < row_generation r ∨
     generation a = row_generation r ∧ boot_id (authority_identity a) = row_boot_id r).

(** It is retired: replaced, fenced or closed. *)
Definition retired (db : Database) (a : ControlPlaneInstanceAuthority) : Prop :=
  ∃ r, instances (tables db) !! instance_id (authority_identity a) = Some r ∧
    (generation a < row_generation r ∨ row_generation r = generation a ∧ final r).

Lemma issued_stays {now} db db' new a : issued db a → ledger_effect codec now db db' new → issued db' a.
Proof.
  intros (r & Hr & Ha) He. destruct (effect_rows _ _ _ _ _ He Hr) as (r' & Hr' & Hf). exists r'. split; [done|].
  destruct Hf as [?|(? & ? & _)], Ha as [?|[? ?]]; (left; lia) || (right; split; [lia|congruence]).
Qed.

Lemma retired_stays {now} db db' new a : retired db a → ledger_effect codec now db db' new → retired db' a.
Proof.
  intros (r & Hr & Ha) He. destruct (effect_rows _ _ _ _ _ He Hr) as (r' & Hr' & Hf). exists r'. split; [done|].
  destruct Hf as [?|(? & ? & Hst)], Ha as [?|[? Hfin]]; try (left; lia). right. split; [lia|].
  unfold final in *. by rewrite (Hst Hfin).
Qed.

Lemma register_issues i now expires s s' a :
  register i now expires s = (s', Ok a) →
  authority_identity a = i ∧
  ∃ r, instances (tables (database s')) !! instance_id i = Some r ∧ row_generation r = generation a ∧
    row_boot_id r = boot_id i.
Proof.
  intros [_ (_ & H & _)%ledger_transact_Ok]%attempt_then_Ok. inv_tx.
  match goal with H : load_instance _ _ = Ok ?x |- _ => destruct x as [x|]; rename H into Hload end.
  - apply load_instance_Ok in Hload as (r & Hr & Hread). apply read_instance_Ok in Hread as (_ & Hb & Hg & _).
    cbv zeta in H. destruct (_ && _ && _) eqn:Ec; inv_tx.
    + split; [done|]. match goal with H : database s' = _ |- _ => rewrite H end. exists r. split_bools.
      split_and!; [done|cbn; congruence|congruence].
    + case_bool_decide; inv_tx. destruct (_ || _); inv_tx. split; [done|].
      repeat match goal with H : sql_integer _ = _ |- _ => apply sql_integer_Ok in H as [_ ->] end.
      match goal with H : update_instance _ _ _ _ _ = _ |- _ => apply update_instance_Ok in H as [(r' & _ & _ & _ & _ & _ & E)|(-> & _)] end.
      * match goal with H : database s' = _ |- _ => rewrite H end. subst. eexists. cbn. by rewrite lookup_insert_eq.
      * inv_result.
  - inv_tx. split; [done|]. repeat match goal with H : sql_integer _ = _ |- _ => apply sql_integer_Ok in H as [_ ->] end.
    unfold insert_instance, execute in *. inv_result. match goal with H : _ = database s' |- _ => rewrite <-H end.
    eexists. cbn. by rewrite lookup_insert_eq.
Qed.
End runs.
