(* ===== verification/InstanceSafety.v ===== *)
(** * Control plane instances: what the ledger promises

    The theorems on [Instances], over every run of the ledger from a new database: claimed
    commits are part of the store's serial history, a superseded claim never commits, a
    retired authority is powerless, admissions are answered exactly as the tables say, and a
    command whose owner is gone can be taken over and completed. *)

From Stdlib Require Import Ascii String.
From S2P Require Import Prelude Text Numerals Transaction StateKeys StateStore StateFacts StateInvariant StateRuns StateProgress StateSafety.
From S2P Require Import Instances InstanceFacts InstanceRuns.
Local Open Scope Z_scope.

#[global] Instance final_dec r : Decision (final r).
Proof. unfold final. apply _. Defined.

#[global] Instance holds_dec db r now : Decision (holds db r now).
Proof.
  refine (match instances (tables db) !! row_claim_instance_id r as o
      return instances (tables db) !! row_claim_instance_id r = o → _ with
    | Some o => λ E, cast_if (decide (row_boot_id o = row_claim_boot_id r ∧ row_generation o = row_claim_generation r ∧
                                      ¬ final o ∧ now < row_lease_expires_at o))
    | None => λ E, right _
    end eq_refl).
  - by exists o.
  - intros (o' & Ho' & H). apply n. rewrite E in Ho'. by simplify_eq.
  - intros (o & Ho & _). congruence.
Defined.

(** The instance accepts new commands. *)
Definition accepting (db : Database) (a : ControlPlaneInstanceAuthority) (now : Z) : Prop :=
  ∃ r, instances (tables db) !! instance_id (authority_identity a) = Some r ∧ owned_by a r = true ∧
    row_state r = state_text Active ∧ now < row_lease_expires_at r.

Definition stored_claim (r : ClaimRow) : StoredClaim :=
  {| stored_claim_digest := row_claim_digest r; stored_claim_instance_id := row_claim_instance_id r;
     stored_claim_boot_id := row_claim_boot_id r; stored_claim_generation := row_claim_generation r;
     stored_claim_fence := row_claim_fence r |}.

(** The claim as its owner holds it. *)
Definition public_claim (i : ReceiptIdentity) (r : ClaimRow) (replay : bool) : ControlPlaneCommandClaim :=
  {| claim_receipt_identity := i; claim_digest := row_claim_digest r;
     claim_authority := {| authority_identity := {| instance_id := row_claim_instance_id r; boot_id := row_claim_boot_id r |};
                           generation := row_claim_generation r |};
     claim_fence := row_claim_fence r; claim_replay := replay |}.

(** What an admission of [i] answers to an accepting instance when the request has no receipt. *)
Definition admission (db : Database) (a : ControlPlaneInstanceAuthority) (now : Z) (i : ReceiptIdentity) (digest : string) :
    result ControlPlaneInstanceErrorKind ControlPlaneCommandClaim :=
  match command_claims (tables db) !! i with
  | None => Ok (public_claim i (claim_row a digest (generation a) 1 now) false)
  | Some r =>
      if negb (bool_decide (row_claim_digest r = digest)) then Err RequestConflict
      else if matches_authority (stored_claim r) a then Ok (public_claim i r true)
      else if bool_decide (holds db r now) then Err CommandInFlight
      else if row_claim_fence r <? max_safe_integer
           then Ok (public_claim i (claim_row a digest (generation a) (row_claim_fence r + 1) now) false)
      else Err CorruptState
  end.

Section safety.
Context (codec : EventCodec) (codec_ok : event_codec_ok codec).

Lemma wf_reads db i r : ledger_wf codec db → instances (tables db) !! i = Some r → ∃ x, read_instance r = Ok x.
Proof.
  intros Hwf Hr. apply (lw_rows _ _ Hwf) in Hr as [Hc Hb]. unfold instance_checks in Hc. split_bools.
  match goal with H : existsb _ _ = true |- _ => apply existsb_exists in H as (st & _ & Hst%bool_decide_eq_true) end.
  eexists {| stored_boot_id := _; stored_generation := _; stored_instance_state := st; stored_lease_expires_at := _;
             stored_drain_deadline_at := _ |}. apply read_instance_Ok. by split_and!.
Qed.

Lemma wf_claim db i r :
  ledger_wf codec db → command_claims (tables db) !! i = Some r → load_claim db i = Ok (Some (stored_claim r)).
Proof.
  intros Hwf Hr. unfold load_claim. rewrite Hr. apply (lw_claims _ _ Hwf) in Hr as (_ & Hd & Hg & Hf & (o & Ho & Hle) & Hn).
  apply (lw_rows _ _ Hwf) in Ho as [_ (Hgo & _)]. assert (row_claim_generation r ≤ row_generation o) by (destruct Hle as [|[]]; lia).
  unfold validate_digest_text. rewrite Hd. cbn [negb refuse mbind result_bind].
  destruct (instance_identity _ _); [|done]. cbn [mbind result_bind].
  rewrite (proj2 (from_sql_integer_Ok (row_claim_generation r) (row_claim_generation r))) by lia. cbn [mbind result_bind].
  by rewrite (proj2 (from_sql_integer_Ok (row_claim_fence r) (row_claim_fence r))) by lia.
Qed.

Lemma accepting_reads db a now :
  ledger_wf codec db → accepting db a now →
  ∃ x, require_authority db a = Ok x ∧ require_live x now = Ok tt ∧ require_accepting x now = Ok tt.
Proof.
  intros Hwf (r & Hr & Ho & Hst & Hlt). destruct (wf_reads _ _ _ Hwf Hr) as [x Hx]. exists x.
  pose proof Hx as (_ & _ & _ & Hstx & He & _)%read_instance_Ok. rewrite Hst in Hstx. apply state_text_inj in Hstx.
  assert (require_live x now = Ok tt) as Hl by (apply require_live_Ok; rewrite He, <-Hstx; done).
  split_and!; [apply require_authority_Ok; by exists r|done|]. unfold require_accepting. rewrite Hl, <-Hstx. done.
Qed.

Lemma accepting_generation db a now : ledger_wf codec db → accepting db a now → 0 < generation a ≤ max_safe_integer.
Proof.
  intros Hwf (r & Hr & Ho & _). apply (lw_rows _ _ Hwf) in Hr as [Hc (Hg & _)]. apply checks_positive in Hc as [? _].
  unfold owned_by in Ho. split_bools. lia.
Qed.

Lemma safe_integer z : z ≤ max_safe_integer → sql_integer z = Ok z.
Proof. intros Hz. apply sql_integer_Ok. assert (max_safe_integer < i64_max) by done. split; [lia|done]. Qed.

Lemma claim_checks_run db a now digest fence :
  ledger_wf codec db → accepting db a now → 0 ≤ now → 0 < fence →
  claim_checks db (claim_row a digest (generation a) fence now) = true.
Proof.
  intros Hwf Ha Hn Hf. pose proof (accepting_generation _ _ _ Hwf Ha). destruct Ha as (r & Hr & _). unfold claim_checks. cbn.
  rewrite bool_decide_eq_true_2 by (rewrite Hr; by eexists). rewrite !andb_true_iff. split_and!; [done|lia..].
Qed.

Lemma claim_inserted db a now i digest :
  ledger_wf codec db → accepting db a now → 0 ≤ now ≤ max_safe_integer → command_claims (tables db) !! i = None →
  insert_claim a now i digest db =
  Ok (public_claim i (claim_row a digest (generation a) 1 now) false,
      set_claims db (<[i := claim_row a digest (generation a) 1 now]> (command_claims (tables db)))).
Proof.
  intros Hwf Ha Hn Hc. pose proof (accepting_generation _ _ _ Hwf Ha). unfold insert_claim.
  rewrite (lift_run _ (generation a)) by (apply safe_integer; lia). rewrite (lift_run _ now) by (apply safe_integer; lia).
  erewrite tx_bind_run.
  2:{ unfold execute. rewrite refuse_run; [done|]. rewrite Hc, claim_checks_run by (done || lia). done. }
  unfold public_claim, claim_row. cbn. by destruct a as [[] ?].
Qed.

Lemma takeover_run db a now i r :
  ledger_wf codec db → accepting db a now → 0 ≤ now ≤ max_safe_integer → command_claims (tables db) !! i = Some r →
  row_claim_fence r < max_safe_integer →
  let r' := claim_row a (row_claim_digest r) (generation a) (row_claim_fence r + 1) now in
  takeover_claim a now i (stored_claim r) db =
  Ok (public_claim i r' false, set_claims db (<[i := r']> (command_claims (tables db)))).
Proof.
  intros Hwf Ha Hn Hr Hf. pose proof (accepting_generation _ _ _ Hwf Ha).
  pose proof Hr as (_ & _ & Hg & Hfe & (o & Ho & Hle) & _)%(lw_claims _ _ Hwf).
  apply (lw_rows _ _ Hwf) in Ho as [_ (Hgo & _)]. assert (row_claim_generation r ≤ row_generation o) by (destruct Hle as [|[]]; lia).
  unfold takeover_claim. cbn [stored_claim stored_claim_fence stored_claim_generation].
  rewrite (lift_run _ (row_claim_fence r + 1)) by (apply checked_increment_Ok; split; [lia|done]).
  rewrite (lift_run _ (generation a)) by (apply safe_integer; lia).
  rewrite (lift_run _ (row_claim_fence r + 1)) by (apply safe_integer; lia).
  rewrite (lift_run _ now) by (apply safe_integer; lia).
  rewrite (lift_run _ (row_claim_generation r)) by (apply safe_integer; lia).
  rewrite (lift_run _ (row_claim_fence r)) by (apply safe_integer; lia).
  erewrite tx_bind_run.
  2:{ unfold execute. rewrite Hr. unfold claim_selected. cbn. rewrite !bool_decide_eq_true_2, !Z.eqb_refl by done. cbn.
      rewrite refuse_run; [done|]. rewrite claim_checks_run by (done || lia). done. }
  unfold public_claim, claim_row. cbn. by destruct a as [[] ?].
Qed.

Lemma into_public_run db i r :
  ledger_wf codec db → command_claims (tables db) !! i = Some r → into_public (stored_claim r) i true = Ok (public_claim i r true).
Proof.
  intros Hwf Hr. apply (lw_claims _ _ Hwf) in Hr as (_ & _ & _ & _ & _ & Hn). unfold into_public. cbn.
  destruct (instance_identity _ _) as [x|] eqn:E; [|done]. unfold instance_identity in E. inv_result. done.
Qed.

Lemma holds_live_iff db r owner now :
  load_instance db (row_claim_instance_id r) = Ok (Some owner) →
  owner_is_live owner (stored_claim r) now = bool_decide (holds db r now).
Proof.
  intros Ho. destruct (bool_decide_reflect (holds db r now)) as [Hh|Hh].
  - by eapply (holds_live _ (stored_claim r) r).
  - apply not_true_iff_false. intros Hl. apply Hh. unfold owner_is_live in Hl. split_bools. cbn in *.
    apply load_instance_Ok in Ho as (o & Ho & Hread). apply read_instance_Ok in Hread as (_ & Hb & Hg & Hst & He & _).
    exists o. split_and!; [done|congruence|lia|by eapply open_not_final|lia].
Qed.

(** The claim part of an admission. *)
Lemma admission_run db a now i digest x :
  ledger_wf codec db → accepting db a now → 0 ≤ now ≤ max_safe_integer → load_claim db i = Ok x →
  fst <$> match x with
  | None => insert_claim a now i digest
  | Some existing =>
      lift (ensure_digest (stored_claim_digest existing) digest) ;;
      if matches_authority existing a then lift (into_public existing i true)
      else
        owner ← query (λ db, load_instance db (stored_claim_instance_id existing));
        owner ← lift (ok_or owner CorruptState);
        lift (refuse (owner_is_live owner existing now) CommandInFlight) ;;
        takeover_claim a now i existing
  end db = admission db a now i digest.
Proof.
  intros Hwf Ha Hn Hx. unfold admission. destruct (command_claims (tables db) !! i) as [r|] eqn:Er.
  2:{ rewrite (proj2 (load_claim_None _ _) Er) in Hx. simplify_eq. by rewrite (claim_inserted _ _ _ _ _ Hwf Ha Hn Er). }
  rewrite (wf_claim _ _ _ Hwf Er) in Hx. simplify_eq. cbn [stored_claim stored_claim_digest]. unfold ensure_digest.
  destruct (bool_decide_reflect (row_claim_digest r = digest)) as [<-|Hd]; cbn [negb].
  2:{ rewrite (lift_Err_run _ RequestConflict); [done|]. by rewrite bool_decide_eq_true_2. }
  rewrite (lift_run _ tt) by (by rewrite differs_refl). destruct (matches_authority (stored_claim r) a).
  { by rewrite (into_public_run _ _ _ Hwf Er). }
  pose proof Er as (_ & _ & _ & _ & (o & Ho & _) & _)%(lw_claims _ _ Hwf). destruct (wf_reads _ _ _ Hwf Ho) as [owner Hread].
  assert (load_instance db (row_claim_instance_id r) = Ok (Some owner)) as Hload by (apply load_instance_Ok; by exists o).
  rewrite (query_run _ (Some owner)) by exact Hload. rewrite (lift_run _ owner) by done. rewrite (holds_live_iff _ _ _ _ Hload).
  destruct (bool_decide (holds db r now)); [done|]. rewrite (lift_run _ tt) by done.
  destruct (Z.ltb_spec (row_claim_fence r) max_safe_integer).
  - by rewrite (takeover_run _ _ _ _ _ Hwf Ha Hn Er).
  - unfold takeover_claim. rewrite (lift_Err_run _ CorruptState); [done|]. unfold checked_increment. cbn [stored_claim stored_claim_fence].
    destruct (ok_or _ _) as [z|e] eqn:Ez; cbn [mbind result_bind].
    + apply ok_or_Ok, checked_add_u64_Some in Ez as [-> _]. rewrite (proj2 (Z.ltb_lt _ _)) by lia. done.
    + apply ok_or_Err in Ez as [_ ->]. done.
Qed.

Lemma admit_run s a now i digest :
  ledger_wf codec (database s) → read_only s = false → accepting (database s) a now → 0 ≤ now ≤ max_safe_integer →
  canonical_digest digest = true → command_receipts (database s) !! i = None →
  (admit_command a now i digest s).2 = Claimed <$> admission (database s) a now i digest.
Proof.
  intros Hwf Hro Ha Hn Hd Hr. destruct (accepting_reads _ _ _ Hwf Ha) as (x & Hx & _ & Hacc).
  assert (∃ o, load_claim (database s) i = Ok o) as [o Ho].
  { destruct (command_claims (tables (database s)) !! i) as [r|] eqn:Er; [by rewrite (wf_claim _ _ _ Hwf Er); eexists|].
    exists None. by apply load_claim_None. }
  rewrite <-(admission_run _ _ _ _ digest _ Hwf Ha Hn Ho).
  unfold admit_command. rewrite attempt_run by (apply refuse_Ok; lia). rewrite attempt_run by (unfold validate_digest; by rewrite Hd).
  rewrite ledger_transact_run by done. unfold commit.
  match goal with |- context [match ?m ?d with Ok _ => _ | Err _ => _ end] => set (body := m) end.
  match goal with |- _ = Claimed <$> (fst <$> ?m ?d) => set (inner := m) end.
  enough (body (database s) = (λ '(c, db), (Claimed c, db)) <$> inner (database s)) as ->.
  { by destruct (inner (database s)) as [[c db]|]. }
  unfold body. rewrite (query_run _ x) by done. rewrite (lift_run _ tt) by done.
  rewrite (query_run _ None) by (by apply load_committed_None). rewrite (query_run _ o) by done.
  fold inner. unfold mbind, tx_bind. by destruct (inner (database s)) as [[c db]|].
Qed.

Lemma not_final_open r st : row_state r = state_text st → ¬ final r → open_state st = true.
Proof. unfold final. intros ->. by destruct st; naive_solver. Qed.

Lemma holds_reads db r now a :
  ledger_wf codec db → holds db r now → row_claim_instance_id r = instance_id (authority_identity a) →
  row_claim_boot_id r = boot_id (authority_identity a) → row_claim_generation r = generation a →
  ∃ x, require_authority db a = Ok x ∧ require_live x now = Ok tt.
Proof.
  intros Hwf (o & Ho & Hb & Hg & Hnf & Hlt) E1 E2 E3. destruct (wf_reads _ _ _ Hwf Ho) as [x Hx]. exists x.
  pose proof Hx as (_ & _ & _ & Hst & He & _)%read_instance_Ok. split.
  - apply require_authority_Ok. exists o. rewrite <-E1. split_and!; [done..|]. unfold owned_by.
    rewrite bool_decide_eq_true_2 by congruence. cbn. lia.
  - apply require_live_Ok. split; [lia|]. by eapply not_final_open.
Qed.

Lemma commit_claimed_run s i r replay now c :
  ledger_wf codec (database s) → read_only s = false → 0 ≤ now ≤ max_safe_integer →
  command_claims (tables (database s)) !! i = Some r → holds (database s) r now →
  validate_commit c = Ok tt → commit_identity c = i → command_digest c = row_claim_digest r →
  commit_fits codec (database s) c →
  ∃ s' x, commit_claimed codec (public_claim i r replay) now c s = (s', Ok x) ∧ idempotent_replay x = false ∧
    is_Some (command_receipts (database s') !! commit_identity c) ∧
    command_claims (tables (database s')) !! commit_identity c = None.
Proof.
  intros Hwf Hro Hn Hr Hh Hv Hi Hd Hf. set (db := database s) in *.
  destruct (holds_reads db r now (claim_authority (public_claim i r replay)) Hwf Hh) as (x & Hx & Hl); [done..|].
  destruct (commit_transaction_run codec db c true) as (db' & rc & E & Hrep & _);
    [apply Hwf|by eapply validate_commit_Ok|done|by left|].
  assert (fresh_commit codec c db db' rc) as Hfresh.
  { apply commit_in_transaction_Ok in E as [(prior & Hp & _)|?]; [|done]. unfold prior_receipt in Hp.
    by rewrite (cf_identity _ _ _ Hf) in Hp. }
  assert (tables db' = tables db) as Et by (unfold tables; by rewrite (fc_claims _ _ _ _ _ Hfresh)).
  pose proof Hr as (_ & _ & Hg & Hfe & (o & Ho & Hle) & _)%(lw_claims _ _ Hwf).
  apply (lw_rows _ _ Hwf) in Ho as [_ (Hgo & _)].
  assert (row_claim_generation r ≤ max_safe_integer) by (destruct Hle as [|[]]; lia).
  exists (set_database s (set_claims db' (delete i (command_claims (tables db'))))), rc.
  split_and!; [|done| |cbn; rewrite Hi; apply lookup_delete_eq].
  2:{ cbn. rewrite (fc_receipts _ _ _ _ _ Hfresh), lookup_insert_eq. by eexists. }
  unfold commit_claimed. rewrite attempt_run by (apply refuse_Ok; lia). rewrite attempt_run by (by rewrite Hv).
  rewrite attempt_run by (cbn [public_claim claim_receipt_identity claim_digest]; by rewrite Hi, Hd, !differs_refl). rewrite ledger_transact_run by done. fold db. unfold commit.
  rewrite (query_run _ x), (lift_run _ tt) by done. rewrite (query_run _ (Some (stored_claim r))) by (by apply wf_claim).
  rewrite (lift_run _ (stored_claim r)) by done. rewrite (lift_run _ tt).
  2:{ unfold matches_claim, matches_authority. cbn.
      by rewrite !bool_decide_eq_true_2, !Z.eqb_refl by done. }
  erewrite tx_bind_run by (unfold commit_claimed_in_transaction; by rewrite E).
  rewrite (lift_run _ (row_claim_generation r)) by (by apply safe_integer).
  rewrite (lift_run _ (row_claim_fence r)) by (apply safe_integer; cbn; lia).
  erewrite tx_bind_run; [|unfold delete_claim, execute; cbn [public_claim claim_receipt_identity]; rewrite Et, Hr].
  2:{ unfold claim_selected. cbn. by rewrite !bool_decide_eq_true_2, !Z.eqb_refl by done. }
  by rewrite (lift_run _ tt), <-Et.
Qed.

(** *** Retired authorities *)

Lemma live_not_retired db a x now : require_authority db a = Ok x → require_live x now = Ok tt → ¬ retired db a.
Proof.
  intros Ha Hl (r & Hr & Hret). destruct (live_row _ _ _ _ Ha Hl) as (r' & Hr' & Ho & _ & Hnf & _). simplify_eq.
  unfold owned_by in Ho. split_bools. destruct Hret as [?|[_ ?]]; [lia|done].
Qed.

Lemma unchanged_storage s s' : s' = set_database s (database s') → database s' = database s → s' = s.
Proof. intros -> E. cbn in *. rewrite E. by destruct s. Qed.

(** Under a retired authority only the repetition of a release is answered, and nothing changes. *)
Lemma retired_step s op a :
  ledger_wf codec (database s) → retired (database s) a → acts_under op = Some a → ledger_step codec s op = s.
Proof.
  intros Hwf Hret Hop. destruct op; simplify_eq/=.
  - destruct (renew codec a now expires s) as [s' [h|e]] eqn:E; cbn; [|by eapply validated_fails, E; apply ledger_fails].
    apply attempt_then_Ok in E as [_ (_ & E & _)%ledger_transact_Ok]. inv_tx.
    repeat match goal with u : () |- _ => destruct u end. exfalso. by eapply live_not_retired.
  - destruct (request_drain codec a now deadline s) as [s' [h|e]] eqn:E; cbn; [|by eapply validated_fails, E; apply ledger_fails].
    apply attempt_then_Ok in E as [_ (_ & E & _)%ledger_transact_Ok]. inv_tx.
    repeat match goal with u : () |- _ => destruct u end. exfalso. by eapply live_not_retired.
  - destruct (resume codec a now s) as [s' [h|e]] eqn:E; cbn; [|by eapply validated_fails, E; apply ledger_fails].
    apply attempt_then_Ok in E as [_ (_ & E & _)%ledger_transact_Ok]. inv_tx.
    repeat match goal with u : () |- _ => destruct u end. exfalso. by eapply live_not_retired.
  - destruct (release codec a now s) as [s' [h|e]] eqn:E; cbn; [|by eapply validated_fails, E; apply ledger_fails].
    apply attempt_then_Ok in E as [_ (_ & E & Hs)%ledger_transact_Ok]. inv_tx. case_bool_decide; inv_tx.
    + apply query_Ok in E as [_ E]. by apply unchanged_storage.
    + repeat match goal with u : () |- _ => destruct u end. exfalso. by eapply live_not_retired.
  - destruct (admit_command a now i digest s) as [s' [h|e]] eqn:E; cbn; [|by eapply validated_fails, E; apply validated_fails, ledger_fails].
    apply attempt_then_Ok in E as [_ [_ (_ & E & _)%ledger_transact_Ok]%attempt_then_Ok]. inv_tx.
    match goal with H : require_accepting _ _ = _ |- _ => unfold require_accepting in H; inv_result end.
    repeat match goal with u : () |- _ => destruct u end. exfalso. by eapply live_not_retired.
  - destruct (commit_claimed codec claim now c s) as [s' [h|e]] eqn:E; cbn;
      [|by eapply validated_fails, E; apply validated_fails, validated_fails, ledger_fails].
    apply attempt_then_Ok in E as [_ [_ [_ (_ & E & _)%ledger_transact_Ok]%attempt_then_Ok]%attempt_then_Ok]. inv_tx.
    repeat match goal with u : () |- _ => destruct u end. exfalso. by eapply live_not_retired.
Qed.

Lemma release_retires a now s s' h : release codec a now s = (s', Ok h) → retired (database s') a.
Proof.
  intros [_ (_ & H & _)%ledger_transact_Ok]%attempt_then_Ok. inv_tx.
  match goal with H : require_authority _ _ = _ |- _ => pose proof H as (r & Hr & Hread & Ho)%require_authority_Ok end.
  pose proof Ho as Ho'. unfold owned_by in Ho'. split_bools. case_bool_decide as Hst; inv_tx.
  - exists r. split; [done|]. right. split; [lia|]. right. apply read_instance_Ok in Hread as (_ & _ & _ & -> & _). by rewrite Hst.
  - match goal with H : update_instance _ _ _ _ _ = _ |- _ => apply update_instance_Ok in H as [(r' & Hr' & _ & _ & _ & _ & ->)|(_ & -> & Hn)] end.
    + simplify_eq. eexists. split; [cbn; apply lookup_insert_eq|]. right. cbn. split; [lia|by right].
    + apply Hn in Hr. congruence.
Qed.

Lemma fence_retires i now s s' h a :
  fence_expired codec i now s = (s', Ok h) → issued (database s) a → instance_id (authority_identity a) = i →
  retired (database s') a.
Proof.
  intros [_ [_ (_ & H & _)%ledger_transact_Ok]%attempt_then_Ok]%attempt_then_Ok (r & Hr & Ha) <-.
  cbv zeta in H. inv_tx. inv_result.
  match goal with H : load_instance _ _ = _ |- _ => apply load_instance_Ok in H as (r' & Hr' & Hread) end.
  apply read_instance_Ok in Hread as (_ & _ & Hg & Hst & _). assert (r' = r) as -> by congruence.
  assert (generation a < row_generation r ∨ row_generation r = generation a) as Hcase by (destruct Ha as [|[]]; lia).
  case_bool_decide as Hcl; inv_tx.
  - repeat match goal with H : sql_integer _ = _ |- _ => apply sql_integer_Ok in H as [_ ->] end.
    match goal with H : update_instance _ _ _ _ _ = _ |- _ => apply update_instance_Ok in H as [(r' & Hr2 & _ & _ & _ & _ & ->)|(_ & -> & Hn)] end.
    + assert (r' = r) as -> by congruence. eexists. split; [cbn; apply lookup_insert_eq|]. cbn. destruct Hcase; [by left|right]. split; [done|by left].
    + apply Hn in Hr. lia.
  - exists r. split; [done|]. destruct Hcase; [by left|right]. split; [done|]. right. by rewrite Hst, Hcl.
Qed.

(** *** Runs *)

Abbreviation after ops := (ledger_run codec new_storage ops).

Lemma after_wf ops : ledger_wf codec (database (after ops)).
Proof. apply instances_run_wf; [done|apply new_instances_wf]. Qed.

Lemma transact_read_only {A} (m : ledger_tx A) s : read_only (ledger_transact m s).1 = read_only s.
Proof. unfold ledger_transact. destruct (connection_mut s); [|done]. by destruct (commit _ _). Qed.

Lemma attempt_read_only {A} (r : result ControlPlaneInstanceErrorKind ()) (k : act SqliteStorage ControlPlaneInstanceErrorKind A) s :
  read_only (k s).1 = read_only s → read_only ((attempt r ;; k) s).1 = read_only s.
Proof. intros Hk. unfold mbind, act_bind, attempt. by destruct r as [[]|]. Qed.

Lemma after_read_only ops : read_only (after ops) = false.
Proof.
  change false with (read_only new_storage). generalize new_storage. induction ops as [|op ops IH]; intros s; [done|].
  change (ledger_run codec s (op :: ops)) with (ledger_run codec (ledger_step codec s op) ops). rewrite IH. destruct op; cbn; try (repeat apply attempt_read_only; apply transact_read_only).
  - unfold ledger_new. destruct (control_plane (database s)); [done|]. destruct (read_only s) eqn:E; cbn; by rewrite E.
  - destruct (instance_identity instance boot); [|done]. apply attempt_read_only, transact_read_only.
  - apply (store_step_effect codec s (Commit c)).
  - apply (store_step_effect codec s (Publish event)).
  - apply (store_step_effect codec s (Persist event)).
Qed.

Lemma after_app ops ops' : after (ops ++ ops') = ledger_run codec (after ops) ops'.
Proof. unfold ledger_run. by rewrite foldl_app. Qed.

(** C16. Over every run of the instance ledger from a new database, interleaved with commits
    that are not claimed, the performed commits form a serial history whose last versions are
    the stored states, no request is performed twice, and a claimed request is unanswered; a
    claimed commit succeeds only for the stored claim of its request, performs exactly its
    commit, and takes the claim with it. *)
Theorem claimed_commits_serial ops :
  let log := ledger_history codec new_storage ops in
  let s := after ops in
  serial log ∧ NoDup (commit_identity <$> log) ∧
  (∀ i, load_state_from_connection (database s) i =
     Ok ((λ p, {| stored_stream_id := i; stored_revision := Z.of_nat (length (versions_of (spec_history log) i));
                  stored_payload := p |}) <$> last (versions_of (spec_history log) i))) ∧
  (∀ i, is_Some (command_claims (tables (database s)) !! i) → i ∉ commit_identity <$> log) ∧
  ∀ claim now c s' r, commit_claimed codec claim now c s = (s', Ok r) →
    current_claim (database s) claim ∧ commit_identity c = claim_receipt_identity claim ∧
    ledger_history codec new_storage (ops ++ [CommitClaimed claim now c]) = log ++ [c] ∧
    ¬ is_Some (command_claims (tables (database s')) !! commit_identity c).
Proof.
  cbv zeta. destruct (ledger_run_refines codec codec_ok new_storage ops eq_refl) as [_ Hst Hse Hid Hre].
  pose proof (after_wf ops) as Hwf. split_and!; [done..|by intros i; apply load_current| |].
  - intros i [r Hr] Hin. apply Hre in Hin as [x Hx]. apply (lw_unanswered _ _ Hwf) in Hr. congruence.
  - intros claim now c s' r Hc. pose proof Hc as (He & Hcur & Hi & _ & Hsome & Hrep)%commit_claimed_effect; [|exact (lw_unanswered _ _ Hwf)].
    split_and!; [done..| |].
    + assert (∀ s l l', ledger_history codec s (l ++ l') = ledger_history codec s l ++ ledger_history codec (ledger_run codec s l) l') as ->.
      { clear. intros s l l'. revert s. induction l as [|op l IH]; intros s; [done|]. cbn. by rewrite IH, app_assoc. }
      cbn [ledger_history ledger_performed app]. rewrite Hc. cbn. by rewrite Hrep.
    + intros [x Hx]. assert (ledger_wf codec (database s')) as Hwf' by (by eapply effect_wf).
      apply (lw_unanswered _ _ Hwf') in Hx. rewrite Hx in Hsome. by destruct Hsome.
Qed.

(** C11. A superseded claim never commits: once the request of a claim was claimed under another
    authority, no commit under the first claim succeeds, at any time and after any further
    run, and the attempt changes nothing. *)
Theorem superseded_claim_never_commits ops a1 now1 i digest1 s1 c1 ops1 a2 now2 digest2 s2 c2 ops2 now c :
  admit_command a1 now1 i digest1 (after ops) = (s1, Ok (Claimed c1)) →
  admit_command a2 now2 i digest2 (ledger_run codec s1 ops1) = (s2, Ok (Claimed c2)) → a2 ≠ a1 →
  ∃ e, commit_claimed codec c1 now c (ledger_run codec s2 ops2) = (ledger_run codec s2 ops2, Err e).
Proof.
  intros H1 H2 Hne. pose proof (after_wf ops) as Hwf.
  apply (admit_effect codec) in H1 as [He1 (Hc1 & Hi1 & Ha1 & _)]. apply (admit_effect codec) in H2 as [He2 (Hc2 & Hi2 & Ha2 & _)].
  pose proof (effect_wf _ codec_ok _ _ _ Hwf He1) as Hwf1.
  pose proof (instances_run_wf codec codec_ok s1 ops1 Hwf1) as Hwf1'.
  pose proof (effect_wf _ codec_ok _ _ _ Hwf1' He2) as Hwf2.
  set (P db := current_claim db c1 ∨ fenced db (claim_receipt_identity c1) (claim_fence c1)).
  assert (P (database (ledger_run codec s1 ops1))) as HP.
  { apply ledger_run_keeps; [done| |done|by left]. intros t db db' new _. apply claim_stays. }
  assert (P (database s2)) as HP2 by (by eapply claim_stays).
  assert (fenced (database s2) (claim_receipt_identity c1) (claim_fence c1)) as Hf.
  { destruct HP2 as [(r & Hr & E1 & E2 & E3 & _)|?]; [|done]. exfalso. apply Hne.
    destruct Hc2 as (r' & Hr' & F1 & F2 & F3 & _). rewrite Hi1 in Hr. rewrite Hi2 in Hr'. simplify_eq.
    apply authority_ext; congruence. }
  apply fenced_commit_fails; [by apply instances_run_wf|].
  apply ledger_run_keeps; [done| |done|done]. intros t db db' new _ Hf' He'. by eapply fenced_stays.
Qed.

(** A retired authority is powerless: once another boot was registered for the instance, or
    the instance was released, or fenced after its lease expired, no operation under the first
    authority changes anything any more, whatever happens in between. *)
Theorem retired_authority_powerless ops i now expires s1 a ops1 s2 ops2 op :
  is_ok (instance_identity (instance_id i) (boot_id i)) = true → register i now expires (after ops) = (s1, Ok a) →
  (∃ i' now' expires' a', is_ok (instance_identity (instance_id i') (boot_id i')) = true ∧
     instance_id i' = instance_id i ∧ a' ≠ a ∧ register i' now' expires' (ledger_run codec s1 ops1) = (s2, Ok a')) ∨
  (∃ now' h, release codec a now' (ledger_run codec s1 ops1) = (s2, Ok h)) ∨
  (∃ now' h, fence_expired codec (instance_id i) now' (ledger_run codec s1 ops1) = (s2, Ok h)) →
  acts_under op = Some a →
  ledger_step codec (ledger_run codec s2 ops2) op = ledger_run codec s2 ops2.
Proof.
  intros Hn H1 Hret Hop. pose proof (after_wf ops) as Hwf. destruct (register_issues _ _ _ _ _ _ H1) as (Hid & r & Hr & Hg & Hb).
  apply (register_effect codec) in H1 as He1; [|done]. pose proof (effect_wf _ codec_ok _ _ _ Hwf He1) as Hwf1.
  pose proof (instances_run_wf codec codec_ok s1 ops1 Hwf1) as Hwf1'.
  assert (issued (database s1) a) as Hiss by (exists r; rewrite Hid; split; [done|right; by rewrite Hg, Hb]).
  assert (issued (database (ledger_run codec s1 ops1)) a) as Hiss1.
  { apply ledger_run_keeps; [done| |done|done]. intros t db db' new _ Hi He. by eapply issued_stays. }
  assert (retired (database s2) a ∧ ledger_wf codec (database s2)) as [Hr2 Hwf2].
  { destruct Hret as [(i' & now' & expires' & a' & Hn' & Hi' & Hne & H2)|[(now' & h & H2)|(now' & h & H2)]].
    - apply (register_effect codec) in H2 as He2; [|done]. split; [|by eapply effect_wf].
      destruct (register_issues _ _ _ _ _ _ H2) as (Hid' & r' & Hr' & Hg' & Hb').
      destruct (issued_stays _ _ _ _ _ Hiss1 He2) as (r2 & Hr2 & Hcase). rewrite Hid, <-Hi' in Hr2.
      assert (r2 = r') as -> by congruence. exists r'. rewrite Hid, <-Hi'. split; [done|]. destruct Hcase as [?|[Eg Eb]]; [by left|]. exfalso. apply Hne.
      apply authority_ext; congruence.
    - split; [by eapply release_retires|]. apply release_effect in H2 as He2. by eapply effect_wf.
    - split; [eapply fence_retires; [exact H2|done|by rewrite Hid]|]. apply fence_effect in H2 as He2. by eapply effect_wf. }
  eapply retired_step; [by apply instances_run_wf| |done].
  apply ledger_run_keeps; [done| |done|done]. intros t db db' new _ Hr' He. by eapply retired_stays.
Qed.

(** The instance a claim was given to is live. *)
Lemma admit_owner a now i digest s s' claim :
  admit_command a now i digest s = (s', Ok (Claimed claim)) →
  ∃ o, instances (tables (database s')) !! instance_id (authority_identity a) = Some o ∧ owned_by a o = true ∧ ¬ final o.
Proof.
  intros [_ [_ (_ & H & _)%ledger_transact_Ok]%attempt_then_Ok]%attempt_then_Ok. inv_tx.
  match goal with H : require_accepting _ _ = _ |- _ => unfold require_accepting in H; inv_result end.
  repeat match goal with u : () |- _ => destruct u end.
  match goal with H : require_authority _ _ = _, H' : require_live _ _ = _ |- _ =>
    destruct (live_row _ _ _ _ H H') as (o & Ho & Hown & _ & Hnf & _) end.
  exists o. split; [|done].
  match goal with H : load_committed _ _ = Ok ?x |- _ => destruct x as [committed|] end; inv_tx; [done|].
  match goal with H : load_claim _ _ = Ok ?x |- _ => destruct x as [existing|] end; inv_tx.
  - destruct (matches_authority existing a); inv_tx; [done|].
    match goal with H : takeover_claim _ _ _ _ _ = _ |- _ => apply takeover_claim_Ok in H as (old & _ & _ & _ & _ & E & _) end.
    match goal with H : database s' = _ |- _ => rewrite H | _ => idtac end. by subst.
  - match goal with H : insert_claim _ _ _ _ _ = _ |- _ => apply insert_claim_Ok in H as (_ & _ & E & _) end.
    match goal with H : database s' = _ |- _ => rewrite H | _ => idtac end. by subst.
Qed.

(** C9. While its lease lasts, the owner of a claim is alone with the command: as long as no
    clock passes the end of the lease, whatever the instances do, the claim stays the stored one
    or its request is answered, and no instance is given a claim of the request, or commits it,
    other than the owner under the claim's fence. *)
Theorem lease_excludes ops a now i digest s1 claim row mid :
  admit_command a now i digest (after ops) = (s1, Ok (Claimed claim)) →
  instances (tables (database s1)) !! instance_id (authority_identity a) = Some row →
  Forall (λ op, op_time op < row_lease_expires_at row) mid →
  let s2 := ledger_run codec s1 mid in
  (is_Some (command_receipts (database s2) !! i) ∨ current_claim (database s2) claim) ∧
  ∀ t, t < row_lease_expires_at row →
    (∀ b digest' s3 claim', admit_command b t i digest' s2 = (s3, Ok (Claimed claim')) →
       b = a ∧ claim_fence claim' = claim_fence claim ∧ claim_digest claim' = claim_digest claim) ∧
    (∀ claim' c s3 r, commit_claimed codec claim' t c s2 = (s3, Ok r) → commit_identity c = i →
       claim_authority claim' = a ∧ claim_fence claim' = claim_fence claim ∧ claim_digest claim' = claim_digest claim).
Proof.
  intros H1 Hrow Hmid. pose proof (after_wf ops) as Hwf. destruct (admit_owner _ _ _ _ _ _ _ H1) as (o & Ho & Hown & Hnf).
  apply (admit_effect codec) in H1 as [He1 ((r & Hr & E) & Ei & <- & _)].
  pose proof (effect_wf _ codec_ok _ _ _ Hwf He1) as Hwf1. rewrite Ei in Hr. simplify_eq. unfold owned_by in Hown. split_bools.
  set (limit := row_lease_expires_at row) in *.
  set (P db := is_Some (command_receipts db !! claim_receipt_identity claim) ∨
    command_claims (tables db) !! claim_receipt_identity claim = Some r ∧ holds db r (limit - 1)).
  assert (P (database s1)) as HP1.
  { right. split; [done|]. destruct E as (E1 & E2 & E3 & _). exists row. rewrite E1. split_and!; [done|congruence|lia|done|lia]. }
  assert (∀ t db db' new, t < limit → P db → ledger_effect codec t db db' new → P db') as Hstep.
  { intros t db db' new Ht [Hi|[Hr' Hh]] He; [left; by eapply effect_receipts|]. by eapply held_stays. }
  destruct (ledger_run_ind_within codec codec_ok (λ t, t < limit) (λ db _, P db) s1 mid [] Hwf1 HP1 Hmid) as [Hwf2 HP2].
  { intros t db db' _ new Ht _. by apply Hstep. }
  assert (∀ db c', P db → unanswered db → current_claim db c' → claim_receipt_identity c' = claim_receipt_identity claim →
    claim_authority c' = claim_authority claim ∧ claim_fence c' = claim_fence claim ∧ claim_digest c' = claim_digest claim) as Hsame.
  { intros db c' HP Hun (r' & Hr' & E') Ec. rewrite Ec in Hr'. destruct HP as [[x Hx]|[Hr2 _]].
    - apply Hun in Hr'. congruence.
    - simplify_eq. destruct E as (? & ? & ? & ? & ?), E' as (? & ? & ? & ? & ?). split_and!; [apply authority_ext|..]; congruence. }
  split; [destruct HP2 as [?|[? _]]; [by left|right; by exists r]|]. intros t Ht. split.
  - intros b digest' s3 claim' H2. apply (admit_effect codec) in H2 as [He2 (Hc2 & Ei2 & <- & _)].
    apply (Hsame (database s3)); [by eapply Hstep| |done..]. eapply lw_unanswered. by eapply effect_wf.
  - intros claim' c s3 x H2 Hi. pose proof (lw_unanswered _ _ Hwf2) as Hun.
    apply commit_claimed_effect in H2 as (_ & Hc2 & Ei2 & _); [|done]. apply (Hsame _ _ HP2 Hun Hc2). congruence.
Qed.

(** An admission to an accepting instance is answered exactly as the tables say: the receipt
    when the request has one with the same digest; otherwise a new claim, the instance's own
    claim again, or the claim of an owner that does not hold its lease any more under the next
    fence; a request in flight on another live instance and one with another digest are
    refused; what fails changes nothing. *)
Theorem admit_exact ops a now i digest :
  let s := after ops in let db := database s in
  accepting db a now → 0 ≤ now ≤ max_safe_integer → canonical_digest digest = true →
  (command_receipts db !! i = None → (admit_command a now i digest s).2 = Claimed <$> admission db a now i digest) ∧
  (∀ x, load_committed db i = Ok (Some x) →
     admit_command a now i digest s =
     (s, if bool_decide (committed_command_digest x = digest) then Ok (Committed x) else Err RequestConflict)) ∧
  (∀ s' e, admit_command a now i digest s = (s', Err e) → s' = s).
Proof.
  intros s db Ha Hn Hd. pose proof (after_wf ops) as Hwf. split_and!.
  - intros Hr. by apply admit_run; [apply after_wf|apply after_read_only|..].
  - intros x Hx. destruct (accepting_reads _ _ _ Hwf Ha) as (y & Hy & _ & Hacc). unfold admit_command.
    rewrite attempt_run by (apply refuse_Ok; lia). rewrite attempt_run by (unfold validate_digest; by rewrite Hd).
    rewrite ledger_transact_run by apply after_read_only. unfold commit. fold s db.
    rewrite (query_run _ y) by done. rewrite (lift_run _ tt) by done. rewrite (query_run _ (Some x)) by done. unfold ensure_digest.
    destruct (bool_decide_reflect (committed_command_digest x = digest)) as [->|Hne].
    + rewrite (lift_run _ tt) by (by rewrite differs_refl). unfold db. by destruct s.
    + rewrite (lift_Err_run _ RequestConflict) by (by rewrite bool_decide_eq_true_2). unfold db. by destruct s.
  - intros s' e. apply validated_fails, validated_fails, ledger_fails.
Qed.

Lemma fits_claims db t c : commit_fits codec db c → commit_fits codec (set_claims db t) c.
Proof. intros [? ? ? ? ? ? Hj ? ? [? ?]]. by split. Qed.

Lemma admit_takeover s a now i r :
  let db := database s in
  let r' := claim_row a (row_claim_digest r) (generation a) (row_claim_fence r + 1) now in
  ledger_wf codec db → read_only s = false → accepting db a now → 0 ≤ now ≤ max_safe_integer →
  command_claims (tables db) !! i = Some r → ¬ holds db r now → row_claim_fence r < max_safe_integer →
  admit_command a now i (row_claim_digest r) s =
  (set_database s (set_claims db (<[i := r']> (command_claims (tables db)))), Ok (Claimed (public_claim i r' false))).
Proof.
  intros db r' Hwf Hro Ha Hn Hr Hnh Hf. pose proof Hr as (Hrc & Hcan & _ & _ & (o & Ho & _) & _)%(lw_claims _ _ Hwf).
  assert (matches_authority (stored_claim r) a = false) as Hm.
  { apply not_true_iff_false. intros Hm. apply Hnh. destruct Ha as (o' & Ho' & Hown & Hst & Hlt).
    unfold matches_authority, owned_by in *. split_bools. cbn in *. exists o'.
    split_and!; [congruence|congruence|lia|by eapply (open_not_final _ Active)|done]. }
  destruct (accepting_reads _ _ _ Hwf Ha) as (x & Hx & _ & Hacc). destruct (wf_reads _ _ _ Hwf Ho) as [owner Hread].
  assert (load_instance db (row_claim_instance_id r) = Ok (Some owner)) as Hload by (apply load_instance_Ok; by exists o).
  unfold admit_command. rewrite attempt_run by (apply refuse_Ok; lia). rewrite attempt_run by (unfold validate_digest; by rewrite Hcan).
  rewrite ledger_transact_run by done. fold db. unfold commit.
  rewrite (query_run _ x), (lift_run _ tt) by done. rewrite (query_run _ None) by (by apply load_committed_None).
  rewrite (query_run _ (Some (stored_claim r))) by (by apply wf_claim).
  erewrite tx_bind_run; [reflexivity|]. unfold ensure_digest. cbn [stored_claim stored_claim_digest].
  rewrite (lift_run _ tt) by (by rewrite differs_refl). fold (stored_claim r). rewrite Hm.
  rewrite (query_run _ (Some owner)) by exact Hload. rewrite (lift_run _ owner) by done.
  rewrite (holds_live_iff _ _ _ _ Hload), bool_decide_eq_false_2 by done. rewrite (lift_run _ tt) by done.
  by apply takeover_run.
Qed.

(** C30. A command outlives its owner: when the owner of a claim does not hold its lease any
    more, an accepting instance that asks for the same command takes it over under the next
    fence and completes it, and the previous claim is void. *)
Theorem failover_completes ops a now i r c :
  let s := after ops in let db := database s in
  command_claims (tables db) !! i = Some r → ¬ holds db r now → row_claim_fence r < max_safe_integer →
  accepting db a now → 0 ≤ now ≤ max_safe_integer →
  validate_commit c = Ok tt → commit_identity c = i → command_digest c = row_claim_digest r → commit_fits codec db c →
  ∃ s1 claim s2 receipt,
    admit_command a now i (row_claim_digest r) s = (s1, Ok (Claimed claim)) ∧ claim_fence claim = row_claim_fence r + 1 ∧
    commit_claimed codec claim now c s1 = (s2, Ok receipt) ∧ idempotent_replay receipt = false ∧
    is_Some (command_receipts (database s2) !! i) ∧
    ∀ replay now' c', (∃ e, commit_claimed codec (public_claim i r replay) now' c' s1 = (s1, Err e)) ∧
      ∃ e, commit_claimed codec (public_claim i r replay) now' c' s2 = (s2, Err e).
Proof.
  intros s db Hr Hnh Hf Ha Hn Hv Hi Hd Hfit. pose proof (after_wf ops) as Hwf. fold s db in Hwf.
  set (r' := claim_row a (row_claim_digest r) (generation a) (row_claim_fence r + 1) now).
  set (db1 := set_claims db (<[i := r']> (command_claims (tables db)))). set (s1 := set_database s db1).
  assert (admit_command a now i (row_claim_digest r) s = (s1, Ok (Claimed (public_claim i r' false)))) as Hadm
    by (apply admit_takeover; [done|apply after_read_only|done..]).
  pose proof Hadm as [He1 _]%(admit_effect codec). pose proof (effect_wf _ codec_ok _ _ _ Hwf He1) as Hwf1.
  assert (holds db1 r' now) as Hh1.
  { destruct Ha as (o & Ho & Hown & Hst & Hlt). unfold owned_by in Hown. split_bools. exists o. cbn.
    split_and!; [done|done|lia|by eapply (open_not_final _ Active)|done]. }
  destruct (commit_claimed_run s1 i r' false now c) as (s2 & receipt & Hcom & Hrep & Hrc2 & _);
    [done|apply after_read_only|done|cbn; apply lookup_insert_eq|done..|by apply fits_claims|].
  pose proof Hcom as (He2 & _)%commit_claimed_effect; [|exact (lw_unanswered _ _ Hwf1)].
  pose proof (effect_wf _ codec_ok _ _ _ Hwf1 He2) as Hwf2.
  assert (fenced (database s1) i (row_claim_fence r)) as Hf1.
  { right. exists r'. cbn. rewrite lookup_insert_eq. split; [done|lia]. }
  exists s1, (public_claim i r' false), s2, receipt. split_and!; try done; [by rewrite <-Hi|].
  intros replay now' c'. split; [by apply fenced_commit_fails|].
  apply fenced_commit_fails; [done|]. by eapply fenced_stays.
Qed.
End safety.

(** ** Two instances and one command *)

#[local] Abbreviation codec := fixture_store_codec.
#[local] Abbreviation codec_ok := fixture_store_codec_ok.

Definition instance_a : ControlPlaneInstanceIdentity := {| instance_id := "cpi_a"; boot_id := "cpb_a" |}.
Definition authority_a : ControlPlaneInstanceAuthority := {| authority_identity := instance_a; generation := 1 |}.
Definition instance_b : ControlPlaneInstanceIdentity := {| instance_id := "cpi_b"; boot_id := "cpb_b" |}.
Definition authority_b : ControlPlaneInstanceAuthority := {| authority_identity := instance_b; generation := 1 |}.

(** The instance [a] has a lease until 10, [b] until 100; [a] claims the first command. *)
Definition two_instances : list ledger_op := [New; Register "cpi_a" "cpb_a" 0 10; Register "cpi_b" "cpb_b" 0 100].
Definition fixture_digest : string := command_digest fixture_first.
Definition claim_a : ControlPlaneCommandClaim :=
  public_claim (fixture_request "1") (claim_row authority_a fixture_digest 1 1 5) false.
Definition claim_b : ControlPlaneCommandClaim :=
  public_claim (fixture_request "1") (claim_row authority_b fixture_digest 1 2 20) false.

Definition claimed_by_a : list ledger_op := two_instances ++ [Admit authority_a 5 (fixture_request "1") fixture_digest].
#[local] Abbreviation after ops := (ledger_run codec new_storage ops).

Lemma admitted_a :
  admit_command authority_a 5 (fixture_request "1") fixture_digest (after two_instances) = (after claimed_by_a, Ok (Claimed claim_a)).
Proof.
  enough ((admit_command authority_a 5 (fixture_request "1") fixture_digest (after two_instances)).2 = Ok (Claimed claim_a)) as <-
    by apply surjective_pairing.
  vm_compute. reflexivity.
Qed.

Definition claimed_by_b : list ledger_op := claimed_by_a ++ [Admit authority_b 20 (fixture_request "1") fixture_digest].

Lemma admitted_b :
  admit_command authority_b 20 (fixture_request "1") fixture_digest (after claimed_by_a) = (after claimed_by_b, Ok (Claimed claim_b)).
Proof.
  enough ((admit_command authority_b 20 (fixture_request "1") fixture_digest (after claimed_by_a)).2 = Ok (Claimed claim_b)) as <-
    by apply surjective_pairing.
  vm_compute. reflexivity.
Qed.

Definition committed_by_b : SqliteStorage := (commit_claimed codec claim_b 21 fixture_first (after claimed_by_b)).1.

Lemma commit_b : commit_claimed codec claim_b 21 fixture_first (after claimed_by_b) = (committed_by_b, Ok fixture_receipt).
Proof.
  enough ((commit_claimed codec claim_b 21 fixture_first (after claimed_by_b)).2 = Ok fixture_receipt) as <-
    by apply surjective_pairing.
  vm_compute. reflexivity.
Qed.

Lemma claimed_commits_serial_witness :
  ledger_history codec new_storage (claimed_by_b ++ [CommitClaimed claim_b 21 fixture_first]) = [fixture_first] ∧
  ¬ is_Some (command_claims (tables (database committed_by_b)) !! fixture_request "1").
Proof.
  destruct (claimed_commits_serial codec codec_ok claimed_by_b) as (_ & _ & _ & _ & H).
  destruct (H _ _ _ _ _ commit_b) as (_ & _ & Hh & Hn). split; [|exact Hn].
  rewrite Hh. change ([fixture_first]) with ([] ++ [fixture_first]) at 2. f_equal; vm_compute; reflexivity.
Defined.

Lemma superseded_claim_never_commits_witness :
  ∃ e, commit_claimed codec claim_a 6 fixture_first (after claimed_by_b) = (after claimed_by_b, Err e).
Proof.
  exact (superseded_claim_never_commits codec codec_ok two_instances authority_a 5 (fixture_request "1") fixture_digest
    (after claimed_by_a) claim_a [] authority_b 20 fixture_digest (after claimed_by_b) claim_b [] 6 fixture_first
    admitted_a admitted_b ltac:(discriminate)).
Defined.

(** [b] asks for the command of [a] while the lease of [a] lasts. *)
Lemma lease_excludes_witness :
  let s := after (claimed_by_a ++ [Admit authority_b 6 (fixture_request "1") fixture_digest]) in
  (is_Some (command_receipts (database s) !! fixture_request "1") ∨ current_claim (database s) claim_a) ∧
  ∀ s' c, admit_command authority_b 9 (fixture_request "1") fixture_digest s ≠ (s', Ok (Claimed c)).
Proof.
  destruct (lease_excludes codec codec_ok two_instances authority_a 5 (fixture_request "1") fixture_digest (after claimed_by_a) claim_a
    (active_row "cpb_a" 1 0 10) [Admit authority_b 6 (fixture_request "1") fixture_digest] admitted_a
    ltac:(vm_compute; reflexivity) ltac:(constructor; [vm_compute; reflexivity|constructor])) as [H1 H2].
  split; [exact H1|]. intros s' c H. destruct (H2 9 ltac:(vm_compute; reflexivity)) as [H3 _].
  destruct (H3 _ _ _ _ H) as [H4 _]. discriminate H4.
Defined.

Lemma registered_a : register instance_a 0 10 (after [New]) = (after [New; Register "cpi_a" "cpb_a" 0 10], Ok authority_a).
Proof.
  enough ((register instance_a 0 10 (after [New])).2 = Ok authority_a) as <- by apply surjective_pairing.
  vm_compute. reflexivity.
Qed.

(** Another boot of [a] after the lease expired. *)
Definition instance_a' : ControlPlaneInstanceIdentity := {| instance_id := "cpi_a"; boot_id := "cpb_c" |}.
Definition authority_a' : ControlPlaneInstanceAuthority := {| authority_identity := instance_a'; generation := 2 |}.
Definition rebooted : list ledger_op := [New; Register "cpi_a" "cpb_a" 0 10; Register "cpi_a" "cpb_c" 15 50].

Lemma registered_a' :
  register instance_a' 15 50 (after [New; Register "cpi_a" "cpb_a" 0 10]) = (after rebooted, Ok authority_a').
Proof.
  enough ((register instance_a' 15 50 (after [New; Register "cpi_a" "cpb_a" 0 10])).2 = Ok authority_a') as <-
    by apply surjective_pairing.
  vm_compute. reflexivity.
Qed.

Lemma retired_authority_powerless_witness :
  ledger_step codec (after rebooted) (Renew authority_a 16 60) = after rebooted.
Proof.
  apply (retired_authority_powerless codec codec_ok [New] instance_a 0 10 _ authority_a [] (after rebooted) [] (Renew authority_a 16 60)
    ltac:(reflexivity) registered_a); [|reflexivity].
  left. exists instance_a', 15, 50, authority_a'.
  split; [reflexivity|]. split; [reflexivity|]. split; [discriminate|exact registered_a'].
Defined.

Lemma accepting_b : accepting (database (after claimed_by_a)) authority_b 20.
Proof.
  exists (active_row "cpb_b" 1 0 100).
  split_and!; vm_compute; reflexivity.
Qed.

Lemma admit_exact_witness :
  (admit_command authority_b 20 (fixture_request "1") fixture_digest (after claimed_by_a)).2 = Ok (Claimed claim_b).
Proof.
  destruct (admit_exact codec codec_ok claimed_by_a authority_b 20 (fixture_request "1") fixture_digest accepting_b
    ltac:(split; vm_compute; discriminate) ltac:(vm_compute; reflexivity)) as (H & _).
  rewrite H by (vm_compute; reflexivity). vm_compute. reflexivity.
Defined.

Lemma fixture_fits_first : commit_fits codec (database (after claimed_by_a)) fixture_first.
Proof.
  split; try (vm_compute; reflexivity).
  - constructor.
  - constructor; [vm_compute; reflexivity|constructor].
  - discriminate.
  - intros p [= <-]. vm_compute. reflexivity.
  - intros e i r H. discriminate H.
  - constructor; [|constructor]. split; [|vm_compute; reflexivity]. intros H. vm_compute in H. by apply not_elem_of_nil in H.
  - split; [vm_compute; discriminate|]. intros key. vm_compute. discriminate.
Qed.

Lemma expired_a : ¬ holds (database (after claimed_by_a)) (claim_row authority_a fixture_digest 1 1 5) 20.
Proof. apply (bool_decide_eq_false_1 _). vm_compute. reflexivity. Qed.

Lemma claim_row_a :
  command_claims (tables (database (after claimed_by_a))) !! fixture_request "1" =
  Some (claim_row authority_a fixture_digest 1 1 5).
Proof. vm_compute. reflexivity. Qed.

Lemma failover_completes_witness :
  ∃ s1 claim s2 receipt,
    admit_command authority_b 20 (fixture_request "1") fixture_digest (after claimed_by_a) = (s1, Ok (Claimed claim)) ∧
    commit_claimed codec claim 20 fixture_first s1 = (s2, Ok receipt) ∧ claim_fence claim = 2.
Proof.
  destruct (failover_completes codec codec_ok claimed_by_a authority_b 20 (fixture_request "1")
    (claim_row authority_a fixture_digest 1 1 5) fixture_first claim_row_a expired_a ltac:(reflexivity) accepting_b
    ltac:(split; vm_compute; discriminate) ltac:(vm_compute; reflexivity) eq_refl eq_refl fixture_fits_first)
    as (s1 & claim & s2 & receipt & H1 & Hf & H2 & _).
  exists s1, claim, s2, receipt. exact (conj H1 (conj H2 Hf)).
Defined.
