(* ===== verification/Queue.v ===== *)
(** * Execution queue

    Models [crates/winwincode-storage/src/execution_queue.rs]: the durable queue of execution
    jobs.  A job is submitted once with the jobs it depends on, leased when they completed,
    run, and completed or failed; it may be cancelled, and a failed or running attempt may be
    replaced by the next.  Every change is made under the revision it expects, and its receipt
    is stored with it, so that a repeated request is answered again.  Serde and SHA-256 are
    arguments; an error is its kind. *)

From Stdlib Require Import Ascii String.
From stdpp Require Import sorting.
From S2P Require Import Prelude Text Ordered Transaction StateKeys.
Local Open Scope Z_scope.

(** ** Data *)

Definition MAX_ATTEMPT : Z := 1000.
Definition MAX_DEPENDENCIES : Z := 1024.
Definition MAX_DISPATCH_PAYLOAD_BYTES : Z := 16 * 1024 * 1024.
Definition MAX_PAGE_SIZE : Z := 100.

Record ExecutionQueueScope : Type := {
  scope_organization_id : string;
  scope_workspace_id : string;
  scope_project_id : string;
  scope_repository_id : string;
  scope_product_session_id : string;
  scope_delivery_id : option string
}.

#[global] Instance ExecutionQueueScope_eq_dec : EqDecision ExecutionQueueScope.
Proof. solve_decision. Defined.

Inductive ExecutionJobState : Type := Queued | Leased | Running | Cancelling | Completed | Failed.

#[global] Instance ExecutionJobState_eq_dec : EqDecision ExecutionJobState.
Proof. solve_decision. Defined.

(** [ExecutionJobState::as_str]. *)
Definition job_state_str (st : ExecutionJobState) : string :=
  match st with
  | Queued => "queued" | Leased => "leased" | Running => "running"
  | Cancelling => "cancelling" | Completed => "completed" | Failed => "failed"
  end.

Definition job_states : list ExecutionJobState := [Queued; Leased; Running; Cancelling; Completed; Failed].

(** [ExecutionJobState::from_stored]. *)
Definition job_state_from_stored (value : string) : stored ExecutionJobState :=
  if bool_decide (value = "queued"%string) then Ok Queued
  else if bool_decide (value = "leased"%string) then Ok Leased
  else if bool_decide (value = "running"%string) then Ok Running
  else if bool_decide (value = "cancelling"%string) then Ok Cancelling
  else if bool_decide (value = "completed"%string) then Ok Completed
  else if bool_decide (value = "failed"%string) then Ok Failed
  else Err adapter.

Record ExecutionJobCancellationIntent : Type := { intent_request_id : string; intent_requested_at : string }.

#[global] Instance ExecutionJobCancellationIntent_eq_dec : EqDecision ExecutionJobCancellationIntent.
Proof. solve_decision. Defined.

Record ExecutionJobSubmission : Type := {
  sub_scope : ExecutionQueueScope;
  sub_job_id : string;
  sub_request_id : string;
  sub_payload_digest : string;
  sub_dispatch_payload : string;
  sub_attempt : Z;
  sub_dependencies : list string;
  sub_work_run_id : option string;
  sub_submitted_at : string
}.

Record ExecutionJobTransitionRequest : Type := {
  tr_scope : ExecutionQueueScope;
  tr_job_id : string;
  tr_request_id : string;
  tr_expected_revision : Z;
  tr_from : ExecutionJobState;
  tr_to : ExecutionJobState;
  tr_occurred_at : string
}.

Record ExecutionJobCancellationRequest : Type := {
  cr_scope : ExecutionQueueScope;
  cr_job_id : string;
  cr_request_id : string;
  cr_expected_revision : Z;
  cr_requested_at : string
}.

Record ExecutionJobRecord : Type := {
  job_scope : ExecutionQueueScope;
  job_id : string;
  submission_request_id : string;
  payload_digest : string;
  dispatch_payload : string;
  job_state : ExecutionJobState;
  job_attempt : Z;
  job_revision : Z;
  job_dependencies : list string;
  job_work_run_id : option string;
  job_submitted_at : string;
  job_updated_at : string;
  cancellation : option ExecutionJobCancellationIntent
}.

#[global] Instance ExecutionJobRecord_eq_dec : EqDecision ExecutionJobRecord.
Proof. solve_decision. Defined.

Record ExecutionJobMutationReceipt : Type := { receipt_job : ExecutionJobRecord; replayed : bool }.

Record ExecutionJobPageCursor : Type := { cursor_submitted_at : string; cursor_job_id : string }.

Record ExecutionJobPage : Type := { page_jobs : list ExecutionJobRecord; next_cursor : option ExecutionJobPageCursor }.

Inductive ExecutionJobSubmissionMode : Type := SubmitOrReplay | RequireNew | RequireReplay.

#[global] Instance ExecutionJobSubmissionMode_eq_dec : EqDecision ExecutionJobSubmissionMode.
Proof. solve_decision. Defined.

(** The digest of a replaced attempt. *)
Record ReplacementDigest : Type := {
  rd_job_id : string;
  rd_request_id : string;
  rd_expected_revision : Z;
  rd_previous_attempt : Z;
  rd_next_attempt : Z;
  rd_dispatch_payload : string;
  rd_occurred_at : string
}.

(** The values that are digested. *)
Inductive QueueValue : Type :=
| ScopeValue (v : ExecutionQueueScope)
| SubmissionValue (v : ExecutionJobSubmission)
| TransitionValue (v : ExecutionJobTransitionRequest)
| CancellationValue (v : ExecutionJobCancellationRequest)
| ReplacementValue (v : ReplacementDigest).

(** serde_json and SHA-256. *)
Record QueueCodec : Type := {
  to_vec : QueueValue → string;
  queue_sha256_hex : string → string;
  encode_receipt : ExecutionJobMutationReceipt → string;
  decode_receipt : string → option ExecutionJobMutationReceipt
}.

(** ** Tables *)

(** A row of [scheduler_execution_jobs]; its [job_id] is the key. *)
Record StoredJobRow : Type := {
  row_scope : ExecutionQueueScope;
  row_work_run_id : option string;
  row_submission_request_id : string;
  row_payload_digest : string;
  row_dispatch_payload : string;
  row_job_state : string;
  row_attempt : Z;
  row_revision : Z;
  row_submitted_at : string;
  row_updated_at : string;
  row_cancellation_request_id : option string;
  row_cancellation_requested_at : option string
}.

Record DependencyRow : Type := { dep_job_id : string; dep_dependency_job_id : string; dep_ordinal : Z }.

Record JobReceiptRow : Type := {
  row_operation : string;
  row_receipt_job_id : string;
  row_request_digest : string;
  row_response_json : string
}.

Record QueueTables : Type := {
  jobs : gmap string StoredJobRow;
  dependencies : list DependencyRow;
  job_receipts : gmap (string * string) JobReceiptRow
}.

Definition empty_queue : QueueTables := {| jobs := ∅; dependencies := []; job_receipts := ∅ |}.

Definition set_jobs (t : QueueTables) (js : gmap string StoredJobRow) : QueueTables :=
  {| jobs := js; dependencies := dependencies t; job_receipts := job_receipts t |}.

Definition set_dependencies (t : QueueTables) (ds : list DependencyRow) : QueueTables :=
  {| jobs := jobs t; dependencies := ds; job_receipts := job_receipts t |}.

Definition set_job_receipts (t : QueueTables) (rs : gmap (string * string) JobReceiptRow) : QueueTables :=
  {| jobs := jobs t; dependencies := dependencies t; job_receipts := rs |}.

Abbreviation queue_tx A := (tx QueueTables StorageError A).

(** The [CHECK]s of [scheduler_execution_jobs]. *)
Definition job_checks (r : StoredJobRow) : bool :=
  existsb (λ st, bool_decide (row_job_state r = job_state_str st)) job_states &&
  (1 <=? row_attempt r) && (row_attempt r <=? MAX_ATTEMPT) && (1 <=? row_revision r) &&
  bool_decide (is_Some (row_cancellation_request_id r) ↔ is_Some (row_cancellation_requested_at r)).

Definition active_job_state (value : string) : bool :=
  existsb (λ st, bool_decide (value = job_state_str st)) [Queued; Leased; Running; Cancelling].

(** The unique index [scheduler_execution_jobs_active_work_run]. *)
Definition work_run_taken (t : QueueTables) (j : string) (r : StoredJobRow) : bool :=
  match row_work_run_id r with
  | Some w =>
      active_job_state (row_job_state r) &&
      existsb (λ '(k, x), negb (bool_decide (k = j)) && bool_decide (row_work_run_id x = Some w) &&
                          active_job_state (row_job_state x)) (map_to_list (jobs t))
  | None => false
  end.

Definition insert_job (j : string) (r : StoredJobRow) : queue_tx () :=
  execute (λ t,
    refuse (bool_decide (is_Some (jobs t !! j)) || negb (job_checks r) || work_run_taken t j r) adapter ;;
    Ok (tt, set_jobs t (<[j := r]> (jobs t)))).

(** [UPDATE scheduler_execution_jobs SET ... WHERE job_id = j AND ...]: the number of rows. *)
Definition update_job (j : string) (selected : StoredJobRow → bool) (f : StoredJobRow → StoredJobRow) : queue_tx Z :=
  execute (λ t,
    match jobs t !! j with
    | Some r =>
        if selected r then
          refuse (negb (job_checks (f r)) || work_run_taken t j (f r)) adapter ;;
          Ok (1, set_jobs t (<[j := f r]> (jobs t)))
        else Ok (0, t)
    | None => Ok (0, t)
    end).

Definition insert_dependency (d : DependencyRow) : queue_tx () :=
  execute (λ t,
    refuse (existsb (λ x, bool_decide (dep_job_id x = dep_job_id d) &&
                          (bool_decide (dep_dependency_job_id x = dep_dependency_job_id d) ||
                           (dep_ordinal x =? dep_ordinal d))) (dependencies t) ||
            (dep_ordinal d <? 0) || bool_decide (¬ is_Some (jobs t !! dep_job_id d)) ||
            bool_decide (¬ is_Some (jobs t !! dep_dependency_job_id d))) adapter ;;
    Ok (tt, set_dependencies t (dependencies t ++ [d]))).

(** ** Checks *)

Definition validate_id (value prefix : string) : stored () :=
  refuse (negb (is_canonical_prefixed_id value prefix)) invalid.

Definition validate_digest (digest : string) : stored () := refuse (negb (sha256_shape digest)) invalid.

Definition validate_instant (value : string) : stored () := refuse (negb (instant_shape value)) invalid.

Definition validate_scope (s : ExecutionQueueScope) : stored () :=
  validate_id (scope_organization_id s) "org_" ;;
  validate_id (scope_workspace_id s) "wsp_" ;;
  validate_id (scope_project_id s) "prj_" ;;
  validate_id (scope_repository_id s) "rep_" ;;
  validate_id (scope_product_session_id s) "psn_" ;;
  match scope_delivery_id s with Some d => validate_id d "dlv_" | None => Ok tt end.

Definition set_sub_dependencies (q : ExecutionJobSubmission) (ds : list string) : ExecutionJobSubmission :=
  {| sub_scope := sub_scope q; sub_job_id := sub_job_id q; sub_request_id := sub_request_id q;
     sub_payload_digest := sub_payload_digest q; sub_dispatch_payload := sub_dispatch_payload q;
     sub_attempt := sub_attempt q; sub_dependencies := ds; sub_work_run_id := sub_work_run_id q;
     sub_submitted_at := sub_submitted_at q |}.

Definition payload_size_invalid (payload : string) : bool :=
  (str_len payload =? 0) || (MAX_DISPATCH_PAYLOAD_BYTES <? str_len payload).

Definition normalized_submission (q : ExecutionJobSubmission) : stored ExecutionJobSubmission :=
  validate_scope (sub_scope q) ;;
  validate_id (sub_job_id q) "job_" ;;
  validate_id (sub_request_id q) "req_" ;;
  validate_digest (sub_payload_digest q) ;;
  validate_instant (sub_submitted_at q) ;;
  refuse (payload_size_invalid (sub_dispatch_payload q)) invalid ;;
  refuse ((sub_attempt q =? 0) || (MAX_ATTEMPT <? sub_attempt q)) invalid ;;
  match sub_work_run_id q with
  | Some w =>
      validate_id w "wrn_" ;;
      refuse (bool_decide (scope_delivery_id (sub_scope q) = None)) invalid
  | None => refuse (bool_decide (is_Some (scope_delivery_id (sub_scope q)))) invalid
  end ;;
  refuse (MAX_DEPENDENCIES <? Z.of_nat (length (sub_dependencies q))) invalid ;;
  let ds := sort_unstable (sub_dependencies q) in
  check_all (λ d, validate_id d "job_" ;; refuse (bool_decide (d = sub_job_id q)) invalid) ds ;;
  refuse (adjacent_equal id ds) invalid ;;
  Ok (set_sub_dependencies q ds).

Definition validate_expected_revision (revision : Z) : stored () :=
  refuse ((revision =? 0) || (i64_max <? revision)) invalid.

Definition validate_transition_request (q : ExecutionJobTransitionRequest) : stored () :=
  validate_scope (tr_scope q) ;;
  validate_id (tr_job_id q) "job_" ;;
  validate_id (tr_request_id q) "req_" ;;
  validate_instant (tr_occurred_at q) ;;
  validate_expected_revision (tr_expected_revision q).

Definition validate_cancellation_request (q : ExecutionJobCancellationRequest) : stored () :=
  validate_scope (cr_scope q) ;;
  validate_id (cr_job_id q) "job_" ;;
  validate_id (cr_request_id q) "req_" ;;
  validate_instant (cr_requested_at q) ;;
  validate_expected_revision (cr_expected_revision q).

Definition legal_transition (from to : ExecutionJobState) : bool :=
  match from, to with
  | Queued, (Leased | Failed) => true
  | Leased, (Running | Queued | Failed) => true
  | Running, (Queued | Completed | Failed) => true
  | Cancelling, (Completed | Failed) => true
  | _, _ => false
  end.

(** ** Reads *)

(** A stored value that fails a check is an adapter error. *)
Definition stored_check (r : stored ()) : stored () := map_err (λ _, adapter) r.

Definition validate_stored_record (x : ExecutionJobRecord) : stored () :=
  stored_check (validate_scope (job_scope x)) ;;
  stored_check (validate_id (job_id x) "job_") ;;
  stored_check (validate_id (submission_request_id x) "req_") ;;
  stored_check (validate_digest (payload_digest x)) ;;
  match job_work_run_id x with Some w => stored_check (validate_id w "wrn_") | None => Ok tt end ;;
  refuse (bool_decide (¬ (is_Some (scope_delivery_id (job_scope x)) ↔ is_Some (job_work_run_id x)))) adapter ;;
  stored_check (validate_instant (job_submitted_at x)) ;;
  stored_check (validate_instant (job_updated_at x)) ;;
  refuse (str_ltb (job_updated_at x) (job_submitted_at x) || payload_size_invalid (dispatch_payload x) ||
          (job_attempt x =? 0) || (MAX_ATTEMPT <? job_attempt x) || (job_revision x =? 0) ||
          (MAX_DEPENDENCIES <? Z.of_nat (length (job_dependencies x)))) adapter ;;
  check_all (λ d, stored_check (validate_id d "job_")) (job_dependencies x) ;;
  match cancellation x with
  | Some c =>
      stored_check (validate_id (intent_request_id c) "req_") ;;
      stored_check (validate_instant (intent_requested_at c))
  | None => Ok tt
  end ;;
  refuse (bool_decide (job_state x = Cancelling) && bool_decide (cancellation x = None)) adapter.

(** [SELECT dependency_job_id ... WHERE job_id = ?1 ORDER BY ordinal]. *)
Definition dependencies_of (t : QueueTables) (j : string) : list string :=
  dep_dependency_job_id <$> order_by dep_ordinal (filter (λ d, dep_job_id d = j) (dependencies t)).

(** An [i64] column as a [u64]; a sum beyond the range of [i64] is not stored as an integer. *)
Definition stored_u64 (z : Z) : stored Z := refuse ((z <? 0) || (i64_max <? z)) adapter ;; Ok z.

Definition complete_record (t : QueueTables) (j : string) (r : StoredJobRow) : stored ExecutionJobRecord :=
  attempt ← stored_u64 (row_attempt r);
  revision ← stored_u64 (row_revision r);
  intent ← match row_cancellation_request_id r, row_cancellation_requested_at r with
           | None, None => Ok None
           | Some request, Some at_ => Ok (Some {| intent_request_id := request; intent_requested_at := at_ |})
           | _, _ => Err adapter
           end;
  st ← job_state_from_stored (row_job_state r);
  let x := {| job_scope := row_scope r; job_id := j; submission_request_id := row_submission_request_id r;
              payload_digest := row_payload_digest r; dispatch_payload := row_dispatch_payload r; job_state := st;
              job_attempt := attempt; job_revision := revision; job_dependencies := dependencies_of t j;
              job_work_run_id := row_work_run_id r; job_submitted_at := row_submitted_at r;
              job_updated_at := row_updated_at r; cancellation := intent |} in
  validate_stored_record x ;;
  Ok x.

Definition load_scoped_job (t : QueueTables) (s : ExecutionQueueScope) (j : string) : stored (option ExecutionJobRecord) :=
  match jobs t !! j with
  | Some r => if bool_decide (row_scope r = s) then Some <$> complete_record t j r else Ok None
  | None => Ok None
  end.

Definition load_job_scope (t : QueueTables) (j : string) : stored (option ExecutionQueueScope) :=
  match jobs t !! j with
  | Some r => validate_scope (row_scope r) ;; Ok (Some (row_scope r))
  | None => Ok None
  end.

(** The dependency is missing, not completed, or was cancelled. *)
Definition blocking (t : QueueTables) (d : string) : bool :=
  match jobs t !! d with
  | Some r => negb (bool_decide (row_job_state r = job_state_str Completed)) ||
              bool_decide (is_Some (row_cancellation_request_id r))
  | None => true
  end.

Definition has_blocking_dependency (t : QueueTables) (j : string) : bool :=
  existsb (λ d, bool_decide (dep_job_id d = j) && blocking t (dep_dependency_job_id d)) (dependencies t).

(** ** Writes *)

(** The columns of the [UPDATE]s. *)
Definition row_moved (st : ExecutionJobState) (at_ : string) (r : StoredJobRow) : StoredJobRow :=
  {| row_scope := row_scope r; row_work_run_id := row_work_run_id r;
     row_submission_request_id := row_submission_request_id r; row_payload_digest := row_payload_digest r;
     row_dispatch_payload := row_dispatch_payload r; row_job_state := job_state_str st;
     row_attempt := row_attempt r; row_revision := row_revision r + 1; row_submitted_at := row_submitted_at r;
     row_updated_at := at_; row_cancellation_request_id := row_cancellation_request_id r;
     row_cancellation_requested_at := row_cancellation_requested_at r |}.

Definition row_cancelled (request at_ : string) (r : StoredJobRow) : StoredJobRow :=
  {| row_scope := row_scope r; row_work_run_id := row_work_run_id r;
     row_submission_request_id := row_submission_request_id r; row_payload_digest := row_payload_digest r;
     row_dispatch_payload := row_dispatch_payload r; row_job_state := job_state_str Cancelling;
     row_attempt := row_attempt r; row_revision := row_revision r + 1; row_submitted_at := row_submitted_at r;
     row_updated_at := at_; row_cancellation_request_id := Some request;
     row_cancellation_requested_at := Some at_ |}.

Definition row_replaced (attempt : Z) (work_run : option string) (payload at_ : string) (r : StoredJobRow) : StoredJobRow :=
  {| row_scope := row_scope r; row_work_run_id := work_run;
     row_submission_request_id := row_submission_request_id r; row_payload_digest := row_payload_digest r;
     row_dispatch_payload := payload; row_job_state := job_state_str Leased;
     row_attempt := attempt; row_revision := row_revision r + 1; row_submitted_at := row_submitted_at r;
     row_updated_at := at_; row_cancellation_request_id := row_cancellation_request_id r;
     row_cancellation_requested_at := row_cancellation_requested_at r |}.

Definition row_submitted (q : ExecutionJobSubmission) : StoredJobRow :=
  {| row_scope := sub_scope q; row_work_run_id := sub_work_run_id q;
     row_submission_request_id := sub_request_id q; row_payload_digest := sub_payload_digest q;
     row_dispatch_payload := sub_dispatch_payload q; row_job_state := job_state_str Queued;
     row_attempt := sub_attempt q; row_revision := 1; row_submitted_at := sub_submitted_at q;
     row_updated_at := sub_submitted_at q; row_cancellation_request_id := None;
     row_cancellation_requested_at := None |}.

(** [i64::try_from]. *)
Definition queue_integer (z : Z) : stored Z := refuse (i64_max <? z) invalid ;; Ok z.

Section queue.
Context (codec : QueueCodec).

Definition digest (v : QueueValue) : string := "sha256:" +:+ queue_sha256_hex codec (to_vec codec v).

Definition scope_key (s : ExecutionQueueScope) : string := digest (ScopeValue s).

Definition replay_receipt (t : QueueTables) (key request request_digest : string) :
    stored (option ExecutionJobMutationReceipt) :=
  match job_receipts t !! (key, request) with
  | None => Ok None
  | Some row =>
      refuse (bool_decide (row_request_digest row ≠ request_digest)) (storage_error RequestConflict) ;;
      receipt ← ok_or (decode_receipt codec (row_response_json row)) adapter;
      validate_stored_record (receipt_job receipt) ;;
      Ok (Some {| receipt_job := receipt_job receipt; replayed := true |})
  end.

Definition insert_receipt (key request operation j request_digest : string) (receipt : ExecutionJobMutationReceipt) :
    queue_tx () :=
  execute (λ t,
    refuse (bool_decide (is_Some (job_receipts t !! (key, request)))) adapter ;;
    Ok (tt, set_job_receipts t
              (<[(key, request) := {| row_operation := operation; row_receipt_job_id := j;
                                      row_request_digest := request_digest;
                                      row_response_json := encode_receipt codec receipt |}]> (job_receipts t)))).

(** The changed job and its receipt, as every operation answers. *)
Definition store_receipt (s : ExecutionQueueScope) (key request operation j request_digest : string) :
    queue_tx ExecutionJobMutationReceipt :=
  found ← query (λ t, load_scoped_job t s j);
  x ← lift (ok_or found adapter);
  let receipt := {| receipt_job := x; replayed := false |} in
  insert_receipt key request operation j request_digest receipt ;;
  mret receipt.

Definition transition_execution_job_in_transaction (q : ExecutionJobTransitionRequest) :
    queue_tx ExecutionJobMutationReceipt :=
  lift (validate_transition_request q) ;;
  let request_digest := digest (TransitionValue q) in
  let key := scope_key (tr_scope q) in
  prior ← query (λ t, replay_receipt t key (tr_request_id q) request_digest);
  match prior with
  | Some receipt => mret receipt
  | None =>
      found ← query (λ t, load_scoped_job t (tr_scope q) (tr_job_id q));
      current ← lift (ok_or found invalid);
      lift (refuse (negb (job_revision current =? tr_expected_revision q)) (storage_error RevisionConflict)) ;;
      lift (refuse (bool_decide (job_state current ≠ tr_from q)) invalid) ;;
      lift (refuse (negb (legal_transition (tr_from q) (tr_to q))) invalid) ;;
      lift (refuse (str_ltb (tr_occurred_at q) (job_updated_at current)) invalid) ;;
      query (λ t, refuse (bool_decide (tr_to q = Leased) && has_blocking_dependency t (tr_job_id q)) invalid) ;;
      expected ← lift (queue_integer (tr_expected_revision q));
      changed ← update_job (tr_job_id q)
                  (λ r, (row_revision r =? expected) && bool_decide (row_job_state r = job_state_str (tr_from q)))
                  (row_moved (tr_to q) (tr_occurred_at q));
      lift (refuse (negb (changed =? 1)) adapter) ;;
      store_receipt (tr_scope q) key (tr_request_id q) "transition" (tr_job_id q) request_digest
  end.

Definition replace_execution_job_attempt_in_transaction (current : ExecutionJobRecord) (request : string)
    (next_attempt : Z) (work_run : option string) (payload occurred_at : string) : queue_tx ExecutionJobMutationReceipt :=
  lift (validate_scope (job_scope current)) ;;
  lift (validate_id (job_id current) "job_") ;;
  lift (validate_id request "req_") ;;
  lift (validate_instant occurred_at) ;;
  lift (refuse (negb (match job_state current with Leased | Running | Failed => true | _ => false end) ||
                bool_decide (is_Some (cancellation current)) ||
                negb (next_attempt =? saturating_add_u64 (job_attempt current) 1) || (MAX_ATTEMPT <? next_attempt) ||
                payload_size_invalid payload || str_ltb occurred_at (job_updated_at current)) invalid) ;;
  let request_digest := digest (ReplacementValue {|
    rd_job_id := job_id current; rd_request_id := request; rd_expected_revision := job_revision current;
    rd_previous_attempt := job_attempt current; rd_next_attempt := next_attempt;
    rd_dispatch_payload := payload; rd_occurred_at := occurred_at |}) in
  let key := scope_key (job_scope current) in
  prior ← query (λ t, replay_receipt t key request request_digest);
  match prior with
  | Some receipt => mret receipt
  | None =>
      found ← query (λ t, load_scoped_job t (job_scope current) (job_id current));
      durable ← lift (ok_or found invalid);
      lift (refuse (bool_decide (durable ≠ current)) (storage_error RevisionConflict)) ;;
      next ← lift (queue_integer next_attempt);
      expected ← lift (queue_integer (job_revision current));
      previous ← lift (queue_integer (job_attempt current));
      changed ← update_job (job_id current)
                  (λ r, (row_revision r =? expected) && (row_attempt r =? previous) &&
                        bool_decide (row_job_state r = job_state_str (job_state current)) &&
                        bool_decide (row_cancellation_request_id r = None))
                  (row_replaced next work_run payload occurred_at);
      lift (refuse (negb (changed =? 1)) adapter) ;;
      store_receipt (job_scope current) key request "transition" (job_id current) request_digest
  end.

Definition cancel_execution_job_in_transaction (q : ExecutionJobCancellationRequest) :
    queue_tx ExecutionJobMutationReceipt :=
  lift (validate_cancellation_request q) ;;
  let request_digest := digest (CancellationValue q) in
  let key := scope_key (cr_scope q) in
  prior ← query (λ t, replay_receipt t key (cr_request_id q) request_digest);
  match prior with
  | Some receipt => mret receipt
  | None =>
      found ← query (λ t, load_scoped_job t (cr_scope q) (cr_job_id q));
      current ← lift (ok_or found invalid);
      lift (refuse (negb (job_revision current =? cr_expected_revision q)) (storage_error RevisionConflict)) ;;
      lift (refuse (negb (match job_state current with Queued | Leased | Running => true | _ => false end)) invalid) ;;
      lift (refuse (str_ltb (cr_requested_at q) (job_updated_at current)) invalid) ;;
      expected ← lift (queue_integer (cr_expected_revision q));
      changed ← update_job (cr_job_id q)
                  (λ r, (row_revision r =? expected) &&
                        bool_decide (row_job_state r = job_state_str (job_state current)))
                  (row_cancelled (cr_request_id q) (cr_requested_at q));
      lift (refuse (negb (changed =? 1)) adapter) ;;
      store_receipt (cr_scope q) key (cr_request_id q) "cancel" (cr_job_id q) request_digest
  end.

Definition require_exact_submission_receipt (q : ExecutionJobSubmission) (receipt : ExecutionJobMutationReceipt) : stored () :=
  let x := receipt_job receipt in
  refuse (bool_decide (job_scope x ≠ sub_scope q) || bool_decide (job_id x ≠ sub_job_id q) ||
          bool_decide (submission_request_id x ≠ sub_request_id q) ||
          bool_decide (payload_digest x ≠ sub_payload_digest q) ||
          bool_decide (dispatch_payload x ≠ sub_dispatch_payload q) || negb (job_attempt x =? sub_attempt q) ||
          bool_decide (job_work_run_id x ≠ sub_work_run_id q) || negb (job_revision x =? 1) ||
          bool_decide (job_state x ≠ Queued) || bool_decide (job_dependencies x ≠ sub_dependencies q) ||
          bool_decide (job_submitted_at x ≠ sub_submitted_at q) ||
          bool_decide (job_updated_at x ≠ sub_submitted_at q) || bool_decide (is_Some (cancellation x))) adapter.

(** A dependency exists in the scope of the job. *)
Definition check_dependency (t : QueueTables) (s : ExecutionQueueScope) (d : string) : stored () :=
  found ← load_job_scope t d;
  scope ← ok_or found invalid;
  refuse (bool_decide (scope ≠ s)) invalid.

Fixpoint insert_dependencies (j : string) (ordinal : Z) (ds : list string) : queue_tx () :=
  match ds with
  | [] => mret tt
  | d :: ds =>
      insert_dependency {| dep_job_id := j; dep_dependency_job_id := d; dep_ordinal := ordinal |} ;;
      insert_dependencies j (ordinal + 1) ds
  end.

Definition insert_submission (q : ExecutionJobSubmission) (key request_digest : string) :
    queue_tx ExecutionJobMutationReceipt :=
  query (λ t, refuse (bool_decide (is_Some (jobs t !! sub_job_id q))) invalid) ;;
  query (λ t, check_all (check_dependency t (sub_scope q)) (sub_dependencies q)) ;;
  _ ← lift (queue_integer (sub_attempt q));
  insert_job (sub_job_id q) (row_submitted q) ;;
  insert_dependencies (sub_job_id q) 0 (sub_dependencies q) ;;
  store_receipt (sub_scope q) key (sub_request_id q) "submit" (sub_job_id q) request_digest.

Definition submit_execution_job_in_transaction (q : ExecutionJobSubmission) (mode : ExecutionJobSubmissionMode) :
    queue_tx ExecutionJobMutationReceipt :=
  q ← lift (normalized_submission q);
  let request_digest := digest (SubmissionValue q) in
  let key := scope_key (sub_scope q) in
  prior ← query (λ t, replay_receipt t key (sub_request_id q) request_digest);
  match prior with
  | Some receipt =>
      lift (refuse (bool_decide (mode = RequireNew)) invalid) ;;
      lift (require_exact_submission_receipt q receipt) ;;
      mret receipt
  | None =>
      lift (refuse (bool_decide (mode = RequireReplay)) (storage_error RequestReplayMissing)) ;;
      insert_submission q key request_digest
  end.

(** ** The queue *)

Definition submit (t : QueueTables) (q : ExecutionJobSubmission) : QueueTables * stored ExecutionJobMutationReceipt :=
  commit t (submit_execution_job_in_transaction q SubmitOrReplay).

Definition transition (t : QueueTables) (q : ExecutionJobTransitionRequest) :
    QueueTables * stored ExecutionJobMutationReceipt :=
  commit t (transition_execution_job_in_transaction q).

Definition request_cancellation (t : QueueTables) (q : ExecutionJobCancellationRequest) :
    QueueTables * stored ExecutionJobMutationReceipt :=
  commit t (cancel_execution_job_in_transaction q).

Definition load_job (t : QueueTables) (s : ExecutionQueueScope) (j : string) : stored (option ExecutionJobRecord) :=
  validate_scope s ;; validate_id j "job_" ;; load_scoped_job t s j.

Definition has_request (t : QueueTables) (s : ExecutionQueueScope) (request : string) : stored bool :=
  validate_scope s ;; validate_id request "req_" ;;
  Ok (bool_decide (is_Some (job_receipts t !! (scope_key s, request)))).

(** [ORDER BY submitted_at, job_id]. *)
Definition job_order (x y : string * StoredJobRow) : Prop :=
  str_ltb (row_submitted_at x.2) (row_submitted_at y.2) = true ∨
  row_submitted_at x.2 = row_submitted_at y.2 ∧ str_leb x.1 y.1 = true.

#[global] Instance job_order_dec x y : Decision (job_order x y).
Proof. unfold job_order. apply _. Defined.

Definition includes (states : list ExecutionJobState) (st : ExecutionJobState) : bool :=
  bool_decide (states = []) || bool_decide (st ∈ states).

(** The [WHERE] clause of the page. *)
Definition job_selected (s : ExecutionQueueScope) (states : list ExecutionJobState) (after_at after_job : string)
    (x : string * StoredJobRow) : Prop :=
  row_scope x.2 = s ∧
  (str_ltb after_at (row_submitted_at x.2) = true ∨
   row_submitted_at x.2 = after_at ∧ str_ltb after_job x.1 = true) ∧
  existsb (λ st, includes states st && bool_decide (row_job_state x.2 = job_state_str st)) job_states = true.

#[global] Instance job_selected_dec s states at_ j x : Decision (job_selected s states at_ j x).
Proof. unfold job_selected. apply _. Defined.

Definition select_jobs (t : QueueTables) (s : ExecutionQueueScope) (states : list ExecutionJobState)
    (after_at after_job : string) (limit : nat) : list (string * StoredJobRow) :=
  take limit (merge_sort job_order (filter (job_selected s states after_at after_job) (map_to_list (jobs t)))).

Definition cursor_of (x : ExecutionJobRecord) : ExecutionJobPageCursor :=
  {| cursor_submitted_at := job_submitted_at x; cursor_job_id := job_id x |}.

Definition list_jobs (t : QueueTables) (s : ExecutionQueueScope) (states : list ExecutionJobState)
    (after : option ExecutionJobPageCursor) (limit : nat) : stored ExecutionJobPage :=
  validate_scope s ;;
  refuse ((Z.of_nat limit =? 0) || (MAX_PAGE_SIZE <? Z.of_nat limit)) invalid ;;
  refuse (bool_decide (¬ NoDup states)) invalid ;;
  match after with
  | Some c => validate_instant (cursor_submitted_at c) ;; validate_id (cursor_job_id c) "job_"
  | None => Ok tt
  end ;;
  let after_at := match after with Some c => cursor_submitted_at c | None => ""%string end in
  let after_job := match after with Some c => cursor_job_id c | None => ""%string end in
  found ← mapM (λ '(j, r), complete_record t j r) (select_jobs t s states after_at after_job (limit + 1));
  let has_more := bool_decide (limit < length found)%nat in
  let page := if has_more then take (length found - 1) found else found in
  Ok {| page_jobs := page; next_cursor := if has_more then cursor_of <$> last page else None |}.
End queue.
