(* ===== verification/QueueFacts.v ===== *)
(** * Execution queue: what the operations do

    Lemmas on [Queue]: what the checks and reads mean, and the effect of each operation on the
    tables, which is none, a change of one job, or a new job ([queue_effect]); a changed or new
    job comes with its receipt. *)

From Stdlib Require Import Ascii String.
From stdpp Require Import sorting.
From S2P Require Import Prelude Text Ordered Transaction StateKeys Queue.
Local Open Scope Z_scope.

#[local] Arguments job_checks : simpl never.
#[local] Arguments validate_stored_record : simpl never.

(** ** Checks and reads *)

Lemma job_state_from_stored_Ok text st : job_state_from_stored text = Ok st ↔ text = job_state_str st.
Proof.
  unfold job_state_from_stored. split.
  - repeat case_bool_decide; intros [= <-]; done.
  - intros ->. by destruct st.
Qed.

Lemma job_state_str_inj st st' : job_state_str st = job_state_str st' → st = st'.
Proof. by destruct st, st'. Qed.

Lemma queue_integer_Ok z n : queue_integer z = Ok n ↔ z ≤ i64_max ∧ n = z.
Proof.
  unfold queue_integer. rewrite bind_Ok. setoid_rewrite refuse_Ok. split; [naive_solver lia|].
  intros [? ->]. exists tt. split; [lia|done].
Qed.

Lemma stored_u64_Ok z n : stored_u64 z = Ok n ↔ 0 ≤ z ≤ i64_max ∧ n = z.
Proof.
  unfold stored_u64. rewrite bind_Ok. setoid_rewrite refuse_Ok. setoid_rewrite orb_false_iff. split; [naive_solver lia|].
  intros [? ->]. exists tt. split; [lia|done].
Qed.

(** The record of a row. *)
Record row_record (t : QueueTables) (j : string) (r : StoredJobRow) (x : ExecutionJobRecord) : Prop := {
  rr_scope : job_scope x = row_scope r;
  rr_id : job_id x = j;
  rr_request : submission_request_id x = row_submission_request_id r;
  rr_digest : payload_digest x = row_payload_digest r;
  rr_payload : dispatch_payload x = row_dispatch_payload r;
  rr_state : row_job_state r = job_state_str (job_state x);
  rr_attempt : job_attempt x = row_attempt r ∧ 0 ≤ row_attempt r ≤ i64_max;
  rr_revision : job_revision x = row_revision r ∧ 0 ≤ row_revision r ≤ i64_max;
  rr_dependencies : job_dependencies x = dependencies_of t j;
  rr_work_run : job_work_run_id x = row_work_run_id r;
  rr_submitted : job_submitted_at x = row_submitted_at r;
  rr_updated : job_updated_at x = row_updated_at r;
  rr_cancellation : intent_request_id <$> cancellation x = row_cancellation_request_id r ∧
    intent_requested_at <$> cancellation x = row_cancellation_requested_at r
}.

Lemma complete_record_Ok t j r x :
  complete_record t j r = Ok x ↔ row_record t j r x ∧ validate_stored_record x = Ok tt.
Proof.
  unfold complete_record. split.
  - intros H. inv_result.
    repeat match goal with
    | H : stored_u64 _ = _ |- _ => apply stored_u64_Ok in H as [? ->]
    | H : job_state_from_stored _ = _ |- _ => apply job_state_from_stored_Ok in H
    | u : () |- _ => destruct u
    end.
    split; [|done]. destruct (row_cancellation_request_id r) eqn:E1, (row_cancellation_requested_at r) eqn:E2; inv_result;
      split; cbn; rewrite ?E1, ?E2; done || (split; [done|lia]).
  - intros [[E1 E2 E3 E4 E5 Est [E6 ?] [E7 ?] E8 E9 E10 E11 [Ec1 Ec2]] Hv].
    rewrite (proj2 (stored_u64_Ok (row_attempt r) (row_attempt r))) by (split; [lia|done]). cbn [mbind result_bind].
    rewrite (proj2 (stored_u64_Ok (row_revision r) (row_revision r))) by (split; [lia|done]). cbn [mbind result_bind].
    rewrite <-Ec1, <-Ec2. destruct x as [? ? ? ? ? st ? ? ? ? ? ? [[? ?]|]]; cbn in *;
      rewrite Est, (proj2 (job_state_from_stored_Ok _ st) eq_refl); cbn [mbind result_bind]; subst; by rewrite Hv.
Qed.

Lemma load_scoped_job_Ok t s j x :
  load_scoped_job t s j = Ok (Some x) ↔
  ∃ r, jobs t !! j = Some r ∧ row_scope r = s ∧ row_record t j r x ∧ validate_stored_record x = Ok tt.
Proof.
  unfold load_scoped_job. setoid_rewrite <-complete_record_Ok.
  destruct (jobs t !! j) as [r|]; [|naive_solver]. case_bool_decide; [|naive_solver].
  split.
  - destruct (complete_record t j r) eqn:E; [|done]. intros [= ->]. by exists r.
  - by intros (? & [= <-] & _ & ->).
Qed.

(** What is known of a record that was read. *)
Lemma validate_stored_iff r u : stored_check r = Ok u ↔ r = Ok tt.
Proof. unfold stored_check. rewrite map_err_Ok. by destruct u. Qed.

Record record_valid (x : ExecutionJobRecord) : Prop := {
  rv_scope : validate_scope (job_scope x) = Ok tt;
  rv_id : is_canonical_prefixed_id (job_id x) "job_" = true;
  rv_request : is_canonical_prefixed_id (submission_request_id x) "req_" = true;
  rv_digest : sha256_shape (payload_digest x) = true;
  rv_work_run : ∀ w, job_work_run_id x = Some w → is_canonical_prefixed_id w "wrn_" = true;
  rv_delivery : is_Some (scope_delivery_id (job_scope x)) ↔ is_Some (job_work_run_id x);
  rv_submitted : instant_shape (job_submitted_at x) = true;
  rv_updated : instant_shape (job_updated_at x) = true;
  rv_order : str_leb (job_submitted_at x) (job_updated_at x) = true;
  rv_payload : payload_size_invalid (dispatch_payload x) = false;
  rv_attempt : job_attempt x ≠ 0 ∧ job_attempt x ≤ MAX_ATTEMPT;
  rv_revision : job_revision x ≠ 0;
  rv_dependencies : Z.of_nat (length (job_dependencies x)) ≤ MAX_DEPENDENCIES ∧
    Forall (λ d, is_canonical_prefixed_id d "job_" = true) (job_dependencies x);
  rv_cancellation : ∀ c, cancellation x = Some c →
    is_canonical_prefixed_id (intent_request_id c) "req_" = true ∧ instant_shape (intent_requested_at c) = true;
  rv_cancelling : job_state x = Cancelling → is_Some (cancellation x)
}.

Lemma queue_id_Ok value prefix u : validate_id value prefix = Ok u ↔ is_canonical_prefixed_id value prefix = true.
Proof. unfold validate_id. by rewrite refuse_Ok, negb_false_iff. Qed.

Lemma validate_instant_Ok value u : validate_instant value = Ok u ↔ instant_shape value = true.
Proof. unfold validate_instant. by rewrite refuse_Ok, negb_false_iff. Qed.

Lemma validate_digest_Ok value u : validate_digest value = Ok u ↔ sha256_shape value = true.
Proof. unfold validate_digest. by rewrite refuse_Ok, negb_false_iff. Qed.

Lemma then_Ok {E A} (m : result E ()) (k : result E A) a : (m ;; k) = Ok a ↔ m = Ok tt ∧ k = Ok a.
Proof. rewrite bind_Ok. split; [intros ([] & ? & ?); done|intros [? ?]; by exists tt]. Qed.

Lemma validate_stored_record_Ok x : validate_stored_record x = Ok tt ↔ record_valid x.
Proof.
  unfold validate_stored_record. rewrite !then_Ok, !refuse_Ok, !check_all_Ok.
  setoid_rewrite validate_stored_iff. setoid_rewrite queue_id_Ok. rewrite !validate_digest_Ok, !validate_instant_Ok.
  rewrite !orb_false_iff, bool_decide_eq_false.
  split.
  - intros (? & ? & ? & ? & Hw & Hd & ? & ? & (((((Ho & ?) & ?) & ?) & ?) & ?) & Hds & Hc & Hcan).
    split; try done; try lia.
    + intros w E. by rewrite E, validate_stored_iff, queue_id_Ok in Hw.
    + by apply dec_stable.
    + unfold str_leb. by rewrite Ho.
    + split; [lia|done].
    + intros c E. rewrite E, then_Ok, !validate_stored_iff, queue_id_Ok, validate_instant_Ok in Hc. done.
    + intros E. rewrite andb_false_iff, !bool_decide_eq_false in Hcan. destruct Hcan as [?|Hn]; [done|].
      destruct (cancellation x); [by eexists|done].
  - intros [? ? ? ? Hw Hd ? ? Ho ? [? ?] ? [? ?] Hc Hcan]. split_and!; try done; try lia.
    + destruct (job_work_run_id x); [|done]. rewrite validate_stored_iff, queue_id_Ok. by apply Hw.
    + intros Hn. by apply Hn.
    + unfold str_leb in Ho. by destruct (str_ltb _ _).
    + destruct (cancellation x) as [c|]; [|done]. rewrite then_Ok, !validate_stored_iff, queue_id_Ok, validate_instant_Ok. by apply Hc.
    + rewrite andb_false_iff, !bool_decide_eq_false. destruct (decide (job_state x = Cancelling)) as [E|]; [|by left].
      right. intros En. apply Hcan in E. rewrite En in E. by destruct E.
Qed.

Lemma intent_ext (c c' : option ExecutionJobCancellationIntent) :
  intent_request_id <$> c = intent_request_id <$> c' → intent_requested_at <$> c = intent_requested_at <$> c' → c = c'.
Proof. destruct c as [[]|], c' as [[]|]; cbn; congruence. Qed.

(** A row has one record. *)
Lemma record_of_row t j r x y : row_record t j r x → row_record t j r y → x = y.
Proof.
  intros [? ? ? ? ? Hst [? _] [? _] ? ? ? ? [? ?]] [? ? ? ? ? Hst' [? _] [? _] ? ? ? ? [? ?]].
  destruct x, y; cbn in *. rewrite Hst in Hst'. apply job_state_str_inj in Hst'. subst.
  f_equal. apply intent_ext; congruence.
Qed.

(** ** Changes of a job *)

(** One step in the life of a job; [R] are the jobs whose failed attempt is replaced. *)
Inductive job_step (R : string → Prop) (t : QueueTables) (j : string) (r : StoredJobRow) : StoredJobRow → Prop :=
| js_move from to at_ :
    row_job_state r = job_state_str from → legal_transition from to = true →
    (to = Leased → has_blocking_dependency t j = false) → str_leb (row_updated_at r) at_ = true →
    job_step R t j r (row_moved to at_ r)
| js_cancel st request at_ :
    row_job_state r = job_state_str st → st = Queued ∨ st = Leased ∨ st = Running → str_leb (row_updated_at r) at_ = true →
    job_step R t j r (row_cancelled request at_ r)
| js_replace st n work_run payload at_ :
    row_job_state r = job_state_str st → st = Leased ∨ st = Running ∨ st = Failed ∧ R j → row_cancellation_request_id r = None →
    n = row_attempt r + 1 → str_leb (row_updated_at r) at_ = true →
    job_step R t j r (row_replaced n work_run payload at_ r).

Definition numbered_dependencies (j : string) (ordinal : Z) (ds : list string) : list DependencyRow :=
  imap (λ i d, {| dep_job_id := j; dep_dependency_job_id := d; dep_ordinal := ordinal + Z.of_nat i |}) ds.

(** The tables after a change of the job [j], or with a new job. *)
Definition with_job (t : QueueTables) (j : string) (r : StoredJobRow) (key : string * string) (row : JobReceiptRow) : QueueTables :=
  {| jobs := <[j := r]> (jobs t); dependencies := dependencies t; job_receipts := <[key := row]> (job_receipts t) |}.

Definition with_submission (t : QueueTables) (q : ExecutionJobSubmission) (key : string * string) (row : JobReceiptRow) : QueueTables :=
  {| jobs := <[sub_job_id q := row_submitted q]> (jobs t);
     dependencies := dependencies t ++ numbered_dependencies (sub_job_id q) 0 (sub_dependencies q);
     job_receipts := <[key := row]> (job_receipts t) |}.

Lemma update_job_Ok j selected f t n t' :
  update_job j selected f t = Ok (n, t') → n = 1 →
  ∃ r, jobs t !! j = Some r ∧ selected r = true ∧ job_checks (f r) = true ∧ work_run_taken t j (f r) = false ∧
    t' = set_jobs t (<[j := f r]> (jobs t)).
Proof.
  unfold update_job, execute. destruct (jobs t !! j) as [r|]; [|by intros [= <- <-]].
  destruct (selected r) eqn:Es; [|by intros [= <- <-]]. intros H _. inv_result. split_bools. by exists r.
Qed.

Lemma insert_dependencies_Ok j ordinal ds t u t' :
  insert_dependencies j ordinal ds t = Ok (u, t') →
  t' = set_dependencies t (dependencies t ++ numbered_dependencies j ordinal ds) ∧
  Forall (λ d, is_Some (jobs t !! d)) ds.
Proof.
  revert ordinal t. induction ds as [|d ds IH]; intros ordinal t H; cbn in H.
  { inv_tx. split; [|constructor]. destruct t. cbn. by rewrite app_nil_r. }
  inv_tx. unfold insert_dependency, execute in *. inv_result. split_bools. cbn in *. simplify_eq/=.
  apply IH in H as [-> HF]. cbn in *. split; [|constructor; [|done]].
  - unfold set_dependencies. cbn. f_equal. rewrite <-app_assoc. f_equal. unfold numbered_dependencies. cbn.
    rewrite Z.add_0_r. f_equal. apply imap_ext. intros i x _. cbn. f_equal. lia.
  - by apply dec_stable.
Qed.

(** ** Effects *)

Definition queue_codec_ok (codec : QueueCodec) : Prop :=
  ∀ receipt, decode_receipt codec (encode_receipt codec receipt) = Some receipt.

Section effects.
Context (codec : QueueCodec).

Inductive queue_effect (R : string → Prop) (t : QueueTables) : QueueTables → Prop :=
| qe_none : queue_effect R t t
| qe_job j r r' x key row :
    jobs t !! j = Some r → job_step R t j r r' → job_checks r' = true → work_run_taken t j r' = false →
    row_record t j r' x → record_valid x → job_receipts t !! key = None →
    row_response_json row = encode_receipt codec {| receipt_job := x; replayed := false |} →
    queue_effect R t (with_job t j r' key row)
| qe_submit q0 q x key row :
    normalized_submission q0 = Ok q → jobs t !! sub_job_id q = None →
    Forall (λ d, ∃ r, jobs t !! d = Some r ∧ row_scope r = sub_scope q) (sub_dependencies q) →
    job_checks (row_submitted q) = true → work_run_taken t (sub_job_id q) (row_submitted q) = false →
    row_record (with_submission t q key row) (sub_job_id q) (row_submitted q) x → record_valid x →
    job_receipts t !! key = None →
    row_response_json row = encode_receipt codec {| receipt_job := x; replayed := false |} →
    queue_effect R t (with_submission t q key row).

(** The stored answer of a request. *)
Definition answered (t : QueueTables) (key : string * string) (d : string) (x : ExecutionJobRecord) : Prop :=
  ∃ row receipt, job_receipts t !! key = Some row ∧ row_request_digest row = d ∧
    decode_receipt codec (row_response_json row) = Some receipt ∧ receipt_job receipt = x ∧ record_valid x.

Lemma replay_receipt_Some t key request d rc :
  replay_receipt codec t key request d = Ok (Some rc) ↔ replayed rc = true ∧ answered t (key, request) d (receipt_job rc).
Proof.
  unfold replay_receipt, answered. split.
  - destruct (job_receipts t !! (key, request)) as [row|]; [|done]. intros H. inv_result. split_bools. cbn.
    repeat match goal with u : () |- _ => destruct u end.
    match goal with H : validate_stored_record _ = _ |- _ => apply validate_stored_record_Ok in H end.
    split; [done|]. by eexists _, _.
  - intros (Hr & row & receipt & -> & <- & Hd & Hx & Hv). rewrite differs_refl. cbn [refuse mbind result_bind]. rewrite Hd. cbn [ok_or mbind result_bind].
    rewrite Hx, (proj2 (validate_stored_record_Ok _) Hv). cbn [mbind result_bind]. by destruct rc; simplify_eq/=.
Qed.

Lemma replay_receipt_None t key request d : replay_receipt codec t key request d = Ok None ↔ job_receipts t !! (key, request) = None.
Proof.
  unfold replay_receipt. destruct (job_receipts t !! (key, request)) as [row|]; [|done]. split; [|done]. intros H. inv_result.
Qed.

Lemma store_receipt_Ok s key request operation j d t rc t' :
  store_receipt codec s key request operation j d t = Ok (rc, t') →
  ∃ r x, jobs t !! j = Some r ∧ row_record t j r x ∧ record_valid x ∧ job_receipts t !! (key, request) = None ∧
    rc = {| receipt_job := x; replayed := false |} ∧
    t' = set_job_receipts t (<[(key, request) := {| row_operation := operation; row_receipt_job_id := j;
      row_request_digest := d; row_response_json := encode_receipt codec rc |}]> (job_receipts t)).
Proof.
  unfold store_receipt, insert_receipt. intros H. cbv zeta in H. inv_tx. unfold execute in *. inv_result. simplify_eq.
  match goal with H : load_scoped_job _ _ _ = _ |- _ => apply load_scoped_job_Ok in H as (r & Hr & _ & Hrec & Hv) end.
  apply validate_stored_record_Ok in Hv. split_bools. exists r. eexists. split_and!; try done.
  destruct (job_receipts t !! (key, request)); [exfalso; eauto|done].
Qed.

Context (codec_ok : queue_codec_ok codec).

Lemma answered_new t key d x js ds operation j :
  record_valid x →
  answered {| jobs := js; dependencies := ds; job_receipts :=
    <[key := {| row_operation := operation; row_receipt_job_id := j; row_request_digest := d;
                row_response_json := encode_receipt codec {| receipt_job := x; replayed := false |} |}]> (job_receipts t) |} key d x.
Proof.
  intros Hv. eexists _, _. cbn. rewrite lookup_insert_eq. split_and!; [done|done|cbn; apply codec_ok|done|done].
Qed.

(** The last steps of every change: the update of the job, and its receipt. *)
Lemma job_changed R t j r r' s key request operation d rc t' :
  jobs t !! j = Some r → job_step R t j r r' → job_checks r' = true → work_run_taken t j r' = false →
  store_receipt codec s key request operation j d (set_jobs t (<[j := r']> (jobs t))) = Ok (rc, t') →
  queue_effect R t t' ∧ answered t' (key, request) d (receipt_job rc).
Proof.
  intros Hr Hstep Hc Hw (r2 & x & Hr2 & Hrec & Hv & Hk & -> & ->)%store_receipt_Ok. cbn in *. rewrite lookup_insert_eq in Hr2. simplify_eq.
  split; [|by apply answered_new]. eapply (qe_job R t j r r2 x (key, request)); try done. by destruct Hrec.
Qed.

(** ** Operations *)

Lemma legb_not_ltb a b : str_ltb a b = false ↔ str_leb b a = true.
Proof. unfold str_leb. by rewrite negb_true_iff. Qed.

Lemma transition_effect R q t rc t' :
  transition_execution_job_in_transaction codec q t = Ok (rc, t') →
  queue_effect R t t' ∧ answered t' (scope_key codec (tr_scope q), tr_request_id q) (digest codec (TransitionValue q)) (receipt_job rc).
Proof.
  intros H. unfold transition_execution_job_in_transaction in H. cbv zeta in H. inv_tx.
  match goal with H : replay_receipt _ _ _ _ _ = Ok ?x |- _ => destruct x as [prior|]; rename H into Hprior end.
  { inv_tx. apply replay_receipt_Some in Hprior as [_ Ha]. split; [constructor|done]. }
  inv_tx. inv_result. split_bools.
  match goal with H : load_scoped_job _ _ _ = _ |- _ => apply load_scoped_job_Ok in H as (r & Hr & _ & Hrec & _) end.
  match goal with H : queue_integer _ = _ |- _ => apply queue_integer_Ok in H as [_ ->] end.
  match goal with H : update_job _ _ _ _ = _ |- _ => apply update_job_Ok in H as (r2 & Hr2 & Hsel & Hc & Hw & ->); [|lia] end.
  simplify_eq. split_bools. eapply job_changed; [exact Hr| |exact Hc|exact Hw|eassumption].
  eapply js_move; [done|done| |].
  - intros E. match goal with H : _ && has_blocking_dependency _ _ = false |- _ => rewrite bool_decide_eq_true_2 in H by done; exact H end.
  - rewrite <-(rr_updated _ _ _ _ Hrec). by apply legb_not_ltb.
Qed.

Lemma cancel_effect R q t rc t' :
  cancel_execution_job_in_transaction codec q t = Ok (rc, t') →
  queue_effect R t t' ∧ answered t' (scope_key codec (cr_scope q), cr_request_id q) (digest codec (CancellationValue q)) (receipt_job rc).
Proof.
  intros H. unfold cancel_execution_job_in_transaction in H. cbv zeta in H. inv_tx.
  match goal with H : replay_receipt _ _ _ _ _ = Ok ?x |- _ => destruct x as [prior|]; rename H into Hprior end.
  { inv_tx. apply replay_receipt_Some in Hprior as [_ Ha]. split; [constructor|done]. }
  inv_tx. inv_result. split_bools.
  match goal with H : load_scoped_job _ _ _ = _ |- _ => apply load_scoped_job_Ok in H as (r & Hr & _ & Hrec & _) end.
  match goal with H : queue_integer _ = _ |- _ => apply queue_integer_Ok in H as [_ ->] end.
  match goal with H : update_job _ _ _ _ = _ |- _ => apply update_job_Ok in H as (r2 & Hr2 & Hsel & Hc & Hw & ->); [|lia] end.
  simplify_eq. split_bools. eapply job_changed; [exact Hr| |exact Hc|exact Hw|eassumption].
  eapply js_cancel; [eapply (rr_state _ _ _ _ Hrec)| |].
  - destruct (job_state _); auto; done.
  - rewrite <-(rr_updated _ _ _ _ Hrec). by apply legb_not_ltb.
Qed.

Lemma replace_effect (R : string → Prop) current request n work_run payload at_ t rc t' :
  replace_execution_job_attempt_in_transaction codec current request n work_run payload at_ t = Ok (rc, t') → (job_state current = Failed → R (job_id current)) →
  queue_effect R t t' ∧ answered t' (scope_key codec (job_scope current), request)
    (digest codec (ReplacementValue {| rd_job_id := job_id current; rd_request_id := request;
       rd_expected_revision := job_revision current; rd_previous_attempt := job_attempt current; rd_next_attempt := n;
       rd_dispatch_payload := payload; rd_occurred_at := at_ |})) (receipt_job rc).
Proof.
  intros H HR. unfold replace_execution_job_attempt_in_transaction in H. cbv zeta in H. inv_tx.
  match goal with H : replay_receipt _ _ _ _ _ = Ok ?x |- _ => destruct x as [prior|]; rename H into Hprior end.
  { inv_tx. apply replay_receipt_Some in Hprior as [_ Ha]. split; [constructor|done]. }
  inv_tx. inv_result. split_bools.
  match goal with H : load_scoped_job _ _ _ = _ |- _ => apply load_scoped_job_Ok in H as (r & Hr & _ & Hrec & Hv) end.
  apply validate_stored_record_Ok in Hv.
  repeat match goal with H : queue_integer _ = _ |- _ => apply queue_integer_Ok in H as [_ ->] end.
  match goal with H : update_job _ _ _ _ = _ |- _ => apply update_job_Ok in H as (r2 & Hr2 & Hsel & Hc & Hw & ->); [|lia] end.
  simplify_eq. split_bools. eapply job_changed; [exact Hr| |exact Hc|exact Hw|eassumption].
  destruct (rv_attempt _ Hv), (rr_attempt _ _ _ _ Hrec) as [Ea _].
  eapply js_replace; [exact (rr_state _ _ _ _ Hrec)| |done| |].
  - destruct (job_state _); auto; done.
  - assert (MAX_ATTEMPT < u64_max) by done. unfold saturating_add_u64 in *. lia.
  - rewrite <-(rr_updated _ _ _ _ Hrec). by apply legb_not_ltb.
Qed.

Lemma check_dependency_Ok t s d : check_dependency t s d = Ok tt → ∃ r, jobs t !! d = Some r ∧ row_scope r = s.
Proof.
  unfold check_dependency, load_job_scope. intros H. destruct (jobs t !! d) as [r|]; inv_result.
  split_bools. by exists r.
Qed.

(** The dependencies of a new job are read back as they were submitted. *)
Lemma dependencies_of_new t q key row :
  Forall (λ d, dep_job_id d ≠ sub_job_id q) (dependencies t) →
  dependencies_of (with_submission t q key row) (sub_job_id q) = sub_dependencies q.
Proof.
  intros Hn. unfold dependencies_of. cbn [with_submission dependencies]. rewrite filter_app, filter_none, app_nil_l by done. rewrite filter_all.
  2:{ apply Forall_forall. intros d (i & x & -> & _)%elem_of_lookup_imap. done. }
  rewrite (order_numbered dep_ordinal _ 0).
  - unfold numbered_dependencies. rewrite fmap_imap. apply list_eq. intros i. rewrite list_lookup_imap. by destruct (_ !! i).
  - unfold numbered_dependencies. rewrite length_imap, fmap_imap. apply list_eq. intros i. rewrite list_lookup_imap.
    destruct (sub_dependencies q !! i) as [d|] eqn:E; cbn.
    + symmetry. apply lookup_lt_Some in E. rewrite lookup_seqZ. split; [lia|]. lia.
    + symmetry. apply lookup_ge_None in E. apply lookup_seqZ_ge. lia.
Qed.

Lemma submit_effect R q mode t rc t' :
  submit_execution_job_in_transaction codec q mode t = Ok (rc, t') →
  ∃ q', normalized_submission q = Ok q' ∧ queue_effect R t t' ∧
    answered t' (scope_key codec (sub_scope q'), sub_request_id q') (digest codec (SubmissionValue q')) (receipt_job rc).
Proof.
  intros H. unfold submit_execution_job_in_transaction in H. cbv zeta in H. inv_tx.
  match goal with H : normalized_submission _ = Ok ?x |- _ => exists x; split; [done|]; rename H into Hq; rename x into q' end.
  match goal with H : replay_receipt _ _ _ _ _ = Ok ?x |- _ => destruct x as [prior|]; rename H into Hprior end.
  { inv_tx. apply replay_receipt_Some in Hprior as [_ Ha]. split; [constructor|done]. }
  inv_tx. unfold insert_submission in H. inv_tx. unfold insert_job, execute in *. inv_result. simplify_eq. split_bools.
  repeat match goal with u : () |- _ => destruct u end.
  match goal with H : insert_dependencies _ _ _ _ = _ |- _ => apply insert_dependencies_Ok in H as [-> _] end.
  match goal with H : check_all _ _ = _ |- _ => apply check_all_Ok in H as Hdeps end.
  match goal with H : store_receipt _ _ _ _ _ _ _ _ = _ |- _ => apply store_receipt_Ok in H as (r2 & x & Hr2 & Hrec & Hv & Hk & -> & ->) end.
  cbn in *. rewrite lookup_insert_eq in Hr2. simplify_eq. split; [|by apply answered_new].
  eapply (qe_submit R t q q' x (_, _)); try done.
  - match goal with H : ¬ is_Some (jobs t !! _) |- _ => by apply eq_None_not_Some in H end.
  - eapply Forall_impl; [exact Hdeps|]. intros d Hd. by apply check_dependency_Ok.
  - by destruct Hrec.
Qed.
End effects.
