(* ===== verification/QueueRuns.v ===== *)
(** * Execution queue: runs

    Runs of the queue's operations: the tables keep their invariant (every job reads back, the
    dependencies exist and are acyclic, a WorkRun is reserved by one active job), a job only
    moves forward, receipts stay, and a job that was started has its dependencies completed. *)

From Stdlib Require Import Ascii String.
From S2P Require Import Prelude Text Ordered Transaction StateKeys Queue QueueFacts.
Local Open Scope Z_scope.

#[local] Arguments job_checks : simpl never.
#[local] Arguments job_state_str : simpl never.
#[local] Arguments active_job_state : simpl never.

Inductive queue_op : Type :=
| Submit (q : ExecutionJobSubmission) (mode : ExecutionJobSubmissionMode)
| Transition (q : ExecutionJobTransitionRequest)
| Cancel (q : ExecutionJobCancellationRequest)
| Replace (current : ExecutionJobRecord) (request : string) (attempt : Z) (work_run : option string) (payload at_ : string).

(** The job whose failed attempt an operation replaces. *)
Definition replaces (op : queue_op) (j : string) : Prop :=
  match op with
  | Replace current _ _ _ _ _ => job_id current = j ∧ job_state current = Failed
  | _ => False
  end.

(** Completed without a cancellation. *)
Definition succeeded (r : StoredJobRow) : Prop :=
  row_job_state r = job_state_str Completed ∧ row_cancellation_request_id r = None.

Definition started (r : StoredJobRow) : Prop :=
  row_job_state r = job_state_str Leased ∨ row_job_state r = job_state_str Running.

(** The later row of a job: it moves forward, and once it completed it stays. *)
Record row_follows (r r' : StoredJobRow) : Prop := {
  rf_same : row_scope r' = row_scope r ∧ row_submission_request_id r' = row_submission_request_id r ∧
    row_payload_digest r' = row_payload_digest r ∧ row_submitted_at r' = row_submitted_at r;
  rf_revision : r' = r ∨ row_revision r < row_revision r';
  rf_attempt : row_attempt r ≤ row_attempt r';
  rf_updated : str_leb (row_updated_at r) (row_updated_at r') = true;
  rf_cancelled : is_Some (row_cancellation_request_id r) →
    row_cancellation_request_id r' = row_cancellation_request_id r ∧
    row_cancellation_requested_at r' = row_cancellation_requested_at r;
  rf_completed : row_job_state r = job_state_str Completed → r' = r
}.

Lemma str_leb_refl a : str_leb a a = true.
Proof. unfold str_leb. by rewrite str_ltb_irrefl. Qed.

#[global] Instance row_follows_preorder : PreOrder row_follows.
Proof.
  split.
  - intros r. split; try done; [by left|apply str_leb_refl].
  - intros r1 r2 r3 [(S1 & S2 & S3 & S4) R1 A1 U1 C1 F1] [(T1 & T2 & T3 & T4) R2 A2 U2 C2 F2]. split.
    + split_and!; congruence.
    + destruct R1 as [->|], R2 as [->|]; auto; right; lia.
    + lia.
    + by eapply str_leb_trans.
    + intros H. destruct (C1 H) as [E1 E2]. rewrite <-E1 in H. destruct (C2 H). split; congruence.
    + intros H. rewrite (F1 H) in *. by apply F2.
Qed.

(** A job with a cancellation is past its start. *)
Definition cancelled_late (r : StoredJobRow) : Prop :=
  is_Some (row_cancellation_request_id r) →
  row_job_state r = job_state_str Cancelling ∨ row_job_state r = job_state_str Completed ∨ row_job_state r = job_state_str Failed.

Lemma step_follows R t j r r' : cancelled_late r → job_step R t j r r' → row_follows r r'.
Proof.
  intros Hc [from to at_ Hst Hl _ Hu|st request at_ Hst Hin Hu|st n w p at_ Hst Hin Hnone -> Hu].
  - split; try done; cbn; [by right; lia|]. rewrite Hst. intros ->%job_state_str_inj. done.
  - split; try done; cbn; [by right; lia| |].
    + intros H%Hc. rewrite Hst in H. destruct H as [H|[H|H]]; apply job_state_str_inj in H; naive_solver.
    + rewrite Hst. intros ->%job_state_str_inj. naive_solver.
  - split; try done; cbn; [by right; lia|lia|]. rewrite Hst. intros ->%job_state_str_inj. naive_solver.
Qed.

Lemma step_cancelled_late R t j r r' : cancelled_late r → job_step R t j r r' → cancelled_late r'.
Proof.
  intros Hc [from to at_ Hst Hl _ Hu|st request at_ Hst Hin Hu|st n w p at_ Hst Hin Hnone -> Hu]; intros Hs; cbn in *; [|by left|].
  - apply Hc in Hs. rewrite Hst in Hs. destruct Hs as [H|[H|H]]; apply job_state_str_inj in H as ->; destruct to; naive_solver.
  - rewrite Hnone in Hs. by destruct Hs.
Qed.

(** The checks of the table follow from the row's record. *)
Lemma record_checks t j r x : row_record t j r x → record_valid x → job_checks r = true.
Proof.
  intros Hr Hv. destruct (rr_attempt _ _ _ _ Hr), (rr_revision _ _ _ _ Hr), (rv_attempt _ Hv).
  pose proof (rv_revision _ Hv). unfold job_checks. rewrite !andb_true_iff. split_and!; try lia.
  - apply existsb_exists. exists (job_state x). split; [|by apply bool_decide_eq_true, (rr_state _ _ _ _ Hr)].
    apply list_elem_of_In. unfold job_states. destruct (job_state x); set_solver.
  - apply bool_decide_eq_true. destruct (rr_cancellation _ _ _ _ Hr) as [<- <-]. by rewrite !fmap_is_Some.
Qed.

(** ** The invariant *)

Record queue_wf (t : QueueTables) : Prop := {
  qw_rows : map_Forall (λ j r, (∃ x, row_record t j r x ∧ record_valid x) ∧ cancelled_late r) (jobs t);
  qw_dependencies : Forall (λ d, ∃ r r', jobs t !! dep_job_id d = Some r ∧ jobs t !! dep_dependency_job_id d = Some r' ∧
    row_scope r' = row_scope r) (dependencies t);
  qw_rank : ∃ rank : string → nat, Forall (λ d, rank (dep_dependency_job_id d) < rank (dep_job_id d))%nat (dependencies t);
  qw_work_runs : ∀ j k r r' w, jobs t !! j = Some r → jobs t !! k = Some r' → row_work_run_id r = Some w →
    row_work_run_id r' = Some w → active_job_state (row_job_state r) = true → active_job_state (row_job_state r') = true → j = k
}.

Lemma empty_queue_wf : queue_wf empty_queue.
Proof. split; [apply map_Forall_empty|constructor|by exists (λ _, O)|]. intros j k r r' w H. by cbn in H. Qed.

Lemma row_record_deps t t' j r x :
  dependencies_of t' j = dependencies_of t j → row_record t j r x → row_record t' j r x.
Proof. intros E []. split; try done. congruence. Qed.

Lemma dependencies_of_other t q key row j :
  j ≠ sub_job_id q → dependencies_of (with_submission t q key row) j = dependencies_of t j.
Proof.
  intros Hne. unfold dependencies_of. cbn [with_submission dependencies]. rewrite filter_app, (filter_none _ (numbered_dependencies _ _ _)), app_nil_r; [done|].
  apply Forall_forall. intros d (i & x & -> & _)%elem_of_lookup_imap. cbn. congruence.
Qed.

Lemma work_run_free t j r k x w :
  work_run_taken t j r = false → row_work_run_id r = Some w → active_job_state (row_job_state r) = true →
  jobs t !! k = Some x → row_work_run_id x = Some w → active_job_state (row_job_state x) = true → k = j.
Proof.
  unfold work_run_taken. intros H Hr Ha Hx Hw Hax. rewrite Hr, Ha in H. cbn in H.
  destruct (decide (k = j)) as [|Hne]; [done|]. exfalso. apply not_true_iff_false in H. apply H, existsb_exists.
  exists (k, x). split; [by apply list_elem_of_In, elem_of_map_to_list|].
  rewrite Hax, (bool_decide_eq_false_2 (k = j)), (bool_decide_eq_true_2 (row_work_run_id x = Some w)) by done. done.
Qed.

(** The rows after an effect that writes the row [r'] under [j]. *)
Lemma written_work_runs t j r' :
  queue_wf t → work_run_taken t j r' = false →
  ∀ j1 k r1 r2 w, <[j := r']> (jobs t) !! j1 = Some r1 → <[j := r']> (jobs t) !! k = Some r2 → row_work_run_id r1 = Some w →
    row_work_run_id r2 = Some w → active_job_state (row_job_state r1) = true → active_job_state (row_job_state r2) = true → j1 = k.
Proof.
  intros Hwf Hf j1 k r1 r2 w [[<- <-]|[? H1]]%lookup_insert_Some [[<- <-]|[? H2]]%lookup_insert_Some W1 W2 A1 A2.
  - done.
  - symmetry. by eapply work_run_free.
  - by eapply work_run_free.
  - by eapply (qw_work_runs _ Hwf).
Qed.

Section runs.
Context (codec : QueueCodec).

Definition queue_answer (t : QueueTables) (op : queue_op) : QueueTables * stored ExecutionJobMutationReceipt :=
  match op with
  | Submit q mode => commit t (submit_execution_job_in_transaction codec q mode)
  | Transition q => transition codec t q
  | Cancel q => request_cancellation codec t q
  | Replace current request n w p at_ => commit t (replace_execution_job_attempt_in_transaction codec current request n w p at_)
  end.

Definition queue_step (t : QueueTables) (op : queue_op) : QueueTables := (queue_answer t op).1.

Definition queue_run (t : QueueTables) (ops : list queue_op) : QueueTables := foldl queue_step t ops.

Context (codec_ok : queue_codec_ok codec).

Lemma committed_effect R (m : queue_tx ExecutionJobMutationReceipt) t :
  (∀ rc t', m t = Ok (rc, t') → queue_effect codec R t t') → queue_effect codec R t (commit t m).1.
Proof. unfold commit. destruct (m t) as [[rc t']|]; intros H; cbn; [by eapply H|constructor]. Qed.

Lemma queue_step_effect t op : queue_effect codec (replaces op) t (queue_step t op).
Proof.
  destruct op; apply committed_effect; intros rc t' H.
  - by apply (submit_effect _ codec_ok (replaces (Submit q mode))) in H as (q' & _ & ? & _).
  - by apply (transition_effect _ codec_ok (replaces (Transition q))) in H as [? _].
  - by apply (cancel_effect _ codec_ok (replaces (Cancel q))) in H as [? _].
  - by eapply (replace_effect _ codec_ok) in H as [? _].
Qed.

Lemma queue_effect_wf R t t' : queue_wf t → queue_effect codec R t t' → queue_wf t'.
Proof.
  intros Hwf He. destruct He as [|j r r' x key row Hr Hs Hc Hw Hrec Hv Hk _|q0 q x key row Hq Hj Hds Hc Hw Hrec Hv Hk _]; [done| |].
  - split; [| |apply Hwf|by apply written_work_runs].
    + intros k y. cbn. intros [[<- <-]|[? Hy]]%lookup_insert_Some.
      * split; [exists x; split; [by destruct Hrec|done]|]. eapply step_cancelled_late; [|exact Hs]. by apply (qw_rows _ Hwf) in Hr as [_ ?].
      * apply (qw_rows _ Hwf) in Hy as [(z & Hz & ?) ?]. split; [exists z; split; [by destruct Hz|done]|done].
    + eapply Forall_impl; [apply Hwf|]. intros d (r1 & r2 & H1 & H2 & E). cbn.
      pose proof (rf_same _ _ (step_follows _ _ _ _ _ (proj2 (qw_rows _ Hwf _ _ Hr)) Hs)) as (Es & _).
      destruct (decide (dep_job_id d = j)) as [E1|], (decide (dep_dependency_job_id d = j)) as [E2|];
        rewrite ?E1, ?E2, ?lookup_insert_eq, ?lookup_insert_ne by done; eexists _, _; split_and!; try done; simplify_eq; congruence.
  - assert (Forall (λ d, dep_job_id d ≠ sub_job_id q) (dependencies t)) as Hold.
    { eapply Forall_impl; [apply Hwf|]. intros d (r1 & _ & H1 & _) E. congruence. }
    split; [| | |by apply written_work_runs].
    + intros k y. cbn. intros [[<- <-]|[? Hy]]%lookup_insert_Some.
      * split; [by exists x|]. intros H. by destruct H.
      * apply (qw_rows _ Hwf) in Hy as [(z & Hz & ?) ?]. split; [exists z; split; [|done]|done].
        eapply row_record_deps, Hz. by apply dependencies_of_other.
    + cbn. apply Forall_app. split.
      * eapply Forall_impl; [apply Hwf|]. intros d (r1 & r2 & H1 & H2 & E). exists r1, r2.
        rewrite !lookup_insert_ne by congruence. done.
      * apply Forall_forall. intros d (i & y & -> & Hy)%elem_of_lookup_imap. cbn.
        apply list_elem_of_lookup_2 in Hy. destruct (proj1 (Forall_forall _ _) Hds _ Hy) as (r2 & Hr2 & Es).
        exists (row_submitted q), r2. rewrite lookup_insert_eq, lookup_insert_ne by congruence. done.
    + destruct (qw_rank _ Hwf) as [rank Hrank].
      exists (λ k, if decide (k = sub_job_id q) then S (max_list (rank <$> (dep_dependency_job_id <$> numbered_dependencies (sub_job_id q) 0 (sub_dependencies q)))) else rank k).
      cbn. apply Forall_app. split.
      * apply Forall_forall. intros d Hd. pose proof (proj1 (Forall_forall _ _) Hrank _ Hd). cbn beta in *.
        destruct (proj1 (Forall_forall _ _) (qw_dependencies _ Hwf) _ Hd) as (r1 & r2 & H1 & H2 & _).
        rewrite !decide_False by congruence. done.
      * apply Forall_forall. intros d Hd. pose proof Hd as (i & y & -> & Hy)%elem_of_lookup_imap. cbn.
        apply list_elem_of_lookup_2 in Hy. destruct (proj1 (Forall_forall _ _) Hds _ Hy) as (r2 & Hr2 & _).
        rewrite (decide_True (P := sub_job_id q = sub_job_id q)), decide_False by congruence.
        apply Nat.lt_succ_r, max_list_elem_of_le. apply list_elem_of_fmap. exists y. split; [done|].
        apply list_elem_of_fmap. eexists. split; [|exact Hd]. done.
Qed.

Lemma queue_run_wf t ops : queue_wf t → queue_wf (queue_run t ops).
Proof.
  revert t. induction ops as [|op ops IH]; intros t Hwf; [done|]. cbn. apply IH. eapply queue_effect_wf; [done|apply queue_step_effect].
Qed.

(** Induction over a run. *)
Lemma queue_run_keeps (P : QueueTables → Prop) t ops :
  (∀ R t t', queue_wf t → P t → queue_effect codec R t t' → P t') → queue_wf t → P t → P (queue_run t ops).
Proof.
  intros Hstep. revert t. induction ops as [|op ops IH]; intros t Hwf Ht; [done|]. cbn. apply IH.
  - eapply queue_effect_wf; [done|apply queue_step_effect].
  - by eapply Hstep, queue_step_effect.
Qed.

(** ** What stays *)

Lemma queue_rows_follow R t t' j r :
  queue_wf t → queue_effect codec R t t' → jobs t !! j = Some r → ∃ r', jobs t' !! j = Some r' ∧ row_follows r r'.
Proof.
  intros Hwf He Hr. destruct He as [|k r1 r2 x key row Hr1 Hs _ _ _ _ _ _|q0 q x key row _ Hj _ _ _ _ _ _ _]; [by exists r| |]; cbn.
  - destruct (decide (k = j)) as [->|]; [|exists r; by rewrite lookup_insert_ne]. rewrite lookup_insert_eq. exists r2.
    split; [done|]. simplify_eq. eapply step_follows; [|exact Hs]. by apply (qw_rows _ Hwf) in Hr1 as [_ ?].
  - exists r. rewrite lookup_insert_ne by congruence. done.
Qed.

Lemma queue_receipts_stay R t t' key row :
  queue_effect codec R t t' → job_receipts t !! key = Some row → job_receipts t' !! key = Some row.
Proof.
  intros He Hk. destruct He; cbn; [done|rewrite lookup_insert_ne by congruence; done..].
Qed.

(** The dependencies of a job never change. *)
Lemma effect_dependencies R t t' :
  queue_effect codec R t t' →
  ∃ new, dependencies t' = dependencies t ++ new ∧ Forall (λ d, jobs t !! dep_job_id d = None) new.
Proof.
  intros [|j r r' x key row _ _ _ _ _ _ _ _|q0 q x key row _ Hj _ _ _ _ _ _ _]; [by exists []; rewrite app_nil_r..|].
  eexists. split; [done|]. apply Forall_forall. intros d (i & y & -> & _)%elem_of_lookup_imap. done.
Qed.

Lemma effect_dependencies_of R t t' j r :
  queue_effect codec R t t' → jobs t !! j = Some r → dependencies_of t' j = dependencies_of t j.
Proof.
  intros He Hr. destruct (effect_dependencies _ _ _ He) as (new & E & Hn). unfold dependencies_of.
  rewrite E, filter_app, (filter_none _ new), app_nil_r; [done|]. eapply Forall_impl; [exact Hn|]. intros d Hd Ed. cbn in *. congruence.
Qed.

(** ** Dependencies *)

(** Every dependency of the job succeeded. *)
Definition dependencies_done (t : QueueTables) (j : string) : Prop :=
  ∀ d, d ∈ dependencies_of t j → ∃ r, jobs t !! d = Some r ∧ succeeded r.

Lemma dependencies_of_elem t j d :
  d ∈ dependencies_of t j ↔ ∃ x, x ∈ dependencies t ∧ dep_job_id x = j ∧ dep_dependency_job_id x = d.
Proof.
  unfold dependencies_of. rewrite list_elem_of_fmap. setoid_rewrite order_elem. setoid_rewrite list_elem_of_filter. naive_solver.
Qed.

Lemma blocking_false t d : blocking t d = false ↔ ∃ r, jobs t !! d = Some r ∧ succeeded r.
Proof.
  unfold blocking, succeeded. destruct (jobs t !! d) as [r|]; [|naive_solver].
  rewrite orb_false_iff, negb_false_iff, bool_decide_eq_true, bool_decide_eq_false, <-eq_None_not_Some. naive_solver.
Qed.

Lemma has_blocking_false t j : has_blocking_dependency t j = false ↔ dependencies_done t j.
Proof.
  unfold has_blocking_dependency, dependencies_done. setoid_rewrite dependencies_of_elem. setoid_rewrite <-blocking_false. split.
  - intros H d (x & Hx & Ej & Ed). destruct (blocking t d) eqn:E; [|done]. exfalso. apply not_true_iff_false in H. apply H, existsb_exists.
    exists x. split; [by apply list_elem_of_In|]. rewrite bool_decide_eq_true_2, Ed by done. done.
  - intros H. apply not_true_iff_false. intros (x & Hx & Hb)%existsb_exists. split_bools. apply list_elem_of_In in Hx.
    rewrite H in *; [done|]. by exists x.
Qed.

Lemma done_stays R t t' j r :
  queue_wf t → queue_effect codec R t t' → jobs t !! j = Some r → dependencies_done t j → dependencies_done t' j.
Proof.
  intros Hwf He Hr Hd d. rewrite (effect_dependencies_of _ _ _ _ _ He Hr). intros (x & Hx & Hs)%Hd.
  destruct (queue_rows_follow _ _ _ _ _ Hwf He Hx) as (x' & Hx' & Hf). exists x'. split; [done|].
  by rewrite (rf_completed _ _ Hf (proj1 Hs)).
Qed.

Definition started_jobs (t : QueueTables) (j : string) : Prop := ∃ r, jobs t !! j = Some r ∧ started r.

(** Jobs in [seen], and those that are started or succeeded, have their dependencies done. *)
Definition gated (seen : string → Prop) (t : QueueTables) : Prop :=
  ∀ j r, jobs t !! j = Some r → seen j ∨ started r ∨ succeeded r → dependencies_done t j.

Lemma started_str r st : started r → row_job_state r = job_state_str st → st = Leased ∨ st = Running.
Proof. intros [H|H] E; rewrite H in E; apply job_state_str_inj in E as <-; auto. Qed.

Lemma step_gated (R seen : string → Prop) t j r r' :
  queue_wf t → gated seen t → jobs t !! j = Some r → (∀ k, R k → seen k ∨ started_jobs t k) → job_step R t j r r' →
  seen j ∨ started_jobs t j ∨ started r' ∨ succeeded r' → dependencies_done t j.
Proof.
  intros Hwf Hg Hr HR Hs Hcase.
  assert (seen j ∨ started_jobs t j → dependencies_done t j) as Hold.
  { intros [?|(x & Hx & ?)]; [by eapply Hg; eauto|]. rewrite Hr in Hx. simplify_eq. by eapply Hg; eauto. }
  destruct Hcase as [?|[?|Hcase]]; [by auto..|].
  destruct Hs as [from to at_ Hst Hl Hb Hu|st request at_ Hst Hin Hu|st n w p at_ Hst Hin Hnone -> Hu].
  - destruct Hcase as [Hstart|[Hc Hn]].
    + destruct (started_str _ to Hstart eq_refl) as [->| ->]; [by apply has_blocking_false, Hb|].
      destruct from; try done. apply Hold. right. exists r. split; [done|by left].
    + cbn in *. apply job_state_str_inj in Hc as ->. destruct from; try done.
      * apply Hold. right. exists r. split; [done|by right].
      * apply (qw_rows _ Hwf) in Hr as [(x & Hx & Hv) _]. exfalso.
        assert (job_state x = Cancelling) as E by (apply job_state_str_inj; by rewrite <-(rr_state _ _ _ _ Hx)).
        destruct (rv_cancelling _ Hv E) as [c Hcx]. destruct (rr_cancellation _ _ _ _ Hx) as [E1 _]. rewrite Hcx, Hn in E1. done.
  - destruct Hcase as [[H|H]|[H _]]; by cbn in H; apply job_state_str_inj in H.
  - apply Hold. destruct Hin as [->|[->|[-> HRj]]]; [right; exists r; split; [done|by left]|right; exists r; split; [done|by right]|by apply HR].
Qed.

Lemma effect_gated (R seen : string → Prop) t t' :
  queue_wf t → gated seen t → (∀ k, R k → seen k ∨ started_jobs t k) → queue_effect codec R t t' →
  (∀ k, seen k → is_Some (jobs t !! k)) → gated (λ k, seen k ∨ started_jobs t k) t'.
Proof.
  intros Hwf Hg HR He Hseen j r Hr Hcase.
  assert (∀ r0, jobs t !! j = Some r0 → dependencies_done t j → dependencies_done t' j) as Hstay by (intros; by eapply done_stays).
  destruct He as [|k r1 r2 x key row Hr1 Hs _ _ _ _ _ _|q0 q x key row _ Hj _ _ _ _ _ _ _].
  - destruct Hcase as [[?|(r0 & Hr0 & ?)]|?]; [by eapply Hg; eauto| |by eapply Hg; eauto]. simplify_eq. by eapply Hg; eauto.
  - cbn in Hr. destruct (decide (k = j)) as [->|].
    + rewrite lookup_insert_eq in Hr. simplify_eq. eapply Hstay; [exact Hr1|]. eapply step_gated; [done..| |]; [exact Hs|]. naive_solver.
    + rewrite lookup_insert_ne in Hr by done. eapply Hstay; [exact Hr|].
      destruct Hcase as [[?|(r0 & Hr0 & ?)]|?]; [by eapply Hg; eauto| |by eapply Hg; eauto]. simplify_eq. by eapply Hg; eauto.
  - cbn in Hr. apply lookup_insert_Some in Hr as [[<- <-]|[Hne Hr]].
    + exfalso. destruct Hcase as [[H|(r0 & Hr0 & _)]|[[H|H]|[H _]]].
      * apply Hseen in H. rewrite Hj in H. by destruct H.
      * congruence.
      * cbn in H. by apply job_state_str_inj in H.
      * cbn in H. by apply job_state_str_inj in H.
      * cbn in H. by apply job_state_str_inj in H.
    + eapply Hstay; [exact Hr|].
      destruct Hcase as [[?|(r0 & Hr0 & ?)]|?]; [by eapply Hg; eauto| |by eapply Hg; eauto]. simplify_eq. by eapply Hg; eauto.
Qed.
End runs.
