(* ===== verification/QueueFixture.v ===== *)
(** * Execution queue: a codec and a sample queue

    A concrete codec for receipts, with its round trip, and a small queue: a job and one that
    depends on it.  They show that the hypotheses of the theorems on the queue can hold. *)

From Stdlib Require Import Ascii String.
From S2P Require Import Prelude Text Ordered Transaction StateKeys Queue QueueFacts QueueRuns.
Local Open Scope Z_scope.

(** ** Texts as one text *)

(** Every character is marked, and the end. *)
Fixpoint mark (s rest : string) : string :=
  match s with
  | EmptyString => String "0" rest
  | String c s => String "1" (String c (mark s rest))
  end.

Fixpoint unmark (s : string) : option (string * string) :=
  match s with
  | String "0" rest => Some ("", rest)%string
  | String "1" (String c s) => prod_map (String c) id <$> unmark s
  | _ => None
  end.

Lemma unmark_mark s rest : unmark (mark s rest) = Some (s, rest).
Proof. induction s as [|c s IH]; [done|]. cbn. by rewrite IH. Qed.

Fixpoint mark_all (l : list string) : string :=
  match l with [] => "" | x :: l => mark x (mark_all l) end.

Fixpoint unmark_all (fuel : nat) (s : string) : option (list string) :=
  match fuel, s with
  | _, EmptyString => Some []
  | O, _ => None
  | S fuel, s => '(x, rest) ← unmark s; cons x <$> unmark_all fuel rest
  end.

Lemma mark_length x rest : (String.length rest < String.length (mark x rest))%nat.
Proof. induction x; cbn; lia. Qed.

Lemma unmark_mark_all l fuel : (String.length (mark_all l) ≤ fuel)%nat → unmark_all fuel (mark_all l) = Some l.
Proof.
  revert fuel. induction l as [|x l IH]; intros fuel Hf; [by destruct fuel|]. cbn [mark_all] in *.
  pose proof (mark_length x (mark_all l)). destruct fuel as [|fuel]; [lia|].
  assert (∃ c y, mark x (mark_all l) = String c y) as (c & y & E) by (destruct x; cbn; eauto).
  cbn [unmark_all]. rewrite E, <-E, unmark_mark. cbn. rewrite IH by lia. done.
Qed.

(** Numbers in unary, with a sign. *)
Definition unary (z : Z) : string := String (if z <? 0 then "-" else "+") (repeated (Z.to_nat (Z.abs z)) "1").

Definition ununary (s : string) : Z :=
  match s with
  | String "-" s => - Z.of_nat (String.length s)
  | String _ s => Z.of_nat (String.length s)
  | EmptyString => 0
  end.

Lemma length_repeated n c : String.length (repeated n c) = n.
Proof. induction n; cbn; [done|]. f_equal. done. Qed.

Lemma ununary_unary z : ununary (unary z) = z.
Proof. unfold unary. destruct (Z.ltb_spec z 0); cbn; rewrite length_repeated; lia. Qed.

Definition optional (o : option string) : string := match o with Some s => String "1" s | None => "" end.
Definition unoptional (s : string) : option string := match s with String _ s => Some s | EmptyString => None end.

Lemma unoptional_optional o : unoptional (optional o) = o.
Proof. by destruct o. Qed.

(** ** Receipts *)

Definition receipt_fields (rc : ExecutionJobMutationReceipt) : list string :=
  let x := receipt_job rc in let s := job_scope x in
  [scope_organization_id s; scope_workspace_id s; scope_project_id s; scope_repository_id s; scope_product_session_id s;
   optional (scope_delivery_id s); job_id x; submission_request_id x; payload_digest x; dispatch_payload x;
   job_state_str (job_state x); unary (job_attempt x); unary (job_revision x); optional (job_work_run_id x);
   job_submitted_at x; job_updated_at x; optional (intent_request_id <$> cancellation x);
   optional (intent_requested_at <$> cancellation x); (if replayed rc then "1" else "0")] ++ job_dependencies x.

Definition receipt_from (fields : list string) : option ExecutionJobMutationReceipt :=
  match fields with
  | org :: wsp :: prj :: rep :: psn :: dlv :: j :: req :: dig :: payload :: st :: att :: rev :: wrn :: sub :: upd :: creq :: cat :: rpl :: deps =>
      st ← match job_state_from_stored st with Ok st => Some st | Err _ => None end;
      Some {| receipt_job := {|
                job_scope := {| scope_organization_id := org; scope_workspace_id := wsp; scope_project_id := prj;
                                scope_repository_id := rep; scope_product_session_id := psn; scope_delivery_id := unoptional dlv |};
                job_id := j; submission_request_id := req; payload_digest := dig; dispatch_payload := payload; job_state := st;
                job_attempt := ununary att; job_revision := ununary rev; job_dependencies := deps;
                job_work_run_id := unoptional wrn; job_submitted_at := sub; job_updated_at := upd;
                cancellation := request ← unoptional creq; at_ ← unoptional cat;
                                Some {| intent_request_id := request; intent_requested_at := at_ |} |};
              replayed := bool_decide (rpl = "1"%string) |}
  | _ => None
  end.

Lemma receipt_from_fields rc : receipt_from (receipt_fields rc) = Some rc.
Proof.
  destruct rc as [[[] ? ? ? ? st ? ? ? ? ? ? c] b]. cbn -[unary job_state_str optional unoptional ununary].
  rewrite (proj2 (job_state_from_stored_Ok _ st) eq_refl). cbn -[unary optional unoptional ununary].
  rewrite !unoptional_optional, !ununary_unary. destruct c as [[]|], b; done.
Qed.

(** The digests tell the requests of the sample apart. *)
Definition fixture_queue_codec : QueueCodec :=
  {| to_vec := λ v, match v with
                    | ScopeValue s => scope_organization_id s
                    | SubmissionValue q => sub_job_id q
                    | TransitionValue q => tr_occurred_at q
                    | CancellationValue q => cr_requested_at q
                    | ReplacementValue q => rd_occurred_at q
                    end;
     queue_sha256_hex := id;
     encode_receipt := λ rc, mark_all (receipt_fields rc);
     decode_receipt := λ s, fields ← unmark_all (String.length s) s; receipt_from fields |}.

Lemma fixture_queue_codec_ok : queue_codec_ok fixture_queue_codec.
Proof. intros rc. cbn [fixture_queue_codec decode_receipt encode_receipt]. rewrite unmark_mark_all by done. apply receipt_from_fields. Qed.

(** ** A sample queue *)

Definition sample_id (prefix last : string) : string := prefix +:+ repeated 25 "0" +:+ last.
Definition sample_instant (last : string) : string := "2026-01-02T03:04:05.67" +:+ last +:+ "Z".

Definition sample_scope : ExecutionQueueScope :=
  {| scope_organization_id := sample_id "org_" "1"; scope_workspace_id := sample_id "wsp_" "1";
     scope_project_id := sample_id "prj_" "1"; scope_repository_id := sample_id "rep_" "1";
     scope_product_session_id := sample_id "psn_" "1"; scope_delivery_id := None |}.

Definition sample_submission (n : string) (deps : list string) : ExecutionJobSubmission :=
  {| sub_scope := sample_scope; sub_job_id := sample_id "job_" n; sub_request_id := sample_id "req_" n;
     sub_payload_digest := "sha256:" +:+ repeated 64 "a"; sub_dispatch_payload := "{}"; sub_attempt := 1;
     sub_dependencies := deps; sub_work_run_id := None; sub_submitted_at := sample_instant n |}.

Definition sample_move (n request : string) (revision : Z) (from to : ExecutionJobState) : ExecutionJobTransitionRequest :=
  {| tr_scope := sample_scope; tr_job_id := sample_id "job_" n; tr_request_id := sample_id "req_" request;
     tr_expected_revision := revision; tr_from := from; tr_to := to; tr_occurred_at := sample_instant request |}.

(** Job 2 depends on job 1. *)
Definition submitted : list queue_op :=
  [Submit (sample_submission "1" []) SubmitOrReplay; Submit (sample_submission "2" [sample_id "job_" "1"]) SubmitOrReplay].

(** Job 1 is done, and job 2 is leased; it was refused before. *)
Definition worked : list queue_op :=
  submitted ++
  [Transition (sample_move "2" "3" 1 Queued Leased); Transition (sample_move "1" "4" 1 Queued Leased);
   Transition (sample_move "1" "5" 2 Leased Running); Transition (sample_move "1" "6" 3 Running Completed);
   Transition (sample_move "2" "7" 1 Queued Leased)].

Definition sample_record (n : string) (deps : list string) (st : ExecutionJobState) (revision : Z) (at_ : string) : ExecutionJobRecord :=
  {| job_scope := sample_scope; job_id := sample_id "job_" n; submission_request_id := sample_id "req_" n;
     payload_digest := "sha256:" +:+ repeated 64 "a"; dispatch_payload := "{}"; job_state := st; job_attempt := 1;
     job_revision := revision; job_dependencies := deps; job_work_run_id := None; job_submitted_at := sample_instant n;
     job_updated_at := sample_instant at_; cancellation := None |}.

Abbreviation sample_queue ops := (queue_run fixture_queue_codec empty_queue ops).

Example worked_jobs :
  load_job (sample_queue worked) sample_scope (sample_id "job_" "2") =
    Ok (Some (sample_record "2" [sample_id "job_" "1"] Leased 2 "7")) ∧
  load_job (sample_queue worked) sample_scope (sample_id "job_" "1") = Ok (Some (sample_record "1" [] Completed 4 "6")).
Proof. split; vm_compute; reflexivity. Qed.
