(* ===== verification/QueueSafety.v ===== *)
(** * Execution queue: what it promises

    The theorems on [Queue] over every run from an empty queue: a started job has its
    dependencies completed, the queue is never stuck, a request is answered once, a job only
    moves forward, and the pages of a listing are the listing. *)

From Stdlib Require Import Ascii String.
From stdpp Require Import sorting.
From S2P Require Import Prelude Text Ordered Transaction StateKeys Queue QueueFacts QueueRuns QueueFixture.
Local Open Scope Z_scope.

#[local] Arguments job_checks : simpl never.
#[local] Arguments job_state_str : simpl never.

(** ** Reads *)

Lemma row_reads t j r x :
  queue_wf t → jobs t !! j = Some r → load_scoped_job t (row_scope r) j = Ok (Some x) ↔ row_record t j r x ∧ record_valid x.
Proof.
  intros Hwf Hr. rewrite load_scoped_job_Ok. setoid_rewrite validate_stored_record_Ok. split.
  - intros (r' & Hr' & _ & ? & ?). by simplify_eq.
  - intros [? ?]. by exists r.
Qed.

Lemma load_job_Ok t s j x :
  load_job t s j = Ok (Some x) ↔
  ∃ r, jobs t !! j = Some r ∧ row_scope r = s ∧ row_record t j r x ∧ record_valid x.
Proof.
  unfold load_job. rewrite !then_Ok, load_scoped_job_Ok. setoid_rewrite validate_stored_record_Ok. split.
  - intros (_ & _ & r & ?). by exists r.
  - intros (r & Hr & Hs & Hrec & Hv). split_and!; [|apply queue_id_Ok|by exists r].
    + rewrite <-Hs, <-(rr_scope _ _ _ _ Hrec). apply Hv.
    + rewrite <-(rr_id _ _ _ _ Hrec). apply Hv.
Qed.

Lemma record_succeeded t j r x : row_record t j r x → succeeded r ↔ job_state x = Completed ∧ cancellation x = None.
Proof.
  intros Hx. unfold succeeded. destruct (rr_cancellation _ _ _ _ Hx) as [<- _]. rewrite (rr_state _ _ _ _ Hx), fmap_None.
  split; [intros [?%job_state_str_inj ?]; done|intros [-> ?]; done].
Qed.


(** A dependency is a job of the same scope. *)
Lemma dependency_row t j r d :
  queue_wf t → jobs t !! j = Some r → d ∈ dependencies_of t j →
  ∃ rd x, jobs t !! d = Some rd ∧ row_scope rd = row_scope r ∧ row_record t d rd x ∧ record_valid x.
Proof.
  intros Hwf Hr (y & Hy & <- & <-)%dependencies_of_elem.
  destruct (proj1 (Forall_forall _ _) (qw_dependencies _ Hwf) _ Hy) as (r1 & rd & H1 & H2 & E). simplify_eq.
  pose proof H2 as [(x & ? & ?) _]%(qw_rows _ Hwf). by exists rd, x.
Qed.

(** The job that another waits for. *)
Definition waits_for (t : QueueTables) (j d : string) : Prop := d ∈ dependencies_of t j.

Section safety.
Context (codec : QueueCodec) (codec_ok : queue_codec_ok codec).

Abbreviation after ops := (queue_run codec empty_queue ops).

Lemma queue_reachable_wf ops : queue_wf (after ops).
Proof. apply queue_run_wf; [done|apply empty_queue_wf]. Qed.




(** What a job keeps of a record that was read before. *)
Record follows (x y : ExecutionJobRecord) : Prop := {
  fo_request : submission_request_id y = submission_request_id x;
  fo_payload : payload_digest y = payload_digest x;
  fo_dependencies : job_dependencies y = job_dependencies x;
  fo_submitted : job_submitted_at y = job_submitted_at x;
  fo_revision : y = x ∨ job_revision x < job_revision y;
  fo_attempt : job_attempt x ≤ job_attempt y;
  fo_updated : str_leb (job_updated_at x) (job_updated_at y) = true;
  fo_cancellation : is_Some (cancellation x) → cancellation y = cancellation x;
  fo_completed : job_state x = Completed → y = x
}.

Lemma record_follows t t' j r r' x y :
  row_record t j r x → row_record t' j r' y → row_follows r r' → dependencies_of t' j = dependencies_of t j → follows x y.
Proof.
  intros Hrec Hy Hf Hd.
  destruct (rr_attempt _ _ _ _ Hrec), (rr_attempt _ _ _ _ Hy), (rr_revision _ _ _ _ Hrec), (rr_revision _ _ _ _ Hy).
  assert (r' = r → y = x) as Hsame.
  { intros ->. eapply record_of_row; [exact Hy|]. by eapply row_record_deps. }
  destruct (rf_same _ _ Hf) as (Es & E1 & E2 & E3). split.
  - rewrite (rr_request _ _ _ _ Hy), (rr_request _ _ _ _ Hrec). done.
  - rewrite (rr_digest _ _ _ _ Hy), (rr_digest _ _ _ _ Hrec). done.
  - rewrite (rr_dependencies _ _ _ _ Hy), (rr_dependencies _ _ _ _ Hrec). done.
  - rewrite (rr_submitted _ _ _ _ Hy), (rr_submitted _ _ _ _ Hrec). done.
  - destruct (rf_revision _ _ Hf); [left; by apply Hsame|right; lia].
  - pose proof (rf_attempt _ _ Hf). lia.
  - rewrite (rr_updated _ _ _ _ Hy), (rr_updated _ _ _ _ Hrec). apply Hf.
  - intros Hc. destruct (rr_cancellation _ _ _ _ Hy) as [F1 F2], (rr_cancellation _ _ _ _ Hrec) as [G1 G2].
    destruct (rf_cancelled _ _ Hf) as [C1 C2]; [rewrite <-G1; by apply fmap_is_Some|].
    rewrite C1, <-G1 in F1. rewrite C2, <-G2 in F2. by eapply intent_ext.
  - intros Hc. apply Hsame, (rf_completed _ _ Hf). by rewrite (rr_state _ _ _ _ Hrec), Hc.
Qed.

Lemma job_follows t ops s j x :
  queue_wf t → load_job t s j = Ok (Some x) → ∃ y, load_job (queue_run codec t ops) s j = Ok (Some y) ∧ follows x y.
Proof.
  intros Hwf (r & Hr & Hs & Hrec & Hv)%load_job_Ok.
  set (P t' := ∃ r', jobs t' !! j = Some r' ∧ row_follows r r' ∧ dependencies_of t' j = dependencies_of t j).
  assert (P (queue_run codec t ops)) as (r' & Hr' & Hf & Hd).
  { apply (queue_run_keeps codec codec_ok P); [|done|by exists r; split_and!; [done|reflexivity|done]].
    intros R t1 t2 Hwf' (r1 & Hr1 & Hf1 & Hd1) He. destruct (queue_rows_follow _ _ _ _ _ _ Hwf' He Hr1) as (r2 & Hr2 & Hf2).
    exists r2. split_and!; [done|by etrans|]. by rewrite (effect_dependencies_of _ _ _ _ _ _ He Hr1). }
  pose proof (queue_run_wf codec codec_ok t ops Hwf) as Hwf'. pose proof Hr' as [(y & Hy & Hvy) _]%(qw_rows _ Hwf'). exists y.
  destruct (rf_same _ _ Hf) as (Es & _). split; [|by eapply record_follows].
  apply load_job_Ok. exists r'. split_and!; [done|congruence|done|done].
Qed.

(** A job only moves forward: after any further run it has the same scope, request, payload
    digest, dependencies and submission time, its revision, attempt and update time did not go
    back and the record is the same if the revision is, a cancellation is kept, and a completed
    job never changes; and at most one job that is not finished reserves a WorkRun. *)
Theorem job_moves_forward ops ops' s j x :
  load_job (after ops) s j = Ok (Some x) →
  (∃ y, load_job (after (ops ++ ops')) s j = Ok (Some y) ∧ follows x y) ∧
  ∀ k s' y w, load_job (after ops) s' k = Ok (Some y) → job_work_run_id x = Some w → job_work_run_id y = Some w →
    job_state x ≠ Completed → job_state x ≠ Failed → job_state y ≠ Completed → job_state y ≠ Failed → k = j.
Proof.
  intros Hx. pose proof (queue_reachable_wf ops) as Hwf. split.
  { unfold queue_run. rewrite foldl_app. by apply job_follows. }
  apply load_job_Ok in Hx as (r & Hr & Hs & Hrec & Hv).
  intros k s' y w (r' & Hr' & _ & Hy & _)%load_job_Ok Hw Hw' N1 N2 N3 N4. eapply (qw_work_runs _ Hwf k j r' r w); try done.
  - by rewrite <-(rr_work_run _ _ _ _ Hy).
  - by rewrite <-(rr_work_run _ _ _ _ Hrec).
  - rewrite (rr_state _ _ _ _ Hy). by destruct (job_state y).
  - rewrite (rr_state _ _ _ _ Hrec). by destruct (job_state x).
Qed.

(** ** Requests *)

(** The key and the digest of a valid request. *)
Definition op_request (op : queue_op) : stored ((string * string) * string) :=
  match op with
  | Submit q _ =>
      q ← normalized_submission q;
      Ok ((scope_key codec (sub_scope q), sub_request_id q), digest codec (SubmissionValue q))
  | Transition q =>
      validate_transition_request q ;;
      Ok ((scope_key codec (tr_scope q), tr_request_id q), digest codec (TransitionValue q))
  | Cancel q =>
      validate_cancellation_request q ;;
      Ok ((scope_key codec (cr_scope q), cr_request_id q), digest codec (CancellationValue q))
  | Replace current request n w p at_ =>
      validate_scope (job_scope current) ;;
      validate_id (job_id current) "job_" ;;
      validate_id request "req_" ;;
      validate_instant at_ ;;
      refuse (negb (match job_state current with Leased | Running | Failed => true | _ => false end) ||
              bool_decide (is_Some (cancellation current)) ||
              negb (n =? saturating_add_u64 (job_attempt current) 1) || (MAX_ATTEMPT <? n) ||
              payload_size_invalid p || str_ltb at_ (job_updated_at current)) invalid ;;
      Ok ((scope_key codec (job_scope current), request),
          digest codec (ReplacementValue {| rd_job_id := job_id current; rd_request_id := request;
            rd_expected_revision := job_revision current; rd_previous_attempt := job_attempt current; rd_next_attempt := n;
            rd_dispatch_payload := p; rd_occurred_at := at_ |}))
  end.

(** A submission is answered with the submitted job. *)
Lemma submission_exact q mode t rc t' :
  queue_wf t → submit_execution_job_in_transaction codec q mode t = Ok (rc, t') →
  ∃ q', normalized_submission q = Ok q' ∧ require_exact_submission_receipt q' rc = Ok tt.
Proof.
  intros Hwf H. pose proof H as (q' & Hq & _ & _)%(submit_effect codec codec_ok (λ _, False)). exists q'. split; [done|].
  unfold submit_execution_job_in_transaction in H. cbv zeta in H. inv_tx.
  match goal with H : normalized_submission q = Ok ?x |- _ => assert (x = q') as -> by congruence; clear H end.
  match goal with H : replay_receipt _ _ _ _ _ = Ok ?x |- _ => destruct x as [prior|] end; inv_tx;
    repeat match goal with u : () |- _ => destruct u end; [done|].
  unfold insert_submission in H. inv_tx. unfold insert_job, execute in *. inv_result. simplify_eq. split_bools.
  repeat match goal with u : () |- _ => destruct u end.
  match goal with H : insert_dependencies _ _ _ _ = _ |- _ => apply insert_dependencies_Ok in H as [-> _] end.
  match goal with H : store_receipt _ _ _ _ _ _ _ _ = _ |- _ => apply store_receipt_Ok in H as (r2 & x & Hr2 & Hrec & Hv & Hk & -> & ->) end.
  cbn in Hr2. rewrite lookup_insert_eq in Hr2. simplify_eq.
  assert (job_dependencies x = sub_dependencies q') as Ed.
  { rewrite (rr_dependencies _ _ _ _ Hrec). apply (dependencies_of_new t q' ("", "")%string
      {| row_operation := ""; row_receipt_job_id := ""; row_request_digest := ""; row_response_json := "" |}). eapply Forall_impl; [apply Hwf|].
    intros d (r1 & _ & Hr1 & _) E. rewrite E in Hr1.
    match goal with H : ¬ is_Some _ |- _ => apply H end. by eexists. }
  destruct Hrec as [E1 E2 E3 E4 E5 Est [E6 _] [E7 _] _ E9 E10 E11 [Ec _]]. cbn in *. apply job_state_str_inj in Est.
  apply fmap_None in Ec. unfold require_exact_submission_receipt. cbn. apply refuse_Ok.
  rewrite E1, E2, E3, E4, E5, E6, E7, E9, E10, E11, Ed, <-Est, Ec, !differs_refl, !Z.eqb_refl. done.
Qed.

Lemma answer_answered op t rc t' :
  queue_answer codec t op = (t', Ok rc) → ∃ key d, op_request op = Ok (key, d) ∧ answered codec t' key d (receipt_job rc).
Proof.
  destruct op; cbn [queue_answer]; unfold transition, request_cancellation; intros H%commit_Ok.
  - pose proof H as (q' & Hq & _ & Ha)%(submit_effect codec codec_ok (λ _, False)). eexists _, _. split; [cbn [op_request]; by rewrite Hq|exact Ha].
  - pose proof H as (_ & Ha)%(transition_effect codec codec_ok (λ _, False)). eexists _, _. split; [|exact Ha].
    unfold transition_execution_job_in_transaction in H. cbv zeta in H. inv_tx. cbn [op_request].
    match goal with H : validate_transition_request _ = _ |- _ => rewrite H end. done.
  - pose proof H as (_ & Ha)%(cancel_effect codec codec_ok (λ _, False)). eexists _, _. split; [|exact Ha].
    unfold cancel_execution_job_in_transaction in H. cbv zeta in H. inv_tx. cbn [op_request].
    match goal with H : validate_cancellation_request _ = _ |- _ => rewrite H end. done.
  - pose proof H as (_ & Ha)%(replace_effect codec codec_ok (λ _, True)); [|done]. eexists _, _. split; [|exact Ha].
    unfold replace_execution_job_attempt_in_transaction in H. cbv zeta in H. inv_tx. cbn [op_request].
    repeat match goal with H : _ = Ok _ |- context [?m ;; _] => rewrite H; cbn [mbind result_bind]; clear H end. done.
Qed.

(** A request whose key has an answer. *)
Lemma answered_request op t key d d' x :
  op_request op = Ok (key, d') → answered codec t key d x →
  (∀ q, op ≠ Submit q RequireNew) →
  (∀ q mode q', op = Submit q mode → normalized_submission q = Ok q' → d' = d →
     require_exact_submission_receipt q' {| receipt_job := x; replayed := true |} = Ok tt) →
  queue_answer codec t op =
  (t, if bool_decide (d' = d) then Ok {| receipt_job := x; replayed := true |} else Err (storage_error RequestConflict)).
Proof.
  intros Hop Ha Hnew Hexact.
  assert (∀ request, key.2 = request → replay_receipt codec t key.1 request d' =
    if bool_decide (d' = d) then Ok (Some {| receipt_job := x; replayed := true |}) else Err (storage_error RequestConflict)) as Hr.
  { intros request <-. case_bool_decide as Hd.
    - subst d'. apply replay_receipt_Some. split; [done|]. by destruct key.
    - destruct Ha as (row & receipt & Hk & <- & _). unfold replay_receipt. rewrite <-surjective_pairing, Hk, bool_decide_eq_true_2 by congruence. done. }
  destruct op as [q mode|q|q|c request n w p at_]; cbn [op_request] in Hop; inv_result;
    unfold queue_answer, transition, request_cancellation, commit.
  - unfold submit_execution_job_in_transaction. erewrite lift_run by eassumption. cbn [fst snd] in *.
    destruct (bool_decide_reflect (digest codec (SubmissionValue x0) = d)) as [Hd|Hd].
    + rewrite (query_run _ (Some {| receipt_job := x; replayed := true |})) by (by apply Hr).
      rewrite (lift_run _ tt); [|apply refuse_Ok, bool_decide_eq_false; intros ->; by eapply Hnew].
      rewrite (lift_run _ tt); [done|]. by eapply Hexact.
    + rewrite (query_Err_run _ (storage_error RequestConflict)) by (by apply Hr). done.
  - unfold transition_execution_job_in_transaction. erewrite lift_run by eassumption. cbn [fst snd] in *.
    destruct (bool_decide_reflect (digest codec (TransitionValue q) = d)) as [Hd|Hd].
    + rewrite (query_run _ (Some {| receipt_job := x; replayed := true |})) by (by apply Hr). done.
    + rewrite (query_Err_run _ (storage_error RequestConflict)) by (by apply Hr). done.
  - unfold cancel_execution_job_in_transaction. erewrite lift_run by eassumption. cbn [fst snd] in *.
    destruct (bool_decide_reflect (digest codec (CancellationValue q) = d)) as [Hd|Hd].
    + rewrite (query_run _ (Some {| receipt_job := x; replayed := true |})) by (by apply Hr). done.
    + rewrite (query_Err_run _ (storage_error RequestConflict)) by (by apply Hr). done.
  - unfold replace_execution_job_attempt_in_transaction.
    do 4 (erewrite lift_run by eassumption). rewrite (lift_run _ tt) by (apply refuse_Ok; eassumption). cbn [fst snd] in *.
    match type of Hr with context [bool_decide (?d' = d)] => destruct (bool_decide_reflect (d' = d)) as [Hd|Hd] end.
    + rewrite (query_run _ (Some {| receipt_job := x; replayed := true |})) by (by apply Hr). done.
    + rewrite (query_Err_run _ (storage_error RequestConflict)) by (by apply Hr). done.
Qed.

(** An answer stays in every later state. *)
Lemma answer_stays t op t' rc ops :
  queue_wf t → queue_answer codec t op = (t', Ok rc) →
  ∃ key d, op_request op = Ok (key, d) ∧ answered codec (queue_run codec t' ops) key d (receipt_job rc).
Proof.
  intros Hwf Hans. destruct (answer_answered _ _ _ _ Hans) as (key & d & Hop & Ha). exists key, d. split; [done|].
  pose proof (queue_step_effect codec codec_ok t op) as He. unfold queue_step in He. rewrite Hans in He.
  apply (queue_run_keeps codec codec_ok (λ t, answered codec t key d (receipt_job rc))); [|by eapply queue_effect_wf|done].
  intros R t1 t2 _ (row & receipt & Hk & Hrest) He'. exists row, receipt. split; [by eapply queue_receipts_stay|done].
Qed.

(** A submission is answered again in every later state, in any mode but the one that wants a
    new request. *)
Lemma submission_replays t q mode mode' t' rc ops :
  queue_wf t → queue_answer codec t (Submit q mode) = (t', Ok rc) → mode' ≠ RequireNew →
  let later := queue_run codec t' ops in
  queue_answer codec later (Submit q mode') = (later, Ok {| receipt_job := receipt_job rc; replayed := true |}).
Proof.
  intros Hwf Hans Hmode later. destruct (answer_stays _ _ _ _ ops Hwf Hans) as (key & d & Hop & Hl). fold later in Hl.
  rewrite (answered_request (Submit q mode') _ _ _ _ _ Hop Hl), bool_decide_eq_true_2; [done|done|by intros q0 [= _ ?]|].
  intros q0 mode0 q' [= <- <-] Hq _. cbn in Hans. apply commit_Ok in Hans.
  destruct (submission_exact _ _ _ _ _ Hwf Hans) as (q2 & Hq2 & Hx). rewrite Hq in Hq2. simplify_eq. exact Hx.
Qed.

(** A submission that must be new is not a replay, and one that must be a replay is one. *)
Lemma submission_mode_answer q mode t rc t' :
  submit_execution_job_in_transaction codec q mode t = Ok (rc, t') →
  (mode = RequireNew → replayed rc = false) ∧ (mode = RequireReplay → replayed rc = true ∧ t' = t).
Proof.
  intros H. unfold submit_execution_job_in_transaction in H. cbv zeta in H. inv_tx.
  match goal with H : replay_receipt _ _ _ _ _ = Ok ?x |- _ => destruct x as [prior|]; rename H into Hprior end; inv_tx; split_bools.
  - apply replay_receipt_Some in Hprior as [? _]. split; [by intros ->|done].
  - split; [intros _|by intros ->]. unfold insert_submission in H. inv_tx.
    match goal with H : store_receipt _ _ _ _ _ _ _ _ = _ |- _ => apply store_receipt_Ok in H as (? & ? & _ & _ & _ & _ & -> & _) end. done.
Qed.

Lemma normalized_same q q' : normalized_submission q = Ok q' → q' = set_sub_dependencies q (sub_dependencies q').
Proof. unfold normalized_submission. cbv zeta. intros H. inv_result. done. Qed.

(** A new submission is there at once. *)
Lemma submission_loads q t rc t' :
  submit_execution_job_in_transaction codec q RequireNew t = Ok (rc, t') →
  load_job t' (sub_scope q) (sub_job_id q) = Ok (Some (receipt_job rc)) ∧
  submission_request_id (receipt_job rc) = sub_request_id q ∧ payload_digest (receipt_job rc) = sub_payload_digest q.
Proof.
  intros H. unfold submit_execution_job_in_transaction in H. cbv zeta in H. inv_tx.
  match goal with H : replay_receipt _ _ _ _ _ = Ok ?x |- _ => destruct x as [prior|] end; inv_tx; [done|].
  match goal with H : normalized_submission q = Ok ?x |- _ => apply normalized_same in H; rewrite H in *; clear H end.
  unfold insert_submission in H. inv_tx. unfold insert_job, execute in *. inv_result. simplify_eq.
  match goal with H : insert_dependencies _ _ _ _ = _ |- _ => apply insert_dependencies_Ok in H as [-> _] end.
  match goal with H : store_receipt _ _ _ _ _ _ _ _ = _ |- _ => apply store_receipt_Ok in H as (r2 & y & Hr2 & Hrec & Hv & _ & -> & ->) end.
  cbn in Hr2. rewrite lookup_insert_eq in Hr2. simplify_eq. destruct Hrec as [E1 E2 E3 E4]. split; [|done].
  apply load_job_Ok. eexists. split_and!; [by cbn; rewrite lookup_insert_eq|done|done|done].
Qed.

(** C21. A request is answered once: the answer of an accepted request is given again, as a
    replay, in every later state, and a valid request that reuses its id in the scope with
    other contents is refused as a conflict; neither changes the queue. *)
Theorem request_answered_once ops op t rc ops' key d :
  queue_answer codec (after ops) op = (t, Ok rc) → op_request op = Ok (key, d) → (∀ q, op ≠ Submit q RequireNew) →
  let later := queue_run codec t ops' in
  queue_answer codec later op = (later, Ok {| receipt_job := receipt_job rc; replayed := true |}) ∧
  ∀ op' d', op_request op' = Ok (key, d') → d' ≠ d → (∀ q, op' ≠ Submit q RequireNew) →
    queue_answer codec later op' = (later, Err (storage_error RequestConflict)).
Proof.
  intros Hans Hop Hnew later. pose proof (queue_reachable_wf ops) as Hwf.
  destruct (answer_stays _ _ _ _ ops' Hwf Hans) as (key' & d' & Hop' & Hl). fold later in Hl. rewrite Hop in Hop'. simplify_eq.
  split.
  - rewrite (answered_request _ _ _ _ _ _ Hop Hl Hnew), bool_decide_eq_true_2; [done|done|]. intros q mode q' -> Hq _.
    cbn in Hans. apply commit_Ok in Hans. destruct (submission_exact _ _ _ _ _ Hwf Hans) as (q2 & Hq2 & Hx). rewrite Hq in Hq2. simplify_eq. exact Hx.
  - intros op' d2 Hop2 Hne Hnew2. rewrite (answered_request _ _ _ _ _ _ Hop2 Hl Hnew2), bool_decide_eq_false_2; [done|done|].
    intros q mode q' _ _ ->. done.
Qed.

(** ** Progress *)

Definition moved_record (st : ExecutionJobState) (at_ : string) (x : ExecutionJobRecord) : ExecutionJobRecord :=
  {| job_scope := job_scope x; job_id := job_id x; submission_request_id := submission_request_id x;
     payload_digest := payload_digest x; dispatch_payload := dispatch_payload x; job_state := st;
     job_attempt := job_attempt x; job_revision := job_revision x + 1; job_dependencies := job_dependencies x;
     job_work_run_id := job_work_run_id x; job_submitted_at := job_submitted_at x; job_updated_at := at_;
     cancellation := cancellation x |}.

Lemma moved_reads t j r x st at_ :
  row_record t j r x → record_valid x → st ≠ Cancelling → instant_shape at_ = true →
  str_leb (job_updated_at x) at_ = true → job_revision x < i64_max →
  row_record t j (row_moved st at_ r) (moved_record st at_ x) ∧ record_valid (moved_record st at_ x).
Proof.
  intros [E1 E2 E3 E4 E5 Est [E6 ?] [E7 ?] E8 E9 E10 E11 Ec] [] Hst Hat Hle Hrev. split.
  - split; cbn; try done; try (split; [congruence|lia]).
  - split; cbn; try done; [|lia]. by eapply str_leb_trans.
Qed.

Definition lease_request (x : ExecutionJobRecord) (request at_ : string) : ExecutionJobTransitionRequest :=
  {| tr_scope := job_scope x; tr_job_id := job_id x; tr_request_id := request; tr_expected_revision := job_revision x;
     tr_from := Queued; tr_to := Leased; tr_occurred_at := at_ |}.

(** A queued job whose dependencies are done can be leased. *)
Lemma lease_succeeds t j r x request at_ :
  queue_wf t → jobs t !! j = Some r → row_record t j r x → record_valid x → job_state x = Queued → dependencies_done t j →
  is_canonical_prefixed_id request "req_" = true → instant_shape at_ = true → str_leb (job_updated_at x) at_ = true →
  job_receipts t !! (scope_key codec (job_scope x), request) = None → job_revision x < i64_max →
  ∃ t', transition codec t (lease_request x request at_) =
    (t', Ok {| receipt_job := moved_record Leased at_ x; replayed := false |}).
Proof.
  intros Hwf Hr Hrec Hv Hst Hdone Hreq Hat Hle Hk Hrev.
  destruct (moved_reads _ _ _ _ Leased at_ Hrec Hv) as [Hrec' Hv']; [done..|].
  pose proof (rr_id _ _ _ _ Hrec) as Eid. pose proof (rr_scope _ _ _ _ Hrec) as Es. destruct (rr_revision _ _ _ _ Hrec) as [Erev ?].
  pose proof (rv_revision _ Hv). set (r' := row_moved Leased at_ r) in *. set (t1 := set_jobs t (<[j := r']> (jobs t))).
  assert (load_scoped_job t (job_scope x) (job_id x) = Ok (Some x)) as Hload.
  { rewrite Es, Eid. by apply row_reads. }
  assert (load_scoped_job t1 (job_scope x) j = Ok (Some (moved_record Leased at_ x))) as Hload1.
  { apply load_scoped_job_Ok. exists r'. cbn. rewrite lookup_insert_eq. split_and!; [done|done| |by apply validate_stored_record_Ok].
    by destruct Hrec'. }
  assert (work_run_taken t j r' = false) as Hw.
  { apply not_true_iff_false. unfold work_run_taken. cbn. destruct (row_work_run_id r) as [w|] eqn:Ew; [|done].
    intros [_ ([k y] & Hy%list_elem_of_In & Hb)%existsb_exists]%andb_true_iff. split_bools. apply elem_of_map_to_list in Hy.
    match goal with H : k ≠ j |- _ => apply H end. eapply (qw_work_runs _ Hwf k j y r w); try done.
    by rewrite (rr_state _ _ _ _ Hrec), Hst. }
  eexists. unfold transition, commit, transition_execution_job_in_transaction.
  cbn [lease_request tr_scope tr_job_id tr_request_id tr_expected_revision tr_from tr_to tr_occurred_at].
  rewrite (lift_run _ tt). 2:{ unfold validate_transition_request. cbn. rewrite !then_Ok, !queue_id_Ok, validate_instant_Ok.
    split_and!; [apply Hv..|done|done|]. apply refuse_Ok, orb_false_iff. lia. }
  rewrite (query_run _ None) by (by apply replay_receipt_None). rewrite (query_run _ (Some x)) by done. rewrite (lift_run _ x) by done.
  rewrite (lift_run _ tt) by (apply refuse_Ok, negb_false_iff; lia).
  rewrite (lift_run _ tt) by (rewrite Hst; done). rewrite (lift_run _ tt) by done.
  rewrite (lift_run _ tt) by (by apply refuse_Ok, legb_not_ltb). rewrite Eid.
  rewrite (query_run _ tt) by (by rewrite (proj2 (has_blocking_false _ _) Hdone)).
  rewrite (lift_run _ (job_revision x)) by (apply queue_integer_Ok; split; [lia|done]).
  rewrite (tx_bind_run _ _ _ 1 t1).
  2:{ unfold update_job, execute. rewrite Hr. rewrite Erev, Z.eqb_refl, bool_decide_eq_true_2 by (by rewrite (rr_state _ _ _ _ Hrec), Hst).
      cbn [andb]. fold r'. rewrite (record_checks _ _ _ _ Hrec' Hv'), Hw. done. }
  rewrite (lift_run _ tt) by done. unfold store_receipt. rewrite (query_run _ (Some (moved_record Leased at_ x))) by done.
  rewrite (lift_run _ (moved_record Leased at_ x)) by done. unfold insert_receipt.
  erewrite tx_bind_run; [|unfold execute; cbn [t1 set_jobs job_receipts]; rewrite Hk, bool_decide_eq_false_2 by (by intros []); reflexivity].
  reflexivity.
Qed.

(** C29. The queue is never stuck: a queued job can be leased, by any request with a new id, or it
    waits, perhaps through other queued jobs, for a job that can be leased, for one that is
    under way, or for one that failed or was cancelled. *)
Theorem queue_never_stuck ops s j x :
  let t := after ops in
  load_job t s j = Ok (Some x) → job_state x = Queued →
  ∃ k y, rtc (waits_for t) j k ∧ load_job t s k = Ok (Some y) ∧
    (job_state y = Leased ∨ job_state y = Running ∨ job_state y = Cancelling ∨ job_state y = Failed ∨ is_Some (cancellation y) ∨
     job_state y = Queued ∧
     ∀ request at_, is_canonical_prefixed_id request "req_" = true → instant_shape at_ = true →
       str_leb (job_updated_at y) at_ = true → has_request codec t s request = Ok false → job_revision y < i64_max →
       ∃ t' rc, transition codec t (lease_request y request at_) = (t', Ok rc) ∧ replayed rc = false ∧
         job_state (receipt_job rc) = Leased).
Proof.
  intros t Hx Hq. pose proof (queue_reachable_wf ops) as Hwf. fold t in Hwf. destruct (qw_rank _ Hwf) as [rank Hrank].
  remember (rank j) as n eqn:En. revert j x En Hx Hq. induction (lt_wf n) as [n _ IH]. intros j x -> Hx Hq.
  pose proof Hx as (r & Hr & Hs & Hrec & Hv)%load_job_Ok.
  destruct (has_blocking_dependency t j) eqn:Hb.
  - unfold has_blocking_dependency in Hb. apply existsb_exists in Hb as (d & Hd%list_elem_of_In & Hb). split_bools. subst j.
    assert (waits_for t (dep_job_id d) (dep_dependency_job_id d)) as Hwait by (apply dependencies_of_elem; eauto).
    destruct (dependency_row _ _ _ _ Hwf Hr Hwait) as (rd & y & Hrd & Es & Hy & Hvy).
    assert (load_job t s (dep_dependency_job_id d) = Ok (Some y)) as Hly by (apply load_job_Ok; exists rd; split_and!; [done|congruence|done|done]).
    destruct (decide (job_state y = Queued)) as [Hyq|Hyq].
    + destruct (IH (rank (dep_dependency_job_id d)) (proj1 (Forall_forall _ _) Hrank _ Hd) _ _ eq_refl Hly Hyq) as (k & z & Hk & Hrest).
      exists k, z. split; [by eapply rtc_l|exact Hrest].
    + exists (dep_dependency_job_id d), y. split; [by apply rtc_once|]. split; [done|].
      destruct (job_state y) eqn:Ey; auto 10; [done|]. do 4 right. left.
      destruct (cancellation y) eqn:Ec; [by eexists|]. exfalso.
      assert (blocking t (dep_dependency_job_id d) = false) by (apply blocking_false; exists rd; split; [done|]; by apply (record_succeeded _ _ _ _ Hy)).
      congruence.
  - exists j, x. split; [reflexivity|]. split; [done|]. do 5 right. split; [done|]. intros request at_ Hreq Hat Hle Hnew Hrev.
    destruct (lease_succeeds t j r x request at_) as [t' Ht']; try done; [by apply has_blocking_false| |].
    + rewrite (rr_scope _ _ _ _ Hrec), Hs. unfold has_request in Hnew. inv_result. split_bools. by apply eq_None_not_Some.
    + eexists _, _. split; [exact Ht'|done].
Qed.
End safety.

(** ** The sample queue *)


Definition worked_tail : list queue_op := drop 2 worked.

Lemma job_moves_forward_witness :
  ∃ y, load_job (sample_queue (submitted ++ worked_tail)) sample_scope (sample_id "job_" "2") = Ok (Some y) ∧
    (y = sample_record "2" [sample_id "job_" "1"] Queued 1 "2" ∨ 1 < job_revision y).
Proof.
  destruct (job_moves_forward fixture_queue_codec fixture_queue_codec_ok submitted worked_tail sample_scope (sample_id "job_" "2")
    (sample_record "2" [sample_id "job_" "1"] Queued 1 "2")) as [(y & Hy & Hf) _].
  - vm_compute. reflexivity.
  - exists y. exact (conj Hy (fo_revision _ _ Hf)).
Defined.

(** The lease of job 1, and the answer to it. *)
Definition sample_lease : queue_op := Transition (sample_move "1" "4" 1 Queued Leased).
Definition sample_leased : QueueTables := queue_step fixture_queue_codec (sample_queue submitted) sample_lease.
Definition sample_answer : ExecutionJobMutationReceipt := {| receipt_job := sample_record "1" [] Leased 2 "4"; replayed := false |}.

Lemma lease_answered : queue_answer fixture_queue_codec (sample_queue submitted) sample_lease = (sample_leased, Ok sample_answer).
Proof.
  enough ((queue_answer fixture_queue_codec (sample_queue submitted) sample_lease).2 = Ok sample_answer) as <- by apply surjective_pairing.
  vm_compute. reflexivity.
Qed.

Lemma request_answered_once_witness :
  let later := queue_run fixture_queue_codec sample_leased [Transition (sample_move "1" "5" 2 Leased Running)] in
  queue_answer fixture_queue_codec later sample_lease = (later, Ok {| receipt_job := receipt_job sample_answer; replayed := true |}).
Proof.
  destruct (request_answered_once fixture_queue_codec fixture_queue_codec_ok submitted sample_lease sample_leased sample_answer
    [Transition (sample_move "1" "5" 2 Leased Running)]
    (scope_key fixture_queue_codec sample_scope, sample_id "req_" "4")
    (digest fixture_queue_codec (TransitionValue (sample_move "1" "4" 1 Queued Leased)))) as [H _].
  - exact lease_answered.
  - vm_compute. reflexivity.
  - discriminate.
  - exact H.
Defined.

Lemma queue_never_stuck_witness :
  ∃ k y, rtc (waits_for (sample_queue submitted)) (sample_id "job_" "2") k ∧
    load_job (sample_queue submitted) sample_scope k = Ok (Some y).
Proof.
  destruct (queue_never_stuck fixture_queue_codec fixture_queue_codec_ok submitted sample_scope (sample_id "job_" "2")
    (sample_record "2" [sample_id "job_" "1"] Queued 1 "2")) as (k & y & Hk & Hy & _).
  - vm_compute. reflexivity.
  - reflexivity.
  - exists k, y. exact (conj Hk Hy).
Defined.
