(* ===== verification/QueuePages.v ===== *)
(** * Execution queue: pages

    [list_jobs] answers a page of the jobs of a scope and the cursor of the next page.
    Following the cursors from the start gives every job of the scope in the wanted states,
    once, ordered by submission time and id. *)

From Stdlib Require Import Ascii String.
From stdpp Require Import sorting.
From S2P Require Import Prelude Text Ordered Transaction StateKeys Queue QueueFacts QueueRuns QueueFixture QueueSafety.
Local Open Scope Z_scope.

#[local] Arguments job_state_str : simpl never.

(** Follows the cursors; every page but the last has a job, so the number of jobs bounds the
    number of pages. *)
Fixpoint all_pages (fuel : nat) (t : QueueTables) (s : ExecutionQueueScope) (states : list ExecutionJobState)
    (after : option ExecutionJobPageCursor) (limit : nat) : stored (list (list ExecutionJobRecord)) :=
  match fuel with
  | O => Err adapter
  | S fuel =>
      page ← list_jobs t s states after limit;
      match next_cursor page with
      | None => Ok [page_jobs page]
      | Some c => rest ← all_pages fuel t s states (Some c) limit; Ok (page_jobs page :: rest)
      end
  end.

(** ** Order *)

(** Strictly earlier in the listing. *)
Definition job_before (x y : string * StoredJobRow) : Prop :=
  str_ltb (row_submitted_at x.2) (row_submitted_at y.2) = true ∨
  row_submitted_at x.2 = row_submitted_at y.2 ∧ str_ltb x.1 y.1 = true.

#[global] Instance job_before_dec x y : Decision (job_before x y).
Proof. unfold job_before. apply _. Defined.

Lemma job_before_irrefl x : ¬ job_before x x.
Proof. intros [H|[_ H]]; by rewrite str_ltb_irrefl in H. Qed.

Lemma job_before_asym x y : job_before x y → ¬ job_before y x.
Proof.
  intros [H|[E H]] [H'|[E' H']].
  - apply str_ltb_asym in H. congruence.
  - rewrite E', str_ltb_irrefl in H. done.
  - rewrite E, str_ltb_irrefl in H'. done.
  - apply str_ltb_asym in H. congruence.
Qed.

#[global] Instance job_order_total : Total job_order.
Proof.
  intros x y. unfold job_order. destruct (str_total (row_submitted_at x.2) (row_submitted_at y.2)) as [?|[E|?]]; auto.
  destruct (str_leb_total x.1 y.1); [left|right]; right; by split.
Qed.

#[global] Instance job_order_trans : Transitive job_order.
Proof.
  intros x y z [H|[E H]] [H'|[E' H']].
  - left. by eapply str_ltb_trans.
  - left. by rewrite <-E'.
  - left. by rewrite E.
  - right. split; [congruence|]. by eapply str_leb_trans.
Qed.

Lemma job_order_before x y : job_order x y → x.1 ≠ y.1 → job_before x y.
Proof.
  intros [H|[E H]] Hne; [by left|]. right. split; [done|].
  destruct (str_total x.1 y.1) as [?|[?|Hlt]]; [done..|]. unfold str_leb in H. by rewrite Hlt in H.
Qed.

Lemma job_order_antisym x y : job_order x y → job_order y x → x.1 = y.1.
Proof.
  intros H H'. destruct (decide (x.1 = y.1)) as [|Hne]; [done|]. exfalso.
  apply job_order_before in H; [|done]. apply job_order_before in H'; [|done]. by apply (job_before_asym _ _ H).
Qed.

Lemma filter_sorted {A} (R : A → A → Prop) (P : A → Prop) `{!∀ x, Decision (P x)} l :
  StronglySorted R l → StronglySorted R (filter P l).
Proof.
  induction 1 as [|x l _ IH Hx]; [constructor|]. rewrite filter_cons. case_decide; [|done]. constructor; [done|]. by apply Forall_filter.
Qed.

Lemma filter_keys {A B} (P : A * B → Prop) `{!∀ x, Decision (P x)} (l : list (A * B)) : NoDup l.*1 → NoDup (filter P l).*1.
Proof.
  induction l as [|x l IH]; [done|]. rewrite fmap_cons. intros [Hn Hnd]%NoDup_cons. rewrite filter_cons. case_decide; [|by apply IH].
  rewrite fmap_cons. apply NoDup_cons. split; [|by apply IH]. intros (y & E & Hy)%list_elem_of_fmap. apply list_elem_of_filter in Hy as [_ Hy].
  apply Hn. rewrite E. by apply list_elem_of_fmap_2.
Qed.

(** The rows of the listing. *)
Definition listed (s : ExecutionQueueScope) (states : list ExecutionJobState) (x : string * StoredJobRow) : Prop :=
  row_scope x.2 = s ∧ existsb (λ st, includes states st && bool_decide (row_job_state x.2 = job_state_str st)) job_states = true.

#[global] Instance listed_dec s states x : Decision (listed s states x).
Proof. unfold listed. apply _. Defined.

Definition listing (t : QueueTables) (s : ExecutionQueueScope) (states : list ExecutionJobState) : list (string * StoredJobRow) :=
  merge_sort job_order (filter (listed s states) (map_to_list (jobs t))).

Lemma listing_elem t s states x : x ∈ listing t s states ↔ listed s states x ∧ jobs t !! x.1 = Some x.2.
Proof.
  unfold listing. rewrite (merge_sort_Permutation _ _), list_elem_of_filter. destruct x as [j r]. by rewrite elem_of_map_to_list.
Qed.

Lemma sorted_before l : StronglySorted job_order l → NoDup l.*1 → StronglySorted job_before l.
Proof.
  induction 1 as [|x l _ IH Hx]; intros Hnd; constructor; apply NoDup_cons in Hnd as [Hn Hnd]; [by apply IH|].
  apply Forall_forall. intros y Hy. apply job_order_before; [by apply (proj1 (Forall_forall _ _) Hx)|].
  intros E. apply Hn. rewrite E. by apply list_elem_of_fmap_2.
Qed.

Lemma listing_sorted t s states : StronglySorted job_before (listing t s states).
Proof.
  apply sorted_before; [apply StronglySorted_merge_sort; apply _|].
  unfold listing. rewrite (merge_sort_Permutation _ _). apply filter_keys, NoDup_fst_map_to_list.
Qed.

(** Selecting after a cursor and sorting is dropping from the listing. *)
Lemma select_after t s states at_ j :
  merge_sort job_order (filter (job_selected s states at_ j) (map_to_list (jobs t))) =
  filter (λ x, str_ltb at_ (row_submitted_at x.2) = true ∨ row_submitted_at x.2 = at_ ∧ str_ltb j x.1 = true) (listing t s states).
Proof.
  set (after := λ x : string * StoredJobRow, _ ∨ _).
  apply (StronglySorted_unique_strong job_order).
  - intros x y Hx Hy Hxy Hyx. rewrite (merge_sort_Permutation _ _) in Hx. apply list_elem_of_filter in Hx as [_ Hx].
    apply list_elem_of_filter in Hy as [_ [_ Hy]%listing_elem]. pose proof (job_order_antisym _ _ Hxy Hyx) as E.
    destruct x as [j1 r1], y as [j2 r2]. cbn in *. subst. apply elem_of_map_to_list in Hx. congruence.
  - apply StronglySorted_merge_sort; apply _.
  - apply filter_sorted. unfold listing. apply StronglySorted_merge_sort; apply _.
  - unfold listing. rewrite !(merge_sort_Permutation _ _). rewrite list_filter_filter.
    erewrite list_filter_iff; [done|]. intros x. unfold job_selected, listed, after. tauto.
Qed.

(** ** Pages *)

Lemma sorted_after_elem (l1 l2 : list (string * StoredJobRow)) e :
  StronglySorted job_before (l1 ++ e :: l2) →
  filter (λ x, str_ltb (row_submitted_at e.2) (row_submitted_at x.2) = true ∨
               row_submitted_at x.2 = row_submitted_at e.2 ∧ str_ltb e.1 x.1 = true) (l1 ++ e :: l2) = l2.
Proof.
  rewrite StronglySorted_app, StronglySorted_cons. intros (H1 & _ & H2 & _).
  rewrite (list_filter_iff _ (job_before e)) by (intros x; unfold job_before; naive_solver).
  rewrite filter_app, filter_cons, decide_False by apply job_before_irrefl.
  rewrite (filter_none _ l1), (filter_all _ l2); [done|done|].
  apply Forall_forall. intros x Hx. apply job_before_asym, H1; [done|left].
Qed.

Lemma mapM_Forall2 {E A B} (f : A → result E B) l k : Forall2 (λ x y, f x = Ok y) l k → mapM f l = Ok k.
Proof. induction 1 as [|x y l k Hx _ IH]; [done|]. cbn [mapM]. by rewrite Hx, IH. Qed.

Definition page_row (x : string * StoredJobRow) (y : ExecutionJobRecord) (t : QueueTables) : Prop :=
  row_record t x.1 x.2 y ∧ record_valid y.

Lemma listing_records t l :
  queue_wf t → Forall (λ x, jobs t !! x.1 = Some x.2) l → ∃ ys, Forall2 (λ x y, page_row x y t) l ys.
Proof.
  intros Hwf. induction 1 as [|x l Hx _ [ys IH]]; [by exists []|]. apply (qw_rows _ Hwf) in Hx as [(y & ? & ?) _].
  exists (y :: ys). by constructor.
Qed.

(** The cursor after the rows [l1] of the listing. *)
Definition cursor_at (l1 : list (string * StoredJobRow)) : option ExecutionJobPageCursor :=
  (λ x, {| cursor_submitted_at := row_submitted_at x.2; cursor_job_id := x.1 |}) <$> last l1.

Section pages.
Context (t : QueueTables) (s : ExecutionQueueScope) (states : list ExecutionJobState) (limit : nat).
Context (Hwf : queue_wf t) (Hs : validate_scope s = Ok tt) (Hlimit : 0 < Z.of_nat limit ≤ MAX_PAGE_SIZE) (Hstates : NoDup states).

Lemma listing_valid x : x ∈ listing t s states → instant_shape (row_submitted_at x.2) = true ∧ is_canonical_prefixed_id x.1 "job_" = true.
Proof.
  intros [_ Hx]%listing_elem. apply (qw_rows _ Hwf) in Hx as [(y & Hy & Hv) _].
  rewrite <-(rr_submitted _ _ _ _ Hy), <-(rr_id _ _ _ _ Hy). split; apply Hv.
Qed.

Lemma after_rows l1 l2 :
  listing t s states = l1 ++ l2 →
  let c := cursor_at l1 in
  select_jobs t s states (match c with Some c => cursor_submitted_at c | None => "" end)
    (match c with Some c => cursor_job_id c | None => "" end) (limit + 1) = take (limit + 1) l2.
Proof.
  intros HL. unfold select_jobs. rewrite select_after. f_equal. unfold cursor_at.
  destruct l1 as [|e l1 _] using rev_ind; cbn.
  - rewrite filter_all; [done|]. apply Forall_forall. intros x [Hx _]%listing_valid. left.
    destruct (row_submitted_at x.2); [done|]. done.
  - rewrite last_snoc. cbn. pose proof (listing_sorted t s states) as Hsort. rewrite HL, <-app_assoc in *. by apply sorted_after_elem.
Qed.

(** One page. *)
Lemma list_jobs_page l1 l2 ys :
  listing t s states = l1 ++ l2 → Forall2 (λ x y, page_row x y t) l2 ys →
  list_jobs t s states (cursor_at l1) limit =
  Ok {| page_jobs := take limit ys;
        next_cursor := if decide (limit < length ys)%nat then cursor_at (l1 ++ take limit l2) else None |}.
Proof.
  intros HL Hys. pose proof (Forall2_length _ _ _ Hys) as Hlen. unfold list_jobs. rewrite Hs. cbn [mbind result_bind].
  rewrite refuse_run by (apply orb_false_iff; lia). rewrite refuse_run by (apply bool_decide_eq_false; tauto).
  assert (match cursor_at l1 with
    | Some c => validate_instant (cursor_submitted_at c) ;; validate_id (cursor_job_id c) "job_" | None => Ok tt end = Ok tt) as ->.
  { unfold cursor_at. destruct (last l1) as [e|] eqn:E; [|done]. cbn. rewrite then_Ok, validate_instant_Ok, queue_id_Ok.
    apply listing_valid. rewrite HL. apply elem_of_app. left. by apply last_Some_elem_of. }
  cbn [mbind result_bind]. cbv zeta. rewrite (after_rows _ _ HL).
  rewrite (mapM_Forall2 _ _ (take (limit + 1) ys)).
  2:{ apply Forall2_take. eapply Forall2_impl; [exact Hys|]. intros [j r] y [Hy Hv]. apply complete_record_Ok.
      split; [done|by apply validate_stored_record_Ok]. }
  cbn [mbind result_bind]. rewrite length_take. destruct (decide (limit < length ys)%nat) as [Hlt|Hge].
  - rewrite bool_decide_eq_true_2 by lia. replace (limit + 1)%nat with (S limit) by lia.
    replace (S limit `min` length ys - 1)%nat with limit by lia. rewrite take_take, Nat.min_l by lia. do 2 f_equal.
    unfold cursor_at. rewrite last_app.
    destruct (last (take limit l2)) as [e|] eqn:El.
    + pose proof (Forall2_last _ _ _ (Forall2_take _ _ _ limit Hys)) as Hlast. rewrite El in Hlast.
      destruct (last (take limit ys)) as [y|]; [|by inversion Hlast]. inversion Hlast as [? ? [Hy _]|]; subst. cbn. unfold cursor_of.
      by rewrite (rr_submitted _ _ _ _ Hy), (rr_id _ _ _ _ Hy).
    + apply last_None in El. apply (f_equal length) in El. rewrite length_take in El. cbn in El. lia.
  - rewrite bool_decide_eq_false_2 by lia. rewrite !take_ge by lia. done.
Qed.

Lemma all_pages_from fuel l1 l2 ys :
  listing t s states = l1 ++ l2 → Forall2 (λ x y, page_row x y t) l2 ys → (length ys < fuel)%nat →
  ∃ pages, all_pages fuel t s states (cursor_at l1) limit = Ok pages ∧ mjoin pages = ys ∧ Forall (λ p, length p ≤ limit)%nat pages.
Proof.
  revert l1 l2 ys. induction fuel as [|fuel IH]; intros l1 l2 ys HL Hys Hf; [lia|]. cbn [all_pages].
  rewrite (list_jobs_page _ _ _ HL Hys). cbn [mbind result_bind next_cursor page_jobs].
  pose proof (Forall2_length _ _ _ Hys) as Hlen.
  destruct (decide (limit < length ys)%nat) as [Hlt|Hge].
  - destruct (IH (l1 ++ take limit l2) (drop limit l2) (drop limit ys)) as (pages & Hp & Hj & Hl).
    + by rewrite <-app_assoc, take_drop.
    + by apply Forall2_drop.
    + rewrite length_drop. lia.
    + destruct (cursor_at (l1 ++ take limit l2)) as [c|] eqn:Ec.
      2:{ unfold cursor_at in Ec. apply fmap_None, last_None in Ec. apply (f_equal length) in Ec. rewrite length_app, length_take in Ec. cbn in Ec. lia. }
      exists (take limit ys :: pages). rewrite Hp. change (mjoin (take limit ys :: pages)) with (take limit ys ++ mjoin pages).
      rewrite Hj, take_drop. split_and!; [done..|].
      constructor; [rewrite length_take; lia|done].
  - exists [take limit ys]. cbn. rewrite app_nil_r. split_and!; [done|apply take_ge; lia|].
    constructor; [rewrite length_take; lia|constructor].
Qed.
End pages.

(** The records of the listing. *)
Lemma listing_jobs t s states ys x :
  Forall2 (λ x y, page_row x y t) (listing t s states) ys →
  x ∈ ys ↔ load_job t s (job_id x) = Ok (Some x) ∧ (states = [] ∨ job_state x ∈ states).
Proof.
  intros Hys. split.
  - intros Hx. apply list_elem_of_lookup in Hx as [i Hi]. destruct (Forall2_lookup_r _ _ _ _ _ Hys Hi) as ([j r] & Hr & Hx & Hv).
    apply list_elem_of_lookup_2, listing_elem in Hr as [[Hscope Hstate] Hj]. cbn [fst snd] in *. split.
    + apply load_job_Ok. rewrite (rr_id _ _ _ _ Hx). by exists r.
    + apply existsb_exists in Hstate as (st & _ & Hin). split_bools.
      match goal with H : row_job_state r = _ |- _ => rewrite (rr_state _ _ _ _ Hx) in H; apply job_state_str_inj in H as -> end.
      unfold includes in *. match goal with H : _ || _ = true |- _ => apply orb_true_iff in H as [?|?]; split_bools; auto end.
  - intros [(r & Hr & Hscope & Hx & Hv)%load_job_Ok Hin].
    assert ((job_id x, r) ∈ listing t s states) as Hel.
    { apply listing_elem. split; [|done]. split; [done|]. apply existsb_exists. exists (job_state x). split.
      - apply list_elem_of_In. unfold job_states. destruct (job_state x); set_solver.
      - apply andb_true_iff. split; [|apply bool_decide_eq_true, (rr_state _ _ _ _ Hx)].
        unfold includes. apply orb_true_iff. destruct Hin; [left|right]; by apply bool_decide_eq_true. }
    apply list_elem_of_lookup in Hel as [i Hi]. destruct (Forall2_lookup_l _ _ _ _ _ Hys Hi) as (y & Hy & Hrec & _).
    rewrite (record_of_row _ _ _ _ _ Hx Hrec). by eapply list_elem_of_lookup_2.
Qed.

Definition record_before (x y : ExecutionJobRecord) : Prop :=
  str_ltb (job_submitted_at x) (job_submitted_at y) = true ∨
  job_submitted_at x = job_submitted_at y ∧ str_ltb (job_id x) (job_id y) = true.

Lemma records_sorted t l ys :
  Forall2 (λ x y, page_row x y t) l ys → StronglySorted job_before l → StronglySorted record_before ys.
Proof.
  induction 1 as [|a y l ys [Ha _] Hrest IH]; intros Hsort; [constructor|].
  apply StronglySorted_cons in Hsort as [Hx Hsort]. constructor; [by apply IH|]. clear IH Hsort.
  induction Hrest as [|b z l ys [Hb _] _ IH]; [constructor|]. apply Forall_cons in Hx as [Hbx Hx]. constructor; [|by apply IH].
  unfold record_before. rewrite (rr_submitted _ _ _ _ Ha), (rr_submitted _ _ _ _ Hb), (rr_id _ _ _ _ Ha), (rr_id _ _ _ _ Hb). exact Hbx.
Qed.

(** The pages of a listing are the listing: in every reachable queue, following the cursors
    from the start with pages of 1 to 100 jobs ends, and the pages together hold every job of
    the scope in the wanted states exactly once, ordered by submission time and id. *)
Theorem pages_are_the_listing codec ops s states limit :
  queue_codec_ok codec →
  let t := queue_run codec empty_queue ops in
  validate_scope s = Ok tt → 0 < Z.of_nat limit ≤ MAX_PAGE_SIZE → NoDup states →
  ∃ pages, all_pages (S (size (jobs t))) t s states None limit = Ok pages ∧ Forall (λ p, length p ≤ limit)%nat pages ∧
    (∀ x, x ∈ mjoin pages ↔ load_job t s (job_id x) = Ok (Some x) ∧ (states = [] ∨ job_state x ∈ states)) ∧
    StronglySorted record_before (mjoin pages).
Proof.
  intros Hcodec t Hs Hl Hst. assert (queue_wf t) as Hwf by (by apply queue_reachable_wf).
  destruct (listing_records t (listing t s states) Hwf) as [ys Hys].
  { apply Forall_forall. intros x [_ Hx]%listing_elem. done. }
  assert (length ys ≤ size (jobs t))%nat as Hlen.
  { rewrite <-(Forall2_length _ _ _ Hys). unfold listing. rewrite (merge_sort_Permutation _ _), <-length_map_to_list. apply length_filter. }
  destruct (all_pages_from t s states limit Hwf Hs Hl Hst (S (size (jobs t))) [] (listing t s states) ys) as (pages & Hp & <- & Hfit); [done|done|lia|].
  exists pages. split_and!; [done|done| |].
  - intros x. by apply listing_jobs.
  - eapply records_sorted; [exact Hys|apply listing_sorted].
Qed.

Lemma pages_are_the_listing_witness :
  ∃ pages, all_pages 3 (sample_queue worked) sample_scope [] None 1 = Ok pages ∧ Forall (λ p, length p ≤ 1)%nat pages.
Proof.
  destruct (pages_are_the_listing fixture_queue_codec worked sample_scope [] 1 fixture_queue_codec_ok) as (pages & Hp & Hl & _).
  - vm_compute. reflexivity.
  - split; vm_compute; [reflexivity|discriminate].
  - constructor.
  - exists pages. exact (conj Hp Hl).
Defined.

Example sample_pages :
  all_pages 3 (sample_queue worked) sample_scope [] None 1 =
  Ok [[sample_record "1" [] Completed 4 "6"]; [sample_record "2" [sample_id "job_" "1"] Leased 2 "7"]].
Proof. vm_compute. reflexivity. Qed.
