(* ===== verification/JobCommit.v ===== *)
(** * State commits that submit an execution job

    [SqliteStorage::commit_with_execution_job] of [crates/winwincode-storage/src/lib.rs]: one
    transaction that commits states and submits a job to the queue, over the tables of both.
    The theorem composes the promises of the state store and of the queue: the commit and the
    job happen together, once, and are answered together for ever. *)

From Stdlib Require Import Ascii String.
From S2P Require Import Prelude Text Transaction StateKeys StateStore StateFacts StateInvariant StateRuns StateProgress StateSafety.
From S2P Require Import Queue QueueFacts QueueRuns QueueFixture QueueSafety.
Local Open Scope Z_scope.

Record StateExecutionJobCommitReceipt : Type := {
  state_receipt : CommitReceipt;
  execution_job : ExecutionJobMutationReceipt
}.

(** The tables that a connection sees. *)
Record SharedStorage : Type := { shared_store : SqliteStorage; shared_queue : QueueTables }.

Definition validate_state_execution_job_authority (c : StateCommit) (q : ExecutionJobSubmission) : stored () :=
  refuse (bool_decide (request_id (commit_identity c) ≠ sub_request_id q)) invalid ;;
  scope ← repository_scope_from_receipt_key (StateKeys.scope_key (commit_identity c));
  match scope with
  | Repository o w p r =>
      refuse (bool_decide (scope_organization_id (sub_scope q) ≠ o) || bool_decide (scope_workspace_id (sub_scope q) ≠ w) ||
              bool_decide (scope_project_id (sub_scope q) ≠ p) || bool_decide (scope_repository_id (sub_scope q) ≠ r)) invalid
  | _ => Err invalid
  end.

Lemma authority_request c q :
  validate_state_execution_job_authority c q = Ok tt → request_id (commit_identity c) = sub_request_id q.
Proof.
  unfold validate_state_execution_job_authority. destruct (bool_decide_reflect (request_id (commit_identity c) ≠ sub_request_id q)) as [|H]; [done|].
  intros _. by apply dec_stable.
Qed.

(** A transaction on the tables of one of the two. *)
Definition on_store {A} (m : tx Database StorageError A) : tx (Database * QueueTables) StorageError A :=
  λ '(db, t), match m db with Ok (a, db) => Ok (a, (db, t)) | Err e => Err e end.

Definition on_queue {A} (m : tx QueueTables StorageError A) : tx (Database * QueueTables) StorageError A :=
  λ '(db, t), match m t with Ok (a, t) => Ok (a, (db, t)) | Err e => Err e end.

Section commits.
Context (codec : EventCodec) (qcodec : QueueCodec).

Definition execution_job_transaction (c : StateCommit) (q : ExecutionJobSubmission) :
    tx (Database * QueueTables) StorageError StateExecutionJobCommitReceipt :=
  state ← on_store (commit_in_transaction codec c);
  job ← on_queue (submit_execution_job_in_transaction qcodec q (if idempotent_replay state then RequireReplay else RequireNew));
  mret {| state_receipt := state; execution_job := job |}.

Definition commit_with_execution_job (s : SharedStorage) (c : StateCommit) (q : ExecutionJobSubmission) :
    SharedStorage * stored StateExecutionJobCommitReceipt :=
  match validate_commit c ;; validate_state_execution_job_authority c q ;; connection_mut (shared_store s) with
  | Ok db =>
      let '((db, t), r) := Transaction.commit (db, shared_queue s) (execution_job_transaction c q) in
      ({| shared_store := set_database (shared_store s) db; shared_queue := t |}, r)
  | Err e => (s, Err e)
  end.

(** ** Runs *)

Inductive shared_op : Type :=
| StoreOp (op : store_op)
| QueueOp (op : queue_op)
| JobOp (c : StateCommit) (q : ExecutionJobSubmission).

Definition shared_step (s : SharedStorage) (op : shared_op) : SharedStorage :=
  match op with
  | StoreOp op => {| shared_store := store_step codec (shared_store s) op; shared_queue := shared_queue s |}
  | QueueOp op => {| shared_store := shared_store s; shared_queue := queue_step qcodec (shared_queue s) op |}
  | JobOp c q => (commit_with_execution_job s c q).1
  end.

Definition shared_run (s : SharedStorage) (ops : list shared_op) : SharedStorage := foldl shared_step s ops.

Definition new_shared : SharedStorage := {| shared_store := new_storage; shared_queue := empty_queue |}.

(** ** Both parts *)

(** The mode of the submission follows the answer of the commit. *)
Definition submission_mode (r : CommitReceipt) : ExecutionJobSubmissionMode := if idempotent_replay r then RequireReplay else RequireNew.

Lemma job_commit_Ok s c q s' r :
  commit_with_execution_job s c q = (s', Ok r) ↔
  validate_state_execution_job_authority c q = Ok tt ∧
  sqlite_commit codec (shared_store s) c = (shared_store s', Ok (state_receipt r)) ∧
  queue_answer qcodec (shared_queue s) (Submit q (submission_mode (state_receipt r))) = (shared_queue s', Ok (execution_job r)).
Proof.
  unfold commit_with_execution_job, sqlite_commit, transact, queue_answer.
  destruct (validate_commit c) as [[]|]; cbn [mbind result_bind]; [|split; [by intros [=]|by intros (_ & [=] & _)]].
  destruct (validate_state_execution_job_authority c q) as [[]|]; cbn [mbind result_bind]; [|split; [by intros [=]|by intros ([=] & _)]].
  destruct (connection_mut (shared_store s)) as [db|e]; [|split; [by intros [=]|by intros (_ & [=] & _)]].
  unfold Transaction.commit, execution_job_transaction, mbind, tx_bind, on_store, on_queue, submission_mode.
  destruct (commit_in_transaction codec c db) as [[state db']|e]; [|split; [by intros [=]|by intros (_ & [=] & _)]].
  destruct (submit_execution_job_in_transaction qcodec q _ (shared_queue s)) as [[job t']|e] eqn:E; cbn; split.
  - intros [= <- <-]. cbn. by rewrite E.
  - destruct s' as [st' qt'], r as [sr jr]; cbn. intros (_ & [= <- <-] & H). rewrite E in H. by injection H as <- <-.
  - by intros [=].
  - destruct s' as [st' qt'], r as [sr jr]; cbn. intros (_ & [= <- <-] & H). by rewrite E in H.
Qed.

Lemma job_commit_Err s c q s' e : commit_with_execution_job s c q = (s', Err e) → s' = s.
Proof.
  unfold commit_with_execution_job. destruct (_ ;; _) as [db|e'] eqn:Ec; [|by intros [= <- ?]].
  destruct (Transaction.commit _ _) as [[db' t] r] eqn:E. intros [= <- ->]. apply commit_Err in E as [_ [= -> ->]].
  inv_result. unfold connection_mut in *. inv_result. by destruct s as [[] ?].
Qed.

(** A step of the shared storage is a step of the store and one of the queue, or none. *)
Lemma shared_step_parts s op :
  ∃ so qo, shared_store (shared_step s op) = store_run codec (shared_store s) so ∧
    shared_queue (shared_step s op) = queue_run qcodec (shared_queue s) qo.
Proof.
  destruct op as [op|op|c q]; cbn; [by exists [op], []|by exists [], [op]|].
  destruct (commit_with_execution_job s c q) as [s' [r|e]] eqn:E; cbn.
  - apply job_commit_Ok in E as (_ & Hc & Hq). exists [Commit c], [Submit q (submission_mode (state_receipt r))].
    unfold store_run, queue_run, store_step, queue_step. cbn [foldl]. by rewrite Hc, Hq.
  - apply job_commit_Err in E as ->. by exists [], [].
Qed.

Lemma shared_run_parts s ops :
  ∃ so qo, shared_store (shared_run s ops) = store_run codec (shared_store s) so ∧
    shared_queue (shared_run s ops) = queue_run qcodec (shared_queue s) qo.
Proof.
  revert s. induction ops as [|op ops IH]; intros s; [by exists [], []|].
  change (shared_run s (op :: ops)) with (shared_run (shared_step s op) ops).
  destruct (shared_step_parts s op) as (so & qo & E1 & E2), (IH (shared_step s op)) as (so' & qo' & E1' & E2').
  exists (so ++ so'), (qo ++ qo'). rewrite E1', E2', E1, E2. unfold store_run, queue_run. by rewrite !foldl_app.
Qed.

Context (codec_ok : event_codec_ok codec) (qcodec_ok : queue_codec_ok qcodec).

Lemma shared_wf ops : let s := shared_run new_shared ops in store_wf codec (database (shared_store s)) ∧ queue_wf (shared_queue s).
Proof.
  intros s. destruct (shared_run_parts new_shared ops) as (so & qo & E1 & E2). subst s. rewrite E1, E2. split.
  - by apply new_run_wf.
  - apply queue_run_wf; [done|apply empty_queue_wf].
Qed.

(** C20. A commit and its job happen together, once: the job is new exactly if the commit is, and
    then it can be read in every later state of the store and the queue, under the request of
    the commit; the same call is answered as a replay of both in every later state and changes
    nothing; and a call that fails changes neither the store nor the queue. *)
Theorem job_committed_once ops c q s1 r ops' :
  commit_with_execution_job (shared_run new_shared ops) c q = (s1, Ok r) →
  let s2 := shared_run s1 ops' in
  replayed (execution_job r) = idempotent_replay (state_receipt r) ∧
  (idempotent_replay (state_receipt r) = false →
   ∃ y, load_job (shared_queue s2) (sub_scope q) (sub_job_id q) = Ok (Some y) ∧ follows (receipt_job (execution_job r)) y ∧
     submission_request_id y = request_id (commit_identity c) ∧ payload_digest y = sub_payload_digest q) ∧
  commit_with_execution_job s2 c q =
    (s2, Ok {| state_receipt := as_replay (state_receipt r);
               execution_job := {| receipt_job := receipt_job (execution_job r); replayed := true |} |}) ∧
  ∀ c' q' s' e, commit_with_execution_job s2 c' q' = (s', Err e) → s' = s2.
Proof.
  intros (Hauth & Hc & Hq)%job_commit_Ok s2. destruct (shared_wf ops) as [Hwf Hqwf].
  destruct (shared_run_parts s1 ops') as (so & qo & E1 & E2). fold s2 in E1, E2.
  pose proof Hq as Hm. cbn [queue_answer] in Hm. apply commit_Ok in Hm.
  destruct (submission_mode_answer _ _ _ _ _ _ Hm) as [Hnew Hreplay]. unfold submission_mode in *. split_and!.
  - destruct (idempotent_replay _); [by apply Hreplay|by apply Hnew].
  - intros Hfresh. rewrite Hfresh in Hq, Hm. apply submission_loads in Hm as (Hl & Hr & Hd).
    assert (queue_wf (shared_queue s1)) as Hwf1.
    { pose proof (queue_run_wf qcodec qcodec_ok _ [Submit q RequireNew] Hqwf) as H.
      unfold queue_run in H. cbn [foldl] in H. unfold queue_step in H. by rewrite Hq in H. }
    destruct (job_follows qcodec qcodec_ok _ qo _ _ _ Hwf1 Hl) as (y & Hy & Hf). exists y. rewrite E2. split_and!; [done..| |].
    + rewrite (fo_request _ _ Hf), Hr. symmetry. by apply authority_request.
    + rewrite (fo_payload _ _ Hf). done.
  - apply job_commit_Ok. split; [done|]. cbn [state_receipt execution_job as_replay idempotent_replay]. rewrite E1, E2.
    split; [by apply answered_stays with (s := shared_store (shared_run new_shared ops))|].
    by eapply submission_replays.
  - intros c' q' s' e H. by eapply job_commit_Err.
Qed.
End commits.

(** ** The sample commit *)

Definition sample_identity (n : string) : ReceiptIdentity :=
  match public_receipt_identity fixture_actor
    (Repository (sample_id "org_" "1") (sample_id "wsp_" "1") (sample_id "prj_" "1") (sample_id "rep_" "1")) (sample_id "req_" n) with
  | Ok i => i
  | Err _ => {| actor_key := ""; StateKeys.scope_key := ""; request_id := "" |}
  end.

Definition sample_commit (n : string) : StateCommit :=
  state_commit (sample_identity n) ("sha256:" +:+ repeated 64 "c") ("product-session:" +:+ n) 0 [Byte.x02]
    [{| new_event_id := "evt_" +:+ repeated 16 "0" +:+ n; new_topic := "session"; new_payload := [Byte.x01];
        projection_stream := None; public_context := None |}].

Definition job_committed : SharedStorage :=
  shared_step fixture_store_codec fixture_queue_codec new_shared (JobOp (sample_commit "1") (sample_submission "1" [])).

Definition job_receipt : StateExecutionJobCommitReceipt :=
  {| state_receipt := {| committed_identity := sample_identity "1"; committed_digest := command_digest (sample_commit "1");
       committed_stream_id := "product-session:1"; committed_revision := 1;
       committed_events := (λ e, committed_event (sample_commit "1") e None 1) <$> events (sample_commit "1"); idempotent_replay := false |};
     execution_job := {| receipt_job := sample_record "1" [] Queued 1 "1"; replayed := false |} |}.

Lemma job_answered :
  commit_with_execution_job fixture_store_codec fixture_queue_codec new_shared (sample_commit "1") (sample_submission "1" []) =
  (job_committed, Ok job_receipt).
Proof.
  enough ((commit_with_execution_job fixture_store_codec fixture_queue_codec new_shared (sample_commit "1") (sample_submission "1" [])).2 =
    Ok job_receipt) as <- by apply surjective_pairing.
  vm_compute. reflexivity.
Qed.

(** The job is leased, and a second one is committed. *)
Definition job_later : list shared_op :=
  [QueueOp (Transition (sample_move "1" "4" 1 Queued Leased)); JobOp (sample_commit "2") (sample_submission "2" [sample_id "job_" "1"])].

Lemma job_committed_once_witness :
  ∃ y, load_job (shared_queue (shared_run fixture_store_codec fixture_queue_codec job_committed job_later))
      sample_scope (sample_id "job_" "1") = Ok (Some y) ∧
    submission_request_id y = sample_id "req_" "1".
Proof.
  destruct (job_committed_once fixture_store_codec fixture_queue_codec fixture_store_codec_ok fixture_queue_codec_ok
    [] (sample_commit "1") (sample_submission "1" []) job_committed job_receipt job_later) as (_ & Hjob & _).
  - exact job_answered.
  - destruct Hjob as (y & Hy & _ & Hr & _); [reflexivity|]. exists y. split; [exact Hy|]. rewrite Hr. vm_compute. reflexivity.
Defined.
