(* ===== verification/ModelPool.v ===== *)
(** * Model request pool

    [crates/winwincode-control-plane/src/model_request_pool.rs]: the in-memory pool through
    which every request to a model provider passes.  A request belongs to a route (provider,
    model, credential and repository); a route runs a bounded number of exchanges and queues
    a bounded number more.  Each exchange buffers the frames of its stream until the client
    has acknowledged them, pauses the provider when the buffer is full, and ends with one
    outcome.  The pool is exported to bytes after a change and restored after a restart.

    A [usize] has 64 bits.  A payload is its bytes, as a [string].  SHA-256, Base64 and JSON
    come from third-party crates and are the fields of [primitives]. *)

From Stdlib Require Import Ascii String.
From stdpp Require Import sorting.
From S2P Require Import Prelude Text Numerals Ordered Transaction StateKeys.
Local Open Scope Z_scope.

Definition MAX_SAFE_INTEGER : Z := max_safe_integer.
Definition DURABLE_POOL_SCHEMA : string := "winwincode.model-request-pool-exchange.v1".
Definition DURABLE_POOL_AUTHORITY_SCHEMA : string := "winwincode.model-request-pool-authority.v2".

(** ** Errors *)

Inductive ModelRequestPoolErrorCode : Type :=
| InvalidConfig | InvalidInput | IdentityMismatch | RouteLimit | QueueFull | RecordLimit
| ExchangeConflict | NotFound | InvalidState | SequenceGap | FrameConflict | TerminalConflict.

#[global] Instance ModelRequestPoolErrorCode_eq_dec : EqDecision ModelRequestPoolErrorCode.
Proof. solve_decision. Defined.

Record ModelRequestPoolError : Type := { error_code : ModelRequestPoolErrorCode; error_message : string }.

Definition pool_error (code : ModelRequestPoolErrorCode) (message : string) : ModelRequestPoolError :=
  {| error_code := code; error_message := message |}.

Definition invalid_config (message : string) : ModelRequestPoolError := pool_error InvalidConfig message.

Definition invalid_input (message : string) : ModelRequestPoolError := pool_error InvalidInput message.

Definition exchange_conflict : ModelRequestPoolError :=
  pool_error ExchangeConflict "model exchange identity was reused with another route or request".

Definition pool_corrupt : ModelRequestPoolError :=
  pool_error InvalidState "model request pool indexes are inconsistent".

Abbreviation answer := (result ModelRequestPoolError).

(** ** Identities *)

(** [value.chars().any(char::is_control)] on the UTF-8 bytes: the controls of ASCII, and those
    of Latin-1, which are [0xC2] and a second byte. *)
Fixpoint any_control (l : list Z) : bool :=
  match l with
  | [] => false
  | b :: l' =>
      (b <? 32) || (b =? 127) ||
      ((b =? 194) && match l' with c :: _ => (128 <=? c) && (c <=? 159) | [] => false end) ||
      any_control l'
  end.

Definition token_byte (c : ascii) : bool := is_ascii_alphanumeric c || one_of "_-.:/" c.

Definition validate_token (value : string) (max_len : Z) : answer () :=
  refuse (bool_decide (value = EmptyString) || (max_len <? str_len value) ||
          any_control (byte_val <$> bytes value) || negb (all_bytes token_byte value))
    (invalid_input "model request route token is invalid").

Definition validate_prefixed_id (value prefix : string) : answer () :=
  validate_token value 200 ;;
  refuse (negb (starts_with prefix value) || (str_len value =? str_len prefix))
    (invalid_input "model request identity is invalid").

Record ModelRequestRouteKey : Type := {
  provider : string;
  model : string;
  credential_reference : string;
  organization : string;
  workspace : string;
  project : string;
  repository : string
}.

#[global] Instance ModelRequestRouteKey_eq_dec : EqDecision ModelRequestRouteKey.
Proof. solve_decision. Defined.
#[global] Instance ModelRequestRouteKey_countable : Countable ModelRequestRouteKey.
Proof.
  apply (inj_countable'
    (λ k, (provider k, model k, credential_reference k, organization k, workspace k, project k, repository k))
    (λ '(p, m, c, o, w, j, r),
       {| provider := p; model := m; credential_reference := c; organization := o; workspace := w;
          project := j; repository := r |})).
  by intros [].
Defined.

(** [sort_tuple] and the order that it gives the routes. *)
Definition sort_tuple (k : ModelRequestRouteKey) : list string :=
  [organization k; workspace k; project k; repository k; provider k; model k; credential_reference k].

Fixpoint tuple_leb (a b : list string) : bool :=
  match a, b with
  | x :: a, y :: b => str_ltb x y || (bool_decide (x = y) && tuple_leb a b)
  | [], _ => true
  | _ :: _, [] => false
  end.

Definition route_le {A} (x y : ModelRequestRouteKey * A) : Prop := tuple_leb (sort_tuple x.1) (sort_tuple y.1) = true.
#[global] Instance route_le_dec {A} : RelDecision (@route_le A).
Proof. intros x y. unfold route_le. apply _. Defined.

(** The fields of a repository scope; its kind has one value, so the check of the kind passes. *)
Record RepositoryScope : Type := {
  organization_id : string;
  workspace_id : string;
  project_id : string;
  repository_id : string
}.

Record ProjectScope : Type := {
  scope_organization_id : string;
  scope_workspace_id : string;
  scope_project_id : string
}.

Record ModelRoute : Type := {
  provider_id : string;
  model_id : string;
  credential_reference_id : string
}.

Inductive ModelSettingsTarget : Type :=
| TargetOrganization (organization : string)
| TargetProject (scope : ProjectScope)
| TargetRepository (scope : RepositoryScope)
| TargetProductSession (repository_scope : RepositoryScope) (product_session_id : string).

Definition from_repository_scope (scope : RepositoryScope) (route : ModelRoute) : answer ModelRequestRouteKey :=
  validate_token (provider_id route) 128 ;;
  validate_token (model_id route) 200 ;;
  validate_prefixed_id (credential_reference_id route) "crd_" ;;
  validate_prefixed_id (organization_id scope) "org_" ;;
  validate_prefixed_id (workspace_id scope) "wsp_" ;;
  validate_prefixed_id (project_id scope) "prj_" ;;
  validate_prefixed_id (repository_id scope) "rep_" ;;
  Ok {| provider := provider_id route; model := model_id route;
        credential_reference := credential_reference_id route; organization := organization_id scope;
        workspace := workspace_id scope; project := project_id scope; repository := repository_id scope |}.

(** [from_target], and [from_gateway], which takes the target of the gateway's identity. *)
Definition from_target (target : ModelSettingsTarget) (route : ModelRoute) : answer ModelRequestRouteKey :=
  match target with
  | TargetProductSession scope _ => from_repository_scope scope route
  | _ => Err (pool_error IdentityMismatch "model request pool requires a ProductSession Gateway identity")
  end.

Definition project_scope (k : ModelRequestRouteKey) : ProjectScope :=
  {| scope_organization_id := organization k; scope_workspace_id := workspace k; scope_project_id := project k |}.

Definition repository_scope (k : ModelRequestRouteKey) : RepositoryScope :=
  {| organization_id := organization k; workspace_id := workspace k; project_id := project k;
     repository_id := repository k |}.

Definition validate_route_key (route : ModelRequestRouteKey) : answer () :=
  validate_token (provider route) 128 ;;
  validate_token (model route) 200 ;;
  validate_prefixed_id (credential_reference route) "crd_" ;;
  validate_prefixed_id (organization route) "org_" ;;
  validate_prefixed_id (workspace route) "wsp_" ;;
  validate_prefixed_id (project route) "prj_" ;;
  validate_prefixed_id (repository route) "rep_".

Record ModelRequestAdmission : Type := {
  admission_route : ModelRequestRouteKey;
  admission_exchange_id : string;
  admission_request_id : string
}.

Definition from_gateway_route (target : ModelSettingsTarget) (route : ModelRoute) (exchange_id request_id : string) :
  answer ModelRequestAdmission :=
  validate_prefixed_id exchange_id "mdl_" ;;
  validate_prefixed_id request_id "req_" ;;
  key ← from_target target route;
  Ok {| admission_route := key; admission_exchange_id := exchange_id; admission_request_id := request_id |}.

Definition validate_admission (a : ModelRequestAdmission) : answer () :=
  validate_route_key (admission_route a) ;;
  validate_prefixed_id (admission_exchange_id a) "mdl_" ;;
  validate_prefixed_id (admission_request_id a) "req_".

(** ** Configuration *)

Record ModelRequestPoolConfig : Type := {
  max_routes : Z;
  max_active_per_route : Z;
  max_waiting_per_route : Z;
  max_exchange_records_per_route : Z;
  max_buffered_frames_per_stream : Z;
  max_buffered_bytes_per_stream : Z;
  resume_buffered_frames_per_stream : Z;
  resume_buffered_bytes_per_stream : Z
}.

#[global] Instance ModelRequestPoolConfig_eq_dec : EqDecision ModelRequestPoolConfig.
Proof. solve_decision. Defined.

Definition validate_config (c : ModelRequestPoolConfig) : answer ModelRequestPoolConfig :=
  minimum_records ← ok_or (checked_add_u64 (max_active_per_route c) (max_waiting_per_route c))
                      (invalid_config "model request record limit overflowed");
  refuse ((max_routes c =? 0) || (max_active_per_route c =? 0) ||
          (max_exchange_records_per_route c <? minimum_records) ||
          (max_buffered_frames_per_stream c =? 0) || (max_buffered_bytes_per_stream c =? 0) ||
          (max_buffered_frames_per_stream c <=? resume_buffered_frames_per_stream c) ||
          (max_buffered_bytes_per_stream c <=? resume_buffered_bytes_per_stream c))
    (invalid_config "model request pool limits are invalid") ;;
  Ok c.

(** ** Exchanges and frames *)

Inductive ModelRequestState : Type := Queued | Active | Succeeded | Failed | Cancelled.

Inductive ModelRequestTerminalOutcome : Type := OutcomeSucceeded | OutcomeFailed | OutcomeCancelled.

#[global] Instance ModelRequestState_eq_dec : EqDecision ModelRequestState.
Proof. solve_decision. Defined.
#[global] Instance ModelRequestTerminalOutcome_eq_dec : EqDecision ModelRequestTerminalOutcome.
Proof. solve_decision. Defined.

Definition terminal (s : ModelRequestState) : bool :=
  match s with Succeeded | Failed | Cancelled => true | Queued | Active => false end.

Definition outcome_state (o : ModelRequestTerminalOutcome) : ModelRequestState :=
  match o with OutcomeSucceeded => Succeeded | OutcomeFailed => Failed | OutcomeCancelled => Cancelled end.

Record ModelStreamFrame : Type := {
  sequence : Z;
  payload : string;
  frame_outcome : option ModelRequestTerminalOutcome
}.

#[global] Instance ModelStreamFrame_eq_dec : EqDecision ModelStreamFrame.
Proof. solve_decision. Defined.

Definition data_frame (sequence : Z) (payload : string) : ModelStreamFrame :=
  {| sequence := sequence; payload := payload; frame_outcome := None |}.

Definition terminal_frame (sequence : Z) (payload : string) (outcome : ModelRequestTerminalOutcome) : ModelStreamFrame :=
  {| sequence := sequence; payload := payload; frame_outcome := Some outcome |}.

Record FrameFingerprint : Type := {
  print_sequence : Z;
  print_digest : list Z;
  print_outcome : ModelRequestTerminalOutcome
}.

Record ExchangeRecord : Type := {
  exchange_id : string;
  request_id : string;
  state : ModelRequestState;
  next_sequence : Z;
  acknowledged_sequence : Z;
  buffered_bytes : Z;
  provider_read_paused : bool;
  frames : gmap Z ModelStreamFrame;
  terminal_outcome : option ModelRequestTerminalOutcome;
  terminal_print : option FrameFingerprint
}.

Definition record_new (a : ModelRequestAdmission) (s : ModelRequestState) : ExchangeRecord :=
  {| exchange_id := admission_exchange_id a; request_id := admission_request_id a; state := s;
     next_sequence := 1; acknowledged_sequence := 0; buffered_bytes := 0; provider_read_paused := false;
     frames := ∅; terminal_outcome := None; terminal_print := None |}.

Definition highest_sequence (r : ExchangeRecord) : Z := saturating_sub (next_sequence r) 1.

Inductive ModelStreamReadControl : Type := Read | Paused | Closed.

Definition read_control (r : ExchangeRecord) : ModelStreamReadControl :=
  if terminal (state r) then Closed else if provider_read_paused r then Paused else Read.

Definition frame_count (r : ExchangeRecord) : Z := Z.of_nat (size (frames r)).

(** The frames in the order of their keys. *)
Definition frame_values (m : gmap Z ModelStreamFrame) : list (Z * ModelStreamFrame) := order_by fst (map_to_list m).

(** [frames.values().map(|frame| frame.payload.len()).sum()]. *)
Definition payload_sum (l : list (Z * ModelStreamFrame)) : Z := foldr (λ x n, str_len (payload x.2) + n) 0 l.

Definition set_state (r : ExchangeRecord) (s : ModelRequestState) : ExchangeRecord :=
  {| exchange_id := exchange_id r; request_id := request_id r; state := s; next_sequence := next_sequence r;
     acknowledged_sequence := acknowledged_sequence r; buffered_bytes := buffered_bytes r;
     provider_read_paused := provider_read_paused r; frames := frames r; terminal_outcome := terminal_outcome r;
     terminal_print := terminal_print r |}.

Definition set_paused (r : ExchangeRecord) (paused : bool) : ExchangeRecord :=
  {| exchange_id := exchange_id r; request_id := request_id r; state := state r; next_sequence := next_sequence r;
     acknowledged_sequence := acknowledged_sequence r; buffered_bytes := buffered_bytes r;
     provider_read_paused := paused; frames := frames r; terminal_outcome := terminal_outcome r;
     terminal_print := terminal_print r |}.

Definition set_buffer (r : ExchangeRecord) (m : gmap Z ModelStreamFrame) (bytes next acknowledged : Z) : ExchangeRecord :=
  {| exchange_id := exchange_id r; request_id := request_id r; state := state r; next_sequence := next;
     acknowledged_sequence := acknowledged; buffered_bytes := bytes;
     provider_read_paused := provider_read_paused r; frames := m; terminal_outcome := terminal_outcome r;
     terminal_print := terminal_print r |}.

Definition set_outcome (r : ExchangeRecord) (o : ModelRequestTerminalOutcome) (print : option FrameFingerprint) : ExchangeRecord :=
  {| exchange_id := exchange_id r; request_id := request_id r; state := outcome_state o; next_sequence := next_sequence r;
     acknowledged_sequence := acknowledged_sequence r; buffered_bytes := buffered_bytes r;
     provider_read_paused := provider_read_paused r; frames := frames r; terminal_outcome := Some o;
     terminal_print := print |}.

(** ** Validation of frames *)

Definition validate_frame (f : ModelStreamFrame) : answer () :=
  refuse ((sequence f =? 0) || (MAX_SAFE_INTEGER <? sequence f)) (invalid_input "model stream sequence is invalid").

(** The loop over a batch; the frame at hand is the last one when none follows. *)
Fixpoint validate_frames (fs : list ModelStreamFrame) : answer () :=
  match fs with
  | [] => Ok tt
  | f :: rest =>
      validate_frame f ;;
      refuse (bool_decide (frame_outcome f = Some OutcomeCancelled))
        (pool_error InvalidInput "model stream cancellation must use the pool cancellation path") ;;
      refuse (bool_decide (is_Some (frame_outcome f)) && negb (bool_decide (rest = [])))
        (invalid_input "model stream terminal frame must end its canonical batch") ;;
      validate_frames rest
  end.

Definition validate_frame_batch_shape (fs : list ModelStreamFrame) : answer () :=
  refuse (bool_decide (fs = [])) (invalid_input "model stream frame batch is empty") ;;
  validate_frames fs.

(** [try_fold(0, |total, frame| total.checked_add(frame.payload.len()))]. *)
Fixpoint batch_bytes (fs : list ModelStreamFrame) (total : Z) : option Z :=
  match fs with
  | [] => Some total
  | f :: rest => total ← checked_add_u64 total (str_len (payload f)); batch_bytes rest total
  end.

Definition validate_frame_batch (c : ModelRequestPoolConfig) (fs : list ModelStreamFrame) : answer () :=
  validate_frame_batch_shape fs ;;
  total ← ok_or (batch_bytes fs 0) (invalid_input "model stream frame batch size overflowed");
  refuse ((max_buffered_frames_per_stream c <? Z.of_nat (length fs)) || (max_buffered_bytes_per_stream c <? total))
    (invalid_input "model stream frame batch exceeds the configured hard limit").

(** ** Routes *)

Record RoutePartition : Type := {
  records : gmap string ExchangeRecord;
  waiting : list string
}.

Definition empty_partition : RoutePartition := {| records := ∅; waiting := [] |}.

(** [records.values().filter(p).count()]. *)
Definition count_records (p : ExchangeRecord → bool) (m : gmap string ExchangeRecord) : Z :=
  Z.of_nat (length (filter (λ x, p x.2 = true) (map_to_list m))).

Definition is_active (r : ExchangeRecord) : bool := bool_decide (state r = Active).

Definition active_count (part : RoutePartition) : Z := count_records is_active (records part).

Definition terminal_count (part : RoutePartition) : Z := count_records (λ r, terminal (state r)) (records part).

(** [position(|queued| queued == id).map(|index| index + 1)]. *)
Definition queue_position (part : RoutePartition) (id : string) : option Z :=
  (λ x, Z.of_nat x.1 + 1) <$> list_find (λ queued, queued = id) (waiting part).

Fixpoint grant_loop (m : gmap string ExchangeRecord) (queue : list string) : RoutePartition * option string :=
  match queue with
  | [] => ({| records := m; waiting := [] |}, None)
  | id :: queue =>
      match m !! id with
      | None => grant_loop m queue
      | Some r =>
          if bool_decide (state r = Queued)
          then ({| records := <[id := set_state r Active]> m; waiting := queue |}, Some (exchange_id r))
          else grant_loop m queue
      end
  end.

Definition grant_next (part : RoutePartition) : RoutePartition * option string := grant_loop (records part) (waiting part).

Definition set_record (part : RoutePartition) (id : string) (r : ExchangeRecord) : RoutePartition :=
  {| records := <[id := r]> (records part); waiting := waiting part |}.

(** ** The pool *)

Record ModelRequestPool : Type := {
  config : ModelRequestPoolConfig;
  routes : gmap ModelRequestRouteKey RoutePartition;
  exchange_routes : gmap string ModelRequestRouteKey
}.

Definition pool_new (c : ModelRequestPoolConfig) : answer ModelRequestPool :=
  c ← validate_config c; Ok {| config := c; routes := ∅; exchange_routes := ∅ |}.

Definition set_partition (route : ModelRequestRouteKey) (part : RoutePartition) (p : ModelRequestPool) : ModelRequestPool :=
  {| config := config p; routes := <[route := part]> (routes p); exchange_routes := exchange_routes p |}.

Definition set_exchange_route (id : string) (route : ModelRequestRouteKey) (p : ModelRequestPool) : ModelRequestPool :=
  {| config := config p; routes := routes p; exchange_routes := <[id := route]> (exchange_routes p) |}.

Definition same_project (a b : ModelRequestRouteKey) : bool :=
  bool_decide (organization a = organization b) && bool_decide (workspace a = workspace b) &&
  bool_decide (project a = project b).

Definition project_route_count (p : ModelRequestPool) (route : ModelRequestRouteKey) : Z :=
  Z.of_nat (length (filter (λ x, same_project x.1 route = true) (map_to_list (routes p)))).

Definition route_for (id : string) (p : ModelRequestPool) : answer ModelRequestRouteKey :=
  validate_prefixed_id id "mdl_" ;;
  ok_or (exchange_routes p !! id) (pool_error NotFound "model request exchange is not registered").

(** The partition of a route and the record of an exchange, or [pool_corrupt]. *)
Definition partition_at (route : ModelRequestRouteKey) (p : ModelRequestPool) : answer RoutePartition :=
  ok_or (routes p !! route) pool_corrupt.

Definition record_in (part : RoutePartition) (id : string) : answer ExchangeRecord :=
  ok_or (records part !! id) pool_corrupt.

Definition record_of (id : string) (p : ModelRequestPool) : answer ExchangeRecord :=
  route ← route_for id p;
  part ← partition_at route p;
  record_in part id.

Inductive ModelRequestAdmissionStatus : Type := Started | StatusQueued | StatusDuplicate.

Record ModelRequestAdmissionReceipt : Type := {
  receipt_exchange_id : string;
  receipt_state : ModelRequestState;
  receipt_status : ModelRequestAdmissionStatus;
  receipt_queue_position : option Z
}.

Abbreviation pool_act := (act ModelRequestPool ModelRequestPoolError).

(** [submit]: a known exchange is answered from its record; a new one starts, or waits, or is
    refused.  The partition that [entry(..).or_default()] makes stays when it is refused. *)
Definition submit (a : ModelRequestAdmission) : pool_act ModelRequestAdmissionReceipt :=
  let id := admission_exchange_id a in
  let route := admission_route a in
  attempt (validate_admission a) ;;
  with_state (λ p, exchange_routes p !! id) (λ existing,
  match existing with
  | Some existing_route =>
      attempt (refuse (negb (bool_decide (existing_route = route))) exchange_conflict) ;;
      part ← attempt_with (partition_at existing_route);
      r ← attempt (record_in part id);
      attempt (refuse (negb (bool_decide (request_id r = admission_request_id a))) exchange_conflict) ;;
      mret {| receipt_exchange_id := exchange_id r; receipt_state := state r; receipt_status := StatusDuplicate;
              receipt_queue_position := queue_position part id |}
  | None =>
      attempt_with (λ p,
        refuse (bool_decide (routes p !! route = None) && (max_routes (config p) <=? project_route_count p route))
          (pool_error RouteLimit "model request route capacity is exhausted")) ;;
      modify (λ p, set_partition route (default empty_partition (routes p !! route)) p) ;;
      with_state config (λ c,
      with_state (λ p, default empty_partition (routes p !! route)) (λ part,
      attempt (refuse (max_exchange_records_per_route c <=? Z.of_nat (size (records part)))
        (pool_error RecordLimit "model request route record capacity is exhausted")) ;;
      if active_count part <? max_active_per_route c
      then
        modify (set_partition route (set_record part id (record_new a Active))) ;;
        modify (set_exchange_route id route) ;;
        mret {| receipt_exchange_id := id; receipt_state := Active; receipt_status := Started;
                receipt_queue_position := None |}
      else
        attempt (refuse (max_waiting_per_route c <=? Z.of_nat (length (waiting part)))
          (pool_error QueueFull "model request route waiting queue is full")) ;;
        let queue := waiting part ++ [id] in
        modify (set_partition route
          {| records := <[id := record_new a Queued]> (records part); waiting := queue |}) ;;
        modify (set_exchange_route id route) ;;
        mret {| receipt_exchange_id := id; receipt_state := Queued; receipt_status := StatusQueued;
                receipt_queue_position := Some (Z.of_nat (length queue)) |}))
  end).

(** ** Writing frames *)

Record primitives : Type := {
  sha256 : string → list Z;
  sha256_hex : string → string;
  base64_encode : string → string;
  base64_decode : string → option string
}.

Section frames.
Context (P : primitives).

Definition outcome_tag (o : option ModelRequestTerminalOutcome) : Z :=
  match o with
  | None => 0
  | Some OutcomeSucceeded => 1
  | Some OutcomeFailed => 2
  | Some OutcomeCancelled => 3
  end.

(** [frame_digest]; a payload's length is below 2^64. *)
Definition frame_bytes (f : ModelStreamFrame) : string :=
  to_be_bytes 8 (sequence f) +:+ String (byte_of (outcome_tag (frame_outcome f)))
    (to_be_bytes 8 (str_len (payload f)) +:+ payload f).

Definition frame_digest (f : ModelStreamFrame) : list Z := sha256 P (frame_bytes f).

Inductive ModelFrameWriteStatus : Type := Accepted | Duplicate | Backpressured.

(** [record.frames.get(&frame.sequence).is_some_and(|existing| frame_digest(existing) == digest)] *)
Definition buffered_same (r : ExchangeRecord) (f : ModelStreamFrame) (digest : list Z) : bool :=
  match frames r !! sequence f with
  | Some existing => bool_decide (frame_digest existing = digest)
  | None => false
  end.

Definition ended_by (r : ExchangeRecord) (f : ModelStreamFrame) (digest : list Z) : bool :=
  match frame_outcome f, terminal_print r with
  | Some outcome, Some print =>
      (print_sequence print =? sequence f) && bool_decide (print_digest print = digest) &&
      bool_decide (print_outcome print = outcome)
  | _, _ => false
  end.

Definition classify_frame_write (r : ExchangeRecord) (f : ModelStreamFrame) (digest : list Z) :
  answer (option ModelFrameWriteStatus) :=
  if terminal (state r) then
    if sequence f <=? acknowledged_sequence r then Ok (Some Duplicate)
    else if buffered_same r f digest then Ok (Some Duplicate)
    else if ended_by r f digest then Ok (Some Duplicate)
    else Err (pool_error FrameConflict "terminal model stream rejected another frame")
  else if negb (bool_decide (state r = Active)) then
    Err (pool_error InvalidState "queued model request cannot accept stream frames")
  else if sequence f <? next_sequence r then
    if sequence f <=? acknowledged_sequence r then Ok (Some Duplicate)
    else
      existing ← ok_or (frames r !! sequence f) pool_corrupt;
      if bool_decide (frame_digest existing = digest) then Ok (Some Duplicate)
      else Err (pool_error FrameConflict "model stream sequence was reused with different content")
  else if sequence f =? next_sequence r then Ok None
  else Err (pool_error SequenceGap "model stream frame is not contiguous").

(** What the loop over a batch comes to: a candidate that took every frame, or a full buffer. *)
Inductive push_outcome : Type :=
| Pushed (candidate : ExchangeRecord) (accepted accepted_terminal : bool)
| Full.

(** One new frame taken by the candidate. *)
Definition take_frame (r : ExchangeRecord) (f : ModelStreamFrame) (bytes next : Z) : ExchangeRecord :=
  let r := set_buffer r (<[sequence f := f]> (frames r)) bytes next (acknowledged_sequence r) in
  match frame_outcome f with
  | Some outcome =>
      set_outcome r outcome
        (Some {| print_sequence := sequence f; print_digest := frame_digest f; print_outcome := outcome |})
  | None => r
  end.

Fixpoint push_loop (c : ModelRequestPoolConfig) (fs : list ModelStreamFrame) (candidate : ExchangeRecord)
  (accepted accepted_terminal : bool) : answer push_outcome :=
  match fs with
  | [] => Ok (Pushed candidate accepted accepted_terminal)
  | f :: rest =>
      status ← classify_frame_write candidate f (frame_digest f);
      match status with
      | Some _ => push_loop c rest candidate accepted accepted_terminal
      | None =>
          let next_frames := saturating_add_u64 (frame_count candidate) 1 in
          let next_bytes := saturating_add_u64 (buffered_bytes candidate) (str_len (payload f)) in
          if (max_buffered_frames_per_stream c <? next_frames) || (max_buffered_bytes_per_stream c <? next_bytes)
          then Ok Full
          else
            next ← ok_or (checked_add_u64 (next_sequence candidate) 1)
                     (pool_error InvalidState "model stream sequence overflowed");
            push_loop c rest (take_frame candidate f next_bytes next) true
              (accepted_terminal || bool_decide (is_Some (frame_outcome f)))
      end
  end.

Record ModelFrameWriteReceipt : Type := {
  write_status : ModelFrameWriteStatus;
  write_state : ModelRequestState;
  write_highest_sequence : Z;
  write_buffered_frames : Z;
  write_buffered_bytes : Z;
  write_read_control : ModelStreamReadControl;
  write_granted : option string
}.

Definition frame_receipt (r : ExchangeRecord) (status : ModelFrameWriteStatus) (granted : option string) :
  ModelFrameWriteReceipt :=
  {| write_status := status; write_state := state r; write_highest_sequence := highest_sequence r;
     write_buffered_frames := frame_count r; write_buffered_bytes := buffered_bytes r;
     write_read_control := read_control r; write_granted := granted |}.

Definition push_frames (id : string) (fs : list ModelStreamFrame) : pool_act ModelFrameWriteReceipt :=
  with_state config (λ c,
  attempt (validate_frame_batch c fs) ;;
  route ← attempt_with (route_for id);
  part ← attempt_with (partition_at route);
  r ← attempt (record_in part id);
  pushed ← attempt (push_loop c fs r false false);
  match pushed with
  | Full =>
      let r := set_paused r true in
      modify (set_partition route (set_record part id r)) ;;
      mret (frame_receipt r Backpressured None)
  | Pushed candidate accepted accepted_terminal =>
      if negb accepted then mret (frame_receipt r Duplicate None)
      else
        let candidate := set_paused candidate
          (negb accepted_terminal &&
           ((max_buffered_frames_per_stream c <=? frame_count candidate) ||
            (max_buffered_bytes_per_stream c <=? buffered_bytes candidate))) in
        let part := set_record part id candidate in
        let '(part, granted) := if accepted_terminal then grant_next part else (part, None) in
        modify (set_partition route part) ;;
        r ← attempt (record_in part id);
        mret (frame_receipt r Accepted granted)
  end).

Definition push_frame (id : string) (f : ModelStreamFrame) : pool_act ModelFrameWriteReceipt := push_frames id [f].
End frames.

(** ** Acknowledging, ending, reading and forgetting *)

Record ModelFrameAckReceipt : Type := {
  ack_exchange_id : string;
  ack_sequence : Z;
  ack_buffered_frames : Z;
  ack_buffered_bytes : Z;
  ack_read_control : ModelStreamReadControl;
  ack_replayed : bool
}.

Definition ack_receipt (r : ExchangeRecord) (replayed : bool) : ModelFrameAckReceipt :=
  {| ack_exchange_id := exchange_id r; ack_sequence := acknowledged_sequence r; ack_buffered_frames := frame_count r;
     ack_buffered_bytes := buffered_bytes r; ack_read_control := read_control r; ack_replayed := replayed |}.

(** The record after an acknowledgement that moves forward. *)
Definition acknowledged_record (c : ModelRequestPoolConfig) (r : ExchangeRecord) (n : Z) : ExchangeRecord :=
  let kept := filter (λ x, n < x.1) (frames r) in
  let r := set_buffer r kept (payload_sum (frame_values kept)) (next_sequence r) n in
  if provider_read_paused r && (frame_count r <=? resume_buffered_frames_per_stream c) &&
     (buffered_bytes r <=? resume_buffered_bytes_per_stream c)
  then set_paused r false else r.

Definition acknowledge (id : string) (n : Z) : pool_act ModelFrameAckReceipt :=
  attempt (refuse (MAX_SAFE_INTEGER <? n) (invalid_input "model acknowledgement sequence is invalid")) ;;
  with_state config (λ c,
  route ← attempt_with (route_for id);
  part ← attempt_with (partition_at route);
  r ← attempt (record_in part id);
  attempt (refuse (highest_sequence r <? n)
    (pool_error SequenceGap "model acknowledgement exceeds the accepted stream")) ;;
  if n <=? acknowledged_sequence r then mret (ack_receipt r true)
  else
    let r := acknowledged_record c r n in
    modify (set_partition route (set_record part id r)) ;;
    mret (ack_receipt r false)).

Record ModelRequestTerminalReceipt : Type := {
  terminal_exchange_id : string;
  terminal_receipt_outcome : ModelRequestTerminalOutcome;
  terminal_replayed : bool;
  terminal_granted : option string
}.

Definition terminated_record (r : ExchangeRecord) (o : ModelRequestTerminalOutcome) : ExchangeRecord :=
  let r := set_paused (set_outcome r o (terminal_print r)) false in
  if bool_decide (o = OutcomeCancelled)
  then set_buffer r ∅ 0 (next_sequence r) (acknowledged_sequence r) else r.

Definition terminate (id : string) (o : ModelRequestTerminalOutcome) : pool_act ModelRequestTerminalReceipt :=
  attempt (validate_prefixed_id id "mdl_") ;;
  route ← attempt_with (route_for id);
  part ← attempt_with (partition_at route);
  r ← attempt (record_in part id);
  if terminal (state r) then
    attempt (if bool_decide (terminal_outcome r = Some o)
             then Ok {| terminal_exchange_id := id; terminal_receipt_outcome := o; terminal_replayed := true;
                        terminal_granted := None |}
             else Err (pool_error TerminalConflict "model request already has another terminal outcome"))
  else
    attempt (refuse (bool_decide (state r = Queued) && negb (bool_decide (o = OutcomeCancelled)))
      (pool_error InvalidState "queued model request may only be cancelled")) ;;
    let queue := if bool_decide (state r = Queued) then filter (λ queued, queued ≠ id) (waiting part) else waiting part in
    let ended := {| records := <[id := terminated_record r o]> (records part); waiting := queue |} in
    let '(part, granted) := if bool_decide (state r = Active) then grant_next ended else (ended, None) in
    modify (set_partition route part) ;;
    mret {| terminal_exchange_id := id; terminal_receipt_outcome := o; terminal_replayed := false;
            terminal_granted := granted |}.

Definition cancel (id : string) : pool_act ModelRequestTerminalReceipt := terminate id OutcomeCancelled.

(** The loop of [read_buffered] over the frames after a sequence. *)
Fixpoint read_loop (l : list (Z * ModelStreamFrame)) (count bytes max_frames max_bytes : Z) : list ModelStreamFrame :=
  match l with
  | [] => []
  | x :: l =>
      if (max_frames <=? count) || (max_bytes <? saturating_add_u64 bytes (str_len (payload x.2))) then []
      else x.2 :: read_loop l (count + 1) (saturating_add_u64 bytes (str_len (payload x.2))) max_frames max_bytes
  end.

Definition read_buffered (id : string) (after max_frames max_bytes : Z) (p : ModelRequestPool) :
  answer (list ModelStreamFrame) :=
  refuse ((max_frames =? 0) || (max_bytes =? 0) || (MAX_SAFE_INTEGER <? after))
    (invalid_input "model stream read limits are invalid") ;;
  r ← record_of id p;
  Ok (read_loop (filter (λ x, saturating_add_u64 after 1 ≤ x.1) (frame_values (frames r))) 0 0 max_frames max_bytes).

Record ModelRequestSnapshot : Type := {
  snapshot_route : ModelRequestRouteKey;
  snapshot_exchange_id : string;
  snapshot_request_id : string;
  snapshot_state : ModelRequestState;
  snapshot_queue_position : option Z;
  snapshot_next_sequence : Z;
  snapshot_acknowledged_sequence : Z;
  snapshot_buffered_frames : Z;
  snapshot_buffered_bytes : Z;
  snapshot_read_control : ModelStreamReadControl;
  snapshot_terminal_outcome : option ModelRequestTerminalOutcome
}.

Definition reconnect (id : string) (p : ModelRequestPool) : answer ModelRequestSnapshot :=
  route ← route_for id p;
  part ← partition_at route p;
  r ← record_in part id;
  Ok {| snapshot_route := route; snapshot_exchange_id := exchange_id r; snapshot_request_id := request_id r;
        snapshot_state := state r; snapshot_queue_position := queue_position part id;
        snapshot_next_sequence := next_sequence r; snapshot_acknowledged_sequence := acknowledged_sequence r;
        snapshot_buffered_frames := frame_count r; snapshot_buffered_bytes := buffered_bytes r;
        snapshot_read_control := read_control r; snapshot_terminal_outcome := terminal_outcome r |}.

Definition forget_terminal (id : string) : pool_act () :=
  route ← attempt_with (route_for id);
  part ← attempt_with (partition_at route);
  r ← attempt (record_in part id);
  attempt (refuse (negb (terminal (state r)) || negb (bool_decide (frames r = ∅)))
    (pool_error InvalidState "model request can be forgotten only after terminal frames are acknowledged")) ;;
  let left := delete id (records part) in
  modify (λ p,
    {| config := config p;
       routes := if bool_decide (left = ∅) then delete route (routes p)
                 else <[route := {| records := left; waiting := waiting part |}]> (routes p);
       exchange_routes := delete id (exchange_routes p) |}).

(** ** Views of the pool *)

Definition pool_is_empty (p : ModelRequestPool) : bool :=
  bool_decide (routes p = ∅) && bool_decide (exchange_routes p = ∅).

Definition is_route_ready (p : ModelRequestPool) (route : ModelRequestRouteKey) : bool :=
  match routes p !! route with
  | None => project_route_count p route <? max_routes (config p)
  | Some part =>
      (Z.of_nat (size (records part)) <? max_exchange_records_per_route (config p)) &&
      ((active_count part <? max_active_per_route (config p)) ||
       (Z.of_nat (length (waiting part)) <? max_waiting_per_route (config p)))
  end.

Definition buffered_exchange_ids (p : ModelRequestPool) : list string :=
  sort_by_key id
    ((λ x, exchange_id x.2) <$>
     filter (λ x, frames x.2 ≠ ∅) (x ← merge_sort route_le (map_to_list (routes p)); sort_by_key fst (map_to_list (records x.2)))).

Definition project_scope_for_exchange (id : string) (p : ModelRequestPool) : answer ProjectScope :=
  project_scope <$> route_for id p.

Record ModelRoutePoolSnapshot : Type := {
  pool_route : ModelRequestRouteKey;
  pool_active : Z;
  pool_waiting : Z;
  pool_retained_terminal : Z;
  pool_records : Z
}.

Definition route_snapshot (p : ModelRequestPool) (route : ModelRequestRouteKey) : option ModelRoutePoolSnapshot :=
  part ← routes p !! route;
  Some {| pool_route := route; pool_active := active_count part; pool_waiting := Z.of_nat (length (waiting part));
          pool_retained_terminal := terminal_count part; pool_records := Z.of_nat (size (records part)) |}.

(** ** The durable form *)

Record DurablePoolFrame : Type := {
  durable_sequence : Z;
  payload_base64 : string;
  durable_frame_outcome : option string
}.

Record DurablePoolExchange : Type := {
  durable_schema : string;
  durable_route_fingerprint : string;
  durable_exchange_id : string;
  durable_request_id : string;
  durable_state : string;
  durable_next_sequence : Z;
  durable_acknowledged_sequence : Z;
  durable_paused : bool;
  durable_frames : list DurablePoolFrame;
  durable_outcome : option string
}.

Record DurablePoolRoute : Type := {
  durable_provider : string;
  durable_model : string;
  durable_credential : string;
  durable_organization : string;
  durable_workspace : string;
  durable_project : string;
  durable_repository : string;
  durable_waiting : list string;
  durable_exchanges : list DurablePoolExchange
}.

(** [DurablePoolConfig] has the fields of [ModelRequestPoolConfig], and [From] copies them. *)
Record DurablePoolAuthority : Type := {
  authority_schema : string;
  authority_config : ModelRequestPoolConfig;
  authority_routes : list DurablePoolRoute
}.

(** [serde_json::to_vec] and [from_slice] of a type. *)
Record json (A : Type) : Type := {
  to_vec : A → option string;
  from_slice : string → option A
}.
Arguments to_vec {A}.
Arguments from_slice {A}.

Definition request_state_name (s : ModelRequestState) : string :=
  match s with
  | Queued => "queued" | Active => "active" | Succeeded => "succeeded" | Failed => "failed" | Cancelled => "cancelled"
  end.

Definition parse_request_state (value : string) : answer ModelRequestState :=
  if bool_decide (value = "queued"%string) then Ok Queued
  else if bool_decide (value = "active"%string) then Ok Active
  else if bool_decide (value = "succeeded"%string) then Ok Succeeded
  else if bool_decide (value = "failed"%string) then Ok Failed
  else if bool_decide (value = "cancelled"%string) then Ok Cancelled
  else Err pool_corrupt.

Definition terminal_outcome_name (o : ModelRequestTerminalOutcome) : string :=
  match o with OutcomeSucceeded => "succeeded" | OutcomeFailed => "failed" | OutcomeCancelled => "cancelled" end.

Definition parse_terminal_outcome (value : string) : answer ModelRequestTerminalOutcome :=
  if bool_decide (value = "succeeded"%string) then Ok OutcomeSucceeded
  else if bool_decide (value = "failed"%string) then Ok OutcomeFailed
  else if bool_decide (value = "cancelled"%string) then Ok OutcomeCancelled
  else Err pool_corrupt.

(** [value.as_deref().map(parse_terminal_outcome).transpose()?]. *)
Definition parse_optional_outcome (value : option string) : answer (option ModelRequestTerminalOutcome) :=
  match value with None => Ok None | Some v => Some <$> parse_terminal_outcome v end.

(** [keys.eq(from..upto)]: the keys one by one against the range. *)
Fixpoint keys_are (keys : list Z) (from upto : Z) : bool :=
  match keys with
  | [] => upto <=? from
  | k :: keys => (from <? upto) && (k =? from) && keys_are keys (from + 1) upto
  end.

Section durable.
Context (P : primitives).

(** [route_fingerprint]: each field is followed by a zero byte. *)
Definition route_bytes (k : ModelRequestRouteKey) : string :=
  "winwincode.model-request-route.v1" +:+ String Ascii.zero
    (foldr (λ v s, v +:+ String Ascii.zero s) EmptyString (sort_tuple k)).

Definition route_fingerprint (k : ModelRequestRouteKey) : string := "sha256:" +:+ sha256_hex P (route_bytes k).

Definition durable_pool_frame (f : ModelStreamFrame) : DurablePoolFrame :=
  {| durable_sequence := sequence f; payload_base64 := base64_encode P (payload f);
     durable_frame_outcome := terminal_outcome_name <$> frame_outcome f |}.

Definition durable_pool_exchange (route : ModelRequestRouteKey) (r : ExchangeRecord) : DurablePoolExchange :=
  {| durable_schema := DURABLE_POOL_SCHEMA; durable_route_fingerprint := route_fingerprint route;
     durable_exchange_id := exchange_id r; durable_request_id := request_id r;
     durable_state := request_state_name (state r); durable_next_sequence := next_sequence r;
     durable_acknowledged_sequence := acknowledged_sequence r; durable_paused := provider_read_paused r;
     durable_frames := durable_pool_frame ∘ snd <$> frame_values (frames r);
     durable_outcome := terminal_outcome_name <$> terminal_outcome r |}.

(** The loop of [restored_record] over the durable frames. *)
Fixpoint restore_frames (ds : list DurablePoolFrame) (m : gmap Z ModelStreamFrame) (bytes : Z) :
  answer (gmap Z ModelStreamFrame * Z) :=
  match ds with
  | [] => Ok (m, bytes)
  | d :: ds =>
      payload ← ok_or (base64_decode P (payload_base64 d)) pool_corrupt;
      outcome ← parse_optional_outcome (durable_frame_outcome d);
      let f := {| sequence := durable_sequence d; payload := payload; frame_outcome := outcome |} in
      validate_frame f ;;
      bytes ← ok_or (checked_add_u64 bytes (str_len payload)) pool_corrupt;
      refuse (bool_decide (is_Some (m !! sequence f))) pool_corrupt ;;
      restore_frames ds (<[sequence f := f]> m) bytes
  end.

(** The fingerprint of the frame that ended the stream. *)
Definition restored_print (d : DurablePoolExchange) (m : gmap Z ModelStreamFrame)
  (outcome : option ModelRequestTerminalOutcome) : answer (option FrameFingerprint) :=
  match outcome with
  | None | Some OutcomeCancelled => Ok None
  | Some o =>
      f ← ok_or (m !! saturating_sub (durable_next_sequence d) 1) pool_corrupt;
      refuse (negb (bool_decide (frame_outcome f = Some o))) pool_corrupt ;;
      Ok (Some {| print_sequence := sequence f; print_digest := frame_digest P f; print_outcome := o |})
  end.

Definition restored_record (d : DurablePoolExchange) (c : ModelRequestPoolConfig) : answer ExchangeRecord :=
  s ← parse_request_state (durable_state d);
  let next := durable_next_sequence d in
  let acknowledged := durable_acknowledged_sequence d in
  refuse ((next =? 0) || (next <=? acknowledged) || (MAX_SAFE_INTEGER <? next)) pool_corrupt ;;
  outcome ← parse_optional_outcome (durable_outcome d);
  refuse (negb (bool_decide (outcome_state <$> outcome = if terminal s then Some s else None))) pool_corrupt ;;
  fb ← restore_frames (durable_frames d) ∅ 0;
  let '(m, bytes) := fb in
  refuse ((max_buffered_frames_per_stream c <? Z.of_nat (size m)) || (max_buffered_bytes_per_stream c <? bytes) ||
          negb (keys_are (fst <$> frame_values m) (acknowledged + 1) next)) pool_corrupt ;;
  refuse (bool_decide (s = Queued) &&
          (negb (next =? 1) || negb (acknowledged =? 0) || durable_paused d || negb (bool_decide (m = ∅)) ||
           bool_decide (is_Some outcome))) pool_corrupt ;;
  print ← restored_print d m outcome;
  refuse (bool_decide (outcome = Some OutcomeCancelled) && negb (bool_decide (m = ∅))) pool_corrupt ;;
  Ok {| exchange_id := durable_exchange_id d; request_id := durable_request_id d; state := s; next_sequence := next;
        acknowledged_sequence := acknowledged; buffered_bytes := bytes; provider_read_paused := durable_paused d;
        frames := m; terminal_outcome := outcome; terminal_print := print |}.

(** ** One exchange *)

Definition export_exchange (J : json DurablePoolExchange) (id : string) (p : ModelRequestPool) : answer string :=
  route ← route_for id p;
  r ← record_of id p;
  ok_or (to_vec J (durable_pool_exchange route r)) pool_corrupt.

Definition restore_exchange (J : json DurablePoolExchange) (a : ModelRequestAdmission) (bytes : string) :
  pool_act ModelRequestAdmissionReceipt :=
  d ← attempt (ok_or (from_slice J bytes) pool_corrupt);
  again ← attempt (ok_or (to_vec J d) pool_corrupt);
  attempt (refuse (negb (bool_decide (again = bytes)) || negb (bool_decide (durable_schema d = DURABLE_POOL_SCHEMA)) ||
                   negb (bool_decide (durable_route_fingerprint d = route_fingerprint (admission_route a))) ||
                   negb (bool_decide (durable_exchange_id d = admission_exchange_id a)) ||
                   negb (bool_decide (durable_request_id d = admission_request_id a))) exchange_conflict) ;;
  with_state config (λ c,
  restored ← attempt (restored_record d c);
  receipt ← submit a;
  attempt (refuse (negb (bool_decide (receipt_state receipt = Active)) && bool_decide (state restored = Active))
    (pool_error InvalidState "durable active model exchange cannot restore into a queued slot")) ;;
  route ← attempt_with (route_for (admission_exchange_id a));
  part ← attempt_with (partition_at route);
  attempt (record_in part (admission_exchange_id a)) ;;
  modify (set_partition route (set_record part (admission_exchange_id a) restored)) ;;
  mret {| receipt_exchange_id := admission_exchange_id a; receipt_state := state restored;
          receipt_status := StatusDuplicate; receipt_queue_position := None |}).

(** ** The whole pool *)

Definition durable_pool_route (x : ModelRequestRouteKey * RoutePartition) : DurablePoolRoute :=
  {| durable_provider := provider x.1; durable_model := model x.1; durable_credential := credential_reference x.1;
     durable_organization := organization x.1; durable_workspace := workspace x.1; durable_project := project x.1;
     durable_repository := repository x.1; durable_waiting := waiting x.2;
     durable_exchanges := (λ y, durable_pool_exchange x.1 y.2) <$> sort_by_key fst (map_to_list (records x.2)) |}.

Definition durable_authority (p : ModelRequestPool) : DurablePoolAuthority :=
  {| authority_schema := DURABLE_POOL_AUTHORITY_SCHEMA; authority_config := config p;
     authority_routes := durable_pool_route <$> merge_sort route_le (map_to_list (routes p)) |}.

Definition export_authority (J : json DurablePoolAuthority) (p : ModelRequestPool) : answer string :=
  ok_or (to_vec J (durable_authority p)) pool_corrupt.

Definition durable_route_key (d : DurablePoolRoute) : ModelRequestRouteKey :=
  {| provider := durable_provider d; model := durable_model d; credential_reference := durable_credential d;
     organization := durable_organization d; workspace := durable_workspace d; project := durable_project d;
     repository := durable_repository d |}.

(** The loop over the exchanges of a route: its records, and the index of all exchanges. *)
Fixpoint restore_records (c : ModelRequestPoolConfig) (route : ModelRequestRouteKey) (ds : list DurablePoolExchange)
  (m : gmap string ExchangeRecord) (index : gmap string ModelRequestRouteKey) :
  answer (gmap string ExchangeRecord * gmap string ModelRequestRouteKey) :=
  match ds with
  | [] => Ok (m, index)
  | d :: ds =>
      refuse (negb (bool_decide (durable_route_fingerprint d = route_fingerprint route))) pool_corrupt ;;
      r ← restored_record d c;
      let id := exchange_id r in
      refuse (bool_decide (is_Some (m !! id)) || bool_decide (is_Some (index !! id))) pool_corrupt ;;
      restore_records c route ds (<[id := r]> m) (<[id := route]> index)
  end.

Definition queued_at (m : gmap string ExchangeRecord) (id : string) : bool :=
  match m !! id with Some r => bool_decide (state r = Queued) | None => false end.

Definition queue_matches (m : gmap string ExchangeRecord) (queue : list string) : bool :=
  forallb (queued_at m) queue &&
  forallb (λ x, negb (bool_decide (state x.2 = Queued)) || bool_decide (exchange_id x.2 ∈ queue)) (map_to_list m).

(** The loop over the routes. *)
Fixpoint restore_routes (c : ModelRequestPoolConfig) (ds : list DurablePoolRoute)
  (m : gmap ModelRequestRouteKey RoutePartition) (index : gmap string ModelRequestRouteKey) :
  answer (gmap ModelRequestRouteKey RoutePartition * gmap string ModelRequestRouteKey) :=
  match ds with
  | [] => Ok (m, index)
  | d :: ds =>
      let route := durable_route_key d in
      validate_route_key route ;;
      refuse (max_exchange_records_per_route c <? Z.of_nat (length (durable_exchanges d))) pool_corrupt ;;
      ri ← restore_records c route (durable_exchanges d) ∅ index;
      let '(rs, index) := ri in
      refuse ((max_waiting_per_route c <? Z.of_nat (length (durable_waiting d))) ||
              negb (queue_matches rs (durable_waiting d))) pool_corrupt ;;
      let part := {| records := rs; waiting := durable_waiting d |} in
      refuse ((max_active_per_route c <? active_count part) || bool_decide (is_Some (m !! route))) pool_corrupt ;;
      restore_routes c ds (<[route := part]> m) index
  end.

(** The loop that counts the routes of each project.  A count is at most [max_routes] before
    it grows, which keeps the addition within [usize]. *)
Fixpoint count_projects (c : ModelRequestPoolConfig) (ks : list ModelRequestRouteKey)
  (counts : gmap (string * string * string) Z) : answer () :=
  match ks with
  | [] => Ok tt
  | k :: ks =>
      let key := (organization k, workspace k, project k) in
      count ← ok_or (checked_add_u64 (default 0 (counts !! key)) 1) pool_corrupt;
      refuse (max_routes c <? count) pool_corrupt ;;
      count_projects c ks (<[key := count]> counts)
  end.

Definition restored_authority (d : DurablePoolAuthority) (c : ModelRequestPoolConfig) :
  answer (gmap ModelRequestRouteKey RoutePartition * gmap string ModelRequestRouteKey) :=
  mi ← restore_routes c (authority_routes d) ∅ ∅;
  count_projects c (fst <$> merge_sort route_le (map_to_list mi.1)) ∅ ;;
  Ok mi.

Definition restore_authority (J : json DurablePoolAuthority) (bytes : string) : pool_act () :=
  attempt_with (λ p, refuse (negb (pool_is_empty p))
    (pool_error InvalidState "model request pool restore requires an empty instance")) ;;
  d ← attempt (ok_or (from_slice J bytes) pool_corrupt);
  again ← attempt (ok_or (to_vec J d) pool_corrupt);
  with_state config (λ c,
  attempt (refuse (negb (bool_decide (again = bytes)) ||
                   negb (bool_decide (authority_schema d = DURABLE_POOL_AUTHORITY_SCHEMA)) ||
                   negb (bool_decide (authority_config d = c))) pool_corrupt) ;;
  restored ← attempt (restored_authority d c);
  modify (λ p, {| config := config p; routes := restored.1; exchange_routes := restored.2 |})).
End durable.
