(* ===== verification/PoolFacts.v ===== *)
(** * Model request pool: the invariant

    What holds of every record, route and pool of [ModelPool], and that each operation keeps
    it: the numbering and size of the buffer, the agreement of the waiting queue with the
    states, the limits of a route, and the agreement of the index of exchanges with the
    routes. *)

From Stdlib Require Import Ascii String.
From stdpp Require Import sorting.
From S2P Require Import Prelude Text Numerals Ordered Transaction StateKeys ModelPool.
Local Open Scope Z_scope.

(** ** Counting the entries of a map *)

Section counting.
Context {K A : Type} `{Countable K} (P : K → A → bool).

Definition count_map (m : gmap K A) : Z :=
  Z.of_nat (length (filter (λ x, P x.1 x.2 = true) (map_to_list m))).

Lemma count_map_nonneg m : 0 ≤ count_map m.
Proof. unfold count_map. lia. Qed.

Lemma count_map_empty : count_map ∅ = 0.
Proof. unfold count_map. by rewrite map_to_list_empty. Qed.

Lemma count_map_new m k a : m !! k = None → count_map (<[k := a]> m) = count_map m + Z.b2z (P k a).
Proof.
  intros Hk. unfold count_map. rewrite (map_to_list_insert _ _ _ Hk), filter_cons. cbn [fst snd].
  destruct (P k a); case_decide; cbn [length Z.b2z]; done || lia.
Qed.

Lemma count_map_delete m k a : m !! k = Some a → count_map (delete k m) = count_map m - Z.b2z (P k a).
Proof.
  intros Hk. rewrite <-(insert_delete_id m k a Hk) at 2. rewrite count_map_new by apply lookup_delete_eq. lia.
Qed.

Lemma count_map_update m k a b :
  m !! k = Some a → count_map (<[k := b]> m) = count_map m - Z.b2z (P k a) + Z.b2z (P k b).
Proof.
  intros Hk. rewrite <-insert_delete_eq, count_map_new by apply lookup_delete_eq.
  by rewrite (count_map_delete m k a).
Qed.

Lemma count_map_pos m k a : m !! k = Some a → P k a = true → 1 ≤ count_map m.
Proof. intros Hk HP. pose proof (count_map_delete m k a Hk) as H0. rewrite HP in H0. pose proof (count_map_nonneg (delete k m)). simpl in *. lia. Qed.
End counting.

Lemma active_count_map part : active_count part = count_map (λ _, is_active) (records part).
Proof. done. Qed.

Lemma project_route_count_map p k : project_route_count p k = count_map (λ k' _, same_project k' k) (routes p).
Proof. done. Qed.

(** ** Sums of payloads *)

Definition frame_sum (m : gmap Z ModelStreamFrame) : Z := payload_sum (map_to_list m).

Lemma str_len_nonneg s : 0 ≤ str_len s.
Proof. unfold str_len. lia. Qed.

Lemma payload_sum_cons x l : payload_sum (x :: l) = str_len (payload x.2) + payload_sum l.
Proof. done. Qed.

Lemma payload_sum_app l k : payload_sum (l ++ k) = payload_sum l + payload_sum k.
Proof. induction l as [|x l IH]; [done|]. cbn [app]. rewrite !payload_sum_cons. lia. Qed.

#[global] Instance payload_sum_perm : Proper ((≡ₚ) ==> (=)) payload_sum.
Proof. intros l k Hp. induction Hp; rewrite ?payload_sum_cons; lia. Qed.

Lemma payload_sum_nonneg l : 0 ≤ payload_sum l.
Proof. induction l as [|x l IH]; [done|]. rewrite payload_sum_cons. pose proof (str_len_nonneg (payload x.2)). lia. Qed.

Lemma payload_sum_filter (Q : Z * ModelStreamFrame → Prop) `{!∀ x, Decision (Q x)} l : payload_sum (filter Q l) ≤ payload_sum l.
Proof.
  induction l as [|x l IH]; [done|]. rewrite filter_cons. pose proof (str_len_nonneg (payload x.2)).
  destruct (decide (Q x)); rewrite ?payload_sum_cons; lia.
Qed.

Lemma frame_values_sum m : payload_sum (frame_values m) = frame_sum m.
Proof. unfold frame_values, frame_sum. by rewrite order_perm. Qed.

Lemma frame_sum_empty : frame_sum ∅ = 0.
Proof. unfold frame_sum. by rewrite map_to_list_empty. Qed.

Lemma frame_sum_insert m k f : m !! k = None → frame_sum (<[k := f]> m) = frame_sum m + str_len (payload f).
Proof. intros Hk. unfold frame_sum. rewrite map_to_list_insert by done. rewrite payload_sum_cons. cbn [snd]. lia. Qed.

Lemma frame_sum_nonneg m : 0 ≤ frame_sum m.
Proof. apply payload_sum_nonneg. Qed.

Lemma frame_sum_filter (Q : Z * ModelStreamFrame → Prop) `{!∀ x, Decision (Q x)} m : frame_sum (filter Q m) ≤ frame_sum m.
Proof.
  induction m as [|k f m Hk IH] using map_ind; [by rewrite map_filter_empty|].
  rewrite frame_sum_insert by done. pose proof (str_len_nonneg (payload f)). destruct (decide (Q (k, f))).
  - rewrite map_filter_insert_True by done. rewrite frame_sum_insert; [lia|]. by apply map_lookup_filter_None_2; left.
  - rewrite map_filter_insert_False, (delete_id m k Hk) by done. lia.
Qed.

Lemma filter_size (Q : Z * ModelStreamFrame → Prop) `{!∀ x, Decision (Q x)} (m : gmap Z ModelStreamFrame) :
  (size (filter Q m) ≤ size m)%nat.
Proof. rewrite <-!size_dom. apply subseteq_size, dom_filter_subseteq. Qed.

(** ** Configurations *)

(** A configuration that the pool accepts; its fields are [usize]s, and the largest one is no
    limit on bytes. *)
Record config_ok (c : ModelRequestPoolConfig) : Prop := {
  config_valid : validate_config c = Ok c;
  config_u64 : in_u64 (max_routes c) ∧ in_u64 (max_active_per_route c) ∧ in_u64 (max_waiting_per_route c) ∧
    in_u64 (resume_buffered_frames_per_stream c) ∧ in_u64 (resume_buffered_bytes_per_stream c);
  config_bytes : max_buffered_bytes_per_stream c < u64_max
}.

Record config_limits (c : ModelRequestPoolConfig) : Prop := {
  limit_routes : 1 ≤ max_routes c ≤ u64_max;
  limit_active : 1 ≤ max_active_per_route c;
  limit_waiting : 0 ≤ max_waiting_per_route c;
  limit_records : max_active_per_route c + max_waiting_per_route c ≤ max_exchange_records_per_route c;
  limit_frames : 0 ≤ resume_buffered_frames_per_stream c < max_buffered_frames_per_stream c;
  limit_bytes : 0 ≤ resume_buffered_bytes_per_stream c < max_buffered_bytes_per_stream c;
  limit_bytes_u64 : max_buffered_bytes_per_stream c < u64_max
}.

Lemma config_ok_limits c : config_ok c → config_limits c.
Proof.
  intros [Hv (Hr & Ha & Hw & Hf & Hb) Hm]. unfold validate_config in Hv. unfold in_u64 in *. inv_result.
  split_bools. constructor; lia.
Qed.

(** ** Records *)

Section records.
Context (P : primitives) (c : ModelRequestPoolConfig).

Definition frame_print (f : ModelStreamFrame) (o : ModelRequestTerminalOutcome) : FrameFingerprint :=
  {| print_sequence := sequence f; print_digest := frame_digest P f; print_outcome := o |}.

(** The buffer holds the frames after the acknowledged one, numbered without a gap, unless a
    cancellation cleared it; the states and the outcome agree; a frame that ends the stream is
    the last one and is remembered. *)
Record record_core (id : string) (r : ExchangeRecord) : Prop := {
  core_id : exchange_id r = id;
  core_numbers : 0 ≤ acknowledged_sequence r < next_sequence r ∧ next_sequence r ≤ MAX_SAFE_INTEGER + 1;
  core_keys : ∀ k f, frames r !! k = Some f → sequence f = k;
  core_span : terminal_outcome r ≠ Some OutcomeCancelled →
    ∀ k, is_Some (frames r !! k) ↔ acknowledged_sequence r < k < next_sequence r;
  core_cleared : terminal_outcome r = Some OutcomeCancelled → frames r = ∅;
  core_bytes : buffered_bytes r = frame_sum (frames r);
  core_frame_limit : frame_count r ≤ max_buffered_frames_per_stream c;
  core_byte_limit : buffered_bytes r ≤ max_buffered_bytes_per_stream c;
  core_outcome : outcome_state <$> terminal_outcome r = if terminal (state r) then Some (state r) else None;
  core_queued : state r = Queued → next_sequence r = 1;
  core_print : ∀ k f o, frames r !! k = Some f → frame_outcome f = Some o →
    k = next_sequence r - 1 ∧ terminal_outcome r = Some o ∧ terminal_print r = Some (frame_print f o);
  core_no_print : terminal_outcome r = None ∨ terminal_outcome r = Some OutcomeCancelled → terminal_print r = None;
  core_print_past : ∀ print, terminal_print r = Some print → print_sequence print < next_sequence r
}.

(** A paused stream has frames that the client has not acknowledged. *)
Definition pause_ok (r : ExchangeRecord) : Prop := provider_read_paused r = true → state r = Active ∧ frames r ≠ ∅.

Definition record_wf (id : string) (r : ExchangeRecord) : Prop := record_core id r ∧ pause_ok r.

Lemma outcome_live r : outcome_state <$> terminal_outcome r = (if terminal (state r) then Some (state r) else None) →
  terminal (state r) = false → terminal_outcome r = None.
Proof. intros Ho Ht. rewrite Ht in Ho. by destruct (terminal_outcome r). Qed.

Lemma core_live id r : record_core id r → terminal (state r) = false → terminal_outcome r = None.
Proof. intros [] ?. by apply outcome_live. Qed.

Lemma core_set_paused id r b : record_core id r → record_core id (set_paused r b).
Proof. intros []. constructor; done. Qed.

Lemma core_new (L : config_limits c) a s :
  terminal s = false → record_core (admission_exchange_id a) (record_new a s).
Proof.
  intros Hs. destruct L.
  constructor; cbn [record_new exchange_id frames next_sequence acknowledged_sequence buffered_bytes terminal_outcome terminal_print state frame_count].
  - done.
  - unfold MAX_SAFE_INTEGER, max_safe_integer. lia.
  - intros k f. by rewrite lookup_empty.
  - intros _ k. rewrite lookup_empty, is_Some_alt. split; [done|lia].
  - done.
  - by rewrite frame_sum_empty.
  - unfold frame_count. cbn [record_new frames]. rewrite map_size_empty. lia.
  - lia.
  - cbn. by rewrite Hs.
  - done.
  - intros k f o. by rewrite lookup_empty.
  - done.
  - done.
Qed.

(** A new frame. *)
Lemma core_next_free id r : record_core id r → frames r !! next_sequence r = None.
Proof.
  intros W. apply eq_None_not_Some. intros Hs. destruct (decide (terminal_outcome r = Some OutcomeCancelled)) as [Hc|Hc].
  - rewrite (core_cleared _ _ W Hc), lookup_empty in Hs. by destruct Hs.
  - apply (core_span _ _ W Hc) in Hs. lia.
Qed.

Lemma take_frame_fields r f b n :
  frames (take_frame P r f b n) = <[sequence f := f]> (frames r) ∧ next_sequence (take_frame P r f b n) = n ∧
  acknowledged_sequence (take_frame P r f b n) = acknowledged_sequence r ∧ buffered_bytes (take_frame P r f b n) = b ∧
  exchange_id (take_frame P r f b n) = exchange_id r ∧ request_id (take_frame P r f b n) = request_id r ∧
  provider_read_paused (take_frame P r f b n) = provider_read_paused r ∧
  state (take_frame P r f b n) = match frame_outcome f with Some o => outcome_state o | None => state r end ∧
  terminal_outcome (take_frame P r f b n) = match frame_outcome f with Some o => Some o | None => terminal_outcome r end ∧
  terminal_print (take_frame P r f b n) = match frame_outcome f with Some o => Some (frame_print f o) | None => terminal_print r end.
Proof. unfold take_frame. by destruct (frame_outcome f). Qed.

Lemma core_take_frame id r f :
  record_core id r → state r = Active → sequence f = next_sequence r → sequence f ≤ MAX_SAFE_INTEGER →
  frame_outcome f ≠ Some OutcomeCancelled →
  frame_count r + 1 ≤ max_buffered_frames_per_stream c →
  buffered_bytes r + str_len (payload f) ≤ max_buffered_bytes_per_stream c →
  record_core id (take_frame P r f (buffered_bytes r + str_len (payload f)) (next_sequence r + 1)).
Proof.
  intros W Ha Hs Hmax Hc Hf Hb. pose proof (core_next_free _ _ W) as Hfree.
  assert (Hlive : terminal_outcome r = None) by (apply (core_live _ _ W); by rewrite Ha).
  assert (Hspan := core_span _ _ W). rewrite Hlive in Hspan. specialize (Hspan ltac:(done)).
  destruct (take_frame_fields r f (buffered_bytes r + str_len (payload f)) (next_sequence r + 1))
    as (Ef & En & Ea & Eb & Ei & Er & Ep & Es & Eo & Et).
  pose proof (core_numbers _ _ W) as Hn. rewrite <-Hs in Hfree.
  constructor; unfold frame_count; rewrite ?Ef, ?En, ?Ea, ?Eb, ?Ei, ?Es, ?Eo, ?Et.
  - by apply W.
  - lia.
  - intros k g. rewrite lookup_insert_Some. intros [[<- <-]|[_ Hg]]; [done|by apply (core_keys _ _ W)].
  - intros _ k. rewrite lookup_insert_is_Some. rewrite Hspan. rewrite Hs. lia.
  - rewrite Hlive. by destruct (frame_outcome f).
  - rewrite frame_sum_insert by done. by rewrite (core_bytes _ _ W).
  - rewrite map_size_insert_None by done. unfold frame_count in Hf. lia.
  - lia.
  - destruct (frame_outcome f) as [o|]; [by destruct o|]. apply W.
  - rewrite Ha. by destruct (frame_outcome f) as [[]|].
  - intros k g o Hk Ho. apply lookup_insert_Some in Hk as [[<- <-]|[Hne Hk]].
    + rewrite Ho. split; [lia|done].
    + destruct (core_print _ _ W _ _ _ Hk Ho) as (_ & Hk' & _). congruence.
  - rewrite Hlive. destruct (frame_outcome f) as [o|]; [by intros [|]; naive_solver|]. intros _. apply W. by left.
  - intros print. destruct (frame_outcome f) as [o|]; [intros [= <-]; cbn; lia|].
    rewrite (core_no_print _ _ W); [done|by left].
Qed.
End records.

(** ** A batch of frames *)

(** The frames of a batch that continue a stream whose next number is [n]. *)
Fixpoint fresh_frames (n : Z) (fs : list ModelStreamFrame) : list ModelStreamFrame :=
  match fs with
  | [] => []
  | f :: fs => if sequence f =? n then f :: fresh_frames (n + 1) fs else fresh_frames n fs
  end.

Definition insert_frames (fs : list ModelStreamFrame) (m : gmap Z ModelStreamFrame) : gmap Z ModelStreamFrame :=
  foldl (λ m f, <[sequence f := f]> m) m fs.

(** The outcome that the last frame of a list carries. *)
Definition last_outcome (fs : list ModelStreamFrame) : option ModelRequestTerminalOutcome := last fs ≫= frame_outcome.

Record grown (r : ExchangeRecord) (taken : list ModelStreamFrame) (r' : ExchangeRecord) : Prop := {
  grown_frames : frames r' = insert_frames taken (frames r);
  grown_next : next_sequence r' = next_sequence r + Z.of_nat (length taken);
  grown_acknowledged : acknowledged_sequence r' = acknowledged_sequence r;
  grown_request : request_id r' = request_id r;
  grown_state : state r' = match last_outcome taken with Some o => outcome_state o | None => state r end;
  grown_nothing : taken = [] → r' = r;
  grown_active : taken ≠ [] → state r = Active
}.

Lemma fresh_frames_numbers n fs : sequence <$> fresh_frames n fs = seqZ n (Z.of_nat (length (fresh_frames n fs))).
Proof.
  revert n. induction fs as [|f fs IH]; intros n; [done|]. cbn [fresh_frames]. destruct (Z.eqb_spec (sequence f) n) as [<-|]; [|done].
  rewrite fmap_cons. cbn [length]. rewrite IH. symmetry. rewrite seqZ_cons by lia. f_equal.
  by replace (Z.pred (Z.of_nat (S (length (fresh_frames (sequence f + 1) fs))))) with (Z.of_nat (length (fresh_frames (sequence f + 1) fs))) by lia.
Qed.

Lemma batch_grown_none r : grown r [] r.
Proof. by constructor; cbn; rewrite ?Z.add_0_r. Qed.

Lemma last_outcome_cons f fs : frame_outcome f = None → last_outcome (f :: fs) = last_outcome fs.
Proof. intros Hf. unfold last_outcome. destruct fs; [cbn; by rewrite Hf|done]. Qed.

Lemma grown_step P r f b taken r' :
  state r = Active → (is_Some (frame_outcome f) → taken = []) →
  grown (take_frame P r f b (next_sequence r + 1)) taken r' → grown r (f :: taken) r'.
Proof.
  intros Ha Hlast G. destruct (take_frame_fields P r f b (next_sequence r + 1)) as (Ef & En & Ea & Eb & Ei & Er & Ep & Es & Eo & Et).
  constructor.
  - rewrite (grown_frames _ _ _ G), Ef. done.
  - rewrite (grown_next _ _ _ G), En. cbn [length]. lia.
  - by rewrite (grown_acknowledged _ _ _ G).
  - by rewrite (grown_request _ _ _ G).
  - rewrite (grown_state _ _ _ G), Es. destruct (frame_outcome f) as [o|] eqn:Ho.
    + rewrite Hlast by eauto. unfold last_outcome. cbn. by rewrite Ho.
    + by rewrite last_outcome_cons.
  - done.
  - done.
Qed.

Lemma validate_frames_cons f fs :
  validate_frames (f :: fs) = Ok tt →
  sequence f ≤ MAX_SAFE_INTEGER ∧ frame_outcome f ≠ Some OutcomeCancelled ∧ (is_Some (frame_outcome f) → fs = []) ∧
  validate_frames fs = Ok tt.
Proof.
  cbn [validate_frames]. intros H. unfold validate_frame in H. inv_result. split_bools.
  split_and!; [lia|done| |done].
  intros Ho. rewrite bool_decide_eq_true_2 in H2 by done. cbn in H2. split_bools. done.
Qed.

Lemma classify_None P r f d : classify_frame_write P r f d = Ok None → state r = Active ∧ sequence f = next_sequence r.
Proof.
  unfold classify_frame_write. intros H. destruct (terminal (state r)); [by repeat case_match|].
  destruct (bool_decide_reflect (state r = Active)) as [Ha|]; [|done]. cbn in H. split; [done|].
  destruct (sequence f <? next_sequence r).
  - destruct (sequence f <=? _); [done|]. inv_result. by case_match.
  - destruct (Z.eqb_spec (sequence f) (next_sequence r)); [done|done].
Qed.

Lemma safe_fits : MAX_SAFE_INTEGER + 1 ≤ u64_max.
Proof. by vm_compute. Qed.

Lemma saturating_within a b m : saturating_add_u64 a b ≤ m → m < u64_max → a + b ≤ m ∧ saturating_add_u64 a b = a + b.
Proof. unfold saturating_add_u64. lia. Qed.

Section pushing.
Context (P : primitives) (c : ModelRequestPoolConfig) (L : config_limits c).

Lemma core_buffered id r k f : record_core P c id r → frames r !! k = Some f →
  terminal_outcome r ≠ Some OutcomeCancelled ∧ acknowledged_sequence r < k < next_sequence r.
Proof.
  intros W Hk. assert (Hc : terminal_outcome r ≠ Some OutcomeCancelled).
  { intros Hc. by rewrite (core_cleared _ _ _ _ W Hc), lookup_empty in Hk. }
  split; [done|]. apply (core_span _ _ _ _ W Hc). eauto.
Qed.

Lemma classify_Some id r f d s :
  record_core P c id r → classify_frame_write P r f d = Ok (Some s) → sequence f < next_sequence r.
Proof.
  intros W H. pose proof (core_numbers _ _ _ _ W) as Hn. unfold classify_frame_write in H.
  destruct (terminal (state r)).
  - destruct (Z.leb_spec (sequence f) (acknowledged_sequence r)); [lia|].
    unfold buffered_same, ended_by in H. destruct (frames r !! sequence f) as [g|] eqn:Hg.
    { by apply (core_buffered _ _ _ _ W) in Hg as [_ ?]; lia. }
    destruct (frame_outcome f); [|done]. destruct (terminal_print r) as [pr|] eqn:Hp; [|done].
    apply (core_print_past _ _ _ _ W) in Hp. destruct (Z.eqb_spec (print_sequence pr) (sequence f)); [lia|done].
  - destruct (bool_decide (state r = Active)); [|done]. cbn in H.
    destruct (Z.ltb_spec (sequence f) (next_sequence r)); [done|]. by destruct (_ =? _).
Qed.

Lemma frame_count_small id r : record_core P c id r → frame_count r ≤ MAX_SAFE_INTEGER.
Proof.
  intros W. pose proof (core_numbers _ _ _ _ W) as Hn.
  assert (Hs : dom (frames r) ⊆ list_to_set (seqZ (acknowledged_sequence r + 1) (next_sequence r - acknowledged_sequence r - 1))).
  { intros k Hk. apply elem_of_list_to_set, elem_of_seqZ. apply elem_of_dom in Hk as [f Hf].
    apply (core_buffered _ _ _ _ W) in Hf as [_ ?]. lia. }
  apply subseteq_size in Hs. rewrite size_dom, size_list_to_set, length_seqZ in Hs by apply NoDup_seqZ.
  unfold frame_count. lia.
Qed.

(** What the test of the limits decides. *)
Lemma room_for id r f :
  record_core P c id r →
  (max_buffered_frames_per_stream c <? saturating_add_u64 (frame_count r) 1) ||
  (max_buffered_bytes_per_stream c <? saturating_add_u64 (buffered_bytes r) (str_len (payload f))) = false →
  frame_count r + 1 ≤ max_buffered_frames_per_stream c ∧
  buffered_bytes r + str_len (payload f) ≤ max_buffered_bytes_per_stream c ∧
  saturating_add_u64 (buffered_bytes r) (str_len (payload f)) = buffered_bytes r + str_len (payload f).
Proof.
  intros W H. apply orb_false_iff in H as [Hf%Z.ltb_ge Hb%Z.ltb_ge]. pose proof (frame_count_small _ _ W) as Hn.
  pose proof (limit_bytes_u64 _ L) as Hu. pose proof safe_fits as Hs.
  apply saturating_within in Hb as [Hb ->]; [|done]. unfold saturating_add_u64 in Hf.
  rewrite Z.min_l in Hf by lia. done.
Qed.

Lemma push_loop_Pushed id fs r acc t r' acc' t' :
  validate_frames fs = Ok tt → record_core P c id r → push_loop P c fs r acc t = Ok (Pushed r' acc' t') →
  record_core P c id r' ∧ grown r (fresh_frames (next_sequence r) fs) r' ∧
  acc' = acc || bool_decide (fresh_frames (next_sequence r) fs ≠ []) ∧
  t' = t || bool_decide (is_Some (last_outcome (fresh_frames (next_sequence r) fs))).
Proof.
  revert r acc t. induction fs as [|f fs IH]; intros r acc t Hv W H.
  { injection H as <- <- <-. cbn. rewrite !orb_false_r. split_and!; [done|apply batch_grown_none|done..]. }
  apply validate_frames_cons in Hv as (Hmax & Hc & Hlast & Hv). cbn [push_loop] in H. apply bind_Ok in H as (st & Hst & H).
  cbn [fresh_frames]. destruct st as [s|].
  { apply (classify_Some _ _ _ _ _ W) in Hst. rewrite (proj2 (Z.eqb_neq _ _)) by lia. by apply IH in H. }
  apply classify_None in Hst as [Ha Hs]. rewrite (proj2 (Z.eqb_eq _ _)) by done.
  destruct (_ || _) eqn:Hroom in H; [done|]. apply (room_for _ _ _ W) in Hroom as (Hf & Hb & Hsat).
  rewrite Hsat in H. inv_result. destruct (core_numbers _ _ _ _ W) as [_ ?].
  apply IH in H as (W' & G & Hacc & Ht); [|done|by apply core_take_frame].
  rewrite (proj1 (proj2 (take_frame_fields P r f _ _))) in G, Hacc, Ht.
  split_and!; [done| | |].
  - eapply grown_step; [done| |exact G]. intros Ho. by rewrite (Hlast Ho).
  - subst acc'. rewrite (bool_decide_eq_true_2 (f :: _ ≠ [])) by done. by rewrite orb_true_r.
  - subst t'. destruct (frame_outcome f) as [o|] eqn:Ho.
    + rewrite (Hlast ltac:(eauto)). unfold last_outcome. cbn. by rewrite Ho, orb_false_r.
    + rewrite last_outcome_cons, (bool_decide_eq_false_2 (is_Some None)), orb_false_r by (done || by intros []). done.
Qed.

Lemma push_loop_Full id fs r acc t :
  validate_frames fs = Ok tt → record_core P c id r → push_loop P c fs r acc t = Ok Full →
  state r = Active ∧
  (max_buffered_frames_per_stream c < frame_count r + Z.of_nat (length fs) ∨
   max_buffered_bytes_per_stream c < buffered_bytes r + foldr (λ f n, str_len (payload f) + n) 0 fs).
Proof.
  revert r acc t. induction fs as [|f fs IH]; intros r acc t Hv W H; [done|].
  apply validate_frames_cons in Hv as (Hmax & Hc & Hlast & Hv). cbn [push_loop] in H. apply bind_Ok in H as (st & Hst & H).
  cbn [length foldr]. pose proof (str_len_nonneg (payload f)). destruct st as [s|].
  { apply IH in H as [Ha Hor]; [|done..]. split; [done|lia]. }
  apply classify_None in Hst as [Ha Hs]. split; [done|].
  assert (Hsum : 0 ≤ foldr (λ g n, str_len (payload g) + n) 0 fs).
  { clear. induction fs as [|g fs IH]; cbn [foldr]; [done|]. pose proof (str_len_nonneg (payload g)). lia. }
  destruct (_ || _) eqn:Hroom in H.
  { apply orb_true_iff in Hroom. unfold saturating_add_u64 in Hroom. lia. }
  apply (room_for _ _ _ W) in Hroom as (Hf & Hb & Hsat). rewrite Hsat in H. inv_result.
  destruct (core_numbers _ _ _ _ W) as [_ ?].
  apply IH in H as [_ Hor]; [|done|by apply core_take_frame].
  destruct (take_frame_fields P r f (buffered_bytes r + str_len (payload f)) (next_sequence r + 1)) as (Ef & _ & _ & Eb & _).
  rewrite Eb in Hor. unfold frame_count in *. rewrite Ef, map_size_insert_None in Hor by (rewrite Hs; by eapply core_next_free). lia.
Qed.
End pushing.

(** ** The other changes of a record *)

Section changes.
Context (P : primitives) (c : ModelRequestPoolConfig) (L : config_limits c).

Lemma acknowledged_record_fields r n :
  let r' := acknowledged_record c r n in
  frames r' = filter (λ x, n < x.1) (frames r) ∧ buffered_bytes r' = frame_sum (filter (λ x, n < x.1) (frames r)) ∧
  next_sequence r' = next_sequence r ∧ acknowledged_sequence r' = n ∧ exchange_id r' = exchange_id r ∧
  request_id r' = request_id r ∧ state r' = state r ∧ terminal_outcome r' = terminal_outcome r ∧
  terminal_print r' = terminal_print r ∧
  provider_read_paused r' = provider_read_paused r &&
    negb ((frame_count r' <=? resume_buffered_frames_per_stream c) && (buffered_bytes r' <=? resume_buffered_bytes_per_stream c)).
Proof.
  cbn zeta. unfold acknowledged_record. rewrite frame_values_sum. rewrite <-andb_assoc. cbn [provider_read_paused set_buffer].
  destruct (provider_read_paused r) eqn:Hp; [|by split_and!]. cbn [andb].
  destruct (_ && _) eqn:E; split_and!; try done; cbn [set_paused provider_read_paused frame_count frames set_buffer buffered_bytes] in *;
    unfold frame_count in *; cbn [frames set_paused set_buffer buffered_bytes provider_read_paused] in *; by rewrite E.
Qed.

Lemma core_acknowledged id r n :
  record_core P c id r → acknowledged_sequence r < n < next_sequence r → record_core P c id (acknowledged_record c r n).
Proof.
  intros W Hn. destruct (acknowledged_record_fields r n) as (Ef & Eb & En & Ea & Ei & Er & Es & Eo & Et & _).
  pose proof (core_numbers _ _ _ _ W). pose proof (core_bytes _ _ _ _ W) as Hb.
  constructor; unfold frame_count; rewrite ?Ef, ?Eb, ?En, ?Ea, ?Ei, ?Es, ?Eo, ?Et; try apply W; try lia.
  - intros k f [Hk _]%map_lookup_filter_Some. by apply (core_keys _ _ _ _ W).
  - intros Hc k. pose proof (core_span _ _ _ _ W Hc k) as Hs. split.
    + intros [f [Hk Hlt]%map_lookup_filter_Some]. cbn in Hlt. pose proof (proj1 Hs ltac:(eauto)). lia.
    + intros Hk. destruct (proj2 Hs ltac:(lia)) as [f Hf]. exists f. apply map_lookup_filter_Some. cbn. split; [done|lia].
  - intros Hc. rewrite (core_cleared _ _ _ _ W Hc). apply map_filter_empty.
  - pose proof (core_frame_limit _ _ _ _ W) as Hl. unfold frame_count in Hl.
    pose proof (filter_size (λ x, n < x.1) (frames r)). lia.
  - pose proof (core_byte_limit _ _ _ _ W) as Hl. pose proof (frame_sum_filter (λ x, n < x.1) (frames r)). lia.
  - intros k f o [Hk _]%map_lookup_filter_Some. by apply (core_print _ _ _ _ W).
Qed.

Lemma pause_acknowledged r n : pause_ok r → pause_ok (acknowledged_record c r n).
Proof.
  intros Hp. destruct (acknowledged_record_fields r n) as (Ef & Eb & _ & _ & _ & _ & Es & _ & _ & Ep).
  intros Hp'. rewrite Ep in Hp'. apply andb_true_iff in Hp' as [Hr Hbusy]. rewrite Es. split; [by apply Hp|].
  intros He. rewrite Ef in He. unfold frame_count in Hbusy. rewrite Eb, Ef, He, frame_sum_empty, map_size_empty in Hbusy.
  destruct L. cbn in Hbusy. rewrite !(proj2 (Z.leb_le _ _)) in Hbusy by lia. done.
Qed.

Lemma terminated_record_fields r o :
  let r' := terminated_record r o in
  frames r' = (if bool_decide (o = OutcomeCancelled) then ∅ else frames r) ∧
  buffered_bytes r' = (if bool_decide (o = OutcomeCancelled) then 0 else buffered_bytes r) ∧
  next_sequence r' = next_sequence r ∧ acknowledged_sequence r' = acknowledged_sequence r ∧
  exchange_id r' = exchange_id r ∧ request_id r' = request_id r ∧ state r' = outcome_state o ∧
  terminal_outcome r' = Some o ∧ terminal_print r' = terminal_print r ∧ provider_read_paused r' = false.
Proof. cbn zeta. unfold terminated_record. case_bool_decide; by split_and!. Qed.

Lemma core_terminated id r o :
  record_core P c id r → terminal (state r) = false → record_core P c id (terminated_record r o).
Proof.
  intros W Ht. destruct (terminated_record_fields r o) as (Ef & Eb & En & Ea & Ei & Er & Es & Eo & Et & _).
  pose proof (core_live _ _ _ _ W Ht) as Hlive. pose proof (core_span _ _ _ _ W) as Hspan. rewrite Hlive in Hspan.
  pose proof (core_byte_limit _ _ _ _ W). pose proof (core_frame_limit _ _ _ _ W). destruct L.
  constructor; unfold frame_count in *; rewrite ?Ef, ?Eb, ?En, ?Ea, ?Ei, ?Es, ?Eo, ?Et; try apply W.
  - intros k f. case_bool_decide; [by rewrite lookup_empty|apply W].
  - intros Hc. rewrite bool_decide_eq_false_2 by congruence. by apply Hspan.
  - intros [= ->]. done.
  - case_bool_decide; [by rewrite frame_sum_empty|apply W].
  - case_bool_decide; [rewrite map_size_empty; lia|done].
  - case_bool_decide; [lia|done].
  - by destruct o.
  - by destruct o.
  - intros k f o' Hk Ho'. case_bool_decide; [by rewrite lookup_empty in Hk|].
    destruct (core_print _ _ _ _ W _ _ _ Hk Ho') as (_ & Hno & _). congruence.
  - intros _. apply W. by left.
Qed.

Lemma pause_terminated r o : pause_ok (terminated_record r o).
Proof. intros Hp. pose proof (terminated_record_fields r o) as (_ & _ & _ & _ & _ & _ & _ & _ & _ & E). congruence. Qed.

Lemma batch_bytes_sum fs total b : batch_bytes fs total = Some b → b = total + foldr (λ f n, str_len (payload f) + n) 0 fs.
Proof.
  revert total. induction fs as [|f fs IH]; intros total; cbn [batch_bytes foldr]; [intros [= <-]; lia|].
  intros (t & [-> _]%checked_add_u64_Some & ->%IH)%bind_Some. lia.
Qed.

Lemma validate_batch_facts fs :
  validate_frame_batch c fs = Ok tt →
  fs ≠ [] ∧ validate_frames fs = Ok tt ∧ Z.of_nat (length fs) ≤ max_buffered_frames_per_stream c ∧
  foldr (λ f n, str_len (payload f) + n) 0 fs ≤ max_buffered_bytes_per_stream c.
Proof.
  unfold validate_frame_batch, validate_frame_batch_shape. intros H.
  apply bind_Ok in H as ([] & Hshape & H). apply bind_Ok in Hshape as ([] & Hne & Hv). apply refuse_Ok in Hne.
  apply bind_Ok in H as (b & Hb & H). apply ok_or_Ok in Hb. apply batch_bytes_sum in Hb. apply refuse_Ok in H. split_bools.
  split_and!; [done|done|lia|lia].
Qed.

(** A refused batch leaves frames behind for the client to acknowledge. *)
Lemma full_pause id fs r acc t :
  validate_frame_batch c fs = Ok tt → record_core P c id r → push_loop P c fs r acc t = Ok Full → pause_ok (set_paused r true).
Proof.
  intros (_ & Hv & Hl & Hb)%validate_batch_facts W H _. apply (push_loop_Full P c L id) in H as [Ha Hor]; [|done..].
  split; [done|]. cbn [set_paused frames]. intros He.
  rewrite (core_bytes _ _ _ _ W) in Hor. unfold frame_count in Hor. rewrite He, frame_sum_empty, map_size_empty in Hor. lia.
Qed.
End changes.
