(* ===== verification/PoolInvariant.v ===== *)
(** * Model request pool: routes and the whole pool

    The invariant of a route (its limits, the queue, and that no exchange waits while a slot is
    free) and of the pool (the index of exchanges and the number of routes of a project), and
    that every operation keeps it, whatever it answers. *)

From Stdlib Require Import Ascii String.
From S2P Require Import Prelude Text Ordered Transaction ModelPool PoolFacts.
Local Open Scope Z_scope.

(** ** Routes *)

Section routes.
Context (P : primitives) (c : ModelRequestPoolConfig) (L : config_limits c).

(** The queue holds the queued exchanges, each once. *)
Record queue_ok (part : RoutePartition) : Prop := {
  queue_records : ∀ id r, records part !! id = Some r → record_wf P c id r;
  queue_once : NoDup (waiting part);
  queue_states : ∀ id, id ∈ waiting part ↔ ∃ r, records part !! id = Some r ∧ state r = Queued
}.

Record partition_wf (part : RoutePartition) : Prop := {
  partition_queue : queue_ok part;
  partition_used : records part ≠ ∅;
  partition_records : Z.of_nat (size (records part)) ≤ max_exchange_records_per_route c;
  partition_waiting : Z.of_nat (length (waiting part)) ≤ max_waiting_per_route c;
  partition_active : active_count part ≤ max_active_per_route c;
  partition_busy : waiting part ≠ [] → active_count part = max_active_per_route c
}.

Lemma active_update part id r r' queue :
  records part !! id = Some r →
  active_count {| records := <[id := r']> (records part); waiting := queue |} =
  active_count part - Z.b2z (is_active r) + Z.b2z (is_active r').
Proof. intros Hr. rewrite !active_count_map. cbn [records]. by rewrite (count_map_update _ _ _ r). Qed.

Lemma active_new part id r queue :
  records part !! id = None →
  active_count {| records := <[id := r]> (records part); waiting := queue |} = active_count part + Z.b2z (is_active r).
Proof. intros Hr. rewrite !active_count_map. cbn [records]. by rewrite count_map_new. Qed.

(** A record changes, and not whether it is queued. *)
Lemma queue_update part id r r' :
  queue_ok part → records part !! id = Some r → record_wf P c id r' → (state r = Queued ↔ state r' = Queued) →
  queue_ok (set_record part id r').
Proof.
  intros Q Hr W Hs. constructor; cbn [set_record records waiting].
  - intros i x Hi. apply lookup_insert_Some in Hi as [[<- <-]|[_ Hi]]; [done|by apply Q].
  - apply Q.
  - intros i. rewrite (queue_states _ Q). destruct (decide (i = id)) as [->|Hne].
    + rewrite lookup_insert_eq. split; [intros (x & Hx & ?)|intros (x & Hx & ?)]; simplify_eq; eexists; (split; [done|]); tauto.
    + by rewrite lookup_insert_ne.
Qed.

Lemma partition_update part id r r' :
  partition_wf part → records part !! id = Some r → record_wf P c id r' → state r' = state r →
  partition_wf (set_record part id r').
Proof.
  intros W Hr W' Hs. destruct W as [Q Hu Hn Hw Ha Hb].
  assert (E : active_count (set_record part id r') = active_count part).
  { unfold set_record. rewrite (active_update _ _ _ _ _ Hr). unfold is_active. rewrite Hs. lia. }
  constructor; rewrite ?E; cbn [set_record records waiting]; try done.
  - apply (queue_update _ _ r); [done..|by rewrite Hs].
  - apply insert_non_empty.
  - by rewrite map_size_insert_Some by eauto.
Qed.

(** *** Handing on a slot *)

Lemma grant_next_spec part part' g :
  queue_ok part → grant_next part = (part', g) →
  (waiting part = [] ∧ part' = part ∧ g = None) ∨
  ∃ id queue r, waiting part = id :: queue ∧ records part !! id = Some r ∧ state r = Queued ∧ g = Some id ∧
    part' = {| records := <[id := set_state r Active]> (records part); waiting := queue |}.
Proof.
  intros Q H. unfold grant_next in H. destruct (waiting part) as [|id queue] eqn:Hw.
  { left. cbn in H. injection H as <- <-. destruct part. cbn in *. by subst. }
  right. destruct (proj1 (queue_states _ Q id)) as (r & Hr & Hs); [rewrite Hw; set_solver|].
  cbn [grant_loop] in H. rewrite Hr, bool_decide_eq_true_2 in H by done. injection H as <- <-.
  exists id, queue, r. by rewrite (core_id _ _ _ _ (proj1 (queue_records _ Q _ _ Hr))).
Qed.

Lemma record_granted id r : record_wf P c id r → state r = Queued → record_wf P c id (set_state r Active).
Proof.
  intros [W Hp] Hq. assert (Hlive : terminal_outcome r = None) by (apply (core_live _ _ _ _ W); by rewrite Hq).
  pose proof (core_outcome _ _ _ _ W) as Ho. split; [destruct W; constructor; try done|].
  - cbn [set_state terminal_outcome]. by rewrite Hlive.
  - intros Hpaused. cbn in Hpaused. destruct (Hp Hpaused) as [Hp' _]. congruence.
Qed.

Lemma grant_next_wf part part' g :
  queue_ok part → records part ≠ ∅ → Z.of_nat (size (records part)) ≤ max_exchange_records_per_route c →
  Z.of_nat (length (waiting part)) ≤ max_waiting_per_route c → active_count part + 1 ≤ max_active_per_route c →
  (waiting part ≠ [] → active_count part + 1 = max_active_per_route c) →
  grant_next part = (part', g) → partition_wf part'.
Proof.
  intros Q Hu Hn Hw Ha Hb H. apply grant_next_spec in H; [|done].
  destruct H as [(Hempty & -> & ->)|(id & queue & r & Hq & Hr & Hs & -> & ->)].
  { constructor; try done; lia. }
  assert (Hid : NoDup (id :: queue)) by (rewrite <-Hq; apply Q). apply NoDup_cons in Hid as [Hid Hnd].
  pose proof (active_update part id r (set_state r Active) queue Hr) as E. unfold is_active in E.
  rewrite (bool_decide_eq_false_2 (state r = Active)), bool_decide_eq_true_2 in E by (cbn; congruence). cbn [Z.b2z] in E.
  assert (Hmax : active_count part + 1 = max_active_per_route c) by (apply Hb; by rewrite Hq).
  constructor; rewrite ?E; cbn [records waiting]; [|apply insert_non_empty|by rewrite map_size_insert_Some by eauto|rewrite Hq in Hw; cbn in Hw; lia|lia|lia].
  constructor; cbn [records waiting]; [|done|].
  - intros i x Hi. apply lookup_insert_Some in Hi as [[<- <-]|[_ Hi]]; [|by apply Q].
    apply record_granted; [by apply Q|done].
  - intros i. destruct (decide (i = id)) as [->|Hne].
    + rewrite lookup_insert_eq. split; [done|]. intros (x & [= <-] & Hx). done.
    + rewrite lookup_insert_ne by done. rewrite <-(queue_states _ Q i), Hq. set_solver.
Qed.

(** An active exchange ends, and the next one in the queue starts. *)
Lemma slot_passed_on part id r r' part' g :
  partition_wf part → records part !! id = Some r → state r = Active → record_wf P c id r' → terminal (state r') = true →
  grant_next (set_record part id r') = (part', g) → partition_wf part'.
Proof.
  intros W Hr Hs W' Ht. assert (Hs' : is_active r' = false) by (unfold is_active; destruct (state r'); done).
  pose proof (active_update part id r r' (waiting part) Hr) as E. unfold is_active at 1 in E.
  rewrite Hs', bool_decide_eq_true_2 in E by done. cbn [Z.b2z] in E. fold (set_record part id r') in E.
  destruct W as [Q Hu Hn Hw Ha Hb]. apply grant_next_wf; rewrite ?E; cbn [set_record records waiting].
  - apply (queue_update _ _ r); [done..|]. rewrite Hs. by destruct (state r').
  - apply insert_non_empty.
  - by rewrite map_size_insert_Some by eauto.
  - done.
  - lia.
  - intros Hne. rewrite Hb by done. lia.
Qed.

(** A queued exchange is cancelled. *)
Lemma queued_cancelled part id r r' :
  partition_wf part → records part !! id = Some r → state r = Queued → record_wf P c id r' → terminal (state r') = true →
  partition_wf {| records := <[id := r']> (records part); waiting := filter (λ queued, queued ≠ id) (waiting part) |}.
Proof.
  intros W Hr Hs W' Ht. pose proof (active_update part id r r' (filter (λ queued, queued ≠ id) (waiting part)) Hr) as E.
  assert (Hs' : is_active r' = false) by (unfold is_active; destruct (state r'); done).
  rewrite Hs' in E. unfold is_active in E. rewrite bool_decide_eq_false_2 in E by congruence. cbn [Z.b2z] in E.
  destruct W as [Q Hu Hn Hw Ha Hb].
  constructor; rewrite ?E; cbn [records waiting]; [|apply insert_non_empty|by rewrite map_size_insert_Some by eauto| |lia|].
  - constructor; cbn [records waiting].
    + intros i x Hi. apply lookup_insert_Some in Hi as [[<- <-]|[_ Hi]]; [done|by apply Q].
    + apply NoDup_filter, Q.
    + intros i. rewrite list_elem_of_filter, (queue_states _ Q). destruct (decide (i = id)) as [->|Hne].
      * rewrite lookup_insert_eq. split; [naive_solver|]. intros (x & [= <-] & Hx). by rewrite Hx in Ht.
      * rewrite lookup_insert_ne by done. naive_solver.
  - pose proof (length_filter (λ queued, queued ≠ id) (waiting part)). lia.
  - intros Hne. rewrite Hb; [lia|]. intros He. by rewrite He in Hne.
Qed.

(** *** Arrivals and departures *)

Lemma started_wf part a :
  queue_ok part → records part !! admission_exchange_id a = None →
  Z.of_nat (size (records part)) < max_exchange_records_per_route c →
  Z.of_nat (length (waiting part)) ≤ max_waiting_per_route c → active_count part < max_active_per_route c →
  (waiting part ≠ [] → active_count part = max_active_per_route c) →
  partition_wf (set_record part (admission_exchange_id a) (record_new a Active)).
Proof.
  intros Q Hnew Hn Hw Ha Hb. unfold set_record. pose proof (active_new part _ (record_new a Active) (waiting part) Hnew) as E.
  change (Z.b2z (is_active (record_new a Active))) with 1 in E.
  constructor; rewrite ?E; cbn [records waiting]; [|apply insert_non_empty|rewrite map_size_insert_None by done; lia|done|lia|].
  - constructor; cbn [records waiting]; [|apply Q|].
    + intros i x Hi. apply lookup_insert_Some in Hi as [[<- <-]|[_ Hi]]; [|by apply Q]. split; [by apply core_new|done].
    + intros i. rewrite (queue_states _ Q). destruct (decide (i = admission_exchange_id a)) as [->|Hne].
      * rewrite lookup_insert_eq, Hnew. naive_solver.
      * by rewrite lookup_insert_ne.
  - intros Hne. rewrite Hb in Ha by done. lia.
Qed.

Lemma queued_wf part a :
  partition_wf part → records part !! admission_exchange_id a = None →
  Z.of_nat (size (records part)) < max_exchange_records_per_route c →
  Z.of_nat (length (waiting part)) < max_waiting_per_route c → max_active_per_route c ≤ active_count part →
  partition_wf {| records := <[admission_exchange_id a := record_new a Queued]> (records part);
                  waiting := waiting part ++ [admission_exchange_id a] |}.
Proof.
  intros W Hnew Hn Hw Hfull. destruct W as [Q Hu _ _ Ha Hb].
  pose proof (active_new part _ (record_new a Queued) (waiting part ++ [admission_exchange_id a]) Hnew) as E.
  change (Z.b2z (is_active (record_new a Queued))) with 0 in E.
  assert (Hout : admission_exchange_id a ∉ waiting part).
  { intros (r & Hr & _)%(queue_states _ Q). congruence. }
  constructor; rewrite ?E; cbn [records waiting]; [|apply insert_non_empty|rewrite map_size_insert_None by done; lia|rewrite length_app; cbn; lia|lia|lia].
  constructor; cbn [records waiting].
  - intros i x Hi. apply lookup_insert_Some in Hi as [[<- <-]|[_ Hi]]; [|by apply Q]. split; [by apply core_new|done].
  - apply NoDup_app. split_and!; [apply Q| |apply NoDup_singleton]. set_solver.
  - intros i. rewrite elem_of_app, (queue_states _ Q), list_elem_of_singleton. destruct (decide (i = admission_exchange_id a)) as [->|Hne].
    + rewrite lookup_insert_eq. split; [by exists (record_new a Queued)|by right].
    + rewrite lookup_insert_ne by done. naive_solver.
Qed.

Lemma forgotten_wf part id r :
  partition_wf part → records part !! id = Some r → terminal (state r) = true → delete id (records part) ≠ ∅ →
  partition_wf {| records := delete id (records part); waiting := waiting part |}.
Proof.
  intros W Hr Ht Hne. destruct W as [Q Hu Hn Hw Ha Hb].
  assert (E : active_count {| records := delete id (records part); waiting := waiting part |} = active_count part).
  { rewrite !active_count_map. cbn [records]. rewrite (count_map_delete _ _ _ r) by done.
    assert (is_active r = false) as -> by (unfold is_active; by destruct (state r)). cbn [Z.b2z]. lia. }
  constructor; rewrite ?E; cbn [records waiting]; try done.
  - constructor; cbn [records waiting]; [|apply Q|].
    + intros i x Hi. apply lookup_delete_Some in Hi as [_ Hi]. by apply Q.
    + intros i. rewrite (queue_states _ Q). destruct (decide (i = id)) as [->|Hi].
      * rewrite lookup_delete_eq. split; [|naive_solver]. intros (x & Hx & Hq). simplify_eq. by rewrite Hq in Ht.
      * by rewrite lookup_delete_ne.
  - rewrite map_size_delete_Some by eauto. lia.
Qed.
End routes.

(** ** The pool *)

Section pool.
Context (P : primitives) (c : ModelRequestPoolConfig) (L : config_limits c).

Record pool_wf (p : ModelRequestPool) : Prop := {
  wf_config : config p = c;
  wf_routes : ∀ route part, routes p !! route = Some part → partition_wf P c part ∧ validate_route_key route = Ok tt;
  wf_index : ∀ id route, exchange_routes p !! id = Some route ↔
    ∃ part, routes p !! route = Some part ∧ is_Some (records part !! id);
  wf_projects : ∀ k, project_route_count p k ≤ max_routes c
}.

Lemma new_pool_wf p : pool_new c = Ok p → pool_wf p.
Proof.
  unfold pool_new. intros (c' & Hc & [= <-])%bind_Ok.
  assert (c' = c) as ->.
  { unfold validate_config in Hc. apply bind_Ok in Hc as (? & _ & Hc). apply bind_Ok in Hc as (? & _ & Hc). by injection Hc as <-. }
  constructor; cbn [config routes exchange_routes]; [done| | |].
  - intros route part. by rewrite lookup_empty.
  - intros id route. rewrite lookup_empty. split; [done|]. intros (part & Hp & _). by rewrite lookup_empty in Hp.
  - intros k. rewrite project_route_count_map. cbn [routes]. rewrite count_map_empty. destruct L. lia.
Qed.

(** *** Finding a record *)

Record located (p : ModelRequestPool) (id : string) (route : ModelRequestRouteKey) (part : RoutePartition)
  (r : ExchangeRecord) : Prop := {
  located_route : route_for id p = Ok route;
  located_partition : routes p !! route = Some part;
  located_record : records part !! id = Some r
}.

Lemma token_error v n e : validate_token v n = Err e → e ≠ pool_corrupt.
Proof. unfold validate_token. by intros [_ <-]%refuse_Err. Qed.

Lemma prefixed_id_error v prefix e : validate_prefixed_id v prefix = Err e → e ≠ pool_corrupt.
Proof.
  unfold validate_prefixed_id. intros [Hv|(? & _ & Hv)]%bind_Err; [by apply token_error in Hv|by apply refuse_Err in Hv as [_ <-]].
Qed.

Lemma admission_error a e : validate_admission a = Err e → e ≠ pool_corrupt.
Proof.
  unfold validate_admission, validate_route_key. intros H.
  repeat match goal with H : (_ ≫= _) = Err _ |- _ => apply bind_Err in H as [H|(? & _ & H)] end;
    eauto using token_error, prefixed_id_error.
Qed.

Lemma found p id : pool_wf p →
  (∃ e, route_for id p = Err e ∧ e ≠ pool_corrupt) ∨ ∃ route part r, located p id route part r.
Proof.
  intros W. destruct (route_for id p) as [route|e] eqn:Hr.
  - right. pose proof Hr as Hi. unfold route_for in Hi. apply bind_Ok in Hi as ([] & _ & Hi). apply ok_or_Ok in Hi.
    apply (wf_index _ W) in Hi as (part & Hp & r & Hrec). by exists route, part, r.
  - left. exists e. split; [done|]. unfold route_for in Hr. apply bind_Err in Hr as [Hv|([] & _ & Hi)].
    + by eapply prefixed_id_error.
    + by apply ok_or_Err in Hi as [_ <-].
Qed.

(** The start of every operation on an exchange. *)
Lemma located_run {A} p id route part r (k : ModelRequestRouteKey → RoutePartition → ExchangeRecord → pool_act A) :
  located p id route part r →
  (route ← attempt_with (route_for id); part ← attempt_with (partition_at route); r ← attempt (record_in part id); k route part r) p
  = k route part r p.
Proof.
  intros [Hr Hp Hi]. unfold mbind, act_bind, attempt_with, attempt, partition_at, record_in.
  rewrite Hr, Hp. cbn [ok_or]. by rewrite Hi.
Qed.

Lemma unlocated_run {A} p id e (k : ModelRequestRouteKey → pool_act A) :
  route_for id p = Err e → (route ← attempt_with (route_for id); k route) p = (p, Err e).
Proof. intros Hr. unfold mbind, act_bind, attempt_with. by rewrite Hr. Qed.

Lemma located_wf p id route part r : pool_wf p → located p id route part r →
  partition_wf P c part ∧ record_wf P c id r.
Proof.
  intros W [_ Hp Hi]. destruct (wf_routes _ W _ _ Hp) as [Wp _]. split; [done|].
  by apply (queue_records _ _ _ (partition_queue _ _ _ Wp)).
Qed.

(** *** Changing one route *)

Lemma pool_replace p route part part' :
  pool_wf p → routes p !! route = Some part → partition_wf P c part' → dom (records part') = dom (records part) →
  pool_wf (set_partition route part' p).
Proof.
  intros W Hp W' Hdom. constructor; cbn [set_partition config routes exchange_routes]; [apply W| | |].
  - intros k x Hk. apply lookup_insert_Some in Hk as [[<- <-]|[_ Hk]]; [|by apply W]. split; [done|by apply (wf_routes _ W _ _ Hp)].
  - intros id k. rewrite (wf_index _ W). destruct (decide (k = route)) as [->|Hne].
    + rewrite lookup_insert_eq, Hp.
      split; intros (x & [= <-] & Hx%elem_of_dom); eexists; (split; [done|]); apply elem_of_dom; congruence.
    + by rewrite lookup_insert_ne.
  - intros k. rewrite project_route_count_map. cbn [set_partition routes]. rewrite (count_map_update _ _ _ part) by done.
    pose proof (wf_projects _ W k) as Hk. rewrite project_route_count_map in Hk. lia.
Qed.

Lemma dom_set_record part id r r' : records part !! id = Some r → dom (<[id := r']> (records part)) = dom (records part).
Proof. intros Hr. apply dom_insert_lookup_L. eauto. Qed.

Lemma grant_dom part part' g : queue_ok P c part → grant_next part = (part', g) → dom (records part') = dom (records part).
Proof.
  intros Q H. apply (grant_next_spec P c) in H; [|done..].
  destruct H as [(_ & -> & _)|(id & queue & r & _ & Hr & _ & _ & ->)]; [done|]. cbn [records]. by apply (dom_set_record _ _ r).
Qed.
End pool.
