(* ===== verification/PoolMoves.v ===== *)
(** * Model request pool: runs

    Runs of the pool's operations with a history of what their receipts announce: who joined a
    queue, who was granted a slot, and which frames were taken.  [move] is an abstract step
    relation of the pool with its history; every operation is one of its moves, and no
    operation of a reachable pool finds its indexes inconsistent. *)

From Stdlib Require Import Ascii String.
From S2P Require Import Prelude Text Ordered Transaction ModelPool PoolFacts PoolInvariant.
Local Open Scope Z_scope.

Lemma refuse_stop {E} (e : E) : refuse true e = Err e.
Proof. done. Qed.

(** ** Operations and the history *)

Inductive pool_op : Type :=
| Submit (a : ModelRequestAdmission)
| PushFrames (id : string) (fs : list ModelStreamFrame)
| Acknowledge (id : string) (n : Z)
| Terminate (id : string) (o : ModelRequestTerminalOutcome)
| ForgetTerminal (id : string).

Record history : Type := {
  joined : list (ModelRequestRouteKey * string);
  granted : list (ModelRequestRouteKey * string);
  taken : gmap string (list ModelStreamFrame)
}.

Definition no_history : history := {| joined := []; granted := []; taken := ∅ |}.

(** A slot of [route] is handed to the exchange [g]. *)
Definition note_grant (route : option ModelRequestRouteKey) (g : option string) (h : history) : history :=
  match route, g with
  | Some route, Some id => {| joined := joined h; granted := granted h ++ [(route, id)]; taken := taken h |}
  | _, _ => h
  end.

Definition note_taken (id : string) (fs : list ModelStreamFrame) (h : history) : history :=
  {| joined := joined h; granted := granted h; taken := <[id := default [] (taken h !! id) ++ fs]> (taken h) |}.

Definition note_joined (route : ModelRequestRouteKey) (id : string) (h : history) : history :=
  {| joined := joined h ++ [(route, id)]; granted := granted h; taken := taken h |}.

Definition note_new (id : string) (h : history) : history :=
  {| joined := joined h; granted := granted h; taken := <[id := []]> (taken h) |}.

Definition note_submit (a : ModelRequestAdmission) (res : answer ModelRequestAdmissionReceipt) (h : history) : history :=
  match res with
  | Ok receipt =>
      match receipt_status receipt with
      | Started => note_new (admission_exchange_id a) h
      | StatusQueued => note_joined (admission_route a) (admission_exchange_id a) (note_new (admission_exchange_id a) h)
      | StatusDuplicate => h
      end
  | Err _ => h
  end.

(** The next number of an exchange's stream. *)
Definition stream_next (id : string) (p : ModelRequestPool) : Z :=
  match record_of id p with Ok r => next_sequence r | Err _ => 0 end.

Definition note_push (p : ModelRequestPool) (id : string) (fs : list ModelStreamFrame)
  (res : answer ModelFrameWriteReceipt) (h : history) : history :=
  match res with
  | Ok receipt =>
      match write_status receipt with
      | Accepted =>
          note_grant (exchange_routes p !! id) (write_granted receipt)
            (note_taken id (fresh_frames (stream_next id p) fs) h)
      | _ => h
      end
  | Err _ => h
  end.

Definition note_terminate (p : ModelRequestPool) (id : string) (res : answer ModelRequestTerminalReceipt) (h : history) : history :=
  match res with
  | Ok receipt => note_grant (exchange_routes p !! id) (terminal_granted receipt) h
  | Err _ => h
  end.

Section runs.
Context (P : primitives).

Definition pool_step (op : pool_op) (s : ModelRequestPool * history) : ModelRequestPool * history :=
  let '(p, h) := s in
  match op with
  | Submit a => let '(p', res) := submit a p in (p', note_submit a res h)
  | PushFrames id fs => let '(p', res) := push_frames P id fs p in (p', note_push p id fs res h)
  | Acknowledge id n => ((acknowledge id n p).1, h)
  | Terminate id o => let '(p', res) := terminate id o p in (p', note_terminate p id res h)
  | ForgetTerminal id => ((forget_terminal id p).1, h)
  end.

Definition pool_run (ops : list pool_op) (s : ModelRequestPool * history) : ModelRequestPool * history :=
  foldl (flip pool_step) s ops.

(** The error that an operation answers with. *)
Definition op_error (op : pool_op) (p : ModelRequestPool) : option ModelRequestPoolError :=
  let failure {A} (res : answer A) := match res with Ok _ => None | Err e => Some e end in
  match op with
  | Submit a => failure (submit a p).2
  | PushFrames id fs => failure (push_frames P id fs p).2
  | Acknowledge id n => failure (acknowledge id n p).2
  | Terminate id o => failure (terminate id o p).2
  | ForgetTerminal id => failure (forget_terminal id p).2
  end.
End runs.

(** ** Moves *)

Section moves.
Context (P : primitives) (c : ModelRequestPoolConfig) (L : config_limits c).

Inductive move (p : ModelRequestPool) (h : history) : ModelRequestPool → history → Prop :=
| move_none : move p h p h
| move_start a part :
    let id := admission_exchange_id a in let route := admission_route a in
    validate_admission a = Ok tt → exchange_routes p !! id = None →
    part = default empty_partition (routes p !! route) →
    (routes p !! route = None → project_route_count p route < max_routes c) →
    Z.of_nat (size (records part)) < max_exchange_records_per_route c →
    active_count part < max_active_per_route c →
    move p h (set_exchange_route id route (set_partition route (set_record part id (record_new a Active)) p)) (note_new id h)
| move_join a part :
    let id := admission_exchange_id a in let route := admission_route a in
    validate_admission a = Ok tt → exchange_routes p !! id = None → routes p !! route = Some part →
    Z.of_nat (size (records part)) < max_exchange_records_per_route c →
    Z.of_nat (length (waiting part)) < max_waiting_per_route c → max_active_per_route c ≤ active_count part →
    move p h
      (set_exchange_route id route
        (set_partition route {| records := <[id := record_new a Queued]> (records part); waiting := waiting part ++ [id] |} p))
      (note_joined route id (note_new id h))
| move_pause id route part r :
    located p id route part r → pause_ok (set_paused r true) →
    move p h (set_partition route (set_record part id (set_paused r true)) p) h
| move_take id route part r fs r' :
    located p id route part r → state r = Active → record_wf P c id r' → fs ≠ [] →
    sequence <$> fs = seqZ (next_sequence r) (Z.of_nat (length fs)) → grown r fs r' → last_outcome fs = None →
    move p h (set_partition route (set_record part id r') p) (note_taken id fs h)
| move_finish id route part r fs o r' part' g :
    located p id route part r → state r = Active → record_wf P c id r' → fs ≠ [] →
    sequence <$> fs = seqZ (next_sequence r) (Z.of_nat (length fs)) → grown r fs r' → last_outcome fs = Some o →
    grant_next (set_record part id r') = (part', g) →
    move p h (set_partition route part' p) (note_grant (Some route) g (note_taken id fs h))
| move_acknowledge id route part r n :
    located p id route part r → acknowledged_sequence r < n < next_sequence r →
    move p h (set_partition route (set_record part id (acknowledged_record c r n)) p) h
| move_end id route part r o part' g :
    located p id route part r → state r = Active →
    grant_next (set_record part id (terminated_record r o)) = (part', g) →
    move p h (set_partition route part' p) (note_grant (Some route) g h)
| move_leave id route part r :
    located p id route part r → state r = Queued →
    move p h
      (set_partition route {| records := <[id := terminated_record r OutcomeCancelled]> (records part);
                              waiting := filter (λ queued, queued ≠ id) (waiting part) |} p) h
| move_forget id route part r :
    located p id route part r → terminal (state r) = true → frames r = ∅ →
    let left := delete id (records part) in
    move p h
      {| config := config p;
         routes := if bool_decide (left = ∅) then delete route (routes p)
                   else <[route := {| records := left; waiting := waiting part |}]> (routes p);
         exchange_routes := delete id (exchange_routes p) |} h.

Lemma located_index p id route part r : located p id route part r → exchange_routes p !! id = Some route.
Proof. intros [Hr _ _]. unfold route_for in Hr. apply bind_Ok in Hr as ([] & _ & Hr). by apply ok_or_Ok in Hr. Qed.

Lemma located_record_of p id route part r : located p id route part r → record_of id p = Ok r.
Proof. intros [Hr Hp Hi]. unfold record_of, partition_at, record_in. rewrite Hr. cbn. rewrite Hp. cbn. by rewrite Hi. Qed.

Lemma set_partition_id route part p : routes p !! route = Some part → set_partition route part p = p.
Proof. intros Hp. unfold set_partition. rewrite insert_id by done. by destruct p. Qed.

Lemma set_partition_twice route a b p : set_partition route a (set_partition route b p) = set_partition route a p.
Proof. unfold set_partition. cbn. by rewrite insert_insert_eq. Qed.

Lemma acknowledge_moves p h id n p' res :
  pool_wf P c p → acknowledge id n p = (p', res) → move p h p' h ∧ res ≠ Err pool_corrupt.
Proof.
  intros W H. unfold acknowledge in H. destruct (MAX_SAFE_INTEGER <? n).
  { rewrite (attempt_stop _ _ _ _ (refuse_stop _)) in H. simplify_eq. by split; [constructor|]. }
  rewrite attempt_run in H by done. rewrite with_state_run, (wf_config _ _ _ W) in H.
  destruct (found _ _ _ id W) as [(e & He & Hne)|(route & part & r & Hl)].
  { rewrite (unlocated_run _ _ e) in H by done. simplify_eq. split; [constructor|congruence]. }
  rewrite (located_run _ _ _ _ _ _ Hl) in H. destruct (located_wf _ _ _ _ _ _ _ W Hl) as [_ [Wr _]].
  pose proof (core_numbers _ _ _ _ Wr) as Hn.
  destruct (Z.ltb_spec (highest_sequence r) n) as [|Hh].
  { rewrite (attempt_stop _ _ _ _ (refuse_stop _)) in H. simplify_eq. by split; [constructor|]. }
  rewrite attempt_run in H by done. unfold highest_sequence, saturating_sub in Hh.
  destruct (Z.leb_spec n (acknowledged_sequence r)); [injection H as <- <-; by split; [constructor|]|].
  rewrite modify_run in H. injection H as <- <-. split; [|done]. apply (move_acknowledge _ _ _ _ _ r); [done|lia].
Qed.

Lemma forget_moves p h id p' res :
  pool_wf P c p → forget_terminal id p = (p', res) → move p h p' h ∧ res ≠ Err pool_corrupt.
Proof.
  intros W H. unfold forget_terminal in H.
  destruct (found _ _ _ id W) as [(e & He & Hne)|(route & part & r & Hl)].
  { rewrite (unlocated_run _ _ e) in H by done. simplify_eq. split; [constructor|congruence]. }
  rewrite (located_run _ _ _ _ _ _ Hl) in H. destruct (_ || _) eqn:Hf.
  { rewrite (attempt_stop _ _ _ _ (refuse_stop _)) in H. simplify_eq. by split; [constructor|]. }
  rewrite attempt_run in H by done. injection H as <- <-. split_bools. split; [|done]. by apply (move_forget _ _ _ _ _ r).
Qed.

Lemma terminate_moves p h id o p' res :
  pool_wf P c p → terminate id o p = (p', res) → move p h p' (note_terminate p id res h) ∧ res ≠ Err pool_corrupt.
Proof.
  intros W H. unfold terminate in H. destruct (validate_prefixed_id id "mdl_") as [[]|e] eqn:Hv.
  2: { rewrite (attempt_stop _ e) in H by done. simplify_eq. split; [constructor|]. apply prefixed_id_error in Hv. congruence. }
  rewrite attempt_run in H by done.
  destruct (found _ _ _ id W) as [(e & He & Hne)|(route & part & r & Hl)].
  { rewrite (unlocated_run _ _ e) in H by done. simplify_eq. split; [constructor|congruence]. }
  rewrite (located_run _ _ _ _ _ _ Hl) in H. destruct (terminal (state r)) eqn:Ht.
  { unfold attempt in H. case_bool_decide; simplify_eq; (split; [|done]); cbn [note_terminate terminal_granted note_grant].
    - rewrite (located_index _ _ _ _ _ Hl). constructor.
    - constructor. }
  destruct (bool_decide (state r = Queued) && negb (bool_decide (o = OutcomeCancelled))) eqn:Hq.
  { rewrite (attempt_stop _ _ _ _ (refuse_stop _)) in H. simplify_eq. by split; [constructor|]. }
  rewrite attempt_run in H by done. destruct (decide (state r = Queued)) as [Hs|Hs].
  - rewrite Hs in H, Hq. cbn in H, Hq. destruct o; try done. injection H as <- <-. split; [|done].
    cbn [note_terminate terminal_granted note_grant]. rewrite (located_index _ _ _ _ _ Hl).
    by apply (move_leave _ _ _ _ _ r).
  - assert (Ha : state r = Active) by (by destruct (state r)).
    rewrite (bool_decide_eq_false_2 _ Hs), (bool_decide_eq_true_2 _ Ha) in H.
    destruct (grant_next _) as [part' g] eqn:Hg. injection H as <- <-. split; [|done].
    cbn [note_terminate terminal_granted]. rewrite (located_index _ _ _ _ _ Hl). eapply move_end; [exact Hl|done|exact Hg].
Qed.

Lemma submit_moves p h a p' res :
  pool_wf P c p → submit a p = (p', res) → move p h p' (note_submit a res h) ∧ res ≠ Err pool_corrupt.
Proof.
  intros W H. unfold submit in H. destruct (validate_admission a) as [[]|e] eqn:Hv.
  2: { rewrite (attempt_stop _ e) in H by done. simplify_eq. split; [constructor|]. apply admission_error in Hv. congruence. }
  rewrite attempt_run in H by done. rewrite with_state_run in H.
  destruct (exchange_routes p !! admission_exchange_id a) as [existing|] eqn:Hi.
  - pose proof Hi as Hi'. apply (wf_index _ _ _ W) in Hi' as (part & Hp & r & Hr).
    destruct (bool_decide (existing = admission_route a)).
    2: { rewrite (attempt_stop _ _ _ _ (refuse_stop _)) in H. simplify_eq. by split; [constructor|]. }
    rewrite attempt_run in H by done. rewrite (attempt_with_run _ part) in H by (unfold partition_at; by rewrite Hp).
    rewrite (attempt_bind_run _ r) in H by (unfold record_in; by rewrite Hr).
    destruct (bool_decide (request_id r = _)).
    2: { rewrite (attempt_stop _ _ _ _ (refuse_stop _)) in H. simplify_eq. by split; [constructor|]. }
    rewrite attempt_run in H by done. injection H as <- <-. by split; [constructor|].
  - destruct (bool_decide (routes p !! admission_route a = None) && (max_routes (config p) <=? project_route_count p (admission_route a))) eqn:Hroom.
    { rewrite (attempt_with_stop _ (pool_error RouteLimit "model request route capacity is exhausted")) in H by (by rewrite Hroom).
      simplify_eq. by split; [constructor|]. }
    rewrite (attempt_with_run _ ()) in H by (by rewrite Hroom).
    rewrite modify_run, !with_state_run in H. cbn [set_partition config routes] in H. rewrite lookup_insert_eq in H. cbn [default id] in H.
    rewrite (wf_config _ _ _ W) in *. set (part := default empty_partition (routes p !! admission_route a)) in *.
    assert (Hnew : routes p !! admission_route a = None → part = empty_partition) by (intros E; unfold part; by rewrite E).
    assert (Hkept : routes p !! admission_route a ≠ None → set_partition (admission_route a) part p = p ∧ routes p !! admission_route a = Some part).
    { intros Hs. destruct (routes p !! admission_route a) as [x|] eqn:Hx; [|done]. split; [by apply set_partition_id|done]. }
    pose proof (limit_active _ L) as Hmin. pose proof (limit_waiting _ L). pose proof (limit_records _ L).
    destruct (Z.leb_spec (max_exchange_records_per_route c) (Z.of_nat (size (records part)))) as [Hfull|Hrec].
    { rewrite (attempt_stop _ _ _ _ (refuse_stop _)) in H. injection H as <- <-. split; [|done].
      destruct (Hkept) as [-> _]; [|constructor]. intros E. rewrite (Hnew E) in Hfull. cbn in Hfull. rewrite map_size_empty in Hfull. lia. }
    rewrite attempt_run in H by done. destruct (Z.ltb_spec (active_count part) (max_active_per_route c)) as [Ha|Ha].
    + rewrite !modify_run, set_partition_twice in H. injection H as <- <-. split; [|done]. apply move_start; try done.
      intros E. rewrite bool_decide_eq_true_2 in Hroom by done. cbn in Hroom. lia.
    + destruct Hkept as [Hsame Hpart].
      { intros E. rewrite (Hnew E), active_count_map in Ha. cbn [empty_partition records] in Ha. rewrite count_map_empty in Ha. lia. }
      destruct (Z.leb_spec (max_waiting_per_route c) (Z.of_nat (length (waiting part)))) as [Hfull|Hw].
      { rewrite (attempt_stop _ _ _ _ (refuse_stop _)) in H. injection H as <- <-. split; [|done]. rewrite Hsame. constructor. }
      rewrite attempt_run in H by done. rewrite !modify_run, set_partition_twice in H. injection H as <- <-. split; [|done].
      by apply move_join.
Qed.

Lemma record_in_set part id r : record_in (set_record part id r) id = Ok r.
Proof. unfold record_in. cbn [set_record records]. by rewrite lookup_insert_eq. Qed.

Lemma batch_error fs e : validate_frame_batch c fs = Err e → e ≠ pool_corrupt.
Proof.
  unfold validate_frame_batch, validate_frame_batch_shape. intros [H|(? & _ & H)]%bind_Err.
  - apply bind_Err in H as [H|(? & _ & H)]; [by apply refuse_Err in H as [_ <-]|].
    induction fs as [|f fs IH]; [done|]. cbn [validate_frames] in H. unfold validate_frame in H.
    repeat (apply bind_Err in H as [H|(? & _ & H)]; [by apply refuse_Err in H as [_ <-]|]). by apply IH.
  - apply bind_Err in H as [H|(? & _ & H)]; [by apply ok_or_Err in H as [_ <-]|by apply refuse_Err in H as [_ <-]].
Qed.

Lemma classify_error id r f d e : record_core P c id r → classify_frame_write P r f d = Err e → e ≠ pool_corrupt.
Proof.
  intros W. unfold classify_frame_write. destruct (terminal (state r)) eqn:Ht; [repeat case_match; intros; by simplify_eq|].
  destruct (negb _); [intros; by simplify_eq|]. destruct (Z.ltb_spec (sequence f) (next_sequence r)) as [Hlt|]; [|case_match; intros; by simplify_eq].
  destruct (Z.leb_spec (sequence f) (acknowledged_sequence r)); [done|].
  destruct (proj2 (core_span _ _ _ _ W ltac:(by rewrite (core_live _ _ _ _ W Ht)) (sequence f)) ltac:(lia)) as [g ->].
  cbn. case_match; intros; by simplify_eq.
Qed.

Lemma push_loop_error id fs r acc t e :
  record_core P c id r → validate_frames fs = Ok tt → push_loop P c fs r acc t = Err e → e ≠ pool_corrupt.
Proof.
  revert r acc t. induction fs as [|f fs IH]; intros r acc t W Hv H; [done|].
  apply validate_frames_cons in Hv as (Hmax & Hc & Hlast & Hv). cbn [push_loop] in H.
  apply bind_Err in H as [H|(st & Hst & H)]; [by eapply classify_error|]. destruct st as [s|]; [by eapply IH|].
  destruct (_ || _) eqn:Hroom in H; [done|]. apply (room_for P c L id r f W) in Hroom as (Hf & Hb & Hsat). rewrite Hsat in H.
  apply bind_Err in H as [H|(n & Hn & H)]; [by apply ok_or_Err in H as [_ <-]|].
  apply ok_or_Ok, checked_add_u64_Some in Hn as [-> _]. apply classify_None in Hst as [Ha Hs].
  eapply IH; [|done|exact H]. by apply core_take_frame.
Qed.

(** The queue of a route in which an active exchange has ended. *)
Lemma granted_queue p id route part r' :
  pool_wf P c p → (∃ r, located p id route part r ∧ state r = Active) → record_wf P c id r' → terminal (state r') = true →
  queue_ok P c (set_record part id r').
Proof.
  intros W (r & Hl & Ha) W' Ht. destruct (located_wf _ _ _ _ _ _ _ W Hl) as [Wp _]. destruct Hl as [_ _ Hr].
  eapply queue_update; [apply Wp|exact Hr|done|]. rewrite Ha. by destruct (state r').
Qed.

Lemma grown_set_paused r fs r' b : fs ≠ [] → grown r fs r' → grown r fs (set_paused r' b).
Proof. intros Hne []. by constructor. Qed.

(** A paused record after a batch has frames, since the limits are positive. *)
Lemma pushed_pause id r :
  record_core P c id r → state r = Active →
  pause_ok (set_paused r ((max_buffered_frames_per_stream c <=? frame_count r) || (max_buffered_bytes_per_stream c <=? buffered_bytes r))).
Proof.
  intros W Ha Hp. split; [done|]. cbn [set_paused frames provider_read_paused] in *. intros He. apply orb_true_iff in Hp.
  rewrite (core_bytes _ _ _ _ W) in Hp. unfold frame_count in Hp. rewrite He, frame_sum_empty, map_size_empty, !Z.leb_le in Hp. destruct L. lia.
Qed.

Lemma push_moves p h id fs p' res :
  pool_wf P c p → push_frames P id fs p = (p', res) → move p h p' (note_push p id fs res h) ∧ res ≠ Err pool_corrupt.
Proof.
  intros W H. unfold push_frames in H. rewrite with_state_run, (wf_config _ _ _ W) in H.
  destruct (validate_frame_batch c fs) as [[]|e] eqn:Hv.
  2: { rewrite (attempt_stop _ e) in H by done. simplify_eq. split; [constructor|]. apply batch_error in Hv. congruence. }
  rewrite attempt_run in H by done.
  destruct (found _ _ _ id W) as [(e & He & Hne)|(route & part & r & Hl)].
  { rewrite (unlocated_run _ _ e) in H by done. simplify_eq. split; [constructor|congruence]. }
  rewrite (located_run _ _ _ _ _ _ Hl) in H. destruct (located_wf _ _ _ _ _ _ _ W Hl) as [Wp [Wr Hpause]].
  destruct (push_loop P c fs r false false) as [[r' acc t|]|e] eqn:Hpush.
  3: { rewrite (attempt_stop _ e) in H by done. simplify_eq. split; [constructor|].
       apply (push_loop_error id) in Hpush; [congruence|done|by apply validate_batch_facts in Hv as (_ & ? & _)]. }
  2: { rewrite (attempt_bind_run _ Full) in H by done. rewrite modify_run in H. injection H as <- <-. split; [|done].
       cbn [note_push frame_receipt write_status]. eapply move_pause; [exact Hl|]. by eapply full_pause. }
  rewrite (attempt_bind_run _ (Pushed r' acc t)) in H by done. pose proof (validate_batch_facts c fs Hv) as (_ & Hvs & _).
  apply (push_loop_Pushed P c L id) in Hpush as (W' & G & -> & ->); [|done..]. cbn [orb] in H.
  destruct (bool_decide_reflect (fresh_frames (next_sequence r) fs ≠ [])) as [Hne|]; cbn [negb] in H.
  2: { injection H as <- <-. by split; [constructor|]. }
  pose proof (grown_active _ _ _ G Hne) as Ha. pose proof (fresh_frames_numbers (next_sequence r) fs) as Hseq.
  assert (Hnext : stream_next id p = next_sequence r) by (unfold stream_next; by rewrite (located_record_of _ _ _ _ _ Hl)).
  destruct (last_outcome (fresh_frames (next_sequence r) fs)) as [o|] eqn:Ho.
  - rewrite bool_decide_eq_true_2 in H by eauto. cbn [negb andb] in H. destruct (grant_next _) as [part' g] eqn:Hg.
    rewrite modify_run in H. assert (Hin : is_Some (records part' !! id)).
    { apply elem_of_dom. erewrite (grant_dom P c L); [|eapply granted_queue|exact Hg]; [|exact W|by eauto| |].
      - cbn. set_solver.
      - split; [by apply core_set_paused|done].
      - cbn. rewrite (grown_state _ _ _ G), Ho. by destruct o. }
    destruct Hin as [r'' Hr'']. rewrite (attempt_bind_run _ r'') in H by (unfold record_in; by rewrite Hr'').
    injection H as <- <-. split; [|done]. cbn [note_push frame_receipt write_status write_granted].
    rewrite (located_index _ _ _ _ _ Hl), Hnext. eapply move_finish; [exact Hl|done| |done|done| |exact Ho|exact Hg].
    + split; [by apply core_set_paused|done].
    + by apply grown_set_paused.
  - rewrite bool_decide_eq_false_2 in H by (by intros []). cbn [negb andb] in H. rewrite modify_run in H.
    rewrite (attempt_bind_run _ _ _ _ (record_in_set part id _)) in H.
    injection H as <- <-. split; [|done]. cbn [note_push frame_receipt write_status write_granted note_grant].
    rewrite (located_index _ _ _ _ _ Hl), Hnext. cbn [note_grant].
    assert (Ha' : state r' = Active) by (rewrite (grown_state _ _ _ G), Ho; done).
    eapply move_take; [exact Hl|done| |done|done| |done].
    + split; [by apply core_set_paused|]. by eapply pushed_pause.
    + by apply grown_set_paused.
Qed.

(** Every operation of a pool with consistent indexes is a move, and does not answer that they
    are inconsistent. *)
Lemma step_moves op p h :
  pool_wf P c p → move p h (pool_step P op (p, h)).1 (pool_step P op (p, h)).2 ∧ op_error P op p ≠ Some pool_corrupt.
Proof.
  intros W. destruct op; cbn [pool_step op_error].
  - destruct (submit a p) as [p' res] eqn:H. apply (submit_moves p h) in H as [Hm Hr]; [|done]. cbn [fst snd] in *.
    split; [done|]. destruct res; congruence.
  - destruct (push_frames P id fs p) as [p' res] eqn:H. apply (push_moves p h) in H as [Hm Hr]; [|done]. cbn [fst snd] in *.
    split; [done|]. destruct res; congruence.
  - destruct (acknowledge id n p) as [p' res] eqn:H. apply (acknowledge_moves p h) in H as [Hm Hr]; [|done]. cbn [fst snd] in *.
    split; [done|]. destruct res; congruence.
  - destruct (terminate id o p) as [p' res] eqn:H. apply (terminate_moves p h) in H as [Hm Hr]; [|done]. cbn [fst snd] in *.
    split; [done|]. destruct res; congruence.
  - destruct (forget_terminal id p) as [p' res] eqn:H. apply (forget_moves p h) in H as [Hm Hr]; [|done]. cbn [fst snd] in *.
    split; [done|]. destruct res; congruence.
Qed.
End moves.
