(* ===== verification/PoolRuns.v ===== *)
(** * Model request pool: what runs keep

    The invariant of the pool is kept by every move, and with it what the history says: slots
    are handed on in the order in which the exchanges joined the queue, and the frames taken
    for an exchange are numbered from 1 and buffered until they are acknowledged. *)

From Stdlib Require Import Ascii String.
From S2P Require Import Prelude Text Ordered Transaction ModelPool PoolFacts PoolInvariant PoolMoves.
Local Open Scope Z_scope.

Section runs.
Context (P : primitives) (c : ModelRequestPoolConfig) (L : config_limits c).

(** ** The invariant *)

Lemma queue_empty : queue_ok P c empty_partition.
Proof.
  constructor; cbn [empty_partition records waiting]; [intros id r; by rewrite lookup_empty|constructor|].
  intros id. split; [by intros ?%not_elem_of_nil|]. intros (r & Hr & _). by rewrite lookup_empty in Hr.
Qed.

Lemma same_project_iff a b :
  same_project a b = true ↔ organization a = organization b ∧ workspace a = workspace b ∧ project a = project b.
Proof. unfold same_project. rewrite !andb_true_iff, !bool_decide_eq_true. tauto. Qed.

(** A route gets its first record, or another one. *)
Lemma pool_extend p a part' :
  let id := admission_exchange_id a in let route := admission_route a in
  pool_wf P c p → validate_admission a = Ok tt → exchange_routes p !! id = None →
  (routes p !! route = None → project_route_count p route < max_routes c) → partition_wf P c part' →
  dom (records part') = {[id]} ∪ dom (records (default empty_partition (routes p !! route))) →
  pool_wf P c (set_exchange_route id route (set_partition route part' p)).
Proof.
  intros id route W Hv Hi Hroom W' Hdom. constructor; cbn [set_exchange_route set_partition config routes exchange_routes]; [apply W| | |].
  - intros k x Hk. apply lookup_insert_Some in Hk as [[<- <-]|[_ Hk]]; [|by apply W]. split; [done|].
    unfold validate_admission in Hv. by apply bind_Ok in Hv as ([] & ? & _).
  - intros i k. destruct (decide (i = id)) as [->|Hne].
    + rewrite lookup_insert_eq. split.
      * intros [= <-]. exists part'. rewrite lookup_insert_eq. split; [done|]. apply elem_of_dom. set_solver.
      * intros (x & Hx & Hr). destruct (decide (k = route)) as [->|Hk]; [done|]. rewrite lookup_insert_ne in Hx by done.
        assert (exchange_routes p !! id = Some k) by (apply (wf_index _ _ _ W); by exists x). congruence.
    + rewrite lookup_insert_ne by done. rewrite (wf_index _ _ _ W). destruct (decide (k = route)) as [->|Hk].
      * rewrite lookup_insert_eq. split; intros (x & Hx & Hr%elem_of_dom).
        -- exists part'. split; [done|]. apply elem_of_dom. rewrite Hx in Hdom. cbn in Hdom. set_solver.
        -- injection Hx as <-. rewrite Hdom in Hr. destruct (routes p !! route) as [y|]; cbn in Hr; [|set_solver].
           exists y. split; [done|]. apply elem_of_dom. set_solver.
      * by rewrite lookup_insert_ne.
  - intros k. rewrite project_route_count_map. cbn [set_exchange_route set_partition routes].
    pose proof (wf_projects _ _ _ W k) as Hk. rewrite project_route_count_map in Hk.
    destruct (routes p !! route) as [x|] eqn:Hx; [rewrite (count_map_update _ _ _ x) by done; lia|].
    rewrite count_map_new by done. destruct (same_project route k) eqn:Hs; cbn [Z.b2z]; [|lia].
    enough (project_route_count p k = project_route_count p route) as E.
    { rewrite project_route_count_map in E. rewrite E. specialize (Hroom eq_refl). lia. }
    unfold project_route_count. do 2 f_equal. apply list_filter_iff. intros x.
    apply same_project_iff in Hs as (? & ? & ?). rewrite !same_project_iff. split; intros (? & ? & ?); split_and!; congruence.
Qed.

(** A record is gone. *)
Lemma pool_shrink p id route part r :
  pool_wf P c p → located p id route part r → terminal (state r) = true →
  let left := delete id (records part) in
  pool_wf P c
    {| config := config p;
       routes := if bool_decide (left = ∅) then delete route (routes p)
                 else <[route := {| records := left; waiting := waiting part |}]> (routes p);
       exchange_routes := delete id (exchange_routes p) |}.
Proof.
  intros W Hl Ht left. pose proof (located_index _ _ _ _ _ Hl) as Hi. destruct (located_wf _ _ _ _ _ _ _ W Hl) as [Wp _].
  destruct Hl as [_ Hp Hr].
  assert (Hlook : ∀ k x, (if bool_decide (left = ∅) then delete route (routes p)
      else <[route := {| records := left; waiting := waiting part |}]> (routes p)) !! k = Some x ↔
      (k = route ∧ left ≠ ∅ ∧ x = {| records := left; waiting := waiting part |}) ∨ (k ≠ route ∧ routes p !! k = Some x)).
  { intros k x. case_bool_decide as He.
    - rewrite lookup_delete_Some. naive_solver.
    - rewrite lookup_insert_Some. naive_solver. }
  constructor; cbn [config routes exchange_routes]; [apply W| | |].
  - intros k x [(-> & Hne & ->)|(Hne & Hx)]%Hlook; [|by apply W]. split; [by eapply forgotten_wf|by apply (wf_routes _ _ _ W _ _ Hp)].
  - intros i k. rewrite lookup_delete_Some, (wf_index _ _ _ W). split.
    + intros (Hne & x & Hx & y & Hy). destruct (decide (k = route)) as [->|Hk].
      * simplify_eq. eexists. split; [apply Hlook; left; split_and!; [done| |done]|].
        -- intros E. assert (Hd : left !! i = Some y) by (unfold left; by rewrite lookup_delete_ne). by rewrite E, lookup_empty in Hd.
        -- cbn [records]. unfold left. rewrite lookup_delete_ne by done. eauto.
      * exists x. split; [apply Hlook; by right|eauto].
    + intros (x & [(-> & Hne & ->)|(Hk & Hx)]%Hlook & y & Hy).
      * cbn [records] in Hy. apply lookup_delete_Some in Hy as [Hi' Hy]. split; [done|]. eauto.
      * split; [|eauto]. intros <-. assert (exchange_routes p !! id = Some k) by (apply (wf_index _ _ _ W); eauto). congruence.
  - intros k. pose proof (wf_projects _ _ _ W k) as Hk. rewrite project_route_count_map in *. cbn [routes].
    case_bool_decide; [rewrite (count_map_delete _ _ _ part) by done; destruct (same_project route k); cbn; lia|].
    rewrite (count_map_update _ _ _ part) by done. lia.
Qed.

Lemma ended_wf p id route part r r' part' g :
  pool_wf P c p → located p id route part r → state r = Active → record_wf P c id r' → terminal (state r') = true →
  grant_next (set_record part id r') = (part', g) → pool_wf P c (set_partition route part' p).
Proof.
  intros W Hl Ha W' Ht Hg. destruct (located_wf _ _ _ _ _ _ _ W Hl) as [Wp _].
  assert (Q : queue_ok P c (set_record part id r')) by (eapply granted_queue; eauto).
  destruct Hl as [_ Hp Hr]. eapply pool_replace; [done|exact Hp|by eapply slot_passed_on|].
  rewrite (grant_dom P c L _ _ _ Q Hg). by apply (dom_set_record _ _ r).
Qed.

Lemma default_partition p route :
  pool_wf P c p →
  let part := default empty_partition (routes p !! route) in
  queue_ok P c part ∧ Z.of_nat (length (waiting part)) ≤ max_waiting_per_route c ∧
  (waiting part ≠ [] → active_count part = max_active_per_route c).
Proof.
  intros W. destruct (routes p !! route) as [x|] eqn:Hx; cbn [default].
  - destruct (wf_routes _ _ _ W _ _ Hx) as [[] _]. done.
  - split_and!; [apply queue_empty|cbn; destruct L; lia|done].
Qed.

Lemma unregistered p id route :
  pool_wf P c p → exchange_routes p !! id = None → records (default empty_partition (routes p !! route)) !! id = None.
Proof.
  intros W Hi. apply eq_None_not_Some. intros Hs. destruct (routes p !! route) as [x|] eqn:Hx; cbn [default] in Hs.
  - assert (exchange_routes p !! id = Some route) by (apply (wf_index _ _ _ W); eauto). congruence.
  - cbn in Hs. rewrite lookup_empty in Hs. by destruct Hs.
Qed.

Lemma move_wf p h p' h' : pool_wf P c p → move P c p h p' h' → pool_wf P c p'.
Proof.
  intros W M. destruct M.
  - done.
  - subst part. apply pool_extend; try done; [|cbn; set_solver].
    destruct (default_partition p route W) as (Q & Hw & Hb). apply started_wf; try done. by apply (unregistered p).
  - apply pool_extend; try done; [intros E; exfalso; subst route id; congruence| |].
    + apply queued_wf; try done; [by apply (wf_routes _ _ _ W _ _ H1)|].
      pose proof (unregistered p id route W H0) as Hn. by rewrite H1 in Hn.
    + fold route. rewrite H1. cbn. set_solver.
  - destruct (located_wf _ _ _ _ _ _ _ W H) as [Wp [Wr _]]. destruct H as [_ Hp Hr]. eapply pool_replace; [done|exact Hp| |by apply (dom_set_record _ _ r)].
    eapply partition_update; [done|exact Hr| |done]. split; [by apply core_set_paused|done].
  - destruct (located_wf _ _ _ _ _ _ _ W H) as [Wp _]. destruct H as [_ Hp Hr]. eapply pool_replace; [done|exact Hp| |by apply (dom_set_record _ _ r)].
    eapply partition_update; [done|exact Hr|done|]. by rewrite (grown_state _ _ _ H4), H5.
  - eapply ended_wf; [done|exact H|done|exact H1| |exact H6]. rewrite (grown_state _ _ _ H4), H5. by destruct o.
  - destruct (located_wf _ _ _ _ _ _ _ W H) as [Wp [Wr Hpause]]. destruct H as [_ Hp Hr]. eapply pool_replace; [done|exact Hp| |by apply (dom_set_record _ _ r)].
    eapply partition_update; [done|exact Hr| |apply acknowledged_record_fields]. split; [by apply core_acknowledged|by apply pause_acknowledged].
  - destruct (located_wf _ _ _ _ _ _ _ W H) as [_ [Wr _]]. eapply ended_wf; [done|exact H|done| | |exact H1].
    + split; [apply core_terminated; [done..|by rewrite H0]|apply pause_terminated].
    + destruct (terminated_record_fields r o) as (_ & _ & _ & _ & _ & _ & -> & _). by destruct o.
  - destruct (located_wf _ _ _ _ _ _ _ W H) as [Wp [Wr _]]. destruct H as [_ Hp Hr]. eapply pool_replace; [done|exact Hp| |by apply (dom_set_record _ _ r)].
    eapply queued_cancelled; [done|exact Hr|done| |done]. split; [apply core_terminated; [done..|by rewrite H0]|apply pause_terminated].
  - by eapply pool_shrink.
Qed.

(** ** Slots are handed on in order *)

(** The exchanges of a list that belong to a route. *)
Definition on (route : ModelRequestRouteKey) (l : list (ModelRequestRouteKey * string)) : list string :=
  snd <$> filter (λ x, x.1 = route) l.

Definition waiting_on (p : ModelRequestPool) (route : ModelRequestRouteKey) : list string :=
  waiting (default empty_partition (routes p !! route)).

(** Those granted a slot and then those that wait are, in this order, among those that joined. *)
Definition fair (p : ModelRequestPool) (h : history) : Prop :=
  ∀ route, on route (granted h) ++ waiting_on p route `sublist_of` on route (joined h).

Lemma on_app route l k : on route (l ++ k) = on route l ++ on route k.
Proof. unfold on. by rewrite filter_app, fmap_app. Qed.

Lemma on_one route k id : on route [(k, id)] = if decide (k = route) then [id] else [].
Proof. unfold on. rewrite filter_cons. cbn [fst]. by case_decide. Qed.

Lemma waiting_on_set p route part k :
  waiting_on (set_partition route part p) k = if decide (k = route) then waiting part else waiting_on p k.
Proof.
  unfold waiting_on. cbn [set_partition routes]. case_decide as Hk; [subst; by rewrite lookup_insert_eq|by rewrite lookup_insert_ne].
Qed.

(** The queue of one route loses exchanges, in any way. *)
Lemma fair_shorter p h route part part' :
  fair p h → routes p !! route = Some part → waiting part' `sublist_of` waiting part → fair (set_partition route part' p) h.
Proof.
  intros F Hp Hs k. rewrite waiting_on_set. case_decide as Hk; [subst|apply F].
  etrans; [|apply F]. apply sublist_app; [done|]. unfold waiting_on. by rewrite Hp.
Qed.

Lemma fair_granted p h route part part' g :
  fair p h → queue_ok P c part → waiting (default empty_partition (routes p !! route)) = waiting part →
  grant_next part = (part', g) → fair (set_partition route part' p) (note_grant (Some route) g h).
Proof.
  intros F Q Hw Hg k. rewrite waiting_on_set. pose proof (F k) as Hk. unfold waiting_on in Hk.
  apply (grant_next_spec P c L) in Hg; [|done]. destruct Hg as [(He & -> & ->)|(id & queue & r & Hq & _ & _ & -> & ->)]; cbn [note_grant joined granted waiting].
  - case_decide; [subst; by rewrite <-Hw|done].
  - rewrite on_app, on_one. case_decide as Hd; [subst|rewrite decide_False by done; by rewrite app_nil_r].
    rewrite decide_True by done. rewrite <-app_assoc. cbn [app]. by rewrite Hw, Hq in Hk.
Qed.

Lemma fair_taken p h id fs : fair p h → fair p (note_taken id fs h).
Proof. done. Qed.

Lemma move_fair p h p' h' : pool_wf P c p → fair p h → move P c p h p' h' → fair p' h'.
Proof.
  intros W F M. destruct M as [|a part id route Hv Hi Hpart _ _ _|a part id route Hv Hi Hp _ _ _|id route part r Hl _|id route part r fs r' Hl _ _ _ _ _ _
    |id route part r fs o r' part' g Hl Ha Wr _ _ G Ho Hg|id route part r n Hl _|id route part r o part' g Hl Ha Hg|id route part r Hl _|id route part r Hl _ _].
  - done.
  - intros k. cbn [note_new joined granted]. pose proof (F k) as Hk.
    change (waiting_on _ k) with (waiting_on (set_partition route (set_record part id (record_new a Active)) p) k).
    rewrite waiting_on_set. case_decide; [subst; done|done].
  - intros k. cbn [note_joined note_new joined granted]. pose proof (F k) as Hk.
    change (waiting_on (set_exchange_route _ _ ?q) k) with (waiting_on q k). rewrite waiting_on_set, on_app, on_one.
    case_decide as Hd; [subst k|rewrite decide_False by done; by rewrite app_nil_r]. rewrite decide_True by done. cbn [waiting].
    unfold waiting_on in Hk. rewrite Hp in Hk. cbn in Hk. rewrite app_assoc. by apply sublist_app.
  - destruct Hl as [_ Hp _]. by apply (fair_shorter _ _ _ part).
  - destruct Hl as [_ Hp _]. by apply (fair_shorter _ _ _ part).
  - assert (Q : queue_ok P c (set_record part id r')).
    { eapply granted_queue; [done|by eauto|done|]. rewrite (grown_state _ _ _ G), Ho. by destruct o. }
    destruct Hl as [_ Hp _]. eapply fair_granted; [by apply fair_taken|exact Q|by rewrite Hp|done].
  - destruct Hl as [_ Hp _]. by apply (fair_shorter _ _ _ part).
  - destruct (located_wf _ _ _ _ _ _ _ W Hl) as [_ [Wr _]].
    assert (Q : queue_ok P c (set_record part id (terminated_record r o))).
    { eapply granted_queue; [done|by eauto| |].
      - split; [apply core_terminated; [done..|by rewrite Ha]|apply pause_terminated].
      - destruct (terminated_record_fields r o) as (_ & _ & _ & _ & _ & _ & -> & _). by destruct o. }
    destruct Hl as [_ Hp _]. eapply fair_granted; [done|exact Q|by rewrite Hp|done].
  - destruct Hl as [_ Hp _]. apply (fair_shorter _ _ _ part); [done..|]. apply sublist_filter.
  - destruct Hl as [_ Hp _]. intros k. etrans; [|apply (F k)]. apply sublist_app; [done|]. unfold waiting_on. cbn [routes].
    case_bool_decide; [destruct (decide (k = route)) as [->|]; [rewrite lookup_delete_eq; apply sublist_nil_l|by rewrite lookup_delete_ne]|].
    destruct (decide (k = route)) as [->|]; [by rewrite lookup_insert_eq, Hp|by rewrite lookup_insert_ne].
Qed.
End runs.
