(* ===== verification/PoolStreams.v ===== *)
(** * Model request pool: streams

    The frames that the pool took for an exchange are its stream.  Every move keeps the stream
    numbered from 1 and keeps in the buffer exactly what the client has not acknowledged, so
    that a read returns the next frames of the stream. *)

From Stdlib Require Import Ascii String.
From stdpp Require Import sorting.
From S2P Require Import Prelude Text Ordered Transaction ModelPool PoolFacts PoolInvariant PoolMoves PoolRuns.
Local Open Scope Z_scope.

(** ** A record and its stream *)

Record stream_ok (r : ExchangeRecord) (stream : list ModelStreamFrame) : Prop := {
  stream_numbers : sequence <$> stream = seqZ 1 (Z.of_nat (length stream));
  stream_length : next_sequence r = Z.of_nat (length stream) + 1;
  stream_buffered : ∀ k f, frames r !! k = Some f → 1 ≤ k ∧ stream !! Z.to_nat (k - 1) = Some f
}.

(** A change that takes no frame. *)
Lemma stream_calm r r' stream :
  next_sequence r' = next_sequence r → frames r' ⊆ frames r → stream_ok r stream → stream_ok r' stream.
Proof.
  intros Hn Hf S. constructor; [apply S|rewrite Hn; apply S|]. intros k f Hk. apply (stream_buffered _ _ S).
  by eapply lookup_weaken.
Qed.

Lemma stream_new a s : stream_ok (record_new a s) [].
Proof. constructor; [done|done|]. intros k f. cbn. by rewrite lookup_empty. Qed.

Lemma insert_frames_lookup fs m k f : insert_frames fs m !! k = Some f → (f ∈ fs ∧ sequence f = k) ∨ m !! k = Some f.
Proof.
  revert m. induction fs as [|g fs IH]; intros m; [by right|]. cbn [insert_frames foldl]. intros H.
  change (insert_frames fs (<[sequence g := g]> m) !! k = Some f) in H. apply IH in H as [[Hf Hk]|H]; [left; split; [by right|done]|].
  apply lookup_insert_Some in H as [[Hk ->]|[_ H]]; [left; split; [by left|done]|by right].
Qed.

Lemma stream_grown r fs r' stream :
  stream_ok r stream → grown r fs r' → sequence <$> fs = seqZ (next_sequence r) (Z.of_nat (length fs)) → stream_ok r' (stream ++ fs).
Proof.
  intros S G Hseq. pose proof (stream_length _ _ S) as Hlen. constructor.
  - rewrite fmap_app, (stream_numbers _ _ S), Hseq, Hlen, length_app, Nat2Z.inj_add, (seqZ_app 1) by lia.
    do 2 f_equal. lia.
  - rewrite (grown_next _ _ _ G), Hlen, length_app. lia.
  - intros k f. rewrite (grown_frames _ _ _ G). intros [[Hf Hk]|Hk]%insert_frames_lookup.
    + apply list_elem_of_lookup in Hf as [i Hi]. assert (Hs : (sequence <$> fs) !! i = Some (sequence f)) by (by rewrite list_lookup_fmap, Hi).
      rewrite Hseq in Hs. apply lookup_seqZ in Hs as [Hs _]. split; [lia|].
      rewrite lookup_app_r by lia. rewrite <-Hi. f_equal. lia.
    + apply (stream_buffered _ _ S) in Hk as [? Hk]. split; [done|]. by apply lookup_app_l_Some.
Qed.

(** ** The pool and its history *)

Definition at_record (p : ModelRequestPool) (id : string) : option ExchangeRecord :=
  route ← exchange_routes p !! id; part ← routes p !! route; records part !! id.

Definition kept (p : ModelRequestPool) (h : history) : Prop :=
  ∀ id r, at_record p id = Some r → ∃ stream, taken h !! id = Some stream ∧ stream_ok r stream.

Section streams.
Context (P : primitives) (c : ModelRequestPoolConfig) (L : config_limits c).

Lemma located_at p id route part r : located p id route part r → at_record p id = Some r.
Proof. intros Hl. unfold at_record. rewrite (located_index _ _ _ _ _ Hl). destruct Hl as [_ Hp Hr]. cbn. by rewrite Hp. Qed.

Lemma at_record_of p id r : record_of id p = Ok r → at_record p id = Some r.
Proof.
  unfold record_of, route_for, partition_at, record_in, at_record. intros H. apply bind_Ok in H as (route & Hr & H).
  apply bind_Ok in Hr as ([] & _ & Hr). apply ok_or_Ok in Hr. apply bind_Ok in H as (part & Hp & H).
  apply ok_or_Ok in Hp. apply ok_or_Ok in H. rewrite Hr. cbn. by rewrite Hp.
Qed.

Lemma at_record_set route part p id :
  at_record (set_partition route part p) id =
  if decide (exchange_routes p !! id = Some route) then records part !! id else at_record p id.
Proof.
  unfold at_record. cbn [set_partition exchange_routes routes]. destruct (exchange_routes p !! id) as [k|]; cbn; [|done].
  case_decide as Hk; [simplify_eq; by rewrite lookup_insert_eq|]. rewrite lookup_insert_ne by congruence. done.
Qed.

(** One route changes, and of each of its records either nothing that the stream shows, or what
    the history notes. *)
Lemma kept_update p h h' route part part' :
  kept p h → routes p !! route = Some part →
  (∀ id, exchange_routes p !! id ≠ Some route → taken h' !! id = taken h !! id) →
  (∀ id r', records part' !! id = Some r' → ∃ r, records part !! id = Some r ∧
     ∀ stream, taken h !! id = Some stream → stream_ok r stream →
     ∃ stream', taken h' !! id = Some stream' ∧ stream_ok r' stream') →
  kept (set_partition route part' p) h'.
Proof.
  intros K Hp Hh Hr id r'. rewrite at_record_set. case_decide as Hi.
  - intros (r & Hr0 & Hs)%Hr. destruct (K id r) as (stream & Ht & Hok); [unfold at_record; rewrite Hi; cbn; by rewrite Hp|]. eauto.
  - intros (stream & Ht & Hok)%K. exists stream. by rewrite Hh.
Qed.

(** The other records of a route stay, and one is granted at most. *)
Lemma kept_same_history p h route part part' :
  kept p h → routes p !! route = Some part →
  (∀ id r', records part' !! id = Some r' → ∃ r, records part !! id = Some r ∧ next_sequence r' = next_sequence r ∧ frames r' ⊆ frames r) →
  kept (set_partition route part' p) h.
Proof.
  intros K Hp Hr. eapply kept_update; [done|done|done|]. intros id r' (r & Hr0 & Hn & Hf)%Hr. exists r. split; [done|].
  intros stream Ht Hs. exists stream. split; [done|]. by eapply stream_calm.
Qed.

Lemma calm_set part id r r' :
  records part !! id = Some r → next_sequence r' = next_sequence r → frames r' ⊆ frames r →
  ∀ i x, <[id := r']> (records part) !! i = Some x →
  ∃ y, records part !! i = Some y ∧ next_sequence x = next_sequence y ∧ frames x ⊆ frames y.
Proof. intros Hr Hn Hf i x [[<- <-]|[_ Hx]]%lookup_insert_Some; eauto. Qed.

Lemma calm_granted part part' g :
  queue_ok P c part → grant_next part = (part', g) →
  ∀ i x, records part' !! i = Some x → ∃ y, records part !! i = Some y ∧ next_sequence x = next_sequence y ∧ frames x = frames y.
Proof.
  intros Q Hg. apply (grant_next_spec P c L) in Hg; [|done].
  destruct Hg as [(_ & -> & _)|(id & queue & r & _ & Hr & _ & _ & ->)]; [eauto|]. cbn [records].
  intros i x [[<- <-]|[_ Hx]]%lookup_insert_Some; eauto.
Qed.

Lemma note_grant_taken route g h : taken (note_grant route g h) = taken h.
Proof. by destruct route, g. Qed.

(** A new exchange. *)
Lemma kept_new p h h' a route part :
  let id := admission_exchange_id a in
  kept p h → exchange_routes p !! id = None → taken h' = <[id := []]> (taken h) →
  (∀ i x, records part !! i = Some x → i = id ∧ stream_ok x [] ∨ exchange_routes p !! i = Some route ∧ at_record p i = Some x) →
  kept (set_exchange_route id route (set_partition route part p)) h'.
Proof.
  intros id K Hi Hh Hpart i r Hr. unfold at_record in Hr. cbn [set_exchange_route set_partition exchange_routes routes] in Hr.
  rewrite Hh. destruct (decide (i = id)) as [->|Hne].
  - rewrite lookup_insert_eq in Hr. cbn in Hr. rewrite lookup_insert_eq in Hr. cbn in Hr. rewrite lookup_insert_eq.
    apply Hpart in Hr as [[_ Hr]|[Hx _]]; [eauto|congruence].
  - rewrite lookup_insert_ne by done. unfold id in Hne. rewrite lookup_insert_ne in Hr by done. destruct (exchange_routes p !! i) as [k|] eqn:Hk; [|done]. cbn in Hr.
    destruct (decide (k = route)) as [->|Hk'].
    + rewrite lookup_insert_eq in Hr. cbn in Hr. apply Hpart in Hr as [[? _]|[_ Hr]]; [done|by apply K].
    + rewrite lookup_insert_ne in Hr by done. apply K. unfold at_record. by rewrite Hk.
Qed.

(** The records of a route are those that the index names. *)
Lemma routed p id route part x :
  pool_wf P c p → routes p !! route = Some part → records part !! id = Some x →
  exchange_routes p !! id = Some route ∧ at_record p id = Some x.
Proof.
  intros W Hp Hx. assert (Hi : exchange_routes p !! id = Some route) by (apply (wf_index _ _ _ W); eauto).
  split; [done|]. unfold at_record. rewrite Hi. cbn. by rewrite Hp.
Qed.

(** Frames are taken for one exchange; then one of the route may be granted a slot. *)
Lemma kept_taken p h h' id route part r fs r' part' :
  pool_wf P c p → kept p h → located p id route part r → grown r fs r' →
  sequence <$> fs = seqZ (next_sequence r) (Z.of_nat (length fs)) → taken h' = taken (note_taken id fs h) →
  (∀ i x, records part' !! i = Some x → ∃ y, <[id := r']> (records part) !! i = Some y ∧
     next_sequence x = next_sequence y ∧ frames x = frames y) →
  kept (set_partition route part' p) h'.
Proof.
  intros W K Hl G Hseq Hh Hcalm. pose proof (located_index _ _ _ _ _ Hl) as Hidx. destruct Hl as [_ Hp Hr].
  eapply kept_update; [done|exact Hp| |].
  - intros i Hi. rewrite Hh. cbn [note_taken taken]. apply lookup_insert_ne. congruence.
  - intros i x (y & Hy & Hn & Hf)%Hcalm. rewrite Hh. cbn [note_taken taken]. apply lookup_insert_Some in Hy as [[<- <-]|[Hne Hy]].
    + exists r. split; [done|]. intros stream Ht Hs. rewrite lookup_insert_eq, Ht. cbn [default]. eexists. split; [done|].
      apply (stream_calm r'); [done|by rewrite Hf|]. by eapply stream_grown.
    + exists y. split; [done|]. intros stream Ht Hs. rewrite lookup_insert_ne by done. exists stream. split; [done|].
      apply (stream_calm y); [done|by rewrite Hf|done].
Qed.

Lemma move_kept p h p' h' : pool_wf P c p → kept p h → move P c p h p' h' → kept p' h'.
Proof.
  intros W K M. destruct M as [|a part id route Hv Hi Hpart _ _ _|a part id route Hv Hi Hp _ _ _|id route part r Hl _|id route part r fs r' Hl _ _ _ Hseq G _
    |id route part r fs o r' part' g Hl Ha Wr _ Hseq G Ho Hg|id route part r n Hl _|id route part r o part' g Hl Ha Hg|id route part r Hl _|id route part r Hl _ _].
  - done.
  - apply (kept_new p h); [done..|]. cbn [set_record records]. intros i x Hx.
    apply lookup_insert_Some in Hx as [[<- <-]|[_ Hx]]; [left; split; [done|apply stream_new]|right].
    subst part. destruct (routes p !! route) as [y|] eqn:Hy; cbn in Hx; [by apply (routed p _ _ y)|by rewrite lookup_empty in Hx].
  - apply (kept_new p h); [done..|]. cbn [records]. intros i x Hx.
    apply lookup_insert_Some in Hx as [[<- <-]|[_ Hx]]; [left; split; [done|apply stream_new]|right]. by apply (routed p _ _ part).
  - destruct Hl as [_ Hp Hr]. eapply kept_same_history; [done|exact Hp|]. by apply (calm_set _ _ r).
  - eapply kept_taken; [done|done|exact Hl|exact G|done|done|]. intros i x Hx. cbn [set_record records] in Hx. by exists x.
  - assert (Q : queue_ok P c (set_record part id r')).
    { eapply granted_queue; [done|by eauto|done|]. rewrite (grown_state _ _ _ G), Ho. by destruct o. }
    eapply kept_taken; [done|done|exact Hl|exact G|done|by rewrite note_grant_taken|]. apply (calm_granted _ _ _ Q Hg).
  - destruct (acknowledged_record_fields c r n) as (Ef & _ & En & _). destruct Hl as [_ Hp Hr].
    eapply kept_same_history; [done|exact Hp|]. apply (calm_set _ _ r); [done..|]. rewrite Ef. apply map_filter_subseteq.
  - destruct (located_wf _ _ _ _ _ _ _ W Hl) as [_ [Wr _]]. destruct (terminated_record_fields r o) as (Ef & _ & En & _ & _ & _ & Es & _).
    assert (Q : queue_ok P c (set_record part id (terminated_record r o))).
    { eapply granted_queue; [done|by eauto| |rewrite Es; by destruct o].
      split; [apply core_terminated; [done..|by rewrite Ha]|apply pause_terminated]. }
    assert (K' : kept (set_partition route part' p) h).
    { destruct Hl as [_ Hp Hr]. eapply kept_same_history; [done|exact Hp|]. intros i x (y & Hy & Hn & Hf)%(calm_granted _ _ _ Q Hg).
      rewrite Hn, Hf. eapply (calm_set _ _ r); [done|exact En| |exact Hy]. rewrite Ef. case_bool_decide; [apply map_empty_subseteq|done]. }
    intros i x Hx. rewrite note_grant_taken. by apply K'.
  - destruct (terminated_record_fields r OutcomeCancelled) as (Ef & _ & En & _). destruct Hl as [_ Hp Hr].
    eapply kept_same_history; [done|exact Hp|]. apply (calm_set _ _ r); [done..|]. rewrite Ef. apply map_empty_subseteq.
  - destruct Hl as [_ Hp Hr]. intros i x Hx. apply K. unfold at_record in *. cbn [exchange_routes routes] in Hx.
    destruct (decide (i = id)) as [->|Hne]; [by rewrite lookup_delete_eq in Hx|]. rewrite lookup_delete_ne in Hx by done.
    destruct (exchange_routes p !! i) as [k|]; [|done]. cbn in *. destruct (decide (k = route)) as [->|Hk].
    + rewrite Hp. cbn. case_bool_decide; [by rewrite lookup_delete_eq in Hx|]. rewrite lookup_insert_eq in Hx. cbn in Hx.
      by apply lookup_delete_Some in Hx as [_ Hx].
    + case_bool_decide; [by rewrite lookup_delete_ne in Hx|by rewrite lookup_insert_ne in Hx].
Qed.

(** ** Runs *)

Record run_ok (s : ModelRequestPool * history) : Prop := {
  run_wf : pool_wf P c s.1;
  run_fair : fair s.1 s.2;
  run_kept : kept s.1 s.2
}.

Lemma pool_step_ok op s : run_ok s → run_ok (pool_step P op s).
Proof.
  destruct s as [p h]. intros [W F K]. destruct (step_moves P c L op p h W) as [M _]. cbn [fst snd] in *.
  constructor; [by eapply move_wf|by eapply move_fair|by eapply move_kept].
Qed.

Lemma pool_run_ok ops s : run_ok s → run_ok (pool_run P ops s).
Proof. revert s. induction ops as [|op ops IH]; intros s Hs; [done|]. by apply IH, pool_step_ok. Qed.

Lemma new_run_ok p : pool_new c = Ok p → run_ok (p, no_history).
Proof.
  intros Hp. pose proof (new_pool_wf P c L p Hp) as W. unfold pool_new in Hp. apply bind_Ok in Hp as (c' & _ & [= <-]).
  constructor; cbn [fst snd]; [done| |].
  - intros route. cbn. unfold waiting_on. cbn [routes]. rewrite lookup_empty. cbn. done.
  - intros id r Hr. unfold at_record in Hr. cbn [exchange_routes] in Hr. by rewrite lookup_empty in Hr.
Qed.
End streams.

(** ** Reading *)

Lemma lookup_zip_seqZ {A} (l : list A) a i k x :
  zip (seqZ a (Z.of_nat (length l))) l !! i = Some (k, x) ↔ k = a + Z.of_nat i ∧ l !! i = Some x.
Proof.
  rewrite lookup_zip_Some, lookup_seqZ. split; [naive_solver|]. intros [-> Hx]. split_and!; [done| |done].
  apply lookup_lt_Some in Hx. lia.
Qed.

Lemma zip_seqZ_sorted {A} (l : list A) a : StronglySorted (λ x y, x.1 ≤ y.1) (zip (seqZ a (Z.of_nat (length l))) l).
Proof.
  revert a. induction l as [|x l IH]; intros a; [rewrite zip_with_nil_r; constructor|]. rewrite seqZ_cons by (cbn; lia). cbn [zip_with length].
  replace (Z.pred (Z.of_nat (S (length l)))) with (Z.of_nat (length l)) by lia. constructor; [apply IH|].
  apply Forall_forall. intros [k y] [i Hi]%list_elem_of_lookup. apply lookup_zip_seqZ in Hi as [-> _]. cbn. lia.
Qed.

(** A map numbered from [a] is read in order. *)
Lemma frame_values_numbered a l (m : gmap Z ModelStreamFrame) :
  (∀ k f, m !! k = Some f ↔ a ≤ k ∧ l !! Z.to_nat (k - a) = Some f) →
  frame_values m = zip (seqZ a (Z.of_nat (length l))) l.
Proof.
  intros Hm. assert (Hin : ∀ k f, (k, f) ∈ zip (seqZ a (Z.of_nat (length l))) l ↔ m !! k = Some f).
  { intros k f. rewrite list_elem_of_lookup, Hm. split.
    - intros [i [-> Hi]%lookup_zip_seqZ]. split; [lia|]. rewrite <-Hi. f_equal. lia.
    - intros [Hk Hf]. exists (Z.to_nat (k - a)). apply lookup_zip_seqZ. split; [lia|done]. }
  unfold frame_values. apply (StronglySorted_unique_strong (λ x y, x.1 ≤ y.1)).
  - intros [k f] [k' f'] H1 H2 Hle Hge. cbn in Hle, Hge. assert (k = k') as -> by lia.
    apply order_elem, elem_of_map_to_list in H1. apply Hin in H2. congruence.
  - apply order_sorted.
  - apply zip_seqZ_sorted.
  - rewrite order_perm. apply NoDup_Permutation; [apply NoDup_map_to_list| |].
    + apply (NoDup_fmap_1 fst). rewrite fst_zip by (rewrite length_seqZ; lia). apply NoDup_seqZ.
    + intros [k f]. by rewrite elem_of_map_to_list, Hin.
Qed.

Lemma zip_seqZ_from {A} (l : list A) a b :
  snd <$> filter (λ x, b ≤ x.1) (zip (seqZ a (Z.of_nat (length l))) l) = drop (Z.to_nat (b - a)) l.
Proof.
  revert a. induction l as [|x l IH]; intros a; [rewrite zip_with_nil_r; by rewrite drop_nil|].
  rewrite seqZ_cons by (cbn; lia). cbn [zip_with length].
  replace (Z.pred (Z.of_nat (S (length l)))) with (Z.of_nat (length l)) by lia. rewrite filter_cons. cbn [fst].
  case_decide as Hb.
  - rewrite fmap_cons, IH. replace (Z.to_nat (b - a)) with 0%nat by lia. by replace (Z.to_nat (b - Z.succ a)) with 0%nat by lia.
  - rewrite IH. replace (Z.to_nat (b - a)) with (S (Z.to_nat (b - Z.succ a))) by lia. done.
Qed.

(** The loop returns a prefix within the limits, and at least the first frame when it fits. *)
Lemma read_loop_prefix l count bytes max_frames max_bytes :
  0 ≤ count ≤ max_frames → 0 ≤ bytes ≤ max_bytes → max_bytes < u64_max →
  ∃ n, read_loop l count bytes max_frames max_bytes = take n (snd <$> l) ∧
    count + Z.of_nat (length (read_loop l count bytes max_frames max_bytes)) ≤ max_frames ∧
    bytes + foldr (λ f s, str_len (payload f) + s) 0 (read_loop l count bytes max_frames max_bytes) ≤ max_bytes.
Proof.
  revert count bytes. induction l as [|x l IH]; intros count bytes Hc Hb Hm; cbn [read_loop].
  { exists 0%nat. cbn. split; [done|lia]. }
  destruct (_ || _) eqn:E; [exists 0%nat; cbn; split; [done|lia]|]. apply orb_false_iff in E as [Ec%Z.leb_gt Eb%Z.ltb_ge].
  apply saturating_within in Eb as [Eb Hs]; [|done]. rewrite Hs. pose proof (str_len_nonneg (payload x.2)).
  destruct (IH (count + 1) (bytes + str_len (payload x.2))) as (n & Hn & Hlen & Hsum); [lia|lia|done|].
  exists (S n). cbn [length foldr]. split; [rewrite fmap_cons; cbn [take]; by rewrite <-Hn|]. lia.
Qed.

Lemma read_loop_head x l max_frames max_bytes :
  1 ≤ max_frames → str_len (payload x.2) ≤ max_bytes → max_bytes < u64_max →
  ∃ rest, read_loop (x :: l) 0 0 max_frames max_bytes = x.2 :: rest.
Proof.
  intros Hf Hb Hm. cbn [read_loop]. rewrite (proj2 (Z.leb_gt _ _)) by lia. unfold saturating_add_u64.
  rewrite Z.min_l by lia. rewrite (proj2 (Z.ltb_ge _ _)) by lia. by eexists.
Qed.

Section reading.
Context (P : primitives) (c : ModelRequestPoolConfig).

Lemma buffered_stream id r stream :
  record_core P c id r → stream_ok r stream → terminal_outcome r ≠ Some OutcomeCancelled →
  frame_values (frames r) =
  zip (seqZ (acknowledged_sequence r + 1) (Z.of_nat (length (drop (Z.to_nat (acknowledged_sequence r)) stream))))
    (drop (Z.to_nat (acknowledged_sequence r)) stream).
Proof.
  intros W S Hc. pose proof (core_numbers _ _ _ _ W) as Hn. pose proof (stream_length _ _ S) as Hlen.
  apply frame_values_numbered. intros k f. rewrite lookup_drop. split.
  - intros Hk. destruct (core_buffered P c id r k f W Hk) as [_ Hspan]. apply (stream_buffered _ _ S) in Hk as [_ Hk].
    split; [lia|]. rewrite <-Hk. f_equal. lia.
  - intros [Hk Hf]. assert (Hlt := lookup_lt_Some _ _ _ Hf).
    destruct (proj2 (core_span _ _ _ _ W Hc k) ltac:(lia)) as [g Hg]. rewrite Hg.
    apply (stream_buffered _ _ S) in Hg as [_ Hg]. rewrite <-Hg, <-Hf. f_equal. lia.
Qed.

Lemma read_stream id r stream after :
  record_core P c id r → stream_ok r stream → terminal_outcome r ≠ Some OutcomeCancelled →
  acknowledged_sequence r ≤ after ≤ MAX_SAFE_INTEGER →
  snd <$> filter (λ x, saturating_add_u64 after 1 ≤ x.1) (frame_values (frames r)) = drop (Z.to_nat after) stream.
Proof.
  intros W S Hc Ha. pose proof (core_numbers _ _ _ _ W). pose proof safe_fits. unfold saturating_add_u64. rewrite Z.min_l by lia.
  rewrite (buffered_stream id r stream) by done. rewrite zip_seqZ_from, drop_drop. f_equal. lia.
Qed.
End reading.
