(* ===== verification/PoolRestore.v ===== *)
(** * Model request pool: export and restore

    What the durable form of a pool restores to.  A record comes back as it was exactly when it
    is [restorable]; otherwise the whole pool is refused.  The laws of the third-party codecs
    are hypotheses of the section. *)

From Stdlib Require Import Ascii String.
From stdpp Require Import sorting.
From S2P Require Import Prelude Text Ordered Transaction ModelPool PoolFacts PoolInvariant PoolStreams.
Local Open Scope Z_scope.

(** Decoding what was encoded. *)
Definition base64_ok (P : primitives) : Prop := ∀ s, base64_decode P (base64_encode P s) = Some s.

Definition json_ok {A} (J : json A) : Prop := ∀ d b, to_vec J d = Some b → from_slice J b = Some d.

(** ** Records *)

(** A check that fails ends the computation. *)
Lemma refuse_halt {E B} b (e : E) (k : result E B) : b = true → (refuse b e ;; k) = Err e.
Proof. by intros ->. Qed.

Definition ended_by_frame (r : ExchangeRecord) (o : ModelRequestTerminalOutcome) : bool :=
  match frames r !! (next_sequence r - 1) with
  | Some f => bool_decide (frame_outcome f = Some o)
  | None => false
  end.

(** The stream has not used up its numbers; a cancelled one had nothing buffered; another that
    ended still buffers the frame that ended it. *)
Definition restorable (r : ExchangeRecord) : bool :=
  (next_sequence r <=? MAX_SAFE_INTEGER) &&
  match terminal_outcome r with
  | None => true
  | Some OutcomeCancelled => acknowledged_sequence r + 1 =? next_sequence r
  | Some o => ended_by_frame r o
  end.

Lemma keys_are_seqZ ks a b : a ≤ b → keys_are ks a b = bool_decide (ks = seqZ a (b - a)).
Proof.
  revert a. induction ks as [|k ks IH]; intros a Hab; cbn [keys_are].
  - destruct (Z.leb_spec b a) as [H|H].
    + replace (b - a) with 0 by lia. by rewrite bool_decide_eq_true_2.
    + rewrite bool_decide_eq_false_2; [done|]. by rewrite seqZ_cons by lia.
  - destruct (Z.ltb_spec a b) as [H|H]; cbn [andb].
    + rewrite seqZ_cons by lia. destruct (Z.eqb_spec k a) as [->|Hk]; cbn [andb].
      * rewrite IH by lia. change (Z.succ a) with (a + 1). replace (Z.pred (b - a)) with (b - (a + 1)) by lia. apply bool_decide_ext. split; [congruence|by intros [= ->]].
      * rewrite bool_decide_eq_false_2; [done|congruence].
    + replace (b - a) with 0 by lia. by rewrite bool_decide_eq_false_2.
Qed.

Lemma StronglySorted_map {A} (f : A → Z) l : StronglySorted (λ x y, f x ≤ f y) l → StronglySorted Z.le (f <$> l).
Proof. induction 1 as [|x l Hl IH Hx]; [constructor|]. rewrite fmap_cons. constructor; [done|]. by apply Forall_fmap. Qed.

(** The keys of a buffer without a gap. *)
Lemma frame_keys m a b :
  a ≤ b → (∀ k, is_Some (m !! k) ↔ a ≤ k < b) → fst <$> frame_values m = seqZ a (b - a).
Proof.
  intros Hab Hm. apply (StronglySorted_unique Z.le).
  - apply StronglySorted_map, order_sorted.
  - pose proof (zip_seqZ_sorted (seqZ a (b - a)) a) as Hs. apply StronglySorted_map in Hs.
    rewrite length_seqZ, Z2Nat.id, fst_zip in Hs by (rewrite ?length_seqZ; lia). done.
  - unfold frame_values. rewrite order_perm. apply NoDup_Permutation; [apply NoDup_fst_map_to_list|apply NoDup_seqZ|].
    intros k. rewrite elem_of_seqZ, list_elem_of_fmap. split.
    + intros ([k' f] & -> & Hk%elem_of_map_to_list). cbn. pose proof (proj1 (Hm k') ltac:(eauto)). lia.
    + intros Hk. destruct (proj2 (Hm k) ltac:(lia)) as [f Hf]. exists (k, f). split; [done|]. by apply elem_of_map_to_list.
Qed.

Lemma parse_state_name s : parse_request_state (request_state_name s) = Ok s.
Proof. by destruct s. Qed.

Lemma parse_outcome_name o : parse_optional_outcome (terminal_outcome_name <$> o) = Ok o.
Proof. by destruct o as [[]|]. Qed.

Section records.
Context (P : primitives) (c : ModelRequestPoolConfig) (L : config_limits c) (B : base64_ok P).

(** The loop over the frames, in any order. *)
Lemma restore_frames_run l m bytes :
  Forall (λ x, sequence x.2 = x.1 ∧ 1 ≤ x.1 ≤ MAX_SAFE_INTEGER) l → NoDup (fst <$> l) → (∀ k, k ∈ fst <$> l → m !! k = None) →
  0 ≤ bytes → bytes + payload_sum l ≤ u64_max →
  restore_frames P (durable_pool_frame P ∘ snd <$> l) m bytes = Ok (list_to_map l ∪ m, bytes + payload_sum l).
Proof.
  revert m bytes. induction l as [|[k f] l IH]; intros m bytes Hv Hn Hm Hb Hs.
  { cbn. by rewrite (left_id_L ∅ (∪)), Z.add_0_r. }
  apply Forall_cons in Hv as [[Hk Hr] Hv]. cbn [fst snd] in Hk, Hr. rewrite fmap_cons in Hn. apply NoDup_cons in Hn as [Hkl Hn].
  rewrite payload_sum_cons in Hs |- *. cbn [snd] in *. pose proof (payload_sum_nonneg l). pose proof (str_len_nonneg (payload f)).
  rewrite fmap_cons. cbn [restore_frames compose durable_pool_frame snd payload_base64 durable_frame_outcome durable_sequence].
  rewrite B. cbn [ok_or mbind result_bind]. rewrite parse_outcome_name. cbn [mbind result_bind].
  unfold validate_frame. cbn [sequence]. rewrite refuse_run by (rewrite orb_false_iff, Z.eqb_neq, Z.ltb_ge; lia).
  rewrite (proj2 (checked_add_u64_Some bytes (str_len (payload f)) _)) by (split; [reflexivity|lia]). cbn [ok_or mbind result_bind].
  rewrite refuse_run by (apply bool_decide_eq_false_2; rewrite Hk, (Hm k) by (rewrite fmap_cons; by left); by intros []).
  assert ({| sequence := sequence f; payload := payload f; frame_outcome := frame_outcome f |} = f) as -> by (by destruct f).
  rewrite Hk. rewrite IH; [|done|done| |lia|lia].
  - cbn [list_to_map foldr fst snd]. f_equal. f_equal; [|lia]. rewrite <-insert_union_l. symmetry. apply insert_union_r.
    by apply not_elem_of_list_to_map_1.
  - intros k' Hk'. rewrite lookup_insert_ne by (by intros <-). apply Hm. rewrite fmap_cons. by right.
Qed.

Lemma frame_values_map m : list_to_map (frame_values m) = m.
Proof.
  unfold frame_values. rewrite (list_to_map_proper _ (map_to_list m)); [apply list_to_map_to_list| |apply order_perm].
  rewrite order_perm. apply NoDup_fst_map_to_list.
Qed.

Lemma restore_frames_export id r :
  record_core P c id r →
  restore_frames P (durable_pool_frame P ∘ snd <$> frame_values (frames r)) ∅ 0 = Ok (frames r, buffered_bytes r).
Proof.
  intros W. pose proof (core_numbers _ _ _ _ W). pose proof (core_byte_limit _ _ _ _ W). pose proof (core_bytes _ _ _ _ W) as Hb.
  pose proof (limit_bytes_u64 _ L). rewrite restore_frames_run; rewrite ?frame_values_sum.
  - by rewrite frame_values_map, (right_id_L ∅ (∪)), Hb.
  - apply Forall_forall. intros [k f] Hk. apply order_elem, elem_of_map_to_list in Hk. cbn.
    split; [by apply (core_keys _ _ _ _ W)|]. apply (core_buffered P c id r) in Hk as [_ ?]; [lia|done].
  - unfold frame_values. rewrite order_perm. apply NoDup_fst_map_to_list.
  - intros k _. apply lookup_empty.
  - done.
  - lia.
Qed.

Lemma queued_passes id r :
  record_wf P c id r →
  bool_decide (state r = Queued) &&
  (negb (next_sequence r =? 1) || negb (acknowledged_sequence r =? 0) || provider_read_paused r || negb (bool_decide (frames r = ∅)) ||
   bool_decide (is_Some (terminal_outcome r))) = false.
Proof.
  intros [W Hp]. case_bool_decide as Hq; [|done]. cbn [andb]. pose proof (core_numbers _ _ _ _ W) as Hn.
  pose proof (core_queued _ _ _ _ W Hq) as H1. assert (Hlive : terminal_outcome r = None) by (apply (core_live _ _ _ _ W); by rewrite Hq).
  assert (He : frames r = ∅).
  { apply map_empty. intros k. apply eq_None_not_Some. rewrite (core_span _ _ _ _ W) by (by rewrite Hlive). lia. }
  assert (Hpaused : provider_read_paused r = false).
  { destruct (provider_read_paused r) eqn:E; [|done]. destruct (Hp E) as [Ha _]. congruence. }
  rewrite H1, Hpaused, He, Hlive, (bool_decide_eq_true_2 (∅ = ∅)), bool_decide_eq_false_2 by (done || by intros []).
  replace (acknowledged_sequence r) with 0 by lia. done.
Qed.

Lemma frame_values_nil : frame_values ∅ = [].
Proof. unfold frame_values. by rewrite map_to_list_empty. Qed.

Lemma restored_print_exact id r :
  record_core P c id r → ∀ d, durable_next_sequence d = next_sequence r → terminal_outcome r ≠ Some OutcomeCancelled →
  restored_print P d (frames r) (terminal_outcome r) =
  match terminal_outcome r with
  | None => Ok (terminal_print r)
  | Some o => if ended_by_frame r o then Ok (terminal_print r) else Err pool_corrupt
  end.
Proof.
  intros W d Hd Hc. pose proof (core_numbers _ _ _ _ W). unfold restored_print, ended_by_frame. rewrite Hd.
  unfold saturating_sub. rewrite Z.max_r by lia. destruct (terminal_outcome r) as [o|] eqn:Ho.
  2: { by rewrite (core_no_print _ _ _ _ W (or_introl Ho)). }
  destruct (frames r !! (next_sequence r - 1)) as [f|] eqn:Hf; [|by destruct o].
  cbn [ok_or mbind result_bind]. case_bool_decide as Hout; cbn [negb].
  - destruct (core_print _ _ _ _ W _ _ _ Hf Hout) as (_ & _ & ->). by destruct o.
  - by destruct o.
Qed.

Lemma restored_record_exact id route r :
  record_wf P c id r →
  restored_record P (durable_pool_exchange P route r) c = if restorable r then Ok r else Err pool_corrupt.
Proof.
  intros [W Hp]. pose proof (core_numbers _ _ _ _ W) as Hn. unfold restored_record, restorable.
  cbn [durable_pool_exchange durable_state durable_next_sequence durable_acknowledged_sequence durable_outcome durable_frames durable_paused durable_exchange_id durable_request_id].
  rewrite parse_state_name. cbn [mbind result_bind].
  rewrite (proj2 (Z.eqb_neq (next_sequence r) 0)), (proj2 (Z.leb_gt (next_sequence r) (acknowledged_sequence r))) by lia. cbn [orb].
  destruct (Z.leb_spec (next_sequence r) MAX_SAFE_INTEGER) as [Hsafe|Hsafe]; cbn [andb].
  2: { apply refuse_halt. by apply Z.ltb_lt. }
  rewrite (proj2 (Z.ltb_ge _ _)) by done. rewrite refuse_run by done. rewrite parse_outcome_name. cbn [mbind result_bind].
  rewrite refuse_run by (rewrite (core_outcome _ _ _ _ W); by rewrite bool_decide_eq_true_2).
  rewrite (restore_frames_export id r W). cbn [mbind result_bind].
  pose proof (core_frame_limit _ _ _ _ W) as Hf. unfold frame_count in Hf. rewrite (proj2 (Z.ltb_ge _ _)) by done.
  rewrite (proj2 (Z.ltb_ge _ (buffered_bytes r))) by (by apply (core_byte_limit _ _ _ _ W)). cbn [orb].
  rewrite keys_are_seqZ by lia. destruct (decide (terminal_outcome r = Some OutcomeCancelled)) as [Hc|Hc].
  - rewrite Hc. pose proof (core_cleared _ _ _ _ W Hc) as He. rewrite He, frame_values_nil. cbn [fmap list_fmap].
    destruct (Z.eqb_spec (acknowledged_sequence r + 1) (next_sequence r)) as [Hempty|Hne].
    2: { apply refuse_halt. rewrite bool_decide_eq_false_2; [done|]. by rewrite seqZ_cons by lia. }
    rewrite refuse_run by (by rewrite Hempty, Z.sub_diag).
    pose proof (queued_passes id r (conj W Hp)) as Hq. rewrite Hc, He in Hq. rewrite (refuse_run _ _ _ Hq). cbn [restored_print mbind result_bind].
    pose proof (core_no_print _ _ _ _ W (or_intror Hc)). destruct r; cbn in *. by subst.
  - rewrite (frame_keys _ (acknowledged_sequence r + 1) (next_sequence r)) by (lia || (intros k; rewrite (core_span _ _ _ _ W Hc); lia)).
    rewrite refuse_run by (by rewrite bool_decide_eq_true_2). rewrite refuse_run by (by eapply queued_passes).
    rewrite (restored_print_exact id r W (durable_pool_exchange P route r) eq_refl Hc).
    destruct (terminal_outcome r) as [o|] eqn:Ho; [destruct (ended_by_frame r o) eqn:He|].
    all: clear - Ho Hc; destruct r; cbn in *; subst; try destruct o; done.
Qed.
End records.

(** ** Routes *)

Section routes.
Context (P : primitives) (c : ModelRequestPoolConfig) (L : config_limits c) (B : base64_ok P).

Definition route_index (route : ModelRequestRouteKey) (l : list (string * ExchangeRecord)) : gmap string ModelRequestRouteKey :=
  list_to_map ((λ y, (y.1, route)) <$> l).

Lemma restore_records_run route l m index :
  Forall (λ y, record_wf P c y.1 y.2) l → NoDup (fst <$> l) → (∀ id, id ∈ fst <$> l → m !! id = None ∧ index !! id = None) →
  restore_records P c route ((λ y, durable_pool_exchange P route y.2) <$> l) m index =
  if forallb (λ y, restorable y.2) l then Ok (list_to_map l ∪ m, route_index route l ∪ index) else Err pool_corrupt.
Proof.
  revert m index. induction l as [|[id r] l IH]; intros m index Hv Hn Hm.
  { cbn. by rewrite !(left_id_L ∅ (∪)). }
  apply Forall_cons in Hv as [W Hv]. cbn [fst snd] in W. rewrite fmap_cons in Hn, Hm. apply NoDup_cons in Hn as [Hid Hn]. cbn [fst] in *.
  destruct (Hm id) as [Hm1 Hm2]; [by left|]. rewrite fmap_cons. cbn [restore_records snd forallb].
  rewrite refuse_run by (by rewrite bool_decide_eq_true_2).
  rewrite (restored_record_exact P c L B id route r W). destruct (restorable r); cbn [andb mbind result_bind]; [|done].
  rewrite (core_id _ _ _ _ (proj1 W)), refuse_run by (rewrite Hm1, Hm2, !bool_decide_eq_false_2 by (by intros []); done).
  rewrite IH; [|done|done|].
  - destruct (forallb _ l); [|done]. f_equal. unfold route_index. rewrite fmap_cons. cbn [list_to_map foldr fst snd].
    f_equal; rewrite <-insert_union_l; symmetry; apply insert_union_r, not_elem_of_list_to_map_1; [done|].
    intros Hin. apply Hid. by rewrite <-list_fmap_compose in Hin.
  - intros i Hi. rewrite !lookup_insert_ne by (by intros <-). apply Hm. by right.
Qed.

Definition all_restorable (part : RoutePartition) : bool := forallb (λ y, restorable y.2) (map_to_list (records part)).

Lemma sorted_records_map (m : gmap string ExchangeRecord) : list_to_map (sort_by_key fst (map_to_list m)) = m.
Proof.
  rewrite (list_to_map_proper _ (map_to_list m)); [apply list_to_map_to_list| |apply sort_by_key_perm].
  rewrite sort_by_key_perm. apply NoDup_fst_map_to_list.
Qed.

Lemma restorable_sorted part : forallb (λ y, restorable y.2) (sort_by_key fst (map_to_list (records part))) = all_restorable part.
Proof.
  unfold all_restorable. apply eq_true_iff_eq. rewrite !forallb_forall.
  setoid_rewrite <-list_elem_of_In. by setoid_rewrite (sort_by_key_perm fst (map_to_list (records part))).
Qed.

Lemma queue_ok_matches part : queue_ok P c part → queue_matches (records part) (waiting part) = true.
Proof.
  intros Q. unfold queue_matches. apply andb_true_iff. rewrite !forallb_forall. setoid_rewrite <-list_elem_of_In. split.
  - intros id (r & Hr & Hs)%(queue_states _ _ _ Q). unfold queued_at. rewrite Hr. by apply bool_decide_eq_true_2.
  - intros [id r] Hr%elem_of_map_to_list. cbn [snd]. case_bool_decide as Hs; [|done]. cbn [negb orb]. apply bool_decide_eq_true_2.
    rewrite (core_id _ _ _ _ (proj1 (queue_records _ _ _ Q _ _ Hr))). apply (queue_states _ _ _ Q). eauto.
Qed.

Lemma route_index_lookup route (m : gmap string ExchangeRecord) id k :
  route_index route (sort_by_key fst (map_to_list m)) !! id = Some k ↔ k = route ∧ is_Some (m !! id).
Proof.
  unfold route_index. rewrite <-elem_of_list_to_map.
  - rewrite list_elem_of_fmap. split.
    + intros ([i r] & [= -> ->] & Hr). rewrite (sort_by_key_perm fst) in Hr. apply elem_of_map_to_list in Hr. split; [done|]. cbn. eauto.
    + intros [-> [r Hr]]. exists (id, r). split; [done|]. rewrite (sort_by_key_perm fst). by apply elem_of_map_to_list.
  - rewrite <-list_fmap_compose. rewrite (sort_by_key_perm fst). apply NoDup_fst_map_to_list.
Qed.

Lemma restore_route_records route part index :
  queue_ok P c part → (∀ id, is_Some (records part !! id) → index !! id = None) →
  restore_records P c route ((λ y, durable_pool_exchange P route y.2) <$> sort_by_key fst (map_to_list (records part))) ∅ index =
  if all_restorable part then Ok (records part, route_index route (sort_by_key fst (map_to_list (records part))) ∪ index)
  else Err pool_corrupt.
Proof.
  intros Q Hfree. rewrite restore_records_run, restorable_sorted, sorted_records_map, (right_id_L ∅ (∪)); [done|..].
  - apply Forall_forall. intros [id r] Hr. rewrite (sort_by_key_perm fst) in Hr. apply elem_of_map_to_list in Hr. by apply (queue_records _ _ _ Q).
  - rewrite (sort_by_key_perm fst). apply NoDup_fst_map_to_list.
  - intros id Hid. rewrite (sort_by_key_perm fst) in Hid. split; [apply lookup_empty|]. apply Hfree.
    apply list_elem_of_fmap in Hid as ([id' r] & -> & Hr%elem_of_map_to_list). eauto.
Qed.

(** The loop over routes that do not share an exchange; [G] is where each exchange belongs. *)
Lemma restore_routes_run (G : gmap string ModelRequestRouteKey) l m index :
  Forall (λ x, partition_wf P c x.2 ∧ validate_route_key x.1 = Ok tt ∧ ∀ id, is_Some (records x.2 !! id) → G !! id = Some x.1) l →
  NoDup (fst <$> l) → (∀ k, k ∈ fst <$> l → m !! k = None) →
  (∀ id k, index !! id = Some k → G !! id = Some k ∧ k ∉ fst <$> l) →
  if forallb (λ x, all_restorable x.2) l
  then ∃ index', restore_routes P c (durable_pool_route P <$> l) m index = Ok (list_to_map l ∪ m, index') ∧
    ∀ id k, index' !! id = Some k ↔ index !! id = Some k ∨ ∃ part, (k, part) ∈ l ∧ is_Some (records part !! id)
  else restore_routes P c (durable_pool_route P <$> l) m index = Err pool_corrupt.
Proof.
  revert m index. induction l as [|[route part] l IH]; intros m index Hv Hn Hm Hi.
  { cbn. exists index. rewrite (left_id_L ∅ (∪)). split; [done|]. intros id k. split; [by left|]. intros [?|(? & ?%not_elem_of_nil & _)]; done. }
  apply Forall_cons in Hv as [(W & Hkey & HG) Hv]. cbn [fst snd] in W, Hkey, HG. rewrite fmap_cons in Hn, Hm, Hi.
  apply NoDup_cons in Hn as [Hroute Hn]. cbn [fst] in Hn, Hm, Hi, Hroute. destruct W as [Q Hu Hrec Hw Ha Hb].
  assert (Hfree : ∀ id, is_Some (records part !! id) → index !! id = None).
  { intros id Hid. apply eq_None_not_Some. intros [k Hk]. apply Hi in Hk as [Hk Hout]. rewrite (HG id Hid) in Hk. set_solver. }
  rewrite fmap_cons. cbn [restore_routes forallb fst snd durable_pool_route durable_exchanges durable_waiting].
  assert (durable_route_key (durable_pool_route P (route, part)) = route) as Hk by (by destruct route).
  cbn [durable_pool_route fst snd] in Hk. rewrite Hk, Hkey. cbn [mbind result_bind].
  rewrite refuse_run by (rewrite length_fmap, (Permutation_length (sort_by_key_perm fst _)), length_map_to_list; by apply Z.ltb_ge).
  rewrite (restore_route_records route part index Q Hfree). destruct (all_restorable part); cbn [andb mbind result_bind]; [|by destruct (forallb _ l)].
  rewrite refuse_run by (rewrite (queue_ok_matches part Q), orb_false_r; by apply Z.ltb_ge).
  destruct part as [rs queue]. cbn [records waiting] in *. rewrite refuse_run.
  2: { rewrite (Hm route) by (by left). rewrite (bool_decide_eq_false_2 (is_Some None)) by (by intros []). rewrite orb_false_r. by apply Z.ltb_ge. }
  specialize (IH (<[route := {| records := rs; waiting := queue |}]> m)
    (route_index route (sort_by_key fst (map_to_list rs)) ∪ index) Hv Hn).
  assert (Hx : ∀ id k, (route_index route (sort_by_key fst (map_to_list rs)) ∪ index) !! id = Some k ↔
    (k = route ∧ is_Some (rs !! id)) ∨ index !! id = Some k).
  { intros id k. rewrite lookup_union_Some_raw, route_index_lookup. split; [naive_solver|]. intros [[-> Hid]|Hk']; [by left|].
    destruct (rs !! id) as [r|] eqn:Hr; [by rewrite Hfree in Hk'|]. right. split; [|done].
    apply eq_None_not_Some. intros [k' Hk'']. apply route_index_lookup in Hk'' as [_ [y Hy]]. congruence. }
  destruct (forallb _ l).
  - destruct IH as (index' & -> & Hlook).
    + intros k Hk'. rewrite lookup_insert_ne by (by intros <-). apply Hm. by right.
    + intros id k [[-> Hid]|Hk']%Hx; [split; [by apply HG|done]|]. apply Hi in Hk' as [? Hout]. split; [done|set_solver].
    + exists index'. split.
      * f_equal. f_equal. cbn [list_to_map foldr fst snd]. rewrite <-insert_union_l. symmetry. apply insert_union_r.
        by apply not_elem_of_list_to_map_1.
      * intros id k. rewrite Hlook, Hx. split.
        -- intros [[[-> Hid]|Hk']|(part & Hin & Hid)]; [right; eexists; split; [by left|done]|by left|right; exists part; split; [by right|done]].
        -- intros [Hk'|(part & Hin & Hid)]; [by left; right|]. apply elem_of_cons in Hin as [[= -> ->]|Hin]; [left; by left|right; by exists part].
  - apply IH.
    + intros k Hk'. rewrite lookup_insert_ne by (by intros <-). apply Hm. by right.
    + intros id k [[-> Hid]|Hk']%Hx; [split; [by apply HG|done]|]. apply Hi in Hk' as [? Hout]. split; [done|set_solver].
Qed.
End routes.

(** ** The whole pool *)

Section pools.
Context (P : primitives) (c : ModelRequestPoolConfig) (L : config_limits c) (B : base64_ok P).
Context (J : json DurablePoolAuthority) (HJ : json_ok J).

Definition project_key (k : ModelRequestRouteKey) : string * string * string := (organization k, workspace k, project k).

Lemma same_project_key a b : same_project a b = bool_decide (project_key a = project_key b).
Proof.
  apply eq_true_iff_eq. unfold same_project, project_key. rewrite !andb_true_iff, !bool_decide_eq_true.
  split; [by intros [[-> ->] ->]|by intros [= -> -> ->]].
Qed.

(** The counts stay within the limit when every project has few enough routes. *)
Lemma count_projects_run ks counts :
  (∀ k, k ∈ ks → default 0 (counts !! project_key k) + Z.of_nat (length (filter (λ k', project_key k' = project_key k) ks)) ≤ max_routes c) →
  count_projects c ks counts = Ok tt.
Proof.
  revert counts. induction ks as [|k ks IH]; intros counts Hc; [done|]. cbn [count_projects]. fold (project_key k).
  pose proof (Hc k ltac:(by left)) as Hk. rewrite filter_cons_True in Hk by done. cbn [length] in Hk. pose proof (limit_routes _ L).
  rewrite (proj2 (checked_add_u64_Some (default 0 (counts !! project_key k)) 1 _)) by (split; [reflexivity|lia]).
  cbn [ok_or mbind result_bind]. rewrite refuse_run by (apply Z.ltb_ge; lia). apply IH. intros k' Hk'.
  pose proof (Hc k' ltac:(by right)) as Hold. rewrite filter_cons in Hold. destruct (decide (project_key k = project_key k')) as [E|E].
  - rewrite E, lookup_insert_eq. change (default 0 (Some ?z)) with z. cbn [length] in Hold. lia.
  - by rewrite lookup_insert_ne.
Qed.

Definition pool_restorable (p : ModelRequestPool) : bool := forallb (λ x, all_restorable x.2) (map_to_list (routes p)).

Lemma sorted_routes_perm (p : ModelRequestPool) : merge_sort route_le (map_to_list (routes p)) ≡ₚ map_to_list (routes p).
Proof. apply merge_sort_Permutation. Qed.

Lemma restorable_routes p : forallb (λ x, all_restorable x.2) (merge_sort route_le (map_to_list (routes p))) = pool_restorable p.
Proof.
  unfold pool_restorable. apply eq_true_iff_eq. rewrite !forallb_forall. setoid_rewrite <-list_elem_of_In. by setoid_rewrite sorted_routes_perm.
Qed.

Lemma sorted_routes_map p : list_to_map (merge_sort route_le (map_to_list (routes p))) = routes p.
Proof.
  rewrite (list_to_map_proper _ (map_to_list (routes p))); [apply list_to_map_to_list| |apply sorted_routes_perm].
  rewrite sorted_routes_perm. apply NoDup_fst_map_to_list.
Qed.

Lemma project_counts p : pool_wf P c p → count_projects c (fst <$> merge_sort route_le (map_to_list (routes p))) ∅ = Ok tt.
Proof.
  intros W. apply count_projects_run. intros k _. rewrite lookup_empty. change (default 0 None) with 0. pose proof (wf_projects _ _ _ W k) as Hk.
  unfold project_route_count in Hk. rewrite sorted_routes_perm, filter_fmap, length_fmap.
  erewrite list_filter_iff in Hk; [exact Hk|]. intros x. by rewrite same_project_key, bool_decide_eq_true.
Qed.

Lemma restored_authority_exact p :
  pool_wf P c p →
  restored_authority P (durable_authority P p) c = if pool_restorable p then Ok (routes p, exchange_routes p) else Err pool_corrupt.
Proof.
  intros W. unfold restored_authority. cbn [durable_authority authority_routes].
  assert (Hpre : Forall (λ x, partition_wf P c x.2 ∧ validate_route_key x.1 = Ok tt ∧
    ∀ id, is_Some (records x.2 !! id) → exchange_routes p !! id = Some x.1) (merge_sort route_le (map_to_list (routes p)))).
  { apply Forall_forall. intros [k part] Hk. rewrite sorted_routes_perm in Hk. apply elem_of_map_to_list in Hk.
    destruct (wf_routes _ _ _ W _ _ Hk). split_and!; [done..|]. intros id Hid. apply (wf_index _ _ _ W). by exists part. }
  assert (Hnd : NoDup (fst <$> merge_sort route_le (map_to_list (routes p)))).
  { rewrite sorted_routes_perm. apply NoDup_fst_map_to_list. }
  pose proof (restore_routes_run P c L B (exchange_routes p) _ ∅ ∅ Hpre Hnd (λ k _, lookup_empty k)) as H.
  specialize (H ltac:(intros id k; by rewrite lookup_empty)). rewrite restorable_routes, sorted_routes_map, (right_id_L ∅ (∪)) in H.
  destruct (pool_restorable p); [|by rewrite H]. destruct H as (index & -> & Hi).
  cbn [mbind result_bind fst]. rewrite project_counts by done. cbn [mbind result_bind]. do 2 f_equal. apply map_eq. intros id.
  apply option_eq. intros k. rewrite Hi, lookup_empty, (wf_index _ _ _ W). setoid_rewrite sorted_routes_perm.
  setoid_rewrite elem_of_map_to_list. naive_solver.
Qed.

(** What an exported pool restores to, in a pool that was just made. *)
Lemma restore_export p p0 bytes :
  pool_wf P c p → pool_new c = Ok p0 → export_authority P J p = Ok bytes →
  restore_authority P J bytes p0 = if pool_restorable p then (p, Ok tt) else (p0, Err pool_corrupt).
Proof.
  intros W H0 He. unfold export_authority in He. apply ok_or_Ok in He. pose proof (HJ _ _ He) as Hd.
  assert (p0 = {| config := c; routes := ∅; exchange_routes := ∅ |}) as ->.
  { unfold pool_new in H0. apply bind_Ok in H0 as (c' & Hc & [= <-]). f_equal.
    unfold validate_config in Hc. apply bind_Ok in Hc as (? & _ & Hc). apply bind_Ok in Hc as (? & _ & Hc). by injection Hc as <-. }
  unfold restore_authority. rewrite (attempt_with_run _ ()) by done.
  rewrite (attempt_bind_run _ (durable_authority P p)) by (by rewrite Hd). rewrite (attempt_bind_run _ bytes) by (by rewrite He).
  rewrite with_state_run. cbn [config]. rewrite attempt_run.
  2: { cbn [durable_authority authority_schema authority_config]. rewrite (wf_config _ _ _ W), !bool_decide_eq_true_2 by done. done. }
  rewrite restored_authority_exact by done. destruct (pool_restorable p).
  - rewrite (attempt_bind_run _ (routes p, exchange_routes p)) by done. cbn. f_equal. rewrite <-(wf_config _ _ _ W). by destruct p.
  - by rewrite (attempt_stop _ pool_corrupt) by done.
Qed.
End pools.
