(* ===== verification/PoolSafety.v ===== *)
(** * Model request pool: the theorems

    The limits of the pool, the order in which slots are handed on, what a client reads, that a
    paused stream can go on, and what survives a restart, each with an instance at a concrete
    pool. *)

From Stdlib Require Import Ascii String.
From S2P Require Import Prelude Text Ordered Transaction ModelPool PoolFacts PoolInvariant PoolMoves PoolRuns PoolStreams PoolRestore.
Local Open Scope Z_scope.

(** ** A concrete pool *)

Definition sample_config : ModelRequestPoolConfig :=
  {| max_routes := 2; max_active_per_route := 1; max_waiting_per_route := 2; max_exchange_records_per_route := 4;
     max_buffered_frames_per_stream := 2; max_buffered_bytes_per_stream := 16;
     resume_buffered_frames_per_stream := 1; resume_buffered_bytes_per_stream := 8 |}.

Definition sample_primitives : primitives :=
  {| sha256 := λ s, byte_val <$> bytes s; sha256_hex := λ s, s; base64_encode := λ s, s; base64_decode := λ s, Some s |}.

Definition sample_route : ModelRequestRouteKey :=
  {| provider := "acme"; model := "large"; credential_reference := "crd_1"; organization := "org_1"; workspace := "wsp_1";
     project := "prj_1"; repository := "rep_1" |}.

Definition sample_admission (n : string) : ModelRequestAdmission :=
  {| admission_route := sample_route; admission_exchange_id := "mdl_" +:+ n; admission_request_id := "req_" +:+ n |}.

Definition sample_pool : ModelRequestPool := {| config := sample_config; routes := ∅; exchange_routes := ∅ |}.

(** One exchange runs and fills its buffer, and two wait. *)
Definition sample_ops : list pool_op :=
  [Submit (sample_admission "a"); Submit (sample_admission "b"); Submit (sample_admission "c");
   PushFrames "mdl_a" [data_frame 1 "x"; data_frame 2 "yz"]].

Definition sample_run : ModelRequestPool * history := pool_run sample_primitives sample_ops (sample_pool, no_history).

Definition sample_record : ExchangeRecord :=
  {| exchange_id := "mdl_a"; request_id := "req_a"; state := Active; next_sequence := 3; acknowledged_sequence := 0;
     buffered_bytes := 3; provider_read_paused := true;
     frames := <[1 := data_frame 1 "x"]> {[2 := data_frame 2 "yz"]}; terminal_outcome := None; terminal_print := None |}.

Lemma sample_config_ok : config_ok sample_config.
Proof. constructor; [done| |done]. unfold in_u64, u64_max. cbn. lia. Qed.

Lemma sample_new : pool_new sample_config = Ok sample_pool.
Proof. done. Qed.

Lemma sample_run_eq : pool_run sample_primitives sample_ops (sample_pool, no_history) = (sample_run.1, sample_run.2).
Proof. apply surjective_pairing. Qed.

Lemma sample_record_of : record_of "mdl_a" sample_run.1 = Ok sample_record.
Proof. vm_compute. reflexivity. Qed.

(** ** Ending an active exchange *)

Section ending.
Context (P : primitives) (c : ModelRequestPoolConfig) (L : config_limits c).

Lemma cancel_run p id route part r :
  pool_wf P c p → located p id route part r → state r = Active →
  cancel id p =
  let '(part', g) := grant_next (set_record part id (terminated_record r OutcomeCancelled)) in
  (set_partition route part' p,
   Ok {| terminal_exchange_id := id; terminal_receipt_outcome := OutcomeCancelled; terminal_replayed := false; terminal_granted := g |}).
Proof.
  intros W Hl Ha. unfold cancel, terminate.
  assert (Hv : validate_prefixed_id id "mdl_" = Ok tt).
  { pose proof (located_route _ _ _ _ _ Hl) as Hr. unfold route_for in Hr. by apply bind_Ok in Hr as ([] & Hv & _). }
  rewrite Hv, attempt_run, (located_run _ _ _ _ _ _ Hl), Ha by done. cbn [terminal]. rewrite attempt_run by done.
  rewrite (bool_decide_eq_false_2 (Active = Queued)), (bool_decide_eq_true_2 (Active = Active)) by done.
  fold (set_record part id (terminated_record r OutcomeCancelled)). by destruct (grant_next _).
Qed.

(** The slot goes to another exchange, and the record of the one that ended stays. *)
Lemma ended_stays p id route part r o part' g :
  pool_wf P c p → located p id route part r → state r = Active →
  grant_next (set_record part id (terminated_record r o)) = (part', g) → records part' !! id = Some (terminated_record r o).
Proof.
  intros W Hl Ha Hg. destruct (located_wf _ _ _ _ _ _ _ W Hl) as [_ [Wr _]].
  destruct (terminated_record_fields r o) as (_ & _ & _ & _ & _ & _ & Es & _).
  assert (Q : queue_ok P c (set_record part id (terminated_record r o))).
  { eapply granted_queue; [done|by eauto| |rewrite Es; by destruct o].
    split; [apply core_terminated; [done..|by rewrite Ha]|apply pause_terminated]. }
  apply (grant_next_spec P c L) in Hg; [|done].
  destruct Hg as [(_ & -> & _)|(i & queue & x & _ & Hx & Hq & _ & ->)]; cbn [set_record records] in *; [apply lookup_insert_eq|].
  rewrite lookup_insert_ne; [apply lookup_insert_eq|]. intros ->. rewrite lookup_insert_eq in Hx. simplify_eq. rewrite Es in Hq. by destruct o.
Qed.
End ending.

Section theorems.
Context (P : primitives) (c : ModelRequestPoolConfig) (p0 : ModelRequestPool) (ops : list pool_op).
Context (p : ModelRequestPool) (h : history).
Context (Hc : config_ok c) (H0 : pool_new c = Ok p0) (Hrun : pool_run P ops (p0, no_history) = (p, h)).

Lemma reached : config_limits c ∧ pool_wf P c p ∧ fair p h ∧ kept p h.
Proof.
  pose proof (config_ok_limits c Hc) as L. split; [done|].
  pose proof (pool_run_ok P c L ops _ (new_run_ok P c L p0 H0)) as R. rewrite Hrun in R. destruct R. done.
Qed.

(** C14. A pool stays within its configuration over any run of submissions, writes,
    acknowledgements, terminations and cleanups: no route runs, queues or records more
    exchanges than allowed, no stream buffers more frames or bytes, and no project has more
    routes.  An exchange waits only while every slot of its route is taken, the queue holds
    exactly the queued exchanges, and no operation finds the indexes inconsistent. *)
Theorem pool_within_limits :
  (∀ route part, routes p !! route = Some part →
     active_count part ≤ max_active_per_route c ∧
     Z.of_nat (length (waiting part)) ≤ max_waiting_per_route c ∧
     Z.of_nat (size (records part)) ≤ max_exchange_records_per_route c ∧
     (waiting part ≠ [] → active_count part = max_active_per_route c) ∧
     (∀ id, id ∈ waiting part ↔ ∃ r, records part !! id = Some r ∧ state r = Queued) ∧
     ∀ id r, records part !! id = Some r →
       frame_count r ≤ max_buffered_frames_per_stream c ∧ buffered_bytes r ≤ max_buffered_bytes_per_stream c ∧
       buffered_bytes r = payload_sum (map_to_list (frames r))) ∧
  (∀ k, project_route_count p k ≤ max_routes c) ∧
  ∀ op, op_error P op p ≠ Some pool_corrupt.
Proof.
  destruct reached as (L & W & _). split_and!; [|apply W|intros op; by apply (step_moves P c L op p h W)].
  intros route part Hp. destruct (wf_routes _ _ _ W _ _ Hp) as [[Q _ Hr Hw Ha Hb] _].
  split_and!; [done..|apply (queue_states _ _ _ Q)|]. intros id r [Wr _]%(queue_records _ _ _ Q).
  split_and!; [apply Wr|apply Wr|apply (core_bytes _ _ _ _ Wr)].
Qed.

(** Slots are handed on first come, first served: over any run, the exchanges of a route
    that were granted a slot, followed by those that wait, stand in the order in which they
    joined the queue. *)
Theorem grants_in_order route :
  on route (granted h) ++ waiting_on p route `sublist_of` on route (joined h).
Proof. destruct reached as (_ & _ & F & _). apply F. Qed.

(** C24. A client reads the stream as it was written.  The frames taken for an exchange are
    numbered from 1, and reading after a frame returns the frames that follow it, in order
    and within the limits of the read, starting with the next one whenever that one fits;
    frames sent again or refused never appear twice or out of place. *)
Theorem stream_read_in_order id r :
  record_of id p = Ok r →
  ∃ stream, taken h !! id = Some stream ∧ sequence <$> stream = seqZ 1 (Z.of_nat (length stream)) ∧
    highest_sequence r = Z.of_nat (length stream) ∧
    (terminal_outcome r ≠ Some OutcomeCancelled → ∀ after max_frames max_bytes,
      acknowledged_sequence r ≤ after ≤ MAX_SAFE_INTEGER → 1 ≤ max_frames → 1 ≤ max_bytes < u64_max →
      ∃ n, read_buffered id after max_frames max_bytes p = Ok (take n (drop (Z.to_nat after) stream)) ∧
        Z.of_nat (length (take n (drop (Z.to_nat after) stream))) ≤ max_frames ∧
        foldr (λ f s, str_len (payload f) + s) 0 (take n (drop (Z.to_nat after) stream)) ≤ max_bytes ∧
        ∀ f, stream !! Z.to_nat after = Some f → str_len (payload f) ≤ max_bytes →
          head (take n (drop (Z.to_nat after) stream)) = Some f).
Proof.
  intros Hr. destruct reached as (L & W & _ & K). destruct (K id r (at_record_of _ _ _ Hr)) as (stream & Ht & S).
  assert (Wr : record_core P c id r).
  { destruct (found P c p id W) as [(e & He & _)|(route & part & x & Hl)]; [unfold record_of in Hr; by rewrite He in Hr|].
    rewrite (located_record_of _ _ _ _ _ Hl) in Hr. simplify_eq. by apply (located_wf _ _ _ _ _ _ _ W Hl). }
  pose proof (core_numbers _ _ _ _ Wr). pose proof (stream_length _ _ S).
  exists stream. split_and!; [done|apply S|unfold highest_sequence, saturating_sub; lia|].
  intros Hcan after max_frames max_bytes Ha Hf Hb. unfold read_buffered.
  rewrite refuse_run by (rewrite !orb_false_iff, !Z.eqb_neq, Z.ltb_ge; lia). rewrite Hr. cbn [mbind result_bind].
  pose proof (read_stream P c id r stream after Wr S Hcan Ha) as Hread.
  destruct (read_loop_prefix (filter (λ x, saturating_add_u64 after 1 ≤ x.1) (frame_values (frames r))) 0 0 max_frames max_bytes)
    as (n & Hn & Hlen & Hsum); [lia..|]. rewrite Hread in Hn. rewrite Hn in Hlen, Hsum |- *. exists n. split_and!; [done|lia|lia|].
  intros f Hf' Hfit. destruct (filter _ _) as [|x l]; cbn [fmap list_fmap] in Hread.
  - apply lookup_lt_Some in Hf'. apply (f_equal length) in Hread. rewrite length_drop in Hread. cbn in Hread. lia.
  - rewrite (drop_S _ f) in Hread by done. injection Hread as Hx _. subst f.
    destruct (read_loop_head x l max_frames max_bytes) as (rest & E); [lia..|]. rewrite <-Hn, E. done.
Qed.

(** A stream that is paused for lack of room can always go on: when the client acknowledges
    what was written, the provider is read again. *)
Theorem paused_stream_resumes id r :
  record_of id p = Ok r → read_control r = Paused →
  ∃ p' receipt, acknowledge id (highest_sequence r) p = (p', Ok receipt) ∧ ack_read_control receipt = Read ∧
    ack_buffered_frames receipt = 0.
Proof.
  intros Hr Hpaused. destruct reached as (L & W & _).
  destruct (found P c p id W) as [(e & He & _)|(route & part & x & Hl)]; [unfold record_of in Hr; by rewrite He in Hr|].
  rewrite (located_record_of _ _ _ _ _ Hl) in Hr. simplify_eq. destruct (located_wf _ _ _ _ _ _ _ W Hl) as [_ [Wr Hp]].
  unfold read_control in Hpaused. destruct (terminal (state r)) eqn:Ht; [done|]. destruct (provider_read_paused r) eqn:Hpause; [|done].
  destruct (Hp Hpause) as [Ha Hne]. pose proof (core_numbers _ _ _ _ Wr) as Hn.
  assert (Hbuf : acknowledged_sequence r + 1 < next_sequence r).
  { apply map_choose in Hne as (k & f & Hk). apply (core_buffered P c id r) in Hk as [_ ?]; [lia|done]. }
  assert (Hhigh : highest_sequence r = next_sequence r - 1) by (unfold highest_sequence, saturating_sub; lia).
  destruct (acknowledged_record_fields c r (highest_sequence r)) as (Ef & Eb & _ & _ & _ & _ & Es & _ & _ & Ep).
  assert (He : filter (λ x, highest_sequence r < x.1) (frames r) = ∅).
  { apply map_empty. intros k. apply map_lookup_filter_None_2. right. intros f Hk. cbn.
    apply (core_buffered P c id r) in Hk as [_ ?]; [lia|done]. }
  unfold acknowledge. rewrite attempt_run by (apply refuse_Ok, Z.ltb_ge; lia). rewrite with_state_run, (wf_config _ _ _ W), (located_run _ _ _ _ _ _ Hl).
  rewrite attempt_run by (apply refuse_Ok, Z.ltb_ge; lia). rewrite (proj2 (Z.leb_gt _ _)) by lia. rewrite modify_run.
  eexists _, _. split; [reflexivity|]. cbn [ack_receipt ack_read_control ack_buffered_frames]. unfold read_control, frame_count.
  rewrite Es, Ht, Ep, Ef, He. unfold frame_count. rewrite Ef, Eb, He, frame_sum_empty, map_size_empty. destruct L.
  rewrite !(proj2 (Z.leb_le _ _)) by lia. by rewrite andb_false_r.
Qed.

Section restart.
Context (J : json DurablePoolAuthority) (HB : base64_ok P) (HJ : json_ok J).

(** C33. A restart brings the pool back as it was, exactly when every exchange can be restored:
    its stream has numbers left and, when it has ended, either it was cancelled with nothing
    left to acknowledge or the frame that ended it is still buffered.  Otherwise the whole
    pool is refused, and the new one stays empty. *)
Theorem restore_exact bytes :
  export_authority P J p = Ok bytes →
  restore_authority P J bytes p0 = if pool_restorable p then (p, Ok tt) else (p0, Err pool_corrupt).
Proof. intros He. destruct reached as (L & W & _). by apply (restore_export P c L HB J HJ). Qed.

(** C35. Cancelling an exchange whose frames are not all acknowledged makes the pool impossible
    to restore: the cancellation clears the buffer and keeps the numbers, and a restart then
    refuses the exported pool, with every other exchange in it. *)
Theorem cancelled_pool_lost id r p' receipt bytes :
  record_of id p = Ok r → terminal (state r) = false → frames r ≠ ∅ → cancel id p = (p', Ok receipt) →
  export_authority P J p' = Ok bytes → restore_authority P J bytes p0 = (p0, Err pool_corrupt).
Proof.
  intros Hr Ht Hne Hcancel He. destruct reached as (L & W & _).
  assert (W' : pool_wf P c p').
  { destruct (terminate_moves P c p h id OutcomeCancelled p' _ W Hcancel) as [M _]. by eapply move_wf. }
  rewrite (restore_export P c L HB J HJ p' p0 bytes W' H0 He).
  enough (pool_restorable p' = false) as -> by done. apply not_true_iff_false. intros Hall.
  destruct (found P c p id W) as [(e & Herr & _)|(route & part & x & Hl)]; [unfold record_of in Hr; by rewrite Herr in Hr|].
  rewrite (located_record_of _ _ _ _ _ Hl) in Hr. simplify_eq. destruct (located_wf _ _ _ _ _ _ _ W Hl) as [Wp [Wr _]].
  apply map_choose in Hne as (k & f & Hk). destruct (core_buffered P c id r k f Wr Hk) as [_ Hspan].
  assert (Ha : state r = Active).
  { destruct (state r) eqn:Hs; try done. pose proof (core_queued _ _ _ _ Wr Hs). pose proof (core_numbers _ _ _ _ Wr). lia. }
  rewrite (cancel_run P c p id route part r W Hl Ha) in Hcancel. destruct (grant_next _) as [part' g] eqn:Hg. injection Hcancel as <- _.
  pose proof (ended_stays P c L p id route part r OutcomeCancelled part' g W Hl Ha Hg) as Hstay.
  unfold pool_restorable in Hall. rewrite forallb_forall in Hall.
  specialize (Hall (route, part')). rewrite <-list_elem_of_In, elem_of_map_to_list in Hall. cbn [set_partition routes] in Hall.
  specialize (Hall (lookup_insert_eq _ _ _)). cbn [snd] in Hall. unfold all_restorable in Hall. rewrite forallb_forall in Hall.
  specialize (Hall (id, terminated_record r OutcomeCancelled)). rewrite <-list_elem_of_In, elem_of_map_to_list in Hall.
  specialize (Hall Hstay). cbn [snd] in Hall. unfold restorable in Hall.
  destruct (terminated_record_fields r OutcomeCancelled) as (_ & _ & En & Ea & _ & _ & _ & Eo & _).
  rewrite En, Ea, Eo in Hall. split_bools. lia.
Qed.
End restart.
End theorems.

(** ** Instances *)

Definition sample_part : RoutePartition := default empty_partition (routes sample_run.1 !! sample_route).

Lemma sample_part_at : routes sample_run.1 !! sample_route = Some sample_part.
Proof. vm_compute. reflexivity. Qed.

Lemma pool_within_limits_witness :
  config_ok sample_config ∧ waiting sample_part = ["mdl_b"; "mdl_c"]%string ∧ active_count sample_part = 1 ∧
  op_error sample_primitives (Submit (sample_admission "d")) sample_run.1 ≠ Some pool_corrupt.
Proof.
  pose proof (pool_within_limits sample_primitives sample_config sample_pool sample_ops sample_run.1 sample_run.2
    sample_config_ok sample_new sample_run_eq) as (Hroutes & _ & Herr).
  destruct (Hroutes sample_route sample_part sample_part_at) as (_ & _ & _ & Hbusy & _).
  assert (Hw : waiting sample_part = ["mdl_b"; "mdl_c"]%string) by (vm_compute; reflexivity).
  split; [exact sample_config_ok|]. split; [exact Hw|]. split; [|apply Herr]. apply Hbusy. by rewrite Hw.
Defined.

(** The running exchange fails, and the first in the queue gets its slot. *)
Definition ended_ops : list pool_op := sample_ops ++ [Terminate "mdl_a" OutcomeFailed].

Definition ended_run : ModelRequestPool * history := pool_run sample_primitives ended_ops (sample_pool, no_history).

Lemma grants_in_order_witness :
  on sample_route (granted ended_run.2) = ["mdl_b"]%string ∧ waiting_on ended_run.1 sample_route = ["mdl_c"]%string ∧
  on sample_route (granted ended_run.2) ++ waiting_on ended_run.1 sample_route `sublist_of` on sample_route (joined ended_run.2).
Proof.
  split; [vm_compute; reflexivity|]. split; [vm_compute; reflexivity|].
  exact (grants_in_order sample_primitives sample_config sample_pool ended_ops ended_run.1 ended_run.2
    sample_config_ok sample_new (surjective_pairing _) sample_route).
Defined.

Lemma stream_read_in_order_witness :
  ∃ stream, taken sample_run.2 !! "mdl_a"%string = Some stream ∧ highest_sequence sample_record = Z.of_nat (length stream) ∧
  ∃ n, read_buffered "mdl_a" 1 5 100 sample_run.1 = Ok (take n (drop 1 stream)).
Proof.
  destruct (stream_read_in_order sample_primitives sample_config sample_pool sample_ops sample_run.1 sample_run.2
    sample_config_ok sample_new sample_run_eq "mdl_a" sample_record sample_record_of) as (stream & Ht & _ & Hh & Hread).
  exists stream. split; [exact Ht|]. split; [exact Hh|].
  assert (Hc : terminal_outcome sample_record ≠ Some OutcomeCancelled) by (cbn; discriminate).
  assert (Ha : acknowledged_sequence sample_record ≤ 1 ≤ MAX_SAFE_INTEGER) by (cbn; unfold MAX_SAFE_INTEGER, max_safe_integer; lia).
  assert (Hb : 1 ≤ 100 < u64_max) by (unfold u64_max; lia).
  destruct (Hread Hc 1 5 100 Ha ltac:(lia) Hb) as (n & Hn & _). exists n. exact Hn.
Defined.

Lemma paused_stream_resumes_witness :
  read_control sample_record = Paused ∧
  ∃ p' receipt, acknowledge "mdl_a" 2 sample_run.1 = (p', Ok receipt) ∧ ack_read_control receipt = Read ∧ ack_buffered_frames receipt = 0.
Proof.
  split; [reflexivity|].
  exact (paused_stream_resumes sample_primitives sample_config sample_pool sample_ops sample_run.1 sample_run.2
    sample_config_ok sample_new sample_run_eq "mdl_a" sample_record sample_record_of eq_refl).
Defined.

#[global] Instance DurablePoolFrame_eq_dec : EqDecision DurablePoolFrame.
Proof. solve_decision. Defined.
#[global] Instance DurablePoolExchange_eq_dec : EqDecision DurablePoolExchange.
Proof. solve_decision. Defined.
#[global] Instance DurablePoolRoute_eq_dec : EqDecision DurablePoolRoute.
Proof. solve_decision. Defined.
#[global] Instance DurablePoolAuthority_eq_dec : EqDecision DurablePoolAuthority.
Proof. solve_decision. Defined.

(** A codec of the values of a list: the text of a value is its place. *)
Definition sample_json (values : list DurablePoolAuthority) : json DurablePoolAuthority :=
  {| to_vec := λ d, (λ x, repeated x.1 "i"%char) <$> list_find (λ v, v = d) values;
     from_slice := λ s, values !! String.length s |}.

Lemma sample_json_ok values : json_ok (sample_json values).
Proof.
  intros d b. cbn [sample_json to_vec from_slice]. intros H. apply fmap_Some in H as ([i v] & Hi & ->). apply list_find_Some in Hi as (Hi & <- & _). cbn [fst].
  enough (String.length (repeated i "i") = i) as -> by done. clear. unfold repeated. induction i as [|i IH]; cbn; [done|by f_equal].
Qed.

Lemma sample_base64_ok : base64_ok sample_primitives.
Proof. by intros s. Qed.

Definition cancelled_pool : ModelRequestPool := (cancel "mdl_a" sample_run.1).1.

Definition sample_codec : json DurablePoolAuthority :=
  sample_json [durable_authority sample_primitives sample_run.1; durable_authority sample_primitives cancelled_pool].

Lemma restore_exact_witness :
  export_authority sample_primitives sample_codec sample_run.1 = Ok ""%string ∧ pool_restorable sample_run.1 = true ∧
  restore_authority sample_primitives sample_codec "" sample_pool = (sample_run.1, Ok tt).
Proof.
  assert (He : export_authority sample_primitives sample_codec sample_run.1 = Ok ""%string) by (vm_compute; reflexivity).
  assert (Hr : pool_restorable sample_run.1 = true) by (vm_compute; reflexivity).
  split; [exact He|]. split; [exact Hr|].
  pose proof (restore_exact sample_primitives sample_config sample_pool sample_ops sample_run.1 sample_run.2
    sample_config_ok sample_new sample_run_eq sample_codec sample_base64_ok (sample_json_ok _) "" He) as H.
  rewrite Hr in H. exact H.
Defined.

Lemma cancelled_pool_lost_witness :
  export_authority sample_primitives sample_codec cancelled_pool = Ok "i"%string ∧
  restore_authority sample_primitives sample_codec "i" sample_pool = (sample_pool, Err pool_corrupt).
Proof.
  assert (He : export_authority sample_primitives sample_codec cancelled_pool = Ok "i"%string) by (vm_compute; reflexivity).
  split; [exact He|].
  refine (cancelled_pool_lost sample_primitives sample_config sample_pool sample_ops sample_run.1 sample_run.2
    sample_config_ok sample_new sample_run_eq sample_codec sample_base64_ok (sample_json_ok _) "mdl_a" sample_record cancelled_pool
    {| terminal_exchange_id := "mdl_a"; terminal_receipt_outcome := OutcomeCancelled; terminal_replayed := false;
       terminal_granted := Some "mdl_b"%string |} "i" sample_record_of eq_refl _ _ He).
  - vm_compute. discriminate.
  - rewrite (surjective_pairing (cancel "mdl_a" sample_run.1)). by f_equal.
Defined.

(** ** Restoring a single exchange

    [restore_exchange], which no other code calls, overwrites the record that it has just
    submitted.  A queued exchange that is restored while a slot is free is then queued without
    being in the queue, and no operation starts it. *)

Definition exchange_codec (d : DurablePoolExchange) : json DurablePoolExchange :=
  {| to_vec := λ d', if decide (d' = d) then Some "d"%string else None; from_slice := λ _, Some d |}.

Definition restored_queued : ModelRequestPool :=
  (restore_exchange sample_primitives
    (exchange_codec (durable_pool_exchange sample_primitives sample_route (record_new (sample_admission "b") Queued)))
    (sample_admission "b") "d" sample_pool).1.

Lemma restored_exchange_stuck :
  state <$> at_record restored_queued "mdl_b" = Some Queued ∧ waiting_on restored_queued sample_route = [].
Proof. split; vm_compute; reflexivity. Qed.
