(* ===== verification/PublicationStore.v ===== *)
(** * Publications in the state store

    Models [crates/winwincode-storage/src/publication.rs]: the adapter through which the
    publication ledger of [Publication] uses the SQLite storage of [StateStore].  The file
    discharges the ledger's storage contract, so that the theorems on publications hold over
    the database that other parts of the control plane share. *)

From Stdlib Require Import Ascii String.
From S2P Require Import Prelude Text Numerals Transaction PublicationFacts Publication PublicationLedger.
From S2P Require StateKeys StateStore StateFacts StateInvariant StateRuns Frame.
Local Open Scope Z_scope.

(** ** The adapter *)

Definition publication_error_kind (e : StateKeys.StorageError) : PublicationStorageErrorKind :=
  match StateKeys.kind e with
  | StateKeys.InvalidInput => StorageInvalidInput
  | StateKeys.RevisionConflict => StorageRevisionConflict
  | StateKeys.RequestConflict => StorageRequestConflict
  | StateKeys.RequestReplayMissing => StorageRequestReplayMissing
  | StateKeys.JournalAlreadyExists => StorageAlreadyExists
  | StateKeys.JournalNotFound => StorageNotFound
  | StateKeys.JournalConflict => StorageJournalConflict
  | StateKeys.EventCursorExpired | StateKeys.Adapter => StorageAdapter
  | StateKeys.Closed => StorageClosed
  end.

Definition publication_receipt_identity (i : StateKeys.ReceiptIdentity) : stored PublicationReceiptIdentity :=
  receipt_identity_try_new (StateKeys.actor_key i) (StateKeys.scope_key i) (StateKeys.request_id i).

Definition storage_identity (i : PublicationReceiptIdentity) : stored StateKeys.ReceiptIdentity :=
  actor ← map_err publication_error_kind (StateKeys.from_encoded (actor_key i));
  scope ← map_err publication_error_kind (StateKeys.from_encoded (scope_key i));
  map_err publication_error_kind (StateKeys.receipt_identity actor scope (request_id i)).

Definition stream_id (publication_id : string) : string := "publication:" +:+ publication_id.

Definition journal_key (publication_id : string) : stored StateStore.AggregateJournalKey :=
  map_err publication_error_kind (StateStore.journal_key_new PUBLICATION_AGGREGATE_TYPE publication_id).

Definition publication_event (e : StateStore.OutboxEvent) : PublicationStorageEvent :=
  {| event_id := StateStore.event_id e; topic := StateStore.topic e; event_payload := StateStore.payload e |}.

Definition publication_receipt (r : StateStore.CommitReceipt) (expected_id : string) :
    stored PublicationStorageReceipt :=
  refuse (bool_decide (StateStore.committed_stream_id r ≠ stream_id expected_id)) StorageAdapter ;;
  Ok {| receipt_publication_id := expected_id; receipt_revision := StateStore.committed_revision r;
        receipt_events := publication_event <$> StateStore.committed_events r |}.

Definition to_record (r : PublicationJournalRecord) : StateStore.AggregateJournalRecord :=
  {| StateStore.record_sequence := record_sequence r; StateStore.record_digest := record_digest r;
     StateStore.record_payload := record_payload r |}.

Definition of_record (r : StateStore.AggregateJournalRecord) : PublicationJournalRecord :=
  {| record_sequence := StateStore.record_sequence r; record_digest := StateStore.record_digest r;
     record_payload := StateStore.record_payload r |}.

Lemma strip_stream i : strip_prefix "publication:" (stream_id i) = Some i.
Proof. by apply strip_prefix_Some. Qed.

Section adapter.
Context (codec : StateStore.EventCodec).

Definition adapter_load_receipt (s : StateStore.SqliteStorage) (i : PublicationReceiptIdentity)
    (digest : string) : stored (option PublicationStorageReceipt) :=
  i ← storage_identity i;
  receipt ← map_err publication_error_kind (StateStore.load_receipt codec (StateStore.database s) i digest);
  match receipt with
  | Some receipt =>
      publication_id ← ok_or
        (publication_id ← strip_prefix "publication:" (StateStore.committed_stream_id receipt);
         if negb (bool_decide (publication_id = ""%string)) &&
            negb (existsb (Ascii.eqb ":") (bytes publication_id))
         then Some publication_id else None) StorageAdapter;
      receipt ← publication_receipt receipt publication_id;
      Ok (Some receipt)
  | None => Ok None
  end.

Definition adapter_load_state (s : StateStore.SqliteStorage) (publication_id : string) :
    stored (option PublicationStoredState) :=
  st ← map_err publication_error_kind
         (StateStore.load_state_from_connection (StateStore.database s) (stream_id publication_id));
  match st with
  | Some st =>
      refuse (bool_decide (StateStore.stored_stream_id st ≠ stream_id publication_id)) StorageAdapter ;;
      Ok (Some {| stored_revision := StateStore.stored_revision st;
                  stored_payload := StateStore.stored_payload st |})
  | None => Ok None
  end.

Definition adapter_load_journal (s : StateStore.SqliteStorage) (publication_id : string) :
    stored (option PublicationStoredJournal) :=
  key ← journal_key publication_id;
  journal ← map_err publication_error_kind (StateStore.load_aggregate_journal (StateStore.database s) key);
  Ok match journal with
     | Some j => Some {| journal_manifest := StateStore.manifest j;
                         journal_records := of_record <$> StateStore.records j |}
     | None => None
     end.

(** The state commit of a publication's commit. *)
Definition adapter_state_commit (k : PublicationStorageCommit) : stored StateStore.StateCommit :=
  journal ←
    match commit_journal k with
    | Create manifest first_record =>
        key ← journal_key (commit_publication_id k);
        Ok (StateStore.Create key manifest (to_record first_record))
    | Append tail_sequence tail_digest record =>
        key ← journal_key (commit_publication_id k);
        Ok (StateStore.Append key tail_sequence tail_digest (to_record record))
    end;
  i ← storage_identity (commit_identity k);
  let e := commit_event k in
  Ok (StateStore.with_journal_publication
        (StateStore.state_commit i (command_digest k) (stream_id (commit_publication_id k))
           (commit_expected_revision k) (commit_state k)
           [StateStore.internal (event_id e) (topic e) (event_payload e)]) journal).

Definition adapter_commit (s : StateStore.SqliteStorage) (k : PublicationStorageCommit) :
    StateStore.SqliteStorage * stored PublicationStorageReceipt :=
  match adapter_state_commit k with
  | Ok c =>
      let '(s, r) := StateStore.sqlite_commit codec s c in
      (s, receipt ← map_err publication_error_kind r; publication_receipt receipt (commit_publication_id k))
  | Err e => (s, Err e)
  end.
End adapter.

(** The read-only adapter. *)
Definition read_adapter_commit (s : StateStore.SqliteStorage) (k : PublicationStorageCommit) :
    StateStore.SqliteStorage * stored PublicationStorageReceipt := (s, Err StorageClosed).

(** ** The contents *)

(** A map under new keys: [f] gives a key its new name, or drops it. *)
Section rekey.
Context {K K' V : Type} `{Countable K, Countable K'} (f : K → option K').

Definition rekey (m : gmap K V) : gmap K' V :=
  list_to_map (omap (λ '(k, v), (λ k', (k', v)) <$> f k) (map_to_list m)).

Lemma lookup_rekey (g : K' → K) m k' : (∀ k k', f k = Some k' ↔ k = g k') → rekey m !! k' = m !! g k'.
Proof.
  intros Hfg. unfold rekey.
  assert (∀ k v, (k, v) ∈ omap (λ '(k, v), (λ k', (k', v)) <$> f k) (map_to_list m) ↔ m !! g k = Some v) as Hin.
  { intros k v. rewrite list_elem_of_omap. split.
    - intros ([k0 v0] & Hkv & (k1 & Hk1 & [= -> ->])%fmap_Some). apply elem_of_map_to_list in Hkv.
      apply Hfg in Hk1. by subst.
    - intros Hk. exists (g k, v). split; [by apply elem_of_map_to_list|]. by rewrite (proj2 (Hfg _ _) eq_refl). }
  destruct (m !! g k') as [v|] eqn:E.
  - apply elem_of_list_to_map_1'; [|by apply Hin]. intros v' Hv'%Hin. congruence.
  - apply not_elem_of_list_to_map_1. intros ([k v] & -> & Hk)%list_elem_of_fmap. apply Hin in Hk. simpl in E. congruence.
Qed.
End rekey.

Definition of_identity (i : StateKeys.ReceiptIdentity) : PublicationReceiptIdentity :=
  {| actor_key := StateKeys.actor_key i; scope_key := StateKeys.scope_key i; request_id := StateKeys.request_id i |}.

Definition to_identity (i : PublicationReceiptIdentity) : StateKeys.ReceiptIdentity :=
  {| StateKeys.actor_key := actor_key i; StateKeys.scope_key := scope_key i; StateKeys.request_id := request_id i |}.

Definition to_key (i : string) : StateStore.AggregateJournalKey :=
  {| StateStore.aggregate_type := PUBLICATION_AGGREGATE_TYPE; StateStore.aggregate_id := i |}.

Definition of_key (k : StateStore.AggregateJournalKey) : option string :=
  if bool_decide (StateStore.aggregate_type k = PUBLICATION_AGGREGATE_TYPE)
  then Some (StateStore.aggregate_id k) else None.

Section contents.
Context (codec : StateStore.EventCodec).

(** The rows of the database that belong to publications. *)
Definition publication_state (r : StateStore.StateRow) : PublicationStoredState :=
  {| stored_revision := StateStore.state_revision r; stored_payload := StateStore.state_payload r |}.

Definition publication_journal (db : StateStore.Database) (i : string) (m : payload_bytes) :
    option PublicationStoredJournal :=
  Some {| journal_manifest := m;
          journal_records := of_record ∘ StateRuns.journal_record <$> StateFacts.records_of db (to_key i) |}.

Definition publication_row (db : StateStore.Database) (i : PublicationReceiptIdentity) (r : StateStore.ReceiptRow) :
    option (string * PublicationStorageReceipt) :=
  publication_id ← strip_prefix "publication:" (StateStore.receipt_stream_id r);
  match StateStore.receipt_events codec db (to_identity i) with
  | Ok evs => Some (StateStore.receipt_digest r,
                    {| receipt_publication_id := publication_id;
                       receipt_revision := StateStore.receipt_revision r;
                       receipt_events := publication_event <$> evs |})
  | Err _ => None
  end.

Definition database_contents (db : StateStore.Database) : Contents :=
  {| states := publication_state <$> rekey (strip_prefix "publication:") (StateStore.product_state db);
     journals := map_imap (publication_journal db) (rekey of_key (StateStore.aggregate_journals db));
     receipts := map_imap (publication_row db) (rekey (Some ∘ of_identity) (StateStore.command_receipts db)) |}.

Lemma contents_states db i :
  states (database_contents db) !! i = publication_state <$> StateStore.product_state db !! stream_id i.
Proof.
  cbn [database_contents states]. rewrite lookup_fmap, (lookup_rekey _ stream_id); [done|]. intros k k'. apply strip_prefix_Some.
Qed.

Lemma contents_journals db i :
  journals (database_contents db) !! i = StateStore.aggregate_journals db !! to_key i ≫= publication_journal db i.
Proof.
  cbn [database_contents journals]. rewrite map_lookup_imap, (lookup_rekey _ to_key); [done|]. intros [t k] k'. unfold of_key, to_key. simpl.
  case_bool_decide; naive_solver.
Qed.

Lemma contents_receipts db i :
  receipts (database_contents db) !! i = StateStore.command_receipts db !! to_identity i ≫= publication_row db i.
Proof.
  cbn [database_contents receipts]. rewrite map_lookup_imap, (lookup_rekey _ to_identity); [done|]. intros [] []. unfold of_identity, to_identity. simpl.
  naive_solver.
Qed.
End contents.

(** ** The storage contract *)


Section laws.
Context (codec : StateStore.EventCodec) {codec_ok : StateFacts.event_codec_ok codec}.

Lemma storage_identity_Ok i j : storage_identity i = Ok j → j = to_identity i.
Proof.
  unfold storage_identity, StateKeys.from_encoded, StateKeys.receipt_identity. intros H. by inv_result.
Qed.

Lemma journal_key_Ok i key : journal_key i = Ok key → key = to_key i.
Proof. unfold journal_key, StateStore.journal_key_new. intros H. by inv_result. Qed.

(** The journal mutation as the store sees it. *)
Definition to_publication (k : PublicationStorageCommit) : StateStore.AggregateJournalPublication :=
  match commit_journal k with
  | Create manifest first_record =>
      StateStore.Create (to_key (commit_publication_id k)) manifest (to_record first_record)
  | Append tail_sequence tail_digest record =>
      StateStore.Append (to_key (commit_publication_id k)) tail_sequence tail_digest (to_record record)
  end.

Definition to_event (k : PublicationStorageCommit) : StateStore.NewOutboxEvent :=
  StateStore.internal (event_id (commit_event k)) (topic (commit_event k)) (event_payload (commit_event k)).

Definition to_commit (k : PublicationStorageCommit) : StateStore.StateCommit :=
  StateStore.with_journal_publication
    (StateStore.state_commit (to_identity (commit_identity k)) (command_digest k)
       (stream_id (commit_publication_id k)) (commit_expected_revision k) (commit_state k) [to_event k])
    (to_publication k).

Lemma adapter_state_commit_Ok k c : adapter_state_commit k = Ok c → c = to_commit k.
Proof.
  unfold adapter_state_commit, to_commit, to_publication. intros H.
  destruct (commit_journal k); inv_result;
    repeat match goal with
    | H : journal_key _ = _ |- _ => apply journal_key_Ok in H as ->
    | H : storage_identity _ = _ |- _ => apply storage_identity_Ok in H as ->
    end; done.
Qed.

Lemma to_commit_writes k :
  StateFacts.writes (to_commit k) =
  [(stream_id (commit_publication_id k), commit_expected_revision k, commit_state k)].
Proof. done. Qed.

(** What a new commit of a publication does to its tables. *)
Section fresh.
Context (k : PublicationStorageCommit) (db db' : StateStore.Database) (r : StateStore.CommitReceipt).
Context (Hwf : StateInvariant.store_wf codec db) (Hv : StateFacts.commit_valid (to_commit k)).
Context (Hf : StateFacts.fresh_commit codec (to_commit k) db db' r).

Let effect : StateRuns.step_effect codec db db' [to_commit k] := StateRuns.effect_commit _ _ _ _ _ Hv Hf.

Lemma fresh_states :
  states (database_contents codec db') =
  <[commit_publication_id k := {| stored_revision := commit_expected_revision k + 1;
                                  stored_payload := commit_state k |}]> (states (database_contents codec db)) ∧
  default 0 (stored_revision <$> states (database_contents codec db) !! commit_publication_id k) =
    commit_expected_revision k.
Proof.
  split.
  - apply map_eq. intros i. rewrite contents_states, (StateFacts.fc_states _ _ _ _ _ Hf), to_commit_writes.
    cbn [foldl]. unfold StateFacts.write_state. cbn [fst snd]. destruct (decide (i = commit_publication_id k)) as [->|Hne].
    + by rewrite !lookup_insert_eq.
    + rewrite !lookup_insert_ne, contents_states; [done|congruence|]. intros Heq. apply Hne.
      unfold stream_id in Heq. by apply (inj _) in Heq.
  - rewrite contents_states. destruct (StateFacts.fc_expected _ _ _ _ _ Hf) as [He _].
    unfold StateFacts.revision_of in He. change (default 0 (StateStore.state_revision <$>
      StateStore.product_state db !! stream_id (commit_publication_id k)) = commit_expected_revision k) in He. rewrite <-He.
    by destruct (StateStore.product_state db !! _).
Qed.

Lemma fresh_journals :
  ∃ j, journal_after k (journals (database_contents codec db) !! commit_publication_id k) = Some j ∧
    journals (database_contents codec db') = <[commit_publication_id k := j]> (journals (database_contents codec db)).
Proof.
  pose proof (StateFacts.fc_journals _ _ _ _ _ Hf) as Hj. simpl in Hj. destruct Hj as (Hfit & Ej & Er).
  assert (StateFacts.publication_key (to_publication k) = to_key (commit_publication_id k)) as Hkey
    by (unfold to_publication; by destruct (commit_journal k)).
  rewrite Hkey in Er. pose proof (StateInvariant.sw_journals _ _ Hwf (to_key (commit_publication_id k))) as [_ Hempty].
  assert (∀ i, journals (database_contents codec db') !! i =
    if decide (i = commit_publication_id k)
    then journal_after k (journals (database_contents codec db) !! i)
    else journals (database_contents codec db) !! i) as Hall.
  { intros i. rewrite !contents_journals, Ej. unfold publication_journal.
    rewrite (StateInvariant.records_snoc _ _ _ _ _ Er). destruct (decide (i = _)) as [->|Hne].
    - rewrite decide_True by done. unfold journal_after, to_publication in *.
      destruct (commit_journal k) as [m first|n digest record]; simpl in *.
      + rewrite lookup_insert_eq, Hfit. simpl. rewrite (proj2 Hempty Hfit). simpl. unfold of_record, to_record. by destruct first.
      + destruct Hfit as ([m Hm] & tail & Htail & Hn & Hd). rewrite Hm. simpl.
        rewrite StateInvariant.journal_rows_records in Htail by apply (StateInvariant.sw_journals _ _ Hwf).
        rewrite fmap_last, Htail. simpl. rewrite (proj2 (Z.eqb_eq _ _)), bool_decide_eq_true_2 by done. simpl.
        rewrite fmap_app. simpl. unfold of_record, to_record. by destruct record.
    - rewrite decide_False, app_nil_r by (intros [= ?]; done).
      unfold to_publication. destruct (commit_journal k); simpl; [|done].
      rewrite lookup_insert_ne; [done|]. intros [= ?]. done. }
  destruct (journal_after k (journals (database_contents codec db) !! commit_publication_id k)) as [j|] eqn:Ea.
  - exists j. split; [done|]. apply map_eq. intros i. rewrite Hall. destruct (decide _) as [->|Hne].
    + by rewrite lookup_insert_eq.
    + by rewrite lookup_insert_ne.
  - exfalso. specialize (Hall (commit_publication_id k)). rewrite decide_True in Hall by done.
    rewrite Ea, contents_journals, Ej in Hall. unfold to_publication in *.
    destruct (commit_journal k) as [m first|n digest record]; simpl in *.
    + by rewrite lookup_insert_eq in Hall.
    + destruct Hfit as [[m Hm] _]. by rewrite Hm in Hall.
Qed.

(** The one event of the commit, read back. *)
Lemma fresh_event :
  ∃ n, StateStore.receipt_events codec db' (to_identity (commit_identity k)) =
    Ok [StateInvariant.committed_event (to_commit k) (to_event k) None n].
Proof.
  destruct (StateFacts.fc_outbox _ _ _ _ _ Hf) as (db0 & rs & E1 & E2 & _ & Hev).
  destruct (StateFacts.events_appended_frame _ _ _ _ _ _ Hev) as (Hdb' & _ & _).
  change (StateStore.events (to_commit k)) with [to_event k] in Hev. inversion Hev as [|e es ? db1 ? row rs' Hrow Hrest]; subst.
  inversion Hrest; subst. destruct Hrow as [(json & Hjson & ->) Hpos _ _].
  exists (StateStore.outbox_autoincrement db0 + 1). unfold StateStore.receipt_events, StateStore.receipt_rows.
  rewrite Hdb'. cbn [StateStore.set_stream_heads StateStore.set_outbox StateStore.outbox].
  rewrite E1, filter_app, filter_none; [|].
  - rewrite filter_cons_True, filter_nil by done. cbn [app mapM].
    rewrite (StateInvariant.read_event_row codec codec_ok (to_commit k) (to_event k) db0); [done| |done| |done].
    + pose proof (StateFacts.cv_events _ Hv) as Hev'. by apply Forall_cons in Hev' as [? _].
    + rewrite E2. pose proof (StateInvariant.ow_start _ _ (StateInvariant.sw_outbox _ _ Hwf)). lia.
  - eapply Forall_impl; [exact (StateInvariant.sw_owned _ _ Hwf)|]. intros x Hx Heq. simpl in *.
    rewrite Heq in Hx. pose proof (StateFacts.fc_prior _ _ _ _ _ Hf) as Hp.
    change (StateStore.command_receipts db !! to_identity (commit_identity k) = None) in Hp. rewrite Hp in Hx. by destruct Hx.
Qed.

Lemma fresh_receipts :
  receipts (database_contents codec db') =
  <[commit_identity k := (command_digest k, receipt_of k)]> (receipts (database_contents codec db)) ∧
  publication_receipt r (commit_publication_id k) = Ok (receipt_of k).
Proof.
  destruct fresh_event as [n Hn].
  assert (publication_event (StateInvariant.committed_event (to_commit k) (to_event k) None n) = commit_event k) as He
    by (unfold publication_event; simpl; by destruct (commit_event k)).
  split.
  - apply map_eq. intros i. rewrite contents_receipts, (StateFacts.fc_receipts _ _ _ _ _ Hf).
    change (StateStore.commit_identity (to_commit k)) with (to_identity (commit_identity k)).
    destruct (decide (i = commit_identity k)) as [->|Hne].
    + rewrite !lookup_insert_eq. cbn [mbind option_bind]. unfold publication_row. cbn [StateStore.receipt_stream_id].
      change (StateStore.commit_stream_id (to_commit k)) with (stream_id (commit_publication_id k)).
      rewrite strip_stream. cbn [mbind option_bind].
      rewrite Hn. unfold receipt_of. cbn [fmap list_fmap]. by rewrite He.
    + rewrite !lookup_insert_ne, contents_receipts by (done || (intros Heq; apply Hne; destruct i, (commit_identity k); by injection Heq as -> -> ->)).
      destruct (StateStore.command_receipts db !! to_identity i) as [row|] eqn:Er; [|done]. cbn [mbind option_bind].
      destruct (StateRuns.step_receipt _ _ _ _ _ _ Er effect) as (_ & Hev & _). unfold publication_row. by rewrite Hev.
  - destruct (StateFacts.fc_receipt _ _ _ _ _ Hf) as (evs & Hevs & ->).
    change (StateStore.commit_identity (to_commit k)) with (to_identity (commit_identity k)) in Hevs.
    rewrite Hn in Hevs. injection Hevs as <-. unfold publication_receipt. cbn [StateStore.committed_stream_id].
    rewrite differs_refl. cbn [refuse mbind result_bind]. unfold receipt_of.
    cbn [StateStore.committed_events StateStore.committed_revision fmap list_fmap]. by rewrite He.
Qed.

Lemma fresh_committed :
  committed (database_contents codec db) k = Some (database_contents codec db').
Proof.
  destruct fresh_states as [Es He], fresh_journals as (j & Ea & Ej), fresh_receipts as [Er _].
  unfold committed. rewrite He, Z.eqb_refl, Ea, <-Es, <-Ej, <-Er. by destruct (database_contents codec db').
Qed.
End fresh.

(** The ledger's storage: the adapter over a database whose tables are well formed. *)
Record PublicationStorageAdapter : Type := {
  storage : StateStore.SqliteStorage;
  storage_wf : StateInvariant.store_wf codec (StateStore.database storage)
}.

Lemma adapter_commit_wf s k :
  StateInvariant.store_wf codec (StateStore.database s) →
  StateInvariant.store_wf codec (StateStore.database (adapter_commit codec s k).1).
Proof.
  intros Hs. unfold adapter_commit. destruct (adapter_state_commit k) as [c|]; [|done].
  pose proof (StateRuns.store_step_effect codec s (StateRuns.Commit c)) as [He _]. simpl in He.
  destruct (StateStore.sqlite_commit codec s c) as [s' r]. by eapply StateRuns.step_wf.
Qed.

#[global] Instance adapter_storage : PublicationStorage PublicationStorageAdapter := {
  load_receipt s := adapter_load_receipt codec (storage s);
  load_state s := adapter_load_state (storage s);
  load_journal s := adapter_load_journal (storage s);
  storage_commit s k :=
    ({| storage := (adapter_commit codec (storage s) k).1; storage_wf := adapter_commit_wf _ k (storage_wf s) |},
     (adapter_commit codec (storage s) k).2)
}.

Lemma adapter_reads_state s i o :
  adapter_load_state s i = Ok o → o = states (database_contents codec (StateStore.database s)) !! i.
Proof.
  rewrite contents_states. unfold adapter_load_state, StateStore.load_state_from_connection, StateStore.read_state.
  intros H. destruct (StateStore.product_state (StateStore.database s) !! stream_id i) as [row|]; cbn [map_err mbind result_bind] in H.
  - inv_result. unfold StateStore.to_u64 in *. inv_result. cbn in *. by inv_result.
  - by inv_result.
Qed.

Lemma adapter_reads_journal s i o :
  StateInvariant.store_wf codec (StateStore.database s) →
  adapter_load_journal s i = Ok o → o = journals (database_contents codec (StateStore.database s)) !! i.
Proof.
  rewrite contents_journals. unfold adapter_load_journal. intros Hwf H. inv_result.
  match goal with H : journal_key _ = _ |- _ => apply journal_key_Ok in H as -> end.
  match goal with H : StateStore.load_aggregate_journal _ _ = _ |- _ =>
    rewrite (StateRuns.load_journal_records codec) in H by done; injection H as <- end.
  destruct (StateStore.aggregate_journals _ !! _) as [m|]; [|done]. cbn. by rewrite <-list_fmap_compose.
Qed.

Lemma stored_receipt_row db i digest prior r publication_id :
  StateStore.replay_stored_receipt codec db (to_identity i) digest prior = Ok r →
  StateStore.committed_stream_id r = stream_id publication_id →
  ∃ receipt, publication_receipt r publication_id = Ok receipt ∧
    publication_row codec db i prior = Some (digest, receipt).
Proof.
  unfold StateStore.replay_stored_receipt. intros H Hid. inv_result. split_bools. unfold StateStore.to_u64 in *. inv_result.
  unfold publication_receipt, publication_row. cbn [StateStore.committed_stream_id] in *. rewrite Hid, differs_refl.
  cbn [refuse mbind result_bind option_bind]. eexists. split; [done|].
  rewrite strip_stream. cbn [mbind option_bind].
  match goal with H : StateStore.receipt_events _ _ _ = _ |- _ => by rewrite H end.
Qed.

Lemma publication_receipt_Ok r i receipt :
  publication_receipt r i = Ok receipt → StateStore.committed_stream_id r = stream_id i.
Proof. unfold publication_receipt. intros H. inv_result. by split_bools. Qed.

Lemma adapter_reads_receipt s i digest r :
  adapter_load_receipt codec s i digest = Ok (Some r) →
  receipts (database_contents codec (StateStore.database s)) !! i = Some (digest, r).
Proof.
  rewrite contents_receipts. unfold adapter_load_receipt, StateStore.load_receipt. intros H. inv_result.
  match goal with H : storage_identity _ = _ |- _ => apply storage_identity_Ok in H as -> end.
  match goal with o : option StateStore.CommitReceipt |- _ => destruct o as [receipt|]; [|by inv_result] end. inv_result.
  match goal with H : publication_receipt _ _ = _ |- _ => pose proof (publication_receipt_Ok _ _ _ H) as Hid end.
  destruct (StateStore.prior_receipt _ _) as [prior|] eqn:Ep; [|done]. inv_result.
  match goal with H : StateStore.replay_stored_receipt _ _ _ _ _ = _ |- _ =>
    destruct (stored_receipt_row _ _ _ _ _ _ H Hid) as (receipt' & Hr & Hrow) end.
  unfold StateStore.prior_receipt in Ep. rewrite Ep. cbn [mbind option_bind]. congruence.
Qed.

Lemma adapter_commit_done s k s' r :
  StateInvariant.store_wf codec (StateStore.database s) → adapter_commit codec s k = (s', Ok r) →
  receipts (database_contents codec (StateStore.database s)) !! commit_identity k = Some (command_digest k, r) ∧
    s' = s ∨
  committed (database_contents codec (StateStore.database s)) k = Some (database_contents codec (StateStore.database s')) ∧
    r = receipt_of k.
Proof.
  intros Hwf. unfold adapter_commit. destruct (adapter_state_commit k) as [c|] eqn:Ec; [|done].
  apply adapter_state_commit_Ok in Ec as ->. destruct (StateStore.sqlite_commit codec s (to_commit k)) as [s1 [receipt|e]] eqn:Es; [|done].
  intros [= -> Hr]. cbn [map_err mbind result_bind] in Hr. pose proof (publication_receipt_Ok _ _ _ Hr) as Hid.
  apply StateRuns.sqlite_commit_Ok in Es as (Hv & _ & [(prior & Hp & Hrep & ->)|[Hf _]]).
  - left. split; [|done]. unfold StateStore.replay_receipt in Hrep. inv_result.
    change (StateStore.commit_identity (to_commit k)) with (to_identity (commit_identity k)) in *.
    destruct (stored_receipt_row _ _ _ _ _ _ Hrep Hid) as (receipt' & Hr' & Hrow).
    rewrite contents_receipts. unfold StateStore.prior_receipt in Hp. rewrite Hp. cbn [mbind option_bind].
    rewrite Hrow. cbn in *. congruence.
  - right. split; [by eapply fresh_committed|]. destruct (fresh_receipts _ _ _ _ Hwf Hv Hf) as [_ Hr']. congruence.
Qed.

Lemma adapter_commit_failed s k s' e :
  StateInvariant.store_wf codec (StateStore.database s) → adapter_commit codec s k = (s', Err e) → s' = s.
Proof.
  intros Hwf. unfold adapter_commit. destruct (adapter_state_commit k) as [c|] eqn:Ec; [|by intros [= <- _]].
  apply adapter_state_commit_Ok in Ec as ->. destruct (StateStore.sqlite_commit codec s (to_commit k)) as [s1 [receipt|e1]] eqn:Es.
  - intros [= -> Hr]. cbn [map_err mbind result_bind] in Hr.
    apply StateRuns.sqlite_commit_Ok in Es as (Hv & _ & [(prior & Hp & Hrep & ->)|[Hf _]]); [done|].
    destruct (fresh_receipts _ _ _ _ Hwf Hv Hf) as [_ Hr']. congruence.
  - intros [= -> _]. by apply StateRuns.sqlite_commit_Err in Es.
Qed.

(** The SQLite storage keeps the contract of the ledger. *)
#[global] Instance adapter_laws : PublicationStorageLaws PublicationStorageAdapter.
Proof.
  refine {| contents := λ s, database_contents codec (StateStore.database (storage s)) |}.
  - intros s i o. apply adapter_reads_state.
  - intros s i o. apply adapter_reads_journal, storage_wf.
  - intros s i d r. apply adapter_reads_receipt.
  - intros s k s' r [= <- Hr]. cbn [storage].
    destruct (adapter_commit_done (storage s) k (adapter_commit codec (storage s) k).1 r (storage_wf s)) as [[? E]|?].
    + rewrite <-Hr. apply surjective_pairing.
    + left. by rewrite E.
    + by right.
  - intros s k s' e [= <- He]. cbn [storage].
    rewrite (adapter_commit_failed (storage s) k (adapter_commit codec (storage s) k).1 e (storage_wf s)); [done|].
    rewrite <-He. apply surjective_pairing.
Defined.
End laws.
