(* ===== verification/PublicationShared.v ===== *)
(** * Publications over the shared database

    The coordinator of [PublicationRuns] over the SQLite storage, while other modules commit
    to the same database: their commits leave the publications alone, so what the coordinator
    promises holds of every interleaving. *)

From Stdlib Require Import Ascii String.
From S2P Require Import Prelude Text Numerals Transaction PublicationFacts Publication PublicationLedger.
From S2P Require Import PublicationRuns PublicationSafety PublicationStore.
From S2P Require StateKeys StateStore StateFacts StateInvariant StateRuns Frame.
Local Open Scope Z_scope.

(** ** Other modules *)

(** An operation of another module: a commit that writes no publication's stream and no
    publication's journal, or any acknowledgement. *)
Definition foreign (op : StateRuns.store_op) : Prop :=
  match op with
  | StateRuns.Commit c =>
      Forall (λ w, strip_prefix "publication:" w.1.1 = None) (StateFacts.writes c) ∧
      ∀ p, StateStore.journal_publication c = Some p →
        StateStore.aggregate_type (StateFacts.publication_key p) ≠ PUBLICATION_AGGREGATE_TYPE
  | _ => True
  end.

Section foreign.
Context (codec : StateStore.EventCodec) {codec_ok : StateFacts.event_codec_ok codec}.

Lemma foreign_writes t ws i :
  Forall (λ w, strip_prefix "publication:" w.1.1 = None) ws →
  foldl StateFacts.write_state t ws !! stream_id i = t !! stream_id i.
Proof.
  intros H. revert t. induction H as [|w ws Hw _ IH]; intros t; [done|]. cbn [foldl]. rewrite IH.
  unfold StateFacts.write_state. rewrite lookup_insert_ne; [done|]. intros Heq.
  rewrite Heq, strip_stream in Hw. done.
Qed.

Lemma fresh_foreign c db db' r :
  foreign (StateRuns.Commit c) → StateFacts.commit_valid c → StateFacts.fresh_commit codec c db db' r →
  database_contents codec db' = database_contents codec db.
Proof.
  intros [Hw Hj] Hv Hf. pose proof (StateRuns.effect_commit codec _ _ _ _ Hv Hf) as Hstep.
  enough (states (database_contents codec db') = states (database_contents codec db) ∧
    journals (database_contents codec db') = journals (database_contents codec db) ∧
    receipts (database_contents codec db') = receipts (database_contents codec db)) as (E1 & E2 & E3)
    by (destruct (database_contents codec db), (database_contents codec db'); simpl in *; congruence).
  split_and!; apply map_eq; intros i.
  - rewrite !contents_states, (StateFacts.fc_states _ _ _ _ _ Hf). by rewrite foreign_writes.
  - rewrite !contents_journals. pose proof (StateFacts.fc_journals _ _ _ _ _ Hf) as Hjs. unfold publication_journal.
    destruct (StateStore.journal_publication c) as [p|] eqn:Ep.
    + destruct Hjs as (_ & Ej & Er). specialize (Hj p eq_refl).
      assert (to_key i ≠ StateFacts.publication_key p) as Hne by (intros Heq; apply Hj; by rewrite <-Heq).
      rewrite (StateInvariant.records_snoc _ _ _ _ _ Er), decide_False, app_nil_r, Ej by done.
      destruct p; simpl in *; [|done]. by rewrite lookup_insert_ne by congruence.
    + destruct Hjs as [Ej Er]. rewrite Ej. unfold StateFacts.records_of. by rewrite Er.
  - rewrite !contents_receipts, (StateFacts.fc_receipts _ _ _ _ _ Hf).
    destruct (decide (to_identity i = StateStore.commit_identity c)) as [->|Hne].
    + rewrite lookup_insert_eq, (StateFacts.fc_prior _ _ _ _ _ Hf). cbn [mbind option_bind]. unfold publication_row.
      cbn [StateStore.receipt_stream_id]. apply Forall_cons in Hw as [Hw _]. cbn [fst] in Hw. by rewrite Hw.
    + rewrite lookup_insert_ne by congruence.
      destruct (StateStore.command_receipts db !! to_identity i) as [row|] eqn:Er; [|done]. cbn [mbind option_bind].
      destruct (StateRuns.step_receipt _ _ _ _ _ _ Er Hstep) as (_ & Hev & _). unfold publication_row. by rewrite Hev.
Qed.

(** The receipts of publications do not see an acknowledgement. *)
Lemma acknowledged_contents db db' :
  StateStore.product_state db' = StateStore.product_state db →
  StateStore.aggregate_journals db' = StateStore.aggregate_journals db →
  StateStore.journal_records db' = StateStore.journal_records db →
  StateStore.command_receipts db' = StateStore.command_receipts db →
  StateRuns.step_effect codec db db' [] →
  database_contents codec db' = database_contents codec db.
Proof.
  intros E1 E2 E3 E4 Hstep. unfold database_contents. rewrite E1, E2, E4. f_equal.
  - apply map_eq. intros i. rewrite !map_lookup_imap. unfold publication_journal, StateFacts.records_of. by rewrite E3.
  - apply map_eq. intros i. rewrite !map_lookup_imap, !(lookup_rekey _ to_identity)
      by (intros [] []; unfold of_identity, to_identity; simpl; naive_solver).
    destruct (StateStore.command_receipts db !! to_identity i) as [row|] eqn:Er; [|done]. cbn [mbind option_bind].
    destruct (StateRuns.step_receipt _ _ _ _ _ _ Er Hstep) as (_ & Hev & _). unfold publication_row. by rewrite Hev.
Qed.

Lemma foreign_contents s op :
  foreign op →
  database_contents codec (StateStore.database (StateRuns.store_step codec s op)) =
  database_contents codec (StateStore.database s).
Proof.
  intros Hop. pose proof (proj1 (StateRuns.store_step_effect codec s op)) as Hstep.
  destruct op as [c|event|event|claims]; cbn [StateRuns.performed] in Hstep.
  - clear Hstep. cbn [StateRuns.store_step]. destruct (StateStore.sqlite_commit codec s c) as [s' [r|e]] eqn:E.
    + apply StateRuns.sqlite_commit_Ok in E as (Hv & _ & [(? & _ & _ & ->)|[Hf _]]); [done|]. by eapply fresh_foreign.
    + by apply StateRuns.sqlite_commit_Err in E as ->.
  - apply acknowledged_contents; [..|exact Hstep]; cbn [StateRuns.store_step]; unfold StateStore.mark_published;
      (destruct (StateStore.transact s _) as [s' [n|e]] eqn:E; simpl;
       [apply StateRuns.transact_Ok in E as (_ & [= _ <-] & _)|apply StateRuns.transact_Err in E as ->]; done).
  - apply acknowledged_contents; [..|exact Hstep]; cbn [StateRuns.store_step];
      unfold StateStore.mark_audit_event_persisted; (case_bool_decide; [done|]);
      (destruct (StateStore.transact s _) as [s' [n|e]] eqn:E; simpl;
       [apply StateRuns.transact_Ok in E as (_ & [= _ <-] & _)|apply StateRuns.transact_Err in E as ->]; done).
  - by apply acknowledged_contents.
Qed.
End foreign.

(** ** The coordinator among other modules *)

Section shared.
Context (codec : StateStore.EventCodec) {event_ok : StateFacts.event_codec_ok codec}.
Context (c : PublicationCodec) (c_ok : codec_ok c).
Context {P A : Type} `{!PublicationPort P, !PublicationPolicyAudit A, !TruthfulPort P}.

Abbreviation SharedCoordinator := (PublicationCoordinator (PublicationStorageAdapter codec) P A).
Implicit Types x : SharedCoordinator.

(** A command of the coordinator, or an operation of another module on its database. *)
Inductive shared_step : SharedCoordinator → SharedCoordinator → Prop :=
| shared_command x x' : command_step c x x' → shared_step x x'
| shared_foreign x op s :
    foreign op → storage _ s = StateRuns.store_step codec (storage _ (ledger x)) op →
    shared_step x (with_ledger x s).

Lemma shared_commands x x' : rtc shared_step x x' → rtc (command_step c) x x'.
Proof.
  induction 1 as [|x y z Hs _ IH]; [apply rtc_refl|]. eapply rtc_l; [|exact IH].
  destruct Hs as [x y Hs|x op s Hop Hs]; [done|]. apply run_restart; [|done]. cbn.
  rewrite Hs. by apply foreign_contents.
Qed.

Lemma adapter_loads (s : PublicationStorageAdapter codec) i :
  i ≠ ""%string → ∃ o o', load_state s i = Ok o ∧ load_journal s i = Ok o'.
Proof.
  intros Hi. destruct s as [s Hwf]. cbn [load_state load_journal adapter_storage storage].
  assert (∃ o, adapter_load_state s i = Ok o) as [o Ho].
  { unfold adapter_load_state, StateStore.load_state_from_connection, StateStore.read_state.
    destruct (StateStore.product_state (StateStore.database s) !! stream_id i) as [row|] eqn:E; [|by eexists].
    apply (StateInvariant.sw_states _ _ Hwf) in E. cbn beta in E.
    rewrite (proj2 (StateFacts.to_u64_Ok _ (StateStore.state_revision row))) by lia.
    cbn [map_err mbind result_bind StateStore.stored_stream_id]. rewrite differs_refl. by eexists. }
  exists o. unfold adapter_load_journal, journal_key, StateStore.journal_key_new.
  rewrite (bool_decide_eq_false_2 (PUBLICATION_AGGREGATE_TYPE = ""%string)), (bool_decide_eq_false_2 (i = ""%string)) by done.
  cbn [orb refuse map_err mbind result_bind]. rewrite (StateRuns.load_journal_records codec) by done.
  eexists. split; [done|]. reflexivity.
Qed.

(** C6. Over the SQLite storage, with any interleaving of publish, resume and cancel commands and
    of commits and acknowledgements by other modules to the same database: the provider
    carries out each operation at most once and in order, and every publication that has a
    row in the database loads, as the last of a history in which each follows from the one
    before, with every step that counts as succeeded carried out. *)
Theorem publication_over_shared_store x0 x :
  fresh x0 → rtc shared_step x0 x →
  ordered_writes c (written (port x0)) (written (port x)) ∧
  (∃ new, written (port x) = written (port x0) ++ new ∧ NoDup new ∧
     ∀ op, op ∈ new → op ∉ written (port x0)) ∧
  ∀ i row, StateStore.product_state (StateStore.database (storage _ (ledger x))) !! stream_id i = Some row →
    ∃ h p, linked None h ∧ last h = Some p ∧ load_publication c (ledger x) i = Ok p ∧
      backed (written (port x)) p.
Proof.
  intros Hf Hr%shared_commands. destruct (run_ok_reachable c c_ok _ _ Hf Hr) as [Hs Hb Hw].
  split_and!; [done|by eapply ordered_writes_new|]. intros i row Hrow.
  assert (is_Some (states (contents (ledger x)) !! i)) as [st Hst].
  { change (contents (ledger x)) with (database_contents codec (StateStore.database (storage _ (ledger x)))).
    rewrite contents_states, Hrow. by eexists. }
  destruct (sound_ids _ _ Hs i) as [[h Hh]|[Hn _]]; [|congruence].
  destruct (ha_state _ _ _ _ Hh) as (p & _ & Hp & _).
  assert (p ∈ h) as Hin by (apply last_Some in Hp as [h' ->]; set_solver).
  destruct (history_member _ _ _ _ _ Hh Hin) as (r & intent & He & _).
  assert (i ≠ ""%string) as Hi.
  { intros ->. pose proof (entry_valid _ _ _ _ _ He) as Hv. pose proof (entry_id _ _ _ _ _ He) as Hid.
    unfold validate, validate_identity in Hv. inv_result. split_bools. by rewrite Hid in *. }
  destruct (adapter_loads (ledger x) i Hi) as (o & o' & Ho & Ho').
  destruct (load_history c c_ok _ _ _ 0 _ _ Hh Ho Ho') as (q & Hq & Hl). simplify_eq.
  exists h, p. split_and!; [apply Hh|done|unfold load_publication; by rewrite Hl|].
  apply Hb. exists h. rewrite (entry_id _ _ _ _ _ He). done.
Qed.
End shared.

(** ** A run over SQLite *)

Definition fixture_event_codec : StateStore.EventCodec :=
  {| StateStore.json_scope := Frame.table_json []; StateStore.json_stream := Frame.table_json [];
     StateStore.json_instant := Frame.table_json []; StateStore.json_source := Frame.table_json [];
     StateStore.sha256_hex := λ _, repeated 64 "a" |}.

#[global] Instance fixture_event_codec_ok : StateFacts.event_codec_ok fixture_event_codec.
Proof. split; apply Frame.table_json_round_trip. Qed.

(** A digest with the shape of SHA-256, that tells one-byte texts apart. *)
Definition short_hex (b : list Byte.byte) : string :=
  match b with
  | [x] => let n := Z.of_N (Byte.to_N x) in
           String (digit_char (n / 16)) (String (digit_char (n mod 16)) (repeated 62 "0"))
  | _ => repeated 64 "f"
  end.

Definition shared_codec : PublicationCodec :=
  {| json_publication := json_publication fixture_codec; json_manifest := json_manifest fixture_codec;
     sha256_json := fixture_hash; digest_u128 := digest_u128 fixture_codec; sha256_hex := short_hex |}.

Lemma short_hex_inj x y : short_hex [x] = short_hex [y] → x = y.
Proof.
  intros [= H1 H2]. pose proof (Byte.to_N_bounded x). pose proof (Byte.to_N_bounded y).
  set (n := Z.of_N (Byte.to_N x)) in *. set (m := Z.of_N (Byte.to_N y)) in *.
  assert (0 ≤ n < 256 ∧ 0 ≤ m < 256) as [? ?] by lia.
  assert (∀ d, 0 ≤ d < 16 → digit_val 16 (digit_char d) = Some d) as Hd by (intros; apply digit_val_char; lia).
  apply (f_equal (digit_val 16)) in H1, H2.
  rewrite !Hd in H1, H2 by (try apply Z.mod_pos_bound; try (split; [apply Z.div_pos|apply Z.div_lt_upper_bound]); lia).
  assert (n = m) as Heq by (rewrite (Z.div_mod n 16), (Z.div_mod m 16) by lia; congruence).
  apply (inj Some). rewrite <-!Byte.of_to_N. f_equal. lia.
Qed.

Lemma shared_codec_ok : codec_ok shared_codec.
Proof.
  split; [apply Frame.table_json_round_trip..|]. intros p q b b' Hb Hb'. unfold canonical_sha256_bytes.
  intros H%(inj (String.append _)). cbn [shared_codec sha256_hex] in H.
  assert (∀ p b, encode_publication shared_codec p = Ok b → ∃ x, b = [x]) as Hone.
  { intros p0 b0 H0%map_err_Ok. cbn in H0. destruct (list_find _ _) as [[i w]|]; [|done].
    destruct (Byte.of_nat i) as [x|]; [|done]. injection H0 as <-. by exists x. }
  destruct (Hone _ _ Hb) as [x ->], (Hone _ _ Hb') as [y ->]. by rewrite (short_hex_inj _ _ H).
Qed.

Abbreviation SqliteCoordinator :=
  (PublicationCoordinator (PublicationStorageAdapter fixture_event_codec) Provider (list PublicationPolicyDecision)).

Definition sqlite_start : SqliteCoordinator :=
  {| ledger := {| storage := {| StateStore.database := StateStore.empty_database; StateStore.read_only := false |};
                  storage_wf := StateInvariant.empty_wf fixture_event_codec |};
     port := {| carried_out := []; lossy := [Branch] |}; audit := [] |}.

Definition sqlite_published : SqliteCoordinator :=
  (publish shared_codec fixture_publish_context fixture_command fixture_authorization
     (fixture_context "1" 1100) fixture_policy sqlite_start).1.

(** Another module's commit, with an event of its own. *)
Definition session_commit : StateStore.StateCommit :=
  StateStore.state_commit
    {| StateKeys.actor_key := "session-actor"; StateKeys.scope_key := "session-scope"; StateKeys.request_id := "req" |}
    ("sha256:" ++ repeated 64 "b")%string "product-session:1" 0 [Byte.x01]
    [StateStore.internal "session-event" "session.created" [Byte.x01]].

Lemma sqlite_foreign_wf (s : PublicationStorageAdapter fixture_event_codec) op :
  StateInvariant.store_wf fixture_event_codec
    (StateStore.database (StateRuns.store_step fixture_event_codec (storage _ s) op)).
Proof. eapply StateRuns.step_wf; [apply _|apply (storage_wf _ s)|apply StateRuns.store_step_effect]. Qed.

Definition sqlite_shared : SqliteCoordinator :=
  with_ledger sqlite_published
    {| storage := StateRuns.store_step fixture_event_codec (storage _ (ledger sqlite_published))
                    (StateRuns.Commit session_commit);
       storage_wf := sqlite_foreign_wf (ledger sqlite_published) (StateRuns.Commit session_commit) |}.

Definition sqlite_resumed : SqliteCoordinator :=
  (resume shared_codec fixture_id 2000 (fixture_context "2" 2000) fixture_policy sqlite_shared).1.

Definition sqlite_done : SqliteCoordinator :=
  (resume shared_codec fixture_id 3000 (fixture_context "3" 3000) fixture_policy sqlite_resumed).1.

Lemma sqlite_run : rtc (shared_step fixture_event_codec shared_codec) sqlite_start sqlite_done.
Proof.
  eapply rtc_l; [apply shared_command; by apply (run_publish _ _ fixture_publish_context fixture_command
    fixture_authorization (fixture_context "1" 1100) fixture_policy)|].
  eapply rtc_l; [apply (shared_foreign _ _ sqlite_published (StateRuns.Commit session_commit)
    (ledger sqlite_shared)); [split; [by constructor|done]|done]|].
  eapply rtc_l; [apply shared_command, (run_resume _ _ fixture_id 2000 (fixture_context "2" 2000) fixture_policy)|].
  eapply rtc_l; [apply shared_command, (run_resume _ _ fixture_id 3000 (fixture_context "3" 3000) fixture_policy)|].
  apply rtc_refl.
Qed.

Lemma sqlite_fresh : fresh sqlite_start.
Proof. split_and!; reflexivity. Qed.

Lemma sqlite_stored :
  bool_decide (is_Some (StateStore.product_state (StateStore.database (storage _ (ledger sqlite_done)))
                          !! stream_id fixture_id)) = true ∧
  length (carried_out (port sqlite_done)) = 4%nat.
Proof. split; vm_compute; reflexivity. Qed.

Lemma publication_over_shared_store_witness :
  NoDup (carried_out (port sqlite_done)) ∧ length (carried_out (port sqlite_done)) = 4%nat ∧
  ∃ p, load_publication shared_codec (ledger sqlite_done) fixture_id = Ok p.
Proof.
  destruct (publication_over_shared_store fixture_event_codec shared_codec shared_codec_ok sqlite_start sqlite_done
    sqlite_fresh sqlite_run) as (_ & (new & Hnew & Hnd & _) & Hall).
  split.
  { change (carried_out (port sqlite_done) = new) in Hnew. rewrite Hnew. exact Hnd. }
  split; [exact (proj2 sqlite_stored)|].
  destruct (proj1 (bool_decide_eq_true _) (proj1 sqlite_stored)) as [row Hrow].
  destruct (Hall _ _ Hrow) as (h & p & _ & _ & Hl & _). exists p. exact Hl.
Defined.
