(* ===== verification/AuditTypes.v ===== *)
(** * Audit events

    [crates/winwincode-audit/src/event.rs]: the facts that one audit event records, the checks
    that every event passes before it is stored and after it is read, and the form in which its
    subject is written as JSON.  Only the subject has a JSON form of its own; the other fields
    are written as they are.  A digest or an identifier is its string.

    A method that panics on some inputs answers [None] there. *)

From Stdlib Require Import Ascii String.
From S2P Require Import Prelude Text Numerals.
Local Open Scope Z_scope.

(** ** Errors *)

Inductive AuditErrorKind : Type := InvalidInput | RequestConflict | Corrupt | Adapter | Closed.

#[global] Instance AuditErrorKind_eq_dec : EqDecision AuditErrorKind.
Proof. solve_decision. Defined.

Record AuditError : Type := { error_kind : AuditErrorKind; error_message : string }.

#[global] Instance AuditError_eq_dec : EqDecision AuditError.
Proof. solve_decision. Defined.

Definition invalid (message : string) : AuditError := {| error_kind := InvalidInput; error_message := message |}.

Definition request_conflict : AuditError :=
  {| error_kind := RequestConflict;
     error_message := "audit event id was already used for different canonical facts" |}.

Definition corrupt (message : string) : AuditError := {| error_kind := Corrupt; error_message := message |}.

Definition adapter (message : string) : AuditError := {| error_kind := Adapter; error_message := message |}.

Definition json_error (e : AuditError) : AuditError :=
  adapter ("failed to encode canonical audit event: " +:+ error_message e).

Abbreviation audited := (result AuditError).

(** ** Validation of the parts *)

(** [canonical_id]: the prefix, an underscore and 26 characters of base 32. *)
Definition canonical_id (value prefix : string) : bool :=
  match strip_prefix prefix value ≫= strip_prefix "_" with
  | Some identifier => (str_len identifier =? 26) && all_bytes base32_byte identifier
  | None => false
  end.

(** [Option::is_some_and(|id| !canonical_id(id, prefix))] *)
Definition bad_optional (value : option string) (prefix : string) : bool :=
  match value with Some id => negb (canonical_id id prefix) | None => false end.

Definition hex_digit (c : ascii) : bool := is_ascii_digit c || in_range 97 102 c || in_range 65 70 c.

Definition validate_digest (digest field : string) : audited () :=
  match strip_prefix "sha256:" digest with
  | None => Err (invalid (field +:+ " is not a SHA-256 digest"))
  | Some value =>
      refuse (negb (str_len value =? 64) || negb (all_bytes (λ c, hex_digit c && negb (is_ascii_upper c)) value))
        (invalid (field +:+ " must contain 64 lowercase hexadecimal digits"))
  end.

Definition token_byte (c : ascii) : bool := is_ascii_alphanumeric c || one_of "._:@-" c.

Definition validate_token (value field : string) : audited () :=
  refuse (bool_decide (value = EmptyString) || (128 <? str_len value) || negb (all_bytes token_byte value))
    (invalid (field +:+ " must be a bounded portable token")).

Definition canonical_fencing_token (value : string) : bool :=
  negb (bool_decide (value = EmptyString)) && (str_len value <=? 20) && negb (starts_with "0" value) &&
  all_bytes is_ascii_digit value.

(** [AuditEventId::try_new]. *)
Definition event_id_try_new (value : string) : audited string :=
  refuse (negb (canonical_id value "aud"))
    (invalid "audit event id must be aud_ followed by 26 Crockford characters") ;;
  Ok value.

Definition CROCKFORD_BASE32 : string := "0123456789ABCDEFGHJKMNPQRSTVWXYZ".

(** [u8::from_str_radix(&hex[2 i .. 2 i + 2], 16)] for the first [n] bytes, big-endian. *)
Fixpoint leading_bytes (n : nat) (hex : string) (acc : Z) : option Z :=
  match n, hex with
  | O, _ => Some acc
  | S n, String a (String b hex) =>
      match digit_val 16 a, digit_val 16 b with
      | Some x, Some y => leading_bytes n hex (acc * 256 + (16 * x + y))
      | _, _ => None
      end
  | S _, _ => None
  end.

(** The loop that fills [encoded] from its end. *)
Fixpoint base32_digits (n : nat) (value : Z) (acc : string) : string :=
  match n with
  | O => acc
  | S n => base32_digits n (Z.shiftr value 5)
             (String (default "0"%char (bytes CROCKFORD_BASE32 !! Z.to_nat (Z.land value 31))) acc)
  end.

(** [AuditEventId::from_digest]. *)
Definition event_id_from_digest (digest : string) : audited string :=
  validate_digest digest "audit event identity digest" ;;
  hex ← ok_or (strip_prefix "sha256:" digest) (invalid "audit event identity digest is invalid");
  value ← ok_or (leading_bytes 16 hex 0) (invalid "audit event identity digest is invalid");
  Ok ("aud_" +:+ base32_digits 26 value "").

(** ** Actors and scopes *)

Inductive AuditActor : Type := User (id : string) | ServiceAccount (id : string) | System (id : string).

#[global] Instance AuditActor_eq_dec : EqDecision AuditActor.
Proof. solve_decision. Defined.

Definition validate_actor (actor : AuditActor) : audited () :=
  refuse (negb match actor with
               | User id => canonical_id id "usr"
               | ServiceAccount id => canonical_id id "svc"
               | System id => canonical_id id "sys"
               end) (invalid "audit actor identity is not canonical").

Inductive AuditScope : Type :=
| OrganizationScope (organization_id : string)
| WorkspaceScope (organization_id workspace_id : string)
| ProjectScope (organization_id workspace_id project_id : string)
| RepositoryScope (organization_id workspace_id project_id repository_id : string).

#[global] Instance AuditScope_eq_dec : EqDecision AuditScope.
Proof. solve_decision. Defined.

Definition scope_organization_id (s : AuditScope) : string :=
  match s with OrganizationScope o | WorkspaceScope o _ | ProjectScope o _ _ | RepositoryScope o _ _ _ => o end.

Definition scope_workspace_id (s : AuditScope) : option string :=
  match s with
  | OrganizationScope _ => None
  | WorkspaceScope _ w | ProjectScope _ w _ | RepositoryScope _ w _ _ => Some w
  end.

Definition scope_project_id (s : AuditScope) : option string :=
  match s with
  | OrganizationScope _ | WorkspaceScope _ _ => None
  | ProjectScope _ _ p | RepositoryScope _ _ p _ => Some p
  end.

Definition scope_repository_id (s : AuditScope) : option string :=
  match s with RepositoryScope _ _ _ r => Some r | _ => None end.

Definition validate_scope (s : AuditScope) : audited () :=
  refuse (negb (canonical_id (scope_organization_id s) "org") || bad_optional (scope_workspace_id s) "wsp" ||
          bad_optional (scope_project_id s) "prj" || bad_optional (scope_repository_id s) "rep")
    (invalid "audit scope contains a non-canonical identity").

(** The constructors [AuditScope::organization], [workspace], [project] and [repository]. *)
Definition checked_scope (s : AuditScope) : audited AuditScope := validate_scope s ;; Ok s.
Definition organization_scope o := checked_scope (OrganizationScope o).
Definition workspace_scope o w := checked_scope (WorkspaceScope o w).
Definition project_scope o w p := checked_scope (ProjectScope o w p).
Definition repository_scope o w p r := checked_scope (RepositoryScope o w p r).

Record AuditAccess : Type := { access_scope : AuditScope }.

Definition into_access (s : AuditScope) : AuditAccess := {| access_scope := s |}.

(** ** Actions *)

Inductive AuditActionKind : Type :=
| Business | Administration | Command | Approval | Policy | Credential | WorkerLease | Provider
| ModelInvocation | DeliveryState | PublicationAction.

#[global] Instance AuditActionKind_eq_dec : EqDecision AuditActionKind.
Proof. solve_decision. Defined.

Record AuditModelInvocation : Type := {
  invocation_provider_id : string;
  invocation_model_id : string;
  input_digest : string;
  output_digest : string;
  input_tokens : Z;
  output_tokens : Z
}.

#[global] Instance AuditModelInvocation_eq_dec : EqDecision AuditModelInvocation.
Proof. solve_decision. Defined.

Definition MAX_SAFE_INTEGER : Z := max_safe_integer.

Definition validate_invocation (m : AuditModelInvocation) : audited () :=
  validate_token (invocation_provider_id m) "audit model provider" ;;
  validate_token (invocation_model_id m) "audit model identity" ;;
  validate_digest (input_digest m) "model input digest" ;;
  validate_digest (output_digest m) "model output digest" ;;
  refuse ((MAX_SAFE_INTEGER <? input_tokens m) || (MAX_SAFE_INTEGER <? output_tokens m))
    (invalid "audit model usage exceeds the exact JSON integer range").

(** [AuditModelInvocation::try_new]. *)
Definition invocation_try_new (m : AuditModelInvocation) : audited AuditModelInvocation :=
  validate_invocation m ;; Ok m.

Record AuditAction : Type := {
  action_kind : AuditActionKind;
  action_name : string;
  action_invocation : option AuditModelInvocation;
  action_credential : option string;
  action_provider : option string
}.

#[global] Instance AuditAction_eq_dec : EqDecision AuditAction.
Proof. solve_decision. Defined.

(** [AuditAction::new], behind [business], [administration], [command], [approval], [policy],
    [worker_lease], [delivery_state] and [publication]. *)
Definition plain_action (kind : AuditActionKind) (name : string) : audited AuditAction :=
  validate_token name "audit action name" ;;
  Ok {| action_kind := kind; action_name := name; action_invocation := None;
        action_credential := None; action_provider := None |}.

Definition credential_action (name reference : string) : audited AuditAction :=
  validate_token name "audit action name" ;;
  refuse (negb (canonical_id reference "crd")) (invalid "credential audit action identity is not canonical") ;;
  Ok {| action_kind := Credential; action_name := name; action_invocation := None;
        action_credential := Some reference; action_provider := None |}.

Definition provider_action (provider name : string) : audited AuditAction :=
  validate_token provider "audit Provider identity" ;;
  validate_token name "audit action name" ;;
  Ok {| action_kind := Provider; action_name := name; action_invocation := None;
        action_credential := None; action_provider := Some provider |}.

Definition model_invocation_action (summary : AuditModelInvocation) : audited AuditAction :=
  validate_invocation summary ;;
  Ok {| action_kind := ModelInvocation; action_name := "model.invoke"; action_invocation := Some summary;
        action_credential := None; action_provider := None |}.

Definition validate_action (a : AuditAction) : audited () :=
  validate_token (action_name a) "audit action name" ;;
  match action_kind a, action_invocation a, action_credential a, action_provider a with
  | ModelInvocation, Some summary, None, None => validate_invocation summary
  | Credential, None, Some id, None =>
      refuse (negb (canonical_id id "crd"))
        (invalid "audit action carries facts from a different action category")
  | Provider, None, None, Some provider => validate_token provider "audit Provider identity"
  | ModelInvocation, None, None, None =>
      Err (invalid "model invocation audit action requires its sealed summary")
  | Credential, None, None, None =>
      Err (invalid "Credential audit action requires its stable reference identity")
  | Provider, None, None, None =>
      Err (invalid "Provider audit action requires its stable Provider identity")
  | _, None, None, None => Ok tt
  | _, _, _, _ => Err (invalid "audit action carries facts from a different action category")
  end.

(** ** States and origins *)

Inductive AuditState : Type :=
| Changed (before : option string) (after : string)
| Unchanged (current : option string).

#[global] Instance AuditState_eq_dec : EqDecision AuditState.
Proof. solve_decision. Defined.

Definition validate_optional_digest (digest : option string) (field : string) : audited () :=
  match digest with Some digest => validate_digest digest field | None => Ok tt end.

Definition validate_state (s : AuditState) : audited () :=
  match s with
  | Changed before after =>
      refuse (bool_decide (before = Some after))
        (invalid "changed audit state must have different before and after digests") ;;
      validate_optional_digest before "before state digest" ;;
      validate_digest after "after state digest"
  | Unchanged current => validate_optional_digest current "current state digest"
  end.

(** [AuditState::changed] and [AuditState::unchanged]. *)
Definition changed (before : option string) (after : string) : audited AuditState :=
  refuse (bool_decide (before = Some after))
    (invalid "changed audit state must have different before and after digests") ;;
  validate_state (Changed before after) ;; Ok (Changed before after).

Definition unchanged (current : option string) : audited AuditState :=
  validate_state (Unchanged current) ;; Ok (Unchanged current).

(** [std::net::IpAddr]. *)
Inductive IpAddr : Type := V4 (bits : Z) | V6 (bits : Z).

#[global] Instance IpAddr_eq_dec : EqDecision IpAddr.
Proof. solve_decision. Defined.

Inductive AuditOrigin : Type := Local (component : string) | Network (source_ip : IpAddr).

#[global] Instance AuditOrigin_eq_dec : EqDecision AuditOrigin.
Proof. solve_decision. Defined.

Definition local_origin (component : string) : audited AuditOrigin :=
  validate_token component "audit local component" ;; Ok (Local component).

Definition validate_origin (o : AuditOrigin) : audited () :=
  match o with Local component => validate_token component "audit local component" | Network _ => Ok tt end.

(** ** Subjects *)

Inductive AuditBindingPhase : Type := WorkerSessionPhase | CodexThreadPhase.

#[global] Instance AuditBindingPhase_eq_dec : EqDecision AuditBindingPhase.
Proof. solve_decision. Defined.

Record AuditBindingSource : Type := { source_message_id : string; source_phase : AuditBindingPhase }.

#[global] Instance AuditBindingSource_eq_dec : EqDecision AuditBindingSource.
Proof. solve_decision. Defined.

Definition validate_binding_source (b : AuditBindingSource) : audited () :=
  refuse (negb (canonical_id (source_message_id b) "xmsg"))
    (invalid "binding audit source message id is not canonical").

Definition binding_source_try_new (message_id : string) (phase : AuditBindingPhase) : audited AuditBindingSource :=
  validate_binding_source {| source_message_id := message_id; source_phase := phase |} ;;
  Ok {| source_message_id := message_id; source_phase := phase |}.

Record AuditExecutionIdentity : Type := {
  identity_product_session_id : string;
  identity_worker_session_id : string;
  identity_codex_thread_id : string;
  identity_work_run_id : string;
  identity_execution_job_id : string;
  identity_delivery_id : string;
  identity_work_item_id : option string;
  identity_worker_id : string;
  identity_worker_instance_id : string;
  identity_lease_id : string;
  identity_attempt : Z;
  identity_fencing_token : string;
  identity_source_sequence : option Z;
  identity_binding_source : option AuditBindingSource
}.

#[global] Instance AuditExecutionIdentity_eq_dec : EqDecision AuditExecutionIdentity.
Proof. solve_decision. Defined.

(** The pairs that [AuditExecutionIdentity::validate] goes through. *)
Definition identity_ids (i : AuditExecutionIdentity) : list (string * string) :=
  [(identity_product_session_id i, "psn"); (identity_worker_session_id i, "wsn");
   (identity_codex_thread_id i, "cdx"); (identity_work_run_id i, "wrn");
   (identity_execution_job_id i, "job"); (identity_delivery_id i, "dlv");
   (identity_worker_id i, "wrk"); (identity_worker_instance_id i, "wki"); (identity_lease_id i, "lse")].

Definition validate_identity (i : AuditExecutionIdentity) : audited () :=
  refuse (existsb (λ '(value, prefix), negb (canonical_id value prefix)) (identity_ids i) ||
          bad_optional (identity_work_item_id i) "wit")
    (invalid "execution audit subject contains a non-canonical identity") ;;
  refuse ((identity_attempt i =? 0) || (MAX_SAFE_INTEGER <? identity_attempt i))
    (invalid "execution audit attempt is outside the supported range") ;;
  match identity_source_sequence i, identity_binding_source i with
  | Some sequence, None =>
      refuse (negb ((0 <? sequence) && (sequence <=? MAX_SAFE_INTEGER)))
        (invalid "execution audit source sequence is outside the supported range")
  | None, Some source => validate_binding_source source
  | Some _, Some _ => Err (invalid "execution audit identity cannot carry both sequence and binding source")
  | None, None => Err (invalid "execution audit identity requires a sequence or binding source")
  end ;;
  refuse (negb (canonical_fencing_token (identity_fencing_token i)))
    (invalid "execution audit fencing token is not canonical").

(** [AuditExecutionIdentity::try_new] and [try_new_binding] check what they build;
    [identity_from_wire] is the [Deserialize] of the type, which goes through them. *)
Definition identity_try_new (i : AuditExecutionIdentity) : audited AuditExecutionIdentity :=
  validate_identity i ;; Ok i.

Definition identity_from_wire (w : AuditExecutionIdentity) : audited AuditExecutionIdentity :=
  match identity_source_sequence w, identity_binding_source w with
  | Some _, None | None, Some _ => identity_try_new w
  | Some _, Some _ => Err (invalid "execution audit identity cannot carry both sequence and binding source")
  | None, None => Err (invalid "execution audit identity requires a sequence or binding source")
  end.

Inductive AuditExecutionSubjectKind : Type := AcceptedBindingKind | RuntimeKind | TerminalKind.

#[global] Instance AuditExecutionSubjectKind_eq_dec : EqDecision AuditExecutionSubjectKind.
Proof. solve_decision. Defined.

Inductive AuditSubjectKind : Type :=
| ReferencesKind | PublicationKind | ExecutionKind (kind : AuditExecutionSubjectKind).

Inductive AuditSubject : Type :=
| References (delivery product_session lease publication : option string)
| Publication (delivery publication : string)
| AcceptedBinding (identity : AuditExecutionIdentity)
| Runtime (identity : AuditExecutionIdentity)
| Terminal (identity : AuditExecutionIdentity).

#[global] Instance AuditSubject_eq_dec : EqDecision AuditSubject.
Proof. solve_decision. Defined.

(** [AuditSubject::new]. *)
Definition new_subject : AuditSubject := References None None None None.

Definition subject_kind (s : AuditSubject) : AuditSubjectKind :=
  match s with
  | References _ _ _ _ => ReferencesKind
  | Publication _ _ => PublicationKind
  | AcceptedBinding _ => ExecutionKind AcceptedBindingKind
  | Runtime _ => ExecutionKind RuntimeKind
  | Terminal _ => ExecutionKind TerminalKind
  end.

Definition subject_execution_kind (s : AuditSubject) : option AuditExecutionSubjectKind :=
  match subject_kind s with ExecutionKind kind => Some kind | _ => None end.

Definition subject_execution (s : AuditSubject) : option AuditExecutionIdentity :=
  match s with AcceptedBinding i | Runtime i | Terminal i => Some i | _ => None end.

Definition with_delivery (s : AuditSubject) (delivery_id : string) : option AuditSubject :=
  match s with
  | References _ session lease publication =>
      match publication with
      | Some publication_id =>
          match session, lease with
          | None, None => Some (Publication delivery_id publication_id)
          | _, _ => Some (References (Some delivery_id) session lease (Some publication_id))
          end
      | None => Some (References (Some delivery_id) session lease publication)
      end
  | Publication _ publication => Some (Publication delivery_id publication)
  | _ => None
  end.

Definition with_product_session (s : AuditSubject) (session_id : string) : option AuditSubject :=
  match s with
  | References delivery _ lease publication => Some (References delivery (Some session_id) lease publication)
  | Publication delivery publication =>
      Some (References (Some delivery) (Some session_id) None (Some publication))
  | _ => None
  end.

Definition with_lease (s : AuditSubject) (lease_id : string) : option AuditSubject :=
  match s with
  | References delivery session _ publication => Some (References delivery session (Some lease_id) publication)
  | Publication delivery publication =>
      Some (References (Some delivery) None (Some lease_id) (Some publication))
  | _ => None
  end.

Definition with_publication (s : AuditSubject) (publication_id : string) : option AuditSubject :=
  match s with
  | References (Some delivery) None None _ | Publication delivery _ =>
      Some (Publication delivery publication_id)
  | References delivery session lease _ => Some (References delivery session lease (Some publication_id))
  | _ => None
  end.

Definition subject_delivery_id (s : AuditSubject) : option string :=
  match s with References delivery _ _ _ => delivery | Publication delivery _ => Some delivery | _ => None end.

Definition subject_publication_id (s : AuditSubject) : option string :=
  match s with References _ _ _ publication => publication | Publication _ publication => Some publication | _ => None end.

Definition subject_product_session_id (s : AuditSubject) : option string :=
  match s with References _ session _ _ => session | _ => None end.

Definition subject_lease_id (s : AuditSubject) : option string :=
  match s with References _ _ lease _ => lease | _ => None end.

Definition validate_subject (s : AuditSubject) : audited () :=
  match s with
  | References delivery session lease publication =>
      refuse (bad_optional delivery "dlv" || bad_optional session "psn" || bad_optional lease "lse" ||
              bad_optional publication "pub") (invalid "audit subject contains a non-canonical identity")
  | Publication delivery publication =>
      refuse (negb (canonical_id delivery "dlv") || negb (canonical_id publication "pub"))
        (invalid "publication audit subject contains a non-canonical identity")
  | AcceptedBinding i =>
      validate_identity i ;;
      refuse (bool_decide (is_Some (identity_source_sequence i)) || bool_decide (identity_binding_source i = None))
        (invalid "accepted binding audit subject requires its typed binding source")
  | Runtime i | Terminal i =>
      validate_identity i ;;
      refuse (bool_decide (identity_source_sequence i = None) || bool_decide (is_Some (identity_binding_source i)))
        (invalid "runtime and terminal audit subjects require a proven source sequence")
  end.

(** What is written as JSON: [LegacyAuditSubjectWire] and [ExecutionAuditSubjectWire]. *)
Inductive AuditSubjectWire : Type :=
| LegacyWire (delivery product_session lease publication : option string)
| ExecutionWire (kind : AuditExecutionSubjectKind) (identity : AuditExecutionIdentity).

(** [Serialize for AuditSubject]. *)
Definition subject_to_wire (s : AuditSubject) : audited AuditSubjectWire :=
  validate_subject s ;;
  Ok match s with
     | References delivery session lease publication => LegacyWire delivery session lease publication
     | Publication delivery publication => LegacyWire (Some delivery) None None (Some publication)
     | AcceptedBinding i => ExecutionWire AcceptedBindingKind i
     | Runtime i => ExecutionWire RuntimeKind i
     | Terminal i => ExecutionWire TerminalKind i
     end.

(** [Deserialize for AuditSubject].  The variants of the untagged enum are told apart by the
    field [kind], and each denies the fields of the other. *)
Definition subject_from_wire (w : AuditSubjectWire) : audited AuditSubject :=
  s ← match w with
      | ExecutionWire kind i =>
          i ← identity_from_wire i;
          Ok match kind with
             | AcceptedBindingKind => AcceptedBinding i
             | RuntimeKind => Runtime i
             | TerminalKind => Terminal i
             end
      | LegacyWire (Some delivery) None None (Some publication) => Ok (Publication delivery publication)
      | LegacyWire delivery session lease publication => Ok (References delivery session lease publication)
      end;
  validate_subject s ;; Ok s.

(** ** Events *)

Inductive AuditOutcome : Type := Succeeded | Rejected | Failed.

#[global] Instance AuditOutcome_eq_dec : EqDecision AuditOutcome.
Proof. solve_decision. Defined.

Inductive AuditRetention : Type := UntilMillis (until : Z) | Indefinite.

#[global] Instance AuditRetention_eq_dec : EqDecision AuditRetention.
Proof. solve_decision. Defined.

(** An event, with its subject or with the JSON form of it. *)
Record AuditEventOf (Subject : Type) : Type := {
  event_id : string;
  occurred_at_millis : Z;
  actor : AuditActor;
  scope : AuditScope;
  request_id : string;
  action : AuditAction;
  state : AuditState;
  origin : AuditOrigin;
  subject : Subject;
  outcome : AuditOutcome;
  result_code : string;
  retention : AuditRetention
}.
Arguments event_id {_}.
Arguments occurred_at_millis {_}.
Arguments actor {_}.
Arguments scope {_}.
Arguments request_id {_}.
Arguments action {_}.
Arguments state {_}.
Arguments origin {_}.
Arguments subject {_}.
Arguments outcome {_}.
Arguments result_code {_}.
Arguments retention {_}.

Abbreviation AuditEvent := (AuditEventOf AuditSubject).
Abbreviation WireEvent := (AuditEventOf AuditSubjectWire).

#[global] Instance AuditEventOf_eq_dec {Subject} `{!EqDecision Subject} : EqDecision (AuditEventOf Subject).
Proof. solve_decision. Defined.

(** The event with another subject. *)
Definition with_subject {S T} (e : AuditEventOf S) (s : T) : AuditEventOf T :=
  {| event_id := event_id e; occurred_at_millis := occurred_at_millis e; actor := actor e; scope := scope e;
     request_id := request_id e; action := action e; state := state e; origin := origin e; subject := s;
     outcome := outcome e; result_code := result_code e; retention := retention e |}.

Definition is_changed (s : AuditState) : bool := match s with Changed _ _ => true | Unchanged _ => false end.

Definition validate_event (e : AuditEvent) : audited () :=
  refuse (negb (canonical_id (event_id e) "aud")) (invalid "stored audit event id is invalid") ;;
  refuse ((occurred_at_millis e =? 0) || (i64_max <? occurred_at_millis e))
    (invalid "audit occurrence timestamp is outside the SQLite range") ;;
  validate_actor (actor e) ;;
  validate_scope (scope e) ;;
  refuse (negb (canonical_id (request_id e) "req")) (invalid "audit request id is not canonical") ;;
  validate_action (action e) ;;
  validate_state (state e) ;;
  validate_origin (origin e) ;;
  validate_subject (subject e) ;;
  validate_token (result_code e) "audit result code" ;;
  refuse (match outcome e with Rejected | Failed => is_changed (state e) | Succeeded => false end)
    (invalid "rejected or failed audit result cannot change state") ;;
  refuse (match retention e with UntilMillis until => until <=? occurred_at_millis e | Indefinite => false end)
    (invalid "audit retention deadline must follow the event timestamp").

(** [AuditEvent::state_change]. *)
Definition state_change (e : AuditEvent) : audited AuditEvent :=
  refuse (negb (is_changed (state e))) (invalid "state-change audit event requires changed state digests") ;;
  let e := {| event_id := event_id e; occurred_at_millis := occurred_at_millis e; actor := actor e;
              scope := scope e; request_id := request_id e; action := action e; state := state e;
              origin := origin e; subject := subject e; outcome := Succeeded;
              result_code := result_code e; retention := retention e |} in
  validate_event e ;; Ok e.

(** [AuditEvent::unchanged_result], behind [succeeded], [rejected] and [failed]. *)
Definition unchanged_result (e : AuditEvent) (result : AuditOutcome) : audited AuditEvent :=
  refuse (is_changed (state e)) (invalid "rejected or failed audit event requires unchanged state") ;;
  let e := {| event_id := event_id e; occurred_at_millis := occurred_at_millis e; actor := actor e;
              scope := scope e; request_id := request_id e; action := action e; state := state e;
              origin := origin e; subject := subject e; outcome := result;
              result_code := result_code e; retention := retention e |} in
  validate_event e ;; Ok e.
