(* ===== verification/AuditTables.v ===== *)
(** * Audit store

    [crates/winwincode-audit/src/store.rs]: audit events in SQLite.  The events of an
    organisation form a chain: each has the next sequence number and a digest over its header
    and the digest of the event before it.  Headers are never changed or deleted; a payload is
    deleted when its retention has passed, and a tombstone then stands for it.

    [AuditDb] holds the four tables.  [audit_events] is the list of rows in the order of
    insertion, the other tables are maps by their primary keys.  An operation is one
    transaction; SHA-256 and JSON come from third-party crates and are the fields of
    [AuditCodec].  Opening, closing and the text of SQLite's errors are not modelled. *)

From Stdlib Require Import Ascii String.
From S2P Require Import Prelude Text Numerals Ordered Transaction StateKeys AuditTypes.
Local Open Scope Z_scope.

Record AuditCodec : Type := {
  sha256_hex : string → string;
  to_vec : WireEvent → string;
  from_slice : string → option WireEvent
}.

(** What the store relies on: a hash is printed as 64 lower-case hexadecimal digits, and
    [serde_json] reads what it has written. *)
Class AuditCodecLaws (C : AuditCodec) : Prop := {
  hash_is_digest b : sha256_shape ("sha256:" +:+ sha256_hex C b) = true;
  written_is_read w : from_slice C (to_vec C w) = Some w
}.

Definition CHAIN_DOMAIN : string := "winwincode.audit-chain.v1".

(** ** Tables *)

Record EventRow : Type := {
  row_organization_id : string;
  row_sequence : Z;
  row_event_id : string;
  row_occurred_at_millis : Z;
  row_workspace_id : option string;
  row_project_id : option string;
  row_repository_id : option string;
  row_retention_kind : string;
  row_retention_until_millis : option Z;
  row_previous_digest : option string;
  row_event_digest : string;
  row_payload_digest : string
}.

Record AuditDb : Type := {
  audit_chain_heads : gmap string (Z * string);
  audit_events : list EventRow;
  audit_payloads : gmap (string * Z) string;
  audit_payload_tombstones : gmap (string * Z) (Z * string)
}.

(** The database that [apply_schema] creates. *)
Definition empty_db : AuditDb :=
  {| audit_chain_heads := ∅; audit_events := []; audit_payloads := ∅; audit_payload_tombstones := ∅ |}.

Definition row_key (r : EventRow) : string * Z := (row_organization_id r, row_sequence r).

(** The constraints of [audit_events]: both keys, and the checks. *)
Definition row_accepted (d : AuditDb) (r : EventRow) : bool :=
  forallb (λ x, negb (bool_decide (row_key x = row_key r)) && negb (bool_decide (row_event_id x = row_event_id r)))
    (audit_events d) &&
  (0 <? row_sequence r) && (0 <? row_occurred_at_millis r) &&
  (bool_decide (row_retention_kind r = "until") || bool_decide (row_retention_kind r = "indefinite")) &&
  eqb (bool_decide (row_retention_kind r = "until")) (bool_decide (is_Some (row_retention_until_millis r))) &&
  (bool_decide (row_project_id r = None) || bool_decide (is_Some (row_workspace_id r))) &&
  (bool_decide (row_repository_id r = None) || bool_decide (is_Some (row_project_id r))).

Definition sql_error : AuditError := adapter "SQLite audit operation failed".

(** [INSERT INTO audit_events] *)
Definition insert_event (r : EventRow) (d : AuditDb) : audited (() * AuditDb) :=
  if row_accepted d r
  then Ok (tt, {| audit_chain_heads := audit_chain_heads d; audit_events := audit_events d ++ [r];
                  audit_payloads := audit_payloads d; audit_payload_tombstones := audit_payload_tombstones d |})
  else Err sql_error.

(** [INSERT INTO audit_payloads], with its primary and foreign key *)
Definition insert_payload (key : string * Z) (payload : string) (d : AuditDb) : audited (() * AuditDb) :=
  if bool_decide (audit_payloads d !! key = None) && existsb (λ r, bool_decide (row_key r = key)) (audit_events d)
  then Ok (tt, {| audit_chain_heads := audit_chain_heads d; audit_events := audit_events d;
                  audit_payloads := <[key := payload]> (audit_payloads d);
                  audit_payload_tombstones := audit_payload_tombstones d |})
  else Err sql_error.

(** [INSERT INTO audit_chain_heads ... ON CONFLICT DO UPDATE] *)
Definition upsert_head (organization : string) (sequence : Z) (digest : string) (d : AuditDb) :
    audited (() * AuditDb) :=
  if 0 <? sequence
  then Ok (tt, {| audit_chain_heads := <[organization := (sequence, digest)]> (audit_chain_heads d);
                  audit_events := audit_events d; audit_payloads := audit_payloads d;
                  audit_payload_tombstones := audit_payload_tombstones d |})
  else Err sql_error.

(** ** Headers *)

Record EventHeaderFacts : Type := {
  facts_event_id : string;
  facts_occurred_at_millis : Z;
  facts_workspace_id : option string;
  facts_project_id : option string;
  facts_repository_id : option string;
  facts_retention_kind : string;
  facts_retention_until_millis : option Z
}.

#[global] Instance EventHeaderFacts_eq_dec : EqDecision EventHeaderFacts.
Proof. solve_decision. Defined.

Record StoredHeader : Type := {
  header_organization_id : string;
  header_sequence : Z;
  header_event_id : string;
  header_occurred_at_millis : Z;
  header_workspace_id : option string;
  header_project_id : option string;
  header_repository_id : option string;
  header_retention_kind : string;
  header_retention_until_millis : option Z;
  header_previous_digest : option string;
  header_event_digest : string;
  header_payload_digest : string;
  header_payload : option string;
  header_payload_pruned_at_millis : option Z;
  header_tombstone_event_digest : option string
}.

Record AuditRecord : Type := {
  record_sequence : Z;
  record_previous_digest : option string;
  record_event_digest : string;
  record_event : option AuditEvent
}.

Record AuditChainCheckpoint : Type := {
  checkpoint_organization_id : string;
  checkpoint_last_sequence : Z;
  checkpoint_last_digest : option string
}.

Record AuditPage : Type := { page_records : list AuditRecord; page_next_sequence : option Z }.

(** [i64::try_from] of a [u64]. *)
Definition to_i64 (e : AuditError) (z : Z) : audited Z := refuse (i64_max <? z) e ;; Ok z.

Definition event_header_facts (e : AuditEvent) : audited EventHeaderFacts :=
  retention ← match retention e with
              | UntilMillis value =>
                  until ← to_i64 (invalid "audit retention deadline exceeds the SQLite range") value;
                  Ok ("until", Some until)
              | Indefinite => Ok ("indefinite", None)
              end;
  occurred ← to_i64 (invalid "audit timestamp exceeds the SQLite range") (occurred_at_millis e);
  Ok {| facts_event_id := event_id e; facts_occurred_at_millis := occurred;
        facts_workspace_id := scope_workspace_id (scope e); facts_project_id := scope_project_id (scope e);
        facts_repository_id := scope_repository_id (scope e);
        facts_retention_kind := retention.1; facts_retention_until_millis := retention.2 |}.

Definition stored_header_facts (h : StoredHeader) : EventHeaderFacts :=
  {| facts_event_id := header_event_id h; facts_occurred_at_millis := header_occurred_at_millis h;
     facts_workspace_id := header_workspace_id h; facts_project_id := header_project_id h;
     facts_repository_id := header_repository_id h;
     facts_retention_kind :=
       if bool_decide (header_retention_kind h = "until") then "until"
       else if bool_decide (header_retention_kind h = "indefinite") then "indefinite" else "invalid";
     facts_retention_until_millis := header_retention_until_millis h |}.

(** [stored_header_row], on a row joined with its payload and its tombstone. *)
Definition stored_header_row (d : AuditDb) (r : EventRow) : StoredHeader :=
  {| header_organization_id := row_organization_id r;
     header_sequence := if row_sequence r <? 0 then 0 else row_sequence r;
     header_event_id := row_event_id r; header_occurred_at_millis := row_occurred_at_millis r;
     header_workspace_id := row_workspace_id r; header_project_id := row_project_id r;
     header_repository_id := row_repository_id r; header_retention_kind := row_retention_kind r;
     header_retention_until_millis := row_retention_until_millis r;
     header_previous_digest := row_previous_digest r; header_event_digest := row_event_digest r;
     header_payload_digest := row_payload_digest r;
     header_payload := audit_payloads d !! row_key r;
     header_payload_pruned_at_millis := fst <$> audit_payload_tombstones d !! row_key r;
     header_tombstone_event_digest := snd <$> audit_payload_tombstones d !! row_key r |}.

(** [WHERE organization_id = ... AND (filter) ORDER BY sequence] *)
Definition select_rows (d : AuditDb) (organization : string) (wanted : EventRow → bool) : list EventRow :=
  order_by row_sequence
    (filter (λ r, row_organization_id r = organization ∧ wanted r = true) (audit_events d)).

Definition select_headers (d : AuditDb) (organization : string) (wanted : EventRow → bool) : list StoredHeader :=
  stored_header_row d <$> select_rows d organization wanted.

Definition load_header_by_event_id (d : AuditDb) (event_id : string) : option StoredHeader :=
  stored_header_row d <$> head (filter (λ r, row_event_id r = event_id) (audit_events d)).

Section store.
Context (C : AuditCodec).

(** ** Digests *)

Definition sha256_digest (bytes : string) : string := "sha256:" +:+ sha256_hex C bytes.

(** [to_be_bytes] of an [i64], in two's complement. *)
Definition i64_be_bytes (z : Z) : string := to_be_bytes 8 (z mod (u64_max + 1)).

Definition framed (value : string) : string := to_be_bytes 8 (Z.min (str_len value) u64_max) +:+ value.

(** What [chain_digest] hashes. *)
Definition chain_message (organization : string) (sequence : Z) (previous : option string)
    (facts : EventHeaderFacts) (payload_digest : string) : string :=
  framed CHAIN_DOMAIN +:+
  framed organization +:+
  to_be_bytes 8 sequence +:+
  framed (default "" previous) +:+
  framed (facts_event_id facts) +:+
  i64_be_bytes (facts_occurred_at_millis facts) +:+
  framed (default "" (facts_workspace_id facts)) +:+
  framed (default "" (facts_project_id facts)) +:+
  framed (default "" (facts_repository_id facts)) +:+
  framed (facts_retention_kind facts) +:+
  i64_be_bytes (default 0 (facts_retention_until_millis facts)) +:+
  framed payload_digest.

Definition chain_digest (organization : string) (sequence : Z) (previous : option string)
    (facts : EventHeaderFacts) (payload_digest : string) : string :=
  "sha256:" +:+ sha256_hex C (chain_message organization sequence previous facts payload_digest).

(** ** Payloads *)

(** [serde_json::to_vec] and [serde_json::from_slice] of an event. *)
Definition event_to_vec (e : AuditEvent) : audited string :=
  w ← map_err json_error (subject_to_wire (subject e));
  Ok (to_vec C (with_subject e w)).

Definition event_from_slice (payload : string) : option AuditEvent :=
  match from_slice C payload with
  | Some w => match subject_from_wire (subject w) with Ok s => Some (with_subject w s) | Err _ => None end
  | None => None
  end.

(** The payload of [record_from_header]: present, or deleted under a tombstone. *)
Definition stored_event (h : StoredHeader) (facts : EventHeaderFacts) (payload : string) : audited AuditEvent :=
  refuse (bool_decide (sha256_digest payload ≠ header_payload_digest h))
    (corrupt "stored audit payload digest changed") ;;
  e ← ok_or (event_from_slice payload) (corrupt "stored audit payload is not canonical JSON");
  map_err (λ _, corrupt "stored audit payload is invalid") (validate_event e) ;;
  refuse (bool_decide (scope_organization_id (scope e) ≠ header_organization_id h))
    (corrupt "stored audit payload no longer matches its immutable header") ;;
  found ← event_header_facts e;
  refuse (bool_decide (found ≠ facts)) (corrupt "stored audit payload no longer matches its immutable header") ;;
  Ok e.

Definition tombstone_authorizes (h : StoredHeader) (pruned_at : Z) (digest : string) (as_of_millis : Z) : bool :=
  match header_retention_until_millis h with Some until => until <=? pruned_at | None => false end &&
  ((0 <=? pruned_at) && (pruned_at <=? as_of_millis)) && bool_decide (digest = header_event_digest h).

Definition record_from_header (h : StoredHeader) (as_of_millis : Z) : audited AuditRecord :=
  validate_digest (header_event_digest h) "stored audit event digest" ;;
  validate_digest (header_payload_digest h) "stored audit payload digest" ;;
  validate_optional_digest (header_previous_digest h) "stored audit previous digest" ;;
  let facts := stored_header_facts h in
  refuse (bool_decide (facts_retention_kind facts = "invalid") ||
          negb (eqb (bool_decide (facts_retention_kind facts = "until"))
                    (bool_decide (is_Some (facts_retention_until_millis facts)))))
    (corrupt "stored audit retention header is invalid") ;;
  refuse (bool_decide (chain_digest (header_organization_id h) (header_sequence h) (header_previous_digest h)
                         facts (header_payload_digest h) ≠ header_event_digest h))
    (corrupt "stored audit header digest changed") ;;
  event ← match header_payload h, header_payload_pruned_at_millis h, header_tombstone_event_digest h with
          | Some payload, None, None => Some <$> stored_event h facts payload
          | None, Some pruned_at, Some digest =>
              refuse (negb (tombstone_authorizes h pruned_at digest as_of_millis))
                (corrupt "audit retention tombstone does not authorize the missing payload") ;;
              Ok None
          | _, _, _ => Err (corrupt "audit payload and retention tombstone state is incomplete")
          end;
  Ok {| record_sequence := header_sequence h; record_previous_digest := header_previous_digest h;
        record_event_digest := header_event_digest h; record_event := event |}.

(** ** Append *)

Definition next_chain_position (d : AuditDb) (organization : string) : audited (Z * option string) :=
  let head := audit_chain_heads d !! organization in
  let tail := (λ r, (row_sequence r, row_event_digest r)) <$> last (select_rows d organization (λ _, true)) in
  match head, tail with
  | None, None => Ok (1, None)
  | Some head, Some tail =>
      refuse (bool_decide (head ≠ tail))
        (corrupt "audit organization chain head does not match its immutable tail") ;;
      let '(sequence, digest) := head in
      refuse (sequence <? 0) (corrupt "audit head sequence is negative") ;;
      validate_digest digest "stored audit head digest" ;;
      next ← ok_or (checked_add_u64 sequence 1) (adapter "audit sequence overflow");
      Ok (next, Some digest)
  | _, _ => Err (corrupt "audit organization chain head does not match its immutable tail")
  end.

(** The row that [append] inserts. *)
Definition event_row (organization : string) (sequence : Z) (previous : option string) (facts : EventHeaderFacts)
    (digest payload_digest : string) : EventRow :=
  {| row_organization_id := organization; row_sequence := sequence; row_event_id := facts_event_id facts;
     row_occurred_at_millis := facts_occurred_at_millis facts; row_workspace_id := facts_workspace_id facts;
     row_project_id := facts_project_id facts; row_repository_id := facts_repository_id facts;
     row_retention_kind := facts_retention_kind facts;
     row_retention_until_millis := facts_retention_until_millis facts; row_previous_digest := previous;
     row_event_digest := digest; row_payload_digest := payload_digest |}.

(** An event whose identifier is stored: the same facts are answered again. *)
Definition answer_again (e : AuditEvent) (payload_digest : string) (stored : StoredHeader) : audited AuditRecord :=
  record ← record_from_header stored u64_max;
  refuse (bool_decide (header_payload_digest stored ≠ payload_digest)) request_conflict ;;
  facts ← event_header_facts e;
  refuse (bool_decide (stored_header_facts stored ≠ facts)) request_conflict ;;
  Ok record.

Definition append_new (e : AuditEvent) (payload : string) : tx AuditDb AuditError AuditRecord :=
  let organization := scope_organization_id (scope e) in
  let payload_digest := sha256_digest payload in
  position ← query (λ d, next_chain_position d organization);
  let '(sequence, previous) := position in
  facts ← lift (event_header_facts e);
  let digest := chain_digest organization sequence previous facts payload_digest in
  sequence_sql ← lift (to_i64 (adapter "audit sequence exceeds the SQLite range") sequence);
  execute (insert_event (event_row organization sequence_sql previous facts digest payload_digest)) ;;
  execute (insert_payload (organization, sequence_sql) payload) ;;
  execute (upsert_head organization sequence_sql digest) ;;
  mret {| record_sequence := sequence; record_previous_digest := previous; record_event_digest := digest;
          record_event := Some e |}.

Definition append_tx (e : AuditEvent) : tx AuditDb AuditError AuditRecord :=
  lift (validate_event e) ;;
  payload ← lift (event_to_vec e);
  stored ← query (λ d, Ok (load_header_by_event_id d (event_id e)));
  match stored with
  | Some stored => lift (answer_again e (sha256_digest payload) stored)
  | None => append_new e payload
  end.

Definition append (d : AuditDb) (e : AuditEvent) : AuditDb * audited AuditRecord := commit d (append_tx e).

(** ** Verification *)

(** The loop of [verify_checkpoint]: the sequence expected next and the digest before it. *)
Fixpoint verify_loop (headers : list StoredHeader) (expected : Z) (previous : option string) :
    audited (Z * option string) :=
  match headers with
  | [] => Ok (expected, previous)
  | h :: headers =>
      refuse (bool_decide (header_sequence h ≠ expected) || bool_decide (header_previous_digest h ≠ previous))
        (corrupt "audit organization chain sequence or previous digest changed") ;;
      record ← record_from_header h u64_max;
      next ← ok_or (checked_add_u64 expected 1) (corrupt "audit sequence overflow");
      verify_loop headers next (Some (record_event_digest record))
  end.

(** [WHERE e.organization_id = ?1 AND e.sequence <= ?2] *)
Definition upto (upper : Z) (r : EventRow) : bool := row_sequence r <=? upper.

Definition upper_sequence (expected : option AuditChainCheckpoint) : Z :=
  match expected with
  | Some c => if i64_max <? checkpoint_last_sequence c then i64_max else checkpoint_last_sequence c
  | None => i64_max
  end.

Definition head_matches (d : AuditDb) (organization : string) (last_sequence : Z) (last_digest : option string) : bool :=
  match last_digest, audit_chain_heads d !! organization with
  | None, None => last_sequence =? 0
  | Some last_digest, Some (sequence, digest) =>
      (last_sequence <=? i64_max) && (last_sequence =? sequence) && bool_decide (last_digest = digest)
  | _, _ => false
  end.

Definition verify_checkpoint (d : AuditDb) (organization : string) (expected : option AuditChainCheckpoint) :
    audited AuditChainCheckpoint :=
  refuse (match expected with
          | Some c => bool_decide (checkpoint_organization_id c ≠ organization)
          | None => false
          end) (invalid "audit export checkpoint belongs to another organization") ;;
  found ← verify_loop (select_headers d organization (upto (upper_sequence expected))) 1 None;
  let '(next, last_digest) := found in
  let last_sequence := next - 1 in
  match expected with
  | Some c =>
      refuse (bool_decide (last_sequence ≠ checkpoint_last_sequence c) ||
              bool_decide (last_digest ≠ checkpoint_last_digest c))
        (corrupt "audit export snapshot no longer matches its verified checkpoint")
  | None =>
      refuse (negb (head_matches d organization last_sequence last_digest))
        (corrupt "audit organization chain head does not match its immutable tail")
  end ;;
  Ok {| checkpoint_organization_id := organization; checkpoint_last_sequence := last_sequence;
        checkpoint_last_digest := last_digest |}.

Definition validate_organization_id (organization : string) : audited () :=
  refuse (negb (is_canonical_prefixed_id organization "org_")) (invalid "audit organization identity is not canonical").

Definition verify_organization (d : AuditDb) (organization : string) : audited AuditChainCheckpoint :=
  validate_organization_id organization ;; verify_checkpoint d organization None.

(** ** Reads *)

Definition scope_admits (wanted found : option string) : bool :=
  match wanted with None => true | Some id => bool_decide (found = Some id) end.

Definition row_in_scope (s : AuditScope) (r : EventRow) : bool :=
  scope_admits (scope_workspace_id s) (row_workspace_id r) &&
  scope_admits (scope_project_id s) (row_project_id r) &&
  scope_admits (scope_repository_id s) (row_repository_id r).

Fixpoint read_records (headers : list StoredHeader) (as_of_millis : Z) : audited (list AuditRecord) :=
  match headers with
  | [] => Ok []
  | h :: headers =>
      record ← record_from_header h as_of_millis;
      records ← read_records headers as_of_millis;
      Ok (record :: records)
  end.

Definition read (d : AuditDb) (access : AuditAccess) (after_sequence : Z) (limit : nat) (as_of_millis : Z) :
    audited AuditPage :=
  validate_scope (access_scope access) ;;
  refuse (negb ((1 <=? limit)%nat && (limit <=? 200)%nat) || (i64_max <? after_sequence) || (i64_max <? as_of_millis))
    (invalid "audit page cursor, limit, or timestamp is out of range") ;;
  let s := access_scope access in
  let found := take (limit + 1) (select_headers d (scope_organization_id s)
                 (λ r, (after_sequence <? row_sequence r) && row_in_scope s r)) in
  let has_more := (limit <? length found)%nat in
  records ← read_records (if has_more then take (length found - 1) found else found) as_of_millis;
  Ok {| page_records := records;
        page_next_sequence := if has_more then record_sequence <$> last records else None |}.

Definition header_is_visible_to_scope (h : StoredHeader) (s : AuditScope) : bool :=
  bool_decide (header_organization_id h = scope_organization_id s) &&
  scope_admits (scope_workspace_id s) (header_workspace_id h) &&
  scope_admits (scope_project_id s) (header_project_id h) &&
  scope_admits (scope_repository_id s) (header_repository_id h).

Definition read_exact (d : AuditDb) (access : AuditAccess) (event_id : string) (as_of_millis : Z) :
    audited (option AuditRecord) :=
  validate_scope (access_scope access) ;;
  refuse (i64_max <? as_of_millis) (invalid "audit read timestamp is outside the SQLite range") ;;
  match load_header_by_event_id d event_id with
  | None => Ok None
  | Some h =>
      if header_is_visible_to_scope h (access_scope access)
      then Some <$> record_from_header h as_of_millis else Ok None
  end.

Definition export_snapshot_headers (d : AuditDb) (organization : string) (expected : option AuditChainCheckpoint)
    (after_sequence : Z) (limit : nat) : audited (AuditChainCheckpoint * list StoredHeader) :=
  validate_organization_id organization ;;
  refuse (negb ((1 <=? limit)%nat && (limit <=? 200)%nat) || (i64_max <? after_sequence))
    (invalid "audit export cursor or scan limit is out of range") ;;
  checkpoint ← verify_checkpoint d organization expected;
  refuse (checkpoint_last_sequence checkpoint <? after_sequence)
    (invalid "audit export cursor is beyond its fixed snapshot") ;;
  upper ← to_i64 (corrupt "audit export checkpoint exceeds the SQLite range") (checkpoint_last_sequence checkpoint);
  let headers := take limit (select_headers d organization
                   (λ r, (after_sequence <? row_sequence r) && upto upper r)) in
  read_records headers u64_max ;;
  Ok (checkpoint, headers).

(** ** Retention *)

(** The rows whose retention has passed and whose payload is still there. *)
Definition expired (d : AuditDb) (now : Z) (r : EventRow) : Prop :=
  row_retention_kind r = "until" ∧
  match row_retention_until_millis r with Some until => until ≤ now | None => False end ∧
  is_Some (audit_payloads d !! row_key r).

#[global] Instance expired_dec d now r : Decision (expired d now r).
Proof. unfold expired. destruct (row_retention_until_millis r); apply _. Defined.

Definition expired_rows (d : AuditDb) (now : Z) : list EventRow := filter (expired d now) (audit_events d).

(** [INSERT INTO audit_payload_tombstones ... ON CONFLICT DO NOTHING] *)
Definition insert_tombstones (now : Z) (d : AuditDb) : audited (() * AuditDb) :=
  if (0 <? now) || bool_decide (expired_rows d now = [])
  then Ok (tt, {| audit_chain_heads := audit_chain_heads d; audit_events := audit_events d;
                  audit_payloads := audit_payloads d;
                  audit_payload_tombstones :=
                    audit_payload_tombstones d ∪
                    list_to_map ((λ r, (row_key r, (now, row_event_digest r))) <$> expired_rows d now) |})
  else Err sql_error.

(** [DELETE FROM audit_payloads WHERE EXISTS (... tombstone ...)] *)
Definition delete_payloads (d : AuditDb) : audited (Z * AuditDb) :=
  let kept := filter (λ '(k, _), audit_payload_tombstones d !! k = None) (audit_payloads d) in
  Ok (Z.of_nat (size (audit_payloads d)) - Z.of_nat (size kept),
      {| audit_chain_heads := audit_chain_heads d; audit_events := audit_events d; audit_payloads := kept;
         audit_payload_tombstones := audit_payload_tombstones d |}).

Definition prune_tx (now_millis : Z) : tx AuditDb AuditError Z :=
  now ← lift (to_i64 (invalid "audit retention timestamp is out of range") now_millis);
  organizations ← query (λ d, Ok (dedup (sort_unstable (row_organization_id <$> expired_rows d now))));
  query (λ d, check_all (λ o, verify_organization d o ;; Ok tt) organizations) ;;
  execute (insert_tombstones now) ;;
  execute delete_payloads.

Definition prune_expired_payloads (d : AuditDb) (now_millis : Z) : AuditDb * audited Z := commit d (prune_tx now_millis).
End store.
