(* ===== verification/AuditFacts.v ===== *)
(** * Audit store: lemmas

    The round trip of an event through its JSON form, when a stored header is accepted, and how
    the chain of an organisation is read off the tables. *)

From Stdlib Require Import Ascii String.
From S2P Require Import Prelude Text Numerals Ordered Transaction StateKeys AuditTypes AuditTables.
Local Open Scope Z_scope.

(** ** Events through JSON *)

(** A subject with a delivery and a publication and nothing else is written as a publication. *)
Definition normal_subject (s : AuditSubject) : AuditSubject :=
  match s with References (Some d) None None (Some p) => Publication d p | _ => s end.

Definition normal (e : AuditEvent) : AuditEvent := with_subject e (normal_subject (subject e)).

Lemma validate_normal_subject s : validate_subject s = Ok tt → validate_subject (normal_subject s) = Ok tt.
Proof. destruct s as [[d|] [|] [|] [p|]| | | |]; cbn; try done. rewrite !refuse_Ok, !orb_false_r. done. Qed.

Lemma identity_wire_Ok i : validate_identity i = Ok tt → identity_from_wire i = Ok i.
Proof.
  unfold identity_from_wire, identity_try_new. intros H. rewrite H.
  unfold validate_identity in H. inv_result.
  destruct (identity_source_sequence i), (identity_binding_source i); done.
Qed.

Lemma subject_round_trip s w : subject_to_wire s = Ok w → subject_from_wire w = Ok (normal_subject s).
Proof.
  unfold subject_to_wire. intros H. apply bind_Ok in H as ([] & Hv & [= <-]).
  pose proof (validate_normal_subject s Hv) as Hn. unfold subject_from_wire.
  destruct s as [[d|] [|] [|] [p|]| |i|i|i]; cbn [normal_subject] in *; cbn [mbind result_bind];
    try (by rewrite Hn).
  all: rewrite (identity_wire_Ok i) by (cbn in Hv; by apply bind_Ok in Hv as ([] & ? & _)); cbn [mbind result_bind]; by rewrite Hv.
Qed.

(** The builders only make subjects that read back as they are. *)
Definition builds (f : AuditSubject → string → option AuditSubject) : Prop :=
  ∀ s id s', normal_subject s = s → f s id = Some s' → normal_subject s' = s'.

Lemma built_subjects_normal :
  normal_subject new_subject = new_subject ∧
  builds with_delivery ∧ builds with_product_session ∧ builds with_lease ∧ builds with_publication.
Proof.
  split; [done|]. repeat split; intros s id s' Hs H;
    destruct s as [[d|] [|] [|] [p|]| | | |]; cbn in *; by simplify_eq.
Qed.

Lemma subject_wire_normal s w : subject_to_wire s = Ok w → subject_to_wire (normal_subject s) = Ok w.
Proof.
  unfold subject_to_wire. intros H. apply bind_Ok in H as ([] & Hv & [= <-]).
  rewrite (validate_normal_subject s) by done. cbn.
  by destruct s as [[d|] [|] [|] [p|]| | | |].
Qed.

Lemma validate_event_parts e :
  validate_event e = Ok tt ↔
  canonical_id (event_id e) "aud" = true ∧ (occurred_at_millis e =? 0) = false ∧ (i64_max <? occurred_at_millis e) = false ∧
  validate_actor (actor e) = Ok tt ∧ validate_scope (scope e) = Ok tt ∧ canonical_id (request_id e) "req" = true ∧
  validate_action (action e) = Ok tt ∧ validate_state (state e) = Ok tt ∧ validate_origin (origin e) = Ok tt ∧
  validate_subject (subject e) = Ok tt ∧ validate_token (result_code e) "audit result code" = Ok tt ∧
  match outcome e with Rejected | Failed => is_changed (state e) | Succeeded => false end = false ∧
  match retention e with UntilMillis until => until <=? occurred_at_millis e | Indefinite => false end = false.
Proof.
  unfold validate_event. split.
  - intros H. inv_result. split_bools. repeat match goal with a : () |- _ => destruct a end. by split_and!.
  - intros (->&->&->&->&->&->&->&->&->&->&->&->&->). done.
Qed.

Lemma validate_normal e : validate_event e = Ok tt → validate_event (normal e) = Ok tt.
Proof.
  rewrite !validate_event_parts. unfold normal, with_subject. cbn.
  intros H. destruct_and! H. split_and!; try done. by apply validate_normal_subject.
Qed.

Lemma normal_idem e : normal (normal e) = normal e.
Proof. unfold normal, with_subject. destruct e as [? ? ? ? ? ? ? ? s ? ? ?]. cbn. f_equal. by destruct s as [[d|] [|] [|] [p|]| | | |]. Qed.

Lemma facts_normal e : event_header_facts (normal e) = event_header_facts e.
Proof. done. Qed.

Lemma audit_i64_Ok err z q : to_i64 err z = Ok q ↔ q = z ∧ z ≤ i64_max.
Proof.
  unfold to_i64. destruct (Z.ltb_spec i64_max z); cbn; split; [done|lia|by intros [= <-]|by intros [-> _]].
Qed.

(** ** Headers *)

Definition sealed_kind (h : StoredHeader) : Prop :=
  header_retention_kind h = "until" ∧ is_Some (header_retention_until_millis h) ∨
  header_retention_kind h = "indefinite" ∧ header_retention_until_millis h = None.

Section facts.
Context (C : AuditCodec).

(** What the header alone must satisfy. *)
Record sealed (h : StoredHeader) : Prop := {
  sealed_event_digest : validate_digest (header_event_digest h) "stored audit event digest" = Ok tt;
  sealed_payload_digest : validate_digest (header_payload_digest h) "stored audit payload digest" = Ok tt;
  sealed_previous : validate_optional_digest (header_previous_digest h) "stored audit previous digest" = Ok tt;
  sealed_retention : sealed_kind h;
  sealed_digest : chain_digest C (header_organization_id h) (header_sequence h) (header_previous_digest h)
                    (stored_header_facts h) (header_payload_digest h) = header_event_digest h
}.

(** The event that the header gives at a time, with its payload or its tombstone. *)
Definition header_gives (h : StoredHeader) (as_of : Z) (event : option AuditEvent) : Prop :=
  (∃ payload e, header_payload h = Some payload ∧ header_payload_pruned_at_millis h = None ∧
     header_tombstone_event_digest h = None ∧ stored_event C h (stored_header_facts h) payload = Ok e ∧ event = Some e) ∨
  (∃ pruned digest, header_payload h = None ∧ header_payload_pruned_at_millis h = Some pruned ∧
     header_tombstone_event_digest h = Some digest ∧ tombstone_authorizes h pruned digest as_of = true ∧ event = None).

Lemma kind_check h :
  bool_decide (facts_retention_kind (stored_header_facts h) = "invalid") ||
  negb (eqb (bool_decide (facts_retention_kind (stored_header_facts h) = "until"))
            (bool_decide (is_Some (facts_retention_until_millis (stored_header_facts h))))) = false ↔ sealed_kind h.
Proof.
  unfold sealed_kind, stored_header_facts. cbn [facts_retention_kind facts_retention_until_millis].
  generalize (header_retention_kind h) (header_retention_until_millis h). intros kind until.
  destruct (decide (kind = "until")) as [->|Hu]; [|destruct (decide (kind = "indefinite")) as [->|Hi]].
  - destruct until; cbn; naive_solver.
  - destruct until; cbn; naive_solver.
  - rewrite !(bool_decide_eq_false_2 (kind = _)) by done. cbn. naive_solver.
Qed.

Lemma record_from_header_Ok h as_of r :
  record_from_header C h as_of = Ok r ↔
  sealed h ∧ ∃ event, header_gives h as_of event ∧
    r = {| record_sequence := header_sequence h; record_previous_digest := header_previous_digest h;
           record_event_digest := header_event_digest h; record_event := event |}.
Proof.
  unfold record_from_header. split.
  - intros H. inv_result. repeat match goal with a : () |- _ => destruct a end.
    split; [split; try done; [by apply kind_check|by split_bools]|].
    eexists. split; [|done]. unfold header_gives.
    destruct (header_payload h) eqn:?, (header_payload_pruned_at_millis h) eqn:?, (header_tombstone_event_digest h) eqn:?; inv_result; try done.
    + left. destruct (stored_event _ _ _ _) eqn:E; [|done]. cbn in *. simplify_eq. eauto 10.
    + right. split_bools. eauto 10.
  - intros ([H1 H2 H3 H4 H5] & event & He & ->). rewrite H1, H2, H3. cbn [mbind result_bind].
    rewrite refuse_run by (by apply kind_check). rewrite H5, refuse_run by apply differs_refl.
    destruct He as [(p & e & -> & -> & -> & -> & ->)|(t & g & -> & -> & -> & Ht & ->)]; cbn; [done|].
    by rewrite Ht.
Qed.

(** ** The loop of the verification *)

(** The digest that follows a chain, and the sequence. *)
Definition chain_end (hs : list StoredHeader) (previous : option string) : option string :=
  match last hs with Some h => Some (header_event_digest h) | None => previous end.

Definition intact (h : StoredHeader) : Prop := ∃ r, record_from_header C h u64_max = Ok r.

(** A header with its place in the chain. *)
Definition placed (h : StoredHeader) (expected : Z) (previous : option string) : Prop :=
  header_sequence h = expected ∧ header_previous_digest h = previous ∧ intact h.

Lemma verify_loop_cons h hs expected previous z :
  verify_loop C (h :: hs) expected previous = Ok z ↔
  placed h expected previous ∧ expected + 1 ≤ u64_max ∧
  verify_loop C hs (expected + 1) (Some (header_event_digest h)) = Ok z.
Proof.
  cbn [verify_loop]. unfold placed. split.
  - intros H. inv_result. split_bools. apply record_from_header_Ok in H1 as Hr. destruct Hr as (_ & e & _ & ->).
    split_and!; try done. by eexists.
  - intros ((-> & -> & [r Hr]) & Hle & Hl). rewrite !differs_refl. cbn. rewrite Hr. cbn.
    rewrite (proj2 (checked_add_u64_Some expected 1 (expected + 1))) by done. cbn.
    apply record_from_header_Ok in Hr as (_ & e & _ & ->). done.
Qed.

Lemma verify_loop_app hs ks expected previous z :
  verify_loop C (hs ++ ks) expected previous = Ok z ↔
  ∃ y, verify_loop C hs expected previous = Ok y ∧ verify_loop C ks y.1 y.2 = Ok z.
Proof.
  revert expected previous. induction hs as [|h hs IH]; intros expected previous.
  - cbn. split; [intros H; by exists (expected, previous)|by intros (? & [= <-] & ?)].
  - rewrite <-app_comm_cons, verify_loop_cons, IH. setoid_rewrite verify_loop_cons. naive_solver.
Qed.

Lemma verify_loop_Ok hs expected previous next final :
  verify_loop C hs expected previous = Ok (next, final) →
  next = expected + Z.of_nat (length hs) ∧ final = chain_end hs previous ∧
  header_sequence <$> hs = seqZ expected (Z.of_nat (length hs)) ∧
  Forall (λ h, intact h) hs.
Proof.
  revert expected previous. induction hs as [|h hs IH]; intros expected previous H.
  - cbn in *. simplify_eq. split_and!; [lia|done..].
  - apply verify_loop_cons in H as ((Hs & _ & Hr) & _ & H). apply IH in H as (-> & -> & Hseq & Hf).
    rewrite length_cons, Nat2Z.inj_succ. split_and!; [lia| | |by constructor].
    + unfold chain_end. destruct hs as [|k hs]; [done|]. rewrite last_cons_cons. by destruct (last (k :: hs)) eqn:E; [|by apply last_None in E].
    + rewrite fmap_cons, seqZ_cons by lia. rewrite Hs, Hseq. by rewrite Z.pred_succ, Z.add_1_r.
Qed.

(** Headers that keep their place and digest, and are still accepted, verify as before. *)
Lemma verify_loop_map {A} (f g : A → StoredHeader) (l : list A) expected previous z :
  Forall (λ x, header_sequence (g x) = header_sequence (f x) ∧
               header_previous_digest (g x) = header_previous_digest (f x) ∧
               header_event_digest (g x) = header_event_digest (f x) ∧ (intact (f x) → intact (g x))) l →
  verify_loop C (f <$> l) expected previous = Ok z → verify_loop C (g <$> l) expected previous = Ok z.
Proof.
  intros Hf. revert expected previous. induction Hf as [|h hs (Hs & Hp & Hd & Hr) _ IH]; intros expected previous; [done|].
  rewrite !fmap_cons, !verify_loop_cons, Hd. unfold placed. rewrite Hs, Hp. intros ((? & ? & ?) & ? & ?). auto 10.
Qed.
End facts.

(** ** Digests *)

Lemma audit_digest_Ok digest field u : validate_digest digest field = Ok u ↔ sha256_shape digest = true.
Proof.
  unfold validate_digest, sha256_shape. destruct (strip_prefix "sha256:" digest) as [v|]; [|done].
  rewrite refuse_Ok, orb_false_iff, !negb_false_iff, andb_true_iff.
  assert (Heq : ∀ c, hex_digit c && negb (is_ascii_upper c) = is_hex_lower c).
  { intros c. unfold hex_digit, is_ascii_upper, is_hex_lower, is_ascii_digit, in_range. apply eq_bool_prop_intro.
    rewrite !Is_true_true. lia. }
  assert (Hall : all_bytes (λ c, hex_digit c && negb (is_ascii_upper c)) v = all_bytes is_hex_lower v).
  { unfold all_bytes. induction (bytes v) as [|c l IH]; [done|]. cbn. by rewrite Heq, IH. }
  by rewrite Hall.
Qed.

Lemma canonical_organization o : canonical_id o "org" = is_canonical_prefixed_id o "org_".
Proof.
  unfold canonical_id, is_canonical_prefixed_id. change "org_" with ("org" +:+ "_")%string.
  destruct (strip_prefix "org" o ≫= strip_prefix "_") as [r|] eqn:E.
  - apply bind_Some in E as (x & ->%strip_prefix_Some & ->%strip_prefix_Some).
    by rewrite (proj2 (strip_prefix_Some _ _ r)).
  - destruct (strip_prefix ("org" +:+ "_") o) as [r|] eqn:E'; [|done]. exfalso.
    apply strip_prefix_Some in E' as ->. by rewrite (proj2 (strip_prefix_Some "org" _ ("_" +:+ r))) in E.
Qed.

Section laws.
Context (C : AuditCodec) `{!AuditCodecLaws C}.

Lemma hash_validates b field : validate_digest ("sha256:" +:+ sha256_hex C b) field = Ok tt.
Proof. apply audit_digest_Ok, hash_is_digest. Qed.

Lemma event_round_trip e payload : event_to_vec C e = Ok payload → event_from_slice C payload = Some (normal e).
Proof.
  unfold event_to_vec, event_from_slice. intros H. apply bind_Ok in H as (w & Hw & [= <-]).
  apply map_err_Ok in Hw. rewrite written_is_read.
  change (subject (with_subject e w)) with w. by rewrite (subject_round_trip _ _ Hw).
Qed.

(** An event that is checked can be written. *)
Lemma event_to_vec_total e : validate_event e = Ok tt → ∃ payload, event_to_vec C e = Ok payload.
Proof.
  intros (_ & _ & _ & _ & _ & _ & _ & _ & _ & Hs & _)%validate_event_parts.
  unfold event_to_vec, subject_to_wire. rewrite Hs. cbn. eauto.
Qed.
End laws.

(** ** Identifiers from digests *)

Lemma base32_digits_shape n v acc :
  all_bytes base32_byte acc = true →
  all_bytes base32_byte (base32_digits n v acc) = true ∧ str_len (base32_digits n v acc) = Z.of_nat n + str_len acc.
Proof.
  revert v acc. induction n as [|n IH]; intros v acc Ha; [split; [done|cbn; lia]|]. cbn [base32_digits].
  set (c := default "0"%char _). assert (Hc : base32_byte c = true).
  { subst c. destruct (bytes CROCKFORD_BASE32 !! _) as [x|] eqn:E; [|done]. cbn. apply list_elem_of_lookup_2, list_elem_of_In in E.
    revert x E. apply forallb_forall. vm_compute. reflexivity. }
  destruct (IH (Z.shiftr v 5) (String c acc)) as [H1 H2].
  { unfold all_bytes in *. cbn [bytes list_ascii_of_string forallb]. by rewrite Hc. }
  split; [done|]. rewrite H2. unfold str_len. cbn [String.length]. lia.
Qed.

(** The identifier of an event that is derived from a digest is canonical. *)
Lemma event_id_from_digest_canonical digest id : event_id_from_digest digest = Ok id → canonical_id id "aud" = true.
Proof.
  unfold event_id_from_digest. intros H. apply bind_Ok in H as ([] & _ & H). apply bind_Ok in H as (hex & _ & H).
  apply bind_Ok in H as (value & _ & H).
  assert (Hid : id = "aud_" +:+ base32_digits 26 value "") by congruence. rewrite Hid. clear. unfold canonical_id.
  destruct (base32_digits_shape 26 value "" eq_refl) as [Ha Hl].
  generalize dependent (base32_digits 26 value ""). intros suffix Ha Hl.
  change ("aud_" +:+ suffix) with ("aud" +:+ ("_" +:+ suffix)).
  rewrite (proj2 (strip_prefix_Some "aud" _ ("_" +:+ suffix)) eq_refl). cbn [mbind option_bind].
  rewrite (proj2 (strip_prefix_Some "_" _ suffix) eq_refl). by rewrite Ha, Hl.
Qed.
