(* ===== verification/AuditChain.v ===== *)
(** * Audit store: the invariant

    The chain of every organisation verifies and ends where its head says.  [append] puts one
    header at the end of one chain, [prune_expired_payloads] replaces payloads by tombstones;
    both keep the invariant. *)

From Stdlib Require Import Ascii String.
From S2P Require Import Prelude Text Numerals Ordered Transaction StateKeys AuditTypes AuditTables AuditFacts.
Local Open Scope Z_scope.

(** The rows of an organisation in the order of their sequence. *)
Definition chain (d : AuditDb) (o : string) : list EventRow := select_rows d o (λ _, true).

Definition headers (d : AuditDb) (o : string) : list StoredHeader := stored_header_row d <$> chain d o.

Lemma select_chain d o w : select_rows d o w = filter (λ r, w r = true) (chain d o).
Proof.
  unfold chain, select_rows. rewrite <-order_filter. f_equal. rewrite list_filter_filter.
  apply list_filter_iff. naive_solver.
Qed.

Lemma chain_elem d o r : r ∈ chain d o ↔ r ∈ audit_events d ∧ row_organization_id r = o.
Proof. unfold chain, select_rows. rewrite order_elem, list_elem_of_filter. naive_solver. Qed.

Definition row_fits (r : EventRow) : Prop :=
  is_canonical_prefixed_id (row_organization_id r) "org_" = true ∧ 1 ≤ row_sequence r ≤ i64_max ∧
  0 < row_occurred_at_millis r ≤ i64_max ∧ (∀ u, row_retention_until_millis r = Some u → 0 < u ≤ i64_max).

Section chain.
Context (C : AuditCodec) `{!AuditCodecLaws C}.

Record audit_wf (d : AuditDb) : Prop := {
  wf_verifies o : verify_loop C (headers d o) 1 None = Ok (Z.of_nat (length (chain d o)) + 1, chain_end (headers d o) None);
  wf_head o : audit_chain_heads d !! o = (λ r, (row_sequence r, row_event_digest r)) <$> last (chain d o);
  wf_rows : Forall row_fits (audit_events d);
  wf_ids : NoDup (row_event_id <$> audit_events d);
  wf_payload k p : audit_payloads d !! k = Some p → k ∈ row_key <$> audit_events d;
  wf_tombstone k t : audit_payload_tombstones d !! k = Some t → k ∈ row_key <$> audit_events d
}.

Lemma audit_empty_wf : audit_wf empty_db.
Proof.
  split.
  - intros o. done.
  - intros o. done.
  - constructor.
  - constructor.
  - intros k p. unfold empty_db. cbn [audit_payloads]. by rewrite lookup_empty.
  - intros k t. unfold empty_db. cbn [audit_payload_tombstones]. by rewrite lookup_empty.
Qed.

(** ** What the invariant says of the rows *)

Section rows.
Context (d : AuditDb) (Hd : audit_wf d).

Lemma chain_row_fits o r : r ∈ chain d o → row_fits r.
Proof. intros [Hr _]%chain_elem. exact (proj1 (Forall_forall _ _) (wf_rows d Hd) r Hr). Qed.

Lemma header_sequence_row r : r ∈ audit_events d → header_sequence (stored_header_row d r) = row_sequence r.
Proof.
  intros Hr. pose proof (proj1 (Forall_forall _ _) (wf_rows d Hd) r Hr) as (_ & Hs & _). cbn.
  rewrite (proj2 (Z.ltb_ge _ _)); lia.
Qed.

Lemma chain_numbered o : row_sequence <$> chain d o = seqZ 1 (Z.of_nat (length (chain d o))).
Proof.
  destruct (verify_loop_Ok C _ _ _ _ _ (wf_verifies d Hd o)) as (_ & _ & Hs & _). unfold headers in Hs.
  rewrite length_fmap, <-list_fmap_compose in Hs. rewrite <-Hs. apply list_fmap_ext. intros i r Hr. symmetry.
  apply header_sequence_row. apply list_elem_of_lookup_2 in Hr. by apply chain_elem in Hr as [? _].
Qed.

Lemma chain_at o i r : chain d o !! i = Some r → row_sequence r = 1 + Z.of_nat i.
Proof.
  intros Hr. pose proof (chain_numbered o) as Hn. apply (f_equal (.!! i)) in Hn. rewrite list_lookup_fmap, Hr in Hn.
  cbn in Hn. symmetry in Hn. apply lookup_seqZ in Hn. lia.
Qed.

Lemma row_key_inj r r' : r ∈ audit_events d → r' ∈ audit_events d → row_key r = row_key r' → r = r'.
Proof.
  intros Hr Hr' [= Ho Hs].
  assert (H : r ∈ chain d (row_organization_id r)) by (by apply chain_elem).
  assert (H' : r' ∈ chain d (row_organization_id r)) by (by apply chain_elem).
  apply list_elem_of_lookup in H as [i Hi], H' as [j Hj].
  apply chain_at in Hi as Ei, Hj as Ej. assert (i = j) as -> by lia. congruence.
Qed.

Lemma row_intact r : r ∈ audit_events d → intact C (stored_header_row d r).
Proof.
  intros Hr. destruct (verify_loop_Ok C _ _ _ _ _ (wf_verifies d Hd (row_organization_id r))) as (_ & _ & _ & Hf).
  apply (proj1 (Forall_forall _ _) Hf). unfold headers. apply list_elem_of_fmap_2. by apply chain_elem.
Qed.

Lemma row_id_inj r r' : r ∈ audit_events d → r' ∈ audit_events d → row_event_id r = row_event_id r' → r = r'.
Proof.
  pose proof (wf_ids d Hd) as Hn. induction (audit_events d) as [|x l IH]; [set_solver|].
  rewrite fmap_cons, NoDup_cons in Hn. destruct Hn as [Hx Hn]. rewrite !elem_of_cons.
  intros [->|Hr] [->|Hr'] Heq; [done| | |auto].
  - destruct Hx. rewrite Heq. by apply list_elem_of_fmap_2.
  - destruct Hx. rewrite <-Heq. by apply list_elem_of_fmap_2.
Qed.

(** The header of an identifier is that of its row. *)
Lemma load_row r : r ∈ audit_events d → load_header_by_event_id d (row_event_id r) = Some (stored_header_row d r).
Proof.
  intros Hr. unfold load_header_by_event_id.
  assert (Hf : r ∈ filter (λ x, row_event_id x = row_event_id r) (audit_events d)) by (by apply list_elem_of_filter).
  destruct (filter _ (audit_events d)) as [|x l] eqn:E; [set_solver|]. cbn. do 2 f_equal.
  assert (Hx : x ∈ filter (λ x, row_event_id x = row_event_id r) (audit_events d)) by (rewrite E; by left).
  apply list_elem_of_filter in Hx as [Hi Hx]. by apply row_id_inj.
Qed.
End rows.

Lemma load_None d i : load_header_by_event_id d i = None ↔ i ∉ row_event_id <$> audit_events d.
Proof.
  unfold load_header_by_event_id. rewrite fmap_None, head_None. split.
  - intros Hf Hi. apply list_elem_of_fmap in Hi as (r & -> & Hr).
    assert (r ∈ filter (λ x, row_event_id x = row_event_id r) (audit_events d)) by (by apply list_elem_of_filter).
    rewrite Hf in H. set_solver.
  - intros Hi. apply filter_none, Forall_forall. intros r Hr Hri. destruct Hi. rewrite <-Hri. by apply list_elem_of_fmap_2.
Qed.

Lemma load_Some d i h : load_header_by_event_id d i = Some h → ∃ r, r ∈ audit_events d ∧ row_event_id r = i ∧ h = stored_header_row d r.
Proof.
  unfold load_header_by_event_id. intros H. apply fmap_Some in H as (r & Hr & ->).
  exists r. assert (r ∈ filter (λ x, row_event_id x = i) (audit_events d)) as [? ?]%list_elem_of_filter; [|done].
  destruct (filter _ (audit_events d)); [done|]. cbn in Hr. simplify_eq. by left.
Qed.

(** ** Append *)

Definition appended (d : AuditDb) (r : EventRow) (payload : string) : AuditDb :=
  {| audit_chain_heads := <[row_organization_id r := (row_sequence r, row_event_digest r)]> (audit_chain_heads d);
     audit_events := audit_events d ++ [r]; audit_payloads := <[row_key r := payload]> (audit_payloads d);
     audit_payload_tombstones := audit_payload_tombstones d |}.

Definition next_sequence (d : AuditDb) (o : string) : Z := Z.of_nat (length (chain d o)) + 1.

Definition previous_digest (d : AuditDb) (o : string) : option string := row_event_digest <$> last (chain d o).

(** The row and the record of a new event. *)
Definition new_row (d : AuditDb) (e : AuditEvent) (facts : EventHeaderFacts) (payload : string) : EventRow :=
  let o := scope_organization_id (scope e) in
  event_row o (next_sequence d o) (previous_digest d o) facts
    (chain_digest C o (next_sequence d o) (previous_digest d o) facts (sha256_digest C payload))
    (sha256_digest C payload).

Definition new_record (r : EventRow) (e : AuditEvent) : AuditRecord :=
  {| record_sequence := row_sequence r; record_previous_digest := row_previous_digest r;
     record_event_digest := row_event_digest r; record_event := Some e |}.

Lemma previous_is_end d o : chain_end (headers d o) None = previous_digest d o.
Proof. unfold chain_end, headers, previous_digest. rewrite fmap_last. by destruct (last (chain d o)). Qed.

Lemma last_chain_sequence d o r : audit_wf d → last (chain d o) = Some r → row_sequence r = next_sequence d o - 1.
Proof.
  intros Hd Hr. destruct (seqZ_ends row_sequence (chain d o) 1 (chain_numbered d Hd o)) as [_ Hl].
  { intros E. by rewrite E in Hr. }
  rewrite Hr in Hl. cbn in Hl. unfold next_sequence. simplify_eq. lia.
Qed.

Lemma next_position d o :
  audit_wf d → next_chain_position d o = Ok (next_sequence d o, previous_digest d o).
Proof.
  intros Hd. unfold next_chain_position. rewrite (wf_head d Hd). fold (chain d o).
  destruct (last (chain d o)) as [r|] eqn:E.
  - cbn [fmap option_fmap option_map]. rewrite differs_refl. cbn [refuse mbind result_bind].
    pose proof (last_chain_sequence d o r Hd E) as Hs. apply last_Some_elem_of in E as Hr.
    pose proof (chain_row_fits d Hd o r Hr) as (_ & Hf & _).
    rewrite refuse_run by (apply Z.ltb_ge; lia).
    destruct (row_intact d Hd r) as [a Ha]; [by apply chain_elem in Hr as [? _]|].
    apply record_from_header_Ok in Ha as (Ha & _). pose proof (sealed_event_digest C _ Ha) as Hv. cbn in Hv.
    apply audit_digest_Ok in Hv. rewrite (proj2 (audit_digest_Ok _ _ tt) Hv). cbn [mbind result_bind].
    rewrite (proj2 (checked_add_u64_Some (row_sequence r) 1 (row_sequence r + 1))).
    2: { split; [done|]. assert (i64_max + 1 ≤ u64_max) by done. lia. }
    cbn. unfold previous_digest. rewrite E. cbn. do 2 f_equal. lia.
  - cbn. unfold previous_digest, next_sequence. rewrite E. apply last_None in E. by rewrite E.
Qed.

(** A row with the next sequence has a key of its own. *)
Lemma next_key_fresh d r :
  audit_wf d → row_sequence r = next_sequence d (row_organization_id r) → row_key r ∉ row_key <$> audit_events d.
Proof.
  intros Hd Hs Hk. apply list_elem_of_fmap in Hk as (x & [= Ho Hx] & Hin).
  assert (Hc : x ∈ chain d (row_organization_id r)) by (by apply chain_elem).
  apply (list_elem_of_fmap_2 row_sequence) in Hc. rewrite (chain_numbered d Hd) in Hc. apply elem_of_seqZ in Hc.
  unfold next_sequence in Hs. lia.
Qed.

Lemma append_new_iff d e payload z :
  audit_wf d →
  append_new C e payload d = Ok z ↔
  ∃ facts, event_header_facts e = Ok facts ∧ row_accepted d (new_row d e facts payload) = true ∧
    next_sequence d (scope_organization_id (scope e)) ≤ i64_max ∧
    z = (new_record (new_row d e facts payload) e, appended d (new_row d e facts payload) payload).
Proof.
  intros Hd. set (o := scope_organization_id (scope e)). unfold append_new. fold o.
  rewrite (query_run (λ d, next_chain_position d o) _ _ _ (next_position d o Hd)), lift_bind_iff.
  assert (Hgo : ∀ facts, (sequence_sql ← lift (to_i64 (adapter "audit sequence exceeds the SQLite range") (next_sequence d o));
      execute (insert_event (event_row o sequence_sql (previous_digest d o) facts
        (chain_digest C o (next_sequence d o) (previous_digest d o) facts (sha256_digest C payload)) (sha256_digest C payload))) ;;
      execute (insert_payload (o, sequence_sql) payload) ;;
      execute (upsert_head o sequence_sql (chain_digest C o (next_sequence d o) (previous_digest d o) facts (sha256_digest C payload))) ;;
      mret (new_record (new_row d e facts payload) e)) d = Ok z ↔
    row_accepted d (new_row d e facts payload) = true ∧ next_sequence d o ≤ i64_max ∧
    z = (new_record (new_row d e facts payload) e, appended d (new_row d e facts payload) payload)).
  { intros facts.
    assert (Hr : event_row o (next_sequence d o) (previous_digest d o) facts
      (chain_digest C o (next_sequence d o) (previous_digest d o) facts (sha256_digest C payload)) (sha256_digest C payload)
      = new_row d e facts payload) by done.
    rewrite lift_bind_iff. setoid_rewrite audit_i64_Ok. split.
    - intros (q & (-> & Hq) & H).
      rewrite Hr in H.
      unfold mbind, tx_bind, execute, insert_event in H. destruct (row_accepted d _) eqn:Ha; [|done].
      cbn [audit_payloads audit_events] in H. unfold insert_payload in H. destruct (bool_decide _ && _); [|done]. unfold upsert_head in H. destruct (0 <? _); [|done].
      cbn in H. injection H as <-. done.
    - intros (Ha & Hq & ->). exists (next_sequence d o). split; [done|].
      rewrite Hr.
      unfold mbind, tx_bind, execute, insert_event. rewrite Ha. unfold insert_payload. cbn [audit_payloads audit_events].
      rewrite bool_decide_eq_true_2.
      2: { destruct (audit_payloads d !! _) eqn:Hp; [|done]. apply (wf_payload d Hd) in Hp.
           by destruct (next_key_fresh d (new_row d e facts payload) Hd). }
      rewrite existsb_app. cbn [existsb]. rewrite (bool_decide_eq_true_2 (row_key _ = _)) by done.
      rewrite orb_true_r. cbn [andb]. unfold upsert_head. rewrite (proj2 (Z.ltb_lt _ _)); [done|].
      unfold next_sequence. lia. }
  split.
  - intros (facts & Hf & H). apply Hgo in H. naive_solver.
  - intros (facts & Hf & H). exists facts. split; [done|]. by apply Hgo.
Qed.

Lemma chain_appended d r payload o :
  audit_wf d → row_sequence r = next_sequence d (row_organization_id r) →
  chain (appended d r payload) o = chain d o ++ (if decide (row_organization_id r = o) then [r] else []).
Proof.
  intros Hd Hs. unfold chain at 1, select_rows. cbn [appended audit_events]. rewrite filter_app, filter_cons, filter_nil.
  destruct (decide (row_organization_id r = o)) as [<-|Hne].
  - rewrite decide_True by done. rewrite order_snoc. fold (select_rows d (row_organization_id r) (λ _, true)).
    fold (chain d (row_organization_id r)). apply place_last, Forall_forall. intros x Hx.
    apply (list_elem_of_fmap_2 row_sequence) in Hx. rewrite (chain_numbered d Hd) in Hx. apply elem_of_seqZ in Hx.
    unfold next_sequence in Hs. lia.
  - rewrite decide_False by naive_solver. by rewrite !app_nil_r.
Qed.

Lemma header_appended d r payload x :
  x ∈ audit_events d → row_key r ∉ row_key <$> audit_events d →
  stored_header_row (appended d r payload) x = stored_header_row d x.
Proof.
  intros Hx Hr. unfold stored_header_row. cbn [appended audit_payloads audit_payload_tombstones].
  rewrite lookup_insert_ne; [done|]. intros E. destruct Hr. rewrite E. by apply list_elem_of_fmap_2.
Qed.

Lemma facts_Ok e facts :
  event_header_facts e = Ok facts →
  facts_event_id facts = event_id e ∧ facts_occurred_at_millis facts = occurred_at_millis e ∧
  (facts_retention_kind facts = "until" ∧ facts_retention_until_millis facts = match retention e with UntilMillis u => Some u | _ => None end ∧ retention e ≠ Indefinite ∨
   facts_retention_kind facts = "indefinite" ∧ facts_retention_until_millis facts = None ∧ retention e = Indefinite) ∧
  facts_workspace_id facts = scope_workspace_id (scope e) ∧ facts_project_id facts = scope_project_id (scope e) ∧
  facts_repository_id facts = scope_repository_id (scope e).
Proof.
  unfold event_header_facts. intros H. apply bind_Ok in H as ([kind until] & Hk & H). apply bind_Ok in H as (t & Ht & H).
  apply audit_i64_Ok in Ht as [-> _]. injection H as <-. cbn.
  destruct (retention e); cbn in Hk; [apply bind_Ok in Hk as (u & [-> _]%audit_i64_Ok & [= <- <-])|injection Hk as <- <-]; naive_solver.
Qed.

Lemma facts_until e facts u : event_header_facts e = Ok facts → facts_retention_until_millis facts = Some u → u ≤ i64_max.
Proof.
  unfold event_header_facts. intros H. apply bind_Ok in H as ([kind until] & Hk & H). apply bind_Ok in H as (t & _ & H).
  injection H as <-. cbn. destruct (retention e); cbn in Hk; [|by simplify_eq].
  apply bind_Ok in Hk as (q & [-> ?]%audit_i64_Ok & Hk). injection Hk as <- <-. by intros [= <-].
Qed.

(** The row of an event whose facts fit, at some place of the chain. *)
Section new_row.
Context (d : AuditDb) (Hd : audit_wf d) (e : AuditEvent) (facts : EventHeaderFacts) (payload : string).
Context (Hvalid : validate_event e = Ok tt) (Hpayload : event_to_vec C e = Ok payload).
Context (Hfacts : event_header_facts e = Ok facts).
Abbreviation r := (new_row d e facts payload).

Lemma new_row_fresh : row_key r ∉ row_key <$> audit_events d.
Proof. by apply next_key_fresh. Qed.

Lemma stored_facts_new d' : stored_header_facts (stored_header_row d' r) = facts.
Proof.
  destruct (facts_Ok e facts Hfacts) as (_ & _ & Hk & _). unfold stored_header_facts, stored_header_row. cbn.
  destruct facts as [? ? ? ? ? kind until]. cbn in *. f_equal. by destruct Hk as [(-> & _)|(-> & _)].
Qed.

Lemma previous_validates field : validate_optional_digest (previous_digest d (scope_organization_id (scope e))) field = Ok tt.
Proof.
  unfold previous_digest. destruct (last _) as [x|] eqn:E; [|done]. cbn. apply last_Some_elem_of, chain_elem in E as [Hx _].
  destruct (row_intact d Hd x Hx) as [a (Ha & _)%record_from_header_Ok].
  pose proof (sealed_event_digest C _ Ha) as Hv. apply audit_digest_Ok in Hv. by apply audit_digest_Ok.
Qed.

Lemma new_row_sealed d' : sealed C (stored_header_row d' r).
Proof.
  split.
  - apply hash_validates. done.
  - apply hash_validates. done.
  - apply previous_validates.
  - destruct (facts_Ok e facts Hfacts) as (_ & _ & Hk & _). unfold sealed_kind. cbn.
    destruct Hk as [(-> & -> & Hr)|(-> & -> & _)]; [left|by right]. destruct (retention e); naive_solver.
  - rewrite stored_facts_new. cbn. rewrite (proj2 (Z.ltb_ge _ _)); [done|]. unfold next_sequence. lia.
Qed.

Lemma new_header_gives as_of : header_gives C (stored_header_row (appended d r payload) r) as_of (Some (normal e)).
Proof.
  left. exists payload, (normal e). cbn [stored_header_row header_payload header_payload_pruned_at_millis header_tombstone_event_digest appended audit_payloads audit_payload_tombstones].
  rewrite lookup_insert_eq.
  assert (audit_payload_tombstones d !! row_key r = None) as ->.
  { destruct (audit_payload_tombstones d !! row_key r) eqn:Ht; [|done]. by apply (wf_tombstone d Hd), new_row_fresh in Ht. }
  split_and!; [done..| |done]. rewrite stored_facts_new. unfold stored_event. cbn [header_payload_digest stored_header_row].
  rewrite (differs_refl (sha256_digest C payload)). cbn [refuse mbind result_bind].
  rewrite (event_round_trip C e payload Hpayload). cbn [ok_or mbind result_bind].
  rewrite (validate_normal e Hvalid). cbn [map_err mbind result_bind].
  rewrite (differs_refl (scope_organization_id (scope e))). cbn [refuse mbind result_bind].
  rewrite facts_normal, Hfacts. cbn [mbind result_bind]. by rewrite differs_refl.
Qed.

(** The new header read back. *)
Lemma new_header_record as_of :
  record_from_header C (stored_header_row (appended d r payload) r) as_of = Ok (new_record r (normal e)).
Proof.
  apply record_from_header_Ok. split; [apply new_row_sealed|]. exists (Some (normal e)). split; [apply new_header_gives|].
  unfold new_record. cbn. rewrite (proj2 (Z.ltb_ge _ _)); [done|]. unfold next_sequence. lia.
Qed.

Context (Haccept : row_accepted d r = true) (Hfit : next_sequence d (scope_organization_id (scope e)) ≤ i64_max).

Lemma new_row_fits : row_fits r.
Proof.
  apply validate_event_parts in Hvalid as (_ & _ & Hocc & _ & Hs & _ & _ & _ & _ & _ & _ & _ & Hret).
  destruct (facts_Ok e facts Hfacts) as (_ & Ho & Hk & _). pose proof (λ u, facts_until e facts u Hfacts) as Hu.
  unfold row_accepted in Haccept. split_bools. split_and!.
  - rewrite <-canonical_organization. unfold validate_scope in Hs. apply refuse_Ok in Hs. by split_bools.
  - cbn. unfold next_sequence. lia.
  - cbn. unfold next_sequence in *. lia.
  - cbn in *. lia.
  - cbn in *. lia.
  - cbn in *. intros u Eu. specialize (Hu u Eu).
    destruct Hk as [(_ & Hk & _)|(_ & Hk & _)]; rewrite Hk in Eu; [|done]. destruct (retention e); [|done]. simplify_eq. lia.
Qed.

Lemma appended_wf : audit_wf (appended d r payload).
Proof.
  assert (Hnew : row_event_id r ∉ row_event_id <$> audit_events d).
  { unfold row_accepted in Haccept. split_bools. intros Hi. apply list_elem_of_fmap in Hi as (x & Ex & Hx).
    rewrite forallb_forall in *. apply list_elem_of_In in Hx. apply H in Hx. split_bools. by destruct H7. }
  split.
  - intros o. unfold headers. rewrite (chain_appended d r payload o Hd eq_refl), fmap_app.
    assert (Hold : stored_header_row (appended d r payload) <$> chain d o = headers d o).
    { apply list_fmap_ext. intros i x Hx%list_elem_of_lookup_2. apply chain_elem in Hx as [Hx _].
      apply header_appended; [done|apply new_row_fresh]. }
    rewrite Hold. pose proof (wf_verifies d Hd o) as Hv.
    destruct (decide (row_organization_id r = o)) as [<-|Hne]; [|by rewrite !app_nil_r].
    apply verify_loop_app. eexists. split; [exact Hv|]. rewrite previous_is_end.
    rewrite length_app, Nat2Z.inj_add. cbn [fst snd fmap list_fmap]. unfold chain_end. rewrite last_snoc.
    apply verify_loop_cons. split_and!; [split_and!| |].
    + cbn. rewrite (proj2 (Z.ltb_ge _ _)); [done|]. unfold next_sequence. lia.
    + done.
    + eexists. apply new_header_record.
    + unfold next_sequence in Hfit. assert (i64_max + 1 ≤ u64_max) by done. cbn in *. lia.
    + cbn. do 2 f_equal.
  - intros o. rewrite (chain_appended d r payload o Hd eq_refl). cbn [appended audit_chain_heads].
    destruct (decide (row_organization_id r = o)) as [<-|Hne].
    + by rewrite lookup_insert_eq, last_snoc.
    + rewrite lookup_insert_ne, app_nil_r by done. apply (wf_head d Hd).
  - apply Forall_app_2; [apply (wf_rows d Hd)|]. constructor; [apply new_row_fits|constructor].
  - cbn. rewrite fmap_app. apply NoDup_app. split_and!; [apply (wf_ids d Hd)| |apply NoDup_singleton].
    intros i Hi ->%list_elem_of_singleton. done.
  - intros k p. cbn. rewrite fmap_app, elem_of_app. destruct (decide (row_key r = k)) as [<-|Hne].
    + intros _. right. by left.
    + rewrite lookup_insert_ne by done. intros Hp. left. by eapply (wf_payload d Hd).
  - intros k t Ht. cbn. rewrite fmap_app, elem_of_app. left. by eapply (wf_tombstone d Hd).
Qed.
End new_row.

Lemma append_Ok d e d' rec :
  audit_wf d →
  append C d e = (d', Ok rec) ↔
  validate_event e = Ok tt ∧ ∃ payload, event_to_vec C e = Ok payload ∧
    ((∃ r, r ∈ audit_events d ∧ row_event_id r = event_id e ∧ d' = d ∧
        answer_again C e (sha256_digest C payload) (stored_header_row d r) = Ok rec) ∨
     ((event_id e ∉ row_event_id <$> audit_events d) ∧
      ∃ facts, event_header_facts e = Ok facts ∧ row_accepted d (new_row d e facts payload) = true ∧
        next_sequence d (scope_organization_id (scope e)) ≤ i64_max ∧
        d' = appended d (new_row d e facts payload) payload ∧ rec = new_record (new_row d e facts payload) e)).
Proof.
  intros Hd. unfold append. rewrite commit_Ok. unfold append_tx. rewrite lift_then_iff, lift_bind_iff.
  assert (Hq : ∀ payload, (stored ← query (λ d, Ok (load_header_by_event_id d (event_id e)));
     match stored with Some stored => lift (answer_again C e (sha256_digest C payload) stored) | None => append_new C e payload end) d =
     match load_header_by_event_id d (event_id e) with
     | Some stored => lift (answer_again C e (sha256_digest C payload) stored) d | None => append_new C e payload d end).
  { intros payload. rewrite (query_run _ (load_header_by_event_id d (event_id e))) by done. by destruct (load_header_by_event_id d _). }
  setoid_rewrite Hq. destruct (load_header_by_event_id d (event_id e)) as [h|] eqn:E.
  - apply load_Some in E as (r & Hr & Hi & ->). setoid_rewrite lift_Ok. split.
    + intros (? & p & ? & ? & ->). naive_solver.
    + intros (? & p & Hp & [(x & Hx & Ex & -> & Ha)|[Hn _]]); [|by destruct Hn; rewrite <-Hi; apply list_elem_of_fmap_2].
      assert (x = r) as -> by (apply (row_id_inj d Hd); congruence). naive_solver.
  - apply load_None in E. split.
    + intros (? & p & ? & (facts & ? & ? & ? & [= -> ->])%append_new_iff); naive_solver.
    + intros (? & p & Hp & [(x & Hx & Ex & _)|(_ & facts & ? & ? & ? & -> & ->)]); [by destruct E; rewrite <-Ex; apply list_elem_of_fmap_2|].
      split; [done|]. exists p. split; [done|]. apply append_new_iff; [done|]. eauto 10.
Qed.

Lemma append_Err d e err d' : append C d e = (d', Err err) → d' = d.
Proof. unfold append. by intros [_ ->]%commit_Err. Qed.

Lemma append_wf d e : audit_wf d → audit_wf (append C d e).1.
Proof.
  intros Hd. destruct (append C d e) as [d' [rec|err]] eqn:E; cbn; [|by apply append_Err in E as ->].
  apply append_Ok in E as (Hv & p & Hp & [(r & _ & _ & -> & _)|(_ & facts & ? & ? & ? & -> & _)]); [done| |done].
  by eapply appended_wf.
Qed.

(** ** Retention *)

Definition pruned (d : AuditDb) (now : Z) : AuditDb :=
  {| audit_chain_heads := audit_chain_heads d; audit_events := audit_events d;
     audit_payloads :=
       filter (λ '(k, _), (audit_payload_tombstones d ∪
         list_to_map ((λ r, (row_key r, (now, row_event_digest r))) <$> expired_rows d now)) !! k = None) (audit_payloads d);
     audit_payload_tombstones := audit_payload_tombstones d ∪
       list_to_map ((λ r, (row_key r, (now, row_event_digest r))) <$> expired_rows d now) |}.

Section prune.
Context (d : AuditDb) (Hd : audit_wf d) (now : Z).

(** A row has a payload or a tombstone. *)
Lemma row_payload r :
  r ∈ audit_events d →
  (∃ p, audit_payloads d !! row_key r = Some p) ∧ audit_payload_tombstones d !! row_key r = None ∨
  audit_payloads d !! row_key r = None ∧ ∃ t, audit_payload_tombstones d !! row_key r = Some t.
Proof.
  intros Hr. destruct (row_intact d Hd r Hr) as [a (_ & ev & Hg & _)%record_from_header_Ok].
  destruct Hg as [(p & e & Hp & Ht & _)|(t & g & Hp & Ht & _)]; cbn in Hp, Ht; [left|right].
  - split; [by exists p|]. by apply fmap_None in Ht.
  - split; [done|]. apply fmap_Some in Ht as (x & Hx & _). eauto.
Qed.

Lemma new_tombstone r :
  r ∈ audit_events d →
  (list_to_map ((λ r, (row_key r, (now, row_event_digest r))) <$> expired_rows d now) : gmap (string * Z) (Z * string))
    !! row_key r = if decide (expired d now r) then Some (now, row_event_digest r) else None.
Proof.
  intros Hr. destruct (decide (expired d now r)) as [He|He].
  - apply elem_of_list_to_map_1'.
    + intros y Hy. apply list_elem_of_fmap in Hy as (x & [= Eo Es ->] & Hx). apply list_elem_of_filter in Hx as [_ Hx].
      rewrite (row_key_inj d Hd r x); [done..|]. unfold row_key. by rewrite Eo, Es.
    + apply list_elem_of_fmap. exists r. split; [done|]. by apply list_elem_of_filter.
  - apply not_elem_of_list_to_map_1. intros Hk. apply list_elem_of_fmap in Hk as ([k t] & Ek & Hk).
    apply list_elem_of_fmap in Hk as (x & Ex & Hx). apply list_elem_of_filter in Hx as [Hex Hx].
    destruct He. rewrite (row_key_inj d Hd r x); [done..|]. cbn in Ek. congruence.
Qed.

Lemma pruned_tombstone r :
  r ∈ audit_events d →
  audit_payload_tombstones (pruned d now) !! row_key r =
    if decide (expired d now r) then Some (now, row_event_digest r) else audit_payload_tombstones d !! row_key r.
Proof.
  intros Hr. cbn [pruned audit_payload_tombstones]. rewrite lookup_union, new_tombstone by done.
  destruct (decide (expired d now r)) as [He|He].
  - destruct He as (_ & _ & [p Hp]). destruct (row_payload r Hr) as [[_ ->]|[E _]]; [done|congruence].
  - by destruct (audit_payload_tombstones d !! row_key r).
Qed.

Lemma pruned_payload r :
  r ∈ audit_events d →
  audit_payloads (pruned d now) !! row_key r =
    if decide (expired d now r) then None else audit_payloads d !! row_key r.
Proof.
  intros Hr. pose proof (pruned_tombstone r Hr) as Ht. cbn [pruned audit_payloads audit_payload_tombstones] in *.
  rewrite map_lookup_filter. destruct (audit_payloads d !! row_key r) as [p|] eqn:Hp; cbn; [|by destruct (decide _)].
  rewrite Ht. destruct (decide (expired d now r)); [by rewrite option_guard_False|].
  rewrite option_guard_True; [done|]. destruct (row_payload r Hr) as [[_ E]|[E _]]; congruence.
Qed.

Lemma pruned_header r :
  r ∈ audit_events d → ¬ expired d now r → stored_header_row (pruned d now) r = stored_header_row d r.
Proof.
  intros Hr He. unfold stored_header_row. by rewrite pruned_payload, pruned_tombstone, !decide_False by done.
Qed.

Lemma expired_header as_of r :
  r ∈ audit_events d → expired d now r → now ≤ as_of →
  record_from_header C (stored_header_row (pruned d now) r) as_of =
  Ok {| record_sequence := row_sequence r; record_previous_digest := row_previous_digest r;
        record_event_digest := row_event_digest r; record_event := None |}.
Proof.
  intros Hr He Has. apply record_from_header_Ok.
  destruct (row_intact d Hd r Hr) as [a (Hs & _)%record_from_header_Ok].
  pose proof (proj1 (Forall_forall _ _) (wf_rows d Hd) r Hr) as (_ & Hq & _ & Hu). split.
  - destruct Hs as [H1 H2 H3 H4 H5]. by split.
  - exists None. split.
    + right. exists now, (row_event_digest r). cbn [stored_header_row header_payload header_payload_pruned_at_millis header_tombstone_event_digest].
      rewrite pruned_payload, pruned_tombstone, !decide_True by done. split_and!; try done.
      unfold tombstone_authorizes. cbn. destruct He as (_ & He & _). destruct (row_retention_until_millis r) as [u|]; [|done].
      specialize (Hu u eq_refl). rewrite bool_decide_eq_true_2 by done. lia.
    + cbn. by rewrite (proj2 (Z.ltb_ge _ _)) by lia.
Qed.

Lemma pruned_wf : now ≤ i64_max → audit_wf (pruned d now).
Proof.
  intros Hnow. assert (i64_max ≤ u64_max) as Hmax by done. split; try apply Hd.
  - intros o. unfold headers. change (chain (pruned d now) o) with (chain d o).
    erewrite (verify_loop_map C (stored_header_row d)); [| |exact (wf_verifies d Hd o)].
    + f_equal. f_equal. unfold chain_end, headers. rewrite !fmap_last. by destruct (last (chain d o)).
    + apply Forall_forall. intros r [Hr _]%chain_elem. split_and!; [done..|]. intros Hi.
      destruct (decide (expired d now r)); [|by rewrite pruned_header].
      eexists. apply expired_header; [done..|lia].
  - intros k p Hp. cbn in Hp. apply map_lookup_filter_Some in Hp as [Hp _]. by eapply (wf_payload d Hd).
  - intros k t Ht. cbn in Ht. apply lookup_union_Some_raw in Ht as [Ht|[_ Ht]]; [by eapply (wf_tombstone d Hd)|].
    apply elem_of_list_to_map_2, list_elem_of_fmap in Ht as (x & [= -> _] & Hx).
    apply list_elem_of_filter in Hx as [_ Hx]. by apply list_elem_of_fmap_2.
Qed.
End prune.

(** ** Verification *)

(** The checkpoint of a chain. *)
Definition checkpoint_of (d : AuditDb) (o : string) : AuditChainCheckpoint :=
  {| checkpoint_organization_id := o; checkpoint_last_sequence := Z.of_nat (length (chain d o));
     checkpoint_last_digest := previous_digest d o |}.

(** The rows up to the end of a chain, in a longer one. *)
Lemma select_upto d o l k upper :
  audit_wf d → chain d o = l ++ k → Z.of_nat (length l) ≤ upper → upper = Z.of_nat (length l) ∨ k = [] →
  select_headers d o (upto upper) = stored_header_row d <$> l.
Proof.
  intros Hd Hc Hle Hup. unfold select_headers. rewrite select_chain. f_equal.
  pose proof (chain_numbered d Hd o) as Hn. rewrite Hc, fmap_app, length_app, Nat2Z.inj_add, seqZ_app in Hn by lia.
  apply app_inj_1 in Hn as [Hl Hk]; [|by rewrite length_fmap, length_seqZ, Nat2Z.id].
  assert (Hin : ∀ x, x ∈ l → row_sequence x ≤ Z.of_nat (length l)).
  { intros x Hx. apply (list_elem_of_fmap_2 row_sequence) in Hx. rewrite Hl in Hx. apply elem_of_seqZ in Hx. lia. }
  rewrite Hc, filter_app, (filter_all _ l), (filter_none _ k), app_nil_r; [done| |].
  - apply Forall_forall. intros x Hx. destruct Hup as [->| ->]; [|set_solver]. unfold upto. rewrite Z.leb_le.
    apply (list_elem_of_fmap_2 row_sequence) in Hx. rewrite Hk in Hx. apply elem_of_seqZ in Hx. lia.
  - apply Forall_forall. intros x Hx. unfold upto. apply Z.leb_le. specialize (Hin x Hx). lia.
Qed.

Lemma chain_length d o : audit_wf d → Z.of_nat (length (chain d o)) ≤ i64_max.
Proof.
  intros Hd. destruct (last (chain d o)) as [r|] eqn:E; [|by apply last_None in E as ->].
  pose proof (last_chain_sequence d o r Hd E). apply last_Some_elem_of in E.
  pose proof (chain_row_fits d Hd o r E) as (_ & ? & _). unfold next_sequence in *. lia.
Qed.

Lemma verify_wf d o :
  audit_wf d → is_canonical_prefixed_id o "org_" = true → verify_organization C d o = Ok (checkpoint_of d o).
Proof.
  intros Hd Ho. unfold verify_organization, validate_organization_id. rewrite Ho. cbn [negb refuse mbind result_bind].
  unfold verify_checkpoint. cbn [refuse mbind result_bind upper_sequence].
  rewrite (select_upto d o (chain d o) []) by (done || by rewrite app_nil_r || by right || by apply chain_length).
  fold (headers d o). rewrite (wf_verifies d Hd). cbn [mbind result_bind]. rewrite previous_is_end, Z.add_simpl_r.
  assert (head_matches d o (Z.of_nat (length (chain d o))) (previous_digest d o) = true) as ->; [|done].
  unfold head_matches, previous_digest. rewrite (wf_head d Hd). destruct (last (chain d o)) as [r|] eqn:E.
  - cbn. pose proof (last_chain_sequence d o r Hd E). pose proof (chain_length d o Hd). unfold next_sequence in *.
    rewrite bool_decide_eq_true_2 by done. lia.
  - cbn. apply last_None in E. by rewrite E.
Qed.

(** The checkpoint of the first rows of a chain. *)
Definition checkpoint_for (o : string) (l : list EventRow) : AuditChainCheckpoint :=
  {| checkpoint_organization_id := o; checkpoint_last_sequence := Z.of_nat (length l);
     checkpoint_last_digest := row_event_digest <$> last l |}.

(** It is confirmed by the chain. *)
Lemma checkpoint_prefix d o l k :
  audit_wf d → chain d o = l ++ k → verify_checkpoint C d o (Some (checkpoint_for o l)) = Ok (checkpoint_for o l).
Proof.
  intros Hd Hk. unfold verify_checkpoint. cbn [checkpoint_for checkpoint_organization_id].
  rewrite (differs_refl o). cbn [refuse mbind result_bind upper_sequence checkpoint_for checkpoint_last_sequence].
  pose proof (chain_length d o Hd) as Hle. rewrite Hk, length_app in Hle. rewrite (proj2 (Z.ltb_ge _ _)) by lia.
  rewrite (select_upto d o l k) by (done || lia || by left).
  pose proof (wf_verifies d Hd o) as Hv. unfold headers in Hv. rewrite Hk, fmap_app in Hv at 1.
  apply verify_loop_app in Hv as ([next final] & Hv & _). rewrite Hv. cbn [mbind result_bind].
  apply verify_loop_Ok in Hv as (-> & -> & _). rewrite length_fmap.
  assert (chain_end (stored_header_row d <$> l) None = row_event_digest <$> last l) as ->.
  { unfold chain_end. rewrite fmap_last. by destruct (last l). }
  replace (1 + Z.of_nat (length l) - 1) with (Z.of_nat (length l)) by lia.
  by rewrite !differs_refl.
Qed.

(** A checkpoint is confirmed by every chain that continues it. *)
Lemma checkpoint_stays d d' o :
  audit_wf d' → chain d o `prefix_of` chain d' o →
  verify_checkpoint C d' o (Some (checkpoint_of d o)) = Ok (checkpoint_of d o).
Proof. intros Hd' [k Hk]. exact (checkpoint_prefix d' o (chain d o) k Hd' Hk). Qed.

(** Pruning succeeds, and only replaces payloads. *)
Lemma prune_run d now :
  audit_wf d → now ≤ i64_max →
  ∃ deleted, prune_expired_payloads C d now = (pruned d now, Ok deleted).
Proof.
  intros Hd Hnow. eexists. unfold prune_expired_payloads. apply commit_Ok. unfold prune_tx.
  rewrite (lift_run _ now) by (by apply audit_i64_Ok). rewrite (query_run _ (dedup (sort_unstable (row_organization_id <$> expired_rows d now)))) by done.
  rewrite (query_run _ tt).
  - unfold mbind, tx_bind, execute, insert_tombstones.
    assert ((0 <? now) || bool_decide (expired_rows d now = []) = true) as ->; [|done].
    destruct (expired_rows d now) as [|r l] eqn:E; [by rewrite bool_decide_eq_true_2, orb_true_r|].
    assert (Hr : r ∈ expired_rows d now) by (rewrite E; by left). apply list_elem_of_filter in Hr as [(_ & Hu & _) Hr].
    pose proof (proj1 (Forall_forall _ _) (wf_rows d Hd) r Hr) as (_ & _ & _ & Hpos).
    destruct (row_retention_until_millis r) as [u|]; [|done]. specialize (Hpos u eq_refl).
    apply orb_true_iff. left. lia.
  - apply check_all_Ok, Forall_forall. intros o Ho. rewrite dedup_elem_of in Ho. unfold sort_unstable in Ho.
    rewrite (sort_by_key_perm id) in Ho. apply list_elem_of_fmap in Ho as (r & -> & Hr).
    apply list_elem_of_filter in Hr as [_ Hr].
    pose proof (proj1 (Forall_forall _ _) (wf_rows d Hd) r Hr) as (Hc & _). by rewrite verify_wf.
Qed.

Lemma prune_cases d now :
  audit_wf d →
  prune_expired_payloads C d now = (d, Err (invalid "audit retention timestamp is out of range")) ∧ i64_max < now ∨
  now ≤ i64_max ∧ ∃ deleted, prune_expired_payloads C d now = (pruned d now, Ok deleted).
Proof.
  intros Hd. destruct (decide (now ≤ i64_max)) as [Hle|Hgt]; [right; split; [done|by apply prune_run]|left].
  split; [|lia]. unfold prune_expired_payloads. apply commit_Err. split; [|done]. unfold prune_tx.
  rewrite (lift_Err_run _ (invalid "audit retention timestamp is out of range")); [done|].
  unfold to_i64. by rewrite (proj2 (Z.ltb_lt _ _)) by lia.
Qed.
End chain.
