(* ===== verification/AuditRuns.v ===== *)
(** * Audit store: the log it implements

    The abstract log: the accepted events in the order of their acceptance, each with the time
    at which its payload was deleted.  A run of the store goes along with a run of the log, and
    every row of the tables stands for one entry of it. *)

From Stdlib Require Import Ascii String.
From S2P Require Import Prelude Text Numerals Ordered Transaction StateKeys AuditTypes AuditTables AuditFacts AuditChain.
Local Open Scope Z_scope.

(** ** The log *)

Record LogEntry : Type := { logged : AuditEvent; withdrawn : option Z }.

Definition entry_organization (x : LogEntry) : string := scope_organization_id (scope (logged x)).

Definition entry_id (x : LogEntry) : string := event_id (logged x).

Definition log_append (L : list LogEntry) (e : AuditEvent) : list LogEntry :=
  if decide (event_id e ∈ (entry_id <$> L)) then L else L ++ [{| logged := e; withdrawn := None |}].

(** The retention of the entry has passed. *)
Definition due (now : Z) (x : LogEntry) : Prop :=
  match retention (logged x) with UntilMillis u => u ≤ now | Indefinite => False end.

#[global] Instance due_dec now x : Decision (due now x).
Proof. unfold due. destruct (retention (logged x)); apply _. Defined.

Definition withdraw (now : Z) (x : LogEntry) : LogEntry :=
  match withdrawn x with
  | None => if decide (due now x) then {| logged := logged x; withdrawn := Some now |} else x
  | Some _ => x
  end.

Definition log_prune (L : list LogEntry) (now : Z) : list LogEntry := withdraw now <$> L.

(** The entries of an organisation. *)
Definition log_of (L : list LogEntry) (o : string) : list LogEntry := filter (λ x, entry_organization x = o) L.

(** ** Runs *)

Inductive AuditCall : Type := CallAppend (e : AuditEvent) | CallPrune (now_millis : Z).

Section runs.
Context (C : AuditCodec).

(** A call on the store and, when it succeeds, on the log. *)
Definition audit_step (s : AuditDb * list LogEntry) (c : AuditCall) : AuditDb * list LogEntry :=
  match c with
  | CallAppend e =>
      let '(d, answer) := append C s.1 e in (d, match answer with Ok _ => log_append s.2 e | Err _ => s.2 end)
  | CallPrune now =>
      let '(d, answer) := prune_expired_payloads C s.1 now in
      (d, match answer with Ok _ => log_prune s.2 now | Err _ => s.2 end)
  end.

Definition audit_run (calls : list AuditCall) (s : AuditDb * list LogEntry) : AuditDb * list LogEntry :=
  foldl audit_step s calls.

(** A new store and its empty log. *)
Definition new_store : AuditDb * list LogEntry := (empty_db, []).

(** ** The simulation *)

(** The row of an entry, with the payload or the tombstone that the entry calls for. *)
Record entry_row (d : AuditDb) (r : EventRow) (x : LogEntry) : Prop := {
  er_organization : row_organization_id r = entry_organization x;
  er_facts : event_header_facts (logged x) = Ok (stored_header_facts (stored_header_row d r));
  er_valid : validate_event (logged x) = Ok tt;
  er_payload : ∃ payload, event_to_vec C (logged x) = Ok payload ∧ row_payload_digest r = sha256_digest C payload ∧
    match withdrawn x with
    | None => audit_payloads d !! row_key r = Some payload ∧ audit_payload_tombstones d !! row_key r = None
    | Some t => audit_payloads d !! row_key r = None ∧
                audit_payload_tombstones d !! row_key r = Some (t, row_event_digest r)
    end
}.

Record represents (d : AuditDb) (L : list LogEntry) : Prop := {
  rep_wf : audit_wf C d;
  rep_rows : Forall2 (entry_row d) (audit_events d) L;
  rep_places i r : audit_events d !! i = Some r →
    row_sequence r = 1 + Z.of_nat (length (log_of (take i L) (row_organization_id r)))
}.

Lemma new_store_represents : represents empty_db [].
Proof. split; [apply audit_empty_wf|constructor|]. intros i r. unfold empty_db. cbn. by rewrite lookup_nil. Qed.

Lemma rep_length d L o : represents d L → length (chain d o) = length (log_of L o).
Proof.
  intros [_ HF _]. unfold chain, select_rows, log_of. rewrite order_length.
  induction HF as [|r x rs L Hr _ IH]; [done|]. rewrite !filter_cons. destruct Hr as [Ho _ _ _].
  destruct (decide (row_organization_id r = o)) as [Eo|Eo].
  - rewrite decide_True, decide_True by (done || congruence). cbn. by rewrite IH.
  - rewrite decide_False, decide_False by (naive_solver || congruence). done.
Qed.

(** ** What a row reads as *)

Definition row_record (r : EventRow) (x : LogEntry) : AuditRecord :=
  {| record_sequence := row_sequence r; record_previous_digest := row_previous_digest r;
     record_event_digest := row_event_digest r;
     record_event := match withdrawn x with None => Some (normal (logged x)) | Some _ => None end |}.

Section laws.
Context `{!AuditCodecLaws C}.

Lemma record_of_entry d r x as_of :
  audit_wf C d → r ∈ audit_events d → entry_row d r x → (∀ t, withdrawn x = Some t → t ≤ as_of) →
  record_from_header C (stored_header_row d r) as_of = Ok (row_record r x).
Proof.
  intros Hd Hr [_ _ _ (p & Hp & _ & Hw)] Has.
  destruct (row_intact C d Hd r Hr) as [a (Hs & ev & Hg & _)%record_from_header_Ok].
  apply record_from_header_Ok. split; [done|]. unfold row_record. eexists. split.
  2: { by rewrite (header_sequence_row C d Hd r Hr). }
  destruct (withdrawn x) as [t|], Hw as [Hw1 Hw2].
  - right. destruct Hg as [(q & e & Hq & _)|(q & g & Hq & Hg1 & Hg2 & Ht & _)]; cbn in *; [congruence|].
    exists q, g. split_and!; try done. rewrite Hw2 in Hg1. cbn in Hg1. simplify_eq.
    unfold tombstone_authorizes in *. split_bools. specialize (Has q eq_refl).
    rewrite H, H0, bool_decide_eq_true_2 by done. lia.
  - left. destruct Hg as [(q & e & Hq & Hg1 & Hg2 & He & _)|(q & g & Hq & _)]; cbn in *; [|congruence].
    exists q, (normal (logged x)). split_and!; try done. rewrite He. f_equal.
    unfold stored_event in He. apply bind_Ok in He as ([] & _ & He). apply bind_Ok in He as (e' & He' & He).
    apply ok_or_Ok in He'. assert (q = p) as -> by congruence. rewrite (event_round_trip C _ _ Hp) in He'.
    injection He' as <-. apply bind_Ok in He as ([] & _ & He). apply bind_Ok in He as ([] & _ & He).
    apply bind_Ok in He as (f & _ & He). apply bind_Ok in He as ([] & _ & He). by injection He as <-.
Qed.

(** ** Steps *)

Lemma rep_ids d L : represents d L → row_event_id <$> audit_events d = entry_id <$> L.
Proof.
  intros [_ HF _]. apply list_eq_Forall2, Forall2_fmap. eapply Forall2_impl; [exact HF|].
  intros r x [_ Hf _ _]. apply facts_Ok in Hf as (Hi & _). exact Hi.
Qed.

Lemma append_step d L e d' rec :
  represents d L → append C d e = (d', Ok rec) → represents d' (log_append L e).
Proof.
  intros HR Ha. pose proof HR as [Hd HF Hpl]. pose proof (append_wf C d e Hd) as Hd'. rewrite Ha in Hd'. cbn in Hd'.
  apply append_Ok in Ha as (Hv & p & Hp & Hc); [|done|done]. unfold log_append. rewrite <-(rep_ids d L HR).
  destruct Hc as [(r & Hr & Hi & -> & _)|(Hi & facts & Hf & Hacc & Hfit & -> & _)].
  { rewrite decide_True; [done|]. rewrite <-Hi. by apply list_elem_of_fmap_2. }
  rewrite decide_False by done. pose proof (new_row_fresh C d Hd e facts p) as Hfresh. split; [done| |].
  - cbn [appended audit_events]. apply Forall2_app.
    + apply Forall2_same_length_lookup. split; [by eapply Forall2_length|]. intros i r x Hr Hx.
      assert (entry_row d r x) as [Ho Hfa Hva Hpay] by (by eapply Forall2_lookup_lr).
      apply list_elem_of_lookup_2 in Hr. pose proof (header_appended d (new_row C d e facts p) p r Hr Hfresh) as Hh.
      split; [done|by rewrite Hh|done|]. cbn [appended audit_payloads audit_payload_tombstones].
      rewrite lookup_insert_ne; [done|]. intros E. destruct Hfresh. rewrite E. by apply list_elem_of_fmap_2.
    + constructor; [|constructor]. split; [done| |done|].
      * cbn [logged]. by rewrite (stored_facts_new C d e facts p Hf).
      * exists p. cbn [logged withdrawn]. split; [done|]. split; [done|]. cbn [appended audit_payloads audit_payload_tombstones].
        rewrite lookup_insert_eq. split; [done|]. destruct (audit_payload_tombstones d !! _) eqn:Ht; [|done].
        by apply (wf_tombstone C d Hd), Hfresh in Ht.
  - intros i r Hr. cbn [appended audit_events] in Hr. pose proof (Forall2_length _ _ _ HF) as Hlen.
    apply lookup_snoc_Some in Hr as [[Hi' Hr]|[-> <-]].
    + rewrite take_app_le by lia. by apply Hpl.
    + rewrite Hlen, take_app_length. cbn. unfold next_sequence. rewrite (rep_length d L _ HR). lia.
Qed.

Lemma expired_due d r x now : entry_row d r x → expired d now r ↔ withdrawn x = None ∧ due now x.
Proof.
  intros [_ Hf _ (p & _ & _ & Hw)]. apply facts_Ok in Hf as (_ & _ & Hk & _). cbn in Hk. unfold expired, due.
  assert (Hex : is_Some (audit_payloads d !! row_key r) ↔ withdrawn x = None).
  { destruct (withdrawn x); destruct Hw as [-> _]; split; naive_solver. }
  rewrite Hex. repeat case_bool_decide; destruct Hk as [(Hk1 & Hk2 & Hk3)|(Hk1 & Hk2 & Hk3)]; try done.
  - rewrite Hk2. destruct (retention (logged x)); naive_solver.
  - rewrite Hk3. naive_solver.
Qed.

Lemma withdraw_entry d r x now :
  audit_wf C d → r ∈ audit_events d → entry_row d r x → entry_row (pruned d now) r (withdraw now x).
Proof.
  intros Hd Hr Hx. pose proof (expired_due d r x now Hx) as He. destruct Hx as [Ho Hf Hv (p & Hp & Hpd & Hw)].
  pose proof (pruned_payload C d Hd now r Hr) as Hpp. pose proof (pruned_tombstone C d Hd now r Hr) as Hpt.
  unfold withdraw. destruct (withdrawn x) as [t|] eqn:Hwx.
  { assert (¬ expired d now r) by (rewrite He; by intros [? _]).
    rewrite decide_False in Hpp by done. rewrite decide_False in Hpt by done.
    split; [done..|]. exists p. rewrite Hwx, Hpp, Hpt. done. }
  destruct (decide (due now x)) as [Hdue|Hdue].
  - assert (expired d now r) by (by apply He). rewrite decide_True in Hpp by done. rewrite decide_True in Hpt by done.
    split; [done..|]. exists p. cbn [withdrawn]. by rewrite Hpp, Hpt.
  - assert (¬ expired d now r) by (rewrite He; by intros [_ ?]).
    rewrite decide_False in Hpp by done. rewrite decide_False in Hpt by done.
    split; [done..|]. exists p. by rewrite Hwx, Hpp, Hpt.
Qed.

Lemma withdraw_organization now x : entry_organization (withdraw now x) = entry_organization x.
Proof. unfold withdraw. destruct (withdrawn x); [done|]. by destruct (decide _). Qed.

Lemma log_of_prune L now o : log_of (log_prune L now) o = withdraw now <$> log_of L o.
Proof.
  unfold log_of, log_prune. rewrite filter_fmap. f_equal. apply list_filter_iff. intros x. by rewrite withdraw_organization.
Qed.

Lemma prune_step d L now : represents d L → now ≤ i64_max → represents (pruned d now) (log_prune L now).
Proof.
  intros [Hd HF Hpl] Hnow. split; [by apply pruned_wf| |].
  - unfold log_prune. apply Forall2_fmap_r. apply Forall2_same_length_lookup. split; [by eapply Forall2_length|].
    intros i r x Hr Hx. apply withdraw_entry; [done|by apply list_elem_of_lookup_2 in Hr|by eapply Forall2_lookup_lr].
  - intros i r Hr. rewrite (Hpl i r Hr). unfold log_prune. rewrite <-fmap_take.
    change (withdraw now <$> take i L) with (log_prune (take i L) now). by rewrite log_of_prune, length_fmap.
Qed.

Lemma step_represents s c : represents s.1 s.2 → represents (audit_step s c).1 (audit_step s c).2.
Proof.
  intros HR. destruct c as [e|now]; cbn [audit_step].
  - destruct (append C s.1 e) as [d' [rec|err]] eqn:E; cbn; [by eapply append_step|by apply append_Err in E as ->].
  - destruct (prune_cases C s.1 now (rep_wf _ _ HR)) as [[-> _]|[Hle [n ->]]]; cbn; [done|by apply prune_step].
Qed.

Lemma run_represents calls s : represents s.1 s.2 → represents (audit_run calls s).1 (audit_run calls s).2.
Proof. revert s. induction calls as [|c calls IH]; intros s Hs; [done|]. cbn. apply IH. by apply step_represents. Qed.

(** ** Growth *)

Lemma step_chain s c o : represents s.1 s.2 → chain s.1 o `prefix_of` chain (audit_step s c).1 o.
Proof.
  intros HR. destruct c as [e|now]; cbn [audit_step].
  - destruct (append C s.1 e) as [d' [rec|err]] eqn:E; cbn; [|by apply append_Err in E as ->].
    apply (append_Ok C _ _ _ _ (rep_wf _ _ HR)) in E as (_ & p & _ & [(r & _ & _ & -> & _)|(_ & facts & _ & _ & _ & -> & _)]); [done|].
    rewrite (chain_appended C s.1 (new_row C s.1 e facts p) p o (rep_wf _ _ HR) eq_refl). by apply prefix_app_r.
  - by destruct (prune_cases C s.1 now (rep_wf _ _ HR)) as [[-> _]|[_ [n ->]]].
Qed.

Lemma run_chain calls s o : represents s.1 s.2 → chain s.1 o `prefix_of` chain (audit_run calls s).1 o.
Proof.
  revert s. induction calls as [|c calls IH]; intros s Hs; [done|]. cbn.
  etrans; [by apply (step_chain s c)|]. apply IH. by apply step_represents.
Qed.

(** ** The chain of an organisation is its part of the log *)

Lemma places_numbered (l : list EventRow) o :
  (∀ i r, l !! i = Some r →
     row_sequence r = 1 + Z.of_nat (length (filter (λ x, row_organization_id x = row_organization_id r) (take i l)))) →
  row_sequence <$> filter (λ x, row_organization_id x = o) l =
  seqZ 1 (Z.of_nat (length (filter (λ x, row_organization_id x = o) l))).
Proof.
  induction l as [|r l IH] using rev_ind; intros Hp; [done|].
  rewrite filter_app, filter_cons, filter_nil, fmap_app, length_app, Nat2Z.inj_add, IH.
  2: { intros i x Hx. rewrite (Hp i x) by (by apply lookup_app_l_Some). apply lookup_lt_Some in Hx.
       by rewrite take_app_le by lia. }
  destruct (decide (row_organization_id r = o)) as [<-|Hne]; [|by rewrite Z.add_0_r, app_nil_r].
  cbn [fmap list_fmap length]. rewrite (Hp (length l) r), take_app_length by (by rewrite list_lookup_middle).
  change (Z.of_nat 1) with 1. rewrite <-seqZ_snoc by lia. done.
Qed.

Lemma rep_places_rows d L i r :
  represents d L → audit_events d !! i = Some r →
  row_sequence r = 1 + Z.of_nat (length (filter (λ x, row_organization_id x = row_organization_id r) (take i (audit_events d)))).
Proof.
  intros [Hd HF Hpl] Hr. rewrite (Hpl i r Hr). do 2 f_equal. unfold log_of.
  apply (Forall2_take _ _ _ i) in HF. generalize (row_organization_id r). intros o. clear -HF.
  induction HF as [|x y l k [Ho _ _ _] _ IH]; [done|]. rewrite !filter_cons, Ho.
  destruct (decide (entry_organization y = o)); cbn; by rewrite IH.
Qed.

Lemma chain_filter d L o : represents d L → chain d o = filter (λ r, row_organization_id r = o) (audit_events d).
Proof.
  intros HR. unfold chain, select_rows.
  rewrite (list_filter_iff _ (λ r, row_organization_id r = o)) by naive_solver.
  eapply order_numbered, places_numbered. intros i r Hr. by eapply rep_places_rows.
Qed.

Lemma chain_log d L o : represents d L → Forall2 (entry_row d) (chain d o) (log_of L o).
Proof.
  intros HR. rewrite (chain_filter d L o HR). destruct HR as [_ HF _]. unfold log_of.
  induction HF as [|r x l k Hx _ IH]; [constructor|]. rewrite !filter_cons, (er_organization _ _ _ Hx).
  destruct (decide _); [by constructor|done].
Qed.
End laws.
End runs.

(** * Tamper evidence

    What a chain digest fixes.  The message of a header determines every column of it, and the
    digest before it; so two databases that are accepted under one checkpoint hold the same
    headers, unless SHA-256 has a collision among the messages that the two verifications hash. *)

(** ** The message determines the header *)

Definition in_i64 (z : Z) : Prop := i64_min ≤ z ≤ i64_max.

Definition fits_u64 (s : string) : Prop := str_len s ≤ u64_max.

(** A row holds 64-bit integers, and texts whose lengths are 64-bit integers. *)
Record row_typed (r : EventRow) : Prop := {
  typed_organization : fits_u64 (row_organization_id r);
  typed_sequence : in_i64 (row_sequence r);
  typed_event_id : fits_u64 (row_event_id r);
  typed_occurred : in_i64 (row_occurred_at_millis r);
  typed_workspace : fits_u64 (default "" (row_workspace_id r));
  typed_project : fits_u64 (default "" (row_project_id r));
  typed_repository : fits_u64 (default "" (row_repository_id r));
  typed_until : in_i64 (default 0 (row_retention_until_millis r));
  typed_previous : fits_u64 (default "" (row_previous_digest r));
  typed_payload_digest : fits_u64 (row_payload_digest r)
}.

Lemma framed_inj a b r r' : fits_u64 a → fits_u64 b → (framed a +:+ r = framed b +:+ r')%string → a = b ∧ r = r'.
Proof.
  unfold fits_u64. intros Ha Hb. unfold framed. rewrite !Z.min_l by done. apply field_inj; done.
Qed.

Lemma be_bytes_inj a b r r' :
  0 ≤ a ≤ u64_max → 0 ≤ b ≤ u64_max → (to_be_bytes 8 a +:+ r = to_be_bytes 8 b +:+ r')%string → a = b ∧ r = r'.
Proof.
  intros Ha Hb H. apply str_append_inj_l in H as [H ->]; [|by rewrite !to_be_bytes_length]. split; [|done].
  apply (f_equal from_be_bytes) in H. by rewrite !from_to_be_bytes in H.
Qed.

Lemma i64_bytes_inj a b r r' :
  in_i64 a → in_i64 b → (i64_be_bytes a +:+ r = i64_be_bytes b +:+ r')%string → a = b ∧ r = r'.
Proof.
  unfold in_i64, i64_be_bytes. intros Ha Hb H.
  assert (Hm : ∀ z, 0 ≤ z mod (u64_max + 1) ≤ u64_max).
  { intros z. pose proof (Z.mod_pos_bound z (u64_max + 1) eq_refl). lia. }
  apply be_bytes_inj in H as [H ->]; [|done..]. split; [|done].
  assert (Hw : ∀ z, i64_min ≤ z ≤ i64_max → z mod (u64_max + 1) = z ∨ z < 0 ∧ z mod (u64_max + 1) = z + (u64_max + 1)).
  { intros z Hz. unfold i64_min, i64_max, u64_max in *. destruct (decide (0 ≤ z)); [left; apply Z.mod_small; lia|right].
    split; [lia|]. symmetry. apply (Z.mod_unique_pos _ _ (-1)); lia. }
  pose proof (Hw a Ha) as Ea. pose proof (Hw b Hb) as Eb. unfold i64_min, i64_max, u64_max in *. lia.
Qed.

(** The parts of a message are 64-bit integers, and texts whose lengths are. *)
Record message_typed (o : string) (sequence : Z) (previous : option string) (f : EventHeaderFacts) (payload_digest : string) : Prop := {
  mt_organization : fits_u64 o;
  mt_sequence : 0 ≤ sequence ≤ u64_max;
  mt_previous : fits_u64 (default "" previous);
  mt_event_id : fits_u64 (facts_event_id f);
  mt_occurred : in_i64 (facts_occurred_at_millis f);
  mt_workspace : fits_u64 (default "" (facts_workspace_id f));
  mt_project : fits_u64 (default "" (facts_project_id f));
  mt_repository : fits_u64 (default "" (facts_repository_id f));
  mt_kind : fits_u64 (facts_retention_kind f);
  mt_until : in_i64 (default 0 (facts_retention_until_millis f));
  mt_payload_digest : fits_u64 payload_digest
}.

(** A message determines its parts; texts that may be absent up to the empty text. *)
Lemma chain_message_inj o o' n n' p p' f f' g g' :
  message_typed o n p f g → message_typed o' n' p' f' g' → chain_message o n p f g = chain_message o' n' p' f' g' →
  o = o' ∧ n = n' ∧ default "" p = default "" p' ∧ facts_event_id f = facts_event_id f' ∧
  facts_occurred_at_millis f = facts_occurred_at_millis f' ∧
  default "" (facts_workspace_id f) = default "" (facts_workspace_id f') ∧
  default "" (facts_project_id f) = default "" (facts_project_id f') ∧
  default "" (facts_repository_id f) = default "" (facts_repository_id f') ∧
  facts_retention_kind f = facts_retention_kind f' ∧
  default 0 (facts_retention_until_millis f) = default 0 (facts_retention_until_millis f') ∧ g = g'.
Proof.
  intros Hf Hf' Hm. unfold chain_message in Hm.
  apply str_append_inj_l in Hm as [_ Hm]; [|done].
  apply framed_inj in Hm as [M1 Hm]; [|apply Hf|apply Hf'].
  apply be_bytes_inj in Hm as [M2 Hm]; [|apply Hf|apply Hf'].
  apply framed_inj in Hm as [M3 Hm]; [|apply Hf|apply Hf'].
  apply framed_inj in Hm as [M4 Hm]; [|apply Hf|apply Hf'].
  apply i64_bytes_inj in Hm as [M5 Hm]; [|apply Hf|apply Hf'].
  apply framed_inj in Hm as [M6 Hm]; [|apply Hf|apply Hf'].
  apply framed_inj in Hm as [M7 Hm]; [|apply Hf|apply Hf'].
  apply framed_inj in Hm as [M8 Hm]; [|apply Hf|apply Hf'].
  apply framed_inj in Hm as [M9 Hm]; [|apply Hf|apply Hf'].
  apply i64_bytes_inj in Hm as [M10 Hm]; [|apply Hf|apply Hf'].
  rewrite <-(str_append_nil_r (framed g)), <-(str_append_nil_r (framed g')) in Hm.
  apply framed_inj in Hm as [M11 _]; [|apply Hf|apply Hf'].
  split_and!; done.
Qed.

(** The two headers agree on every column; texts that may be absent agree up to the empty text. *)
Record same_header (h k : StoredHeader) : Prop := {
  same_organization : header_organization_id h = header_organization_id k;
  same_sequence : header_sequence h = header_sequence k;
  same_event_id : header_event_id h = header_event_id k;
  same_occurred : header_occurred_at_millis h = header_occurred_at_millis k;
  same_workspace : default "" (header_workspace_id h) = default "" (header_workspace_id k);
  same_project : default "" (header_project_id h) = default "" (header_project_id k);
  same_repository : default "" (header_repository_id h) = default "" (header_repository_id k);
  same_kind : header_retention_kind h = header_retention_kind k;
  same_until : header_retention_until_millis h = header_retention_until_millis k;
  same_previous : header_previous_digest h = header_previous_digest k;
  same_event_digest : header_event_digest h = header_event_digest k;
  same_payload_digest : header_payload_digest h = header_payload_digest k;
  same_payload p q : header_payload h = Some p → header_payload k = Some q → p = q
}.

(** What the verification hashes for a header. *)
Definition header_message (h : StoredHeader) : string :=
  chain_message (header_organization_id h) (header_sequence h) (header_previous_digest h) (stored_header_facts h)
    (header_payload_digest h).

Definition header_hashed (h : StoredHeader) : list string :=
  header_message h :: match header_payload h with Some p => [p] | None => [] end.

Definition hashed (hs : list StoredHeader) : list string := hs ≫= header_hashed.

Lemma sealed_kind_facts h :
  sealed_kind h → facts_retention_kind (stored_header_facts h) = header_retention_kind h ∧
    fits_u64 (header_retention_kind h) ∧
    (header_retention_until_millis h = None ↔ header_retention_kind h = "indefinite").
Proof. unfold sealed_kind, stored_header_facts. cbn. intros [[-> [u ->]]|[-> ->]]; done. Qed.

Lemma digest_length digest : sha256_shape digest = true → str_len digest = 71.
Proof.
  unfold sha256_shape. case_match eqn:E; [|done]. apply strip_prefix_Some in E as ->. intros H. split_bools.
  rewrite str_len_app. change (str_len "sha256:") with 7. lia.
Qed.

(** An absent digest is not confused with a present one. *)
Lemma optional_digest_inj a b f g :
  validate_optional_digest a f = Ok tt → validate_optional_digest b g = Ok tt → default "" a = default "" b → a = b.
Proof.
  assert (Hne : ∀ d f, validate_digest d f = Ok tt → d ≠ "").
  { intros d f' Hd%audit_digest_Ok ->. by apply digest_length in Hd. }
  destruct a as [a|], b as [b|]; cbn; [by intros _ _ ->| | |done].
  - intros Ha _ E. by apply Hne in Ha.
  - intros _ Hb E. symmetry in E. by apply Hne in Hb.
Qed.

(** The parts of a stored header. *)
Lemma header_typed d r :
  row_typed r → sealed_kind (stored_header_row d r) →
  let h := stored_header_row d r in
  message_typed (header_organization_id h) (header_sequence h) (header_previous_digest h) (stored_header_facts h) (header_payload_digest h).
Proof.
  intros Hr Hk. destruct (sealed_kind_facts _ Hk) as (Ek & Fk & _). split; try apply Hr; [|by rewrite Ek].
  destruct Hr as [_ [_ Hs] _ _ _ _ _ _ _ _]. cbn. unfold i64_max, u64_max in *. destruct (Z.ltb_spec (row_sequence r) 0); lia.
Qed.

Section tamper.
Context (C : AuditCodec).

Definition collision_free (messages : list string) : Prop :=
  ∀ a b, a ∈ messages → b ∈ messages → sha256_hex C a = sha256_hex C b → a = b.

Lemma message_determines d d' r s :
  row_typed r → row_typed s → sealed C (stored_header_row d r) → sealed C (stored_header_row d' s) →
  collision_free (header_hashed (stored_header_row d r) ++ header_hashed (stored_header_row d' s)) →
  intact C (stored_header_row d r) → intact C (stored_header_row d' s) →
  header_event_digest (stored_header_row d r) = header_event_digest (stored_header_row d' s) →
  same_header (stored_header_row d r) (stored_header_row d' s).
Proof.
  intros Hr Hs Sr Ss Hfree Ir Is Hdig.
  set (h := stored_header_row d r) in *. set (k := stored_header_row d' s) in *.
  assert (Hm : header_message h = header_message k).
  { pose proof (sealed_digest C h Sr) as E1. pose proof (sealed_digest C k Ss) as E2.
    apply Hfree; [set_solver..|]. unfold chain_digest in E1, E2. rewrite Hdig, <-E2 in E1.
    apply str_append_inj_l in E1 as [_ E1]; done. }
  destruct (sealed_kind_facts h (sealed_retention C h Sr)) as (Kh & _ & Uh).
  destruct (sealed_kind_facts k (sealed_retention C k Ss)) as (Kk & _ & Uk).
  unfold header_message in Hm. apply chain_message_inj in Hm as (M1 & M2 & M3 & M4 & M5 & M6 & M7 & M8 & M9 & M10 & M11);
    [|by apply header_typed; [|apply Sr]|by apply header_typed; [|apply Ss]].
  rewrite Kh, Kk in M9.
  split; try done.
  - destruct (header_retention_until_millis h) eqn:E1, (header_retention_until_millis k) eqn:E2; try done.
    + unfold stored_header_facts in M10. cbn [facts_retention_until_millis] in M10. rewrite E1, E2 in M10. by f_equal.
    + exfalso. destruct Uk as [Uk _]. rewrite Uk in M9 by done. by apply Uh in M9.
    + exfalso. destruct Uh as [Uh' _]. rewrite Uh' in M9 by done. symmetry in M9. by apply Uk in M9.
  - eapply optional_digest_inj; [apply Sr|apply Ss|done].
  - intros p q Hp Hq. destruct Ir as [a (_ & ev & Hg & _)%record_from_header_Ok], Is as [b (_ & ev' & Hg' & _)%record_from_header_Ok].
    destruct Hg as [(p' & e & E1 & _ & _ & He & _)|(? & ? & E1 & _)]; [|congruence].
    destruct Hg' as [(q' & e' & E2 & _ & _ & He' & _)|(? & ? & E2 & _)]; [|congruence].
    apply Hfree; [unfold header_hashed; rewrite Hp; set_solver|unfold header_hashed; rewrite Hq; set_solver|].
    unfold stored_event in He, He'. apply bind_Ok in He as ([] & He & _), He' as ([] & He' & _).
    apply refuse_Ok in He, He'. split_bools. rewrite Hp in E1. rewrite Hq in E2. simplify_eq.
    unfold sha256_digest in *. rewrite M11 in He. rewrite <-He' in He. apply str_append_inj_l in He as [_ He]; done.
Qed.

Lemma collision_free_weaken l k : (∀ x, x ∈ k → x ∈ l) → collision_free l → collision_free k.
Proof. intros Hk Hl a b Ha Hb. apply Hl; auto. Qed.

Lemma intact_sealed h : intact C h → sealed C h.
Proof. by intros [a (Hs & _)%record_from_header_Ok]. Qed.

(** Two chains that end alike agree from the first header on. *)
Lemma chains_agree d d' l l' z :
  Forall row_typed l → Forall row_typed l' →
  verify_loop C (stored_header_row d <$> l) 1 None = Ok z → verify_loop C (stored_header_row d' <$> l') 1 None = Ok z →
  collision_free (hashed (stored_header_row d <$> l) ++ hashed (stored_header_row d' <$> l')) →
  Forall2 (λ r s, same_header (stored_header_row d r) (stored_header_row d' s)) l l'.
Proof.
  revert l' z. induction l as [|r l IH] using rev_ind; intros l' z Hl Hl' Hv Hv' Hfree.
  { destruct z as [next final]. apply verify_loop_Ok in Hv as (Hn & _), Hv' as (Hn' & _). rewrite !length_fmap in *.
    destruct l'; [constructor|]. cbn in *. lia. }
  destruct l' as [|s l' _] using rev_ind.
  { destruct z as [next final]. apply verify_loop_Ok in Hv as (Hn & _), Hv' as (Hn' & _).
    rewrite !length_fmap, length_app in *. cbn in *. lia. }
  apply Forall_app in Hl as [Hl Hr], Hl' as [Hl' Hs]. apply Forall_cons in Hr as [Hr _], Hs as [Hs _]. rewrite !fmap_app in *.
  apply verify_loop_app in Hv as (y & Hy & Hv), Hv' as (y' & Hy' & Hv').
  apply verify_loop_cons in Hv as ((P1 & P2 & P3) & _ & Hv), Hv' as ((Q1 & Q2 & Q3) & _ & Hv').
  cbn in Hv, Hv'. assert (Hdig : row_event_digest r = row_event_digest s) by congruence.
  assert (Hsame : same_header (stored_header_row d r) (stored_header_row d' s)).
  { apply message_determines; auto using intact_sealed. eapply collision_free_weaken; [|exact Hfree].
    intros x Hx. unfold hashed. rewrite !bind_app. cbn [fmap list_fmap mbind list_bind]. rewrite !app_nil_r. set_solver. }
  apply Forall2_app; [|by constructor]. apply (IH l' y); [done..| |].
  - assert (y = y') as ->; [|done]. destruct y, y'. cbn in *. f_equal; [|].
    + rewrite <-P1, <-Q1. apply Hsame.
    + rewrite <-P2, <-Q2. apply Hsame.
  - eapply collision_free_weaken; [|exact Hfree]. intros x Hx. unfold hashed in *. rewrite !bind_app. set_solver.
Qed.

(** ** The rows of an honest store are typed *)

Context `{!AuditCodecLaws C}.

Lemma canonical_fits v p : str_len p ≤ 10 → canonical_id v p = true → fits_u64 v.
Proof.
  unfold canonical_id, fits_u64. intros Hp. destruct (strip_prefix p v ≫= strip_prefix "_") as [i|] eqn:E; [|done].
  apply bind_Some in E as (x & ->%strip_prefix_Some & ->%strip_prefix_Some). intros H. split_bools.
  rewrite !str_len_app. change (str_len "_") with 1. unfold u64_max. lia.
Qed.

Lemma optional_fits v p : str_len p ≤ 10 → bad_optional v p = false → fits_u64 (default "" v).
Proof. destruct v as [v|]; cbn; [|done]. intros Hp H. apply negb_false_iff in H. by eapply canonical_fits. Qed.

Lemma digest_fits s f : validate_digest s f = Ok tt → fits_u64 s.
Proof. intros H%audit_digest_Ok. unfold fits_u64. by rewrite (digest_length s H). Qed.

Lemma entry_typed d r x : audit_wf C d → r ∈ audit_events d → entry_row C d r x → row_typed r.
Proof.
  intros Hd Hr [Ho Hf Hv _]. destruct (intact_sealed _ (row_intact C d Hd r Hr)) as [_ Hpd Hpv _ _].
  pose proof (proj1 (Forall_forall _ _) (wf_rows C d Hd) r Hr) as (_ & Hseq & Hocc & Hu).
  apply validate_event_parts in Hv as (Hid & _ & _ & _ & Hs & _). unfold validate_scope in Hs. apply refuse_Ok in Hs. split_bools.
  pose proof (facts_Ok _ _ Hf) as (Fi & Fo & Fk & Fw & Fp & Fr). cbn in Fi, Fo, Fk, Fw, Fp, Fr.
  assert (Hi : i64_min ≤ 0) by done.
  split.
  - rewrite Ho. unfold entry_organization. by eapply (canonical_fits _ "org").
  - unfold in_i64. lia.
  - rewrite Fi. by eapply (canonical_fits _ "aud").
  - unfold in_i64. lia.
  - rewrite Fw. by eapply (optional_fits _ "wsp").
  - rewrite Fp. by eapply (optional_fits _ "prj").
  - rewrite Fr. by eapply (optional_fits _ "rep").
  - unfold in_i64. destruct (row_retention_until_millis r) as [u|]; cbn; [specialize (Hu u eq_refl)|]; lia.
  - cbn in Hpv. destruct (row_previous_digest r); [by eapply digest_fits|done].
  - by eapply digest_fits.
Qed.
End tamper.
