(* ===== verification/AuditFixture.v ===== *)
(** * Audit store: a concrete codec and events

    A codec that keeps the laws of [AuditCodecLaws], built from combinators, and the events
    that the witnesses run with. *)

From Stdlib Require Import Ascii String.
From S2P Require Import Prelude Text Numerals AuditTypes AuditTables.
Local Open Scope Z_scope.

(** ** Codes *)

Class Coded (T : Type) : Type := { put : T → string; get : string → option T; got x : get (put x) = Some x }.

(** A text marked character by character, so that it can be followed by another. *)
Fixpoint marked (s : string) : string :=
  match s with EmptyString => "0" | String c s => String "1" (String c (marked s)) end.

Fixpoint unmarked (s : string) : option (string * string) :=
  match s with
  | String "0" rest => Some (EmptyString, rest)
  | String "1" (String c s) => match unmarked s with Some (x, rest) => Some (String c x, rest) | None => None end
  | _ => None
  end.

Lemma unmarked_marked s rest : unmarked (marked s +:+ rest) = Some (s, rest).
Proof.
  induction s as [|c s IH]; [done|].
  change (match unmarked (marked s +:+ rest) with Some (x, r) => Some (String c x, r) | None => None end = Some (String c s, rest)).
  by rewrite IH.
Qed.

Fixpoint bits (p : positive) : string :=
  match p with xH => "" | xO p => String "0" (bits p) | xI p => String "1" (bits p) end.

Fixpoint unbits (s : string) : positive :=
  match s with EmptyString => xH | String "0" s => xO (unbits s) | String _ s => xI (unbits s) end.

Lemma unbits_bits p : unbits (bits p) = p.
Proof. induction p as [p IH|p IH|]; cbn; by rewrite ?IH. Qed.

#[export] Instance coded_string : Coded string := {| put := id; get := Some; got _ := eq_refl |}.

#[export] Instance coded_Z : Coded Z.
Proof.
  refine {| put z := match z with Z0 => "" | Zpos p => String "p" (bits p) | Zneg p => String "n" (bits p) end;
            get s := Some match s with
                          | EmptyString => Z0 | String "p" s => Zpos (unbits s) | String _ s => Zneg (unbits s) end |}.
  intros [|p|p]; [done|by rewrite unbits_bits..].
Defined.

#[export] Instance coded_option {A} `{!Coded A} : Coded (option A).
Proof.
  refine {| put o := match o with None => "" | Some a => String "s" (put a) end;
            get s := match s with EmptyString => Some None | String _ s => Some <$> get s end |}.
  intros [a|]; [by rewrite got|done].
Defined.

#[export] Instance coded_prod {A B} `{!Coded A, !Coded B} : Coded (A * B).
Proof.
  refine {| put p := marked (put p.1) +:+ put p.2;
            get s := '(x, y) ← unmarked s; a ← get x; b ← get y; Some (a, b) |}.
  intros [a b]. rewrite unmarked_marked. cbn [mbind option_bind fst snd]. by rewrite !got.
Defined.

Definition coded_via {A B} `{!Coded B} (f : A → B) (g : B → option A) (H : ∀ x, g (f x) = Some x) : Coded A.
Proof.
  refine {| put x := put (f x); get s := match get s with Some b => g b | None => None end |}.
  intros x. by rewrite got.
Defined.

(** ** Codes of the parts of an event *)

#[export] Instance coded_actor : Coded AuditActor.
Proof.
  refine (coded_via (λ a, match a with User i => (0, i) | ServiceAccount i => (1, i) | System i => (2, i) end)
    (λ '(k, i), Some match k with 0 => User i | 1 => ServiceAccount i | _ => System i end) _). by intros [].
Defined.

#[export] Instance coded_scope : Coded AuditScope.
Proof.
  refine (coded_via
    (λ s, match s with
          | OrganizationScope o => (o, None)
          | WorkspaceScope o w => (o, Some (w, None))
          | ProjectScope o w p => (o, Some (w, Some (p, None)))
          | RepositoryScope o w p r => (o, Some (w, Some (p, Some r)))
          end)
    (λ '(o, x), Some match x with
          | None => OrganizationScope o
          | Some (w, None) => WorkspaceScope o w
          | Some (w, Some (p, None)) => ProjectScope o w p
          | Some (w, Some (p, Some r)) => RepositoryScope o w p r
          end) _). by intros [].
Defined.

#[export] Instance coded_action_kind : Coded AuditActionKind.
Proof.
  refine (coded_via
    (λ k, match k with
          | Business => 0 | Administration => 1 | Command => 2 | Approval => 3 | Policy => 4 | Credential => 5
          | WorkerLease => 6 | Provider => 7 | ModelInvocation => 8 | DeliveryState => 9 | PublicationAction => 10 end)
    (λ z, Some match z with
          | 0 => Business | 1 => Administration | 2 => Command | 3 => Approval | 4 => Policy | 5 => Credential
          | 6 => WorkerLease | 7 => Provider | 8 => ModelInvocation | 9 => DeliveryState | _ => PublicationAction end) _).
  by intros [].
Defined.

#[export] Instance coded_invocation : Coded AuditModelInvocation.
Proof.
  refine (coded_via
    (λ m, (invocation_provider_id m, (invocation_model_id m, (input_digest m, (output_digest m, (input_tokens m, output_tokens m))))))
    (λ '(a, (b, (c, (d, (e, f))))), Some {| invocation_provider_id := a; invocation_model_id := b; input_digest := c;
       output_digest := d; input_tokens := e; output_tokens := f |}) _). by intros [].
Defined.

#[export] Instance coded_action : Coded AuditAction.
Proof.
  refine (coded_via
    (λ a, (action_kind a, (action_name a, (action_invocation a, (action_credential a, action_provider a)))))
    (λ '(a, (b, (c, (d, e)))), Some {| action_kind := a; action_name := b; action_invocation := c;
       action_credential := d; action_provider := e |}) _). by intros [].
Defined.

#[export] Instance coded_state : Coded AuditState.
Proof.
  refine (coded_via (λ s, match s with Changed b a => (Some a, b) | Unchanged c => (None, c) end)
    (λ '(a, b), Some match a with Some a => Changed b a | None => Unchanged b end) _). by intros [].
Defined.

#[export] Instance coded_origin : Coded AuditOrigin.
Proof.
  refine (coded_via
    (λ o, match o with Local c => (0, (c, 0)) | Network (V4 b) => (1, ("", b)) | Network (V6 b) => (2, ("", b)) end)
    (λ '(k, (c, b)), Some match k with 0 => Local c | 1 => Network (V4 b) | _ => Network (V6 b) end) _).
  by intros [|[]].
Defined.

#[export] Instance coded_source : Coded AuditBindingSource.
Proof.
  refine (coded_via
    (λ b, (source_message_id b, match source_phase b with WorkerSessionPhase => 0 | CodexThreadPhase => 1 end))
    (λ '(m, p), Some {| source_message_id := m;
       source_phase := match p with 0 => WorkerSessionPhase | _ => CodexThreadPhase end |}) _). by intros [? []].
Defined.

#[export] Instance coded_identity : Coded AuditExecutionIdentity.
Proof.
  refine (coded_via
    (λ i, (identity_product_session_id i, (identity_worker_session_id i, (identity_codex_thread_id i,
          (identity_work_run_id i, (identity_execution_job_id i, (identity_delivery_id i, (identity_work_item_id i,
          (identity_worker_id i, (identity_worker_instance_id i, (identity_lease_id i, (identity_attempt i,
          (identity_fencing_token i, (identity_source_sequence i, identity_binding_source i))))))))))))))
    (λ '(a, (b, (c, (d, (e, (f, (g, (h, (i, (j, (k, (l, (m, n))))))))))))),
       Some {| identity_product_session_id := a; identity_worker_session_id := b; identity_codex_thread_id := c;
          identity_work_run_id := d; identity_execution_job_id := e; identity_delivery_id := f;
          identity_work_item_id := g; identity_worker_id := h; identity_worker_instance_id := i;
          identity_lease_id := j; identity_attempt := k; identity_fencing_token := l;
          identity_source_sequence := m; identity_binding_source := n |}) _). by intros [].
Defined.

#[export] Instance coded_subject : Coded AuditSubjectWire.
Proof.
  refine (coded_via
    (λ w, match w with
          | LegacyWire a b c d => (Some (a, (b, (c, d))), None)
          | ExecutionWire k i => (None, Some (match k with AcceptedBindingKind => 0 | RuntimeKind => 1 | TerminalKind => 2 end, i))
          end)
    (λ '(x, y), match x, y with
          | Some (a, (b, (c, d))), _ => Some (LegacyWire a b c d)
          | None, Some (k, i) =>
              Some (ExecutionWire match k with 0 => AcceptedBindingKind | 1 => RuntimeKind | _ => TerminalKind end i)
          | None, None => None
          end) _). by intros [|[] i].
Defined.

#[export] Instance coded_event : Coded WireEvent.
Proof.
  refine (coded_via
    (λ e, (event_id e, (occurred_at_millis e, (actor e, (scope e, (request_id e, (action e, (state e, (origin e,
       (subject e, (match outcome e with Succeeded => 0 | Rejected => 1 | Failed => 2 end, (result_code e,
       match retention e with UntilMillis u => Some u | Indefinite => None end))))))))))))
    (λ '(a, (b, (c, (d, (e, (f, (g, (h, (i, (j, (k, l))))))))))),
       Some {| event_id := a; occurred_at_millis := b; actor := c; scope := d; request_id := e; action := f; state := g;
          origin := h; subject := i; outcome := match j with 0 => Succeeded | 1 => Rejected | _ => Failed end;
          result_code := k; retention := match l with Some u => UntilMillis u | None => Indefinite end |}) _).
  by intros [? ? ? ? ? ? ? ? ? [] ? []].
Defined.

(** ** The codec *)

(** A polynomial hash, printed with 64 hexadecimal digits, the first of which differ. *)
Definition hash (s : string) : Z := foldl (λ acc c, (acc * 257 + byte_val c + 1) mod 1000003) 7 (bytes s).

Fixpoint hex_digits (k : nat) (n : Z) : string :=
  match k with O => "" | S k => String (digit_char (n / 16 ^ Z.of_nat k mod 16)) (hex_digits k n) end.

Definition hash_hex (s : string) : string := hex_digits 64 (hash s * 16 ^ 59).

Definition audit_codec : AuditCodec :=
  {| sha256_hex := hash_hex; to_vec := put; from_slice := get |}.

Lemma digit_char_hex z : 0 ≤ z < 16 → is_hex_lower (digit_char z) = true.
Proof.
  intros Hz. assert (Hin : z ∈ seqZ 0 16) by (apply elem_of_seqZ; lia).
  clear Hz. revert z Hin. apply Forall_forall. by repeat constructor.
Qed.

Lemma hex_digits_shape k n : str_len (hex_digits k n) = Z.of_nat k ∧ all_bytes is_hex_lower (hex_digits k n) = true.
Proof.
  induction k as [|k [Hl Ha]]; [done|]. split.
  - unfold str_len in *. cbn [hex_digits String.length]. lia.
  - unfold all_bytes in *. cbn [hex_digits bytes list_ascii_of_string forallb].
    rewrite digit_char_hex by (apply Z.mod_pos_bound; lia). exact Ha.
Qed.

Lemma hash_hex_shape b : sha256_shape ("sha256:" +:+ hash_hex b) = true.
Proof.
  unfold sha256_shape, hash_hex. generalize (hash b * 16 ^ 59). intros n.
  destruct (hex_digits_shape 64 n) as [Hl Ha]. generalize dependent (hex_digits 64 n). intros h Hl Ha.
  rewrite (proj2 (strip_prefix_Some "sha256:" _ h) eq_refl), Hl, Ha. done.
Qed.

#[export] Instance audit_codec_laws : AuditCodecLaws audit_codec.
Proof.
  split; [exact hash_hex_shape|]. intros w. apply got.
Qed.

(** ** Events *)

Definition fixture_id (prefix : string) (c : ascii) : string := prefix +:+ "_" +:+ repeated 26 c.

Definition fixture_organization : string := fixture_id "org" "1".

Definition fixture_event (c : ascii) (s : AuditSubject) (keep : AuditRetention) : AuditEvent :=
  {| event_id := fixture_id "aud" c; occurred_at_millis := 1000; actor := User (fixture_id "usr" "1");
     scope := WorkspaceScope fixture_organization (fixture_id "wsp" "1"); request_id := fixture_id "req" c;
     action := {| action_kind := Business; action_name := "session.create"; action_invocation := None;
                  action_credential := None; action_provider := None |};
     state := Unchanged None; origin := Local "server"; subject := s; outcome := Succeeded; result_code := "ok";
     retention := keep |}.

Definition first_event : AuditEvent := fixture_event "A" new_subject (UntilMillis 5000).

Definition second_event : AuditEvent :=
  fixture_event "B" (References (Some (fixture_id "dlv" "1")) None None (Some (fixture_id "pub" "1"))) Indefinite.

(** The identifier of the second event with other facts. *)
Definition conflicting_event : AuditEvent := fixture_event "B" new_subject Indefinite.

Definition fresh_event : AuditEvent := fixture_event "C" new_subject Indefinite.
