(* ===== verification/AuditSafety.v ===== *)
(** * Audit store: what it promises

    Over every run of appends and prunings: the chain of every organisation verifies, also
    against every checkpoint taken before; what was accepted is answered and read the same for
    ever, up to the withdrawal of its payload; and a database that is accepted under a
    checkpoint records the events that the checkpoint was taken over. *)

From Stdlib Require Import Ascii String.
From stdpp Require Import sorting.
From S2P Require Import Prelude Text Numerals Ordered Transaction StateKeys AuditTypes AuditTables AuditFacts AuditChain AuditRuns AuditFixture.
Local Open Scope Z_scope.

(** The scope of an event is within the scope of an access. *)
Definition scope_covers (s t : AuditScope) : bool :=
  bool_decide (scope_organization_id t = scope_organization_id s) &&
  scope_admits (scope_workspace_id s) (scope_workspace_id t) &&
  scope_admits (scope_project_id s) (scope_project_id t) &&
  scope_admits (scope_repository_id s) (scope_repository_id t).

Section safety.
Context (C : AuditCodec) `{!AuditCodecLaws C}.

Lemma store_represents calls : represents C (audit_run C calls new_store).1 (audit_run C calls new_store).2.
Proof. apply run_represents; [done|]. apply new_store_represents. Qed.

(** ** Appends *)

(** The row that stands for an entry of the log. *)
Lemma entry_found d L i x :
  represents C d L → L !! i = Some x → ∃ r, audit_events d !! i = Some r ∧ entry_row C d r x.
Proof.
  intros [_ HF _] Hx. destruct (Forall2_lookup_r _ _ _ _ _ HF Hx) as (r & ? & ?). eauto.
Qed.

Lemma answer_entry d r x e payload :
  audit_wf C d → r ∈ audit_events d → entry_row C d r x → event_to_vec C e = Ok payload →
  event_header_facts e = event_header_facts (logged x) → row_payload_digest r = sha256_digest C payload →
  (∀ t, withdrawn x = Some t → t ≤ u64_max) →
  answer_again C e (sha256_digest C payload) (stored_header_row d r) = Ok (row_record r x).
Proof.
  intros Hd Hr Hx Hp Hf Hpd Hw. unfold answer_again. rewrite (record_of_entry C d r x) by done. cbn [mbind result_bind].
  cbn [stored_header_row header_payload_digest]. rewrite Hpd, (differs_refl (sha256_digest C payload)).
  cbn [refuse mbind result_bind]. rewrite Hf, (er_facts _ _ _ _ Hx). cbn [mbind result_bind].
  change (stored_header_facts _) with (stored_header_facts (stored_header_row d r)). by rewrite differs_refl.
Qed.

(** Tombstones carry the times of prunings, which fit. *)
Lemma withdrawn_fits d r x t :
  audit_wf C d → r ∈ audit_events d → entry_row C d r x → withdrawn x = Some t → t ≤ u64_max.
Proof.
  intros Hd Hr [_ _ _ (p & _ & _ & Hw)] Ht. rewrite Ht in Hw. destruct Hw as [Hp Htomb].
  destruct (row_intact C d Hd r Hr) as [a (_ & ev & Hg & _)%record_from_header_Ok].
  destruct Hg as [(q & e & Hq & _)|(q & g & _ & Hg & _ & Ha & _)]; cbn in *; [congruence|].
  rewrite Htomb in Hg. cbn in Hg. simplify_eq. unfold tombstone_authorizes in Ha. split_bools. lia.
Qed.

Lemma append_again d L i x :
  represents C d L → L !! i = Some x →
  ∃ r, audit_events d !! i = Some r ∧ entry_row C d r x ∧ append C d (logged x) = (d, Ok (row_record r x)).
Proof.
  intros HR Hx. destruct (entry_found d L i x HR Hx) as (r & Hr & He). exists r. split; [done|]. split; [done|].
  pose proof (list_elem_of_lookup_2 _ _ _ Hr) as Hin. pose proof (rep_wf _ _ _ HR) as Hd.
  apply append_Ok; [done..|]. destruct (er_payload _ _ _ _ He) as (p & Hp & Hpd & _).
  split; [apply He|]. exists p. split; [done|]. left. exists r. split_and!; try done.
  - pose proof (facts_Ok _ _ (er_facts _ _ _ _ He)) as (Hi & _). exact Hi.
  - apply answer_entry; try done. intros t Ht. by eapply withdrawn_fits.
Qed.

Lemma append_conflict d L i x e payload payload' :
  represents C d L → L !! i = Some x → event_id e = entry_id x → validate_event e = Ok tt →
  event_to_vec C e = Ok payload → event_to_vec C (logged x) = Ok payload' →
  sha256_hex C payload ≠ sha256_hex C payload' → append C d e = (d, Err request_conflict).
Proof.
  intros HR Hx Hid Hv Hp Hp' Hne. destruct (entry_found d L i x HR Hx) as (r & Hr & He).
  apply list_elem_of_lookup_2 in Hr. pose proof (rep_wf _ _ _ HR) as Hd.
  unfold append. apply commit_Err. split; [|done]. unfold append_tx.
  rewrite (lift_run _ tt) by done. rewrite (lift_run _ payload) by done.
  rewrite (query_run _ (Some (stored_header_row d r))).
  2: { pose proof (facts_Ok _ _ (er_facts _ _ _ _ He)) as (Hi & _). cbn in Hi. f_equal.
       rewrite Hid. unfold entry_id. rewrite <-Hi. by apply (load_row C). }
  unfold lift, answer_again. rewrite (record_of_entry C d r x) by (done || by intros t; eapply withdrawn_fits).
  cbn [mbind result_bind]. destruct (er_payload _ _ _ _ He) as (p & Hpx & Hpd & _).
  rewrite bool_decide_eq_true_2; [done|]. cbn [stored_header_row header_payload_digest]. rewrite Hpd.
  assert (p = payload') as -> by congruence. intros E. apply Hne. unfold sha256_digest in E.
  apply str_append_inj_l in E as [_ E]; done.
Qed.

Lemma facts_scope e facts :
  event_header_facts e = Ok facts →
  (bool_decide (facts_project_id facts = None) || bool_decide (is_Some (facts_workspace_id facts))) = true ∧
  (bool_decide (facts_repository_id facts = None) || bool_decide (is_Some (facts_project_id facts))) = true.
Proof. intros (_ & _ & _ & -> & -> & ->)%facts_Ok. by destruct (scope e). Qed.

(** A new event that fits is accepted. *)
Lemma append_fresh d L e facts :
  represents C d L → event_id e ∉ (entry_id <$> L) → validate_event e = Ok tt → 0 ≤ occurred_at_millis e →
  event_header_facts e = Ok facts → Z.of_nat (length (log_of L (scope_organization_id (scope e)))) < i64_max →
  ∃ d' rec, append C d e = (d', Ok rec) ∧ record_event rec = Some e ∧
    record_sequence rec = 1 + Z.of_nat (length (log_of L (scope_organization_id (scope e)))).
Proof.
  intros HR Hid Hv Hocc Hf Hroom. pose proof (rep_wf _ _ _ HR) as Hd.
  destruct (event_to_vec_total C e Hv) as [p Hp]. set (r := new_row C d e facts p).
  exists (appended d r p), (new_record r e). split; [|split; [done|]].
  2: { cbn. unfold next_sequence. rewrite (rep_length C d L _ HR). lia. }
  apply append_Ok; [done..|]. split; [done|]. exists p. split; [done|]. right.
  rewrite (rep_ids C d L HR). split; [done|]. exists facts. split; [done|].
  split; [|split; [unfold next_sequence; rewrite (rep_length C d L _ HR); lia|done]].
  destruct (facts_scope e facts Hf) as [Hs1 Hs2]. destruct (facts_Ok e facts Hf) as (Fi & Fo & Fk & _).
  apply validate_event_parts in Hv as (_ & Hnz & _). unfold row_accepted. rewrite !andb_true_iff. split_and!.
  - apply forallb_forall. intros y Hy%list_elem_of_In. apply andb_true_iff. rewrite !negb_true_iff, !bool_decide_eq_false. split.
    + intros E. apply (new_row_fresh C d Hd e facts p). rewrite <-E. by apply list_elem_of_fmap_2.
    + intros E. apply Hid. rewrite <-(rep_ids C d L HR), <-Fi. change (facts_event_id facts) with (row_event_id (new_row C d e facts p)).
      rewrite <-E. by apply list_elem_of_fmap_2.
  - apply Z.ltb_lt. unfold new_row, next_sequence. cbn. lia.
  - apply Z.ltb_lt. unfold new_row. cbn. lia.
  - cbn. destruct Fk as [(-> & _)|(-> & _)]; done.
  - cbn. destruct Fk as [(-> & -> & Hr)|(-> & -> & _)]; [|done]. by destruct (retention e).
  - exact Hs1.
  - exact Hs2.
Qed.

(** ** Reads *)

Lemma read_entry d L i x r s as_of :
  represents C d L → audit_events d !! i = Some r → entry_row C d r x → validate_scope s = Ok tt →
  (∀ t, withdrawn x = Some t → t ≤ as_of) → as_of ≤ i64_max →
  read_exact C d (into_access s) (entry_id x) as_of =
  Ok (if scope_covers s (scope (logged x)) then Some (row_record r x) else None).
Proof.
  intros HR Hr He Hs Hw Has. apply list_elem_of_lookup_2 in Hr. pose proof (rep_wf _ _ _ HR) as Hd.
  unfold read_exact. cbn [into_access access_scope]. rewrite Hs. cbn [mbind result_bind].
  rewrite refuse_run by (apply Z.ltb_ge; lia).
  pose proof (facts_Ok _ _ (er_facts _ _ _ _ He)) as (Hi & _ & _ & Fw & Fp & Fr). cbn in Hi, Fw, Fp, Fr.
  unfold entry_id. rewrite <-Hi, (load_row C d Hd r Hr).
  assert (header_is_visible_to_scope (stored_header_row d r) s = scope_covers s (scope (logged x))) as ->.
  { unfold header_is_visible_to_scope, scope_covers. cbn [stored_header_row header_organization_id header_workspace_id header_project_id header_repository_id].
    rewrite (er_organization _ _ _ _ He), Fw, Fp, Fr. done. }
  destruct (scope_covers _ _); [|done]. by rewrite (record_of_entry C d r x).
Qed.

(** The entries of the organisation of a scope that the scope covers, with their places in the
    chain, after a cursor. *)
Definition visible (L : list LogEntry) (sc : AuditScope) (after : Z) : list (Z * LogEntry) :=
  let entries := log_of L (scope_organization_id sc) in
  filter (λ p, after < p.1 ∧ scope_covers sc (scope (logged p.2)) = true) (zip (seqZ 1 (Z.of_nat (length entries))) entries).

Definition shown (p : Z * LogEntry) : Z * option AuditEvent :=
  (p.1, match withdrawn p.2 with None => Some (normal (logged p.2)) | Some _ => None end).

Definition row_of (d : AuditDb) (r : EventRow) (p : Z * LogEntry) : Prop :=
  r ∈ audit_events d ∧ row_sequence r = p.1 ∧ entry_row C d r p.2.

Lemma chain_places d L o :
  represents C d L →
  Forall2 (row_of d) (chain d o) (zip (seqZ 1 (Z.of_nat (length (log_of L o)))) (log_of L o)).
Proof.
  intros HR. pose proof (chain_log C d L o HR) as Hl. pose proof (chain_numbered C d (rep_wf _ _ _ HR) o) as Hn.
  rewrite (Forall2_length _ _ _ Hl) in Hn. apply Forall2_same_length_lookup. split.
  - rewrite length_zip_with, length_seqZ, Nat2Z.id, Nat.min_id. by eapply Forall2_length.
  - intros i r [n x] Hr Hp. apply lookup_zip_with_Some in Hp as (n' & x' & [= <- <-] & Hn' & Hx).
    split; [by apply list_elem_of_lookup_2, chain_elem in Hr as [? _]|]. split; [|by eapply Forall2_lookup_lr].
    apply (f_equal (.!! i)) in Hn. rewrite list_lookup_fmap, Hr, Hn' in Hn. by injection Hn.
Qed.

Lemma entry_in_scope d r x sc :
  entry_row C d r x → row_organization_id r = scope_organization_id sc →
  row_in_scope sc r = scope_covers sc (scope (logged x)).
Proof.
  intros He Ho. pose proof (facts_Ok _ _ (er_facts _ _ _ _ He)) as (_ & _ & _ & Fw & Fp & Fr). cbn in Fw, Fp, Fr.
  rewrite (er_organization _ _ _ _ He) in Ho. unfold row_in_scope, scope_covers. rewrite Fw, Fp, Fr.
  by rewrite bool_decide_eq_true_2.
Qed.

Lemma visible_rows d L sc after :
  represents C d L →
  Forall2 (row_of d) (select_rows d (scope_organization_id sc) (λ r, (after <? row_sequence r) && row_in_scope sc r))
    (visible L sc after).
Proof.
  intros HR. rewrite select_chain. unfold visible. pose proof (chain_places d L (scope_organization_id sc) HR) as HF.
  assert (Ho : ∀ r, r ∈ chain d (scope_organization_id sc) → row_organization_id r = scope_organization_id sc)
    by (by intros r [_ ?]%chain_elem).
  revert Ho. induction HF as [|r p l k (Hr & Hs & He) _ IH]; intros Ho; [constructor|]. rewrite !filter_cons.
  assert (Heq : (after <? row_sequence r) && row_in_scope sc r = true ↔ after < p.1 ∧ scope_covers sc (scope (logged p.2)) = true).
  { rewrite andb_true_iff, Z.ltb_lt, Hs, (entry_in_scope d r p.2 sc He); [done|]. apply Ho. by left. }
  assert (IH' := IH (λ x Hx, Ho x (proj2 (elem_of_cons _ _ _) (or_intror Hx)))).
  destruct (decide ((after <? row_sequence r) && row_in_scope sc r = true)) as [H|H].
  - rewrite decide_True by (by apply Heq). by constructor.
  - rewrite decide_False by (by rewrite <-Heq). done.
Qed.

Lemma read_rows d L l ps as_of :
  represents C d L → Forall2 (row_of d) l ps → (∀ p t, p ∈ ps → withdrawn p.2 = Some t → t ≤ as_of) →
  ∃ recs, read_records C (stored_header_row d <$> l) as_of = Ok recs ∧
    (λ rec, (record_sequence rec, record_event rec)) <$> recs = shown <$> ps.
Proof.
  intros HR HF. induction HF as [|r p l k (Hr & Hs & He) _ IH]; intros Hw; [by exists []|].
  destruct IH as (recs & Hrecs & Heq). { intros q t Hq. apply Hw. by right. }
  exists (row_record r p.2 :: recs). cbn [read_records fmap list_fmap].
  rewrite (record_of_entry C d r p.2) by (done || apply HR || (intros t; apply Hw; by left)). cbn [mbind result_bind].
  fold (stored_header_row d <$> l). rewrite Hrecs. cbn [mbind result_bind]. split; [done|].
  cbn [fmap list_fmap]. f_equal; [|exact Heq]. unfold shown. cbn. by rewrite Hs.
Qed.

Lemma visible_sorted L sc after : StronglySorted (λ p q : Z * LogEntry, p.1 < q.1) (visible L sc after).
Proof.
  unfold visible. generalize (log_of L (scope_organization_id sc)) 1. intros entries a.
  revert a. induction entries as [|x entries IH]; intros a; [constructor|].
  rewrite length_cons, Nat2Z.inj_succ, seqZ_cons, Z.pred_succ by lia. cbn [zip_with]. rewrite filter_cons.
  destruct (decide _) as [H|H]; [|apply IH]. constructor; [apply IH|]. apply Forall_forall. intros [n y] Hy.
  apply list_elem_of_filter in Hy as [_ Hy]. apply elem_of_zip_l, elem_of_seqZ in Hy. cbn. lia.
Qed.

(** A sorted list above the element before a place is the list from the place on. *)
Lemma sorted_above (l : list (Z * LogEntry)) k n x :
  StronglySorted (λ p q : Z * LogEntry, p.1 < q.1) l → last (take k l) = Some (n, x) → (k ≤ length l)%nat →
  filter (λ p, n < p.1) l = drop k l.
Proof.
  intros Hs Hl Hk. rewrite <-(take_drop k l) at 1. rewrite filter_app.
  destruct k as [|k]; [done|]. rewrite last_lookup, length_take_le in Hl by done. cbn [Nat.pred] in Hl.
  assert (Hat : l !! k = Some (n, x)) by (by rewrite lookup_take_lt in Hl by lia).
  rewrite filter_none, filter_all; [done| |].
  - apply Forall_forall. intros p Hp. apply list_elem_of_lookup in Hp as [i Hi]. rewrite lookup_drop in Hi.
    exact (sorted_lookup _ l k (S k + i) _ _ Hs Hat Hi ltac:(lia)).
  - apply Forall_forall. intros p Hp. apply list_elem_of_lookup in Hp as [i Hi].
    apply lookup_take_Some in Hi as [Hi Hik]. destruct (decide (i = k)) as [->|Hne]; [simplify_eq; cbn; lia|].
    pose proof (sorted_lookup _ l i k _ _ Hs Hi Hat ltac:(lia)) as Hlt. cbn in *. lia.
Qed.

Lemma visible_next L sc after n k x :
  last (take k (visible L sc after)) = Some (n, x) → (k ≤ length (visible L sc after))%nat →
  visible L sc n = drop k (visible L sc after).
Proof.
  intros Hl Hk. rewrite <-(sorted_above _ k n x (visible_sorted L sc after) Hl Hk). unfold visible.
  rewrite list_filter_filter. apply list_filter_iff. intros p.
  assert (Ha : after < n).
  { apply last_Some_elem_of in Hl. assert (Hin : (n, x) ∈ visible L sc after).
    { rewrite <-(take_drop k (visible L sc after)). apply elem_of_app. by left. }
    by apply list_elem_of_filter in Hin as [[? _] _]. }
  split; [|naive_solver]. intros [? ?]. split_and!; [lia|lia|done].
Qed.

Lemma read_page d L sc after limit as_of :
  represents C d L → validate_scope sc = Ok tt → (1 ≤ limit ≤ 200)%nat → after ≤ i64_max → as_of ≤ i64_max →
  (∀ x t, x ∈ L → withdrawn x = Some t → t ≤ as_of) →
  ∃ page, read C d (into_access sc) after limit as_of = Ok page ∧
    (λ rec, (record_sequence rec, record_event rec)) <$> page_records page = shown <$> take limit (visible L sc after) ∧
    page_next_sequence page =
      if decide (limit < length (visible L sc after))%nat then fst <$> last (take limit (visible L sc after)) else None.
Proof.
  intros HR Hv Hlim Ha Has Hw. pose proof (visible_rows d L sc after HR) as HF.
  pose proof (Forall2_length _ _ _ HF) as Hlen.
  set (rows := select_rows d (scope_organization_id sc) (λ r, (after <? row_sequence r) && row_in_scope sc r)) in *.
  destruct (read_rows d L (take limit rows) (take limit (visible L sc after)) as_of HR) as (recs & Hrecs & Heq).
  { by apply Forall2_take. }
  { intros p t Hp. apply Hw. apply elem_of_take in Hp as (i & Hi & _). apply list_elem_of_lookup_2, list_elem_of_filter in Hi as [_ Hi].
    destruct p as [n x]. apply elem_of_zip_r in Hi. by apply list_elem_of_filter in Hi as [_ ?]. }
  exists {| page_records := recs; page_next_sequence :=
    if decide (limit < length (visible L sc after))%nat then record_sequence <$> last recs else None |}.
  assert (Hfst : record_sequence <$> last recs = fst <$> last (take limit (visible L sc after))).
  { rewrite <-!fmap_last. f_equal. transitivity ((shown <$> take limit (visible L sc after)).*1).
    - rewrite <-Heq, <-list_fmap_compose. done.
    - rewrite <-list_fmap_compose. done. }
  split; [|split; [done|]].
  2: { cbn. by rewrite Hfst. }
  unfold read. cbn [into_access access_scope]. rewrite Hv. cbn [mbind result_bind].
  rewrite refuse_run by (rewrite (proj2 (Nat.leb_le 1 limit)), (proj2 (Nat.leb_le limit 200)) by lia; cbn; lia).
  unfold select_headers. fold rows. rewrite <-fmap_take, length_fmap, length_take.
  destruct (decide (limit < length (visible L sc after))%nat) as [Hmore|Hmore].
  - rewrite (proj2 (Nat.ltb_lt _ _)) by lia. rewrite <-fmap_take, take_take.
    replace (min (min (limit + 1) (length rows) - 1) (limit + 1)) with limit by lia.
    by rewrite Hrecs.
  - rewrite (proj2 (Nat.ltb_ge _ _)) by lia. rewrite (take_ge rows (limit + 1)) by lia.
    rewrite (take_ge rows limit) in Hrecs by lia. by rewrite Hrecs.
Qed.

(** ** Evidence *)

(** What was hashed when the entries were appended. *)
Definition log_payloads (L : list LogEntry) : list string :=
  omap (λ x, match event_to_vec C (logged x) with Ok p => Some p | Err _ => None end) L.

(** The rows that a checkpoint covers. *)
Definition covered (d : AuditDb) (o : string) (c : AuditChainCheckpoint) : list EventRow :=
  select_rows d o (upto (upper_sequence (Some c))).

Definition covered_headers (d : AuditDb) (o : string) (c : AuditChainCheckpoint) : list StoredHeader :=
  stored_header_row d <$> covered d o c.

Lemma verify_checkpoint_loop d o c c' :
  verify_checkpoint C d o (Some c) = Ok c' →
  verify_loop C (covered_headers d o c) 1 None = Ok (checkpoint_last_sequence c + 1, checkpoint_last_digest c).
Proof.
  unfold verify_checkpoint, covered_headers, covered. intros H. apply bind_Ok in H as ([] & _ & H).
  apply bind_Ok in H as ([next final] & Hv & H). apply bind_Ok in H as ([] & H & _). apply refuse_Ok in H. split_bools.
  unfold select_headers in Hv. rewrite Hv. do 2 f_equal; [lia|done].
Qed.

Lemma covered_chain d L o : represents C d L → covered d o (checkpoint_of d o) = chain d o.
Proof.
  intros HR. pose proof (rep_wf _ _ _ HR) as Hd. pose proof (chain_length C d o Hd) as Hl.
  unfold covered. cbn [upper_sequence checkpoint_of checkpoint_last_sequence].
  rewrite (proj2 (Z.ltb_ge _ _)) by done. rewrite select_chain. apply filter_all, Forall_forall. intros r Hr.
  apply (list_elem_of_fmap_2 row_sequence) in Hr. rewrite (chain_numbered C d Hd) in Hr. apply elem_of_seqZ in Hr.
  unfold upto. apply Z.leb_le. lia.
Qed.

(** A header that agrees with the row of an entry reads as the entry, or is withdrawn. *)
Lemma agreeing_event d db r x r' :
  r ∈ audit_events d → entry_row C d r x → same_header (stored_header_row d r) (stored_header_row db r') →
  intact C (stored_header_row db r') →
  (∀ p q, event_to_vec C (logged x) = Ok p → header_payload (stored_header_row db r') = Some q →
     sha256_hex C p = sha256_hex C q → p = q) →
  ∃ rec, record_from_header C (stored_header_row db r') u64_max = Ok rec ∧
    (record_event rec = Some (normal (logged x)) ∨
     record_event rec = None ∧ ∃ u, retention (logged x) = UntilMillis u).
Proof.
  intros Hr Hx Hs [rec Hi] Hfree. exists rec. split; [done|].
  apply record_from_header_Ok in Hi as (_ & ev & Hg & ->). cbn [record_event].
  destruct (er_payload _ _ _ _ Hx) as (p & Hp & Hpd & _).
  destruct Hg as [(q & e & Hq & _ & _ & He & ->)|(t & g & _ & _ & _ & Ht & ->)]; [left|right].
  - unfold stored_event in He. apply bind_Ok in He as ([] & Hd & He). apply bind_Ok in He as (e' & He' & He).
    apply refuse_Ok in Hd. split_bools. apply ok_or_Ok in He'. pose proof (same_payload_digest _ _ Hs) as Hpd'.
    cbn [stored_header_row header_payload_digest] in Hpd', Hd. assert (p = q) as <-.
    { apply Hfree; [done..|]. rewrite <-Hpd', Hpd in Hd. unfold sha256_digest in Hd. by apply str_append_inj_l in Hd as [_ ->]. }
    rewrite (event_round_trip C _ _ Hp) in He'. injection He' as <-. f_equal.
    apply bind_Ok in He as ([] & _ & He). apply bind_Ok in He as ([] & _ & He).
    apply bind_Ok in He as (f & _ & He). apply bind_Ok in He as ([] & _ & He). by injection He as <-.
  - split; [done|]. unfold tombstone_authorizes in Ht. rewrite <-(same_until _ _ Hs) in Ht. cbn in Ht.
    pose proof (facts_Ok _ _ (er_facts _ _ _ _ Hx)) as (_ & _ & Hk & _). cbn in Hk.
    destruct (row_retention_until_millis r) as [u|]; [|done].
    destruct Hk as [(_ & Hk & _)|(_ & Hk & _)]; [|done]. destruct (retention (logged x)); [|done]. eauto.
Qed.

Lemma admits_same wanted prefix found found' :
  bad_optional wanted prefix = false → default "" found = default "" found' →
  scope_admits wanted found = scope_admits wanted found'.
Proof.
  destruct wanted as [id|]; cbn; [|done]. intros Hc Hf. apply negb_false_iff in Hc.
  assert (Hne : id ≠ ""). { intros ->. unfold canonical_id in Hc. destruct prefix; done. }
  apply bool_decide_ext. destruct found as [a|], found' as [b|]; cbn in Hf; [by rewrite Hf| | |done].
  - rewrite Hf. split; [intros [= <-]; done|done].
  - rewrite <-Hf. split; [done|intros [= <-]; done].
Qed.

Lemma agreeing_visible d db r x r' s :
  entry_row C d r x → same_header (stored_header_row d r) (stored_header_row db r') → validate_scope s = Ok tt →
  header_is_visible_to_scope (stored_header_row db r') s = scope_covers s (scope (logged x)).
Proof.
  intros Hx Hs Hv. pose proof (facts_Ok _ _ (er_facts _ _ _ _ Hx)) as (_ & _ & _ & Fw & Fp & Fr).
  pose proof (er_organization _ _ _ _ Hx) as Ho. destruct Hs as [S1 _ _ _ S5 S6 S7 _ _ _ _ _ _].
  cbn in Fw, Fp, Fr, S1, S5, S6, S7. unfold validate_scope in Hv. apply refuse_Ok in Hv. split_bools.
  unfold header_is_visible_to_scope, scope_covers.
  cbn [stored_header_row header_organization_id header_workspace_id header_project_id header_repository_id].
  rewrite <-S1, Ho, <-Fw, <-Fp, <-Fr. unfold entry_organization.
  erewrite (admits_same _ "wsp" (row_workspace_id r)), (admits_same _ "prj" (row_project_id r)),
    (admits_same _ "rep" (row_repository_id r)) by done. done.
Qed.

(** The header of the entry at a place of its organisation's part of the log. *)
Lemma covered_entry d L db o c i x :
  represents C d L → c = checkpoint_of d o → verify_checkpoint C db o (Some c) = Ok c →
  Forall row_typed (audit_events db) →
  collision_free C (hashed (covered_headers d o c) ++ hashed (covered_headers db o c) ++ log_payloads L) →
  log_of L o !! i = Some x →
  ∃ r r', r ∈ audit_events d ∧ entry_row C d r x ∧ covered db o c !! i = Some r' ∧
    same_header (stored_header_row d r) (stored_header_row db r') ∧ intact C (stored_header_row db r') ∧
    header_sequence (stored_header_row db r') = 1 + Z.of_nat i.
Proof.
  intros HR -> Hv Ht Hfree Hx. pose proof (rep_wf _ _ _ HR) as Hd. apply verify_checkpoint_loop in Hv.
  pose proof (covered_chain d L o HR) as Hc. destruct (Forall2_lookup_r _ _ _ _ _ (chain_log C d L o HR) Hx) as (r & Hr & He).
  pose proof (chain_log C d L o HR) as Hlog.
  assert (Hall : Forall2 (λ r s, same_header (stored_header_row d r) (stored_header_row db s)) (chain d o) (covered db o (checkpoint_of d o))).
  { apply (chains_agree C d db _ _ (checkpoint_last_sequence (checkpoint_of d o) + 1, checkpoint_last_digest (checkpoint_of d o))).
    - apply Forall_forall. intros y Hy. apply list_elem_of_lookup in Hy as [j Hj].
      destruct (Forall2_lookup_l _ _ _ _ _ Hlog Hj) as (z & _ & Hz). apply list_elem_of_lookup_2, chain_elem in Hj as [Hj _].
      by eapply (entry_typed C).
    - apply Forall_forall. intros y Hy. unfold covered, select_rows in Hy. apply order_elem, list_elem_of_filter in Hy as [_ Hy].
      exact (proj1 (Forall_forall _ _) Ht y Hy).
    - pose proof (wf_verifies C d Hd o) as H. rewrite previous_is_end in H. exact H.
    - exact Hv.
    - eapply collision_free_weaken; [|exact Hfree]. unfold covered_headers. rewrite Hc. set_solver. }
  destruct (Forall2_lookup_l _ _ _ _ _ Hall Hr) as (r' & Hr' & Hs). exists r, r'.
  apply verify_loop_Ok in Hv as (_ & _ & Hseq & Hint).
  apply list_elem_of_lookup_2, chain_elem in Hr as Hr0. split_and!; try done; [apply Hr0| |].
  - apply (proj1 (Forall_forall _ _) Hint). unfold covered_headers. apply list_elem_of_fmap_2. by eapply list_elem_of_lookup_2.
  - apply (f_equal (.!! i)) in Hseq. unfold covered_headers in Hseq. rewrite !list_lookup_fmap, Hr' in Hseq.
    cbn [fmap option_fmap option_map] in Hseq. symmetry in Hseq. apply lookup_seqZ in Hseq. lia.
Qed.

Lemma log_payload_in L x p : x ∈ L → event_to_vec C (logged x) = Ok p → p ∈ log_payloads L.
Proof. intros Hx Hp. unfold log_payloads. apply list_elem_of_omap. exists x. by rewrite Hp. Qed.
End safety.

(** ** The claims *)

(** C26. Over any run of appends and prunings from a new store, the chain of every organisation
    verifies, with one place for every accepted event of it; the checkpoint is confirmed by the
    store after any further run; and pruning at a representable time succeeds. *)
Theorem audit_chain_verifies (C : AuditCodec) `{!AuditCodecLaws C} (calls more : list AuditCall) (o : string) :
  is_canonical_prefixed_id o "org_" = true →
  let s := audit_run C calls new_store in
  let t := audit_run C more s in
  ∃ c, verify_organization C s.1 o = Ok c ∧
    checkpoint_last_sequence c = Z.of_nat (length (log_of s.2 o)) ∧
    verify_checkpoint C t.1 o (Some c) = Ok c ∧
    ∀ now, now ≤ i64_max → is_ok (prune_expired_payloads C s.1 now).2 = true.
Proof.
  intros Ho s t. pose proof (store_represents C calls) as HR. fold s in HR.
  assert (HT : represents C t.1 t.2) by (by apply run_represents).
  exists (checkpoint_of s.1 o). split_and!.
  - apply verify_wf; [done|apply HR|done].
  - cbn. by rewrite (rep_length C _ _ o HR).
  - apply checkpoint_stays; [done|apply HT|]. by apply run_chain.
  - intros now Hnow. by destruct (prune_run C s.1 now (rep_wf _ _ _ HR) Hnow) as [n ->].
Qed.

(** C10. Over any run, an accepted event keeps its place in the chain of its organisation for
    ever: the same event is answered with it and changes nothing, other facts under its
    identifier are refused, and a read returns it within its scope only, with its payload until
    the retention passed and a pruning withdrew it.  A new event that fits is accepted at the
    next place. *)
Theorem audit_log_kept (C : AuditCodec) `{!AuditCodecLaws C} (calls : list AuditCall) :
  let s := audit_run C calls new_store in
  (∀ i x, s.2 !! i = Some x → ∃ rec,
     record_sequence rec = 1 + Z.of_nat (length (log_of (take i s.2) (entry_organization x))) ∧
     record_event rec = match withdrawn x with None => Some (normal (logged x)) | Some _ => None end ∧
     append C s.1 (logged x) = (s.1, Ok rec) ∧
     (∀ e payload payload', event_id e = entry_id x → validate_event e = Ok tt →
        event_to_vec C e = Ok payload → event_to_vec C (logged x) = Ok payload' →
        sha256_hex C payload ≠ sha256_hex C payload' → append C s.1 e = (s.1, Err request_conflict)) ∧
     (∀ sc as_of, validate_scope sc = Ok tt → (∀ t, withdrawn x = Some t → t ≤ as_of) → as_of ≤ i64_max →
        read_exact C s.1 (into_access sc) (entry_id x) as_of =
        Ok (if scope_covers sc (scope (logged x)) then Some rec else None))) ∧
  (∀ e facts, event_id e ∉ (entry_id <$> s.2) → validate_event e = Ok tt → 0 ≤ occurred_at_millis e →
     event_header_facts e = Ok facts → Z.of_nat (length (log_of s.2 (scope_organization_id (scope e)))) < i64_max →
     ∃ rec, (append C s.1 e).2 = Ok rec ∧ record_event rec = Some e ∧
       record_sequence rec = 1 + Z.of_nat (length (log_of s.2 (scope_organization_id (scope e))))).
Proof.
  intros s. pose proof (store_represents C calls) as HR. fold s in HR. split.
  - intros i x Hx. destruct (append_again C s.1 s.2 i x HR Hx) as (r & Hr & He & Ha). exists (row_record r x). split_and!.
    + cbn. rewrite (rep_places C _ _ HR i r Hr). by rewrite (er_organization _ _ _ _ He).
    + done.
    + done.
    + intros e p p'. by eapply append_conflict.
    + intros sc as_of. by eapply read_entry.
  - intros e facts Hi Hv Ho Hf Hroom. destruct (append_fresh C s.1 s.2 e facts HR Hi Hv Ho Hf Hroom) as (d' & rec & Ha & ?).
    exists rec. by rewrite Ha.
Qed.

(** Over any run, a page of a read lists the events of the organisation that the scope of
    the reader covers, in the order of the chain after the cursor, up to its limit; and what the
    cursor of the page leads to is exactly what the page left out, so that following the cursors
    gives every event once. *)
Theorem audit_pages_read (C : AuditCodec) `{!AuditCodecLaws C} (calls : list AuditCall) (sc : AuditScope)
    (after : Z) (limit : nat) (as_of : Z) :
  let s := audit_run C calls new_store in
  validate_scope sc = Ok tt → (1 ≤ limit ≤ 200)%nat → after ≤ i64_max → as_of ≤ i64_max →
  (∀ x t, x ∈ s.2 → withdrawn x = Some t → t ≤ as_of) →
  ∃ page, read C s.1 (into_access sc) after limit as_of = Ok page ∧
    (λ rec, (record_sequence rec, record_event rec)) <$> page_records page = shown <$> take limit (visible s.2 sc after) ∧
    match page_next_sequence page with
    | None => drop limit (visible s.2 sc after) = []
    | Some n => visible s.2 sc n = drop limit (visible s.2 sc after) ∧ after < n
    end.
Proof.
  intros s Hv Hlim Ha Has Hw. pose proof (store_represents C calls) as HR. fold s in HR.
  destruct (read_page C s.1 s.2 sc after limit as_of HR Hv Hlim Ha Has Hw) as (page & Hp & Hrecs & Hn).
  exists page. split; [done|]. split; [done|]. rewrite Hn.
  destruct (decide (limit < length (visible s.2 sc after))%nat) as [Hmore|Hmore]; [|apply drop_ge; lia].
  destruct (last (take limit (visible s.2 sc after))) as [[n x]|] eqn:El; cbn.
  - split; [apply (visible_next s.2 sc after n limit x); [done|lia]|].
    apply last_Some_elem_of, elem_of_take in El as (i & Hi & _). apply list_elem_of_lookup_2, list_elem_of_filter in Hi as [[? _] _]. done.
  - apply last_None in El. apply (f_equal length) in El. rewrite length_take in El. cbn in El. lia.
Qed.

(** C7. A database that is accepted under the checkpoint of a run, whatever was done to it,
    records exactly the events of the run, in order: each header has the identifier, the time
    and the visibility of its event, and its payload is the event or was withdrawn from an event
    with a deadline; unless the hash has a collision among the messages at hand. *)
Theorem tampering_detected (C : AuditCodec) `{!AuditCodecLaws C} (calls : list AuditCall) (o : string)
    (c : AuditChainCheckpoint) (db : AuditDb) :
  let s := audit_run C calls new_store in
  verify_organization C s.1 o = Ok c → verify_checkpoint C db o (Some c) = Ok c →
  Forall row_typed (audit_events db) →
  collision_free C (hashed (covered_headers s.1 o c) ++ hashed (covered_headers db o c) ++ log_payloads C s.2) →
  length (covered_headers db o c) = length (log_of s.2 o) ∧
  ∀ i x, log_of s.2 o !! i = Some x → ∃ h rec,
    covered_headers db o c !! i = Some h ∧ header_sequence h = 1 + Z.of_nat i ∧
    header_event_id h = entry_id x ∧ header_occurred_at_millis h = occurred_at_millis (logged x) ∧
    (∀ sc, validate_scope sc = Ok tt → header_is_visible_to_scope h sc = scope_covers sc (scope (logged x))) ∧
    record_from_header C h u64_max = Ok rec ∧
    (record_event rec = Some (normal (logged x)) ∨
     record_event rec = None ∧ ∃ u, retention (logged x) = UntilMillis u).
Proof.
  intros s Hc Hv Ht Hfree. pose proof (store_represents C calls) as HR. fold s in HR.
  assert (c = checkpoint_of s.1 o) as Ec.
  { pose proof Hc as Hc'. unfold verify_organization in Hc'. apply bind_Ok in Hc' as ([] & Ho & _).
    unfold validate_organization_id in Ho. apply refuse_Ok, negb_false_iff in Ho.
    rewrite (verify_wf C s.1 o (rep_wf _ _ _ HR) Ho) in Hc. by injection Hc as <-. }
  split.
  - pose proof (verify_checkpoint_loop C _ _ _ _ Hv) as Hl. apply verify_loop_Ok in Hl as (Hn & _).
    rewrite Ec in Hn at 1. cbn in Hn. rewrite <-(rep_length C _ _ o HR). lia.
  - intros i x Hx. destruct (covered_entry C s.1 s.2 db o c i x HR Ec Hv Ht Hfree Hx) as (r & r' & Hr & He & Hr' & Hs & Hi & Hq).
    destruct (agreeing_event C s.1 db r x r' Hr He Hs Hi) as (rec & Hrec & Hev).
    { intros p q Hp Hq'. apply Hfree.
      - rewrite !elem_of_app. right. right. eapply log_payload_in; [|done].
        apply list_elem_of_lookup_2 in Hx. by apply list_elem_of_filter in Hx as [_ ?].
      - rewrite !elem_of_app. right. left. unfold hashed. apply list_elem_of_bind. exists (stored_header_row db r').
        split; [unfold header_hashed; rewrite Hq'; set_solver|]. unfold covered_headers. apply list_elem_of_fmap_2.
        by eapply list_elem_of_lookup_2. }
    pose proof (facts_Ok _ _ (er_facts _ _ _ _ He)) as (Fi & Fo & _).
    exists (stored_header_row db r'), rec. split_and!; [unfold covered_headers; by rewrite list_lookup_fmap, Hr'|done| | | |done|done].
    + rewrite <-(same_event_id _ _ Hs). exact Fi.
    + rewrite <-(same_occurred _ _ Hs). exact Fo.
    + intros sc Hsc. by eapply agreeing_visible.
Qed.

(** ** Witnesses *)

Definition fixture_calls : list AuditCall := [CallAppend first_event; CallAppend second_event; CallPrune 6000].

Definition fixture_store : AuditDb * list LogEntry := audit_run audit_codec fixture_calls new_store.

(** A copy taken before the pruning: it still has the payload of the first event. *)
Definition fixture_copy : AuditDb := (audit_run audit_codec (take 2 fixture_calls) new_store).1.

Definition fixture_checkpoint : AuditChainCheckpoint := checkpoint_of fixture_store.1 fixture_organization.

(** Every message is compared with the ones after it. *)
Fixpoint collision_check (l : list (string * string)) : bool :=
  match l with
  | [] => true
  | (a, x) :: l => forallb (λ '(b, y), negb (bool_decide (x = y)) || bool_decide (a = b)) l && collision_check l
  end.

Lemma collision_check_free C l : collision_check ((λ a, (a, sha256_hex C a)) <$> l) = true → collision_free C l.
Proof.
  unfold collision_free. induction l as [|m l IH]; cbn [collision_check fmap list_fmap].
  { intros _ a b Ha. by apply elem_of_nil in Ha. }
  intros [Hm Hl]%andb_true_iff a b. specialize (IH Hl). rewrite forallb_forall in Hm.
  assert (Hnew : ∀ b, b ∈ l → sha256_hex C m = sha256_hex C b → m = b).
  { intros b' Hb E. assert (Hin : In (b', sha256_hex C b') ((λ a, (a, sha256_hex C a)) <$> l)).
    { apply list_elem_of_In, list_elem_of_fmap. eauto. }
    apply Hm in Hin. rewrite bool_decide_eq_true_2 in Hin by done. cbn in Hin. by apply bool_decide_eq_true in Hin. }
  rewrite !elem_of_cons. intros [->|Ha] [->|Hb] E; [done|by apply Hnew| |by apply IH].
  symmetry. by apply Hnew.
Qed.

Lemma fixture_log : fixture_store.2 = [{| logged := first_event; withdrawn := Some 6000 |}; {| logged := second_event; withdrawn := None |}].
Proof. vm_compute. reflexivity. Qed.

Lemma audit_chain_verifies_witness :
  is_canonical_prefixed_id fixture_organization "org_" = true ∧
  ∃ c, verify_organization audit_codec fixture_store.1 fixture_organization = Ok c ∧ checkpoint_last_sequence c = 2 ∧
    verify_checkpoint audit_codec (audit_run audit_codec [CallAppend fresh_event] fixture_store).1 fixture_organization (Some c) = Ok c.
Proof.
  split; [vm_compute; reflexivity|].
  destruct (audit_chain_verifies audit_codec fixture_calls [CallAppend fresh_event] fixture_organization) as (c & Hv & Hl & Hc & _).
  { vm_compute. reflexivity. }
  exists c. split; [exact Hv|]. split; [|exact Hc]. rewrite Hl. fold fixture_store. rewrite fixture_log. reflexivity.
Defined.

Lemma audit_log_kept_witness :
  append audit_codec fixture_store.1 conflicting_event = (fixture_store.1, Err request_conflict) ∧
  ∃ rec, record_sequence rec = 1 ∧ record_event rec = None ∧
    read_exact audit_codec fixture_store.1 (into_access (OrganizationScope fixture_organization)) (event_id first_event) 7000 =
      Ok (Some rec).
Proof.
  destruct (audit_log_kept audit_codec fixture_calls) as [H _]. fold fixture_store in H. split.
  - destruct (H 1%nat {| logged := second_event; withdrawn := None |}) as (rec & _ & _ & _ & Hc & _).
    { rewrite fixture_log. reflexivity. }
    destruct (event_to_vec audit_codec conflicting_event) as [p|] eqn:Ep; [|vm_compute in Ep; discriminate Ep].
    destruct (event_to_vec audit_codec second_event) as [q|] eqn:Eq; [|vm_compute in Eq; discriminate Eq].
    apply (Hc conflicting_event p q); [reflexivity|vm_compute; reflexivity|exact Ep|exact Eq|].
    vm_compute in Ep, Eq. injection Ep as <-. injection Eq as <-. vm_compute. intros E. discriminate E.
  - destruct (H 0%nat {| logged := first_event; withdrawn := Some 6000 |}) as (rec & Hs & He & _ & _ & Hr).
    { rewrite fixture_log. reflexivity. }
    exists rec. split; [exact Hs|]. split; [exact He|].
    apply (Hr (OrganizationScope fixture_organization) 7000); [vm_compute; reflexivity| |vm_compute; discriminate].
    intros t [= <-]. vm_compute. discriminate.
Defined.

Definition row_typed_check (r : EventRow) : bool :=
  (str_len (row_organization_id r) <=? u64_max) && ((i64_min <=? row_sequence r) && (row_sequence r <=? i64_max)) &&
  (str_len (row_event_id r) <=? u64_max) &&
  ((i64_min <=? row_occurred_at_millis r) && (row_occurred_at_millis r <=? i64_max)) &&
  (str_len (default "" (row_workspace_id r)) <=? u64_max) && (str_len (default "" (row_project_id r)) <=? u64_max) &&
  (str_len (default "" (row_repository_id r)) <=? u64_max) &&
  ((i64_min <=? default 0 (row_retention_until_millis r)) && (default 0 (row_retention_until_millis r) <=? i64_max)) &&
  (str_len (default "" (row_previous_digest r)) <=? u64_max) && (str_len (row_payload_digest r) <=? u64_max).

Lemma row_typed_checked l : forallb row_typed_check l = true → Forall row_typed l.
Proof.
  rewrite forallb_forall. intros H. apply Forall_forall. intros r Hr%list_elem_of_In. apply H in Hr.
  unfold row_typed_check in Hr. split_bools. split; unfold fits_u64, in_i64; lia.
Qed.

Lemma fixture_verified : verify_organization audit_codec fixture_store.1 fixture_organization = Ok fixture_checkpoint.
Proof. vm_compute. reflexivity. Qed.

Lemma copy_verified : verify_checkpoint audit_codec fixture_copy fixture_organization (Some fixture_checkpoint) = Ok fixture_checkpoint.
Proof. vm_compute. reflexivity. Qed.

Lemma copy_typed : Forall row_typed (audit_events fixture_copy).
Proof. apply row_typed_checked. vm_compute. reflexivity. Qed.

Lemma copy_differs : fixture_copy ≠ fixture_store.1.
Proof. intros E. apply (f_equal (λ d, size (audit_payloads d))) in E. vm_compute in E. discriminate E. Qed.

Lemma fixture_free :
  collision_free audit_codec (hashed (covered_headers fixture_store.1 fixture_organization fixture_checkpoint) ++
    hashed (covered_headers fixture_copy fixture_organization fixture_checkpoint) ++ log_payloads audit_codec fixture_store.2).
Proof. apply collision_check_free. vm_compute. reflexivity. Qed.

Lemma tampering_detected_witness :
  fixture_copy ≠ fixture_store.1 ∧
  length (covered_headers fixture_copy fixture_organization fixture_checkpoint) = 2%nat ∧
  ∃ h rec, covered_headers fixture_copy fixture_organization fixture_checkpoint !! 0%nat = Some h ∧
    header_event_id h = event_id first_event ∧ record_from_header audit_codec h u64_max = Ok rec ∧
    (record_event rec = Some first_event ∨ record_event rec = None).
Proof.
  split; [exact copy_differs|].
  destruct (tampering_detected audit_codec fixture_calls fixture_organization fixture_checkpoint fixture_copy) as [Hl H].
  - exact fixture_verified.
  - exact copy_verified.
  - exact copy_typed.
  - exact fixture_free.
  - fold fixture_store in Hl, H. split; [rewrite Hl, fixture_log; reflexivity|].
    destruct (H 0%nat {| logged := first_event; withdrawn := Some 6000 |}) as (h & rec & Hh & _ & Hi & _ & _ & Hr & He).
    { rewrite fixture_log. reflexivity. }
    exists h, rec. split; [exact Hh|]. split; [exact Hi|]. split; [exact Hr|].
    destruct He as [He|[He _]]; [left|right]; exact He.
Defined.

Lemma audit_pages_read_witness :
  ∃ page, read audit_codec fixture_store.1 (into_access (OrganizationScope fixture_organization)) 0 1 7000 = Ok page ∧
    (λ rec, (record_sequence rec, record_event rec)) <$> page_records page = [(1, None)] ∧
    match page_next_sequence page with
    | None => False
    | Some n => visible fixture_store.2 (OrganizationScope fixture_organization) n = [(2, {| logged := second_event; withdrawn := None |})]
    end.
Proof.
  destruct (audit_pages_read audit_codec fixture_calls (OrganizationScope fixture_organization) 0 1 7000) as (page & Hp & Hr & Hn).
  - vm_compute. reflexivity.
  - lia.
  - vm_compute. discriminate.
  - vm_compute. discriminate.
  - fold fixture_store. rewrite fixture_log. intros x t Hx Ht. rewrite !elem_of_cons in Hx.
    destruct Hx as [->|[->|Hx%elem_of_nil]]; [|discriminate Ht|destruct Hx]. injection Ht as <-. vm_compute. discriminate.
  - fold fixture_store in Hp, Hr, Hn. rewrite fixture_log in Hr, Hn |- *. exists page. split; [exact Hp|]. split; [exact Hr|].
    destruct (page_next_sequence page); [exact (proj1 Hn)|vm_compute in Hn; discriminate Hn].
Defined.
