(* ===== verification/Governance.v ===== *)
(** * Data governance

    [crates/winwincode-audit/src/governance.rs]: the rules by which data may be placed, shown
    and deleted.  A policy has one rule for each classification and a list of legal holds; a
    deletion is decided by it, the decision is appended to the audit store, and only then is the
    deletion port called.

    A [BTreeSet] of regions is its ordered list; the [BTreeMap] of the rules is a list with one
    rule for each classification, read in the order of the classifications.  The deletion port
    and the JSON texts of an actor and an origin are parameters. *)

From Stdlib Require Import Ascii String.
From S2P Require Import Prelude Text Numerals Ordered Transaction StateKeys AuditTypes AuditTables.
Local Open Scope Z_scope.

Definition RULES_DOMAIN : string := "winwincode.data-governance-rules.v1".
Definition DECISION_DOMAIN : string := "winwincode.data-governance-decision.v1".
Definition AUDIT_DOMAIN : string := "winwincode.data-governance-audit.v1".

(** ** Errors and checks *)

Inductive GovernanceErrorKind : Type := GovInvalidInput | GovResidencyDenied | GovCorrupt | GovAudit | GovAdapter.

Record GovernanceError : Type := { gov_error_kind : GovernanceErrorKind; gov_error_message : string }.

Definition gov_invalid (message : string) : GovernanceError :=
  {| gov_error_kind := GovInvalidInput; gov_error_message := message |}.

Definition gov_residency : GovernanceError :=
  {| gov_error_kind := GovResidencyDenied;
     gov_error_message := "current data residency violates the governing classification rule" |}.

Definition gov_corrupt (message : string) : GovernanceError :=
  {| gov_error_kind := GovCorrupt; gov_error_message := message |}.

Definition gov_audit (_ : AuditError) : GovernanceError :=
  {| gov_error_kind := GovAudit; gov_error_message := "data governance Audit Ledger operation failed" |}.

Definition gov_adapter : GovernanceError :=
  {| gov_error_kind := GovAdapter; gov_error_message := "governed deletion adapter failed" |}.

Abbreviation governed := (result GovernanceError).

Definition gov_canonical_id (value prefix : string) : bool := is_canonical_prefixed_id value (prefix +:+ "_").

Definition gov_validate_token (value field : string) : governed () :=
  refuse (negb ((1 <=? str_len value) && (str_len value <=? 128) &&
                all_bytes (λ c, is_ascii_alphanumeric c || one_of "._:-" c) value))
    (gov_invalid (field +:+ " is not a stable token")).

Definition gov_validate_digest (digest field : string) : governed () :=
  refuse (negb (sha256_shape digest)) (gov_invalid (field +:+ " is not a canonical SHA-256 digest")).

Definition gov_validate_time (value : Z) (field : string) : governed () :=
  refuse ((value =? 0) || (MAX_SAFE_INTEGER <? value)) (gov_invalid (field +:+ " is outside the exact timestamp range")).

Definition gov_validate_scope (s : AuditScope) : governed () :=
  map_err (λ _, gov_invalid "data governance scope is invalid") (validate_scope s).

(** ** Rules *)

Inductive DataClassification : Type := Public | Internal | Confidential | Restricted | Secret.

#[global] Instance DataClassification_eq_dec : EqDecision DataClassification.
Proof. solve_decision. Defined.

(** [DataClassification::ALL], in the order of the type. *)
Definition all_classifications : list DataClassification := [Public; Internal; Confidential; Restricted; Secret].

Definition classification_token (c : DataClassification) : string :=
  match c with
  | Public => "public" | Internal => "internal" | Confidential => "confidential"
  | Restricted => "restricted" | Secret => "secret"
  end.

(** [classification >= Confidential] *)
Definition at_least_confidential (c : DataClassification) : bool :=
  match c with Public | Internal => false | Confidential | Restricted | Secret => true end.

(** [ResidencyRegion::try_new]. *)
Definition region_try_new (value : string) : governed string :=
  let alphanumeric := λ c : option ascii, match c with Some c => is_ascii_alphanumeric c | None => false end in
  refuse (negb ((2 <=? str_len value) && (str_len value <=? 64) &&
                all_bytes (λ c, is_ascii_lower c || is_ascii_digit c || one_of "-" c) value &&
                alphanumeric (head (bytes value)) && alphanumeric (last (bytes value))))
    (gov_invalid "data residency region is not canonical") ;;
  Ok value.

Inductive RedactionStrategy : Type := Reveal | Mask | Hash | Remove.

#[global] Instance RedactionStrategy_eq_dec : EqDecision RedactionStrategy.
Proof. solve_decision. Defined.

Definition redaction_token (r : RedactionStrategy) : string :=
  match r with Reveal => "reveal" | Mask => "mask" | Hash => "hash" | Remove => "remove" end.

Inductive RetentionRequirement : Type := MinimumDuration (duration : Z) | IndefiniteRequirement.

Record ClassificationRule : Type := {
  rule_classification : DataClassification;
  allowed_regions : list string;
  rule_retention : RetentionRequirement;
  rule_redaction : RedactionStrategy
}.

(** [ClassificationRule::try_new]. *)
Definition rule_try_new (c : DataClassification) (regions : list string) (keep : RetentionRequirement)
    (redaction : RedactionStrategy) : governed ClassificationRule :=
  let regions := dedup (sort_unstable regions) in
  refuse (bool_decide (regions = [])) (gov_invalid "classification rule requires at least one allowed region") ;;
  refuse (match keep with MinimumDuration value => MAX_SAFE_INTEGER <? value | IndefiniteRequirement => false end)
    (gov_invalid "classification retention exceeds the exact timestamp range") ;;
  refuse (at_least_confidential c && bool_decide (redaction = Reveal))
    (gov_invalid "confidential, restricted, and secret content cannot use reveal redaction") ;;
  Ok {| rule_classification := c; allowed_regions := regions; rule_retention := keep; rule_redaction := redaction |}.

(** ** Data and legal holds *)

Record GovernedDataFact : Type := {
  data_scope : AuditScope;
  data_source_digest : string;
  data_classification : DataClassification;
  data_resident_region : string;
  data_created_at_millis : Z
}.

(** [GovernedDataFact::try_new]. *)
Definition data_try_new (f : GovernedDataFact) : governed GovernedDataFact :=
  gov_validate_scope (data_scope f) ;;
  gov_validate_digest (data_source_digest f) "governed data source digest" ;;
  gov_validate_time (data_created_at_millis f) "governed data creation time" ;;
  Ok f.

Definition hold_id_try_new (value : string) : governed string :=
  refuse (negb (gov_canonical_id value "lgh")) (gov_invalid "legal hold identity is not canonical") ;; Ok value.

Record LegalHold : Type := {
  hold_id : string;
  hold_scope : AuditScope;
  hold_source_digest : option string;
  hold_effective_at_millis : Z;
  hold_released_at_millis : option Z
}.

(** [LegalHold::try_new]. *)
Definition hold_try_new (h : LegalHold) : governed LegalHold :=
  gov_validate_scope (hold_scope h) ;;
  match hold_source_digest h with
  | Some digest => gov_validate_digest digest "legal hold source digest"
  | None => Ok tt
  end ;;
  gov_validate_time (hold_effective_at_millis h) "legal hold effective time" ;;
  refuse (match hold_released_at_millis h with
          | Some released => (released <=? hold_effective_at_millis h) || (MAX_SAFE_INTEGER <? released)
          | None => false
          end) (gov_invalid "legal hold release must follow activation within the exact timestamp range") ;;
  Ok h.

Definition scope_contains (container candidate : AuditScope) : bool :=
  bool_decide (scope_organization_id container = scope_organization_id candidate) &&
  scope_admits (scope_workspace_id container) (scope_workspace_id candidate) &&
  scope_admits (scope_project_id container) (scope_project_id candidate) &&
  scope_admits (scope_repository_id container) (scope_repository_id candidate).

Definition applies_to (h : LegalHold) (data : GovernedDataFact) (as_of_millis : Z) : bool :=
  (hold_effective_at_millis h <=? as_of_millis) &&
  match hold_released_at_millis h with Some released => as_of_millis <? released | None => true end &&
  scope_contains (hold_scope h) (data_scope data) &&
  match hold_source_digest h with Some digest => bool_decide (digest = data_source_digest data) | None => true end.

(** ** Decisions *)

Inductive GovernanceDenial : Type :=
| ResidencyDenied
| RetentionActive (delete_not_before_millis : Z)
| IndefiniteRetention
| LegalHoldActive (legal_hold_id : string).

Definition denial_result_code (d : GovernanceDenial) : string :=
  match d with
  | ResidencyDenied => "residency-denied"
  | RetentionActive _ => "retention-active"
  | IndefiniteRetention => "retention-indefinite"
  | LegalHoldActive _ => "legal-hold-active"
  end.

Record RetentionPlan : Type := {
  plan_source_digest : string;
  plan_requirement : RetentionRequirement;
  plan_delete_not_before_millis : option Z;
  plan_active_legal_holds : list string;
  plan_rule_id : string;
  plan_rule_version : Z;
  plan_rule_digest : string
}.

Record RedactionPlan : Type := {
  redaction_scope : AuditScope;
  redaction_source_digest : string;
  redaction_classification : DataClassification;
  redaction_resident_region : string;
  redaction_evaluated_at_millis : Z;
  redaction_strategy : RedactionStrategy;
  redaction_decision_digest : string;
  redaction_rule_id : string;
  redaction_rule_version : Z;
  redaction_rule_digest : string
}.

Record PlacementPermit : Type := {
  placement_source_digest : string;
  placement_destination_region : string;
  placement_decision_digest : string;
  placement_rule_version : Z;
  placement_rule_digest : string
}.

Inductive PlacementDecision : Type :=
| PlacementAllowed (permit : PlacementPermit)
| PlacementDenied (denial : GovernanceDenial) (decision_digest : string).

Record DeletionPermit : Type := {
  permit_scope : AuditScope;
  permit_source_digest : string;
  permit_requested_at_millis : Z;
  permit_decision_digest : string;
  permit_rule_version : Z;
  permit_rule_digest : string
}.

Inductive DeletionDecision : Type :=
| DeletionAllowed (permit : DeletionPermit)
| DeletionDenied (denial : GovernanceDenial) (decision_digest : string) (requested_at_millis : Z).

Definition deletion_decision_digest (d : DeletionDecision) : string :=
  match d with DeletionAllowed permit => permit_decision_digest permit | DeletionDenied _ digest _ => digest end.

Definition requested_time (d : DeletionDecision) : Z :=
  match d with DeletionAllowed permit => permit_requested_at_millis permit | DeletionDenied _ _ at_ => at_ end.

Inductive DeletionPortOutcome : Type := Deleted | AlreadyDeleted.

Inductive GovernedDeletionResult : Type :=
| ResultDenied (denial : GovernanceDenial)
| Applied (permit : DeletionPermit) (outcome : DeletionPortOutcome).

Record GovernanceAuditContext : Type := {
  context_actor : AuditActor;
  context_request_id : string;
  context_origin : AuditOrigin
}.

Record DataGovernanceAuthority : Type := {
  authority_rule_id : string;
  authority_rule_version : Z;
  authority_rule_digest : string;
  authority_rules : list ClassificationRule;
  authority_legal_holds : list LegalHold
}.

(** [BTreeMap::get]. *)
Definition find_rule (rules : list ClassificationRule) (c : DataClassification) : option ClassificationRule :=
  head (filter (λ r, rule_classification r = c) rules).

Definition rule_for (a : DataGovernanceAuthority) (data : GovernedDataFact) : governed ClassificationRule :=
  ok_or (find_rule (authority_rules a) (data_classification data)) (gov_corrupt "classification rule is missing").

Definition validate_current_residency (data : GovernedDataFact) (rule : ClassificationRule) : governed () :=
  refuse (negb (bool_decide (data_resident_region data ∈ allowed_regions rule))) gov_residency.

(** The loop that fills [indexed]. *)
Fixpoint index_rules (rules indexed : list ClassificationRule) : governed (list ClassificationRule) :=
  match rules with
  | [] => Ok indexed
  | r :: rules =>
      refuse (bool_decide (is_Some (find_rule indexed (rule_classification r))))
        (gov_invalid "data governance classifications must be unique") ;;
      index_rules rules (indexed ++ [r])
  end.

Section governance.
Context (C : AuditCodec) (actor_to_vec : AuditActor → option string) (origin_to_vec : AuditOrigin → option string).

(** ** Digests *)

Definition frame_optional (value : option string) : string :=
  match value with Some value => String (byte_of 1) (framed value) | None => String (byte_of 0) "" end.

Definition scope_frames (s : AuditScope) : string :=
  framed (scope_organization_id s) +:+ frame_optional (scope_workspace_id s) +:+
  frame_optional (scope_project_id s) +:+ frame_optional (scope_repository_id s).

Definition rule_frames (r : ClassificationRule) : string :=
  framed (classification_token (rule_classification r)) +:+
  foldr (λ region acc, framed region +:+ acc) "" (allowed_regions r) +:+
  match rule_retention r with
  | MinimumDuration duration => framed "minimum_duration" +:+ to_be_bytes 8 duration
  | IndefiniteRequirement => framed "indefinite"
  end +:+
  framed (redaction_token (rule_redaction r)).

Definition hold_frames (h : LegalHold) : string :=
  framed (hold_id h) +:+ scope_frames (hold_scope h) +:+ frame_optional (hold_source_digest h) +:+
  to_be_bytes 8 (hold_effective_at_millis h) +:+
  match hold_released_at_millis h with
  | Some released => String (byte_of 1) (to_be_bytes 8 released)
  | None => String (byte_of 0) ""
  end.

(** [rules.values()]: the rules in the order of their classifications. *)
Definition rules_in_order (rules : list ClassificationRule) : list ClassificationRule :=
  omap (find_rule rules) all_classifications.

Definition rules_digest (rule_id : string) (rule_version : Z) (rules : list ClassificationRule) (holds : list LegalHold) :
    string :=
  sha256_digest C
    (framed RULES_DOMAIN +:+ framed rule_id +:+ to_be_bytes 8 rule_version +:+
     foldr (λ r acc, rule_frames r +:+ acc) "" (rules_in_order rules) +:+
     foldr (λ h acc, hold_frames h +:+ acc) "" holds).

Definition decision_digest (a : DataGovernanceAuthority) (data : GovernedDataFact) (operation outcome : string) (at_millis : Z) :
    string :=
  sha256_digest C
    (framed DECISION_DOMAIN +:+ framed (authority_rule_id a) +:+ to_be_bytes 8 (authority_rule_version a) +:+
     framed (authority_rule_digest a) +:+ scope_frames (data_scope data) +:+ framed (data_source_digest data) +:+
     framed (classification_token (data_classification data)) +:+ framed (data_resident_region data) +:+
     framed operation +:+ framed outcome +:+ to_be_bytes 8 at_millis).

Definition audit_identity_digest (digest : string) (context : GovernanceAuditContext) : governed string :=
  actor ← ok_or (actor_to_vec (context_actor context)) (gov_invalid "audit actor cannot be encoded");
  origin ← ok_or (origin_to_vec (context_origin context)) (gov_invalid "audit origin cannot be encoded");
  Ok (sha256_digest C (framed AUDIT_DOMAIN +:+ framed digest +:+ framed (context_request_id context) +:+
                       framed actor +:+ framed origin)).

(** ** The authority *)

Definition versioned (rule_id : string) (rule_version : Z) : string := rule_id +:+ ".v" +:+ decimal rule_version.

(** [DataGovernanceAuthority::try_new]. *)
Definition authority_try_new (rule_id : string) (rule_version : Z) (rules : list ClassificationRule) (holds : list LegalHold) :
    governed DataGovernanceAuthority :=
  gov_validate_token rule_id "data governance rule identity" ;;
  refuse ((rule_version =? 0) || (MAX_SAFE_INTEGER <? rule_version))
    (gov_invalid "data governance rule version is out of range") ;;
  refuse (128 <? str_len (versioned rule_id rule_version))
    (gov_invalid "versioned data governance rule identity is too long") ;;
  indexed ← index_rules rules [];
  refuse (existsb (λ c, negb (bool_decide (is_Some (find_rule indexed c)))) all_classifications)
    (gov_invalid "data governance policy must cover every classification") ;;
  refuse (negb (bool_decide (NoDup (hold_id <$> holds)))) (gov_invalid "legal hold identities must be unique") ;;
  let holds := sort_by_key hold_id holds in
  Ok {| authority_rule_id := rule_id; authority_rule_version := rule_version;
        authority_rule_digest := rules_digest rule_id rule_version indexed holds; authority_rules := indexed;
        authority_legal_holds := holds |}.

Definition retention_plan (a : DataGovernanceAuthority) (data : GovernedDataFact) (as_of_millis : Z) : governed RetentionPlan :=
  gov_validate_time as_of_millis "retention evaluation time" ;;
  rule ← rule_for a data;
  validate_current_residency data rule ;;
  not_before ← match rule_retention rule with
               | MinimumDuration duration =>
                   Some <$> ok_or (value ← checked_add_u64 (data_created_at_millis data) duration;
                                   if value <=? MAX_SAFE_INTEGER then Some value else None)
                              (gov_invalid "retention deadline exceeds the exact range")
               | IndefiniteRequirement => Ok None
               end;
  Ok {| plan_source_digest := data_source_digest data; plan_requirement := rule_retention rule;
        plan_delete_not_before_millis := not_before;
        plan_active_legal_holds := hold_id <$> filter (λ h, applies_to h data as_of_millis = true) (authority_legal_holds a);
        plan_rule_id := authority_rule_id a; plan_rule_version := authority_rule_version a;
        plan_rule_digest := authority_rule_digest a |}.

Definition redaction_plan (a : DataGovernanceAuthority) (data : GovernedDataFact) : governed RedactionPlan :=
  rule ← rule_for a data;
  validate_current_residency data rule ;;
  Ok {| redaction_scope := data_scope data; redaction_source_digest := data_source_digest data;
        redaction_classification := data_classification data; redaction_resident_region := data_resident_region data;
        redaction_evaluated_at_millis := data_created_at_millis data; redaction_strategy := rule_redaction rule;
        redaction_decision_digest :=
          decision_digest a data "redaction" (redaction_token (rule_redaction rule)) (data_created_at_millis data);
        redaction_rule_id := authority_rule_id a; redaction_rule_version := authority_rule_version a;
        redaction_rule_digest := authority_rule_digest a |}.

Definition evaluate_placement (a : DataGovernanceAuthority) (data : GovernedDataFact) (destination : string) (as_of_millis : Z) :
    governed PlacementDecision :=
  gov_validate_time as_of_millis "placement evaluation time" ;;
  rule ← rule_for a data;
  validate_current_residency data rule ;;
  let digest := decision_digest a data "placement" destination as_of_millis in
  if bool_decide (destination ∈ allowed_regions rule)
  then Ok (PlacementAllowed {| placement_source_digest := data_source_digest data;
             placement_destination_region := destination; placement_decision_digest := digest;
             placement_rule_version := authority_rule_version a; placement_rule_digest := authority_rule_digest a |})
  else Ok (PlacementDenied ResidencyDenied digest).

(** The denial that a plan calls for. *)
Definition plan_denial (plan : RetentionPlan) (requested_at_millis : Z) : option GovernanceDenial :=
  match plan_active_legal_holds plan with
  | hold :: _ => Some (LegalHoldActive hold)
  | [] =>
      match plan_requirement plan with
      | IndefiniteRequirement => Some IndefiniteRetention
      | MinimumDuration _ =>
          match plan_delete_not_before_millis plan with
          | Some deadline => if requested_at_millis <? deadline then Some (RetentionActive deadline) else None
          | None => None
          end
      end
  end.

Definition evaluate_deletion (a : DataGovernanceAuthority) (data : GovernedDataFact) (requested_at_millis : Z) :
    governed DeletionDecision :=
  plan ← retention_plan a data requested_at_millis;
  let denial := plan_denial plan requested_at_millis in
  let outcome := match denial with Some denial => denial_result_code denial | None => "allowed" end in
  let digest := decision_digest a data "deletion" outcome requested_at_millis in
  match denial with
  | Some denial => Ok (DeletionDenied denial digest requested_at_millis)
  | None =>
      Ok (DeletionAllowed {| permit_scope := data_scope data; permit_source_digest := data_source_digest data;
            permit_requested_at_millis := requested_at_millis; permit_decision_digest := digest;
            permit_rule_version := authority_rule_version a; permit_rule_digest := authority_rule_digest a |})
  end.

(** ** Audited operations *)

(** The event of a decision: [AuditEvent::succeeded] or [AuditEvent::rejected]. *)
Definition governance_event (a : DataGovernanceAuthority) (data : GovernedDataFact) (digest : string) (at_millis : Z)
    (context : GovernanceAuditContext) (result : AuditOutcome) (code : string) : governed AuditEvent :=
  event_digest ← audit_identity_digest digest context;
  event_id ← map_err gov_audit (event_id_from_digest event_digest);
  action ← map_err gov_audit (plain_action Policy (versioned (authority_rule_id a) (authority_rule_version a)));
  state ← map_err gov_audit (unchanged (Some digest));
  map_err gov_audit (unchanged_result
    {| event_id := event_id; occurred_at_millis := at_millis; actor := context_actor context; scope := data_scope data;
       request_id := context_request_id context; action := action; state := state; origin := context_origin context;
       subject := new_subject; outcome := result; result_code := code; retention := Indefinite |} result).

Definition deletion_audit_event (a : DataGovernanceAuthority) (data : GovernedDataFact) (decision : DeletionDecision)
    (context : GovernanceAuditContext) : governed AuditEvent :=
  let event := governance_event a data (deletion_decision_digest decision) (requested_time decision) context in
  match decision with
  | DeletionAllowed _ => event Succeeded "deletion-authorized"
  | DeletionDenied denial _ _ => event Rejected (denial_result_code denial)
  end.

Definition record_redaction (a : DataGovernanceAuthority) (data : GovernedDataFact) (occurred_at_millis : Z)
    (context : GovernanceAuditContext) (d : AuditDb) : AuditDb * governed RedactionPlan :=
  match (gov_validate_time occurred_at_millis "redaction audit time" ;;
         plan ← redaction_plan a data;
         event ← governance_event a data (redaction_decision_digest plan) occurred_at_millis context Succeeded "redaction-planned";
         Ok (plan, event)) with
  | Err e => (d, Err e)
  | Ok (plan, event) =>
      let '(d, answer) := append C d event in
      (d, match answer with Ok _ => Ok plan | Err e => Err (gov_audit e) end)
  end.

Section port.
Context {P : Type} (delete : DeletionPermit → P → P * result () DeletionPortOutcome).

(** [audit_store.append] and [port.delete], each on its part of the state. *)
Definition append_audit (e : AuditEvent) : act (AuditDb * P) GovernanceError () :=
  λ s, let '(d, answer) := append C s.1 e in
       ((d, s.2), match answer with Ok _ => Ok tt | Err e => Err (gov_audit e) end).

Definition call_port (permit : DeletionPermit) : act (AuditDb * P) GovernanceError DeletionPortOutcome :=
  λ s, let '(p, answer) := delete permit s.2 in
       ((s.1, p), match answer with Ok outcome => Ok outcome | Err _ => Err gov_adapter end).

Definition execute_deletion (a : DataGovernanceAuthority) (data : GovernedDataFact) (requested_at_millis : Z)
    (context : GovernanceAuditContext) : act (AuditDb * P) GovernanceError GovernedDeletionResult :=
  decision ← attempt (evaluate_deletion a data requested_at_millis);
  event ← attempt (deletion_audit_event a data decision context);
  append_audit event ;;
  match decision with
  | DeletionDenied denial _ _ => mret (ResultDenied denial)
  | DeletionAllowed permit => outcome ← call_port permit; mret (Applied permit outcome)
  end.
End port.
End governance.
