(* ===== verification/GovernanceSafety.v ===== *)
(** * Data governance: what it promises

    Over every run of governed deletions, redactions and other audit calls: the deletion port
    is called only for data that the policy lets go at that time, and the authorisation of every
    call stands on the audit chain for ever. *)

From Stdlib Require Import Ascii String.
From S2P Require Import Prelude Text Numerals Ordered Transaction StateKeys AuditTypes AuditTables AuditFacts AuditChain AuditRuns AuditFixture Governance.
Local Open Scope Z_scope.

(** ** Decisions *)

(** The policy lets the data be deleted at the time. *)
Record deletable (a : DataGovernanceAuthority) (data : GovernedDataFact) (at_ : Z) : Prop := {
  no_hold h : h ∈ authority_legal_holds a → applies_to h data at_ = false;
  retention_passed : ∃ rule n, find_rule (authority_rules a) (data_classification data) = Some rule ∧
    rule_retention rule = MinimumDuration n ∧ data_created_at_millis data + n ≤ at_ ∧
    data_resident_region data ∈ allowed_regions rule
}.

Section safety.
Context (C : AuditCodec) (actor_to_vec : AuditActor → option string) (origin_to_vec : AuditOrigin → option string).

Lemma deletion_allowed a data at_ permit :
  evaluate_deletion C a data at_ = Ok (DeletionAllowed permit) →
  deletable a data at_ ∧ permit_scope permit = data_scope data ∧ permit_source_digest permit = data_source_digest data ∧
  permit_requested_at_millis permit = at_.
Proof.
  unfold evaluate_deletion. intros H. apply bind_Ok in H as (plan & Hp & H).
  destruct (plan_denial plan at_) eqn:Hd; [done|]. injection H as <-. split; [|done].
  unfold retention_plan in Hp. apply bind_Ok in Hp as ([] & _ & Hp). apply bind_Ok in Hp as (rule & Hr & Hp).
  apply bind_Ok in Hp as ([] & Hres & Hp). apply bind_Ok in Hp as (nb & Hnb & Hp). injection Hp as <-.
  unfold plan_denial in Hd. cbn in Hd. apply ok_or_Ok in Hr. unfold validate_current_residency in Hres.
  apply refuse_Ok in Hres. split_bools.
  destruct (hold_id <$> filter _ (authority_legal_holds a)) as [|i l] eqn:Ef; [|done]. apply fmap_nil_inv in Ef. split.
  - intros h Hh. destruct (applies_to h data at_) eqn:E; [|done].
    assert (Hin : h ∈ filter (λ h, applies_to h data at_ = true) (authority_legal_holds a)) by (by apply list_elem_of_filter).
    rewrite Ef in Hin. by apply elem_of_nil in Hin.
  - destruct (rule_retention rule) as [n|] eqn:Ek; [|done]. exists rule, n. split_and!; try done.
    unfold ok_or in Hnb. destruct (checked_add_u64 _ _) as [v|] eqn:Ec; [|done]. cbn in Hnb.
    destruct (v <=? MAX_SAFE_INTEGER); [|done]. cbn in Hnb. injection Hnb as <-.
    apply checked_add_u64_Some in Ec as [-> _]. destruct (Z.ltb_spec at_ (data_created_at_millis data + n)); [done|lia].
Qed.

(** Conversely, the policy lets go what it can. *)
Lemma deletable_allowed a data at_ :
  deletable a data at_ → 0 < at_ ≤ MAX_SAFE_INTEGER → ∃ permit, evaluate_deletion C a data at_ = Ok (DeletionAllowed permit).
Proof.
  intros [Hh (rule & n & Hr & Hn & Hle & Hreg)] Hat. unfold evaluate_deletion, retention_plan, rule_for, validate_current_residency.
  unfold gov_validate_time. rewrite refuse_run by lia. rewrite Hr. cbn [ok_or mbind result_bind].
  rewrite bool_decide_eq_true_2 by done. cbn [negb refuse mbind result_bind]. rewrite Hn.
  assert (MAX_SAFE_INTEGER ≤ u64_max) by done.
  rewrite (proj2 (checked_add_u64_Some _ n (data_created_at_millis data + n))) by (split; [done|lia]).
  cbn [mbind option_bind]. rewrite (proj2 (Z.leb_le _ _)) by lia. cbn [ok_or fmap result_fmap mbind result_bind].
  rewrite filter_none by (apply Forall_forall; intros h Hin E; by rewrite Hh in E).
  unfold plan_denial. cbn. rewrite (proj2 (Z.ltb_ge _ _)) by lia. eauto.
Qed.

(** The event that authorises a permit. *)
Record authorises (e : AuditEvent) (permit : DeletionPermit) (context : GovernanceAuditContext) : Prop := {
  auth_outcome : outcome e = Succeeded;
  auth_code : result_code e = "deletion-authorized";
  auth_state : state e = Unchanged (Some (permit_decision_digest permit));
  auth_scope : scope e = permit_scope permit;
  auth_time : occurred_at_millis e = permit_requested_at_millis permit;
  auth_actor : actor e = context_actor context;
  auth_request : request_id e = context_request_id context;
  auth_retention : retention e = Indefinite
}.

Lemma governance_event_Ok a data digest at_ context result code e :
  governance_event C actor_to_vec origin_to_vec a data digest at_ context result code = Ok e →
  outcome e = result ∧ result_code e = code ∧ state e = Unchanged (Some digest) ∧ scope e = data_scope data ∧
  occurred_at_millis e = at_ ∧ actor e = context_actor context ∧ request_id e = context_request_id context ∧
  retention e = Indefinite.
Proof.
  unfold governance_event. intros H. apply bind_Ok in H as (ed & _ & H). apply bind_Ok in H as (i & _ & H).
  apply bind_Ok in H as (act & _ & H). apply bind_Ok in H as (s & Hs & H). apply map_err_Ok in Hs, H.
  unfold unchanged in Hs. apply bind_Ok in Hs as ([] & _ & Hs). assert (s = Unchanged (Some digest)) as -> by congruence.
  unfold unchanged_result in H. apply bind_Ok in H as ([] & _ & H). apply bind_Ok in H as ([] & _ & H).
  injection H as <-. done.
Qed.

(** ** Evidence *)

(** An entry with the identifier and the payload digest of an event, never withdrawn. *)
Record evidence (x : LogEntry) (e : AuditEvent) : Prop := {
  evidence_id : entry_id x = event_id e;
  evidence_kept : withdrawn x = None;
  evidence_retention : retention (logged x) = Indefinite;
  evidence_digest : ∃ p q, event_to_vec C (logged x) = Ok p ∧ event_to_vec C e = Ok q ∧ sha256_digest C p = sha256_digest C q
}.

Context `{!AuditCodecLaws C}.

Lemma withdrawn_deadline d r x t :
  audit_wf C d → r ∈ audit_events d → entry_row C d r x → withdrawn x = Some t → retention (logged x) ≠ Indefinite.
Proof.
  intros Hd Hr [_ Hf _ (p & _ & _ & Hw)] Ht. rewrite Ht in Hw. destruct Hw as [Hp Htomb].
  destruct (row_intact C d Hd r Hr) as [a (_ & ev & Hg & _)%record_from_header_Ok].
  destruct Hg as [(q & e & Hq & _)|(q & g & _ & Hg & _ & Ha & _)]; cbn in *; [congruence|].
  unfold tombstone_authorizes in Ha. apply facts_Ok in Hf as (_ & _ & Hk & _). cbn in Hk, Ha.
  destruct Hk as [(_ & _ & Hk)|(_ & Hk & _)]; [done|]. by rewrite Hk in Ha.
Qed.

Lemma append_evidence d L e d' rec :
  represents C d L → append C d e = (d', Ok rec) → retention e = Indefinite →
  ∃ x, x ∈ log_append L e ∧ evidence x e.
Proof.
  intros HR Ha Hret. pose proof (rep_wf _ _ _ HR) as Hd.
  apply (append_Ok C _ _ _ _ Hd) in Ha as (_ & q & Hq & Hc). unfold log_append. rewrite <-(rep_ids C d L HR).
  destruct Hc as [(r & Hr & Hi & -> & Hans)|(Hi & facts & _ & _ & _ & -> & _)].
  - rewrite decide_True by (rewrite <-Hi; by apply list_elem_of_fmap_2).
    apply list_elem_of_lookup in Hr as [i Hr]. destruct (Forall2_lookup_l _ _ _ _ _ (rep_rows _ _ _ HR) Hr) as (x & Hx & He).
    apply list_elem_of_lookup_2 in Hr. exists x. split; [by eapply list_elem_of_lookup_2|].
    unfold answer_again in Hans. apply bind_Ok in Hans as (rec' & _ & Hans). apply bind_Ok in Hans as ([] & Hpd & Hans).
    apply bind_Ok in Hans as (facts & Hf & Hans). apply bind_Ok in Hans as ([] & Hfe & _).
    apply refuse_Ok in Hpd, Hfe. split_bools. cbn in Hpd.
    destruct (er_payload _ _ _ _ He) as (p & Hp & Hrow & _). pose proof (er_facts _ _ _ _ He) as Hfx.
    pose proof (facts_Ok _ _ Hfx) as (Fi & _ & Fk & _). pose proof (facts_Ok _ _ Hf) as (_ & _ & Gk & _).
    assert (Hrx : retention (logged x) = Indefinite).
    { rewrite <-Hfe in Gk. destruct Gk as [(_ & _ & Gk)|(Gk & _)]; [done|].
      destruct Fk as [(Fk & _)|(_ & _ & Fk)]; [congruence|done]. }
    split; [|destruct (withdrawn x) eqn:Ew; [|done]|done|].
    + unfold entry_id. rewrite <-Hi. symmetry. exact Fi.
    + by destruct (withdrawn_deadline d r x z Hd Hr He Ew).
    + exists p, q. split_and!; [done..|]. congruence.
  - rewrite decide_False by done. exists {| logged := e; withdrawn := None |}. split; [apply elem_of_app; right; by left|].
    split; try done. exists q, q. done.
Qed.

(** An entry that is kept for ever stays in the log. *)
Lemma evidence_stays s c x :
  x ∈ s.2 → withdrawn x = None → retention (logged x) = Indefinite → x ∈ (audit_step C s c).2.
Proof.
  intros Hx Hw Hr. destruct c as [e|now]; cbn [audit_step].
  - destruct (append C s.1 e) as [d [rec|err]]; cbn; [|done]. unfold log_append. destruct (decide _); [done|].
    apply elem_of_app. by left.
  - destruct (prune_expired_payloads C s.1 now) as [d [n|err]]; cbn; [|done]. unfold log_prune.
    apply list_elem_of_fmap. exists x. split; [|done]. unfold withdraw. rewrite Hw.
    rewrite decide_False; [done|]. unfold due. rewrite Hr. by intros [].
Qed.

(** ** Runs *)

Inductive GovernanceCall : Type :=
| GovAuditCall (c : AuditCall)
| GovDelete (a : DataGovernanceAuthority) (data : GovernedDataFact) (at_ : Z) (context : GovernanceAuditContext)
    (answer : result () DeletionPortOutcome)
| GovRedact (a : DataGovernanceAuthority) (data : GovernedDataFact) (at_ : Z) (context : GovernanceAuditContext).

(** A port that answers as it likes; its state is the list of the permits it was called with. *)
Definition recording (answer : result () DeletionPortOutcome) (permit : DeletionPermit) (calls : list DeletionPermit) :
    list DeletionPermit * result () DeletionPortOutcome := (calls ++ [permit], answer).

(** The event that a call appends, when it comes to that. *)
Definition call_event (c : GovernanceCall) : option AuditEvent :=
  match c with
  | GovAuditCall _ => None
  | GovDelete a data at_ context _ =>
      match evaluate_deletion C a data at_ with
      | Ok decision =>
          match deletion_audit_event C actor_to_vec origin_to_vec a data decision context with Ok e => Some e | Err _ => None end
      | Err _ => None
      end
  | GovRedact a data at_ context =>
      match gov_validate_time at_ "redaction audit time", redaction_plan C a data with
      | Ok _, Ok plan =>
          match governance_event C actor_to_vec origin_to_vec a data (redaction_decision_digest plan) at_ context Succeeded "redaction-planned" with
          | Ok e => Some e | Err _ => None end
      | _, _ => None
      end
  end.

(** The log after a call: the call appends its event. *)
Definition call_log (s : AuditDb * list LogEntry) (c : GovernanceCall) : list LogEntry :=
  match c with
  | GovAuditCall c => (audit_step C s c).2
  | _ => match call_event c with Some e => (audit_step C s (CallAppend e)).2 | None => s.2 end
  end.

Definition gov_step (s : (AuditDb * list LogEntry) * list DeletionPermit) (c : GovernanceCall) :
    (AuditDb * list LogEntry) * list DeletionPermit :=
  let L := call_log s.1 c in
  match c with
  | GovAuditCall c => (((audit_step C s.1 c).1, L), s.2)
  | GovDelete a data at_ context answer =>
      let '(d, permits) := (execute_deletion C actor_to_vec origin_to_vec (recording answer) a data at_ context (s.1.1, s.2)).1 in
      ((d, L), permits)
  | GovRedact a data at_ context =>
      (((record_redaction C actor_to_vec origin_to_vec a data at_ context s.1.1).1, L), s.2)
  end.

Definition gov_run (calls : list GovernanceCall) : (AuditDb * list LogEntry) * list DeletionPermit :=
  foldl gov_step (new_store, []) calls.

(** ** The invariant *)

(** A call that justifies a permit, with the authorisation in the log. *)
Definition governed_permit (calls : list GovernanceCall) (L : list LogEntry) (permit : DeletionPermit) : Prop :=
  ∃ a data at_ context answer,
    GovDelete a data at_ context answer ∈ calls ∧ deletable a data at_ ∧
    permit_scope permit = data_scope data ∧ permit_source_digest permit = data_source_digest data ∧
    permit_requested_at_millis permit = at_ ∧
    ∃ x e, x ∈ L ∧ evidence x e ∧ authorises e permit context.

(** What a deletion does to the store and the port. *)
Lemma execute_deletion_run a data at_ context answer d permits :
  execute_deletion C actor_to_vec origin_to_vec (recording answer) a data at_ context (d, permits) =
  match evaluate_deletion C a data at_ with
  | Err e => ((d, permits), Err e)
  | Ok decision =>
      match deletion_audit_event C actor_to_vec origin_to_vec a data decision context with
      | Err e => ((d, permits), Err e)
      | Ok event =>
          match append C d event with
          | (d', Err e) => ((d', permits), Err (gov_audit e))
          | (d', Ok _) =>
              match decision with
              | DeletionDenied denial _ _ => ((d', permits), Ok (ResultDenied denial))
              | DeletionAllowed permit =>
                  ((d', permits ++ [permit]), match answer with Ok o => Ok (Applied permit o) | Err _ => Err gov_adapter end)
              end
          end
      end
  end.
Proof.
  unfold execute_deletion. destruct (evaluate_deletion C a data at_) as [decision|err]; [|done].
  rewrite (attempt_bind_run _ decision) by done.
  destruct (deletion_audit_event C actor_to_vec origin_to_vec a data decision context) as [event|err]; [|done].
  rewrite (attempt_bind_run _ event) by done. unfold mbind, act_bind, append_audit. cbn [fst snd].
  destruct (append C d event) as [d' [rec|err]]; [|done]. destruct decision; [|done].
  unfold call_port, recording. cbn. by destruct answer.
Qed.

(** The log goes along with the store. *)
Lemma gov_step_store s c : (∃ c', (gov_step s c).1 = audit_step C s.1 c') ∨ (gov_step s c).1 = s.1.
Proof.
  destruct s as [[d L] permits]. destruct c as [c|a data at_ context answer|a data at_ context]; cbn [gov_step call_log fst snd].
  - left. exists c. by destruct (audit_step C (d, L) c).
  - rewrite execute_deletion_run. cbn [call_event].
    destruct (evaluate_deletion C a data at_) as [decision|err]; [|by right].
    destruct (deletion_audit_event _ _ _ a data decision context) as [event|err]; [|by right].
    left. exists (CallAppend event).
    cbn. destruct (append C d event) as [d' [rec|err]]; [|done]. by destruct decision.
  - unfold record_redaction. cbn [call_event].
    destruct (gov_validate_time at_ "redaction audit time") as [[]|err]; [|by right]. cbn [mbind result_bind].
    destruct (redaction_plan C a data) as [plan|err]; [|by right]. cbn [mbind result_bind].
    destruct (governance_event _ _ _ a data _ at_ context Succeeded "redaction-planned") as [event|err]; [|by right].
    left. exists (CallAppend event). cbn. by destruct (append C d event) as [d' [rec|err]].
Qed.

Lemma gov_step_represents s c : represents C s.1.1 s.1.2 → represents C (gov_step s c).1.1 (gov_step s c).1.2.
Proof.
  intros HR. destruct (gov_step_store s c) as [[c' ->]| ->]; [|done]. by apply step_represents.
Qed.

Lemma gov_step_keeps s c x :
  x ∈ s.1.2 → withdrawn x = None → retention (logged x) = Indefinite → x ∈ (gov_step s c).1.2.
Proof. intros Hx Hw Hr. destruct (gov_step_store s c) as [[c' ->]| ->]; [|done]. by apply evidence_stays. Qed.

(** A call hands at most one permit to the port, and a justified one. *)
Lemma gov_step_permits s c permit :
  represents C s.1.1 s.1.2 → permit ∈ (gov_step s c).2 →
  permit ∈ s.2 ∨ governed_permit [c] (gov_step s c).1.2 permit.
Proof.
  destruct s as [[d L] permits]. cbn [fst snd]. intros HR Hp. destruct c as [c|a data at_ context answer|a data at_ context];
    [by left| |by left]. unfold gov_step, call_log in *. rewrite execute_deletion_run in *. cbn [call_event fst snd] in *.
  destruct (evaluate_deletion C a data at_) as [decision|err] eqn:Ed; [|by left].
  destruct (deletion_audit_event _ _ _ a data decision context) as [event|err] eqn:Ee; [|by left].
  destruct (append C d event) as [d' [rec|err]] eqn:Ea; [|by left].
  destruct decision as [p|]; [|by left]. cbn [fst snd] in *. apply elem_of_app in Hp as [Hp|Hp]; [by left|right].
  apply list_elem_of_singleton in Hp as ->. destruct (deletion_allowed a data at_ p Ed) as (Hd & Hs & Hsd & Hat).
  unfold deletion_audit_event in Ee. apply governance_event_Ok in Ee as (E1 & E2 & E3 & E4 & E5 & E6 & E7 & E8).
  cbn in E3, E5. destruct (append_evidence d L event d' rec HR Ea E8) as (x & Hx & Hev).
  exists a, data, at_, context, answer. split_and!; [by left|done..|]. exists x, event. split_and!.
  - cbn. rewrite Ea. exact Hx.
  - done.
  - split; try done. congruence.
Qed.

Lemma governed_permit_stays calls calls' L L' permit :
  (∀ c, c ∈ calls → c ∈ calls') →
  (∀ x, x ∈ L → withdrawn x = None → retention (logged x) = Indefinite → x ∈ L') →
  governed_permit calls L permit → governed_permit calls' L' permit.
Proof.
  intros Hc HL (a & data & at_ & context & answer & Hin & ? & ? & ? & ? & x & e & Hx & Hev & Hau).
  exists a, data, at_, context, answer. split_and!; [by apply Hc|done..|]. exists x, e. split_and!; [|done..].
  apply HL; [done|apply Hev|apply Hev].
Qed.

Lemma gov_run_invariant calls :
  represents C (gov_run calls).1.1 (gov_run calls).1.2 ∧
  ∀ permit, permit ∈ (gov_run calls).2 → governed_permit calls (gov_run calls).1.2 permit.
Proof.
  unfold gov_run. induction calls as [|c calls [HR Hp]] using rev_ind.
  { split; [apply new_store_represents|]. intros permit H. by apply elem_of_nil in H. }
  rewrite foldl_app. cbn [foldl]. split; [by apply gov_step_represents|]. intros permit H.
  apply gov_step_permits in H as [H|H]; [| |done].
  - eapply governed_permit_stays; [| |by apply Hp].
    + intros c' Hc. apply elem_of_app. by left.
    + intros x. apply gov_step_keeps.
  - eapply governed_permit_stays; [| |exact H]; [|done].
    intros c' ->%list_elem_of_singleton. apply elem_of_app. right. by left.
Qed.
End safety.

(** ** The claim *)

(** C15. Over any run of governed deletions, redactions and other audit calls, whatever the port
    answers, the port is called only with a permit of a deletion that was asked for, at a time at
    which no legal hold applies to the data, its retention has passed and it lies in an allowed
    region; and the chain holds the digest of the event that authorises the permit, under an
    entry that no pruning ever withdraws. *)
Theorem deletions_governed (C : AuditCodec) `{!AuditCodecLaws C} (actor_to_vec : AuditActor → option string)
    (origin_to_vec : AuditOrigin → option string) (calls : list GovernanceCall) (permit : DeletionPermit) :
  let s := gov_run C actor_to_vec origin_to_vec calls in
  permit ∈ s.2 →
  represents C s.1.1 s.1.2 ∧
  ∃ a data at_ context answer,
    GovDelete a data at_ context answer ∈ calls ∧ deletable a data at_ ∧
    permit_scope permit = data_scope data ∧ permit_source_digest permit = data_source_digest data ∧
    permit_requested_at_millis permit = at_ ∧
    ∃ x e, x ∈ s.1.2 ∧ evidence C x e ∧ authorises e permit context.
Proof.
  intros s Hp. destruct (gov_run_invariant C actor_to_vec origin_to_vec calls) as [HR Hg]. split; [done|]. by apply Hg.
Qed.

(** ** Witness *)

Definition fixture_rule (c : DataClassification) : ClassificationRule :=
  {| rule_classification := c; allowed_regions := ["eu-1"]; rule_retention := MinimumDuration 1000; rule_redaction := Hash |}.

(** A hold on another repository's data, and one that was released. *)
Definition fixture_holds : list LegalHold :=
  [{| hold_id := fixture_id "lgh" "B"; hold_scope := OrganizationScope (fixture_id "org" "2"); hold_source_digest := None;
      hold_effective_at_millis := 1000; hold_released_at_millis := None |};
   {| hold_id := fixture_id "lgh" "A"; hold_scope := OrganizationScope fixture_organization; hold_source_digest := None;
      hold_effective_at_millis := 1000; hold_released_at_millis := Some 4000 |}].

Definition fixture_authority : governed DataGovernanceAuthority :=
  authority_try_new audit_codec "policy" 3 (fixture_rule <$> all_classifications) fixture_holds.

Definition fixture_data : GovernedDataFact :=
  {| data_scope := WorkspaceScope fixture_organization (fixture_id "wsp" "1");
     data_source_digest := sha256_digest audit_codec "data"; data_classification := Restricted;
     data_resident_region := "eu-1"; data_created_at_millis := 2000 |}.

Definition fixture_context : GovernanceAuditContext :=
  {| context_actor := User (fixture_id "usr" "1"); context_request_id := fixture_id "req" "1"; context_origin := Local "server" |}.

(** The deletion is asked for too early, then in time; then payloads are pruned. *)
Definition fixture_deletions : list GovernanceCall :=
  match fixture_authority with
  | Ok a => [GovDelete a fixture_data 2500 fixture_context (Ok Deleted); GovDelete a fixture_data 5000 fixture_context (Ok Deleted);
             GovAuditCall (CallPrune 9000)]
  | Err _ => []
  end.

Definition fixture_governed := gov_run audit_codec (λ _, Some "actor") (λ _, Some "origin") fixture_deletions.

Lemma fixture_permitted : permit_requested_at_millis <$> fixture_governed.2 = [5000] ∧ length fixture_governed.1.2 = 2%nat.
Proof. vm_compute. split; reflexivity. Qed.

Lemma deletions_governed_witness :
  ∃ permit a data context answer, permit ∈ fixture_governed.2 ∧ GovDelete a data 5000 context answer ∈ fixture_deletions ∧
    deletable a data 5000 ∧ ∃ x e, x ∈ fixture_governed.1.2 ∧ evidence audit_codec x e ∧ authorises e permit context.
Proof.
  destruct fixture_permitted as [Hp _]. destruct fixture_governed.2 as [|permit l] eqn:E; [discriminate Hp|].
  assert (Hin : permit ∈ fixture_governed.2) by (rewrite E; left).
  destruct (deletions_governed audit_codec (λ _, Some "actor") (λ _, Some "origin") fixture_deletions permit Hin)
    as (_ & a & data & at_ & context & answer & Hc & Hd & _ & _ & Hat & Hx).
  assert (at_ = 5000) as -> by (rewrite <-Hat; by injection Hp).
  exists permit, a, data, context, answer. split; [left|]. split; [exact Hc|]. split; [exact Hd|exact Hx].
Defined.
