(* ===== verification/AuditExport.v ===== *)
(** * Audit export

    [crates/winwincode-audit/src/export.rs]: an organisation's chain of audit events, exported
    page by page over a fixed checkpoint.  A page has a record for every header, so that the
    chain can be recomputed; the records that the query asks for have the event, or a proof that
    it was deleted, and the others only their header.  [verify_page] checks a page without the
    store, after the state that the page before it left.

    The functions that [export.rs] shares with [store.rs] and [governance.rs] word for word
    ([framed], [sha256_digest], [frame_optional], [scope_contains], [canonical_id],
    [classification_token], [redaction_token]) are the ones of [AuditTables] and [Governance].
    JSON is the parameter [ExportCodec].  A [usize] has 64 bits. *)

From Stdlib Require Import Ascii String.
From S2P Require Import Prelude Text Numerals Ordered Transaction StateKeys AuditTypes AuditTables Governance.
Local Open Scope Z_scope.

Definition MAX_SCAN_RECORDS : Z := 200.
Definition MAX_RECORD_BYTES : Z := 1048576.
Definition QUERY_DOMAIN : string := "winwincode.audit-export-query.v1".
Definition GOVERNANCE_DECISION_DOMAIN : string := "winwincode.data-governance-decision.v1".

(** ** Errors *)

Inductive AuditExportErrorKind : Type := ExportInvalidInput | ExportSnapshotConflict | ExportCorrupt | ExportStore.

Record AuditExportError : Type := { export_error_kind : AuditExportErrorKind; export_error_message : string }.

Definition export_invalid (message : string) : AuditExportError :=
  {| export_error_kind := ExportInvalidInput; export_error_message := message |}.

Definition export_snapshot (message : string) : AuditExportError :=
  {| export_error_kind := ExportSnapshotConflict; export_error_message := message |}.

Definition export_corrupt (message : string) : AuditExportError :=
  {| export_error_kind := ExportCorrupt; export_error_message := message |}.

Definition export_store (e : AuditError) : AuditExportError :=
  {| export_error_kind :=
       match error_kind e with
       | InvalidInput => ExportInvalidInput
       | RequestConflict => ExportSnapshotConflict
       | Corrupt => ExportCorrupt
       | Adapter | Closed => ExportStore
       end;
     export_error_message := "canonical Audit Ledger export failed" |}.

Definition export_encoding : AuditExportError :=
  {| export_error_kind := ExportCorrupt; export_error_message := "audit export canonical encoding failed" |}.

Abbreviation exported := (result AuditExportError).

Definition export_validate_digest (digest : string) : exported () :=
  refuse (negb (sha256_shape digest)) (export_corrupt "audit export contains a malformed digest").

Definition export_validate_token (value : string) : exported () :=
  refuse (negb ((1 <=? str_len value) && (str_len value <=? 128) &&
                all_bytes (λ c, is_ascii_alphanumeric c || one_of "._:-" c) value))
    (export_corrupt "audit export policy identity is invalid").

(** ** The query *)

Record AuditExportTimeRange : Type := { from_millis : Z; through_millis : Z }.

Definition time_range_try_new (from through : Z) : exported AuditExportTimeRange :=
  refuse ((from =? 0) || (through <? from) || (MAX_SAFE_INTEGER <? through))
    (export_invalid "audit export time range is invalid") ;;
  Ok {| from_millis := from; through_millis := through |}.

Definition time_range_contains (r : AuditExportTimeRange) (value : Z) : bool :=
  (from_millis r <=? value) && (value <=? through_millis r).

Record AuditExportLimits : Type := { scan_records : Z; max_record_bytes : Z }.

Definition limits_try_new (scan bytes : Z) : exported AuditExportLimits :=
  refuse (negb ((1 <=? scan) && (scan <=? MAX_SCAN_RECORDS)) || negb ((1 <=? bytes) && (bytes <=? MAX_RECORD_BYTES)))
    (export_invalid "audit export page bounds are outside the canonical limits") ;;
  Ok {| scan_records := scan; max_record_bytes := bytes |}.

Inductive SubjectIdentity : Type :=
| DeliveryIdentity (id : string)
| ProductSessionIdentity (id : string)
| LeaseIdentity (id : string)
| PublicationIdentity (id : string)
| ExecutionJobIdentity (id : string)
| WorkRunIdentity (id : string)
| WorkerIdentity (id : string).

(** [AuditSubjectFilter] wraps an identity. *)
Abbreviation AuditSubjectFilter := SubjectIdentity.

Definition subject_identity_value (i : SubjectIdentity) : string :=
  match i with
  | DeliveryIdentity id | ProductSessionIdentity id | LeaseIdentity id | PublicationIdentity id
  | ExecutionJobIdentity id | WorkRunIdentity id | WorkerIdentity id => id
  end.

(** [AuditSubjectFilter::typed], behind its constructors. *)
Definition filter_typed (prefix : string) (i : SubjectIdentity) : exported AuditSubjectFilter :=
  refuse (negb (gov_canonical_id (subject_identity_value i) prefix))
    (export_invalid "audit export subject identity is not canonical") ;;
  Ok i.

Definition filter_prefix (i : SubjectIdentity) : string :=
  match i with
  | DeliveryIdentity _ => "dlv"
  | ProductSessionIdentity _ => "psn"
  | LeaseIdentity _ => "lse"
  | PublicationIdentity _ => "pub"
  | ExecutionJobIdentity _ => "job"
  | WorkRunIdentity _ => "run"
  | WorkerIdentity _ => "wrk"
  end.

(** [AuditSubjectFilter::validate]. *)
Definition filter_validate (f : AuditSubjectFilter) : exported () := filter_typed (filter_prefix f) f ;; Ok tt.

(** [Option::or_else]. *)
Definition or_else {A} (a b : option A) : option A := match a with Some _ => a | None => b end.

(** [AuditSubjectFilter::matches]. *)
Definition filter_matches (f : AuditSubjectFilter) (e : AuditEvent) : bool :=
  let s := subject e in
  let execution := λ field : AuditExecutionIdentity → string, field <$> subject_execution s in
  match f with
  | DeliveryIdentity id => bool_decide (or_else (subject_delivery_id s) (execution identity_delivery_id) = Some id)
  | ProductSessionIdentity id =>
      bool_decide (or_else (subject_product_session_id s) (execution identity_product_session_id) = Some id)
  | LeaseIdentity id => bool_decide (or_else (subject_lease_id s) (execution identity_lease_id) = Some id)
  | PublicationIdentity id => bool_decide (subject_publication_id s = Some id)
  | ExecutionJobIdentity id => bool_decide (execution identity_execution_job_id = Some id)
  | WorkRunIdentity id => bool_decide (execution identity_work_run_id = Some id)
  | WorkerIdentity id => bool_decide (execution identity_worker_id = Some id)
  end.

Record AuditExportPolicyProof : Type := {
  proof_audit_event_id : string;
  proof_scope : AuditScope;
  proof_source_digest : string;
  proof_classification : DataClassification;
  proof_resident_region : string;
  proof_evaluated_at_millis : Z;
  proof_decision_digest : string;
  proof_strategy : RedactionStrategy;
  proof_rule_id : string;
  proof_rule_version : Z;
  proof_rule_digest : string
}.

(** [AuditExportPolicyProof::from_plan]. *)
Definition proof_from_plan (plan : RedactionPlan) (audit_event_id : string) : AuditExportPolicyProof :=
  {| proof_audit_event_id := audit_event_id; proof_scope := redaction_scope plan;
     proof_source_digest := redaction_source_digest plan; proof_classification := redaction_classification plan;
     proof_resident_region := redaction_resident_region plan;
     proof_evaluated_at_millis := redaction_evaluated_at_millis plan;
     proof_decision_digest := redaction_decision_digest plan; proof_strategy := redaction_strategy plan;
     proof_rule_id := redaction_rule_id plan; proof_rule_version := redaction_rule_version plan;
     proof_rule_digest := redaction_rule_digest plan |}.

Record AuditExportManifest : Type := {
  manifest_scope : AuditScope;
  manifest_time_range : AuditExportTimeRange;
  manifest_subject : option AuditSubjectFilter;
  manifest_as_of_millis : Z;
  manifest_limits : AuditExportLimits;
  manifest_policy : AuditExportPolicyProof
}.

Record AuditExportQuery : Type := {
  query_access : AuditAccess;
  query_manifest : AuditExportManifest;
  query_digest : string
}.

(** ** Pages *)

Record AuditExportCursor : Type := {
  cursor_query_digest : string;
  cursor_checkpoint : AuditChainCheckpoint;
  cursor_after_sequence : Z;
  cursor_previous_digest : option string
}.

#[global] Instance AuditChainCheckpoint_eq_dec : EqDecision AuditChainCheckpoint.
Proof. solve_decision. Defined.

#[global] Instance AuditExportCursor_eq_dec : EqDecision AuditExportCursor.
Proof. solve_decision. Defined.

Record AuditExportHeader : Type := {
  export_sequence : Z;
  export_previous_digest : option string;
  export_event_digest : string;
  export_payload_digest : string;
  export_event_id : string;
  export_occurred_at_millis : Z;
  export_scope : AuditScope;
  export_retention : AuditRetention
}.

Inductive AuditArtifactDigestKind : Type := StateBefore | StateAfter | StateCurrent | ModelInput | ModelOutput.

#[global] Instance AuditArtifactDigestKind_eq_dec : EqDecision AuditArtifactDigestKind.
Proof. solve_decision. Defined.

Record AuditArtifactDigestReference : Type := { reference_kind : AuditArtifactDigestKind; reference_digest : string }.

#[global] Instance AuditArtifactDigestReference_eq_dec : EqDecision AuditArtifactDigestReference.
Proof. solve_decision. Defined.

Record AuditDeletionProof : Type := { deletion_pruned_at_millis : Z; deletion_tombstone_event_digest : string }.

(** The content of a record; the event has its subject or the JSON form of it. *)
Inductive AuditExportContentOf (Subject : Type) : Type :=
| ExportWitness
| ExportEvent (event : AuditEventOf Subject)
| ExportDeletion (proof : AuditDeletionProof).
Arguments ExportWitness {_}.
Arguments ExportEvent {_} _.
Arguments ExportDeletion {_} _.

Record AuditExportRecordOf (Subject : Type) : Type := {
  export_header : AuditExportHeader;
  export_content : AuditExportContentOf Subject;
  export_included : bool;
  export_references : list AuditArtifactDigestReference
}.
Arguments export_header {_}.
Arguments export_content {_}.
Arguments export_included {_}.
Arguments export_references {_}.

Record AuditExportPageOf (Subject : Type) : Type := {
  export_manifest : AuditExportManifest;
  export_query_digest : string;
  export_checkpoint : AuditChainCheckpoint;
  start_after_sequence : Z;
  start_previous_digest : option string;
  export_records : list (AuditExportRecordOf Subject);
  export_record_bytes : Z;
  export_next_cursor : option AuditExportCursor
}.
Arguments export_manifest {_}.
Arguments export_query_digest {_}.
Arguments export_checkpoint {_}.
Arguments start_after_sequence {_}.
Arguments start_previous_digest {_}.
Arguments export_records {_}.
Arguments export_record_bytes {_}.
Arguments export_next_cursor {_}.

Abbreviation AuditExportContent := (AuditExportContentOf AuditSubject).
Abbreviation AuditExportRecord := (AuditExportRecordOf AuditSubject).
Abbreviation AuditExportPage := (AuditExportPageOf AuditSubject).

Record AuditExportVerificationState : Type := {
  verified_query_digest : string;
  verified_checkpoint : AuditChainCheckpoint;
  verified_after_sequence : Z;
  verified_last_digest : option string;
  policy_event_verified : bool;
  verified_complete : bool
}.

(** [serde_json] on the types of an export. *)
Record ExportCodec : Type := {
  manifest_to_vec : AuditExportManifest → option string;
  record_to_vec : AuditExportRecordOf AuditSubjectWire → option string;
  page_from_slice : string → option (AuditExportPageOf AuditSubjectWire)
}.

(** The JSON of a manifest determines it. *)
Class ExportCodecLaws (X : ExportCodec) : Prop := {
  manifest_to_vec_inj m n b : manifest_to_vec X m = Some b → manifest_to_vec X n = Some b → m = n
}.

(** ** Filters *)

Definition header_matches (m : AuditExportManifest) (h : AuditExportHeader) : bool :=
  scope_contains (manifest_scope m) (export_scope h) &&
  time_range_contains (manifest_time_range m) (export_occurred_at_millis h).

Definition event_matches (m : AuditExportManifest) (e : AuditEvent) : bool :=
  match manifest_subject m with Some f => filter_matches f e | None => true end.

Definition artifact_references (e : AuditEvent) : list AuditArtifactDigestReference :=
  match state e with
  | Changed before after =>
      match before with Some before => [{| reference_kind := StateBefore; reference_digest := before |}] | None => [] end ++
      [{| reference_kind := StateAfter; reference_digest := after |}]
  | Unchanged current =>
      match current with Some current => [{| reference_kind := StateCurrent; reference_digest := current |}] | None => [] end
  end ++
  match action_invocation (action e) with
  | Some summary =>
      [{| reference_kind := ModelInput; reference_digest := input_digest summary |};
       {| reference_kind := ModelOutput; reference_digest := output_digest summary |}]
  | None => []
  end.

(** ** Headers *)

Definition stored_scope (h : StoredHeader) : exported AuditScope :=
  let organization := header_organization_id h in
  map_err export_store
    match header_workspace_id h, header_project_id h, header_repository_id h with
    | None, None, None => organization_scope organization
    | Some workspace, None, None => workspace_scope organization workspace
    | Some workspace, Some project, None => project_scope organization workspace project
    | Some workspace, Some project, Some repository => repository_scope organization workspace project repository
    | _, _, _ => Err (invalid "audit export scope hierarchy is invalid")
    end.

(** [u64::try_from] of an [i64]. *)
Definition to_u64 (e : AuditExportError) (z : Z) : exported Z := refuse (z <? 0) e ;; Ok z.

Definition stored_retention (h : StoredHeader) : exported AuditRetention :=
  match header_retention_until_millis h with
  | None =>
      refuse (bool_decide (header_retention_kind h ≠ "indefinite"))
        (export_corrupt "audit export retention header is invalid") ;;
      Ok Indefinite
  | Some value =>
      refuse (bool_decide (header_retention_kind h ≠ "until"))
        (export_corrupt "audit export retention header is invalid") ;;
      value ← to_u64 (export_corrupt "audit retention time is negative") value;
      Ok (UntilMillis value)
  end.

Definition header_from_stored (h : StoredHeader) : exported AuditExportHeader :=
  occurred ← to_u64 (export_corrupt "audit export timestamp is negative") (header_occurred_at_millis h);
  scope ← stored_scope h;
  retention ← stored_retention h;
  id ← map_err export_store (event_id_try_new (header_event_id h));
  Ok {| export_sequence := header_sequence h; export_previous_digest := header_previous_digest h;
        export_event_digest := header_event_digest h; export_payload_digest := header_payload_digest h;
        export_event_id := id; export_occurred_at_millis := occurred; export_scope := scope;
        export_retention := retention |}.

Definition verify_event_header (h : AuditExportHeader) (e : AuditEvent) : exported () :=
  refuse (bool_decide (event_id e ≠ export_event_id h) ||
          bool_decide (occurred_at_millis e ≠ export_occurred_at_millis h) ||
          bool_decide (scope e ≠ export_scope h) || bool_decide (retention e ≠ export_retention h))
    (export_corrupt "audit export event does not match its immutable header").

Definition validate_policy_event (p : AuditExportPolicyProof) (e : AuditEvent) : exported () :=
  let expected_action := proof_rule_id p +:+ ".v" +:+ decimal (proof_rule_version p) in
  let decision_matches := match state e with
                          | Unchanged (Some digest) => bool_decide (digest = proof_decision_digest p)
                          | _ => false
                          end in
  refuse (bool_decide (event_id e ≠ proof_audit_event_id p) || bool_decide (scope e ≠ proof_scope p) ||
          bool_decide (action_kind (action e) ≠ Policy) || bool_decide (action_name (action e) ≠ expected_action) ||
          bool_decide (outcome e ≠ Succeeded) || bool_decide (result_code e ≠ "redaction-planned") ||
          bool_decide (retention e ≠ Indefinite) || negb decision_matches)
    (export_corrupt "audit export governance decision event is invalid").

(** [valid_region]. *)
Definition valid_region (value : string) : bool :=
  let alphanumeric := λ c : option ascii, match c with Some c => is_ascii_alphanumeric c | None => false end in
  (2 <=? str_len value) && (str_len value <=? 64) &&
  all_bytes (λ c, is_ascii_lower c || is_ascii_digit c || one_of "-" c) value &&
  alphanumeric (head (bytes value)) && alphanumeric (last (bytes value)).

Section export.
Context (C : AuditCodec) (X : ExportCodec).

(** ** Digests *)

Definition manifest_message (encoded : string) : string := framed QUERY_DOMAIN +:+ framed encoded.

Definition manifest_digest (m : AuditExportManifest) : exported string :=
  encoded ← ok_or (manifest_to_vec X m) export_encoding;
  Ok (sha256_digest C (manifest_message encoded)).

Definition governance_decision_digest (p : AuditExportPolicyProof) : string :=
  sha256_digest C
    (framed GOVERNANCE_DECISION_DOMAIN +:+ framed (proof_rule_id p) +:+ to_be_bytes 8 (proof_rule_version p) +:+
     framed (proof_rule_digest p) +:+ framed (scope_organization_id (proof_scope p)) +:+
     frame_optional (scope_workspace_id (proof_scope p)) +:+ frame_optional (scope_project_id (proof_scope p)) +:+
     frame_optional (scope_repository_id (proof_scope p)) +:+ framed (proof_source_digest p) +:+
     framed (classification_token (proof_classification p)) +:+ framed (proof_resident_region p) +:+
     framed "redaction" +:+ framed (redaction_token (proof_strategy p)) +:+ to_be_bytes 8 (proof_evaluated_at_millis p)).

(** [i64::try_from] of a [u64]. *)
Definition export_i64 (message : string) (z : Z) : exported Z := refuse (i64_max <? z) (export_corrupt message) ;; Ok z.

(** What [export_chain_digest] hashes. *)
Definition export_chain_message (h : AuditExportHeader) (occurred : Z) (retention_bytes : string) : string :=
  framed CHAIN_DOMAIN +:+
  framed (scope_organization_id (export_scope h)) +:+
  to_be_bytes 8 (export_sequence h) +:+
  framed (default "" (export_previous_digest h)) +:+
  framed (export_event_id h) +:+
  i64_be_bytes occurred +:+
  framed (default "" (scope_workspace_id (export_scope h))) +:+
  framed (default "" (scope_project_id (export_scope h))) +:+
  framed (default "" (scope_repository_id (export_scope h))) +:+
  retention_bytes +:+
  framed (export_payload_digest h).

Definition export_chain_digest (h : AuditExportHeader) : exported string :=
  occurred ← export_i64 "audit export time exceeds SQLite range" (export_occurred_at_millis h);
  retention_bytes ← match export_retention h with
                    | Indefinite => Ok (framed "indefinite" +:+ i64_be_bytes 0)%string
                    | UntilMillis value =>
                        value ← export_i64 "audit export retention exceeds SQLite range" value;
                        Ok (framed "until" +:+ i64_be_bytes value)%string
                    end;
  Ok (sha256_digest C (export_chain_message h occurred retention_bytes)).

(** ** The manifest and the query *)

(** [AuditExportManifest::validate]. *)
Definition manifest_validate (m : AuditExportManifest) : exported () :=
  map_err (λ _, export_invalid "audit export scope is invalid") (validate_scope (manifest_scope m)) ;;
  time_range_try_new (from_millis (manifest_time_range m)) (through_millis (manifest_time_range m)) ;;
  limits_try_new (scan_records (manifest_limits m)) (max_record_bytes (manifest_limits m)) ;;
  match manifest_subject m with Some f => filter_validate f | None => Ok tt end ;;
  refuse ((manifest_as_of_millis m =? 0) || (MAX_SAFE_INTEGER <? manifest_as_of_millis m))
    (export_invalid "audit export observation time is invalid") ;;
  refuse (manifest_as_of_millis m <? through_millis (manifest_time_range m))
    (export_invalid "audit export time range extends beyond its observation time") ;;
  let p := manifest_policy m in
  export_validate_digest (proof_source_digest p) ;;
  export_validate_digest (proof_decision_digest p) ;;
  export_validate_digest (proof_rule_digest p) ;;
  export_validate_token (proof_rule_id p) ;;
  refuse (negb (gov_canonical_id (proof_audit_event_id p) "aud") || bool_decide (proof_scope p ≠ manifest_scope m) ||
          (proof_evaluated_at_millis p =? 0) || (MAX_SAFE_INTEGER <? proof_evaluated_at_millis p) ||
          negb (valid_region (proof_resident_region p)) ||
          bool_decide (governance_decision_digest p ≠ proof_decision_digest p))
    (export_corrupt "audit export governance proof does not match its redaction decision") ;;
  refuse ((proof_rule_version p =? 0) || (MAX_SAFE_INTEGER <? proof_rule_version p))
    (export_invalid "audit export policy version is invalid").

(** [AuditExportQuery::try_new]. *)
Definition query_try_new (access : AuditAccess) (range : AuditExportTimeRange) (as_of_millis : Z)
    (limits : AuditExportLimits) (policy : RedactionPlan) (policy_audit_event_id : string) : exported AuditExportQuery :=
  let m := {| manifest_scope := access_scope access; manifest_time_range := range; manifest_subject := None;
              manifest_as_of_millis := as_of_millis; manifest_limits := limits;
              manifest_policy := proof_from_plan policy policy_audit_event_id |} in
  manifest_validate m ;;
  digest ← manifest_digest m;
  Ok {| query_access := access; query_manifest := m; query_digest := digest |}.

(** [AuditExportQuery::with_subject]. *)
Definition query_with_subject (q : AuditExportQuery) (subject : AuditSubjectFilter) : exported AuditExportQuery :=
  let m := query_manifest q in
  let m := {| manifest_scope := manifest_scope m; manifest_time_range := manifest_time_range m;
              manifest_subject := Some subject; manifest_as_of_millis := manifest_as_of_millis m;
              manifest_limits := manifest_limits m; manifest_policy := manifest_policy m |} in
  digest ← manifest_digest m;
  Ok {| query_access := query_access q; query_manifest := m; query_digest := digest |}.

Definition validate_cursor (q : AuditExportQuery) (c : AuditExportCursor) : exported () :=
  export_validate_digest (cursor_query_digest c) ;;
  let last := checkpoint_last_sequence (cursor_checkpoint c) in
  refuse (bool_decide (cursor_query_digest c ≠ query_digest q) ||
          bool_decide (checkpoint_organization_id (cursor_checkpoint c) ≠ scope_organization_id (manifest_scope (query_manifest q))) ||
          (last <? cursor_after_sequence c) ||
          negb (eqb (cursor_after_sequence c =? 0) (bool_decide (cursor_previous_digest c = None))) ||
          (cursor_after_sequence c =? last))
    (export_snapshot "audit export cursor does not match the requested fixed snapshot") ;;
  match cursor_previous_digest c with Some digest => export_validate_digest digest | None => Ok tt end.

(** ** Records *)

(** The content of a record, whether the query asks for it, and its references. *)
Definition export_content_of (m : AuditExportManifest) (stored : StoredHeader) (h : AuditExportHeader) :
    exported (AuditExportContent * bool * list AuditArtifactDigestReference) :=
  let matches := header_matches m h in
  let is_policy_event := bool_decide (export_event_id h = proof_audit_event_id (manifest_policy m)) in
  match header_payload stored with
  | Some payload =>
      if matches || is_policy_event then
        refuse (bool_decide (sha256_digest C payload ≠ export_payload_digest h))
          (export_corrupt "audit export payload digest changed") ;;
        e ← ok_or (event_from_slice C payload) (export_corrupt "audit export payload is invalid");
        verify_event_header h e ;;
        Ok (ExportEvent e, matches && event_matches m e, artifact_references e)
      else Ok (ExportWitness, false, [])
  | None =>
      if is_policy_event then Err (export_snapshot "audit export governance decision payload was deleted")
      else if matches && bool_decide (is_Some (manifest_subject m))
      then Err (export_snapshot "a pruned audit payload cannot prove the requested subject filter")
      else if matches then
        pruned_at ← ok_or (v ← header_payload_pruned_at_millis stored; if v <? 0 then None else Some v)
                      (export_corrupt "audit deletion proof timestamp is invalid");
        digest ← ok_or (header_tombstone_event_digest stored) (export_corrupt "audit deletion proof digest is missing");
        refuse (manifest_as_of_millis m <? pruned_at)
          (export_snapshot "audit deletion proof is newer than the fixed observation time") ;;
        Ok (ExportDeletion {| deletion_pruned_at_millis := pruned_at; deletion_tombstone_event_digest := digest |}, true, [])
      else Ok (ExportWitness, false, [])
  end.

Definition export_record (m : AuditExportManifest) (stored : StoredHeader) : exported AuditExportRecord :=
  h ← header_from_stored stored;
  found ← export_content_of m stored h;
  let '(content, included, references) := found in
  Ok {| export_header := h; export_content := content; export_included := included; export_references := references |}.

(** [serde_json::to_vec] of a record: the subject of its event is written in its JSON form. *)
Definition encode_record (r : AuditExportRecord) : exported string :=
  content ← match export_content r with
            | ExportWitness => Ok ExportWitness
            | ExportEvent e =>
                w ← map_err (λ _, export_encoding) (subject_to_wire (subject e)); Ok (ExportEvent (with_subject e w))
            | ExportDeletion proof => Ok (ExportDeletion proof)
            end;
  ok_or (record_to_vec X {| export_header := export_header r; export_content := content;
                            export_included := export_included r; export_references := export_references r |})
    export_encoding.

(** ** A page *)

(** The loop of [export_page] over the headers. *)
Fixpoint collect_records (m : AuditExportManifest) (headers : list StoredHeader) (records : list AuditExportRecord)
    (record_bytes : Z) : exported (list AuditExportRecord * Z) :=
  match headers with
  | [] => Ok (records, record_bytes)
  | stored :: headers =>
      record ← export_record m stored;
      encoded ← encode_record record;
      refuse (max_record_bytes (manifest_limits m) <? str_len encoded)
        (export_invalid "one audit export record exceeds the configured byte bound") ;;
      if negb (length records =? 0)%nat &&
         (max_record_bytes (manifest_limits m) <? Z.min (record_bytes + str_len encoded) u64_max)
      then Ok (records, record_bytes)
      else
        total ← ok_or (checked_add_u64 record_bytes (str_len encoded)) (export_corrupt "audit export byte count overflow");
        collect_records m headers (records ++ [record]) total
  end.

(** Where a page starts: the checkpoint it keeps to, the sequence and the digest before it. *)
Definition page_start (q : AuditExportQuery) (cursor : option AuditExportCursor) :
    exported (option AuditChainCheckpoint * Z * option string) :=
  match cursor with
  | Some c => validate_cursor q c ;; Ok (Some (cursor_checkpoint c), cursor_after_sequence c, cursor_previous_digest c)
  | None => Ok (None, 0, None)
  end.

(** The governance decision is on the chain, within the checkpoint. *)
Definition check_policy (d : AuditDb) (q : AuditExportQuery) (checkpoint : AuditChainCheckpoint) : exported () :=
  let m := query_manifest q in
  found ← map_err export_store
            (read_exact C d (query_access q) (proof_audit_event_id (manifest_policy m)) (manifest_as_of_millis m));
  record ← ok_or found (export_snapshot "audit export governance decision is absent from the authorized scope");
  refuse (checkpoint_last_sequence checkpoint <? record_sequence record)
    (export_snapshot "audit export governance decision is newer than the fixed snapshot") ;;
  e ← ok_or (record_event record) (export_snapshot "audit export governance decision payload was deleted");
  validate_policy_event (manifest_policy m) e.

Definition export_page (d : AuditDb) (q : AuditExportQuery) (cursor : option AuditExportCursor) : exported AuditExportPage :=
  let m := query_manifest q in
  manifest_validate m ;;
  digest ← manifest_digest m;
  refuse (bool_decide (digest ≠ query_digest q)) (export_corrupt "audit export query digest does not match its manifest") ;;
  start ← page_start q cursor;
  let '(expected, after_sequence, previous) := start in
  snapshot ← map_err export_store
               (export_snapshot_headers C d (scope_organization_id (manifest_scope m)) expected after_sequence
                  (Z.to_nat (scan_records (manifest_limits m))));
  let '(checkpoint, headers) := snapshot in
  check_policy d q checkpoint ;;
  collected ← collect_records m headers [] 0;
  let '(records, record_bytes) := collected in
  let '(last_sequence, last_digest) :=
    match last records with
    | Some r => (export_sequence (export_header r), Some (export_event_digest (export_header r)))
    | None => (after_sequence, previous)
    end in
  Ok {| export_manifest := m; export_query_digest := query_digest q; export_checkpoint := checkpoint;
        start_after_sequence := after_sequence; start_previous_digest := previous; export_records := records;
        export_record_bytes := record_bytes;
        export_next_cursor :=
          if last_sequence <? checkpoint_last_sequence checkpoint
          then Some {| cursor_query_digest := query_digest q; cursor_checkpoint := checkpoint;
                       cursor_after_sequence := last_sequence; cursor_previous_digest := last_digest |}
          else None |}.

(** ** Verification *)

Definition verification_start (page : AuditExportPage) (digest : string) (previous : option AuditExportVerificationState) :
    exported (Z * option string * bool) :=
  match previous with
  | Some s =>
      refuse (verified_complete s || bool_decide (verified_query_digest s ≠ digest) ||
              bool_decide (verified_checkpoint s ≠ export_checkpoint page) ||
              bool_decide (verified_after_sequence s ≠ start_after_sequence page) ||
              bool_decide (verified_last_digest s ≠ start_previous_digest page))
        (export_snapshot "audit export page does not continue the verified snapshot") ;;
      Ok (verified_after_sequence s, verified_last_digest s, policy_event_verified s)
  | None =>
      refuse (negb (start_after_sequence page =? 0) || bool_decide (is_Some (start_previous_digest page)))
        (export_snapshot "audit export verification must start at sequence zero") ;;
      Ok (0, None, false)
  end.

Definition verify_record (m : AuditExportManifest) (r : AuditExportRecord) : exported () :=
  let h := export_header r in
  export_validate_digest (export_event_digest h) ;;
  export_validate_digest (export_payload_digest h) ;;
  match export_previous_digest h with Some digest => export_validate_digest digest | None => Ok tt end ;;
  let matches := header_matches m h in
  match export_content r with
  | ExportWitness =>
      refuse (matches || export_included r || negb (bool_decide (export_references r = [])))
        (export_corrupt "audit export witness does not match its filter")
  | ExportEvent e =>
      let is_policy_event := bool_decide (export_event_id h = proof_audit_event_id (manifest_policy m)) in
      if negb (matches || is_policy_event)
      then Err (export_corrupt "audit export event payload does not match its header")
      else
        encoded ← map_err (λ _, export_encoding) (event_to_vec C e);
        refuse (bool_decide (sha256_digest C encoded ≠ export_payload_digest h))
          (export_corrupt "audit export event payload does not match its header") ;;
        verify_event_header h e ;;
        refuse (negb (eqb (export_included r) (matches && event_matches m e)) ||
                bool_decide (export_references r ≠ artifact_references e))
          (export_corrupt "audit export event filter or digest references changed")
  | ExportDeletion proof =>
      match export_retention h with
      | Indefinite => Err (export_corrupt "indefinite audit payload has a deletion proof")
      | UntilMillis retention_until =>
          refuse (negb matches || bool_decide (is_Some (manifest_subject m)) || negb (export_included r) ||
                  negb (bool_decide (export_references r = [])) ||
                  (deletion_pruned_at_millis proof <? retention_until) ||
                  (manifest_as_of_millis m <? deletion_pruned_at_millis proof) ||
                  bool_decide (deletion_tombstone_event_digest proof ≠ export_event_digest h))
            (export_corrupt "audit export deletion proof is invalid")
      end
  end.

(** The record of the governance decision has the event, and the event is that decision. *)
Definition verify_policy_record (m : AuditExportManifest) (r : AuditExportRecord) (verified : bool) : exported bool :=
  if bool_decide (export_event_id (export_header r) = proof_audit_event_id (manifest_policy m)) then
    match export_content r with
    | ExportEvent e => validate_policy_event (manifest_policy m) e ;; Ok true
    | _ => Err (export_corrupt "audit export governance decision is not retained")
    end
  else Ok verified.

(** The loop of [verify_page] over the records. *)
Fixpoint verify_records (m : AuditExportManifest) (records : list AuditExportRecord) (sequence : Z)
    (previous_digest : option string) (verified : bool) (record_bytes : Z) : exported (Z * option string * bool * Z) :=
  match records with
  | [] => Ok (sequence, previous_digest, verified, record_bytes)
  | r :: records =>
      let h := export_header r in
      sequence ← ok_or (checked_add_u64 sequence 1) (export_corrupt "audit export sequence overflow");
      refuse (bool_decide (export_sequence h ≠ sequence) || bool_decide (export_previous_digest h ≠ previous_digest) ||
              bool_decide (scope_organization_id (export_scope h) ≠ scope_organization_id (manifest_scope m)))
        (export_corrupt "audit export chain witness is missing or reordered") ;;
      verify_record m r ;;
      verified ← verify_policy_record m r verified;
      expected_digest ← export_chain_digest h;
      refuse (bool_decide (expected_digest ≠ export_event_digest h)) (export_corrupt "audit export header digest changed") ;;
      encoded ← encode_record r;
      record_bytes ← ok_or (checked_add_u64 record_bytes (str_len encoded)) (export_corrupt "audit export byte count overflow");
      verify_records m records sequence (Some (export_event_digest h)) verified record_bytes
  end.

(** The end of the page: its cursor goes on from here, or the checkpoint is reached. *)
Definition verify_end (page : AuditExportPage) (digest : string) (sequence : Z) (previous_digest : option string)
    (verified : bool) : exported () :=
  match export_next_cursor page with
  | Some cursor =>
      refuse (bool_decide (cursor_query_digest cursor ≠ digest) ||
              bool_decide (cursor_checkpoint cursor ≠ export_checkpoint page) ||
              bool_decide (cursor_after_sequence cursor ≠ sequence) ||
              bool_decide (cursor_previous_digest cursor ≠ previous_digest))
        (export_corrupt "audit export continuation cursor changed")
  | None =>
      refuse (bool_decide (sequence ≠ checkpoint_last_sequence (export_checkpoint page)) ||
              bool_decide (previous_digest ≠ checkpoint_last_digest (export_checkpoint page)))
        (export_corrupt "audit export final page does not reach its checkpoint") ;;
      refuse (negb verified) (export_corrupt "audit export does not contain its governance decision")
  end.

Definition verify_page (page : AuditExportPage) (previous : option AuditExportVerificationState) :
    exported AuditExportVerificationState :=
  let m := export_manifest page in
  manifest_validate m ;;
  digest ← manifest_digest m;
  refuse (bool_decide (digest ≠ export_query_digest page)) (export_corrupt "audit export page query digest changed") ;;
  start ← verification_start page digest previous;
  let '(sequence, previous_digest, verified) := start in
  refuse (bool_decide (checkpoint_organization_id (export_checkpoint page) ≠ scope_organization_id (manifest_scope m)) ||
          (scan_records (manifest_limits m) <? Z.of_nat (length (export_records page))))
    (export_corrupt "audit export page exceeds its manifest or organization") ;;
  loop ← verify_records m (export_records page) sequence previous_digest verified 0;
  let '(sequence, previous_digest, verified, record_bytes) := loop in
  refuse (negb (record_bytes =? export_record_bytes page) || (max_record_bytes (manifest_limits m) <? record_bytes))
    (export_corrupt "audit export encoded byte bound changed") ;;
  verify_end page digest sequence previous_digest verified ;;
  Ok {| verified_query_digest := digest; verified_checkpoint := export_checkpoint page;
        verified_after_sequence := sequence; verified_last_digest := previous_digest;
        policy_event_verified := verified; verified_complete := bool_decide (export_next_cursor page = None) |}.

(** A page as it was read, with the subjects of its events. *)
Fixpoint records_from_wire (records : list (AuditExportRecordOf AuditSubjectWire)) : option (list AuditExportRecord) :=
  match records with
  | [] => Some []
  | r :: records =>
      content ← match export_content r with
                | ExportWitness => Some ExportWitness
                | ExportEvent e =>
                    match subject_from_wire (subject e) with Ok s => Some (ExportEvent (with_subject e s)) | Err _ => None end
                | ExportDeletion proof => Some (ExportDeletion proof)
                end;
      records ← records_from_wire records;
      Some ({| export_header := export_header r; export_content := content; export_included := export_included r;
               export_references := export_references r |} :: records)
  end.

Definition page_of_json (encoded : string) : option AuditExportPage :=
  page ← page_from_slice X encoded;
  records ← records_from_wire (export_records page);
  Some {| export_manifest := export_manifest page; export_query_digest := export_query_digest page;
          export_checkpoint := export_checkpoint page; start_after_sequence := start_after_sequence page;
          start_previous_digest := start_previous_digest page; export_records := records;
          export_record_bytes := export_record_bytes page; export_next_cursor := export_next_cursor page |}.

Definition verify_json (encoded : string) (previous : option AuditExportVerificationState) :
    exported (AuditExportPage * AuditExportVerificationState) :=
  page ← ok_or (page_of_json encoded) (export_corrupt "audit export JSON is invalid");
  state ← verify_page page previous;
  Ok (page, state).
End export.
