(* ===== verification/ExportSafety.v ===== *)
(** * Audit export: what it promises

    The pages of an honest export are accepted in order, whatever else the store is asked
    between them, and an export that is accepted up to a checkpoint of the store shows what the
    query asks for and nothing else. *)

From Stdlib Require Import Ascii String.
From stdpp Require Import sorting.
From S2P Require Import Prelude Text Numerals Ordered Transaction StateKeys AuditTypes AuditTables AuditFacts AuditChain AuditRuns AuditFixture AuditSafety.
From S2P Require Import Governance GovernanceSafety AuditExport.
Local Open Scope Z_scope.

(** ** What a record is meant to show *)

(** The query asks for the event, by its scope and time; or the event is its decision. *)
Definition asked (m : AuditExportManifest) (e : AuditEvent) : bool :=
  scope_contains (manifest_scope m) (scope e) && time_range_contains (manifest_time_range m) (occurred_at_millis e).

Definition is_decision (m : AuditExportManifest) (e : AuditEvent) : bool :=
  bool_decide (event_id e = proof_audit_event_id (manifest_policy m)).

Definition header_of (r : EventRow) (e : AuditEvent) : AuditExportHeader :=
  {| export_sequence := row_sequence r; export_previous_digest := row_previous_digest r;
     export_event_digest := row_event_digest r; export_payload_digest := row_payload_digest r;
     export_event_id := event_id e; export_occurred_at_millis := occurred_at_millis e; export_scope := scope e;
     export_retention := retention e |}.

(** The content, whether the record is asked for, and the references. *)
Definition content_of (m : AuditExportManifest) (r : EventRow) (x : LogEntry) :
    AuditExportContent * bool * list AuditArtifactDigestReference :=
  let e := normal (logged x) in
  match withdrawn x with
  | None =>
      if asked m e || is_decision m e
      then (ExportEvent e, asked m e && event_matches m e, artifact_references e) else (ExportWitness, false, [])
  | Some t =>
      if asked m e
      then (ExportDeletion {| deletion_pruned_at_millis := t; deletion_tombstone_event_digest := row_event_digest r |}, true, [])
      else (ExportWitness, false, [])
  end.

Definition export_of (m : AuditExportManifest) (r : EventRow) (x : LogEntry) : AuditExportRecord :=
  {| export_header := header_of r (logged x); export_content := (content_of m r x).1.1;
     export_included := (content_of m r x).1.2; export_references := (content_of m r x).2 |}.

(** The entry can be shown: a withdrawn one only without a filter by subject, and as of a time
    after its withdrawal. *)
Definition exportable (m : AuditExportManifest) (x : LogEntry) : Prop :=
  match withdrawn x with
  | None => True
  | Some t => is_decision m (logged x) = false ∧
              (asked m (logged x) = true → manifest_subject m = None ∧ t ≤ manifest_as_of_millis m)
  end.

Section records.
Context (C : AuditCodec) (X : ExportCodec) `{!AuditCodecLaws C}.

Lemma event_to_vec_normal e p : event_to_vec C e = Ok p → event_to_vec C (normal e) = Ok p.
Proof.
  unfold event_to_vec. intros H. apply bind_Ok in H as (w & Hw & [= <-]). apply map_err_Ok in Hw.
  change (subject (normal e)) with (normal_subject (subject e)). by rewrite (subject_wire_normal _ _ Hw).
Qed.

(** ** The digest of a header *)

(** The facts of an exported header, as the store has them. *)
Definition header_facts (h : AuditExportHeader) : EventHeaderFacts :=
  {| facts_event_id := export_event_id h; facts_occurred_at_millis := export_occurred_at_millis h;
     facts_workspace_id := scope_workspace_id (export_scope h); facts_project_id := scope_project_id (export_scope h);
     facts_repository_id := scope_repository_id (export_scope h);
     facts_retention_kind := match export_retention h with UntilMillis _ => "until" | Indefinite => "indefinite" end;
     facts_retention_until_millis := match export_retention h with UntilMillis u => Some u | Indefinite => None end |}.

Definition export_message (h : AuditExportHeader) : string :=
  chain_message (scope_organization_id (export_scope h)) (export_sequence h) (export_previous_digest h) (header_facts h)
    (export_payload_digest h).

(** The verifier recomputes the digest of the store. *)
Lemma export_chain_digest_Ok h g :
  export_chain_digest C h = Ok g ↔
  export_occurred_at_millis h ≤ i64_max ∧ (∀ u, export_retention h = UntilMillis u → u ≤ i64_max) ∧
  g = sha256_digest C (export_message h).
Proof.
  unfold export_chain_digest, export_i64, export_message, chain_message, export_chain_message, header_facts.
  cbn [facts_event_id facts_occurred_at_millis facts_workspace_id facts_project_id facts_repository_id facts_retention_kind facts_retention_until_millis].
  destruct (Z.ltb_spec i64_max (export_occurred_at_millis h)) as [Ho|Ho]; [cbn; naive_solver lia|].
  destruct (export_retention h) as [u|]; cbn [refuse mbind result_bind].
  - destruct (Z.ltb_spec i64_max u) as [Hu|Hu]; cbn [refuse mbind result_bind default].
    + split; [done|]. intros (_ & Hall & _). specialize (Hall u eq_refl). lia.
    + rewrite !str_append_assoc. naive_solver.
  - rewrite !str_append_assoc. cbn [default]. naive_solver.
Qed.

Section entry.
Context (d : AuditDb) (r : EventRow) (x : LogEntry).
Context (Hd : audit_wf C d) (Hr : r ∈ audit_events d) (Hx : entry_row C d r x).

Lemma entry_header : header_from_stored (stored_header_row d r) = Ok (header_of r (logged x)).
Proof.
  pose proof (facts_Ok _ _ (er_facts _ _ _ _ Hx)) as (Fi & Fo & Fk & Fw & Fp & Fr). cbn in Fi, Fo, Fk, Fw, Fp, Fr.
  pose proof (er_valid _ _ _ _ Hx) as Hv. apply validate_event_parts in Hv as (Hid & _ & _ & _ & Hs & _).
  pose proof (proj1 (Forall_forall _ _) (wf_rows C d Hd) r Hr) as (_ & Hseq & Hocc & Hu).
  pose proof (sealed_retention C _ (intact_sealed C _ (row_intact C d Hd r Hr))) as Hk. unfold sealed_kind in Hk. cbn in Hk.
  unfold header_from_stored, to_u64.
  cbn [stored_header_row header_occurred_at_millis]. rewrite refuse_run by lia. cbn [mbind result_bind].
  assert (stored_scope (stored_header_row d r) = Ok (scope (logged x))) as ->.
  { unfold stored_scope. cbn [stored_header_row header_organization_id header_workspace_id header_project_id header_repository_id].
    rewrite Fw, Fp, Fr, (er_organization _ _ _ _ Hx). unfold entry_organization.
    unfold organization_scope, workspace_scope, project_scope, repository_scope, checked_scope.
    destruct (scope (logged x)); cbn [scope_organization_id scope_workspace_id scope_project_id scope_repository_id]; by rewrite Hs. }
  cbn [mbind result_bind].
  assert (stored_retention (stored_header_row d r) = Ok (retention (logged x))) as ->.
  { unfold stored_retention, to_u64. cbn [stored_header_row header_retention_until_millis header_retention_kind].
    destruct (row_retention_until_millis r) as [u|] eqn:Eu.
    - destruct Hk as [[-> _]|[_ Hk]]; [|done]. specialize (Hu u eq_refl). rewrite differs_refl. cbn [refuse mbind result_bind].
      rewrite refuse_run by lia. destruct Fk as [(_ & Fk & _)|(_ & Fk & _)]; [|done].
      cbn. f_equal. destruct (retention (logged x)); [by injection Fk as ->|done].
    - destruct Hk as [[_ [? Hk]]|[-> _]]; [done|]. rewrite differs_refl. cbn. f_equal.
      destruct Fk as [(_ & Fk & Fr')|(_ & _ & Fr')]; [|done]. by destruct (retention (logged x)). }
  cbn [mbind result_bind stored_header_row header_event_id]. rewrite Fi. unfold event_id_try_new. rewrite Hid.
  cbn [negb refuse map_err mbind result_bind]. unfold header_of. do 2 f_equal; cbn [stored_header_row header_sequence].
  - by rewrite (proj2 (Z.ltb_ge _ _)) by lia.
  - exact Fo.
Qed.

Lemma entry_matches m : header_matches m (header_of r (logged x)) = asked m (logged x).
Proof. done. Qed.

Lemma entry_record m rec :
  export_record C m (stored_header_row d r) = Ok rec ↔ exportable m x ∧ rec = export_of m r x.
Proof.
  unfold export_record. rewrite entry_header. cbn [mbind result_bind]. unfold export_content_of.
  rewrite entry_matches. destruct (er_payload _ _ _ _ Hx) as (p & Hp & Hpd & Hw).
  unfold exportable, export_of, content_of. change (asked m (normal (logged x))) with (asked m (logged x)).
  change (is_decision m (normal (logged x))) with (is_decision m (logged x)).
  change (bool_decide (export_event_id (header_of r (logged x)) = _)) with (is_decision m (logged x)).
  cbn [stored_header_row header_payload header_payload_pruned_at_millis header_tombstone_event_digest].
  destruct (withdrawn x) as [t|] eqn:Ew; destruct Hw as [-> Ht]; rewrite ?Ht; cbn [fmap option_fmap option_map fst snd].
  - assert (Ht0 : 0 ≤ t).
    { destruct (row_intact C d Hd r Hr) as [a (_ & ev & Hg & _)%record_from_header_Ok].
      destruct Hg as [(q & e & Hq & Hg & _)|(q & g & _ & Hg & _ & Ha & _)]; cbn in *; rewrite Ht in Hg; cbn in Hg; [done|].
      simplify_eq. unfold tombstone_authorizes in Ha. split_bools. lia. }
    cbn [mbind option_bind]. rewrite (proj2 (Z.ltb_ge _ _)) by done. cbn [ok_or mbind result_bind].
    destruct (is_decision m (logged x)), (asked m (logged x)); cbn [andb]; try naive_solver.
    destruct (manifest_subject m); [|rewrite bool_decide_eq_false_2 by (by intros [])].
    { rewrite bool_decide_eq_true_2 by done. cbn. naive_solver. }
    destruct (Z.ltb_spec (manifest_as_of_millis m) t); cbn; naive_solver lia.
  - destruct (asked m (logged x) || is_decision m (logged x)) eqn:Ea; [|cbn; naive_solver].
    cbn [header_of export_payload_digest]. rewrite Hpd, (differs_refl (sha256_digest C p)). cbn [refuse mbind result_bind].
    rewrite (event_round_trip C _ _ Hp). cbn [ok_or mbind result_bind]. unfold verify_event_header.
    change (event_id (normal (logged x))) with (event_id (logged x)). change (scope (normal (logged x))) with (scope (logged x)).
    change (occurred_at_millis (normal (logged x))) with (occurred_at_millis (logged x)).
    change (retention (normal (logged x))) with (retention (logged x)). cbn [header_of export_event_id export_occurred_at_millis export_scope export_retention].
    rewrite !differs_refl. cbn. naive_solver.
Qed.

(** ** What is made is accepted *)

Lemma made_verifies m : exportable m x → verify_record C m (export_of m r x) = Ok tt.
Proof.
  intros He. pose proof (intact_sealed C _ (row_intact C d Hd r Hr)) as [H1 H2 H3 _ _].
  apply audit_digest_Ok in H1, H2. cbn in H1, H2, H3. unfold verify_record, export_validate_digest.
  cbn [export_of export_header header_of export_event_digest export_payload_digest export_previous_digest].
  rewrite H1, H2. cbn [negb refuse mbind result_bind].
  assert (match row_previous_digest r with Some g => refuse (negb (sha256_shape g)) (export_corrupt "audit export contains a malformed digest") | None => Ok tt end = Ok tt) as ->.
  { destruct (row_previous_digest r); [|done]. apply audit_digest_Ok in H3. by rewrite H3. }
  cbn [mbind result_bind]. rewrite entry_matches.
  destruct (er_payload _ _ _ _ Hx) as (p & Hp & Hpd & Hw). unfold exportable in He. unfold export_of, content_of.
  cbn [export_content export_included export_references].
  change (asked m (normal (logged x))) with (asked m (logged x)).
  change (is_decision m (normal (logged x))) with (is_decision m (logged x)).
  change (bool_decide (export_event_id (header_of r (logged x)) = _)) with (is_decision m (logged x)).
  destruct (withdrawn x) as [t|] eqn:Ew.
  - destruct (asked m (logged x)) eqn:Ea; [|done]. destruct He as [_ He]. destruct (He eq_refl) as [Hs Ht].
    cbn [fst snd export_retention header_of]. destruct Hw as [Hw1 Hw2].
    destruct (row_intact C d Hd r Hr) as [a (_ & ev & Hg & _)%record_from_header_Ok].
    destruct Hg as [(q & e & Hq & Hg & _)|(q & g & _ & Hg & Hg' & Ha & _)]; cbn in Hg; rewrite Hw2 in Hg; [done|].
    cbn in Hg, Hg'. simplify_eq. unfold tombstone_authorizes in Ha. cbn in Ha.
    pose proof (facts_Ok _ _ (er_facts _ _ _ _ Hx)) as (_ & _ & Fk & _). cbn in Fk.
    destruct (row_retention_until_millis r) as [u|]; [|done]. destruct Fk as [(_ & Fk & _)|(_ & Fk & _)]; [|done].
    destruct (retention (logged x)) as [v|]; [|done]. injection Fk as <-. split_bools.
    rewrite Hs, differs_refl. cbn. apply refuse_Ok. lia.
  - destruct (asked m (logged x) || is_decision m (logged x)) eqn:Ea; cbn [fst snd].
    + cbn [negb]. rewrite (event_to_vec_normal _ _ Hp).
      cbn [map_err mbind result_bind]. rewrite Hpd, (differs_refl (sha256_digest C p)). cbn [refuse mbind result_bind].
      unfold verify_event_header. cbn [header_of export_event_id export_occurred_at_millis export_scope export_retention].
      change (event_id (normal (logged x))) with (event_id (logged x)). change (scope (normal (logged x))) with (scope (logged x)).
      change (occurred_at_millis (normal (logged x))) with (occurred_at_millis (logged x)).
      change (retention (normal (logged x))) with (retention (logged x)). rewrite !differs_refl. cbn [orb refuse mbind result_bind].
      rewrite eqb_reflx. done.
    + apply orb_false_iff in Ea as [-> _]. done.
Qed.

Lemma made_digest : export_chain_digest C (header_of r (logged x)) = Ok (row_event_digest r).
Proof.
  pose proof (sealed_digest C _ (intact_sealed C _ (row_intact C d Hd r Hr))) as Hs.
  pose proof (facts_Ok _ _ (er_facts _ _ _ _ Hx)) as (Fi & Fo & Fk & Fw & Fp & Fr).
  pose proof (proj1 (Forall_forall _ _) (wf_rows C d Hd) r Hr) as (_ & Hseq & Hocc & Hu).
  apply export_chain_digest_Ok. cbn [header_of export_occurred_at_millis export_retention]. split_and!.
  - rewrite <-Fo. cbn. lia.
  - intros u Eu. rewrite Eu in Fk. destruct Fk as [(_ & Fk & _)|(_ & _ & Fk)]; [|done]. cbn in Fk. specialize (Hu u Fk). lia.
  - rewrite (header_sequence_row C d Hd r Hr) in Hs. change (header_event_digest _) with (row_event_digest r) in Hs.
    rewrite <-Hs. unfold chain_digest, sha256_digest, export_message. do 2 f_equal.
    cbn [header_of export_scope export_sequence export_previous_digest export_payload_digest stored_header_row header_organization_id header_previous_digest header_payload_digest].
    rewrite (er_organization _ _ _ _ Hx). unfold entry_organization. f_equal.
    destruct (stored_header_facts (stored_header_row d r)) as [i o w p q k u] eqn:E.
    assert (E' := f_equal facts_retention_kind E). cbn in Fi, Fo, Fk, Fw, Fp, Fr |- *. subst. unfold header_facts.
    cbn [header_of export_event_id export_occurred_at_millis export_scope export_retention]. symmetry.
    destruct Fk as [(-> & -> & Fk)|(-> & -> & ->)]; [|done]. by destruct (retention (logged x)).
Qed.

(** The entry is the decision of the query, if it has the identifier of one. *)
Definition decision_kept (m : AuditExportManifest) (y : LogEntry) : Prop :=
  is_decision m (logged y) = true → withdrawn y = None ∧ validate_policy_event (manifest_policy m) (normal (logged y)) = Ok tt.

Definition decided (m : AuditExportManifest) (y : EventRow) : bool :=
  bool_decide (row_event_id y = proof_audit_event_id (manifest_policy m)).

Lemma entry_decided m : decided m r = is_decision m (logged x).
Proof. pose proof (facts_Ok _ _ (er_facts _ _ _ _ Hx)) as (Fi & _). cbn in Fi. unfold decided, is_decision. by rewrite Fi. Qed.

Lemma made_policy m v :
  decision_kept m x → verify_policy_record m (export_of m r x) v = Ok (v || decided m r).
Proof.
  intros Hk. unfold verify_policy_record. rewrite entry_decided.
  change (bool_decide (export_event_id (export_header (export_of m r x)) = _)) with (is_decision m (logged x)).
  destruct (is_decision m (logged x)) eqn:E; [|by rewrite orb_false_r]. destruct (Hk E) as [Hw Hv].
  unfold export_of, content_of. rewrite Hw. cbn [export_content].
  change (is_decision m (normal (logged x))) with (is_decision m (logged x)). rewrite E, orb_true_r. cbn [fst].
  rewrite Hv. cbn. by rewrite orb_true_r.
Qed.
End entry.

(** ** Sizes *)

(** The bytes of some records together. *)
Fixpoint record_sizes (rs : list AuditExportRecord) : option Z :=
  match rs with
  | [] => Some 0
  | r :: rs => match encode_record X r, record_sizes rs with Ok b, Some n => Some (str_len b + n) | _, _ => None end
  end.

Lemma record_sizes_nonneg rs n : record_sizes rs = Some n → 0 ≤ n.
Proof.
  revert n. induction rs as [|r rs IH]; intros n; cbn; [by intros [= <-]|].
  destruct (encode_record X r), (record_sizes rs) as [k|]; try done. intros [= <-]. specialize (IH k eq_refl). unfold str_len. lia.
Qed.

(** The records of a page are those of the first headers, at least one, and within the bound. *)
Lemma collect_Ok m hs rs b rs' b' :
  collect_records C X m hs rs b = Ok (rs', b') →
  ∃ k new n, rs' = rs ++ new ∧ (k ≤ length hs)%nat ∧ Forall2 (λ h rec, export_record C m h = Ok rec) (take k hs) new ∧
    record_sizes new = Some n ∧ b' = b + n ∧ (rs = [] → hs ≠ [] → (1 ≤ k)%nat) ∧
    (max_record_bytes (manifest_limits m) < u64_max → (rs = [] → b = 0) → b ≤ max_record_bytes (manifest_limits m) →
     b' ≤ max_record_bytes (manifest_limits m)).
Proof.
  revert rs b. induction hs as [|h hs IH]; intros rs b H; cbn [collect_records] in H.
  { injection H as <- <-. exists 0%nat, [], 0. rewrite app_nil_r. split_and!; try done; lia. }
  apply bind_Ok in H as (rec & Hrec & H). apply bind_Ok in H as (enc & Henc & H). apply bind_Ok in H as ([] & Hmax & H).
  apply refuse_Ok, Z.ltb_ge in Hmax. case_match eqn:Estop.
  { injection H as <- <-. exists 0%nat, [], 0. rewrite app_nil_r. split_and!; try done; try lia.
    intros ->. done. }
  apply bind_Ok in H as (total & Ht & H). apply ok_or_Ok, checked_add_u64_Some in Ht as [-> Ht].
  apply IH in H as (k & new & n & -> & Hk & HF & Hn & -> & _ & Hb).
  exists (S k), (rec :: new), (str_len enc + n). split_and!.
  - by rewrite <-app_assoc.
  - cbn. lia.
  - by constructor.
  - cbn. by rewrite Henc, Hn.
  - lia.
  - lia.
  - intros Hu H0 Hle. apply Hb; [done|by destruct rs|]. apply andb_false_iff in Estop as [Hr|Hr].
    + destruct rs; [|done]. rewrite (H0 eq_refl). lia.
    + apply Z.ltb_ge in Hr. lia.
Qed.

(** It is made when every record can be. *)
Definition record_made (m : AuditExportManifest) (h : StoredHeader) : Prop :=
  ∃ rec enc, export_record C m h = Ok rec ∧ encode_record X rec = Ok enc ∧ str_len enc ≤ max_record_bytes (manifest_limits m).

Lemma collect_total m hs rs b :
  Forall (record_made m) hs → max_record_bytes (manifest_limits m) ≤ MAX_RECORD_BYTES → (rs = [] → b = 0) →
  b ≤ max_record_bytes (manifest_limits m) → ∃ z, collect_records C X m hs rs b = Ok z.
Proof.
  intros HF Hmax. revert rs b. induction HF as [|h hs (rec & enc & Hr & He & Hl) _ IH]; intros rs b H0 Hb; cbn [collect_records]; [eauto|].
  rewrite Hr. cbn [mbind result_bind]. rewrite He. cbn [mbind result_bind]. rewrite refuse_run by lia.
  destruct (negb _ && _) eqn:E; [eauto|]. assert (MAX_RECORD_BYTES * 2 < u64_max) by done.
  rewrite (proj2 (checked_add_u64_Some b (str_len enc) (b + str_len enc))) by (split; [done|lia]). cbn [ok_or mbind result_bind].
  apply IH; [by destruct rs|]. apply andb_false_iff in E as [E|E].
  - destruct rs; [|done]. rewrite H0 by done. lia.
  - apply Z.ltb_ge in E. lia.
Qed.

(** ** The loop of the verification *)

Definition entries (d : AuditDb) (l : list EventRow) (xs : list LogEntry) : Prop :=
  Forall2 (λ r x, r ∈ audit_events d ∧ entry_row C d r x) l xs.

Lemma verify_made d m l xs sequence previous v b z n :
  audit_wf C d → entries d l xs → verify_loop C (stored_header_row d <$> l) (sequence + 1) previous = Ok z →
  Forall (λ r, row_organization_id r = scope_organization_id (manifest_scope m)) l →
  Forall (λ x, exportable m x ∧ decision_kept m x) xs →
  record_sizes (zip_with (export_of m) l xs) = Some n → b + n ≤ u64_max →
  verify_records C X m (zip_with (export_of m) l xs) sequence previous v b =
  Ok (sequence + Z.of_nat (length l), z.2, v || existsb (decided m) l, b + n).
Proof.
  intros Hd HE. revert sequence previous v b z n.
  induction HE as [|r x l xs [Hr Hx] _ IH]; intros sequence previous v b z n Hv Ho Hxs Hn Hb.
  { cbn in *. injection Hv as <-. injection Hn as <-. cbn. rewrite orb_false_r. do 3 f_equal; [f_equal|]; lia. }
  rewrite fmap_cons in Hv. apply verify_loop_cons in Hv as ((Hs & Hp & _) & Hle & Hv).
  apply Forall_cons in Ho as [Hor Ho], Hxs as [[He Hk] Hxs]. rewrite (header_sequence_row C d Hd r Hr) in Hs. cbn in Hp.
  cbn [zip_with record_sizes] in Hn. destruct (encode_record X (export_of m r x)) as [enc|] eqn:Eenc; [|done].
  destruct (record_sizes (zip_with (export_of m) l xs)) as [k|] eqn:Ek; [|done]. injection Hn as <-.
  pose proof (record_sizes_nonneg _ _ Ek) as Hk0.
  cbn [zip_with verify_records]. rewrite (proj2 (checked_add_u64_Some sequence 1 (sequence + 1))) by (split; [done|lia]).
  cbn [ok_or mbind result_bind]. rewrite refuse_run.
  2: { cbn [export_of export_header header_of export_sequence export_previous_digest export_scope].
       rewrite Hs, Hp, !differs_refl. cbn. change (scope_organization_id (scope (logged x))) with (entry_organization x).
       rewrite <-(er_organization _ _ _ _ Hx), Hor. apply differs_refl. }
  rewrite (made_verifies d r x Hd Hr Hx m He). cbn [mbind result_bind]. rewrite (made_policy d r x Hx m v Hk). cbn [mbind result_bind].
  change (export_header (export_of m r x)) with (header_of r (logged x)).
  rewrite (made_digest d r x Hd Hr Hx). cbn [mbind result_bind].
  change (export_event_digest (header_of r (logged x))) with (row_event_digest r). rewrite refuse_run by apply differs_refl.
  rewrite Eenc. cbn [mbind result_bind].
  rewrite (proj2 (checked_add_u64_Some b (str_len enc) (b + str_len enc))) by (split; [done|lia]). cbn [ok_or mbind result_bind].
  rewrite (IH (sequence + 1) (Some (row_event_digest r)) (v || decided m r) (b + str_len enc) z k) by (done || lia).
  cbn [existsb length]. rewrite orb_assoc, Z.add_assoc, Nat2Z.inj_succ.
  by replace (sequence + Z.succ (Z.of_nat (length l))) with (sequence + 1 + Z.of_nat (length l)) by lia.
Qed.
End records.

(** ** The headers of a page *)

Section pages.
Context (C : AuditCodec) (X : ExportCodec) `{!AuditCodecLaws C}.

Lemma read_intact hs : Forall (intact C) hs → ∃ recs, read_records C hs u64_max = Ok recs.
Proof.
  induction 1 as [|h hs [rec Hr] _ [recs IH]]; [by exists []|]. exists (rec :: recs). cbn [read_records].
  rewrite Hr. cbn [mbind result_bind]. by rewrite IH.
Qed.

(** The rows between two places of a chain. *)
Lemma select_between d o l k n :
  audit_wf C d → chain d o = l ++ k → (n ≤ length l)%nat →
  select_headers d o (λ r, (Z.of_nat n <? row_sequence r) && upto (Z.of_nat (length l)) r) = stored_header_row d <$> drop n l.
Proof.
  intros Hd Hc Hn. unfold select_headers. rewrite select_chain. f_equal.
  assert (Hat : ∀ i r, (l ++ k) !! i = Some r → row_sequence r = 1 + Z.of_nat i) by (rewrite <-Hc; intros; by eapply (chain_at C)).
  rewrite Hc, filter_app, (filter_none _ k), app_nil_r.
  - rewrite <-(take_drop n l) at 1. rewrite filter_app, filter_none, filter_all; [done| |].
    + apply Forall_forall. intros r Hr. apply list_elem_of_lookup in Hr as [i Hi]. rewrite lookup_drop in Hi.
      pose proof (lookup_lt_Some _ _ _ Hi). unfold upto. rewrite (Hat (n + i)%nat r) by (by apply lookup_app_l_Some). rewrite andb_true_iff, Z.ltb_lt, Z.leb_le. lia.
    + apply Forall_forall. intros r Hr. apply elem_of_take in Hr as (i & Hi & Hlt).
      unfold upto. rewrite (Hat i r) by (by apply lookup_app_l_Some). lia.
  - apply Forall_forall. intros r Hr. apply list_elem_of_lookup in Hr as [i Hi].
    assert (Hi' : (l ++ k) !! (length l + i)%nat = Some r) by (rewrite lookup_app_r by lia; by replace (length l + i - length l)%nat with i by lia).
    unfold upto. rewrite (Hat _ r Hi'). rewrite andb_true_iff, Z.ltb_lt, Z.leb_le. lia.
Qed.

Lemma snapshot_of d o l k expected n limit :
  audit_wf C d → is_canonical_prefixed_id o "org_" = true → chain d o = l ++ k →
  expected = None ∧ k = [] ∨ expected = Some (checkpoint_for o l) → (n ≤ length l)%nat → (1 ≤ limit ≤ 200)%nat →
  export_snapshot_headers C d o expected (Z.of_nat n) limit =
  Ok (checkpoint_for o l, stored_header_row d <$> take limit (drop n l)).
Proof.
  intros Hd Ho Hc Hex Hn Hlim. unfold export_snapshot_headers, validate_organization_id. rewrite Ho.
  cbn [negb refuse mbind result_bind]. pose proof (chain_length C d o Hd) as Hle. rewrite Hc, length_app in Hle.
  rewrite refuse_run by (rewrite (proj2 (Nat.leb_le 1 limit)), (proj2 (Nat.leb_le limit 200)) by lia; cbn; lia).
  assert (verify_checkpoint C d o expected = Ok (checkpoint_for o l)) as ->.
  { destruct Hex as [[-> ->]| ->]; [|by eapply checkpoint_prefix]. rewrite app_nil_r in Hc. rewrite <-Hc.
    pose proof (verify_wf C d o Hd Ho) as Hv. unfold verify_organization, validate_organization_id in Hv. rewrite Ho in Hv. exact Hv. }
  cbn [mbind result_bind checkpoint_for checkpoint_last_sequence]. rewrite refuse_run by lia.
  unfold to_i64. rewrite refuse_run by lia. cbn [mbind result_bind].
  rewrite (select_between d o l k n Hd Hc Hn), <-fmap_take.
  destruct (read_intact (stored_header_row d <$> take limit (drop n l))) as [recs ->]; [|done].
  apply Forall_fmap, Forall_forall. intros r Hr. apply (row_intact C d Hd). apply elem_of_take in Hr as (i & Hi & _).
  rewrite lookup_drop in Hi. assert (Hin : r ∈ chain d o); [|by apply chain_elem in Hin as [? _]].
  rewrite Hc. apply elem_of_app. left. by eapply list_elem_of_lookup_2.
Qed.

(** ** The query *)

Lemma manifest_facts m :
  manifest_validate C m = Ok tt →
  validate_scope (manifest_scope m) = Ok tt ∧ 1 ≤ scan_records (manifest_limits m) ≤ 200 ∧
  1 ≤ max_record_bytes (manifest_limits m) ≤ MAX_RECORD_BYTES ∧ manifest_as_of_millis m ≤ MAX_SAFE_INTEGER ∧
  proof_scope (manifest_policy m) = manifest_scope m ∧
  is_canonical_prefixed_id (scope_organization_id (manifest_scope m)) "org_" = true.
Proof.
  unfold manifest_validate. intros H. apply bind_Ok in H as ([] & Hs & H). apply bind_Ok in H as (rng & _ & H).
  apply bind_Ok in H as (lim & Hl & H). apply bind_Ok in H as ([] & _ & H). apply bind_Ok in H as ([] & Has & H).
  apply bind_Ok in H as ([] & _ & H). do 4 apply bind_Ok in H as ([] & _ & H). apply bind_Ok in H as ([] & Hp & _).
  unfold limits_try_new in Hl. apply bind_Ok in Hl as ([] & Hl & _). apply refuse_Ok in Hl, Has, Hp. split_bools.
  apply map_err_Ok in Hs. split_and!; try done; try (unfold MAX_SCAN_RECORDS in *; lia).
  rewrite <-canonical_organization. unfold validate_scope in Hs. apply refuse_Ok in Hs. by split_bools.
Qed.

(** The decision of the query is on the chain of its organisation. *)
Lemma policy_found d L q o c :
  represents C d L → o = scope_organization_id (manifest_scope (query_manifest q)) →
  proof_scope (manifest_policy (query_manifest q)) = manifest_scope (query_manifest q) →
  check_policy C d q c = Ok tt →
  Forall (decision_kept (query_manifest q)) L ∧
  ∃ i r, chain d o !! i = Some r ∧ decided (query_manifest q) r = true ∧ 1 + Z.of_nat i ≤ checkpoint_last_sequence c.
Proof.
  intros HR -> Hsc H. set (m := query_manifest q) in *. pose proof (rep_wf _ _ _ HR) as Hd. unfold check_policy in H. fold m in H.
  apply bind_Ok in H as (found & Hf & H). apply bind_Ok in H as (rec & Hrec & H). apply bind_Ok in H as ([] & Hseq & H).
  apply bind_Ok in H as (e & He & H). apply ok_or_Ok in Hrec, He. subst found. apply map_err_Ok in Hf. apply refuse_Ok, Z.ltb_ge in Hseq.
  unfold read_exact in Hf. apply bind_Ok in Hf as ([] & _ & Hf). apply bind_Ok in Hf as ([] & _ & Hf).
  destruct (load_header_by_event_id d _) as [h|] eqn:El; [|done]. case_match; [|done].
  destruct (record_from_header C h _) as [rec'|] eqn:Er; [|done]. cbn in Hf. injection Hf as ->.
  apply load_Some in El as (r & Hr & Hid & ->). apply list_elem_of_lookup in Hr as [j Hj].
  destruct (Forall2_lookup_l _ _ _ _ _ (rep_rows _ _ _ HR) Hj) as (x & Hx & Hentry).
  pose proof (list_elem_of_lookup_2 _ _ _ Hj) as Hin.
  assert (Hw : withdrawn x = None).
  { apply record_from_header_Ok in Er as (_ & ev & Hg & ->). cbn in He. subst ev.
    destruct (er_payload _ _ _ _ Hentry) as (p & _ & _ & Hw). destruct (withdrawn x) as [t|]; [|done]. destruct Hw as [Hw _].
    destruct Hg as [(q' & e' & Hq & _)|(q' & g & _ & _ & _ & _ & Hg)]; [|done]. cbn in Hq. congruence. }
  rewrite (record_of_entry C d r x) in Er by (done || by rewrite Hw). injection Er as <-.
  cbn in He, Hseq. rewrite Hw in He. injection He as <-.
  assert (Ho : row_organization_id r = scope_organization_id (manifest_scope m)).
  { rewrite (er_organization _ _ _ _ Hentry), <-Hsc. unfold validate_policy_event in H. apply refuse_Ok in H. split_bools.
    unfold entry_organization. by f_equal. }
  split.
  - apply Forall_forall. intros y Hy Hdec. apply list_elem_of_lookup in Hy as [i Hy].
    assert (y = x) as ->; [|done]. destruct (Forall2_lookup_r _ _ _ _ _ (rep_rows _ _ _ HR) Hy) as (ry & Hry & Ey).
    pose proof (rep_ids C d L HR) as Hids. pose proof (wf_ids C d Hd) as Hnd. unfold is_decision in Hdec. split_bools.
    assert (i = j) as ->; [|congruence]. apply (NoDup_lookup (row_event_id <$> audit_events d) i j (row_event_id r) Hnd).
    + rewrite Hids, list_lookup_fmap, Hy. cbn. unfold entry_id. f_equal. congruence.
    + by rewrite list_lookup_fmap, Hj.
  - assert (Hc : r ∈ chain d (scope_organization_id (manifest_scope m))) by (by apply chain_elem).
    apply list_elem_of_lookup in Hc as [i Hi]. exists i, r. split_and!; [done|by apply bool_decide_eq_true_2|].
    by rewrite <-(chain_at C d Hd _ i r Hi).
Qed.

(** ** A page and its verification *)

(** The digest after the first rows, the cursor and the state of the verification there. *)
Definition digest_at (l : list EventRow) (n : nat) : option string := row_event_digest <$> last (take n l).

Definition manifest_organization (m : AuditExportManifest) : string := scope_organization_id (manifest_scope m).

Definition cursor_at (q : AuditExportQuery) (l : list EventRow) (n : nat) : AuditExportCursor :=
  {| cursor_query_digest := query_digest q;
     cursor_checkpoint := checkpoint_for (manifest_organization (query_manifest q)) l;
     cursor_after_sequence := Z.of_nat n; cursor_previous_digest := digest_at l n |}.

Definition state_at (q : AuditExportQuery) (l : list EventRow) (n : nat) : AuditExportVerificationState :=
  {| verified_query_digest := query_digest q;
     verified_checkpoint := checkpoint_for (manifest_organization (query_manifest q)) l;
     verified_after_sequence := Z.of_nat n; verified_last_digest := digest_at l n;
     policy_event_verified := existsb (decided (query_manifest q)) (take n l);
     verified_complete := bool_decide (n = length l) |}.

Definition cursor_before (q : AuditExportQuery) (l : list EventRow) (n : nat) : option AuditExportCursor :=
  match n with O => None | S _ => Some (cursor_at q l n) end.

Definition state_before (q : AuditExportQuery) (l : list EventRow) (n : nat) : option AuditExportVerificationState :=
  match n with O => None | S _ => Some (state_at q l n) end.

Lemma digest_at_end l : digest_at l (length l) = row_event_digest <$> last l.
Proof. unfold digest_at. by rewrite take_ge by lia. Qed.

Lemma loop_between d o l k n j :
  audit_wf C d → chain d o = l ++ k → (n + j ≤ length l)%nat →
  verify_loop C (stored_header_row d <$> take j (drop n l)) (Z.of_nat n + 1) (digest_at l n) =
  Ok (Z.of_nat (n + j) + 1, digest_at l (n + j)).
Proof.
  intros Hd Hc Hn. pose proof (wf_verifies C d Hd o) as Hv. unfold headers in Hv.
  assert (Hend : ∀ i, chain_end (stored_header_row d <$> take i l) None = digest_at l i).
  { intros i. unfold chain_end, digest_at. rewrite fmap_last. by destruct (last (take i l)). }
  rewrite Hc, <-(take_drop (n + j) l), <-app_assoc, fmap_app in Hv at 1. apply verify_loop_app in Hv as (z & Hz & _).
  rewrite <-take_take_drop, fmap_app in Hz. pose proof Hz as Hall. rewrite <-fmap_app, take_take_drop in Hall.
  destruct z as [next final]. apply verify_loop_Ok in Hall as (-> & -> & _). apply verify_loop_app in Hz as ([e p] & Hp & Hz).
  apply verify_loop_Ok in Hp as (-> & -> & _). rewrite Hend, length_fmap, length_take_le in Hz by lia. cbn [fst snd] in Hz.
  rewrite Hend, length_fmap, length_take_le in Hz by lia. by rewrite !(Z.add_comm _ 1).
Qed.

Lemma made_records d m rows xs recs :
  audit_wf C d → entries C d rows xs → Forall2 (λ r rec, export_record C m (stored_header_row d r) = Ok rec) rows recs →
  recs = zip_with (export_of m) rows xs ∧ Forall (exportable m) xs.
Proof.
  intros Hd HE. revert recs. induction HE as [|r x rows xs [Hr Hx] _ IH]; intros recs HF; inversion HF as [|? rec ? recs' Hrec HF']; [done|].
  subst. apply (entry_record C d r x Hd Hr Hx) in Hrec as [He ->]. apply IH in HF' as [-> Hall]. split; [done|by constructor].
Qed.

(** The rows and the entries of a stretch of a chain. *)
Lemma stretch d L o l k n j :
  represents C d L → chain d o = l ++ k → (n + j ≤ length l)%nat →
  entries C d (take j (drop n l)) (take j (drop n (log_of L o))) ∧ Forall (λ r, row_organization_id r = o) (take j (drop n l)).
Proof.
  intros HR Hc Hn. pose proof (chain_log C d L o HR) as Hl.
  assert (Hsub : take j (drop n (chain d o)) = take j (drop n l)).
  { rewrite Hc, drop_app_le, take_app_le by (rewrite ?length_drop; lia). done. }
  split.
  - unfold entries. rewrite <-Hsub. apply Forall2_take, Forall2_drop.
    apply Forall2_same_length_lookup. split; [by eapply Forall2_length|]. intros i r x Hr Hx.
    split; [by apply list_elem_of_lookup_2, chain_elem in Hr as [? _]|by eapply Forall2_lookup_lr].
  - rewrite <-Hsub. apply Forall_take, Forall_drop, Forall_forall. by intros r [_ ?]%chain_elem.
Qed.

Lemma zip_last {A B D} (f : A → B → D) l k a :
  length l = length k → last l = Some a → ∃ b, last (zip_with f l k) = Some (f a b) ∧ last k = Some b.
Proof.
  intros Hlen Ha. rewrite last_lookup in Ha. destruct (lookup_lt_is_Some_2 k (pred (length l))) as [b Hb].
  { rewrite <-Hlen. by eapply lookup_lt_Some. }
  exists b. rewrite !last_lookup, length_zip_with, <-Hlen, Nat.min_id. split; [|done].
  by rewrite lookup_zip_with, Ha, Hb.
Qed.

(** The page with the records of a stretch. *)
Definition page_of (q : AuditExportQuery) (l : list EventRow) (n j : nat) (recs : list AuditExportRecord) (bytes : Z) : AuditExportPage :=
  {| export_manifest := query_manifest q; export_query_digest := query_digest q;
     export_checkpoint := checkpoint_for (manifest_organization (query_manifest q)) l;
     start_after_sequence := Z.of_nat n; start_previous_digest := digest_at l n; export_records := recs;
     export_record_bytes := bytes;
     export_next_cursor := if decide (n + j < length l)%nat then Some (cursor_at q l (n + j)) else None |}.

Lemma page_start_at q l n :
  page_start q (cursor_before q l n) =
  match n with
  | O => Ok (None, 0, None)
  | S _ => validate_cursor q (cursor_at q l n) ;;
           Ok (Some (checkpoint_for (manifest_organization (query_manifest q)) l), Z.of_nat n, digest_at l n)
  end.
Proof. by destruct n. Qed.

Record page_made (d : AuditDb) (L : list LogEntry) (q : AuditExportQuery) (l : list EventRow) (n j : nat) (bytes : Z) : Prop := {
  pm_some : (1 ≤ j)%nat;
  pm_within : (n + j ≤ length l)%nat;
  pm_scan : Z.of_nat j ≤ scan_records (manifest_limits (query_manifest q));
  pm_valid : manifest_validate C (query_manifest q) = Ok tt;
  pm_digest : manifest_digest C X (query_manifest q) = Ok (query_digest q);
  pm_policy : check_policy C d q (checkpoint_for (manifest_organization (query_manifest q)) l) = Ok tt;
  pm_exportable : Forall (exportable (query_manifest q)) (take j (drop n (log_of L (manifest_organization (query_manifest q)))));
  pm_sizes : record_sizes X (zip_with (export_of (query_manifest q)) (take j (drop n l))
               (take j (drop n (log_of L (manifest_organization (query_manifest q)))))) = Some bytes;
  pm_bytes : bytes ≤ max_record_bytes (manifest_limits (query_manifest q))
}.

(** The records of a page that was made. *)
Definition stretch_records (L : list LogEntry) (q : AuditExportQuery) (l : list EventRow) (n j : nat) : list AuditExportRecord :=
  zip_with (export_of (query_manifest q)) (take j (drop n l))
    (take j (drop n (log_of L (manifest_organization (query_manifest q))))).

Lemma export_page_Ok d L q l k n page :
  represents C d L → chain d (manifest_organization (query_manifest q)) = l ++ k → (n = 0%nat → k = []) → (n ≤ length l)%nat →
  export_page C X d q (cursor_before q l n) = Ok page →
  ∃ j bytes, page_made d L q l n j bytes ∧ page = page_of q l n j (stretch_records L q l n j) bytes.
Proof.
  intros HR Hc Hk Hn H. set (m := query_manifest q) in *. set (o := manifest_organization m) in *.
  pose proof (rep_wf _ _ _ HR) as Hd. unfold export_page in H. fold m in H.
  apply bind_Ok in H as ([] & Hval & H). apply bind_Ok in H as (g & Hg & H). apply bind_Ok in H as ([] & Eg & H).
  apply refuse_Ok in Eg. split_bools. subst g. destruct (manifest_facts m Hval) as (_ & Hscan & Hmax & _ & Hps & Ho).
  apply bind_Ok in H as ([[expected after] previous] & Hst & H).
  assert (Hstart : (expected = None ∧ k = [] ∨ expected = Some (checkpoint_for o l)) ∧ after = Z.of_nat n ∧ previous = digest_at l n).
  { rewrite page_start_at in Hst. destruct n as [|n]; [injection Hst as <- <- <-; auto|].
    apply bind_Ok in Hst as ([] & _ & Hst). injection Hst as <- <- <-. auto. }
  destruct Hstart as (Hex & -> & ->). apply bind_Ok in H as ([c hs] & Hsn & H). apply map_err_Ok in Hsn.
  rewrite (snapshot_of d o l k expected n _ Hd Ho Hc Hex Hn) in Hsn by lia. injection Hsn as <- <-.
  apply bind_Ok in H as ([] & Hpol & H). apply bind_Ok in H as ([recs bytes] & Hcol & H).
  destruct (policy_found d L q o _ HR eq_refl Hps Hpol) as (_ & i & ri & Hi & Hdi & Hle). cbn in Hle.
  apply collect_Ok in Hcol as (k' & new & b & Hnew & Hk' & HF & Hsz & -> & Hone & Hbound). cbn in Hnew. subst recs.
  rewrite length_fmap, length_take, length_drop in Hk'.
  assert (Hlt : (n < length l)%nat).
  { destruct n as [|n]; [lia|]. rewrite page_start_at in Hst. apply bind_Ok in Hst as ([] & Hcur & _).
    unfold validate_cursor in Hcur. apply bind_Ok in Hcur as ([] & _ & Hcur). apply bind_Ok in Hcur as ([] & Hcur & _).
    apply refuse_Ok in Hcur. split_bools. apply Z.eqb_neq in H1. cbn [cursor_at cursor_after_sequence cursor_checkpoint checkpoint_for checkpoint_last_sequence] in H1. lia. }
  rewrite <-fmap_take, take_take, Nat.min_l in HF by lia. apply Forall2_fmap_l in HF.
  destruct (stretch d L o l k n k' HR Hc ltac:(lia)) as [HE _]. destruct (made_records d m _ _ _ Hd HE HF) as [Hrecs Hexp].
  assert (Hk1 : (1 ≤ k')%nat).
  { apply Hone; [done|]. intros E. apply (f_equal length) in E. rewrite length_fmap, length_take, length_drop in E. cbn in E. lia. }
  exists k', b. split.
  - split; fold m; fold o; try done; try lia; [by rewrite <-Hrecs|]. assert (MAX_RECORD_BYTES < u64_max) by done.
    change b with (0 + b). apply Hbound; [lia|done|lia].
  - destruct (last (take k' (drop n l))) as [r|] eqn:El.
    2: { apply last_None, (f_equal length) in El. rewrite length_take, length_drop in El. cbn in El. lia. }
    destruct (zip_last (export_of m) _ _ r (Forall2_length _ _ _ HE) El) as (x & Hlast & _). rewrite <-Hrecs in Hlast.
    rewrite Hlast in H. cbn [export_of export_header header_of export_sequence export_event_digest] in H. injection H as <-.
    assert (Hr : l !! (n + k' - 1)%nat = Some r).
    { rewrite last_lookup, length_take_le in El by (rewrite length_drop; lia).
      rewrite lookup_take_lt, lookup_drop in El by lia. rewrite <-El. f_equal. lia. }
    assert (Hseq : row_sequence r = Z.of_nat (n + k')).
    { rewrite (chain_at C d Hd o (n + k' - 1) r); [lia|]. rewrite Hc. by apply lookup_app_l_Some. }
    assert (Hdig : digest_at l (n + k') = Some (row_event_digest r)).
    { unfold digest_at. rewrite last_lookup, length_take_le by lia. rewrite lookup_take_lt by lia.
      replace (pred (n + k')) with (n + k' - 1)%nat by lia. by rewrite Hr. }
    unfold page_of, stretch_records. fold m o. f_equal; [exact Hrecs|]. rewrite Hseq. cbn [checkpoint_for checkpoint_last_sequence].
    unfold cursor_at. fold m o. rewrite Hdig. destruct (decide (n + k' < length l)%nat).
    + by rewrite (proj2 (Z.ltb_lt _ _)) by lia.
    + by rewrite (proj2 (Z.ltb_ge _ _)) by lia.
Qed.

(** The verifier accepts it after the pages before it. *)
Lemma page_verified d L q l k n j bytes :
  represents C d L → chain d (manifest_organization (query_manifest q)) = l ++ k → page_made d L q l n j bytes →
  verify_page C X (page_of q l n j (stretch_records L q l n j) bytes) (state_before q l n) = Ok (state_at q l (n + j)).
Proof.
  intros HR Hc [Hone Hin Hscan Hval Hdig Hpol Hexp Hsz Hb]. set (m := query_manifest q) in *. set (o := manifest_organization m) in *.
  pose proof (rep_wf _ _ _ HR) as Hd. destruct (manifest_facts m Hval) as (_ & Hs & Hmax & _ & Hps & _).
  destruct (policy_found d L q o _ HR eq_refl Hps Hpol) as (Hkept & i & ri & Hi & Hdi & Hle). cbn [checkpoint_for checkpoint_last_sequence] in Hle.
  destruct (stretch d L o l k n j HR Hc Hin) as [HE Ho].
  unfold verify_page. cbn [page_of export_manifest export_query_digest]. fold m. rewrite Hval. cbn [mbind result_bind].
  rewrite Hdig. cbn [mbind result_bind]. rewrite refuse_run by apply differs_refl.
  assert (Hstart : verification_start (page_of q l n j (stretch_records L q l n j) bytes) (query_digest q) (state_before q l n) =
    Ok (Z.of_nat n, digest_at l n, existsb (decided m) (take n l))).
  { destruct n as [|n]; [done|]. cbn [state_before verification_start]. rewrite refuse_run; [done|].
    cbn [state_at verified_complete verified_query_digest verified_checkpoint verified_after_sequence verified_last_digest
         page_of export_checkpoint start_after_sequence start_previous_digest].
    rewrite !differs_refl, bool_decide_eq_false_2 by lia. done. }
  rewrite Hstart. cbn [mbind result_bind page_of export_checkpoint export_records].
  assert (Hlen : length (stretch_records L q l n j) = j).
  { unfold stretch_records. fold m. fold o. rewrite length_zip_with, <-(Forall2_length _ _ _ HE), Nat.min_id, length_take_le; [done|].
    rewrite length_drop. lia. }
  rewrite refuse_run.
  2: { cbn [checkpoint_for checkpoint_organization_id]. change (scope_organization_id (manifest_scope m)) with o.
       rewrite Hlen. unfold o. rewrite differs_refl. apply Z.ltb_ge. lia. }
  assert (MAX_RECORD_BYTES < u64_max) by done. pose proof (loop_between d o l k n j Hd Hc Hin) as Hloop.
  unfold stretch_records. fold m. fold o.
  rewrite (verify_made C X d m _ _ _ _ (existsb (decided m) (take n l)) 0 _ bytes Hd HE Hloop); [|done| |done|lia].
  2: { apply Forall_forall. intros y Hy. split; [by eapply (proj1 (Forall_forall _ _) Hexp)|].
       apply (proj1 (Forall_forall _ _) Hkept). apply elem_of_take in Hy as (a & Ha & _). rewrite lookup_drop in Ha.
       apply list_elem_of_lookup_2, list_elem_of_filter in Ha as [_ Ha]. exact Ha. }
  cbn [mbind result_bind snd]. rewrite Z.add_0_l, <-existsb_app, take_take_drop, length_take_le by (rewrite length_drop; lia).
  cbn [page_of export_record_bytes]. rewrite Z.eqb_refl. rewrite refuse_run by (cbn; apply Z.ltb_ge; lia).
  replace (Z.of_nat n + Z.of_nat j) with (Z.of_nat (n + j)) by lia.
  assert (Hend : verify_end (page_of q l n j (zip_with (export_of m) (take j (drop n l)) (take j (drop n (log_of L o)))) bytes)
    (query_digest q) (Z.of_nat (n + j)) (digest_at l (n + j)) (existsb (decided m) (take (n + j) l)) = Ok tt).
  { unfold verify_end. cbn [page_of export_next_cursor export_checkpoint]. fold m. fold o.
    destruct (decide (n + j < length l)%nat) as [Hlt|Hge].
    - cbn [cursor_at cursor_query_digest cursor_checkpoint cursor_after_sequence cursor_previous_digest]. fold m. fold o.
      by rewrite !differs_refl.
    - assert (n + j = length l)%nat as -> by lia. rewrite digest_at_end. cbn [checkpoint_for checkpoint_last_sequence checkpoint_last_digest].
      rewrite !differs_refl. cbn [orb refuse mbind result_bind]. rewrite take_ge by lia.
      assert (existsb (decided m) l = true) as ->; [|done]. apply existsb_exists. exists ri. split; [|done].
      apply list_elem_of_In. apply (list_elem_of_lookup_2 _ i). rewrite Hc, lookup_app_l in Hi by lia. exact Hi. }
  rewrite Hend. cbn [mbind result_bind export_next_cursor page_of]. unfold state_at. fold m. fold o. do 2 f_equal.
  apply bool_decide_ext. destruct (decide (n + j < length l)%nat); split; [done|lia|lia|done].
Qed.
End pages.

(** ** What a record shows of an event *)

Lemma event_matches_normal m e : event_matches m (normal e) = event_matches m e.
Proof.
  unfold event_matches. destruct (manifest_subject m) as [f|]; [|done]. unfold filter_matches.
  change (subject (normal e)) with (normal_subject (subject e)). by destruct f, (subject e) as [[|] [|] [|] [|]| | | |].
Qed.

(** The record has the identifier and the time of the event.  When the query asks for the event,
    it has the event or, without a filter by subject, the proof that it was deleted between the
    end of its retention and the time of the query; otherwise it is a mere header, unless it is
    the decision of the query. *)
Definition shows (m : AuditExportManifest) (rec : AuditExportRecord) (e : AuditEvent) : Prop :=
  export_event_id (export_header rec) = event_id e ∧
  export_occurred_at_millis (export_header rec) = occurred_at_millis e ∧
  match export_content rec with
  | ExportWitness => asked m e = false ∧ export_included rec = false
  | ExportEvent found =>
      normal found = normal e ∧ asked m e || is_decision m e = true ∧
      export_included rec = asked m e && event_matches m e ∧ export_references rec = artifact_references e
  | ExportDeletion proof =>
      asked m e = true ∧ manifest_subject m = None ∧ export_included rec = true ∧
      ∃ u, retention e = UntilMillis u ∧ u ≤ deletion_pruned_at_millis proof ≤ manifest_as_of_millis m
  end.

Section visits.
Context (C : AuditCodec) (X : ExportCodec) `{!AuditCodecLaws C}.

Lemma withdrawn_after d r x t :
  audit_wf C d → r ∈ audit_events d → entry_row C d r x → withdrawn x = Some t →
  ∃ u, retention (logged x) = UntilMillis u ∧ u ≤ t.
Proof.
  intros Hd Hr Hx Ht. destruct (er_payload _ _ _ _ Hx) as (p & _ & _ & Hw). rewrite Ht in Hw. destruct Hw as [_ Hw].
  destruct (row_intact C d Hd r Hr) as [a (_ & ev & Hg & _)%record_from_header_Ok].
  destruct Hg as [(q & e & _ & Hg & _)|(q & g & _ & Hg & _ & Ha & _)]; cbn in Hg; rewrite Hw in Hg; [done|]. cbn in Hg. injection Hg as <-.
  unfold tombstone_authorizes in Ha. cbn in Ha. pose proof (facts_Ok _ _ (er_facts _ _ _ _ Hx)) as (_ & _ & Fk & _). cbn in Fk.
  destruct (row_retention_until_millis r) as [u|]; [|done]. destruct Fk as [(_ & Fk & _)|(_ & Fk & _)]; [|done].
  destruct (retention (logged x)) as [v|]; [|done]. injection Fk as <-. exists u. split_bools. split; [done|lia].
Qed.

Lemma made_shows d m rows xs :
  audit_wf C d → entries C d rows xs → Forall (exportable m) xs →
  Forall2 (shows m) (zip_with (export_of m) rows xs) (logged <$> xs).
Proof.
  intros Hd HE. induction HE as [|r x rows xs [Hr Hx] _ IH]; intros Hexp; [constructor|].
  apply Forall_cons in Hexp as [He Hexp]. cbn [zip_with fmap list_fmap]. constructor; [|by apply IH].
  split; [done|]. split; [done|]. unfold exportable in He. unfold export_of, content_of. cbn [export_content export_included export_references].
  change (asked m (normal (logged x))) with (asked m (logged x)).
  change (is_decision m (normal (logged x))) with (is_decision m (logged x)).
  destruct (withdrawn x) as [t|] eqn:Ew.
  - destruct (asked m (logged x)) eqn:Ea; [|done]. destruct He as [_ He]. destruct (He eq_refl) as [Hs Ht].
    destruct (withdrawn_after d r x t Hd Hr Hx Ew) as (u & Hu & Hle). cbn. split_and!; try done. exists u. split; [done|lia].
  - destruct (asked m (logged x) || is_decision m (logged x)) eqn:Ea; cbn [fst snd].
    + split_and!; [apply normal_idem|done|by rewrite event_matches_normal|done].
    + by apply orb_false_iff in Ea as [-> _].
Qed.

(** ** The log only grows *)

Lemma step_logged s c : (logged <$> s.2) `prefix_of` (logged <$> (audit_step C s c).2).
Proof.
  destruct c as [e|now]; cbn [audit_step].
  - destruct (append C s.1 e) as [d' [rec|err]]; cbn [snd]; [|done]. unfold log_append. destruct (decide _); [done|].
    rewrite fmap_app. by apply prefix_app_r.
  - destruct (prune_expired_payloads C s.1 now) as [d' [n|err]]; cbn [snd]; [|done]. unfold log_prune. rewrite <-list_fmap_compose.
    assert (logged ∘ withdraw now <$> s.2 = logged <$> s.2) as ->; [|done]. apply list_fmap_ext. intros i x _. cbn.
    unfold withdraw. destruct (withdrawn x); [done|]. by destruct (decide _).
Qed.

Lemma run_logged calls s : (logged <$> s.2) `prefix_of` (logged <$> (audit_run C calls s).2).
Proof. revert s. induction calls as [|c calls IH]; intros s; [done|]. cbn. etrans; [apply (step_logged s c)|apply IH]. Qed.

Lemma logged_of L o : logged <$> log_of L o = filter (λ e, scope_organization_id (scope e) = o) (logged <$> L).
Proof. unfold log_of. by rewrite filter_fmap. Qed.

Lemma run_logged_of calls s o : (logged <$> log_of s.2 o) `prefix_of` (logged <$> log_of (audit_run C calls s).2 o).
Proof. rewrite !logged_of. destruct (run_logged calls s) as [k ->]. rewrite filter_app. by apply prefix_app_r. Qed.

(** ** Exports *)

(** A client that exports: other calls come to the store before each page is asked for. *)
Fixpoint export_visits (s : AuditDb * list LogEntry) (q : AuditExportQuery) (cursor : option AuditExportCursor)
    (visits : list (list AuditCall)) : exported (list AuditExportPage) :=
  match visits with
  | [] => Ok []
  | calls :: visits =>
      let s := audit_run C calls s in
      page ← export_page C X s.1 q cursor;
      match export_next_cursor page with
      | None => Ok [page]
      | Some cursor => pages ← export_visits s q (Some cursor) visits; Ok (page :: pages)
      end
  end.

(** The verification of pages in their order. *)
Fixpoint verify_pages (pages : list AuditExportPage) (previous : option AuditExportVerificationState) :
    exported (option AuditExportVerificationState) :=
  match pages with
  | [] => Ok previous
  | page :: pages => s ← verify_page C X page previous; verify_pages pages (Some s)
  end.

(** One page at a store whose chain has grown from [l]. *)
Lemma visit_page d L q l k es n page :
  represents C d L → chain d (manifest_organization (query_manifest q)) = l ++ k → (n = 0%nat → k = []) → (n ≤ length l)%nat →
  es `prefix_of` (logged <$> log_of L (manifest_organization (query_manifest q))) → length es = length l →
  export_page C X d q (cursor_before q l n) = Ok page →
  ∃ j, (1 ≤ j)%nat ∧ (n + j ≤ length l)%nat ∧
    export_next_cursor page = (if decide (n + j < length l)%nat then Some (cursor_at q l (n + j)) else None) ∧
    verify_page C X page (state_before q l n) = Ok (state_at q l (n + j)) ∧
    Forall2 (shows (query_manifest q)) (export_records page) (take j (drop n es)).
Proof.
  intros HR Hc Hk Hn [es' Hes] Hlen Hp. destruct (export_page_Ok C X d L q l k n page HR Hc Hk Hn Hp) as (j & bytes & Hm & ->).
  pose proof (pm_within _ _ _ _ _ _ _ _ _ Hm) as Hin. exists j. split; [apply Hm|]. split; [done|]. split; [done|].
  split; [by eapply page_verified|]. cbn [page_of export_records]. unfold stretch_records.
  destruct (stretch C d L _ l k n j HR Hc Hin) as [HE _].
  pose proof (made_shows d _ _ _ (rep_wf _ _ _ HR) HE (pm_exportable _ _ _ _ _ _ _ _ _ Hm)) as HS.
  rewrite fmap_take, fmap_drop, Hes, drop_app_le, take_app_le in HS by (rewrite ?length_drop; lia). exact HS.
Qed.

Lemma visits_accepted q l es visits s k n pages :
  represents C s.1 s.2 → chain s.1 (manifest_organization (query_manifest q)) = l ++ k → (0 < n < length l)%nat →
  es `prefix_of` (logged <$> log_of s.2 (manifest_organization (query_manifest q))) → length es = length l →
  export_visits s q (Some (cursor_at q l n)) visits = Ok pages →
  ∃ j, (length pages ≤ j)%nat ∧ (n + j ≤ length l)%nat ∧ ((n + j < length l)%nat → length pages = length visits) ∧
    verify_pages pages (Some (state_at q l n)) = Ok (Some (state_at q l (n + j))) ∧
    Forall2 (shows (query_manifest q)) (pages ≫= export_records) (take j (drop n es)).
Proof.
  revert s k n pages. induction visits as [|calls visits IH]; intros s k n pages HR Hc Hn Hes Hlen H; cbn [export_visits] in H.
  { injection H as <-. exists 0%nat. rewrite Nat.add_0_r. split_and!; try done; lia. }
  pose proof (run_represents C calls s HR) as HR'. set (s' := audit_run C calls s) in *.
  apply bind_Ok in H as (page & Hp & H).
  destruct (run_chain C calls s (manifest_organization (query_manifest q)) HR) as [more Hmore]. fold s' in Hmore.
  rewrite Hc, <-app_assoc in Hmore. assert (Hes' : es `prefix_of` (logged <$> log_of s'.2 (manifest_organization (query_manifest q)))) by (etrans; [exact Hes|apply run_logged_of]).
  assert (Hcur : Some (cursor_at q l n) = cursor_before q l n ∧ Some (state_at q l n) = state_before q l n) by (by destruct n; [lia|]).
  destruct Hcur as [Hcur Hst]. rewrite Hcur in Hp.
  destruct (visit_page s'.1 s'.2 q l (k ++ more) es n page HR' Hmore ltac:(lia) ltac:(lia) Hes' Hlen Hp)
    as (j & Hj & Hin & Hnext & Hv & HS). rewrite Hnext in H. rewrite Hst.
  destruct (decide (n + j < length l)%nat) as [Hlt|Hge].
  - apply bind_Ok in H as (rest & Hrest & [= <-]).
    destruct (IH s' (k ++ more) (n + j)%nat rest HR' Hmore ltac:(lia) Hes' Hlen Hrest) as (i & Hi & Hin' & Hmax & Hvs & HSs).
    exists (j + i)%nat. cbn [length verify_pages mbind list_bind]. rewrite Hv. cbn [mbind result_bind]. rewrite Nat.add_assoc.
    split_and!; [lia|lia| |done|]. { intros Hl. by rewrite (Hmax Hl). }
    rewrite <-take_take_drop, drop_drop. apply Forall2_app; [done|]. exact HSs.
  - injection H as <-. exists j. cbn [length verify_pages mbind list_bind]. rewrite Hv, app_nil_r. cbn [mbind result_bind].
    split_and!; try done; lia.
Qed.

(** The whole export, from the first page. *)
Lemma export_from_start q calls visits s pages :
  represents C s.1 s.2 → export_visits s q None (calls :: visits) = Ok pages →
  let o := manifest_organization (query_manifest q) in
  let t := audit_run C calls s in
  ∃ n, (1 ≤ length pages ≤ n)%nat ∧ (n ≤ length (log_of t.2 o))%nat ∧
    ((n < length (log_of t.2 o))%nat → length pages = S (length visits)) ∧
    verify_pages pages None = Ok (Some (state_at q (chain t.1 o) n)) ∧
    Forall2 (shows (query_manifest q)) (pages ≫= export_records) (take n (logged <$> log_of t.2 o)).
Proof.
  intros HR H o t. cbn [export_visits] in H. pose proof (run_represents C calls s HR) as HR'. fold t in HR', H.
  apply bind_Ok in H as (page & Hp & H). pose proof (rep_length C t.1 t.2 o HR') as Hlen. set (l := chain t.1 o) in *.
  destruct (visit_page t.1 t.2 q l [] (logged <$> log_of t.2 o) 0 page HR') as (j & Hj & Hin & Hnext & Hv & HS);
    [by rewrite app_nil_r|done|lia|done|by rewrite length_fmap|done|].
  cbn [state_before Nat.add] in Hv, Hin, Hnext. rewrite drop_0 in HS. rewrite Hnext in H.
  destruct (decide (j < length l)%nat) as [Hlt|Hge].
  - apply bind_Ok in H as (rest & Hrest & [= <-]).
    destruct (visits_accepted q l (logged <$> log_of t.2 o) visits t [] j rest HR') as (i & Hi & Hin' & Hmax & Hvs & HSs);
      [by rewrite app_nil_r|lia|done|by rewrite length_fmap|done|].
    exists (j + i)%nat. cbn [length verify_pages mbind list_bind]. rewrite Hv. cbn [mbind result_bind].
    split_and!; [lia|lia|lia| |done|].
    + intros Hl. rewrite Hmax by lia. done.
    + rewrite <-take_take_drop. apply Forall2_app; [done|]. exact HSs.
  - injection H as <-. exists j. cbn [length verify_pages mbind list_bind]. rewrite Hv, app_nil_r. cbn [mbind result_bind].
    split_and!; try done; lia.
Qed.

(** ** An export that goes through *)

(** What [AuditExportQuery::try_new] and [with_subject] establish. *)
Record query_ok (q : AuditExportQuery) : Prop := {
  qo_valid : manifest_validate C (query_manifest q) = Ok tt;
  qo_digest : manifest_digest C X (query_manifest q) = Ok (query_digest q);
  qo_scope : access_scope (query_access q) = manifest_scope (query_manifest q)
}.

Lemma query_try_new_ok access range as_of limits plan id q :
  query_try_new C X access range as_of limits plan id = Ok q → query_ok q.
Proof.
  unfold query_try_new. intros H. apply bind_Ok in H as ([] & Hv & H). apply bind_Ok in H as (g & Hg & H).
  injection H as <-. by split.
Qed.

(** Every entry of the organisation can be shown, in a record that fits. *)
Definition ready (s : AuditDb * list LogEntry) (m : AuditExportManifest) : Prop :=
  ∀ x, x ∈ log_of s.2 (manifest_organization m) → exportable m x ∧
    ∀ r, r ∈ audit_events s.1 → entry_row C s.1 r x →
      ∃ enc, encode_record X (export_of m r x) = Ok enc ∧ str_len enc ≤ max_record_bytes (manifest_limits m).

Fixpoint visits_ready (s : AuditDb * list LogEntry) (m : AuditExportManifest) (visits : list (list AuditCall)) : Prop :=
  match visits with
  | [] => True
  | calls :: visits => ready (audit_run C calls s) m ∧ visits_ready (audit_run C calls s) m visits
  end.

Lemma policy_passes d L q e i l k :
  represents C d L → query_ok q → chain d (manifest_organization (query_manifest q)) = l ++ k →
  ready (d, L) (query_manifest q) → (logged <$> log_of L (manifest_organization (query_manifest q))) !! i = Some e → (i < length l)%nat →
  validate_policy_event (manifest_policy (query_manifest q)) (normal e) = Ok tt →
  check_policy C d q (checkpoint_for (manifest_organization (query_manifest q)) l) = Ok tt.
Proof.
  intros HR [Hval _ Hacc] Hc Hready Hi Hlt Hpol. set (m := query_manifest q) in *. set (o := manifest_organization m) in *.
  destruct (manifest_facts C m Hval) as (Hs & _ & _ & Has & Hps & _). pose proof (rep_wf _ _ _ HR) as Hd.
  rewrite list_lookup_fmap in Hi. apply fmap_Some in Hi as (x & Hx & ->).
  destruct (Forall2_lookup_r _ _ _ _ _ (chain_log C d L o HR) Hx) as (r & Hr & He).
  pose proof (chain_at C d Hd o i r Hr) as Hseq. apply list_elem_of_lookup_2, chain_elem in Hr as [Hr _].
  assert (Hin : x ∈ log_of L o) by (by eapply list_elem_of_lookup_2). destruct (Hready x Hin) as [Hexp _].
  pose proof Hpol as Hparts. unfold validate_policy_event in Hparts. apply refuse_Ok in Hparts. split_bools.
  assert (Hid : entry_id x = proof_audit_event_id (manifest_policy m)) by done.
  assert (Hw : withdrawn x = None).
  { unfold exportable in Hexp. destruct (withdrawn x); [|done]. destruct Hexp as [Hexp _]. unfold is_decision in Hexp. by split_bools. }
  apply list_elem_of_filter in Hin as [_ Hin]. apply list_elem_of_lookup in Hin as [j Hj].
  destruct (Forall2_lookup_r _ _ _ _ _ (rep_rows _ _ _ HR) Hj) as (r' & Hr' & He').
  assert (r' = r) as ->.
  { apply (row_id_inj C d Hd); [by eapply list_elem_of_lookup_2|done|].
    pose proof (facts_Ok _ _ (er_facts _ _ _ _ He)) as (E1 & _). pose proof (facts_Ok _ _ (er_facts _ _ _ _ He')) as (E2 & _).
    cbn in E1, E2. congruence. }
  unfold check_policy. fold m. rewrite <-Hid. destruct (query_access q) as [sc] eqn:Eacc. cbn in Hacc. subst sc.
  change {| access_scope := manifest_scope m |} with (into_access (manifest_scope m)).
  rewrite (read_entry C d L j x r (manifest_scope m) (manifest_as_of_millis m) HR Hr' He Hs).
  2: { by rewrite Hw. } 2: { assert (MAX_SAFE_INTEGER ≤ i64_max) by done. lia. }
  assert (scope_covers (manifest_scope m) (scope (logged x)) = true) as ->.
  { assert (scope (logged x) = manifest_scope m) as -> by (by rewrite <-Hps). unfold scope_covers, scope_admits.
    rewrite bool_decide_eq_true_2 by done. by destruct (manifest_scope m); cbn; rewrite ?bool_decide_eq_true_2 by done. }
  cbn [map_err ok_or mbind result_bind row_record record_sequence record_event checkpoint_for checkpoint_last_sequence].
  rewrite refuse_run by (apply Z.ltb_ge; lia). rewrite Hw. cbn [ok_or mbind result_bind]. exact Hpol.
Qed.

Lemma page_total d L q l k n e i :
  represents C d L → query_ok q → chain d (manifest_organization (query_manifest q)) = l ++ k → (n = 0%nat → k = []) →
  (n < length l)%nat → ready (d, L) (query_manifest q) →
  (logged <$> log_of L (manifest_organization (query_manifest q))) !! i = Some e → (i < length l)%nat →
  validate_policy_event (manifest_policy (query_manifest q)) (normal e) = Ok tt →
  ∃ page, export_page C X d q (cursor_before q l n) = Ok page.
Proof.
  intros HR Hq Hc Hk Hn Hready Hi Hlt Hpol. pose proof (policy_passes d L q e i l k HR Hq Hc Hready Hi Hlt Hpol) as Hcheck.
  destruct Hq as [Hval Hdig _]. set (m := query_manifest q) in *. set (o := manifest_organization m) in *.
  destruct (manifest_facts C m Hval) as (_ & Hscan & Hmax & _ & _ & Ho). pose proof (rep_wf _ _ _ HR) as Hd.
  unfold export_page. fold m. rewrite Hval. cbn [mbind result_bind]. rewrite Hdig. cbn [mbind result_bind].
  rewrite refuse_run by apply differs_refl.
  assert (Hstart : ∃ expected, page_start q (cursor_before q l n) = Ok (expected, Z.of_nat n, digest_at l n) ∧
    (expected = None ∧ k = [] ∨ expected = Some (checkpoint_for o l))).
  { rewrite page_start_at. destruct n as [|n]; [exists None; auto|]. exists (Some (checkpoint_for o l)). split; [|by right].
    destruct (lookup_lt_is_Some_2 l n ltac:(lia)) as [r Hr].
    assert (Hdg : digest_at l (S n) = Some (row_event_digest r)).
    { unfold digest_at. rewrite (take_S_r l n r) by done. by rewrite last_snoc. }
    assert (Hrin : r ∈ audit_events d).
    { apply (chain_elem d o r). rewrite Hc. apply elem_of_app. left. by eapply list_elem_of_lookup_2. }
    pose proof (sealed_event_digest C _ (intact_sealed C _ (row_intact C d Hd r Hrin))) as Hsh. apply audit_digest_Ok in Hsh. cbn in Hsh.
    unfold validate_cursor, export_validate_digest. cbn [cursor_at cursor_query_digest cursor_checkpoint cursor_after_sequence cursor_previous_digest].
    assert (sha256_shape (query_digest q) = true) as ->.
    { unfold manifest_digest in Hdig. apply bind_Ok in Hdig as (b & _ & [= <-]). apply hash_is_digest. }
    cbn [negb refuse mbind result_bind]. fold m. fold o. rewrite Hdg. cbn [checkpoint_for checkpoint_organization_id checkpoint_last_sequence].
    change (scope_organization_id (manifest_scope m)) with o. rewrite !differs_refl.
    rewrite (proj2 (Z.ltb_ge _ _)), (proj2 (Z.eqb_neq (Z.of_nat (S n)) 0)), (proj2 (Z.eqb_neq (Z.of_nat (S n)) (Z.of_nat (length l)))) by lia.
    cbn. by rewrite Hsh. }
  destruct Hstart as (expected & -> & Hex). cbn [mbind result_bind].
  rewrite (snapshot_of C d o l k expected n _ Hd Ho Hc Hex) by lia. cbn [map_err mbind result_bind]. rewrite Hcheck. cbn [mbind result_bind].
  destruct (collect_total C X m (stored_header_row d <$> take (Z.to_nat (scan_records (manifest_limits m))) (drop n l)) [] 0) as [[recs bytes] ->].
  - apply Forall_fmap, Forall_forall. intros r Hr. apply elem_of_take in Hr as (a & Ha & _). rewrite lookup_drop in Ha.
    assert (Ha' : chain d o !! (n + a)%nat = Some r) by (rewrite Hc; by apply lookup_app_l_Some).
    destruct (Forall2_lookup_l _ _ _ _ _ (chain_log C d L o HR) Ha') as (x & Hx & He).
    apply list_elem_of_lookup_2 in Hx. apply list_elem_of_lookup_2, chain_elem in Ha' as [Hr _].
    destruct (Hready x Hx) as [Hexp Hfit]. destruct (Hfit r Hr He) as (enc & Henc & Hle).
    exists (export_of m r x), enc. split_and!; [|done|done]. by apply (entry_record C d r x Hd Hr He).
  - lia.
  - done.
  - lia.
  - cbn [mbind result_bind]. destruct (last recs); eauto.
Qed.

Lemma visits_total q l es e i visits s k n :
  represents C s.1 s.2 → query_ok q → chain s.1 (manifest_organization (query_manifest q)) = l ++ k → (0 < n < length l)%nat →
  es `prefix_of` (logged <$> log_of s.2 (manifest_organization (query_manifest q))) → length es = length l →
  es !! i = Some e → validate_policy_event (manifest_policy (query_manifest q)) (normal e) = Ok tt →
  visits_ready s (query_manifest q) visits → ∃ pages, export_visits s q (Some (cursor_at q l n)) visits = Ok pages.
Proof.
  intros HR Hq Hc Hn Hes Hlen Hi Hpol. revert s k n HR Hc Hn Hes.
  induction visits as [|calls visits IH]; intros s k n HR Hc Hn Hes Hready; cbn [export_visits]; [eauto|].
  destruct Hready as [Hready Hrest]. pose proof (run_represents C calls s HR) as HR'. set (s' := audit_run C calls s) in *.
  destruct (run_chain C calls s (manifest_organization (query_manifest q)) HR) as [more Hmore]. fold s' in Hmore.
  rewrite Hc, <-app_assoc in Hmore.
  assert (Hes' : es `prefix_of` (logged <$> log_of s'.2 (manifest_organization (query_manifest q)))) by (etrans; [exact Hes|apply run_logged_of]).
  assert (Hcur : Some (cursor_at q l n) = cursor_before q l n) by (by destruct n; [lia|]). rewrite Hcur.
  destruct (page_total s'.1 s'.2 q l (k ++ more) n e i HR' Hq Hmore) as [page Hp]; [lia|lia| | | |done|].
  { by destruct s'. } { destruct Hes' as [es' ->]. by apply lookup_app_l_Some. } { rewrite <-Hlen. by eapply lookup_lt_Some. }
  rewrite Hp. cbn [mbind result_bind].
  destruct (visit_page s'.1 s'.2 q l (k ++ more) es n page HR' Hmore ltac:(lia) ltac:(lia) Hes' Hlen Hp) as (j & Hj & Hin & -> & _).
  destruct (decide (n + j < length l)%nat); [|eauto].
  destruct (IH s' (k ++ more) (n + j)%nat HR' Hmore ltac:(lia) Hes' Hrest) as [pages ->]. cbn. eauto.
Qed.

Lemma start_total q e calls visits s :
  represents C s.1 s.2 → query_ok q → visits_ready s (query_manifest q) (calls :: visits) →
  e ∈ logged <$> log_of (audit_run C calls s).2 (manifest_organization (query_manifest q)) →
  validate_policy_event (manifest_policy (query_manifest q)) (normal e) = Ok tt →
  ∃ pages, export_visits s q None (calls :: visits) = Ok pages.
Proof.
  intros HR Hq [Hready Hrest] [i Hi]%list_elem_of_lookup Hpol. cbn [export_visits].
  pose proof (run_represents C calls s HR) as HR'. set (t := audit_run C calls s) in *.
  set (o := manifest_organization (query_manifest q)) in *. pose proof (rep_length C t.1 t.2 o HR') as Hlen. set (l := chain t.1 o) in *.
  assert (Hil : (i < length l)%nat) by (apply lookup_lt_Some in Hi; rewrite length_fmap in Hi; lia).
  destruct (page_total t.1 t.2 q l [] 0 e i HR' Hq) as [page Hp]; [by rewrite app_nil_r|done|lia|by destruct t|done|done|done|].
  cbn [cursor_before] in Hp. rewrite Hp. cbn [mbind result_bind].
  destruct (visit_page t.1 t.2 q l [] (logged <$> log_of t.2 o) 0 page HR') as (j & Hj & Hin & Hnext & _);
    [by rewrite app_nil_r|done|lia|done|by rewrite length_fmap|done|].
  rewrite Hnext. cbn [Nat.add] in *. destruct (decide (j < length l)%nat); [|eauto].
  destruct (visits_total q l (logged <$> log_of t.2 o) e i visits t [] j HR' Hq) as [pages ->]; try done;
    [by rewrite app_nil_r|by rewrite length_fmap|]. cbn. eauto.
Qed.
End visits.

(** ** What an accepted export fixes *)

(** The columns of a header are unsigned integers, and texts whose lengths are 64-bit integers. *)
Record header_fits (h : AuditExportHeader) : Prop := {
  hf_sequence : 0 ≤ export_sequence h ≤ u64_max;
  hf_occurred : 0 ≤ export_occurred_at_millis h;
  hf_until u : export_retention h = UntilMillis u → 0 ≤ u;
  hf_event_id : fits_u64 (export_event_id h);
  hf_organization : fits_u64 (scope_organization_id (export_scope h));
  hf_workspace : fits_u64 (default "" (scope_workspace_id (export_scope h)));
  hf_project : fits_u64 (default "" (scope_project_id (export_scope h)));
  hf_repository : fits_u64 (default "" (scope_repository_id (export_scope h)))
}.

Section genuine.
Context (C : AuditCodec) (X : ExportCodec).

Definition page_fits (p : AuditExportPage) : Prop :=
  (∀ encoded, manifest_to_vec X (export_manifest p) = Some encoded → fits_u64 encoded) ∧
  Forall (λ r, header_fits (export_header r)) (export_records p).

(** What the verification of a record and of a page hashes. *)
Definition record_hashed (r : AuditExportRecord) : list string :=
  export_message (export_header r) ::
  match export_content r with
  | ExportEvent e => match event_to_vec C e with Ok p => [p] | Err _ => [] end
  | _ => []
  end.

Definition page_hashed (p : AuditExportPage) : list string :=
  match manifest_to_vec X (export_manifest p) with Some encoded => [manifest_message encoded] | None => [] end ++
  (export_records p ≫= record_hashed).

(** ** The records that were accepted *)

Definition accepted (m : AuditExportManifest) (r : AuditExportRecord) (n : Z) (previous : option string) : Prop :=
  let h := export_header r in
  export_sequence h = n + 1 ∧ export_previous_digest h = previous ∧
  scope_organization_id (export_scope h) = manifest_organization m ∧ verify_record C m r = Ok tt ∧
  export_chain_digest C h = Ok (export_event_digest h).

Fixpoint linked (m : AuditExportManifest) (recs : list AuditExportRecord) (n : Z) (previous : option string) : Prop :=
  match recs with
  | [] => True
  | r :: recs => accepted m r n previous ∧ linked m recs (n + 1) (Some (export_event_digest (export_header r)))
  end.

Definition end_digest (recs : list AuditExportRecord) (previous : option string) : option string :=
  match last recs with Some r => Some (export_event_digest (export_header r)) | None => previous end.

Lemma end_digest_cons r recs previous :
  end_digest (r :: recs) previous = end_digest recs (Some (export_event_digest (export_header r))).
Proof. unfold end_digest. rewrite last_cons. by destruct (last recs). Qed.

Lemma end_digest_app l k previous : end_digest (l ++ k) previous = end_digest k (end_digest l previous).
Proof. revert previous. induction l as [|r l IH]; intros previous; [done|]. by rewrite <-app_comm_cons, !end_digest_cons, IH. Qed.

Lemma records_linked_app m l k n previous :
  linked m (l ++ k) n previous ↔ linked m l n previous ∧ linked m k (n + Z.of_nat (length l)) (end_digest l previous).
Proof.
  revert n previous. induction l as [|r l IH]; intros n previous.
  - cbn. rewrite Z.add_0_r. naive_solver.
  - rewrite <-app_comm_cons. cbn [linked]. rewrite IH, end_digest_cons. cbn [length]. rewrite Nat2Z.inj_succ.
    replace (n + 1 + Z.of_nat (length l)) with (n + Z.succ (Z.of_nat (length l))) by lia. naive_solver.
Qed.

(** A record with the decision of the query. *)
Definition has_decision (m : AuditExportManifest) (r : AuditExportRecord) : Prop :=
  ∃ e, export_content r = ExportEvent e ∧ validate_policy_event (manifest_policy m) e = Ok tt.

Lemma verify_records_linked m recs n previous v b n' previous' v' b' :
  verify_records C X m recs n previous v b = Ok (n', previous', v', b') →
  linked m recs n previous ∧ n' = n + Z.of_nat (length recs) ∧ previous' = end_digest recs previous ∧
  (v' = true → v = true ∨ Exists (has_decision m) recs).
Proof.
  revert n previous v b. induction recs as [|r recs IH]; intros n previous v b H; cbn [verify_records] in H.
  { injection H as <- <- <- <-. split_and!; [done|cbn; lia|done|auto]. }
  apply bind_Ok in H as (n1 & Hn & H). apply ok_or_Ok, checked_add_u64_Some in Hn as [-> _].
  apply bind_Ok in H as ([] & Hpl & H). apply refuse_Ok in Hpl. split_bools. apply bind_Ok in H as ([] & Hv & H).
  apply bind_Ok in H as (v1 & Hv1 & H). apply bind_Ok in H as (g & Hg & H). apply bind_Ok in H as ([] & Eg & H).
  apply refuse_Ok in Eg. split_bools. subst g. apply bind_Ok in H as (enc & _ & H). apply bind_Ok in H as (b1 & _ & H).
  apply IH in H as (Hl & -> & -> & Hd). rewrite end_digest_cons. cbn [linked length]. split_and!; try done; [lia|].
  intros Hv'. destruct (Hd Hv') as [->|He]; [|right; by constructor 2]. unfold verify_policy_record in Hv1.
  case_bool_decide; [|left; congruence]. right. constructor. unfold has_decision. destruct (export_content r); try done.
  apply bind_Ok in Hv1 as ([] & Hp & _). eauto.
Qed.

Lemma verify_page_linked p prev st :
  verify_page C X p prev = Ok st →
  let n := match prev with Some s => verified_after_sequence s | None => 0 end in
  let g := match prev with Some s => verified_last_digest s | None => None end in
  manifest_validate C (export_manifest p) = Ok tt ∧
  manifest_digest C X (export_manifest p) = Ok (verified_query_digest st) ∧ verified_checkpoint st = export_checkpoint p ∧
  checkpoint_organization_id (export_checkpoint p) = manifest_organization (export_manifest p) ∧
  linked (export_manifest p) (export_records p) n g ∧
  verified_after_sequence st = n + Z.of_nat (length (export_records p)) ∧ verified_last_digest st = end_digest (export_records p) g ∧
  (verified_complete st = true → verified_after_sequence st = checkpoint_last_sequence (verified_checkpoint st) ∧
     verified_last_digest st = checkpoint_last_digest (verified_checkpoint st) ∧ policy_event_verified st = true) ∧
  (policy_event_verified st = true →
     match prev with Some s => policy_event_verified s = true | None => False end ∨ Exists (has_decision (export_manifest p)) (export_records p)) ∧
  (∀ s, prev = Some s → verified_query_digest s = verified_query_digest st ∧ verified_checkpoint s = verified_checkpoint st).
Proof.
  intros H n g. unfold verify_page in H. apply bind_Ok in H as ([] & Hval & H). apply bind_Ok in H as (dg & Hdg & H).
  apply bind_Ok in H as ([] & _ & H). apply bind_Ok in H as ([[n0 g0] v0] & Hst & H). apply bind_Ok in H as ([] & Hco & H).
  apply bind_Ok in H as ([[[n1 g1] v1] b1] & Hrec & H). apply bind_Ok in H as ([] & _ & H). apply bind_Ok in H as ([] & Hend & H).
  injection H as <-. cbn [verified_query_digest verified_checkpoint verified_after_sequence verified_last_digest policy_event_verified verified_complete].
  assert (Hs : n0 = n ∧ g0 = g ∧ (v0 = true → match prev with Some s => policy_event_verified s = true | None => False end) ∧
    ∀ s, prev = Some s → verified_query_digest s = dg ∧ verified_checkpoint s = export_checkpoint p).
  { unfold verification_start in Hst. destruct prev as [s|]; apply bind_Ok in Hst as ([] & Hst & E); injection E as <- <- <-.
    - apply refuse_Ok in Hst. split_bools. split_and!; try done. by intros ? [= <-].
    - split_and!; done. }
  destruct Hs as (-> & -> & Hv0 & Hprev). apply verify_records_linked in Hrec as (Hl & -> & -> & Hd). apply refuse_Ok in Hco. split_bools.
  split_and!; try done.
  - intros Hc. split_bools. unfold verify_end in Hend. rewrite Hc in Hend. apply bind_Ok in Hend as ([] & He & Hend).
    apply refuse_Ok in He, Hend. by split_bools.
  - intros Hv. destruct (Hd Hv) as [->|He]; [left; by apply Hv0|by right].
Qed.

(** All pages are of one query over one checkpoint. *)
Lemma pages_one_query pages prev st :
  verify_pages C X pages prev = Ok (Some st) →
  (∀ p, p ∈ pages → manifest_digest C X (export_manifest p) = Ok (verified_query_digest st) ∧
     export_checkpoint p = verified_checkpoint st ∧ manifest_validate C (export_manifest p) = Ok tt ∧
     checkpoint_organization_id (verified_checkpoint st) = manifest_organization (export_manifest p)) ∧
  (∀ s, prev = Some s → verified_query_digest s = verified_query_digest st ∧ verified_checkpoint s = verified_checkpoint st).
Proof.
  revert prev. induction pages as [|p pages IH]; intros prev H; cbn [verify_pages] in H.
  { injection H as ->. split; [by intros p ?%elem_of_nil|by intros s [= ->]]. }
  apply bind_Ok in H as (s & Hp & H). destruct (IH _ H) as [Hall Hs]. destruct (Hs s eq_refl) as [E1 E2].
  apply verify_page_linked in Hp as (Hval & Hdg & Hck & Hco & _ & _ & _ & _ & _ & Hprev). split.
  - intros p' [->|Hp']%elem_of_cons; [|by apply Hall]. split_and!; [congruence|congruence|done|congruence].
  - intros s' Hs'. destruct (Hprev s' Hs'). split; congruence.
Qed.

Lemma pages_linked m pages prev st :
  verify_pages C X pages prev = Ok (Some st) → Forall (λ p, export_manifest p = m) pages → pages ≠ [] →
  let n := match prev with Some s => verified_after_sequence s | None => 0 end in
  let g := match prev with Some s => verified_last_digest s | None => None end in
  let recs := pages ≫= export_records in
  linked m recs n g ∧ verified_after_sequence st = n + Z.of_nat (length recs) ∧ verified_last_digest st = end_digest recs g ∧
  (verified_complete st = true → verified_after_sequence st = checkpoint_last_sequence (verified_checkpoint st) ∧
     verified_last_digest st = checkpoint_last_digest (verified_checkpoint st) ∧ policy_event_verified st = true) ∧
  (policy_event_verified st = true →
     match prev with Some s => policy_event_verified s = true | None => False end ∨ Exists (has_decision m) recs).
Proof.
  revert prev. induction pages as [|p pages IH]; intros prev H Hm Hne n g recs; [done|]. cbn [verify_pages] in H.
  apply bind_Ok in H as (s & Hp & H). apply Forall_cons in Hm as [Hpm Hm].
  apply verify_page_linked in Hp as (_ & _ & _ & _ & Hl & Hn & Hg & Hc & Hd & _). rewrite Hpm in Hl, Hd. unfold recs. cbn [mbind list_bind].
  fold n g in Hl, Hn, Hg. destruct (decide (pages = [])) as [->|Hne'].
  - cbn in H. injection H as <-. cbn [mbind list_bind]. rewrite app_nil_r. done.
  - destruct (IH (Some s) H Hm Hne') as (Hl' & Hn' & Hg' & Hc' & Hd'). rewrite Hn, Hg in Hl'. rewrite Hn in Hn'. rewrite Hg in Hg'.
    rewrite records_linked_app, end_digest_app, length_app, Nat2Z.inj_add, Exists_app. split_and!; try done; [lia|].
    intros Hv. destruct (Hd' Hv) as [Hs|He]; [|tauto]. destruct (Hd Hs); tauto.
Qed.

(** ** The records against the chain *)

(** The header of a record agrees with a row; texts that may be absent up to the empty text. *)
Record agrees (h : AuditExportHeader) (r : EventRow) : Prop := {
  ag_organization : scope_organization_id (export_scope h) = row_organization_id r;
  ag_event_id : export_event_id h = row_event_id r;
  ag_occurred : export_occurred_at_millis h = row_occurred_at_millis r;
  ag_workspace : default "" (scope_workspace_id (export_scope h)) = default "" (row_workspace_id r);
  ag_project : default "" (scope_project_id (export_scope h)) = default "" (row_project_id r);
  ag_repository : default "" (scope_repository_id (export_scope h)) = default "" (row_repository_id r);
  ag_kind : facts_retention_kind (header_facts h) = row_retention_kind r;
  ag_until : default 0 (facts_retention_until_millis (header_facts h)) = default 0 (row_retention_until_millis r);
  ag_previous : export_previous_digest h = row_previous_digest r;
  ag_payload_digest : export_payload_digest h = row_payload_digest r
}.

Lemma export_digest_shape digest : export_validate_digest digest = Ok tt → sha256_shape digest = true.
Proof. unfold export_validate_digest. intros H. apply refuse_Ok in H. by split_bools. Qed.

Lemma accepted_parts m r n g :
  accepted m r n g →
  sha256_shape (export_payload_digest (export_header r)) = true ∧
  validate_optional_digest (export_previous_digest (export_header r)) "" = Ok tt.
Proof.
  intros (_ & _ & _ & Hv & _). unfold verify_record in Hv. apply bind_Ok in Hv as ([] & _ & Hv).
  apply bind_Ok in Hv as ([] & Hp & Hv). apply bind_Ok in Hv as ([] & Hg & _). split; [by apply export_digest_shape|].
  destruct (export_previous_digest (export_header r)); [|done]. by apply audit_digest_Ok, export_digest_shape.
Qed.

Lemma accepted_typed m r n g :
  accepted m r n g → header_fits (export_header r) →
  let h := export_header r in
  message_typed (scope_organization_id (export_scope h)) (export_sequence h) (export_previous_digest h) (header_facts h) (export_payload_digest h).
Proof.
  intros Ha [H1 H2 H3 H4 H5 H6 H7 H8] h. destruct (accepted_parts m r n g Ha) as [Hp Hg]. destruct Ha as (_ & _ & _ & _ & Hd).
  apply export_chain_digest_Ok in Hd as (Ho & Hu & _). assert (i64_min ≤ 0) by done. fold h in H1, H2, H3, H4, H5, H6, H7, H8, Hp, Hg, Ho, Hu.
  split; try done.
  - unfold fits_u64. destruct (export_previous_digest h) as [x|]; [|done]. apply audit_digest_Ok in Hg. cbn. by rewrite (digest_length x Hg).
  - unfold in_i64. cbn. lia.
  - unfold fits_u64. cbn. by destruct (export_retention h).
  - unfold in_i64. cbn. destruct (export_retention h) as [u|] eqn:E; cbn; [specialize (H3 u eq_refl); specialize (Hu u eq_refl)|]; lia.
  - unfold fits_u64. by rewrite (digest_length _ Hp).
Qed.

Lemma record_agrees d m rec n g r :
  audit_wf C d → r ∈ audit_events d → row_typed r → accepted m rec n g → header_fits (export_header rec) →
  collision_free C [header_message (stored_header_row d r); export_message (export_header rec)] →
  export_event_digest (export_header rec) = row_event_digest r → agrees (export_header rec) r.
Proof.
  intros Hd Hr Ht Ha Hf Hfree Hdig. pose proof (intact_sealed C _ (row_intact C d Hd r Hr)) as Hs.
  pose proof (accepted_typed m rec n g Ha Hf) as Htr. destruct (accepted_parts m rec n g Ha) as [_ Hg].
  destruct Ha as (_ & _ & _ & _ & Hcd). apply export_chain_digest_Ok in Hcd as (_ & _ & Hcd).
  assert (Hm : export_message (export_header rec) = header_message (stored_header_row d r)).
  { apply Hfree; [set_solver..|]. pose proof (sealed_digest C _ Hs) as E. cbn [stored_header_row header_event_digest] in E.
    rewrite <-Hdig, Hcd in E. unfold chain_digest, sha256_digest in E. apply str_append_inj_l in E as [_ E]; done. }
  destruct (sealed_kind_facts _ (sealed_retention C _ Hs)) as (Ek & _ & _).
  unfold header_message, export_message in Hm. apply chain_message_inj in Hm as (M1 & M2 & M3 & M4 & M5 & M6 & M7 & M8 & M9 & M10 & M11);
    [|exact Htr|by apply header_typed; [|apply Hs]].
  rewrite Ek in M9. split; try done. eapply optional_digest_inj; [exact Hg|apply Hs|exact M3].
Qed.

Lemma records_agree d m l recs z :
  audit_wf C d → Forall (λ r, r ∈ audit_events d ∧ row_typed r) l →
  verify_loop C (stored_header_row d <$> l) 1 None = Ok z → linked m recs 0 None → length recs = length l →
  end_digest recs None = z.2 → Forall (λ r, header_fits (export_header r)) recs →
  collision_free C (hashed (stored_header_row d <$> l) ++ (recs ≫= record_hashed)) →
  Forall2 (λ rec r, (∃ n g, accepted m rec n g) ∧ agrees (export_header rec) r) recs l.
Proof.
  intros Hd. revert recs z. induction l as [|r l IH] using rev_ind; intros recs z Hl Hv Hlk Hlen Hend Hfit Hfree.
  { destruct recs; [constructor|done]. }
  destruct recs as [|rec recs _] using rev_ind; [rewrite length_app in Hlen; cbn in Hlen; lia|].
  rewrite !length_app in Hlen. cbn in Hlen. apply Forall_app in Hl as [Hl [[Hr Ht] _]%Forall_cons], Hfit as [Hfit [Hf _]%Forall_cons].
  rewrite fmap_app in Hv. apply verify_loop_app in Hv as (y & Hy & Hv). apply verify_loop_cons in Hv as ((_ & Hp & _) & _ & Hv).
  cbn in Hv. injection Hv as <-. apply records_linked_app in Hlk as [Hlk [Ha _]]. rewrite end_digest_app in Hend.
  unfold end_digest in Hend at 1. cbn in Hend. injection Hend as Hdig.
  assert (Hag : agrees (export_header rec) r).
  { eapply record_agrees; [done..| |done]. eapply collision_free_weaken; [|exact Hfree]. intros t Ht'.
    rewrite fmap_app. unfold hashed. rewrite !bind_app, !elem_of_app. cbn [fmap list_fmap mbind list_bind]. rewrite !app_nil_r.
    apply elem_of_cons in Ht' as [->|Ht']; [left; right; by left|]. apply list_elem_of_singleton in Ht' as ->. right. right. by left. }
  apply Forall2_app; [|by constructor; eauto]. apply (IH recs y); [done..|lia| |done|].
  - destruct Ha as (_ & Hpd & _). rewrite <-Hpd, (ag_previous _ _ Hag). exact Hp.
  - eapply collision_free_weaken; [|exact Hfree]. intros t Ht'. rewrite fmap_app. unfold hashed in *. rewrite !bind_app, !elem_of_app.
    apply elem_of_app in Ht'. tauto.
Qed.

Context `{!AuditCodecLaws C}.

Lemma agreeing_matches d m h r x :
  entry_row C d r x → agrees h r → validate_scope (manifest_scope m) = Ok tt → header_matches m h = asked m (logged x).
Proof.
  intros Hx Hag Hs. pose proof (facts_Ok _ _ (er_facts _ _ _ _ Hx)) as (_ & Fo & _ & Fw & Fp & Fr). cbn in Fo, Fw, Fp, Fr.
  unfold header_matches, asked, scope_contains. rewrite (ag_occurred _ _ Hag), Fo, (ag_organization _ _ Hag), (er_organization _ _ _ _ Hx).
  unfold entry_organization. unfold validate_scope in Hs. apply refuse_Ok in Hs. split_bools.
  rewrite (admits_same (scope_workspace_id (manifest_scope m)) "wsp" _ (scope_workspace_id (scope (logged x)))),
    (admits_same (scope_project_id (manifest_scope m)) "prj" _ (scope_project_id (scope (logged x)))),
    (admits_same (scope_repository_id (manifest_scope m)) "rep" _ (scope_repository_id (scope (logged x)))); try done.
  - by rewrite (ag_repository _ _ Hag), Fr.
  - by rewrite (ag_project _ _ Hag), Fp.
  - by rewrite (ag_workspace _ _ Hag), Fw.
Qed.

Lemma agreeing_retention d h r x : entry_row C d r x → agrees h r → sealed_kind (stored_header_row d r) → export_retention h = retention (logged x).
Proof.
  intros Hx Hag Hk. pose proof (facts_Ok _ _ (er_facts _ _ _ _ Hx)) as (_ & _ & Fk & _).
  destruct (sealed_kind_facts _ Hk) as (Ek & _ & _). rewrite Ek in Fk. cbn in Fk.
  pose proof (ag_kind _ _ Hag) as K. pose proof (ag_until _ _ Hag) as U. unfold header_facts in K, U. cbn in K, U.
  destruct Fk as [(E & Fu & Fr)|(E & Fu & Fr)]; rewrite E in K; rewrite Fu in U.
  - destruct (export_retention h) as [u|], (retention (logged x)) as [v|]; try done. cbn in U. by subst.
  - destruct (export_retention h) as [u|]; [done|]. by rewrite Fr.
Qed.

Lemma agreeing_shows d m rec n g r x :
  audit_wf C d → r ∈ audit_events d → entry_row C d r x → validate_scope (manifest_scope m) = Ok tt → accepted m rec n g → agrees (export_header rec) r →
  (∀ e p q, export_content rec = ExportEvent e → event_to_vec C e = Ok p → event_to_vec C (logged x) = Ok q →
     sha256_hex C p = sha256_hex C q → p = q) →
  shows m rec (logged x).
Proof.
  intros Hd Hr Hx Hs Ha Hag Hfree. pose proof (facts_Ok _ _ (er_facts _ _ _ _ Hx)) as (Fi & Fo & _). cbn in Fi, Fo.
  pose proof (agreeing_retention d _ r x Hx Hag (sealed_retention C _ (intact_sealed C _ (row_intact C d Hd r Hr)))) as Hret.
  split; [by rewrite (ag_event_id _ _ Hag)|]. split; [by rewrite (ag_occurred _ _ Hag)|].
  destruct Ha as (_ & _ & _ & Hv & _). unfold verify_record in Hv. do 3 apply bind_Ok in Hv as ([] & _ & Hv).
  rewrite (agreeing_matches d m _ r x Hx Hag Hs) in Hv. rewrite (ag_event_id _ _ Hag), Fi in Hv.
  change (bool_decide (event_id (logged x) = _)) with (is_decision m (logged x)) in Hv.
  destruct (export_content rec) as [|e|proof] eqn:Ec.
  - apply refuse_Ok in Hv. by split_bools.
  - destruct (asked m (logged x) || is_decision m (logged x)) eqn:Ea; [|done]. cbn [negb] in Hv.
    apply bind_Ok in Hv as (p & Hp & Hv). apply map_err_Ok in Hp. apply bind_Ok in Hv as ([] & Hpd & Hv).
    apply bind_Ok in Hv as ([] & _ & Hv). apply refuse_Ok in Hpd, Hv. split_bools.
    destruct (er_payload _ _ _ _ Hx) as (q & Hq & Hrow & _).
    assert (p = q) as ->.
    { eapply Hfree; [done..|]. rewrite (ag_payload_digest _ _ Hag), Hrow in Hpd. unfold sha256_digest in Hpd.
      apply str_append_inj_l in Hpd as [_ Hpd]; done. }
    assert (Hn : normal e = normal (logged x)).
    { pose proof (event_round_trip C _ _ Hp) as E1. pose proof (event_round_trip C _ _ Hq) as E2. congruence. }
    split_and!; [done|done| |].
    + apply eqb_prop in H. rewrite H. f_equal. by rewrite <-event_matches_normal, Hn, event_matches_normal.
    + rewrite H0. unfold artifact_references. pose proof (f_equal state Hn) as E1. pose proof (f_equal action Hn) as E2.
      cbn in E1, E2. by rewrite E1, E2.
  - rewrite Hret in Hv. destruct (retention (logged x)) as [u|]; [|done]. apply refuse_Ok in Hv. split_bools.
    split_and!; try done; [by apply eq_None_not_Some|]. exists u. split; [done|lia].
Qed.

Lemma one_manifest `{!ExportCodecLaws X} pages g :
  (∀ p, p ∈ pages → manifest_digest C X (export_manifest p) = Ok g) → Forall page_fits pages →
  collision_free C (pages ≫= page_hashed) → ∀ p p', p ∈ pages → p' ∈ pages → export_manifest p = export_manifest p'.
Proof.
  intros Hg Hfit Hfree p p' Hp Hp'. pose proof (Hg p Hp) as E. pose proof (Hg p' Hp') as E'. unfold manifest_digest in E, E'.
  apply bind_Ok in E as (a & Ha & [= E]), E' as (b & Hb & [= E']). apply ok_or_Ok in Ha, Hb. rewrite <-E' in E.
  apply str_append_inj_l in E as [_ E]; [|done].
  assert (Hin : ∀ p a, p ∈ pages → manifest_to_vec X (export_manifest p) = Some a → manifest_message a ∈ pages ≫= page_hashed).
  { intros q c Hq Hc. apply list_elem_of_bind. exists q. split; [|done]. unfold page_hashed. rewrite Hc. by left. }
  apply Hfree in E; [|exact (Hin p a Hp Ha)|exact (Hin p' b Hp' Hb)]. unfold manifest_message in E. apply str_append_inj_l in E as [_ E]; [|done].
  rewrite <-(str_append_nil_r (framed a)), <-(str_append_nil_r (framed b)) in E.
  apply framed_inj in E as [<- _]; [by eapply manifest_to_vec_inj| |].
  - by apply (proj1 (Forall_forall _ _) Hfit p Hp).
  - by apply (proj1 (Forall_forall _ _) Hfit p' Hp').
Qed.

Lemma page_record_hashed pages t : t ∈ (pages ≫= export_records) ≫= record_hashed → t ∈ pages ≫= page_hashed.
Proof.
  intros (r & Ht & (p & Hr & Hp)%list_elem_of_bind)%list_elem_of_bind. apply list_elem_of_bind. exists p. split; [|done].
  unfold page_hashed. apply elem_of_app. right. apply list_elem_of_bind. eauto.
Qed.

Lemma genuine_records d L m pages o st :
  represents C d L → verify_pages C X pages None = Ok (Some st) → verified_complete st = true →
  verified_checkpoint st = checkpoint_of d o → Forall (λ p, export_manifest p = m) pages → pages ≠ [] →
  validate_scope (manifest_scope m) = Ok tt → Forall page_fits pages →
  collision_free C (hashed (headers d o) ++ log_payloads C L ++ (pages ≫= page_hashed)) →
  Forall2 (shows m) (pages ≫= export_records) (logged <$> log_of L o) ∧ Exists (has_decision m) (pages ≫= export_records).
Proof.
  intros HR Hv Hc Hck Hm Hne Hs Hfit Hfree. pose proof (rep_wf _ _ _ HR) as Hd.
  destruct (pages_linked m pages None st Hv Hm Hne) as (Hl & Hn & Hg & Hcomp & Hdec). destruct (Hcomp Hc) as (E1 & E2 & E3).
  split; [|by destruct (Hdec E3) as [[]|]]. rewrite Hck in E1, E2. cbn in E1, E2. set (recs := pages ≫= export_records) in *.
  assert (Hag : Forall2 (λ rec r, (∃ n g, accepted m rec n g) ∧ agrees (export_header rec) r) recs (chain d o)).
  { pose proof (wf_verifies C d Hd o) as Hloop. apply (records_agree d m _ _ _ Hd) with (2 := Hloop).
    - apply Forall_forall. intros r Hr. apply list_elem_of_lookup in Hr as [i Hi].
      destruct (Forall2_lookup_l _ _ _ _ _ (chain_log C d L o HR) Hi) as (x & _ & Hx).
      apply list_elem_of_lookup_2, chain_elem in Hi as [Hi _]. split; [done|]. by eapply (entry_typed C).
    - done.
    - lia.
    - rewrite <-Hg, E2. cbn. by rewrite previous_is_end.
    - apply Forall_forall. intros r (p & Hr & Hp)%list_elem_of_bind.
      destruct (proj1 (Forall_forall _ _) Hfit p Hp) as [_ Hall]. exact (proj1 (Forall_forall _ _) Hall r Hr).
    - eapply collision_free_weaken; [|exact Hfree]. intros t [Ht|Ht]%elem_of_app; rewrite !elem_of_app; [by left|].
      right. right. by apply page_record_hashed. }
  pose proof (chain_log C d L o HR) as Hlog. apply Forall2_fmap_r, Forall2_same_length_lookup. split.
  { by rewrite (Forall2_length _ _ _ Hag), (Forall2_length _ _ _ Hlog). }
  intros i rec x Hrec Hx. destruct (Forall2_lookup_l _ _ _ _ _ Hag Hrec) as (r & Hr & (n & g & Ha) & Hagr).
  assert (Hxr : entry_row C d r x) by (by eapply Forall2_lookup_lr). apply list_elem_of_lookup_2, chain_elem in Hr as [Hr _].
  eapply agreeing_shows; [done..|]. intros e p q Ec Hp Hq. apply Hfree; rewrite !elem_of_app.
  - right. right. apply page_record_hashed, list_elem_of_bind. exists rec. split; [|by eapply list_elem_of_lookup_2].
    unfold record_hashed. rewrite Ec, Hp. right. by left.
  - right. left. eapply log_payload_in; [|done]. apply list_elem_of_lookup_2, list_elem_of_filter in Hx as [_ Hx]. exact Hx.
Qed.
End genuine.

(** ** The decision that governance records *)

(** A redaction that was planned has the decision digest that an export recomputes. *)
Lemma redaction_proof_digest C a data plan id :
  redaction_plan C a data = Ok plan → governance_decision_digest C (proof_from_plan plan id) = redaction_decision_digest plan.
Proof.
  unfold redaction_plan. intros H. apply bind_Ok in H as (rule & _ & H). apply bind_Ok in H as ([] & _ & H). injection H as <-.
  unfold governance_decision_digest, decision_digest, proof_from_plan, scope_frames. cbn [proof_rule_id proof_rule_version proof_rule_digest
    proof_scope proof_source_digest proof_classification proof_resident_region proof_strategy proof_evaluated_at_millis
    redaction_rule_id redaction_rule_version redaction_rule_digest redaction_scope redaction_source_digest redaction_classification
    redaction_resident_region redaction_strategy redaction_evaluated_at_millis redaction_decision_digest]. by rewrite !str_append_assoc.
Qed.

(** The event that records it is the decision of a query with its plan. *)
Lemma redaction_is_decision C actor_to_vec origin_to_vec a data plan at_ context e :
  redaction_plan C a data = Ok plan →
  governance_event C actor_to_vec origin_to_vec a data (redaction_decision_digest plan) at_ context Succeeded "redaction-planned" = Ok e →
  validate_policy_event (proof_from_plan plan (event_id e)) (normal e) = Ok tt.
Proof.
  unfold redaction_plan. intros H. apply bind_Ok in H as (rule & _ & H). apply bind_Ok in H as ([] & _ & H). injection H as <-.
  unfold governance_event. intros H. apply bind_Ok in H as (ed & _ & H). apply bind_Ok in H as (i & _ & H).
  apply bind_Ok in H as (act & Hact & H). apply bind_Ok in H as (s & Hs & H). apply map_err_Ok in Hact, Hs, H.
  unfold plain_action in Hact. apply bind_Ok in Hact as ([] & _ & Hact). injection Hact as <-.
  unfold unchanged in Hs. apply bind_Ok in Hs as ([] & _ & Hs). injection Hs as <-.
  unfold unchanged_result in H. apply bind_Ok in H as ([] & _ & H). apply bind_Ok in H as ([] & _ & H). injection H as <-.
  unfold validate_policy_event. apply refuse_Ok. cbn. by rewrite !differs_refl, bool_decide_eq_true_2.
Qed.

(** ** The claims *)

(** C18. Whatever other calls come to the store before each page, the pages of an export are
    accepted by the verifier in their order.  They show the events of the organisation in the
    order of the chain, as it stood when the first page was taken, each exactly as the query
    asks; every page goes on by at least one event; and the verification is complete exactly
    when the last of them is shown, at the latest after as many pages as there are events.  And
    every page is made, when the query was built as its constructors build it, its decision is
    on the chain before the first page, and each time a page is asked for every event of the
    organisation can be shown within the bound on a record. *)
Theorem export_accepted (C : AuditCodec) (X : ExportCodec) `{!AuditCodecLaws C} (q : AuditExportQuery)
    (calls : list AuditCall) (visits : list (list AuditCall)) :
  let s := audit_run C calls new_store in
  let events := logged <$> log_of s.2 (manifest_organization (query_manifest q)) in
  (∀ pages, export_visits C X new_store q None (calls :: visits) = Ok pages →
     ∃ st, verify_pages C X pages None = Ok (Some st) ∧
       Forall2 (shows (query_manifest q)) (pages ≫= export_records) (take (Z.to_nat (verified_after_sequence st)) events) ∧
       (1 ≤ length pages)%nat ∧ Z.of_nat (length pages) ≤ verified_after_sequence st ≤ Z.of_nat (length events) ∧
       (verified_complete st = true ↔ verified_after_sequence st = Z.of_nat (length events)) ∧
       ((length events ≤ S (length visits))%nat → verified_complete st = true)) ∧
  (∀ decision, query_ok C X q → visits_ready C X new_store (query_manifest q) (calls :: visits) →
     decision ∈ events → validate_policy_event (manifest_policy (query_manifest q)) (normal decision) = Ok tt →
     ∃ pages, export_visits C X new_store q None (calls :: visits) = Ok pages).
Proof.
  intros s events. pose proof (new_store_represents C) as HR. split; [|intros decision; by apply start_total].
  intros pages H. destruct (export_from_start C X q calls visits new_store pages HR H) as (n & Hp & Hn & Hmax & Hv & HS).
  fold s in Hn, Hmax, Hv, HS. fold events in HS. set (o := manifest_organization (query_manifest q)) in *.
  assert (Hl : length events = length (log_of s.2 o)) by apply length_fmap.
  assert (Hc : length (chain s.1 o) = length (log_of s.2 o)) by (eapply (rep_length C); by apply run_represents).
  exists (state_at q (chain s.1 o) n). cbn [state_at verified_after_sequence verified_complete]. rewrite Nat2Z.id.
  split; [done|]. split; [done|]. rewrite Hc, Hl, bool_decide_eq_true. split_and!; [lia|lia|lia|lia|].
  intros Hle. destruct (decide (n < length (log_of s.2 o))%nat) as [Hlt|Hge]; [|lia]. specialize (Hmax Hlt). lia.
Qed.

(** C8. Pages that are accepted, up to a checkpoint of the organisation and whoever made them,
    are all of one query over that organisation, and show the events that the store had
    accepted, in order and without a gap, each exactly as the query asks; the decision of the
    query is among them; unless the hash has a collision among the messages at hand. *)
Theorem accepted_export_genuine (C : AuditCodec) (X : ExportCodec) `{!AuditCodecLaws C, !ExportCodecLaws X}
    (calls : list AuditCall) (o : string) (c : AuditChainCheckpoint) (pages : list AuditExportPage)
    (st : AuditExportVerificationState) :
  let s := audit_run C calls new_store in
  verify_organization C s.1 o = Ok c →
  verify_pages C X pages None = Ok (Some st) → verified_complete st = true → verified_checkpoint st = c →
  Forall (page_fits X) pages →
  collision_free C (hashed (headers s.1 o) ++ log_payloads C s.2 ++ (pages ≫= page_hashed C X)) →
  ∃ m, Forall (λ p, export_manifest p = m) pages ∧ manifest_organization m = o ∧
    Forall2 (shows m) (pages ≫= export_records) (logged <$> log_of s.2 o) ∧
    Exists (has_decision m) (pages ≫= export_records).
Proof.
  intros s Hc Hv Hcomp Hck Hfit Hfree. pose proof (store_represents C calls) as HR. fold s in HR.
  assert (c = checkpoint_of s.1 o) as Ec.
  { pose proof Hc as Hc'. unfold verify_organization in Hc'. apply bind_Ok in Hc' as ([] & Ho & _).
    unfold validate_organization_id in Ho. apply refuse_Ok, negb_false_iff in Ho.
    rewrite (verify_wf C s.1 o (rep_wf _ _ _ HR) Ho) in Hc. by injection Hc as <-. }
  destruct (pages_one_query C X pages None st Hv) as [Hall _]. destruct pages as [|p pages]; [done|].
  destruct (Hall p) as (_ & _ & Hval & Hco); [by left|]. rewrite Hck, Ec in Hco. cbn in Hco.
  exists (export_manifest p).
  assert (Hm : Forall (λ p', export_manifest p' = export_manifest p) (p :: pages)).
  { apply Forall_forall. intros p' Hp'. eapply (one_manifest C X); [by intros; apply Hall|done| |done|by left].
    eapply collision_free_weaken; [|exact Hfree]. intros t Ht. rewrite !elem_of_app. auto. }
  split; [done|]. split; [done|]. apply (genuine_records C X s.1 s.2 _ _ o st); try done; [congruence|].
  by destruct (manifest_facts C _ Hval).
Qed.

(** ** Witnesses *)

#[export] Instance coded_classification : Coded DataClassification.
Proof.
  refine (coded_via (λ c, match c with Public => 0 | Internal => 1 | Confidential => 2 | Restricted => 3 | Secret => 4 end)
    (λ z, Some match z with 0 => Public | 1 => Internal | 2 => Confidential | 3 => Restricted | _ => Secret end) _). by intros [].
Defined.

#[export] Instance coded_strategy : Coded RedactionStrategy.
Proof.
  refine (coded_via (λ r, match r with Reveal => 0 | Mask => 1 | Hash => 2 | Remove => 3 end)
    (λ z, Some match z with 0 => Reveal | 1 => Mask | 2 => Hash | _ => Remove end) _). by intros [].
Defined.

#[export] Instance coded_filter : Coded SubjectIdentity.
Proof.
  refine (coded_via
    (λ f, match f with
          | DeliveryIdentity i => (0, i) | ProductSessionIdentity i => (1, i) | LeaseIdentity i => (2, i)
          | PublicationIdentity i => (3, i) | ExecutionJobIdentity i => (4, i) | WorkRunIdentity i => (5, i)
          | WorkerIdentity i => (6, i) end)
    (λ '(k, i), Some match k with
          | 0 => DeliveryIdentity i | 1 => ProductSessionIdentity i | 2 => LeaseIdentity i | 3 => PublicationIdentity i
          | 4 => ExecutionJobIdentity i | 5 => WorkRunIdentity i | _ => WorkerIdentity i end) _). by intros [].
Defined.

#[export] Instance coded_proof : Coded AuditExportPolicyProof.
Proof.
  refine (coded_via
    (λ p, (proof_audit_event_id p, (proof_scope p, (proof_source_digest p, (proof_classification p, (proof_resident_region p,
       (proof_evaluated_at_millis p, (proof_decision_digest p, (proof_strategy p, (proof_rule_id p, (proof_rule_version p,
       proof_rule_digest p)))))))))))
    (λ '(a, (b, (c, (d, (e, (f, (g, (h, (i, (j, k)))))))))),
       Some {| proof_audit_event_id := a; proof_scope := b; proof_source_digest := c; proof_classification := d;
          proof_resident_region := e; proof_evaluated_at_millis := f; proof_decision_digest := g; proof_strategy := h;
          proof_rule_id := i; proof_rule_version := j; proof_rule_digest := k |}) _). by intros [].
Defined.

#[export] Instance coded_manifest : Coded AuditExportManifest.
Proof.
  refine (coded_via
    (λ m, (manifest_scope m, (from_millis (manifest_time_range m), (through_millis (manifest_time_range m), (manifest_subject m,
       (manifest_as_of_millis m, (scan_records (manifest_limits m), (max_record_bytes (manifest_limits m), manifest_policy m))))))))
    (λ '(a, (b, (c, (d, (e, (f, (g, h))))))),
       Some {| manifest_scope := a; manifest_time_range := {| from_millis := b; through_millis := c |}; manifest_subject := d;
          manifest_as_of_millis := e; manifest_limits := {| scan_records := f; max_record_bytes := g |}; manifest_policy := h |}) _).
  by intros [? [] ? ? [] ?].
Defined.

(** A record is written as its place and its digest. *)
Definition export_codec : ExportCodec :=
  {| manifest_to_vec m := Some (put m);
     record_to_vec r := Some (put (export_sequence (export_header r), export_event_digest (export_header r)));
     page_from_slice _ := None |}.

Lemma put_inj {A} `{!Coded A} (x y : A) : put x = put y → x = y.
Proof. intros E. pose proof (got x) as Hx. rewrite E, got in Hx. congruence. Qed.

#[export] Instance export_codec_laws : ExportCodecLaws export_codec.
Proof.
  split. intros m n b Hm Hn. change (Some (put m) = Some b) in Hm. change (Some (put n) = Some b) in Hn. apply put_inj. congruence.
Qed.

(** The value of a computation, and a check of it. *)
Definition ok_default {E A} (a : A) (m : result E A) : A := match m with Ok a => a | Err _ => a end.

Definition when_ok {E A} (m : result E A) (f : A → bool) : bool := match m with Ok a => f a | Err _ => false end.

Lemma when_ok_true {E A} (m : result E A) (f : A → bool) : when_ok m f = true → ∃ a, m = Ok a ∧ f a = true.
Proof. destruct m as [a|]; [|done]. intros H. by exists a. Qed.

Lemma three_true a b c : a && b && c = true → a = true ∧ b = true ∧ c = true.
Proof. by destruct a, b, c. Qed.

(** The plan and the event of a redaction, and a query with them. *)
Definition fixture_plan : governed (RedactionPlan * AuditEvent) :=
  a ← fixture_authority;
  plan ← redaction_plan audit_codec a fixture_data;
  e ← governance_event audit_codec (λ _, Some "actor") (λ _, Some "origin") a fixture_data (redaction_decision_digest plan) 3000
        fixture_context Succeeded "redaction-planned";
  Ok (plan, e).

Definition fixture_decision : AuditEvent := ok_default first_event (snd <$> fixture_plan).

Definition fixture_query : exported AuditExportQuery :=
  found ← map_err (λ _, export_encoding) fixture_plan;
  query_try_new audit_codec export_codec (into_access (data_scope fixture_data)) {| from_millis := 500; through_millis := 2000 |} 7000
    {| scan_records := 1; max_record_bytes := 1000 |} found.1 (event_id found.2).

(** The first event is pruned before the export; another event comes during it. *)
Definition export_calls : list AuditCall :=
  [CallAppend first_event; CallAppend fixture_decision; CallAppend second_event; CallPrune 6000].

Definition export_more : list (list AuditCall) := [[CallAppend fresh_event]; []].

Definition exportable_check (m : AuditExportManifest) (x : LogEntry) : bool :=
  match withdrawn x with
  | None => true
  | Some t => negb (is_decision m (logged x)) &&
              (negb (asked m (logged x)) ||
               (match manifest_subject m with None => true | Some _ => false end && (t <=? manifest_as_of_millis m)))
  end.

Definition ready_check (C : AuditCodec) (X : ExportCodec) (s : AuditDb * list LogEntry) (m : AuditExportManifest) : bool :=
  forallb (λ x, exportable_check m x &&
    forallb (λ r, match encode_record X (export_of m r x) with
                  | Ok enc => str_len enc <=? max_record_bytes (manifest_limits m)
                  | Err _ => false
                  end) (audit_events s.1)) (log_of s.2 (manifest_organization m)).

Fixpoint visits_check (C : AuditCodec) (X : ExportCodec) (s : AuditDb * list LogEntry) (m : AuditExportManifest)
    (visits : list (list AuditCall)) : bool :=
  match visits with
  | [] => true
  | calls :: visits => let s := audit_run C calls s in ready_check C X s m && visits_check C X s m visits
  end.

Lemma exportable_checked m x : exportable_check m x = true → exportable m x.
Proof.
  unfold exportable_check, exportable. destruct (withdrawn x) as [t|]; [|done]. intros [H1 H2]%andb_true_iff.
  apply negb_true_iff in H1. split; [done|]. intros Ha. rewrite Ha in H2. cbn in H2. destruct (manifest_subject m); [done|].
  split; [done|]. by apply Z.leb_le.
Qed.

Lemma visits_checked C X s m visits : visits_check C X s m visits = true → visits_ready C X s m visits.
Proof.
  revert s. induction visits as [|calls visits IH]; intros s; [done|]. cbn [visits_check visits_ready].
  intros [H1 H2]%andb_true_iff. split; [|by apply IH]. intros x Hx. unfold ready_check in H1. rewrite forallb_forall in H1.
  apply list_elem_of_In, H1, andb_true_iff in Hx as [He Hr]. split; [by apply exportable_checked|].
  intros r Hin _. rewrite forallb_forall in Hr. apply list_elem_of_In, Hr in Hin.
  destruct (encode_record X (export_of m r x)) as [enc|]; [|done]. exists enc. split; [done|]. by apply Z.leb_le.
Qed.

(** What the witnesses need of the query. *)
Lemma query_checked :
  when_ok fixture_query (λ q,
    visits_check audit_codec export_codec new_store (query_manifest q) (export_calls :: export_more) &&
    bool_decide (manifest_organization (query_manifest q) = fixture_organization) &&
    is_ok (validate_policy_event (manifest_policy (query_manifest q)) (normal fixture_decision))) = true.
Proof. vm_compute. reflexivity. Qed.

Lemma fixture_query_ok q : fixture_query = Ok q → query_ok audit_codec export_codec q.
Proof.
  unfold fixture_query. intros H. apply bind_Ok in H as (found & _ & H). exact (query_try_new_ok _ _ _ _ _ _ _ _ _ H).
Qed.

Lemma is_ok_unit {E} (m : result E ()) : is_ok m = true → m = Ok tt.
Proof. by destruct m as [[]|]. Qed.

Lemma query_given :
  ∃ q, fixture_query = Ok q ∧ query_ok audit_codec export_codec q ∧
    visits_ready audit_codec export_codec new_store (query_manifest q) (export_calls :: export_more) ∧
    manifest_organization (query_manifest q) = fixture_organization ∧
    validate_policy_event (manifest_policy (query_manifest q)) (normal fixture_decision) = Ok tt.
Proof.
  destruct (when_ok_true _ _ query_checked) as (q & Eq & H). exists q. split; [exact Eq|]. split; [exact (fixture_query_ok q Eq)|].
  cbv beta in H. apply three_true in H as (H1 & H2 & H3).
  split; [exact (visits_checked _ _ _ _ _ H1)|]. split; [exact (proj1 (bool_decide_eq_true _) H2)|exact (is_ok_unit _ H3)].
Qed.

(** The events that the query goes through. *)
Lemma events_known :
  logged <$> log_of (audit_run audit_codec export_calls new_store).2 fixture_organization = [first_event; fixture_decision; second_event].
Proof. vm_compute. reflexivity. Qed.

Lemma events_at o :
  o = fixture_organization → logged <$> log_of (audit_run audit_codec export_calls new_store).2 o = [first_event; fixture_decision; second_event].
Proof. intros ->. exact events_known. Qed.

Definition fixture_pages (q : AuditExportQuery) : exported (list AuditExportPage) :=
  export_visits audit_codec export_codec new_store q None (export_calls :: export_more).

Lemma export_accepted_witness :
  ∃ q pages st, fixture_query = Ok q ∧ fixture_pages q = Ok pages ∧
    verify_pages audit_codec export_codec pages None = Ok (Some st) ∧ verified_complete st = true ∧ verified_after_sequence st = 3 ∧
    Forall2 (shows (query_manifest q)) (pages ≫= export_records) [first_event; fixture_decision; second_event].
Proof.
  destruct query_given as (q & Eq & Hq & Hready & Ho & Hpol). pose proof (events_at _ Ho) as Hev.
  destruct (export_accepted audit_codec export_codec q export_calls export_more) as [Hacc Hmade].
  destruct (Hmade fixture_decision) as [pages Ep].
  - exact Hq.
  - exact Hready.
  - rewrite Hev. right. left.
  - exact Hpol.
  - destruct (Hacc pages Ep) as (st & Hv & HS & _ & _ & Hc & Hall). rewrite Hev in Hc, Hall, HS.
    assert (Hcomp : verified_complete st = true) by (apply Hall; unfold export_more; cbn [length]; lia).
    pose proof (proj1 Hc Hcomp) as Hn. rewrite Hn in HS.
    exists q, pages, st. split; [exact Eq|]. split; [exact Ep|]. split; [exact Hv|]. split; [exact Hcomp|]. split; [exact Hn|exact HS].
Defined.

Definition header_check (h : AuditExportHeader) : bool :=
  ((0 <=? export_sequence h) && (export_sequence h <=? u64_max)) && (0 <=? export_occurred_at_millis h) &&
  match export_retention h with UntilMillis u => 0 <=? u | Indefinite => true end &&
  (str_len (export_event_id h) <=? u64_max) && (str_len (scope_organization_id (export_scope h)) <=? u64_max) &&
  (str_len (default "" (scope_workspace_id (export_scope h))) <=? u64_max) &&
  (str_len (default "" (scope_project_id (export_scope h))) <=? u64_max) &&
  (str_len (default "" (scope_repository_id (export_scope h))) <=? u64_max).

Lemma header_checked h : header_check h = true → header_fits h.
Proof.
  unfold header_check. intros H. split_bools. split; unfold fits_u64; try lia.
  intros u Hu. rewrite Hu in *. lia.
Qed.

Definition page_check (p : AuditExportPage) : bool :=
  match manifest_to_vec export_codec (export_manifest p) with Some b => str_len b <=? u64_max | None => true end &&
  forallb (λ r, header_check (export_header r)) (export_records p).

Lemma page_checked p : page_check p = true → page_fits export_codec p.
Proof.
  unfold page_check, page_fits. intros [H1 H2]%andb_true_iff. split.
  - intros b Hb. rewrite Hb in H1. by apply Z.leb_le.
  - apply Forall_forall. intros r Hr. rewrite forallb_forall in H2. by apply header_checked, H2, list_elem_of_In.
Qed.

(** The verification of the store and of the pages, and the messages they hash. *)
Definition genuine_check (c : audited AuditChainCheckpoint) (v : exported (option AuditExportVerificationState))
    (pages : list AuditExportPage) (messages : list string) : bool :=
  match c, v with
  | Ok c, Ok (Some st) =>
      (verified_complete st && bool_decide (verified_checkpoint st = c)) && forallb page_check pages &&
      collision_check ((λ a, (a, sha256_hex audit_codec a)) <$> messages)
  | _, _ => false
  end.

Lemma genuine_parts c v pages messages :
  genuine_check c v pages messages = true →
  ∃ c' st, c = Ok c' ∧ v = Ok (Some st) ∧ verified_complete st = true ∧ verified_checkpoint st = c' ∧
    Forall (page_fits export_codec) pages ∧ collision_free audit_codec messages.
Proof.
  unfold genuine_check. destruct c as [c|]; [|done]. destruct v as [[st|]|]; [|done..]. intros (H & H3 & H4)%three_true.
  apply andb_true_iff in H as [H1 H2]. apply bool_decide_eq_true in H2. exists c, st.
  split; [done|]. split; [done|]. split; [done|]. split; [done|]. split; [|exact (collision_check_free _ _ H4)].
  apply Forall_forall. intros p Hp. rewrite forallb_forall in H3. by apply page_checked, H3, list_elem_of_In.
Qed.

Lemma genuine_checked :
  when_ok fixture_query (λ q, when_ok (fixture_pages q) (λ pages,
    genuine_check (verify_organization audit_codec (audit_run audit_codec export_calls new_store).1 fixture_organization)
      (verify_pages audit_codec export_codec pages None) pages
      (hashed (headers (audit_run audit_codec export_calls new_store).1 fixture_organization) ++
       log_payloads audit_codec (audit_run audit_codec export_calls new_store).2 ++ (pages ≫= page_hashed audit_codec export_codec)))) = true.
Proof. vm_compute. reflexivity. Qed.

Lemma accepted_export_genuine_witness :
  ∃ q pages m, fixture_query = Ok q ∧ fixture_pages q = Ok pages ∧ Forall (λ p, export_manifest p = m) pages ∧
    manifest_organization m = fixture_organization ∧
    Forall2 (shows m) (pages ≫= export_records) [first_event; fixture_decision; second_event].
Proof.
  destruct (when_ok_true _ _ genuine_checked) as (q & Eq & H). destruct (when_ok_true _ _ H) as (pages & Ep & Hg).
  destruct (genuine_parts _ _ _ _ Hg) as (c & st & Hc & Hv & Hcomp & Hck & Hfit & Hfree).
  destruct (accepted_export_genuine audit_codec export_codec export_calls fixture_organization c pages st) as (m & Hm & Ho & HS & _).
  - exact Hc.
  - exact Hv.
  - exact Hcomp.
  - exact Hck.
  - exact Hfit.
  - exact Hfree.
  - exists q, pages, m. split; [exact Eq|]. split; [exact Ep|]. split; [exact Hm|]. split; [exact Ho|].
    rewrite events_known in HS. exact HS.
Defined.
